(* ===== verification/_CoqProject ===== *)
-Q . S2P
Prelude.v
Framing.v
Envelope.v
EnvelopeIdentity.v
EnvelopeCodec.v
InProcess.v
SharedMemory.v
SharedMemoryRing.v
Udp.v
UnixSocket.v
Tcp.v
TcpProofs.v
ConfigValue.v
ConfigValueProofs.v
ConfigRender.v
ConfigSchema.v
ConfigNetwork.v
ConfigNetworkProofs.v
ConfigGraph.v
ConfigGraphProofs.v
ResolvedNetwork.v
Spectrum.v
ConfigNodes.v
ConfigParse.v
Text.v
ResolvedTransport.v
Scenario.v
ConfigLoad.v
EdgeProofs.v
ConfigLoadProofs.v
Yaml.v
OwnershipState.v
OwnershipStateProofs.v
OwnershipLedger.v
PowerSpectrum.v
Assembler.v
AssemblerProofs.v
Pcapng.v
Control.v
Json.v
Telemetry.v
Otlp.v
Effects.v
Process.v
Native.v
ProcessProofs.v
NativeProofs.v
NativeRelease.v
NativeTheorems.v
Host.v
Ovs.v
Endpoint.v
EndpointCreate.v
Capture.v
Fault.v
Management.v
LifecyclePlan.v
LifecycleStatus.v
LifecycleCreate.v
Lifecycle.v
HostProofs.v
RemovalProofs.v
LifecycleSteps.v
LifecycleTheorems.v
DestroyProofs.v
FaultProofs.v
Compile.v
CompileProofs.v
CompileOutput.v
CompileOutputProofs.v
Guest.v
GuestProofs.v
ScenarioRun.v
ScenarioProofs.v
Command.v
Compose.v
ComposeUp.v
ComposeProofs.v
NodeSettings.v
Recorder.v
