(* ===== verification/Prelude.v ===== *)
(** * GraphX: a verification library for the C++ core

    GraphX runs graphs of processing nodes.  A graph is a YAML document; it is
    parsed, checked against embedded schemas and a locked catalog of node
    types, and resolved into contracts for its nodes.  Nodes exchange
    envelopes over in-process channels, shared memory, Unix-domain sockets,
    UDP or TCP.  The infrastructure the graph needs (bridges, name spaces,
    endpoints, captures, faults) is recorded in an ownership ledger, so that
    it can be taken down again.  VITA nodes turn signal packets into power
    spectra and detections.  All paths below are under src/.

    ** Conventions

    A throwing C++ function returns [result]; the constructors of [exn] are
    the exception classes of the sources with their texts, and [let*] is the
    sequencing of statements that may throw.  Machine integers are [Z] with
    their range as a predicate ([in_u32], ...) and their wrap-around written
    out ([u32], [u64], [i64]).  Bytes are [byte], texts [string].  Ordered maps
    and JSON-like objects are association lists in the order of the container;
    hash containers are [gmap] and [gset].  System calls, clocks, random
    devices and threads enter as arguments: a script of outcomes, one per
    call, or an interleaving of critical sections as a step relation.  A
    script that ends before the code is done gives [None].
    Third-party code is a parameter with the laws that the theorems need as
    named hypotheses, each instantiated in a witness: yaml-cpp (events, trees,
    conversions, emitter), OpenSSL (SHA-256, TLS reads and writes), inet_pton,
    std::regex, and the printing and reading of real numbers.

    ** Messages and transports

    - Framing.v: [frame], [decode_frame_size] (src/framing.cpp).
    - Envelope.v, EnvelopeIdentity.v, EnvelopeCodec.v (src/envelope.cpp):
      identities, their generator, the wire format.  Round trips both ways,
      exact sizes, uniqueness of identities within a process.
    - InProcess.v (src/in_process_transport.cpp): the critical sections of a
      channel and their interleavings.  Bounded FIFO; closing drains.
    - SharedMemory.v, SharedMemoryRing.v (src/shared_memory_transport.cpp):
      layout, critical sections, crash recovery.  The ring refines a queue.
    - Udp.v (src/udp_transport.cpp): option checks, datagrams, the
      receive loop, the sequence window, which is proved equivalent to a
      specification over the whole history.
    - UnixSocket.v (src/unix_domain_socket_transport.cpp):
      the read and write loops over partial transfers; end-to-end delivery.
    - Tcp.v, TcpProofs.v (src/tcp_transport.cpp): the same over plain sockets
      and TLS, connecting with retries, the second attempt of a send,
      reconnecting listeners.

    ** Configuration

    - ConfigValue.v, ConfigValueProofs.v, ConfigRender.v
      (include/graphx/config_value.hpp, src/config_document.cpp): values,
      objects, merging, rendering (which identifies the value), VITA checks.
    - ConfigParse.v (src/config_document.cpp): the syntax
      boundary over parser events and the conversion of scalars.
    - ConfigSchema.v (src/config_document.cpp): schema
      validation; it terminates on schemas whose references are well founded.
    - ConfigNetwork.v, ConfigGraph.v, ConfigNodes.v, ConfigLoad.v
      (src/config_v3.cpp) with their proof files and EdgeProofs.v: addresses,
      the network, targets, connections, node contracts, the locked catalog
      and the load of a whole graph, check by check in the order of the code.
    - ResolvedNetwork.v, ResolvedTransport.v (src/resolved_network.cpp,
      src/resolved_transport.cpp): typed records and projections onto them.
    - Scenario.v (src/scenario_config.cpp): scenario plans and the selection
      of a laboratory action.
    - Compile.v, CompileProofs.v (src/compile.cpp): the
      compilation of a resolved graph into the files of a deployment.  Services
      are confined, nodes get the credentials they declare, the manifest is
      complete; nodes called [console] and [reader] escape the first two.
    - CompileOutput.v, CompileOutputProofs.v (src/compile_output.cpp): the
      writing of these files.  The destination appears at once, behind complete
      files; every compilation passes the checks.

    ** Infrastructure

    - Yaml.v: node trees and the conversions the ledger uses.
    - OwnershipState.v, OwnershipStateProofs.v, OwnershipLedger.v
      (src/infra/ownership_state.cpp): the ledger record by record, its
      checks, its loading and its atomic saving, with the directory after
      every call.  A saved ledger is loaded back unchanged; a crash leaves the
      old or the new file; what is loaded satisfies [ledger_wf].
    - Pcapng.v (src/capture.cpp): the PCAPNG writer over its
      system calls.  A reader of the format finds exactly the frames whose
      recording returned, whatever writes failed.
    - Text.v: searching and cutting texts; stoll.
    - Control.v (src/observability.cpp): signed datagrams and
      the control thread.  Commands are authentic and executed once, until
      the set of nonces is emptied; then they can be replayed.
    - Json.v, Telemetry.v, Otlp.v
      (src/observability.cpp): a JSON reader as specification;
      the texts of telemetry and spans are read back, the metrics of an edge
      summarize its events, the exporter posts in order within its bound.

    ** Operation

    - Effects.v: programs as trees of system calls with unrestricted answers,
      programs with a state that survives exceptions, and verification
      conditions over the calls made so far.  A condition proved of a program
      holds at every point of every run, so also where the process dies.
    - Process.v, ProcessProofs.v (src/infra/process_resources.cpp): identifying,
      stopping and starting processes; what an event shows of a process.
    - Native.v, NativeProofs.v, NativeRelease.v, NativeTheorems.v
      (src/execution.cpp, src/infra/node_console.cpp,
      src/infra/application_lifecycle.hpp): up, down and status of native
      plans.  Signals follow an identification, no process that may run is
      missing in the ledger on disk, the release follows readiness, and a
      finished down has seen every process gone.
    - Command.v (src/infra/command_runner.cpp, src/infra.cpp): the child of a
      command, its pipes and its end; plans of commands.  Elsewhere a command is
      one call.  No child is left, and the output is what was read.
    - Guest.v, GuestProofs.v (src/infra/qemu_resources.cpp): the artifacts,
      the start, the inspection and the directories of QEMU guests.  Bytes go
      to the process forked for the guest, over identified connections, behind
      verified boot files; nothing is removed from an unidentified directory.
    - [StartProofs] of NativeTheorems.v: the readiness line, and what a child did before [execve].

    ** The network on the host

    All of it is in programs over system calls (Effects.v); a command is a
    call with its arguments, answered with any status and any output.  What a
    theorem knows of the host is what the answers to earlier calls showed.
    The ledger is the state of a program, every saving of it is a call that
    carries the ledger, so the ledgers that may be on disk at any point of a
    run can be read off its calls.

    - Host.v: running commands, reading files of /sys, changes of the ledger.
    - Ovs.v (src/infra/ovs_resources.cpp, namespace_resources.cpp): bridges,
      mirrors, VLANs, flows and name spaces.
    - Endpoint.v, EndpointCreate.v (src/infra/endpoint_resources.cpp): who owns
      an endpoint, whether it is healthy, its creation and its removal.
    - Capture.v (src/infra/capture_resources.cpp): processes and sealed
      directories of captures.  A directory is listed by one call.
    - Fault.v (src/infra/fault_resources.cpp): queueing disciplines with timers.
      The timer is a child process with a program of its own.
    - Management.v (src/infra/management_policy.cpp): the firewall of the
      management network and its identity.
    - LifecyclePlan.v, LifecycleStatus.v, LifecycleCreate.v, Lifecycle.v
      (src/infra/lifecycle_coordinator.cpp): the plan, the status, creation
      with its rollback, destruction and recovery, and the export of captures.
      The order of a hash container is that of the configuration; the lock of
      the ledger is a flag of the context.
    - HostProofs.v: which calls look, configure and make; the routines of the
      modules above by what they call.
    - RemovalProofs.v, LifecycleSteps.v,
      LifecycleTheorems.v, DestroyProofs.v: a bridge, interface or
      name space that is made is expected in every ledger on disk; what is removed was shown to be ours;
      a destruction inspects everything first; a ledger with a vanished tap
      device or fault target is never destroyed.
    - ScenarioRun.v, ScenarioProofs.v (src/infra/scenario_execution.cpp): the
      actions of a scenario on a graph that runs.  The host is changed under a
      pending record in every ledger on disk, the removal of a route under that of
      the action that applied it, and a pending action is refused.
    - Compose.v, ComposeUp.v, ComposeProofs.v (src/infra/compose_execution.cpp):
      up, down and status of graphs of containers.  Containers, networks and
      volumes that are stopped or removed were shown to be the graph's; services
      mount volumes of the graph and what they can only read of its run.
    - NodeSettings.v (src/node_settings.cpp): what an application reads of its
      node.  A loaded node fits the contract of its type.
    - FaultProofs.v: a discipline is removed behind its identity; an own child
      that nobody waits for is never found stopped.

    ** Signal processing

    - Spectrum.v (src/vita/processing.cpp): configuration,
      checks and the canonical wire format of power spectra.
    - PowerSpectrum.v (src/vita/processing.cpp): the
      in-place transform over abstract arithmetic and the detector.  In any
      arithmetic it is the recursive transform, operation by operation; the
      witness computes with binary64.  Over exact arithmetic that is the
      discrete Fourier transform.
    - Assembler.v, AssemblerProofs.v (src/vita/processing.cpp): the sample
      assembler, method by method.  Its queues stay bounded and sorted, its
      windows are those of the stream, and what it emits can be decoded.
    - Recorder.v (src/vita/recorder.cpp): the passive recorder and its filter of
      system calls.  The filter decides every call as its policy says, and no
      frame is received before it is in force.

    ** Theorems

    The claims are the theorems whose doc comment starts with a claim number.
    Wire formats and the ledger have round trips; channels, ring and sockets
    have invariants under every interleaving and refine queues or streams; the
    loader has safety theorems about every accepted graph; searches and
    validations have termination theorems.  Some theorems show defects: a trace
    sink that throws makes the TCP transport send a frame twice, control
    commands can be replayed once the nonces are emptied, ledgers with vanished
    devices are never destroyed, own children are not found stopped, and the
    names [console] and [reader] are not reserved.

    ** Fuel and bounds

    Fuel is used where the recursion of the code is not structural: the cycle
    search [reaches] gets one more than the number of edges, and is proved to
    decide reachability with it; [validate_shape] gets a fuel that the
    termination theorem bounds by the rank of the schema and the depth of the
    value; running out is [StackOverflow], never a value.  Loops over system
    calls recurse on the script of outcomes.
    The butterflies of a transform run with 64 rounds of carry and 64 stages,
    proved enough for windows below 2^64 ([carry_stops], [stages_stop]); the
    padding of a capture block needs at most three rounds ([pad32_zeros]).
    The loops of Command.v end with the call [Rounds] in the same way.
    The writes of a compilation run out of rounds only by interruptions
    ([write_all_progress]).
    A waiting loop of Native.v, Guest.v, ScenarioRun.v or ComposeUp.v has a number of rounds; a run that needs more
    ends with the call [Spinning], which has no answer, so that statements
    about all runs hold for every number of rounds.

    ** Not modelled

    Command lines and their output (apps/, src/example_cli.cpp, src/infra.cpp),
    socket and file set-up, the wrapping of OpenSSL, the reading of files with
    their path confinement, and diagnostics text are left out where they only
    pass values to the system.
    The qualification hooks of a Compose run, the hand-over of captures to the
    platform and the node applications other than the recorder are not modelled.  The telemetry front end (web/) and
    the Wireshark dissector are not C++. *)

From Stdlib Require Import ZArith Lia Strings.Byte Strings.Ascii Strings.String.
From stdpp Require Import base gmap strings list sorting pretty.

(** ** C++ exceptions and the error monad

    A throwing C++ function returns [result A]; the constructors of [exn] are
    the exception classes the sources throw, with their [what()] text. *)

Inductive exn :=
| InvalidArgument (what : string)
| LengthError (what : string)
| RuntimeError (what : string)
| OutOfRange (what : string)
| LogicError (what : string)
| BadVariantAccess
| StackOverflow            (** recursion deeper than the fuel of the model *)
| ConfigError (code path message : string).

#[export] Instance exn_eq_dec : EqDecision exn.
Proof. solve_decision. Defined.

(** [std::exception::what()].  The text of [std::bad_variant_access] is the
    implementation's. *)
Definition what (e : exn) : string :=
  match e with
  | InvalidArgument w | LengthError w | RuntimeError w | OutOfRange w | LogicError w => w
  | BadVariantAccess => "bad_variant_access"
  | StackOverflow => "stack overflow"
  | ConfigError code path message =>
      "configuration validation failed with 1 error" +:+ String "010" EmptyString +:+ "- "
        +:+ code +:+ " " +:+ path +:+ ": " +:+ message
  end.

Inductive result (A : Type) :=
| Ok (a : A)
| Throw (e : exn).
Arguments Ok {A} a.
Arguments Throw {A} e.

Definition bind {A B} (r : result A) (f : A -> result B) : result B :=
  match r with
  | Ok a => f a
  | Throw e => Throw e
  end.

Create HintDb machine.
Create Rewrite HintDb machine_rw.
Create Rewrite HintDb bytes_rw.

Declare Scope result_scope.
Delimit Scope result_scope with result.
Notation "'let*' x ':=' e 'in' k" := (bind e (fun x => k))
  (at level 10, x pattern, e at level 200, k at level 200,
   format "'[v' 'let*'  x  ':='  e  'in' '/' k ']'") : result_scope.
Open Scope result_scope.

Definition is_ok {A} (r : result A) : bool :=
  match r with Ok _ => true | Throw _ => false end.

Lemma is_ok_inv {A} (r : result A) : is_ok r = true -> exists a, r = Ok a.
Proof. destruct r as [a|]; [by exists a|done]. Qed.

(** [if (bad) throw e;] *)
Definition throw_if (bad : bool) (e : exn) : result unit :=
  if bad then Throw e else Ok tt.

(** A [for] loop whose body may throw and updates a state. *)
Fixpoint fold_result {A S} (body : A -> S -> result S) (l : list A) (s : S) : result S :=
  match l with
  | [] => Ok s
  | a :: l' => let* s' := body a s in fold_result body l' s'
  end.

(** A [for] loop whose body only checks. *)
Fixpoint for_each {A} (body : A -> result unit) (l : list A) : result unit :=
  match l with
  | [] => Ok tt
  | a :: l' => let* _ := body a in for_each body l'
  end.

(** Element-wise translation of a range, left to right. *)
Fixpoint map_result {A B} (f : A -> result B) (l : list A) : result (list B) :=
  match l with
  | [] => Ok []
  | a :: l' => let* b := f a in let* bs := map_result f l' in Ok (b :: bs)
  end.

Lemma bind_ok {A B} (r : result A) (f : A -> result B) b :
  bind r f = Ok b <-> exists a, r = Ok a /\ f a = Ok b.
Proof.
  destruct r as [a|e]; simpl; split.
  - by exists a.
  - by intros (x & [= <-] & ?).
  - done.
  - by intros (x & ? & ?).
Qed.

Lemma bind_ok_r {A} (r : result A) : bind r Ok = r.
Proof. by destruct r. Qed.

Lemma bind_assoc {A B C} (r : result A) (f : A -> result B) (g : B -> result C) :
  bind (bind r f) g = bind r (fun a => bind (f a) g).
Proof. by destruct r. Qed.

Lemma Ok_inj {A} (a b : A) : Ok a = Ok b -> a = b.
Proof. congruence. Qed.

Lemma throw_if_ok b e u : throw_if b e = Ok u <-> b = false.
Proof. by destruct b, u. Qed.

Lemma throw_if_throw b e e' : throw_if b e = Throw e' <-> b = true /\ e = e'.
Proof. destruct b; simpl; split; [by intros [= ->]|by intros [_ ->]|done|by intros []]. Qed.

(** Takes apart every successful computation among the hypotheses. *)
Ltac invert_ok :=
  repeat match goal with
  | H : Ok _ = Ok _ |- _ => apply Ok_inj in H; try subst
  | H : (_, _) = (_, _) |- _ => injection H; clear H; intros; try subst
  | H : Throw _ = Ok _ |- _ => discriminate H
  | H : Ok _ = Throw _ |- _ => discriminate H
  | H : bind _ _ = Ok _ |- _ =>
      let a := fresh "a" in let Ha := fresh "H" in
      apply bind_ok in H; destruct H as (a & Ha & H)
  | H : throw_if _ _ = Ok _ |- _ => apply throw_if_ok in H
  | u : unit |- _ => destruct u
  | p : (_ * _)%type |- _ => destruct p
  end.

(** Turns boolean hypotheses into propositions. *)
Ltac reflect_bools :=
  repeat match goal with
  | H : _ || _ = false |- _ => apply orb_false_iff in H; destruct H
  | H : _ && _ = true |- _ => apply andb_true_iff in H; destruct H
  | H : negb _ = false |- _ => apply negb_false_iff in H
  | H : negb _ = true |- _ => apply negb_true_iff in H
  | H : (_ <? _)%Z = false |- _ => apply Z.ltb_ge in H
  | H : (_ <? _)%Z = true |- _ => apply Z.ltb_lt in H
  | H : (_ <=? _)%Z = false |- _ => apply Z.leb_gt in H
  | H : (_ <=? _)%Z = true |- _ => apply Z.leb_le in H
  | H : (_ =? _)%Z = false |- _ => apply Z.eqb_neq in H
  | H : (_ =? _)%Z = true |- _ => apply Z.eqb_eq in H
  | H : (_ =? _)%nat = true |- _ => apply Nat.eqb_eq in H
  | H : String.eqb _ _ = true |- _ => apply String.eqb_eq in H
  | H : String.eqb _ _ = false |- _ => apply String.eqb_neq in H
  end.

Lemma fold_result_invariant {A S} (P : S -> Prop) (body : A -> S -> result S) l s s' :
  (forall a s s', a ∈ l -> P s -> body a s = Ok s' -> P s') ->
  P s -> fold_result body l s = Ok s' -> P s'.
Proof.
  revert s; induction l as [|a l IH]; intros s Hstep HP H; simpl in H; invert_ok; [done|].
  eapply IH; [|eapply Hstep; [left|exact HP|done]|done].
  intros ? ? ? ? ? ?; eapply Hstep; [by right|done|done].
Qed.

(** The invariant may also speak of the elements consumed so far. *)
Lemma fold_result_prefix {A S} (P : list A -> S -> Prop) (body : A -> S -> result S) l s s' :
  P [] s ->
  (forall pre a s s', a ∈ l -> P pre s -> body a s = Ok s' -> P (pre ++ [a]) s') ->
  fold_result body l s = Ok s' -> P l s'.
Proof.
  intros H0 Hstep.
  enough (forall pre l' s, pre ++ l' = l -> P pre s -> fold_result body l' s = Ok s' -> P l s')
    as Hgen by (by apply (Hgen [])).
  intros pre l'; revert pre; induction l' as [|a l' IH]; intros pre s1 Hl HP H; simpl in H.
  - rewrite app_nil_r in Hl; by invert_ok.
  - invert_ok. eapply (IH (pre ++ [a])); [by rewrite <-app_assoc| |done].
    eapply Hstep; [|done|done]. subst l. set_solver.
Qed.

Lemma fold_result_app {A S} (body : A -> S -> result S) l1 l2 s :
  fold_result body (l1 ++ l2) s = bind (fold_result body l1 s) (fold_result body l2).
Proof.
  revert s; induction l1 as [|a l1 IH]; intros s; simpl; [done|].
  destruct (body a s); simpl; [apply IH|done].
Qed.

Lemma for_each_ok {A} (body : A -> result unit) l :
  for_each body l = Ok tt <-> forall a, a ∈ l -> body a = Ok tt.
Proof.
  induction l as [|a l IH]; simpl.
  - split; [intros _ ? Ha; by apply elem_of_nil in Ha|done].
  - rewrite bind_ok. setoid_rewrite elem_of_cons. split.
    + intros ([] & Ha & Hl) x [->|Hx]; [done|by apply IH].
    + intros H; exists tt; split; [by apply H; left|]. apply IH; eauto.
Qed.

Lemma map_result_ok {A B} (f : A -> result B) l bs :
  map_result f l = Ok bs <-> Forall2 (fun a b => f a = Ok b) l bs.
Proof.
  revert bs; induction l as [|a l IH]; intros bs; simpl.
  - split; [intros [= <-]; constructor|by inversion 1].
  - rewrite bind_ok. setoid_rewrite bind_ok. setoid_rewrite IH. split.
    + intros (b & Hb & bs' & Hbs & [= <-]); by constructor.
    + inversion 1; subst; eauto 10.
Qed.

Lemma map_result_length {A B} (f : A -> result B) l bs :
  map_result f l = Ok bs -> length bs = length l.
Proof. intros H%map_result_ok. by apply Forall2_length in H. Qed.

(** ** Machine integers: [Z] with the wrap-around of a conversion written out *)

Definition u8 (z : Z) : Z := (z mod 2 ^ 8)%Z.
Definition u16 (z : Z) : Z := (z mod 2 ^ 16)%Z.
Definition u32 (z : Z) : Z := (z mod 2 ^ 32)%Z.
Definition u64 (z : Z) : Z := (z mod 2 ^ 64)%Z.
Definition i64 (z : Z) : Z := ((z + 2 ^ 63) mod 2 ^ 64 - 2 ^ 63)%Z.

Definition in_u8 (z : Z) : Prop := (0 <= z < 2 ^ 8)%Z.
Definition in_u32 (z : Z) : Prop := (0 <= z < 2 ^ 32)%Z.
Definition in_u64 (z : Z) : Prop := (0 <= z < 2 ^ 64)%Z.
Definition in_i64 (z : Z) : Prop := (- 2 ^ 63 <= z < 2 ^ 63)%Z.

Lemma u64_small z : in_u64 z -> u64 z = z.
Proof. apply Z.mod_small. Qed.
Lemma u32_small z : in_u32 z -> u32 z = z.
Proof. apply Z.mod_small. Qed.
Lemma u8_small z : in_u8 z -> u8 z = z.
Proof. apply Z.mod_small. Qed.
Lemma u64_range z : in_u64 (u64 z).
Proof. apply Z.mod_pos_bound; lia. Qed.
Lemma u32_range z : in_u32 (u32 z).
Proof. apply Z.mod_pos_bound; lia. Qed.

(** A signed value survives the round trip through its unsigned image. *)
Lemma i64_u64 z : in_i64 z -> i64 (u64 z) = z.
Proof.
  intros Hz; unfold i64, u64, in_i64 in *.
  rewrite Zplus_mod_idemp_l, Z.mod_small; lia.
Qed.

#[export] Hint Resolve u64_range u32_range : machine.
#[export] Hint Rewrite u64_small u32_small u8_small using done : machine_rw.

(** The test of [std::has_single_bit] finds the powers of two. *)
Lemma land_pred_power n :
  (0 < n)%Z -> Z.land n (n - 1) = 0%Z -> n = (2 ^ Z.log2 n)%Z.
Proof.
  intros Hn H. pose proof (Z.log2_spec n Hn) as [Hlo Hhi]. set (k := Z.log2 n) in *.
  assert (Hk : (0 <= k)%Z) by apply Z.log2_nonneg.
  destruct (Z.eq_dec n (2 ^ k)%Z) as [|Hne]; [done|]. exfalso.
  assert (Z.testbit (Z.land n (n - 1)) k = true).
  { rewrite Z.land_spec. assert (Hb : forall m, (2 ^ k <= m < 2 ^ Z.succ k)%Z -> Z.testbit m k = true).
    { intros m Hm. rewrite Z.testbit_true by done.
      replace (m / 2 ^ k)%Z with 1%Z; [done|]. rewrite Z.pow_succ_r in Hm by done.
      apply Z.div_unique with (m - 2 ^ k)%Z; lia. }
    rewrite !Hb by lia. done. }
  rewrite H, Z.bits_0 in *. done.
Qed.

(** ** Bytes *)

Definition Z_of_byte (b : byte) : Z := Z.of_N (Byte.to_N b).

Definition byte_of_Z (z : Z) : byte :=
  match Byte.of_N (Z.to_N (z mod 256)) with
  | Some b => b
  | None => x00
  end.

Lemma Z_of_byte_range b : (0 <= Z_of_byte b < 256)%Z.
Proof.
  unfold Z_of_byte. pose proof (Byte.to_N_bounded b). lia.
Qed.

Lemma Z_of_byte_of_Z z : Z_of_byte (byte_of_Z z) = (z mod 256)%Z.
Proof.
  unfold Z_of_byte, byte_of_Z.
  pose proof (Z.mod_pos_bound z 256 ltac:(lia)).
  destruct (Byte.of_N _) as [b|] eqn:Hb.
  - apply Byte.to_of_N in Hb. rewrite Hb. lia.
  - apply Byte.of_N_None_iff in Hb. lia.
Qed.

Lemma byte_of_Z_of_byte b : byte_of_Z (Z_of_byte b) = b.
Proof.
  unfold byte_of_Z, Z_of_byte. pose proof (Byte.to_N_bounded b).
  rewrite Z.mod_small, N2Z.id, Byte.of_to_N by lia. done.
Qed.

Lemma Z_of_byte_inj b c : Z_of_byte b = Z_of_byte c -> b = c.
Proof. intros H. by rewrite <-(byte_of_Z_of_byte b), H, byte_of_Z_of_byte. Qed.

#[export] Hint Resolve Z_of_byte_range : machine.

(** ** Big-endian numbers: the one wire representation of every codec *)

Fixpoint be_bytes (n : nat) (v : Z) : list byte :=
  match n with
  | O => []
  | S k => byte_of_Z (Z.shiftr v (8 * Z.of_nat k)) :: be_bytes k v
  end.

Definition be_value (l : list byte) : Z :=
  fold_left (fun acc b => Z.lor (Z.shiftl acc 8) (Z_of_byte b)) l 0%Z.

Lemma shl8_lor a b : (0 <= b < 256)%Z -> Z.lor (Z.shiftl a 8) b = (a * 256 + b)%Z.
Proof.
  intros Hb. rewrite <-Z.add_nocarry_lor.
  - rewrite Z.shiftl_mul_pow2 by lia. lia.
  - apply Z.bits_inj'. intros n Hn. rewrite Z.land_spec, Z.bits_0.
    destruct (Z.ltb_spec n 8).
    + by rewrite Z.shiftl_spec_low.
    + rewrite (Z.bits_above_log2 b), andb_false_r; [done|lia|].
      destruct (decide (b = 0)%Z); [subst; simpl; lia|].
      apply Z.lt_le_trans with 8%Z; [|done]. apply Z.log2_lt_pow2; lia.
Qed.

Lemma be_value_snoc l b : be_value (l ++ [b]) = (be_value l * 256 + Z_of_byte b)%Z.
Proof.
  unfold be_value. rewrite fold_left_app. simpl. apply shl8_lor. auto with machine.
Qed.

Lemma be_bytes_length n v : length (be_bytes n v) = n.
Proof. induction n; simpl; congruence. Qed.

Lemma be_bytes_snoc n v :
  be_bytes (S n) v = be_bytes n (Z.shiftr v 8) ++ [byte_of_Z v].
Proof.
  induction n as [|n IH]; [simpl; by rewrite Z.shiftr_0_r|].
  change (be_bytes (S (S n)) v)
    with (byte_of_Z (Z.shiftr v (8 * Z.of_nat (S n))) :: be_bytes (S n) v).
  rewrite IH. simpl. rewrite Z.shiftr_shiftr by lia. do 3 f_equal. lia.
Qed.

Lemma be_value_bound l : (0 <= be_value l < 2 ^ (8 * Z.of_nat (length l)))%Z.
Proof.
  induction l as [|b l IH] using rev_ind; [done|].
  rewrite be_value_snoc, length_app. simpl length. pose proof (Z_of_byte_range b).
  replace (8 * Z.of_nat (length l + 1))%Z with (8 * Z.of_nat (length l) + 8)%Z by lia.
  rewrite Z.pow_add_r by lia. lia.
Qed.

Lemma be_value_be_bytes n v : be_value (be_bytes n v) = (v mod 2 ^ (8 * Z.of_nat n))%Z.
Proof.
  revert v; induction n as [|n IH]; intros v; [by rewrite Z.mod_1_r|].
  rewrite be_bytes_snoc, be_value_snoc, IH, Z_of_byte_of_Z, Z.shiftr_div_pow2 by lia.
  replace (8 * Z.of_nat (S n))%Z with (8 + 8 * Z.of_nat n)%Z by lia.
  rewrite Z.pow_add_r by lia.
  assert (Hpos : (0 < 2 ^ (8 * Z.of_nat n))%Z) by (apply Z.pow_pos_nonneg; lia).
  rewrite (Z.rem_mul_r v (2 ^ 8) _ ltac:(done) Hpos).
  change (2 ^ 8)%Z with 256%Z. ring.
Qed.

Lemma be_bytes_be_value l : be_bytes (length l) (be_value l) = l.
Proof.
  induction l as [|b l IH] using rev_ind; [done|].
  rewrite length_app, Nat.add_comm. simpl (1 + _). rewrite be_bytes_snoc, be_value_snoc.
  pose proof (Z_of_byte_range b).
  f_equal.
  - rewrite Z.shiftr_div_pow2 by lia. change (2 ^ 8)%Z with 256%Z.
    rewrite Z.div_add_l, Z.div_small, Z.add_0_r by lia. exact IH.
  - f_equal. apply Z_of_byte_inj.
    rewrite Z_of_byte_of_Z, Z.add_comm, Z.mod_add, Z.mod_small by lia. done.
Qed.

Lemma be_value_be_bytes_small n v :
  (0 <= v < 2 ^ (8 * Z.of_nat n))%Z -> be_value (be_bytes n v) = v.
Proof. intros Hv. rewrite be_value_be_bytes. by apply Z.mod_small. Qed.

(** An accumulator of [w] bits never wraps while it still has room for the
    bytes that are left. *)
Lemma accumulate_be_value w l acc :
  (0 <= acc)%Z -> ((acc + 1) * 2 ^ (8 * Z.of_nat (length l)) <= 2 ^ w)%Z ->
  fold_left (fun v b => Z.lor (Z.shiftl v 8 mod 2 ^ w) (Z_of_byte b)) l acc
  = fold_left (fun v b => Z.lor (Z.shiftl v 8) (Z_of_byte b)) l acc.
Proof.
  revert acc; induction l as [|b l IH]; intros acc Hacc Hb; [done|].
  simpl fold_left. pose proof (Z_of_byte_range b) as Hr.
  assert (Hp : (2 ^ (8 * Z.of_nat (length (b :: l))) = 256 * 2 ^ (8 * Z.of_nat (length l)))%Z).
  { simpl length. rewrite Nat2Z.inj_succ, Z.mul_succ_r, Z.pow_add_r by lia. lia. }
  assert (0 < 2 ^ (8 * Z.of_nat (length l)))%Z by (apply Z.pow_pos_nonneg; lia).
  rewrite Hp in Hb.
  rewrite (Z.mod_small (Z.shiftl acc 8)) by (rewrite Z.shiftl_mul_pow2 by lia; nia).
  apply IH; rewrite shl8_lor by done; nia.
Qed.

Lemma be_bytes_map n v :
  be_bytes n v = map (fun i => byte_of_Z (Z.shiftr v (8 * Z.of_nat (n - 1 - i)))) (seq 0 n).
Proof.
  induction n as [|n IH]; [done|].
  change (be_bytes (S n) v) with (byte_of_Z (Z.shiftr v (8 * Z.of_nat n)) :: be_bytes n v).
  rewrite IH. simpl. f_equal; [do 4 f_equal; lia|].
  rewrite <-seq_shift, map_map. apply map_ext. intros i. do 4 f_equal. lia.
Qed.

(** Masking with [0xff] before the narrowing cast changes nothing. *)
Lemma byte_of_Z_land z : byte_of_Z (Z.land z 255) = byte_of_Z z.
Proof.
  apply Z_of_byte_inj. rewrite !Z_of_byte_of_Z.
  change 255%Z with (Z.ones 8). rewrite Z.land_ones by lia. by rewrite Z.mod_mod.
Qed.

Lemma be_bytes_inj n v w :
  (0 <= v < 2 ^ (8 * Z.of_nat n))%Z -> (0 <= w < 2 ^ (8 * Z.of_nat n))%Z ->
  be_bytes n v = be_bytes n w -> v = w.
Proof. intros Hv Hw H. by rewrite <-(be_value_be_bytes_small n v), H, be_value_be_bytes_small. Qed.

#[export] Hint Rewrite be_bytes_length : bytes_rw.

(** [std::string] and its bytes *)
Definition bytes_of (s : string) : list byte := list_byte_of_string s.
Definition string_of (l : list byte) : string := string_of_list_byte l.
Definition size (s : string) : Z := Z.of_nat (String.length s).

Lemma string_of_bytes_of s : string_of (bytes_of s) = s.
Proof. apply string_of_list_byte_of_string. Qed.
Lemma bytes_of_string_of l : bytes_of (string_of l) = l.
Proof. apply list_byte_of_string_of_list_byte. Qed.
Lemma bytes_of_length s : length (bytes_of s) = String.length s.
Proof.
  unfold bytes_of, list_byte_of_string. rewrite length_map.
  induction s; simpl; congruence.
Qed.

Lemma bytes_of_inj s t : bytes_of s = bytes_of t -> s = t.
Proof. intros H. by rewrite <-(string_of_bytes_of s), H, string_of_bytes_of. Qed.

(** [std::to_string] of an integer *)
Definition to_string (z : Z) : string := pretty z.

#[export] Hint Rewrite string_of_bytes_of bytes_of_string_of bytes_of_length : bytes_rw.
