(* ===== verification/Framing.v ===== *)
(** * Length-prefixed frames (src/src/framing.cpp, src/include/graphx/framing.hpp)

    [frame] puts a four-byte big-endian length before a payload;
    [decode_frame_size] reads it back and refuses anything above
    [kMaxFrameBytes].  The class [Codec] is the interface between the framing
    and transport layers and the message formats they carry. *)

From Stdlib Require Import ZArith Lia Strings.Byte Strings.String.
From stdpp Require Import base list.
From S2P Require Import Prelude.

(** ** What a message format promises to the transports *)
Class Codec (A : Type) := {
  codec_wf : A -> Prop;
  encode : A -> result (list byte);
  decode : list byte -> result A;
  encode_wf : forall a, codec_wf a -> exists w, encode a = Ok w;
  decode_encode : forall a w, codec_wf a -> encode a = Ok w -> decode w = Ok a;
}.

Module Framing.

Local Open Scope Z_scope.

Definition kMaxFrameBytes : Z := 16 * 1024 * 1024.

Definition frame (payload : list byte) : result (list byte) :=
  if kMaxFrameBytes <? Z.of_nat (length payload)
  then Throw (LengthError "frame too large")
  else
    let size := u32 (Z.of_nat (length payload)) in
    Ok ([ byte_of_Z (Z.land (Z.shiftr size 24) 255);
          byte_of_Z (Z.land (Z.shiftr size 16) 255);
          byte_of_Z (Z.land (Z.shiftr size 8) 255);
          byte_of_Z (Z.land size 255) ] ++ payload).

Definition decode_frame_size (prefix : list byte) : result Z :=
  let size := fold_left (fun size b => Z.lor (u32 (Z.shiftl size 8)) (Z_of_byte b)) prefix 0 in
  if kMaxFrameBytes <? size
  then Throw (LengthError "frame exceeds configured maximum")
  else Ok size.

(** ** Helper lemmas *)

Lemma frame_eq payload :
  Z.of_nat (length payload) <= kMaxFrameBytes ->
  frame payload = Ok (be_bytes 4 (Z.of_nat (length payload)) ++ payload).
Proof.
  intros Hlen. unfold frame.
  destruct (Z.ltb_spec kMaxFrameBytes (Z.of_nat (length payload))); [lia|].
  rewrite !byte_of_Z_land, u32_small; [done|unfold in_u32, kMaxFrameBytes in *; lia].
Qed.

Lemma decode_frame_size_eq prefix :
  length prefix = 4%nat ->
  decode_frame_size prefix =
    if kMaxFrameBytes <? be_value prefix
    then Throw (LengthError "frame exceeds configured maximum") else Ok (be_value prefix).
Proof.
  intros Hlen. unfold decode_frame_size.
  unfold u32. by rewrite accumulate_be_value by (rewrite ?Hlen; done).
Qed.

(** ** Properties *)

(** Every payload of at most 16 MiB is framed, its four-byte prefix decodes
    to its length and the bytes after the prefix are the payload. *)
Theorem frame_roundtrip payload :
  Z.of_nat (length payload) <= kMaxFrameBytes ->
  exists wire, frame payload = Ok wire
    /\ decode_frame_size (take 4 wire) = Ok (Z.of_nat (length payload))
    /\ drop 4 wire = payload.
Proof.
  intros Hlen. rewrite frame_eq by done. eexists; split; [done|].
  rewrite take_app_length' by done. rewrite drop_app_length' by done. split; [|done].
  rewrite decode_frame_size_eq by done.
  rewrite be_value_be_bytes_small by (unfold kMaxFrameBytes in *; simpl; lia).
  by destruct (Z.ltb_spec kMaxFrameBytes (Z.of_nat (length payload))); [lia|].
Qed.

Lemma frame_roundtrip_witness :
  exists wire, frame [x01; x02; x03] = Ok wire
    /\ decode_frame_size (take 4 wire) = Ok 3 /\ drop 4 wire = [x01; x02; x03].
Proof. apply (frame_roundtrip [x01; x02; x03]). vm_compute. discriminate. Defined.

Lemma frame_ok payload wire :
  frame payload = Ok wire ->
  Z.of_nat (length payload) <= kMaxFrameBytes
  /\ wire = be_bytes 4 (Z.of_nat (length payload)) ++ payload.
Proof.
  intros H. destruct (Z.leb_spec (Z.of_nat (length payload)) kMaxFrameBytes) as [Hl|Hl].
  - rewrite frame_eq in H by done. injection H as <-. done.
  - unfold frame in H. destruct (Z.ltb_spec kMaxFrameBytes (Z.of_nat (length payload))); [done|lia].
Qed.

Lemma frame_prefix payload wire :
  frame payload = Ok wire ->
  length wire = (4 + length payload)%nat
  /\ decode_frame_size (take 4 wire) = Ok (Z.of_nat (length payload))
  /\ drop 4 wire = payload.
Proof.
  intros [Hl ->]%frame_ok. rewrite length_app, be_bytes_length. split; [done|].
  rewrite take_app_length', drop_app_length' by done. split; [|done].
  rewrite decode_frame_size_eq by done.
  rewrite be_value_be_bytes_small by (unfold kMaxFrameBytes in *; simpl; lia).
  by destruct (Z.ltb_spec kMaxFrameBytes (Z.of_nat (length payload))); [lia|].
Qed.

(** On any four bytes [decode_frame_size] returns their big-endian value
    when it is at most 16 MiB and throws otherwise, so no accepted prefix makes
    a reader allocate more than the configured maximum; [frame] throws exactly
    on larger payloads. *)
Theorem decode_frame_size_spec prefix payload :
  length prefix = 4%nat ->
  (forall n, decode_frame_size prefix = Ok n <->
     0 <= n <= kMaxFrameBytes /\ be_bytes 4 n = prefix)
  /\ (is_ok (frame payload) = true <-> Z.of_nat (length payload) <= kMaxFrameBytes).
Proof.
  intros Hlen. split.
  - intros n. rewrite decode_frame_size_eq by done. pose proof (be_value_bound prefix).
    assert (Hb : be_bytes 4 (be_value prefix) = prefix) by (rewrite <-Hlen; apply be_bytes_be_value).
    destruct (Z.ltb_spec kMaxFrameBytes (be_value prefix)); split.
    + done.
    + intros [Hn Hp]. rewrite <-Hp in *. unfold kMaxFrameBytes in *.
      rewrite be_value_be_bytes_small in * by lia. lia.
    + intros [= <-]. split; [lia|done].
    + intros [Hn <-]. by rewrite be_value_be_bytes_small by (unfold kMaxFrameBytes in *; lia).
  - unfold frame. destruct (Z.ltb_spec kMaxFrameBytes (Z.of_nat (length payload))); simpl; split; try done; lia.
Qed.

Lemma decode_frame_size_spec_witness :
  (forall n, decode_frame_size [x00; x00; x01; x00] = Ok n <->
     0 <= n <= kMaxFrameBytes /\ be_bytes 4 n = [x00; x00; x01; x00])
  /\ (is_ok (frame [x2a]) = true <-> Z.of_nat (length [x2a]) <= kMaxFrameBytes).
Proof. apply decode_frame_size_spec. reflexivity. Defined.

(** Single frames are themselves a message format: the smallest instance of
    the interface. *)
Definition unframe (wire : list byte) : result (list byte) :=
  let* n := decode_frame_size (take 4 wire) in
  if Z.of_nat (length (drop 4 wire)) =? n then Ok (drop 4 wire)
  else Throw (RuntimeError "frame length does not match prefix").

#[export] Instance frame_codec : Codec (list byte).
Proof.
  refine {| codec_wf payload := Z.of_nat (length payload) <= kMaxFrameBytes;
            encode := frame; decode := unframe |}.
  - intros a Ha. rewrite frame_eq by done. eauto.
  - intros a w _ (_ & Hp & Hd)%frame_prefix. unfold unframe. rewrite Hp. cbn [bind].
    by rewrite Hd, Z.eqb_refl.
Defined.

End Framing.
