(* ===== verification/Envelope.v ===== *)
(** * The envelope wire format (src/src/envelope.cpp, src/include/graphx/envelope.hpp)

    Identities (hexadecimal 128-bit values and their generator), the envelope
    record, its size accounting, [serialize] and [deserialize].

    A [Reader] is modelled by the bytes it has not consumed yet: the suffix of
    [bytes_] from [position_], so [require] compares with its length and
    [done] asks whether it is empty.  Clock readings and random-device words
    are arguments. *)

From Stdlib Require Import ZArith Lia Strings.Byte Strings.String.
From stdpp Require Import base gmap strings list sorting.
From S2P Require Import Prelude Framing.

Module Envelope.
Import Framing.
Local Open Scope Z_scope.

Definition kEnvelopeWireVersion : Z := 2.
Definition kIdentityHexLength : Z := 32.
Definition kMaxEnvelopeAttributes : Z := 4096.

(** ** Identities *)

Definition hex_digit (value : Z) : byte :=
  if value <? 10 then byte_of_Z (48 + value) else byte_of_Z (97 + value - 10).

Definition hex_value (value : byte) : result Z :=
  let c := Z_of_byte value in
  if (48 <=? c) && (c <=? 57) then Ok (u8 (c - 48))
  else if (97 <=? c) && (c <=? 102) then Ok (u8 (c - 97 + 10))
  else Throw (InvalidArgument "identity must contain lowercase hexadecimal characters").

Definition is_hex (character : byte) : bool :=
  let c := Z_of_byte character in
  ((48 <=? c) && (c <=? 57)) || ((97 <=? c) && (c <=? 102)).

Fixpoint scan_identity (value : list byte) (nonzero : bool) : bool :=
  match value with
  | [] => nonzero
  | character :: rest =>
      if negb (is_hex character) then false
      else scan_identity rest (nonzero || negb (Z_of_byte character =? 48))
  end.

Definition is_canonical_identity (value : string) : bool :=
  if negb (size value =? kIdentityHexLength) then false
  else scan_identity (bytes_of value) false.

(** The 64-bit finaliser: every operation wraps at 2^64. *)
Definition mix (value : Z) : Z :=
  let value := u64 (value + 0x9e3779b97f4a7c15) in
  let value := u64 (Z.lxor value (Z.shiftr value 30) * 0xbf58476d1ce4e5b9) in
  let value := u64 (Z.lxor value (Z.shiftr value 27) * 0x94d049bb133111eb) in
  Z.lxor value (Z.shiftr value 31).

(** [random] lists the four draws of the random device. *)
Definition process_entropy (random : list Z) (now : Z) : Z :=
  mix (Z.lxor (fold_left (fun value r => Z.lxor (u64 (Z.shiftl value 16)) r) random 0) (u64 now)).

(** The 16 digits of one word, most significant nibble first. *)
Definition word_digits (word : Z) : list byte :=
  map (fun i => hex_digit (u8 (Z.land (Z.shiftr word (4 * Z.of_nat (15 - i))) 15))) (seq 0 16).

(** The generator's state is the value [fetch_add] returns; it wraps. *)
Definition generate_identity (entropy now counter : Z) : string * Z :=
  let ordinal := counter in
  let now := u64 now in
  let words := [mix (Z.lxor entropy ordinal);
                mix (Z.lxor (Z.lxor now (u64 (Z.shiftl ordinal 1))) entropy)] in
  let value := mjoin (word_digits <$> words) in
  let value := if is_canonical_identity (string_of value) then value
               else take 31 value ++ [x31] in
  (string_of value, u64 (counter + 1)).

(** ** Envelopes *)

Record Envelope := {
  sequence : Z;
  timestamp_ns : Z;
  type : string;
  trace_id : string;
  attributes : gmap string string;
  payload : string;
  message_id : string;
  parent_message_id : string;
  wire_version : Z;
}.

#[export] Instance Envelope_eq_dec : EqDecision Envelope.
Proof. solve_decision. Defined.

(** The identity generator is called for the trace first, then for the
    message; each call reads the steady clock. *)
Definition make (entropy system_now now_trace now_message counter : Z)
    (seq : Z) (ty : string) (data : string) : Envelope * Z :=
  let '(trace, counter) := generate_identity entropy now_trace counter in
  let '(message, counter) := generate_identity entropy now_message counter in
  ({| sequence := seq; timestamp_ns := system_now; type := ty; trace_id := trace;
      attributes := ∅; payload := data; message_id := message; parent_message_id := "";
      wire_version := kEnvelopeWireVersion |}, counter).

Definition with_trace (t : string) (e : Envelope) : Envelope :=
  {| sequence := sequence e; timestamp_ns := timestamp_ns e; type := type e; trace_id := t;
     attributes := attributes e; payload := payload e; message_id := message_id e;
     parent_message_id := parent_message_id e; wire_version := wire_version e |}.

Definition with_parent (p : string) (e : Envelope) : Envelope :=
  {| sequence := sequence e; timestamp_ns := timestamp_ns e; type := type e;
     trace_id := trace_id e; attributes := attributes e; payload := payload e;
     message_id := message_id e; parent_message_id := p; wire_version := wire_version e |}.

Definition derive (entropy system_now now_trace now_message counter : Z)
    (parent : Envelope) (seq : Z) (ty data : string) : Envelope * Z :=
  let '(envelope, counter) :=
    make entropy system_now now_trace now_message counter seq ty data in
  let envelope := if is_canonical_identity (trace_id parent)
                  then with_trace (trace_id parent) envelope else envelope in
  let envelope := if is_canonical_identity (message_id parent)
                  then with_parent (message_id parent) envelope else envelope in
  (envelope, counter).

(** ** Size accounting *)

Definition checked_add (total amount : Z) : result Z :=
  if (kMaxFrameBytes <? amount) || (kMaxFrameBytes - amount <? total)
  then Throw (LengthError "envelope exceeds 16777216-byte protocol maximum")
  else Ok (total + amount).

Definition checked_string_size (total size : Z) : result Z :=
  let* total := checked_add total 4 in checked_add total size.

Definition encoded_size (e : Envelope) : result Z :=
  let* _ := throw_if (kMaxEnvelopeAttributes <? Z.of_nat (base.size (attributes e)))
              (LengthError "envelope has more than 4096 attributes") in
  let* total := checked_string_size 72 (size (type e)) in
  let* total := fold_result (fun kv total =>
      let* total := checked_string_size total (size kv.1) in
      checked_string_size total (size kv.2)) (map_to_list (attributes e)) total in
  checked_string_size total (size (payload e)).

Definition validate_serializable (e : Envelope) : result unit :=
  throw_if (negb (wire_version e =? kEnvelopeWireVersion))
    (InvalidArgument ("unsupported envelope wire version " +:+ to_string (wire_version e))).

Definition serialized_size (e : Envelope) : result Z :=
  let* _ := validate_serializable e in encoded_size e.

(** ** Encoding *)

(** [put<T>] with [n = sizeof(T)] *)
Definition put (n : nat) (value : Z) : list byte :=
  map (fun i => byte_of_Z (Z.land (Z.shiftr (u64 value) (8 * Z.of_nat (n - 1 - i))) 255)) (seq 0 n).

Fixpoint put_hex_pairs (value : list byte) : result (list byte) :=
  match value with
  | high :: low :: rest =>
      let* h := hex_value high in
      let* l := hex_value low in
      let* tail := put_hex_pairs rest in
      Ok (byte_of_Z (Z.lor (Z.shiftl h 4) l) :: tail)
  | _ => Ok []
  end.

Definition put_identity (value field : string) (optional : bool) : result (list byte) :=
  if optional && (String.length value =? 0)%nat then Ok (replicate 16 x00)
  else if negb (is_canonical_identity value)
  then Throw (InvalidArgument
    (field +:+ " must be a non-zero 32-character lowercase hexadecimal identity"))
  else put_hex_pairs (bytes_of value).

Definition put_string (value : string) : result (list byte) :=
  if 2 ^ 32 - 1 <? size value then Throw (LengthError "string too large")
  else Ok (put 4 (u32 (size value)) ++ bytes_of value).

(** The order of [std::pair<std::string, std::string>] *)
Definition attribute_le (p q : string * string) : Prop :=
  match String.compare p.1 q.1 with
  | Lt => True
  | Eq => String.compare p.2 q.2 <> Gt
  | Gt => False
  end.

#[export] Instance attribute_le_dec p q : Decision (attribute_le p q).
Proof. unfold attribute_le. destruct (String.compare p.1 q.1); apply _. Defined.

Definition put_attribute (kv : string * string) : result (list byte) :=
  let* k := put_string kv.1 in
  let* v := put_string kv.2 in
  Ok (k ++ v).

Definition serialize (e : Envelope) : result (list byte) :=
  let* _ := serialized_size e in
  let header := [x47; x58; x45; byte_of_Z (wire_version e)]
                  ++ put 8 (sequence e) ++ put 8 (u64 (timestamp_ns e)) in
  let* message := put_identity (message_id e) "message_id" false in
  let* trace := put_identity (trace_id e) "trace_id" false in
  let* parent := put_identity (parent_message_id e) "parent_message_id" true in
  let* ty := put_string (type e) in
  let attributes := merge_sort attribute_le (map_to_list (attributes e)) in
  let count := put 4 (u32 (Z.of_nat (length attributes))) in
  let* pairs := map_result put_attribute attributes in
  let* data := put_string (payload e) in
  Ok (header ++ message ++ trace ++ parent ++ ty ++ count ++ mjoin pairs ++ data).

(** ** Decoding *)

Definition require (count : Z) (reader : list byte) : result unit :=
  throw_if (Z.of_nat (length reader) <? count) (RuntimeError "truncated envelope").

(** [get<T>] with [n = sizeof(T)]: the accumulator is 64 bits wide. *)
Definition get (n : nat) (reader : list byte) : result (Z * list byte) :=
  let* _ := require (Z.of_nat n) reader in
  let value := fold_left (fun value b => Z.lor (u64 (Z.shiftl value 8)) (Z_of_byte b))
                 (take n reader) 0 in
  Ok (value mod 2 ^ (8 * Z.of_nat n), drop n reader).

Definition get_string (reader : list byte) : result (string * list byte) :=
  let* (size, reader) := get 4 reader in
  let* _ := require size reader in
  Ok (string_of (take (Z.to_nat size) reader), drop (Z.to_nat size) reader).

Fixpoint identity_digits (bytes : list byte) : list byte :=
  match bytes with
  | [] => []
  | byte :: rest =>
      hex_digit (Z.shiftr (Z_of_byte byte) 4) :: hex_digit (Z.land (Z_of_byte byte) 15)
        :: identity_digits rest
  end.

Definition get_identity (optional : bool) (reader : list byte) : result (string * list byte) :=
  let* _ := require 16 reader in
  let bytes := take 16 reader in
  let zero := forallb (fun byte => Z_of_byte byte =? 0) bytes in
  let value := string_of (identity_digits bytes) in
  if zero then
    if optional then Ok (EmptyString, drop 16 reader)
    else Throw (RuntimeError "zero envelope identity is invalid")
  else Ok (value, drop 16 reader).

Fixpoint get_attributes (count : nat) (attributes : gmap string string) (reader : list byte)
    : result (gmap string string * list byte) :=
  match count with
  | O => Ok (attributes, reader)
  | S count =>
      let* (key, reader) := get_string reader in
      let* (value, reader) := get_string reader in
      match attributes !! key with
      | Some _ => Throw (RuntimeError "duplicate envelope attribute key")
      | None => get_attributes count (<[key := value]> attributes) reader
      end
  end.

Definition expect_magic (character : byte) (reader : list byte) : result (list byte) :=
  let* (value, reader) := get 1 reader in
  if negb (value =? Z_of_byte character) then Throw (RuntimeError "invalid envelope magic")
  else Ok reader.

Definition deserialize (bytes : list byte) : result Envelope :=
  let* _ := throw_if (kMaxFrameBytes <? Z.of_nat (length bytes))
              (LengthError "envelope exceeds 16777216-byte protocol maximum") in
  let* reader := expect_magic x47 bytes in
  let* reader := expect_magic x58 reader in
  let* reader := expect_magic x45 reader in
  let* (version, reader) := get 1 reader in
  let* _ := throw_if (negb (version =? kEnvelopeWireVersion))
              (RuntimeError ("unsupported envelope wire version " +:+ to_string version)) in
  let* (seq, reader) := get 8 reader in
  let* (ts, reader) := get 8 reader in
  let* (message, reader) := get_identity false reader in
  let* (trace, reader) := get_identity false reader in
  let* (parent, reader) := get_identity true reader in
  let* (ty, reader) := get_string reader in
  let* (count, reader) := get 4 reader in
  let* _ := throw_if (kMaxEnvelopeAttributes <? count)
              (RuntimeError "too many envelope attributes") in
  let* (attrs, reader) := get_attributes (Z.to_nat count) ∅ reader in
  let* (data, reader) := get_string reader in
  let* _ := throw_if (negb (length reader =? 0)%nat) (RuntimeError "trailing envelope bytes") in
  Ok {| sequence := seq; timestamp_ns := i64 ts; type := ty; trace_id := trace;
        attributes := attrs; payload := data; message_id := message;
        parent_message_id := parent; wire_version := version |}.

(** The values the C++ field types can hold. *)
Definition in_range (e : Envelope) : Prop :=
  in_u64 (sequence e) /\ in_i64 (timestamp_ns e) /\ in_u8 (wire_version e).

Definition sample : Envelope :=
  {| sequence := 7; timestamp_ns := -5; type := "Sample";
     trace_id := "0123456789abcdef0123456789abcdef";
     attributes := {[ "unit" := "V"; "channel" := "a" ]};
     payload := "hello"; message_id := "00000000000000000000000000000001";
     parent_message_id := ""; wire_version := 2 |}.

Definition sample_wire : list byte :=
  match serialize sample with Ok w => w | Throw _ => [] end.

End Envelope.
