(* ===== verification/EnvelopeIdentity.v ===== *)
(** * Identities: syntax, generation and their wire form

    Lemmas and theorems about [is_canonical_identity], [generate_identity],
    [put_identity] and [get_identity] of Envelope.v. *)

From Stdlib Require Import ZArith Lia Strings.Byte Strings.String.
From stdpp Require Import base gmap strings list.
From S2P Require Import Prelude Framing Envelope.

Module Identity.
Import Envelope.
Local Open Scope Z_scope.

(** ** Hexadecimal digits *)

Definition is_digit_of (h : Z) (c : byte) : Prop :=
  0 <= h < 16 /\ hex_digit h = c /\ hex_value c = Ok h /\ is_hex c = true.

Lemma nibbles (h : Z) :
  0 <= h < 16 -> h ∈ [0;1;2;3;4;5;6;7;8;9;10;11;12;13;14;15].
Proof. rewrite !elem_of_cons. lia. Qed.

(** One goal per value of a nibble. *)
Ltac each_nibble h H :=
  let Hin := fresh "Hin" in
  pose proof (nibbles h H) as Hin; rewrite !elem_of_cons, elem_of_nil in Hin; clear H;
  repeat match type of Hin with
  | _ \/ _ => destruct Hin as [->|Hin]
  | False => destruct Hin
  end.

Lemma digit_of_nibble h : 0 <= h < 16 -> is_digit_of h (hex_digit h).
Proof.
  intros Hh. each_nibble h Hh; repeat split; done.
Qed.

Lemma nibble_of_digit c : is_hex c = true -> exists h, is_digit_of h c.
Proof.
  intros Hc. unfold is_hex in Hc. apply orb_prop in Hc.
  destruct Hc as [Hc|Hc]; apply andb_prop in Hc; destruct Hc as [H1 H2];
    apply Z.leb_le in H1, H2;
    [assert (Hr : c = hex_digit (Z_of_byte c - 48))
    |assert (Hr : c = hex_digit (Z_of_byte c - 87))].
  - apply Z_of_byte_inj. unfold hex_digit.
    destruct (Z.ltb_spec (Z_of_byte c - 48) 10); [|lia].
    rewrite Z_of_byte_of_Z, Z.mod_small; lia.
  - exists (Z_of_byte c - 48). rewrite Hr at 2. apply digit_of_nibble. lia.
  - apply Z_of_byte_inj. unfold hex_digit.
    destruct (Z.ltb_spec (Z_of_byte c - 87) 10); [lia|].
    rewrite Z_of_byte_of_Z, Z.mod_small; lia.
  - exists (Z_of_byte c - 87). rewrite Hr at 2. apply digit_of_nibble. lia.
Qed.

Lemma hex_digit_zero h c : is_digit_of h c -> (Z_of_byte c =? 48) = (h =? 0).
Proof.
  intros (Hh & <- & _). each_nibble h Hh; done.
Qed.

Lemma hex_digit_inj h k : 0 <= h < 16 -> 0 <= k < 16 -> hex_digit h = hex_digit k -> h = k.
Proof.
  intros (_ & _ & Hv & _)%digit_of_nibble (_ & _ & Hw & _)%digit_of_nibble He.
  rewrite He in Hv. congruence.
Qed.

Lemma byte_nibbles b :
  0 <= Z.shiftr (Z_of_byte b) 4 < 16 /\ 0 <= Z.land (Z_of_byte b) 15 < 16.
Proof.
  pose proof (Z_of_byte_range b). rewrite Z.shiftr_div_pow2 by lia.
  change 15 with (Z.ones 4). rewrite Z.land_ones by lia. split.
  - split; [apply Z.div_pos; lia|apply Z.div_lt_upper_bound; lia].
  - apply Z.mod_pos_bound. lia.
Qed.

Lemma join_nibbles h l :
  0 <= h < 16 -> 0 <= l < 16 -> Z.lor (Z.shiftl h 4) l = h * 16 + l.
Proof.
  intros Hh Hl. each_nibble h Hh; each_nibble l Hl; done.
Qed.

Lemma split_joined h l :
  0 <= h < 16 -> 0 <= l < 16 ->
  Z.shiftr (Z_of_byte (byte_of_Z (h * 16 + l))) 4 = h
  /\ Z.land (Z_of_byte (byte_of_Z (h * 16 + l))) 15 = l.
Proof.
  intros Hh Hl. rewrite Z_of_byte_of_Z, Z.mod_small by lia. split.
  - rewrite Z.shiftr_div_pow2 by lia. change (2 ^ 4) with 16.
    rewrite Z.div_add_l, Z.div_small; lia.
  - change 15 with (Z.ones 4). rewrite Z.land_ones by lia. change (2 ^ 4) with 16.
    rewrite Z.add_comm, Z.mod_add, Z.mod_small; lia.
Qed.

Lemma join_split b :
  byte_of_Z (Z.shiftr (Z_of_byte b) 4 * 16 + Z.land (Z_of_byte b) 15) = b.
Proof.
  apply Z_of_byte_inj. rewrite Z_of_byte_of_Z, Z.shiftr_div_pow2 by lia.
  change 15 with (Z.ones 4). rewrite Z.land_ones by lia. change (2 ^ 4) with 16.
  pose proof (Z_of_byte_range b). rewrite Z.mul_comm, <-Z.div_mod by lia.
  by apply Z.mod_small.
Qed.

(** ** Canonical identities *)

Lemma scan_identity_spec l nz :
  scan_identity l nz = true <->
  Forall (fun c => is_hex c = true) l /\ (nz = true \/ Exists (fun c => Z_of_byte c <> 48) l).
Proof.
  revert nz; induction l as [|c l IH]; intros nz; simpl.
  - rewrite Exists_nil. intuition (done || constructor).
  - rewrite Forall_cons, Exists_cons.
    destruct (is_hex c) eqn:Hc; simpl;
      [|split; [done|by intros [[? _] _]]].
    rewrite IH, orb_true_iff, negb_true_iff, Z.eqb_neq. tauto.
Qed.

Definition canonical (l : list byte) : Prop :=
  length l = 32%nat /\ Forall (fun c => is_hex c = true) l
  /\ Exists (fun c => Z_of_byte c <> 48) l.

Lemma is_canonical_identity_spec s :
  is_canonical_identity s = true <-> canonical (bytes_of s).
Proof.
  unfold is_canonical_identity, canonical, size, kIdentityHexLength.
  rewrite bytes_of_length. destruct (Z.eqb_spec (Z.of_nat (String.length s)) 32); simpl.
  - rewrite scan_identity_spec. intuition (done || lia).
  - split; [done|]. lia.
Qed.

(** ** The wire form *)

Lemma identity_digits_length l : length (identity_digits l) = (2 * length l)%nat.
Proof. induction l; simpl; lia. Qed.

Lemma identity_digits_hex l : Forall (fun c => is_hex c = true) (identity_digits l).
Proof.
  induction l as [|b l IH]; simpl; [constructor|].
  destruct (byte_nibbles b). repeat constructor; [..|done];
    by apply digit_of_nibble.
Qed.

Lemma identity_digits_zero l :
  forallb (fun b => Z_of_byte b =? 0) l = forallb (fun c => Z_of_byte c =? 48) (identity_digits l).
Proof.
  induction l as [|b l IH]; simpl; [done|]. destruct (byte_nibbles b) as [Hh Hl].
  rewrite (hex_digit_zero _ _ (digit_of_nibble _ Hh)), (hex_digit_zero _ _ (digit_of_nibble _ Hl)).
  rewrite IH, andb_assoc. f_equal. apply eq_true_iff_eq.
  rewrite andb_true_iff, !Z.eqb_eq. split.
  - by intros ->.
  - intros [H1 H2]. rewrite <-(join_split b), H1, H2. done.
Qed.

Lemma put_hex_pairs_digits l : put_hex_pairs (identity_digits l) = Ok l.
Proof.
  induction l as [|b l IH]; [done|]. simpl. destruct (byte_nibbles b) as [Hh Hl].
  destruct (digit_of_nibble _ Hh) as (_ & _ & -> & _).
  destruct (digit_of_nibble _ Hl) as (_ & _ & -> & _). simpl.
  by rewrite IH, join_nibbles, join_split by done.
Qed.

Lemma put_hex_pairs_inv n l :
  length l = (2 * n)%nat -> Forall (fun c => is_hex c = true) l ->
  exists w, put_hex_pairs l = Ok w /\ length w = n /\ identity_digits w = l.
Proof.
  revert l; induction n as [|n IH]; intros l Hlen Hhex.
  - destruct l; [|done]. by exists [].
  - destruct l as [|a [|c l]]; [done|simpl in Hlen; lia|].
    apply Forall_cons in Hhex as [(h & Hh0 & Hh1 & Hh2 & _)%nibble_of_digit Hhex].
    apply Forall_cons in Hhex as [(k & Hk0 & Hk1 & Hk2 & _)%nibble_of_digit Hhex].
    destruct (IH l) as (w & Hw & Hl & Hd); [simpl in Hlen; lia|done|].
    exists (byte_of_Z (h * 16 + k) :: w). simpl. rewrite Hh2, Hk2. simpl.
    rewrite Hw, join_nibbles by done. split; [done|]. split; [congruence|].
    destruct (split_joined h k Hh0 Hk0) as [-> ->]. congruence.
Qed.

Lemma not_all_zeros l :
  forallb (fun c => Z_of_byte c =? 48) l = false <-> Exists (fun c => Z_of_byte c <> 48) l.
Proof.
  induction l as [|c l IH]; simpl; [rewrite Exists_nil; done|].
  rewrite andb_false_iff, Exists_cons, IH, Z.eqb_neq. done.
Qed.

Lemma canonical_digits l :
  length l = 16%nat -> forallb (fun b => Z_of_byte b =? 0) l = false ->
  is_canonical_identity (string_of (identity_digits l)) = true.
Proof.
  intros Hlen Hnz. apply is_canonical_identity_spec. rewrite bytes_of_string_of.
  split; [rewrite identity_digits_length; lia|]. split; [apply identity_digits_hex|].
  apply not_all_zeros. by rewrite <-identity_digits_zero.
Qed.

(** Reading and writing an identity are inverse to each other, including the
    optional one whose absence is sixteen zero bytes. *)
Definition identity_ok (optional : bool) (s : string) : Prop :=
  is_canonical_identity s = true \/ (optional = true /\ s = EmptyString).

Lemma put_identity_spec s field optional :
  identity_ok optional s ->
  exists w, put_identity s field optional = Ok w /\ length w = 16%nat
    /\ forall rest, get_identity optional (w ++ rest) = Ok (s, rest).
Proof.
  unfold put_identity, get_identity, require. intros [Hc|[-> ->]]; cycle 1.
  { exists (replicate 16 x00). split; [done|]. split; [done|]. intros rest.
    rewrite length_app, length_replicate.
    destruct (Z.ltb_spec (Z.of_nat (16 + length rest)) 16); [lia|]. done. }
  pose proof (proj1 (is_canonical_identity_spec s) Hc) as (Hlen & Hhex & Hnz).
  destruct (String.length s =? 0)%nat eqn:Hz.
  { apply Nat.eqb_eq in Hz. rewrite bytes_of_length in Hlen. lia. }
  rewrite andb_false_r, Hc. simpl.
  destruct (put_hex_pairs_inv 16 (bytes_of s) Hlen Hhex) as (w & Hw & Hl & Hd).
  exists w. split; [done|]. split; [done|]. intros rest. rewrite length_app, Hl.
  destruct (Z.ltb_spec (Z.of_nat (16 + length rest)) 16); [lia|]. simpl throw_if. simpl bind.
  rewrite take_app_length', drop_app_length' by done.
  rewrite identity_digits_zero, Hd, (proj2 (not_all_zeros _) Hnz), string_of_bytes_of. done.
Qed.

Lemma put_identity_ok s field optional w :
  put_identity s field optional = Ok w -> identity_ok optional s.
Proof.
  unfold put_identity, identity_ok. intros H.
  destruct (optional && _) eqn:Ho.
  - apply andb_prop in Ho as [-> Hz%Nat.eqb_eq]. right. by destruct s.
  - destruct (is_canonical_identity s); [by left|done].
Qed.

Lemma get_identity_ok optional r s rest :
  get_identity optional r = Ok (s, rest) ->
  identity_ok optional s /\ exists w, length w = 16%nat /\ r = w ++ rest.
Proof.
  unfold get_identity, require. intros H. invert_ok.
  match goal with E : (_ <? _) = false |- _ => apply Z.ltb_ge in E end.
  assert (Hlen : length (take 16 r) = 16%nat) by (rewrite length_take; lia).
  destruct (forallb _ _) eqn:Hz.
  - destruct optional; invert_ok. split; [by right|].
    exists (take 16 r). by rewrite take_drop.
  - invert_ok. split; [left; by apply canonical_digits|].
    exists (take 16 r). by rewrite take_drop.
Qed.

(** ** Generation *)

Lemma lxor_u64 a b : in_u64 a -> in_u64 b -> in_u64 (Z.lxor a b).
Proof.
  unfold in_u64. intros Ha Hb.
  assert (H0 : 0 <= Z.lxor a b) by (apply Z.lxor_nonneg; lia).
  split; [done|]. destruct (decide (Z.lxor a b = 0)) as [->|]; [done|].
  apply Z.log2_lt_pow2; [lia|].
  pose proof (Z.log2_lxor a b ltac:(lia) ltac:(lia)).
  pose proof (Z.log2_le_mono a (2 ^ 64 - 1) ltac:(lia)).
  pose proof (Z.log2_le_mono b (2 ^ 64 - 1) ltac:(lia)).
  change (Z.log2 (2 ^ 64 - 1)) with 63 in *. lia.
Qed.

Lemma shiftr_u64 a k : in_u64 a -> 0 <= k -> in_u64 (Z.shiftr a k).
Proof.
  unfold in_u64. intros Ha Hk. rewrite Z.shiftr_div_pow2 by done.
  assert (0 < 2 ^ k) by (apply Z.pow_pos_nonneg; lia).
  split; [apply Z.div_pos; lia|]. apply Z.div_lt_upper_bound; nia.
Qed.

(** [x ^ (x >> k)] loses nothing. *)
Lemma xorshift_inj k a b :
  0 < k -> in_u64 a -> in_u64 b ->
  Z.lxor a (Z.shiftr a k) = Z.lxor b (Z.shiftr b k) -> a = b.
Proof.
  unfold in_u64. intros Hk Ha Hb He.
  assert (Hd : Z.lxor (Z.lxor a b) (Z.shiftr (Z.lxor a b) k) = 0).
  { rewrite Z.shiftr_lxor.
    replace (Z.lxor (Z.lxor a b) (Z.lxor (Z.shiftr a k) (Z.shiftr b k)))
      with (Z.lxor (Z.lxor a (Z.shiftr a k)) (Z.lxor b (Z.shiftr b k))).
    - rewrite He. apply Z.lxor_nilpotent.
    - rewrite !Z.lxor_assoc. f_equal. rewrite <-!Z.lxor_assoc. f_equal. apply Z.lxor_comm. }
  apply Z.lxor_eq in Hd. apply Z.lxor_eq.
  assert (H0 : 0 <= Z.lxor a b) by (apply Z.lxor_nonneg; lia).
  rewrite Z.shiftr_div_pow2 in Hd by lia.
  assert (2 <= 2 ^ k) by (apply (Z.pow_le_mono_r 2 1 k); lia).
  destruct (decide (Z.lxor a b = 0)); [done|].
  pose proof (Z.div_lt (Z.lxor a b) (2 ^ k) ltac:(lia) ltac:(lia)). lia.
Qed.

(** Multiplying by a constant that has an inverse modulo 2^64 loses nothing. *)
Lemma mul_inj c inverse a b :
  u64 (c * inverse) = 1 -> in_u64 a -> in_u64 b -> u64 (a * c) = u64 (b * c) -> a = b.
Proof.
  intros Hc Ha Hb He.
  assert (Hback : forall x, in_u64 x -> u64 (u64 (x * c) * inverse) = x).
  { intros x Hx. unfold u64 in *.
    rewrite Z.mul_mod_idemp_l by done. rewrite <-Z.mul_assoc, <-Z.mul_mod_idemp_r by done.
    by rewrite Hc, Z.mul_1_r, Z.mod_small. }
  rewrite <-(Hback a Ha), He. by apply Hback.
Qed.

Lemma add_inj c a b : in_u64 a -> in_u64 b -> u64 (a + c) = u64 (b + c) -> a = b.
Proof.
  intros Ha Hb He.
  assert (Hback : forall x, in_u64 x -> u64 (u64 (x + c) - c) = x).
  { intros x Hx. unfold u64. rewrite Zminus_mod_idemp_l.
    replace (x + c - c) with x by lia. by apply Z.mod_small. }
  rewrite <-(Hback a Ha), He. by apply Hback.
Qed.

Lemma mix_range a : in_u64 (mix a).
Proof. apply lxor_u64; [|apply shiftr_u64; [|lia]]; auto with machine. Qed.

Lemma mix_inj a b : in_u64 a -> in_u64 b -> mix a = mix b -> a = b.
Proof.
  intros Ha Hb He. unfold mix in He.
  apply xorshift_inj in He; [|lia|auto with machine..].
  apply (mul_inj _ 3573116690164977347) in He;
    [|reflexivity|apply lxor_u64; [|apply shiftr_u64; [|lia]]; auto with machine..].
  apply xorshift_inj in He; [|lia|auto with machine..].
  apply (mul_inj _ 10871156337175269513) in He;
    [|reflexivity|apply lxor_u64; [|apply shiftr_u64; [|lia]]; auto with machine..].
  apply xorshift_inj in He; [|lia|auto with machine..].
  by apply add_inj in He.
Qed.

Lemma nibble_range word k : 0 <= Z.land (Z.shiftr word k) 15 < 16.
Proof. change 15 with (Z.ones 4). rewrite Z.land_ones by lia. apply Z.mod_pos_bound. lia. Qed.

Lemma word_digits_length word : length (word_digits word) = 16%nat.
Proof. unfold word_digits. by rewrite length_map, length_seq. Qed.

Lemma word_digits_hex word : Forall (fun c => is_hex c = true) (word_digits word).
Proof.
  unfold word_digits. apply Forall_map, Forall_true. intros i. simpl.
  pose proof (nibble_range word (4 * Z.of_nat (15 - i))).
  rewrite u8_small by (unfold in_u8; lia). by apply digit_of_nibble.
Qed.

Lemma word_digits_inj a b : in_u64 a -> in_u64 b -> word_digits a = word_digits b -> a = b.
Proof.
  intros Ha Hb He.
  assert (Hnib : forall i, (i < 16)%nat ->
    Z.land (Z.shiftr a (4 * Z.of_nat i)) 15 = Z.land (Z.shiftr b (4 * Z.of_nat i)) 15).
  { intros i Hi. unfold word_digits in He.
    apply (f_equal (lookup (15 - i)%nat)) in He.
    rewrite !list_lookup_fmap, !lookup_seq_lt in He by lia. simpl in He.
    replace (15 - (15 - i))%nat with i in He by lia.
    pose proof (nibble_range a (4 * Z.of_nat i)). pose proof (nibble_range b (4 * Z.of_nat i)).
    rewrite !u8_small in He by (unfold in_u8; lia).
    apply hex_digit_inj; [done..|]. congruence. }
  apply Z.bits_inj'. intros n Hn. unfold in_u64 in *.
  destruct (Z.ltb_spec n 64).
  - pose proof (Hnib (Z.to_nat (n / 4))) as Hi.
    assert (0 <= n / 4 < 16) by (split; [apply Z.div_pos|apply Z.div_lt_upper_bound]; lia).
    rewrite Z2Nat.id in Hi by lia. specialize (Hi ltac:(lia)).
    apply (f_equal (fun z => Z.testbit z (n mod 4))) in Hi.
    pose proof (Z.mod_pos_bound n 4 ltac:(lia)).
    change 15 with (Z.ones 4) in Hi.
    rewrite !Z.land_spec, Z.ones_spec_low, !andb_true_r, !Z.shiftr_spec in Hi by lia.
    by replace (n mod 4 + 4 * (n / 4)) with n in Hi by (pose proof (Z.div_mod n 4); lia).
  - rewrite !Z.bits_above_log2; [done|lia| |lia|];
      (apply Z.lt_le_trans with 64; [|done]); 
      match goal with |- Z.log2 ?x < _ =>
        destruct (decide (x = 0)); [subst; done|apply Z.log2_lt_pow2; lia] end.
Qed.

(** The thirty-two digits before the zero value is patched. *)
Lemma generated_digits entropy now counter :
  (take 16 (bytes_of (generate_identity entropy now counter).1)
   = word_digits (mix (Z.lxor entropy counter))) /\
  is_canonical_identity (generate_identity entropy now counter).1 = true.
Proof.
  unfold generate_identity. cbn [fmap list_fmap mjoin list_join]. rewrite app_nil_r.
  set (a := word_digits _). set (b := word_digits _).
  assert (Hla : length a = 16%nat) by apply word_digits_length.
  assert (Hlb : length b = 16%nat) by apply word_digits_length.
  assert (Hha : Forall (fun c => is_hex c = true) a) by apply word_digits_hex.
  assert (Hhb : Forall (fun c => is_hex c = true) b) by apply word_digits_hex.
  clearbody a b. destruct (is_canonical_identity (string_of (a ++ b))) eqn:Hc; cbn [fst].
  - rewrite bytes_of_string_of, take_app_length' by done. done.
  - rewrite bytes_of_string_of. split.
    + rewrite take_app_le by (rewrite length_take, length_app; lia).
      rewrite take_take, Nat.min_l, take_app_length' by lia. done.
    + apply is_canonical_identity_spec. rewrite bytes_of_string_of. split.
      * rewrite length_app, length_take, length_app. simpl length. lia.
      * split; [apply Forall_app_2; [apply Forall_take, Forall_app_2; done|by repeat constructor]|].
        apply Exists_app. right. by constructor.
Qed.

Lemma generate_identity_canonical_aux entropy now counter :
  is_canonical_identity (generate_identity entropy now counter).1 = true.
Proof. apply generated_digits. Qed.

(** Every generated identity is canonical, whatever the clock, the entropy and
    the counter are: the all-zero value is patched. *)
Theorem generate_identity_canonical entropy now counter :
  is_canonical_identity (generate_identity entropy now counter).1 = true.
Proof. by destruct (generated_digits entropy now counter) as [_ ?]. Qed.

(** Within one process (one entropy) two calls with different counter values
    never return the same identity, whatever the clock reads. *)
Theorem generate_identity_unique entropy now1 now2 counter1 counter2 :
  in_u64 entropy -> in_u64 counter1 -> in_u64 counter2 -> counter1 <> counter2 ->
  (generate_identity entropy now1 counter1).1 <> (generate_identity entropy now2 counter2).1.
Proof.
  intros He H1 H2 Hne Heq.
  destruct (generated_digits entropy now1 counter1) as [Hd1 _].
  destruct (generated_digits entropy now2 counter2) as [Hd2 _].
  rewrite Heq, Hd2 in Hd1.
  apply word_digits_inj, mix_inj in Hd1; [|apply mix_range || by apply lxor_u64..].
  apply Hne. apply (f_equal (Z.lxor entropy)) in Hd1.
  by rewrite <-!Z.lxor_assoc, !Z.lxor_nilpotent, !Z.lxor_0_l in Hd1.
Qed.

Lemma generate_identity_unique_witness :
  (generate_identity 55 1000 1).1 <> (generate_identity 55 1000 2).1.
Proof. apply generate_identity_unique; (unfold in_u64; lia) || discriminate. Defined.

End Identity.
