(* ===== verification/EnvelopeCodec.v ===== *)
(** * Correctness of the envelope wire format

    [serialize] and [deserialize] of Envelope.v: exact size accounting, the
    round trip, and what a successful [deserialize] promises. *)

From Stdlib Require Import ZArith Lia Strings.Byte Strings.String.
From stdpp Require Import base gmap strings list sorting.
From S2P Require Import Prelude Framing Envelope EnvelopeIdentity.

Module EnvelopeCodec.
Import Framing Envelope Identity.
Local Open Scope Z_scope.

(** ** Integers and strings on the wire *)

Lemma put_be n v : (1 <= n <= 8)%nat -> 0 <= v < 2 ^ 64 -> put n v = be_bytes n v.
Proof.
  intros Hn Hv. unfold put. rewrite be_bytes_map, u64_small by done.
  apply map_ext. intros i. apply byte_of_Z_land.
Qed.

Lemma get_eq n r :
  (1 <= n <= 8)%nat ->
  get n r = if Z.of_nat (length r) <? Z.of_nat n
            then Throw (RuntimeError "truncated envelope")
            else Ok (be_value (take n r), drop n r).
Proof.
  intros Hn. unfold get, require. destruct (Z.ltb_spec (Z.of_nat (length r)) (Z.of_nat n)); [done|].
  cbn [throw_if bind]. do 2 f_equal.
  assert (Hl : length (take n r) = n) by (rewrite length_take; lia).
  unfold u64. rewrite accumulate_be_value;
    [|done|rewrite Hl, Z.mul_1_l; apply Z.pow_le_mono_r; lia].
  apply Z.mod_small. pose proof (be_value_bound (take n r)) as Hb. by rewrite Hl in Hb.
Qed.

Lemma get_app n bs rest :
  (1 <= n <= 8)%nat -> length bs = n -> get n (bs ++ rest) = Ok (be_value bs, rest).
Proof.
  intros Hn Hl. rewrite get_eq, length_app by done.
  destruct (Z.ltb_spec (Z.of_nat (length bs + length rest)) (Z.of_nat n)); [lia|].
  by rewrite take_app_length', drop_app_length'.
Qed.

Lemma get_ok n r v rest :
  (1 <= n <= 8)%nat -> get n r = Ok (v, rest) ->
  r = be_bytes n v ++ rest /\ 0 <= v < 2 ^ (8 * Z.of_nat n).
Proof.
  intros Hn. rewrite get_eq by done.
  destruct (Z.ltb_spec (Z.of_nat (length r)) (Z.of_nat n)); [done|]. intros [= <- <-].
  assert (Hl : length (take n r) = n) by (rewrite length_take; lia). split.
  - rewrite <-Hl at 1. by rewrite be_bytes_be_value, take_drop.
  - pose proof (be_value_bound (take n r)) as Hb. by rewrite Hl in Hb.
Qed.

Definition get_ok_1 r v rest := get_ok 1 r v rest ltac:(lia).
Definition get_ok_4 r v rest := get_ok 4 r v rest ltac:(lia).
Definition get_ok_8 r v rest := get_ok 8 r v rest ltac:(lia).

Lemma get_put n v rest :
  (1 <= n <= 8)%nat -> 0 <= v < 2 ^ (8 * Z.of_nat n) -> get n (be_bytes n v ++ rest) = Ok (v, rest).
Proof.
  intros Hn Hv. rewrite get_app by (rewrite ?be_bytes_length; done).
  by rewrite be_value_be_bytes_small.
Qed.

(** The encoding of one string: its length, then its bytes. *)
Definition string_wire (s : string) : list byte := be_bytes 4 (size s) ++ bytes_of s.

Lemma size_nonneg s : 0 <= size s.
Proof. unfold size. lia. Qed.

Lemma string_wire_length s : Z.of_nat (length (string_wire s)) = 4 + size s.
Proof.
  unfold string_wire, size. rewrite length_app, be_bytes_length, bytes_of_length. lia.
Qed.

Lemma put_string_ok s w : put_string s = Ok w -> size s < 2 ^ 32 /\ w = string_wire s.
Proof.
  unfold put_string, string_wire. pose proof (size_nonneg s).
  destruct (Z.ltb_spec (2 ^ 32 - 1) (size s)); [done|]. intros <-%Ok_inj.
  rewrite u32_small by (unfold in_u32; lia). rewrite put_be by lia. split; [lia|done].
Qed.

Lemma put_string_small s : size s < 2 ^ 32 -> put_string s = Ok (string_wire s).
Proof.
  intros Hs. destruct (put_string s) as [w|e] eqn:E.
  - apply put_string_ok in E as [_ ->]. done.
  - unfold put_string in E. destruct (Z.ltb_spec (2 ^ 32 - 1) (size s)); [lia|done].
Qed.

Lemma get_string_put s rest :
  size s < 2 ^ 32 -> get_string (string_wire s ++ rest) = Ok (s, rest).
Proof.
  intros Hs. pose proof (size_nonneg s). unfold get_string, string_wire.
  rewrite <-app_assoc, get_put by lia. cbn [bind]. unfold require. rewrite length_app, bytes_of_length.
  unfold size in *. destruct (Z.ltb_spec (Z.of_nat (String.length s + length rest))
    (Z.of_nat (String.length s))); [lia|]. cbn [throw_if bind].
  rewrite Nat2Z.id, <-bytes_of_length, take_app_length, drop_app_length. by rewrite string_of_bytes_of.
Qed.

Lemma get_string_ok r s rest :
  get_string r = Ok (s, rest) -> size s < 2 ^ 32 /\ r = string_wire s ++ rest.
Proof.
  unfold get_string, require. intros H. invert_ok.
  match goal with E : get 4 r = _ |- _ => apply get_ok in E as [-> Hv]; [|lia] end.
  match goal with E : (_ <? _) = false |- _ => apply Z.ltb_ge in E end.
  match goal with x : list byte |- context [be_bytes 4 ?v ++ ?x] =>
    assert (Hl : length (take (Z.to_nat v) x) = Z.to_nat v) by (rewrite length_take; lia) end.
  unfold string_wire, size. rewrite <-bytes_of_length, bytes_of_string_of, Hl.
  rewrite Z2Nat.id by lia. split; [simpl in Hv; lia|].
  by rewrite <-app_assoc, take_drop.
Qed.

#[local] Opaque string_wire be_bytes.

(** ** Attributes *)

Definition attribute_wire (kv : string * string) : list byte := string_wire kv.1 ++ string_wire kv.2.
Definition attributes_wire (l : list (string * string)) : list byte := mjoin (attribute_wire <$> l).
Lemma attributes_wire_cons kv l :
  attributes_wire (kv :: l) = string_wire kv.1 ++ string_wire kv.2 ++ attributes_wire l.
Proof. unfold attributes_wire, attribute_wire. simpl. by rewrite <-app_assoc. Qed.

Definition attribute_small (kv : string * string) : Prop := size kv.1 < 2 ^ 32 /\ size kv.2 < 2 ^ 32.

Lemma put_attribute_small kv : attribute_small kv -> put_attribute kv = Ok (attribute_wire kv).
Proof. intros [H1 H2]. unfold put_attribute. by rewrite !put_string_small. Qed.

Lemma put_attributes_small l :
  Forall attribute_small l -> map_result put_attribute l = Ok (attribute_wire <$> l).
Proof.
  intros Hl. apply map_result_ok. rewrite Forall2_fmap_r.
  induction Hl; constructor; eauto using put_attribute_small.
Qed.

Lemma get_attributes_put l m rest :
  Forall attribute_small l -> NoDup l.*1 -> Forall (fun kv => m !! kv.1 = None) l ->
  get_attributes (length l) m (attributes_wire l ++ rest) = Ok (list_to_map l ∪ m, rest).
Proof.
  revert m; induction l as [|[k v] l IH]; intros m Hs Hnd Hm.
  - simpl. by rewrite map_empty_union.
  - apply Forall_cons in Hs as [[Hk Hv] Hs]. apply Forall_cons in Hm as [Hmk Hm]. simpl in *.
    apply NoDup_cons in Hnd as [Hnin Hnd].
    unfold attributes_wire, attribute_wire. cbn [fmap list_fmap mjoin list_join].
    rewrite <-!app_assoc.
    rewrite get_string_put by done. cbn [bind fst snd]. rewrite get_string_put by done. cbn [bind fst snd].
    rewrite Hmk. rewrite IH; [|done|done|].
    + f_equal. f_equal. simpl. rewrite <-insert_union_l, insert_union_r; [done|].
      by apply not_elem_of_list_to_map_1.
    + apply Forall_forall. intros [k' v'] Hin. simpl.
      rewrite lookup_insert_ne.
      * rewrite Forall_forall in Hm. by apply (Hm (k', v')).
      * intros ->. apply Hnin. apply list_elem_of_fmap. by exists (k', v').
Qed.

Lemma get_attributes_ok n m r m' rest :
  get_attributes n m r = Ok (m', rest) ->
  exists l, length l = n /\ r = attributes_wire l ++ rest /\ Forall attribute_small l
    /\ NoDup l.*1 /\ Forall (fun kv => m !! kv.1 = None) l /\ m' = list_to_map l ∪ m.
Proof.
  revert m r; induction n as [|n IH]; intros m r H; simpl in H.
  - invert_ok. exists []. simpl. rewrite map_empty_union.
    split_and!; done || constructor.
  - apply bind_ok in H as ([key r1] & H1 & H). apply bind_ok in H as ([value r2] & H2 & H).
    destruct (m !! key) eqn:Hk; [done|].
    apply get_string_ok in H1 as [Hs ->]. apply get_string_ok in H2 as [Hs' ->].
    apply IH in H as (l & Hl & -> & Hsm & Hnd & Hm & ->).
    assert (Hni : key ∉ l.*1).
    { intros (kv & -> & Hin)%list_elem_of_fmap. rewrite Forall_forall in Hm.
      specialize (Hm _ Hin). by rewrite lookup_insert_eq in Hm. }
    exists ((key, value) :: l). split; [simpl; congruence|].
    split; [by rewrite attributes_wire_cons, <-!app_assoc|].
    split; [by constructor|]. split; [by constructor|]. split.
    + constructor; [done|]. eapply Forall_impl; [exact Hm|]. intros kv Hkv. simpl in Hkv.
      destruct (decide (key = kv.1)) as [<-|]; [done|].
      by rewrite lookup_insert_ne in Hkv.
    + simpl. rewrite <-insert_union_l, insert_union_r; [done|].
      by apply not_elem_of_list_to_map_1.
Qed.

(** ** Sizes *)

Definition attribute_size (kv : string * string) : Z := 8 + size kv.1 + size kv.2.
Definition attributes_size (l : list (string * string)) : Z :=
  foldr (fun kv n => attribute_size kv + n) 0 l.
Definition total_size (e : Envelope) : Z :=
  80 + size (type e) + attributes_size (map_to_list (attributes e)) + size (payload e).

Lemma attributes_size_nonneg l : 0 <= attributes_size l.
Proof.
  induction l as [|kv l IH]; [done|]. simpl.
  pose proof (size_nonneg kv.1). pose proof (size_nonneg kv.2). unfold attribute_size. lia.
Qed.

#[export] Instance attributes_size_proper : Proper ((≡ₚ) ==> (=)) attributes_size.
Proof. induction 1; simpl; lia. Qed.

Lemma attributes_wire_length l :
  Z.of_nat (length (attributes_wire l)) = attributes_size l.
Proof.
  induction l as [|kv l IH]; [done|]. rewrite attributes_wire_cons, !length_app, !Nat2Z.inj_add.
  rewrite IH, !string_wire_length. simpl. unfold attribute_size. lia.
Qed.

Definition too_large : exn := LengthError "envelope exceeds 16777216-byte protocol maximum".

Lemma checked_add_eq total amount :
  0 <= total -> checked_add total amount
  = if kMaxFrameBytes <? total + amount then Throw too_large else Ok (total + amount).
Proof.
  intros Ht. unfold checked_add.
  destruct (Z.ltb_spec kMaxFrameBytes (total + amount)),
    (Z.ltb_spec kMaxFrameBytes amount), (Z.ltb_spec (kMaxFrameBytes - amount) total);
    simpl; done || lia.
Qed.

Lemma checked_string_size_eq total n :
  0 <= total -> 0 <= n -> checked_string_size total n
  = if kMaxFrameBytes <? total + 4 + n then Throw too_large else Ok (total + 4 + n).
Proof.
  intros Ht Hn. unfold checked_string_size. rewrite checked_add_eq by done.
  destruct (Z.ltb_spec kMaxFrameBytes (total + 4)).
  - destruct (Z.ltb_spec kMaxFrameBytes (total + 4 + n)); [done|lia].
  - cbn [bind]. by rewrite checked_add_eq by lia.
Qed.

Lemma checked_attributes_eq l total :
  0 <= total ->
  fold_result (fun kv total =>
      let* total := checked_string_size total (size kv.1) in
      checked_string_size total (size kv.2)) l total
  = let n := total + attributes_size l in
    if decide (l = []) then Ok total else if kMaxFrameBytes <? n then Throw too_large else Ok n.
Proof.
  revert total; induction l as [|kv l IH]; intros total Ht; [done|].
  cbn [fold_result attributes_size foldr]. cbv zeta. fold (attributes_size l).
  pose proof (attributes_size_nonneg l).
  pose proof (size_nonneg kv.1). pose proof (size_nonneg kv.2).
  destruct (decide (kv :: l = [])); [done|].
  unfold attribute_size. set (rest := attributes_size l) in *.
  rewrite checked_string_size_eq by lia.
  destruct (Z.ltb_spec kMaxFrameBytes (total + 4 + size kv.1)); cbn [bind].
  { destruct (Z.ltb_spec kMaxFrameBytes (total + (8 + size kv.1 + size kv.2 + rest))); [done|lia]. }
  rewrite checked_string_size_eq by lia.
  destruct (Z.ltb_spec kMaxFrameBytes (total + 4 + size kv.1 + 4 + size kv.2)); cbn [bind].
  { destruct (Z.ltb_spec kMaxFrameBytes (total + (8 + size kv.1 + size kv.2 + rest))); [done|lia]. }
  rewrite IH by lia. cbv zeta. fold rest.
  replace (total + 4 + size kv.1 + 4 + size kv.2 + rest)
    with (total + (8 + size kv.1 + size kv.2 + rest)) by lia.
  destruct (decide (l = [])) as [->|]; [|done].
  subst rest. simpl in *.
  destruct (Z.ltb_spec kMaxFrameBytes (total + (8 + size kv.1 + size kv.2 + 0))); [lia|].
  f_equal. lia.
Qed.

Lemma encoded_size_eq e :
  encoded_size e =
    if kMaxEnvelopeAttributes <? Z.of_nat (base.size (attributes e))
    then Throw (LengthError "envelope has more than 4096 attributes")
    else if kMaxFrameBytes <? total_size e then Throw too_large else Ok (total_size e).
Proof.
  unfold encoded_size, total_size.
  pose proof (size_nonneg (type e)). pose proof (size_nonneg (payload e)).
  destruct (_ <? Z.of_nat (base.size _)); [done|]. cbn [throw_if bind].
  rewrite checked_string_size_eq by lia.
  set (l := map_to_list _). pose proof (attributes_size_nonneg l). set (s := attributes_size l) in *.
  destruct (Z.ltb_spec kMaxFrameBytes (72 + 4 + size (type e))); cbn [bind].
  { destruct (Z.ltb_spec kMaxFrameBytes (80 + size (type e) + s + size (payload e))); [done|lia]. }
  rewrite checked_attributes_eq by lia. cbv zeta. fold s.
  destruct (decide (l = [])) as [Hl|].
  { cbn [bind]. rewrite checked_string_size_eq by lia. subst s. rewrite Hl. simpl.
    by replace (72 + 4 + size (type e) + 4 + size (payload e))
      with (80 + size (type e) + 0 + size (payload e)) by lia. }
  destruct (Z.ltb_spec kMaxFrameBytes (72 + 4 + size (type e) + s)); cbn [bind].
  { destruct (Z.ltb_spec kMaxFrameBytes (80 + size (type e) + s + size (payload e))); [done|lia]. }
  rewrite checked_string_size_eq by lia.
  by replace (72 + 4 + size (type e) + s + 4 + size (payload e))
    with (80 + size (type e) + s + size (payload e)) by lia.
Qed.

(** ** The layout of a serialized envelope *)

Definition layout (e : Envelope) (message trace parent : list byte) (l : list (string * string))
    : list byte :=
  [x47; x58; x45; x02] ++ be_bytes 8 (sequence e) ++ be_bytes 8 (u64 (timestamp_ns e))
    ++ message ++ trace ++ parent ++ string_wire (type e)
    ++ be_bytes 4 (Z.of_nat (length l)) ++ attributes_wire l ++ string_wire (payload e).

(** What [serialize] requires of an envelope. *)
Definition serializable (e : Envelope) : Prop :=
  wire_version e = kEnvelopeWireVersion
  /\ is_canonical_identity (message_id e) = true
  /\ is_canonical_identity (trace_id e) = true
  /\ identity_ok true (parent_message_id e)
  /\ Z.of_nat (base.size (attributes e)) <= kMaxEnvelopeAttributes
  /\ total_size e <= kMaxFrameBytes.

Definition sorted_attributes (e : Envelope) : list (string * string) :=
  merge_sort attribute_le (map_to_list (attributes e)).

Lemma sorted_attributes_perm e : sorted_attributes e ≡ₚ map_to_list (attributes e).
Proof. apply merge_sort_Permutation. Qed.

Lemma sorted_attributes_length e : length (sorted_attributes e) = base.size (attributes e).
Proof. by rewrite sorted_attributes_perm, length_map_to_list. Qed.

Lemma sorted_attributes_nodup e : NoDup (sorted_attributes e).*1.
Proof. rewrite sorted_attributes_perm. apply NoDup_fst_map_to_list. Qed.

Lemma sorted_attributes_map e : list_to_map (sorted_attributes e) = attributes e.
Proof.
  rewrite <-(list_to_map_to_list (attributes e)).
  apply list_to_map_proper; [apply sorted_attributes_nodup|apply sorted_attributes_perm].
Qed.

Lemma attributes_size_small l :
  attributes_size l < 2 ^ 32 -> Forall attribute_small l.
Proof.
  induction l as [|kv l IH]; intros Hl; constructor; simpl in Hl.
  - pose proof (attributes_size_nonneg l). pose proof (size_nonneg kv.1).
    pose proof (size_nonneg kv.2). unfold attribute_size, attribute_small in *. lia.
  - apply IH. pose proof (size_nonneg kv.1). pose proof (size_nonneg kv.2).
    unfold attribute_size in *. lia.
Qed.

(** Under the size bound every length on the wire fits its 32-bit field. *)
Lemma serializable_small e :
  total_size e <= kMaxFrameBytes ->
  size (type e) < 2 ^ 32 /\ size (payload e) < 2 ^ 32 /\ Forall attribute_small (sorted_attributes e).
Proof.
  unfold total_size, kMaxFrameBytes. intros Ht.
  pose proof (size_nonneg (type e)). pose proof (size_nonneg (payload e)).
  pose proof (attributes_size_nonneg (map_to_list (attributes e))).
  split; [lia|]. split; [lia|]. apply attributes_size_small.
  rewrite sorted_attributes_perm. lia.
Qed.

Lemma serialize_ok e w : serialize e = Ok w -> serializable e.
Proof.
  unfold serialize, serialized_size, validate_serializable. intros H.
  apply bind_ok in H as (n & Hn & H). apply bind_ok in Hn as ([] & Hv & Hn).
  apply throw_if_ok in Hv. apply negb_false_iff, Z.eqb_eq in Hv.
  rewrite encoded_size_eq in Hn.
  destruct (Z.ltb_spec kMaxEnvelopeAttributes (Z.of_nat (base.size (attributes e)))); [done|].
  destruct (Z.ltb_spec kMaxFrameBytes (total_size e)); [done|].
  apply bind_ok in H as (m & Hm & H). apply bind_ok in H as (t & Ht & H).
  apply bind_ok in H as (p & Hp & H).
  apply put_identity_ok in Hm as [Hm|[? _]]; [|done].
  apply put_identity_ok in Ht as [Ht|[? _]]; [|done].
  apply put_identity_ok in Hp. split_and!; done.
Qed.

Lemma serialize_layout e :
  serializable e -> in_u64 (sequence e) ->
  exists m t p,
    serialize e = Ok (layout e m t p (sorted_attributes e))
    /\ length m = 16%nat /\ length t = 16%nat /\ length p = 16%nat
    /\ (forall rest, get_identity false (m ++ rest) = Ok (message_id e, rest))
    /\ (forall rest, get_identity false (t ++ rest) = Ok (trace_id e, rest))
    /\ (forall rest, get_identity true (p ++ rest) = Ok (parent_message_id e, rest)).
Proof.
  intros (Hv & Hm & Ht & Hp & Hn & Hs) Hseq.
  destruct (put_identity_spec (message_id e) "message_id" false) as (m & Hm1 & Hm2 & Hm3);
    [by left|].
  destruct (put_identity_spec (trace_id e) "trace_id" false) as (t & Ht1 & Ht2 & Ht3); [by left|].
  destruct (put_identity_spec (parent_message_id e) "parent_message_id" true)
    as (p & Hp1 & Hp2 & Hp3); [done|].
  exists m, t, p. split_and!; try done.
  destruct (serializable_small e Hs) as (Hs1 & Hs2 & Hs3).
  unfold serialize, serialized_size, validate_serializable.
  rewrite Hv, encoded_size_eq. cbn [negb Z.eqb kEnvelopeWireVersion Pos.eqb throw_if bind].
  destruct (Z.ltb_spec kMaxEnvelopeAttributes (Z.of_nat (base.size (attributes e)))); [lia|].
  destruct (Z.ltb_spec kMaxFrameBytes (total_size e)); [lia|]. cbn [bind].
  rewrite Hm1, Ht1, Hp1, !put_string_small by done. cbn [bind].
  fold (sorted_attributes e). rewrite put_attributes_small by done. cbn [bind].
  rewrite !put_be by (done || lia || apply u64_range || idtac;
    rewrite ?sorted_attributes_length, ?u32_small; unfold in_u32, kMaxEnvelopeAttributes in *; lia).
  rewrite (u32_small (Z.of_nat _)); [|rewrite sorted_attributes_length; unfold in_u32, kMaxEnvelopeAttributes in *; lia].
  unfold layout, attributes_wire. rewrite <-!app_assoc. done.
Qed.

Lemma get_byte b rest : get 1 (b :: rest) = Ok (Z_of_byte b, rest).
Proof.
  change (b :: rest) with ([b] ++ rest). rewrite get_app by (done || lia).
  unfold be_value. simpl. by rewrite Z.lor_0_l.
Qed.

Lemma expect_magic_same b rest : expect_magic b (b :: rest) = Ok rest.
Proof. unfold expect_magic. rewrite get_byte. cbn [bind]. by rewrite Z.eqb_refl. Qed.

Lemma layout_length e m t p l :
  length m = 16%nat -> length t = 16%nat -> length p = 16%nat ->
  Z.of_nat (length (layout e m t p l)) = 80 + size (type e) + attributes_size l + size (payload e).
Proof.
  intros Hm Ht Hp. unfold layout.
  rewrite !length_app, !be_bytes_length, Hm, Ht, Hp, !Nat2Z.inj_add, !string_wire_length,
    attributes_wire_length. simpl length. lia.
Qed.

(** Reading a layout gives the envelope back, in whatever order its
    attributes were written. *)
Lemma deserialize_layout e m t p l :
  in_range e -> wire_version e = kEnvelopeWireVersion ->
  Forall attribute_small l -> NoDup l.*1 -> list_to_map l = attributes e ->
  Z.of_nat (length l) <= kMaxEnvelopeAttributes ->
  Z.of_nat (length (layout e m t p l)) <= kMaxFrameBytes ->
  size (type e) < 2 ^ 32 -> size (payload e) < 2 ^ 32 ->
  (forall rest, get_identity false (m ++ rest) = Ok (message_id e, rest)) ->
  (forall rest, get_identity false (t ++ rest) = Ok (trace_id e, rest)) ->
  (forall rest, get_identity true (p ++ rest) = Ok (parent_message_id e, rest)) ->
  deserialize (layout e m t p l) = Ok e.
Proof.
  intros (Hseq & Hts & _) Hv Hsm Hnd Hmap Hl Hlen Hty Hpay Hm Ht Hp.
  unfold deserialize.
  destruct (Z.ltb_spec kMaxFrameBytes (Z.of_nat (length (layout e m t p l)))); [lia|].
  unfold layout. cbn [throw_if bind app].
  rewrite !expect_magic_same. cbn [bind]. rewrite expect_magic_same. cbn [bind].
  rewrite expect_magic_same. cbn [bind]. rewrite get_byte. cbn [bind].
  change (negb (Z_of_byte x02 =? kEnvelopeWireVersion)) with false. cbn [throw_if bind].
  rewrite get_put by (done || lia). cbn [bind].
  rewrite get_put by (apply u64_range || lia). cbn [bind].
  rewrite Hm. cbn [bind]. rewrite Ht. cbn [bind]. rewrite Hp. cbn [bind].
  rewrite get_string_put by done. cbn [bind].
  unfold kMaxEnvelopeAttributes in *. rewrite get_put by lia. cbn [bind].
  destruct (Z.ltb_spec 4096 (Z.of_nat (length l))); [lia|]. cbn [throw_if bind].
  rewrite Nat2Z.id, get_attributes_put; [|done|done|apply Forall_forall; intros; apply lookup_empty].
  cbn [bind]. rewrite <-(app_nil_r (string_wire (payload e))), get_string_put by done. cbn [bind].
  cbn [length Nat.eqb negb throw_if bind].
  rewrite map_union_empty, Hmap, i64_u64 by done. destruct e; simpl in *. by subst.
Qed.

(** ** Properties *)

Lemma envelope_roundtrip_aux e w :
  in_range e -> serialize e = Ok w -> deserialize w = Ok e.
Proof.
  intros Hr Hw. pose proof (serialize_ok _ _ Hw) as Hs.
  destruct (serialize_layout e Hs) as (m & t & p & Hw' & Hm & Ht & Hp & Gm & Gt & Gp); [apply Hr|].
  rewrite Hw' in Hw. injection Hw as <-.
  destruct Hs as (Hv & _ & _ & _ & Hn & Hsz). destruct (serializable_small e Hsz) as (H1 & H2 & H3).
  apply deserialize_layout; auto using sorted_attributes_nodup, sorted_attributes_map.
  - by rewrite sorted_attributes_length.
  - rewrite layout_length, sorted_attributes_perm by done. done.
Qed.

(** C7: [deserialize] is a left inverse of [serialize]: whatever envelope is
    serialized (any attributes, payload and identities, sequence and timestamp
    over their whole 64-bit ranges), decoding the bytes returns it. *)
Theorem envelope_roundtrip e w :
  in_range e -> serialize e = Ok w -> deserialize w = Ok e.
Proof. apply envelope_roundtrip_aux. Qed.

Lemma sample_in_range : in_range sample.
Proof. unfold in_range, in_u64, in_i64, in_u8. simpl. lia. Qed.

Lemma envelope_roundtrip_witness :
  serialize sample = Ok sample_wire /\ deserialize sample_wire = Ok sample.
Proof.
  split; [reflexivity|]. apply (envelope_roundtrip sample sample_wire);
    [apply sample_in_range|reflexivity].
Defined.

(** [serialize] succeeds on exactly the envelopes with the supported wire
    version, canonical identities (the parent may be absent), at most 4096
    attributes and at most 16 MiB of content; and the number of bytes it
    produces is the one [serialized_size] computes without serializing. *)
Theorem serialize_spec e :
  in_range e ->
  (serializable e /\ exists w, serialize e = Ok w
     /\ serialized_size e = Ok (Z.of_nat (length w)))
  \/ (~ serializable e /\ exists err, serialize e = Throw err).
Proof.
  intros Hr. destruct (serialize e) as [w|err] eqn:E; [left|right].
  - pose proof (serialize_ok _ _ E) as Hs. split; [done|]. exists w. split; [done|].
    destruct (serialize_layout e Hs) as (m & t & p & Hw & Hm & Ht & Hp & _); [apply Hr|].
    rewrite Hw in E. injection E as <-.
    rewrite layout_length, sorted_attributes_perm by done.
    destruct Hs as (Hv & _ & _ & _ & Hn & Hsz).
    unfold serialized_size, validate_serializable. rewrite Hv, encoded_size_eq.
    cbn [negb Z.eqb kEnvelopeWireVersion Pos.eqb throw_if bind].
    destruct (Z.ltb_spec kMaxEnvelopeAttributes (Z.of_nat (base.size (attributes e)))); [lia|].
    by destruct (Z.ltb_spec kMaxFrameBytes (total_size e)); [lia|].
  - split; [|eauto]. intros Hs. destruct (serialize_layout e Hs) as (m & t & p & Hw & _); [apply Hr|].
    congruence.
Qed.

Lemma serialize_spec_witness :
  (serializable sample /\ exists w, serialize sample = Ok w
     /\ serialized_size sample = Ok (Z.of_nat (length w)))
  \/ (~ serializable sample /\ exists err, serialize sample = Throw err).
Proof. apply (serialize_spec sample), sample_in_range. Defined.

(** ** What a successful [deserialize] promises *)

Lemma expect_magic_ok b r rest : expect_magic b r = Ok rest -> r = b :: rest.
Proof.
  unfold expect_magic. intros H. apply bind_ok in H as ([v r'] & Hg & H).
  apply get_ok in Hg as [-> Hv]; [|lia].
  destruct (Z.eqb_spec v (Z_of_byte b)) as [->|]; [|done]. injection H as <-.
  Transparent be_bytes. simpl. Opaque be_bytes. rewrite Z.shiftr_0_r. by rewrite byte_of_Z_of_byte.
Qed.

Lemma get_required_ok r s rest :
  get_identity false r = Ok (s, rest) ->
  is_canonical_identity s = true /\ exists w, length w = 16%nat /\ r = w ++ rest.
Proof. intros [[Hs|[Hf _]] Hw]%get_identity_ok; [by split|done]. Qed.

Lemma i64_range z : in_i64 (i64 z).
Proof.
  unfold in_i64, i64. pose proof (Z.mod_pos_bound (z + 2 ^ 63) (2 ^ 64) ltac:(lia)). lia.
Qed.

Lemma u64_i64 z : in_u64 z -> u64 (i64 z) = z.
Proof.
  unfold in_u64, u64, i64. intros Hz.
  destruct (Z.ltb_spec z (2 ^ 63)).
  - rewrite (Z.mod_small (z + 2 ^ 63)) by lia. rewrite Z.mod_small; lia.
  - replace (z + 2 ^ 63) with (z - 2 ^ 63 + 1 * 2 ^ 64) by lia.
    rewrite Z.mod_add, (Z.mod_small (z - 2 ^ 63)) by lia.
    replace (z - 2 ^ 63 - 2 ^ 63) with (z + (-1) * 2 ^ 64) by lia.
    rewrite Z.mod_add, Z.mod_small; lia.
Qed.

Lemma deserialize_ok w e :
  deserialize w = Ok e ->
  exists m t p l,
    w = layout e m t p l /\ length m = 16%nat /\ length t = 16%nat /\ length p = 16%nat
    /\ l ≡ₚ map_to_list (attributes e) /\ serializable e /\ in_range e.
Proof.
  unfold deserialize. intros H.
  apply bind_ok in H as ([] & Hlen & H). apply throw_if_ok, Z.ltb_ge in Hlen.
  apply bind_ok in H as (r1 & ->%expect_magic_ok & H).
  apply bind_ok in H as (r2 & ->%expect_magic_ok & H).
  apply bind_ok in H as (r3 & ->%expect_magic_ok & H).
  apply bind_ok in H as ([version r4] & [-> Hver]%get_ok_1 & H).
  apply bind_ok in H as ([] & Hv & H). apply throw_if_ok, negb_false_iff, Z.eqb_eq in Hv as ->.
  apply bind_ok in H as ([sq r5] & [-> Hseq]%get_ok_8 & H).
  apply bind_ok in H as ([ts r6] & [-> Hts]%get_ok_8 & H).
  apply bind_ok in H as ([message r7] & (Hm & m & Hml & ->)%get_required_ok & H).
  apply bind_ok in H as ([trace r8] & (Ht & t & Htl & ->)%get_required_ok & H).
  apply bind_ok in H as ([parent r9] & (Hp & p & Hpl & ->)%get_identity_ok & H).
  apply bind_ok in H as ([ty r10] & [Hty ->]%get_string_ok & H).
  apply bind_ok in H as ([count r11] & [-> Hcount]%get_ok_4 & H).
  apply bind_ok in H as ([] & Hc & H). apply throw_if_ok, Z.ltb_ge in Hc.
  apply bind_ok in H as ([attrs r12] & (l & Hl & -> & Hsm & Hnd & _ & ->)%get_attributes_ok & H).
  apply bind_ok in H as ([data r13] & [Hd ->]%get_string_ok & H).
  apply bind_ok in H as ([] & Hend & H).
  apply throw_if_ok, negb_false_iff, Nat.eqb_eq, length_zero_iff_nil in Hend as ->.
  injection H as <-. rewrite map_union_empty.
  assert (Hperm : l ≡ₚ map_to_list (list_to_map l : gmap string string))
    by (symmetry; by apply map_to_list_to_map).
  exists m, t, p, l. unfold layout. cbn [sequence timestamp_ns type payload attributes].
  replace (Z.of_nat (length l)) with count by lia. rewrite u64_i64 by done.
  change (be_bytes 1 kEnvelopeWireVersion) with [x02] in *. rewrite app_nil_r in *.
  split; [done|].
  split_and!; try done.
  - split_and!; try done; cbn [attributes wire_version message_id trace_id parent_message_id].
    + rewrite <-length_map_to_list, <-Hperm. lia.
    + unfold total_size. cbn [type payload attributes]. rewrite <-Hperm.
      pose proof (attributes_wire_length l). pose proof (string_wire_length ty).
      pose proof (string_wire_length data).
      cbn [length] in Hlen. rewrite !length_app, !be_bytes_length, Hml, Htl, Hpl in Hlen.
      cbn [length] in Hlen. lia.
  - split_and!; cbn [sequence timestamp_ns wire_version]; [done|apply i64_range|].
    unfold in_u8, kEnvelopeWireVersion. lia.
Qed.

(** Whatever bytes [deserialize] accepts, the envelope is well formed: its
    fields are in range, its identities canonical, and serializing it again
    succeeds, takes exactly as many bytes as were read, and decodes to the same
    envelope. A relay never fails or grows a message it could decode. *)
Theorem deserialize_reserializes w e :
  deserialize w = Ok e ->
  in_range e /\ exists w', serialize e = Ok w' /\ length w' = length w /\ deserialize w' = Ok e.
Proof.
  intros H. destruct (deserialize_ok _ _ H) as (m & t & p & l & -> & Hm & Ht & Hp & Hl & Hs & Hr).
  split; [done|].
  destruct (serialize_layout e Hs) as (m' & t' & p' & Hw & Hm' & Ht' & Hp' & _); [apply Hr|].
  eexists. split; [exact Hw|]. split; [|by eapply envelope_roundtrip_aux].
  apply Nat2Z.inj. rewrite !layout_length by done. by rewrite Hl, sorted_attributes_perm.
Qed.

Lemma deserialize_reserializes_witness :
  in_range sample /\ exists w', serialize sample = Ok w' /\ length w' = length sample_wire
    /\ deserialize w' = Ok sample.
Proof. apply (deserialize_reserializes sample_wire). vm_compute. reflexivity. Defined.

Lemma serialize_facts e w :
  in_range e -> serialize e = Ok w ->
  deserialize w = Ok e /\ serialized_size e = Ok (Z.of_nat (length w)) /\ (80 <= length w)%nat.
Proof.
  intros Hr Hw. split; [by apply envelope_roundtrip_aux|].
  pose proof (serialize_ok _ _ Hw) as Hs.
  destruct (serialize_layout e Hs) as (m & t & p & Hw' & Hm & Ht & Hp & _); [apply Hr|].
  rewrite Hw' in Hw. injection Hw as <-.
  pose proof (layout_length e m t p (sorted_attributes e) Hm Ht Hp) as Hl.
  assert (Hp' : attributes_size (sorted_attributes e) = attributes_size (map_to_list (attributes e)))
    by (by rewrite sorted_attributes_perm).
  rewrite Hp' in Hl. rewrite Hl.
  pose proof (size_nonneg (type e)). pose proof (size_nonneg (payload e)).
  pose proof (attributes_size_nonneg (map_to_list (attributes e))).
  destruct Hs as (Hv & _ & _ & _ & Hn & Hsz). split; [|lia].
  unfold serialized_size, validate_serializable. rewrite Hv, encoded_size_eq.
  cbn [negb Z.eqb kEnvelopeWireVersion Pos.eqb throw_if bind].
  destruct (Z.ltb_spec kMaxEnvelopeAttributes (Z.of_nat (base.size (attributes e)))); [lia|].
  by destruct (Z.ltb_spec kMaxFrameBytes (total_size e)); [lia|].
Qed.

Lemma deserialize_in_range w e : deserialize w = Ok e -> in_range e.
Proof. intros H. by destruct (deserialize_ok _ _ H) as (? & ? & ? & ? & _ & _ & _ & _ & _ & _ & Hr). Qed.

(** Envelopes are a message format in the sense of the transports. *)
#[export] Instance envelope_codec : Codec Envelope.
Proof.
  refine {| codec_wf e := in_range e /\ serializable e; encode := serialize;
            decode := deserialize |}.
  - intros e [Hr Hs]. destruct (serialize_layout e Hs) as (? & ? & ? & ? & _); [apply Hr|eauto].
  - intros e w [Hr _]. by apply envelope_roundtrip_aux.
Defined.

(** A derived envelope is a fresh message of its parent's trace: its own
    identities are canonical, it carries the parent's trace and names the
    parent's message whenever those are canonical, and it can be serialized as
    soon as its type and payload fit. *)
Theorem derive_correlates entropy t n1 n2 counter parent sq ty data e counter' :
  derive entropy t n1 n2 counter parent sq ty data = (e, counter') ->
  in_u64 sq -> 80 + size ty + size data <= kMaxFrameBytes ->
  trace_id e = (if is_canonical_identity (trace_id parent) then trace_id parent
                else (generate_identity entropy n1 counter).1)
  /\ parent_message_id e = (if is_canonical_identity (message_id parent)
                            then message_id parent else EmptyString)
  /\ serializable e /\ exists w, serialize e = Ok w.
Proof.
  intros H Hseq Hsz.
  unfold derive, make in H.
  destruct (generate_identity entropy n1 counter) as [trace c1] eqn:E1.
  destruct (generate_identity entropy n2 c1) as [message c2] eqn:E2.
  assert (Ht : is_canonical_identity trace = true)
    by (change trace with (trace, c1).1; rewrite <-E1; apply generate_identity_canonical_aux).
  assert (Hm : is_canonical_identity message = true)
    by (change message with (message, c2).1; rewrite <-E2; apply generate_identity_canonical_aux).
  assert (Hser : serializable e /\ sequence e = sq).
  { destruct (is_canonical_identity (trace_id parent)) eqn:Hpt,
      (is_canonical_identity (message_id parent)) eqn:Hpm; injection H as <- <-;
      (split; [split_and!; unfold identity_ok, total_size, with_trace, with_parent;
        cbn [wire_version message_id trace_id parent_message_id attributes type payload];
        rewrite ?map_to_list_empty, ?map_size_empty;
        first [done | tauto | unfold kMaxEnvelopeAttributes; simpl; lia]|done]). }
  destruct Hser as [Hser Hsq].
  split_and!; [..|done|].
  - destruct (is_canonical_identity (trace_id parent)),
      (is_canonical_identity (message_id parent)); injection H as <- <-; done.
  - destruct (is_canonical_identity (trace_id parent)),
      (is_canonical_identity (message_id parent)); injection H as <- <-; done.
  - destruct (serialize_layout e Hser) as (? & ? & ? & ? & _); [by rewrite Hsq|eauto].
Qed.

Lemma derive_correlates_witness :
  let e := (derive 55 0 10 20 1 sample 8 "Reply" "x").1 in
  trace_id e = "0123456789abcdef0123456789abcdef"
  /\ parent_message_id e = "00000000000000000000000000000001"
  /\ serializable e /\ exists w, serialize e = Ok w.
Proof.
  refine (derive_correlates 55 0 10 20 1 sample 8 "Reply" "x" _ 3 _ _ _).
  - vm_compute. reflexivity.
  - unfold in_u64. lia.
  - vm_compute. discriminate.
Defined.

End EnvelopeCodec.
