(* ===== verification/InProcess.v ===== *)
(** * In-process channels (src/src/in_process_transport.cpp,
    src/include/graphx/in_process_transport.hpp, src/include/graphx/transport.hpp)

    The bounded queue shared by two transports, and the transport on top of it.
    Every critical section of the C++ code is one function on the channel; a
    thread that blocks on a condition variable leaves the critical section and
    re-enters it through the [_resume] function, when it is notified or when its
    wait expires.  [step] interleaves any number of threads.

    The message type is any [Codec]: the transport only needs to serialize. *)

From Stdlib Require Import ZArith Lia Strings.Byte Strings.String.
From stdpp Require Import base list relations.
From S2P Require Import Prelude Framing.

Module InProcess.
Local Open Scope Z_scope.

Inductive InProcessBackpressure := block | reject.

Record InProcessOptions := {
  capacity : Z;
  backpressure : InProcessBackpressure;
  send_timeout : Z;
}.

Inductive ChannelPushStatus := push_accepted | push_closed | push_timed_out | push_rejected.
Inductive ChannelPopStatus := pop_message | pop_timeout | pop_closed.
Inductive ReceiveStatus := message | timeout | end_of_stream | cancelled.

#[export] Instance InProcessBackpressure_eq_dec : EqDecision InProcessBackpressure.
Proof. solve_decision. Defined.
#[export] Instance ChannelPushStatus_eq_dec : EqDecision ChannelPushStatus.
Proof. solve_decision. Defined.

Definition backpressure_to_string (policy : InProcessBackpressure) : string :=
  match policy with block => "block" | reject => "reject" end.

Definition receive_status_to_string (status : ReceiveStatus) : string :=
  match status with
  | message => "message"
  | timeout => "timeout"
  | end_of_stream => "end_of_stream"
  | cancelled => "cancelled"
  end.

Section Channel.
Context {A : Type} {codec : Codec A} (timestamp_ns : A -> Z).

Record InProcessChannel := {
  queue : list A;
  options : InProcessOptions;
  closed : bool;
}.

Definition make_channel (options : InProcessOptions) : result InProcessChannel :=
  let* _ := throw_if ((capacity options =? 0) || (65536 <? capacity options))
    (InvalidArgument "in-process capacity must be between 1 and 65536") in
  let* _ := throw_if (send_timeout options <=? 0)
    (InvalidArgument "in-process send timeout must be positive") in
  Ok {| queue := []; options := options; closed := false |}.

Definition push_back (c : InProcessChannel) (envelope : A) : InProcessChannel :=
  {| queue := queue c ++ [envelope]; options := options c; closed := closed c |}.

Definition has_room (c : InProcessChannel) : bool :=
  Z.of_nat (length (queue c)) <? capacity (options c).

(** [push] up to the wait: [None] means the thread blocks on [not_full_]. *)
Definition push (c : InProcessChannel) (envelope : A)
    : InProcessChannel * option ChannelPushStatus :=
  if closed c then (c, Some push_closed)
  else if negb (has_room c) then
    match backpressure (options c) with
    | reject => (c, Some push_rejected)
    | block => (c, None)
    end
  else (push_back c envelope, Some push_accepted).

(** [push] from the wait on.  [expired] says the send timeout has passed; the
    thread goes back to sleep ([None]) when it has not and the predicate of the
    wait still fails. *)
Definition push_resume (expired : bool) (c : InProcessChannel) (envelope : A)
    : InProcessChannel * option ChannelPushStatus :=
  if negb (closed c || has_room c) then
    (c, if expired then Some push_timed_out else None)
  else if closed c then (c, Some push_closed)
  else (push_back c envelope, Some push_accepted).

Definition pop_ready (c : InProcessChannel) : bool :=
  closed c || negb (length (queue c) =? 0)%nat.

Definition take_front (c : InProcessChannel) : InProcessChannel * (ChannelPopStatus * option A) :=
  match queue c with
  | [] => (c, (pop_closed, None))
  | envelope :: rest =>
      ({| queue := rest; options := options c; closed := closed c |}, (pop_message, Some envelope))
  end.

(** [pop] up to and from the wait: one function, since the predicate is tested
    the same way. A negative timeout never expires. *)
Definition pop (expired : bool) (c : InProcessChannel)
    : InProcessChannel * option (ChannelPopStatus * option A) :=
  if negb (pop_ready c) then (c, if expired then Some (pop_timeout, None) else None)
  else let (c', r) := take_front c in (c', Some r).

Definition close_channel (c : InProcessChannel) : InProcessChannel :=
  {| queue := queue c; options := options c; closed := true |}.

(** ** The transport *)

(** What the trace sink is told. *)
Inductive trace_event :=
| on_send (edge : string) (envelope : A) (bytes : Z)
| on_receive (edge : string) (envelope : A) (bytes : Z) (latency : Z)
| on_backpressure (edge : string) (wait : Z) (rejected : bool)
| on_connection_closed (edge : string).

Record InProcessTransport := {
  edge_id : string;
  transport_closed : bool;
}.

(** Before the push: the whole wire representation must be valid. *)
Definition send_prepare (t : InProcessTransport) (envelope : A) : result Z :=
  let* _ := throw_if (transport_closed t) (RuntimeError "send on closed in-process transport") in
  let* wire := encode envelope in
  Ok (Z.of_nat (length wire)).

(** After it: the trace events and the error of the outcome. *)
Definition send_finish (t : InProcessTransport) (envelope : A) (wire_bytes : Z)
    (status : ChannelPushStatus) (wait : Z) : list trace_event * result unit :=
  match status with
  | push_closed => ([], Throw (RuntimeError "in-process channel is closed"))
  | push_timed_out => ([on_backpressure (edge_id t) wait false],
      Throw (RuntimeError "in-process send timed out waiting for channel capacity"))
  | push_rejected => ([on_backpressure (edge_id t) wait true],
      Throw (RuntimeError "in-process channel is full (backpressure=reject)"))
  | push_accepted =>
      ((if 0 <? wait then [on_backpressure (edge_id t) wait false] else [])
         ++ [on_send (edge_id t) envelope wire_bytes], Ok tt)
  end.

(** [receive_result] around a finished pop: the transport may have been closed
    while the thread was waiting. *)
Definition receive_enter (t : InProcessTransport) : option (ReceiveStatus * option A) :=
  if transport_closed t then Some (cancelled, None) else None.

Definition receive_finish (t : InProcessTransport) (now_ns : Z)
    (r : ChannelPopStatus * option A)
    : list trace_event * result (ReceiveStatus * option A) :=
  match r with
  | (pop_message, Some envelope) =>
      match encode envelope with
      | Ok wire =>
          ([on_receive (edge_id t) envelope (Z.of_nat (length wire))
              (Z.max 0 (now_ns - timestamp_ns envelope))], Ok (message, Some envelope))
      | Throw e => ([], Throw e)
      end
  | (status, _) =>
      if transport_closed t then ([], Ok (cancelled, None))
      else ([], Ok (match status with pop_timeout => timeout | _ => end_of_stream end, None))
  end.

Definition close_transport (t : InProcessTransport) (c : InProcessChannel)
    : InProcessTransport * InProcessChannel * list trace_event :=
  if transport_closed t then (t, c, [])
  else ({| edge_id := edge_id t; transport_closed := true |}, close_channel c,
        [on_connection_closed (edge_id t)]).

(** ** Interleavings

    [pushers] are the envelopes of the threads blocked in [push]; [poppers]
    counts the threads blocked in [pop].  [sent] and [received] record, in
    order, what has entered and left the queue. *)
Record system := {
  chan : InProcessChannel;
  pushers : list A;
  poppers : nat;
  sent : list A;
  received : list A;
}.

Definition start (c : InProcessChannel) : system :=
  {| chan := c; pushers := []; poppers := 0; sent := []; received := [] |}.

Definition record_push (s : system) (c : InProcessChannel) (pushers : list A) (envelope : A)
    (r : option ChannelPushStatus) : system :=
  {| chan := c; poppers := poppers s; received := received s;
     pushers := match r with None => pushers ++ [envelope] | Some _ => pushers end;
     sent := match r with Some push_accepted => sent s ++ [envelope] | _ => sent s end |}.

Definition record_pop (s : system) (c : InProcessChannel) (poppers : nat)
    (r : option (ChannelPopStatus * option A)) : system :=
  {| chan := c; pushers := pushers s; sent := sent s;
     poppers := match r with None => S poppers | Some _ => poppers end;
     received := match r with Some (_, Some envelope) => received s ++ [envelope]
                 | _ => received s end |}.

Inductive step : system -> system -> Prop :=
| step_push s envelope c r wire :
    encode envelope = Ok wire ->
    push (chan s) envelope = (c, r) ->
    step s (record_push s c (pushers s) envelope r)
| step_push_resume s expired before envelope after c r :
    pushers s = before ++ envelope :: after ->
    push_resume expired (chan s) envelope = (c, r) ->
    step s (record_push s c (before ++ after) envelope r)
| step_pop s c r :
    pop false (chan s) = (c, r) -> step s (record_pop s c (poppers s) r)
| step_pop_resume s expired n c r :
    poppers s = S n ->
    pop expired (chan s) = (c, r) -> step s (record_pop s c n r)
| step_close s :
    step s {| chan := close_channel (chan s); pushers := pushers s; poppers := poppers s;
              sent := sent s; received := received s |}.

(** ** Lemmas *)

Definition encodable (envelope : A) : Prop := exists wire, encode envelope = Ok wire.

Definition options_ok (o : InProcessOptions) : Prop :=
  1 <= capacity o <= 65536 /\ 0 < send_timeout o.

Lemma make_channel_ok o c :
  make_channel o = Ok c ->
  (options_ok o \/ capacity o < 0) /\ c = {| queue := []; options := o; closed := false |}.
Proof.
  unfold make_channel, options_ok. intros H. invert_ok.
  rewrite orb_false_iff, Z.eqb_neq, Z.ltb_ge in *. rewrite Z.leb_gt in *. split; [lia|done].
Qed.

(** What every reachable system satisfies. *)
Definition invariant (s : system) : Prop :=
  0 <= capacity (options (chan s)) ->
  Z.of_nat (length (queue (chan s))) <= capacity (options (chan s))
  /\ sent s = received s ++ queue (chan s)
  /\ Forall encodable (queue (chan s)) /\ Forall encodable (pushers s).

Lemma push_cases c envelope c' r :
  (push c envelope = (c', r) \/ exists expired, push_resume expired c envelope = (c', r)) ->
  (c' = c /\ r <> Some push_accepted)
  \/ (c' = push_back c envelope /\ r = Some push_accepted
      /\ closed c = false /\ has_room c = true).
Proof.
  unfold push, push_resume. intros [H|[expired H]];
    destruct (closed c) eqn:Hc, (has_room c) eqn:Hr; simpl in H;
    try destruct (backpressure (options c)); try destruct expired; injection H as <- <-;
    solve [left; split; [done|discriminate] | right; done].
Qed.

Lemma pop_cases expired c c' r :
  pop expired c = (c', r) ->
  (c' = c /\ (r = None \/ r = Some (pop_timeout, None)) /\ pop_ready c = false)
  \/ (c' = c /\ r = Some (pop_closed, None) /\ queue c = [] /\ closed c = true)
  \/ (exists envelope, queue c = envelope :: queue c' /\ r = Some (pop_message, Some envelope)
      /\ options c' = options c /\ closed c' = closed c).
Proof.
  unfold pop, take_front. intros H. destruct (pop_ready c) eqn:Hp; simpl in H.
  - right. unfold pop_ready in Hp. destruct (queue c) as [|envelope q] eqn:Hq; injection H as <- <-.
    + left. simpl in Hp. by rewrite orb_false_r in Hp.
    + right. by exists envelope.
  - left. destruct expired; injection H as <- <-; auto.
Qed.

Lemma invariant_push s c ps envelope r :
  invariant s -> encodable envelope -> Forall encodable ps ->
  (push (chan s) envelope = (c, r) \/ exists expired, push_resume expired (chan s) envelope = (c, r)) ->
  invariant (record_push s c ps envelope r).
Proof.
  intros Hi He Hps [[-> Hr]|(-> & -> & _ & Hroom)]%push_cases; unfold invariant in *; simpl.
  - intros Hcap. destruct (Hi Hcap) as (Hlen & Hsent & Hq & _).
    split_and!; [done| |done|]; destruct r as [[]|]; try done; try (apply Forall_app; auto).
  - intros Hcap. destruct (Hi Hcap) as (Hlen & Hsent & Hq & _).
    apply Z.ltb_lt in Hroom. rewrite length_app, Hsent, app_assoc. simpl.
    split_and!; [lia|done|by apply Forall_app; auto|done].
Qed.

Lemma invariant_pop s c n r expired :
  invariant s -> pop expired (chan s) = (c, r) -> invariant (record_pop s c n r).
Proof.
  intros Hi [(-> & Hr & _)|[(-> & -> & _)|(envelope & Hq & -> & Ho & _)]]%pop_cases;
    unfold invariant in *; simpl.
  - by destruct Hr as [->| ->].
  - done.
  - rewrite Ho. intros Hcap. destruct (Hi Hcap) as (Hlen & Hsent & Henc & Hps).
    rewrite Hq in *. simpl in Hlen. apply Forall_cons in Henc as [_ Henc].
    split_and!; [lia|by rewrite Hsent, <-app_assoc|done|done].
Qed.

Lemma channel_step_invariant s s' : step s s' -> invariant s -> invariant s'.
Proof.
  destruct 1 as [s envelope c r wire He Hp|s expired before envelope after c r Hps Hp
    |s c r Hp|s expired n c r Hn Hp|s]; intros Hi.
  - unfold invariant. simpl. intros Hcap. 
    assert (Hopt : options c = options (chan s))
      by (by destruct (push_cases (chan s) envelope c r) as [[-> _]|[-> _]]; [left|..]).
    apply (invariant_push s c (pushers s) envelope r); auto; [by exists wire|].
    rewrite Hopt in Hcap. by destruct (Hi Hcap) as (_ & _ & _ & ?).
  - unfold invariant. simpl. intros Hcap.
    assert (Hopt : options c = options (chan s))
      by (by destruct (push_cases (chan s) envelope c r) as [[-> _]|[-> _]]; [right; eauto|..]).
    rewrite Hopt in Hcap. destruct (Hi Hcap) as (_ & _ & _ & Hall). rewrite Hps in Hall.
    apply Forall_app in Hall as [Hb [He Ha]%Forall_cons].
    apply (invariant_push s c (before ++ after) envelope r); [done|done|by apply Forall_app|by right; eauto|].
    simpl. by rewrite Hopt.
  - by eapply invariant_pop.
  - by eapply invariant_pop.
  - done.
Qed.

Lemma channel_reachable_invariant o c s :
  make_channel o = Ok c -> rtc step (start c) s -> invariant s.
Proof.
  intros [_ ->]%make_channel_ok Hs.
  enough (forall s1 s2, rtc step s1 s2 -> invariant s1 -> invariant s2) as Hgen
    by (by eapply Hgen; [done|]; intros ?; split_and!; simpl; auto).
  induction 1; eauto using channel_step_invariant.
Qed.

Lemma step_options s s' : step s s' -> options (chan s') = options (chan s).
Proof.
  destruct 1 as [s envelope c r wire He Hp|s expired before envelope after c r Hps Hp
    |s c r Hp|s expired n c r Hn Hp|s]; simpl; [..|done].
  - by destruct (push_cases (chan s) envelope c r) as [[-> _]|[-> _]]; [left|..].
  - by destruct (push_cases (chan s) envelope c r) as [[-> _]|[-> _]]; [right; eauto|..].
  - by apply pop_cases in Hp as [(-> & _)|[(-> & _)|(? & _ & _ & ? & _)]].
  - by apply pop_cases in Hp as [(-> & _)|[(-> & _)|(? & _ & _ & ? & _)]].
Qed.

Lemma reachable_options o c s :
  make_channel o = Ok c -> rtc step (start c) s -> options (chan s) = o.
Proof.
  intros [_ ->]%make_channel_ok Hs.
  enough (forall s1 s2, rtc step s1 s2 -> options (chan s2) = options (chan s1)) as Hgen
    by (by apply (Hgen _ _ Hs)).
  induction 1 as [|s1 s2 s3 Hstep _ IH]; [done|]. rewrite IH. by apply step_options.
Qed.

(** Popping [n] times, without waiting. *)
Fixpoint drain (n : nat) (c : InProcessChannel) : list (option (ChannelPopStatus * option A)) :=
  match n with
  | O => []
  | S n => let (c', r) := pop false c in r :: drain n c'
  end.

(** ** Properties *)

(** C26: However the sending, receiving and closing threads interleave, the
    channel is a bounded FIFO: it never holds more than its capacity, what has
    been received followed by what is queued is exactly what was accepted, in
    order, and every queued envelope can be serialized. *)
Theorem channel_fifo o c s :
  0 <= capacity o -> make_channel o = Ok c -> rtc step (start c) s ->
  Z.of_nat (length (queue (chan s))) <= capacity o
  /\ sent s = received s ++ queue (chan s)
  /\ Forall encodable (queue (chan s)).
Proof.
  intros Hcap Hc Hs. pose proof (reachable_options _ _ _ Hc Hs) as Ho.
  pose proof (channel_reachable_invariant _ _ _ Hc Hs) as Hi. unfold invariant in Hi.
  rewrite Ho in Hi. destruct Hi as (? & ? & ? & _); [lia|done].
Qed.

(** A message a receiver takes out of a reachable channel can always be
    reported: [receive_result] returns it and never throws. *)
Theorem receive_never_throws o c s expired c' envelope t now :
  0 <= capacity o -> make_channel o = Ok c -> rtc step (start c) s ->
  pop expired (chan s) = (c', Some (pop_message, Some envelope)) ->
  (receive_finish t now (pop_message, Some envelope)).2 = Ok (message, Some envelope).
Proof.
  intros Hcap Hc Hs Hp. pose proof (channel_reachable_invariant _ _ _ Hc Hs) as Hi. unfold invariant in Hi.
  rewrite (reachable_options _ _ _ Hc Hs) in Hi. destruct Hi as (_ & _ & Henc & _); [lia|].
  apply pop_cases in Hp as [(_ & [Hr|Hr] & _)|[(_ & Hr & _)|(x & Hq & Hr & _)]]; try discriminate Hr.
  injection Hr as <-. rewrite Hq in Henc. apply Forall_cons in Henc as [(wire & Hw) _].
  unfold receive_finish. by rewrite Hw.
Qed.

(** C35: Once the channel is closed nothing enters it any more, no thread can
    stay blocked on it, and popping it [length + 1] times returns the queued
    messages in order and then reports the end. *)
Theorem closed_channel_drains c envelope expired :
  closed c = true ->
  push c envelope = (c, Some push_closed)
  /\ push_resume expired c envelope = (c, Some push_closed)
  /\ drain (S (length (queue c))) c
     = ((fun e => Some (pop_message, Some e)) <$> queue c) ++ [Some (pop_closed, None)].
Proof.
  intros Hc. unfold push, push_resume. rewrite Hc. split_and!; [done|done|].
  destruct c as [q o cl]. simpl in *. subst cl.
  induction q as [|e q IH]; [done|]. simpl. f_equal. exact IH.
Qed.

(** With the [reject] policy no sender ever blocks; with [block] a sender
    blocks exactly while the open channel is full, and each wait ends in
    [accepted], [closed] or, only after the send timeout, [timed_out]. *)
Theorem push_outcomes c envelope :
  (snd (push c envelope) = None <->
     closed c = false /\ has_room c = false /\ backpressure (options c) = block)
  /\ (snd (push_resume true c envelope) <> None)
  /\ (snd (push_resume false c envelope) <> Some push_timed_out)
  /\ (snd (push_resume false c envelope) = None <-> closed c = false /\ has_room c = false).
Proof.
  unfold push, push_resume.
  destruct (closed c), (has_room c), (backpressure (options c)); simpl; intuition congruence.
Qed.

End Channel.
Arguments InProcessChannel : clear implicits.
Arguments system : clear implicits.
Arguments trace_event : clear implicits.

(** ** A concrete run: two messages through a channel of capacity one, the
    second sender blocking until the first message is received. *)
Module Run.
Import Framing.

Definition opts : InProcessOptions := {| capacity := 1; backpressure := block; send_timeout := 5 |}.
Definition channel (q : list (list byte)) : InProcessChannel (list byte) :=
  {| queue := q; options := opts; closed := false |}.
Definition final : system (list byte) :=
  {| chan := channel [[x02]]; pushers := []; poppers := 0;
     sent := [[x01]; [x02]]; received := [[x01]] |}.

Lemma channel_run : rtc step (start (channel [])) final.
Proof.
  eapply rtc_l; [eapply (step_push _ [x01]); reflexivity|]. simpl.
  eapply rtc_l; [eapply (step_push _ [x02]); reflexivity|]. simpl.
  eapply rtc_l; [eapply step_pop; reflexivity|]. simpl.
  eapply rtc_l; [eapply (step_push_resume _ false [] [x02] []); reflexivity|]. simpl.
  apply rtc_refl.
Defined.

Lemma channel_fifo_witness :
  Z.of_nat (length (queue (chan final))) <= capacity opts
  /\ sent final = received final ++ queue (chan final)
  /\ Forall encodable (queue (chan final)).
Proof.
  apply (channel_fifo opts (channel []) final); [discriminate|reflexivity|apply channel_run].
Defined.

Lemma receive_never_throws_witness :
  (receive_finish (fun _ => 0) {| edge_id := "e"; transport_closed := false |} 0
     (pop_message, Some [x02])).2 = Ok (message, Some [x02]).
Proof.
  apply (receive_never_throws (fun _ => 0) opts (channel []) final false (channel []));
    [discriminate|reflexivity|apply channel_run|reflexivity].
Defined.

Lemma closed_channel_drains_witness :
  let c := close_channel (channel [[x02]]) in
  push c [x03] = (c, Some push_closed)
  /\ push_resume false c [x03] = (c, Some push_closed)
  /\ drain (S (length (queue c))) c
     = ((fun e => Some (pop_message, Some e)) <$> queue c) ++ [Some (pop_closed, None)].
Proof. apply (closed_channel_drains (close_channel (channel [[x02]]))). reflexivity. Defined.

End Run.
End InProcess.
