(* ===== verification/SharedMemory.v ===== *)
(** * Shared-memory ring (src/src/shared_memory_transport.cpp,
    src/include/graphx/shared_memory_transport.hpp)

    A single-producer single-consumer ring in a shared mapping: a header with
    64-bit counters and [capacity] slots of [slot_stride] bytes.  The slot area
    is a byte list, so slots, offsets and [memcpy] ranges are explicit.  The
    functions follow the critical sections of [send] and [receive_result]; what
    the operating system decides (a robust mutex whose owner died, a wait that
    ends, whether the peer process is alive) is an argument.

    [header_bytes] is [sizeof(SharedHeader)] and [max_align] is
    [alignof(std::max_align_t)], both fixed by the platform; the slot length is
    stored in native (little-endian) order. *)

From Stdlib Require Import ZArith Lia Strings.Byte Strings.Ascii Strings.String.
From stdpp Require Import base strings list.
From S2P Require Import Prelude Framing.

Module SharedMemory.
Import Framing.
Local Open Scope Z_scope.

Definition kMaximumMappingBytes : Z := 256 * 1024 * 1024.

Inductive SharedMemoryBackpressure := block | reject.

Definition to_string (policy : SharedMemoryBackpressure) : string :=
  match policy with block => "block" | reject => "reject" end.

Record SharedMemoryOptions := {
  capacity : Z;
  max_message_bytes : Z;
  backpressure : SharedMemoryBackpressure;
}.

Record SharedHeader := {
  h_capacity : Z;
  h_max_message_bytes : Z;
  head : Z;
  tail : Z;
  recovery_count : Z;
  producer_pid : Z;
  consumer_pid : Z;
  closed : bool;
}.

Definition normalize_name (name : string) : result string :=
  match name with
  | EmptyString => Throw (InvalidArgument "shared-memory segment name is empty")
  | String c _ =>
      let name := if Ascii.eqb c "/"%char then name else "/" +:+ name in
      if (200 <? size name) || (match String.index 1 "/" name with Some _ => true | None => false end)
      then Throw (InvalidArgument "shared-memory segment must be one POSIX name")
      else Ok name
  end.

Section Platform.
Context (header_bytes max_align : Z).

Definition slot_stride (maximum : Z) : Z :=
  let raw := 4 + maximum in (raw + max_align - 1) / max_align * max_align.

Definition mapping_size (o : SharedMemoryOptions) : result Z :=
  let* _ := throw_if ((capacity o =? 0) || (65536 <? capacity o))
    (InvalidArgument "shared-memory capacity must be between 1 and 65536") in
  let* _ := throw_if ((max_message_bytes o <? 64) || (kMaxFrameBytes + 4 <? max_message_bytes o))
    (InvalidArgument "shared-memory maximum message size must be between 64 and 16777220") in
  let stride := slot_stride (max_message_bytes o) in
  let* _ := throw_if ((kMaximumMappingBytes - header_bytes) / stride <? capacity o)
    (InvalidArgument "shared-memory mapping exceeds 256 MiB") in
  Ok (header_bytes + capacity o * stride).

(** The owner's initialisation of the zeroed mapping: header and slot area. *)
Definition initialize (o : SharedMemoryOptions) (pid : Z) : result (SharedHeader * list byte) :=
  let* mapping := mapping_size o in
  Ok ({| h_capacity := u32 (capacity o); h_max_message_bytes := u32 (max_message_bytes o);
         head := 0; tail := 0; recovery_count := 0; producer_pid := 0; consumer_pid := pid;
         closed := false |},
      replicate (Z.to_nat (mapping - header_bytes)) x00).

(** Offset of a slot in the slot area *)
Definition slot (h : SharedHeader) (sequence : Z) : Z :=
  (sequence mod h_capacity h) * slot_stride (h_max_message_bytes h).

Definition set_closed (h : SharedHeader) : SharedHeader :=
  {| h_capacity := h_capacity h; h_max_message_bytes := h_max_message_bytes h; head := head h;
     tail := tail h; recovery_count := recovery_count h; producer_pid := producer_pid h;
     consumer_pid := consumer_pid h; closed := true |}.

(** The previous owner of the mutex died: the ring is emptied and closed. *)
Definition recover (h : SharedHeader) : SharedHeader :=
  {| h_capacity := h_capacity h; h_max_message_bytes := h_max_message_bytes h; head := head h;
     tail := head h; recovery_count := u64 (recovery_count h + 1);
     producer_pid := producer_pid h; consumer_pid := consumer_pid h; closed := true |}.

Definition lock_header (owner_dead : bool) (h : SharedHeader) : SharedHeader * bool :=
  if owner_dead then (recover h, true) else (h, false).

Inductive wait_status := notified | timed_out | wait_owner_dead | wait_error (text : string).

(** Reacquiring the mutex at the end of a wait can find its owner dead too. *)
Definition wait_condition (status : wait_status) (h : SharedHeader) : SharedHeader :=
  match status with wait_owner_dead => recover h | _ => h end.

(** ** Raw memory *)

Definition write (offset : nat) (bytes memory : list byte) : list byte :=
  take offset memory ++ bytes ++ drop (offset + length bytes) memory.
Definition read (offset count : nat) (memory : list byte) : list byte :=
  take count (drop offset memory).

(** A 32-bit value in native order *)
Definition native_u32 (v : Z) : list byte := rev (be_bytes 4 v).
Definition of_native_u32 (bytes : list byte) : Z := be_value (rev bytes).

(** ** Operations *)

(** The exception [fail(detail)] throws *)
Definition context (edge_id segment action : string) : string :=
  "shared memory" +:+ (if (size edge_id =? 0) then EmptyString else " edge '" +:+ edge_id +:+ "'")
    +:+ " segment '" +:+ segment +:+ "' " +:+ action.
Definition fail (edge_id segment detail : string) : exn :=
  RuntimeError (context edge_id segment detail).

(** How a critical section ends: with a value, with [fail(detail)], or blocked
    on its condition variable. *)
Inductive outcome (A : Type) := Done (a : A) | Failed (detail : string) | Wait.
Arguments Done {A} a.
Arguments Failed {A} detail.
Arguments Wait {A}.

Section Message.
Context {A : Type} {codec : Codec A}.

(** Everything [send] does before taking the lock. *)
Definition send_prepare (o : SharedMemoryOptions) (locally_closed : bool) (envelope : A)
    : result (outcome (list byte)) :=
  let* _ := throw_if locally_closed (RuntimeError "send on closed shared memory") in
  let* serialized := encode envelope in
  let* framed := frame serialized in
  Ok (if max_message_bytes o <? Z.of_nat (length framed)
      then Failed "frame exceeds configured maximum message size" else Done framed).

Definition is_full (h : SharedHeader) : bool := h_capacity h <=? u64 (head h - tail h).

(** The head of the waiting loop. *)
Definition send_room (o : SharedMemoryOptions) (expired : bool) (h : SharedHeader)
    : SharedHeader * outcome unit :=
  if is_full h then
    match backpressure o with
    | reject => (h, Failed "ring is full (backpressure=reject)")
    | block => (h, if expired then Failed "send timed out waiting for ring capacity" else Wait)
    end
  else (h, Done tt).

Definition send_locked (o : SharedMemoryOptions) (owner_dead consumer_alive expired : bool)
    (h : SharedHeader) : SharedHeader * outcome unit :=
  let (h, recovered) := lock_header owner_dead h in
  if recovered then (h, Failed "recovered an abandoned mutex; recreate the segment")
  else if closed h then (h, Failed "send on closed channel")
  else if negb consumer_alive then (set_closed h, Failed "consumer process is no longer alive")
  else send_room o expired h.

(** The rest of one turn of the loop, after the wait. *)
Definition send_woken (o : SharedMemoryOptions) (status : wait_status)
    (consumer_alive expired : bool) (h : SharedHeader) : SharedHeader * outcome unit :=
  let h := wait_condition status h in
  match status with
  | wait_owner_dead => (h, Failed "peer died while holding the ring mutex; recreate the segment")
  | wait_error text => (h, Failed ("wait for ring capacity failed: " +:+ text))
  | _ =>
      if closed h then (h, Failed "channel closed while waiting for ring capacity")
      else if negb consumer_alive
      then (set_closed h, Failed "consumer process exited while producer was blocked")
      else send_room o expired h
  end.

(** Copy the frame into the slot at [head] and publish it. *)
Definition send_commit (framed : list byte) (h : SharedHeader) (memory : list byte)
    : SharedHeader * list byte :=
  let offset := Z.to_nat (slot h (head h)) in
  let memory := write offset (native_u32 (u32 (Z.of_nat (length framed)))) memory in
  let memory := write (offset + 4) framed memory in
  ({| h_capacity := h_capacity h; h_max_message_bytes := h_max_message_bytes h;
      head := u64 (head h + 1); tail := tail h; recovery_count := recovery_count h;
      producer_pid := producer_pid h; consumer_pid := consumer_pid h; closed := closed h |},
   memory).

Inductive receive_state := ready | cancelled | end_of_stream | timeout.

(** The head of the receiver's waiting loop; [Done] leaves the loop. *)
Definition receive_ready (locally_closed producer_alive expired : bool) (h : SharedHeader)
    : SharedHeader * outcome receive_state :=
  if negb (head h =? tail h) then (h, Done ready)
  else if locally_closed then (h, Done cancelled)
  else if closed h then (h, Done end_of_stream)
  else if negb (producer_pid h =? 0) && negb producer_alive then (set_closed h, Done end_of_stream)
  else if expired then (h, Done timeout)
  else (h, Wait).

Definition receive_locked (owner_dead locally_closed producer_alive expired : bool)
    (h : SharedHeader) : SharedHeader * outcome receive_state :=
  let (h, recovered) := lock_header owner_dead h in
  if recovered then (h, Failed "recovered an abandoned mutex; recreate the segment")
  else receive_ready locally_closed producer_alive expired h.

Definition receive_woken (status : wait_status) (locally_closed producer_alive expired : bool)
    (h : SharedHeader) : SharedHeader * outcome receive_state :=
  let h := wait_condition status h in
  match status with
  | wait_owner_dead => (h, Failed "peer died while holding the ring mutex; recreate the segment")
  | wait_error text => (h, Failed ("wait for message failed: " +:+ text))
  | _ => receive_ready locally_closed producer_alive expired h
  end.

(** Copy the frame out of the slot at [tail] and release it. *)
Definition receive_commit (h : SharedHeader) (memory : list byte)
    : SharedHeader * outcome (list byte) :=
  let offset := Z.to_nat (slot h (tail h)) in
  let length := of_native_u32 (read offset 4 memory) in
  if (length <? 4) || (h_max_message_bytes h <? length)
  then (set_closed h, Failed "ring slot contains an invalid frame length")
  else
    ({| h_capacity := h_capacity h; h_max_message_bytes := h_max_message_bytes h;
        head := head h; tail := u64 (tail h + 1); recovery_count := recovery_count h;
        producer_pid := producer_pid h; consumer_pid := consumer_pid h; closed := closed h |},
     Done (read (offset + 4) (Z.to_nat length) memory)).

(** What happens to the copied frame after the lock is released. *)
Definition receive_decode (framed : list byte) : outcome A :=
  match decode_frame_size (take 4 framed) with
  | Throw error => Failed ("invalid frame prefix: " +:+ what error)
  | Ok size =>
      if negb (size =? Z.of_nat (length framed) - 4)
      then Failed "ring slot frame length does not match prefix"
      else match decode (drop 4 framed) with
           | Throw error => Failed ("malformed envelope: " +:+ what error)
           | Ok envelope => Done envelope
           end
  end.

(** [request_close] on the header; [pid] is the closing process. *)
Definition request_close (producer : bool) (pid : Z) (h : SharedHeader) : SharedHeader :=
  {| h_capacity := h_capacity h; h_max_message_bytes := h_max_message_bytes h; head := head h;
     tail := tail h; recovery_count := recovery_count h;
     producer_pid := if producer && (producer_pid h =? pid) then 0 else producer_pid h;
     consumer_pid := if negb producer && (consumer_pid h =? pid) then 0 else consumer_pid h;
     closed := true |}.

(** The connector's check of the header it has mapped; [page_size] is the
    platform's. *)
Definition check_settings (o : SharedMemoryOptions) (page_size mapping_bytes : Z)
    (h : SharedHeader) : result unit :=
  let* expected := mapping_size o in
  let rounded := (expected + page_size - 1) / page_size * page_size in
  throw_if (negb (h_capacity h =? capacity o)
            || negb (h_max_message_bytes h =? max_message_bytes o)
            || (mapping_bytes <? expected) || (rounded <? mapping_bytes))
    (RuntimeError ("shared-memory segment settings do not match configuration (capacity "
       +:+ Prelude.to_string (h_capacity h) +:+ "/" +:+ Prelude.to_string (capacity o)
       +:+ ", maximum " +:+ Prelude.to_string (h_max_message_bytes h) +:+ "/"
       +:+ Prelude.to_string (max_message_bytes o) +:+ ", mapping "
       +:+ Prelude.to_string mapping_bytes +:+ "/" +:+ Prelude.to_string expected +:+ ")")).

(** The connector claims the producer role. *)
Definition claim_producer (owner_dead producer_alive : bool) (pid : Z) (h : SharedHeader)
    : SharedHeader * outcome unit :=
  let (h, recovered) := lock_header owner_dead h in
  if recovered then (h, Failed "recovered an abandoned mutex; recreate the segment")
  else if closed h then (h, Failed "is closed")
  else if negb (producer_pid h =? 0) && producer_alive
  then (h, Failed "already has a live producer")
  else ({| h_capacity := h_capacity h; h_max_message_bytes := h_max_message_bytes h;
           head := head h; tail := tail h; recovery_count := recovery_count h;
           producer_pid := pid; consumer_pid := consumer_pid h; closed := closed h |}, Done tt).

End Message.
End Platform.
Arguments Done {A} a.
Arguments Failed {A} detail.
Arguments Wait {A}.
End SharedMemory.
