(* ===== verification/SharedMemoryRing.v ===== *)
(** * The shared-memory ring implements a bounded queue

    [ring] relates a header and a slot area to the list of frames they hold.
    The commits of SharedMemory.v are the queue's operations under it. *)

From Stdlib Require Import ZArith Lia Strings.Byte Strings.String.
From stdpp Require Import base strings list relations.
From S2P Require Import Prelude Framing SharedMemory.

Module SharedMemoryRing.
Import Framing SharedMemory.
Local Open Scope Z_scope.

(** ** Memory *)

Lemma write_length offset bytes memory :
  (offset + length bytes <= length memory)%nat -> length (write offset bytes memory) = length memory.
Proof. intros H. unfold write. rewrite !length_app, length_take, length_drop. lia. Qed.

Lemma lookup_write offset bytes memory i :
  (offset + length bytes <= length memory)%nat ->
  write offset bytes memory !! i =
    if decide (offset <= i < offset + length bytes)%nat then bytes !! (i - offset)%nat
    else memory !! i.
Proof.
  intros H. unfold write. destruct (decide (i < offset)%nat).
  - rewrite lookup_app_l by (rewrite length_take; lia). rewrite lookup_take_lt by lia.
    by destruct (decide _); [lia|].
  - rewrite lookup_app_r by (rewrite length_take; lia).
    rewrite length_take, Nat.min_l by lia.
    destruct (decide (i < offset + length bytes)%nat).
    + rewrite lookup_app_l by lia. by destruct (decide _); [|lia].
    + rewrite lookup_app_r, lookup_drop by lia.
      destruct (decide (offset <= i < offset + length bytes)%nat); [lia|]. f_equal. lia.
Qed.

Lemma read_write_same offset bytes memory :
  (offset + length bytes <= length memory)%nat ->
  read offset (length bytes) (write offset bytes memory) = bytes.
Proof.
  intros H. unfold read, write. rewrite drop_app_length' by (rewrite length_take; lia).
  by rewrite take_app_length.
Qed.

Lemma read_write_other offset bytes memory offset' n :
  (offset + length bytes <= length memory)%nat ->
  (offset' + n <= offset \/ offset + length bytes <= offset')%nat ->
  read offset' n (write offset bytes memory) = read offset' n memory.
Proof.
  intros H Hd. apply list_eq. intros i. unfold read.
  destruct (decide (i < n)%nat).
  - rewrite !lookup_take_lt, !lookup_drop, lookup_write by done.
    by destruct (decide _); [lia|].
  - rewrite !lookup_take_ge by lia. done.
Qed.

Lemma native_u32_length v : length (native_u32 v) = 4%nat.
Proof. unfold native_u32. by rewrite length_rev, be_bytes_length. Qed.

Lemma of_native_native v : in_u32 v -> of_native_u32 (native_u32 v) = v.
Proof.
  intros Hv. unfold of_native_u32, native_u32. rewrite rev_involutive.
  by apply be_value_be_bytes_small.
Qed.

(** ** Slots *)

Section Ring.
Context (max_align : Z) (Halign : 0 < max_align).

Lemma slot_stride_enough maximum :
  0 <= maximum -> 4 + maximum <= slot_stride max_align maximum.
Proof.
  intros Hm. unfold slot_stride.
  pose proof (Z.div_mod (4 + maximum + max_align - 1) max_align ltac:(lia)).
  pose proof (Z.mod_pos_bound (4 + maximum + max_align - 1) max_align Halign). lia.
Qed.

Lemma slot_stride_aligned maximum : slot_stride max_align maximum mod max_align = 0.
Proof. unfold slot_stride. apply Z.mod_mul. lia. Qed.

(** The header and memory of a ring that was initialised with valid options. *)
Definition well_formed (h : SharedHeader) (memory : list byte) : Prop :=
  1 <= h_capacity h <= 65536
  /\ 64 <= h_max_message_bytes h <= kMaxFrameBytes + 4
  /\ Z.of_nat (length memory) = h_capacity h * slot_stride max_align (h_max_message_bytes h)
  /\ 0 <= tail h <= head h /\ head h < 2 ^ 64.

(** Slot [s] holds [framed]. *)
Definition holds (h : SharedHeader) (memory : list byte) (s : Z) (framed : list byte) : Prop :=
  let offset := Z.to_nat (slot max_align h s) in
  4 <= Z.of_nat (length framed) <= h_max_message_bytes h
  /\ read offset 4 memory = native_u32 (Z.of_nat (length framed))
  /\ read (offset + 4) (length framed) memory = framed.

(** The ring holds the frames [q], oldest first. *)
Definition ring (h : SharedHeader) (memory : list byte) (q : list (list byte)) : Prop :=
  well_formed h memory
  /\ head h - tail h = Z.of_nat (length q)
  /\ Z.of_nat (length q) <= h_capacity h
  /\ forall i framed, q !! i = Some framed -> holds h memory (tail h + Z.of_nat i) framed.

Lemma stride_step stride a b : 0 <= stride -> 0 <= a < b ->
  0 <= a * stride /\ a * stride + stride <= b * stride.
Proof. nia. Qed.

Lemma slot_bounds h memory s :
  well_formed h memory ->
  (Z.to_nat (slot max_align h s) + 4 + Z.to_nat (h_max_message_bytes h) <= length memory)%nat.
Proof.
  intros (Hc & Hm & Hlen & _). unfold slot.
  pose proof (slot_stride_enough (h_max_message_bytes h) ltac:(lia)).
  pose proof (Z.mod_pos_bound s (h_capacity h) ltac:(lia)).
  pose proof (stride_step (slot_stride max_align (h_max_message_bytes h))
    (s mod h_capacity h) (h_capacity h) ltac:(lia) ltac:(lia)). lia.
Qed.

(** Different live slots never overlap. *)
Lemma slot_disjoint h memory s t :
  well_formed h memory -> s < t < s + h_capacity h ->
  (Z.to_nat (slot max_align h s) + 4 + Z.to_nat (h_max_message_bytes h)
     <= Z.to_nat (slot max_align h t)
   \/ Z.to_nat (slot max_align h t) + 4 + Z.to_nat (h_max_message_bytes h)
     <= Z.to_nat (slot max_align h s))%nat.
Proof.
  intros (Hc & Hm & _ & _) Hst. unfold slot.
  pose proof (slot_stride_enough (h_max_message_bytes h) ltac:(lia)).
  pose proof (Z.mod_pos_bound s (h_capacity h) ltac:(lia)).
  pose proof (Z.mod_pos_bound t (h_capacity h) ltac:(lia)).
  assert (s mod h_capacity h <> t mod h_capacity h).
  { intros He. pose proof (Z.div_mod s (h_capacity h) ltac:(lia)).
    pose proof (Z.div_mod t (h_capacity h) ltac:(lia)).
    assert (Hd : t - s = h_capacity h * (t / h_capacity h - s / h_capacity h)) by lia.
    destruct (Z.le_gt_cases (t / h_capacity h - s / h_capacity h) 0); nia. }
  destruct (Z.lt_total (s mod h_capacity h) (t mod h_capacity h)) as [Hl|[|Hl]]; [left|lia|right].
  - pose proof (stride_step (slot_stride max_align (h_max_message_bytes h))
      (s mod h_capacity h) (t mod h_capacity h) ltac:(lia) ltac:(lia)). lia.
  - pose proof (stride_step (slot_stride max_align (h_max_message_bytes h))
      (t mod h_capacity h) (s mod h_capacity h) ltac:(lia) ltac:(lia)). lia.
Qed.

Lemma is_full_ring h memory q :
  ring h memory q -> is_full h = (h_capacity h <=? Z.of_nat (length q)).
Proof.
  intros ((Hc & _ & _ & Ht & Hh) & Hq & _). unfold is_full.
  by rewrite u64_small, Hq by (unfold in_u64; lia).
Qed.

Lemma holds_write h h' memory s framed offset bytes :
  well_formed h memory -> h_capacity h' = h_capacity h ->
  h_max_message_bytes h' = h_max_message_bytes h ->
  (offset + length bytes <= length memory)%nat ->
  (Z.to_nat (slot max_align h s) + 4 + Z.to_nat (h_max_message_bytes h) <= offset
   \/ offset + length bytes <= Z.to_nat (slot max_align h s))%nat ->
  holds h memory s framed -> holds h' (write offset bytes memory) s framed.
Proof.
  intros _ Hc Hm Hb Hd (Hl & Hr1 & Hr2). unfold holds, slot in *. rewrite Hc, Hm.
  split; [done|]. rewrite !read_write_other by lia. done.
Qed.

Lemma well_formed_write h memory offset bytes :
  (offset + length bytes <= length memory)%nat ->
  well_formed h memory -> well_formed h (write offset bytes memory).
Proof.
  intros Hb (? & ? & ? & ?). split_and!; try lia. by rewrite write_length.
Qed.

Lemma send_commit_ring h memory q framed h' memory' :
  ring h memory q -> is_full h = false -> head h + 1 < 2 ^ 64 ->
  4 <= Z.of_nat (length framed) <= h_max_message_bytes h ->
  send_commit max_align framed h memory = (h', memory') ->
  ring h' memory' (q ++ [framed]).
Proof.
  intros Hring Hfull Hhead Hlen Hc.
  rewrite (is_full_ring h memory q Hring) in Hfull. apply Z.leb_gt in Hfull.
  destruct Hring as (Hwf & Hq & _ & Hslots).
  pose proof (slot_bounds h memory (head h) Hwf) as Hbound.
  unfold send_commit in Hc. injection Hc as <- <-.
  set (offset := Z.to_nat (slot max_align h (head h))) in *.
  destruct (Hwf) as (Hcap & Hmax & Hmem & Ht & Hh).
  assert (Hu32 : in_u32 (Z.of_nat (length framed)))
    by (unfold in_u32, kMaxFrameBytes in *; lia).
  rewrite (u64_small (head h + 1)) by (unfold in_u64; lia). rewrite u32_small by done.
  set (m1 := write offset (native_u32 (Z.of_nat (length framed))) memory).
  assert (Hm1 : length m1 = length memory)
    by (apply write_length; rewrite native_u32_length; lia).
  split_and!.
  - assert (Hwf' : well_formed h (write (offset + 4) framed m1)).
    { apply well_formed_write; [lia|]. apply well_formed_write; [rewrite native_u32_length; lia|done]. }
    destruct Hwf' as (? & ? & ? & _). split_and!; simpl; done || lia.
  - rewrite length_app. simpl. lia.
  - rewrite length_app. simpl. lia.
  - intros i f Hi. simpl. apply lookup_app_Some in Hi as [Hi|[Hge Hi]].
    + pose proof (lookup_lt_Some _ _ _ Hi).
      pose proof (slot_disjoint h memory (tail h + Z.of_nat i) (head h) Hwf ltac:(lia)) as Hdis.
      apply (holds_write h); simpl; try done; [by apply well_formed_write; rewrite ?native_u32_length; [lia|]|lia|fold offset in Hdis; lia|].
      apply (holds_write h); simpl; try done; rewrite ?native_u32_length; [lia|fold offset in Hdis; lia|].
      by apply Hslots.
    + apply list_lookup_singleton_Some in Hi as [Hi <-].
      replace (tail h + Z.of_nat i) with (head h) by lia.
      unfold holds, slot. simpl. fold (slot max_align h (head h)). fold offset.
      split; [done|]. split; [|apply read_write_same; lia].
      rewrite read_write_other by lia. unfold m1.
      rewrite <-(native_u32_length (Z.of_nat (length framed))) at 1.
      apply read_write_same. rewrite native_u32_length. lia.
Qed.

Lemma receive_commit_ring h memory framed q :
  ring h memory (framed :: q) ->
  exists h', receive_commit max_align h memory = (h', Done framed)
    /\ ring h' memory q /\ head h' = head h /\ closed h' = closed h.
Proof.
  intros (Hwf & Hq & Hcap & Hslots).
  destruct (Hslots 0%nat framed eq_refl) as (Hl & Hr1 & Hr2). rewrite Z.add_0_r in *.
  destruct (Hwf) as (Hc & Hm & Hmem & Ht & Hh). simpl in Hq, Hcap.
  unfold receive_commit. rewrite Hr1, of_native_native
    by (unfold in_u32, kMaxFrameBytes in *; lia).
  destruct (Z.ltb_spec (Z.of_nat (length framed)) 4); [lia|].
  destruct (Z.ltb_spec (h_max_message_bytes h) (Z.of_nat (length framed))); [lia|].
  simpl orb. cbv iota. rewrite Nat2Z.id, Hr2. eexists. split; [done|].
  rewrite u64_small by (unfold in_u64; lia).
  split; [|done]. split_and!; simpl; try lia.
  - split_and!; simpl; done || lia.
  - intros i f Hi. pose proof (Hslots (S i) f Hi) as Hh'.
    unfold holds, slot in *. simpl.
    by replace (tail h + Z.of_nat (S i)) with (tail h + 1 + Z.of_nat i) in Hh' by lia.
Qed.

(** ** Producer, consumer and crashes, interleaved *)

Record system := {
  header : SharedHeader;
  memory : list byte;
  sent : list (list byte);
  received : list (list byte);
}.

Definition with_header (h : SharedHeader) (s : system) : system :=
  {| header := h; memory := memory s; sent := sent s; received := received s |}.

Section System.
Context {A : Type} {codec : Codec A} (o : SharedMemoryOptions).

(** The lock and wait phases a sender can go through; the last component tells
    how they end. *)
Inductive send_phase : SharedHeader -> SharedHeader -> outcome unit -> Prop :=
| phase_locked owner_dead alive expired h h' r :
    send_locked o owner_dead alive expired h = (h', r) -> send_phase h h' r
| phase_woken status alive expired h h' r :
    send_woken o status alive expired h = (h', r) -> send_phase h h' r.

Inductive receive_phase : SharedHeader -> SharedHeader -> outcome receive_state -> Prop :=
| receive_phase_locked owner_dead local alive expired h h' r :
    receive_locked owner_dead local alive expired h = (h', r) -> receive_phase h h' r
| receive_phase_woken status local alive expired h h' r :
    receive_woken status local alive expired h = (h', r) -> receive_phase h h' r.

Inductive step : system -> system -> Prop :=
| step_send s local (envelope : A) framed h h' m' :
    send_prepare o local envelope = Ok (Done framed) ->
    send_phase (header s) h (Done tt) ->
    send_commit max_align framed h (memory s) = (h', m') ->
    step s {| header := h'; memory := m'; sent := sent s ++ [framed]; received := received s |}
| step_send_fails s h r :
    send_phase (header s) h r -> r <> Done tt -> step s (with_header h s)
| step_receive s h h' framed :
    receive_phase (header s) h (Done ready) ->
    receive_commit max_align h (memory s) = (h', Done framed) ->
    step s {| header := h'; memory := memory s; sent := sent s;
              received := received s ++ [framed] |}
| step_receive_nothing s h r :
    receive_phase (header s) h r -> r <> Done ready -> step s (with_header h s)
| step_close s producer pid : step s (with_header (request_close producer pid (header s)) s)
| step_claim s owner_dead alive pid h r :
    claim_producer owner_dead alive pid (header s) = (h, r) -> step s (with_header h s).

(** ** Headers that differ only in what the frames do not depend on *)

Definition same_ring (h h' : SharedHeader) : Prop :=
  h_capacity h' = h_capacity h /\ h_max_message_bytes h' = h_max_message_bytes h
  /\ head h' = head h /\ (closed h = true -> closed h' = true)
  /\ (tail h' = tail h \/ (tail h' = head h /\ closed h' = true)).

Lemma same_ring_refl h : same_ring h h.
Proof. split_and!; auto. Qed.
Lemma same_ring_closed h : same_ring h (set_closed h).
Proof. split_and!; simpl; auto. Qed.
Lemma same_ring_recover h : same_ring h (recover h).
Proof. split_and!; simpl; auto. Qed.

#[local] Hint Resolve same_ring_refl same_ring_closed same_ring_recover : core.

Ltac split_phase :=
  repeat match goal with
  | H : (if ?b then _ else _) = _ |- _ => destruct b eqn:?
  | H : context [match backpressure o with _ => _ end] |- _ => destruct (backpressure o)
  | H : (_, _) = (_, _) |- _ => injection H as <- <-
  end.

Lemma send_room_same expired h h' r :
  send_room o expired h = (h', r) -> h' = h /\ (r = Done tt -> is_full h = false).
Proof.
  unfold send_room. intros H. split_phase; split; done || (destruct expired; discriminate).
Qed.

Lemma send_phase_same h h' r :
  send_phase h h' r ->
  same_ring h h' /\ (r = Done tt -> h' = h /\ is_full h = false /\ closed h = false).
Proof.
  destruct 1 as [owner_dead alive expired h h' r H|status alive expired h h' r H].
  - unfold send_locked, lock_header in H. destruct owner_dead; split_phase;
      try (split; [by auto|discriminate]).
    apply send_room_same in H as [-> Hf]. auto.
  - unfold send_woken, wait_condition in H. destruct status; split_phase;
      try (split; [by auto|discriminate]); apply send_room_same in H as [-> Hf]; auto.
Qed.

Lemma receive_ready_same local alive expired h h' r :
  receive_ready local alive expired h = (h', r) ->
  same_ring h h' /\ (r = Done ready -> h' = h /\ head h <> tail h).
Proof.
  unfold receive_ready. intros H. split_phase; split; auto; try discriminate.
  intros _. split; [done|]. apply Z.eqb_neq. by apply negb_true_iff.
Qed.

Lemma receive_phase_same h h' r :
  receive_phase h h' r -> same_ring h h' /\ (r = Done ready -> h' = h /\ head h <> tail h).
Proof.
  destruct 1 as [owner_dead local alive expired h h' r H|status local alive expired h h' r H].
  - unfold receive_locked, lock_header in H. destruct owner_dead; split_phase;
      [split; [by auto|discriminate]|]. by apply receive_ready_same in H.
  - unfold receive_woken, wait_condition in H. destruct status;
      try (by apply receive_ready_same in H); split_phase; (split; [by auto|discriminate]).
Qed.

Lemma ring_same h h' m q :
  ring h m q -> same_ring h h' ->
  ring h' m q \/ (ring h' m [] /\ closed h' = true).
Proof.
  intros (Hwf & Hq & Hcap & Hs) (Hc & Hm & Hh & _ & Ht).
  destruct (Hwf) as (W1 & W2 & W3 & W4 & W5).
  assert (Hwf' : well_formed h' m).
  { destruct Ht as [Ht|[Ht _]]; split_and!; rewrite ?Hc, ?Hm, ?Hh, ?Ht; done || lia. }
  destruct Ht as [Ht|[Ht Hcl]].
  - left. split_and!; try done; [rewrite Hh, Ht; done|by rewrite Hc|].
    intros i f Hi. unfold holds, slot in *. rewrite Hc, Hm, Ht. by apply Hs.
  - right. split; [|done]. split_and!; [done|simpl; lia|simpl; lia|].
    intros i f Hi. by rewrite lookup_nil in Hi.
Qed.

(** ** The invariant

    As long as fewer than 2^64 messages were sent, what was received is a
    prefix of what was sent, the ring holds the following messages, and
    anything else was dropped by a recovery that closed the ring. *)
Definition invariant (s : system) : Prop :=
  Z.of_nat (length (sent s)) < 2 ^ 64 ->
  exists q lost,
    ring (header s) (memory s) q
    /\ sent s = received s ++ q ++ lost
    /\ (lost <> [] -> closed (header s) = true)
    /\ head (header s) = Z.of_nat (length (sent s))
    /\ h_max_message_bytes (header s) = max_message_bytes o.

Lemma invariant_header s h :
  same_ring (header s) h -> invariant s -> invariant (with_header h s).
Proof.
  intros Hsame Hi Hlen. destruct (Hi Hlen) as (q & lost & Hr & Hs & Hl & Hh & Hm).
  destruct (ring_same _ _ _ _ Hr Hsame) as [Hr'|[Hr' Hc]];
    destruct Hsame as (_ & Hm' & Hh' & Hcl & _).
  - exists q, lost. simpl. rewrite Hm', Hh'. split_and!; auto.
  - exists [], (q ++ lost). simpl. rewrite Hm', Hh'. split_and!; auto.
Qed.

Lemma send_prepare_bounds local envelope framed :
  send_prepare o local envelope = Ok (Done framed) ->
  4 <= Z.of_nat (length framed) <= max_message_bytes o.
Proof.
  unfold send_prepare. intros H.
  apply bind_ok in H as (? & _ & H). apply bind_ok in H as (w & _ & H).
  apply bind_ok in H as (f & Hf & H). injection H as H.
  destruct (Z.ltb_spec (max_message_bytes o) (Z.of_nat (length f))); [done|]. injection H as <-.
  apply frame_prefix in Hf as [Hl _]. lia.
Qed.

Lemma ring_step_invariant s s' : step s s' -> invariant s -> invariant s'.
Proof.
  destruct 1 as [s local envelope framed h h' m' Hp Hph Hc|s h r Hph _|s h h' framed Hph Hc
    |s h r Hph _|s producer pid|s owner_dead alive pid h r H]; intros Hi.
  - intros Hlen. simpl in Hlen. rewrite length_app in Hlen. simpl in Hlen.
    destruct (Hi ltac:(lia)) as (q & lost & Hr & Hs & Hl & Hh & Hm).
    apply send_phase_same in Hph as [_ Hd]. destruct (Hd eq_refl) as (-> & Hfull & Hopen).
    assert (lost = []) as -> by (destruct lost; [done|]; rewrite Hl in Hopen; done).
    rewrite app_nil_r in Hs. exists (q ++ [framed]), []. simpl.
    split_and!; try done.
    + eapply send_commit_ring; [done|done|lia| |done].
      rewrite Hm. by eapply send_prepare_bounds.
    + by rewrite Hs, app_nil_r, app_assoc.
    + unfold send_commit in Hc. injection Hc as <- <-. simpl.
      rewrite length_app, u64_small by (unfold in_u64; lia). simpl. lia.
    + unfold send_commit in Hc. by injection Hc as <- <-.
  - apply send_phase_same in Hph as [Hph _]. by apply invariant_header.
  - intros Hlen. simpl in Hlen. destruct (Hi Hlen) as (q & lost & Hr & Hs & Hl & Hh & Hm).
    apply receive_phase_same in Hph as [_ Hd]. destruct (Hd eq_refl) as [-> Hne].
    destruct q as [|f q]; [by destruct Hr as (_ & Hq & _); simpl in Hq; lia|].
    destruct (receive_commit_ring _ _ _ _ Hr) as (h2 & Hc' & Hr' & Hh' & Hcl').
    rewrite Hc' in Hc. injection Hc as <- <-. exists q, lost. simpl. rewrite Hh', Hcl'.
    split_and!; try done; [by rewrite Hs, <-!app_assoc|].
    unfold receive_commit in Hc'. destruct (_ || _); [discriminate|]. by injection Hc' as <- _.
  - apply receive_phase_same in Hph as [Hph _]. by apply invariant_header.
  - apply invariant_header; [|done]. split_and!; simpl; auto.
  - apply invariant_header; [|done]. unfold claim_producer, lock_header in H.
    destruct owner_dead; split_phase; try (by auto); split_and!; simpl;
      auto; congruence.
Qed.

Lemma initialize_ring header_bytes pid h m :
  initialize header_bytes max_align o pid = Ok (h, m) ->
  0 <= header_bytes -> 0 <= capacity o -> ring h m [] /\ closed h = false
    /\ head h = 0 /\ h_max_message_bytes h = max_message_bytes o.
Proof.
  unfold initialize, mapping_size. intros H Hhb Hcap. invert_ok.
  rewrite orb_false_iff, Z.eqb_neq, Z.ltb_ge in *. rewrite Z.ltb_ge in *.
  unfold kMaxFrameBytes in *. pose proof (slot_stride_enough (max_message_bytes o) ltac:(lia)).
  rewrite !u32_small by (unfold in_u32; lia). simpl.
  split; [|done]. split_and!; simpl; try lia.
  - split_and!; simpl; try lia; [unfold kMaxFrameBytes; lia|].
    rewrite length_replicate.
    pose proof (stride_step (slot_stride max_align (max_message_bytes o)) 0 (capacity o) ltac:(lia) ltac:(lia)).
    lia.
  - intros i f Hi. by rewrite lookup_nil in Hi.
Qed.

Definition start (h : SharedHeader) (m : list byte) : system :=
  {| header := h; memory := m; sent := []; received := [] |}.

Lemma ring_reachable_invariant header_bytes pid h m s :
  initialize header_bytes max_align o pid = Ok (h, m) ->
  0 <= header_bytes -> 0 <= capacity o -> rtc step (start h m) s -> invariant s.
Proof.
  intros Hinit H1 H2 Hs.
  destruct (initialize_ring _ _ _ _ Hinit H1 H2) as (Hr & _ & Hh & Hm).
  assert (H0 : invariant (start h m))
    by (intros _; exists [], []; simpl; split_and!; auto; done).
  clear -Hs H0 Halign. induction Hs; eauto using ring_step_invariant.
Qed.

(** ** Properties *)

(** C8: Whatever the producer, the consumer, closes, wake-ups, time-outs and
    crashes (a robust mutex whose owner died) do, in any order, the ring
    neither duplicates, reorders nor corrupts a frame: what was received is a
    prefix of what was sent, the ring holds exactly the frames that follow, at
    most [capacity] of them, and frames are lost only by a recovery, which
    closes the ring. (Fewer than 2^64 messages: the counters do not wrap.) *)
Theorem ring_refines_queue header_bytes pid h m s :
  initialize header_bytes max_align o pid = Ok (h, m) ->
  0 <= header_bytes -> 0 <= capacity o -> rtc step (start h m) s ->
  Z.of_nat (length (sent s)) < 2 ^ 64 ->
  exists q lost,
    sent s = received s ++ q ++ lost
    /\ ring (header s) (memory s) q
    /\ (lost <> [] -> closed (header s) = true).
Proof.
  intros Hinit H1 H2 Hs Hlen.
  destruct (ring_reachable_invariant _ _ _ _ _ Hinit H1 H2 Hs Hlen) as (q & lost & ? & ? & ? & _).
  by exists q, lost.
Qed.

(** A message that [send] accepts is the message [receive_result] decodes
    from its frame. *)
Theorem message_survives (local : bool) (envelope : A) framed :
  codec_wf envelope -> send_prepare o local envelope = Ok (Done framed) ->
  receive_decode framed = Done envelope.
Proof.
  intros Hwf H. unfold send_prepare in H.
  apply bind_ok in H as (? & _ & H). apply bind_ok in H as (w & Hw & H).
  apply bind_ok in H as (f & Hf & H). injection H as H.
  destruct (_ <? _); [done|]. injection H as <-.
  apply frame_prefix in Hf as (Hl & Hp & Hd). unfold receive_decode. rewrite Hp.
  destruct (Z.eqb_spec (Z.of_nat (length w)) (Z.of_nat (length f) - 4)); [|lia]. simpl negb.
  rewrite Hd. by rewrite (decode_encode _ _ Hwf Hw).
Qed.

End System.
(** When a process dies holding the mutex, the next one to lock the ring
    empties and closes it: no half-written slot is ever read, every later send
    fails and every later receive reports the end of the stream. *)
Theorem recovery_closes h m q :
  ring h m q ->
  exists h', lock_header true h = (h', true) /\ ring h' m [] /\ closed h' = true
    /\ forall o alive expired,
      (exists detail, send_locked o false alive expired h' = (h', Failed detail))
      /\ receive_locked false false alive expired h' = (h', Done end_of_stream).
Proof.
  intros Hr. exists (recover h). split; [done|]. split.
  - destruct (ring_same h (recover h) m q Hr) as [Hr'|[Hr' _]]; [split_and!; simpl; auto| |done].
    destruct Hr' as (Hwf & Hq & Hcap & _). simpl in Hq.
    split_and!; [done|simpl; lia|simpl in *; lia|].
    intros i f Hi. by rewrite lookup_nil in Hi.
  - split; [done|]. intros o alive expired. unfold receive_locked, receive_ready. simpl.
    rewrite Z.eqb_refl. simpl. eauto.
Qed.

End Ring.

(** ** A concrete run: one message through a ring of two slots *)
Module Run.

Definition opts : SharedMemoryOptions :=
  {| capacity := 2; max_message_bytes := 64; backpressure := reject |}.
Definition fresh : SharedHeader :=
  {| h_capacity := 2; h_max_message_bytes := 64; head := 0; tail := 0; recovery_count := 0;
     producer_pid := 0; consumer_pid := 42; closed := false |}.
Definition zeros : list byte := replicate 160 x00.
Definition framed : list byte := [x00; x00; x00; x05; x00; x00; x00; x01; x2a].
Definition after_send : SharedHeader * list byte := send_commit 16 framed fresh zeros.
Definition after_receive : SharedHeader :=
  (receive_commit 16 after_send.1 after_send.2).1.
Definition final : system :=
  {| header := after_receive; memory := after_send.2; sent := [framed]; received := [framed] |}.

Lemma ring_run : rtc (step 16 opts) (start fresh zeros) final.
Proof.
  eapply rtc_l; [eapply (step_send 16 opts _ false [x2a] framed fresh)|].
  - reflexivity.
  - by apply (phase_locked opts false true false).
  - unfold memory, start. apply surjective_pairing.
  - eapply rtc_l; [eapply (step_receive 16 opts _ after_send.1 after_receive framed)|apply rtc_refl].
    + by apply (receive_phase_locked false false true false).
    + reflexivity.
Defined.

Lemma ring_refines_queue_witness :
  exists q lost, sent final = received final ++ q ++ lost
    /\ ring 16 (header final) (memory final) q
    /\ (lost <> [] -> closed (header final) = true).
Proof.
  apply (ring_refines_queue 16 ltac:(lia) opts 256 42 fresh zeros final);
    [reflexivity|lia|simpl; lia|apply ring_run|simpl; lia].
Defined.

Lemma message_survives_witness : receive_decode framed = Done [x2a].
Proof.
  apply (message_survives opts false [x2a] framed); [vm_compute; discriminate|reflexivity].
Defined.

Lemma recovery_closes_witness :
  exists h', lock_header true fresh = (h', true) /\ ring 16 h' zeros [] /\ closed h' = true
    /\ forall o alive expired,
      (exists detail, send_locked o false alive expired h' = (h', Failed detail))
      /\ receive_locked false false alive expired h' = (h', Done end_of_stream).
Proof.
  apply (recovery_closes 16 fresh zeros []).
  split_and!; try (simpl; lia); [split_and!; vm_compute; try done; discriminate|].
  intros i f Hi. by rewrite lookup_nil in Hi.
Defined.

End Run.
End SharedMemoryRing.
