(* ===== verification/Udp.v ===== *)
(** * UDP transport (src/src/udp_transport.cpp, src/include/graphx/udp_transport.hpp)

    Option checks, datagram encoding, the receive loop and the sequence window.
    Each datagram carries one framed envelope.  What the operating system does
    (poll, recvmsg, sendto, the clock) is the argument of the functions: a
    [wake] is one turn of the receive loop.  [inet_pton] is a parameter that
    yields the address in host order. *)

From Stdlib Require Import ZArith Lia Strings.Byte Strings.String.
From stdpp Require Import base gmap strings list.
From S2P Require Import Prelude Framing Envelope.

Module Udp.
Import Framing.
Local Open Scope Z_scope.

Definition kMaxUdpDatagramBytes : Z := 65507.
Definition kSequenceWindow : nat := 256.

Inductive UdpMode := unicast | broadcast | multicast.

Definition mode_to_string (mode : UdpMode) : string :=
  match mode with unicast => "unicast" | broadcast => "broadcast" | multicast => "multicast" end.

Record UdpOptions := {
  mode : UdpMode;
  receive_buffer_bytes : Z;
  send_buffer_bytes : Z;
  max_datagram_bytes : Z;
}.

Inductive UdpEvent :=
| malformed | truncated | oversized | socket_error | sequence_gap | duplicate | out_of_order.

#[export] Instance UdpEvent_eq_dec : EqDecision UdpEvent.
Proof. solve_decision. Defined.

(** ** Addresses and options *)

Section Addresses.
Context (inet_pton : string -> option Z).

Definition parse_address (value label : string) : result Z :=
  match inet_pton value with
  | Some address => Ok address
  | None => Throw (InvalidArgument (label +:+ " must be an IPv4 address"))
  end.

Definition is_multicast (host : Z) : bool := Z.land host 0xf0000000 =? 0xe0000000.
Definition is_limited_broadcast (host : Z) : bool := host =? 0xffffffff.

Definition endpoint_address (host : string) (port : Z) (label : string) : result (Z * Z) :=
  let* _ := throw_if (port =? 0) (InvalidArgument (label +:+ " port must be nonzero")) in
  let* address := parse_address host label in
  Ok (address, port).

(** [create_impl] up to the first system call. *)
Definition validate (host : string) (port : Z) (destination : string) (o : UdpOptions)
    (sender : bool) : result ((Z * Z) * Z) :=
  let* _ := throw_if ((max_datagram_bytes o <? 64) || (kMaxUdpDatagramBytes <? max_datagram_bytes o))
    (InvalidArgument "UDP max_datagram_bytes must be between 64 and 65507") in
  let* _ := throw_if ((receive_buffer_bytes o <? 4096) || (send_buffer_bytes o <? 4096))
    (InvalidArgument "UDP socket buffers must be at least 4096 bytes") in
  let* endpoint := endpoint_address host port (if sender then "destination" else "bind") in
  let* address := parse_address (if sender then host else destination) "destination" in
  let* _ := throw_if (match mode o with multicast => negb (is_multicast address) | _ => false end)
    (InvalidArgument "UDP multicast destination must be in 224.0.0.0/4") in
  let* _ := throw_if (match mode o with
                      | unicast => is_multicast address || is_limited_broadcast address
                      | _ => false end)
    (InvalidArgument "UDP unicast destination must not be multicast or broadcast") in
  let* _ := throw_if (match mode o with broadcast => is_multicast address | _ => false end)
    (InvalidArgument "UDP broadcast destination must not be multicast") in
  Ok (endpoint, address).

End Addresses.

(** ** The sequence window *)

Record tracker := {
  sequence_initialized : bool;
  highest_sequence : Z;
  recent_sequences : list Z;
  recent_count : nat;
  recent_cursor : nat;
}.

Definition new_tracker : tracker :=
  {| sequence_initialized := false; highest_sequence := 0;
     recent_sequences := replicate kSequenceWindow 0; recent_count := 0; recent_cursor := 0 |}.

Definition track_sequence (t : tracker) (sequence : Z) : tracker * list (UdpEvent * Z) :=
  if existsb (Z.eqb sequence) (take (recent_count t) (recent_sequences t))
  then (t, [(duplicate, 1)])
  else
    let events :=
      if sequence_initialized t then
        if sequence <? highest_sequence t then [(out_of_order, 1)]
        else if negb (highest_sequence t =? 2 ^ 64 - 1)
                && (u64 (highest_sequence t + 1) <? sequence)
        then [(sequence_gap, u64 (sequence - highest_sequence t - 1))]
        else []
      else [] in
    let highest :=
      if negb (sequence_initialized t) || (highest_sequence t <? sequence)
      then sequence else highest_sequence t in
    if (recent_count t <? kSequenceWindow)%nat then
      ({| sequence_initialized := true; highest_sequence := highest;
          recent_sequences := <[recent_count t := sequence]> (recent_sequences t);
          recent_count := S (recent_count t); recent_cursor := recent_cursor t |}, events)
    else
      ({| sequence_initialized := true; highest_sequence := highest;
          recent_sequences := <[recent_cursor t := sequence]> (recent_sequences t);
          recent_count := recent_count t;
          recent_cursor := (recent_cursor t + 1) mod kSequenceWindow |}, events).

(** ** Sending and receiving

    The diagnostics name the edge and the endpoint. *)

Section Transport.
Context (edge_id endpoint_text : string).

Definition context (action : string) : string :=
  "UDP edge '" +:+ edge_id +:+ "' " +:+ action
    +:+ (if size endpoint_text =? 0 then EmptyString else " (" +:+ endpoint_text +:+ ")").

(** [send] up to [sendto]: the datagram, or the event and the exception. *)
Definition send_datagram (o : UdpOptions) (closed : bool) (envelope : Envelope.Envelope)
    : list UdpEvent * result (list byte) :=
  if closed then ([], Throw (RuntimeError (context "send on closed transport")))
  else
    match Envelope.serialized_size envelope with
    | Throw e => ([], Throw e)
    | Ok size =>
        if u32 (max_datagram_bytes o - 4) <? size
        then ([oversized], Throw (LengthError (context "framed envelope exceeds max_datagram_bytes")))
        else ([], let* serialized := Envelope.serialize envelope in frame serialized)
    end.

(** [send] after [sendto] has returned: the system error, or the bytes sent. *)
Definition send_finish (framed : list byte) (sent : string + Z) : list UdpEvent * result unit :=
  match sent with
  | inl text => ([socket_error], Throw (RuntimeError (context "send failed" +:+ ": " +:+ text)))
  | inr sent =>
      if negb (sent =? Z.of_nat (length framed))
      then ([socket_error], Throw (RuntimeError (context "partial datagram send")))
      else ([], Ok tt)
  end.

(** One datagram that [recvmsg] returned: [None] drops it with an event. *)
Definition accept_datagram (truncated_flag : bool) (datagram : list byte)
    : UdpEvent + Envelope.Envelope :=
  if truncated_flag then inl truncated
  else if Z.of_nat (length datagram) <? 4 then inl malformed
  else
    match decode_frame_size (take 4 datagram) with
    | Throw _ => inl malformed
    | Ok payload_size =>
        if (payload_size =? 0) || negb (payload_size + 4 =? Z.of_nat (length datagram))
        then inl malformed
        else match Envelope.deserialize (take (Z.to_nat payload_size) (drop 4 datagram)) with
             | Throw _ => inl malformed
             | Ok envelope => inr envelope
             end
    end.

Inductive ReceiveStatus := message (envelope : Envelope.Envelope) | timeout | cancelled.

(** What one turn of the loop meets.  [poll_deadline] is an interrupted poll
    past the deadline; [poll_wait] is readiness without input or [EAGAIN]. *)
Inductive poll_outcome :=
| poll_deadline | poll_cancelled | poll_expired | poll_failed (text : string)
| poll_socket_failed (closed_now : bool) | poll_wait
| receive_failed (text : string) (closed_now : bool)
| datagram (truncated_flag : bool) (bytes : list byte).

Record wake := {
  closed_before : bool;  (** [closed] at the head of the loop *)
  past_deadline : bool;  (** a finite deadline has passed *)
  outcome : poll_outcome;
  closed_after : bool;   (** [closed] once [poll] has returned *)
}.

(** [None] as a result: the wakes ran out while the loop was still running. *)
Fixpoint receive_loop (first_poll : bool) (wakes : list wake) (t : tracker)
    : tracker * list (UdpEvent * Z) * option (result ReceiveStatus) :=
  match wakes with
  | [] => (t, [], None)
  | w :: wakes =>
      if closed_before w then (t, [], Some (Ok cancelled))
      else if negb first_poll && past_deadline w then (t, [], Some (Ok timeout))
      else if closed_after w then (t, [], Some (Ok cancelled))
      else
        match outcome w with
        | poll_deadline => (t, [], Some (Ok timeout))
        | poll_cancelled => (t, [], Some (Ok cancelled))
        | poll_expired => (t, [], Some (Ok timeout))
        | poll_failed text =>
            (t, [(socket_error, 1)], Some (Throw (RuntimeError (context "poll failed" +:+ ": " +:+ text))))
        | poll_socket_failed closed_now =>
            if closed_now then (t, [], Some (Ok cancelled))
            else (t, [(socket_error, 1)], Some (Throw (RuntimeError (context "receive socket failed"))))
        | poll_wait => receive_loop false wakes t
        | receive_failed text closed_now =>
            if closed_now then (t, [], Some (Ok cancelled))
            else (t, [(socket_error, 1)], Some (Throw (RuntimeError (context "receive failed" +:+ ": " +:+ text))))
        | datagram truncated_flag bytes =>
            match accept_datagram truncated_flag bytes with
            | inl event =>
                let '(t, events, r) := receive_loop false wakes t in (t, (event, 1) :: events, r)
            | inr envelope =>
                let (t, events) := track_sequence t (Envelope.sequence envelope) in
                (t, events, Some (Ok (message envelope)))
            end
        end
  end.

End Transport.
End Udp.

(** * Correctness of the UDP transport

    The 256-entry ring of [track_sequence] implements a specification over the
    whole history of accepted sequence numbers; a datagram that is sent is
    received; the receive loop never throws on what arrives. *)

From Stdlib Require Import ZArith Lia Strings.Byte Strings.String.
From stdpp Require Import base gmap strings list.
From S2P Require Import Prelude Framing Envelope EnvelopeIdentity EnvelopeCodec.

Module UdpProofs.
Import Framing Udp.
Local Open Scope Z_scope.

(** ** The specification of the sequence diagnostics

    [acc] is every sequence number accepted so far, oldest first. *)

Definition last_n {A} (n : nat) (l : list A) : list A := drop (length l - n) l.
Definition highest (acc : list Z) : Z := foldr Z.max 0 acc.

Definition spec_events (acc : list Z) (sequence : Z) : list (UdpEvent * Z) :=
  match acc with
  | [] => []
  | _ =>
      if sequence <? highest acc then [(out_of_order, 1)]
      else if highest acc + 1 <? sequence then [(sequence_gap, sequence - highest acc - 1)]
      else []
  end.

Definition spec_step (acc : list Z) (sequence : Z) : list Z * list (UdpEvent * Z) :=
  if decide (sequence ∈ last_n kSequenceWindow acc) then (acc, [(duplicate, 1)])
  else (acc ++ [sequence], spec_events acc sequence).

Fixpoint run {S} (step : S -> Z -> S * list (UdpEvent * Z)) (s : S) (l : list Z)
    : S * list (list (UdpEvent * Z)) :=
  match l with
  | [] => (s, [])
  | x :: l => let (s, e) := step s x in let (s, es) := run step s l in (s, e :: es)
  end.

(** ** The ring and the history *)

Lemma window_pos : (0 < kSequenceWindow)%nat.
Proof. unfold kSequenceWindow. lia. Qed.
#[local] Opaque kSequenceWindow.

Definition window (t : tracker) (acc : list Z) : Prop :=
  ((length acc < kSequenceWindow)%nat /\ recent_count t = length acc /\ recent_cursor t = 0%nat
   /\ take (length acc) (recent_sequences t) = acc)
  \/ ((kSequenceWindow <= length acc)%nat /\ recent_count t = kSequenceWindow
      /\ (recent_cursor t < kSequenceWindow)%nat
      /\ drop (recent_cursor t) (recent_sequences t) ++ take (recent_cursor t) (recent_sequences t)
         = last_n kSequenceWindow acc).

Definition tracks (t : tracker) (acc : list Z) : Prop :=
  length (recent_sequences t) = kSequenceWindow
  /\ Forall in_u64 acc
  /\ sequence_initialized t = negb (length acc =? 0)%nat
  /\ highest_sequence t = highest acc
  /\ window t acc.

Lemma last_n_short {A} n (l : list A) : (length l <= n)%nat -> last_n n l = l.
Proof. intros H. unfold last_n. by replace (length l - n)%nat with 0%nat by lia. Qed.

Lemma last_n_snoc {A} n (l : list A) x :
  (n <= length l)%nat -> (0 < n)%nat -> last_n n (l ++ [x]) = drop 1 (last_n n l) ++ [x].
Proof.
  intros H Hn. unfold last_n. rewrite length_app, drop_drop. simpl length.
  rewrite drop_app_le by lia. do 2 f_equal. lia.
Qed.

(** The entries in use are the last [kSequenceWindow] accepted numbers. *)
Lemma window_entries t acc :
  length (recent_sequences t) = kSequenceWindow -> window t acc ->
  take (recent_count t) (recent_sequences t) ≡ₚ last_n kSequenceWindow acc.
Proof.
  intros Hlen [(Hl & -> & _ & ->)|(Hl & -> & Hc & <-)].
  - by rewrite last_n_short by lia.
  - rewrite take_ge by lia. rewrite <-(take_drop (recent_cursor t) (recent_sequences t)) at 1.
    apply Permutation_app_comm.
Qed.

Lemma rotate_insert (l : list Z) c x :
  (c < length l)%nat ->
  let c' := ((c + 1) mod length l)%nat in
  drop c' (<[c:=x]> l) ++ take c' (<[c:=x]> l) = drop 1 (drop c l ++ take c l) ++ [x].
Proof.
  intros Hc c'.
  assert (Hi : <[c:=x]> l = take c l ++ x :: drop (S c) l)
    by (by rewrite insert_take_drop).
  assert (Hd : drop 1 (drop c l ++ take c l) = drop (S c) l ++ take c l).
  { rewrite drop_app_le by (rewrite length_drop; lia). rewrite drop_drop. do 2 f_equal. lia. }
  rewrite Hd. subst c'. destruct (decide (c + 1 = length l)%nat) as [He|He].
  - rewrite He, Nat.Div0.mod_same. rewrite drop_0, take_0, app_nil_r, Hi.
    rewrite (drop_ge l) by lia. done.
  - rewrite Nat.mod_small by lia. rewrite Hi.
    replace (c + 1)%nat with (length (take c l ++ [x])) by (rewrite length_app, length_take; simpl; lia).
    change (x :: drop (S c) l) with ([x] ++ drop (S c) l). rewrite app_assoc.
    rewrite drop_app_length, take_app_length. by rewrite app_assoc.
Qed.

Lemma window_insert t acc x init high :
  length (recent_sequences t) = kSequenceWindow -> window t acc ->
  window
    (if (recent_count t <? kSequenceWindow)%nat
     then {| sequence_initialized := init; highest_sequence := high;
             recent_sequences := <[recent_count t := x]> (recent_sequences t);
             recent_count := S (recent_count t); recent_cursor := recent_cursor t |}
     else {| sequence_initialized := init; highest_sequence := high;
             recent_sequences := <[recent_cursor t := x]> (recent_sequences t);
             recent_count := recent_count t;
             recent_cursor := (recent_cursor t + 1) mod kSequenceWindow |})
    (acc ++ [x]).
Proof.
  pose proof window_pos as Hpos.
  intros Hlen [(Hl & Hn & Hc & Ht)|(Hl & Hn & Hc & Ht)]; rewrite Hn.
  - destruct (Nat.ltb_spec (length acc) kSequenceWindow); [|lia].
    assert (Hins : take (S (length acc)) (<[length acc:=x]> (recent_sequences t)) = acc ++ [x]).
    { rewrite insert_take_drop by lia. rewrite Ht.
      rewrite take_app_ge by lia. by replace (S (length acc) - length acc)%nat with 1%nat by lia. }
    unfold window. rewrite length_app, Nat.add_1_r. simpl.
    destruct (decide (S (length acc) < kSequenceWindow)%nat); [left; done|right].
    split; [lia|]. split; [lia|]. rewrite Hc. split; [lia|].
    rewrite drop_0, take_0, app_nil_r, last_n_short by (rewrite length_app; simpl; lia).
    rewrite <-Hins, take_ge; [done|]. rewrite length_insert. lia.
  - destruct (Nat.ltb_spec kSequenceWindow kSequenceWindow); [lia|].
    right. rewrite length_app. simpl. split; [lia|]. split; [done|].
    split; [apply Nat.mod_upper_bound; lia|].
    rewrite last_n_snoc, <-Ht by lia. rewrite <-Hlen at 1 2. apply rotate_insert. lia.
Qed.

Lemma highest_range acc : Forall in_u64 acc -> in_u64 (highest acc).
Proof.
  unfold highest. induction 1 as [|x l Hx _ IH]; unfold in_u64 in *; cbn [foldr]; lia.
Qed.

Lemma highest_snoc acc x : highest (acc ++ [x]) = Z.max (highest acc) (Z.max x 0).
Proof.
  unfold highest. rewrite foldr_app. cbn [foldr].
  induction acc as [|a acc IH]; cbn [foldr]; lia.
Qed.

Lemma existsb_elem x l : existsb (Z.eqb x) l = true <-> x ∈ l.
Proof.
  rewrite existsb_exists. setoid_rewrite Z.eqb_eq. setoid_rewrite <-list_elem_of_In.
  split; [by intros (y & Hy & ->)|by exists x].
Qed.

Lemma track_sequence_refines t acc x t' events :
  tracks t acc -> in_u64 x -> track_sequence t x = (t', events) ->
  exists acc', spec_step acc x = (acc', events) /\ tracks t' acc'.
Proof.
  intros (Hlen & Hu & Hi & Hh & Hw) Hx H. unfold track_sequence in H.
  unfold spec_step. pose proof (window_entries _ _ Hlen Hw) as Hperm.
  destruct (existsb _ _) eqn:He.
  - injection H as <- <-. apply existsb_elem in He. rewrite Hperm in He.
    destruct (decide _); [|done]. eexists. split; [done|]. by split_and!.
  - assert (Hnin : x ∉ last_n kSequenceWindow acc).
    { rewrite <-Hperm. intros Hin%existsb_elem. congruence. }
    destruct (decide _); [done|]. exists (acc ++ [x]).
    pose proof (highest_range _ Hu) as Hr. unfold in_u64 in Hx, Hr.
    assert (Hev : events = spec_events acc x).
    { unfold spec_events. rewrite Hi, Hh in H.
      assert (events = if negb (length acc =? 0)%nat then
          if x <? highest acc then [(out_of_order, 1)]
          else if negb (highest acc =? 2 ^ 64 - 1) && (u64 (highest acc + 1) <? x)
               then [(sequence_gap, u64 (x - highest acc - 1))] else []
          else []) as -> by (by destruct (_ <? _)%nat; injection H).
      destruct acc as [|a acc]; [done|]. cbn [length Nat.eqb negb].
      set (h := highest (a :: acc)) in *.
      destruct (Z.ltb_spec x h); [done|].
      destruct (Z.eqb_spec h (2 ^ 64 - 1)) as [Hm|Hm]; simpl andb.
      - by destruct (Z.ltb_spec (h + 1) x); [lia|].
      - rewrite (u64_small (h + 1)) by (unfold in_u64; lia).
        destruct (Z.ltb_spec (h + 1) x); [|done].
        by rewrite u64_small by (unfold in_u64; lia). }
    rewrite Hev. split; [done|].
    pose proof (window_insert t acc x true
      (if negb (sequence_initialized t) || (highest_sequence t <? x) then x else highest_sequence t)
      Hlen Hw) as Hwin.
    assert (Hhi : (if negb (sequence_initialized t) || (highest_sequence t <? x)
                   then x else highest_sequence t) = highest (acc ++ [x])).
    { rewrite highest_snoc, Hi, Hh, negb_involutive. destruct acc as [|a acc]; [simpl; lia|].
      cbn [length Nat.eqb orb]. set (h := highest (a :: acc)) in *.
      destruct (Z.ltb_spec h x); lia. }
    assert (Hlast : negb (length (acc ++ [x]) =? 0)%nat = true)
      by (rewrite length_app, Nat.add_1_r; done).
    destruct (_ <? kSequenceWindow)%nat; injection H as <- _;
      (split_and!; [simpl; by rewrite length_insert|by apply Forall_app; auto|by rewrite Hlast|done|done]).
Qed.

Lemma new_tracker_tracks : tracks new_tracker [].
Proof.
  pose proof window_pos. split_and!; [by simpl; rewrite length_replicate|done..|].
  left. simpl. by split_and!.
Qed.

(** ** Properties *)

Section Properties.
Context (edge_id endpoint_text : string).
Abbreviation send_datagram := (Udp.send_datagram edge_id endpoint_text).
Abbreviation receive_loop := (Udp.receive_loop edge_id endpoint_text).

(** On every sequence of 64-bit sequence numbers the 256-entry ring of the
    receiver reports, message by message, exactly what the specification over
    the full history does: a duplicate when the number is among the last 256
    accepted, otherwise out-of-order below the highest number ever accepted, a
    gap of the right size above it. *)
Theorem track_sequence_spec (l : list Z) :
  Forall in_u64 l -> (run track_sequence new_tracker l).2 = (run spec_step [] l).2.
Proof.
  intros Hl.
  enough (forall t acc, tracks t acc ->
    (run track_sequence t l).2 = (run spec_step acc l).2) as Hgen
    by apply Hgen, new_tracker_tracks.
  induction Hl as [|x l Hx Hl IH]; intros t acc Ht; [done|]. simpl.
  destruct (track_sequence t x) as [t' events] eqn:E.
  destruct (track_sequence_refines _ _ _ _ _ Ht Hx E) as (acc' & Hs & Ht'). rewrite Hs.
  specialize (IH t' acc' Ht').
  destruct (run track_sequence t' l), (run spec_step acc' l). simpl in *. by f_equal.
Qed.

(** A datagram that [send] produces fits the configured maximum, and the
    receiver accepts it as the envelope that was sent. *)
Theorem datagram_roundtrip o closed envelope events bytes :
  64 <= max_datagram_bytes o <= kMaxUdpDatagramBytes -> Envelope.in_range envelope ->
  send_datagram o closed envelope = (events, Ok bytes) ->
  events = [] /\ Z.of_nat (length bytes) <= max_datagram_bytes o
  /\ accept_datagram false bytes = inr envelope.
Proof.
  intros Ho Hr H. unfold send_datagram, kMaxUdpDatagramBytes in *.
  destruct closed; [done|].
  destruct (Envelope.serialized_size envelope) as [n|] eqn:En; [|done].
  rewrite u32_small in H by (unfold in_u32; lia).
  destruct (Z.ltb_spec (max_datagram_bytes o - 4) n); [done|].
  injection H as <- H. split; [done|].
  apply bind_ok in H as (w & Hw & Hf).
  destruct (EnvelopeCodec.serialize_facts envelope w Hr Hw) as (Hd & Hsz & Hne).
  rewrite Hsz in En. injection En as <-.
  apply frame_prefix in Hf as (Hl & Hp & Hdrop). split; [lia|].
  unfold accept_datagram.
  destruct (Z.ltb_spec (Z.of_nat (length bytes)) 4); [lia|]. rewrite Hp.
  destruct (Z.eqb_spec (Z.of_nat (length w)) 0); [lia|].
  destruct (Z.eqb_spec (Z.of_nat (length w) + 4) (Z.of_nat (length bytes))); [|lia].
  simpl orb. cbv iota. rewrite Hdrop, Nat2Z.id, take_ge, Hd by lia. done.
Qed.

(** Whatever datagrams arrive, and in whatever order, the receive loop
    throws only for a failure of the socket itself, and the envelope it returns
    is always in range and serializable, and was the payload of a datagram
    whose prefix announces exactly its length. *)
Theorem receive_loop_safe first wakes t t' events r :
  receive_loop first wakes t = (t', events, Some r) ->
  match r with
  | Ok (message envelope) =>
      Envelope.in_range envelope
      /\ exists w truncated_flag bytes, w ∈ wakes /\ outcome w = datagram truncated_flag bytes
         /\ truncated_flag = false
         /\ bytes = be_bytes 4 (Z.of_nat (length bytes) - 4) ++ drop 4 bytes
         /\ Envelope.deserialize (drop 4 bytes) = Ok envelope
  | Ok _ => True
  | Throw _ => exists w, w ∈ wakes /\ forall flag bytes, outcome w <> datagram flag bytes
  end.
Proof.
  revert first t t' events. induction wakes as [|w wakes IH]; intros first t t' events H; [done|].
  assert (Hrec : forall t t' events, receive_loop false wakes t = (t', events, Some r) ->
    match r with
    | Ok (message envelope) =>
        Envelope.in_range envelope
        /\ exists w0 truncated_flag bytes, w0 ∈ w :: wakes /\ outcome w0 = datagram truncated_flag bytes
           /\ truncated_flag = false
           /\ bytes = be_bytes 4 (Z.of_nat (length bytes) - 4) ++ drop 4 bytes
           /\ Envelope.deserialize (drop 4 bytes) = Ok envelope
    | Ok _ => True
    | Throw _ => exists w0, w0 ∈ w :: wakes /\ forall flag bytes, outcome w0 <> datagram flag bytes
    end).
  { intros t1 t2 e1 H1%IH. destruct r as [[env| |]|err]; [|done|done|].
    - destruct H1 as (Hr & w0 & fl & b & Hin & Hrest). split; [done|].
      exists w0, fl, b. split; [by right|done].
    - destruct H1 as (w0 & Hin & Hrest). exists w0. split; [by right|done]. }
  assert (Hthrow : (forall flag bytes, outcome w <> datagram flag bytes) ->
    exists w0, w0 ∈ w :: wakes /\ forall flag bytes, outcome w0 <> datagram flag bytes)
    by (intros Hn; exists w; split; [left|done]).
  simpl in H. destruct (closed_before w); [by injection H as _ _ <-|].
  destruct (negb first && past_deadline w); [by injection H as _ _ <-|].
  destruct (closed_after w); [by injection H as _ _ <-|].
  destruct (outcome w) as [| | |text|[]| |text []|fl bytes] eqn:Hw;
    try (by injection H as _ _ <-); try (injection H as _ _ <-; apply Hthrow; discriminate);
    try (by eapply Hrec).
  destruct (accept_datagram fl bytes) as [event|env] eqn:Ha.
  - destruct (receive_loop false wakes t) as [[t1 e1] r1] eqn:E. injection H as <- <- ->.
    by eapply Hrec.
  - destruct (track_sequence t _) as [t1 e1]. injection H as _ _ <-.
    unfold accept_datagram in Ha. destruct fl; [done|].
    destruct (Z.ltb_spec (Z.of_nat (length bytes)) 4); [done|].
    destruct (decode_frame_size (take 4 bytes)) as [n|] eqn:Hn; [|done].
    destruct (Z.eqb_spec n 0); [done|].
    destruct (Z.eqb_spec (n + 4) (Z.of_nat (length bytes))) as [Hlen|]; [|done]. simpl in Ha.
    destruct (Envelope.deserialize _) as [e|] eqn:Hd; [|done]. injection Ha as ->.
    rewrite take_ge in Hd by (rewrite length_drop; lia).
    assert (Htk : length (take 4 bytes) = 4%nat) by (rewrite length_take; lia).
    rewrite decode_frame_size_eq in Hn by done. destruct (_ <? _); [done|]. injection Hn as <-.
    split; [by eapply EnvelopeCodec.deserialize_in_range|].
    exists w, false, bytes. split; [left|]. split; [done|]. split; [done|]. split; [|done].
    replace (Z.of_nat (length bytes) - 4) with (be_value (take 4 bytes)) by lia.
    rewrite <-Htk at 1. by rewrite be_bytes_be_value, take_drop.
Qed.

End Properties.

(** ** Witnesses *)

Lemma track_sequence_spec_witness :
  (run track_sequence new_tracker [5; 9; 7; 9; 10]).2
  = (run spec_step [] [5; 9; 7; 9; 10]).2.
Proof.
  apply (track_sequence_spec [5; 9; 7; 9; 10]). repeat constructor; unfold in_u64; lia.
Defined.

Definition sample_options : UdpOptions :=
  {| mode := unicast; receive_buffer_bytes := 4096; send_buffer_bytes := 4096;
     max_datagram_bytes := 1472 |}.

Definition sample_datagram : list byte :=
  match (send_datagram "edge" EmptyString sample_options false Envelope.sample).2 with
  | Ok bytes => bytes | Throw _ => [] end.

Lemma datagram_roundtrip_witness :
  @nil UdpEvent = [] /\ Z.of_nat (length sample_datagram) <= 1472
  /\ accept_datagram false sample_datagram = inr Envelope.sample.
Proof.
  apply (datagram_roundtrip "edge" EmptyString sample_options false Envelope.sample).
  - unfold kMaxUdpDatagramBytes. simpl. lia.
  - split_and!; vm_compute; split; discriminate || reflexivity.
  - vm_compute. reflexivity.
Defined.

(** A truncated datagram is dropped, an interrupted poll is retried, and the
    datagram after them is delivered. *)
Definition sample_wakes : list wake :=
  map (fun o => {| closed_before := false; past_deadline := false; outcome := o;
                   closed_after := false |})
    [datagram true [x01]; poll_wait; datagram false sample_datagram].

Lemma receive_loop_safe_witness :
  Envelope.in_range Envelope.sample
  /\ exists w truncated_flag bytes, w ∈ sample_wakes /\ outcome w = datagram truncated_flag bytes
     /\ truncated_flag = false
     /\ bytes = be_bytes 4 (Z.of_nat (length bytes) - 4) ++ drop 4 bytes
     /\ Envelope.deserialize (drop 4 bytes) = Ok Envelope.sample.
Proof.
  apply (receive_loop_safe "edge" EmptyString true sample_wakes new_tracker
    (receive_loop "edge" EmptyString true sample_wakes new_tracker).1.1
    [(truncated, 1)] (Ok (message Envelope.sample))).
  vm_compute. reflexivity.
Defined.

End UdpProofs.
