(* ===== verification/UnixSocket.v ===== *)
(** * Unix-domain stream transport (src/src/unix_domain_socket_transport.cpp)

    A byte stream has no message boundaries: [read_all] and [write_all] loop
    over partial transfers, and [receive_result] reads a frame in two steps.
    A connection's incoming side is the list of what successive system calls
    meet: a [read_chunk] stays at the head of the list as long as the reader
    has not asked for all of it, as in a kernel buffer, and the end of the
    stream stays for ever.  Where the real loop would block, the list is
    exhausted and the result is [None].

    [closed_] is set by [close] only; the Booleans [closed_*] of
    [receive_result] are its value at the later points where the code reads it
    again, after a concurrent [close]. *)

From Stdlib Require Import ZArith Lia Strings.Byte Strings.String.
From stdpp Require Import base strings list.
From S2P Require Import Prelude Framing.

Module UnixSocket.
Import Framing.
Local Open Scope Z_scope.

Record UnixDomainSocketOptions := { connect_timeout : Z; send_timeout : Z }.

Definition validate_options (options : UnixDomainSocketOptions) : result unit :=
  let* _ := throw_if ((connect_timeout options <=? 0) || (600000 <? connect_timeout options))
    (InvalidArgument "Unix socket connect timeout must be between 1 and 600000 ms") in
  throw_if ((send_timeout options <=? 0) || (600000 <? send_timeout options))
    (InvalidArgument "Unix socket send timeout must be between 1 and 600000 ms").

(** [sun_path_bytes] is [sizeof(sockaddr_un::sun_path)]. *)
Definition address_for (sun_path_bytes : Z) (path : string) : result string :=
  if (size path =? 0) || (sun_path_bytes <=? size path)
  then Throw (InvalidArgument "Unix-domain socket path is empty or too long")
  else Ok path.

(** ** Reading *)

Inductive read_event :=
| read_timed_out            (** the deadline passes before the socket is ready *)
| read_cancelled            (** the cancellation socket is readable *)
| read_failed (text : string)
| read_again                (** [EINTR], [EAGAIN] or [EWOULDBLOCK] *)
| read_eof
| read_chunk (b : byte) (bs : list byte).

Inductive ReadStatus := complete | closed_by_peer | timed_out | cancelled_read.

(** The events that are left, the bytes read, and the status; [got] is what an
    earlier part of the loop has read. *)
Fixpoint read_all (need : nat) (got : list byte) (events : list read_event)
    : list read_event * list byte * option (result ReadStatus) :=
  if (need =? 0)%nat then (events, got, Some (Ok complete))
  else
    match events with
    | [] => ([], got, None)
    | read_timed_out :: events => (events, got, Some (Ok timed_out))
    | read_cancelled :: _ => (events, got, Some (Ok cancelled_read))
    | read_failed text :: events => (events, got, Some (Throw (RuntimeError text)))
    | read_again :: events => read_all need got events
    | read_eof :: _ => (events, got, Some (Ok closed_by_peer))
    | read_chunk b bs :: events =>
        if (length (b :: bs) <=? need)%nat
        then read_all (need - length (b :: bs)) (got ++ b :: bs) events
        else
          (match drop need (b :: bs) with
           | [] => events
           | c :: cs => read_chunk c cs :: events
           end, got ++ take need (b :: bs), Some (Ok complete))
    end.

(** ** Writing *)

Inductive write_event :=
| write_timed_out (text : string)   (** the texts are those of [strerror] *)
| write_cancelled (text : string)
| write_failed (text : string)
| write_again
| write_nothing (text : string)     (** [send] returned 0: [EPIPE] *)
| wrote (count : nat).              (** [send] accepted [count + 1] bytes *)

(** The bytes handed to the kernel, and the result; [send] never accepts more
    than it was given. *)
Fixpoint write_all (bytes : list byte) (events : list write_event)
    : list byte * option (result unit) :=
  match bytes with
  | [] => ([], Some (Ok tt))
  | _ =>
      match events with
      | [] => ([], None)
      | write_timed_out text :: _ =>
          ([], Some (Throw (RuntimeError ("Unix socket send timed out: " +:+ text))))
      | write_cancelled text :: _ =>
          ([], Some (Throw (RuntimeError ("Unix socket send cancelled: " +:+ text))))
      | write_failed text :: _ | write_nothing text :: _ =>
          ([], Some (Throw (RuntimeError ("Unix socket send: " +:+ text))))
      | write_again :: events => write_all bytes events
      | wrote count :: events =>
          let (written, r) := write_all (drop (S count) bytes) events in
          (take (S count) bytes ++ written, r)
      end
  end.

(** ** The transport *)

Record transport := {
  socket : option (list read_event);
  listener : bool;
  closed : bool;
}.

(** Descriptors are closed; [closed_] is untouched. *)
Definition invalidate_connection (t : transport) : transport :=
  {| socket := None; listener := false; closed := closed t |}.

Definition with_socket (events : list read_event) (t : transport) : transport :=
  {| socket := Some events; listener := listener t; closed := closed t |}.

Definition close (t : transport) : transport :=
  if closed t then t
  else invalidate_connection {| socket := socket t; listener := listener t; closed := true |}.

Section Message.
Context {A : Type} {codec : Codec A}.

Inductive ReceiveStatus := message (envelope : A) | timeout | end_of_stream | cancelled.

(** The transport afterwards, the bytes written to the peer and the result. *)
Definition send (events : list write_event) (closed_now : bool) (envelope : A) (t : transport)
    : transport * list byte * option (result unit) :=
  if closed t then (t, [], Some (Throw (RuntimeError "send on closed Unix socket transport")))
  else
    match socket t with
    | None => (t, [], Some (Throw (RuntimeError "Unix socket listener has no accepted peer")))
    | Some _ =>
        match (let* serialized := encode envelope in frame serialized) with
        | Throw e => (t, [], Some (Throw e))
        | Ok framed =>
            let (written, r) := write_all framed events in
            match r with
            | Some (Throw _) => (if closed_now then t else invalidate_connection t, written, r)
            | _ => (t, written, r)
            end
        end
    end.

(** [fail_connection] *)
Definition fail_connection (message : string) (t : transport)
    : transport * option (result ReceiveStatus) :=
  (invalidate_connection t, Some (Throw (RuntimeError message))).

(** [receive_result] once a connection exists. *)
Definition receive_framed (closed_header closed_body : bool) (events : list read_event)
    (t : transport) : transport * option (result ReceiveStatus) :=
  let '(events, prefix, header) := read_all 4 [] events in
  let t := with_socket events t in
  match header with
  | None => (t, None)
  | Some (Throw e) =>
      if closed_header then (t, Some (Ok cancelled))
      else (invalidate_connection t, Some (Throw e))
  | Some (Ok header) =>
      if closed_header then (t, Some (Ok cancelled))
      else
        match header with
        | cancelled_read => (t, Some (Ok cancelled))
        | timed_out =>
            if (length prefix =? 0)%nat then (t, Some (Ok timeout))
            else fail_connection "Unix socket receive timed out during frame header" t
        | closed_by_peer =>
            if negb (length prefix =? 0)%nat
            then fail_connection "Unix socket closed during frame header" t
            else (invalidate_connection t, Some (Ok end_of_stream))
        | complete =>
            match decode_frame_size prefix with
            | Throw e => fail_connection ("invalid Unix socket frame prefix: " +:+ what e) t
            | Ok size =>
                let '(events, payload, body) := read_all (Z.to_nat size) [] events in
                let t := with_socket events t in
                match body with
                | None => (t, None)
                | Some (Throw e) =>
                    if closed_body then (t, Some (Ok cancelled))
                    else (invalidate_connection t, Some (Throw e))
                | Some (Ok body) =>
                    if closed_body then (t, Some (Ok cancelled))
                    else
                      match body with
                      | cancelled_read => (t, Some (Ok cancelled))
                      | timed_out =>
                          fail_connection "Unix socket receive timed out during frame payload" t
                      | closed_by_peer =>
                          fail_connection "Unix socket closed during frame payload" t
                      | complete =>
                          match decode payload with
                          | Throw e =>
                              fail_connection ("malformed Unix socket envelope: " +:+ what e) t
                          | Ok envelope => (t, Some (Ok (message envelope)))
                          end
                      end
                end
            end
        end
  end.

(** How a listener without a peer obtains one. *)
Inductive accept_event :=
| accept_cancelled | accept_timed_out | accept_failed (text : string)
| accepted (events : list read_event).

Definition receive_result (accept : accept_event) (closed_accept closed_header closed_body : bool)
    (t : transport) : transport * option (result ReceiveStatus) :=
  if closed t then (t, Some (Ok cancelled))
  else
    match socket t with
    | Some events => receive_framed closed_header closed_body events t
    | None =>
        if negb (listener t) then (t, Some (Ok end_of_stream))
        else
          match accept with
          | accept_cancelled => (t, Some (Ok cancelled))
          | accept_timed_out => (t, Some (Ok timeout))
          | accept_failed text =>
              if closed_accept then (t, Some (Ok cancelled))
              else (t, Some (Throw (RuntimeError text)))
          | accepted events =>
              if closed_accept then (t, Some (Ok cancelled))
              else receive_framed closed_header closed_body events (with_socket events t)
          end
    end.

End Message.
Arguments ReceiveStatus : clear implicits.
End UnixSocket.

(** * Correctness of the Unix-domain stream transport

    A receiver gets exactly the messages the sender completed, in order,
    however the kernel splits the bytes; a torn frame is never mistaken for a
    message and nothing follows it. *)

From Stdlib Require Import ZArith Lia Strings.Byte Strings.String.
From stdpp Require Import base strings list.
From S2P Require Import Prelude Framing.

Module UnixSocketProofs.
Import Framing UnixSocket.
Local Open Scope Z_scope.

(** ** Streams *)

(** The events bring exactly these bytes, in pieces of any size, and then the
    end of the stream; no deadline passes and nothing fails. *)
Inductive delivers : list read_event -> list byte -> Prop :=
| delivers_eof : delivers [read_eof] []
| delivers_again events bytes : delivers events bytes -> delivers (read_again :: events) bytes
| delivers_chunk b bs events bytes :
    delivers events bytes -> delivers (read_chunk b bs :: events) (b :: bs ++ bytes).
#[local] Hint Constructors delivers : core.

(** All the bytes the events can still bring *)
Definition carried (events : list read_event) : list byte :=
  flat_map (fun e => match e with read_chunk b bs => b :: bs | _ => [] end) events.

Lemma delivers_drop n b bs events bytes :
  delivers events bytes ->
  delivers (match drop n (b :: bs) with [] => events | c :: cs => read_chunk c cs :: events end)
    (drop n (b :: bs) ++ bytes).
Proof. intros Hd. destruct (drop n (b :: bs)) as [|c cs]; [done|]. by constructor. Qed.

Lemma read_all_delivers need got events xs ys :
  delivers events (xs ++ ys) -> length xs = need ->
  exists events', read_all need got events = (events', got ++ xs, Some (Ok complete))
    /\ delivers events' ys.
Proof.
  intros Hd. remember (xs ++ ys) as bytes eqn:Hb. revert need got xs Hb.
  induction Hd as [|events bytes Hd IH|b bs events bytes Hd IH]; intros need got xs Hb Hn.
  - symmetry in Hb. apply app_eq_nil in Hb as [-> ->]. subst need. simpl. rewrite app_nil_r. eauto.
  - destruct xs as [|x xs].
    + subst need. simpl. rewrite app_nil_r. simpl in Hb. subst. eauto.
    + subst need. cbn [read_all length Nat.eqb]. by apply (IH _ _ (x :: xs)).
  - destruct (decide (need = 0%nat)) as [->|Hn0].
    { destruct xs; [|done]. simpl in Hb. subst ys. simpl. rewrite app_nil_r. eauto. }
    cbn [read_all]. rewrite (proj2 (Nat.eqb_neq need 0) Hn0).
    change (b :: bs ++ bytes) with ((b :: bs) ++ bytes) in Hb.
    destruct (Nat.leb_spec (length (b :: bs)) need) as [Hle|Hgt].
    + set (n := length (b :: bs)) in *.
      assert (Hxs : xs = (b :: bs) ++ drop n xs).
      { rewrite <-(take_drop n xs) at 1. f_equal. apply (f_equal (take n)) in Hb.
        rewrite (take_app_length' (b :: bs)), take_app_le in Hb by (done || lia). done. }
      rewrite Hxs, <-app_assoc in Hb. apply app_inv_head in Hb.
      destruct (IH (need - n)%nat (got ++ b :: bs) (drop n xs)) as (ev & Hr & Hd');
        [done|rewrite length_drop; lia|].
      rewrite <-app_assoc, <-Hxs in Hr. eauto.
    + assert (Hxs : take need (b :: bs) = xs).
      { apply (f_equal (take need)) in Hb. rewrite !take_app_le, (take_ge xs) in Hb by lia. done. }
      assert (Hys : drop need (b :: bs) ++ bytes = ys).
      { apply (f_equal (drop need)) in Hb. rewrite drop_app_le in Hb by lia.
        rewrite Hb, drop_app_le, drop_ge by lia. done. }
      eexists. rewrite Hxs. split; [done|]. rewrite <-Hys. by apply delivers_drop.
Qed.

(** The stream ends before the reader has what it needs. *)
Lemma read_all_short need got events xs :
  delivers events xs -> (length xs < need)%nat ->
  exists events', read_all need got events = (events', got ++ xs, Some (Ok closed_by_peer)).
Proof.
  intros Hd. revert need got. induction Hd as [|events bytes Hd IH|b bs events bytes Hd IH];
    intros need got Hn; (destruct need as [|need]; [simpl in Hn; lia|]); cbn [read_all Nat.eqb].
  - rewrite app_nil_r. eauto.
  - by apply IH.
  - simpl in Hn. rewrite length_app in Hn.
    destruct (Nat.leb_spec (length (b :: bs)) (S need)) as [Hle|Hgt]; [|simpl in Hgt; lia].
    destruct (IH (S need - length (b :: bs))%nat (got ++ b :: bs)) as (ev & Hr); [simpl in *; lia|].
    rewrite Hr, <-app_assoc. eauto.
Qed.

Lemma carried_rest n b bs events :
  carried (match drop n (b :: bs) with [] => events | c :: cs => read_chunk c cs :: events end)
  = drop n (b :: bs) ++ carried events.
Proof. by destruct (drop n (b :: bs)). Qed.

(** No byte is lost or invented, whatever happens. *)
Lemma read_all_carried need got events events' got' r :
  read_all need got events = (events', got', r) ->
  got' ++ carried events' = got ++ carried events
  /\ (r = Some (Ok complete) -> (length got' = length got + need)%nat)
  /\ (length got <= length got')%nat.
Proof.
  revert need got. induction events as [|e events IH]; intros need got H; cbn [read_all] in H;
    destruct (Nat.eqb_spec need 0) as [->|Hn]; try (injection H as <- <- <-; split_and!; [done|lia..]).
  - injection H as <- <- <-. by split_and!.
  - destruct e as [| |text| | |b bs];
      try (injection H as <- <- <-; by split_and!); [by apply IH|].
    destruct (Nat.leb_spec (length (b :: bs)) need) as [Hle|Hgt].
    + apply IH in H as (Hc & Hl & Hm). rewrite length_app in *. split_and!; [|intros ->|lia].
      * rewrite Hc, <-app_assoc. done.
      * rewrite Hl by done. simpl in *; lia.
    + injection H as <- <- <-. split_and!.
      * rewrite <-app_assoc, carried_rest, (app_assoc (take _ _)), take_drop. done.
      * intros _. rewrite length_app, length_take. lia.
      * rewrite length_app. lia.
Qed.

Lemma read_all_cancelled need got events events' got' r :
  read_all need got events = (events', got', r) ->
  (r = Some (Ok cancelled_read) -> read_cancelled ∈ events)
  /\ (read_cancelled ∈ events' -> read_cancelled ∈ events).
Proof.
  revert need got. induction events as [|e events IH]; intros need got H; cbn [read_all] in H;
    destruct (Nat.eqb_spec need 0) as [->|Hn]; try (injection H as <- <- <-; by split).
  destruct e as [| |text| | |b bs];
    try (injection H as <- <- <-; split; intros; first [done|by left|by right]).
  - apply IH in H as [H1 H2]. split; intros; right; auto.
  - destruct (_ <=? _)%nat.
    + apply IH in H as [H1 H2]. split; intros; right; auto.
    + injection H as <- <- <-. split; [done|]. destruct (drop _ _); intros Hi; [by right|].
      apply elem_of_cons in Hi as [|]; [done|by right].
Qed.

(** ** What the kernel was given *)

Lemma unix_write_all_prefix bytes events written r :
  write_all bytes events = (written, r) ->
  exists rest, bytes = written ++ rest /\ (r = Some (Ok tt) <-> rest = []).
Proof.
  revert bytes written. induction events as [|e events IH]; intros bytes written H;
    destruct bytes as [|b bs]; cbn [write_all] in H;
    try (injection H as <- <-; by exists []);
    try (injection H as <- <-; by exists (b :: bs)).
  destruct e as [| | | | |count];
    try (injection H as <- <-; by exists (b :: bs)); [by apply IH|].
  destruct (write_all (drop (S count) (b :: bs)) events) as [w r'] eqn:E. injection H as <- <-.
  apply IH in E as (rest & Hd & Hr). exists rest. split; [|done].
  transitivity (take (S count) (b :: bs) ++ w ++ rest); [by rewrite <-Hd, take_drop|].
  simpl. by rewrite <-app_assoc.
Qed.

Section Messages.
Context {A : Type} {codec : Codec A}.

Definition framed_as (envelope : A) (framed : list byte) : Prop :=
  exists w, encode envelope = Ok w /\ frame w = Ok framed.

Lemma unix_receive_framed_message envelope framed rest events t :
  codec_wf envelope -> framed_as envelope framed -> delivers events (framed ++ rest) ->
  exists events', receive_framed false false events t
      = (with_socket events' t, Some (Ok (message envelope)))
    /\ delivers events' rest.
Proof.
  intros Hwf (w & Hw & Hf) Hd. pose proof (frame_prefix _ _ Hf) as (Hl & Hp & Hdrop).
  assert (Hsplit : framed = take 4 framed ++ w) by (by rewrite <-Hdrop, take_drop).
  rewrite Hsplit, <-app_assoc in Hd.
  destruct (read_all_delivers 4 [] events (take 4 framed) (w ++ rest)) as (ev & Hr & Hd1);
    [done|rewrite length_take; lia|].
  destruct (read_all_delivers (length w) [] ev w rest) as (ev' & Hr' & Hd2); [done..|].
  exists ev'. split; [|done]. unfold receive_framed.
  rewrite Hr, app_nil_l, Hp, Nat2Z.id, Hr', app_nil_l, (decode_encode _ _ Hwf Hw). done.
Qed.

(** A stream that ends within a frame, or between two frames *)
Lemma receive_framed_torn envelope framed torn rest events t :
  framed_as envelope framed -> framed = torn ++ rest -> rest <> [] -> delivers events torn ->
  exists t' r, receive_framed false false events t = (t', Some r) /\ t' = invalidate_connection t
    /\ (torn = [] -> r = Ok end_of_stream) /\ (torn <> [] -> exists err, r = Throw err).
Proof.
  intros (w & Hw & Hf) Hs Hrest Hd. pose proof (frame_prefix _ _ Hf) as (Hl & Hp & Hdrop).
  unfold receive_framed. destruct (decide (length torn < 4)%nat) as [Hlt|Hge].
  - destruct (read_all_short 4 [] events torn) as (ev & Hr); [done..|]. rewrite Hr, app_nil_l.
    destruct torn as [|b torn]; simpl; do 2 eexists; (split; [done|]); split_and!; try done.
    intros _. eauto.
  - assert (Ht : torn = take 4 framed ++ drop 4 torn).
    { rewrite <-(take_drop 4 torn) at 1. by rewrite Hs, take_app_le by lia. }
    assert (Hlen : (length framed = length torn + length rest)%nat)
      by (by rewrite Hs, length_app).
    assert (length rest <> 0%nat) by (by destruct rest).
    rewrite Ht in Hd.
    destruct (read_all_delivers 4 [] events (take 4 framed) (drop 4 torn)) as (ev & Hr & Hd1);
      [done|rewrite length_take; lia|].
    destruct (read_all_short (length w) [] ev (drop 4 torn)) as (ev' & Hr');
      [done|rewrite length_drop; lia|].
    rewrite Hr, app_nil_l, Hp, Nat2Z.id, Hr'. do 2 eexists. split; [done|].
    split_and!; [done|intros ->; simpl in Hge; lia|eauto].
Qed.

(** ** A conversation *)

(** The envelopes whose [send] returned, the bytes the peer can read, and
    whether a send is still blocked; every send may fail, once or for good. *)
Fixpoint send_all (plan : list (A * list write_event)) (t : transport)
    : list A * list byte * transport :=
  match plan with
  | [] => ([], [], t)
  | (envelope, events) :: plan =>
      let '(t, written, r) := send events false envelope t in
      match r with
      | None => ([], written, t)
      | Some r =>
          let '(sent, wire, t) := send_all plan t in
          (match r with Ok _ => envelope :: sent | Throw _ => sent end, written ++ wire, t)
      end
  end.

Fixpoint receive_many (n : nat) (t : transport)
    : list (option (result (ReceiveStatus A))) * transport :=
  match n with
  | O => ([], t)
  | S n =>
      let (t, r) := receive_result accept_cancelled false false false t in
      let (rs, t) := receive_many n t in (r :: rs, t)
  end.

(** The wire is the frames of the completed sends and a torn frame at most. *)
Definition wire_of (sent : list A) (wire : list byte) : Prop :=
  exists frames torn,
    Forall2 framed_as sent frames /\ wire = concat frames ++ torn
    /\ (torn = [] \/ exists envelope framed rest,
          framed_as envelope framed /\ framed = torn ++ rest /\ rest <> []).

Lemma send_all_dead plan t :
  socket t = None -> exists t', send_all plan t = ([], [], t').
Proof.
  revert t. induction plan as [|[e ev] plan IH]; intros t Ht; cbn [send_all]; [eauto|].
  unfold send. rewrite Ht. destruct (closed t);
    (destruct (IH t Ht) as (t' & ->); eauto).
Qed.

Lemma send_all_wire plan t sent wire t' :
  send_all plan t = (sent, wire, t') -> wire_of sent wire.
Proof.
  revert t sent wire t'. induction plan as [|[e ev] plan IH]; intros t sent wire t' H; cbn [send_all] in H.
  { injection H as <- <- <-. exists [], []. split_and!; [constructor|done|by left]. }
  destruct (socket t) as [es|] eqn:Hs.
  2:{ change (send_all ((e, ev) :: plan) t = (sent, wire, t')) in H.
      destruct (send_all_dead ((e, ev) :: plan) t Hs) as (t1 & E). rewrite E in H.
      injection H as <- <- _. exists [], []. split_and!; [constructor|done|by left]. }
  unfold send in H. rewrite Hs in H.
  destruct (closed t).
  { destruct (send_all plan t) as [[s w] t1] eqn:E. injection H as <- <- _. by apply IH in E. }
  destruct (encode e) as [w|err] eqn:Ee; cbn [bind] in H;
    [destruct (frame w) as [f|err] eqn:Ef|];
    try (destruct (send_all plan t) as [[s w1] t1] eqn:E; injection H as <- <- _; by apply IH in E).
  assert (Hfr : framed_as e f) by (by exists w).
  destruct (write_all f ev) as [written r] eqn:Ew.
  apply unix_write_all_prefix in Ew as (rest & Hf & Hr).
  destruct r as [[[]|err]|].
  - destruct (send_all plan t) as [[s w1] t1] eqn:E. injection H as <- <- _.
    apply IH in E as (frames & torn & HF & -> & Ht). pose proof (proj1 Hr eq_refl). subst rest.
    rewrite app_nil_r in Hf. subst written. exists (f :: frames), torn.
    split_and!; [by constructor|by rewrite app_assoc|done].
  - destruct (send_all_dead plan (invalidate_connection t) eq_refl) as (t1 & E).
    rewrite E in H. injection H as <- <- _. exists [], written.
    split_and!; [constructor|by rewrite app_nil_r|]. right. exists e, f, rest.
    split_and!; [done..|]. intros Hn. by apply Hr in Hn.
  - injection H as <- <- _. exists [], written. split_and!; [constructor|done|].
    right. exists e, f, rest. split_and!; [done..|]. intros Hn. by apply Hr in Hn.
Qed.

Lemma receive_connected events t :
  socket t = Some events -> closed t = false ->
  receive_result accept_cancelled false false false t = receive_framed false false events t.
Proof. intros Hs Hc. unfold receive_result. by rewrite Hs, Hc. Qed.

Lemma receive_many_wire sent wire events t :
  Forall codec_wf sent -> wire_of sent wire -> delivers events wire ->
  socket t = Some events -> closed t = false ->
  exists final t', receive_many (S (length sent)) t
      = (map (fun e => Some (Ok (message e))) sent ++ [Some final], t')
    /\ socket t' = None
    /\ (final = Ok end_of_stream \/ exists err, final = Throw err).
Proof.
  intros Hwf (frames & torn & HF & -> & Ht). revert events t.
  induction HF as [|e f sent frames Hf HF IH]; intros events t Hd Hs Hc; cbn [receive_many].
  - rewrite (receive_connected _ _ Hs Hc). simpl in Hd. destruct Ht as [->|Ht].
    + destruct (read_all_short 4 [] events []) as (ev & Hr); [done|simpl; lia|].
      unfold receive_framed. rewrite Hr. do 2 eexists. split; [done|]. split; [done|by left].
    + destruct Ht as (e & f & rest & Hf & Hsp & Hrest).
      destruct (receive_framed_torn e f torn rest events t) as (t' & r & Hr & -> & H1 & H2); [done..|].
      rewrite Hr. do 2 eexists. split; [done|]. split; [done|].
      destruct torn; [left; auto|right; by apply H2].
  - inversion Hwf as [|? ? Hwe Hws]; subst. cbn [concat] in Hd. rewrite <-app_assoc in Hd.
    rewrite (receive_connected _ _ Hs Hc).
    destruct (unix_receive_framed_message e f (concat frames ++ torn) events t) as (ev & -> & Hd');
      [done..|].
    destruct (IH Hws ev (with_socket ev t) Hd' eq_refl Hc) as (final & t' & Hr & Hrest).
    exists final, t'. split; [|done].
    change (length (e :: sent)) with (S (length sent)). by rewrite Hr.
Qed.

(** ** Properties *)

(** C18: End to end: whatever the senders' system calls do and however the
    kernel splits the bytes, a peer that reads the stream to its end obtains
    exactly the envelopes whose [send] returned, in order, followed by the end
    of the stream or by one error when the last frame was torn; a torn frame
    never becomes a message, and no frame follows it. *)
Theorem stream_end_to_end plan t sent wire t' events peer :
  send_all plan t = (sent, wire, t') -> Forall codec_wf sent ->
  delivers events wire -> socket peer = Some events -> closed peer = false ->
  exists final peer', receive_many (S (length sent)) peer
      = (map (fun e => Some (Ok (message e))) sent ++ [Some final], peer')
    /\ socket peer' = None
    /\ (final = Ok end_of_stream \/ exists err, final = Throw err).
Proof.
  intros Hs%send_all_wire Hwf Hd Hp Hc. by eapply receive_many_wire.
Qed.

(** Whatever a connection brings, one receive either takes exactly one
    frame off the stream and returns its message, or takes nothing and reports
    a time-out, or leaves the connection closed; it returns [cancelled] only
    when the transport is being closed. The reader never continues in the
    middle of a frame. *)
Theorem receive_keeps_boundaries events t t' r :
  receive_framed false false events t = (t', Some r) ->
  match r with
  | Ok (message envelope) =>
      exists events' payload, t' = with_socket events' t
        /\ carried events = be_bytes 4 (Z.of_nat (length payload)) ++ payload ++ carried events'
        /\ decode payload = Ok envelope
  | Ok timeout => exists events', t' = with_socket events' t /\ carried events' = carried events
  | Ok end_of_stream | Throw _ => t' = invalidate_connection t
  | Ok cancelled => read_cancelled ∈ events
  end.
Proof.
  unfold receive_framed, fail_connection. intros H.
  destruct (read_all 4 [] events) as [[ev prefix] header] eqn:E1.
  pose proof (read_all_carried _ _ _ _ _ _ E1) as (Hc & Hl & _).
  pose proof (read_all_cancelled _ _ _ _ _ _ E1) as [Hcan Hin].
  destruct header as [[[]|e]|]; try discriminate H; try (by injection H as <- <-).
  - destruct (decode_frame_size prefix) as [n|e] eqn:Hn; [|by injection H as <- <-].
    destruct (read_all (Z.to_nat n) [] ev) as [[ev' payload] body] eqn:E2.
    pose proof (read_all_carried _ _ _ _ _ _ E2) as (Hc' & Hl' & _).
    pose proof (read_all_cancelled _ _ _ _ _ _ E2) as [Hcan' _].
    destruct body as [[[]|e]|]; try discriminate H; try (by injection H as <- <-).
    + destruct (decode payload) as [a|e] eqn:Hd; injection H as <- <-; [|done].
      specialize (Hl eq_refl). specialize (Hl' eq_refl). cbn [length] in *.
      rewrite decode_frame_size_eq in Hn by done. pose proof (be_value_bound prefix).
      destruct (_ <? _); [done|]. injection Hn as <-.
      exists ev', payload. split; [done|]. split; [|done].
      rewrite app_nil_l in Hc, Hc'. rewrite <-Hc, <-Hc', Hl', Nat.add_0_l, Z2Nat.id by lia.
      f_equal. rewrite <-(be_bytes_be_value prefix) at 1. by rewrite Hl.
    + injection H as <- <-. apply Hin. by apply Hcan'.
  - by destruct (negb _); injection H as <- <-.
  - destruct (Nat.eqb_spec (length prefix) 0) as [Hz|]; injection H as <- <-; [|done].
    exists ev. split; [done|]. by destruct prefix.
  - injection H as <- <-. by apply Hcan.
Qed.

End Messages.

(** ** Witnesses: two sends of which the second times out after three bytes,
    read back in pieces of other sizes *)

Definition connected (events : list read_event) : transport :=
  {| socket := Some events; listener := false; closed := false |}.
Definition plan : list (list byte * list write_event) :=
  [([x2a], [wrote 4; write_again; wrote 100]); ([x07], [wrote 2; write_timed_out "timeout"])].
Definition wire : list byte :=
  [x00; x00; x00; x05; x00; x00; x00; x01; x2a; x00; x00; x00].
Definition pieces : list read_event :=
  [read_chunk x00 [x00; x00; x05; x00; x00]; read_again; read_chunk x00 [x01; x2a; x00; x00; x00];
   read_eof].

Lemma stream_end_to_end_witness :
  exists final peer', receive_many 2 (connected pieces)
      = ([Some (Ok (message [x2a])); Some final], peer')
    /\ socket peer' = None
    /\ (final = Ok end_of_stream \/ exists err, final = Throw err).
Proof.
  apply (stream_end_to_end plan (connected []) [[x2a]] wire (invalidate_connection (connected []))
    pieces (connected pieces)).
  - vm_compute. reflexivity.
  - constructor; [vm_compute; discriminate|constructor].
  - apply (delivers_chunk x00 [x00; x00; x05; x00; x00]), delivers_again,
      (delivers_chunk x00 [x01; x2a; x00; x00; x00]), delivers_eof.
  - reflexivity.
  - reflexivity.
Defined.

Lemma receive_keeps_boundaries_witness :
  exists events' payload, with_socket [read_eof] (connected []) = with_socket events' (connected [])
    /\ carried [read_chunk x00 [x00; x00; x05; x00; x00; x00; x01; x2a]; read_eof]
       = be_bytes 4 (Z.of_nat (length payload)) ++ payload ++ carried events'
    /\ decode payload = Ok [x2a].
Proof.
  apply (receive_keeps_boundaries
    [read_chunk x00 [x00; x00; x05; x00; x00; x00; x01; x2a]; read_eof] (connected [])
    (with_socket [read_eof] (connected [])) (Ok (message [x2a]))).
  vm_compute. reflexivity.
Defined.

End UnixSocketProofs.
