(* ===== verification/Tcp.v ===== *)
(** * TCP transport (src/src/tcp_transport.cpp, src/include/graphx/tcp_transport.hpp)

    The same framed stream as the Unix-domain transport, over plain sockets or
    TLS, with connection retries, a second attempt of a failed [send] and a
    listener that accepts the next peer when one leaves.  System calls, OpenSSL
    and the clock are the arguments: a list of events per connection, and one
    environment record per attempt.  [closed_*] and [stopped*] are the values
    of the flags at the later points where the code reads them again.

    [writes] is a ghost log: which bytes were handed to which connection.
    Which direction [poll] waits for after [SSL_ERROR_WANT_*] is not modelled:
    it decides only when the next event comes. *)

From Stdlib Require Import ZArith Lia Strings.Byte Strings.String.
From stdpp Require Import base strings list.
From S2P Require Import Prelude Framing.

Module Tcp.
Import Framing.
Local Open Scope Z_scope.

Record TcpRetryPolicy := { max_attempts : Z; initial_backoff : Z; max_backoff : Z }.
Record TcpOptions := { retry : TcpRetryPolicy; reconnect : bool }.
Record Endpoint := { host : string; port : Z }.

(** ** Reading and writing *)

Inductive read_event :=
| poll_expired | poll_error (text : string)
| recv_again | recv_failed (text : string) | recv_eof | recv_chunk (b : byte) (bs : list byte)
| ssl_want_read | ssl_want_write | ssl_failed (text : string) | ssl_zero_return | ssl_no_session
| ssl_chunk (b : byte) (bs : list byte).

Inductive ReadStatus := complete | closed_by_peer | timed_out.

Fixpoint read_all (need : nat) (got : list byte) (events : list read_event)
    : list read_event * list byte * option (result ReadStatus) :=
  if (need =? 0)%nat then (events, got, Some (Ok complete))
  else
    let take_chunk (remaining : byte -> list byte -> read_event) b bs rest :=
      if (length (b :: bs) <=? need)%nat
      then read_all (need - length (b :: bs)) (got ++ b :: bs) rest
      else
        (match drop need (b :: bs) with
         | [] => rest
         | c :: cs => remaining c cs :: rest
         end, got ++ take need (b :: bs), Some (Ok complete)) in
    match events with
    | [] => ([], got, None)
    | poll_expired :: events => (events, got, Some (Ok timed_out))
    | poll_error text :: events => (events, got, Some (Throw (RuntimeError text)))
    | ssl_no_session :: _ => (events, got, Some (Ok closed_by_peer))
    | ssl_chunk b bs :: events => take_chunk ssl_chunk b bs events
    | ssl_want_read :: events | ssl_want_write :: events => read_all need got events
    | ssl_zero_return :: _ => (events, got, Some (Ok closed_by_peer))
    | ssl_failed text :: events => (events, got, Some (Throw (RuntimeError ("TLS receive" +:+ text))))
    | recv_again :: events => read_all need got events
    | recv_failed text :: events => (events, got, Some (Throw (RuntimeError ("receive: " +:+ text))))
    | recv_eof :: _ => (events, got, Some (Ok closed_by_peer))
    | recv_chunk b bs :: events => take_chunk recv_chunk b bs events
    end.

Inductive write_event :=
| write_expired (text : string) | write_poll_error (text : string)
| send_again | send_failed (text : string) | sent (count : nat)  (** [count + 1] bytes *)
| tls_closed | ssl_write_want | ssl_write_failed (text : string) | ssl_sent (count : nat).

Fixpoint write_all (bytes : list byte) (events : list write_event)
    : list byte * option (result unit) :=
  match bytes with
  | [] => ([], Some (Ok tt))
  | _ =>
      let consume count rest :=
        let (written, r) := write_all (drop (S count) bytes) rest in
        (take (S count) bytes ++ written, r) in
      match events with
      | [] => ([], None)
      | write_expired text :: _ => ([], Some (Throw (RuntimeError ("send timed out: " +:+ text))))
      | write_poll_error text :: _ => ([], Some (Throw (RuntimeError text)))
      | tls_closed :: _ => ([], Some (Throw (RuntimeError "TLS connection is closed")))
      | ssl_sent count :: events => consume count events
      | ssl_write_want :: events => write_all bytes events
      | ssl_write_failed text :: _ => ([], Some (Throw (RuntimeError ("TLS send" +:+ text))))
      | send_again :: events => write_all bytes events
      | send_failed text :: _ => ([], Some (Throw (RuntimeError ("send: " +:+ text))))
      | sent count :: events => consume count events
      end
  end.

(** ** The transport *)

Inductive trace :=
| connecting | connected | reconnected | disconnected | listening | closed_trace
| error (message : string) | backpressure | on_send (bytes : Z).

Record transport := {
  socket : option (list read_event);
  listener : bool;
  closed : bool;
  ever_connected : bool;
  outbound : bool;
  connections : nat;                    (** ghost: connections so far *)
  writes : list (nat * list byte);      (** ghost: bytes per connection *)
}.

Definition with_socket (s : option (list read_event)) (t : transport) : transport :=
  {| socket := s; listener := listener t; closed := closed t; ever_connected := ever_connected t;
     outbound := outbound t; connections := connections t; writes := writes t |}.

Definition without_listener (t : transport) : transport :=
  {| socket := socket t; listener := false; closed := closed t;
     ever_connected := ever_connected t; outbound := outbound t;
     connections := connections t; writes := writes t |}.

Definition new_connection (events : list read_event) (t : transport) : transport :=
  {| socket := Some events; listener := listener t; closed := closed t;
     ever_connected := ever_connected t; outbound := outbound t;
     connections := S (connections t); writes := writes t |}.

Definition mark_connected (t : transport) : transport :=
  {| socket := socket t; listener := listener t; closed := closed t; ever_connected := true;
     outbound := outbound t; connections := connections t; writes := writes t |}.

Definition log_write (bytes : list byte) (t : transport) : transport :=
  {| socket := socket t; listener := listener t; closed := closed t;
     ever_connected := ever_connected t; outbound := outbound t; connections := connections t;
     writes := writes t ++ [(connections t, bytes)] |}.

Definition close_connection (t : transport) : transport * list trace :=
  (with_socket None t, match socket t with Some _ => [disconnected] | None => [] end).

Definition close (t : transport) : transport * list trace :=
  if closed t then (t, [])
  else
    let (t, tr) := close_connection t in
    ({| socket := socket t; listener := false; closed := true;
        ever_connected := ever_connected t; outbound := outbound t;
        connections := connections t; writes := writes t |}, tr ++ [closed_trace]).

Section Transport.
Context (edge_id : string) (endpoint : Endpoint) (options : TcpOptions).

Definition context (action : string) : string :=
  "TCP" +:+ (if size edge_id =? 0 then EmptyString else " edge '" +:+ edge_id +:+ "'")
    +:+ " " +:+ host endpoint +:+ ":" +:+ to_string (port endpoint) +:+ " " +:+ action.

(** *** Connecting *)

Record attempt_env := {
  stopped : bool;
  connect_once : string + list read_event;
  closed_after_connect : bool;
  tls_failure : option string;
  closed_after_tls : bool;
  stopped_in_backoff : bool;
}.

(** The body of the [try] *)
Definition try_connect (env : attempt_env) (t : transport)
    : transport * list trace * result unit :=
  match connect_once env with
  | inl text => (t, [connecting], Throw (RuntimeError text))
  | inr events =>
      if closed_after_connect env
      then (t, [connecting], Throw (RuntimeError (context "connection cancelled")))
      else
        let t := new_connection events t in
        match tls_failure env with
        | Some text =>
            let (t, tr) := close_connection t in (t, connecting :: tr, Throw (RuntimeError text))
        | None =>
            if closed_after_tls env then
              let (t, tr) := close_connection t in
              (t, connecting :: tr, Throw (RuntimeError (context "connection cancelled")))
            else
              (mark_connected t,
               connecting :: (if ever_connected t then [reconnected] else []) ++ [connected], Ok tt)
        end
  end.

(** The loop of [connect_outbound]; the third component lists the waits. *)
Fixpoint connect_attempts (attempts attempt backoff : Z) (envs : list attempt_env) (t : transport)
    : transport * list trace * list Z * option (result unit) :=
  match envs with
  | [] => (t, [], [], None)
  | env :: envs =>
      if stopped env
      then (t, [], [], Some (Throw (RuntimeError (context "connection cancelled"))))
      else
        let '(t, tr, r) := try_connect env t in
        match r with
        | Ok tt => (t, tr, [], Some (Ok tt))
        | Throw e =>
            let tr := tr ++ [error (context ("connect attempt " +:+ to_string attempt
                                              +:+ " failed: " +:+ what e))] in
            if attempt =? attempts
            then (t, tr, [], Some (Throw (RuntimeError (context ("connect failed after "
                   +:+ to_string attempts +:+ " attempt(s): " +:+ what e)))))
            else if stopped_in_backoff env
            then (t, tr, [backoff], Some (Throw (RuntimeError (context "connection cancelled"))))
            else
              let '(t, tr', waits, r) :=
                connect_attempts attempts (attempt + 1)
                  (Z.min (max_backoff (retry options)) (backoff * 2)) envs t in
              (t, tr ++ tr', backoff :: waits, r)
        end
  end.

Definition connect_outbound (envs : list attempt_env) (t : transport)
    : transport * list trace * list Z * option (result unit) :=
  connect_attempts (Z.max 1 (max_attempts (retry options))) 1
    (initial_backoff (retry options)) envs t.

(** *** Sending *)

Record send_env := {
  connect_env : list attempt_env;
  write_events : list write_event;
  pressured : bool;
  observer_failure : option string;  (** a trace sink that throws *)
}.

(** The body of the [try] *)
Definition try_send (env : send_env) (framed : list byte) (t : transport)
    : transport * list trace * option (result unit) :=
  let '(t, tr, r) :=
    match socket t with
    | Some _ => (t, [], Some (Ok tt))
    | None =>
        if negb (outbound t) then (t, [], Some (Throw (RuntimeError "no accepted peer")))
        else let '(t, tr, _, r) := connect_outbound (connect_env env) t in (t, tr, r)
    end in
  match r with
  | Some (Ok _) =>
      let (written, r) := write_all framed (write_events env) in
      let t := log_write written t in
      match r with
      | Some (Ok _) =>
          let tr := tr ++ (if pressured env then [backpressure] else [])
                    ++ [on_send (Z.of_nat (length framed))] in
          match observer_failure env with
          | Some text => (t, tr, Some (Throw (RuntimeError text)))
          | None => (t, tr, Some (Ok tt))
          end
      | _ => (t, tr, r)
      end
  | _ => (t, tr, r)
  end.

Fixpoint send_attempts (attempts attempt : nat) (envs : list send_env) (framed : list byte)
    (t : transport) : transport * list trace * option (result unit) :=
  match envs with
  | [] => (t, [], None)
  | env :: envs =>
      let '(t, tr, r) := try_send env framed t in
      match r with
      | Some (Throw e) =>
          let message := context ("send failed: " +:+ what e) in
          let (t, tr') := close_connection t in
          let tr := tr ++ error message :: tr' in
          if (attempt =? attempts)%nat then (t, tr, Some (Throw (RuntimeError message)))
          else let '(t, tr', r) := send_attempts attempts (S attempt) envs framed t in
               (t, tr ++ tr', r)
      | _ => (t, tr, r)
      end
  end.

Section Message.
Context {A : Type} {codec : Codec A}.

Definition send (envs : list send_env) (envelope : A) (t : transport)
    : transport * list trace * option (result unit) :=
  if closed t
  then (t, [], Some (Throw (RuntimeError (context "send on closed transport"))))
  else
    match (let* serialized := encode envelope in frame serialized) with
    | Throw e => (t, [], Some (Throw e))
    | Ok framed =>
        send_attempts (if outbound t && reconnect options then 2 else 1)%nat 1 envs framed t
    end.

(** *** Receiving *)

Inductive ReceiveStatus := message (envelope : A) | timeout | end_of_stream | cancelled.

(** [failure(detail)] *)
Definition failure (detail : string) : exn := RuntimeError (context detail).

(** One turn of the loop on a connection; [None] on the left is [continue]. *)
Inductive turn := Return (r : result ReceiveStatus) | Continue | Blocked.

Definition receive_framed (closed_header closed_body : bool) (events : list read_event)
    (t : transport) : transport * turn :=
  let '(events, prefix, header) := read_all 4 [] events in
  let t := with_socket (Some events) t in
  let lost := (close_connection t).1 in
  match header with
  | None => (t, Blocked)
  | Some (Throw e) =>
      (lost, Return (if closed_header then Ok cancelled
                     else Throw (failure ("receive header failed: " +:+ what e))))
  | Some (Ok header) =>
      if closed_header then (t, Return (Ok cancelled))
      else
        match header with
        | timed_out =>
            if (length prefix =? 0)%nat then (t, Return (Ok timeout))
            else (lost, Return (Throw (failure "receive timed out during frame header")))
        | closed_by_peer =>
            if negb (length prefix =? 0)%nat
            then (lost, Return (Throw (failure "peer closed during frame header")))
            else if negb (outbound t) && reconnect options then (lost, Continue)
            else (if negb (outbound t) then without_listener lost else lost,
                  Return (Ok end_of_stream))
        | complete =>
            match decode_frame_size prefix with
            | Throw e => (lost, Return (Throw (failure ("invalid frame header: " +:+ what e))))
            | Ok size =>
                let '(events, payload, body) := read_all (Z.to_nat size) [] events in
                let t := with_socket (Some events) t in
                let lost := (close_connection t).1 in
                match body with
                | None => (t, Blocked)
                | Some (Throw e) =>
                    (lost, Return (if closed_body then Ok cancelled
                                   else Throw (failure ("receive payload failed: " +:+ what e))))
                | Some (Ok body) =>
                    if closed_body then (t, Return (Ok cancelled))
                    else
                      match body with
                      | timed_out =>
                          (lost, Return (Throw (failure "receive timed out during frame payload")))
                      | closed_by_peer =>
                          (lost, Return (Throw (failure "peer closed during frame payload")))
                      | complete =>
                          match decode payload with
                          | Throw e =>
                              (t, Return (Throw (failure ("malformed envelope: " +:+ what e))))
                          | Ok envelope => (t, Return (Ok (message envelope)))
                          end
                      end
                end
            end
        end
  end.

(** What [accept_inbound] meets: the wait ends without a peer, [accept] or the
    socket set-up fails, or a peer arrives. *)
Inductive accept_event :=
| accept_expired
| accept_failed (text : string)
| accepted (events : list read_event) (tls_failure : option string).

Record accept_env := { accept_once : accept_event; closed_accept : bool }.

(** [inl] is a connection; [inr] ends the receive. *)
Definition accept_inbound (env : accept_env) (t : transport)
    : transport * (list read_event + result bool) :=
  if negb (listener t) || closed t then (t, inr (Ok false))
  else
    match accept_once env with
    | accept_expired => (t, inr (Ok false))
    | accept_failed text => (t, inr (Throw (failure text)))
    | accepted events tls_failure =>
        if closed_accept env then (t, inr (Ok false))
        else
          let t := new_connection events t in
          match tls_failure with
          | Some text =>
              ((close_connection t).1, inr (Throw (failure ("TLS accept failed: " +:+ text))))
          | None => (mark_connected t, inl events)
          end
    end.

(** The loop of [receive_result] from the point where no connection exists;
    the last component is what is left of the environment. *)
Fixpoint receive_accept (closed_header closed_body : bool) (envs : list accept_env)
    (t : transport) : transport * option (result ReceiveStatus) * list accept_env :=
  if closed t then (t, Some (Ok cancelled), envs)
  else if negb (listener t) then (t, Some (Ok timeout), envs)
  else
    match envs with
    | [] => (t, None, [])
    | env :: envs =>
        match accept_inbound env t with
        | (t, inr r) =>
            (t, Some (match r with
                      | Ok _ => Ok (if closed_accept env then cancelled else timeout)
                      | Throw e => if closed_accept env then Ok cancelled else Throw e
                      end), envs)
        | (t, inl events) =>
            match receive_framed closed_header closed_body events t with
            | (t, Return r) => (t, Some r, envs)
            | (t, Continue) => receive_accept closed_header closed_body envs t
            | (t, Blocked) => (t, None, envs)
            end
        end
    end.

Definition receive_result (closed_header closed_body : bool) (envs : list accept_env)
    (t : transport) : transport * option (result ReceiveStatus) * list accept_env :=
  if closed t then (t, Some (Ok cancelled), envs)
  else
    match socket t with
    | None => receive_accept closed_header closed_body envs t
    | Some events =>
        match receive_framed closed_header closed_body events t with
        | (t, Return r) => (t, Some r, envs)
        | (t, Continue) => receive_accept closed_header closed_body envs t
        | (t, Blocked) => (t, None, envs)
        end
    end.

End Message.
End Transport.
Arguments ReceiveStatus : clear implicits.
End Tcp.
