(* ===== verification/TcpProofs.v ===== *)
(** * Correctness of the TCP transport

    The reader is the Unix-domain one on translated events, so its stream
    lemmas carry over; a [send] puts its frame on the wire once at most; the
    retry loop is bounded. *)

From Stdlib Require Import ZArith Lia Strings.Byte Strings.String.
From stdpp Require Import base strings list.
From S2P Require Import Prelude Framing UnixSocket Tcp.

Module TcpProofs.
Import Framing Tcp.
Local Open Scope Z_scope.

(** ** The reader *)

Definition translate (e : read_event) : UnixSocket.read_event :=
  match e with
  | poll_expired => UnixSocket.read_timed_out
  | poll_error text => UnixSocket.read_failed text
  | recv_again | ssl_want_read | ssl_want_write => UnixSocket.read_again
  | recv_failed text => UnixSocket.read_failed ("receive: " +:+ text)
  | ssl_failed text => UnixSocket.read_failed ("TLS receive" +:+ text)
  | recv_eof | ssl_zero_return | ssl_no_session => UnixSocket.read_eof
  | recv_chunk b bs | ssl_chunk b bs => UnixSocket.read_chunk b bs
  end.

Definition translate_status (s : ReadStatus) : UnixSocket.ReadStatus :=
  match s with
  | complete => UnixSocket.complete
  | closed_by_peer => UnixSocket.closed_by_peer
  | timed_out => UnixSocket.timed_out
  end.

Definition translate_result (r : option (result ReadStatus))
    : option (result UnixSocket.ReadStatus) :=
  option_map (fun r => let* s := r in Ok (translate_status s)) r.

Lemma read_all_translate need got events events' got' r :
  read_all need got events = (events', got', r) ->
  UnixSocket.read_all need got (map translate events)
  = (map translate events', got', translate_result r).
Proof.
  revert need got. induction events as [|e events IH]; intros need got H;
    cbn [read_all map UnixSocket.read_all] in *;
    destruct (need =? 0)%nat; try (by injection H as <- <- <-).
  destruct e; cbn [translate]; try (by injection H as <- <- <-); try (by apply IH);
    (destruct (_ <=? need)%nat; [by apply IH|]; injection H as <- <- <-;
     by destruct (drop need _)).
Qed.

Lemma delivers_read need events xs ys :
  UnixSocketProofs.delivers (map translate events) (xs ++ ys) -> length xs = need ->
  exists events', read_all need [] events = (events', xs, Some (Ok complete))
    /\ UnixSocketProofs.delivers (map translate events') ys.
Proof.
  intros Hd Hl. destruct (read_all need [] events) as [[ev got] r] eqn:E.
  pose proof (read_all_translate _ _ _ _ _ _ E) as Ht.
  destruct (UnixSocketProofs.read_all_delivers need [] _ xs ys Hd Hl) as (ev' & Hr & Hd').
  rewrite Ht in Hr. injection Hr as <- -> Hst. exists ev. split; [|done].
  by destruct r as [[[]|]|].
Qed.

Lemma delivers_short need events xs :
  UnixSocketProofs.delivers (map translate events) xs -> (length xs < need)%nat ->
  exists events', read_all need [] events = (events', xs, Some (Ok closed_by_peer)).
Proof.
  intros Hd Hl. destruct (read_all need [] events) as [[ev got] r] eqn:E.
  pose proof (read_all_translate _ _ _ _ _ _ E) as Ht.
  destruct (UnixSocketProofs.read_all_short need [] _ xs Hd Hl) as (ev' & Hr).
  rewrite Ht in Hr. injection Hr as <- -> Hst. exists ev. by destruct r as [[[]|]|].
Qed.

(** ** The writer *)

Lemma tcp_write_all_prefix bytes events written r :
  write_all bytes events = (written, r) ->
  exists rest, bytes = written ++ rest /\ (r = Some (Ok tt) <-> rest = []).
Proof.
  revert bytes written. induction events as [|e events IH]; intros bytes written H;
    destruct bytes as [|b bs]; cbn [write_all] in H;
    try (injection H as <- <-; by exists []); try (injection H as <- <-; by exists (b :: bs)).
  assert (Hc : forall count, (let (w, r) := write_all (drop (S count) (b :: bs)) events in
      (take (S count) (b :: bs) ++ w, r)) = (written, r) ->
    exists rest, b :: bs = written ++ rest /\ (r = Some (Ok tt) <-> rest = [])).
  { intros count Hc. destruct (write_all (drop (S count) (b :: bs)) events) as [w r'] eqn:E.
    injection Hc as <- <-. apply IH in E as (rest & Hd & Hr). exists rest. split; [|done].
    transitivity (take (S count) (b :: bs) ++ w ++ rest); [by rewrite <-Hd, take_drop|].
    simpl. by rewrite <-app_assoc. }
  destruct e; try (injection H as <- <-; by exists (b :: bs)); try (by apply IH); by eapply Hc.
Qed.

Section Properties.
Context (edge_id : string) (endpoint : Endpoint) (options : TcpOptions).

(** ** Connecting *)

Lemma try_connect_spec env t t' tr r :
  try_connect edge_id endpoint env t = (t', tr, r) ->
  writes t' = writes t /\ (connections t <= connections t')%nat
  /\ outbound t' = outbound t
  /\ (r = Ok tt -> exists events, socket t' = Some events)
  /\ (forall e, r = Throw e -> socket t = None -> socket t' = None).
Proof.
  unfold try_connect. intros H.
  destruct (connect_once env); [|destruct (closed_after_connect env);
    [|destruct (tls_failure env); [|destruct (closed_after_tls env)]]];
    injection H as <- <- <-; split_and!; simpl; intros; first [done|lia|eauto].
Qed.

Lemma connect_attempts_spec attempts attempt backoff envs t t' tr waits r :
  connect_attempts edge_id endpoint options attempts attempt backoff envs t = (t', tr, waits, r) ->
  writes t' = writes t /\ (connections t <= connections t')%nat /\ outbound t' = outbound t
  /\ (r = Some (Ok tt) -> exists events, socket t' = Some events)
  /\ (r <> Some (Ok tt) -> socket t = None -> socket t' = None).
Proof.
  revert attempt backoff t tr waits. induction envs as [|env envs IH];
    intros attempt backoff t tr waits H; cbn [connect_attempts] in H;
    [by injection H as <- <- <- <-; split_and!|].
  destruct (stopped env); [by injection H as <- <- <- <-; split_and!|].
  destruct (try_connect edge_id endpoint env t) as [[t1 tr1] r1] eqn:E.
  apply try_connect_spec in E as (Hw & Hc & Ho & Hok & Hth).
  destruct r1 as [[]|e]; [injection H as <- <- <- <-; split_and!; auto; done|].
  destruct (attempt =? attempts).
  { injection H as <- <- <- <-. split_and!; eauto; done. }
  destruct (stopped_in_backoff env).
  { injection H as <- <- <- <-. split_and!; eauto; done. }
  destruct (connect_attempts _ _ _ _ _ _ _ _) as [[[t2 tr2] w2] r2] eqn:E2.
  injection H as <- <- <- <-. apply IH in E2 as (Hw2 & Hc2 & Ho2 & Hok2 & Hth2).
  split_and!; [congruence|lia|congruence|done|eauto].
Qed.

(** ** Sending *)

(** The framed bytes reached these connections, at most once in full and, in
    full, only on the last. *)
Definition torn (framed : list byte) (entry : nat * list byte) : Prop :=
  exists rest, framed = entry.2 ++ rest /\ rest <> [].

Lemma try_send_spec env framed t t' tr r :
  observer_failure env = None ->
  try_send edge_id endpoint options env framed t = (t', tr, Some r) ->
  outbound t' = outbound t /\ (connections t <= connections t')%nat
  /\ match r with
     | Ok _ => writes t' = writes t ++ [(connections t', framed)]
     | Throw _ => writes t' = writes t
                  \/ exists bytes, writes t' = writes t ++ [(connections t', bytes)]
                                   /\ torn framed (connections t', bytes)
     end.
Proof.
  intros Hobs H. unfold try_send in H. rewrite Hobs in H.
  destruct (match socket t with
    | Some _ => (t, [], Some (Ok tt))
    | None => if negb (outbound t) then (t, [], Some (Throw (RuntimeError "no accepted peer")))
              else let '(t0, tr0, _, r0) := connect_outbound edge_id endpoint options
                     (connect_env env) t in (t0, tr0, r0)
    end) as [[t1 tr1] r1] eqn:E.
  assert (Hpre : writes t1 = writes t /\ (connections t <= connections t1)%nat
                 /\ outbound t1 = outbound t).
  { destruct (socket t); [by injection E as <- _ _|].
    destruct (negb (outbound t)); [by injection E as <- _ _|].
    destruct (connect_outbound _ _ _ _ _) as [[[t2 tr2] w2] r2] eqn:E2.
    injection E as <- _ _. apply connect_attempts_spec in E2 as (? & ? & ? & _). done. }
  destruct Hpre as (Hw & Hc & Ho).
  destruct r1 as [[[]|e]|]; [|injection H as <- <- <-; by split_and!; [..|left]|done].
  destruct (write_all framed (write_events env)) as [written wr] eqn:Ew.
  apply tcp_write_all_prefix in Ew as (rest & Hf & Hr).
  destruct wr as [[[]|e]|]; [| |done]; injection H as <- <- <-; (split; [done|]; split; [done|]).
  - pose proof (proj1 Hr eq_refl). subst rest. rewrite app_nil_r in Hf. subst written.
    simpl. by rewrite Hw.
  - right. exists written. simpl. rewrite Hw. split; [done|]. exists rest. split; [done|].
    intros Hn. by apply Hr in Hn.
Qed.

Lemma send_attempts_spec attempts attempt envs framed t t' tr r :
  Forall (fun env => observer_failure env = None) envs ->
  send_attempts edge_id endpoint options attempts attempt envs framed t = (t', tr, Some r) ->
  exists failed,
    Forall (torn framed) failed
    /\ match r with
       | Ok _ => writes t' = writes t ++ failed ++ [(connections t', framed)]
       | Throw _ => writes t' = writes t ++ failed /\ socket t' = None
       end.
Proof.
  intros Hobs. revert attempt t tr. induction Hobs as [|env envs Hobs _ IH];
    intros attempt t tr H; cbn [send_attempts] in H; [done|].
  destruct (try_send _ _ _ env framed t) as [[t1 tr1] r1] eqn:E.
  destruct r1 as [[u|e]|]; [| |done].
  - injection H as <- <- <-. apply (try_send_spec _ _ _ _ _ _ Hobs) in E as (_ & _ & Hw).
    by exists [].
  - apply (try_send_spec _ _ _ _ _ _ Hobs) in E as (_ & _ & Hw).
    assert (Hfirst : exists first, Forall (torn framed) first /\ writes t1 = writes t ++ first).
    { destruct Hw as [Hw|(bytes & Hw & Ht)]; [exists []|by exists [(connections t1, bytes)]; auto].
      by rewrite app_nil_r. }
    destruct Hfirst as (first & Hfirst & Hw1). cbn [close_connection] in H.
    destruct (attempt =? attempts)%nat.
    { injection H as <- <- <-. by exists first. }
    destruct (send_attempts _ _ _ _ _ _ _ _) as [[t2 tr2] r2] eqn:E2. injection H as <- <- ->.
    apply IH in E2 as (failed & Hfailed & Hr). exists (first ++ failed).
    split; [by apply Forall_app|]. simpl in Hr. rewrite Hw1, <-!app_assoc in *.
    by destruct r.
Qed.

(** A connection that is made has a new number. *)
Lemma connect_attempts_new attempts attempt backoff envs t t' tr waits :
  connect_attempts edge_id endpoint options attempts attempt backoff envs t = (t', tr, waits, Some (Ok tt)) ->
  (connections t < connections t')%nat.
Proof.
  revert attempt backoff t tr waits. induction envs as [|env envs IH];
    intros attempt backoff t tr waits H; cbn [connect_attempts] in H; [done|].
  destruct (stopped env); [done|].
  destruct (try_connect edge_id endpoint env t) as [[t1 tr1] r1] eqn:E.
  destruct r1 as [[]|e].
  - injection H as <- _ _. unfold try_connect in E. repeat case_match; try done; injection E as <- _; cbn; lia.
  - apply try_connect_spec in E as (_ & Hc & _). destruct (attempt =? attempts); [done|].
    destruct (stopped_in_backoff env); [done|].
    destruct (connect_attempts _ _ _ _ _ _ _ _) as [[[t2 tr2] w2] r2] eqn:E2.
    injection H as <- _ _ ->. apply IH in E2. lia.
Qed.

(** The attempt is connected: it was, or a connection is made. *)
Definition reached (env : send_env) (t : transport) : Prop :=
  is_Some (socket t) \/ (outbound t = true /\ (connect_outbound edge_id endpoint options (connect_env env) t).2 = Some (Ok tt)).

(** The frame is written, then the sink throws. *)
Lemma try_send_throwing env sink framed t t' tr r :
  observer_failure env = Some sink -> reached env t -> (write_all framed (write_events env)).2 = Some (Ok tt) ->
  try_send edge_id endpoint options env framed t = (t', tr, r) ->
  r = Some (Throw (RuntimeError sink)) /\ writes t' = writes t ++ [(connections t', framed)] /\
  outbound t' = outbound t.
Proof.
  intros Hobs Hreach Hwrite H. unfold try_send in H. rewrite Hobs in H.
  destruct (write_all framed (write_events env)) as [written wr] eqn:Ew. cbn [snd] in Hwrite. subst wr.
  apply tcp_write_all_prefix in Ew as (rest & Hf & Hr). pose proof (proj1 Hr eq_refl). subst rest.
  rewrite app_nil_r in Hf. subst written.
  destruct Hreach as [[events Hs]|[Ho Hc]].
  - rewrite Hs in H. injection H as <- <- <-. done.
  - destruct (socket t); [by injection H as <- <- <-|]. rewrite Ho in H. cbn [negb] in H.
    destruct (connect_outbound _ _ _ _ t) as [[[t1 tr1] w1] r1] eqn:E. cbn [snd] in Hc. subst r1.
    apply connect_attempts_spec in E as (Hw & _ & Ho1 & _). injection H as <- <- <-. cbn. by rewrite Hw, Ho1.
Qed.

Lemma try_send_grows env framed t t' tr r :
  try_send edge_id endpoint options env framed t = (t', tr, r) -> exists more, writes t' = writes t ++ more.
Proof.
  unfold try_send. intros H.
  assert (forall t1, writes t1 = writes t -> exists more, writes t1 = writes t ++ more) as Hsame
    by (intros t1 Ht; exists []; by rewrite app_nil_r).
  destruct (match socket t with Some _ => _ | None => _ end) as [[t1 tr1] r1] eqn:E.
  assert (writes t1 = writes t) as Hw.
  { destruct (socket t); [by injection E as <- _ _|]. destruct (negb (outbound t)); [by injection E as <- _ _|].
    destruct (connect_outbound _ _ _ _ _) as [[[t2 tr2] w2] r2] eqn:E2.
    injection E as <- _ _. by apply connect_attempts_spec in E2 as (? & _). }
  destruct r1 as [[[]|e]|]; [|by injection H as <- _ _; apply Hsame..].
  destruct (write_all _ _) as [written wr]. exists [(connections t1, written)]. rewrite <-Hw.
  repeat case_match; by injection H as <- _ _.
Qed.

(** An attempt without a connection that succeeds makes one and writes the frame. *)
Lemma try_send_anew env framed t t' tr :
  socket t = None -> try_send edge_id endpoint options env framed t = (t', tr, Some (Ok tt)) ->
  writes t' = writes t ++ [(connections t', framed)] /\ (connections t < connections t')%nat.
Proof.
  intros Hs H. destruct (observer_failure env) as [sink|] eqn:Hobs.
  { unfold try_send in H. rewrite Hobs in H. repeat case_match; done. }
  pose proof (try_send_spec _ _ _ _ _ _ Hobs H) as (_ & _ & Hw). split; [exact Hw|].
  unfold try_send in H. rewrite Hs, Hobs in H. destruct (negb (outbound t)); [done|].
  destruct (connect_outbound _ _ _ _ t) as [[[t1 tr1] w1] r1] eqn:E. destruct r1 as [[[]|]|]; [|done..].
  apply connect_attempts_new in E. destruct (write_all _ _) as [written [[[]|]|]]; [|done..].
  by injection H as <- _.
Qed.

Section Messages.
Context {A : Type} {codec : Codec A}.

(** C37: With reconnection, a trace sink that throws after the frame is on the
    wire makes [send] treat the delivered message as lost, whatever the
    connections do: a [send] that then returns has written the whole frame
    twice, on two connections, and one that throws has written it at least
    once. *)
Theorem throwing_observer_duplicates first second others (envelope : A) w framed sink t t' tr r :
  encode envelope = Ok w -> frame w = Ok framed -> closed t = false -> outbound t = true -> reconnect options = true ->
  observer_failure first = Some sink -> reached first t -> (write_all framed (write_events first)).2 = Some (Ok tt) ->
  send edge_id endpoint options (first :: second :: others) envelope t = (t', tr, Some r) ->
  exists c c',
    match r with
    | Ok _ => (c < c')%nat /\ writes t' = writes t ++ [(c, framed); (c', framed)]
    | Throw _ => exists more, writes t' = writes t ++ (c, framed) :: more
    end.
Proof.
  intros Hw Hf Hc Ho Hre Hobs Hreach Hwrite H. unfold send in H. rewrite Hc, Hw in H. cbn [bind] in H.
  rewrite Hf, Ho, Hre in H. cbn [andb send_attempts] in H.
  destruct (try_send _ _ _ first framed t) as [[t1 tr1] r1] eqn:E1.
  pose proof (try_send_throwing _ _ _ _ _ _ _ Hobs Hreach Hwrite E1) as (-> & Hw1 & Ho1).
  cbn [close_connection Nat.eqb] in H.
  destruct (try_send _ _ _ second framed _) as [[t2 tr2] r2] eqn:E2.
  destruct r2 as [[[]|e]|]; [| |done].
  - injection H as <- _ <-. apply try_send_anew in E2 as (Hw2 & Hlt); [|done]. cbn in Hw2, Hlt.
    exists (connections t1), (connections t2). split; [done|]. by rewrite Hw2, Hw1, <-app_assoc.
  - injection H as <- _ <-.
    assert (exists more, writes t2 = writes t1 ++ more) as (more & Hmore).
    { apply (try_send_grows second framed _ _ _ _ E2). }
    exists (connections t1), 0%nat, more. cbn. by rewrite Hmore, Hw1, <-app_assoc.
Qed.

(** C27: While no trace sink throws: a [send] that returns has put its frame on the wire exactly once, on
    the connection that is now open, whatever failed before; a [send] that
    throws has never put a complete frame on any connection, and leaves no
    connection open. Other bytes it wrote are strict prefixes of the frame. *)
Theorem send_exactly_once envs (envelope : A) w framed t t' tr r :
  encode envelope = Ok w -> frame w = Ok framed -> closed t = false ->
  Forall (fun env => observer_failure env = None) envs ->
  send edge_id endpoint options envs envelope t = (t', tr, Some r) ->
  exists failed,
    Forall (torn framed) failed
    /\ match r with
       | Ok _ => writes t' = writes t ++ failed ++ [(connections t', framed)]
       | Throw _ => writes t' = writes t ++ failed /\ socket t' = None
       end.
Proof.
  intros Hw Hf Hc Hobs H. unfold send in H. rewrite Hc, Hw in H. cbn [bind] in H.
  rewrite Hf in H. by eapply send_attempts_spec.
Qed.

(** ** Retries *)

Fixpoint backoffs (n : nat) (backoff : Z) : list Z :=
  match n with
  | O => []
  | S n => backoff :: backoffs n (Z.min (max_backoff (retry options)) (backoff * 2))
  end.

Lemma backoffs_length n b : length (backoffs n b) = n.
Proof. revert b. induction n as [|n IH]; intros b; simpl; [done|by rewrite IH]. Qed.

Lemma backoffs_lookup n b i w :
  0 <= b -> 0 <= max_backoff (retry options) -> backoffs n b !! i = Some w ->
  w = if (i =? 0)%nat then b else Z.min (max_backoff (retry options)) (b * 2 ^ Z.of_nat i).
Proof.
  intros Hb Hm. revert b i Hb. induction n as [|n IH]; intros b i Hb H; [done|].
  destruct i as [|i]; [by injection H|]. cbn [backoffs lookup list_lookup] in H.
  apply IH in H; [|lia]. subst w. cbn [Nat.eqb].
  rewrite Nat2Z.inj_succ, Z.pow_succ_r by lia.
  assert (1 <= 2 ^ Z.of_nat i) by (pose proof (Z.pow_pos_nonneg 2 (Z.of_nat i)); lia).
  destruct i as [|i]; cbn [Nat.eqb].
  - change (2 ^ Z.of_nat 0) with 1. by replace (b * (2 * 1)) with (b * 2) by ring.
  - set (p := 2 ^ Z.of_nat (S i)) in *. nia.
Qed.

Lemma connect_attempts_waits attempts attempt b envs t t' tr waits r :
  attempt <= attempts ->
  connect_attempts edge_id endpoint options attempts attempt b envs t = (t', tr, waits, r) ->
  exists n, waits = backoffs n b /\ Z.of_nat n <= attempts - attempt
    /\ (Z.of_nat (length envs) > attempts - attempt -> r <> None).
Proof.
  revert attempt b t tr waits. induction envs as [|env envs IH];
    intros attempt b t tr waits Hle H; cbn [connect_attempts] in H.
  { injection H as <- <- <- <-. exists 0%nat. simpl. split_and!; [done|lia|lia]. }
  destruct (stopped env).
  { injection H as <- <- <- <-. exists 0%nat. split_and!; [done|lia|done]. }
  destruct (try_connect edge_id endpoint env t) as [[t1 tr1] [[]|e]].
  { injection H as <- <- <- <-. exists 0%nat. split_and!; [done|lia|done]. }
  destruct (Z.eqb_spec attempt attempts) as [Hlast|Hlast].
  { injection H as <- <- <- <-. exists 0%nat. split_and!; [done|lia|done]. }
  destruct (stopped_in_backoff env).
  { injection H as <- <- <- <-. exists 1%nat. split_and!; [done|lia|done]. }
  destruct (connect_attempts _ _ _ _ _ _ _ _) as [[[t2 tr2] w2] r2] eqn:E2.
  injection H as <- <- <- <-. apply IH in E2 as (n & -> & Hn & Hr); [|lia].
  exists (S n). split_and!; [done|lia|]. intros Hl. apply Hr. simpl in Hl. lia.
Qed.

(** C36: Connecting always ends: with an outcome for each of the at most
    [max(1, max_attempts)] attempts it returns or throws; between attempts it
    waits [initial_backoff] first and then twice as long each time, never more
    than [max_backoff]. *)
Theorem connect_bounded envs t t' tr waits r :
  0 <= initial_backoff (retry options) -> 0 <= max_backoff (retry options) ->
  connect_outbound edge_id endpoint options envs t = (t', tr, waits, r) ->
  Z.of_nat (length waits) < Z.max 1 (max_attempts (retry options))
  /\ (Z.max 1 (max_attempts (retry options)) <= Z.of_nat (length envs) -> r <> None)
  /\ forall i w, waits !! i = Some w ->
       w = if (i =? 0)%nat then initial_backoff (retry options)
           else Z.min (max_backoff (retry options))
                  (initial_backoff (retry options) * 2 ^ Z.of_nat i).
Proof.
  intros Hi Hm H. apply connect_attempts_waits in H as (n & -> & Hn & Hr); [|lia].
  rewrite backoffs_length. split_and!; [lia|intros; apply Hr; lia|].
  intros i w Hw. by eapply backoffs_lookup.
Qed.

(** ** Receiving *)

Definition carries (events : list read_event) (ms : list A) : Prop :=
  exists frames, Forall2 UnixSocketProofs.framed_as ms frames /\ Forall codec_wf ms
    /\ UnixSocketProofs.delivers (map translate events) (concat frames).

(** A listener that serves one peer after another *)
Definition serving (t : transport) : Prop :=
  closed t = false /\ outbound t = false /\ listener t = true /\ reconnect options = true.

Lemma tcp_receive_framed_message events m ms t :
  carries events (m :: ms) ->
  exists events', receive_framed edge_id endpoint options false false events t
      = (with_socket (Some events') t, Return (Ok (message m)))
    /\ carries events' ms.
Proof.
  intros (frames & HF & Hwf & Hd). inversion HF as [|? f ? fs (w & Hw & Hf) HF']; subst.
  inversion Hwf; subst. pose proof (frame_prefix _ _ Hf) as (Hl & Hp & Hdrop).
  assert (Hsplit : f = take 4 f ++ w) by (by rewrite <-Hdrop, take_drop).
  cbn [concat] in Hd. rewrite Hsplit, <-app_assoc in Hd.
  destruct (delivers_read 4 events (take 4 f) (w ++ concat fs)) as (ev & Hr & Hd1);
    [done|rewrite length_take; lia|].
  destruct (delivers_read (length w) ev w (concat fs)) as (ev' & Hr' & Hd2); [done..|].
  exists ev'. unfold receive_framed. rewrite Hr, Hp, Nat2Z.id, Hr'.
  rewrite (decode_encode m w) by done. split; [done|]. by exists fs.
Qed.

Lemma receive_framed_end events t :
  carries events [] -> serving t ->
  exists t', receive_framed edge_id endpoint options false false events t
    = (t', Continue (A := A)) /\ serving t' /\ socket t' = None.
Proof.
  intros (frames & HF & _ & Hd) (Hc & Ho & Hl & Hr). inversion HF; subst.
  destruct (delivers_short 4 events []) as (ev & E); [done|simpl; lia|].
  unfold receive_framed. rewrite E. cbn -[carries]. rewrite Ho, Hr.
  eexists. split; [done|]. by split_and!.
Qed.

(** The peers that will connect, and all their messages *)
Inductive peers : list accept_env -> list A -> Prop :=
| peers_nil : peers [] []
| peers_cons events ms envs ms' :
    carries events ms -> peers envs ms' ->
    peers ({| accept_once := accepted events None; closed_accept := false |} :: envs) (ms ++ ms').

Definition pending (t : transport) (envs : list accept_env) (ms : list A) : Prop :=
  match socket t with
  | None => peers envs ms
  | Some events => exists now later, ms = now ++ later /\ carries events now /\ peers envs later
  end.

Lemma receive_accept_next envs m ms t :
  serving t -> peers envs (m :: ms) ->
  exists t' envs', receive_accept edge_id endpoint options false false envs t
      = (t', Some (Ok (message m)), envs') /\ serving t' /\ pending t' envs' ms.
Proof.
  revert t. induction envs as [|env envs IH]; intros t Ht Hp; [by inversion Hp|].
  inversion Hp as [|events now ? later Hnow Hlater Henv Hms]; subst.
  destruct Ht as (Hc & Ho & Hl & Hr). cbn [receive_accept]. rewrite Hc, Hl. cbn [negb].
  unfold accept_inbound. rewrite Hc, Hl. cbn [negb orb accept_once closed_accept].
  set (t1 := mark_connected (new_connection events t)).
  assert (Ht1 : serving t1) by done.
  destruct now as [|m1 now].
  - destruct (receive_framed_end events t1 Hnow Ht1) as (t' & E & Ht' & _). rewrite E.
    simpl in Hms. subst later. by apply IH.
  - injection Hms as -> <-. destruct (tcp_receive_framed_message events m now t1 Hnow) as (ev & E & Hc').
    rewrite E. do 2 eexists. split; [done|]. split; [done|]. by exists now, later.
Qed.

Lemma receive_next envs m ms t :
  serving t -> pending t envs (m :: ms) ->
  exists t' envs', receive_result edge_id endpoint options false false envs t
      = (t', Some (Ok (message m)), envs') /\ serving t' /\ pending t' envs' ms.
Proof.
  intros Ht Hp. unfold receive_result. rewrite (proj1 Ht). unfold pending in Hp.
  destruct (socket t) as [events|]; [|by apply receive_accept_next].
  destruct Hp as (now & later & Hms & Hnow & Hlater). destruct now as [|m1 now].
  - destruct (receive_framed_end events t Hnow Ht) as (t' & E & Ht' & _). rewrite E.
    simpl in Hms. subst later. by apply receive_accept_next.
  - injection Hms as <- ->. destruct (tcp_receive_framed_message events m now t Hnow) as (ev & E & Hc').
    rewrite E. do 2 eexists. split; [done|]. split; [exact Ht|]. by exists now, later.
Qed.

Fixpoint receive_many (n : nat) (envs : list accept_env) (t : transport)
    : list (option (result (ReceiveStatus A))) :=
  match n with
  | O => []
  | S n => let '(t, r, envs) := receive_result edge_id endpoint options false false envs t in
           r :: receive_many n envs t
  end.

(** A listener with [reconnect] delivers the messages of all its peers in
    order, one after another, across disconnections, peers that leave without
    a word and every way the kernel or TLS splits the bytes. *)
Theorem receive_across_connections envs ms t :
  serving t -> socket t = None -> peers envs ms ->
  receive_many (length ms) envs t = map (fun m => Some (Ok (message m))) ms.
Proof.
  intros Ht Hs Hp. assert (Hpend : pending t envs ms) by (unfold pending; by rewrite Hs).
  clear Hs Hp. revert envs t Ht Hpend. induction ms as [|m ms IH]; intros envs t Ht Hp; [done|].
  destruct (receive_next envs m ms t Ht Hp) as (t' & envs' & E & Ht' & Hp').
  cbn [length receive_many map]. rewrite E. f_equal. by apply IH.
Qed.

End Messages.
End Properties.

(** ** Witnesses *)

Definition sample_endpoint : Endpoint := {| host := "peer"; port := 9000 |}.
Definition sample_options : TcpOptions :=
  {| retry := {| max_attempts := 3; initial_backoff := 100; max_backoff := 150 |};
     reconnect := true |}.
Definition fresh (is_outbound : bool) : transport :=
  {| socket := None; listener := negb is_outbound; closed := false; ever_connected := false;
     outbound := is_outbound; connections := 0; writes := [] |}.
Definition attempt_ok (outcome : string + list read_event) : attempt_env :=
  {| stopped := false; connect_once := outcome; closed_after_connect := false;
     tls_failure := None; closed_after_tls := false; stopped_in_backoff := false |}.

(** The first connection breaks after two bytes; the second takes the frame. *)
Definition sends : list send_env :=
  [ {| connect_env := [attempt_ok (inl "refused"); attempt_ok (inr [])];
       write_events := [sent 1; send_failed "broken pipe"];
       pressured := false; observer_failure := None |};
    {| connect_env := [attempt_ok (inr [])]; write_events := [sent 3; send_again; sent 9];
       pressured := true; observer_failure := None |} ].
Definition framed : list byte := [x00; x00; x00; x05; x00; x00; x00; x01; x2a].
Definition after : transport :=
  (Tcp.send "edge" sample_endpoint sample_options sends [x2a] (fresh true)).1.1.

Lemma send_exactly_once_witness :
  exists failed, Forall (torn framed) failed
    /\ writes after = [] ++ failed ++ [(connections after, framed)].
Proof.
  apply (send_exactly_once "edge" sample_endpoint sample_options sends [x2a] [x00; x00; x00; x01; x2a]
    framed (fresh true) after
    (Tcp.send "edge" sample_endpoint sample_options sends [x2a] (fresh true)).1.2 (Ok tt));
    [reflexivity..|repeat constructor|vm_compute; reflexivity].
Defined.

Definition retries : list attempt_env :=
  [attempt_ok (inl "refused"); attempt_ok (inl "refused"); attempt_ok (inl "refused")].

Lemma connect_bounded_witness :
  2 < 3 /\ (3 <= 3 -> Some (@Throw unit (RuntimeError EmptyString)) <> None)
  /\ forall i w, [100; 150] !! i = Some w ->
       w = if (i =? 0)%nat then 100 else Z.min 150 (100 * 2 ^ Z.of_nat i).
Proof.
  destruct (connect_bounded "edge" sample_endpoint sample_options retries (fresh true)
    (connect_outbound "edge" sample_endpoint sample_options retries (fresh true)).1.1.1
    (connect_outbound "edge" sample_endpoint sample_options retries (fresh true)).1.1.2
    [100; 150]
    (connect_outbound "edge" sample_endpoint sample_options retries (fresh true)).2)
    as (H1 & _ & H3); [simpl; lia|simpl; lia|vm_compute; reflexivity|].
  split_and!; [exact H1|done|exact H3].
Defined.

(** Two peers: a silent one and one that sends a message over TLS. *)
Definition arrivals : list accept_env :=
  [ {| accept_once := accepted [recv_eof] None; closed_accept := false |};
    {| accept_once := accepted [ssl_want_read; ssl_chunk x00 [x00; x00; x05; x00];
                                ssl_chunk x00 [x00; x01; x2a]; ssl_zero_return] None;
       closed_accept := false |} ].

Lemma receive_across_connections_witness :
  receive_many "edge" sample_endpoint sample_options 1 arrivals (fresh false)
  = [Some (Ok (message [x2a]))].
Proof.
  apply (receive_across_connections "edge" sample_endpoint sample_options arrivals [[x2a]]
    (fresh false)).
  - by split_and!.
  - reflexivity.
  - apply (peers_cons [recv_eof] []).
    { exists []. split_and!; [constructor..|]. apply UnixSocketProofs.delivers_eof. }
    apply (peers_cons _ [[x2a]] [] []); [|constructor].
    exists [framed]. split_and!.
    + constructor; [|constructor]. exists [x00; x00; x00; x01; x2a]. by split.
    + constructor; [vm_compute; discriminate|constructor].
    + apply UnixSocketProofs.delivers_again,
        (UnixSocketProofs.delivers_chunk x00 [x00; x00; x05; x00]),
        (UnixSocketProofs.delivers_chunk x00 [x00; x01; x2a]), UnixSocketProofs.delivers_eof.
Defined.

(** The sink throws when the frame is on the wire of the first connection. *)
Definition duplicating (observer : option string) : send_env :=
  {| connect_env := [attempt_ok (inr [])]; write_events := [sent 8]; pressured := false; observer_failure := observer |}.
Definition duplicated : transport * list trace * option (result unit) :=
  Tcp.send "edge" sample_endpoint sample_options [duplicating (Some "sink"); duplicating None] [x2a] (fresh true).

Lemma throwing_observer_duplicates_witness :
  exists c c', (c < c')%nat /\ writes duplicated.1.1 = [] ++ [(c, framed); (c', framed)].
Proof.
  destruct (throwing_observer_duplicates "edge" sample_endpoint sample_options (duplicating (Some "sink")) (duplicating None) []
    [x2a] [x00; x00; x00; x01; x2a] framed "sink" (fresh true) duplicated.1.1 duplicated.1.2 (Ok tt)) as (c & c' & H);
    [reflexivity..|right; split; reflexivity|vm_compute; reflexivity|vm_compute; reflexivity|].
  exists c, c'. exact H.
Defined.

End TcpProofs.
