(* ===== verification/ConfigValue.v ===== *)
(** * Configuration values (src/include/graphx/config_value.hpp,
    src/src/config_document.cpp)

    The variant every configuration stage works on, its accessors with their
    exceptions, the JSON writer, the merge of defaults and the VITA checks.  A
    [std::map] is a list in increasing key order; [double] is the specification
    float of the Standard Library.  [sha256] (OpenSSL) and [to_chars] (the
    shortest decimal form of a double) are parameters. *)

From Stdlib Require Import ZArith Lia Strings.Byte Strings.Ascii Strings.String Floats.SpecFloat.
From stdpp Require Import base strings list.
From S2P Require Import Prelude.

Module ConfigValue.
Local Open Scope Z_scope.

Inductive Value :=
| VNull
| VBool (b : bool)
| VInt (z : Z)
| VReal (f : spec_float)
| VStr (s : string)
| VArr (l : list Value)
| VObj (l : list (string * Value)).

Abbreviation Object := (list (string * Value)).
Abbreviation Array := (list Value).

(** Conversion of an [int64_t] to [double] *)
Definition double_of_Z (z : Z) : spec_float := binary_normalize 53 1024 z 0 false.

(** ** Objects: maps with ordered string keys *)

Fixpoint find_key (k : string) (l : Object) : option Value :=
  match l with
  | [] => None
  | (k', v) :: l => if String.eqb k k' then Some v else find_key k l
  end.

Fixpoint set_key (k : string) (v : Value) (l : Object) : Object :=
  match l with
  | [] => [(k, v)]
  | (k', v') :: l =>
      match String.compare k k' with
      | Eq => (k, v) :: l
      | Lt => (k, v) :: (k', v') :: l
      | Gt => (k', v') :: set_key k v l
      end
  end.

Fixpoint erase_key (k : string) (l : Object) : Object :=
  match l with
  | [] => []
  | (k', v') :: l => if String.eqb k k' then l else (k', v') :: erase_key k l
  end.

(** An object literal [Object{{k, v}, ...}]: the first of equal keys wins. *)
Definition object_of (l : Object) : Object :=
  fold_left (fun acc kv => match find_key kv.1 acc with
                           | Some _ => acc | None => set_key kv.1 kv.2 acc end) l [].

(** ** Accessors *)

Definition is_object (v : Value) : bool := match v with VObj _ => true | _ => false end.
Definition is_array (v : Value) : bool := match v with VArr _ => true | _ => false end.
Definition is_string (v : Value) : bool := match v with VStr _ => true | _ => false end.
Definition is_null (v : Value) : bool := match v with VNull => true | _ => false end.

Definition object (v : Value) : result Object :=
  match v with VObj l => Ok l | _ => Throw BadVariantAccess end.
Definition array (v : Value) : result Array :=
  match v with VArr l => Ok l | _ => Throw BadVariantAccess end.
Definition text (v : Value) : result string :=
  match v with VStr s => Ok s | _ => Throw BadVariantAccess end.
Definition integer (v : Value) : result Z :=
  match v with VInt z => Ok z | _ => Throw BadVariantAccess end.
Definition boolean (v : Value) : result bool :=
  match v with VBool b => Ok b | _ => Throw BadVariantAccess end.

Definition contains (v : Value) (k : string) : bool :=
  match v with VObj l => (match find_key k l with Some _ => true | None => false end) | _ => false end.

Definition object_at (l : Object) (k : string) : result Value :=
  match find_key k l with Some v => Ok v | None => Throw (OutOfRange "map::at") end.

Definition at_ (v : Value) (k : string) : result Value :=
  let* l := object v in object_at l k.

(** [value[key] = item] *)
Definition assign (v : Value) (k : string) (item : Value) : result Value :=
  match v with
  | VNull => Ok (VObj [(k, item)])
  | VObj l => Ok (VObj (set_key k item l))
  | _ => Throw BadVariantAccess
  end.

(** [v.at(k).text()] and the like *)
Definition text_at (v : Value) (k : string) : result string := let* x := at_ v k in text x.
Definition integer_at (v : Value) (k : string) : result Z := let* x := at_ v k in integer x.
Definition boolean_at (v : Value) (k : string) : result bool := let* x := at_ v k in boolean x.
Definition array_at (v : Value) (k : string) : result Array := let* x := at_ v k in array x.
Definition object_field (v : Value) (k : string) : result Object := let* x := at_ v k in object x.

(** [operator==] *)
Fixpoint value_eqb (v w : Value) : bool :=
  match v, w with
  | VNull, VNull => true
  | VBool a, VBool b => Bool.eqb a b
  | VInt a, VInt b => a =? b
  | VReal a, VReal b => SFeqb a b
  | VStr a, VStr b => String.eqb a b
  | VArr a, VArr b =>
      (fix go (a b : list Value) : bool :=
         match a, b with
         | [], [] => true
         | x :: a, y :: b => value_eqb x y && go a b
         | _, _ => false
         end) a b
  | VObj a, VObj b =>
      (fix go (a b : list (string * Value)) : bool :=
         match a, b with
         | [], [] => true
         | (k, x) :: a, (k', y) :: b => String.eqb k k' && value_eqb x y && go a b
         | _, _ => false
         end) a b
  | _, _ => false
  end.

(** [v.at(k) == w] *)
Definition eq_at (v : Value) (k : string) (w : Value) : result bool :=
  let* x := at_ v k in Ok (value_eqb x w).

Definition reject {A} (code path message : string) : result A :=
  Throw (ConfigError code path message).

(** [if (bad) reject(...)] *)
Definition reject_if (bad : bool) (code path message : string) : result unit :=
  if bad then reject code path message else Ok tt.

(** ** The JSON writer *)

Definition quote : ascii := "034".
Definition hex_digits : string := "0123456789abcdef".

Definition hex (n : nat) : ascii :=
  match String.get n hex_digits with Some c => c | None => "0" end.

Definition render_char (c : ascii) (rest : string) : string :=
  if Ascii.eqb c quote || Ascii.eqb c "\" then String "\" (String c rest)
  else if (nat_of_ascii c <? 32)%nat
  then "\u00" +:+ String (hex (nat_of_ascii c / 16)) (String (hex (nat_of_ascii c mod 16)) rest)
  else String c rest.

Fixpoint render_chars (s : string) (rest : string) : string :=
  match s with
  | EmptyString => rest
  | String c s => render_char c (render_chars s rest)
  end.

Definition render_string (s : string) : string :=
  String quote (render_chars s (String quote EmptyString)).

Section Render.
Context (to_chars : spec_float -> string).

Fixpoint spaces (n : nat) : string :=
  match n with O => EmptyString | S n => String " " (spaces n) end.

Definition newline (pretty : bool) (level : nat) : string :=
  if pretty then String "010" (spaces (level * 2)) else EmptyString.

Definition comma (first : bool) : string := if first then EmptyString else ",".

Fixpoint render (pretty : bool) (depth : nat) (v : Value) : result string :=
  match v with
  | VObj l =>
      let* body :=
        (fix go (first : bool) (l : list (string * Value)) : result string :=
           match l with
           | [] => Ok (if first then EmptyString else newline pretty depth)
           | (key, item) :: l =>
               let* s := render pretty (S depth) item in
               let* rest := go false l in
               Ok (comma first +:+ newline pretty (S depth) +:+ render_string key
                   +:+ (if pretty then ": " else ":") +:+ s +:+ rest)
           end) true l in
      Ok ("{" +:+ body +:+ "}")
  | VArr l =>
      let* body :=
        (fix go (first : bool) (l : list Value) : result string :=
           match l with
           | [] => Ok (if first then EmptyString else newline pretty depth)
           | item :: l =>
               let* s := render pretty (S depth) item in
               let* rest := go false l in
               Ok (comma first +:+ newline pretty (S depth) +:+ s +:+ rest)
           end) true l in
      Ok ("[" +:+ body +:+ "]")
  | VStr s => Ok (render_string s)
  | VInt z => Ok (to_string z)
  | VReal f =>
      match f with
      | S754_infinity _ | S754_nan => Throw (InvalidArgument "non-finite configuration value")
      | _ => Ok (to_chars f)
      end
  | VBool b => Ok (if b then "true" else "false")
  | VNull => Ok "null"
  end.

Definition config_value_json (v : Value) (pretty : bool) : result string :=
  let* s := render pretty 0 v in
  Ok (if pretty then s +:+ String "010" EmptyString else s).

End Render.

(** ** Types, defaults and merging *)

Definition matches_type (v : Value) (type : string) : result bool :=
  if String.eqb type "object" then Ok (is_object v)
  else if String.eqb type "array" then Ok (is_array v)
  else if String.eqb type "string" then Ok (is_string v)
  else if String.eqb type "null" then Ok (is_null v)
  else if String.eqb type "boolean" then Ok (match v with VBool _ => true | _ => false end)
  else if String.eqb type "integer" then Ok (match v with VInt _ => true | _ => false end)
  else if String.eqb type "number"
  then Ok (match v with VInt _ | VReal _ => true | _ => false end)
  else Throw (LogicError "unknown embedded schema type").

Fixpoint merged (defaults explicit_values : Value) {struct explicit_values} : result Value :=
  match explicit_values with
  | VObj l =>
      (fix go (defaults : Value) (l : list (string * Value)) : result Value :=
         match l with
         | [] => Ok defaults
         | (key, value) :: l =>
             let* item :=
               match at_ defaults key, value with
               | Ok (VObj d), VObj _ => merged (VObj d) value
               | _, _ => Ok value
               end in
             let* defaults := assign defaults key item in
             go defaults l
         end) defaults l
  | _ => Throw BadVariantAccess
  end.

Definition string_or (v : Value) (k fallback : string) : result string :=
  if contains v k then text_at v k else Ok fallback.
Definition integer_or (v : Value) (k : string) (fallback : Z) : result Z :=
  if contains v k then integer_at v k else Ok fallback.
Definition bool_or (v : Value) (k : string) (fallback : bool) : result bool :=
  if contains v k then boolean_at v k else Ok fallback.

(** ** Names of kernel resources *)

Section Names.
Context (sha256 : string -> string).

Definition resource_prefix (kind : string) : ascii :=
  if String.eqb kind "bridge" then "b"
  else if String.eqb kind "interface" then "i"
  else if String.eqb kind "peer" then "p"
  else if String.eqb kind "namespace" then "n"
  else "t".

Definition resource_name (graph kind id : string) : string :=
  let key := graph +:+ String "000" (kind +:+ String "000" id) in
  "gx" +:+ String (resource_prefix kind) EmptyString +:+ String.substring 0 12 (sha256 key).

End Names.

(** ** VITA processing parameters *)

Definition vita_channel (parameters : Object) (path : string) (i : Z) : result unit :=
  let value key := let* v := object_at parameters key in integer v in
  let suffix := to_string i in
  let* rate := value ("rate" +:+ suffix) in
  let* num := value ("bin_width_numerator_hz" +:+ suffix) in
  let* den := value ("bin_width_denominator" +:+ suffix) in
  let* _ := reject_if ((rate <? 1000) || (2000000 <? rate) || (num <? 1) || (2000000 <? num)
                       || (den <? 1) || (2048 <? den))
              "E_PARAMETER" path "sample rate or bin-width rational outside bounds" in
  let count := Z.quot (rate * den) num in
  let* _ := reject_if (negb (Z.rem (rate * den) num =? 0) || (count <? 64) || (2048 <? count)
                       || negb (Z.land count (count - 1) =? 0))
              "E_PARAMETER" path "bin width must equal Fs/N for power-of-two N from 64 to 2048" in
  let* bandwidth := value ("bandwidth" +:+ suffix) in
  let* _ := reject_if (rate <? bandwidth) "E_PARAMETER" path "bandwidth exceeds sample rate" in
  let* mtu := value "path_mtu" in
  reject_if (mtu <? 132 + Z.quot count 4 + 4 * count + 28)
    "E_PARAMETER" path "FFT result exceeds path MTU".

Definition validate_vita_processing (parameters : Object) (path : string) : result unit :=
  let* overlap := (let* v := object_at parameters "overlap_percent" in integer v) in
  let* _ := reject_if (negb (overlap =? 0) && negb (overlap =? 50) && negb (overlap =? 75))
              "E_PARAMETER" path "overlap must be 0, 50 or 75 percent" in
  for_each (vita_channel parameters path) [1; 2; 3; 4].

(** The size of the largest power-spectrum datagram of a processor *)
Definition vita_power_bytes (parameters : Object) : result Z :=
  fold_result (fun i power_bytes =>
      let suffix := to_string i in
      let value key := let* v := object_at parameters (key +:+ suffix) in integer v in
      let* rate := value "rate" in
      let* den := value "bin_width_denominator" in
      let* num := value "bin_width_numerator_hz" in
      let n := Z.quot (rate * den) num in
      Ok (Z.max power_bytes (132 + Z.quot n 4 + 4 * n)))
    [1; 2; 3; 4] 0.

Definition vita_peer (name : string) (power_bytes : Z) (peer : Value) : result unit :=
  let path := "bindings." +:+ name in
  if String.prefix "control" name then
    let* security := at_ peer "security" in
    let* mtls := eq_at security "profile" (VStr "mtls") in
    reject_if (negb mtls) "E_BINDING" path "VITA controller requires mTLS"
  else
    let* settings := at_ peer "settings" in
    let message :=
      "VITA processing requires raw unicast UDP with sufficient datagram budget" in
    let* unicast := eq_at settings "mode" (VStr "unicast") in
    if negb unicast then reject "E_BINDING" path message
    else
      let* raw := eq_at settings "framing" (VStr "none") in
      if negb raw then reject "E_BINDING" path message
      else
        let* maximum := integer_at settings "max_datagram_bytes" in
        reject_if (maximum <? (if String.eqb name "spectra" then power_bytes else 4128))
          "E_BINDING" path message.

Definition validate_vita_bindings (type : string) (bindings parameters : Object) : result unit :=
  if negb (String.eqb type "vita.processor") && negb (String.eqb type "vita.detector") then Ok tt
  else
    let* power_bytes :=
      (if String.eqb type "vita.processor" then vita_power_bytes parameters else Ok 8836) in
    for_each (fun binding =>
        let* peers := array binding.2 in
        for_each (vita_peer binding.1 power_bytes) peers) bindings.

End ConfigValue.
