(* ===== verification/ConfigRender.v ===== *)
(** * The compact JSON text identifies the value

    [config_value_json] without layout is used as an identity: as the key that
    finds duplicate array entries and as the input of digests.  On values
    without reals it is injective.  (A real with an integral value is written
    like the integer, so reals are excluded.) *)

From Stdlib Require Import ZArith Lia Strings.Byte Strings.Ascii Strings.String Floats.SpecFloat.
From stdpp Require Import base strings list pretty.
From S2P Require Import Prelude ConfigValue ConfigValueProofs.

Module ConfigRender.
Import ConfigValue ConfigValueProofs.
Local Open Scope Z_scope.

(** ** Strings *)

Lemma sapp_cons c (a b : string) : String c a +:+ b = String c (a +:+ b).
Proof. done. Qed.
Lemma sapp_empty (a : string) : EmptyString +:+ a = a.
Proof. done. Qed.

Create Rewrite HintDb text_rw.
#[local] Hint Rewrite sapp_cons sapp_empty : text_rw.

Lemma sapp_assoc (a b c : string) : a +:+ (b +:+ c) = (a +:+ b) +:+ c.
Proof. induction a as [|x a IH]; autorewrite with text_rw; [done|by rewrite IH]. Qed.

Lemma sapp_nil (a : string) : a +:+ EmptyString = a.
Proof. induction a as [|x a IH]; autorewrite with text_rw; [done|by rewrite IH]. Qed.

Definition head (s : string) : option ascii :=
  match s with EmptyString => None | String c _ => Some c end.

(** What can follow a value inside a document *)
Definition delimited (rest : string) : Prop :=
  match head rest with None => True | Some c => c = ","%char \/ c = "]"%char \/ c = "}"%char end.

(** ** Quoted strings *)

Lemma hex_inj a b : (a < 16)%nat -> (b < 16)%nat -> hex a = hex b -> a = b.
Proof.
  intros Ha Hb. do 16 (destruct a as [|a]; [do 16 (destruct b as [|b]; [done|]); lia|]). lia.
Qed.

#[local] Opaque Nat.div Nat.modulo.

Definition special (c : ascii) : bool := Ascii.eqb c quote || Ascii.eqb c "\".

Lemma render_char_inj c c' r r' :
  render_char c r = render_char c' r' -> c = c' /\ r = r'.
Proof.
  unfold render_char. fold (special c) (special c'). intros H.
  destruct (special c) eqn:Hs, (special c') eqn:Hs'.
  - by injection H as -> ->.
  - destruct (_ <? 32)%nat; autorewrite with text_rw in H.
    + injection H as -> _. by vm_compute in Hs.
    + injection H as <- _. by vm_compute in Hs'.
  - destruct (_ <? 32)%nat; autorewrite with text_rw in H.
    + injection H as <- _. by vm_compute in Hs'.
    + injection H as -> _. by vm_compute in Hs.
  - destruct (Nat.ltb_spec (nat_of_ascii c) 32) as [Hc|Hc],
      (Nat.ltb_spec (nat_of_ascii c') 32) as [Hc'|Hc']; autorewrite with text_rw in H.
    + injection H as H1 H2 ->. split; [|done].
      apply hex_inj in H1; [|apply Nat.Div0.div_lt_upper_bound; simpl; lia..].
      apply hex_inj in H2; [|apply Nat.mod_upper_bound; lia..].
      rewrite <-(ascii_nat_embedding c), <-(ascii_nat_embedding c'). f_equal.
      rewrite (Nat.div_mod_eq (nat_of_ascii c) 16), (Nat.div_mod_eq (nat_of_ascii c') 16).
      congruence.
    + injection H as <- _. by vm_compute in Hs'.
    + injection H as -> _. by vm_compute in Hs.
    + by injection H as -> ->.
Qed.

Lemma render_char_head c r : head (render_char c r) <> Some quote.
Proof.
  unfold render_char.
  destruct (Ascii.eqb_spec c quote), (Ascii.eqb_spec c "\"); cbn [orb head]; try done.
  destruct (_ <? 32)%nat; autorewrite with text_rw; cbn [head]; first [done|congruence].
Qed.

Lemma render_chars_inj s s' r r' :
  render_chars s (String quote r) = render_chars s' (String quote r') -> s = s' /\ r = r'.
Proof.
  revert s'. induction s as [|c s IH]; intros [|c' s'] H; cbn [render_chars] in H.
  - by injection H as ->.
  - exfalso. apply (render_char_head c' (render_chars s' (String quote r'))). by rewrite <-H.
  - exfalso. apply (render_char_head c (render_chars s (String quote r))). by rewrite H.
  - apply render_char_inj in H as [-> H]. by apply IH in H as [-> ->].
Qed.

Lemma render_chars_app s r t : render_chars s r +:+ t = render_chars s (r +:+ t).
Proof.
  induction s as [|c s IH]; [done|]. cbn [render_chars]. unfold render_char.
  destruct (_ || _); [autorewrite with text_rw; by rewrite IH|].
  destruct (_ <? 32)%nat; autorewrite with text_rw; by rewrite IH.
Qed.

Lemma render_string_inj s s' r r' :
  render_string s +:+ r = render_string s' +:+ r' -> s = s' /\ r = r'.
Proof.
  unfold render_string. rewrite !sapp_cons, !render_chars_app. autorewrite with text_rw. intros H.
  injection H as H. by apply render_chars_inj in H.
Qed.

(** ** Integers *)

Fixpoint all_chars (P : ascii -> Prop) (s : string) : Prop :=
  match s with EmptyString => True | String c s => P c /\ all_chars P s end.

Definition number_char (c : ascii) : Prop :=
  c = "-"%char \/ (48 <= N_of_ascii c <= 57)%N.

Lemma pretty_N_char_number n : (n < 10)%N -> number_char (pretty_N_char n).
Proof.
  intros Hn. right. destruct n as [|p]; [done|].
  do 4 (destruct p as [p|p|]; try (simpl; lia)).
Qed.

Lemma pretty_N_go_number x s : all_chars number_char s -> all_chars number_char (pretty_N_go x s).
Proof.
  revert s. induction (N.lt_wf_0 x) as [x _ IH]. intros s Hs.
  destruct (decide (0 < x)%N) as [Hx|Hx].
  - rewrite pretty_N_go_step by done. apply IH; [by apply N.div_lt|].
    split; [|done]. apply pretty_N_char_number. by apply N.mod_lt.
  - replace x with 0%N by lia. by rewrite pretty_N_go_0.
Qed.

Lemma pretty_N_go_nonempty x s : s <> EmptyString -> pretty_N_go x s <> EmptyString.
Proof.
  revert s. induction (N.lt_wf_0 x) as [x _ IH]. intros s Hs.
  destruct (decide (0 < x)%N) as [Hx|Hx].
  - rewrite pretty_N_go_step by done. apply IH; [by apply N.div_lt|done].
  - replace x with 0%N by lia. by rewrite pretty_N_go_0.
Qed.

Lemma pretty_N_number (n : N) : all_chars number_char (pretty n) /\ pretty n <> EmptyString.
Proof.
  unfold pretty, pretty_N. case_decide as Hn.
  - split; [|done]. split; [|done]. right. vm_compute. split; discriminate.
  - split; [by apply pretty_N_go_number|].
    rewrite pretty_N_go_step by lia. by apply pretty_N_go_nonempty.
Qed.

Lemma to_string_number z : all_chars number_char (to_string z) /\ to_string z <> EmptyString.
Proof.
  unfold to_string, pretty, pretty_Z. destruct z as [|p|p].
  - split; [|done]. split; [|done]. right. vm_compute. split; discriminate.
  - apply pretty_N_number.
  - split; [|done]. split; [by left|]. apply pretty_N_number.
Qed.

Lemma number_char_not c : number_char c -> c <> ","%char /\ c <> "]"%char /\ c <> "}"%char.
Proof.
  intros [->|Hc]; [done|]. split_and!; intros ->; vm_compute in Hc;
    destruct Hc as [H1 H2]; first [by apply H1|by apply H2].
Qed.

Lemma number_prefix a b r r' :
  all_chars number_char a -> all_chars number_char b -> delimited r -> delimited r' ->
  a +:+ r = b +:+ r' -> a = b /\ r = r'.
Proof.
  revert b. induction a as [|c a IH]; intros [|c' b] Ha Hb Hr Hr' H; autorewrite with text_rw in H.
  - done.
  - destruct Hb as [Hc _]. apply number_char_not in Hc. subst r. unfold delimited in Hr.
    simpl in Hr. tauto.
  - destruct Ha as [Hc _]. apply number_char_not in Hc. subst r'. unfold delimited in Hr'.
    simpl in Hr'. tauto.
  - injection H as -> H. destruct Ha as [_ Ha], Hb as [_ Hb].
    by destruct (IH b Ha Hb Hr Hr' H) as [-> ->].
Qed.

Lemma to_string_prefix z z' r r' :
  delimited r -> delimited r' -> to_string z +:+ r = to_string z' +:+ r' -> z = z' /\ r = r'.
Proof.
  intros Hr Hr' H. apply number_prefix in H as [H ->]; [|apply to_string_number..|done|done].
  split; [|done]. unfold to_string in H. by apply (inj pretty) in H.
Qed.

(** ** Values *)

Fixpoint no_reals (v : Value) : Prop :=
  match v with
  | VReal _ => False
  | VArr l => (fix go l := match l with [] => True | v :: l => no_reals v /\ go l end) l
  | VObj l => (fix go l := match l with [] => True | (_, v) :: l => no_reals v /\ go l end) l
  | _ => True
  end.

Lemma no_reals_arr l : no_reals (VArr l) <-> Forall no_reals l.
Proof.
  cbn [no_reals]. induction l as [|v l IH]; [split; [constructor|done]|].
  rewrite Forall_cons, IH. done.
Qed.

Lemma no_reals_obj l : no_reals (VObj l) <-> Forall (fun kv => no_reals kv.2) l.
Proof.
  cbn [no_reals]. induction l as [|[k v] l IH]; [split; [constructor|done]|].
  rewrite Forall_cons, IH. done.
Qed.

Section Writer.
Context (to_chars : spec_float -> string).

(** The compact text, as a total function on values without reals *)
Fixpoint compact (v : Value) : string :=
  match v with
  | VObj l =>
      "{" +:+ (fix go (first : bool) (l : list (string * Value)) : string :=
                 match l with
                 | [] => "}"
                 | (k, v) :: l => comma first +:+ render_string k +:+ ":" +:+ compact v +:+ go false l
                 end) true l
  | VArr l =>
      "[" +:+ (fix go (first : bool) (l : list Value) : string :=
                 match l with
                 | [] => "]"
                 | v :: l => comma first +:+ compact v +:+ go false l
                 end) true l
  | VStr s => render_string s
  | VInt z => to_string z
  | VReal f => to_chars f
  | VBool b => if b then "true" else "false"
  | VNull => "null"
  end.

Fixpoint items (first : bool) (l : list Value) : string :=
  match l with
  | [] => "]"
  | v :: l => comma first +:+ compact v +:+ items false l
  end.

Fixpoint members (first : bool) (l : list (string * Value)) : string :=
  match l with
  | [] => "}"
  | (k, v) :: l => comma first +:+ render_string k +:+ ":" +:+ compact v +:+ members false l
  end.

Lemma compact_arr l : compact (VArr l) = "[" +:+ items true l.
Proof. reflexivity. Qed.

Lemma compact_obj l : compact (VObj l) = "{" +:+ members true l.
Proof. reflexivity. Qed.

Section Layout.
Context (pretty : bool) (depth : nat).

Fixpoint render_items (first : bool) (l : list Value)
    : result string :=
  match l with
  | [] => Ok (if first then EmptyString else newline pretty depth)
  | item :: l =>
      let* s := render to_chars pretty (S depth) item in
      let* rest := render_items false l in
      Ok (comma first +:+ newline pretty (S depth) +:+ s +:+ rest)
  end.

Fixpoint render_members (first : bool) (l : list (string * Value))
    : result string :=
  match l with
  | [] => Ok (if first then EmptyString else newline pretty depth)
  | (key, item) :: l =>
      let* s := render to_chars pretty (S depth) item in
      let* rest := render_members false l in
      Ok (comma first +:+ newline pretty (S depth) +:+ render_string key
          +:+ (if pretty then ": " else ":") +:+ s +:+ rest)
  end.

Lemma render_arr l :
  render to_chars pretty depth (VArr l)
  = let* body := render_items true l in Ok ("[" +:+ body +:+ "]").
Proof. reflexivity. Qed.

Lemma render_obj l :
  render to_chars pretty depth (VObj l)
  = let* body := render_members true l in Ok ("{" +:+ body +:+ "}").
Proof. reflexivity. Qed.

End Layout.

Lemma render_compact v : no_reals v -> forall depth, render to_chars false depth v = Ok (compact v).
Proof.
  induction v as [| | | | |l IH|l IH] using Value_nested_ind; intros Hn depth; try done.
  - apply no_reals_arr in Hn. rewrite compact_arr, render_arr.
    assert (Hgo : forall first, exists body,
      render_items false depth first l = Ok body /\ body +:+ "]" = items first l).
    { induction l as [|v l IHl]; intros first; [by exists EmptyString; destruct first|].
      inversion IH as [|? ? Hv IH']; subst. inversion Hn as [|? ? Hnv Hn']; subst.
      cbn [items render_items]. rewrite Hv by done. cbn [bind].
      destruct (IHl IH' Hn' false) as (body & -> & <-). cbn [bind]. eexists. split; [done|].
      unfold newline. by rewrite sapp_empty, <-!sapp_assoc. }
    destruct (Hgo true) as (body & -> & <-). done.
  - apply no_reals_obj in Hn. rewrite compact_obj, render_obj.
    assert (Hgo : forall first, exists body,
      render_members false depth first l = Ok body /\ body +:+ "}" = members first l).
    { induction l as [|[k v] l IHl]; intros first; [by exists EmptyString; destruct first|].
      inversion IH as [|? ? Hv IH']; subst. inversion Hn as [|? ? Hnv Hn']; subst.
      cbn [members render_members]. rewrite Hv by done. cbn [bind].
      destruct (IHl IH' Hn' false) as (body & -> & <-). cbn [bind]. eexists. split; [done|].
      unfold newline. by rewrite sapp_empty, <-!sapp_assoc. }
    destruct (Hgo true) as (body & -> & <-). done.
Qed.

(** The first character tells the kind of the value. *)
Definition kind_of (v : Value) (c : ascii) : Prop :=
  match v with
  | VNull => c = "n"%char
  | VBool b => c = if b then "t"%char else "f"%char
  | VInt _ => number_char c
  | VReal _ => False
  | VStr _ => c = quote
  | VArr _ => c = "["%char
  | VObj _ => c = "{"%char
  end.

Lemma compact_head v : no_reals v -> exists c s, compact v = String c s /\ kind_of v c.
Proof.
  destruct v as [|[]|z|f|s|l|l]; intros Hn; try done; try by do 2 eexists.
  destruct (to_string_number z) as [Ha He]. cbn [compact kind_of].
  destruct (to_string z) as [|c s]; [done|]. destruct Ha. by do 2 eexists.
Qed.

Lemma kind_not_close v c : kind_of v c -> c <> ","%char /\ c <> "]"%char /\ c <> "}"%char.
Proof.
  destruct v as [|[]|z|f|s|l|l]; cbn [kind_of]; intros H; try (by subst c); [|done].
  by apply number_char_not.
Qed.

Definition injective_at (v : Value) : Prop :=
  forall w r r', no_reals v -> no_reals w -> delimited r -> delimited r' ->
  compact v +:+ r = compact w +:+ r' -> v = w /\ r = r'.

Lemma delimited_items l r : delimited (items false l +:+ r).
Proof. destruct l; [exact (or_intror (or_introl eq_refl))|exact (or_introl eq_refl)]. Qed.

Lemma delimited_members l r : delimited (members false l +:+ r).
Proof.
  destruct l as [|[]]; [exact (or_intror (or_intror eq_refl))|exact (or_introl eq_refl)].
Qed.

Lemma comma_inj first (a b : string) : comma first +:+ a = comma first +:+ b -> a = b.
Proof. destruct first; [done|]. intros [= H]. exact H. Qed.

Lemma close_not_item first v (c : ascii) r rest :
  no_reals v -> c = "]"%char \/ c = "}"%char ->
  String c r <> comma first +:+ (compact v +:+ rest).
Proof.
  intros Hn Hc H. destruct (compact_head v Hn) as (d & s & Hd & Hk).
  apply kind_not_close in Hk. rewrite Hd in H. destruct first; injection H as -> _.
  - destruct Hc as [->| ->]; tauto.
  - by destruct Hc.
Qed.

Lemma items_inj l l' first r r' :
  Forall injective_at l -> Forall no_reals l -> Forall no_reals l' ->
  items first l +:+ r = items first l' +:+ r' -> l = l' /\ r = r'.
Proof.
  revert l' first. induction l as [|v l IH]; intros [|v' l'] first Hi Hn Hn' H;
    cbn [items] in H; rewrite <-?sapp_assoc in H.
  - injection H as H. exact (conj eq_refl H).
  - inversion Hn'; subst. by apply close_not_item in H; [|done|left].
  - inversion Hn; subst. symmetry in H. by apply close_not_item in H; [|done|left].
  - inversion Hi; inversion Hn; inversion Hn'; subst. apply comma_inj in H.
    match goal with Hv : injective_at v |- _ => apply Hv in H as [-> H] end;
      [|done|done|apply delimited_items..].
    by apply IH in H as [-> ->].
Qed.

Lemma members_inj l l' first r r' :
  Forall (fun kv => injective_at kv.2) l -> Forall (fun kv => no_reals kv.2) l ->
  Forall (fun kv => no_reals kv.2) l' ->
  members first l +:+ r = members first l' +:+ r' -> l = l' /\ r = r'.
Proof.
  revert l' first. induction l as [|[k v] l IH]; intros [|[k' v'] l'] first Hi Hn Hn' H;
    cbn [members] in H; rewrite <-?sapp_assoc in H.
  - injection H as H. exact (conj eq_refl H).
  - destruct first; discriminate H.
  - destruct first; discriminate H.
  - inversion Hi; inversion Hn; inversion Hn'; subst. apply comma_inj in H.
    apply render_string_inj in H as [-> H]. injection H as H.
    match goal with Hv : injective_at _ |- _ => apply Hv in H as [E H] end;
      [|done|done|apply delimited_members..].
    simpl in E. subst v'. by apply IH in H as [-> ->].
Qed.

Lemma same_kind v w c : kind_of v c -> kind_of w c ->
  match v, w with
  | VNull, VNull | VInt _, VInt _ | VStr _, VStr _ | VArr _, VArr _ | VObj _, VObj _ => True
  | VBool a, VBool b => a = b
  | _, _ => False
  end.
Proof.
  assert (Hc : forall c, number_char c -> (c =? "-")%char = true \/ (48 <= N_of_ascii c <= 57)%N)
    by (intros d [->|]; [by left|by right]).
  destruct v as [|[]|z|f|s|l|l], w as [|[]|z'|f'|s'|l'|l']; cbn [kind_of]; intros H1 H2;
    try done; try (subst c); try done;
    try (apply Hc in H1 as [?|[? ?]]; done); try (apply Hc in H2 as [?|[? ?]]; done).
Qed.

Lemma compact_injective v : injective_at v.
Proof.
  induction v as [|b|z|f|s|l IH|l IH] using Value_nested_ind; intros w r r' Hn Hn' Hr Hr' H;
    destruct (compact_head _ Hn) as (c & t & Ht & Hk), (compact_head w Hn') as (c' & t' & Ht' & Hk');
    (assert (c' = c) as -> by (rewrite Ht, Ht' in H; by injection H));
    pose proof (same_kind _ _ _ Hk Hk') as Hs;
    destruct w as [|b'|z'|f'|s'|l'|l']; try done; clear Ht Ht' Hk Hk'.
  - by injection H.
  - simpl in Hs. subst b'. apply String.app_inj in H. by subst.
  - apply to_string_prefix in H as [-> ->]; done.
  - apply render_string_inj in H as [-> ->]. done.
  - rewrite !compact_arr in H. injection H as H. apply no_reals_arr in Hn, Hn'.
    by apply items_inj in H as [-> ->].
  - rewrite !compact_obj in H. injection H as H. apply no_reals_obj in Hn, Hn'.
    by apply members_inj in H as [-> ->].
Qed.

(** Two values without reals that have the same compact text are the same
    value, and the writer produces a text for each of them: a text can stand
    for its value, as a digest's input and as the key that finds duplicate
    array entries. *)
Theorem compact_text_identifies v w :
  no_reals v -> no_reals w ->
  exists s t, config_value_json to_chars v false = Ok s /\ config_value_json to_chars w false = Ok t
    /\ (s = t -> v = w).
Proof.
  intros Hv Hw. exists (compact v), (compact w). unfold config_value_json.
  rewrite !render_compact by done. split_and!; [done..|]. intros H.
  apply (compact_injective v w EmptyString EmptyString); try done. by rewrite !sapp_nil.
Qed.

End Writer.

Lemma compact_text_identifies_witness :
  exists s t,
    config_value_json (fun _ => EmptyString) (VObj [("a", VArr [VInt 1; VStr "x"])]) false = Ok s
    /\ config_value_json (fun _ => EmptyString) (VObj [("a", VArr [VInt 1; VStr "y"])]) false = Ok t
    /\ (s = t -> VObj [("a", VArr [VInt 1; VStr "x"])] = VObj [("a", VArr [VInt 1; VStr "y"])]).
Proof. apply (compact_text_identifies (fun _ => EmptyString)); simpl; tauto. Defined.
End ConfigRender.
