(* ===== verification/ConfigSchema.v ===== *)
(** * Schema validation (validate_shape of src/src/config_document.cpp)

    The subset of JSON Schema the embedded schemas use.  [validate_shape]
    recurses over the schema and follows local references, so it carries fuel;
    running out of it is the exception [StackOverflow], which no [catch] of the
    source intercepts.  [regex_search] is ECMAScript matching of [std::regex]
    (pattern, text), and [to_chars] the decimal form of a double. *)

From Stdlib Require Import ZArith Lia Strings.Byte Strings.Ascii Strings.String Floats.SpecFloat.
From stdpp Require Import base strings list.
From S2P Require Import Prelude ConfigValue.

Module ConfigSchema.
Import ConfigValue.
Local Open Scope Z_scope.

Section Shape.
Context (regex_search : string -> string -> bool) (to_chars : spec_float -> string).

(** [validate_shape] on a part of the value, with a part of the schema *)
Definition validator := Value -> Value -> string -> result unit.

Definition fail_shape (path message : string) : result unit := reject "E_SCHEMA" path message.
Definition fail_if (bad : bool) (path message : string) : result unit :=
  if bad then fail_shape path message else Ok tt.

(** [schema.contains(key)], and then a check of [schema.at(key)] *)
Definition when_contains (schema : Value) (key : string) (check : Value -> result unit)
    : result unit :=
  if contains schema key then let* v := at_ schema key in check v else Ok tt.

Definition resolve_reference (root schema : Value) : result Value :=
  let* reference := text_at schema "$ref" in
  if negb (String.prefix "#/$defs/" reference)
  then Throw (LogicError "nonlocal embedded schema reference")
  else
    let* defs := at_ root "$defs" in
    at_ defs (String.substring 8 (String.length reference - 8) reference).

Definition shape_all_of (validate : validator) (value schema : Value) (path : string)
    : result unit :=
  when_contains schema "allOf" (fun conditions =>
    let* conditions := array conditions in
    for_each (fun condition => validate value condition path) conditions).

Definition shape_condition (validate : validator) (value schema : Value) (path : string)
    : result unit :=
  when_contains schema "if" (fun condition =>
    let* applies :=
      match validate value condition path with
      | Ok _ => Ok true
      | Throw (ConfigError _ _ _) => Ok false
      | Throw e => Throw e
      end in
    if (applies : bool)
    then when_contains schema "then" (fun branch => validate value branch path)
    else when_contains schema "else" (fun branch => validate value branch path)).

Fixpoint any_type (value : Value) (types : list Value) : result bool :=
  match types with
  | [] => Ok false
  | item :: types =>
      let* type := text item in
      let* matches := matches_type value type in
      if (matches : bool) then Ok true else any_type value types
  end.

Definition shape_type (value schema : Value) (path : string) : result unit :=
  when_contains schema "type" (fun type =>
    let* matches :=
      match type with
      | VStr type => matches_type value type
      | _ => let* types := array type in any_type value types
      end in
    fail_if (negb matches) path "incorrect value type").

Definition shape_constant (value schema : Value) (path : string) : result unit :=
  let* _ := when_contains schema "const" (fun constant =>
    fail_if (negb (value_eqb value constant)) path "value does not match required constant") in
  when_contains schema "enum" (fun values =>
    let* values := array values in
    fail_if (negb (existsb (fun v => value_eqb v value) values)) path
      "value is not in the allowed enumeration").

Definition shape_property (validate : validator) (schema : Value) (path key : string)
    (item : Value) : result unit :=
  let* _ := fail_if (128 <? size key) path "property name exceeds 128 bytes" in
  let* _ := when_contains schema "propertyNames" (fun names => validate (VStr key) names path) in
  let child := path +:+ "." +:+ key in
  let* properties := (if contains schema "properties" then at_ schema "properties" else Ok VNull) in
  if contains properties key then let* property := at_ properties key in validate item property child
  else
    when_contains schema "additionalProperties" (fun additional =>
      if is_object additional then validate item additional child
      else let* allowed := boolean additional in fail_if (negb allowed) child "unknown property").

Definition shape_object (validate : validator) (l : Object) (schema : Value) (path : string)
    : result unit :=
  let* _ := when_contains schema "maxProperties" (fun maximum =>
    let* maximum := integer maximum in
    fail_if (u64 maximum <? Z.of_nat (length l)) path "too many properties") in
  let* _ := when_contains schema "required" (fun keys =>
    let* keys := array keys in
    for_each (fun key =>
        let* key := text key in
        fail_if (negb (contains (VObj l) key)) path ("missing required property " +:+ key)) keys) in
  for_each (fun kv => shape_property validate schema path kv.1 kv.2) l.

Fixpoint shape_items (validate : validator) (schema : Value) (path : string) (index : Z)
    (l : list Value) : result unit :=
  match l with
  | [] => Ok tt
  | item :: l =>
      let* _ := when_contains schema "items" (fun items =>
        validate item items (path +:+ "[" +:+ to_string index +:+ "]")) in
      shape_items validate schema path (index + 1) l
  end.

(** The set of texts already met *)
Fixpoint shape_unique (path : string) (seen : list string) (l : list Value) : result unit :=
  match l with
  | [] => Ok tt
  | item :: l =>
      let* text := config_value_json to_chars item false in
      if existsb (String.eqb text) seen then fail_shape path "duplicate array entry"
      else shape_unique path (text :: seen) l
  end.

Definition shape_array (validate : validator) (l : list Value) (schema : Value) (path : string)
    : result unit :=
  let* _ := when_contains schema "maxItems" (fun maximum =>
    let* maximum := integer maximum in
    fail_if (u64 maximum <? Z.of_nat (length l)) path "too many array entries") in
  let* _ := when_contains schema "minItems" (fun minimum =>
    let* minimum := integer minimum in
    fail_if (Z.of_nat (length l) <? u64 minimum) path "too few array entries") in
  let* _ := shape_items validate schema path 0 l in
  let* unique := bool_or schema "uniqueItems" false in
  if (unique : bool) then shape_unique path [] l else Ok tt.

Definition shape_string (s : string) (schema : Value) (path : string) : result unit :=
  let* _ := fail_if (4096 <? size s) path "text exceeds 4096 bytes" in
  let* _ := when_contains schema "minLength" (fun minimum =>
    let* minimum := integer minimum in
    fail_if (size s <? u64 minimum) path "text is too short") in
  let* _ := when_contains schema "maxLength" (fun maximum =>
    let* maximum := integer maximum in
    fail_if (u64 maximum <? size s) path "text is too long") in
  when_contains schema "pattern" (fun pattern =>
    let* pattern := text pattern in
    fail_if (negb (regex_search pattern s)) path "text does not match required pattern").

Definition shape_number (number : spec_float) (schema : Value) (path : string) : result unit :=
  let* _ := when_contains schema "minimum" (fun minimum =>
    let* minimum := integer minimum in
    fail_if (SFltb number (double_of_Z minimum)) path "number is below minimum") in
  when_contains schema "maximum" (fun maximum =>
    let* maximum := integer maximum in
    fail_if (SFltb (double_of_Z maximum) number) path "number is above maximum").

Fixpoint validate_shape (fuel : nat) (root value schema : Value) (path : string) : result unit :=
  match fuel with
  | O => Throw StackOverflow
  | S fuel =>
      let validate := validate_shape fuel root in
      if contains schema "$ref" then
        let* target := resolve_reference root schema in validate value target path
      else
        let* _ := shape_all_of validate value schema path in
        let* _ := shape_condition validate value schema path in
        let* _ := shape_type value schema path in
        let* _ := shape_constant value schema path in
        match value with
        | VObj l => shape_object validate l schema path
        | VArr l => shape_array validate l schema path
        | VStr s => shape_string s schema path
        | VInt z => shape_number (double_of_Z z) schema path
        | VReal f => shape_number f schema path
        | VNull | VBool _ => Ok tt
        end
  end.

End Shape.
End ConfigSchema.

(** * Termination and soundness of schema validation

    [validate_shape] recurses through references; a schema whose references do
    not loop needs only as much fuel as it is deep, and then the answer does
    not depend on the fuel.  Accepted values satisfy what the schema says. *)

From Stdlib Require Import ZArith Lia Strings.Byte Strings.Ascii Strings.String Floats.SpecFloat.
From stdpp Require Import base strings list.
From S2P Require Import Prelude ConfigValue ConfigValueProofs ConfigRender.

Module ConfigSchemaProofs.
Import ConfigValue ConfigValueProofs ConfigRender ConfigSchema.
Local Open Scope Z_scope.

(** ** Sub-schemas and the depth of a schema *)

Definition entry (schema : Value) (key : string) : list Value :=
  match at_ schema key with Ok v => [v] | Throw _ => [] end.

Definition subschemas (schema : Value) : list Value :=
  flat_map (fun v => match v with VArr l => l | _ => [] end) (entry schema "allOf")
  ++ entry schema "if" ++ entry schema "then" ++ entry schema "else"
  ++ entry schema "propertyNames" ++ entry schema "items"
  ++ entry schema "additionalProperties"
  ++ flat_map (fun v => match v with VObj l => map snd l | _ => [] end) (entry schema "properties").

(** The references below [schema] do not go deeper than [n]. *)
Fixpoint bounded (n : nat) (root schema : Value) : bool :=
  match n with
  | O => false
  | S n =>
      if contains schema "$ref"
      then match resolve_reference root schema with
           | Ok target => bounded n root target
           | Throw _ => true
           end
      else forallb (bounded n root) (subschemas schema)
  end.

(** ** Computations that do not overflow *)

Definition safe {A} (r : result A) : Prop := r <> Throw StackOverflow.

Lemma safe_bind {A B} (r : result A) (f : A -> result B) :
  safe r -> (forall a, r = Ok a -> safe (f a)) -> safe (bind r f).
Proof. intros Hr Hf. destruct r as [a|e]; simpl; [by apply Hf|]. intros [= ->]. by apply Hr. Qed.

Lemma safe_for_each {A} (f : A -> result unit) l :
  (forall a, a ∈ l -> safe (f a)) -> safe (for_each f l).
Proof.
  induction l as [|a l IH]; intros Hf; [done|]. cbn [for_each].
  apply safe_bind; [by apply Hf; left|]. intros _ _. apply IH. intros b Hb. by apply Hf; right.
Qed.

Lemma when_contains_eq schema key check :
  when_contains schema key check
  = match at_ schema key with Ok v => check v | Throw _ => Ok tt end.
Proof.
  unfold when_contains. destruct (contains schema key) eqn:E.
  - destruct (contains_at _ _ E) as (v & ->). done.
  - destruct (at_ schema key) eqn:Ea; [|done]. apply at_contains in Ea. congruence.
Qed.

Lemma safe_when schema key check :
  (forall v, at_ schema key = Ok v -> safe (check v)) -> safe (when_contains schema key check).
Proof. intros H. rewrite when_contains_eq. destruct (at_ schema key); [by apply H|done]. Qed.

Lemma safe_at v k : safe (at_ v k).
Proof. destruct v; try done. unfold safe, at_, object_at. simpl. by destruct (find_key k l). Qed.

Lemma safe_fail_if bad path message : safe (fail_if bad path message).
Proof. by destruct bad. Qed.

Lemma safe_matches_type v type : safe (matches_type v type).
Proof. unfold matches_type. repeat (destruct (String.eqb _ _); [done|]). done. Qed.

Ltac safe_step :=
  match goal with
  | |- safe (bind _ _) => apply safe_bind; [|intros ? ?]
  | |- safe (when_contains _ _ _) => apply safe_when; intros ? ?
  | |- safe (fail_if _ _ _) => apply safe_fail_if
  | |- safe (at_ _ _) => apply safe_at
  | |- safe (matches_type _ _) => apply safe_matches_type
  | |- safe (integer ?v) => by destruct v
  | |- safe (array ?v) => by destruct v
  | |- safe (text ?v) => by destruct v
  | |- safe (boolean ?v) => by destruct v
  | |- safe (Ok _) => done
  end.

Section Validators.
Context (regex_search : string -> string -> bool) (to_chars : spec_float -> string).

Lemma safe_resolve root schema : safe (resolve_reference root schema).
Proof.
  unfold resolve_reference, text_at. repeat safe_step. destruct (negb _); [done|].
  repeat safe_step.
Qed.

Lemma safe_type value schema path : safe (shape_type value schema path).
Proof.
  unfold shape_type. repeat safe_step.
  assert (Hany : forall l, safe (any_type value l)).
  { induction l as [|t l IH]; [done|]. cbn [any_type]. repeat safe_step.
    by match goal with |- safe (if ?b then _ else _) => destruct b end. }
  match goal with |- safe (match ?t with _ => _ end) => destruct t end;
    repeat safe_step; apply Hany.
Qed.

Lemma safe_constant value schema path : safe (shape_constant value schema path).
Proof. unfold shape_constant. repeat safe_step. Qed.

Lemma safe_string s schema path : safe (shape_string regex_search s schema path).
Proof. unfold shape_string. repeat safe_step. Qed.

Lemma safe_number f schema path : safe (shape_number f schema path).
Proof. unfold shape_number. repeat safe_step. Qed.

Lemma safe_render v pretty depth : safe (render to_chars pretty depth v).
Proof.
  revert depth. induction v as [| | |f| |l IH|l IH] using Value_nested_ind; intros depth; try done.
  - by destruct f.
  - rewrite render_arr. apply safe_bind; [|done]. generalize true.
    induction IH as [|v l Hv _ IHl]; intros first; [done|]. cbn [render_items].
    apply safe_bind; [apply Hv|intros ? _]. apply safe_bind; [apply IHl|done].
  - rewrite render_obj. apply safe_bind; [|done]. generalize true.
    induction IH as [|[k v] l Hv _ IHl]; intros first; [done|]. cbn [render_members].
    apply safe_bind; [apply Hv|intros ? _]. apply safe_bind; [apply IHl|done].
Qed.

Lemma safe_unique path seen l : safe (shape_unique to_chars path seen l).
Proof.
  revert seen. induction l as [|v l IH]; intros seen; [done|]. cbn [shape_unique].
  unfold config_value_json. apply safe_bind; [apply safe_bind; [apply safe_render|done]|].
  intros t _. destruct (existsb _ _); [done|apply IH].
Qed.

(** ** A step of the validator depends only on the sub-schemas *)

Section Step.
Context (V W : validator) (schema : Value).
Hypothesis V_safe : forall s v p, s ∈ subschemas schema -> safe (V v s p).
Hypothesis VW : forall s v p, s ∈ subschemas schema -> W v s p = V v s p.

Lemma entry_sub key v :
  key ∈ ["if"; "then"; "else"; "propertyNames"; "items"; "additionalProperties"] ->
  at_ schema key = Ok v -> v ∈ subschemas schema.
Proof.
  intros Hk Hv. unfold subschemas.
  assert (He : v ∈ entry schema key) by (unfold entry; rewrite Hv; left).
  rewrite !elem_of_app. rewrite !elem_of_cons in Hk.
  destruct Hk as [->|[->|[->|[->|[->|[->|Hk]]]]]]; [tauto..|]. by apply not_elem_of_nil in Hk.
Qed.

Lemma all_of_sub l v : at_ schema "allOf" = Ok (VArr l) -> v ∈ l -> v ∈ subschemas schema.
Proof.
  intros Ha Hv. unfold subschemas. apply elem_of_app. left. unfold entry. rewrite Ha. simpl.
  by rewrite app_nil_r.
Qed.

Lemma property_sub l k v :
  at_ schema "properties" = Ok (VObj l) -> find_key k l = Some v -> v ∈ subschemas schema.
Proof.
  intros Ha Hf. unfold subschemas. rewrite !elem_of_app. do 7 right.
  unfold entry. rewrite Ha. simpl. rewrite app_nil_r.
  apply find_key_In in Hf. apply list_elem_of_fmap. by exists (k, v).
Qed.

(** Both facts about a part of the step at once *)
Definition agree {A} (r r' : result A) : Prop := safe r /\ r' = r.

Lemma agree_bind {A B} (r r' : result A) (f f' : A -> result B) :
  agree r r' -> (forall a, r = Ok a -> agree (f a) (f' a)) -> agree (bind r f) (bind r' f').
Proof.
  intros [Hs ->] Hf. destruct r as [a|e]; simpl; [by apply Hf|].
  split; [|done]. intros [= ->]. by apply Hs.
Qed.

Lemma agree_when key check check' :
  (forall v, at_ schema key = Ok v -> agree (check v) (check' v)) ->
  agree (when_contains schema key check) (when_contains schema key check').
Proof. intros H. rewrite !when_contains_eq. destruct (at_ schema key); [by apply H|by split]. Qed.

Lemma agree_same {A} (r : result A) : safe r -> agree r r.
Proof. by split. Qed.

Lemma agree_for_each {A} (f f' : A -> result unit) l :
  (forall a, a ∈ l -> agree (f a) (f' a)) -> agree (for_each f l) (for_each f' l).
Proof.
  induction l as [|a l IH]; intros Hf; [by split|]. cbn [for_each].
  apply agree_bind; [by apply Hf; left|]. intros _ _. apply IH. intros b Hb. by apply Hf; right.
Qed.

Lemma agree_sub s v p : s ∈ subschemas schema -> agree (V v s p) (W v s p).
Proof. intros Hs. split; [by apply V_safe|by apply VW]. Qed.

Lemma agree_all_of value path :
  agree (shape_all_of V value schema path) (shape_all_of W value schema path).
Proof.
  apply agree_when. intros conditions Hc. apply agree_bind; [apply agree_same; safe_step|].
  intros l Hl. apply agree_for_each. intros c Hin. apply agree_sub.
  destruct conditions; try done. injection Hl as ->. by eapply all_of_sub.
Qed.

Lemma agree_condition value path :
  agree (shape_condition V value schema path) (shape_condition W value schema path).
Proof.
  apply agree_when. intros condition Hc.
  assert (Hs : condition ∈ subschemas schema) by (eapply entry_sub; [|exact Hc]; rewrite !elem_of_cons; tauto).
  apply agree_bind.
  - rewrite (VW _ _ _ Hs). apply agree_same. pose proof (V_safe _ value path Hs) as Hv.
    by destruct (V value condition path) as [|[]].
  - intros [] _; apply agree_when; intros branch Hb; apply agree_sub;
      (eapply entry_sub; [|exact Hb]; rewrite !elem_of_cons; tauto).
Qed.

Lemma agree_property path key item :
  agree (shape_property V schema path key item) (shape_property W schema path key item).
Proof.
  unfold shape_property. apply agree_bind; [apply agree_same; safe_step|intros _ _].
  apply agree_bind.
  { apply agree_when. intros names Hn. apply agree_sub. eapply entry_sub; [|exact Hn]. rewrite !elem_of_cons; tauto. }
  intros _ _. apply agree_bind.
  { apply agree_same. destruct (contains _ _); [apply safe_at|done]. }
  intros properties Hp. destruct (contains properties key) eqn:Hk.
  - apply agree_bind; [apply agree_same, safe_at|]. intros property Hq. apply agree_sub.
    destruct (contains schema "properties") eqn:Hc; [|by injection Hp as <-].
    destruct properties as [| | | | | |l]; try done.
    unfold at_, object_at in Hq. simpl in Hq. destruct (find_key key l) eqn:Hf; [|done].
    injection Hq as ->. by eapply property_sub.
  - apply agree_when. intros additional Ha. destruct (is_object additional) eqn:Ho.
    + apply agree_sub. eapply entry_sub; [|exact Ha]. rewrite !elem_of_cons; tauto.
    + apply agree_same. repeat safe_step.
Qed.

Lemma agree_object path l :
  agree (shape_object V l schema path) (shape_object W l schema path).
Proof.
  unfold shape_object. apply agree_bind; [apply agree_same; repeat safe_step|intros _ _].
  apply agree_bind.
  { apply agree_same. repeat safe_step. apply safe_for_each. intros ? _. repeat safe_step. }
  intros _ _. apply agree_for_each. intros [k v] _. apply agree_property.
Qed.

Lemma agree_array path l :
  agree (shape_array to_chars V l schema path) (shape_array to_chars W l schema path).
Proof.
  unfold shape_array. do 2 (apply agree_bind; [apply agree_same; repeat safe_step|intros _ _]).
  apply agree_bind.
  { generalize 0. induction l as [|v l IH]; intros index; [by split|]. cbn [shape_items].
    apply agree_bind; [|intros _ _; apply IH].
    apply agree_when. intros items Hi. apply agree_sub. eapply entry_sub; [|exact Hi]. rewrite !elem_of_cons; tauto. }
  intros _ _. apply agree_same. unfold bool_or, boolean_at. apply safe_bind.
  { destruct (contains _ _); repeat safe_step. }
  intros [] _; [apply safe_unique|done].
Qed.

End Step.

Lemma validate_agree n root schema :
  bounded n root schema = true ->
  forall fuel value path, (n <= fuel)%nat ->
  agree (validate_shape regex_search to_chars n root value schema path)
        (validate_shape regex_search to_chars fuel root value schema path).
Proof.
  revert schema. induction n as [|n IH]; intros schema Hb fuel value path Hf; [done|].
  destruct fuel as [|fuel]; [lia|]. cbn [validate_shape bounded] in *.
  destruct (contains schema "$ref").
  { apply agree_bind; [apply agree_same, safe_resolve|]. intros target Ht. rewrite Ht in Hb.
    apply IH; [done|lia]. }
  set (V := validate_shape regex_search to_chars n root).
  set (W := validate_shape regex_search to_chars fuel root).
  assert (HV : forall s v p, s ∈ subschemas schema -> agree (V v s p) (W v s p)).
  { intros s v p Hs. apply IH; [|lia]. rewrite forallb_forall in Hb.
    apply Hb. by apply list_elem_of_In. }
  assert (HV1 : forall s v p, s ∈ subschemas schema -> safe (V v s p)) by (intros; by apply HV).
  assert (HV2 : forall s v p, s ∈ subschemas schema -> W v s p = V v s p) by (intros; by apply HV).
  apply agree_bind; [by apply agree_all_of|intros _ _].
  apply agree_bind; [by apply agree_condition|intros _ _].
  apply agree_bind; [apply agree_same, safe_type|intros _ _].
  apply agree_bind; [apply agree_same, safe_constant|intros _ _].
  destruct value; [by split|by split|apply agree_same, safe_number..|apply agree_same, safe_string
    |by apply agree_array|by apply agree_object].
Qed.

(** ** Properties *)

(** Validation terminates: when the references below a schema reach depth
    [n] at most, recursion of depth [n] is enough for every value, deeper
    recursion gives the same answer, and the answer is never an overflow. *)
Theorem validate_shape_terminates n fuel root value schema path :
  bounded n root schema = true -> (n <= fuel)%nat ->
  validate_shape regex_search to_chars fuel root value schema path
    = validate_shape regex_search to_chars n root value schema path
  /\ validate_shape regex_search to_chars fuel root value schema path <> Throw StackOverflow.
Proof.
  intros Hb Hf. destruct (validate_agree n root schema Hb fuel value path Hf) as [Hs ->]. by split.
Qed.

Lemma when_contains_ok schema key check v :
  when_contains schema key check = Ok tt -> at_ schema key = Ok v -> check v = Ok tt.
Proof. rewrite when_contains_eq. intros H Hv. by rewrite Hv in H. Qed.

Lemma fail_if_ok bad path message u : fail_if bad path message = Ok u -> bad = false.
Proof. by destruct bad. Qed.

Lemma validate_shape_parts fuel root value schema path :
  contains schema "$ref" = false ->
  validate_shape regex_search to_chars fuel root value schema path = Ok tt ->
  exists n, fuel = S n /\
    match value with
    | VObj l => shape_object (validate_shape regex_search to_chars n root) l schema path = Ok tt
    | VArr l =>
        shape_array to_chars (validate_shape regex_search to_chars n root) l schema path = Ok tt
    | _ => True
    end.
Proof.
  intros Hr H. destruct fuel as [|n]; [done|]. cbn [validate_shape] in H. rewrite Hr in H.
  apply bind_ok in H as (? & _ & H). apply bind_ok in H as (? & _ & H).
  apply bind_ok in H as (? & _ & H). apply bind_ok in H as (? & _ & H).
  exists n. by destruct value.
Qed.

(** An accepted object has every required key, keys of at most 128 bytes,
    under each declared key a value that its schema accepts, and, when
    additional properties are forbidden, no undeclared key. *)
Theorem accepted_object fuel root l schema path :
  contains schema "$ref" = false ->
  validate_shape regex_search to_chars fuel root (VObj l) schema path = Ok tt ->
  (forall keys key, at_ schema "required" = Ok (VArr keys) -> VStr key ∈ keys ->
     exists v, find_key key l = Some v)
  /\ (forall key item, (key, item) ∈ l ->
       size key <= 128
       /\ (forall properties property, at_ schema "properties" = Ok properties ->
            at_ properties key = Ok property ->
            validate_shape regex_search to_chars (fuel - 1) root item property
              (path +:+ "." +:+ key) = Ok tt)
       /\ (at_ schema "additionalProperties" = Ok (VBool false) ->
            exists properties, at_ schema "properties" = Ok properties
                               /\ contains properties key = true)).
Proof.
  intros Hr H. destruct (validate_shape_parts _ _ _ _ _ Hr H) as (n & -> & Ho).
  rewrite Nat.sub_1_r. cbn [Nat.pred]. unfold shape_object in Ho.
  apply bind_ok in Ho as (? & _ & Ho). apply bind_ok in Ho as ([] & Hreq & Ho). split.
  - intros keys key Hk Hin. eapply when_contains_ok in Hreq; [|exact Hk]. cbn [bind array] in Hreq.
    apply for_each_ok with (a := VStr key) in Hreq; [|done]. cbn [bind text] in Hreq.
    apply fail_if_ok in Hreq. simpl in Hreq. destruct (find_key key l); [eauto|done].
  - intros key item Hin. apply for_each_ok with (a := (key, item)) in Ho; [|done].
    unfold shape_property in Ho. cbn [fst snd] in Ho.
    apply bind_ok in Ho as (? & Hsz%fail_if_ok & Ho). apply Z.ltb_ge in Hsz.
    apply bind_ok in Ho as (? & _ & Ho). apply bind_ok in Ho as (properties & Hp & Ho).
    split; [done|]. split.
    + intros properties' property Hat Hq. rewrite (at_contains _ _ _ Hat), Hat in Hp.
      injection Hp as <-. rewrite (at_contains _ _ _ Hq), Hq in Ho. exact Ho.
    + intros Hadd. destruct (contains properties key) eqn:Hc.
      * destruct (contains schema "properties"); [eauto|by injection Hp as <-].
      * eapply when_contains_ok in Ho; [|exact Hadd]. done.
Qed.

Lemma shape_unique_NoDup path seen l :
  Forall no_reals l ->
  shape_unique to_chars path seen l = Ok tt <->
  NoDup l /\ forall v s, v ∈ l -> config_value_json to_chars v false = Ok s -> s ∉ seen.
Proof.
  intros Hn. revert seen. induction Hn as [|v l Hv Hl IH]; intros seen; cbn [shape_unique].
  { split; [intros _; split; [constructor|by intros ? ? ?%not_elem_of_nil]|done]. }
  destruct (compact_text_identifies to_chars v v Hv Hv) as (s & _ & Es & _ & _).
  rewrite Es. cbn [bind].
  assert (Hseen : existsb (String.eqb s) seen = true <-> s ∈ seen).
  { rewrite existsb_exists. setoid_rewrite String.eqb_eq. setoid_rewrite <-list_elem_of_In.
    split; [by intros (? & ? & ->)|by exists s]. }
  destruct (existsb (String.eqb s) seen) eqn:E.
  - split; [done|]. intros [_ Hnot]. destruct (Hnot v s); [left|done|by apply Hseen].
  - rewrite IH, NoDup_cons. split.
    + intros [Hnd Hnot]. split_and!; [|done|].
      * intros Hin. apply (Hnot v s); [done..|left].
      * intros w t [->|Hw]%elem_of_cons Ht; [|intros Hin; by apply (Hnot w t); [..|right]].
        rewrite Es in Ht. injection Ht as <-. intros Hin%Hseen. congruence.
    + intros [[Hvl Hnd] Hnot]. split; [done|]. intros w t Hw Ht [->|Hin]%elem_of_cons.
      * rewrite Forall_forall in Hl.
        destruct (compact_text_identifies to_chars v w Hv (Hl _ Hw)) as (s1 & s2 & E1 & E2 & Heq).
        apply Hvl. rewrite Es in E1. rewrite Ht in E2. injection E1 as <-. injection E2 as <-.
        by rewrite Heq.
      * by apply (Hnot w t); [right|..].
Qed.

(** An accepted array satisfies its bounds, and under [uniqueItems] its
    entries are pairwise different values, although the code compares only
    their texts. *)
Theorem accepted_array fuel root l schema path :
  contains schema "$ref" = false ->
  validate_shape regex_search to_chars fuel root (VArr l) schema path = Ok tt ->
  (forall maximum, at_ schema "maxItems" = Ok (VInt maximum) ->
     Z.of_nat (length l) <= u64 maximum)
  /\ (forall minimum, at_ schema "minItems" = Ok (VInt minimum) ->
     u64 minimum <= Z.of_nat (length l))
  /\ (at_ schema "uniqueItems" = Ok (VBool true) -> Forall no_reals l -> NoDup l).
Proof.
  intros Hr H. destruct (validate_shape_parts _ _ _ _ _ Hr H) as (n & -> & Ha).
  unfold shape_array in Ha. apply bind_ok in Ha as ([] & Hmax & Ha).
  apply bind_ok in Ha as ([] & Hmin & Ha). apply bind_ok in Ha as ([] & _ & Ha).
  apply bind_ok in Ha as (unique & Hu & Ha). split_and!.
  - intros maximum Hm. eapply when_contains_ok in Hmax; [|exact Hm].
    by apply fail_if_ok, Z.ltb_ge in Hmax.
  - intros minimum Hm. eapply when_contains_ok in Hmin; [|exact Hm].
    by apply fail_if_ok, Z.ltb_ge in Hmin.
  - intros Hat Hn. unfold bool_or, boolean_at in Hu. rewrite (at_contains _ _ _ Hat), Hat in Hu.
    injection Hu as <-. by apply shape_unique_NoDup in Ha as [? _].
Qed.

End Validators.

(** ** Witnesses, on the schema of the catalog lock *)

Definition text_schema : Value :=
  VObj [("maxLength", VInt 4096); ("minLength", VInt 1); ("type", VStr "string")].

Definition lock_schema : Value :=
  VObj
    [("additionalProperties", VBool false);
     ("properties", VObj
        [("binary_identity_status", text_schema);
         ("design_only", VObj [("type", VStr "boolean")]);
         ("files", VObj
            [("items", VObj
                [("additionalProperties", VBool false);
                 ("properties", VObj
                    [("path", text_schema);
                     ("sha256", VObj [("pattern", VStr "^[a-f0-9]{64}$"); ("type", VStr "string")])]);
                 ("required", VArr [VStr "path"; VStr "sha256"]);
                 ("type", VStr "object")]);
             ("maxItems", VInt 1024); ("minItems", VInt 1);
             ("type", VStr "array"); ("uniqueItems", VBool true)]);
         ("revision", text_schema);
         ("version", VObj [("const", VInt 1)])]);
     ("required", VArr [VStr "version"; VStr "revision"; VStr "design_only";
                        VStr "binary_identity_status"; VStr "files"]);
     ("type", VStr "object")].

Definition lock_files : list Value :=
  [VObj [("path", VStr "platform.json"); ("sha256", VStr "00")];
   VObj [("path", VStr "wire-schemas.json"); ("sha256", VStr "01")]].

Definition lock : Object :=
  [("binary_identity_status", VStr "pinned"); ("design_only", VBool false);
   ("files", VArr lock_files); ("revision", VStr "r1"); ("version", VInt 1)].

(** Placeholders of the two parameters: a matcher that accepts everything, and
    texts of reals, of which the sample has none. *)
Definition any_match (pattern s : string) : bool := true.
Definition no_text (f : spec_float) : string := EmptyString.

Lemma validate_shape_terminates_witness :
  validate_shape any_match no_text 9 lock_schema (VObj lock) lock_schema "catalog"
    = validate_shape any_match no_text 4 lock_schema (VObj lock) lock_schema "catalog"
  /\ validate_shape any_match no_text 9 lock_schema (VObj lock) lock_schema "catalog"
     <> Throw StackOverflow.
Proof. apply (validate_shape_terminates any_match no_text 4 9); [reflexivity|lia]. Defined.

Lemma accepted_object_witness : exists v, find_key "revision" lock = Some v.
Proof.
  destruct (accepted_object any_match no_text 4 lock_schema lock lock_schema "catalog") as [H _];
    [reflexivity|vm_compute; reflexivity|].
  apply (H [VStr "version"; VStr "revision"; VStr "design_only";
            VStr "binary_identity_status"; VStr "files"]); [reflexivity|].
  rewrite !elem_of_cons. auto.
Defined.

Lemma accepted_array_witness : NoDup lock_files.
Proof.
  destruct (accepted_array any_match no_text 3 lock_schema lock_files
    (match at_ lock_schema "properties" with
     | Ok p => match at_ p "files" with Ok s => s | _ => VNull end | _ => VNull end) "files")
    as (_ & _ & H); [reflexivity|vm_compute; reflexivity|].
  apply H; [reflexivity|]. repeat constructor.
Defined.

End ConfigSchemaProofs.
