(* ===== verification/ConfigNetwork.v ===== *)
(** * The network section of a graph (src/src/config_v3.cpp)

    IPv4 addresses and prefixes, the consistency checks of the authored network
    ([validate_network]), the generated names and attachments
    ([network_value]) and the addresses of graphs without one
    ([portable_value]).  [inet_pton] yields the address in host order;
    [to_chars] and [sha256] are the parameters of the value module. *)

From Stdlib Require Import ZArith Lia Strings.Byte Strings.Ascii Strings.String Floats.SpecFloat.
From stdpp Require Import base gmap strings list.
From S2P Require Import Prelude ConfigValue.

Module ConfigNetwork.
Import ConfigValue.
Local Open Scope Z_scope.

(** ** Iteration with checks that may throw *)

(** [std::ranges::any_of], which stops at the first hit *)
Fixpoint any_result {A} (p : A -> result bool) (l : list A) : result bool :=
  match l with
  | [] => Ok false
  | a :: l => let* b := p a in if (b : bool) then Ok true else any_result p l
  end.

(** [std::ranges::find_if] *)
Fixpoint find_result {A} (p : A -> result bool) (l : list A) : result (option A) :=
  match l with
  | [] => Ok None
  | a :: l => let* b := p a in if (b : bool) then Ok (Some a) else find_result p l
  end.

Definition or_result (a : result bool) (b : result bool) : result bool :=
  let* x := a in if (x : bool) then Ok true else b.
Definition and_result (a : result bool) (b : result bool) : result bool :=
  let* x := a in if (x : bool) then b else Ok false.

(** [if (!set.insert(key).second) reject(...)] *)
Definition insert_new (key : string) (set : gset string) (code path message : string)
    : result (gset string) :=
  if decide (key ∈ set) then reject code path message else Ok ({[key]} ∪ set).

Definition member (v : Value) (key : string) (fallback : Value) : Value :=
  match at_ v key with Ok x => x | Throw _ => fallback end.
Definition member_object (v : Value) (key : string) : Value := member v key (VObj []).
Definition entries (v : Value) (key : string) : result Array := array (member v key (VArr [])).

Record Cidr := { address : Z; mask : Z }.
Abbreviation Subnets := (gmap string (list Cidr)).

Section Network.
Context (inet_pton : string -> option Z) (to_chars : spec_float -> string)
  (sha256 : string -> string).

(** ** Addresses *)

Definition ip (text path : string) : result Z :=
  match inet_pton text with
  | Some address => Ok address
  | None => reject "E_ADDRESS" path "a numeric IPv4 address is required"
  end.

Definition is_digit (c : ascii) : bool :=
  (48 <=? Z.of_N (N_of_ascii c)) && (Z.of_N (N_of_ascii c) <=? 57).

Fixpoint all_digits (s : string) : bool :=
  match s with EmptyString => true | String c s => is_digit c && all_digits s end.

(** [std::stoul] of a short text of digits *)
Fixpoint decimal (acc : Z) (s : string) : Z :=
  match s with
  | EmptyString => acc
  | String c s => decimal (acc * 10 + (Z.of_N (N_of_ascii c) - 48)) s
  end.

Definition cidr (value path : string) : result Cidr :=
  match String.index 0 "/" value with
  | None => reject "E_ADDRESS" path "an IPv4 CIDR is required"
  | Some slash =>
      let prefix := String.substring (slash + 1) (String.length value - slash - 1) value in
      let* _ := reject_if ((size prefix =? 0) || (2 <? size prefix) || negb (all_digits prefix))
                  "E_ADDRESS" path "invalid IPv4 prefix" in
      let bits := decimal 0 prefix in
      let* _ := reject_if (32 <? bits) "E_ADDRESS" path "IPv4 prefix exceeds 32" in
      let* a := ip (String.substring 0 slash value) path in
      Ok {| address := a;
            mask := if bits =? 0 then 0 else u32 (Z.shiftl 0xffffffff (32 - bits)) |}
  end.

Definition before_slash (s : string) : string :=
  match String.index 0 "/" s with Some n => String.substring 0 n s | None => s end.

Definition address_of (v : Value) : result string :=
  let* a := text_at v "address" in Ok (before_slash a).

Definition in_subnet (a : Z) (s : Cidr) : bool := Z.land a (mask s) =? address s.

(** ** [validate_network], section by section *)

Definition check_network (n : Value) (subnets : Subnets) : result Subnets :=
  let* id := text_at n "id" in
  let path := "network.networks." +:+ id in
  let* _ := reject_if (bool_decide (is_Some (subnets !! id)))
              "E_NAME_CONFLICT" "network.networks" "duplicate network ID" in
  let* prefixes := array_at n "subnets" in
  let* parsed := map_result (fun prefix =>
      let* prefix := text prefix in
      let* parsed := cidr prefix path in
      let* _ := reject_if (negb (Z.land (address parsed) (mask parsed) =? address parsed))
                  "E_ADDRESS" path "subnet must use its network address" in
      Ok parsed) prefixes in
  let* _ := reject_if (match parsed with [] => true | _ => false end)
              "E_ADDRESS" path "at least one subnet is required" in
  let* _ :=
    (if contains n "gateway" then
       let* gateway := text_at n "gateway" in
       let* gateway := ip gateway (path +:+ ".gateway") in
       reject_if (negb (existsb (in_subnet gateway) parsed))
         "E_ADDRESS" path "gateway is outside subnet"
     else Ok tt) in
  Ok (<[id := parsed]> subnets).

Definition check_switch (sw : Value) (switches : gset string) : result (gset string) :=
  let* id := text_at sw "id" in
  let* switches := insert_new id switches "E_NAME_CONFLICT" "network.switches"
                     "duplicate switch ID" in
  let* ports := array_at sw "ports" in
  let* ids := fold_result (fun p ids =>
      let* id := text_at p "id" in
      insert_new id ids "E_NAME_CONFLICT" "network.switches" "duplicate switch port") ports ∅ in
  let* _ :=
    (if contains sw "mirror" then
       let* mirror := at_ sw "mirror" in
       let* port := text_at mirror "output_port" in
       reject_if (bool_decide (port ∉ ids))
         "E_REFERENCE" "network.switches" "mirror output port is unknown"
     else Ok tt) in
  Ok switches.

(** A mirror whose frames go into a container *)
Definition check_recorder (graph net a : Value) (path : string) : result unit :=
  let* delivery := string_or a "delivery" "host" in
  if negb (String.eqb delivery "container") then Ok tt
  else
    let* owner := text_at a "owner" in
    let* nodes := at_ graph "nodes" in
    let message := "container mirror requires a container vita.recorder owner" in
    let* _ :=
      (if negb (contains nodes owner) then reject "E_NETWORK" path message
       else
         let* node := at_ nodes owner in
         let* recorder := eq_at node "type" (VStr "vita.recorder") in
         if negb recorder then reject "E_NETWORK" path message
         else
           let* execution := at_ node "execution" in
           let* container := eq_at execution "kind" (VStr "container") in
           reject_if (negb container) "E_NETWORK" path message) in
    let* attachments := entries net "attachments" in
    for_each (fun other =>
        let* owner := at_ other "owner" in
        let* same_owner := eq_at a "owner" owner in
        if negb same_owner then Ok tt
        else
          let* id := at_ other "id" in
          let* same := eq_at a "id" id in
          reject_if (negb same) "E_NETWORK" path "recorder may only own its passive attachment")
      attachments.

Definition check_mirror (graph net a : Value) (path : string) : result unit :=
  let* _ := reject_if (negb (contains a "switch") || negb (contains a "port"))
              "E_REFERENCE" path "mirror requires switch and port" in
  let* _ := reject_if (contains a "address" || contains a "routes" || contains a "aliases")
              "E_NETWORK" path "mirror must be unaddressed" in
  check_recorder graph net a path.

(** The key under which addresses conflict *)
Definition address_key (network vlan a : string) : string :=
  network +:+ ":" +:+ vlan +:+ ":" +:+ a.

Definition check_addressed (subnets : Subnets) (a : Value) (path : string)
    (address_keys : gset string) : result (gset string) :=
  let* network :=
    (if negb (contains a "network") then reject "E_REFERENCE" (path +:+ ".network") "unknown network"
     else
       let* network := text_at a "network" in
       let* _ := reject_if (bool_decide (subnets !! network = None))
                   "E_REFERENCE" (path +:+ ".network") "unknown network" in
       Ok network) in
  let* _ := reject_if (negb (contains a "address"))
              "E_ADDRESS" (path +:+ ".address") "attachment address is required" in
  let* text_address := text_at a "address" in
  let* parsed := cidr text_address (path +:+ ".address") in
  let* _ := reject_if (negb (existsb (fun s => in_subnet (address parsed) s && (mask parsed =? mask s))
                               (default [] (subnets !! network))))
              "E_ADDRESS" (path +:+ ".address") "attachment prefix does not match network" in
  let* vlan := config_value_json to_chars (member_object a "vlan") false in
  let* host := address_of a in
  let* address_keys := insert_new (address_key network vlan host) address_keys
                         "E_ADDRESS_CONFLICT" (path +:+ ".address")
                         "duplicate address in segment and VLAN" in
  let* routes := entries a "routes" in
  let* _ := for_each (fun route =>
      let* destination := text_at route "destination" in
      let* _ := cidr destination (path +:+ ".routes") in
      if contains route "via" then
        let* via := text_at route "via" in
        let* _ := ip via (path +:+ ".routes.via") in Ok tt
      else Ok tt) routes in
  Ok address_keys.

(** The state of the first loop over the attachments *)
Record AttachmentState := { ids : gset string; keys : gset string; next_index : Z }.

Definition check_attachment (graph net : Value) (subnets : Subnets) (switches : gset string)
    (a : Value) (s : AttachmentState) : result AttachmentState :=
  let path := "network.attachments[" +:+ to_string (next_index s) +:+ "]" in
  let* id := text_at a "id" in
  let* ids := insert_new id (ids s) "E_NAME_CONFLICT" path "duplicate attachment ID" in
  let* _ :=
    (if contains a "switch" then
       let* sw := text_at a "switch" in
       reject_if (bool_decide (sw ∉ switches)) "E_REFERENCE" (path +:+ ".switch") "unknown switch"
     else Ok tt) in
  let* _ :=
    (if contains a "delivery" then
       let* mirror := eq_at a "kind" (VStr "mirror") in
       reject_if (negb mirror) "E_NETWORK" path "delivery is only valid for mirrors"
     else Ok tt) in
  let* kind := text_at a "kind" in
  let* keys :=
    (if String.eqb kind "mirror" then let* _ := check_mirror graph net a path in Ok (keys s)
     else check_addressed subnets a path (keys s)) in
  Ok {| ids := ids; keys := keys; next_index := next_index s + 1 |}.

(** The second loop: each mirror owns the output port of its bridge. *)
Definition check_mirror_port (net a : Value) : result unit :=
  let* mirror := eq_at a "kind" (VStr "mirror") in
  if negb mirror then Ok tt
  else
    let* switches := entries net "switches" in
    let* attachments := entries net "attachments" in
    let* a_switch := at_ a "switch" in
    let* a_port := at_ a "port" in
    let* a_id := at_ a "id" in
    let* sw := find_result (fun s => eq_at s "id" a_switch) switches in
    let message := "mirror must use the dedicated select-all output port" in
    let* _ :=
      match sw with
      | None => reject "E_NETWORK" "network.attachments" message
      | Some sw =>
          if negb (contains sw "mirror") then reject "E_NETWORK" "network.attachments" message
          else
            let* mirror := at_ sw "mirror" in
            let* output := eq_at mirror "output_port" a_port in
            if negb output then reject "E_NETWORK" "network.attachments" message
            else
              let* all := bool_or mirror "select_all" true in
              reject_if (negb all) "E_NETWORK" "network.attachments" message
      end in
    let* _ := for_each (fun other =>
        let* same := eq_at other "id" a_id in
        if same || negb (contains other "switch") then Ok tt
        else
          let* on_bridge := eq_at other "switch" a_switch in
          if negb on_bridge then Ok tt
          else
            let* conflict := or_result (eq_at other "kind" (VStr "mirror"))
                (if contains other "port" then eq_at other "port" a_port else Ok false) in
            reject_if conflict "E_NETWORK" "network.attachments"
              "mirror output must be exclusive and unique per bridge") attachments in
    let* mtu := integer_or a "mtu" 1500 in
    let* _ := for_each (fun other =>
        if negb (contains other "switch") then Ok tt
        else
          let* on_bridge := eq_at other "switch" a_switch in
          if negb on_bridge then Ok tt
          else
            let* other_mtu := integer_or other "mtu" 1500 in
            reject_if (mtu <? other_mtu) "E_MTU" "network.attachments"
              "mirror MTU is below selected bridge path") attachments in
    let* captures := entries net "captures" in
    for_each (fun capture =>
        let* mine := eq_at capture "attachment" a_id in
        if negb mine then Ok tt
        else
          let* snaplen := integer_or capture "snaplen" 65535 in
          reject_if (snaplen <? mtu + 22) "E_MTU" "network.captures"
            "capture snaplen cannot retain complete Ethernet/VLAN frames") captures.

Definition check_interface (subnets : Subnets) (switches : gset string) (path : string)
    (interface : Value) (interfaces : gset string) : result (gset string) :=
  let* id := text_at interface "id" in
  let* interfaces := insert_new id interfaces "E_NAME_CONFLICT" (path +:+ ".interfaces")
                       "duplicate router interface" in
  let* network := text_at interface "network" in
  let* _ :=
    (if bool_decide (subnets !! network = None)
     then reject "E_REFERENCE" (path +:+ ".interfaces") "unknown interface network or switch"
     else
       let* sw := text_at interface "switch" in
       reject_if (bool_decide (sw ∉ switches)) "E_REFERENCE" (path +:+ ".interfaces")
         "unknown interface network or switch") in
  let* a := text_at interface "address" in
  let* _ := cidr a (path +:+ ".interfaces.address") in
  Ok interfaces.

Definition check_policy (path : string) (policy : Value) (policies : gset string)
    : result (gset string) :=
  let* id := text_at policy "id" in
  let* policies := insert_new id policies "E_NAME_CONFLICT" (path +:+ ".policies")
                     "duplicate policy ID" in
  let* source := text_at policy "source" in
  let* _ := cidr source (path +:+ ".policies.source") in
  let* destination := text_at policy "destination" in
  let* _ := cidr destination (path +:+ ".policies.destination") in
  Ok policies.

Definition check_route (path : string) (interfaces : gset string) (route : Value)
    (routes : gset string) : result (gset string) :=
  let* destination := text_at route "destination" in
  let* _ := cidr destination (path +:+ ".routes.destination") in
  let* routes := insert_new destination routes "E_NAME_CONFLICT" (path +:+ ".routes")
                   "duplicate route destination" in
  let* _ :=
    (if contains route "via" then
       let* via := text_at route "via" in
       let* _ := ip via (path +:+ ".routes.via") in Ok tt
     else Ok tt) in
  let* _ :=
    (if negb (contains route "interface")
     then reject "E_REFERENCE" (path +:+ ".routes.interface") "route requires known interface"
     else
       let* interface := text_at route "interface" in
       reject_if (bool_decide (interface ∉ interfaces)) "E_REFERENCE"
         (path +:+ ".routes.interface") "route requires known interface") in
  Ok routes.

Definition check_router (subnets : Subnets) (switches : gset string) (router : Value)
    (router_ids : gset string) : result (gset string) :=
  let* id := text_at router "id" in
  let path := "network.routers." +:+ id in
  let* router_ids := insert_new id router_ids "E_NAME_CONFLICT" path "duplicate router ID" in
  let* interfaces := array_at router "interfaces" in
  let* interfaces := fold_result (check_interface subnets switches path) interfaces ∅ in
  let* policies := entries router "policies" in
  let* _ := fold_result (check_policy path) policies ∅ in
  let* routes := entries router "routes" in
  let* _ := fold_result (check_route path interfaces) routes ∅ in
  Ok router_ids.

(** The third loop: owners, switch ports and aliases *)
Definition check_alias (attachment : Value) (path : string) (alias : Value)
    (address_keys : gset string) : result (gset string) :=
  let* alias := text alias in
  let* parsed := cidr alias (path +:+ ".aliases") in
  let* network := text_at attachment "network" in
  insert_new (network +:+ ":alias:" +:+ to_string (address parsed)) address_keys
    "E_ADDRESS_CONFLICT" (path +:+ ".aliases") "duplicate alias address".

Definition check_owner (graph : Value) (router_ids switches : gset string) (attachment : Value)
    (s : gset string * gset string) : result (gset string * gset string) :=
  let (ports_used, address_keys) := s in
  let* id := text_at attachment "id" in
  let path := "network.attachments." +:+ id in
  let* owner := text_at attachment "owner" in
  let* nodes := at_ graph "nodes" in
  let* _ := reject_if (negb (contains nodes owner) && bool_decide (owner ∉ router_ids)
                       && bool_decide (owner ∉ switches))
              "E_REFERENCE" (path +:+ ".owner") "unknown attachment owner" in
  let* ports_used :=
    (if contains attachment "port" then
       let* _ := reject_if (negb (contains attachment "switch"))
                   "E_REFERENCE" (path +:+ ".switch") "port requires a switch" in
       let* sw := text_at attachment "switch" in
       let* port := text_at attachment "port" in
       insert_new (sw +:+ "." +:+ port) ports_used "E_NAME_CONFLICT" (path +:+ ".port")
         "switch port already has an attachment"
     else Ok ports_used) in
  let* aliases := entries attachment "aliases" in
  let* address_keys := fold_result (check_alias attachment path) aliases address_keys in
  Ok (ports_used, address_keys).

Definition check_capture (attachment_ids : gset string) (capture : Value)
    (capture_ids : gset string) : result (gset string) :=
  let* id := text_at capture "id" in
  let* capture_ids := insert_new id capture_ids "E_NAME_CONFLICT" "network.captures"
                        "duplicate capture ID" in
  let* attachment := text_at capture "attachment" in
  let* _ := reject_if (bool_decide (attachment ∉ attachment_ids)) "E_REFERENCE" "network.captures"
              "unknown capture attachment" in
  Ok capture_ids.

Definition check_edge_path (graph : Value) (subnets : Subnets)
    (switches router_ids attachment_ids : gset string) (entry : string * Value) : result unit :=
  let (edge, hops) := entry in
  let path := "network.edge_paths." +:+ edge in
  let* connections := at_ graph "connections" in
  let* _ := reject_if (negb (contains connections edge)) "E_REFERENCE" path "unknown connection" in
  let* hops := array hops in
  for_each (fun hop =>
      let* id := text hop in
      let* nodes := at_ graph "nodes" in
      reject_if (negb (contains nodes id) && bool_decide (subnets !! id = None)
                 && bool_decide (id ∉ switches) && bool_decide (id ∉ router_ids)
                 && bool_decide (id ∉ attachment_ids))
        "E_REFERENCE" path "unknown path hop") hops.

Definition validate_network (graph : Value) : result unit :=
  if negb (contains graph "network") then Ok tt
  else
    let* net := at_ graph "network" in
    let* networks := entries net "networks" in
    let* subnets := fold_result check_network networks ∅ in
    let* switch_entries := entries net "switches" in
    let* switches := fold_result check_switch switch_entries ∅ in
    let* attachments := entries net "attachments" in
    let* s := fold_result (check_attachment graph net subnets switches) attachments
                {| ids := ∅; keys := ∅; next_index := 0 |} in
    let* _ := for_each (check_mirror_port net) attachments in
    let* routers := entries net "routers" in
    let* router_ids := fold_result (check_router subnets switches) routers ∅ in
    let* _ := fold_result (check_owner graph router_ids switches) attachments (∅, keys s) in
    let* captures := entries net "captures" in
    let* _ := fold_result (check_capture (ids s)) captures ∅ in
    let* edge_paths := object (member_object net "edge_paths") in
    for_each (check_edge_path graph subnets switches router_ids (ids s)) edge_paths.

(** ** [network_value]: generated names, router attachments, ordering *)

(** Applies [f] to the first element that satisfies [p]; [None] if none does. *)
Fixpoint update_first {A} (p : A -> result bool) (f : A -> result A) (l : list A)
    : result (option (list A)) :=
  match l with
  | [] => Ok None
  | a :: l =>
      let* b := p a in
      if (b : bool) then let* a := f a in Ok (Some (a :: l))
      else
        let* rest := update_first p f l in
        Ok (option_map (cons a) rest)
  end.

Definition name_port (gid id : string) (port : Value) : result Value :=
  let* port_id := text_at port "id" in
  let logical := id +:+ "." +:+ port_id in
  let* port := assign port "interface" (VStr (resource_name sha256 gid "interface" logical)) in
  assign port "peer" (VStr (resource_name sha256 gid "peer" logical)).

Definition name_switch (gid : string) (sw : Value) : result Value :=
  let* id := text_at sw "id" in
  let* sw := assign sw "name" (VStr (resource_name sha256 gid "bridge" id)) in
  let* ports := array_at sw "ports" in
  let* ports := map_result (name_port gid id) ports in
  assign sw "ports" (VArr ports).

(** One interface of a router: its names, and its attachment *)
Definition name_interface (gid id : string) (networks : Array) (interface : Value)
    (attachments : Array) : result (Value * Array) :=
  let* interface_id := text_at interface "id" in
  let logical := id +:+ "." +:+ interface_id in
  let* interface := assign interface "device"
                      (VStr (resource_name sha256 gid "interface" logical)) in
  let* interface := assign interface "peer" (VStr (resource_name sha256 gid "peer" logical)) in
  let* attachment_id := string_or interface "attachment_id" (id +:+ "-" +:+ interface_id) in
  let* network := at_ interface "network" in
  let* a := at_ interface "address" in
  let* device := at_ interface "device" in
  let* peer := at_ interface "peer" in
  let* sw := at_ interface "switch" in
  let attachment := object_of
      [("id", VStr attachment_id); ("kind", VStr "namespace_veth"); ("owner", VStr id);
       ("network", network); ("address", a); ("interface", device); ("peer", peer);
       ("switch", sw)] in
  let* attachment :=
    (if contains interface "port" then
       let* port := at_ interface "port" in Ok (set_key "port" port attachment)
     else Ok attachment) in
  let* netdef := find_result (fun n => eq_at n "id" network) networks in
  match netdef with
  | None => reject "E_REFERENCE" ("network.routers." +:+ id) "unknown network"
  | Some netdef =>
      let* profile := text_at netdef "profile" in
      let* attachment :=
        (if String.prefix "ipvlan" profile then
           let* peer := find_result (fun p =>
               if negb (contains p "network") then Ok false
               else
                 let* same := eq_at p "network" network in
                 Ok (same && contains p "mac")) attachments in
           match peer with
           | Some peer => let* mac := at_ peer "mac" in Ok (set_key "mac" mac attachment)
           | None => Ok attachment
           end
         else Ok attachment) in
      Ok (interface, attachments ++ [VObj attachment])
  end.

Fixpoint name_interfaces (gid id : string) (networks : Array) (interfaces : Array)
    (attachments : Array) : result (Array * Array) :=
  match interfaces with
  | [] => Ok ([], attachments)
  | interface :: interfaces =>
      let* (interface, attachments) := name_interface gid id networks interface attachments in
      let* (interfaces, attachments) := name_interfaces gid id networks interfaces attachments in
      Ok (interface :: interfaces, attachments)
  end.

Definition name_route (id : string) (interfaces : Array) (route : Value) : result Value :=
  let path := "network.routers." +:+ id +:+ ".routes" in
  let* _ := reject_if (negb (contains route "interface")) "E_REFERENCE" path
              "route must select a router interface" in
  let* selected := at_ route "interface" in
  let* found := find_result (fun i => eq_at i "id" selected) interfaces in
  match found with
  | None => reject "E_REFERENCE" path "unknown route interface"
  | Some found => let* device := at_ found "device" in assign route "device" device
  end.

Definition name_router (gid : string) (networks : Array) (router : Value) (attachments : Array)
    : result (Value * Array) :=
  let* id := text_at router "id" in
  let* router := assign router "namespace" (VStr (resource_name sha256 gid "namespace" id)) in
  let* interfaces := array_at router "interfaces" in
  let* (interfaces, attachments) := name_interfaces gid id networks interfaces attachments in
  let* router := assign router "interfaces" (VArr interfaces) in
  let routes := match at_ router "routes" with Ok (VArr l) => l | _ => [] end in
  let* routes := map_result (name_route id interfaces) routes in
  let* router := assign router "routes" (VArr routes) in
  Ok (router, attachments).

Fixpoint name_routers (gid : string) (networks : Array) (routers : Array) (attachments : Array)
    : result (Array * Array) :=
  match routers with
  | [] => Ok ([], attachments)
  | router :: routers =>
      let* (router, attachments) := name_router gid networks router attachments in
      let* (routers, attachments) := name_routers gid networks routers attachments in
      Ok (router :: routers, attachments)
  end.

Definition name_switch_port (a : Value) (port : Value) : result Value :=
  let* interface := at_ a "interface" in
  let* port := assign port "interface" interface in
  if contains a "peer" then let* peer := at_ a "peer" in assign port "peer" peer
  else let* l := object port in Ok (VObj (erase_key "peer" l)).

(** An attachment gets its names and takes over its switch port. *)
Definition name_attachment (graph : Value) (gid : string) (a : Value) (switches : Array)
    : result (Value * Array) :=
  let* kind := text_at a "kind" in
  let* id := text_at a "id" in
  if String.eqb kind "external" then Ok (a, switches)
  else
    let* a :=
      (if negb (contains a "interface")
       then assign a "interface" (VStr (resource_name sha256 gid
              (if String.eqb kind "qemu_tap" then "tap" else "interface") id))
       else Ok a) in
    let* a :=
      (if negb (String.eqb kind "qemu_tap") && negb (contains a "peer")
       then assign a "peer" (VStr (resource_name sha256 gid "peer" id)) else Ok a) in
    let* a :=
      (if String.eqb kind "namespace_veth" then
         let* nodes := at_ graph "nodes" in
         let* owner := text_at a "owner" in
         if contains nodes owner
         then assign a "namespace" (VStr (resource_name sha256 gid "namespace" owner)) else Ok a
       else Ok a) in
    if negb (contains a "port") then Ok (a, switches)
    else
      let* a_switch := at_ a "switch" in
      let* a_port := at_ a "port" in
      let path := "network.attachments." +:+ id in
      let* sw := find_result (fun s => eq_at s "id" a_switch) switches in
      match sw with
      | None => reject "E_REFERENCE" path "unknown switch"
      | Some sw =>
          let* ports := array_at sw "ports" in
          let* ports := update_first (fun p => eq_at p "id" a_port) (name_switch_port a) ports in
          match ports with
          | None => reject "E_REFERENCE" path "unknown switch port"
          | Some ports =>
              let* port := find_result (fun p => eq_at p "id" a_port) ports in
              let* a :=
                match port with
                | Some port =>
                    if contains port "vlan" then let* vlan := at_ port "vlan" in assign a "vlan" vlan
                    else Ok a
                | None => Ok a
                end in
              let* switches := update_first (fun s => eq_at s "id" a_switch)
                                 (fun s => assign s "ports" (VArr ports)) switches in
              Ok (a, default [] switches)
          end
      end.

Fixpoint name_attachments (graph : Value) (gid : string) (attachments switches : Array)
    : result (Array * Array) :=
  match attachments with
  | [] => Ok ([], switches)
  | a :: attachments =>
      let* (a, switches) := name_attachment graph gid a switches in
      let* (attachments, switches) := name_attachments graph gid attachments switches in
      Ok (a :: attachments, switches)
  end.

Definition name_capture (gid : string) (attachments : Array) (capture : Value) : result Value :=
  let* wanted := at_ capture "attachment" in
  let* attachment := find_result (fun a => eq_at a "id" wanted) attachments in
  match attachment with
  | None => reject "E_REFERENCE" "network.captures" "unknown capture attachment"
  | Some _ =>
      let* id := text_at capture "id" in
      assign capture "directory" (VStr ("/var/lib/graphx/captures/" +:+ gid +:+ "/" +:+ id))
  end.

(** Sorting by identifier *)
Fixpoint insert_by_id (kv : string * Value) (l : list (string * Value)) : list (string * Value) :=
  match l with
  | [] => [kv]
  | kv' :: l =>
      match String.compare kv.1 kv'.1 with
      | Gt => kv' :: insert_by_id kv l
      | _ => kv :: kv' :: l
      end
  end.

Definition sort_by_id (l : Array) : result Array :=
  let* keyed := map_result (fun v => let* id := text_at v "id" in Ok (id, v)) l in
  Ok (map snd (fold_right insert_by_id [] keyed)).

Definition management_isolation : Value :=
  VObj (object_of
    [("per_node_network", VBool true); ("ip_forward", VBool false);
     ("application_bind", VStr "selected-data-address");
     ("platform_routes_data", VBool false);
     ("ovs_management_acl",
       VStr "only platform TCP 8080 and UDP 9000; deny node-to-node and forwarding; enforced before release barrier")]).

Definition ensure_key (key : string) (fallback : Value) (v : Value) : result Value :=
  if contains v key then Ok v else assign v key fallback.

Definition network_value (graph : Value) : result Value :=
  let net := member_object graph "network" in
  let* g := at_ graph "graph" in
  let* gid := text_at g "id" in
  let* net := fold_result (fun key net => ensure_key key (VArr []) net)
                ["networks"; "switches"; "routers"; "attachments"; "captures"] net in
  let* net := ensure_key "edge_paths" (VObj []) net in
  let* switches := array_at net "switches" in
  let* switches := map_result (name_switch gid) switches in
  let* networks := array_at net "networks" in
  let* attachments := array_at net "attachments" in
  let* routers := array_at net "routers" in
  let* (routers, attachments) := name_routers gid networks routers attachments in
  let* (attachments, switches) := name_attachments graph gid attachments switches in
  let* captures := array_at net "captures" in
  let* captures := map_result (name_capture gid attachments) captures in
  let* net := assign net "switches" (VArr switches) in
  let* net := assign net "routers" (VArr routers) in
  let* net := assign net "attachments" (VArr attachments) in
  let* net := assign net "captures" (VArr captures) in
  let* net := assign net "management_isolation" management_isolation in
  let* l := object net in
  let* l := map_result (fun kv : string * Value =>
      match kv.2 with
      | VArr items => let* items := sort_by_id items in Ok (kv.1, VArr items)
      | _ => Ok kv
      end) l in
  Ok (VObj l).

(** ** [portable_value] *)

Definition hex_value (c : ascii) : Z :=
  let n := Z.of_N (N_of_ascii c) in
  if (48 <=? n) && (n <=? 57) then n - 48
  else if (97 <=? n) && (n <=? 102) then n - 87
  else n - 55.

(** [std::stoul(text, nullptr, 16)] of hexadecimal digits *)
Fixpoint hexadecimal (acc : Z) (s : string) : Z :=
  match s with
  | EmptyString => acc
  | String c s => hexadecimal (acc * 16 + hex_value c) s
  end.

Definition check_portable (nodes : Value) (subnet : Cidr) (kv : string * Value) (used : gset Z)
    : result (gset Z) :=
  let (id, value) := kv in
  let path := "portable_network.addresses." +:+ id in
  let* _ := reject_if (negb (contains nodes id)) "E_REFERENCE" path "unknown node" in
  let* value := text value in
  let* a := ip value path in
  let* _ := reject_if (negb (Z.land a (mask subnet) =? address subnet) || (a =? address subnet)
                       || (a =? Z.lor (address subnet) (Z.lxor (mask subnet) 0xffffffff)))
              "E_ADDRESS" path "address must be a usable host in subnet" in
  if decide (a ∈ used) then reject "E_ADDRESS_CONFLICT" path "duplicate portable address"
  else Ok ({[a]} ∪ used).

(** The derived addresses: the nodes in order, counting from 10 *)
Fixpoint derive_addresses (prefix : string) (index : Z) (nodes : Object) : result Object :=
  match nodes with
  | [] => Ok []
  | (id, _) :: nodes =>
      let* _ := reject_if (253 <? index) "E_ADDRESS" "portable_network"
                  "derived subnet address capacity exceeded" in
      let* rest := derive_addresses prefix (index + 1) nodes in
      Ok (set_key id (VStr (prefix +:+ to_string index)) rest)
  end.

Definition portable_value (graph : Value) (native : bool) : result Value :=
  if native || contains graph "network" then Ok VNull
  else if contains graph "portable_network" then
    let* portable := at_ graph "portable_network" in
    let* subnet := text_at portable "subnet" in
    let* subnet := cidr subnet "portable_network.subnet" in
    let* _ := reject_if (negb (Z.land (address subnet) (mask subnet) =? address subnet))
                "E_ADDRESS" "portable_network.subnet" "subnet must use network address" in
    let* addresses := object_field portable "addresses" in
    let* nodes := at_ graph "nodes" in
    let* _ := fold_result (check_portable nodes subnet) addresses ∅ in
    Ok portable
  else
    let* g := at_ graph "graph" in
    let* id := text_at g "id" in
    let octet := Z.rem (hexadecimal 0 (String.substring 0 4 (sha256 id))) 128 in
    let prefix := "172.28." +:+ to_string octet +:+ "." in
    let* nodes := object_field graph "nodes" in
    let* addresses := derive_addresses prefix 10 nodes in
    Ok (VObj (object_of [("subnet", VStr (prefix +:+ "0/24")); ("addresses", VObj addresses)])).

End Network.
End ConfigNetwork.
