(* ===== verification/ConfigNetworkProofs.v ===== *)
(** * Correctness of the network section

    Prefixes denote intervals of addresses; addresses of accepted graphs do not
    conflict; the addresses of graphs without a network are usable hosts. *)

From Stdlib Require Import ZArith Lia Strings.Byte Strings.Ascii Strings.String Floats.SpecFloat.
From stdpp Require Import base gmap strings list pretty.
From S2P Require Import Prelude ConfigValue ConfigValueProofs ConfigNetwork.

Module ConfigNetworkProofs.
Import ConfigValue ConfigValueProofs ConfigNetwork.
Local Open Scope Z_scope.

(** ** Masks *)

Definition prefix_mask (k : Z) : Z := 2 ^ 32 - 2 ^ k.

Lemma mask_of_bits bits :
  0 <= bits <= 32 ->
  (if bits =? 0 then 0 else u32 (Z.shiftl 0xffffffff (32 - bits))) = prefix_mask (32 - bits).
Proof.
  intros Hb. unfold prefix_mask. destruct (Z.eqb_spec bits 0) as [->|Hz]; [done|].
  unfold u32. rewrite Z.shiftl_mul_pow2 by lia.
  set (k := 32 - bits). assert (Hk : 0 <= k < 32) by lia.
  assert (Hp : 0 < 2 ^ k < 2 ^ 32)
    by (split; [apply Z.pow_pos_nonneg; lia|apply Z.pow_lt_mono_r; lia]).
  symmetry. apply Z.mod_unique with (2 ^ k - 1); lia.
Qed.

Lemma land_mask a k :
  0 <= a < 2 ^ 32 -> 0 <= k <= 32 -> Z.land a (prefix_mask k) = a / 2 ^ k * 2 ^ k.
Proof.
  intros Ha Hk. unfold prefix_mask.
  replace (2 ^ 32 - 2 ^ k) with (Z.shiftl (Z.ones (32 - k)) k).
  2:{ rewrite Z.shiftl_mul_pow2, Z.ones_equiv by lia. rewrite <-Z.sub_1_r, Z.mul_sub_distr_r.
      rewrite <-Z.pow_add_r by lia. replace (32 - k + k) with 32 by lia. lia. }
  rewrite <-Z.shiftr_div_pow2, <-Z.shiftl_mul_pow2 by lia.
  apply Z.bits_inj'. intros n Hn. rewrite Z.land_spec.
  destruct (Z.ltb_spec n k).
  - rewrite !(Z.shiftl_spec_low _ k n) by done. apply andb_false_r.
  - rewrite !Z.shiftl_spec by lia. rewrite Z.shiftr_spec by lia.
    replace (n - k + k) with n by lia. destruct (Z.ltb_spec n 32).
    + rewrite Z.ones_spec_low by lia. apply andb_true_r.
    + rewrite Z.ones_spec_high by lia. rewrite andb_false_r.
      destruct (Z.eq_dec a 0) as [->|]; [by rewrite Z.bits_0|].
      symmetry. apply Z.bits_above_log2; [lia|].
      apply Z.lt_le_trans with 32; [apply Z.log2_lt_pow2; lia|done].
Qed.

Section Network.
Context (inet_pton : string -> option Z).

(** [inet_pton] yields 32-bit addresses. *)
Hypothesis inet_pton_range : forall s a, inet_pton s = Some a -> 0 <= a < 2 ^ 32.

Lemma ip_ok text path a : ip inet_pton text path = Ok a -> inet_pton text = Some a.
Proof. unfold ip. by destruct (inet_pton text) eqn:E; intros [= ->]. Qed.

Lemma cidr_ok value path c :
  cidr inet_pton value path = Ok c ->
  exists bits, 0 <= bits <= 32 /\ inet_pton (before_slash value) = Some (address c)
    /\ mask c = prefix_mask (32 - bits).
Proof.
  unfold cidr, before_slash. destruct (String.index 0 "/" value) as [n|]; [|done].
  set (prefix := String.substring (n + 1) _ value). intros H.
  apply bind_ok in H as ([] & Hf%reject_if_ok & H).
  apply bind_ok in H as ([] & Hb%reject_if_ok & H).
  apply bind_ok in H as (a & Ha%ip_ok & H). injection H as <-. cbn [address mask].
  reflect_bools. exists (decimal 0 prefix).
  assert (Hd : forall s acc, 0 <= acc -> all_digits s = true -> 0 <= decimal acc s).
  { clear. induction s as [|c s IH]; intros acc Hacc Hs; [done|]. cbn [all_digits decimal] in *.
    reflect_bools. unfold is_digit in *. reflect_bools. apply IH; [lia|done]. }
  assert (0 <= decimal 0 prefix) by (by apply Hd).
  split_and!; [done..|]. apply mask_of_bits. lia.
Qed.

(** An accepted prefix names the interval of addresses that share its
    leading bits: for a network address, membership as the code tests it is
    [address <= a < address + 2^(32-n)]. *)
Theorem cidr_interval value path c :
  cidr inet_pton value path = Ok c -> Z.land (address c) (mask c) = address c ->
  exists bits, 0 <= bits <= 32 /\ inet_pton (before_slash value) = Some (address c)
    /\ forall a, 0 <= a < 2 ^ 32 ->
       in_subnet a c = true <-> address c <= a < address c + 2 ^ (32 - bits).
Proof.
  intros H Hnet. destruct (cidr_ok _ _ _ H) as (bits & Hb & Hp & Hm).
  exists bits. split; [done|]. split; [done|]. intros a Ha. unfold in_subnet. rewrite Z.eqb_eq.
  pose proof (inet_pton_range _ _ Hp) as Hc. rewrite Hm in *.
  rewrite !land_mask in * by lia.
  set (p := 2 ^ (32 - bits)) in *. assert (0 < p) by (apply Z.pow_pos_nonneg; lia).
  pose proof (Z.div_mod a p ltac:(lia)). pose proof (Z.mod_pos_bound a p ltac:(lia)).
  set (q := address c / p) in *. split.
  - intros E. lia.
  - intros [Hlo Hhi]. assert (a / p = q) as -> by (symmetry; apply Z.div_unique with (a - q * p); lia).
    done.
Qed.

End Network.

(** ** Addressed attachments *)

Section Attachments.
Context (inet_pton : string -> option Z) (to_chars : spec_float -> string).

(** The conflict key of an attachment; mirrors have none. *)
Definition key_of (a : Value) : option string :=
  match text_at a "kind", text_at a "network", address_of a,
        config_value_json to_chars (member_object a "vlan") false with
  | Ok kind, Ok network, Ok host, Ok vlan =>
      if String.eqb kind "mirror" then None else Some (address_key network vlan host)
  | _, _, _, _ => None
  end.

Definition keys_of (l : list Value) : list string := omap key_of l.

Lemma insert_new_ok key set code path message set' :
  insert_new key set code path message = Ok set' -> key ∉ set /\ set' = {[key]} ∪ set.
Proof. unfold insert_new. case_decide; [done|]. by intros [= <-]. Qed.

Definition in_network (subnets : Subnets) (a : Value) : Prop :=
  exists network host c s,
    text_at a "network" = Ok network /\ text_at a "address" = Ok host
    /\ cidr inet_pton host EmptyString = Ok c
    /\ s ∈ default [] (subnets !! network) /\ in_subnet (address c) s = true /\ mask c = mask s.

Lemma cidr_path value path path' c :
  cidr inet_pton value path = Ok c -> cidr inet_pton value path' = Ok c.
Proof.
  unfold cidr. destruct (String.index 0 "/" value) as [n|]; [|done]. intros H.
  apply bind_ok in H as ([] & Hf%reject_if_ok & H).
  apply bind_ok in H as ([] & Hb%reject_if_ok & H).
  apply bind_ok in H as (a & Ha%ip_ok & H). rewrite Hf. cbn [reject_if bind]. rewrite Hb.
  cbn [reject_if bind]. unfold ip. rewrite Ha. exact H.
Qed.

Lemma check_addressed_ok subnets a path keys keys' :
  check_addressed inet_pton to_chars subnets a path keys = Ok keys' ->
  text_at a "kind" <> Ok "mirror" ->
  (forall kind, text_at a "kind" = Ok kind ->
     exists key, key_of a = Some key /\ key ∉ keys /\ keys' = {[key]} ∪ keys)
  /\ in_network subnets a.
Proof.
  unfold check_addressed. intros H Hkind.
  apply bind_ok in H as (network & Hnet & H). apply bind_ok in H as ([] & _ & H).
  apply bind_ok in H as (host & Hhost & H). apply bind_ok in H as (c & Hc & H).
  apply bind_ok in H as ([] & Hsub%reject_if_ok & H).
  apply bind_ok in H as (vlan & Hvlan & H). apply bind_ok in H as (addr & Haddr & H).
  apply bind_ok in H as (k & Hk%insert_new_ok & H).
  apply bind_ok in H as (routes & _ & H). apply bind_ok in H as ([] & _ & H). injection H as <-.
  assert (Hnet' : text_at a "network" = Ok network).
  { destruct (contains a "network"); [|done]. cbn [negb] in Hnet.
    apply bind_ok in Hnet as (n & -> & Hn). apply bind_ok in Hn as ([] & _ & Hn).
    by injection Hn as ->. }
  split.
  - intros kind Hki. exists (address_key network vlan addr). split; [|done].
    unfold key_of. rewrite Hki, Hnet', Haddr, Hvlan.
    destruct (String.eqb_spec kind "mirror") as [->|]; done.
  - reflect_bools. apply existsb_exists in Hsub as (s & Hin & Hs). reflect_bools.
    exists network, host, c, s. split_and!; try done.
    + by eapply cidr_path.
    + by apply list_elem_of_In.
Qed.

Lemma check_attachment_keys graph net subnets switches a s s' :
  check_attachment inet_pton to_chars graph net subnets switches a s = Ok s' ->
  match key_of a with
  | Some key => key ∉ keys s /\ keys s' = {[key]} ∪ keys s
  | None => keys s' = keys s
  end
  /\ (text_at a "kind" <> Ok "mirror" -> in_network subnets a)
  /\ (exists id, text_at a "id" = Ok id /\ id ∉ ids s /\ ids s' = {[id]} ∪ ids s).
Proof.
  unfold check_attachment. intros H.
  apply bind_ok in H as (id & Hid & H). apply bind_ok in H as (i & Hi%insert_new_ok & H).
  apply bind_ok in H as ([] & _ & H). apply bind_ok in H as ([] & _ & H).
  apply bind_ok in H as (kind & Hkind & H). apply bind_ok in H as (k & Hk & H). injection H as <-.
  cbn [ids keys]. enough (Hboth : match key_of a with
      | Some key => key ∉ keys s /\ k = {[key]} ∪ keys s | None => k = keys s end
    /\ (text_at a "kind" <> Ok "mirror" -> in_network subnets a))
    by (destruct Hboth; split_and!; [done..|]; by exists id).
  destruct (String.eqb_spec kind "mirror") as [->|Hm].
  - apply bind_ok in Hk as ([] & _ & Hk). injection Hk as <-. split; [|done].
    assert (key_of a = None) as ->; [|done]. unfold key_of. rewrite Hkind.
    by repeat (case_match; try done).
  - apply check_addressed_ok in Hk as [Hk Hn]; [|congruence]. split; [|done].
    destruct (Hk kind Hkind) as (key & -> & Hkey). done.
Qed.

(** In an accepted graph no two attachments of one network and one VLAN
    have the same address, no two attachments have the same identifier, and
    every addressed attachment lies, with its prefix length, in a subnet of
    its network. *)
Theorem addresses_unique graph net attachments :
  validate_network inet_pton to_chars graph = Ok tt ->
  at_ graph "network" = Ok net -> entries net "attachments" = Ok attachments ->
  NoDup (keys_of attachments)
  /\ NoDup (omap (fun a => match text_at a "id" with Ok id => Some id | Throw _ => None end)
              attachments)
  /\ exists subnets : Subnets, forall a, a ∈ attachments -> text_at a "kind" <> Ok "mirror" ->
       in_network subnets a.
Proof.
  intros H Hnet Hatt. unfold validate_network in H.
  destruct (contains graph "network") eqn:Hc; cbn [negb] in H.
  2:{ destruct graph; try done. unfold at_, object_at in Hnet. simpl in Hnet, Hc.
      by destruct (find_key "network" l). }
  rewrite Hnet in H. cbn [bind] in H.
  apply bind_ok in H as (networks & _ & H). apply bind_ok in H as (subnets & _ & H).
  apply bind_ok in H as (sws & _ & H). apply bind_ok in H as (switches & _ & H).
  rewrite Hatt in H. cbn [bind] in H. apply bind_ok in H as (s & Hs & _).
  set (ids_of := omap (fun a => match text_at a "id" with Ok id => Some id | Throw _ => None end)).
  enough (Hinv : (NoDup (keys_of attachments) /\ forall k, k ∈ keys_of attachments <-> k ∈ keys s)
    /\ (NoDup (ids_of attachments) /\ forall k, k ∈ ids_of attachments <-> k ∈ ids s)
    /\ forall a, a ∈ attachments -> text_at a "kind" <> Ok "mirror" -> in_network subnets a).
  { destruct Hinv as ([? _] & [? _] & ?). split_and!; [done..|]. by exists subnets. }
  revert Hs. apply (fold_result_prefix (fun pre s =>
    (NoDup (keys_of pre) /\ forall k, k ∈ keys_of pre <-> k ∈ keys s)
    /\ (NoDup (ids_of pre) /\ forall k, k ∈ ids_of pre <-> k ∈ ids s)
    /\ forall a, a ∈ pre -> text_at a "kind" <> Ok "mirror" -> in_network subnets a)).
  - split_and!; try apply NoDup_nil_2.
    + intros k. cbn. by rewrite elem_of_empty, elem_of_nil.
    + intros k. cbn. by rewrite elem_of_empty, elem_of_nil.
    + by intros a Ha%not_elem_of_nil.
  - intros pre a s1 s2 _ ([Hk Hk'] & [Hi Hi'] & Hn) Hstep.
    apply check_attachment_keys in Hstep as (Hkey & Hnet1 & id & Hid & Hfresh & Hids).
    unfold keys_of, ids_of. rewrite !omap_app. cbn [omap list_omap].
    fold (keys_of pre) (ids_of pre). rewrite Hid. split_and!.
    + destruct (key_of a) as [key|]; [|by rewrite app_nil_r].
      apply NoDup_app. split_and!; [done| |apply NoDup_singleton].
      intros x Hx ->%list_elem_of_singleton. apply Hk' in Hx. tauto.
    + intros k. destruct (key_of a) as [key|].
      * destruct Hkey as [_ ->]. rewrite elem_of_app, list_elem_of_singleton, Hk'. set_solver.
      * by rewrite app_nil_r, Hk', Hkey.
    + apply NoDup_app. split_and!; [done| |apply NoDup_singleton].
      intros x Hx ->%list_elem_of_singleton. apply Hi' in Hx. tauto.
    + intros k. rewrite Hids, elem_of_app, list_elem_of_singleton, Hi'. set_solver.
    + intros b [Hb|Hb%list_elem_of_singleton]%elem_of_app; [by apply Hn|by subst b].
Qed.

End Attachments.

(** ** Graphs without a network *)

Section Portable.
Context (inet_pton : string -> option Z) (sha256 : string -> string).

(** A host of the subnet: neither its network nor its broadcast address *)
Definition usable (subnet : Cidr) (a : Z) : Prop :=
  in_subnet a subnet = true /\ a <> address subnet
  /\ a <> Z.lor (address subnet) (Z.lxor (mask subnet) 0xffffffff).

Definition usable_addresses (subnet : Cidr) (l : Object) : Prop :=
  exists hosts : list Z,
    Forall2 (fun kv a => exists t, kv.2 = VStr t /\ inet_pton t = Some a /\ usable subnet a) l hosts
    /\ NoDup hosts.

Lemma check_portable_usable nodes subnet l used :
  fold_result (check_portable inet_pton nodes subnet) l ∅ = Ok used ->
  usable_addresses subnet l.
Proof.
  intros H.
  enough (Hinv : exists hosts,
    Forall2 (fun (kv : string * Value) a =>
      exists t, kv.2 = VStr t /\ inet_pton t = Some a /\ usable subnet a) l hosts
    /\ NoDup hosts /\ forall a, a ∈ hosts -> a ∈ used)
    by (destruct Hinv as (hosts & ? & ? & _); by exists hosts).
  revert H. apply (fold_result_prefix (fun pre used => exists hosts,
    Forall2 (fun (kv : string * Value) a =>
      exists t, kv.2 = VStr t /\ inet_pton t = Some a /\ usable subnet a) pre hosts
    /\ NoDup hosts /\ forall a, a ∈ hosts -> a ∈ used)).
  - exists []. split; [constructor|]. split; [constructor|]. by intros a Ha%not_elem_of_nil.
  - intros pre [id v] s s' _ (hosts & HF & Hnd & Hin) Hstep. unfold check_portable in Hstep.
    apply bind_ok in Hstep as ([] & _ & H). apply bind_ok in H as (t & Ht & H).
    apply bind_ok in H as (a & Ha%ip_ok & H). apply bind_ok in H as ([] & Hu%reject_if_ok & H).
    case_decide as Hfresh; [done|]. injection H as <-. reflect_bools.
    exists (hosts ++ [a]). split; [|split].
    + apply Forall2_app; [done|]. constructor; [|constructor]. exists t. split.
      * destruct v; try done. by injection Ht as ->.
      * split; [done|]. split_and!; [by apply Z.eqb_eq|done..].
    + apply NoDup_app. split_and!; [done| |apply NoDup_singleton].
      intros x Hx ->%list_elem_of_singleton. auto.
    + intros x [Hx|Hx%list_elem_of_singleton]%elem_of_app; [apply elem_of_union_r; auto|].
      subst. by apply elem_of_union_l, elem_of_singleton.
Qed.

(** [inet_pton] on the dotted form of the derived addresses *)
Hypothesis inet_dotted : forall o i, 0 <= o < 256 -> 0 <= i < 256 ->
  inet_pton ("172.28." +:+ to_string o +:+ "." +:+ to_string i)
  = Some (172 * 2 ^ 24 + 28 * 2 ^ 16 + o * 2 ^ 8 + i).

Definition derived_base (o : Z) : Z := 172 * 2 ^ 24 + 28 * 2 ^ 16 + o * 2 ^ 8.

Definition derived_text_ok (o : Z) : bool :=
  let s := ("172.28." +:+ to_string o +:+ ".") +:+ "0/24" in
  match String.index 0 "/" s with
  | None => false
  | Some n =>
      String.eqb (String.substring (n + 1) (String.length s - n - 1) s) "24"
      && String.eqb (String.substring 0 n s) ("172.28." +:+ to_string o +:+ "." +:+ to_string 0)
  end.

Lemma derived_texts : forallb derived_text_ok (map Z.of_nat (seq 0 128)) = true.
Proof. vm_compute. reflexivity. Qed.

Lemma derived_subnet o path :
  0 <= o < 128 ->
  cidr inet_pton (("172.28." +:+ to_string o +:+ ".") +:+ "0/24") path
  = Ok {| address := derived_base o; mask := prefix_mask 8 |}.
Proof.
  intros Ho. pose proof derived_texts as H. rewrite forallb_forall in H.
  specialize (H o). unfold derived_text_ok in H. unfold cidr.
  destruct (String.index 0 "/" _) as [n|].
  2:{ discriminate H. apply in_map_iff. exists (Z.to_nat o). split; [lia|]. apply in_seq. lia. }
  assert (Hin : In o (map Z.of_nat (seq 0 128))).
  { apply in_map_iff. exists (Z.to_nat o). split; [lia|]. apply in_seq. lia. }
  specialize (H Hin). reflect_bools.
  match goal with E : String.substring (n + 1) _ _ = "24" |- _ => rewrite E end.
  match goal with E : String.substring 0 n _ = _ |- _ => rewrite E end.
  unfold ip. rewrite inet_dotted by lia. unfold derived_base. rewrite Z.add_0_r. reflexivity.
Qed.

Lemma derived_usable o i :
  0 <= o < 128 -> 10 <= i <= 253 ->
  usable {| address := derived_base o; mask := prefix_mask 8 |} (derived_base o + i).
Proof.
  intros Ho Hi. unfold usable, in_subnet. cbn [address mask].
  assert (Hb : derived_base o = (172 * 2 ^ 16 + 28 * 2 ^ 8 + o) * 256)
    by (unfold derived_base; ring).
  set (q := 172 * 2 ^ 16 + 28 * 2 ^ 8 + o) in *. assert (0 <= q < 2 ^ 24) by (subst q; lia).
  rewrite Hb. split_and!.
  - rewrite land_mask by lia. change (2 ^ 8) with 256.
    rewrite Z.div_add_l, (Z.div_small i) by lia. apply Z.eqb_eq. lia.
  - lia.
  - change (Z.lxor (prefix_mask 8) 4294967295) with 255.
    replace (q * 256) with (Z.shiftl q 8) by (rewrite Z.shiftl_mul_pow2; lia).
    rewrite shl8_lor, Z.shiftl_mul_pow2 by lia. lia.
Qed.

Lemma derive_addresses_spec prefix index nodes addresses :
  ordered nodes -> derive_addresses prefix index nodes = Ok addresses ->
  exists hosts, Forall2 (fun kv i => kv.2 = VStr (prefix +:+ to_string i)) addresses hosts
    /\ NoDup hosts /\ Forall (fun i => index <= i <= 253) hosts
    /\ map fst addresses = map fst nodes.
Proof.
  intros Ho. revert index addresses. induction Ho as [|k v nodes Hk Ho IH]; intros index addresses H;
    cbn [derive_addresses] in H.
  { injection H as <-. exists []. split_and!; constructor. }
  apply bind_ok in H as ([] & Hi%reject_if_ok & H). apply Z.ltb_ge in Hi.
  apply bind_ok in H as (rest & Hrest & H). injection H as <-.
  destruct (IH _ _ Hrest) as (hosts & HF & Hnd & Hr & Hfst).
  assert (Hlt : Forall (fun kv : string * Value => key_lt k kv.1) rest).
  { assert (Hm : Forall (key_lt k) (map fst nodes)) by (by apply Forall_fmap).
    rewrite <-Hfst in Hm. apply (proj1 (List.Forall_map _ _ _)) in Hm. exact Hm. }
  assert (Hset : set_key k (VStr (prefix +:+ to_string index)) rest
                 = (k, VStr (prefix +:+ to_string index)) :: rest).
  { destruct rest as [|[q w] rest]; [done|]. inversion Hlt as [|? ? Hq]; subst. cbn [set_key].
    unfold key_lt in Hq. simpl in Hq. by rewrite Hq. }
  rewrite Hset. exists (index :: hosts). split_and!.
  - by constructor.
  - constructor; [|done]. intros Hin. rewrite Forall_forall in Hr. specialize (Hr _ Hin). lia.
  - constructor; [lia|]. eapply Forall_impl; [exact Hr|]. simpl. intros; lia.
  - simpl. by f_equal.
Qed.

(** Whether authored or derived, the addresses of a graph without a managed
    network are pairwise different usable hosts of the subnet it reports, and
    derived ones cover exactly the nodes. *)
Theorem portable_addresses_usable graph p :
  (forall s, 0 <= hexadecimal 0 (String.substring 0 4 (sha256 s))) ->
  well_formed graph ->
  portable_value inet_pton sha256 graph false = Ok p -> p <> VNull ->
  exists subnet_text subnet addresses,
    text_at p "subnet" = Ok subnet_text
    /\ cidr inet_pton subnet_text "portable_network.subnet" = Ok subnet
    /\ object_field p "addresses" = Ok addresses /\ usable_addresses subnet addresses
    /\ (contains graph "portable_network" = false ->
        exists nodes, object_field graph "nodes" = Ok nodes /\ map fst addresses = map fst nodes).
Proof.
  intros Hhex Hwf H Hp. unfold portable_value in H. cbn [orb] in H.
  destruct (contains graph "network"); [by injection H as <-|].
  destruct (contains graph "portable_network").
  - apply bind_ok in H as (q & Hq & H). apply bind_ok in H as (st & Hst & H).
    apply bind_ok in H as (subnet & Hsub & H). apply bind_ok in H as ([] & _ & H).
    apply bind_ok in H as (addresses & Hadd & H). apply bind_ok in H as (nodes & _ & H).
    apply bind_ok in H as (used & Hused%check_portable_usable & H). injection H as <-.
    exists st, subnet, addresses. by split_and!.
  - apply bind_ok in H as (g & _ & H). apply bind_ok in H as (id & _ & H).
    apply bind_ok in H as (nodes & Hnodes & H). apply bind_ok in H as (addresses & Hadd & H).
    injection H as <-. set (o := Z.rem _ 128) in *.
    assert (Ho : 0 <= o < 128).
    { subst o. split; [by apply Z.rem_nonneg|]. by apply Z.rem_bound_pos. }
    assert (Hord : ordered nodes).
    { unfold object_field, at_, object_at in Hnodes. destruct graph as [| | | | | |l]; try done.
      cbn [object bind] in Hnodes. destruct (find_key "nodes" l) as [v|] eqn:E; [|done].
      pose proof (well_formed_find _ _ _ Hwf E) as Hv. destruct v; try done.
      injection Hnodes as ->. by apply well_formed_obj in Hv as [? _]. }
    destruct (derive_addresses_spec _ _ _ _ Hord Hadd) as (hosts & HF & Hnd & Hr & Hfst).
    eexists _, {| address := derived_base o; mask := prefix_mask 8 |}, addresses.
    split; [reflexivity|]. split; [by apply derived_subnet|]. split; [reflexivity|].
    split; [|intros _; by exists nodes].
    exists (map (fun i => derived_base o + i) hosts). split.
    + apply Forall2_fmap_r.
      assert (Hboth : Forall2 (fun (kv : string * Value) i =>
          kv.2 = VStr (("172.28." +:+ to_string o +:+ ".") +:+ to_string i) /\ 10 <= i <= 253)
          addresses hosts).
      { clear -HF Hr. induction HF; [constructor|]. inversion Hr; subst. constructor; auto. }
      eapply Forall2_impl; [exact Hboth|]. intros kv i [Hkv Hi]. eexists. split; [exact Hkv|].
      split; [|by apply derived_usable].
      change (("172.28." +:+ to_string o +:+ ".") +:+ to_string i)
        with ("172.28." +:+ ((to_string o +:+ ".") +:+ to_string i)).
      replace ((to_string o +:+ ".") +:+ to_string i) with (to_string o +:+ "." +:+ to_string i)
        by (generalize (to_string o); intros x; induction x as [|c x IHx]; [done|];
            change (String c x +:+ "." +:+ to_string i) with (String c (x +:+ "." +:+ to_string i));
            by rewrite IHx).
      rewrite inet_dotted by lia. done.
    + apply NoDup_fmap; [|done]. intros x y. lia.
Qed.

End Portable.

(** ** Witnesses

    A concrete [inet_pton]: four decimal octets without leading zeros *)

Fixpoint split_dots (acc : string) (s : string) : list string :=
  match s with
  | EmptyString => [acc]
  | String c s => if Ascii.eqb c "." then acc :: split_dots EmptyString s
                  else split_dots (acc +:+ String c EmptyString) s
  end.

Definition octet (s : string) : option Z :=
  if (0 <? size s) && (size s <=? 3) && all_digits s
     && ((size s =? 1) || negb (String.prefix "0" s)) && (decimal 0 s <=? 255)
  then Some (decimal 0 s) else None.

Definition dotted_quad (s : string) : option Z :=
  match split_dots EmptyString s with
  | [a; b; c; d] =>
      match octet a, octet b, octet c, octet d with
      | Some a, Some b, Some c, Some d => Some (((a * 256 + b) * 256 + c) * 256 + d)
      | _, _, _, _ => None
      end
  | _ => None
  end.

Lemma octet_range s a : octet s = Some a -> 0 <= a <= 255.
Proof.
  unfold octet. destruct (_ && _) eqn:E; [|done]. intros [= <-]. reflect_bools. split; [|done].
  enough (Hd : forall s acc, 0 <= acc -> all_digits s = true -> 0 <= decimal acc s) by (by apply Hd).
  clear. induction s as [|c s IH]; intros acc Hacc Hs; [done|]. cbn [all_digits decimal] in *.
  reflect_bools. unfold is_digit in *. reflect_bools. apply IH; [lia|done].
Qed.

Lemma dotted_quad_range s a : dotted_quad s = Some a -> 0 <= a < 2 ^ 32.
Proof.
  unfold dotted_quad. destruct (split_dots _ s) as [|a1 [|a2 [|a3 [|a4 [|]]]]]; try done.
  destruct (octet a1) eqn:E1, (octet a2) eqn:E2, (octet a3) eqn:E3, (octet a4) eqn:E4; try done.
  apply octet_range in E1, E2, E3, E4. intros [= <-]. lia.
Qed.

Definition dotted_case (o i : Z) : bool :=
  match dotted_quad ("172.28." +:+ to_string o +:+ "." +:+ to_string i) with
  | Some a => a =? 172 * 2 ^ 24 + 28 * 2 ^ 16 + o * 2 ^ 8 + i
  | None => false
  end.

Lemma dotted_cases :
  forallb (fun o => forallb (dotted_case o) (map Z.of_nat (seq 0 256))) (map Z.of_nat (seq 0 256))
  = true.
Proof. vm_compute. reflexivity. Qed.

Lemma dotted_quad_dotted o i : 0 <= o < 256 -> 0 <= i < 256 ->
  dotted_quad ("172.28." +:+ to_string o +:+ "." +:+ to_string i)
  = Some (172 * 2 ^ 24 + 28 * 2 ^ 16 + o * 2 ^ 8 + i).
Proof.
  intros Ho Hi. pose proof dotted_cases as H. rewrite forallb_forall in H.
  assert (Hin : forall z, 0 <= z < 256 -> In z (map Z.of_nat (seq 0 256))).
  { intros z Hz. apply in_map_iff. exists (Z.to_nat z). split; [lia|]. apply in_seq. lia. }
  specialize (H o (Hin o Ho)). rewrite forallb_forall in H. specialize (H i (Hin i Hi)).
  unfold dotted_case in H. destruct (dotted_quad _); [|done]. reflect_bools. by subst.
Qed.

Lemma cidr_interval_witness :
  exists bits, 0 <= bits <= 32 /\ dotted_quad (before_slash "10.1.2.0/24") = Some 167838208
    /\ forall a, 0 <= a < 2 ^ 32 ->
       in_subnet a {| address := 167838208; mask := 4294967040 |} = true
       <-> 167838208 <= a < 167838208 + 2 ^ (32 - bits).
Proof.
  apply (cidr_interval dotted_quad dotted_quad_range "10.1.2.0/24" "path"
    {| address := 167838208; mask := 4294967040 |}); reflexivity.
Defined.

Definition sample_attachment (id host : string) : Value :=
  VObj [("address", VStr host); ("id", VStr id); ("kind", VStr "veth"); ("network", VStr "lan");
        ("owner", VStr "n")].
Definition sample_attachments : list Value :=
  [sample_attachment "a" "10.1.2.3/24"; sample_attachment "b" "10.1.2.4/24"].
Definition sample_network : Value :=
  VObj [("attachments", VArr sample_attachments);
        ("networks", VArr [VObj [("id", VStr "lan"); ("subnets", VArr [VStr "10.1.2.0/24"])]])].
Definition sample_graph : Value :=
  VObj [("connections", VObj []); ("network", sample_network); ("nodes", VObj [("n", VObj [])])].

Lemma addresses_unique_witness :
  NoDup (keys_of (fun _ => EmptyString) sample_attachments)
  /\ NoDup (omap (fun a => match text_at a "id" with Ok id => Some id | Throw _ => None end)
              sample_attachments)
  /\ exists subnets : Subnets, forall a, a ∈ sample_attachments ->
       text_at a "kind" <> Ok "mirror" -> in_network dotted_quad subnets a.
Proof.
  apply (addresses_unique dotted_quad (fun _ => EmptyString) sample_graph sample_network);
    [vm_compute; reflexivity|reflexivity|reflexivity].
Defined.

Definition plain_graph : Value :=
  VObj [("graph", VObj [("id", VStr "g")]); ("nodes", VObj [("m", VObj []); ("n", VObj [])])].
Definition zero_digest (s : string) : string := "0005".

Lemma portable_addresses_usable_witness :
  let p := VObj [("addresses", VObj [("m", VStr "172.28.5.10"); ("n", VStr "172.28.5.11")]);
                 ("subnet", VStr "172.28.5.0/24")] in
  exists subnet_text subnet addresses,
    text_at p "subnet" = Ok subnet_text
    /\ cidr dotted_quad subnet_text "portable_network.subnet" = Ok subnet
    /\ object_field p "addresses" = Ok addresses /\ usable_addresses dotted_quad subnet addresses
    /\ (contains plain_graph "portable_network" = false ->
        exists nodes, object_field plain_graph "nodes" = Ok nodes
                      /\ map fst addresses = map fst nodes).
Proof.
  apply (portable_addresses_usable dotted_quad zero_digest dotted_quad_dotted plain_graph);
    [intros s; vm_compute; discriminate| |vm_compute; reflexivity|discriminate].
  repeat constructor.
Defined.

End ConfigNetworkProofs.
