(* ===== verification/ConfigGraph.v ===== *)
(** * Targets and connections of a graph (src/src/config_v3.cpp)

    [validate_target] checks that a target can realise the authored nodes;
    [connection_values] checks and completes the connections: ports, wire
    schemas, cardinalities, addresses, settings, listeners and cycles.  The
    stages of its long loop body are separate functions, in the order of the
    code, because the first failing check decides the error. *)

From Stdlib Require Import ZArith Lia Strings.Byte Strings.Ascii Strings.String Floats.SpecFloat.
From stdpp Require Import base gmap strings list.
From S2P Require Import Prelude ConfigValue ConfigNetwork.

Module ConfigGraph.
Import ConfigValue ConfigNetwork.
Local Open Scope Z_scope.

(** The parts of [Catalog] that the checks use: types and guests by identifier *)
Record Catalog := { types : Object; guests : Object }.

(** [std::ranges::find(values, v) == values.end()] *)
Definition absent (v : Value) (values : Array) : bool :=
  negb (existsb (fun w => value_eqb w v) values).

Definition empty_object : Value := VObj [].

(** ** [validate_target] *)

Definition execution_fields (kind : string) : result (list string) :=
  if String.eqb kind "container" then Ok ["kind"]
  else if String.eqb kind "native" then Ok ["kind"; "ipc_domain"]
  else if String.eqb kind "namespace" then Ok ["kind"; "namespace"]
  else if String.eqb kind "qemu" then Ok ["kind"; "guest"; "architecture"; "accelerator"]
  else if String.eqb kind "external"
  then Ok ["kind"; "address"; "architecture"; "accelerator"; "attachment_only"]
  else Throw (OutOfRange "map::at").

Definition has_execution (nodes : Object) (kind : string) : result bool :=
  any_result (fun kv : string * Value =>
      let* execution := at_ kv.2 "execution" in eq_at execution "kind" (VStr kind)) nodes.

Definition one_of (s : string) (l : list string) : bool := existsb (String.eqb s) l.

Definition check_guest (guests : Object) (id : string) (node execution : Value) : result unit :=
  let path := "nodes." +:+ id +:+ ".execution" in
  let* ref := string_or execution "guest" EmptyString in
  match find_key ref guests with
  | None => reject "E_GUEST_ARTIFACT" (path +:+ ".guest") "no pinned guest artifact or build recipe"
  | Some guest =>
      let* _ :=
        (let* matches :=
           (if contains execution "architecture" then
              let* architecture := at_ guest "architecture" in
              eq_at execution "architecture" architecture
            else Ok false) in
         reject_if (negb matches) "E_GUEST_ARTIFACT" (path +:+ ".architecture")
           "guest architecture mismatch") in
      let* _ :=
        (let* supported :=
           (if contains execution "accelerator" then
              let* accelerators := array_at guest "accelerators" in
              let* accelerator := at_ execution "accelerator" in
              Ok (negb (absent accelerator accelerators))
            else Ok false) in
         reject_if (negb supported) "E_TARGET_CAPABILITY" (path +:+ ".accelerator")
           "guest accelerator is not supported") in
      let* implements :=
        (if contains guest "application" then
           let* type := at_ node "type" in eq_at guest "application" type
         else Ok false) in
      reject_if (negb implements) "E_GUEST_ARTIFACT" (path +:+ ".guest")
        "guest does not implement the node type"
  end.

Definition check_node_target (catalog : Catalog) (target : string) (kv : string * Value)
    : result unit :=
  let (id, node) := kv in
  let* _ := reject_if (one_of id ["platform"; "prometheus"; "grafana"] || String.prefix "mg-" id)
              "E_NAME_RESERVED" ("nodes." +:+ id) "reserved generated name" in
  let* type_id := text_at node "type" in
  match find_key type_id (types catalog) with
  | None => reject "E_TYPE_UNKNOWN" ("nodes." +:+ id +:+ ".type") "unknown catalog type"
  | Some type =>
      let* execution := at_ node "execution" in
      let* kind := text_at execution "kind" in
      let* l := object execution in
      let* _ := for_each (fun kv : string * Value =>
          let* fields := execution_fields kind in
          reject_if (negb (one_of kv.1 fields)) "E_SCHEMA"
            ("nodes." +:+ id +:+ ".execution." +:+ kv.1)
            "field is not valid for execution kind") l in
      let* kinds := array_at type "execution" in
      let* _ := reject_if (absent (VStr kind) kinds) "E_TARGET_CAPABILITY"
                  ("nodes." +:+ id +:+ ".execution") "type does not support this execution kind" in
      let kind_is k := String.eqb kind k in
      let target_is t := String.eqb target t in
      let* _ := reject_if (kind_is "native" && target_is "orbstack" && contains execution "ipc_domain")
                  "E_IPC_PLACEMENT" "target" "OrbStack cannot realize native process placement" in
      let* _ := reject_if ((kind_is "container" && target_is "native-macos")
                           || (kind_is "native" && target_is "orbstack")
                           || ((kind_is "qemu" || kind_is "namespace")
                               && (target_is "native-macos" || target_is "orbstack")))
                  "E_TARGET_CAPABILITY" "target" "target cannot realize authored placement" in
      if kind_is "qemu" then check_guest (guests catalog) id node execution else Ok tt
  end.

Definition validate_target (graph : Value) (catalog : Catalog) (target : string) : result unit :=
  let* _ := reject_if (negb (one_of target ["native-linux"; "native-macos"; "orbstack"; "lima"]))
              "E_TARGET_CAPABILITY" "target" "unknown execution target" in
  let* _ := reject_if (contains graph "network" && one_of target ["native-macos"; "orbstack"])
              "E_TARGET_CAPABILITY" "target" "managed OVS requires Linux or Lima" in
  let* nodes := object_field graph "nodes" in
  let* mixed := and_result (has_execution nodes "native") (has_execution nodes "container") in
  let* _ := reject_if mixed "E_EXECUTION_MIX" "nodes"
              "native and container applications require separate graphs" in
  for_each (check_node_target catalog target) nodes.

(** ** Endpoints, counters and reachability *)

Definition endpoint (text : string) : string * string :=
  match String.index 0 "." text with
  | Some dot => (String.substring 0 dot text,
                 String.substring (dot + 1) (String.length text - dot - 1) text)
  | None => (text, text)   (* [npos + 1] is 0 *)
  end.

Abbreviation Counts := (gmap string Z).
Definition count_of (counts : Counts) (key : string) : Z := default 0 (counts !! key).
Definition increment (key : string) (counts : Counts) : Counts :=
  <[key := count_of counts key + 1]> counts.

Abbreviation Adjacency := (gmap string (list string)).
Definition successors (adjacency : Adjacency) (node : string) : list string :=
  default [] (adjacency !! node).

(** The recursive lambda of the cycle check with its captured set [seen];
    [None] means that the fuel ran out. *)
Fixpoint reaches (fuel : nat) (adjacency : Adjacency) (from : string) (seen : gset string)
    (node : string) : option (bool * gset string) :=
  match fuel with
  | O => None
  | S fuel =>
      if String.eqb node from then Some (true, seen)
      else if decide (node ∈ seen) then Some (false, seen)
      else
        (fix visit (l : list string) (seen : gset string) : option (bool * gset string) :=
           match l with
           | [] => Some (false, seen)
           | next :: l =>
               match reaches fuel adjacency from seen next with
               | None => None
               | Some (true, seen) => Some (true, seen)
               | Some (false, seen) => visit l seen
               end
           end) (successors adjacency node) ({[node]} ∪ seen)
  end.

Section Connections.
Context (inet_pton : string -> option Z) (graph : Value) (catalog : Catalog)
  (net portable : Value) (native : bool).

(** [catalog.types.at(graph.at("nodes").at(n).at("type").text())] *)
Definition type_of (n : string) : result Value :=
  let* nodes := at_ graph "nodes" in
  let* node := at_ nodes n in
  let* type_id := text_at node "type" in
  object_at (types catalog) type_id.

Definition ports_of (n : string) : result Value := let* type := type_of n in at_ type "ports".

(** *** The preliminary pass: schemas, then maxima *)

Definition count_connection (kv : string * Value) (counts : Counts) : result Counts :=
  let (id, c) := kv in
  let* from := text_at c "from" in
  let* to := text_at c "to" in
  let (sn, sp) := endpoint from in
  let (dn, dp) := endpoint to in
  let* nodes := at_ graph "nodes" in
  if negb (contains nodes sn) || negb (contains nodes dn) then Ok counts
  else
    let* outputs := ports_of sn in
    let* inputs := ports_of dn in
    if negb (contains outputs sp) || negb (contains inputs dp) then Ok counts
    else
      let* output := at_ outputs sp in
      let* input := at_ inputs dp in
      let* schema := at_ input "schema" in
      let* same := eq_at output "schema" schema in
      let* _ := reject_if (negb same) "E_SCHEMA_MISMATCH" ("connections." +:+ id)
                  "port wire schemas must match" in
      Ok (increment (dn +:+ "." +:+ dp) (increment (sn +:+ "." +:+ sp) counts)).

(** For every port of every node, in order *)
Definition for_each_port (check : string -> string -> Value -> result unit) : result unit :=
  let* nodes := object_field graph "nodes" in
  for_each (fun kv : string * Value =>
      let (id, node) := kv in
      let* type_id := text_at node "type" in
      let* type := object_at (types catalog) type_id in
      let* ports := object_field type "ports" in
      for_each (fun port : string * Value => check id port.1 port.2) ports) nodes.

Definition check_maximum (counts : Counts) (id name : string) (port : Value) : result unit :=
  let* maximum := integer_at port "max_connections" in
  reject_if (u64 maximum <? count_of counts (id +:+ "." +:+ name)) "E_CARDINALITY"
    ("nodes." +:+ id +:+ ".ports." +:+ name) "connection count exceeds type maximum".

Definition check_cardinality (counts : Counts) (id name : string) (port : Value) : result unit :=
  let count := count_of counts (id +:+ "." +:+ name) in
  let* minimum := integer_at port "min_connections" in
  let* maximum := integer_at port "max_connections" in
  reject_if ((count <? u64 minimum) || (u64 maximum <? count)) "E_CARDINALITY"
    ("nodes." +:+ id +:+ ".ports." +:+ name)
    "connection count violates type port minimum/maximum".

(** *** One connection *)

Definition get_port (path n p side : string) : result Value :=
  let* nodes := at_ graph "nodes" in
  let* _ := reject_if (negb (contains nodes n)) "E_NODE_UNKNOWN" (path +:+ "." +:+ side)
              "unknown node" in
  let* ports := ports_of n in
  let* _ := reject_if (negb (contains ports p)) "E_PORT_UNKNOWN" (path +:+ "." +:+ side)
              "unknown type port" in
  at_ ports p.

Definition check_ports (path : string) (connection out in_ : Value) (transport : string)
    : result unit :=
  let* output := eq_at out "direction" (VStr "output") in
  let* input := (if (output : bool) then eq_at in_ "direction" (VStr "input") else Ok false) in
  let* _ := reject_if (negb (output && input)) "E_PORT_DIRECTION" path
              "connection must join output to input" in
  let* in_schema := at_ in_ "schema" in
  let* same_schema := eq_at out "schema" in_schema in
  let* same_encoding :=
    (if (same_schema : bool) then
       let* in_encoding := at_ in_ "encoding" in eq_at out "encoding" in_encoding
     else Ok false) in
  let* _ := reject_if (negb same_encoding) "E_SCHEMA_MISMATCH" path
              "port wire schemas and encodings must match" in
  let* _ := for_each (fun port =>
      let* transports := array_at port "transports" in
      reject_if (absent (VStr transport) transports) "E_TRANSPORT" path
        "type does not support selected transport") [out; in_] in
  let* feedback := bool_or connection "feedback" false in
  if negb feedback then Ok tt
  else
    let* out_feedback := boolean_at out "feedback" in
    let* in_feedback := (if (out_feedback : bool) then boolean_at in_ "feedback" else Ok false) in
    reject_if (negb (out_feedback && in_feedback)) "E_FEEDBACK_UNSUPPORTED"
      (path +:+ ".feedback") "port does not support feedback".

(** The addresses of the two ends: loopback, portable, or of attachments *)
Definition plain_addresses (source target : string) : result (string * string) :=
  if is_null portable
  then Ok ((if native then "127.0.0.1" else source), (if native then "127.0.0.1" else target))
  else
    let* addresses := at_ portable "addresses" in
    let* _ := reject_if (negb (contains addresses source) || negb (contains addresses target))
                "E_ADDRESS" "portable_network.addresses"
                "every connected node requires an address" in
    let* s := text_at addresses source in
    let* t := text_at addresses target in
    Ok (s, t).

(** The owner an attachment of a node must have *)
Definition endpoint_owner (n : string) : result Value :=
  let* nodes := at_ graph "nodes" in
  let* node := at_ nodes n in
  let* execution := at_ node "execution" in
  Ok (member execution "namespace" (VStr n)).

Definition attached_addresses (path source target : string) (attachments : Object)
    (connection : Value) : result (string * string) :=
  let* selected := at_ connection "attachments" in
  let* _ := for_each (fun side =>
      let* id := text_at selected side in
      reject_if (match find_key id attachments with None => true | _ => false end)
        "E_REFERENCE" (path +:+ ".attachments." +:+ side) "unknown attachment") ["from"; "to"] in
  let* from := text_at selected "from" in
  let* to := text_at selected "to" in
  let* first := object_at attachments from in
  let* last := object_at attachments to in
  let* source_owner := endpoint_owner source in
  let* owns_source := eq_at first "owner" source_owner in
  let* owned :=
    (if (owns_source : bool) then
       let* target_owner := endpoint_owner target in eq_at last "owner" target_owner
     else Ok false) in
  let* _ := reject_if (negb owned) "E_REFERENCE" (path +:+ ".attachments")
              "selected attachments must belong to connection endpoints" in
  let* s := address_of first in
  let* t := address_of last in
  Ok (s, t).

Definition connection_addresses (path source target : string) (attachments : Object)
    (connection : Value) : result (string * string) :=
  let* plain := plain_addresses source target in
  let* _ := reject_if (contains graph "network" && negb (contains connection "attachments"))
              "E_ENDPOINT_AMBIGUOUS" (path +:+ ".attachments")
              "managed connection requires explicit source and destination attachments" in
  if contains connection "attachments"
  then attached_addresses path source target attachments connection
  else Ok plain.

(** Jumbo paths of VITA payloads *)
Definition check_vita_mtu (path source : string) (attachments : Object) (connection out : Value)
    : result unit :=
  let* iq := eq_at out "schema" (VStr "VitaIq") in
  let* spectrum := eq_at out "schema" (VStr "VitaPowerSpectrum") in
  if negb (contains connection "attachments") || negb (iq || spectrum) then Ok tt
  else
    let* required :=
      (if (spectrum : bool) then
         let* nodes := at_ graph "nodes" in
         let* node := at_ nodes source in
         let* mtu := integer_or (member_object node "parameters") "path_mtu" 9000 in
         Ok (Z.max 8864 mtu)
       else Ok 4156) in
    let* selected := at_ connection "attachments" in
    let* from := text_at selected "from" in
    let* to := text_at selected "to" in
    let* first := object_at attachments from in
    let* last := object_at attachments to in
    let* same_switch :=
      (if contains first "switch" && contains last "switch" then
         let* sw := at_ last "switch" in eq_at first "switch" sw
       else Ok false) in
    let* _ := reject_if (negb same_switch) "E_MTU" path
                "managed VITA jumbo paths require one owned application bridge" in
    let* all := entries net "attachments" in
    for_each (fun side =>
        let* id := text_at selected side in
        let* endpoint := object_at attachments id in
        let* mtu := integer_or endpoint "mtu" 1500 in
        let* _ := reject_if (mtu <? required) "E_MTU" path
                    "VITA path MTU is below complete IP packet budget" in
        for_each (fun other =>
            if negb (contains other "switch") || negb (contains endpoint "switch") then Ok tt
            else
              let* sw := at_ endpoint "switch" in
              let* on_bridge := eq_at other "switch" sw in
              if negb on_bridge then Ok tt
              else
                let* other_mtu := integer_or other "mtu" 1500 in
                reject_if (other_mtu <? required) "E_MTU" path
                  "selected bridge includes an insufficient attachment MTU") all)
      ["from"; "to"].

(** A unicast destination may name an alias of the destination attachment. *)
Definition alias_destination (attachments : Object) (connection settings : Value)
    (transport destination_address : string) : result string :=
  if negb (contains connection "attachments") || negb (String.eqb transport "udp")
  then Ok destination_address
  else
    let* mode := string_or settings "mode" "unicast" in
    if negb (String.eqb mode "unicast") || negb (contains settings "destination")
    then Ok destination_address
    else
      let* selected := at_ connection "attachments" in
      let* to := text_at selected "to" in
      let* attachment := object_at attachments to in
      if negb (contains attachment "aliases") then Ok destination_address
      else
        let* aliases := array_at attachment "aliases" in
        fold_result (fun alias destination_address =>
            let* alias := text alias in
            let host := before_slash alias in
            let* wanted := eq_at settings "destination" (VStr host) in
            Ok (if (wanted : bool) then host else destination_address)) aliases destination_address.

Definition allowed_settings (transport : string) : result (list string) :=
  if String.eqb transport "tcp"
  then Ok ["host"; "bind"; "port"; "framing"; "connect_timeout_ms"; "send_timeout_ms";
           "reconnect"; "retry"]
  else if String.eqb transport "udp"
  then Ok ["destination"; "bind"; "port"; "framing"; "mode"; "interface"; "ttl"; "loopback";
           "reuse_address"; "max_datagram_bytes"; "receive_buffer_bytes"; "send_buffer_bytes"]
  else if String.eqb transport "shared_memory"
  then Ok ["segment"; "capacity"; "max_message_bytes"; "connect_timeout_ms"; "send_timeout_ms";
           "backpressure"]
  else Throw (OutOfRange "map::at").

Definition is_letter (c : ascii) : bool :=
  let n := Z.of_N (N_of_ascii c) in
  ((65 <=? n) && (n <=? 90)) || ((97 <=? n) && (n <=? 122)).

Fixpoint all_in (p : ascii -> bool) (s : string) : bool :=
  match s with EmptyString => true | String c s => p c && all_in p s end.

(** [^[A-Za-z0-9][A-Za-z0-9.-]{0,252}$] *)
Definition is_hostname (s : string) : bool :=
  match s with
  | EmptyString => false
  | String c s =>
      (is_letter c || is_digit c) && (size s <=? 252)
      && all_in (fun c => is_letter c || is_digit c || Ascii.eqb c "." || Ascii.eqb c "-") s
  end.

(** [^[A-Za-z][A-Za-z0-9_-]{0,63}$] *)
Definition is_segment (s : string) : bool :=
  match s with
  | EmptyString => false
  | String c s =>
      is_letter c && (size s <=? 63)
      && all_in (fun c => is_letter c || is_digit c || Ascii.eqb c "_" || Ascii.eqb c "-") s
  end.

Definition check_settings (path transport : string) (settings in_ : Value) : result unit :=
  let* l := object settings in
  let* _ := for_each (fun kv : string * Value =>
      let* allowed := allowed_settings transport in
      reject_if (negb (one_of kv.1 allowed)) "E_TRANSPORT" (path +:+ ".settings." +:+ kv.1)
        "setting is not valid for selected transport") l in
  let* _ := for_each (fun field =>
      if negb (contains settings field) then Ok tt
      else
        let* host := text_at settings field in
        reject_if (negb (is_hostname host)) "E_TRANSPORT" (path +:+ ".settings." +:+ field)
          "endpoint must be a hostname or numeric IPv4 address, not a URI or path")
    ["host"; "bind"; "destination"; "interface"] in
  let* _ :=
    (if negb (String.eqb transport "shared_memory") || negb (contains settings "segment") then Ok tt
     else
       let* segment := text_at settings "segment" in
       let* _ := reject_if (negb (is_segment segment)) "E_TRANSPORT" (path +:+ ".settings.segment")
                   "invalid shared-memory identifier" in
       if negb (contains settings "capacity") || negb (contains settings "max_message_bytes")
       then Ok tt
       else
         let* capacity := integer_at settings "capacity" in
         let* maximum := integer_at settings "max_message_bytes" in
         reject_if (268435456 <? capacity * maximum) "E_BOUND" (path +:+ ".settings")
           "shared-memory allocation exceeds 256 MiB") in
  let* graphx := eq_at in_ "encoding" (VStr "graphx") in
  if negb (contains settings "framing") then Ok tt
  else
    let* fits := eq_at settings "framing" (VStr (if (graphx : bool) then "u32be" else "none")) in
    reject_if (negb fits) "E_TRANSPORT" (path +:+ ".settings.framing")
      "framing does not match port encoding".

Definition check_security (path transport : string) (connection : Value) : result unit :=
  if negb (contains connection "security") then Ok tt
  else
    let* security := at_ connection "security" in
    let* none := eq_at security "profile" (VStr "none") in
    let* _ := reject_if (negb none && negb (String.eqb transport "tcp")) "E_TRANSPORT"
                (path +:+ ".security") "TLS requires TCP" in
    let* l := object security in
    for_each (fun kv : string * Value =>
        if one_of kv.1 ["profile"; "server_name"] then Ok tt
        else
          let* ref := text kv.2 in
          reject_if (negb (contains (member_object graph "credentials") ref)) "E_CREDENTIAL"
            (path +:+ ".security." +:+ kv.1) "unknown credential reference") l.

(** Shared memory joins two native processes of one IPC domain. *)
Definition check_shared_memory (path source target : string) (settings : Value) : result unit :=
  let execution n :=
    let* nodes := at_ graph "nodes" in let* node := at_ nodes n in at_ node "execution" in
  let* a := execution source in
  let* b := execution target in
  let* native_a := eq_at a "kind" (VStr "native") in
  let* native_b := (if (native_a : bool) then eq_at b "kind" (VStr "native") else Ok false) in
  let* same :=
    (if native_a && native_b && contains a "ipc_domain" && contains b "ipc_domain" then
       let* domain := at_ b "ipc_domain" in eq_at a "ipc_domain" domain
     else Ok false) in
  let* _ := reject_if (negb same) "E_IPC_PLACEMENT" path
              "shared memory requires one explicit native IPC domain" in
  for_each (fun key =>
      reject_if (negb (contains settings key)) "E_SCHEMA" (path +:+ ".settings." +:+ key)
        "shared-memory setting is required")
    ["segment"; "capacity"; "max_message_bytes"; "connect_timeout_ms"; "send_timeout_ms";
     "backpressure"].

Definition default_settings (transport destination_address : string) (port : Z) (graphx : bool)
    : Value :=
  let common := [("port", VInt port); ("bind", VStr destination_address);
                 ("framing", VStr (if graphx then "u32be" else "none"))] in
  VObj (object_of (common ++
    if String.eqb transport "tcp" then
      [("host", VStr destination_address); ("connect_timeout_ms", VInt 5000);
       ("send_timeout_ms", VInt 5000); ("reconnect", VBool true);
       ("retry", VObj (object_of [("max_attempts", VInt 60); ("initial_backoff_ms", VInt 100);
                                  ("max_backoff_ms", VInt 2000)]))]
    else
      [("destination", VStr destination_address); ("mode", VStr "unicast"); ("ttl", VInt 1);
       ("loopback", VBool true); ("reuse_address", VBool false);
       ("max_datagram_bytes", VInt 1400); ("receive_buffer_bytes", VInt 65536);
       ("send_buffer_bytes", VInt 65536)])).

(** Broadcast and multicast need an interface and a fitting group. *)
Definition check_group (path : string) (settings : Value) : result unit :=
  let* _ := reject_if (negb (contains settings "interface")) "E_ENDPOINT_AMBIGUOUS"
              (path +:+ ".settings.interface")
              "broadcast/multicast sender interface is required" in
  let* interface := text_at settings "interface" in
  let* _ := ip inet_pton interface (path +:+ ".settings.interface") in
  let* destination := text_at settings "destination" in
  let* group := ip inet_pton destination (path +:+ ".settings.destination") in
  let* multicast := eq_at settings "mode" (VStr "multicast") in
  let* _ := reject_if (multicast && negb (Z.land group 0xf0000000 =? 0xe0000000)) "E_TRANSPORT"
              (path +:+ ".settings.destination") "multicast requires an address in 224.0.0.0/4" in
  let* broadcast := eq_at settings "mode" (VStr "broadcast") in
  if negb broadcast || (group =? 0xffffffff) then Ok tt
  else
    let* _ := reject_if (is_null portable) "E_ENDPOINT_AMBIGUOUS"
                (path +:+ ".settings.destination")
                "directed broadcast requires an explicit portable subnet" in
    let* subnet := text_at portable "subnet" in
    let* subnet := cidr inet_pton subnet "portable_network.subnet" in
    reject_if (negb (group =? Z.lor (address subnet) (Z.lxor (mask subnet) 0xffffffff)))
      "E_TRANSPORT" (path +:+ ".settings.destination")
      "destination is not the selected subnet broadcast address".

Definition listener_key (target transport bind : string) (port : Z) : string :=
  (if native then "native" else target) +:+ ":" +:+ transport +:+ ":" +:+ bind +:+ ":"
    +:+ to_string port.

(** TCP and UDP: defaults, and a listener of its own *)
Definition socket_settings (path target transport destination_address : string) (ordinal : Z)
    (settings in_ : Value) (listeners : gset string) : result (Value * gset string) :=
  let* graphx := eq_at in_ "encoding" (VStr "graphx") in
  let* default_port := at_ in_ "default_port" in
  let* port := (if is_null default_port then Ok (20000 + ordinal) else integer default_port) in
  let* settings := merged (default_settings transport destination_address port graphx) settings in
  let* _ :=
    (if String.eqb transport "tcp" then
       let* retry := at_ settings "retry" in
       let* initial := integer_at retry "initial_backoff_ms" in
       let* maximum := integer_at retry "max_backoff_ms" in
       reject_if (maximum <? initial) "E_TRANSPORT" (path +:+ ".settings.retry")
         "initial backoff exceeds maximum backoff"
     else Ok tt) in
  let* any := eq_at settings "bind" (VStr "0.0.0.0") in
  let* unicast :=
    (if (any : bool) then
       let* mode := string_or settings "mode" "unicast" in Ok (String.eqb mode "unicast")
     else Ok false) in
  let* settings := (if (unicast : bool) then assign settings "bind" (VStr destination_address)
                    else Ok settings) in
  let* bind := text_at settings "bind" in
  let* port := integer_at settings "port" in
  let* listeners := insert_new (listener_key target transport bind port) listeners
                      "E_PORT_CONFLICT" (path +:+ ".settings.port")
                      "listener address and port conflict in namespace" in
  let* grouped :=
    (if String.eqb transport "udp" then
       let* unicast := eq_at settings "mode" (VStr "unicast") in Ok (negb unicast)
     else Ok false) in
  let* _ := (if (grouped : bool) then check_group path settings else Ok tt) in
  Ok (settings, listeners).

(** The state of the loop over the connections *)
Record ConnectionState := {
  counts : Counts;
  listeners : gset string;
  adjacency : Adjacency;
  ordinal : Z;
  edges : Array;
}.

Definition no_connections : ConnectionState :=
  {| counts := ∅; listeners := ∅; adjacency := ∅; ordinal := 0; edges := [] |}.

Definition edge_value (id source source_port target target_port transport : string)
    (schema encoding settings : Value) (source_address destination_address : string)
    (connection : Value) : Value :=
  VObj (object_of
    [("id", VStr id);
     ("from", VObj (object_of [("node", VStr source); ("port", VStr source_port)]));
     ("to", VObj (object_of [("node", VStr target); ("port", VStr target_port)]));
     ("transport", VStr transport); ("schema", schema); ("encoding", encoding);
     ("listener", VStr (target +:+ "." +:+ target_port)); ("settings", settings);
     ("source_address", VStr source_address);
     ("destination_address", VStr destination_address);
     ("attachments", member_object connection "attachments");
     ("security", member connection "security" (VObj [("profile", VStr "none")]))]).

Definition connection_value (attachments : Object) (kv : string * Value) (s : ConnectionState)
    : result ConnectionState :=
  let (id, connection) := kv in
  let path := "connections." +:+ id in
  let* from := text_at connection "from" in
  let* to := text_at connection "to" in
  let (source, source_port) := endpoint from in
  let (target, target_port) := endpoint to in
  let* out := get_port path source source_port "from" in
  let* in_ := get_port path target target_port "to" in
  let* transport := text_at connection "transport" in
  let* _ := check_ports path connection out in_ transport in
  let* (source_address, destination_address) :=
    connection_addresses path source target attachments connection in
  let settings := member_object connection "settings" in
  let* _ := check_vita_mtu path source attachments connection out in
  let* destination_address :=
    alias_destination attachments connection settings transport destination_address in
  let* _ := check_settings path transport settings in_ in
  let* _ := check_security path transport connection in
  let* (settings, listeners) :=
    (if String.eqb transport "shared_memory" then
       let* _ := check_shared_memory path source target settings in Ok (settings, listeners s)
     else socket_settings path target transport destination_address (ordinal s) settings in_
            (listeners s)) in
  let* schema := at_ in_ "schema" in
  let* encoding := at_ in_ "encoding" in
  Ok {| counts := increment (target +:+ "." +:+ target_port)
                    (increment (source +:+ "." +:+ source_port) (counts s));
        listeners := listeners;
        adjacency := <[source := successors (adjacency s) source ++ [target]]> (adjacency s);
        ordinal := ordinal s + 1;
        edges := edges s ++ [edge_value id source source_port target target_port transport schema
                               encoding settings source_address destination_address connection] |}.

(** *** Cycles *)

(** The ports of an edge of a cycle must support feedback. *)
Definition check_feedback (edge : Value) : result unit :=
  let* id := text_at edge "id" in
  for_each (fun side =>
      let* ep := at_ edge side in
      let* n := text_at ep "node" in
      let* ports := ports_of n in
      let* p := text_at ep "port" in
      let* port := at_ ports p in
      let* feedback := boolean_at port "feedback" in
      reject_if (negb feedback) "E_FEEDBACK_UNSUPPORTED" ("connections." +:+ id)
        "cycle requires feedback capability on every participating port") ["from"; "to"].

(** Every call of [reaches] below the first enters a node not seen before, so
    the nodes of the adjacency and the edge bound its depth. *)
Definition reach_fuel (adjacency : Adjacency) : nat :=
  S (S (length (mjoin (map (fun kv => kv.1 :: kv.2) (map_to_list adjacency))))).

Definition check_cycle (adjacency : Adjacency) (edge : Value) : result unit :=
  let* from := (let* ep := at_ edge "from" in text_at ep "node") in
  let* to := (let* ep := at_ edge "to" in text_at ep "node") in
  match reaches (reach_fuel adjacency) adjacency from ∅ to with
  | None => Throw StackOverflow
  | Some (true, _) => check_feedback edge
  | Some (false, _) => Ok tt
  end.

(** The attachments by identifier; the first of equal identifiers wins. *)
Definition attachment_map : result Object :=
  let* l := entries net "attachments" in
  fold_result (fun a acc =>
      let* id := text_at a "id" in
      Ok (match find_key id acc with Some _ => acc | None => set_key id a acc end)) l [].

Definition connection_values : result Value :=
  let* attachments := attachment_map in
  let* connections := object_field graph "connections" in
  let* maxima := fold_result count_connection connections ∅ in
  let* _ := for_each_port (check_maximum maxima) in
  let* s := fold_result (connection_value attachments) connections no_connections in
  let* _ := for_each_port (check_cardinality (counts s)) in
  let* _ := for_each (check_cycle (adjacency s)) (edges s) in
  Ok (VArr (edges s)).

End Connections.
End ConfigGraph.
