(* ===== verification/ConfigGraphProofs.v ===== *)
(** * Correctness of the connection checks

    The recursive cycle check decides reachability; in an accepted graph the
    ports of every cycle support feedback, no two listeners share an address
    and port, and every port has as many connections as its type allows. *)

From Stdlib Require Import ZArith Lia Strings.Byte Strings.Ascii Strings.String Floats.SpecFloat.
From stdpp Require Import base gmap strings list relations.
#[local] Set Warnings "-clear-no-such-hyp".
From S2P Require Import Prelude ConfigValue ConfigValueProofs.
From S2P Require Import ConfigNetwork ConfigNetworkProofs ConfigGraph.

Module ConfigGraphProofs.
Import ConfigValue ConfigValueProofs ConfigNetwork ConfigNetworkProofs ConfigGraph.
Local Open Scope Z_scope.

(** ** Reachability *)

Section Reach.
Context (adjacency : Adjacency) (from : string).

Definition step (x y : string) : Prop := y ∈ successors adjacency x.

(** The loop over the successors of a node *)
Definition visit (fuel : nat) : list string -> gset string -> option (bool * gset string) :=
  fix visit (l : list string) (seen : gset string) : option (bool * gset string) :=
    match l with
    | [] => Some (false, seen)
    | next :: l =>
        match reaches fuel adjacency from seen next with
        | None => None
        | Some (true, seen) => Some (true, seen)
        | Some (false, seen) => visit l seen
        end
    end.

Lemma reaches_step fuel seen node :
  reaches (S fuel) adjacency from seen node
  = if String.eqb node from then Some (true, seen)
    else if decide (node ∈ seen) then Some (false, seen)
    else visit fuel (successors adjacency node) ({[node]} ∪ seen).
Proof. reflexivity. Qed.

(** What a finished search means: a path, or a larger set that is closed under
    successors outside the nodes it started with and does not contain [from] *)
Definition found (x : string) (seen : gset string) (r : bool * gset string) : Prop :=
  match r with
  | (true, _) => rtc step x from
  | (false, seen') =>
      seen ⊆ seen' /\ x ∈ seen'
      /\ forall y, y ∈ seen' -> y ∉ seen -> y <> from /\ forall z, step y z -> z ∈ seen'
  end.

Lemma reaches_found fuel : forall seen x r,
  reaches fuel adjacency from seen x = Some r -> found x seen r.
Proof.
  induction fuel as [|fuel IH]; intros seen x r H; [done|]. rewrite reaches_step in H.
  destruct (String.eqb_spec x from) as [->|Hne]; [injection H as <-; apply rtc_refl|].
  case_decide as Hin; [injection H as <-; split_and!; [done..|]; by intros y ? ?|].
  assert (Hv : forall l seen0 r, visit fuel l seen0 = Some r ->
    match r with
    | (true, _) => exists y, y ∈ l /\ rtc step y from
    | (false, seen') =>
        seen0 ⊆ seen' /\ (forall y, y ∈ l -> y ∈ seen')
        /\ forall y, y ∈ seen' -> y ∉ seen0 -> y <> from /\ forall z, step y z -> z ∈ seen'
    end).
  { clear H r. induction l as [|y l IHl]; intros seen0 r H; cbn [visit] in H.
    - injection H as <-. split_and!; [done|by intros y Hy%not_elem_of_nil|by intros y ? ?].
    - destruct (reaches fuel adjacency from seen0 y) as [[[] seen1]|] eqn:E; [| |done];
        apply IH in E; cbn [found] in E.
      + injection H as <-. exists y. split; [left|done].
      + destruct E as (Hsub & Hy & Hcl). apply IHl in H. destruct r as [[] seen2].
        * destruct H as (z & Hz & Hr). exists z. split; [by right|done].
        * destruct H as (Hsub2 & Hl & Hcl2). split_and!; [set_solver|set_solver|].
          intros z Hz Hnz. destruct (decide (z ∈ seen1)) as [Hz1|Hz1]; [|by apply Hcl2].
          destruct (Hcl z Hz1 Hnz) as [Hf Hs]. split; [done|]. set_solver. }
  apply Hv in H. destruct r as [[] seen']; cbn [found].
  - destruct H as (y & Hy & Hr). by eapply rtc_l.
  - destruct H as (Hsub & Hl & Hcl). split_and!; [set_solver|set_solver|].
    intros y Hy Hny. destruct (decide (y = x)) as [->|Hyx]; [|apply Hcl; set_solver].
    split; [done|]. intros z Hz. by apply Hl.
Qed.

(** The recursion is no deeper than the nodes that are left. *)
Lemma reaches_total (universe : gset string) fuel : forall seen x,
  (forall y z, y ∈ universe -> step y z -> z ∈ universe) -> x ∈ universe ->
  (base.size (universe ∖ seen) < fuel)%nat -> reaches fuel adjacency from seen x <> None.
Proof.
  induction fuel as [|fuel IH]; intros seen x Hclosed Hx Hs; [lia|]. rewrite reaches_step.
  destruct (String.eqb x from); [done|]. case_decide as Hin; [done|].
  assert (Hlt : (base.size (universe ∖ ({[x]} ∪ seen)) < fuel)%nat).
  { enough (base.size (universe ∖ ({[x]} ∪ seen)) < base.size (universe ∖ seen))%nat by lia.
    apply subset_size. split; [set_solver|]. intros Hsub. specialize (Hsub x). set_solver. }
  assert (Hl : forall y, y ∈ successors adjacency x -> y ∈ universe) by (intros y; by apply Hclosed).
  revert Hlt Hl. generalize ({[x]} ∪ seen) as seen0. generalize (successors adjacency x) as l.
  induction l as [|y l IHl]; intros seen0 Hlt Hl; cbn [visit]; [done|].
  destruct (reaches fuel adjacency from seen0 y) as [[[] seen1]|] eqn:E; [done| |].
  - apply IHl; [|set_solver]. apply reaches_found in E as (Hsub & _).
    eapply Nat.le_lt_trans; [|exact Hlt]. apply subseteq_size. set_solver.
  - exfalso. by eapply IH; [..|exact E]; [exact Hclosed|set_solver|].
Qed.

Lemma reaches_false_not x seen' :
  found x ∅ (false, seen') -> ~ rtc step x from.
Proof.
  intros (_ & Hx & Hcl) Hr. assert (Hin : from ∈ seen').
  { clear -Hr Hx Hcl. induction Hr as [|x y z Hxy Hr IH]; [done|]. apply IH; [|done].
    destruct (Hcl x Hx) as [_ Hs]; [set_solver|]. by apply Hs. }
  destruct (Hcl from Hin) as [Hne _]; [set_solver|]. done.
Qed.

End Reach.

Lemma step_insert adjacency source l x y :
  step (<[source := l]> adjacency) x y <-> if decide (x = source) then y ∈ l else step adjacency x y.
Proof.
  unfold step, successors. case_decide as Hx.
  - subst x. by rewrite lookup_insert_eq.
  - by rewrite lookup_insert_ne.
Qed.

Lemma size_list_to_set (l : list string) : (base.size (list_to_set l : gset string) <= length l)%nat.
Proof.
  induction l as [|x l IH]; [done|]. cbn [list_to_set length].
  rewrite size_union_alt, size_singleton.
  assert (base.size (list_to_set l ∖ {[x]} : gset string) <= base.size (list_to_set l : gset string))%nat
    by (apply subseteq_size; set_solver). lia.
Qed.

(** The search of the cycle check always ends within its fuel and decides
    reachability: it answers true exactly when a chain of connections leads
    from the given node to [from]. *)
Theorem reaches_decides adjacency from x :
  exists b seen, reaches (reach_fuel adjacency) adjacency from ∅ x = Some (b, seen)
    /\ (b = true <-> rtc (step adjacency) x from).
Proof.
  set (nodes := mjoin (map (fun kv : string * list string => kv.1 :: kv.2) (map_to_list adjacency))).
  set (universe := ({[x]} ∪ list_to_set nodes : gset string)).
  assert (Hclosed : forall y z, y ∈ universe -> step adjacency y z -> z ∈ universe).
  { intros y z _ Hz. unfold step, successors in Hz.
    destruct (adjacency !! y) as [l|] eqn:E; [|by apply not_elem_of_nil in Hz]. simpl in Hz.
    apply elem_of_union_r, elem_of_list_to_set, list_elem_of_join. exists (y :: l).
    split; [by right|]. apply list_elem_of_fmap. exists (y, l).
    split; [done|]. by apply elem_of_map_to_list. }
  assert (Hfuel : (base.size (universe ∖ ∅) < reach_fuel adjacency)%nat).
  { unfold reach_fuel. fold nodes.
    assert (base.size (universe ∖ ∅) <= base.size universe)%nat by (apply subseteq_size; set_solver).
    assert (base.size universe <= 1 + length nodes)%nat.
    { unfold universe. rewrite size_union_alt, size_singleton.
      pose proof (size_list_to_set nodes).
      assert (base.size (list_to_set nodes ∖ {[x]} : gset string) <= base.size (list_to_set nodes : gset string))%nat
        by (apply subseteq_size; set_solver). lia. }
    lia. }
  pose proof (reaches_total adjacency from universe (reach_fuel adjacency) ∅ x Hclosed
    ltac:(set_solver) Hfuel) as Htotal.
  destruct (reaches (reach_fuel adjacency) adjacency from ∅ x) as [[b seen]|] eqn:E; [|done].
  apply reaches_found in E. exists b, seen. split; [done|]. destruct b; [done|].
  split; [done|]. intros Hr. by apply reaches_false_not in E.
Qed.

(** ** What one connection adds *)

(** The two ends of a resolved edge *)
Definition end_of (side : string) (e : Value) : option (string * string) :=
  match at_ e side with
  | Ok ep => match text_at ep "node", text_at ep "port" with
             | Ok n, Ok p => Some (n, p)
             | _, _ => None
             end
  | Throw _ => None
  end.

Definition end_key (side : string) (e : Value) : option string :=
  option_map (fun np : string * string => np.1 +:+ "." +:+ np.2) (end_of side e).

Section Connections.
Context (inet_pton : string -> option Z) (graph : Value) (catalog : Catalog)
  (net portable : Value) (native : bool).

(** The listener of a resolved edge; shared memory has none. *)
Definition listener_of (e : Value) : option string :=
  match end_of "to" e, text_at e "transport", at_ e "settings" with
  | Some (target, _), Ok transport, Ok settings =>
      match text_at settings "bind", integer_at settings "port" with
      | Ok bind, Ok port =>
          if String.eqb transport "shared_memory" then None
          else Some (listener_key native target transport bind port)
      | _, _ => None
      end
  | _, _, _ => None
  end.

Lemma edge_value_parts id source sp target tp transport schema encoding settings sa da c :
  let e := edge_value id source sp target tp transport schema encoding settings sa da c in
  end_of "from" e = Some (source, sp) /\ end_of "to" e = Some (target, tp)
  /\ text_at e "transport" = Ok transport /\ at_ e "settings" = Ok settings.
Proof. split_and!; reflexivity. Qed.

Lemma socket_settings_ok path target transport da ord settings in_ ls settings' ls' :
  socket_settings inet_pton portable native path target transport da ord settings in_ ls
    = Ok (settings', ls') ->
  exists bind port, text_at settings' "bind" = Ok bind /\ integer_at settings' "port" = Ok port
    /\ listener_key native target transport bind port ∉ ls
    /\ ls' = {[listener_key native target transport bind port]} ∪ ls.
Proof.
  unfold socket_settings. intros H. repeat (apply bind_ok in H as (? & ? & H)).
  injection H as <- <-.
  match goal with Hi : insert_new _ _ _ _ _ = Ok _ |- _ =>
    unfold insert_new in Hi; case_decide; [done|]; injection Hi as <- end.
  do 2 eexists. split_and!; [done..|reflexivity].
Qed.

Lemma connection_value_adds attachments kv s s' :
  connection_value inet_pton graph catalog net portable native attachments kv s = Ok s' ->
  exists e source sp target tp,
    end_of "from" e = Some (source, sp) /\ end_of "to" e = Some (target, tp)
    /\ edges s' = edges s ++ [e]
    /\ adjacency s' = <[source := successors (adjacency s) source ++ [target]]> (adjacency s)
    /\ counts s' = increment (target +:+ "." +:+ tp) (increment (source +:+ "." +:+ sp) (counts s))
    /\ match listener_of e with
       | Some key => key ∉ listeners s /\ listeners s' = {[key]} ∪ listeners s
       | None => listeners s' = listeners s
       end.
Proof.
  destruct kv as [id c]. unfold connection_value. intros H.
  apply bind_ok in H as (from & _ & H). apply bind_ok in H as (to & _ & H).
  destruct (endpoint from) as [source sp], (endpoint to) as [target tp].
  apply bind_ok in H as (out & _ & H). apply bind_ok in H as (in_ & _ & H).
  apply bind_ok in H as (transport & _ & H). apply bind_ok in H as ([] & _ & H).
  apply bind_ok in H as ([sa da] & _ & H). apply bind_ok in H as ([] & _ & H).
  apply bind_ok in H as (da' & _ & H). apply bind_ok in H as ([] & _ & H).
  apply bind_ok in H as ([] & _ & H). apply bind_ok in H as ([settings ls] & Hls & H).
  apply bind_ok in H as (schema & _ & H). apply bind_ok in H as (encoding & _ & H).
  injection H as <-. cbn [edges adjacency counts listeners].
  destruct (edge_value_parts id source sp target tp transport schema encoding settings sa da' c)
    as (Hfrom & Hto & Htr & Hset).
  set (e := edge_value _ _ _ _ _ _ _ _ _ _ _ _) in *.
  exists e, source, sp, target, tp. split_and!; [done..|].
  assert (Hl : listener_of e = match text_at settings "bind", integer_at settings "port" with
    | Ok bind, Ok port => if String.eqb transport "shared_memory" then None
                          else Some (listener_key native target transport bind port)
    | _, _ => None end) by (unfold listener_of; by rewrite Hto, Htr, Hset).
  rewrite Hl. destruct (String.eqb_spec transport "shared_memory") as [->|Hne].
  - apply bind_ok in Hls as ([] & _ & Hls). injection Hls as <- <-.
    by repeat case_match.
  - apply socket_settings_ok in Hls as (bind & port & -> & -> & Hfresh & ->). done.
Qed.

(** ** Invariants of the loop *)

(** How often a port occurs among the ends of the edges *)
Definition uses (key : string) (es : Array) : Z :=
  Z.of_nat (length (filter (fun e => end_key "from" e = Some key) es)
            + length (filter (fun e => end_key "to" e = Some key) es)).

(** One edge leads from [x] to [y]. *)
Definition joined (es : Array) (x y : string) : Prop :=
  exists e, e ∈ es /\ option_map fst (end_of "from" e) = Some x
            /\ option_map fst (end_of "to" e) = Some y.

Definition invariant (s : ConnectionState) : Prop :=
  (forall x y, step (adjacency s) x y <-> joined (edges s) x y)
  /\ (forall key, count_of (counts s) key = uses key (edges s))
  /\ NoDup (omap listener_of (edges s))
  /\ forall key, key ∈ omap listener_of (edges s) <-> key ∈ listeners s.

Lemma count_increment key counts k :
  count_of (increment key counts) k = count_of counts k + (if String.eqb k key then 1 else 0).
Proof.
  unfold increment, count_of. destruct (String.eqb_spec k key) as [->|Hne].
  - by rewrite lookup_insert_eq.
  - rewrite lookup_insert_ne by done. lia.
Qed.

Lemma uses_snoc key es e source sp target tp :
  end_of "from" e = Some (source, sp) -> end_of "to" e = Some (target, tp) ->
  uses key (es ++ [e]) = uses key es + (if String.eqb key (source +:+ "." +:+ sp) then 1 else 0)
                         + (if String.eqb key (target +:+ "." +:+ tp) then 1 else 0).
Proof.
  intros Hf Ht. unfold uses. rewrite !filter_app, !length_app.
  assert (Hone : forall side k, end_key side e = Some k ->
    length (filter (fun e => end_key side e = Some key) [e]) = (if String.eqb key k then 1 else 0)%nat).
  { intros side k Hk. rewrite filter_cons, filter_nil. case_decide as Hd.
    - rewrite Hk in Hd. injection Hd as ->. by rewrite String.eqb_refl.
    - destruct (String.eqb_spec key k) as [->|]; [|done]. done. }
  rewrite (Hone "from" (source +:+ "." +:+ sp)) by (unfold end_key; by rewrite Hf).
  rewrite (Hone "to" (target +:+ "." +:+ tp)) by (unfold end_key; by rewrite Ht).
  destruct (String.eqb key _), (String.eqb key _); lia.
Qed.

Lemma connection_invariant_step attachments kv s s' :
  invariant s ->
  connection_value inet_pton graph catalog net portable native attachments kv s = Ok s' ->
  invariant s'.
Proof.
  intros (Hadj & Hcnt & Hnd & Hls) H.
  apply connection_value_adds in H as (e & source & sp & target & tp & Hf & Ht & He & Ha & Hc & Hl).
  unfold invariant. rewrite He, Ha, Hc. split_and!.
  - intros x y. rewrite step_insert. case_decide as Hx.
    + subst x. rewrite elem_of_app, list_elem_of_singleton.
      change (y ∈ successors (adjacency s) source) with (step (adjacency s) source y). rewrite Hadj.
      split.
      * intros [(e' & ? & ? & ?)| ->]; [exists e'; by rewrite elem_of_app; auto|].
        exists e. rewrite elem_of_app, list_elem_of_singleton, Hf, Ht. auto.
      * intros (e' & [Hin| ->%list_elem_of_singleton]%elem_of_app & E1 & E2); [left; by exists e'|].
        right. rewrite Ht in E2. by injection E2.
    + rewrite Hadj. split.
      * intros (e' & ? & ? & ?). exists e'. rewrite elem_of_app. auto.
      * intros (e' & [Hin| ->%list_elem_of_singleton]%elem_of_app & E1 & E2); [by exists e'|].
        rewrite Hf in E1. injection E1 as E1. by destruct Hx.
  - intros key. by rewrite !count_increment, Hcnt, (uses_snoc key _ _ _ _ _ _ Hf Ht).
  - rewrite omap_app. cbn [omap list_omap]. destruct (listener_of e) as [key|];
      [|by rewrite app_nil_r].
    apply NoDup_app. split_and!; [done| |apply NoDup_singleton].
    intros k Hk ->%list_elem_of_singleton. apply Hls in Hk. tauto.
  - intros k. rewrite omap_app, elem_of_app. cbn [omap list_omap].
    destruct (listener_of e) as [key|].
    + destruct Hl as [_ ->]. rewrite list_elem_of_singleton, Hls. set_solver.
    + rewrite Hl, Hls. set_solver.
Qed.

Lemma invariant_start : invariant no_connections.
Proof.
  split_and!.
  - intros x y. unfold step, successors. cbn. split; [by intros ?%not_elem_of_nil|].
    by intros (e & ?%not_elem_of_nil & _).
  - done.
  - apply NoDup_nil_2.
  - intros key. cbn. by rewrite elem_of_nil, elem_of_empty.
Qed.

(** Everything an accepted graph went through *)
Lemma connection_values_ok v :
  connection_values inet_pton graph catalog net portable native = Ok v ->
  exists s, v = VArr (edges s) /\ invariant s
    /\ for_each_port graph catalog (check_cardinality (counts s)) = Ok tt
    /\ for_each (check_cycle graph catalog (adjacency s)) (edges s) = Ok tt.
Proof.
  unfold connection_values. intros H. apply bind_ok in H as (attachments & _ & H).
  apply bind_ok in H as (connections & _ & H). apply bind_ok in H as (maxima & _ & H).
  apply bind_ok in H as ([] & _ & H). apply bind_ok in H as (s & Hs & H).
  apply bind_ok in H as ([] & Hcard & H). apply bind_ok in H as ([] & Hcyc & H).
  injection H as <-. exists s. split_and!; [done| |done..].
  revert Hs. apply fold_result_invariant; [|apply invariant_start].
  intros kv s1 s2 _ H1 H2. by eapply connection_invariant_step.
Qed.

Lemma end_of_text side e np :
  end_of side e = Some np ->
  (let* ep := at_ e side in text_at ep "node") = Ok np.1.
Proof.
  unfold end_of. destruct (at_ e side) as [ep|]; [|done]. cbn [bind].
  destruct (text_at ep "node"), (text_at ep "port"); try done. by intros [= <-].
Qed.

(** ** Properties *)

(** A port of a resolved edge whose type supports feedback *)
Definition supports_feedback (side : string) (e : Value) : Prop :=
  exists n p ports port, end_of side e = Some (n, p) /\ ports_of graph catalog n = Ok ports
    /\ at_ ports p = Ok port /\ boolean_at port "feedback" = Ok true.

(** In an accepted graph, whenever the target of a connection leads back
    to its source along the connections, both of its ports support feedback:
    a cycle exists only where every port on it allows one. *)
Theorem cycles_have_feedback es e x y :
  connection_values inet_pton graph catalog net portable native = Ok (VArr es) -> e ∈ es ->
  option_map fst (end_of "from" e) = Some x -> option_map fst (end_of "to" e) = Some y ->
  rtc (joined es) y x ->
  supports_feedback "from" e /\ supports_feedback "to" e.
Proof.
  intros H Hin Hx Hy Hr. apply connection_values_ok in H as (s & [= ->] & (Hadj & _) & _ & Hcyc).
  apply for_each_ok with (a := e) in Hcyc; [|done]. unfold check_cycle in Hcyc.
  destruct (end_of "from" e) as [[x' xp]|] eqn:Ef; [|done]. injection Hx as ->.
  destruct (end_of "to" e) as [[y' yp]|] eqn:Et; [|done]. injection Hy as ->.
  rewrite (end_of_text _ _ _ Ef), (end_of_text _ _ _ Et) in Hcyc. cbn [bind fst] in Hcyc.
  destruct (reaches_decides (adjacency s) x y) as (b & seen & E & Hb). rewrite E in Hcyc.
  assert (b = true) as ->.
  { apply Hb. revert Hr. apply rtc_subrel. intros u v. by rewrite Hadj. }
  unfold check_feedback in Hcyc. apply bind_ok in Hcyc as (id & _ & Hcyc).
  assert (Hside : forall side, side ∈ ["from"; "to"] -> end_of side e <> None ->
    supports_feedback side e).
  { intros side Hs He. apply for_each_ok with (a := side) in Hcyc; [|done].
    apply bind_ok in Hcyc as (ep & Hep & H). apply bind_ok in H as (n & Hn & H).
    apply bind_ok in H as (ports & Hports & H). apply bind_ok in H as (p & Hp & H).
    apply bind_ok in H as (port & Hport & H). apply bind_ok in H as (feedback & Hfb & H).
    apply reject_if_ok in H. apply negb_false_iff in H. subst feedback.
    exists n, p, ports, port. split_and!; [|done..]. unfold end_of. by rewrite Hep, Hn, Hp. }
  split; apply Hside; rewrite ?Ef, ?Et; try done; rewrite !elem_of_cons; auto.
Qed.

(** No two TCP or UDP connections of an accepted graph listen on the same
    address and port in the same name space. *)
Theorem listeners_distinct es :
  connection_values inet_pton graph catalog net portable native = Ok (VArr es) ->
  NoDup (omap listener_of es).
Proof. intros H. by apply connection_values_ok in H as (s & [= ->] & (_ & _ & ? & _) & _). Qed.

(** In an accepted graph every port of every node has at least as many
    connections as its type demands and at most as many as it allows. *)
Theorem cardinalities_respected es nodes id node type ports name port minimum maximum :
  connection_values inet_pton graph catalog net portable native = Ok (VArr es) ->
  object_field graph "nodes" = Ok nodes -> (id, node) ∈ nodes ->
  (let* type_id := text_at node "type" in object_at (types catalog) type_id) = Ok type ->
  object_field type "ports" = Ok ports -> (name, port) ∈ ports ->
  integer_at port "min_connections" = Ok minimum ->
  integer_at port "max_connections" = Ok maximum ->
  u64 minimum <= uses (id +:+ "." +:+ name) es <= u64 maximum.
Proof.
  intros H Hnodes Hin Htype Hports Hp Hmin Hmax.
  apply connection_values_ok in H as (s & [= ->] & (_ & Hcnt & _) & Hcard & _).
  unfold for_each_port in Hcard. rewrite Hnodes in Hcard. cbn [bind] in Hcard.
  apply for_each_ok with (a := (id, node)) in Hcard; [|done].
  apply bind_ok in Hcard as (type_id & E1 & Hcard). rewrite E1 in Htype. cbn [bind] in Htype.
  rewrite Htype in Hcard. cbn [bind] in Hcard. rewrite Hports in Hcard. cbn [bind] in Hcard.
  apply for_each_ok with (a := (name, port)) in Hcard; [|done]. cbn [fst snd] in Hcard.
  unfold check_cardinality in Hcard. rewrite Hmin, Hmax in Hcard. cbn [bind] in Hcard.
  apply reject_if_ok in Hcard. rewrite Hcnt in Hcard. reflect_bools. lia.
Qed.

End Connections.
(** ** A graph of two nodes that feed each other *)

Definition echo_port (direction : string) : Value :=
  VObj [("default_port", VNull); ("direction", VStr direction); ("encoding", VStr "graphx");
        ("feedback", VBool true); ("max_connections", VInt 1); ("min_connections", VInt 1);
        ("schema", VStr "Text"); ("transports", VArr [VStr "tcp"; VStr "udp"])].
Definition echo_catalog : Catalog :=
  {| types := [("echo", VObj [("ports", VObj [("in", echo_port "input");
                                               ("out", echo_port "output")])])];
     guests := [] |}.
Definition echo_node : Value := VObj [("type", VStr "echo")].
Definition echo_nodes : Object := [("a", echo_node); ("b", echo_node)].
Definition echo_connection (from to : string) : Value :=
  VObj [("from", VStr from); ("to", VStr to); ("transport", VStr "tcp")].
Definition echo_graph : Value :=
  VObj [("connections", VObj [("x", echo_connection "a.out" "b.in");
                              ("y", echo_connection "b.out" "a.in")]);
        ("nodes", VObj echo_nodes)].
Definition echo_edges : Array :=
  match connection_values dotted_quad echo_graph echo_catalog VNull VNull false with
  | Ok (VArr es) => es
  | _ => []
  end.
Definition echo_edge : Value := nth 0 echo_edges VNull.

Lemma cycles_have_feedback_witness :
  supports_feedback echo_graph echo_catalog "from" echo_edge
  /\ supports_feedback echo_graph echo_catalog "to" echo_edge.
Proof.
  assert (Hin : forall i, (i < 2)%nat -> nth i echo_edges VNull ∈ echo_edges).
  { intros i Hi. apply list_elem_of_In, nth_In. exact Hi. }
  apply (cycles_have_feedback dotted_quad echo_graph echo_catalog VNull VNull false
           echo_edges echo_edge "a" "b"); [vm_compute; reflexivity|apply Hin; lia|
    vm_compute; reflexivity|vm_compute; reflexivity|].
  apply rtc_once. exists (nth 1 echo_edges VNull).
  split_and!; [apply Hin; lia|vm_compute; reflexivity|vm_compute; reflexivity].
Defined.

Lemma listeners_distinct_witness : NoDup (omap (listener_of false) echo_edges).
Proof.
  apply (listeners_distinct dotted_quad echo_graph echo_catalog VNull VNull false echo_edges).
  vm_compute; reflexivity.
Defined.

Lemma cardinalities_respected_witness :
  u64 1 <= uses ("b" +:+ "." +:+ "in") echo_edges <= u64 1.
Proof.
  apply (cardinalities_respected dotted_quad echo_graph echo_catalog VNull VNull false echo_edges
           echo_nodes "b" echo_node
           (VObj [("ports", VObj [("in", echo_port "input"); ("out", echo_port "output")])])
           [("in", echo_port "input"); ("out", echo_port "output")] "in" (echo_port "input"));
    [vm_compute; reflexivity|reflexivity|right; left|reflexivity|reflexivity|left|reflexivity..].
Defined.

End ConfigGraphProofs.
