(* ===== verification/ResolvedNetwork.v ===== *)
(** * The resolved network as typed records (src/src/resolved_network.cpp,
    src/include/graphx/network.hpp)

    [resolved_network] projects the value that [network_value] builds onto the
    records the resource code works with.  It replaces the authored switch
    identifiers by the names of the bridges, adds a router record for every
    diagnostic namespace, and narrows numbers to their machine widths. *)

From Stdlib Require Import ZArith Lia Strings.Byte Strings.Ascii Strings.String Floats.SpecFloat.
From stdpp Require Import base gmap strings list.
From S2P Require Import Prelude ConfigValue ConfigNetwork.

Module ResolvedNetwork.
Import ConfigValue ConfigNetwork.
Local Open Scope Z_scope.

(** ** The records of network.hpp *)

Inductive NetworkProfile := ethernet | macvlan | ipvlan_l2 | ipvlan_l3 | ipvlan_l3s.
Inductive AttachmentKind := container_veth | namespace_veth | qemu_tap | external | mirror_kind.
Inductive SwitchKind := openvswitch.
Inductive RouterKind := linux_namespace | container.

#[export] Instance AttachmentKind_eq_dec : EqDecision AttachmentKind.
Proof. solve_decision. Defined.

Record VlanMetadata := { access_tag : option Z; trunks : list Z }.

Record NetworkDefinition := {
  network_id : string; profile : option NetworkProfile; subnets : list string;
  gateway : string; uplink : string; external_network : bool }.

Record RouteDefinition := {
  destination : string; via : string; device : string; install_on_create : bool }.

Record AttachmentDefinition := {
  mirror_container : bool; attachment_id : string; kind : AttachmentKind; owner : string;
  network : string; attachment_address : string; mac : string; interface : string;
  peer : string; network_switch : string; mtu : Z; tap_uid : Z; tap_gid : Z;
  routes : list RouteDefinition; aliases : list string }.

Record SwitchPortDefinition := {
  port_id : string; port_interface : string; port_peer : string; vlan : VlanMetadata }.

Record MirrorDefinition := { mirror_id : string; output_port : string; select_all : bool }.

Record SwitchDefinition := {
  switch_id : string; switch_kind : SwitchKind; datapath : string;
  ports : list SwitchPortDefinition; mirror : option MirrorDefinition }.

Record PolicyDefinition := {
  policy_id : string; policy_source : string; policy_destination : string; action : string }.

Record RouterInterfaceDefinition := {
  interface_id : string; interface_network : string; interface_address : string;
  interface_device : string; interface_peer : string; interface_switch : string }.

Record RouterDefinition := {
  router_id : string; router_kind : RouterKind; namespace_name : string; forwarding : bool;
  interfaces : list RouterInterfaceDefinition; router_routes : list RouteDefinition;
  policies : list PolicyDefinition }.

Record EdgeNetworkPath := { edge_id : string; hops : list string }.

Record NetworkCaptureDefinition := {
  capture_id : string; attachment : string; directory : string; snaplen : Z;
  max_file_bytes : Z; max_files : Z; rotation_seconds : Z; retention_seconds : Z }.

Record NetworkInfrastructureConfig := {
  networks : list NetworkDefinition; switches : list SwitchDefinition;
  routers : list RouterDefinition; attachments : list AttachmentDefinition;
  edge_paths : list EdgeNetworkPath; captures : list NetworkCaptureDefinition }.

(** ** Lookup by identifier (network.cpp) *)

(** [std::ranges::find_if] for an identifier; [std::out_of_range] if none *)
Definition lookup_id {A} (id_of : A -> string) (kind_name id : string) (l : list A) : result A :=
  match List.find (fun a => String.eqb (id_of a) id) l with
  | Some a => Ok a
  | None => Throw (OutOfRange ("unknown " +:+ kind_name +:+ " '" +:+ id +:+ "'"))
  end.

Definition find_network (c : NetworkInfrastructureConfig) (id : string) : result NetworkDefinition :=
  lookup_id network_id "network" id (networks c).
Definition find_switch (c : NetworkInfrastructureConfig) (id : string) : result SwitchDefinition :=
  lookup_id switch_id "switch" id (switches c).
Definition find_router (c : NetworkInfrastructureConfig) (id : string) : result RouterDefinition :=
  lookup_id router_id "router" id (routers c).
Definition find_edge_path (c : NetworkInfrastructureConfig) (id : string) : result EdgeNetworkPath :=
  lookup_id edge_id "edge network path" id (edge_paths c).

(** ** [resolved_network] *)

(** [std::map::at] *)
Definition map_at {A} (o : option A) : result A :=
  match o with Some a => Ok a | None => Throw (OutOfRange "map::at") end.

Definition profile_of (name : string) : option NetworkProfile :=
  if String.eqb name "ethernet" then Some ethernet
  else if String.eqb name "macvlan" then Some macvlan
  else if String.eqb name "ipvlan-l2" then Some ipvlan_l2
  else if String.eqb name "ipvlan-l3" then Some ipvlan_l3
  else if String.eqb name "ipvlan-l3s" then Some ipvlan_l3s
  else None.

Definition kind_of (name : string) : option AttachmentKind :=
  if String.eqb name "external" then Some external
  else if String.eqb name "container_veth" then Some container_veth
  else if String.eqb name "namespace_veth" then Some namespace_veth
  else if String.eqb name "qemu_tap" then Some qemu_tap
  else if String.eqb name "mirror" then Some mirror_kind
  else None.

Definition resolve_network (item : Value) : result NetworkDefinition :=
  let* id := text_at item "id" in
  let* name := text_at item "profile" in
  let* profile := map_at (profile_of name) in
  let* gateway := string_or item "gateway" EmptyString in
  let* l := entries item "subnets" in
  let* subnets := map_result text l in
  Ok {| network_id := id; profile := Some profile; subnets := subnets; gateway := gateway;
        uplink := EmptyString; external_network := false |}.

Definition resolve_vlan (p : Value) : result VlanMetadata :=
  if negb (contains p "vlan") then Ok {| access_tag := None; trunks := [] |}
  else
    let* vlan := at_ p "vlan" in
    let* tag :=
      (if contains vlan "access_tag"
       then let* tag := integer_at vlan "access_tag" in Ok (Some (u16 tag))
       else Ok None) in
    let* l := entries vlan "trunks" in
    let* trunks := map_result (fun trunk => let* t := integer trunk in Ok (u16 t)) l in
    Ok {| access_tag := tag; trunks := trunks |}.

Definition resolve_port (p : Value) : result SwitchPortDefinition :=
  let* id := text_at p "id" in
  let* interface := text_at p "interface" in
  let* peer := string_or p "peer" EmptyString in
  let* vlan := resolve_vlan p in
  Ok {| port_id := id; port_interface := interface; port_peer := peer; vlan := vlan |}.

Definition resolve_mirror (item : Value) : result (option MirrorDefinition) :=
  if negb (contains item "mirror") then Ok None
  else
    let* m := at_ item "mirror" in
    let* id := text_at m "id" in
    let* port := text_at m "output_port" in
    let* all := bool_or m "select_all" true in
    Ok (Some {| mirror_id := id; output_port := port; select_all := all |}).

(** The authored identifiers of the switches and the names of their bridges *)
Abbreviation SwitchNames := (gmap string string).

Definition resolve_switch (item : Value) (s : SwitchNames * list SwitchDefinition)
    : result (SwitchNames * list SwitchDefinition) :=
  let (names, done) := s in
  let* name := text_at item "name" in
  let* id := text_at item "id" in
  let* _ := throw_if (match names !! id with Some _ => true | None => false end)
              (InvalidArgument "E_REFERENCE: duplicate resolved switch") in
  let* l := array_at item "ports" in
  let* ports := map_result resolve_port l in
  let* mirror := resolve_mirror item in
  Ok (<[id := name]> names,
      done ++ [{| switch_id := name; switch_kind := openvswitch; datapath := "system";
                  ports := ports; mirror := mirror |}]).

Definition resolve_route (value : Value) : result RouteDefinition :=
  let* destination := text_at value "destination" in
  let* via := string_or value "via" EmptyString in
  let* device := string_or value "device" EmptyString in
  let* install := string_or value "install" "create" in
  Ok {| destination := destination; via := via; device := device;
        install_on_create := String.eqb install "create" |}.

Definition resolve_interface (names : SwitchNames) (i : Value)
    : result RouterInterfaceDefinition :=
  let* id := text_at i "id" in
  let* network := text_at i "network" in
  let* address := text_at i "address" in
  let* device := text_at i "device" in
  let* peer := text_at i "peer" in
  let* sw := text_at i "switch" in
  let* name := map_at (names !! sw) in
  Ok {| interface_id := id; interface_network := network; interface_address := address;
        interface_device := device; interface_peer := peer; interface_switch := name |}.

Definition resolve_policy (p : Value) : result PolicyDefinition :=
  let* id := text_at p "id" in
  let* source := text_at p "source" in
  let* destination := text_at p "destination" in
  let* action := text_at p "action" in
  Ok {| policy_id := id; policy_source := source; policy_destination := destination;
        action := action |}.

Definition resolve_router (names : SwitchNames) (item : Value) : result RouterDefinition :=
  let* id := text_at item "id" in
  let* namespace := text_at item "namespace" in
  let* forwarding := bool_or item "forwarding" true in
  let* l := array_at item "interfaces" in
  let* interfaces := map_result (resolve_interface names) l in
  let* l := entries item "routes" in
  let* routes := map_result resolve_route l in
  let* l := entries item "policies" in
  let* policies := map_result resolve_policy l in
  Ok {| router_id := id; router_kind := linux_namespace; namespace_name := namespace;
        forwarding := forwarding; interfaces := interfaces; router_routes := routes;
        policies := policies |}.

Definition resolve_attachment_fields (names : SwitchNames) (item : Value)
    : result AttachmentDefinition :=
  let* id := text_at item "id" in
  let* name := text_at item "kind" in
  let* kind := map_at (kind_of name) in
  let* owner := text_at item "owner" in
  let* network := string_or item "network" EmptyString in
  let* address := string_or item "address" EmptyString in
  let* mac := string_or item "mac" EmptyString in
  let* interface := string_or item "interface" EmptyString in
  let* peer := string_or item "peer" EmptyString in
  let* network_switch :=
    (if contains item "switch"
     then let* sw := text_at item "switch" in map_at (names !! sw)
     else Ok EmptyString) in
  let* delivery := string_or item "delivery" "host" in
  let* mtu := integer_or item "mtu" 1500 in
  let* uid := integer_or item "tap_uid" 0 in
  let* gid := integer_or item "tap_gid" 0 in
  let* l := entries item "routes" in
  let* routes := map_result resolve_route l in
  let* l := entries item "aliases" in
  let* aliases := map_result text l in
  Ok {| mirror_container := String.eqb delivery "container"; attachment_id := id; kind := kind;
        owner := owner; network := network; attachment_address := address; mac := mac;
        interface := interface; peer := peer; network_switch := network_switch;
        mtu := u32 mtu; tap_uid := u32 uid; tap_gid := u32 gid; routes := routes;
        aliases := aliases |}.

(** A namespace that no router owns becomes a router without forwarding. *)
Definition own_namespace (a : AttachmentDefinition) (item : Value) (rs : list RouterDefinition)
    : result (list RouterDefinition) :=
  if negb (bool_decide (kind a = namespace_veth) && contains item "namespace") then Ok rs
  else
    let* namespace := text_at item "namespace" in
    match List.find (fun r => String.eqb (router_id r) (owner a)) rs with
    | None =>
        Ok (rs ++ [{| router_id := owner a; router_kind := linux_namespace;
                      namespace_name := namespace; forwarding := false; interfaces := [];
                      router_routes := []; policies := [] |}])
    | Some r =>
        let* _ := throw_if (negb (String.eqb (namespace_name r) namespace))
                    (InvalidArgument "E_REFERENCE: conflicting namespace ownership") in
        Ok rs
    end.

Definition resolve_attachment (names : SwitchNames) (item : Value)
    (s : list RouterDefinition * list AttachmentDefinition)
    : result (list RouterDefinition * list AttachmentDefinition) :=
  let (rs, done) := s in
  let* a := resolve_attachment_fields names item in
  let* rs := own_namespace a item rs in
  Ok (rs, done ++ [a]).

Definition resolve_capture (item : Value) : result NetworkCaptureDefinition :=
  let* id := text_at item "id" in
  let* attachment := text_at item "attachment" in
  let* directory := text_at item "directory" in
  let* snaplen := integer_at item "snaplen" in
  let* bytes := integer_at item "max_file_bytes" in
  let* files := integer_at item "max_files" in
  let* rotation := integer_at item "rotation_seconds" in
  let* retention := integer_at item "retention_seconds" in
  Ok {| capture_id := id; attachment := attachment; directory := directory;
        snaplen := u32 snaplen; max_file_bytes := u64 bytes; max_files := u32 files;
        rotation_seconds := u32 rotation; retention_seconds := u32 retention |}.

Definition resolve_path (kv : string * Value) : result EdgeNetworkPath :=
  let* l := array kv.2 in
  let* hops := map_result text l in
  Ok {| edge_id := kv.1; hops := hops |}.

Definition resolved_network (value : Value) : result NetworkInfrastructureConfig :=
  let* l := array_at value "networks" in
  let* networks := map_result resolve_network l in
  let* l := array_at value "switches" in
  let* (names, switches) := fold_result resolve_switch l (∅, []) in
  let* l := array_at value "routers" in
  let* routers := map_result (resolve_router names) l in
  let* l := array_at value "attachments" in
  let* (routers, attachments) := fold_result (resolve_attachment names) l (routers, []) in
  let* l := array_at value "captures" in
  let* captures := map_result resolve_capture l in
  let* l := object_field value "edge_paths" in
  let* edge_paths := map_result resolve_path l in
  Ok {| networks := networks; switches := switches; routers := routers;
        attachments := attachments; edge_paths := edge_paths; captures := captures |}.

End ResolvedNetwork.

(** * References of the resolved network

    Every switch a router interface or an attachment names is a bridge of the
    resolved network, and every diagnostic namespace belongs to exactly the
    router record that a lookup of its owner returns. *)

From Stdlib Require Import ZArith Lia Strings.Byte Strings.Ascii Strings.String Floats.SpecFloat.
From stdpp Require Import base gmap strings list.
From S2P Require Import Prelude ConfigValue ConfigValueProofs ConfigNetwork.

Module ResolvedNetworkProofs.
Import ConfigValue ConfigValueProofs ConfigNetwork ResolvedNetwork.
Local Open Scope Z_scope.

(** ** Switches *)

(** [sw] is the authored identifier and [name] the bridge name of a switch. *)
Definition names_bridge (items : Array) (sw name : string) : Prop :=
  exists s, s ∈ items /\ text_at s "id" = Ok sw /\ text_at s "name" = Ok name.

Definition switches_resolved (items : Array) (s : SwitchNames * list SwitchDefinition) : Prop :=
  (forall sw name, s.1 !! sw = Some name <-> names_bridge items sw name)
  /\ Forall2 (fun item d => text_at item "name" = Ok (switch_id d)) items s.2
  /\ (forall sw n m, names_bridge items sw n -> names_bridge items sw m -> n = m).

Lemma names_bridge_snoc items item sw name :
  names_bridge (items ++ [item]) sw name
  <-> names_bridge items sw name
      \/ text_at item "id" = Ok sw /\ text_at item "name" = Ok name.
Proof.
  unfold names_bridge. setoid_rewrite elem_of_app. setoid_rewrite list_elem_of_singleton.
  split; [intros (s & [Hs| ->] & H); [left; by exists s|by right]|].
  intros [(s & Hs & H)|H]; [exists s; auto|exists item; auto].
Qed.

Lemma resolve_switch_ok item names d s :
  resolve_switch item (names, d) = Ok s ->
  exists id name sd, s = (<[id := name]> names, d ++ [sd])
    /\ text_at item "id" = Ok id /\ text_at item "name" = Ok name
    /\ switch_id sd = name /\ names !! id = None.
Proof.
  unfold resolve_switch. intros H. apply bind_ok in H as (name & Hname & H).
  apply bind_ok in H as (id & Hid & H). apply bind_ok in H as ([] & Hnew%throw_if_ok & H).
  apply bind_ok in H as (l & _ & H). apply bind_ok in H as (ps & _ & H).
  apply bind_ok in H as (m & _ & [= <-]).
  eexists id, name, _. split; [reflexivity|]. split_and!; [done..|]. by destruct (names !! id).
Qed.

Lemma switches_resolve items names ds :
  fold_result resolve_switch items (∅, []) = Ok (names, ds) ->
  switches_resolved items (names, ds).
Proof.
  apply (fold_result_prefix switches_resolved).
  - split_and!; [|constructor|by intros ? ? ? (s & Hs%not_elem_of_nil & _)].
    intros sw name. cbn [fst]; rewrite lookup_empty. split; [done|by intros (s & Hs%not_elem_of_nil & _)].
  - intros pre item [nm d] s _ (Hn & Hd & Hu) H. cbn [fst snd] in *.
    apply resolve_switch_ok in H as (id & name & sd & -> & Hid & Hname & Hsd & Hnew).
    assert (Hno : forall n, ~ names_bridge pre id n).
    { intros n Hb%Hn. congruence. }
    split_and!; cbn [fst snd].
    + intros sw n. rewrite names_bridge_snoc, <-Hn, Hid, Hname, lookup_insert_Some.
      destruct (decide (id = sw)) as [->|Hne].
      * split; [intros [[_ ->]|[? _]]; [by right|done]|].
        intros [H|[_ [= ->]]]; [congruence|by left].
      * split; [intros [[? _]|[_ H]]; [done|by left]|].
        intros [H|[[= ?] _]]; [by right|done].
    + apply Forall2_app; [done|]. constructor; [by rewrite Hsd|constructor].
    + intros sw n m. rewrite !names_bridge_snoc, Hid, Hname.
      intros [H1|[[= <-] [= <-]]] [H2|[E [= <-]]]; try done; [by eapply Hu|..].
      * injection E as <-. by apply Hno in H1.
      * by apply Hno in H2.
Qed.

(** The names are those of resolved switches. *)
Lemma names_bridge_switch items ds sw name :
  Forall2 (fun item d => text_at item "name" = Ok (switch_id d)) items ds ->
  names_bridge items sw name -> name ∈ map switch_id ds.
Proof.
  intros H (s & Hs & _ & Hname).
  apply list_elem_of_lookup_1 in Hs as (i & Hi).
  destruct (Forall2_lookup_l _ _ _ _ _ H Hi) as (d & Hd & E). rewrite Hname in E.
  injection E as ->. apply list_elem_of_fmap. exists d. split; [done|].
  by eapply list_elem_of_lookup_2.
Qed.

(** [lookup_id] finds something exactly for the identifiers present. *)
Lemma lookup_id_present {A} (f : A -> string) k id l :
  id ∈ map f l <-> exists a, lookup_id f k id l = Ok a /\ f a = id.
Proof.
  unfold lookup_id. split.
  - intros (a & -> & Ha)%list_elem_of_fmap. destruct (List.find _ l) as [b|] eqn:E.
    + apply List.find_some in E as [_ E]. apply String.eqb_eq in E. by exists b.
    + apply list_elem_of_In in Ha. apply (List.find_none _ _ E) in Ha.
      by apply String.eqb_neq in Ha.
  - intros (a & H & <-). destruct (List.find _ l) as [b|] eqn:E; [|done].
    injection H as ->. apply List.find_some in E as [E _].
    apply list_elem_of_fmap. exists a. split; [done|]. by apply list_elem_of_In.
Qed.

(** ** Interfaces, routers and attachments *)

Definition interface_resolved (sws : Array) (i : Value) (d : RouterInterfaceDefinition) : Prop :=
  text_at i "id" = Ok (interface_id d)
  /\ exists sw, text_at i "switch" = Ok sw /\ names_bridge sws sw (interface_switch d).

Definition router_resolved (sws : Array) (item : Value) (r : RouterDefinition) : Prop :=
  text_at item "id" = Ok (router_id r) /\ text_at item "namespace" = Ok (namespace_name r)
  /\ exists l, array_at item "interfaces" = Ok l /\ Forall2 (interface_resolved sws) l (interfaces r).

Definition attachment_resolved (sws : Array) (item : Value) (a : AttachmentDefinition) : Prop :=
  text_at item "id" = Ok (attachment_id a) /\ text_at item "owner" = Ok (owner a)
  /\ (exists name, text_at item "kind" = Ok name /\ kind_of name = Some (kind a))
  /\ if contains item "switch"
     then exists sw, text_at item "switch" = Ok sw /\ names_bridge sws sw (network_switch a)
     else network_switch a = EmptyString.

Section Names.
Context (sws : Array) (names : SwitchNames).
Hypothesis Hnames : forall sw name, names !! sw = Some name <-> names_bridge sws sw name.

Lemma map_at_bridge sw name : map_at (names !! sw) = Ok name -> names_bridge sws sw name.
Proof. intros H. apply Hnames. destruct (names !! sw); by simplify_eq/=. Qed.

Lemma resolve_interface_ok i d : resolve_interface names i = Ok d -> interface_resolved sws i d.
Proof.
  unfold resolve_interface. intros H. apply bind_ok in H as (id & Hid & H).
  do 4 (apply bind_ok in H as (? & _ & H)). apply bind_ok in H as (sw & Hsw & H).
  apply bind_ok in H as (name & Hn%map_at_bridge & [= <-]). split; [done|by exists sw].
Qed.

Lemma resolve_router_ok item r : resolve_router names item = Ok r -> router_resolved sws item r.
Proof.
  unfold resolve_router. intros H. apply bind_ok in H as (id & Hid & H).
  apply bind_ok in H as (ns & Hns & H). apply bind_ok in H as (fw & _ & H).
  apply bind_ok in H as (l & Hl & H). apply bind_ok in H as (ifs & Hifs%map_result_ok & H).
  do 4 (apply bind_ok in H as (? & _ & H)). injection H as <-. split_and!; [done..|].
  exists l. split; [done|]. eapply Forall2_impl; [exact Hifs|]. by apply resolve_interface_ok.
Qed.

Lemma resolve_attachment_fields_ok item a :
  resolve_attachment_fields names item = Ok a -> attachment_resolved sws item a.
Proof.
  unfold resolve_attachment_fields, attachment_resolved. intros H.
  apply bind_ok in H as (id & Hid & H).
  apply bind_ok in H as (name & Hname & H). apply bind_ok in H as (k & Hk & H).
  apply bind_ok in H as (o & Ho & H). do 5 (apply bind_ok in H as (? & _ & H)).
  apply bind_ok in H as (sw & Hsw & H). do 8 (apply bind_ok in H as (? & _ & H)).
  injection H as <-. split_and!; [done..| |].
  - exists name. split; [done|]. cbn. destruct (kind_of name); by simplify_eq/=.
  - cbn. destruct (contains item "switch"); [|by injection Hsw as <-].
    apply bind_ok in Hsw as (id' & Hid' & Hsw%map_at_bridge). by exists id'.
Qed.
End Names.

(** ** Namespaces *)

Definition find_id (id : string) (rs : list RouterDefinition) : option RouterDefinition :=
  List.find (fun r => String.eqb (router_id r) id) rs.

Lemma find_id_app id rs r :
  find_id id (rs ++ [r])
  = match find_id id rs with
    | Some x => Some x
    | None => if String.eqb (router_id r) id then Some r else None
    end.
Proof. induction rs as [|x rs IH]; simpl; [done|]. by destruct (String.eqb (router_id x) id). Qed.

(** The routers [rs] own the namespace of the attachment [a] of [item]. *)
Definition owns_namespace (rs : list RouterDefinition) (item : Value) (a : AttachmentDefinition)
    : Prop :=
  forall ns, kind a = namespace_veth -> text_at item "namespace" = Ok ns ->
  exists r, find_id (owner a) rs = Some r /\ namespace_name r = ns.

(** A router without forwarding and interfaces, for a namespace only *)
Definition namespace_only (r : RouterDefinition) : Prop :=
  forwarding r = false /\ interfaces r = [] /\ router_routes r = [] /\ policies r = [].

(** What the loop over the attachments has added to the authored routers *)
Definition extends (authored rs : list RouterDefinition) : Prop :=
  exists added, rs = authored ++ added /\ Forall namespace_only added
    /\ NoDup (map router_id added)
    /\ forall r, r ∈ added -> router_id r ∉ map router_id authored.

Lemma find_id_none id rs : find_id id rs = None <-> id ∉ map router_id rs.
Proof.
  induction rs as [|r rs IH]; simpl; [by split; [intros _ ?%not_elem_of_nil|]|].
  rewrite not_elem_of_cons. destruct (String.eqb_spec (router_id r) id) as [->|Hne].
  - split; [done|by intros []].
  - rewrite IH. split; [by split|by intros []].
Qed.

Lemma own_namespace_ok a item authored rs rs' :
  extends authored rs -> own_namespace a item rs = Ok rs' ->
  extends authored rs' /\ owns_namespace rs' item a
  /\ forall id r, find_id id rs = Some r -> find_id id rs' = Some r.
Proof.
  unfold own_namespace, owns_namespace. intros Hext H.
  destruct (negb _) eqn:Eg.
  { injection H as <-. split_and!; [done| |done]. intros ns Hk Hns.
    rewrite bool_decide_eq_true_2 in Eg by done. cbn in Eg.
    apply bind_ok in Hns as (x & Hx%at_contains & _). by rewrite Hx in Eg. }
  apply bind_ok in H as (ns & Hns & H). fold (find_id (owner a) rs) in H.
  destruct (find_id (owner a) rs) as [r|] eqn:Er.
  - apply bind_ok in H as ([] & Hsame%throw_if_ok & [= <-]). reflect_bools.
    split_and!; [done| |done]. intros ns' _ Hns'. rewrite Hns' in Hns. injection Hns as ->.
    by exists r.
  - injection H as <-. split_and!.
    + destruct Hext as (added & -> & Hall & Hnd & Hfresh).
      apply find_id_none in Er. rewrite map_app, not_elem_of_app in Er. destruct Er as [Ea Eb].
      eexists (added ++ [_]). split; [by rewrite <-app_assoc|].
      split_and!; [by apply Forall_app; split; [|repeat constructor]| |].
      * rewrite map_app. apply NoDup_app. split_and!; [done| |apply NoDup_singleton].
        intros x Hx Hx'. apply list_elem_of_singleton in Hx'. by subst.
      * intros x [Hx|Hx]%elem_of_app; [by apply Hfresh|].
        by apply list_elem_of_singleton in Hx as ->.
    + intros ns' _ Hns'. rewrite Hns' in Hns. injection Hns as ->. eexists.
      rewrite find_id_app, Er. cbn. by rewrite String.eqb_refl.
    + intros id r Hr. by rewrite find_id_app, Hr.
Qed.

Definition loop_invariant (sws : Array) (authored : list RouterDefinition) (pre : Array)
    (s : list RouterDefinition * list AttachmentDefinition) : Prop :=
  extends authored s.1 /\ Forall2 (attachment_resolved sws) pre s.2
  /\ Forall2 (owns_namespace s.1) pre s.2.

Lemma attachments_resolve sws names authored items s :
  (forall sw name, names !! sw = Some name <-> names_bridge sws sw name) ->
  fold_result (resolve_attachment names) items (authored, []) = Ok s ->
  loop_invariant sws authored items s.
Proof.
  intros Hnames. apply fold_result_prefix.
  - split_and!; [|constructor..]. exists []. rewrite app_nil_r.
    split_and!; [done|constructor..|by intros ? ?%not_elem_of_nil].
  - intros pre item [rs d] s' _ (Hext & Hres & Hown) H. unfold resolve_attachment in H.
    apply bind_ok in H as (a & Ha%(resolve_attachment_fields_ok sws names Hnames) & H).
    apply bind_ok in H as (rs' & Hrs & [= <-]).
    destruct (own_namespace_ok _ _ _ _ _ Hext Hrs) as (Hext' & Ho & Hkeep).
    split_and!; cbn [fst snd] in *; [done|by apply Forall2_app; [|constructor]|].
    apply Forall2_app; [|by constructor]. eapply Forall2_impl; [exact Hown|].
    intros x y Hxy ns Hk Hns. destruct (Hxy ns Hk Hns) as (r & Hr & E).
    exists r. split; [by apply Hkeep|done].
Qed.

Lemma resolved_network_ok v c :
  resolved_network v = Ok c ->
  exists sws rts atts authored,
    array_at v "switches" = Ok sws /\ array_at v "routers" = Ok rts
    /\ array_at v "attachments" = Ok atts
    /\ (exists names, switches_resolved sws (names, switches c))
    /\ Forall2 (router_resolved sws) rts authored
    /\ loop_invariant sws authored atts (routers c, attachments c).
Proof.
  unfold resolved_network. intros H. do 2 (apply bind_ok in H as (? & _ & H)).
  apply bind_ok in H as (sws & Hsws & H). apply bind_ok in H as ([names ds] & Hds & H).
  apply bind_ok in H as (rts & Hrts & H). apply bind_ok in H as (rs & Hrs & H).
  apply bind_ok in H as (atts & Hatts & H). apply bind_ok in H as ([rs' as_] & Has & H).
  do 4 (apply bind_ok in H as (? & _ & H)). injection H as <-.
  apply switches_resolve in Hds. pose proof Hds as (Hn & _). cbn [fst] in Hn.
  exists sws, rts, atts, rs. split_and!; [done..|by exists names| |].
  - apply map_result_ok in Hrs. eapply Forall2_impl; [exact Hrs|]. by apply resolve_router_ok.
  - by eapply attachments_resolve in Has.
Qed.

(** In a resolved network every switch named by a router interface or an
    attachment is the one bridge resolved from the authored switch, and a
    lookup of that bridge succeeds; what named no switch still names none. *)
Theorem references_resolved v c :
  resolved_network v = Ok c ->
  exists sws rts atts authored,
    array_at v "switches" = Ok sws /\ array_at v "routers" = Ok rts
    /\ array_at v "attachments" = Ok atts
    /\ Forall2 (router_resolved sws) rts authored /\ authored `prefix_of` routers c
    /\ Forall2 (attachment_resolved sws) atts (attachments c)
    /\ (forall sw n m, names_bridge sws sw n -> names_bridge sws sw m -> n = m)
    /\ forall sw name, names_bridge sws sw name ->
         exists d, find_switch c name = Ok d /\ switch_id d = name.
Proof.
  intros (sws & rts & atts & authored & H1 & H2 & H3 & (names & _ & Hd & Hu) & Hr & Hext & Ha & _)
    %resolved_network_ok.
  exists sws, rts, atts, authored. split_and!; try done.
  - destruct Hext as (added & E & _). exists added. exact E.
  - intros sw name Hb. apply lookup_id_present. by eapply names_bridge_switch.
Qed.

(** The namespace of every namespace attachment belongs to the router that
    a lookup of the attachment's owner returns; the routers added for that
    purpose do not forward, have no interfaces, routes or policies, and share
    their identifiers with no other router. *)
Theorem namespaces_owned v c :
  resolved_network v = Ok c ->
  exists rts atts authored added,
    array_at v "routers" = Ok rts /\ array_at v "attachments" = Ok atts
    /\ length authored = length rts /\ routers c = authored ++ added
    /\ Forall namespace_only added /\ NoDup (map router_id added)
    /\ (forall r, r ∈ added -> router_id r ∉ map router_id authored)
    /\ forall i item a ns, atts !! i = Some item -> attachments c !! i = Some a ->
         kind a = namespace_veth -> text_at item "namespace" = Ok ns ->
         exists r, find_router c (owner a) = Ok r /\ router_id r = owner a
                   /\ namespace_name r = ns.
Proof.
  intros (sws & rts & atts & authored & _ & H2 & H3 & _ & Hr & Hext & _ & Hown)
    %resolved_network_ok.
  destruct Hext as (added & E & Hall & Hnd & Hfresh). cbn [fst] in E.
  exists rts, atts, authored, added. split_and!; try done.
  { symmetry. by eapply Forall2_length. }
  intros i item a ns Hi Ha Hk Hns.
  destruct (Forall2_lookup_lr _ _ _ _ _ _ Hown Hi Ha ns Hk Hns) as (r & Hfind & Hname).
  cbn [fst] in Hfind. exists r. unfold find_router, lookup_id. unfold find_id in Hfind.
  rewrite Hfind. split_and!; [done| |done].
  by apply List.find_some in Hfind as [_ Heq%String.eqb_eq].
Qed.

(** ** A network with a switch, a router and a diagnostic namespace *)

Definition sample_network : Value :=
  VObj [("attachments", VArr
           [VObj [("id", VStr "probe-eth"); ("kind", VStr "namespace_veth");
                  ("namespace", VStr "gxnprobe"); ("owner", VStr "probe"); ("switch", VStr "s1")];
            VObj [("id", VStr "edge"); ("kind", VStr "namespace_veth"); ("owner", VStr "r1");
                  ("namespace", VStr "gxnrouter"); ("switch", VStr "s1")]]);
        ("captures", VArr []); ("edge_paths", VObj []); ("networks", VArr []);
        ("routers", VArr
           [VObj [("id", VStr "r1");
                  ("interfaces", VArr [VObj [("address", VStr "10.0.0.1/24"); ("device", VStr "d");
                                             ("id", VStr "i"); ("network", VStr "lan");
                                             ("peer", VStr "p"); ("switch", VStr "s1")]]);
                  ("namespace", VStr "gxnrouter")]]);
        ("switches", VArr [VObj [("id", VStr "s1"); ("name", VStr "gxbs1"); ("ports", VArr [])]])].
Definition sample_resolved : NetworkInfrastructureConfig :=
  match resolved_network sample_network with
  | Ok c => c
  | Throw _ => {| networks := []; switches := []; routers := []; attachments := [];
                  edge_paths := []; captures := [] |}
  end.

Lemma references_resolved_witness :
  exists sws rts atts authored,
    array_at sample_network "switches" = Ok sws /\ array_at sample_network "routers" = Ok rts
    /\ array_at sample_network "attachments" = Ok atts
    /\ Forall2 (router_resolved sws) rts authored /\ authored `prefix_of` routers sample_resolved
    /\ Forall2 (attachment_resolved sws) atts (attachments sample_resolved)
    /\ (forall sw n m, names_bridge sws sw n -> names_bridge sws sw m -> n = m)
    /\ forall sw name, names_bridge sws sw name ->
         exists d, find_switch sample_resolved name = Ok d /\ switch_id d = name.
Proof. apply (references_resolved sample_network sample_resolved). vm_compute; reflexivity. Defined.

Lemma namespaces_owned_witness :
  exists rts atts authored added,
    array_at sample_network "routers" = Ok rts /\ array_at sample_network "attachments" = Ok atts
    /\ length authored = length rts /\ routers sample_resolved = authored ++ added
    /\ Forall namespace_only added /\ NoDup (map router_id added)
    /\ (forall r, r ∈ added -> router_id r ∉ map router_id authored)
    /\ forall i item a ns, atts !! i = Some item -> attachments sample_resolved !! i = Some a ->
         kind a = namespace_veth -> text_at item "namespace" = Ok ns ->
         exists r, find_router sample_resolved (owner a) = Ok r /\ router_id r = owner a
                   /\ namespace_name r = ns.
Proof. apply (namespaces_owned sample_network sample_resolved). vm_compute; reflexivity. Defined.

End ResolvedNetworkProofs.
