(* ===== verification/Spectrum.v ===== *)
(** * Power-spectrum datagrams (src/src/vita/processing.cpp)

    The configuration of a processor, the checks of a spectrum and its wire
    format.  [vita::runtime::timing::SampleTimeline] belongs to the VITA
    runtime library: its type and operations are parameters.  A [float] is its
    32-bit pattern; the code moves it with [std::bit_cast] only. *)

From Stdlib Require Import ZArith Lia Strings.Byte Strings.String.
From stdpp Require Import base list strings.
From S2P Require Import Prelude.

Module Spectrum.
Local Open Scope Z_scope.

Record ProtocolTime := { seconds : Z; picoseconds : Z }.
#[export] Instance ProtocolTime_eq_dec : EqDecision ProtocolTime.
Proof. solve_decision. Defined.

Record ProcessingConfig := { rate : Z; size : Z; overlap : Z; hann : bool }.

(** [ProcessingConfig::hop], in 32-bit arithmetic *)
Definition hop (c : ProcessingConfig) : Z := u32 (size c * u32 (100 - overlap c)) / 100.

Record Spectrum := {
  stream : Z; sequence : Z; s_rate : Z; s_size : Z; s_hop : Z; valid : Z; s_hann : bool;
  center : Z; discontinuities : Z; ordinal : Z; sequence_gaps : Z;
  begin_time : ProtocolTime; end_time : ProtocolTime; epoch : ProtocolTime;
  power : list Z; gaps : list byte; boundaries : list byte }.

Definition require (yes : bool) : result unit :=
  throw_if (negb yes) (InvalidArgument "invalid power spectrum").

(** [std::has_single_bit] *)
Definition has_single_bit (n : Z) : bool := negb (n =? 0) && (Z.land n (n - 1) =? 0).

Definition validate_config (c : ProcessingConfig) : result unit :=
  let* _ := require ((1000 <=? rate c) && (rate c <=? 2000000) && (64 <=? size c)
                     && (size c <=? 2048) && has_single_bit (size c)) in
  require ((overlap c =? 0) || (overlap c =? 50) || (overlap c =? 75)).

Definition spectrum_bytes (n : Z) : result Z :=
  let* _ := require ((64 <=? n) && (n <=? 2048) && has_single_bit n) in
  Ok (132 + n / 4 + 4 * n).

(** ** Offsets in a buffer *)

(** [out.at(i) = b] *)
Definition set_at (i : nat) (b : byte) (out : list byte) : result (list byte) :=
  if (i <? length out)%nat then Ok (<[i := b]> out) else Throw (OutOfRange "vector::at").

Definition put (out : list byte) (offset : nat) (value : Z) (count : nat) : result (list byte) :=
  fold_result (fun i out =>
      set_at (offset + i)
        (byte_of_Z (Z.land (Z.shiftr value (8 * Z.of_nat (count - i - 1))) 255)) out)
    (seq 0 count) out.

(** The accumulator of [get] has 64 bits. *)
Definition get (input : list byte) (offset count : nat) : result Z :=
  let* _ := require (offset + count <=? length input)%nat in
  Ok (fold_left (fun acc b => Z.lor (Z.shiftl acc 8 mod 2 ^ 64) (Z_of_byte b))
        (take count (drop offset input)) 0).

(** [std::isfinite(power) && power >= 0], on the pattern: -0 is not negative. *)
Definition usable_power (bits : Z) : bool :=
  negb (Z.land (Z.shiftr bits 23) 255 =? 255) && ((bits <? 2 ^ 31) || (bits =? 2 ^ 31)).

(** [std::popcount] of a byte *)
Definition popcount (b : byte) : Z :=
  fold_left (fun n i => if Z.testbit (Z_of_byte b) (Z.of_nat i) then n + 1 else n) (seq 0 8) 0.

Section Codec.
Context {Timeline : Type} (create : ProtocolTime -> Z -> option Timeline)
  (advance : Timeline -> Z -> option Timeline) (time : Timeline -> ProtocolTime).

(** The times of a spectrum are those of its samples. *)
Definition timeline_agrees (s : Spectrum) : bool :=
  match create (epoch s) (s_rate s) with
  | None => false
  | Some t =>
      match advance t (ordinal s) with
      | None => false
      | Some t =>
          bool_decide (time t = begin_time s)
          && match advance t (s_size s) with
             | None => false
             | Some t => bool_decide (time t = end_time s)
             end
      end
  end.

Definition validate (s : Spectrum) : result unit :=
  let* _ := require (negb (s_hop s =? 0) && (s_hop s <=? s_size s)
                     && (s_size s mod s_hop s =? 0)) in
  let* _ := validate_config {| rate := s_rate s; size := s_size s; hann := s_hann s;
                               overlap := u32 (100 - u32 (s_hop s * 100) / s_size s) |} in
  let* _ := require ((1 <=? stream s) && (stream s <=? 4) && (1000000 <=? center s)
                     && (center s <=? 6000000000)) in
  let eighth := Z.to_nat (s_size s / 8) in
  let* _ := require ((valid s <=? s_size s)
                     && (Z.of_nat (length (power s)) =? s_size s)
                     && (length (gaps s) =? eighth)%nat
                     && (length (boundaries s) =? eighth + 4)%nat) in
  let* _ := require (Z.land (Z_of_byte (nth eighth (boundaries s) x00)) 127 =? 0) in
  let* _ := for_each (fun b => require (Z_of_byte b =? 0)) (drop (eighth + 1) (boundaries s)) in
  let* _ := require (timeline_agrees s) in
  let missing := fold_left (fun n b => u32 (n + popcount b)) (gaps s) 0 in
  let* _ := require (u32 (valid s + missing) =? s_size s) in
  for_each (fun p => require (usable_power p)) (power s).

(** [put(out, offset, value, count)] for each entry, in order *)
Definition put_all (fields : list (nat * Z * nat)) (out : list byte) : result (list byte) :=
  fold_result (fun field out => let '(offset, value, count) := field in put out offset value count)
    fields out.

(** One entry: offset, value, width *)
Definition field (offset : nat) (value : Z) (count : nat) : nat * Z * nat := (offset, value, count).

(** The header of 128 bytes; the byte at 31 stays zero. *)
Definition header_fields (s : Spectrum) (bytes : Z) : list (nat * Z * nat) :=
  [field 0 0x47585032 4; field 4 1 2; field 6 128 2; field 8 bytes 4; field 12 (stream s) 4;
   field 16 (sequence s) 4; field 20 (s_size s) 4; field 24 (s_hop s) 4;
   field 28 (Z.b2z (s_hann s)) 1; field 29 1 1; field 30 1 1; field 32 (center s) 8;
   field 40 (s_rate s) 8; field 48 (seconds (begin_time s)) 8;
   field 56 (picoseconds (begin_time s)) 8; field 64 (seconds (end_time s)) 8;
   field 72 (picoseconds (end_time s)) 8; field 80 (valid s) 4;
   field 84 (u32 (s_size s - valid s)) 4; field 88 (discontinuities s) 8;
   field 96 (seconds (epoch s)) 8; field 104 (picoseconds (epoch s)) 8; field 112 (ordinal s) 8;
   field 120 (sequence_gaps s) 8].

(** [std::copy(from.begin(), from.end(), out.begin() + offset)] within the buffer *)
Definition copy_to (from : list byte) (offset : nat) (out : list byte) : list byte :=
  take offset out ++ from ++ drop (offset + length from) out.

Definition power_fields (s : Spectrum) : list (nat * Z * nat) :=
  imap (fun i bits => field (132 + Z.to_nat (s_size s) / 4 + 4 * i) bits 4) (power s).

Definition encode_spectrum (s : Spectrum) : result (list byte) :=
  let* _ := validate s in
  let* bytes := spectrum_bytes (s_size s) in
  let* out := put_all (header_fields s bytes) (replicate (Z.to_nat bytes) x00) in
  let out := copy_to (gaps s) 128 out in
  let out := copy_to (boundaries s) (128 + Z.to_nat (s_size s) / 8) out in
  put_all (power_fields s) out.

Definition get_time (input : list byte) (offset : nat) : result ProtocolTime :=
  let* sec := get input offset 8 in
  let* ps := get input (offset + 8) 8 in
  Ok {| seconds := sec; picoseconds := ps |}.

(** [get(in, offset, count) == value] *)
Definition has (input : list byte) (offset count : nat) (value : Z) : result bool :=
  let* v := get input offset count in Ok (v =? value).

Definition check_header (input : list byte) : result unit :=
  if negb (128 <=? length input)%nat then require false
  else
    let* magic := has input 0 4 0x47585032 in
    let* version := has input 4 2 1 in
    let* header := has input 6 2 128 in
    let* bytes := has input 8 4 (Z.of_nat (length input)) in
    require (magic && version && header && bytes).

Definition check_flags (input : list byte) : result unit :=
  let* hann := get input 28 1 in
  let* order := has input 29 1 1 in
  let* format := has input 30 1 1 in
  let* reserved := has input 31 1 0 in
  require ((hann <=? 1) && order && format && reserved).

Definition decode_spectrum (input : list byte) : result Spectrum :=
  let* _ := check_header input in
  let* stream := get input 12 4 in
  let* sequence := get input 16 4 in
  let* size := get input 20 4 in
  let* hop := get input 24 4 in
  let* bytes := spectrum_bytes size in
  let* _ := require (Z.of_nat (length input) =? bytes) in
  let* _ := check_flags input in
  let* hann := get input 28 1 in
  let* center := get input 32 8 in
  let* rate := get input 40 8 in
  let* _ := require (rate <=? 2000000) in
  let* begin_time := get_time input 48 in
  let* end_time := get_time input 64 in
  let* valid := get input 80 4 in
  let* missing := get input 84 4 in
  let* _ := require (missing =? u32 (size - valid)) in
  let* discontinuities := get input 88 8 in
  let* epoch := get_time input 96 in
  let* ordinal := get input 112 8 in
  let* sequence_gaps := get input 120 8 in
  let n := Z.to_nat size in
  let boundaries := take (n / 8 + 4) (drop (128 + n / 8) input) in
  let gaps := take (n / 8) (drop 128 input) in
  let* power := map_result (fun i => get input (132 + n / 4 + 4 * i) 4) (seq 0 n) in
  let s := {| stream := stream; sequence := sequence; s_rate := rate; s_size := size;
              s_hop := hop; valid := valid; s_hann := negb (hann =? 0); center := center;
              discontinuities := discontinuities; ordinal := ordinal;
              sequence_gaps := sequence_gaps; begin_time := begin_time; end_time := end_time;
              epoch := epoch; power := power; gaps := gaps; boundaries := boundaries |} in
  let* _ := validate s in
  Ok s.

End Codec.
End Spectrum.

(** * The spectrum datagram is canonical

    A byte string decodes to a spectrum exactly if it is the encoding of that
    spectrum: nothing is lost, and no other bytes are accepted. *)

From Stdlib Require Import ZArith Lia Strings.Byte Strings.String.
From stdpp Require Import base list strings.
From S2P Require Import Prelude.

Module SpectrumProofs.
Import Spectrum.
Local Open Scope Z_scope.

Definition zeros (n : nat) : list byte := replicate n x00.

(** ** Writing at an offset *)

Lemma put_loop (f : nat -> byte) o c : forall k out,
  (o + k + c <= length out)%nat ->
  fold_result (fun i out => set_at (o + i) (f i) out) (seq k c) out
  = Ok (take (o + k) out ++ map f (seq k c) ++ drop (o + k + c) out).
Proof.
  induction c as [|c IH]; intros k out Hlen; cbn [seq fold_result map].
  - by rewrite Nat.add_0_r, app_nil_l, take_drop.
  - unfold set_at at 1. destruct (Nat.ltb_spec (o + k) (length out)); [|lia]. cbn [bind].
    rewrite IH by (rewrite length_insert; lia). f_equal.
    rewrite insert_take_drop by lia. rewrite cons_middle, (app_assoc (take (o + k) out) [f k]).
    set (p := take (o + k) out ++ [f k]).
    assert (Hp : length p = (o + S k)%nat) by (unfold p; rewrite length_app, length_take; simpl; lia).
    rewrite (take_app_length' p) by done. rewrite (drop_app_ge p) by lia.
    rewrite Hp, drop_drop. unfold p. rewrite <-app_assoc. simpl. do 3 f_equal. f_equal. lia.
Qed.

Lemma put_next w n v c :
  put (w ++ zeros (c + n)) (length w) v c = Ok ((w ++ be_bytes c v) ++ zeros n).
Proof.
  unfold put, zeros. rewrite put_loop by (rewrite length_app, length_replicate; lia).
  rewrite Nat.add_0_r, take_app_length, drop_app_ge by lia.
  replace (length w + c - length w)%nat with c by lia. rewrite drop_replicate. replace (c + n - c)%nat with n by lia.
  rewrite <-app_assoc. do 3 f_equal. rewrite be_bytes_map. apply map_ext. intros i.
  rewrite byte_of_Z_land. do 3 f_equal. lia.
Qed.

(** Fields at ascending offsets without gaps *)
Fixpoint contiguous (o : nat) (fields : list (nat * Z * nat)) : Prop :=
  match fields with
  | [] => True
  | (o', _, c) :: fields => o' = o /\ contiguous (o + c) fields
  end.
Definition wire (fields : list (nat * Z * nat)) : list byte :=
  mjoin (map (fun f => be_bytes f.2 f.1.2) fields).
Definition width (fields : list (nat * Z * nat)) : nat := sum_list_with snd fields.

Lemma wire_cons o v c fields : wire ((o, v, c) :: fields) = be_bytes c v ++ wire fields.
Proof. reflexivity. Qed.
Lemma width_cons o v c fields : width ((o, v, c) :: fields) = (c + width fields)%nat.
Proof. reflexivity. Qed.

Lemma wire_length fields : length (wire fields) = width fields.
Proof.
  induction fields as [|[[o v] c] fields IH]; [done|].
  by rewrite wire_cons, width_cons, length_app, be_bytes_length, IH.
Qed.

Lemma put_all_next fields : forall w n,
  contiguous (length w) fields ->
  put_all fields (w ++ zeros (width fields + n)) = Ok ((w ++ wire fields) ++ zeros n).
Proof.
  induction fields as [|[[o v] c] fields IH]; intros w n; cbn [contiguous].
  - intros _. unfold wire. cbn. by rewrite app_nil_r.
  - intros [-> H]. rewrite width_cons, wire_cons, <-Nat.add_assoc.
    unfold put_all. cbn [fold_result]. rewrite put_next. cbn [bind]. rewrite (app_assoc w).
    apply IH. by rewrite length_app, be_bytes_length.
Qed.

Lemma put_all_first h n :
  contiguous 0 h -> put_all h (zeros (width h + n)) = Ok (wire h ++ zeros n).
Proof. exact (put_all_next h [] n). Qed.

Lemma put_all_app l1 l2 out :
  put_all (l1 ++ l2) out = bind (put_all l1 out) (put_all l2).
Proof. apply fold_result_app. Qed.

(** ** Reading at an offset *)

Lemma get_skip a l o c : (length a <= o)%nat -> get (a ++ l) o c = get l (o - length a) c.
Proof.
  intros Ho. unfold get. rewrite length_app, drop_app_ge by done. f_equal. unfold require.
  do 2 f_equal. destruct (Nat.leb_spec (o + c) (length a + length l)),
    (Nat.leb_spec (o - length a + c) (length l)); lia || done.
Qed.

Lemma spectrum_get_eq l o c :
  (c <= 8)%nat ->
  get l o c = if (o + c <=? length l)%nat then Ok (be_value (take c (drop o l)))
              else Throw (InvalidArgument "invalid power spectrum").
Proof.
  intros Hc. unfold get, require.
  destruct (Nat.leb_spec (o + c) (length l)) as [Hl|Hl]; cbn [negb throw_if bind]; [|done].
  f_equal. apply accumulate_be_value; [done|].
  rewrite length_take, length_drop. replace (c `min` (length l - o))%nat with c by lia.
  rewrite Z.mul_1_l. apply Z.pow_le_mono_r; lia.
Qed.

Lemma get_here c v l :
  (c <= 8)%nat -> 0 <= v < 2 ^ (8 * Z.of_nat c) -> get (be_bytes c v ++ l) 0 c = Ok v.
Proof.
  intros Hc Hv. rewrite spectrum_get_eq, length_app, be_bytes_length by done.
  destruct (Nat.leb_spec (0 + c) (c + length l)); [|lia].
  rewrite drop_0, take_app_length' by (symmetry; apply be_bytes_length).
  by rewrite be_value_be_bytes_small.
Qed.

Lemma get_slice l o c v :
  (c <= 8)%nat -> get l o c = Ok v ->
  drop o l = be_bytes c v ++ drop (o + c) l /\ 0 <= v < 2 ^ (8 * Z.of_nat c)
  /\ (o + c <= length l)%nat.
Proof.
  intros Hc. rewrite spectrum_get_eq by done. destruct (Nat.leb_spec (o + c) (length l)); [|done].
  intros [= <-]. assert (Hl : length (take c (drop o l)) = c).
  { rewrite length_take, length_drop. lia. }
  pose proof (be_value_bound (take c (drop o l))) as Hb. rewrite Hl in Hb.
  split_and!; [|lia..].
  pose proof (be_bytes_be_value (take c (drop o l))) as E. rewrite Hl in E.
  by rewrite E, <-drop_drop, take_drop.
Qed.

Lemma copy_next w from n :
  copy_to from (length w) (w ++ zeros (length from + n)) = (w ++ from) ++ zeros n.
Proof.
  unfold copy_to, zeros. rewrite take_app_length, drop_app_ge by lia.
  rewrite drop_replicate, app_assoc. do 2 f_equal. lia.
Qed.

(** Fields of four bytes, one per power value *)
Lemma imap_fields (f : nat -> Z -> nat * Z * nat) l : forall o,
  (forall i b, f i b = ((o + 4 * i)%nat, b, 4%nat)) ->
  contiguous o (imap f l) /\ wire (imap f l) = mjoin (map (be_bytes 4) l)
  /\ width (imap f l) = (4 * length l)%nat.
Proof.
  revert f. induction l as [|b l IH]; intros f o Hf; [done|]. rewrite imap_cons, Hf.
  destruct (IH (f ∘ S) (o + 4)%nat) as (Hc & Hw & Hn).
  { intros i c. unfold compose. rewrite Hf. do 2 f_equal. lia. }
  rewrite wire_cons, width_cons, Hw, Hn. split_and!; [|done|cbn [length]; lia].
  split; [lia|exact Hc].
Qed.

(** Two runs of fields with one byte between them, then three blocks *)
Lemma assemble h1 h2 g bd pf o :
  contiguous 0 h1 -> contiguous (width h1 + 1) h2 -> (width h1 + 1 + width h2)%nat = 128%nat ->
  o = (128 + length g)%nat -> contiguous (o + length bd) pf ->
  (let* out := put_all (h1 ++ h2) (zeros (128 + (length g + (length bd + width pf)))) in
   put_all pf (copy_to bd o (copy_to g 128 out)))
  = Ok ((wire h1 ++ [x00] ++ wire h2) ++ g ++ bd ++ wire pf).
Proof.
  intros H1 H2 Hw -> Hp.
  replace (128 + (length g + (length bd + width pf)))%nat
    with (width h1 + (1 + (width h2 + (length g + (length bd + (width pf + 0))))))%nat by lia.
  rewrite put_all_app, put_all_first by done. cbn [bind].
  set (n := (width h2 + (length g + (length bd + (width pf + 0))))%nat).
  change (zeros (1 + n)) with ([x00] ++ zeros n). rewrite (app_assoc (wire h1) [x00]). unfold n.
  assert (Hl : forall w, length w = width h1 -> length (w ++ [x00]) = (width h1 + 1)%nat)
    by (intros w Hlw; rewrite length_app, Hlw; done).
  rewrite put_all_next by (rewrite Hl by apply wire_length; done). cbn [bind].
  set (w := (wire h1 ++ [x00]) ++ wire h2).
  assert (Hlw : length w = 128%nat).
  { unfold w. rewrite length_app, (Hl (wire h1)), wire_length by apply wire_length. done. }
  rewrite <-Hlw, copy_next, <-length_app, copy_next, <-length_app in *.
  rewrite put_all_next by done. unfold zeros. simpl. unfold w. by rewrite app_nil_r, <-!app_assoc.
Qed.

(** Every field of a run can be read back ... *)
Lemma wire_get fields l : forall o i f,
  contiguous o fields -> fields !! i = Some f -> (f.2 <= 8)%nat ->
  0 <= f.1.2 < 2 ^ (8 * Z.of_nat f.2) -> get (wire fields ++ l) (f.1.1 - o) f.2 = Ok f.1.2.
Proof.
  induction fields as [|[[o' v] c] fields IH]; intros o i f; [done|].
  intros [-> Hc]. rewrite wire_cons, <-app_assoc. destruct i as [|i]; cbn [lookup list_lookup].
  - intros [= <-] Hw Hv. cbn [fst snd] in *. rewrite Nat.sub_diag. by apply get_here.
  - intros Hf Hw Hv. assert (Hge : (o + c <= f.1.1)%nat).
    { clear -Hc Hf. revert o i c Hc Hf. induction fields as [|[[o' w] d] fields IH]; [done|].
      intros o i c [-> Hc] Hf. destruct i as [|i]; [by injection Hf as <-|].
      specialize (IH _ _ _ Hc Hf). lia. }
    rewrite get_skip by (rewrite be_bytes_length; lia). rewrite be_bytes_length.
    replace (f.1.1 - o - c)%nat with (f.1.1 - (o + c))%nat by lia. by eapply IH.
Qed.

(** ... and a buffer from which they can be read starts with the run. *)
Lemma wire_of_gets b fields : forall o,
  contiguous o fields -> Forall (fun f => (f.2 <= 8)%nat /\ get b f.1.1 f.2 = Ok f.1.2) fields ->
  drop o b = wire fields ++ drop (o + width fields) b
  /\ Forall (fun f => 0 <= f.1.2 < 2 ^ (8 * Z.of_nat f.2)) fields.
Proof.
  induction fields as [|[[o' v] c] fields IH]; intros o.
  - intros _ _. unfold width. cbn. by rewrite Nat.add_0_r.
  - intros [-> Hc] H. apply Forall_cons in H as [[Hw H] Hrest]. cbn [fst snd] in *.
    apply get_slice in H as (-> & Hv & _); [|done].
    destruct (IH _ Hc Hrest) as [-> Hr].
    rewrite wire_cons, width_cons, <-app_assoc, Nat.add_assoc. split; [done|by constructor].
Qed.

(** ** The layout of an accepted spectrum *)

Definition header (s : Spectrum) (bytes : Z) : list byte :=
  wire (take 11 (header_fields s bytes)) ++ [x00] ++ wire (drop 11 (header_fields s bytes)).
Definition body (s : Spectrum) : list byte :=
  gaps s ++ boundaries s ++ mjoin (map (be_bytes 4) (power s)).

Section Codec.
Context {Timeline : Type} (create : ProtocolTime -> Z -> option Timeline)
  (advance : Timeline -> Z -> option Timeline) (time : Timeline -> ProtocolTime).
Abbreviation validate := (Spectrum.validate create advance time).
Abbreviation encode_spectrum := (Spectrum.encode_spectrum create advance time).
Abbreviation decode_spectrum := (Spectrum.decode_spectrum create advance time).

Lemma require_ok b u : require b = Ok u <-> b = true.
Proof. unfold require. rewrite throw_if_ok. apply negb_false_iff. Qed.

Definition sizes_ok (s : Spectrum) : Prop :=
  (exists k, s_size s = 2 ^ k /\ 6 <= k <= 11)
  /\ Z.of_nat (length (power s)) = s_size s
  /\ length (gaps s) = Z.to_nat (s_size s / 8)
  /\ length (boundaries s) = (Z.to_nat (s_size s / 8) + 4)%nat
  /\ 1000 <= s_rate s <= 2000000 /\ valid s <= s_size s /\ s_hop s <= s_size s
  /\ 1 <= stream s <= 4 /\ 1000000 <= center s <= 6000000000.

Lemma power_of_two n :
  64 <= n -> n <= 2048 -> has_single_bit n = true -> exists k, n = 2 ^ k /\ 6 <= k <= 11.
Proof.
  intros H1 H2 H. unfold has_single_bit in H. reflect_bools.
  exists (Z.log2 n). split; [by apply land_pred_power; [lia|]|].
  split; [apply (Z.log2_le_mono 64); lia|].
  transitivity (Z.log2 2048); [by apply Z.log2_le_mono|done].
Qed.

Lemma validate_sizes s : validate s = Ok tt -> sizes_ok s.
Proof.
  unfold Spectrum.validate, validate_config. intros H.
  apply bind_ok in H as ([] & H1%require_ok & H). apply bind_ok in H as ([] & H2 & H).
  apply bind_ok in H2 as ([] & H2%require_ok & _). cbn [rate size] in H2.
  apply bind_ok in H as ([] & H3%require_ok & H). apply bind_ok in H as ([] & H4%require_ok & _).
  reflect_bools.
  split; [by apply power_of_two|]. split_and!; done || lia.
Qed.

Lemma spectrum_bytes_ok k n : n = 2 ^ k -> 6 <= k <= 11 -> spectrum_bytes n = Ok (132 + n / 4 + 4 * n).
Proof.
  intros -> Hk. assert (k = 6 \/ k = 7 \/ k = 8 \/ k = 9 \/ k = 10 \/ k = 11) as Hc by lia.
  by destruct Hc as [->|[->|[->|[->|[->| ->]]]]].
Qed.

Lemma sizes_nat s : sizes_ok s -> exists m, s_size s = 8 * Z.of_nat m /\ (8 <= m <= 256)%nat.
Proof.
  intros ((k & E & Hk) & _). exists (Z.to_nat (2 ^ (k - 3))).
  assert (E8 : 2 ^ k = 8 * 2 ^ (k - 3)).
  { rewrite <-(Z.pow_add_r 2 3) by lia. f_equal. lia. }
  assert (2 ^ 3 <= 2 ^ (k - 3)) by (apply Z.pow_le_mono_r; lia).
  assert (2 ^ (k - 3) <= 2 ^ 8) by (apply Z.pow_le_mono_r; lia). lia.
Qed.

Lemma encode_ok s b :
  encode_spectrum s = Ok b
  <-> validate s = Ok tt /\ b = header s (132 + s_size s / 4 + 4 * s_size s) ++ body s.
Proof.
  unfold Spectrum.encode_spectrum. rewrite bind_ok.
  enough (Hv : validate s = Ok tt -> forall r,
    (let* bytes := spectrum_bytes (s_size s) in
     let* out := put_all (header_fields s bytes) (replicate (Z.to_nat bytes) x00) in
     put_all (power_fields s)
       (copy_to (boundaries s) (128 + Z.to_nat (s_size s) / 8) (copy_to (gaps s) 128 out))) = r
    <-> r = Ok (header s (132 + s_size s / 4 + 4 * s_size s) ++ body s)).
  { split; [intros ([] & H & E); split; [done|]|intros (H & ->); exists tt; split; [done|]].
    - apply Hv in E; [|done]. by injection E.
    - by apply Hv. }
  intros H r. pose proof (validate_sizes s H) as Hs. destruct (sizes_nat s Hs) as (m & Hm & Hm2).
  destruct Hs as ((k & Ek & Hk) & Hpow & Hgaps & Hbnd & _).
  rewrite (spectrum_bytes_ok k) by done. cbn [bind].
  assert (E8 : 8 * Z.of_nat m / 8 = Z.of_nat m) by (rewrite Z.mul_comm; by apply Z.div_mul).
  assert (E4 : 8 * Z.of_nat m / 4 = 2 * Z.of_nat m).
  { replace (8 * Z.of_nat m) with (2 * Z.of_nat m * 4) by lia. by apply Z.div_mul. }
  assert (En : (Z.to_nat (8 * Z.of_nat m) = 8 * m)%nat) by lia.
  assert (En8 : (8 * m / 8 = m)%nat) by (rewrite Nat.mul_comm; by apply Nat.div_mul).
  assert (En4 : (8 * m / 4 = 2 * m)%nat).
  { replace (8 * m)%nat with (2 * m * 4)%nat by lia. by apply Nat.div_mul. }
  rewrite Hm, E8, Nat2Z.id in *. rewrite E4.
  set (bytes := 132 + 2 * Z.of_nat m + 4 * (8 * Z.of_nat m)).
  destruct (imap_fields (fun i bits => field (132 + 8 * m / 4 + 4 * i) bits 4) (power s)
              (132 + 8 * m / 4)) as (Pc & Pw & Pn); [done|].
  rewrite <-(take_drop 11 (header_fields s bytes)).
  replace (Z.to_nat bytes)
    with (128 + (length (gaps s) + (length (boundaries s) + (4 * length (power s)))))%nat
    by (unfold bytes; lia).
  unfold power_fields. rewrite Hm, En. rewrite <-Pn at 1.
  change (replicate ?n x00) with (zeros n).
  rewrite assemble; [|cbn; tauto|cbn; tauto|done|lia|].
  - unfold header, body. rewrite Pw. split; [by intros <-|done].
  - by replace (128 + 8 * m / 8 + length (boundaries s))%nat with (132 + 8 * m / 4)%nat by lia.
Qed.

(** *** Reading *)

Definition reads (b : list byte) (f : nat * Z * nat) : Prop := get b f.1.1 f.2 = Ok f.1.2.

(** What the decoder has checked of a buffer [b] that it accepts as [s] *)
Definition decoded (b : list byte) (s : Spectrum) : Prop :=
  Forall (reads b) (header_fields s (Z.of_nat (length b))) /\ get b 31 1 = Ok 0
  /\ spectrum_bytes (s_size s) = Ok (Z.of_nat (length b))
  /\ gaps s = take (Z.to_nat (s_size s) / 8) (drop 128 b)
  /\ boundaries s = take (Z.to_nat (s_size s) / 8 + 4) (drop (128 + Z.to_nat (s_size s) / 8) b)
  /\ map_result (fun i => get b (132 + Z.to_nat (s_size s) / 4 + 4 * i) 4)
       (seq 0 (Z.to_nat (s_size s))) = Ok (power s)
  /\ validate s = Ok tt.

Lemma has_ok b o c v w : has b o c v = Ok w <-> exists x, get b o c = Ok x /\ w = (x =? v).
Proof. unfold has. rewrite bind_ok. by split; intros (x & Hx & E); exists x; simplify_eq. Qed.

Lemma check_header_ok b :
  check_header b = Ok tt
  <-> reads b (field 0 0x47585032 4) /\ reads b (field 4 1 2) /\ reads b (field 6 128 2)
      /\ reads b (field 8 (Z.of_nat (length b)) 4) /\ (128 <= length b)%nat.
Proof.
  unfold check_header, reads, field. cbn [fst snd].
  destruct (Nat.leb_spec 128 (length b)) as [Hl|Hl]; cbn [negb].
  - split.
    + intros E. do 4 (apply bind_ok in E as (? & (? & ? & ->)%has_ok & E)).
      apply require_ok in E. reflect_bools. by subst.
    + intros (H1 & H2 & H3 & H4 & _). unfold has. rewrite H1, H2, H3, H4. cbn [bind].
      by rewrite !Z.eqb_refl.
  - split; [done|lia].
Qed.

Lemma check_flags_ok b :
  check_flags b = Ok tt
  <-> (exists h, h <= 1 /\ get b 28 1 = Ok h) /\ reads b (field 29 1 1) /\ reads b (field 30 1 1)
      /\ get b 31 1 = Ok 0.
Proof.
  unfold check_flags, reads, field. cbn [fst snd]. split.
  - intros E. apply bind_ok in E as (h & Hh & E).
    do 3 (apply bind_ok in E as (? & (? & ? & ->)%has_ok & E)).
    apply require_ok in E. reflect_bools. subst. eauto 10.
  - intros ((h & Hle & H1) & H2 & H3 & H4). unfold has. rewrite H1, H2, H3, H4. cbn [bind].
    rewrite !Z.eqb_refl. by destruct (Z.leb_spec h 1); [|lia].
Qed.

Lemma get_time_ok b o t :
  get_time b o = Ok t <-> get b o 8 = Ok (seconds t) /\ get b (o + 8) 8 = Ok (picoseconds t).
Proof.
  unfold get_time. split.
  - intros H. apply bind_ok in H as (x & Hx & H). by apply bind_ok in H as (y & Hy & [= <-]).
  - intros [-> ->]. by destruct t.
Qed.

Lemma decode_decoded b s : decode_spectrum b = Ok s -> decoded b s.
Proof.
  unfold Spectrum.decode_spectrum. intros H.
  apply bind_ok in H as ([] & (H0 & H1 & H2 & H3 & _)%check_header_ok & H).
  apply bind_ok in H as (stream & H4 & H). apply bind_ok in H as (sequence & H5 & H).
  apply bind_ok in H as (size & H6 & H). apply bind_ok in H as (hop & H7 & H).
  apply bind_ok in H as (bytes & Hb & H). apply bind_ok in H as ([] & Hl%require_ok & H).
  apply bind_ok in H as ([] & ((h & Hh & H8) & H9 & H10 & H31)%check_flags_ok & H).
  apply bind_ok in H as (hann & H8' & H). apply bind_ok in H as (center & H11 & H).
  apply bind_ok in H as (rate & H12 & H). apply bind_ok in H as ([] & _ & H).
  apply bind_ok in H as (t1 & [H13 H14]%get_time_ok & H).
  apply bind_ok in H as (t2 & [H15 H16]%get_time_ok & H).
  apply bind_ok in H as (valid & H17 & H). apply bind_ok in H as (missing & H18 & H).
  apply bind_ok in H as ([] & Hmiss%require_ok & H). apply bind_ok in H as (disc & H19 & H).
  apply bind_ok in H as (t3 & [H20 H21]%get_time_ok & H).
  apply bind_ok in H as (ordinal & H22 & H). apply bind_ok in H as (sg & H23 & H).
  apply bind_ok in H as (pw & Hpw & H). apply bind_ok in H as ([] & Hval & [= <-]).
  reflect_bools. subst missing bytes. rewrite H8 in H8'. injection H8' as <-.
  assert (Hann : Z.b2z (negb (h =? 0)) = h).
  { apply get_slice in H8 as (_ & Hr & _); [|lia]. assert (h = 0 \/ h = 1) as [-> | ->] by lia; done. }
  split; [|by split_and!].
  unfold header_fields. cbn [Spectrum.stream s_size s_hop s_hann]. rewrite Hann.
  repeat (constructor; [assumption|]). constructor.
Qed.

Lemma decoded_decode b s : decoded b s -> s_rate s <= 2000000 -> decode_spectrum b = Ok s.
Proof.
  intros (H & H31 & Hb & Hg & Hbd & Hpw & Hval) Hrate.
  unfold header_fields in H. rewrite !Forall_cons in H. unfold reads, field in H.
  cbn [fst snd] in H.
  destruct H as (H0 & H1 & H2 & H3 & H4 & H5 & H6 & H7 & H8 & H9 & H10 & H11 & H12 & H13 & H14 & H15
                 & H16 & H17 & H18 & H19 & H20 & H21 & H22 & H23 & _).
  assert (Hlen : (128 <= length b)%nat).
  { rewrite spectrum_get_eq in H23 by lia. destruct (Nat.leb_spec (120 + 8) (length b)); [lia|done]. }
  unfold Spectrum.decode_spectrum. rewrite (proj2 (check_header_ok b)) by by split_and!.
  cbn [bind]. rewrite H4, H5, H6, H7. cbn [bind]. rewrite Hb. cbn [bind].
  unfold require at 1. rewrite Z.eqb_refl. cbn [negb throw_if bind].
  rewrite (proj2 (check_flags_ok b)).
  2: { split_and!; try done. exists (Z.b2z (s_hann s)). split; [by destruct (s_hann s)|done]. }
  cbn [bind]. rewrite H8, H11, H12. cbn [bind].
  unfold require at 1. destruct (Z.leb_spec (s_rate s) 2000000); [|lia]. cbn [negb throw_if bind].
  rewrite (proj2 (get_time_ok b 48 (begin_time s)) (conj H13 H14)).
  rewrite (proj2 (get_time_ok b 64 (end_time s)) (conj H15 H16)), H17, H18. cbn [bind].
  unfold require at 1. rewrite Z.eqb_refl. cbn [negb throw_if bind].
  rewrite H19, (proj2 (get_time_ok b 96 (epoch s)) (conj H20 H21)), H22, H23. cbn [bind]. rewrite Hpw. cbn [bind].
  rewrite <-Hg, <-Hbd. replace (negb (Z.b2z (s_hann s) =? 0)) with (s_hann s) by (by destruct (s_hann s)).
  destruct s as [? ? ? ? ? ? ? ? ? ? ? [] [] [] ? ? ?]. cbn in *. by rewrite Hval.
Qed.

Lemma power_reads ps : forall pre o k,
  length pre = (o + 4 * k)%nat -> Forall (fun p => 0 <= p < 2 ^ 32) ps ->
  map_result (fun i => get (pre ++ mjoin (map (be_bytes 4) ps)) (o + 4 * i) 4)
    (seq k (length ps)) = Ok ps.
Proof.
  induction ps as [|p ps IH]; intros pre o k Hl H; [done|].
  apply Forall_cons in H as [Hp H]. cbn [length seq map_result].
  change (mjoin (map (be_bytes 4) (p :: ps)))
    with (be_bytes 4 p ++ mjoin (map (be_bytes 4) ps)).
  rewrite get_skip by lia. replace (o + 4 * k - length pre)%nat with 0%nat by lia.
  rewrite get_here by done || lia. cbn [bind].
  rewrite app_assoc, IH; [done| |done]. rewrite length_app, be_bytes_length. lia.
Qed.

Lemma power_slices b o n : forall k ps,
  map_result (fun i => get b (o + 4 * i) 4) (seq k n) = Ok ps ->
  drop (o + 4 * k) b = mjoin (map (be_bytes 4) ps) ++ drop (o + 4 * (k + n)) b
  /\ Forall in_u32 ps /\ length ps = n.
Proof.
  induction n as [|n IH]; intros k ps; cbn [seq map_result].
  - intros [= <-]. by rewrite Nat.add_0_r.
  - intros H. apply bind_ok in H as (p & Hp & H). apply bind_ok in H as (ps' & Hps & [= <-]).
    apply get_slice in Hp as (-> & Hv & _); [|lia].
    replace (o + 4 * k + 4)%nat with (o + 4 * S k)%nat by lia.
    apply IH in Hps as (-> & Hall & Hn).
    change (mjoin (map (be_bytes 4) (p :: ps')))
      with (be_bytes 4 p ++ mjoin (map (be_bytes 4) ps')).
    rewrite <-app_assoc. replace (S k + n)%nat with (k + S n)%nat by lia.
    split_and!; [done|by constructor|cbn; lia].
Qed.

(** The fields of a spectrum fit their C++ types. *)
Definition time_in_range (t : ProtocolTime) : Prop := in_u64 (seconds t) /\ in_u64 (picoseconds t).
Definition in_range (s : Spectrum) : Prop :=
  in_u32 (stream s) /\ in_u32 (sequence s) /\ in_u32 (s_size s) /\ in_u32 (s_hop s)
  /\ in_u64 (center s) /\ in_u64 (s_rate s) /\ time_in_range (begin_time s)
  /\ time_in_range (end_time s) /\ in_u32 (valid s) /\ in_u64 (discontinuities s)
  /\ time_in_range (epoch s) /\ in_u64 (ordinal s) /\ in_u64 (sequence_gaps s)
  /\ Forall in_u32 (power s).

Lemma Forall_take_drop {A} (P : A -> Prop) n l :
  Forall P l <-> Forall P (take n l) /\ Forall P (drop n l).
Proof. by rewrite <-Forall_app, take_drop. Qed.

Lemma header_length s n : length (header s n) = 128%nat.
Proof. unfold header. rewrite !length_app, !wire_length. reflexivity. Qed.

Lemma header_reads s n l :
  in_range s -> in_u32 n -> Forall (reads (header s n ++ l)) (header_fields s n)
  /\ get (header s n ++ l) 31 1 = Ok 0.
Proof.
  intros (? & ? & ? & ? & ? & ? & [? ?] & [? ?] & ? & ? & [? ?] & ? & ? & _) Hn. split.
  - assert (Hr : Forall (fun f => (f.2 <= 8)%nat /\ 0 <= f.1.2 < 2 ^ (8 * Z.of_nat f.2))
                   (header_fields s n)).
    { pose proof (u32_range (s_size s - valid s)). unfold header_fields.
      repeat (constructor; [split; [cbn; lia|]|]); try done; cbn; try lia.
      by destruct (s_hann s). }
    unfold header. rewrite <-!app_assoc.
    apply (Forall_take_drop _ 11) in Hr as [Ha Hb]. apply (Forall_take_drop _ 11).
    split; apply Forall_lookup; intros i f Hf.
    + pose proof (proj1 (Forall_lookup _ _) Ha i f Hf) as [Hw Hv]. unfold reads.
      rewrite <-(Nat.sub_0_r f.1.1). refine (wire_get _ _ 0 i f _ Hf Hw Hv). cbn; tauto.
    + pose proof (proj1 (Forall_lookup _ _) Hb i f Hf) as [Hw Hv]. unfold reads.
      assert (32 <= f.1.1)%nat.
      { clear -Hf. do 13 (destruct i as [|i]; [injection Hf as <-; cbn; lia|]). done. }
      rewrite app_assoc, get_skip by (rewrite length_app, wire_length; cbn; lia).
      rewrite length_app, wire_length.
      refine (wire_get _ _ 32 i f _ Hf Hw Hv). cbn; tauto.
  - unfold header. rewrite <-!app_assoc, get_skip by (rewrite wire_length; cbn; lia).
    rewrite wire_length.
    exact (get_here 1 0 (wire (drop 11 (header_fields s n)) ++ l) ltac:(lia) ltac:(lia)).
Qed.

Lemma spectrum_layout_length s :
  sizes_ok s -> Z.of_nat (length (header s (132 + s_size s / 4 + 4 * s_size s) ++ body s))
                = 132 + s_size s / 4 + 4 * s_size s.
Proof.
  intros Hs. destruct (sizes_nat s Hs) as (m & Hm & _). destruct Hs as (_ & Hp & Hg & Hb & _).
  rewrite length_app, header_length. unfold body. rewrite !length_app, Hg, Hb.
  assert (Hj : forall l, length (mjoin (map (be_bytes 4) l)) = (4 * length l)%nat).
  { induction l as [|p l IH]; [done|].
    change (mjoin (map (be_bytes 4) (p :: l))) with (be_bytes 4 p ++ mjoin (map (be_bytes 4) l)).
    rewrite length_app, be_bytes_length, IH. cbn. lia. }
  rewrite Hj. rewrite Hm in *.
  assert (8 * Z.of_nat m / 8 = Z.of_nat m) as -> by (rewrite Z.mul_comm; by apply Z.div_mul).
  assert (8 * Z.of_nat m / 4 = 2 * Z.of_nat m) as ->.
  { replace (8 * Z.of_nat m) with (2 * Z.of_nat m * 4) by lia. by apply Z.div_mul. }
  lia.
Qed.

Lemma encode_decoded s b : in_range s -> encode_spectrum s = Ok b -> decoded b s.
Proof.
  intros Hr H. apply encode_ok in H as [Hv ->]. pose proof (validate_sizes s Hv) as Hs.
  pose proof (spectrum_layout_length s Hs) as Hl. set (n := 132 + s_size s / 4 + 4 * s_size s) in *.
  destruct (sizes_nat s Hs) as (m & Hm & Hm2).
  destruct Hs as ((k & Ek & Hk) & Hp & Hg & Hb & _).
  assert (E8 : s_size s / 8 = Z.of_nat m) by (rewrite Hm, Z.mul_comm; by apply Z.div_mul).
  assert (E4 : s_size s / 4 = 2 * Z.of_nat m).
  { rewrite Hm. replace (8 * Z.of_nat m) with (2 * Z.of_nat m * 4) by lia. by apply Z.div_mul. }
  rewrite E8, Nat2Z.id in Hg, Hb.
  assert (En : Z.to_nat (s_size s) = (8 * m)%nat) by lia.
  assert (En8 : (8 * m / 8 = m)%nat) by (rewrite Nat.mul_comm; by apply Nat.div_mul).
  assert (En4 : (8 * m / 4 = 2 * m)%nat).
  { replace (8 * m)%nat with (2 * m * 4)%nat by lia. by apply Nat.div_mul. }
  assert (Hn : in_u32 n) by (unfold n, in_u32; lia).
  destruct (header_reads s n (body s) Hr Hn) as [Hh H31].
  pose proof (header_length s n) as Hlen. unfold decoded. rewrite Hl, En, En8, En4.
  split_and!; try done.
  - by apply (spectrum_bytes_ok k).
  - rewrite drop_app_ge, Hlen, Nat.sub_diag, drop_0 by lia. unfold body.
    by rewrite take_app_length'.
  - rewrite drop_app_ge, Hlen by lia. replace (128 + m - 128)%nat with m by lia.
    unfold body. rewrite drop_app_length' by done. by rewrite take_app_length'.
  - replace (8 * m)%nat with (length (power s)) by lia.
    unfold body. rewrite !app_assoc.
    apply power_reads; [rewrite !length_app, Hlen, Hg, Hb; lia|by apply Hr].
Qed.

Lemma decoded_encode b s : decoded b s -> in_range s /\ encode_spectrum s = Ok b.
Proof.
  intros (H & H31 & Hbytes & Hgaps & Hbnd & Hpw & Hval).
  pose proof (validate_sizes s Hval) as Hs. destruct (sizes_nat s Hs) as (m & Hm & Hm2).
  destruct Hs as ((k & Ek & Hk) & Hp & Hg & Hb & _).
  rewrite (spectrum_bytes_ok k) in Hbytes by done. injection Hbytes as Hlen.
  assert (E4 : s_size s / 4 = 2 * Z.of_nat m).
  { rewrite Hm. replace (8 * Z.of_nat m) with (2 * Z.of_nat m * 4) by lia. by apply Z.div_mul. }
  assert (En : Z.to_nat (s_size s) = (8 * m)%nat) by lia.
  assert (En8 : (8 * m / 8 = m)%nat) by (rewrite Nat.mul_comm; by apply Nat.div_mul).
  assert (En4 : (8 * m / 4 = 2 * m)%nat).
  { replace (8 * m)%nat with (2 * m * 4)%nat by lia. by apply Nat.div_mul. }
  rewrite En, En8 in Hgaps, Hbnd. rewrite En, En4 in Hpw.
  set (n := Z.of_nat (length b)) in *.
  assert (Hfields : Forall (fun f => (f.2 <= 8)%nat /\ get b f.1.1 f.2 = Ok f.1.2)
                      (header_fields s n)).
  { apply Forall_forall. intros f Hf. split; [|by eapply Forall_forall in H].
    revert f Hf. apply Forall_forall. unfold header_fields. repeat (constructor; [cbn; lia|]).
    constructor. }
  apply (Forall_take_drop _ 11) in Hfields as [Ha Hc].
  apply (wire_of_gets b _ 0) in Ha as [Ha Ra]; [|cbn; tauto].
  apply (wire_of_gets b _ 32) in Hc as [Hc Rc]; [|cbn; tauto].
  apply get_slice in H31 as (H31 & _); [|lia].
  change (0 + width (take 11 (header_fields s n)))%nat with 31%nat in Ha.
  change (32 + width (drop 11 (header_fields s n)))%nat with 128%nat in Hc.
  apply power_slices in Hpw as (Hpw & Rp & _).
  split.
  - assert (Hall : Forall (fun f => 0 <= f.1.2 < 2 ^ (8 * Z.of_nat f.2)) (header_fields s n))
      by by apply (Forall_take_drop _ 11).
    unfold header_fields in Hall. rewrite !Forall_cons in Hall. cbn [field fst snd] in Hall.
    unfold in_range, time_in_range, in_u32, in_u64. cbn [Z.of_nat] in Hall. tauto.
  - apply encode_ok. split; [done|]. rewrite Hlen. unfold header.
    rewrite drop_0 in Ha. rewrite Ha, H31. cbn [Nat.add]. rewrite Hc.
    rewrite <-!app_assoc. do 3 f_equal. unfold body.
    rewrite Nat.mul_0_r, Nat.add_0_r in Hpw.
    rewrite <-(take_drop m (drop 128 b)), <-Hgaps, drop_drop. f_equal.
    rewrite <-(take_drop (m + 4) (drop (128 + m) b)), <-Hbnd, drop_drop. f_equal.
    replace (128 + m + (m + 4))%nat with (132 + 2 * m)%nat by lia. rewrite Hpw.
    rewrite drop_ge, app_nil_r by lia. done.
Qed.

(** A byte string decodes to a spectrum exactly if the spectrum fits the
    field types and the byte string is its encoding: the round trip loses
    nothing, and the decoder accepts no second representation. *)
Theorem spectrum_canonical b s :
  decode_spectrum b = Ok s <-> in_range s /\ encode_spectrum s = Ok b.
Proof.
  split.
  - intros H. by apply decoded_encode, decode_decoded.
  - intros [Hr H]. apply decoded_decode; [by apply encode_decoded|].
    apply encode_ok in H as [Hv _]. apply validate_sizes in Hv as (_ & _ & _ & _ & ? & _). lia.
Qed.
End Codec.

(** ** An accepted spectrum, over a timeline that counts picoseconds *)

Definition clock : Type := ProtocolTime * Z * Z.
Definition clock_create (t : ProtocolTime) (rate : Z) : option clock := Some (t, rate, 0).
Definition clock_advance (c : clock) (n : Z) : option clock := Some (c.1, c.2 + n).
Definition clock_time (c : clock) : ProtocolTime :=
  let '(t, rate, n) := c in
  let ps := picoseconds t + n * 1000000000000 / rate in
  {| seconds := seconds t + ps / 1000000000000; picoseconds := ps mod 1000000000000 |}.

Definition sample : Spectrum :=
  {| stream := 2; sequence := 7; s_rate := 1000; s_size := 64; s_hop := 32; valid := 63;
     s_hann := true; center := 100000000; discontinuities := 1; ordinal := 32;
     sequence_gaps := 0; epoch := {| seconds := 5; picoseconds := 0 |};
     begin_time := {| seconds := 5; picoseconds := 32000000000 |};
     end_time := {| seconds := 5; picoseconds := 96000000000 |};
     power := replicate 64 1065353216; gaps := x80 :: replicate 7 x00;
     boundaries := replicate 12 x00 |}.

Example sample_roundtrip :
  match encode_spectrum clock_create clock_advance clock_time sample with
  | Ok b => length b = 404%nat
            /\ decode_spectrum clock_create clock_advance clock_time b = Ok sample
  | Throw _ => False
  end.
Proof. vm_compute. split; reflexivity. Qed.

End SpectrumProofs.
