(* ===== verification/ConfigNodes.v ===== *)
(** * The node contracts of a graph (node_values of src/src/config_v3.cpp)

    For every node: its parameters over the defaults of its type, its
    credentials, the bindings of its ports to the resolved connections, and the
    contract value that an application is started with. *)

From Stdlib Require Import ZArith Lia Strings.Byte Strings.Ascii Strings.String Floats.SpecFloat.
From stdpp Require Import base gmap strings list.
From S2P Require Import Prelude ConfigValue ConfigSchema ConfigNetwork ConfigGraph.

Module ConfigNodes.
Import ConfigValue ConfigSchema ConfigNetwork ConfigGraph.
Local Open Scope Z_scope.

Section Nodes.
Context (regex_search : string -> string -> bool) (to_chars : spec_float -> string).
(** Enough depth for the references of the parameter schemas of the catalog *)
Context (fuel : nat).
Context (graph : Value) (catalog : Catalog) (connections platform : Value) (native : bool)
  (net : Value).

(** Authored parameters replace defaults and must fit the type's schema. *)
Definition authored_parameter (definitions : Value) (id : string) (kv : string * Value)
    (parameters : Object) : result Object :=
  let (key, value) := kv in
  let path := "nodes." +:+ id +:+ ".parameters." +:+ key in
  let* _ := reject_if (negb (contains definitions key)) "E_PARAMETER" path
              "unknown type parameter" in
  let* schema := at_ definitions key in
  let* _ := validate_shape regex_search to_chars fuel schema value schema path in
  Ok (set_key key value parameters).

Definition node_parameters (id : string) (node type : Value) : result Object :=
  let* definitions := object_field type "parameters" in
  let* defaults := fold_result (fun kv : string * Value => fun parameters =>
      let* default := at_ kv.2 "default" in Ok (set_key kv.1 default parameters)) definitions [] in
  let* authored := object (member_object node "parameters") in
  let* schemas := at_ type "parameters" in
  let* parameters := fold_result (authored_parameter schemas id) authored defaults in
  let* processor := eq_at node "type" (VStr "vita.processor") in
  let* _ := (if (processor : bool)
             then validate_vita_processing parameters ("nodes." +:+ id +:+ ".parameters")
             else Ok tt) in
  Ok parameters.

Definition check_credentials (id : string) (node type : Value) : result unit :=
  let path := "nodes." +:+ id +:+ ".credentials" in
  let* authored := object (member_object node "credentials") in
  let* _ := for_each (fun kv : string * Value =>
      let (key, reference) := kv in
      let* roles := array_at type "credentials" in
      let* _ := reject_if (absent (VStr key) roles) "E_CREDENTIAL" (path +:+ "." +:+ key)
                  "unknown credential role" in
      let* ref := text reference in
      reject_if (negb (contains (member_object graph "credentials") ref)) "E_CREDENTIAL"
        (path +:+ "." +:+ key) "unknown credential reference") authored in
  let* roles := array_at type "credentials" in
  for_each (fun role =>
      let* name := text role in
      reject_if (negb (contains (member_object node "credentials") name)) "E_CREDENTIAL" path
        "required credential role is missing") roles.

(** ** Bindings *)

(** The fields of a connection that both of its ends learn *)
Definition binding_keys : list string :=
  ["transport"; "schema"; "encoding"; "settings"; "source_address"; "destination_address";
   "security"; "attachments"].

Definition binding_value (side : string) (connection : Value) : result Value :=
  let* id := at_ connection "id" in
  let* fields := fold_result (fun key binding =>
      let* v := at_ connection key in Ok (set_key key v binding)) binding_keys
    (object_of [("connection", id);
                ("role", VStr (if String.eqb side "from" then "connect" else "listen"))]) in
  Ok (VObj fields).

(** [bindings[port].array().emplace_back(binding)] *)
Definition append_binding (port : string) (binding : Value) (bindings : Object) : result Object :=
  match find_key port bindings with
  | Some (VArr l) => Ok (set_key port (VArr (l ++ [binding])) bindings)
  | _ => Throw BadVariantAccess
  end.

Definition bind_side (id : string) (connection : Value) (side : string) (bindings : Object)
    : result Object :=
  let* ep := at_ connection side in
  let* here := eq_at ep "node" (VStr id) in
  if negb here then Ok bindings
  else
    let* binding := binding_value side connection in
    let* port := text_at ep "port" in
    append_binding port binding bindings.

Definition node_bindings (id : string) (type : Value) : result Object :=
  let* ports := object_field type "ports" in
  let bindings := fold_left (fun bindings kv => set_key kv.1 (VArr []) bindings) ports [] in
  let* edges := array connections in
  fold_result (fun connection bindings =>
      fold_result (bind_side id connection) ["from"; "to"] bindings) edges bindings.

(** ** The contract of a node *)

(** The passive mirror a recorder listens on: the last one it owns *)
Definition node_recorder (id : string) (node : Value) : result (option Value) :=
  let* recorder := eq_at node "type" (VStr "vita.recorder") in
  if negb recorder then Ok None
  else
    let* attachments := entries net "attachments" in
    let* found := fold_result (fun a found =>
        let* owned := eq_at a "owner" (VStr id) in
        let* container :=
          (if (owned : bool)
           then let* delivery := string_or a "delivery" "host" in
                Ok (String.eqb delivery "container")
           else Ok false) in
        if negb container then Ok found
        else
          let* peer := at_ a "peer" in
          let* mtu := integer_or a "mtu" 1500 in
          Ok (Some (VObj (object_of [("interface", peer); ("mtu", VInt mtu)])))) attachments None in
    match found with
    | None => reject "E_NETWORK" ("nodes." +:+ id) "recorder requires a passive container mirror"
    | Some r => Ok (Some r)
    end.

Definition node_capture (id : string) (recorder : option Value) : result Value :=
  let* capture := at_ platform "capture" in
  let* capture := match recorder with
                  | Some _ => assign capture "enabled" (VBool false)
                  | None => Ok capture
                  end in
  assign capture "directory" (VStr (if native then "${GX_STATE}/captures/" +:+ id else "/captures")).

Definition node_value (gid : string) (has_guests : bool) (kv : string * Value) : result Value :=
  let (id, node) := kv in
  let* type_id := text_at node "type" in
  let* type := object_at (types catalog) type_id in
  let* parameters := node_parameters id node type in
  let* _ := check_credentials id node type in
  let* bindings := node_bindings id type in
  let* _ := validate_vita_bindings type_id bindings parameters in
  let* recorder := node_recorder id node in
  let* execution := at_ node "execution" in
  let* external := eq_at execution "kind" (VStr "external") in
  let* emitting := (if (external : bool) then Ok false
                    else eq_at type "observation" (VStr "graphx")) in
  let* capture := node_capture id recorder in
  let* type_value := at_ node "type" in
  let* revision := at_ type "revision" in
  let* control := string_or type "control" "none" in
  let* observation := at_ type "observation" in
  let* readiness := at_ type "readiness" in
  let contract := VObj (object_of
    [("contract_version", VInt 2); ("graph_version", VInt 3); ("graph_id", VStr gid);
     ("node_id", VStr id); ("type", type_value); ("type_revision", revision);
     ("execution", execution); ("parameters", VObj parameters); ("control", VStr control);
     ("bindings", VObj bindings);
     ("observation", member node "observation" (VArr [observation]));
     ("telemetry", VObj (object_of
        [("host", VStr (if native then "127.0.0.1" else "platform")); ("port", VInt 9000);
         ("credential", if emitting then VStr ("runtime-" +:+ id) else VNull)]));
     ("credentials", member_object node "credentials"); ("readiness", readiness);
     ("capture", capture);
     ("startup", VObj (object_of
        [("bind_before_connect", VBool true); ("release_barrier", VBool (negb external));
         ("max_wait_ms", VInt (if has_guests then 180000 else 30000))]))]) in
  match recorder with
  | Some r => assign contract "recorder" r
  | None => Ok contract
  end.

Definition node_values : result Array :=
  let* nodes := object_field graph "nodes" in
  let* has_guests := has_execution nodes "qemu" in
  let* g := at_ graph "graph" in
  let* gid := text_at g "id" in
  map_result (node_value gid has_guests) nodes.

End Nodes.
End ConfigNodes.

(** * The bindings of a node

    The port of a node is bound to exactly the connections that end there, in
    the order of the connections, as [connect] where they start and as
    [listen] where they end. *)

From Stdlib Require Import ZArith Lia Strings.Byte Strings.Ascii Strings.String Floats.SpecFloat.
From stdpp Require Import base gmap strings list.
From S2P Require Import Prelude ConfigValue ConfigValueProofs ConfigSchema ConfigNetwork.
From S2P Require Import ConfigNetworkProofs ConfigGraph ConfigGraphProofs.

Module ConfigNodesProofs.
Import ConfigValue ConfigValueProofs ConfigSchema ConfigNetwork ConfigNetworkProofs ConfigGraph.
Import ConfigGraphProofs ConfigNodes.
Local Open Scope Z_scope.

(** The binding that one side of a connection adds to a port of a node *)
Definition side_bindings (id port side : string) (e : Value) : Array :=
  match end_of side e, binding_value side e with
  | Some (n, p), Ok b => if String.eqb n id && String.eqb p port then [b] else []
  | _, _ => []
  end.

(** All bindings of a port, in the order of the connections *)
Definition port_bindings (id port : string) (edges : Array) : Array :=
  mjoin (map (fun e => side_bindings id port "from" e ++ side_bindings id port "to" e) edges).

(** The bindings [bs] of the ports are those of the connections [edges]. *)
Definition bound (id : string) (ports : Object) (edges : Array) (bs : Object) : Prop :=
  forall port, find_key port bs = match find_key port ports with
                                  | Some _ => Some (VArr (port_bindings id port edges))
                                  | None => None
                                  end.

Lemma find_result_elem {A} (p : A -> result bool) l a : find_result p l = Ok (Some a) -> a ∈ l /\ p a = Ok true.
Proof.
  induction l as [|b l IH]; cbn [find_result]; [done|]. intros H. apply bind_ok in H as ([] & Hb & H).
  - injection H as ->. by split; [left|].
  - apply IH in H as [H1 H2]. by split; [right|].
Qed.

Lemma and_result_true a b : and_result a b = Ok true -> a = Ok true /\ b = Ok true.
Proof. unfold and_result. by destruct a as [[]|]. Qed.

Lemma eq_at_text v k s b : eq_at v k (VStr s) = Ok b -> b = true -> text_at v k = Ok s.
Proof.
  unfold eq_at, text_at. intros H ->. apply bind_ok in H as (w & -> & [= H]). cbn [bind].
  destruct w; try done. cbn in H. apply String.eqb_eq in H. by subst.
Qed.

Lemma eq_at_other v k s t : eq_at v k (VStr s) = Ok false -> text_at v k = Ok t -> t <> s.
Proof.
  unfold eq_at, text_at. intros H Ht. apply bind_ok in Ht as (w & Hw & Ht). rewrite Hw in H.
  cbn [bind] in H. destruct w; try done. injection Ht as ->. injection H as H.
  cbn in H. by apply String.eqb_neq in H.
Qed.

(** One side adds its binding to the port it names. *)
Lemma bind_side_adds id e side bs bs' :
  bind_side id e side bs = Ok bs' ->
  forall port,
    (side_bindings id port side e = [] /\ find_key port bs' = find_key port bs)
    \/ exists l, find_key port bs = Some (VArr l)
       /\ find_key port bs' = Some (VArr (l ++ side_bindings id port side e)).
Proof.
  unfold bind_side, side_bindings, end_of. intros H port.
  apply bind_ok in H as (ep & Hep & H). rewrite Hep.
  apply bind_ok in H as (here & Hhere & H). destruct here; cbn [negb] in H.
  - apply eq_at_text in Hhere; [|done]. rewrite Hhere.
    apply bind_ok in H as (b & Hb & H). rewrite Hb. apply bind_ok in H as (p & -> & H).
    rewrite String.eqb_refl. cbn [andb]. unfold append_binding in H.
    destruct (find_key p bs) as [[]|] eqn:E; try done. injection H as <-. rewrite find_set_key.
    rewrite (String.eqb_sym p port).
    destruct (String.eqb_spec port p) as [->|Hne]; [rewrite E; eauto|by left].
  - injection H as <-. left. split; [|done].
    destruct (text_at ep "node") as [n|] eqn:En; [|done].
    destruct (text_at ep "port"); [|done]. destruct (binding_value side e); [|done].
    apply eq_at_other with (t := n) in Hhere; [|done]. apply String.eqb_neq in Hhere.
    by rewrite Hhere.
Qed.

Lemma port_bindings_snoc id port pre e :
  port_bindings id port (pre ++ [e])
  = port_bindings id port pre ++ side_bindings id port "from" e ++ side_bindings id port "to" e.
Proof. unfold port_bindings. rewrite map_app, join_app. cbn. by rewrite app_nil_r. Qed.

Lemma bind_sides_bound id ports pre e bs bs' :
  bound id ports pre bs -> fold_result (bind_side id e) ["from"; "to"] bs = Ok bs' ->
  bound id ports (pre ++ [e]) bs'.
Proof.
  intros Hb H port. specialize (Hb port). cbn [fold_result] in H.
  apply bind_ok in H as (bs1 & H1 & H). apply bind_ok in H as (bs2 & H2 & [= <-]).
  rewrite port_bindings_snoc.
  destruct (bind_side_adds _ _ _ _ _ H1 port) as [[-> E1]|(l1 & F1 & E1)],
    (bind_side_adds _ _ _ _ _ H2 port) as [[-> E2]|(l2 & F2 & E2)];
    destruct (find_key port ports); rewrite ?app_nil_r; try congruence; simplify_eq;
    rewrite E2 in *; simplify_eq/=; rewrite ?app_nil_r, <-?app_assoc; try congruence.
Qed.

(** The fields of a contract, with or without a recorder *)
Lemma contract_field l (recorder : option Value) v k x :
  match recorder with
  | Some r => assign (VObj (object_of l)) "recorder" r
  | None => Ok (VObj (object_of l))
  end = Ok v ->
  k <> "recorder" -> find_key k l = Some x -> at_ v k = Ok x.
Proof.
  intros H Hk Hx. unfold at_, object_at. rewrite <-(find_object_of k l) in Hx.
  destruct recorder as [r|]; injection H as <-; cbn [object bind]; [|by rewrite Hx].
  rewrite find_set_key. apply String.eqb_neq in Hk. by rewrite Hk, Hx.
Qed.

Section Bindings.
Context (regex_search : string -> string -> bool) (to_chars : spec_float -> string) (fuel : nat)
  (graph : Value) (catalog : Catalog) (connections platform : Value) (native : bool) (net : Value).

Lemma node_bindings_bound id type bs :
  node_bindings connections id type = Ok bs ->
  exists ports edges, object_field type "ports" = Ok ports /\ array connections = Ok edges
    /\ bound id ports edges bs.
Proof.
  unfold node_bindings. intros H. apply bind_ok in H as (ports & Hports & H).
  apply bind_ok in H as (edges & Hedges & H). exists ports, edges. split_and!; [done..|].
  revert H. apply (fold_result_prefix (bound id ports)).
  - intros port. rewrite find_fill. by destruct (find_key port ports).
  - intros pre e s s' _ Hb H. by eapply bind_sides_bound.
Qed.

(** The contract of a node binds each port of its type, and no other name,
    to exactly the connections that end at this port, in the order of the
    connections: once as [connect] where one starts, once as [listen] where
    one ends. *)
Theorem bindings_match_connections gid has_guests id node v :
  node_value regex_search to_chars fuel graph catalog connections platform native net gid has_guests
    (id, node) = Ok v ->
  exists type ports edges bs,
    (let* type_id := text_at node "type" in object_at (types catalog) type_id) = Ok type
    /\ object_field type "ports" = Ok ports /\ array connections = Ok edges
    /\ object_field v "bindings" = Ok bs /\ text_at v "node_id" = Ok id
    /\ forall port, find_key port bs = match find_key port ports with
                                      | Some _ => Some (VArr (port_bindings id port edges))
                                      | None => None
                                      end.
Proof.
  unfold node_value. intros H. apply bind_ok in H as (type_id & Htid & H).
  apply bind_ok in H as (type & Htype & H). apply bind_ok in H as (parameters & _ & H).
  apply bind_ok in H as ([] & _ & H). apply bind_ok in H as (bs & Hbs & H).
  apply bind_ok in H as ([] & _ & H). apply bind_ok in H as (recorder & _ & H).
  do 9 (apply bind_ok in H as (? & _ & H)).
  apply node_bindings_bound in Hbs as (ports & edges & Hports & Hedges & Hb).
  exists type, ports, edges, bs. rewrite Htid. cbn [bind].
  pose proof (fun k x => contract_field _ recorder v k x H) as Hv. clear H.
  unfold object_field, text_at. rewrite (Hv "bindings" (VObj bs)), (Hv "node_id" (VStr id))
    by first [done | reflexivity].
  by split_and!.
Qed.
End Bindings.

(** ** The contract of a node of the echo graph *)

Definition contract_type : Value :=
  VObj [("credentials", VArr []); ("observation", VStr "graphx");
        ("parameters", VObj [("rate", VObj [("default", VInt 10); ("type", VStr "integer")])]);
        ("ports", VObj [("in", echo_port "input"); ("out", echo_port "output")]);
        ("readiness", VStr "listening"); ("revision", VInt 1)].
Definition contract_catalog : Catalog := {| types := [("echo", contract_type)]; guests := [] |}.
Definition contract_node : Value :=
  VObj [("execution", VObj [("kind", VStr "container")]);
        ("parameters", VObj [("rate", VInt 25)]); ("type", VStr "echo")].
Definition contract_platform : Value := VObj [("capture", VObj [("enabled", VBool true)])].
Definition contract : Value :=
  match node_value (fun _ _ => true) (fun _ => EmptyString) 3 echo_graph contract_catalog
          (VArr echo_edges) contract_platform false VNull "g" false ("b", contract_node) with
  | Ok v => v
  | Throw _ => VNull
  end.

Lemma bindings_match_connections_witness :
  exists type ports edges bs,
    (let* type_id := text_at contract_node "type" in
     object_at (types contract_catalog) type_id) = Ok type
    /\ object_field type "ports" = Ok ports /\ array (VArr echo_edges) = Ok edges
    /\ object_field contract "bindings" = Ok bs /\ text_at contract "node_id" = Ok "b"
    /\ forall port, find_key port bs = match find_key port ports with
                                      | Some _ => Some (VArr (port_bindings "b" port edges))
                                      | None => None
                                      end.
Proof.
  apply (bindings_match_connections (fun _ _ => true) (fun _ => EmptyString) 3 echo_graph
           contract_catalog (VArr echo_edges) contract_platform false VNull "g" false).
  vm_compute; reflexivity.
Defined.

End ConfigNodesProofs.
