(* ===== verification/ConfigParse.v ===== *)
(** * Reading configuration text (src/src/config_document.cpp)

    yaml-cpp is a third-party library: the events it reports while it parses,
    the node tree it loads, and whether it throws are parameters.  What the
    code decides itself is modelled: the boundary that the events must respect
    and the conversion of the tree.  [read_real] is the extraction of a
    [double] from a stream. *)

From Stdlib Require Import ZArith Lia Strings.Byte Strings.Ascii Strings.String Floats.SpecFloat.
From stdpp Require Import base strings list.
From S2P Require Import Prelude ConfigValue.

Module ConfigParse.
Import ConfigValue.
Local Open Scope Z_scope.

(** ** [SyntaxBoundary]: a filter of parser events *)

Inductive Event :=
| OnDocumentStart
| OnDocumentEnd
| OnNull (anchor : Z)
| OnAlias
| OnAnchor
| OnScalar (tag : string) (anchor : Z)
| OnSequenceStart (tag : string) (anchor : Z)
| OnSequenceEnd
| OnMapStart (tag : string) (anchor : Z)
| OnMapEnd.

Record SyntaxBoundary := { depth : Z; documents : Z }.
Definition new_boundary : SyntaxBoundary := {| depth := 0; documents := 0 |}.

Definition check (tag : string) (anchor : Z) : result unit :=
  reject_if (negb (anchor =? 0) || (negb (String.eqb tag "?") && negb (String.eqb tag "!")))
    "E_SYNTAX" "$" "explicit YAML tags and anchors are unsupported".

Definition enter (tag : string) (anchor : Z) (b : SyntaxBoundary) : result SyntaxBoundary :=
  let* _ := check tag anchor in
  let depth := u32 (depth b + 1) in
  let* _ := reject_if (64 <? depth) "E_BOUND" "$" "configuration nesting exceeds 64 levels" in
  Ok {| depth := depth; documents := documents b |}.

Definition leave (b : SyntaxBoundary) : SyntaxBoundary :=
  {| depth := u32 (depth b - 1); documents := documents b |}.

Definition on_event (e : Event) (b : SyntaxBoundary) : result SyntaxBoundary :=
  match e with
  | OnDocumentStart =>
      let documents := u32 (documents b + 1) in
      let* _ := reject_if (1 <? documents) "E_SYNTAX" "$"
                  "exactly one YAML document is required" in
      Ok {| depth := depth b; documents := documents |}
  | OnDocumentEnd => Ok b
  | OnNull anchor => let* _ := check "?" anchor in Ok b
  | OnAlias => reject "E_SYNTAX" "$" "YAML aliases are unsupported"
  | OnAnchor => reject "E_SYNTAX" "$" "YAML anchors are unsupported"
  | OnScalar tag anchor => let* _ := check tag anchor in Ok b
  | OnSequenceStart tag anchor | OnMapStart tag anchor => enter tag anchor b
  | OnSequenceEnd | OnMapEnd => Ok (leave b)
  end.

(** ** [convert] *)

(** What the code observes of a [YAML::Node] *)
Inductive Node :=
| NodeNull
| NodeScalar (tag text : string)
| NodeSequence (items : list Node)
| NodeMap (pairs : list (Node * Node)).

Definition digit (c : ascii) : option Z :=
  let n := Z.of_N (N_of_ascii c) in
  if (48 <=? n) && (n <=? 57) then Some (n - 48) else None.

Fixpoint digits (acc : Z) (s : string) : option Z :=
  match s with
  | EmptyString => Some acc
  | String c s => match digit c with Some d => digits (acc * 10 + d) s | None => None end
  end.

(** [std::from_chars] into an [int64_t] that must consume the whole text *)
Definition integer_text (s : string) : option Z :=
  let number := match s with
                | EmptyString | String "-" EmptyString => None
                | String "-" s => option_map Z.opp (digits 0 s)
                | _ => digits 0 s
                end in
  match number with
  | Some z => if (- 2 ^ 63 <=? z) && (z <? 2 ^ 63) then Some z else None
  | None => None
  end.

(** The pattern of a real number, as the remaining text after each part *)
Fixpoint skip_digits (s : string) : string :=
  match s with
  | String c s' => match digit c with Some _ => skip_digits s' | None => s end
  | EmptyString => EmptyString
  end.
(** One digit or more *)
Definition some_digits (s : string) : option string :=
  match s with
  | String c s' => match digit c with Some _ => Some (skip_digits s') | None => None end
  | EmptyString => None
  end.
(** An optional sign, then 0 or digits that start with another one *)
Definition real_integer (s : string) : option string :=
  let s := match s with String "-" s => s | _ => s end in
  match s with
  | String "0" s => Some s
  | String c s' => match digit c with Some _ => Some (skip_digits s') | None => None end
  | EmptyString => None
  end.
(** The letter e, an optional sign, and digits *)
Definition real_exponent (s : string) : option string :=
  match s with
  | String c s =>
      if Ascii.eqb c "e" || Ascii.eqb c "E" then
        some_digits (match s with String "+" s | String "-" s => s | _ => s end)
      else None
  | EmptyString => None
  end.
Definition at_end (o : option string) : bool :=
  match o with Some EmptyString => true | _ => false end.
Definition is_real (s : string) : bool :=
  match real_integer s with
  | None => false
  | Some (String "." s) =>
      match some_digits s with
      | None => false
      | Some EmptyString => true
      | Some s => at_end (real_exponent s)
      end
  | Some s => at_end (real_exponent s)
  end.

Definition finite (f : spec_float) : bool :=
  match f with S754_zero _ | S754_finite _ _ _ => true | _ => false end.

Section Parse.
Context (read_real : string -> option spec_float).

Definition convert_scalar (tag text : string) : result Value :=
  if String.eqb tag "!" then Ok (VStr text)
  else if String.eqb text "true" then Ok (VBool true)
  else if String.eqb text "false" then Ok (VBool false)
  else
    match integer_text text with
    | Some z => Ok (VInt z)
    | None =>
        if is_real text then
          match read_real text with
          | Some f => if finite f then Ok (VReal f)
                      else reject "E_BOUND" "$" "invalid numeric value"
          | None => reject "E_BOUND" "$" "invalid numeric value"
          end
        else Ok (VStr text)
    end.

Fixpoint convert (node : Node) : result Value :=
  match node with
  | NodeNull => Ok VNull
  | NodeScalar tag text => convert_scalar tag text
  | NodeSequence items =>
      let* l := (fix go (items : list Node) : result Array :=
                   match items with
                   | [] => Ok []
                   | item :: items =>
                       let* v := convert item in let* l := go items in Ok (v :: l)
                   end) items in
      Ok (VArr l)
  | NodeMap pairs =>
      let* l := (fix go (pairs : list (Node * Node)) (object : Object) : result Object :=
                   match pairs with
                   | [] => Ok object
                   | (NodeScalar _ key, value) :: pairs =>
                       let* _ := reject_if (String.eqb key "<<" || contains (VObj object) key)
                                   "E_DUPLICATE_KEY" key "duplicate or merge key" in
                       let* v := convert value in
                       go pairs (set_key key v object)
                   | _ => reject "E_SYNTAX" "$" "mapping keys must be strings"
                   end) pairs [] in
      Ok (VObj l)
  end.

(** The events of a text, with the flag that the parser then throws *)
Context (events : string -> list Event * bool) (load : string -> option Node).

Definition parse_document (source : string) : result Value :=
  let malformed := reject "E_SYNTAX" "$" "malformed YAML/JSON configuration" in
  let (l, throws) := events source in
  let* _ := fold_result on_event l new_boundary in
  if (throws : bool) then malformed
  else match load source with
       | None => malformed
       | Some node => convert node
       end.

End Parse.
End ConfigParse.

(** * Parsed documents

    The boundary accepts exactly the plain single documents of bounded nesting,
    and every parsed value is well formed: its maps have distinct ordered keys. *)

From Stdlib Require Import ZArith Lia Strings.Byte Strings.Ascii Strings.String Floats.SpecFloat.
From stdpp Require Import base strings list.
From S2P Require Import Prelude ConfigValue ConfigValueProofs.

Module ConfigParseProofs.
Import ConfigValue ConfigValueProofs ConfigParse.
Local Open Scope Z_scope.

(** ** The boundary *)

(** Neither alias nor anchor nor explicit tag *)
Definition plain (e : Event) : Prop :=
  match e with
  | OnAlias | OnAnchor => False
  | OnNull anchor => anchor = 0
  | OnScalar tag anchor | OnSequenceStart tag anchor | OnMapStart tag anchor =>
      anchor = 0 /\ (tag = "?" \/ tag = "!")
  | _ => True
  end.

Definition nests (e : Event) : Z :=
  match e with
  | OnSequenceStart _ _ | OnMapStart _ _ => 1
  | OnSequenceEnd | OnMapEnd => -1
  | _ => 0
  end.
Definition starts (e : Event) : Z := match e with OnDocumentStart => 1 | _ => 0 end.
Definition total (f : Event -> Z) (l : list Event) : Z := foldr (fun e n => f e + n) 0 l.

Lemma check_ok tag anchor : check tag anchor = Ok tt <-> anchor = 0 /\ (tag = "?" \/ tag = "!").
Proof.
  unfold check, reject_if. split.
  - destruct (_ || _) eqn:E; [done|]. intros _. reflect_bools. split; [done|].
    apply andb_false_iff in H0. rewrite !negb_false_iff, !String.eqb_eq in H0. exact H0.
  - intros (-> & [-> | ->]); reflexivity.
Qed.

Lemma on_event_ok e b b' :
  0 <= depth b <= 64 -> 0 <= documents b <= 1 -> 0 <= depth b + nests e ->
  on_event e b = Ok b'
  <-> plain e /\ documents b + starts e <= 1 /\ depth b + nests e <= 64
      /\ b' = {| depth := depth b + nests e; documents := documents b + starts e |}.
Proof.
  intros Hd Hn Hpos. destruct b as [d n]. cbn [depth documents] in *.
  assert (Hu : forall z, 0 <= z <= 66 -> u32 z = z) by (intros z Hz; apply u32_small; unfold in_u32; lia).
  assert (Henter : forall tag anchor,
    enter tag anchor {| depth := d; documents := n |} = Ok b'
    <-> (anchor = 0 /\ (tag = "?" \/ tag = "!")) /\ d + 1 <= 64
        /\ b' = {| depth := d + 1; documents := n |}).
  { intros tag anchor. unfold enter. cbn [depth documents]. rewrite Hu by lia.
    rewrite <-check_ok. split.
    - intros H. apply bind_ok in H as ([] & Hc & H). apply bind_ok in H as ([] & Hb%reject_if_ok & [= <-]).
      reflect_bools. split_and!; [done|lia|done].
    - intros (-> & Hle & ->). cbn [bind]. unfold reject_if.
      by destruct (Z.ltb_spec 64 (d + 1)); [lia|]. }
  destruct e; cbn [on_event plain nests starts] in *; rewrite ?Z.add_0_r in *; rewrite ?Henter.
  - cbn [documents depth]. rewrite Hu by lia. unfold reject_if.
    destruct (Z.ltb_spec 1 (n + 1)); cbn [bind]; split; try (by intros [= <-]); try lia.
    + intros [= <-]. split_and!; [done|lia|lia|done].
    + by intros (_ & _ & _ & ->).
  - split; [intros [= <-]; split_and!; done || lia|by intros (_ & _ & _ & ->)].
  - rewrite bind_ok. split.
    + intros ([] & [-> _]%check_ok & [= <-]). split_and!; done || lia.
    + intros (-> & _ & _ & ->). exists tt. split; [|done]. apply check_ok. auto.
  - split; [done|by intros [[] _]].
  - split; [done|by intros [[] _]].
  - rewrite bind_ok. split.
    + intros ([] & H%check_ok & [= <-]). split_and!; done || lia || apply H.
    + intros (H & _ & _ & ->). exists tt. split; [by apply check_ok|done].
  - split; [intros (H & ? & ->); split_and!; done || lia || apply H|].
    intros (H & _ & ? & ->). split_and!; done || apply H.
  - unfold leave. cbn [depth documents]. rewrite Hu by lia.
    split; [intros [= <-]; split_and!; done || lia|by intros (_ & _ & _ & ->)].
  - split; [intros (H & ? & ->); split_and!; done || lia || apply H|].
    intros (H & _ & ? & ->). split_and!; done || apply H.
  - unfold leave. cbn [depth documents]. rewrite Hu by lia.
    split; [intros [= <-]; split_and!; done || lia|by intros (_ & _ & _ & ->)].
Qed.

Lemma prefix_cases {A} (pre l : list A) a :
  pre `prefix_of` a :: l <-> pre = [] \/ exists pre', pre = a :: pre' /\ pre' `prefix_of` l.
Proof.
  split.
  - destruct pre as [|b pre]; [by left|]. intros H. right. exists pre.
    by rewrite (prefix_cons_inv_1 _ _ _ _ H) in *; split; [|eapply prefix_cons_inv_2].
  - intros [-> |(pre' & -> & H)]; [apply prefix_nil|by apply prefix_cons].
Qed.

Lemma boundary_run l : forall b,
  0 <= depth b <= 64 -> 0 <= documents b <= 1 ->
  (forall pre, pre `prefix_of` l -> 0 <= depth b + total nests pre) ->
  is_ok (fold_result on_event l b) = true
  <-> Forall plain l /\ documents b + total starts l <= 1
      /\ forall pre, pre `prefix_of` l -> depth b + total nests pre <= 64.
Proof.
  induction l as [|e l IH]; intros b Hd Hn Hpos; cbn [fold_result].
  { split; [|done]. intros _. split_and!; [constructor|cbn; lia|].
    intros pre ->%prefix_nil_inv. cbn. lia. }
  assert (H1 : 0 <= depth b + nests e).
  { specialize (Hpos [e]). cbn in Hpos. rewrite Z.add_0_r in Hpos. apply Hpos.
    apply prefix_cons, prefix_nil. }
  pose proof (fun b' => on_event_ok e b b' Hd Hn H1) as Hstep.
  rewrite Forall_cons. cbn [total foldr]. fold (total starts l).
  destruct (on_event e b) as [b'|x] eqn:E; cbn [bind].
  - destruct (proj1 (Hstep b') eq_refl) as (Hp & Hs & Hm & ->).
    assert (0 <= starts e) by (by destruct e). rewrite IH; cbn [depth documents]; [|lia|lia|].
    + split.
      * intros (Hl & Ht & Hpre). split_and!; [done..|lia|].
        intros pre [-> |(pre' & -> & Hp')]%prefix_cases; [cbn; lia|].
        specialize (Hpre pre' Hp'). cbn [total foldr]. fold (total nests pre'). lia.
      * intros ([_ Hl] & Ht & Hpre). split_and!; [done|lia|]. intros pre Hp'.
        specialize (Hpre (e :: pre) (prefix_cons _ _ _ Hp')). cbn [total foldr] in Hpre.
        fold (total nests pre) in Hpre. lia.
    + intros pre Hp'. specialize (Hpos (e :: pre) (prefix_cons _ _ _ Hp')).
      cbn [total foldr] in Hpos. fold (total nests pre) in Hpos. lia.
  - split; [done|]. intros ([Hp Hl] & Ht & Hpre). exfalso.
    assert (Htot : 0 <= total starts l).
    { clear. induction l as [|a l IH]; [done|]. cbn [total foldr]. fold (total starts l).
      by destruct a; cbn [starts]; lia. }
    specialize (Hpre [e] (prefix_cons _ _ _ (prefix_nil _))). cbn in Hpre.
    destruct (Hstep {| depth := depth b + nests e; documents := documents b + starts e |}) as [_ Hback].
    discriminate Hback. split_and!; done || lia.
Qed.

(** ** Conversion *)

Lemma Node_nested_ind (P : Node -> Prop) :
  P NodeNull -> (forall tag text, P (NodeScalar tag text)) ->
  (forall items, Forall P items -> P (NodeSequence items)) ->
  (forall pairs, Forall (fun kv => P kv.2) pairs -> P (NodeMap pairs)) -> forall n, P n.
Proof.
  intros Hn Hs Hq Hm. fix IH 1. intros [|tag text|items|pairs].
  - apply Hn.
  - apply Hs.
  - apply Hq. induction items as [|n items IHl]; constructor; [apply IH|exact IHl].
  - apply Hm. induction pairs as [|[k v] pairs IHl]; constructor; [apply IH|exact IHl].
Qed.

Section Parse.
Context (read_real : string -> option spec_float).

Lemma convert_scalar_well_formed tag text v :
  convert_scalar read_real tag text = Ok v -> well_formed v.
Proof.
  unfold convert_scalar. intros H.
  repeat (case_match; simplify_eq/=; try done).
Qed.

Lemma convert_well_formed n : forall v, convert read_real n = Ok v -> well_formed v.
Proof.
  induction n as [|tag text|items IH|pairs IH] using Node_nested_ind; intros v H; cbn [convert] in H.
  - by injection H as <-.
  - by eapply convert_scalar_well_formed.
  - apply bind_ok in H as (l & Hl & [= <-]). apply well_formed_arr.
    revert l Hl. induction IH as [|n items Hn _ IHl]; intros l Hl; [by injection Hl as <-|].
    apply bind_ok in Hl as (w & Hw & Hl). apply bind_ok in Hl as (l' & Hl' & [= <-]).
    constructor; [by apply Hn|by apply IHl].
  - apply bind_ok in H as (l & Hl & [= <-]).
    assert (H0 : well_formed (VObj [])) by (apply well_formed_obj; split; constructor).
    revert H0 Hl. generalize ([] : Object) as acc.
    induction IH as [|[k n] pairs Hn _ IHl]; intros acc Hacc Hl; [by injection Hl as <-|].
    cbn [snd] in Hn. destruct k as [|tag key| |]; try done.
    apply bind_ok in Hl as ([] & _ & Hl). apply bind_ok in Hl as (w & Hw & Hl).
    apply IHl in Hl; [done|]. apply well_formed_set; [done|by apply Hn].
Qed.

Context (events : string -> list Event * bool) (load : string -> option Node).

(** A parser opens before it closes. *)
Definition bracketed (l : list Event) : Prop := forall pre, pre `prefix_of` l -> 0 <= total nests pre.

(** Of the texts whose events open before they close, the reader accepts
    exactly those that parse, start one document at most, nest 64 levels at
    most, use neither aliases nor anchors nor explicit tags, and convert; the
    result is well formed, so every map in it has distinct keys in order. *)
Theorem parse_document_accepts source v :
  bracketed (events source).1 ->
  parse_document read_real events load source = Ok v
  <-> (events source).2 = false
      /\ Forall plain (events source).1 /\ total starts (events source).1 <= 1
      /\ (forall pre, pre `prefix_of` (events source).1 -> total nests pre <= 64)
      /\ (exists node, load source = Some node /\ convert read_real node = Ok v)
      /\ well_formed v.
Proof.
  intros Hb. unfold parse_document. destruct (events source) as [l throws]. cbn [fst snd] in *.
  pose proof (boundary_run l new_boundary) as Hrun. cbn [new_boundary depth documents] in Hrun.
  setoid_rewrite Z.add_0_l in Hrun. specialize (Hrun ltac:(lia) ltac:(lia) Hb).
  split.
  - intros H. apply bind_ok in H as (b & Hf & H). rewrite Hf in Hrun.
    destruct (proj1 Hrun eq_refl) as (Hp & Hs & Hn). destruct throws; [done|].
    destruct (load source) as [node|]; [|done].
    split_and!; try done; [by exists node|by eapply convert_well_formed].
  - intros (-> & Hp & Hs & Hn & (node & -> & Hc) & _).
    destruct (fold_result on_event l new_boundary) as [b|e]; [done|].
    discriminate (proj2 Hrun (conj Hp (conj Hs Hn))).
Qed.
End Parse.

(** ** A document of one map *)

Definition sample_events (s : string) : list Event * bool :=
  ([OnDocumentStart; OnMapStart "?" 0; OnScalar "?" 0; OnScalar "?" 0; OnScalar "?" 0;
    OnSequenceStart "?" 0; OnScalar "!" 0; OnSequenceEnd; OnMapEnd; OnDocumentEnd], false).
Definition sample_node (s : string) : option Node :=
  Some (NodeMap [(NodeScalar "?" "version", NodeScalar "?" "3");
                 (NodeScalar "?" "nodes", NodeSequence [NodeScalar "!" "true"])]).
Definition sample_value : Value :=
  VObj [("nodes", VArr [VStr "true"]); ("version", VInt 3)].

Lemma sample_bracketed : bracketed (sample_events "text").1.
Proof.
  intros pre H. cbn [sample_events fst] in H.
  repeat (apply prefix_cases in H as [-> |(? & -> & H)]; [vm_compute; discriminate|]).
  apply prefix_nil_inv in H as ->. vm_compute; discriminate.
Qed.

Lemma parse_document_accepts_witness :
  parse_document (fun _ => None) sample_events sample_node "text" = Ok sample_value
  <-> (sample_events "text").2 = false
      /\ Forall plain (sample_events "text").1 /\ total starts (sample_events "text").1 <= 1
      /\ (forall pre, pre `prefix_of` (sample_events "text").1 -> total nests pre <= 64)
      /\ (exists node, sample_node "text" = Some node
                       /\ convert (fun _ => None) node = Ok sample_value)
      /\ well_formed sample_value.
Proof.
  apply (parse_document_accepts (fun _ => None) sample_events sample_node "text" sample_value).
  exact sample_bracketed.
Defined.

Example sample_parses :
  parse_document (fun _ => None) sample_events sample_node "text" = Ok sample_value.
Proof. vm_compute. reflexivity. Qed.

End ConfigParseProofs.
