(* ===== verification/Text.v ===== *)
(** * Searching and cutting texts

    The operations of [std::string_view] that hand-written readers use, the
    conversions [std::stoll] and [std::to_string], and hexadecimal texts, with
    the lemmas that find a marker behind text that cannot contain it. *)

From Stdlib Require Import ZArith Lia Strings.Byte Strings.Ascii Strings.String.
From stdpp Require Import base option strings pretty list.
From S2P Require Import Prelude Envelope ConfigValue ConfigRender ConfigParse.

Module Text.
Import Envelope ConfigRender ConfigParse.
Local Open Scope Z_scope.

(** ** Cutting and searching *)

Fixpoint sdrop (n : nat) (s : string) : string :=
  match n, s with
  | S n, String _ s => sdrop n s
  | _, _ => s
  end.

Fixpoint stake (n : nat) (s : string) : string :=
  match n, s with
  | S n, String c s => String c (stake n s)
  | _, _ => ""
  end.

Definition substr (pos len : nat) (s : string) : string := stake len (sdrop pos s).

(** The first and the last occurrence *)
Fixpoint find (pattern s : string) : option nat :=
  if String.prefix pattern s then Some 0%nat
  else match s with
       | EmptyString => None
       | String _ s => option_map S (find pattern s)
       end.

Fixpoint rfind (pattern s : string) : option nat :=
  match s with
  | EmptyString => if String.prefix pattern s then Some 0%nat else None
  | String _ rest =>
      match rfind pattern rest with
      | Some n => Some (S n)
      | None => if String.prefix pattern s then Some 0%nat else None
      end
  end.

Definition find_from (pos : nat) (pattern s : string) : option nat :=
  option_map (Nat.add pos) (find pattern (sdrop pos s)).

Definition starts_with (s prefix : string) : bool := String.prefix prefix s.
Definition ends_with (s suffix : string) : bool :=
  (String.length suffix <=? String.length s)%nat
  && String.eqb (sdrop (String.length s - String.length suffix) s) suffix.

(** ** Numbers *)

(** [std::isspace] in the C locale *)
Definition is_space (c : ascii) : bool :=
  let n := Z.of_N (N_of_ascii c) in (n =? 32) || ((9 <=? n) && (n <=? 13)).

Fixpoint skip_spaces (s : string) : string :=
  match s with
  | EmptyString => EmptyString
  | String c rest => if is_space c then skip_spaces rest else s
  end.

Fixpoint leading_digits (acc : Z) (s : string) : Z :=
  match s with
  | EmptyString => acc
  | String c s => match digit c with Some d => leading_digits (acc * 10 + d) s | None => acc end
  end.

(** [std::stoll]: white space, a sign, digits, and anything behind them;
    [None] when it throws. *)
Definition stoll (s : string) : option Z :=
  let s := skip_spaces s in
  let '(negative, s) := match s with
                        | String "-" s => (true, s)
                        | String "+" s => (false, s)
                        | _ => (false, s)
                        end in
  match s with
  | EmptyString => None
  | String c _ =>
      match digit c with
      | None => None
      | Some _ =>
          let v := if negative : bool then - leading_digits 0 s else leading_digits 0 s in
          if (- 2 ^ 63 <=? v) && (v <? 2 ^ 63) then Some v else None
      end
  end.

(** ** Hexadecimal texts *)

Definition hex_text (l : list byte) : string :=
  string_of (mjoin (map (fun b => [hex_digit (Z.shiftr (Z_of_byte b) 4);
                                   hex_digit (Z.land (Z_of_byte b) 15)]) l)).

Definition quote : string := String "034" "".
Definition quoted (s : string) : string := quote +:+ s +:+ quote.

(** ** Lemmas *)

(** No character of [s] is [c]. *)
Definition without (c : ascii) (s : string) : Prop := all_chars (fun x => x <> c) s.

Lemma sapp_length (a b : string) : String.length (a +:+ b) = (String.length a + String.length b)%nat.
Proof. induction a as [|c a IH]; [done|]. rewrite sapp_cons. cbn. by rewrite IH. Qed.

Lemma sdrop_app (u v : string) : sdrop (String.length u) (u +:+ v) = v.
Proof. induction u as [|c u IH]; [done|]. rewrite sapp_cons. exact IH. Qed.

Lemma sdrop_app' n (u v : string) : n = String.length u -> sdrop n (u +:+ v) = v.
Proof. intros ->. apply sdrop_app. Qed.

Lemma stake_app' n (u v : string) : n = String.length u -> stake n (u +:+ v) = u.
Proof.
  intros ->. induction u as [|c u IH]; [by destruct v|]. rewrite sapp_cons. cbn. by rewrite IH.
Qed.

Lemma sdrop_add a b s : sdrop (a + b) s = sdrop b (sdrop a s).
Proof. revert s; induction a as [|a IH]; intros s; [done|]. destruct s; [by destruct b|]. apply IH. Qed.

Lemma stake_drop n s : stake n s +:+ sdrop n s = s.
Proof.
  revert s; induction n as [|n IH]; intros s; [done|]. destruct s as [|c s]; [done|].
  cbn [stake sdrop]. by rewrite sapp_cons, IH.
Qed.

Lemma stake_all n s : (String.length s <= n)%nat -> stake n s = s.
Proof.
  revert s; induction n as [|n IH]; intros [|c s] H; cbn in *; [done|lia|done|]. by rewrite IH by lia.
Qed.

Lemma stake_length n s : (n <= String.length s)%nat -> String.length (stake n s) = n.
Proof.
  revert s; induction n as [|n IH]; intros [|c s] H; cbn in *; [done|done|lia|]. by rewrite IH by lia.
Qed.

Lemma sdrop_length n s : String.length (sdrop n s) = (String.length s - n)%nat.
Proof. revert s; induction n as [|n IH]; intros [|c s]; cbn; [done..|]. apply IH. Qed.

Lemma prefix_app p s : String.prefix p s = true <-> exists r, s = p +:+ r.
Proof.
  revert s; induction p as [|c p IH]; intros s.
  - split; [by exists s|by destruct s].
  - destruct s as [|d s]; cbn.
    + split; [done|by intros [r Hr]].
    + destruct (ascii_dec c d) as [->|Hne].
      * rewrite IH. split; intros [r Hr]; exists r; [by rewrite sapp_cons, Hr|].
        rewrite sapp_cons in Hr. by injection Hr.
      * split; [done|]. intros [r Hr]. rewrite sapp_cons in Hr. by injection Hr.
Qed.

Lemma prefix_self p s : String.prefix p (p +:+ s) = true.
Proof. apply prefix_app. by exists s. Qed.

Lemma prefix_head_ne h p c s : c <> h -> String.prefix (String h p) (String c s) = false.
Proof. intros H. cbn. destruct (ascii_dec h c); [congruence|done]. Qed.

(** A pattern is not found in text without its first character. *)
Lemma find_skip h p u v :
  without h u -> find (String h p) (u +:+ v) = option_map (Nat.add (String.length u)) (find (String h p) v).
Proof.
  induction u as [|c u IH]; intros Hu.
  - rewrite sapp_empty. by destruct (find _ v).
  - destruct Hu as [Hc Hu]. rewrite sapp_cons. cbn [find]. rewrite prefix_head_ne, IH by done.
    by destruct (find _ v).
Qed.

Lemma rfind_app p u v n : rfind p v = Some n -> rfind p (u +:+ v) = Some (String.length u + n)%nat.
Proof. intros H. induction u as [|c u IH]; [done|]. rewrite sapp_cons. cbn [rfind]. by rewrite IH. Qed.

Lemma rfind_skip h p u v : without h u -> rfind (String h p) v = None -> rfind (String h p) (u +:+ v) = None.
Proof.
  intros Hu Hv. induction u as [|c u IH]; [done|]. destruct Hu as [Hc Hu]. rewrite sapp_cons.
  cbn [rfind]. rewrite IH by done. by rewrite prefix_head_ne.
Qed.

Lemma rfind_head h p u v :
  rfind (String h p) (u +:+ v) = None -> String.prefix (String h p) (String h (u +:+ v)) = false ->
  rfind (String h p) (String h (u +:+ v)) = None.
Proof. intros H1 H2. cbn [rfind]. by rewrite H1, H2. Qed.

Lemma find_split p s n : find p s = Some n ->
  exists v, s = stake n s +:+ p +:+ v /\ String.length (stake n s) = n.
Proof.
  revert n; induction s as [|c s IH]; intros n; cbn [find].
  - destruct (String.prefix p "") eqn:E; [|done]. intros [= <-].
    apply prefix_app in E as [r Hr]. by exists r.
  - destruct (String.prefix p (String c s)) eqn:E.
    + intros [= <-]. apply prefix_app in E as [r Hr]. by exists r.
    + destruct (find p s) as [m|] eqn:Em; [|done]. intros [= <-].
      destruct (IH m eq_refl) as (v & Hv & Hl). exists v. cbn [stake].
      rewrite sapp_cons, <-Hv. cbn. by rewrite Hl.
Qed.

Lemma all_chars_impl (P Q : ascii -> Prop) s : (forall c, P c -> Q c) -> all_chars P s -> all_chars Q s.
Proof. intros H. induction s as [|c s IH]; cbn; [done|]. intros [Hc Hs]. auto. Qed.

Lemma all_chars_app (P : ascii -> Prop) a b : all_chars P (a +:+ b) <-> all_chars P a /\ all_chars P b.
Proof. induction a as [|c a IH]; [cbn; tauto|]. rewrite sapp_cons. cbn. rewrite IH. tauto. Qed.

(** ** Numbers and their texts *)

Lemma number_without c z : ~ number_char c -> without c (to_string z).
Proof.
  intros Hc. apply (all_chars_impl number_char); [|apply to_string_number].
  by intros x Hx ->.
Qed.

Lemma digits_leading s : forall acc v, digits acc s = Some v -> leading_digits acc s = v.
Proof.
  induction s as [|c s IH]; intros acc v; cbn; [congruence|]. destruct (digit c); [apply IH|done].
Qed.
Lemma digits_pretty_go n s : digits 0 (pretty_N_go n s) = digits (Z.of_N n) s.
Proof.
  revert s. induction (N.lt_wf_0 n) as [n _ IH]. intros s.
  destruct (decide (n = 0)%N) as [->|Hn]; [done|].
  rewrite pretty_N_go_step by lia. rewrite IH by (apply N.div_lt; lia). cbn [digits].
  assert (Hc : forall m, (m < 10)%N -> digit (pretty_N_char m) = Some (Z.of_N m)).
  { intros m Hm. destruct m as [|p]; [done|]. do 4 (destruct p as [p|p|]; try done; try lia). }
  rewrite Hc by by apply N.mod_lt. f_equal.
  rewrite N2Z.inj_div, N2Z.inj_mod. change (Z.of_N 10) with 10. rewrite Z.mul_comm.
  symmetry. apply Z.div_mod. lia.
Qed.

Lemma digits_to_string z : 0 <= z -> digits 0 (to_string z) = Some z.
Proof.
  intros Hz. unfold to_string, pretty, pretty_Z. destruct z as [|p|p]; [done| |lia].
  change (digits 0 (pretty_N_go (N.pos p) "") = Some (Z.pos p)). by rewrite digits_pretty_go.
Qed.

Lemma digit_not_space c d : digit c = Some d -> is_space c = false.
Proof.
  unfold digit, is_space. set (n := Z.of_N (N_of_ascii c)).
  destruct ((48 <=? n) && (n <=? 57)) eqn:E; [|done]. intros _. reflect_bools.
  apply orb_false_iff. split; [apply Z.eqb_neq; lia|]. apply andb_false_iff. right. apply Z.leb_gt. lia.
Qed.

Lemma stoll_to_string z : in_i64 z -> stoll (to_string z) = Some z.
Proof.
  intros Hz. unfold in_i64 in Hz.
  assert (Hpos : forall n, exists c s d, to_string (Z.of_N n) = String c s /\ digit c = Some d
    /\ leading_digits 0 (String c s) = Z.of_N n).
  { intros n. pose proof (digits_to_string (Z.of_N n) ltac:(lia)) as Hd.
    pose proof (to_string_number (Z.of_N n)) as [_ Hne].
    destruct (to_string (Z.of_N n)) as [|c s]; [done|].
    pose proof Hd as Hc. cbn in Hc. destruct (digit c) as [d|] eqn:E; [|done].
    exists c, s, d. split; [done|]. split; [done|]. by apply digits_leading. }
  assert (Hrange : ((- 2 ^ 63 <=? z) && (z <? 2 ^ 63)) = true).
  { apply andb_true_iff. rewrite Z.leb_le, Z.ltb_lt. lia. }
  unfold stoll. destruct (Z.leb_spec 0 z) as [H0|H0].
  - destruct (Hpos (Z.to_N z)) as (c & s & d & Hs & Hd & Hv). rewrite Z2N.id in Hs, Hv by done.
    rewrite Hs. cbn [skip_spaces]. rewrite (digit_not_space c d Hd).
    assert (Hsign : forall {A} (x y t : A), match c with "-"%char => x | "+"%char => y | _ => t end = t).
    { intros A x y t. destruct c as [[] [] [] [] [] [] [] []]; done. }
    rewrite (Hsign _ (true, s) (false, s) (false, String c s)). rewrite Hd, Hv, Hrange. done.
  - destruct z as [|p|p]; [lia|lia|].
    change (to_string (Z.neg p)) with (String "-" (to_string (Z.of_N (N.pos p)))).
    destruct (Hpos (N.pos p)) as (c & s & d & Hs & Hd & Hv). rewrite Hs.
    cbn [skip_spaces]. change (is_space "-") with false. cbn match. rewrite Hd, Hv.
    change (- Z.of_N (N.pos p)) with (Z.neg p). by rewrite Hrange.
Qed.
End Text.
