(* ===== verification/ResolvedTransport.v ===== *)
(** * Transport settings of a resolved connection
    (src/src/resolved_transport.cpp, src/src/config.cpp, src/include/graphx/config.hpp)

    [resolved_transport] turns the settings of a resolved connection into the
    record the transport factory works with, narrowing the numbers. *)

From Stdlib Require Import ZArith Lia Strings.Byte Strings.Ascii Strings.String Floats.SpecFloat.
From stdpp Require Import base strings list.
From S2P Require Import Prelude ConfigValue.

Module ResolvedTransport.
Import ConfigValue.
Local Open Scope Z_scope.

Inductive TransportKind := in_process | tcp_kind | udp_kind | unix_socket | shared_memory.
Inductive UdpMode := unicast | broadcast | multicast.

Record RetryConfig := { max_attempts : Z; initial_backoff_ms : Z; max_backoff_ms : Z }.

Record TlsConfig := {
  enabled : bool; verify_peer : bool; require_client_certificate : bool; ca_file : string;
  certificate_file : string; private_key_file : string; server_name : string;
  generation_file : string }.

Record TcpTransportConfig := {
  host : string; tcp_bind : string; tcp_port : Z; tcp_framing : string;
  tcp_connect_timeout_ms : Z; tcp_send_timeout_ms : Z; retry : RetryConfig; reconnect : bool;
  tls : TlsConfig; source_address : string }.

Record UdpTransportConfig := {
  mode : UdpMode; destination : string; udp_bind : string; udp_port : Z; interface : string;
  ttl : Z; loopback : bool; reuse_address : bool; receive_buffer_bytes : Z;
  send_buffer_bytes : Z; max_datagram_bytes : Z; udp_framing : string }.

Record UnixSocketTransportConfig := {
  path : string; unix_framing : string; unix_connect_timeout_ms : Z; unix_send_timeout_ms : Z }.

Record InProcessTransportConfig := {
  channel : string; in_capacity : Z; in_backpressure : string; in_send_timeout_ms : Z }.

Record SharedMemoryTransportConfig := {
  segment : string; capacity : Z; max_message_bytes : Z; backpressure : string;
  shm_connect_timeout_ms : Z; shm_send_timeout_ms : Z }.

(** The payload of [ExternalTransportConfig] *)
Inductive Protocol := TcpProtocol (c : TcpTransportConfig) | UdpProtocol (c : UdpTransportConfig).

Inductive TransportSettings :=
| Tcp (c : TcpTransportConfig)
| Udp (c : UdpTransportConfig)
| UnixSocket (c : UnixSocketTransportConfig)
| InProcess (c : InProcessTransportConfig)
| SharedMemory (c : SharedMemoryTransportConfig)
| External (protocol : Protocol).

Definition transport_kind (transport : TransportSettings) : TransportKind :=
  match transport with
  | Tcp _ => tcp_kind
  | Udp _ => udp_kind
  | UnixSocket _ => unix_socket
  | InProcess _ => in_process
  | SharedMemory _ => shared_memory
  | External (TcpProtocol _) => tcp_kind
  | External (UdpProtocol _) => udp_kind
  end.

Definition transport_framing (transport : TransportSettings) : string :=
  match transport with
  | InProcess _ | SharedMemory _ => "u32be"
  | External (TcpProtocol c) => tcp_framing c
  | External (UdpProtocol c) => udp_framing c
  | Tcp c => tcp_framing c
  | Udp c => udp_framing c
  | UnixSocket c => unix_framing c
  end.

Definition kind_to_string (kind : TransportKind) : string :=
  match kind with
  | in_process => "in_process"
  | tcp_kind => "tcp"
  | udp_kind => "udp"
  | unix_socket => "unix"
  | shared_memory => "shared_memory"
  end.

(** [static_cast<std::uint32_t>(settings.at(key).integer())] *)
Definition u32_at (settings : Value) (key : string) : result Z :=
  let* z := integer_at settings key in Ok (u32 z).

Definition resolve_tls (connection : Value) : result TlsConfig :=
  let* security := at_ connection "security" in
  let* plain := eq_at security "profile" (VStr "none") in
  Ok {| enabled := negb plain; verify_peer := true; require_client_certificate := negb plain;
        ca_file := EmptyString; certificate_file := EmptyString;
        private_key_file := EmptyString; server_name := EmptyString;
        generation_file := EmptyString |}.

Definition resolve_tcp (connection settings : Value) : result TcpTransportConfig :=
  let* host := text_at settings "host" in
  let* bind := text_at settings "bind" in
  let* port := integer_at settings "port" in
  let* framing := text_at settings "framing" in
  let* tls := resolve_tls connection in
  let* connect_timeout := u32_at settings "connect_timeout_ms" in
  let* send_timeout := u32_at settings "send_timeout_ms" in
  let* reconnect := boolean_at settings "reconnect" in
  let* r := at_ settings "retry" in
  let* attempts := u32_at r "max_attempts" in
  let* initial := u32_at r "initial_backoff_ms" in
  let* maximum := u32_at r "max_backoff_ms" in
  Ok {| host := host; tcp_bind := bind; tcp_port := u16 port; tcp_framing := framing;
        tcp_connect_timeout_ms := connect_timeout; tcp_send_timeout_ms := send_timeout;
        retry := {| max_attempts := attempts; initial_backoff_ms := initial;
                    max_backoff_ms := maximum |};
        reconnect := reconnect; tls := tls; source_address := EmptyString |}.

Definition udp_mode (name : string) : UdpMode :=
  if String.eqb name "multicast" then multicast
  else if String.eqb name "broadcast" then broadcast else unicast.

Definition resolve_udp (settings : Value) : result UdpTransportConfig :=
  let* destination := text_at settings "destination" in
  let* bind := text_at settings "bind" in
  let* port := integer_at settings "port" in
  let* name := text_at settings "mode" in
  let* interface := string_or settings "interface" EmptyString in
  let* ttl := u32_at settings "ttl" in
  let* loopback := boolean_at settings "loopback" in
  let* reuse := boolean_at settings "reuse_address" in
  let* maximum := u32_at settings "max_datagram_bytes" in
  let* receive := u32_at settings "receive_buffer_bytes" in
  let* send := u32_at settings "send_buffer_bytes" in
  let* framing := text_at settings "framing" in
  Ok {| mode := udp_mode name; destination := destination; udp_bind := bind;
        udp_port := u16 port; interface := interface; ttl := ttl; loopback := loopback;
        reuse_address := reuse; receive_buffer_bytes := receive; send_buffer_bytes := send;
        max_datagram_bytes := maximum; udp_framing := framing |}.

Definition resolve_shared_memory (settings : Value) : result SharedMemoryTransportConfig :=
  let* segment := text_at settings "segment" in
  let* capacity := u32_at settings "capacity" in
  let* maximum := u32_at settings "max_message_bytes" in
  let* backpressure := text_at settings "backpressure" in
  let* connect_timeout := u32_at settings "connect_timeout_ms" in
  let* send_timeout := u32_at settings "send_timeout_ms" in
  Ok {| segment := segment; capacity := capacity; max_message_bytes := maximum;
        backpressure := backpressure; shm_connect_timeout_ms := connect_timeout;
        shm_send_timeout_ms := send_timeout |}.

Definition resolved_transport (connection : Value) : result TransportSettings :=
  let* external := eq_at connection "encoding" (VStr "raw") in
  let* settings := at_ connection "settings" in
  let* transport := text_at connection "transport" in
  if String.eqb transport "tcp" then
    let* c := resolve_tcp connection settings in
    Ok (if external then External (TcpProtocol c) else Tcp c)
  else if String.eqb transport "udp" then
    let* c := resolve_udp settings in
    Ok (if external then External (UdpProtocol c) else Udp c)
  else
    let* c := resolve_shared_memory settings in Ok (SharedMemory c).

End ResolvedTransport.
