(* ===== verification/Scenario.v ===== *)
(** * Scenarios of a graph (src/src/scenario_config.cpp)

    [scenario_plan] checks the authored actions against the resolved graph;
    [select_laboratory] rewrites an authored graph so that a simulator takes
    the place of a physical device.  [stod] reads a [double] from a text. *)

From Stdlib Require Import ZArith Lia Strings.Byte Strings.Ascii Strings.String Floats.SpecFloat.
From stdpp Require Import base gmap strings list.
From S2P Require Import Prelude ConfigValue ConfigNetwork ConfigGraph.

Module Scenario.
Import ConfigValue ConfigNetwork ConfigGraph.
Local Open Scope Z_scope.

Definition require (condition : bool) (message : string) : result unit :=
  if negb condition then reject "E_SCENARIO" "scenario.actions" message else Ok tt.

(** The element whose field [key] is [id] *)
Definition find (values : Value) (key : string) (id : Value) : result Value :=
  let* l := array values in
  let* item := find_result (fun v => eq_at v key id) l in
  match item with
  | Some v => Ok v
  | None => reject "E_SCENARIO" "scenario.actions" "unknown resource reference"
  end.

(** ** [scenario_plan] *)

(** Optional and required fields of an operation; required ones in set order *)
Definition operation_fields (kind : string) : result (list string * list string) :=
  let kind_is k := String.eqb kind k in
  if kind_is "fault" then
    Ok (["attachment"; "duration_seconds"; "delay_ms"; "jitter_ms"; "loss_percent"],
        ["attachment"; "duration_seconds"])
  else if kind_is "route-apply" || kind_is "route-clear" then
    Ok (["router"; "destination"], ["destination"; "router"])
  else if kind_is "traffic" then Ok (["connections"; "expect"], ["connections"; "expect"])
  else if kind_is "credential-rotate" then
    Ok (["credential"; "next"; "grace_seconds"; "verify"],
        ["credential"; "grace_seconds"; "next"])
  else if kind_is "external-simulator" then
    Ok (["address"; "attachment"; "node"; "type"; "credentials"; "client_credentials";
         "exclusive_with"],
        ["address"; "attachment"; "client_credentials"; "credentials"; "exclusive_with"; "node";
         "type"])
  else reject "E_SCENARIO" "scenario.actions" "unknown operation".

Section Plan.
Context (to_chars : spec_float -> string) (stod : string -> result spec_float).
Context (resolved : Value) (ids : gset string) (credentials : Object).

Definition check_fields (action : Value) (kind : string) : result unit :=
  let* (allowed, required) := operation_fields kind in
  let* l := object action in
  let* _ := for_each (fun kv : string * Value =>
      require (one_of kv.1 ("id" :: "action" :: allowed))
        ("field does not belong to operation: " +:+ kv.1)) l in
  for_each (fun key => require (contains action key) ("missing operation field: " +:+ key)) required.

Definition check_fault (action : Value) : result unit :=
  let* network := at_ resolved "network" in
  let* attachments := at_ network "attachments" in
  let* id := at_ action "attachment" in
  let* attachment := find attachments "id" id in
  let* external := eq_at attachment "kind" (VStr "external") in
  let* mirror := (if (external : bool) then Ok true else eq_at attachment "kind" (VStr "mirror")) in
  let* _ := require (negb mirror) "fault needs an owned data attachment" in
  let* jitter := integer_or action "jitter_ms" 0 in
  let* delay := integer_or action "delay_ms" 0 in
  let* _ := require (jitter <=? delay) "jitter exceeds delay" in
  let* effective :=
    (if 0 <? delay then Ok true
     else if contains action "loss_percent" then
       let* loss := at_ action "loss_percent" in
       let* text := config_value_json to_chars loss false in
       let* f := stod text in
       Ok (SFltb (S754_zero false) f)
     else Ok false) in
  require effective "empty fault".

Definition check_route_action (action : Value) : result unit :=
  let* network := at_ resolved "network" in
  let* routers := at_ network "routers" in
  let* id := at_ action "router" in
  let* router := find routers "id" id in
  let* routes := at_ router "routes" in
  let* destination := at_ action "destination" in
  let* route := find routes "destination" destination in
  let* manual := (if contains route "install" then eq_at route "install" (VStr "manual")
                  else Ok false) in
  require manual "scenario routes must be declared manual".

Definition known_expectations : list string :=
  ["pass"; "drop"; "bidirectional-tcp-udp"; "vlan-43-isolated"; "capture-nonempty";
   "qmp-pause-resume"].

Definition check_traffic (action : Value) : result unit :=
  let* wanted := array_at action "connections" in
  let* expect := (match wanted with [] => Ok [] | _ => array_at action "expect" end) in
  let* _ := require (match wanted, expect with [], _ | _, [] => false | _, _ => true end)
              "traffic requires connections and expectations" in
  let* _ := fold_result (fun id refs =>
      let* connections := at_ resolved "connections" in
      let* _ := find connections "id" id in
      let* ref := text id in
      let* _ := require (bool_decide (ref ∉ refs)) "duplicate traffic connection" in
      Ok ({[ref]} ∪ refs)) wanted (∅ : gset string) in
  for_each (fun expected =>
      let* value := text expected in
      require (one_of value known_expectations
               || (String.prefix "pass-only-after-" value
                   && bool_decide (String.substring 16 (String.length value - 16) value ∈ ids)))
        "unknown traffic expectation") expect.

Definition check_rotation (action : Value) : result unit :=
  let* ref := text_at action "credential" in
  let* next := text_at action "next" in
  let* _ := require (negb (String.eqb ref next) && contains (VObj credentials) ref
                     && contains (VObj credentials) next)
              "unknown or identical rotation reference" in
  let* _ := for_each (fun key =>
      let* old := object_at credentials ref in
      let* new := object_at credentials next in
      let* field := at_ new key in
      let* same := eq_at old key field in
      require same "rotation changes credential identity or roles")
      ["provider"; "identity"; "members"] in
  let* grace := integer_at action "grace_seconds" in
  let* _ := require (grace <=? 60) "rotation overlap exceeds 60 seconds" in
  if negb (contains action "verify") then Ok tt
  else
    let* values := array_at action "verify" in
    for_each (fun value =>
        require (existsb (value_eqb value)
                   [VStr "old-and-new-during-grace"; VStr "old-rejected-after-grace";
                    VStr "per-node-identity-bound"]) "unknown rotation verification") values.

Definition test_ref (ref : Value) : result unit :=
  let* name := text ref in
  let* lab := (if contains (VObj credentials) name then
                 let* credential := object_at credentials name in
                 eq_at credential "provider" (VStr "lab-generated")
               else Ok false) in
  require lab "laboratory requires test credentials".

Definition check_simulator (action : Value) : result unit :=
  let* nodes := at_ resolved "nodes" in
  let* node_id := at_ action "node" in
  let* node := find nodes "node_id" node_id in
  let* network := at_ resolved "network" in
  let* attachments := at_ network "attachments" in
  let* attachment_id := at_ action "attachment" in
  let* attachment := find attachments "id" attachment_id in
  let* execution := at_ node "execution" in
  let* external := eq_at execution "kind" (VStr "external") in
  let* same := (if (external : bool) then
                  let* address := at_ action "address" in eq_at execution "address" address
                else Ok false) in
  let* _ := require same "laboratory selection must replace the declared external address" in
  let* simulator := eq_at action "type" (VStr "sdr.simulator") in
  let* exclusive := (if (simulator : bool)
                     then eq_at action "exclusive_with" (VStr "physical-device")
                     else Ok false) in
  let* owned := (if (exclusive : bool) then eq_at attachment "owner" node_id else Ok false) in
  let* _ := require owned "invalid laboratory substitute" in
  let* ref := at_ action "credentials" in
  let* _ := test_ref ref in
  let* clients := object_field action "client_credentials" in
  for_each (fun kv : string * Value =>
      let* _ := find nodes "node_id" (VStr kv.1) in test_ref kv.2) clients.

Definition check_action (action : Value) : result unit :=
  let* kind := text_at action "action" in
  let* _ := check_fields action kind in
  if String.eqb kind "fault" then check_fault action
  else if String.prefix "route-" kind then check_route_action action
  else if String.eqb kind "traffic" then check_traffic action
  else if String.eqb kind "credential-rotate" then check_rotation action
  else check_simulator action.

End Plan.

(** Authored credentials, and the generated ones of the telemetry of nodes *)
Definition scenario_credentials (authored resolved : Value) : result Object :=
  let* credentials := (if contains authored "credentials" then object_field authored "credentials"
                       else Ok []) in
  let* nodes := array_at resolved "nodes" in
  fold_result (fun node credentials =>
      let* telemetry := at_ node "telemetry" in
      let* ref := at_ telemetry "credential" in
      if is_null ref then Ok credentials
      else
        let* name := text ref in
        let* identity := at_ node "node_id" in
        match find_key name credentials with
        | Some _ => Ok credentials
        | None => Ok (set_key name
                        (VObj (object_of [("provider", VStr "runtime-generated");
                                          ("identity", identity);
                                          ("members", VArr [VStr "hmac"])])) credentials)
        end) nodes credentials.

Definition scenario_plan (to_chars : spec_float -> string) (stod : string -> result spec_float)
    (authored resolved : Value) : result Value :=
  let* actions := (if contains authored "scenario" then
                     let* scenario := at_ authored "scenario" in array_at scenario "actions"
                   else Ok []) in
  let* ids := fold_result (fun action ids =>
      let* id := text_at action "id" in
      let* _ := require (bool_decide (id ∉ ids)) "duplicate action ID" in
      Ok ({[id]} ∪ ids)) actions (∅ : gset string) in
  let* credentials := scenario_credentials authored resolved in
  let* _ := for_each (check_action to_chars stod resolved ids credentials) actions in
  Ok (VObj (object_of [("version", VInt 1); ("implicit_start", VBool false);
                       ("baseline_config", VStr "resolved.json"); ("actions", VArr actions)])).

(** ** [select_laboratory] *)

(** [f] applied to the reference [v[key]]; a new entry starts as null. *)
Definition update_key (key : string) (f : Value -> result Value) (v : Value) : result Value :=
  match v with
  | VNull => let* item := f VNull in Ok (VObj [(key, item)])
  | VObj l => let* item := f (default VNull (find_key key l)) in Ok (VObj (set_key key item l))
  | _ => Throw BadVariantAccess
  end.

Fixpoint update_path (keys : list string) (f : Value -> result Value) (v : Value) : result Value :=
  match keys with
  | [] => f v
  | key :: keys => update_key key (update_path keys f) v
  end.

Definition assign_path (keys : list string) (item : Value) : Value -> result Value :=
  update_path keys (fun _ => Ok item).

Definition control_ref (graph : Value) (node : string) : result string :=
  let* nodes := at_ graph "nodes" in
  let* node := at_ nodes node in
  let* credentials := at_ node "credentials" in
  text_at credentials "control".

(** The simulator takes the declared place of the external node. *)
Definition select_node (action : Value) (selected : Value) : result Value :=
  let* execution := at_ selected "execution" in
  let* external := eq_at execution "kind" (VStr "external") in
  let* same := (if (external : bool) then
                  let* address := at_ action "address" in eq_at execution "address" address
                else Ok false) in
  let* _ := require same "physical declaration mismatch" in
  let* credentials := at_ selected "credentials" in
  let* _ := text_at credentials "control" in
  let* selected := assign selected "execution" (VObj [("kind", VStr "container")]) in
  let* type := at_ action "type" in
  let* selected := assign selected "type" type in
  let* ref := at_ action "credentials" in
  assign_path ["credentials"; "control"] ref selected.

Definition select_client (kv : string * Value) (s : list string * Value)
    : result (list string * Value) :=
  let (old_refs, graph) := s in
  let (client, ref) := kv in
  let* old := control_ref graph client in
  let* graph := assign_path ["nodes"; client; "credentials"; "control"] ref graph in
  Ok (old_refs ++ [old], graph).

(** The one switch that the peers of the attachment's network are plugged into *)
Definition peer_switches (attachments : Array) (attachment : Value) : result (gset string) :=
  fold_result (fun peer switches =>
      let* near :=
        (if contains peer "network" then
           let* network := at_ attachment "network" in eq_at peer "network" network
         else Ok false) in
      let* plugged := (if near && contains peer "switch" then
                         let* external := eq_at peer "kind" (VStr "external") in
                         Ok (negb external)
                       else Ok false) in
      if (plugged : bool) then let* sw := text_at peer "switch" in Ok ({[sw]} ∪ switches)
      else Ok switches) attachments ∅.

Definition select_attachment (action : Value) (attachments : Array) (attachment : Value)
    : result Value :=
  let* wanted := at_ action "attachment" in
  let* chosen := eq_at attachment "id" wanted in
  if negb chosen then Ok attachment
  else
    let* attachment :=
      (if contains attachment "switch" then Ok attachment
       else
         let* switches := peer_switches attachments attachment in
         match elements switches with
         | [sw] => assign attachment "switch" (VStr sw)
         | _ => reject "E_SCENARIO" "scenario.actions"
                  "laboratory attachment requires one unambiguous owned switch"
         end) in
    assign attachment "kind" (VStr "container_veth").

(** The loop writes to the array it reads: elements before [i] are final. *)
Definition select_attachments (action : Value) (attachments : Value) : result Value :=
  let* l := array attachments in
  let* l := fold_result (fun i l =>
      match l !! i with
      | None => Ok l
      | Some attachment =>
          let* attachment := select_attachment action l attachment in
          Ok (<[i := attachment]> l)
      end) (seq 0 (length l)) l in
  Ok (VArr l).

Definition erase_unused (ref : string) (graph : Value) : result Value :=
  let* nodes := object_field graph "nodes" in
  let* used := fold_result (fun kv : string * Value => fun used =>
      if negb (contains kv.2 "credentials") then Ok used
      else
        let* roles := object_field kv.2 "credentials" in
        Ok (used || existsb (fun role : string * Value => value_eqb role.2 (VStr ref)) roles))
      nodes false in
  if (used : bool) then Ok graph
  else update_path ["credentials"]
         (fun credentials => let* l := object credentials in Ok (VObj (erase_key ref l))) graph.

Definition select_laboratory (graph : Value) (id : string) : result Value :=
  let* _ := require (contains graph "scenario") "laboratory action not declared" in
  let* scenario := at_ graph "scenario" in
  let* actions := array_at scenario "actions" in
  let* action := find (VArr actions) "id" (VStr id) in
  let* simulator := eq_at action "action" (VStr "external-simulator") in
  let* _ := require simulator "pre-start selection requires external-simulator" in
  let* node := text_at action "node" in
  let* selected := update_path ["nodes"; node] (select_node action) graph in
  let* old := control_ref graph node in
  let* clients := object_field action "client_credentials" in
  let* (old_refs, graph) := fold_result select_client clients ([old], selected) in
  let* graph := update_path ["network"; "attachments"] (select_attachments action) graph in
  let* graph := fold_result erase_unused old_refs graph in
  update_path ["scenario"; "actions"] (fun actions =>
      let* l := array actions in
      let* kept := map_result (fun v => let* gone := eq_at v "id" (VStr id) in Ok (gone, v)) l in
      Ok (VArr (map snd (List.filter (fun p : bool * Value => negb p.1) kept)))) graph.

End Scenario.
