(* ===== verification/ConfigLoad.v ===== *)
(** * Loading a graph (load_catalog, load_graph and project_runtime_types of
    src/src/config_v3.cpp)

    The stages of the loader in their order: the catalog with its digests, the
    checks of the graph, the platform and lifecycle settings, the resolved
    contract and its typed projection.  Parameters are the files the loader
    reads, the schemas the build embeds, yaml-cpp, SHA-256, [inet_pton] and the
    number formats of the C++ library. *)

From Stdlib Require Import ZArith Lia Strings.Byte Strings.Ascii Strings.String Floats.SpecFloat.
From stdpp Require Import base gmap strings list.
From S2P Require Import Prelude ConfigValue ConfigSchema ConfigParse ConfigNetwork ConfigGraph.
From S2P Require Import ConfigNodes ResolvedNetwork ResolvedTransport Scenario.

Module ConfigLoad.
Import ConfigValue ConfigSchema ConfigNetwork ConfigGraph ConfigNodes Scenario.
Local Open Scope Z_scope.

Definition kMaxConfigBytes : Z := 1024 * 1024.

(** ** The records of config.hpp and types.hpp *)

Inductive Direction := input | output.
Record Port := { port_name : string; direction : Direction; port_schema : string }.
Record TypePortCapability := {
  port : Port; transports : list string; encoding : string; minimum_connections : Z;
  maximum_connections : Z; feedback : bool }.
Record NodeTypeDefinition := {
  type_id : string; revision : Z; type_ports : list TypePortCapability }.
Record NodeConfig := {
  node_id : string; kind : string; runtime : string; execution : string; lifecycle : string;
  control : string; accelerator : string; architecture : string; node_ports : list Port }.
Record Edge := {
  edge_id : string; from_node : string; from_port : string; to_node : string; to_port : string }.
Record EdgeConfig := {
  edge : Edge; transport : ResolvedTransport.TransportSettings; data_plane : string }.

Record GraphConfig := {
  version : Z; id : string; nodes : list NodeConfig; edges : list EdgeConfig;
  network_infrastructure : ResolvedNetwork.NetworkInfrastructureConfig;
  laboratory_action : string; authored : Value; resolved : Value; catalog : Value;
  node_types : list NodeTypeDefinition }.

(** The schemas of cmake/config_schemas.hpp.in, filled in by the build *)
Record Schemas := {
  authored_schema : Value; node_type_schema : Value; normalized_schema : Value;
  guest_schema : Value; lock_schema : Value }.

(** The catalog with what only the loader looks at *)
Record LoadedCatalog := {
  digest : string; snapshot_lock : Value; snapshot_files : Object; platform : Value;
  wire_schemas : Value; parts : Catalog }.

Section Load.
Context (schemas : Schemas) (fuel : nat).
Context (parse : string -> result Value) (sha256 : string -> string)
  (inet_pton : string -> option Z) (regex_search : string -> string -> bool)
  (to_chars : spec_float -> string) (stod : string -> result spec_float).
(** The texts of the lock file that a graph names, and of the files of a lock *)
Context (read_lock : string -> result string) (read_file : string -> string -> result string).

Definition validate (value schema : Value) (path : string) : result unit :=
  validate_shape regex_search to_chars fuel schema value schema path.

Definition is_absolute (path : string) : bool := String.prefix "/" path.

(** ** [load_catalog] *)

Definition check_type_port (relative : string) (kv : string * Value) : result unit :=
  let (name, port) := kv in
  let path := "catalog." +:+ relative +:+ ".ports." +:+ name in
  let* minimum := integer_at port "min_connections" in
  let* maximum := integer_at port "max_connections" in
  let* _ := reject_if (maximum <? minimum) "E_CATALOG" path "minimum connections exceeds maximum" in
  let* transports := array_at port "transports" in
  let* _ := reject_if (match transports with [] => true | _ => false end) "E_CATALOG" path
              "port requires a transport" in
  let* listener := boolean_at port "listener" in
  let* is_input := eq_at port "direction" (VStr "input") in
  reject_if (negb (eqb listener is_input)) "E_CATALOG" path "listener must be an input port".

Definition load_type (relative : string) (data : Value) (c : Catalog) : result Catalog :=
  let path := "catalog." +:+ relative in
  let* _ := validate data (node_type_schema schemas) path in
  let* ports := object_field data "ports" in
  let* _ := for_each (check_type_port relative) ports in
  let* parameters := object_field data "parameters" in
  let* _ := for_each (fun kv : string * Value =>
      let* default := at_ kv.2 "default" in
      validate default kv.2 (path +:+ ".parameters." +:+ kv.1)) parameters in
  let* id := text_at data "id" in
  let* _ := reject_if (contains (VObj (types c)) id) "E_CATALOG" "catalog" "duplicate type ID" in
  Ok {| types := set_key id data (types c); guests := guests c |}.

Definition load_guest (relative : string) (data : Value) (c : Catalog) : result Catalog :=
  let path := "catalog." +:+ relative in
  let* _ := validate data (guest_schema schemas) path in
  let* _ := reject_if (negb (contains data "id") || negb (contains data "architecture")
                       || negb (contains data "accelerators") || negb (contains data "outputs"))
              "E_GUEST_ARTIFACT" path "incomplete guest artifact declaration" in
  let* id := text_at data "id" in
  let* _ := reject_if (contains (VObj (guests c)) id) "E_CATALOG" "catalog" "duplicate guest ID" in
  Ok {| types := types c; guests := set_key id data (guests c) |}.

(** What the loop over the files of the lock carries *)
Record CatalogState := { paths : gset string; bytes : Z; loaded : LoadedCatalog }.

Definition lock_entry (file : Value) : result (string * string) :=
  let bad := reject "E_CATALOG" "catalog.files" "each lock entry requires path and sha256 only" in
  match file with
  | VObj l =>
      match find_key "path" l, find_key "sha256" l with
      | Some (VStr path), Some (VStr digest) =>
          if (length l =? 2)%nat then Ok (path, digest) else bad
      | _, _ => bad
      end
  | _ => bad
  end.

(** A file of the catalog by its place *)
Definition load_part (relative : string) (data : Value) (c : LoadedCatalog)
    : result LoadedCatalog :=
  let with_parts parts :=
    {| digest := digest c; snapshot_lock := snapshot_lock c;
       snapshot_files := snapshot_files c; platform := platform c;
       wire_schemas := wire_schemas c; parts := parts |} in
  if String.prefix "types/" relative
  then let* parts := load_type relative data (parts c) in Ok (with_parts parts)
  else if String.prefix "guests/" relative
  then let* parts := load_guest relative data (parts c) in Ok (with_parts parts)
  else if String.eqb relative "platform.json"
  then Ok {| digest := digest c; snapshot_lock := snapshot_lock c;
             snapshot_files := snapshot_files c; platform := data;
             wire_schemas := wire_schemas c; parts := parts c |}
  else if String.eqb relative "wire-schemas.json"
  then Ok {| digest := digest c; snapshot_lock := snapshot_lock c;
             snapshot_files := snapshot_files c; platform := platform c;
             wire_schemas := data; parts := parts c |}
  else Ok c.

Definition load_file (lock_path : string) (file : Value) (s : CatalogState)
    : result CatalogState :=
  let* (relative, expected) := lock_entry file in
  let* _ := reject_if (is_absolute relative || bool_decide (relative ∈ paths s)) "E_CATALOG"
              "catalog.files" "duplicate or absolute catalog path" in
  let* contents := read_file lock_path relative in
  let bytes := bytes s + size contents in
  let* _ := reject_if (16 * kMaxConfigBytes <? bytes) "E_BOUND" "catalog"
              "catalog exceeds 16 MiB" in
  let* _ := reject_if (negb (String.eqb (sha256 contents) expected)) "E_CATALOG_DIGEST"
              ("catalog." +:+ relative) "catalog content does not match its digest" in
  let* data := parse contents in
  let c := loaded s in
  let c := {| digest := digest c; snapshot_lock := snapshot_lock c;
              snapshot_files := set_key relative data (snapshot_files c);
              platform := platform c; wire_schemas := wire_schemas c; parts := parts c |} in
  let* c := load_part relative data c in
  Ok {| paths := {[relative]} ∪ paths s; bytes := bytes; loaded := c |}.

Definition check_wire_schema (wire_schemas : Value) (id : string) (kv : string * Value)
    : result unit :=
  let (name, port) := kv in
  let* schema := text_at port "schema" in
  let* known :=
    (if contains wire_schemas schema then
       let* wire := at_ wire_schemas schema in
       let* encoding := at_ port "encoding" in
       eq_at wire "encoding" encoding
     else Ok false) in
  reject_if (negb known) "E_CATALOG" ("catalog.types." +:+ id +:+ ".ports." +:+ name)
    "unknown wire schema or mismatched encoding".

Definition load_catalog (graph : Value) : result LoadedCatalog :=
  let* authored_path := text_at graph "catalog" in
  let* _ := reject_if (is_absolute authored_path) "E_PATH_ESCAPE" "catalog"
              "authored catalog paths must be relative" in
  let* source := read_lock authored_path in
  let* lock := parse source in
  let* _ := validate lock (lock_schema schemas) "catalog" in
  let* versioned := (if contains lock "version" then eq_at lock "version" (VInt 1)
                     else Ok false) in
  let* _ := reject_if (negb (versioned && match at_ lock "files" with Ok (VArr _) => true
                                                                 | _ => false end))
              "E_CATALOG" "catalog" "invalid catalog lock" in
  let* files := array_at lock "files" in
  let* _ := reject_if (1024 <? Z.of_nat (length files)) "E_BOUND" "catalog"
              "catalog exceeds 1024 files" in
  let empty := {| digest := sha256 source; snapshot_lock := lock; snapshot_files := [];
                  platform := VNull; wire_schemas := VNull;
                  parts := {| types := []; guests := [] |} |} in
  let* s := fold_result (load_file authored_path) files
              {| paths := ∅; bytes := 0; loaded := empty |} in
  let c := loaded s in
  let* _ := reject_if (is_null (platform c) || match types (parts c) with [] => true | _ => false end)
              "E_CATALOG" "catalog" "catalog requires platform defaults and types" in
  let* _ := for_each (fun kv : string * Value =>
      let* ports := object_field kv.2 "ports" in
      for_each (check_wire_schema (wire_schemas c) kv.1) ports) (types (parts c)) in
  Ok c.

(** ** Platform, grants and lifecycle *)

Definition is_native (graph : Value) : result bool :=
  let* nodes := object_field graph "nodes" in
  match nodes with
  | [] => Ok false
  | _ =>
      let* other := any_result (fun kv : string * Value =>
          let* execution := at_ kv.2 "execution" in
          let* native := eq_at execution "kind" (VStr "native") in
          Ok (negb native)) nodes in
      Ok (negb other)
  end.

(** Assignments through [operator[]], in order *)
Definition assign_all (l : list (list string * Value)) (v : Value) : result Value :=
  fold_result (fun entry v => assign_path entry.1 entry.2 v) l v.

Definition platform_value (graph : Value) (c : LoadedCatalog) (target : string) (native : bool)
    (network : Value) : result Value :=
  let* platform := merged (platform c) (member_object graph "platform") in
  let choose (a b : string) := VStr (if native then a else b) in
  let* platform := assign_all
    [(["history"; "database_file"],
      choose "${GX_STATE}/history/history.sqlite" "/var/lib/graphx/history/history.sqlite");
     (["capture"; "directory"], choose "${GX_STATE}/captures" "/captures");
     (["telemetry"; "host"], choose "127.0.0.1" "platform")] platform in
  let console_port (platform : Value) :=
    let* console := at_ platform "console" in integer_at console "port" in
  let* port := console_port platform in
  let local := VStr ("http://127.0.0.1:" +:+ to_string port) in
  let* platform := assign_path ["control"; "allowed_origins"] (VArr [local]) platform in
  let* forwarded := (if String.eqb target "lima"
                     then let* port := console_port platform in Ok (port =? 8080)
                     else Ok false) in
  let* platform :=
    (if (forwarded : bool)
     then assign_path ["control"; "allowed_origins"]
            (VArr [local; VStr "http://127.0.0.1:18080"]) platform
     else Ok platform) in
  let* platform := assign_all [(["normalization"], VStr "resolved.json");
                               (["credential_manifest"], VStr "credentials.json")] platform in
  if negb (contains graph "network") then Ok platform
  else
    let* captures := array_at network "captures" in
    assign_all
      [(["capture"; "enabled"], VBool (match captures with [] => false | _ => true end));
       (["capture"; "provider"], VStr "ovs-span")] platform.

Fixpoint has_char (c : ascii) (s : string) : bool :=
  match s with EmptyString => false | String d s => Ascii.eqb c d || has_char c s end.

Definition check_otlp (graph platform : Value) : result unit :=
  let* otlp := at_ platform "otlp" in
  let* enabled := boolean_at otlp "enabled" in
  if negb enabled then Ok tt
  else
    let* _ := for_each (fun key =>
        reject_if (negb (contains otlp key)) "E_SCHEMA" ("platform.otlp." +:+ key)
          "enabled OTLP requires endpoint, mode and credentials")
        ["endpoint"; "mode"; "credentials"] in
    let* ref := text_at otlp "credentials" in
    let* _ := reject_if (negb (contains (member_object graph "credentials") ref)) "E_CREDENTIAL"
                "platform.otlp.credentials" "unknown credential reference" in
    let* endpoint := text_at otlp "endpoint" in
    reject_if (has_char "@" endpoint || has_char "#" endpoint || has_char "?" endpoint
               || (size endpoint <=? 8)) "E_SCHEMA" "platform.otlp.endpoint"
      "OTLP requires an HTTPS endpoint without embedded credentials, query or fragment".

Definition check_granted_action (graph : Value) (id : string) (action : Value) : result unit :=
  let* action := text action in
  let collector := String.eqb id "collector" in
  let* wrong :=
    (if negb (String.eqb action "serial") then Ok false
     else if collector then Ok true
     else
       let* nodes := at_ graph "nodes" in
       let* node := at_ nodes id in
       let* execution := at_ node "execution" in
       let* qemu := eq_at execution "kind" (VStr "qemu") in
       Ok (negb qemu)) in
  let* _ := reject_if wrong "E_REFERENCE" "platform.control.grants"
              "serial requires a QEMU node" in
  reject_if (negb (eqb (String.eqb action "reset") collector)) "E_REFERENCE"
    "platform.control.grants"
    "reset requires the collector target; collector only supports reset".

Definition check_grant (graph grant : Value) : result unit :=
  let* credential := text_at grant "credential" in
  let* _ := reject_if (negb (contains (member_object graph "credentials") credential))
              "E_CREDENTIAL" "platform.control.grants" "unknown grant credential" in
  let* ids := array_at grant "nodes" in
  for_each (fun id =>
      let* id := text id in
      let* unknown :=
        (if String.eqb id "collector" then Ok false
         else let* nodes := at_ graph "nodes" in Ok (negb (contains nodes id))) in
      let* _ := reject_if unknown "E_REFERENCE" "platform.control.grants" "unknown granted node" in
      let* actions := array_at grant "actions" in
      for_each (check_granted_action graph id) actions) ids.

Definition lifecycle_value (graph : Value) : result Value :=
  let* lifecycle :=
    merged (VObj (object_of [("startup", VStr "transactional"); ("readiness_ms", VInt 30000)]))
      (member_object graph "lifecycle") in
  let* available := eq_at lifecycle "startup" (VStr "available") in
  let* nodes := (if (available : bool) then object_field graph "nodes" else Ok []) in
  let* _ := for_each (fun kv : string * Value =>
      let* execution := at_ kv.2 "execution" in
      let* native := eq_at execution "kind" (VStr "native") in
      let* container := (if (native : bool) then Ok true
                         else eq_at execution "kind" (VStr "container")) in
      reject_if (negb container) "E_LIFECYCLE" ("nodes." +:+ kv.1)
        "available startup requires native or container applications") nodes in
  Ok lifecycle.

(** The references of the contract: an ordered set as the keys of an object *)
Definition credential_references (graph : Value) (nodes : Array) : result Array :=
  let* credentials := object (member_object graph "credentials") in
  let set := fold_left (fun set kv => set_key kv.1 VNull set) credentials
               [("observer", VNull)] in
  let* set := fold_result (fun node set =>
      let* telemetry := at_ node "telemetry" in
      let* ref := at_ telemetry "credential" in
      if is_null ref then Ok set else let* name := text ref in Ok (set_key name VNull set))
    nodes set in
  Ok (map (fun kv : string * Value => VStr kv.1) set).

Definition resolved_value (graph : Value) (c : LoadedCatalog) (target : string) (nodes : Array)
    (lifecycle connections network portable platform : Value) (references : Array)
    : result Value :=
  let* g := at_ graph "graph" in
  let* id := text_at g "id" in
  let* text := config_value_json to_chars graph false in
  Ok (VObj (object_of
    [("contract_version", VInt 2); ("graph_version", VInt 3); ("graph_id", VStr id);
     ("target", VStr target); ("catalog_digest", VStr (digest c));
     ("input_digest", VStr (sha256 text)); ("nodes", VArr nodes); ("lifecycle", lifecycle);
     ("connections", connections); ("network", network); ("portable_network", portable);
     ("platform", platform); ("credential_references", VArr references);
     ("ordering", VStr "lexicographic-ascii");
     ("execution_values", VArr [VStr "GX_STATE"; VStr "GX_CREDENTIALS"; VStr "GX_OUTPUT";
                                VStr "GX_RELEASE"; VStr "GX_OWNER"])])).

(** ** [project_runtime_types] *)

Definition port_of (kv : string * Value) : result Port :=
  let* is_input := eq_at kv.2 "direction" (VStr "input") in
  let* schema := text_at kv.2 "schema" in
  Ok {| port_name := kv.1; direction := if (is_input : bool) then input else output;
        port_schema := schema |}.

Definition project_port (kv : string * Value) : result TypePortCapability :=
  let* p := port_of kv in
  let* l := array_at kv.2 "transports" in
  let* transports := map_result text l in
  let* encoding := text_at kv.2 "encoding" in
  let* minimum := integer_at kv.2 "min_connections" in
  let* maximum := integer_at kv.2 "max_connections" in
  let* feedback := boolean_at kv.2 "feedback" in
  Ok {| port := p; transports := transports; encoding := encoding;
        minimum_connections := u64 minimum; maximum_connections := u64 maximum;
        feedback := feedback |}.

Definition project_type (kv : string * Value) : result NodeTypeDefinition :=
  let* revision := integer_at kv.2 "revision" in
  let* ports := object_field kv.2 "ports" in
  let* ports := map_result project_port ports in
  Ok {| type_id := kv.1; revision := u32 revision; type_ports := ports |}.

Definition project_node (c : Catalog) (node : Value) : result NodeConfig :=
  let* id := text_at node "node_id" in
  let* kind := text_at node "type" in
  let* e := at_ node "execution" in
  let* execution := text_at e "kind" in
  let* accelerator := string_or e "accelerator" EmptyString in
  let* architecture := string_or e "architecture" EmptyString in
  let* type := object_at (types c) kind in
  let* ports := object_field type "ports" in
  let* ports := map_result port_of ports in
  Ok {| node_id := id; kind := kind;
        runtime := if String.eqb execution "container" then "docker"
                   else if String.eqb execution "native" || String.eqb execution "namespace"
                   then "process" else execution;
        execution := execution;
        lifecycle := if String.eqb execution "external" then "external" else "managed";
        control := "graphx"; accelerator := accelerator; architecture := architecture;
        node_ports := ports |}.

Definition project_edge (connection : Value) : result EdgeConfig :=
  let* id := text_at connection "id" in
  let* from := at_ connection "from" in
  let* from_node := text_at from "node" in
  let* from_port := text_at from "port" in
  let* to := at_ connection "to" in
  let* to_node := text_at to "node" in
  let* to_port := text_at to "port" in
  let* transport := ResolvedTransport.resolved_transport connection in
  let* raw := eq_at connection "encoding" (VStr "raw") in
  Ok {| edge := {| edge_id := id; from_node := from_node; from_port := from_port;
                   to_node := to_node; to_port := to_port |};
        transport := transport; data_plane := if (raw : bool) then "external" else "graphx" |}.

(** ** [load_graph] *)

Definition check_version (graph : Value) : result unit :=
  let* current := (if contains graph "version" then eq_at graph "version" (VInt 3)
                   else Ok false) in
  reject_if (negb current) "E_VERSION" "version" "only configuration version 3 is accepted".

(** Everything after the laboratory selection *)
Definition resolve_graph (target laboratory : string) (graph : Value) : result GraphConfig :=
  let* _ := check_version graph in
  let* _ := validate graph (authored_schema schemas) "$" in
  let* c := load_catalog graph in
  let* _ := validate_target graph (parts c) target in
  let* _ := validate_network inet_pton to_chars graph in
  let* native := is_native graph in
  let* network := network_value sha256 graph in
  let* expanded := assign graph "network" network in
  let* _ := (if contains graph "network" then validate_network inet_pton to_chars expanded
             else Ok tt) in
  let* portable := portable_value inet_pton sha256 graph native in
  let* connections := connection_values inet_pton graph (parts c) network portable native in
  let* platform := platform_value graph c target native network in
  let* _ := check_otlp graph platform in
  let* control := at_ platform "control" in
  let* grants := array_at control "grants" in
  let* _ := for_each (check_grant graph) grants in
  let* lifecycle := lifecycle_value graph in
  let* nodes := node_values regex_search to_chars fuel graph (parts c) connections platform
                  native network in
  let* available := eq_at lifecycle "startup" (VStr "available") in
  let* nodes := (if (available : bool)
                 then map_result (assign_path ["startup"; "max_wait_ms"] (VInt 600000)) nodes
                 else Ok nodes) in
  let* references := credential_references graph nodes in
  let* resolved := resolved_value graph c target nodes lifecycle connections network portable
                     platform references in
  let* _ := validate resolved (normalized_schema schemas) "$" in
  let* text := config_value_json to_chars resolved true in
  let* _ := reject_if (4 * kMaxConfigBytes <? size text) "E_BOUND" "$"
              "normalized contract exceeds 4 MiB" in
  let* infrastructure := ResolvedNetwork.resolved_network network in
  let* node_types := map_result project_type (types (parts c)) in
  let* projected := map_result (project_node (parts c)) nodes in
  let* l := array connections in
  let* edges := map_result project_edge l in
  let* _ := scenario_plan to_chars stod graph resolved in
  let* g := at_ graph "graph" in
  let* id := text_at g "id" in
  Ok {| version := 3; id := id; nodes := projected; edges := edges;
        network_infrastructure := infrastructure; laboratory_action := laboratory;
        authored := graph; resolved := resolved;
        catalog := VObj (object_of [("lock", snapshot_lock c); ("files", VObj (snapshot_files c))]);
        node_types := node_types |}.

(** [read] yields the text of the graph; with a laboratory action the
    unmodified graph is loaded first, which reads the file again. *)
Definition load_graph (target laboratory : string) (read reread : result string)
    : result GraphConfig :=
  let* source := read in
  let* graph := parse source in
  if String.eqb laboratory EmptyString then resolve_graph target laboratory graph
  else
    let* source := reread in
    let* baseline := parse source in
    let* _ := resolve_graph target EmptyString baseline in
    let* graph := select_laboratory graph laboratory in
    resolve_graph target laboratory graph.

End Load.
End ConfigLoad.
