(* ===== verification/EdgeProofs.v ===== *)
(** * Where the edges of a graph come from, and how they are framed

    Every resolved edge belongs to one authored connection that passed the
    checks; the transport built from it frames messages exactly if its ports
    exchange envelopes. *)

From Stdlib Require Import ZArith Lia Strings.Byte Strings.Ascii Strings.String Floats.SpecFloat.
From stdpp Require Import base gmap strings list.
From S2P Require Import Prelude ConfigValue ConfigValueProofs ConfigNetwork ConfigNetworkProofs.
From S2P Require Import ConfigGraph ConfigGraphProofs ResolvedTransport.

Module EdgeProofs.
Import ConfigValue ConfigValueProofs ConfigNetwork ConfigNetworkProofs ConfigGraph.
Import ConfigGraphProofs ResolvedTransport.
Local Open Scope Z_scope.

Section Edges.
Context (inet_pton : string -> option Z) (graph : Value) (catalog : Catalog)
  (net portable : Value) (native : bool).

(** The settings of the edge of a connection, and the checks they passed *)
Definition edge_settings (path transport : string) (authored in_ settings : Value) : Prop :=
  if String.eqb transport "shared_memory" then settings = authored
  else exists target address ord ls ls',
    socket_settings inet_pton portable native path target transport address ord authored in_ ls
      = Ok (settings, ls').

(** The edge [e] was made from the connection [kv]. *)
Definition edge_of (kv : string * Value) (e : Value) : Prop :=
  exists transport in_ encoding settings,
    let path := "connections." +:+ kv.1 in
    let authored := member_object kv.2 "settings" in
    text_at kv.2 "transport" = Ok transport /\ at_ in_ "encoding" = Ok encoding
    /\ check_settings path transport authored in_ = Ok tt
    /\ check_security graph path transport kv.2 = Ok tt
    /\ edge_settings path transport authored in_ settings
    /\ text_at e "id" = Ok kv.1 /\ text_at e "transport" = Ok transport
    /\ at_ e "encoding" = Ok encoding /\ at_ e "settings" = Ok settings
    /\ at_ e "security" = Ok (member kv.2 "security" (VObj [("profile", VStr "none")])).

Lemma connection_value_edge attachments kv s s' :
  connection_value inet_pton graph catalog net portable native attachments kv s = Ok s' ->
  exists e, edges s' = edges s ++ [e] /\ edge_of kv e.
Proof.
  destruct kv as [id c]. unfold connection_value. intros H.
  apply bind_ok in H as (from & _ & H). apply bind_ok in H as (to & _ & H).
  destruct (endpoint from) as [source sp], (endpoint to) as [target tp].
  apply bind_ok in H as (out & _ & H). apply bind_ok in H as (in_ & _ & H).
  apply bind_ok in H as (transport & Htr & H). apply bind_ok in H as ([] & _ & H).
  apply bind_ok in H as ([sa da] & _ & H). apply bind_ok in H as ([] & _ & H).
  apply bind_ok in H as (da' & _ & H). apply bind_ok in H as ([] & Hset & H).
  apply bind_ok in H as ([] & Hsec & H). apply bind_ok in H as ([settings ls] & Hls & H).
  apply bind_ok in H as (schema & _ & H). apply bind_ok in H as (encoding & Henc & H).
  injection H as <-. eexists. split; [reflexivity|].
  exists transport, in_, encoding, settings. cbn [fst snd].
  split_and!; try done; try reflexivity.
  unfold edge_settings. destruct (String.eqb transport "shared_memory").
  - by apply bind_ok in Hls as ([] & _ & [= <- <-]).
  - by exists target, da', (ordinal s), (listeners s), ls.
Qed.

(** Every edge comes from an authored connection, and they correspond in order. *)
Lemma edges_of_connections es :
  connection_values inet_pton graph catalog net portable native = Ok (VArr es) ->
  exists connections, object_field graph "connections" = Ok connections
    /\ Forall2 edge_of connections es.
Proof.
  unfold connection_values. intros H. apply bind_ok in H as (attachments & _ & H).
  apply bind_ok in H as (connections & Hc & H). apply bind_ok in H as (maxima & _ & H).
  apply bind_ok in H as ([] & _ & H). apply bind_ok in H as (s & Hs & H).
  apply bind_ok in H as ([] & _ & H). apply bind_ok in H as ([] & _ & [= <-]).
  exists connections. split; [done|]. revert Hs.
  apply (fold_result_prefix (fun pre s => Forall2 edge_of pre (edges s))); [constructor|].
  intros pre kv s1 s2 _ Hpre (e & -> & He)%connection_value_edge.
  by apply Forall2_app; [|constructor].
Qed.

(** ** Framing *)

Definition framing_for (encoding : Value) : string :=
  if value_eqb encoding (VStr "graphx") then "u32be" else "none".

Lemma well_formed_at v k w : well_formed v -> at_ v k = Ok w -> well_formed w.
Proof.
  intros Hv H. destruct v; try done. unfold at_, object_at in H. cbn [object bind] in H.
  destruct (find_key k l) eqn:E; [|done]. injection H as <-. by eapply well_formed_find.
Qed.

Lemma well_formed_member v k : well_formed v -> well_formed (member_object v k).
Proof.
  intros Hv. unfold member_object, member. destruct (at_ v k) eqn:E; [by eapply well_formed_at|].
  apply well_formed_obj. split; constructor.
Qed.

Lemma object_of_well_formed l : Forall (fun kv => well_formed kv.2) l -> well_formed (VObj (object_of l)).
Proof.
  intros H. unfold object_of.
  enough (Hgen : forall acc, well_formed (VObj acc) -> well_formed (VObj
     (fold_left (fun acc kv => match find_key kv.1 acc with
        | Some _ => acc | None => set_key kv.1 kv.2 acc end) l acc)))
    by (apply Hgen, well_formed_obj; split; constructor).
  induction H as [|kv l Hkv Hl IH]; intros acc Hacc; cbn [fold_left]; [done|].
  apply IH. destruct (find_key kv.1 acc); [done|]. by apply well_formed_set.
Qed.

(** Authored framing has passed the check against the encoding. *)
Lemma check_settings_framing path transport authored in_ encoding :
  check_settings path transport authored in_ = Ok tt -> at_ in_ "encoding" = Ok encoding ->
  contains authored "framing" = true ->
  at_ authored "framing" = Ok (VStr (framing_for encoding)).
Proof.
  unfold check_settings. intros H Henc Hc.
  apply bind_ok in H as (l & _ & H). do 2 (apply bind_ok in H as ([] & _ & H)).
  apply bind_ok in H as ([] & _ & H). apply bind_ok in H as (graphx & Hg & H).
  rewrite Hc in H. cbn [negb] in H. apply bind_ok in H as (fits & Hfits & H%reject_if_ok).
  apply negb_false_iff in H. subst fits. unfold eq_at in Hg. rewrite Henc in Hg.
  injection Hg as Hg. unfold framing_for. rewrite Hg.
  apply contains_at in Hc as (w & Hw). unfold eq_at in Hfits. rewrite Hw in Hfits. rewrite Hw.
  cbn [bind] in Hfits. injection Hfits as Hfits. f_equal.
  destruct w; try done. cbn in Hfits. apply String.eqb_eq in Hfits. by subst.
Qed.

Lemma default_framing transport address port graphx :
  exists d, default_settings transport address port graphx = VObj d /\ well_formed (VObj d)
    /\ find_key "framing" d = Some (VStr (if graphx : bool then "u32be" else "none")).
Proof.
  unfold default_settings. eexists. split; [reflexivity|]. split.
  - apply object_of_well_formed. destruct (String.eqb transport "tcp"); cbn [app];
      repeat (constructor; [cbn [snd]; try exact I|]); try constructor.
  - rewrite find_object_of. by destruct (String.eqb transport "tcp").
Qed.

Lemma text_at_assign v k k' w v' t :
  assign v k w = Ok v' -> k' <> k -> text_at v k' = Ok t -> text_at v' k' = Ok t.
Proof.
  intros H Hne Ht. destruct v; try done. injection H as <-. revert Ht.
  unfold text_at, at_, object_at. cbn [object bind]. rewrite find_set_key.
  apply String.eqb_neq in Hne. by rewrite Hne.
Qed.

Lemma merged_framing transport address port graphx encoding authored m :
  graphx = value_eqb encoding (VStr "graphx") -> well_formed authored ->
  (contains authored "framing" = true ->
   at_ authored "framing" = Ok (VStr (framing_for encoding))) ->
  merged (default_settings transport address port graphx) authored = Ok m ->
  text_at m "framing" = Ok (framing_for encoding).
Proof.
  intros -> Hwf Hauth Hm.
  destruct (default_framing transport address port (value_eqb encoding (VStr "graphx")))
    as (d & Hd & Hdw & Hdf). rewrite Hd in Hm.
  destruct authored as [| | | | | |l]; try done.
  destruct (merged_mergeable (VObj l) l d eq_refl Hdw Hwf) as (r & Hr & _ & Ho).
  rewrite Hr in Hm. injection Hm as <-. unfold text_at, at_, object_at. cbn [object bind].
  rewrite (Ho "framing"). unfold contains, at_, object_at in Hauth. cbn [object bind] in Hauth.
  destruct (find_key "framing" l) as [w|]; [|by rewrite Hdf].
  specialize (Hauth eq_refl). injection Hauth as ->. rewrite Hdf. done.
Qed.

Lemma socket_framing path target transport address ord authored in_ ls settings ls' encoding :
  socket_settings inet_pton portable native path target transport address ord authored in_ ls
    = Ok (settings, ls') ->
  well_formed authored -> check_settings path transport authored in_ = Ok tt ->
  at_ in_ "encoding" = Ok encoding -> text_at settings "framing" = Ok (framing_for encoding).
Proof.
  unfold socket_settings. intros H Hwf Hcheck Henc.
  apply bind_ok in H as (graphx & Hg & H). do 2 (apply bind_ok in H as (? & _ & H)).
  apply bind_ok in H as (m & Hm & H). apply bind_ok in H as ([] & _ & H).
  do 2 (apply bind_ok in H as (? & _ & H)). apply bind_ok in H as (final & Hfinal & H).
  do 5 (apply bind_ok in H as (? & _ & H)). injection H as <- <-.
  unfold eq_at in Hg. rewrite Henc in Hg. injection Hg as <-.
  eapply merged_framing in Hm; [|done|done|by eapply check_settings_framing].
  destruct (_ : bool); [by eapply text_at_assign|by injection Hfinal as <-].
Qed.

(** In a graph with well-formed values, the transport built from any edge
    is of the kind the connection names, and a TCP or UDP transport frames its
    messages exactly if the ports of the edge exchange envelopes, whatever
    settings were authored. *)
Theorem framing_matches_encoding es e t transport encoding :
  well_formed graph ->
  connection_values inet_pton graph catalog net portable native = Ok (VArr es) -> e ∈ es ->
  text_at e "transport" = Ok transport -> at_ e "encoding" = Ok encoding ->
  resolved_transport e = Ok t ->
  transport_kind t = (if String.eqb transport "tcp" then tcp_kind
                      else if String.eqb transport "udp" then udp_kind else shared_memory)
  /\ (transport_kind t <> shared_memory -> transport_framing t = framing_for encoding).
Proof.
  intros Hwf Hes He Htr Henc Ht.
  apply edges_of_connections in Hes as (connections & Hcs & Hall).
  apply list_elem_of_lookup_1 in He as (i & Hi).
  destruct (Forall2_lookup_r _ _ _ _ _ Hall Hi) as (kv & Hkv & tr & in_ & enc & settings
    & _ & Hin & Hcheck & _ & Hset & _ & Htr' & Henc' & Hse & _).
  rewrite Htr in Htr'. injection Htr' as <-. rewrite Henc in Henc'. injection Henc' as <-.
  assert (Hauth : well_formed (member_object kv.2 "settings")).
  { apply well_formed_member. unfold object_field in Hcs. apply bind_ok in Hcs as (w & Hw & Hcs).
    eapply well_formed_at in Hw; [|done]. destruct w; try done. injection Hcs as ->.
    apply well_formed_obj in Hw as [_ Hw]. rewrite Forall_forall in Hw. apply Hw.
    by eapply list_elem_of_lookup_2. }
  unfold resolved_transport in Ht. apply bind_ok in Ht as (external & _ & Ht).
  rewrite Hse, Htr in Ht. cbn [bind] in Ht. unfold edge_settings in Hset.
  destruct (String.eqb_spec transport "tcp") as [->|].
  { cbn in Hset. destruct Hset as (target & address & ord & ls & ls' & Hs).
    eapply socket_framing in Hs; [|done..]. apply bind_ok in Ht as (c & Hc & Ht).
    unfold resolve_tcp in Hc. do 3 (apply bind_ok in Hc as (? & _ & Hc)). rewrite Hs in Hc.
    cbn [bind] in Hc. do 8 (apply bind_ok in Hc as (? & _ & Hc)). injection Hc as <-.
    by destruct external; injection Ht as <-. }
  destruct (String.eqb_spec transport "udp") as [->|].
  { cbn in Hset. destruct Hset as (target & address & ord & ls & ls' & Hs).
    eapply socket_framing in Hs; [|done..]. apply bind_ok in Ht as (c & Hc & Ht).
    unfold resolve_udp in Hc. do 11 (apply bind_ok in Hc as (? & _ & Hc)). rewrite Hs in Hc.
    injection Hc as <-. by destruct external; injection Ht as <-. }
  apply bind_ok in Ht as (c & _ & [= <-]). by split.
Qed.
End Edges.

Lemma framing_matches_encoding_witness :
  exists t, resolved_transport echo_edge = Ok t /\ transport_kind t = tcp_kind
    /\ transport_framing t = "u32be".
Proof.
  destruct (resolved_transport echo_edge) as [t|] eqn:E; [|vm_compute in E; discriminate].
  exists t. assert (Hwf : well_formed echo_graph) by (vm_compute; repeat constructor).
  assert (Hin : echo_edge ∈ echo_edges) by (apply list_elem_of_In, nth_In; vm_compute; lia).
  destruct (framing_matches_encoding dotted_quad echo_graph echo_catalog VNull VNull false
              echo_edges echo_edge t "tcp" (VStr "graphx") Hwf) as [Hk Hf];
    [vm_compute; reflexivity|done|reflexivity|reflexivity|done|].
  split_and!; [done|exact Hk|]. apply Hf. rewrite Hk. discriminate.
Defined.

End EdgeProofs.
