(* ===== verification/ConfigLoadProofs.v ===== *)
(** * What the loader guarantees

    A loaded catalog holds exactly the content its lock pins, and types whose
    ports are consistent; an accepted graph refers to no credential that its
    contract does not list. *)

From Stdlib Require Import ZArith Lia Strings.Byte Strings.Ascii Strings.String Floats.SpecFloat.
From stdpp Require Import base gmap strings list.
From S2P Require Import Prelude ConfigValue ConfigValueProofs ConfigSchema ConfigNetwork.
From S2P Require Import ConfigNetworkProofs ConfigGraph ConfigGraphProofs ConfigNodes.
From S2P Require Import ConfigNodes EdgeProofs Scenario ConfigLoad.

Module ConfigLoadProofs.
Import ConfigValue ConfigValueProofs ConfigSchema ConfigNetwork ConfigNetworkProofs ConfigGraph.
Import ConfigGraphProofs ConfigNodes ConfigNodesProofs EdgeProofs Scenario ConfigLoad.
Local Open Scope Z_scope.

Section Catalog.
Context (schemas : Schemas) (fuel : nat).
Context (parse : string -> result Value) (sha256 : string -> string)
  (regex_search : string -> string -> bool) (to_chars : spec_float -> string).
Context (read_lock : string -> result string) (read_file : string -> string -> result string).
Abbreviation load_file := (ConfigLoad.load_file schemas fuel parse sha256 regex_search to_chars read_file).
Abbreviation load_catalog :=
  (ConfigLoad.load_catalog schemas fuel parse sha256 regex_search to_chars read_lock read_file).

(** The content of a lock entry has the pinned digest and is in the snapshot. *)
Definition file_verified (lock_path : string) (c : LoadedCatalog) (file : Value) : Prop :=
  exists relative contents data,
    lock_entry file = Ok (relative, sha256 contents) /\ read_file lock_path relative = Ok contents
    /\ parse contents = Ok data /\ find_key relative (snapshot_files c) = Some data.

(** A consistent port: cardinalities, transports and the listening side *)
Definition port_consistent (port : Value) : Prop :=
  exists minimum maximum transports listener,
    integer_at port "min_connections" = Ok minimum
    /\ integer_at port "max_connections" = Ok maximum /\ minimum <= maximum
    /\ array_at port "transports" = Ok transports /\ transports <> []
    /\ boolean_at port "listener" = Ok listener
    /\ eq_at port "direction" (VStr "input") = Ok listener.

Definition type_consistent (kv : string * Value) : Prop :=
  text_at kv.2 "id" = Ok kv.1
  /\ (exists path, validate fuel regex_search to_chars kv.2 (node_type_schema schemas) path = Ok tt)
  /\ exists ports, object_field kv.2 "ports" = Ok ports
       /\ Forall (fun port => port_consistent port.2) ports.

Lemma check_type_port_ok relative kv :
  check_type_port relative kv = Ok tt -> port_consistent kv.2.
Proof.
  destruct kv as [name port]. unfold check_type_port. intros H.
  apply bind_ok in H as (minimum & Hmin & H). apply bind_ok in H as (maximum & Hmax & H).
  apply bind_ok in H as ([] & Hle%reject_if_ok & H). apply bind_ok in H as (ts & Hts & H).
  apply bind_ok in H as ([] & Hne%reject_if_ok & H). apply bind_ok in H as (listener & Hl & H).
  apply bind_ok in H as (dir & Hd & H%reject_if_ok). apply negb_false_iff, eqb_prop in H. subst dir.
  exists minimum, maximum, ts, listener. reflect_bools. split_and!; try done. by destruct ts.
Qed.

Lemma load_type_ok relative data c c' :
  load_type schemas fuel regex_search to_chars relative data c = Ok c' ->
  Forall type_consistent (types c) -> Forall type_consistent (types c').
Proof.
  unfold load_type. intros H Hall. apply bind_ok in H as ([] & Hv & H).
  apply bind_ok in H as (ports & Hports & H). apply bind_ok in H as ([] & Hc & H).
  apply bind_ok in H as (parameters & _ & H). apply bind_ok in H as ([] & _ & H).
  apply bind_ok in H as (id & Hid & H). apply bind_ok in H as ([] & _ & [= <-]).
  apply set_key_Forall; [|done]. split_and!; [done|by eexists|]. exists ports. split; [done|].
  apply Forall_forall. intros port Hin. rewrite for_each_ok in Hc.
  by eapply check_type_port_ok, Hc.
Qed.

Lemma load_part_ok relative data c c' :
  load_part schemas fuel regex_search to_chars relative data c = Ok c' ->
  snapshot_files c' = snapshot_files c /\ snapshot_lock c' = snapshot_lock c
  /\ (Forall type_consistent (types (parts c)) -> Forall type_consistent (types (parts c'))).
Proof.
  unfold load_part. intros H.
  repeat (case_match; simplify_eq/=; try done);
    apply bind_ok in H as (ps & Hp & [= <-]); cbn; split_and!; try done.
  - intros Hall. by eapply load_type_ok in Hp.
  - intros Hall. unfold load_guest in Hp. do 2 (apply bind_ok in Hp as ([] & _ & Hp)).
    apply bind_ok in Hp as (id & _ & Hp). by apply bind_ok in Hp as ([] & _ & [= <-]).
Qed.

Definition catalog_invariant (lock_path : string) (lock : Value) (pre : Array) (s : CatalogState)
    : Prop :=
  Forall (file_verified lock_path (loaded s)) pre
  /\ (forall relative, relative ∈ paths s <->
        exists file digest, file ∈ pre /\ lock_entry file = Ok (relative, digest))
  /\ 0 <= bytes s <= 16 * kMaxConfigBytes
  /\ snapshot_lock (loaded s) = lock /\ Forall type_consistent (types (parts (loaded s))).

Lemma load_file_invariant lock_path lock pre file s s' :
  catalog_invariant lock_path lock pre s -> load_file lock_path file s = Ok s' ->
  catalog_invariant lock_path lock (pre ++ [file]) s'.
Proof.
  intros (Hall & Hpaths & Hbytes & Hlock & Htypes) H. unfold ConfigLoad.load_file in H.
  apply bind_ok in H as ([relative expected] & Hentry & H).
  apply bind_ok in H as ([] & Hnew%reject_if_ok & H). apply bind_ok in H as (contents & Hread & H).
  apply bind_ok in H as ([] & Hsize%reject_if_ok & H). apply bind_ok in H as ([] & Hsha%reject_if_ok & H).
  apply bind_ok in H as (data & Hdata & H). apply bind_ok in H as (c & Hc & [= <-]).
  apply load_part_ok in Hc as (Hfiles & Hlock' & Ht). cbn in Hfiles, Hlock', Ht.
  reflect_bools. subst expected. apply bool_decide_eq_false in H0.
  split_and!; cbn [loaded paths bytes]; try done; [| |unfold size; lia|congruence|by apply Ht].
  - apply Forall_app. split.
    + rewrite Forall_forall in Hall |- *. intros f Hf.
      destruct (Hall f Hf) as (r & ct & d & He & Hr & Hp & Hk). exists r, ct, d.
      split_and!; try done. rewrite Hfiles, find_set_key.
      destruct (String.eqb_spec r relative) as [->|]; [|done].
      destruct H0. apply Hpaths. by exists f, (sha256 ct).
    + constructor; [|constructor]. exists relative, contents, data. split_and!; try done.
      by rewrite Hfiles, find_set_key, String.eqb_refl.
  - intros r. rewrite elem_of_union, elem_of_singleton, Hpaths. setoid_rewrite elem_of_app.
    setoid_rewrite list_elem_of_singleton. split.
    + intros [->|(f & d & Hf & He)]; [exists file, (sha256 contents); auto|exists f, d; auto].
    + intros (f & d & [Hf| ->] & He); [right; by exists f, d|]. rewrite Hentry in He.
      injection He as <- _. by left.
Qed.

(** A catalog that loads contains, for every entry of its lock, the parsed
    content of the file with exactly the pinned digest; every type keeps its
    schema and its identifier, and each of its ports has a minimum below its
    maximum, a transport, a listener exactly if it is an input, and a wire
    schema that is declared with the encoding of the port. *)
Theorem catalog_verified graph c :
  load_catalog graph = Ok c ->
  exists lock_path files,
    text_at graph "catalog" = Ok lock_path /\ is_absolute lock_path = false
    /\ array_at (snapshot_lock c) "files" = Ok files
    /\ Z.of_nat (length files) <= 1024
    /\ Forall (file_verified lock_path c) files
    /\ is_null (platform c) = false
    /\ Forall type_consistent (types (parts c))
    /\ forall kv ports port, kv ∈ types (parts c) -> object_field kv.2 "ports" = Ok ports ->
         port ∈ ports -> exists schema wire encoding, text_at port.2 "schema" = Ok schema
           /\ at_ (wire_schemas c) schema = Ok wire /\ at_ port.2 "encoding" = Ok encoding
           /\ eq_at wire "encoding" encoding = Ok true.
Proof.
  unfold ConfigLoad.load_catalog. intros H. apply bind_ok in H as (lock_path & Hpath & H).
  apply bind_ok in H as ([] & Habs%reject_if_ok & H). apply bind_ok in H as (source & _ & H).
  apply bind_ok in H as (lock & _ & H). apply bind_ok in H as ([] & _ & H).
  apply bind_ok in H as (versioned & _ & H). apply bind_ok in H as ([] & _ & H).
  apply bind_ok in H as (files & Hfiles & H). apply bind_ok in H as ([] & Hcount%reject_if_ok & H).
  apply bind_ok in H as (s & Hs & H). apply bind_ok in H as ([] & Hnull%reject_if_ok & H).
  apply bind_ok in H as ([] & Hwire & [= <-]).
  assert (Hinv : catalog_invariant lock_path lock files s).
  { revert Hs. apply (fold_result_prefix (catalog_invariant lock_path lock)).
    - unfold catalog_invariant. split_and!; cbn; try done.
      intros r. split; [by intros ?%elem_of_empty|by intros (f & d & ?%not_elem_of_nil & _)].
    - intros pre f s1 s2 _ H1 H2. by eapply load_file_invariant. }
  destruct Hinv as (Hall & _ & _ & Hlock & Htypes). reflect_bools.
  exists lock_path, files. rewrite Hlock. split_and!; try done.
  intros kv ports port Hkv Hports Hport. rewrite for_each_ok in Hwire. specialize (Hwire kv Hkv).
  rewrite Hports in Hwire. cbn [bind] in Hwire. rewrite for_each_ok in Hwire.
  specialize (Hwire port Hport). destruct port as [name p]. unfold check_wire_schema in Hwire.
  apply bind_ok in Hwire as (schema & Hschema & Hwire).
  apply bind_ok in Hwire as (known & Hknown & Hwire%reject_if_ok). apply negb_false_iff in Hwire.
  subst known. destruct (contains (wire_schemas (loaded s)) schema); [|done].
  apply bind_ok in Hknown as (wire & Hw & Hknown). apply bind_ok in Hknown as (enc & Henc & Hknown).
  by exists schema, wire, enc.
Qed.
End Catalog.

(** ** Credential references *)

Lemma key_found k l : k ∈ map fst l <-> exists v : Value, find_key k l = Some v.
Proof.
  induction l as [|[q w] l IH]; cbn [map find_key fst].
  - split; [by intros ?%not_elem_of_nil|by intros [v Hv]].
  - rewrite elem_of_cons, IH. destruct (String.eqb_spec k q) as [->|Hne]; [|naive_solver].
    split; eauto.
Qed.

(** The telemetry credential of a node contract *)
Definition telemetry_ref (node : Value) : result Value :=
  let* telemetry := at_ node "telemetry" in at_ telemetry "credential".

Lemma credential_references_ok graph nodes refs :
  credential_references graph nodes = Ok refs ->
  forall s, VStr s ∈ refs <-> s = "observer" \/ contains (member_object graph "credentials") s = true
    \/ exists node, node ∈ nodes /\ telemetry_ref node = Ok (VStr s).
Proof.
  unfold credential_references. intros H. apply bind_ok in H as (l & Hl & H).
  apply bind_ok in H as (set & Hset & [= <-]). intros s.
  assert (Hkeys : VStr s ∈ map (fun kv : string * Value => VStr kv.1) set <-> s ∈ map fst set).
  { rewrite !list_elem_of_fmap. split; [intros (kv & [= ->] & ?); by exists kv|].
    intros (kv & -> & ?). by exists kv. }
  rewrite Hkeys, key_found. clear Hkeys.
  set (start := fold_left _ l _) in Hset.
  assert (Hstart : (exists v, find_key s start = Some v)
                   <-> s = "observer" \/ contains (member_object graph "credentials") s = true).
  { unfold start. rewrite find_fill. cbn [find_key].
    assert (contains (member_object graph "credentials") s
            = match find_key s l with Some _ => true | None => false end) as ->.
    { destruct (member_object graph "credentials"); try done. by injection Hl as ->. }
    destruct (find_key s l); [naive_solver|].
    destruct (String.eqb_spec s "observer") as [->|]; naive_solver. }
  revert Hset. apply (fold_result_prefix (fun pre set => (exists v, find_key s set = Some v)
    <-> s = "observer" \/ contains (member_object graph "credentials") s = true
        \/ exists node, node ∈ pre /\ telemetry_ref node = Ok (VStr s))).
  { rewrite Hstart. split; [tauto|]. intros [?|[?|(n & ?%not_elem_of_nil & _)]]; tauto. }
  intros pre node s1 s2 _ Hpre Hstep.
  apply bind_ok in Hstep as (telemetry & Ht & Hstep).
  apply bind_ok in Hstep as (ref & Hr & Hstep).
  assert (Hnode : telemetry_ref node = Ok ref) by (unfold telemetry_ref; by rewrite Ht).
  setoid_rewrite elem_of_app. setoid_rewrite list_elem_of_singleton.
  assert (Hsplit : (exists n, (n ∈ pre \/ n = node) /\ telemetry_ref n = Ok (VStr s))
    <-> (exists n, n ∈ pre /\ telemetry_ref n = Ok (VStr s)) \/ ref = VStr s).
  { split; [intros (n & [?| ->] & E); [left; by exists n|right; congruence]|].
    intros [(n & ? & ?)| ->]; [exists n; auto|exists node; auto]. }
  rewrite Hsplit. destruct (is_null ref) eqn:En.
  - injection Hstep as <-. rewrite Hpre. destruct ref; try done. naive_solver.
  - apply bind_ok in Hstep as (name & Hname & [= <-]). rewrite find_set_key.
    destruct ref; try done. injection Hname as ->.
    destruct (String.eqb_spec s name) as [->|Hne]; [naive_solver|]. rewrite Hpre.
    split; [tauto|]. intros [?|[?|[?|[= ->]]]]; tauto.
Qed.

(** The names under which a reference of a graph may be known *)
Definition known (graph : Value) (s : string) : Prop :=
  contains (member_object graph "credentials") s = true.

Lemma check_credentials_known graph id node type :
  check_credentials graph id node type = Ok tt ->
  exists l, object (member_object node "credentials") = Ok l
    /\ forall role ref, (role, VStr ref) ∈ l -> known graph ref.
Proof.
  unfold check_credentials. intros H. apply bind_ok in H as (l & Hl & H).
  apply bind_ok in H as ([] & Hall & _). exists l. split; [done|]. intros role ref Hin.
  rewrite for_each_ok in Hall. specialize (Hall _ Hin). cbn in Hall.
  apply bind_ok in Hall as (roles & _ & Hall). apply bind_ok in Hall as ([] & _ & Hall%reject_if_ok).
  by apply negb_false_iff in Hall.
Qed.

Lemma check_security_known graph path transport connection :
  check_security graph path transport connection = Ok tt ->
  forall l key ref,
    object (member connection "security" (VObj [("profile", VStr "none")])) = Ok l ->
    (key, VStr ref) ∈ l -> key <> "profile" -> key <> "server_name" -> known graph ref.
Proof.
  unfold check_security, member. intros H l key ref Hl Hin Hp Hn.
  destruct (contains connection "security") eqn:Ec; cbn [negb] in H.
  - apply bind_ok in H as (security & Hs & H). rewrite Hs in Hl.
    apply bind_ok in H as (none & _ & H). apply bind_ok in H as ([] & _ & H).
    apply bind_ok in H as (l' & Hl' & H). rewrite Hl in Hl'. injection Hl' as <-.
    rewrite for_each_ok in H. specialize (H _ Hin). unfold one_of in H. cbn [existsb fst snd] in H.
    apply String.eqb_neq in Hp, Hn. rewrite Hp, Hn in H. cbn [orb text bind] in H.
    apply reject_if_ok in H. by apply negb_false_iff in H.
  - destruct (at_ connection "security") as [w|] eqn:Ew; [apply at_contains in Ew; congruence|].
    injection Hl as <-. apply list_elem_of_singleton in Hin. congruence.
Qed.

(** The credentials and the telemetry of a contract *)
Lemma node_value_credentials regex_search to_chars fuel graph catalog connections platform native net
    gid guests kv v :
  node_value regex_search to_chars fuel graph catalog connections platform native net gid guests kv
    = Ok v ->
  exists l, object_field v "credentials" = Ok l /\ forall role ref, (role, VStr ref) ∈ l -> known graph ref.
Proof.
  destruct kv as [id node]. unfold node_value. intros H. apply bind_ok in H as (type_id & _ & H).
  apply bind_ok in H as (type & _ & H). apply bind_ok in H as (parameters & _ & H).
  apply bind_ok in H as ([] & Hc & H). apply bind_ok in H as (bs & _ & H).
  apply bind_ok in H as ([] & _ & H). apply bind_ok in H as (recorder & _ & H).
  do 9 (apply bind_ok in H as (? & _ & H)).
  apply check_credentials_known in Hc as (l & Hl & Hknown). exists l. split; [|done].
  pose proof (fun k x => contract_field _ recorder v k x H) as Hv. clear H.
  unfold object_field. rewrite (Hv "credentials" (member_object node "credentials"));
    [exact Hl|done|reflexivity].
Qed.

Lemma update_key_other key f v v' k :
  update_key key f v = Ok v' -> k <> key -> is_ok (at_ v k) = true -> at_ v' k = at_ v k.
Proof.
  intros H Hne Hok. apply String.eqb_neq in Hne. destruct v; try done.
  apply bind_ok in H as (item & _ & [= <-]). unfold at_, object_at. cbn [object bind].
  by rewrite find_set_key, Hne.
Qed.

Section Accepted.
Context (schemas : Schemas) (fuel : nat).
Context (parse : string -> result Value) (sha256 : string -> string)
  (inet_pton : string -> option Z) (regex_search : string -> string -> bool)
  (to_chars : spec_float -> string) (stod : string -> result spec_float).
Context (read_lock : string -> result string) (read_file : string -> string -> result string).
Abbreviation resolve_graph := (ConfigLoad.resolve_graph schemas fuel parse sha256 inet_pton
  regex_search to_chars stod read_lock read_file).

(** The stages of an accepted graph *)
Lemma resolve_graph_ok target laboratory graph config :
  resolve_graph target laboratory graph = Ok config ->
  exists c network portable connections platform native originals nodes references,
    connection_values inet_pton graph (parts c) network portable native = Ok (VArr connections)
    /\ check_otlp graph platform = Ok tt
    /\ (exists control grants, at_ platform "control" = Ok control
          /\ array_at control "grants" = Ok grants /\ for_each (check_grant graph) grants = Ok tt)
    /\ node_values regex_search to_chars fuel graph (parts c) (VArr connections) platform native
         network = Ok originals
    /\ (nodes = originals
        \/ map_result (assign_path ["startup"; "max_wait_ms"] (VInt 600000)) originals = Ok nodes)
    /\ credential_references graph nodes = Ok references
    /\ array_at (resolved config) "nodes" = Ok nodes
    /\ array_at (resolved config) "connections" = Ok connections
    /\ array_at (resolved config) "credential_references" = Ok references
    /\ at_ (resolved config) "platform" = Ok platform.
Proof.
  unfold ConfigLoad.resolve_graph. intros H. do 2 (apply bind_ok in H as ([] & _ & H)).
  apply bind_ok in H as (c & _ & H). do 2 (apply bind_ok in H as ([] & _ & H)).
  apply bind_ok in H as (native & _ & H). apply bind_ok in H as (network & _ & H).
  apply bind_ok in H as (expanded & _ & H). apply bind_ok in H as ([] & _ & H).
  apply bind_ok in H as (portable & _ & H). apply bind_ok in H as (connections & Hc & H).
  apply bind_ok in H as (platform & _ & H). apply bind_ok in H as ([] & Hotlp & H).
  apply bind_ok in H as (control & Hcontrol & H). apply bind_ok in H as (grants & Hgrants & H).
  apply bind_ok in H as ([] & Hg & H). apply bind_ok in H as (lifecycle & _ & H).
  apply bind_ok in H as (originals & Ho & H). apply bind_ok in H as (available & _ & H).
  apply bind_ok in H as (nodes & Hn & H). apply bind_ok in H as (references & Hr & H).
  apply bind_ok in H as (resolved & Hres & H). apply bind_ok in H as ([] & _ & H).
  apply bind_ok in H as (text & _ & H). apply bind_ok in H as ([] & _ & H).
  do 3 (apply bind_ok in H as (? & _ & H)). apply bind_ok in H as (l & Hl & H).
  do 4 (apply bind_ok in H as (? & _ & H)). injection H as <-. cbn [ConfigLoad.resolved].
  destruct connections as [| | | | |es|]; try done. injection Hl as <-.
  exists c, network, portable, es, platform, native, originals, nodes, references.
  unfold resolved_value in Hres. do 3 (apply bind_ok in Hres as (? & _ & Hres)).
  injection Hres as <-. unfold array_at, at_, object_at. cbn [object bind].
  rewrite !find_object_of. split_and!; try done; [by exists control, grants|].
  destruct available; [by right|left; by injection Hn].
Qed.

Lemma contract_credentials graph c connections platform native network nodes node originals :
  node_values regex_search to_chars fuel graph c connections platform native network = Ok originals ->
  nodes = originals
    \/ map_result (assign_path ["startup"; "max_wait_ms"] (VInt 600000)) originals = Ok nodes ->
  node ∈ nodes ->
  exists l, object_field node "credentials" = Ok l
            /\ forall role ref, (role, VStr ref) ∈ l -> known graph ref.
Proof.
  unfold node_values. intros H Hn Hin. apply bind_ok in H as (l & _ & H).
  apply bind_ok in H as (guests & _ & H). apply bind_ok in H as (g & _ & H).
  apply bind_ok in H as (gid & _ & H). apply map_result_ok in H.
  assert (Horig : forall v, v ∈ originals -> exists l, object_field v "credentials" = Ok l
            /\ forall role ref, (role, VStr ref) ∈ l -> known graph ref).
  { intros v (i & Hi)%list_elem_of_lookup_1.
    destruct (Forall2_lookup_r _ _ _ _ _ H Hi) as (kv & _ & Hv).
    by eapply node_value_credentials. }
  destruct Hn as [->|Hn]; [by apply Horig|]. apply map_result_ok in Hn.
  apply list_elem_of_lookup_1 in Hin as (i & Hi).
  destruct (Forall2_lookup_r _ _ _ _ _ Hn Hi) as (v & Hv & Ha).
  apply list_elem_of_lookup_2, Horig in Hv as (creds & Hc & Hk). exists creds. split; [|done].
  unfold object_field in *. apply bind_ok in Hc as (w & Hw & Hc).
  unfold assign_path in Ha. cbn [update_path] in Ha.
  apply update_key_other with (k := "credentials") in Ha; [|done|by rewrite Hw].
  by rewrite Ha, Hw.
Qed.

(** The contract of an accepted graph lists every credential that it
    refers to: those of node roles and telemetry, of the security of
    connections, of grants and of an enabled OTLP export. *)
Theorem credentials_listed target laboratory graph config :
  resolve_graph target laboratory graph = Ok config ->
  exists nodes connections platform references,
    array_at (resolved config) "nodes" = Ok nodes
    /\ array_at (resolved config) "connections" = Ok connections
    /\ at_ (resolved config) "platform" = Ok platform
    /\ array_at (resolved config) "credential_references" = Ok references
    /\ (forall node ref, node ∈ nodes -> telemetry_ref node = Ok (VStr ref) -> VStr ref ∈ references)
    /\ (forall node roles role ref, node ∈ nodes -> object_field node "credentials" = Ok roles ->
         (role, VStr ref) ∈ roles -> VStr ref ∈ references)
    /\ (forall e l key ref, e ∈ connections -> object_field e "security" = Ok l ->
         (key, VStr ref) ∈ l -> key <> "profile" -> key <> "server_name" -> VStr ref ∈ references)
    /\ (forall control grants grant ref, at_ platform "control" = Ok control ->
         array_at control "grants" = Ok grants -> grant ∈ grants ->
         text_at grant "credential" = Ok ref -> VStr ref ∈ references)
    /\ forall otlp ref, at_ platform "otlp" = Ok otlp -> boolean_at otlp "enabled" = Ok true ->
         text_at otlp "credentials" = Ok ref -> VStr ref ∈ references.
Proof.
  intros (c & network & portable & es & platform & native & originals & nodes & references
    & Hes & Hotlp & (control & grants & Hcontrol & Hgrants & Hg) & Ho & Hn & Hr
    & H1 & H2 & H3 & H4)%resolve_graph_ok.
  pose proof (credential_references_ok _ _ _ Hr) as Href.
  assert (Hknown : forall s, known graph s -> VStr s ∈ references) by (intros s Hs; apply Href; auto).
  exists nodes, es, platform, references. split_and!; try done.
  - intros node ref Hin Ht. apply Href. right; right. by exists node.
  - intros node roles role ref Hin Hroles Hrole.
    destruct (contract_credentials _ _ _ _ _ _ _ _ _ Ho Hn Hin) as (l & Hl & Hk).
    rewrite Hroles in Hl. injection Hl as <-. by eapply Hknown, Hk.
  - intros e l key ref He Hl Hkey Hp Hs.
    apply edges_of_connections in Hes as (connections & _ & Hall).
    apply list_elem_of_lookup_1 in He as (i & Hi).
    destruct (Forall2_lookup_r _ _ _ _ _ Hall Hi) as (kv & _ & transport & in_ & enc & settings
      & _ & _ & _ & Hsec & _ & _ & _ & _ & _ & Hse).
    apply Hknown. eapply check_security_known; [exact Hsec| |done..].
    unfold object_field in Hl. by rewrite Hse in Hl.
  - intros control' grants' grant ref Hc' Hg' Hin Hcred.
    rewrite Hcontrol in Hc'. injection Hc' as <-. rewrite Hgrants in Hg'. injection Hg' as <-.
    rewrite for_each_ok in Hg. specialize (Hg _ Hin). unfold check_grant in Hg.
    rewrite Hcred in Hg. cbn [bind] in Hg. apply bind_ok in Hg as ([] & Hb%reject_if_ok & _).
    by apply Hknown, negb_false_iff.
  - intros otlp ref Ho' Hen Hcred. unfold check_otlp in Hotlp. rewrite Ho' in Hotlp.
    cbn [bind] in Hotlp. rewrite Hen in Hotlp. cbn [bind negb] in Hotlp.
    apply bind_ok in Hotlp as ([] & _ & Hotlp). rewrite Hcred in Hotlp. cbn [bind] in Hotlp.
    apply bind_ok in Hotlp as ([] & Hb%reject_if_ok & _).
    by apply Hknown, negb_false_iff.
Qed.
End Accepted.

(** ** A catalog with one type, and a graph of two of its nodes *)

Definition trivial_schemas : Schemas :=
  {| authored_schema := VObj []; node_type_schema := VObj []; normalized_schema := VObj [];
     guest_schema := VObj []; lock_schema := VObj [] |}.
Definition listening (direction : string) (listener : bool) : Value :=
  VObj [("default_port", VNull); ("direction", VStr direction); ("encoding", VStr "graphx");
        ("feedback", VBool true); ("listener", VBool listener); ("max_connections", VInt 1);
        ("min_connections", VInt 1); ("schema", VStr "Text"); ("transports", VArr [VStr "tcp"])].
Definition relay_type : Value :=
  VObj [("credentials", VArr [VStr "control"]); ("execution", VArr [VStr "container"]);
        ("id", VStr "relay"); ("observation", VStr "graphx"); ("parameters", VObj []);
        ("ports", VObj [("in", listening "input" true); ("out", listening "output" false)]);
        ("readiness", VStr "listening"); ("revision", VInt 1)].
(** A stand-in for SHA-256 with hexadecimal digits *)
Definition padded (s : string) : string := "00051234567890" +:+ s.
Definition entry (path text : string) : Value :=
  VObj [("path", VStr path); ("sha256", VStr (padded text))].
Definition sample_lock : Value :=
  VObj [("files", VArr [entry "platform.json" "PLATFORM"; entry "types/relay.json" "RELAY";
                        entry "wire-schemas.json" "WIRES"]); ("version", VInt 1)].
Definition sample_platform : Value :=
  VObj [("capture", VObj [("enabled", VBool false)]); ("console", VObj [("port", VInt 8080)]);
        ("control", VObj [("grants", VArr [])]); ("otlp", VObj [("enabled", VBool false)])].
Definition relay : Value :=
  VObj [("credentials", VObj [("control", VStr "key")]);
        ("execution", VObj [("kind", VStr "container")]); ("type", VStr "relay")].
Definition relay_graph : Value :=
  VObj [("catalog", VStr "lock.json");
        ("connections", VObj [("x", echo_connection "a.out" "b.in");
                              ("y", echo_connection "b.out" "a.in")]);
        ("credentials", VObj [("key", VObj [])]); ("graph", VObj [("id", VStr "g")]);
        ("nodes", VObj [("a", relay); ("b", relay)]); ("version", VInt 3)].
Definition sample_parse (text : string) : result Value :=
  if String.eqb text "LOCK" then Ok sample_lock
  else if String.eqb text "PLATFORM" then Ok sample_platform
  else if String.eqb text "RELAY" then Ok relay_type
  else if String.eqb text "WIRES"
  then Ok (VObj [("Text", VObj [("encoding", VStr "graphx")])])
  else reject "E_SYNTAX" "$" "malformed YAML/JSON configuration".
Definition sample_file (lock relative : string) : result string :=
  Ok (if String.eqb relative "platform.json" then "PLATFORM"
      else if String.eqb relative "types/relay.json" then "RELAY" else "WIRES").

Definition sample_catalog : LoadedCatalog :=
  match load_catalog trivial_schemas 1 sample_parse padded (fun _ _ => true)
          (fun _ => EmptyString) (fun _ => Ok "LOCK") sample_file relay_graph with
  | Ok c => c
  | Throw _ => {| digest := EmptyString; snapshot_lock := VNull; snapshot_files := [];
                  platform := VNull; wire_schemas := VNull;
                  parts := {| types := []; guests := [] |} |}
  end.
Definition sample_config : result GraphConfig :=
  resolve_graph trivial_schemas 1 sample_parse padded dotted_quad (fun _ _ => true)
    (fun _ => EmptyString) (fun _ => Throw (InvalidArgument "stod")) (fun _ => Ok "LOCK")
    sample_file "native-linux" EmptyString relay_graph.

Lemma catalog_verified_witness :
  exists lock_path files,
    text_at relay_graph "catalog" = Ok lock_path /\ is_absolute lock_path = false
    /\ array_at (snapshot_lock sample_catalog) "files" = Ok files
    /\ Z.of_nat (length files) <= 1024
    /\ Forall (file_verified sample_parse padded sample_file lock_path sample_catalog) files
    /\ is_null (platform sample_catalog) = false
    /\ Forall (type_consistent trivial_schemas 1 (fun _ _ => true) (fun _ => EmptyString))
         (types (parts sample_catalog))
    /\ forall kv ports port, kv ∈ types (parts sample_catalog) ->
         object_field kv.2 "ports" = Ok ports -> port ∈ ports ->
         exists schema wire encoding, text_at port.2 "schema" = Ok schema
           /\ at_ (wire_schemas sample_catalog) schema = Ok wire
           /\ at_ port.2 "encoding" = Ok encoding /\ eq_at wire "encoding" encoding = Ok true.
Proof.
  apply (catalog_verified trivial_schemas 1 sample_parse padded (fun _ _ => true)
           (fun _ => EmptyString) (fun _ => Ok "LOCK") sample_file relay_graph sample_catalog).
  vm_compute; reflexivity.
Defined.

Lemma credentials_listed_witness :
  exists config references, sample_config = Ok config
    /\ array_at (resolved config) "credential_references" = Ok references
    /\ references = [VStr "key"; VStr "observer"; VStr "runtime-a"; VStr "runtime-b"]
    /\ exists nodes, array_at (resolved config) "nodes" = Ok nodes
       /\ forall node ref, node ∈ nodes -> telemetry_ref node = Ok (VStr ref)
          -> VStr ref ∈ references.
Proof.
  assert (Hok : is_ok sample_config = true) by (vm_compute; reflexivity).
  assert (Hrefs : (let* c := sample_config in array_at (resolved c) "credential_references")
    = Ok [VStr "key"; VStr "observer"; VStr "runtime-a"; VStr "runtime-b"])
    by (vm_compute; reflexivity).
  apply is_ok_inv in Hok as [config E]. rewrite E in Hrefs. cbn [bind] in Hrefs.
  destruct (credentials_listed trivial_schemas 1 sample_parse padded dotted_quad (fun _ _ => true)
    (fun _ => EmptyString) (fun _ => Throw (InvalidArgument "stod")) (fun _ => Ok "LOCK")
    sample_file "native-linux" EmptyString relay_graph config E)
    as (nodes & es & platform & references & H1 & _ & _ & H2 & H3 & _).
  rewrite Hrefs in H2. injection H2 as <-.
  eexists config, _. split; [exact E|]. split; [exact Hrefs|]. split; [reflexivity|].
  exists nodes. split; [exact H1|exact H3].
Defined.

End ConfigLoadProofs.
