(* ===== verification/Yaml.v ===== *)
(** * The YAML trees of the ownership ledger

    yaml-cpp is a third-party library.  What the ledger code uses of it is its
    documented tree: nodes that are scalars, sequences or maps, the lookup
    [node["key"]], iteration, and conversions between scalars and C++ values.
    The conversions, the emitter and the parser are parameters; the laws they
    are documented to obey are the class [ConversionLaws]. *)

From Stdlib Require Import ZArith Lia Strings.Byte Strings.Ascii Strings.String Floats.SpecFloat.
From stdpp Require Import base strings list.
From S2P Require Import Prelude.

Module Yaml.
Local Open Scope Z_scope.

(** [Undefined] is what a lookup returns for a key that is not there. *)
Inductive node :=
| Undefined
| Null
| Scalar (text : string)
| Sequence (items : list node)
| Map (pairs : list (node * node)).

(** [YAML::Exception]; its text is the library's *)
Definition yaml_exception {A} (text : string) : result A := Throw (RuntimeError text).

Definition defined (n : node) : bool := match n with Undefined => false | _ => true end.
Definition is_map (n : node) : bool := match n with Map _ => true | _ => false end.
Definition is_sequence (n : node) : bool := match n with Sequence _ => true | _ => false end.

(** The first pair whose key is the scalar [key] *)
Fixpoint find_pair (key : string) (pairs : list (node * node)) : option node :=
  match pairs with
  | [] => None
  | (Scalar k, v) :: pairs => if String.eqb key k then Some v else find_pair key pairs
  | _ :: pairs => find_pair key pairs
  end.

(** [node["key"]] on a constant node *)
Definition get (n : node) (key : string) : result node :=
  match n with
  | Undefined => yaml_exception "invalid node"
  | Scalar _ => yaml_exception "operator[] call on a scalar"
  | Null | Sequence _ => Ok Undefined
  | Map pairs => Ok (default Undefined (find_pair key pairs))
  end.

(** A range-based loop over a node; the elements of a map are pairs, which
    are not nodes. *)
Definition elements_of (n : node) : list node :=
  match n with
  | Sequence items => items
  | Map pairs => map (fun _ => Undefined) pairs
  | _ => []
  end.
Definition pairs_of (n : node) : list (node * node) :=
  match n with Map pairs => pairs | _ => [] end.

Definition node_size (n : node) : Z :=
  match n with
  | Sequence items => Z.of_nat (length items)
  | Map pairs => Z.of_nat (length pairs)
  | _ => 0
  end.

(** [as<T>()]: nothing where the conversion fails *)
Record Conversions := {
  as_string : node -> option string;
  as_int : node -> option Z;
  as_unsigned : Z -> node -> option Z;      (** by the width in bits *)
  as_bool : node -> option bool;
  as_double : node -> option spec_float;
  show_int : Z -> string;
  show_bool : bool -> string;
  show_double : spec_float -> string;
}.

(** Scalars keep the text, numbers and flags they were made from. *)
Class ConversionLaws (c : Conversions) := {
  as_string_scalar text : as_string c (Scalar text) = Some text;
  as_int_show n : in_u8 n -> as_int c (Scalar (show_int c n)) = Some n;
  as_unsigned_show bits n :
    0 <= n < 2 ^ bits -> as_unsigned c bits (Scalar (show_int c n)) = Some n;
  as_bool_show b : as_bool c (Scalar (show_bool c b)) = Some b;
  as_double_show d :
    valid_binary 53 1024 d = true -> as_double c (Scalar (show_double c d)) = Some d;
  as_unsigned_range bits v n : as_unsigned c bits v = Some n -> 0 <= n < 2 ^ bits;
  as_double_valid v d : as_double c v = Some d -> valid_binary 53 1024 d = true;
}.

(** [as<T>()] without a fallback *)
Definition convert {A} (n : node) (as_type : node -> option A) : result A :=
  match n with
  | Undefined => yaml_exception "invalid node"
  | _ => match as_type n with Some a => Ok a | None => yaml_exception "bad conversion" end
  end.

(** [as<T>(fallback)] *)
Definition convert_or {A} (n : node) (as_type : node -> option A) (fallback : A) : A :=
  match n with
  | Undefined => fallback
  | _ => default fallback (as_type n)
  end.

(** Text that a file can hold: trees without the marks of lookups *)
Fixpoint storable (n : node) : bool :=
  match n with
  | Undefined | Null => false
  | Scalar _ => true
  | Sequence items => forallb storable items
  | Map pairs => forallb (fun p : node * node => storable p.1 && storable p.2) pairs
  end.

(** ** Building a map, assignment by assignment to fresh keys *)

(** A key with what is assigned to it, if anything is *)
Abbreviation assignment := (string * option node)%type.

Definition make_map (l : list assignment) : node :=
  Map (omap (fun a : assignment => option_map (pair (Scalar a.1)) a.2) l).

Definition field (key : string) (v : node) : assignment := (key, Some v).
Definition field_if (b : bool) (key : string) (v : node) : assignment :=
  (key, if b then Some v else None).
(** [node[key].push_back(item)] for every item: no entry if there is none *)
Definition sequence_field (key : string) (items : list node) : assignment :=
  (key, match items with [] => None | _ => Some (Sequence items) end).
(** [node[key][name] = item] for every pair *)
Definition text_pairs (pairs : list (string * string)) : list (node * node) :=
  map (fun p : string * string => (Scalar p.1, Scalar p.2)) pairs.
Definition map_field (key : string) (pairs : list (string * string)) : assignment :=
  (key, match pairs with [] => None | _ => Some (Map (text_pairs pairs)) end).

Fixpoint find_assignment (key : string) (l : list assignment) : option node :=
  match l with
  | [] => None
  | (k, o) :: l =>
      if String.eqb key k then match o with Some v => Some v | None => find_assignment key l end
      else find_assignment key l
  end.

Lemma find_make key l :
  find_pair key (omap (fun a : assignment => option_map (pair (Scalar a.1)) a.2) l)
  = find_assignment key l.
Proof.
  induction l as [|[k [v|]] l IH]; csimpl; [done|by destruct (String.eqb key k)|].
  by destruct (String.eqb key k).
Qed.

(** What a lookup finds in a map that was built by assignments *)
Lemma get_make l key : get (make_map l) key = Ok (default Undefined (find_assignment key l)).
Proof. unfold make_map, get. by rewrite find_make. Qed.
End Yaml.
