(* ===== verification/OwnershipState.v ===== *)
(** * The ownership ledger (src/src/infra/ownership_state.cpp and .hpp)

    The ledger records what a graph is about to create (the expected records)
    and what it has created (the owned ones), so that an interrupted run can be
    cleaned up by identity.  This file holds its records, [state_node] that
    writes them, and [load_state] that reads and checks them. *)

From Stdlib Require Import ZArith Lia Strings.Byte Strings.Ascii Strings.String Floats.SpecFloat.
From stdpp Require Import base gmap strings list sorting.
From S2P Require Import Prelude Envelope ConfigParse ConfigNetwork ResolvedNetwork Yaml.

Module OwnershipState.
Import Envelope ResolvedNetwork Yaml.
Local Open Scope Z_scope.

(** ** The records *)

Record OwnedResourceIdentity := {
  r_kind : string; r_name : string; r_stable_id : string; r_secondary_id : string;
  r_attachment_id : string; r_target_interface : string; r_ifindex : option Z;
  r_peer_ifindex : option Z; r_namespace_inode : option Z; r_container_id : string;
  r_tap_owner : string; r_route_identity : string; r_rule_identity : string;
  r_qdisc_identity : string; r_capture_identity : string; r_process_identity : string;
  r_runtime_directory : string; r_runtime_identity : string }.

Record ExpectedEndpoint := {
  e_mirror_container : bool; e_kind : AttachmentKind; e_id : string; e_owner : string;
  e_host_interface : string; e_target_interface : string; e_network_switch : string;
  e_address : string; e_mac : string; e_mtu : Z; e_routes : list RouteDefinition;
  e_aliases : list string; e_management_policy : string; e_container_id : string;
  e_namespace_inode : Z; e_namespace_name : string; e_tap_uid : Z; e_tap_gid : Z;
  e_vlan : VlanMetadata }.

Record ExpectedCapture := { xc_definition : NetworkCaptureDefinition; xc_interface : string }.

Record OwnedCapture := {
  c_id : string; c_attachment_id : string; c_interface : string; c_session_directory : string;
  c_ifindex : Z; c_directory_device : Z; c_directory_inode : Z; c_directory_uid : Z;
  c_directory_gid : Z; c_directory_mode : Z; c_pid : Z; c_process_start_time : string;
  c_snapshot_inode : Z; c_snapshot_pending_inode : Z }.

Record NetworkFaultDefinition := {
  fault_id : string; fault_attachment : string; delay_ms : Z; jitter_ms : Z;
  loss_percent : spec_float; rate_kbit : Z; duration_seconds : Z }.

Record ExpectedFault := { xf_definition : NetworkFaultDefinition; xf_interface : string }.

Record OwnedFault := {
  f_id : string; f_attachment_id : string; f_interface : string; f_ifindex : Z;
  f_qdisc_identity : string; f_timer_pid : Z; f_timer_start_time : string; f_boot_id : string;
  f_applied_monotonic_ns : Z; f_expires_monotonic_ns : Z }.

Record OwnedScenarioAction := {
  a_id : string; a_kind : string; a_status : string; a_identity : string }.

Record OwnershipState := {
  actions : list OwnedScenarioAction; credential_directory : string;
  credential_identity : string; graph_id : string; config_hash : string; owner_token : string;
  status : string; applications : gmap string string; console_sockets : gmap string string;
  console_name : string; console_inode : Z; console_device : Z; handoff_name : string;
  handoff_inode : Z; handoff_device : Z; expected_bridges : list string;
  bridges : list OwnedResourceIdentity; expected_endpoints : list ExpectedEndpoint;
  endpoints : list OwnedResourceIdentity; expected_namespaces : list string;
  namespaces : list OwnedResourceIdentity; expected_captures : list ExpectedCapture;
  captures : list OwnedCapture; expected_faults : list ExpectedFault; faults : list OwnedFault;
  processes : list OwnedResourceIdentity }.

(** Value-initialised fields but for those given *)
Definition process_identity (kind name stable secondary identity directory directory_identity : string)
    : OwnedResourceIdentity :=
  {| r_kind := kind; r_name := name; r_stable_id := stable; r_secondary_id := secondary;
     r_attachment_id := ""; r_target_interface := ""; r_ifindex := None; r_peer_ifindex := None;
     r_namespace_inode := None; r_container_id := ""; r_tap_owner := ""; r_route_identity := "";
     r_rule_identity := ""; r_qdisc_identity := ""; r_capture_identity := "";
     r_process_identity := identity; r_runtime_directory := directory;
     r_runtime_identity := directory_identity |}.

Definition bridge_identity (name uuid internal_port_uuid : string) : OwnedResourceIdentity :=
  process_identity "ovs_bridge" name uuid internal_port_uuid "" "" "".

Definition endpoint_identity (kind attachment name target port_uuid interface_uuid : string)
    (ifindex peer_ifindex inode : Z) (container_text tap_owner mirror_uuid : string)
    : OwnedResourceIdentity :=
  {| r_kind := kind; r_name := name; r_stable_id := port_uuid; r_secondary_id := interface_uuid;
     r_attachment_id := attachment; r_target_interface := target; r_ifindex := Some ifindex;
     r_peer_ifindex := Some peer_ifindex; r_namespace_inode := Some inode;
     r_container_id := container_text; r_tap_owner := tap_owner; r_route_identity := mirror_uuid;
     r_rule_identity := ""; r_qdisc_identity := ""; r_capture_identity := "";
     r_process_identity := ""; r_runtime_directory := ""; r_runtime_identity := "" |}.

Definition namespace_identity (name : string) (inode : Z) (rule_identity : string)
    : OwnedResourceIdentity :=
  {| r_kind := "linux_namespace"; r_name := name; r_stable_id := ""; r_secondary_id := "";
     r_attachment_id := ""; r_target_interface := ""; r_ifindex := None; r_peer_ifindex := None;
     r_namespace_inode := Some inode; r_container_id := ""; r_tap_owner := "";
     r_route_identity := ""; r_rule_identity := rule_identity; r_qdisc_identity := "";
     r_capture_identity := ""; r_process_identity := ""; r_runtime_directory := "";
     r_runtime_identity := "" |}.

Definition stable_identity_matches (x y : OwnedResourceIdentity) : bool :=
  String.eqb (r_kind x) (r_kind y) && String.eqb (r_name x) (r_name y)
  && String.eqb (r_stable_id x) (r_stable_id y) && String.eqb (r_secondary_id x) (r_secondary_id y)
  && String.eqb (r_attachment_id x) (r_attachment_id y)
  && String.eqb (r_target_interface x) (r_target_interface y)
  && bool_decide (r_ifindex x = r_ifindex y) && bool_decide (r_peer_ifindex x = r_peer_ifindex y)
  && bool_decide (r_namespace_inode x = r_namespace_inode y)
  && String.eqb (r_container_id x) (r_container_id y) && String.eqb (r_tap_owner x) (r_tap_owner y)
  && String.eqb (r_route_identity x) (r_route_identity y)
  && String.eqb (r_rule_identity x) (r_rule_identity y)
  && String.eqb (r_qdisc_identity x) (r_qdisc_identity y)
  && String.eqb (r_capture_identity x) (r_capture_identity y)
  && String.eqb (r_process_identity x) (r_process_identity y).

Definition is_nil {A} (l : list A) : bool := match l with [] => true | _ => false end.
Definition is_empty (s : string) : bool := String.eqb s "".

Definition retained_only (s : OwnershipState) : bool :=
  String.eqb (status s) "destroying" && is_nil (expected_bridges s) && is_nil (bridges s)
  && is_nil (expected_endpoints s) && is_nil (endpoints s) && is_nil (expected_namespaces s)
  && is_nil (namespaces s) && is_nil (expected_captures s) && is_nil (captures s)
  && is_nil (expected_faults s) && is_nil (faults s)
  && forallb (fun p => String.eqb (r_kind p) "volume" && negb (String.eqb (r_stable_id p) "pending")
       && negb (String.eqb (r_name p) ("graphx-" +:+ graph_id s +:+ "-credentials"))) (processes s).

Definition kind_to_string (kind : AttachmentKind) : string :=
  match kind with
  | container_veth => "container_veth"
  | namespace_veth => "namespace_veth"
  | qemu_tap => "qemu_tap"
  | external => "external"
  | mirror_kind => "mirror"
  end.

(** The pairs of a [std::map] in the order of their keys *)
Definition sorted_pairs (m : gmap string string) : list (string * string) :=
  merge_sort attribute_le (map_to_list m).

(** ** [state_node] *)

Section Ledger.
Context (c : Conversions).

Definition number (z : Z) : node := Scalar (show_int c z).

Definition action_node (a : OwnedScenarioAction) : node :=
  make_map [field "id" (Scalar (a_id a)); field "kind" (Scalar (a_kind a));
            field "status" (Scalar (a_status a)); field "identity" (Scalar (a_identity a))].

Definition process_node (p : OwnedResourceIdentity) : node :=
  let runtime := negb (is_empty (r_runtime_directory p)) in
  make_map [field "kind" (Scalar (r_kind p)); field "name" (Scalar (r_name p));
            field "stable_id" (Scalar (r_stable_id p));
            field "secondary_id" (Scalar (r_secondary_id p));
            field "process_identity" (Scalar (r_process_identity p));
            field_if runtime "runtime_directory" (Scalar (r_runtime_directory p));
            field_if runtime "runtime_identity" (Scalar (r_runtime_identity p))].

Definition text_if (key text : string) : assignment := field_if (negb (is_empty text)) key (Scalar text).

Definition route_node (r : RouteDefinition) : node :=
  make_map [field "destination" (Scalar (destination r)); text_if "via" (via r);
            field "install_on_create" (Scalar (show_bool c (install_on_create r)))].

Definition expected_endpoint_node (e : ExpectedEndpoint) : node :=
  make_map [field "id" (Scalar (e_id e)); field "kind" (Scalar (kind_to_string (e_kind e)));
            field "owner" (Scalar (e_owner e)); field "host_interface" (Scalar (e_host_interface e));
            field "target_interface" (Scalar (e_target_interface e));
            field "switch" (Scalar (e_network_switch e)); field "address" (Scalar (e_address e));
            text_if "management_policy" (e_management_policy e);
            sequence_field "aliases" (map Scalar (e_aliases e)); text_if "mac" (e_mac e);
            field "mtu" (number (e_mtu e));
            field_if (e_mirror_container e) "mirror_container" (Scalar (show_bool c true));
            text_if "container_id" (e_container_id e); text_if "namespace_name" (e_namespace_name e);
            field "namespace_inode" (number (e_namespace_inode e));
            field_if (negb (e_tap_uid e =? 0)) "tap_uid" (number (e_tap_uid e));
            field_if (negb (e_tap_gid e =? 0)) "tap_gid" (number (e_tap_gid e));
            ("access_tag", option_map number (access_tag (e_vlan e)));
            sequence_field "trunks" (map number (trunks (e_vlan e)));
            sequence_field "routes" (map route_node (e_routes e))].

Definition expected_capture_node (x : ExpectedCapture) : node :=
  let d := xc_definition x in
  make_map [field "id" (Scalar (capture_id d)); field "attachment" (Scalar (attachment d));
            field "interface" (Scalar (xc_interface x)); field "directory" (Scalar (directory d));
            field "snaplen" (number (snaplen d)); field "max_file_bytes" (number (max_file_bytes d));
            field "max_files" (number (max_files d));
            field "rotation_seconds" (number (rotation_seconds d));
            field "retention_seconds" (number (retention_seconds d))].

Definition expected_fault_node (x : ExpectedFault) : node :=
  let d := xf_definition x in
  make_map [field "id" (Scalar (fault_id d)); field "attachment" (Scalar (fault_attachment d));
            field "interface" (Scalar (xf_interface x)); field "delay_ms" (number (delay_ms d));
            field "jitter_ms" (number (jitter_ms d));
            field "loss_percent" (Scalar (show_double c (loss_percent d)));
            field "rate_kbit" (number (rate_kbit d));
            field "duration_seconds" (number (duration_seconds d))].

Definition bridge_node (b : OwnedResourceIdentity) : node :=
  make_map [field "kind" (Scalar (r_kind b)); field "name" (Scalar (r_name b));
            field "uuid" (Scalar (r_stable_id b)); text_if "internal_port_uuid" (r_secondary_id b)].

(** Reading an absent index through [operator*] is undefined behaviour; the
    invariant of the ledger excludes it. *)
Definition index_of (o : option Z) : node := number (default 0 o).

Definition endpoint_node (e : OwnedResourceIdentity) : node :=
  make_map [field "kind" (Scalar (r_kind e)); field "attachment_id" (Scalar (r_attachment_id e));
            field "name" (Scalar (r_name e));
            field "target_interface" (Scalar (r_target_interface e));
            field "port_uuid" (Scalar (r_stable_id e));
            field "interface_uuid" (Scalar (r_secondary_id e));
            field "ifindex" (index_of (r_ifindex e));
            field "peer_ifindex" (index_of (r_peer_ifindex e));
            field "namespace_inode" (index_of (r_namespace_inode e));
            text_if "container_id" (r_container_id e); text_if "tap_owner" (r_tap_owner e);
            text_if "mirror_uuid" (r_route_identity e)].

Definition namespace_node (n : OwnedResourceIdentity) : node :=
  make_map [field "kind" (Scalar (r_kind n)); field "name" (Scalar (r_name n));
            field "namespace_inode" (index_of (r_namespace_inode n));
            text_if "rule_identity" (r_rule_identity n)].

Definition capture_node (x : OwnedCapture) : node :=
  make_map [field "kind" (Scalar "network_capture"); field "id" (Scalar (c_id x));
            field "attachment_id" (Scalar (c_attachment_id x));
            field "interface" (Scalar (c_interface x));
            field "session_directory" (Scalar (c_session_directory x));
            field "ifindex" (number (c_ifindex x));
            field "directory_device" (number (c_directory_device x));
            field "directory_inode" (number (c_directory_inode x));
            field "directory_uid" (number (c_directory_uid x));
            field "directory_gid" (number (c_directory_gid x));
            field "directory_mode" (number (c_directory_mode x)); field "pid" (number (c_pid x));
            field "process_start_time" (Scalar (c_process_start_time x));
            field "snapshot_inode" (number (c_snapshot_inode x));
            field "snapshot_pending_inode" (number (c_snapshot_pending_inode x))].

Definition fault_node (x : OwnedFault) : node :=
  make_map [field "kind" (Scalar "netem_fault"); field "id" (Scalar (f_id x));
            field "attachment_id" (Scalar (f_attachment_id x));
            field "interface" (Scalar (f_interface x)); field "ifindex" (number (f_ifindex x));
            field "qdisc_identity" (Scalar (f_qdisc_identity x));
            field "timer_pid" (number (f_timer_pid x));
            field "timer_start_time" (Scalar (f_timer_start_time x));
            field "boot_id" (Scalar (f_boot_id x));
            field "applied_monotonic_ns" (number (f_applied_monotonic_ns x));
            field "expires_monotonic_ns" (number (f_expires_monotonic_ns x))].

Definition resource_nodes (s : OwnershipState) : list node :=
  map bridge_node (bridges s) ++ map endpoint_node (endpoints s)
  ++ map namespace_node (namespaces s) ++ map capture_node (captures s)
  ++ map fault_node (faults s).

Definition console_fields (s : OwnershipState) : list assignment :=
  let named := negb (is_empty (console_name s)) in
  [map_field "console_sockets" (if named then sorted_pairs (console_sockets s) else []);
   field_if named "console_name" (Scalar (console_name s));
   field_if named "console_inode" (number (console_inode s));
   field_if named "console_device" (number (console_device s))].

Definition handoff_fields (s : OwnershipState) : list assignment :=
  let named := negb (is_empty (handoff_name s)) in
  [field_if named "handoff_name" (Scalar (handoff_name s));
   field_if named "handoff_inode" (number (handoff_inode s));
   field_if named "handoff_device" (number (handoff_device s))].

Definition credential_fields (s : OwnershipState) : list assignment :=
  let held := negb (is_empty (credential_directory s)) in
  [field_if held "credential_directory" (Scalar (credential_directory s));
   field_if held "credential_identity" (Scalar (credential_identity s))].

Definition state_node (s : OwnershipState) : node :=
  make_map ([field "version" (number 2); field "graph_id" (Scalar (graph_id s));
            field "config_sha256" (Scalar (config_hash s));
            field "owner_token" (Scalar (owner_token s)); field "status" (Scalar (status s));
       map_field "applications" (sorted_pairs (applications s))]
    ++ console_fields s ++ handoff_fields s
    ++ [field "expected_bridges" (Sequence (map Scalar (expected_bridges s)))]
    ++ credential_fields s
    ++ [sequence_field "scenario_actions" (map action_node (actions s));
            sequence_field "processes" (map process_node (processes s));
            sequence_field "expected_namespaces" (map Scalar (expected_namespaces s));
            sequence_field "expected_endpoints" (map expected_endpoint_node (expected_endpoints s));
            sequence_field "expected_captures" (map expected_capture_node (expected_captures s));
            sequence_field "expected_faults" (map expected_fault_node (expected_faults s));
            sequence_field "resources" (resource_nodes s)]).

(** ** [load_state]: reading one record *)

Definition fail_if (bad : bool) (text : string) : result unit := throw_if bad (RuntimeError text).

Definition required_scalar (root : node) (key : string) : result string :=
  let* v := get root key in
  match v with
  | Scalar text =>
      let* _ := fail_if (is_empty text) ("invalid ownership state field: " +:+ key) in Ok text
  | _ => Throw (RuntimeError ("invalid ownership state field: " +:+ key))
  end.

Definition text_at (root : node) (key : string) : result string :=
  let* v := get root key in convert v (as_string c).
(** [if (root[key]) x = root[key].as<std::string>();] *)
Definition text_or_empty (root : node) (key : string) : result string :=
  let* v := get root key in if defined v then convert v (as_string c) else Ok "".
Definition unsigned_or (bits : Z) (root : node) (key : string) (fallback : Z) : result Z :=
  let* v := get root key in Ok (convert_or v (as_unsigned c bits) fallback).
Definition bool_or (root : node) (key : string) (fallback : bool) : result bool :=
  let* v := get root key in Ok (convert_or v (as_bool c) fallback).
Definition double_or (root : node) (key : string) (fallback : spec_float) : result spec_float :=
  let* v := get root key in Ok (convert_or v (as_double c) fallback).

Fixpoint all_chars (ok : ascii -> bool) (s : string) : bool :=
  match s with EmptyString => true | String ch s => ok ch && all_chars ok s end.
Definition char_in (low high ch : ascii) : bool :=
  (N_of_ascii low <=? N_of_ascii ch)%N && (N_of_ascii ch <=? N_of_ascii high)%N.
Definition hexadecimal (s : string) : bool :=
  all_chars (fun ch => char_in "0" "9" ch || char_in "a" "f" ch || char_in "A" "F" ch) s.
(** [find_first_not_of("abcdefghijklmnopqrstuvwxyz0123456789_-") == npos] *)
Definition plain_name (s : string) : bool :=
  all_chars (fun ch => char_in "a" "z" ch || char_in "0" "9" ch || Ascii.eqb ch "_" || Ascii.eqb ch "-")
    s.
Definition short_name (s : string) : bool :=
  negb (is_empty s) && (size s <=? 64) && plain_name s.
(** [find_first_not_of("0123456789:") == npos] *)
Definition inode_text (s : string) : bool :=
  negb (is_empty s) && (size s <=? 64)
  && all_chars (fun ch => char_in "0" "9" ch || Ascii.eqb ch ":") s.

(** The name of a private directory: a prefix of eight characters, then 32
    hexadecimal digits *)
Definition directory_name (prefix name : string) : bool :=
  String.prefix prefix name && (size name =? 40) && hexadecimal (String.substring 8 32 name).

Definition one_of (text : string) (l : list string) : bool := existsb (String.eqb text) l.

Definition read_console (root : node) : result (string * Z * Z) :=
  let* present := get root "console_name" in
  if negb (defined present) then Ok ("", 0, 0)
  else
    let* name := required_scalar root "console_name" in
    let* inode := unsigned_or 64 root "console_inode" 0 in
    let* device := unsigned_or 64 root "console_device" 0 in
    let* _ := fail_if (negb (directory_name "console-" name)) "invalid console directory identity" in
    Ok (name, inode, device).

(** A map of texts whose keys and values are checked, without duplicates *)
Definition read_pair (key_ok value_ok : string -> bool) (text : string) (p : node * node)
    (m : gmap string string) : result (gmap string string) :=
  let* name := convert p.1 (as_string c) in
  let* value := convert p.2 (as_string c) in
  let* _ := fail_if (negb (key_ok name) || negb (value_ok value) || bool_decide (is_Some (m !! name)))
              text in
  Ok (<[name := value]> m).

Definition read_map (root : node) (key inventory text : string) (key_ok value_ok : string -> bool)
    : result (gmap string string) :=
  let* v := get root key in
  if negb (defined v) then Ok ∅
  else
    let* _ := fail_if (negb (is_map v) || (4096 <? node_size v)) inventory in
    fold_result (read_pair key_ok value_ok text) (pairs_of v) ∅.

Definition read_handoff (root : node) : result (string * Z * Z) :=
  let* present := get root "handoff_name" in
  if negb (defined present) then Ok ("", 0, 0)
  else
    let* name := convert present (as_string c) in
    let* inode := unsigned_or 64 root "handoff_inode" 0 in
    let* device := unsigned_or 64 root "handoff_device" 0 in
    let* _ := fail_if (negb (directory_name "handoff-" name)) "invalid handoff directory identity" in
    Ok (name, inode, device).

Definition read_credentials (root : node) : result (string * string) :=
  let* present := get root "credential_directory" in
  if negb (defined present) then Ok ("", "")
  else
    let* directory := required_scalar root "credential_directory" in
    let* identity := required_scalar root "credential_identity" in
    let* _ := fail_if ((4096 <? size directory) || (64 <? size identity))
                "invalid credential directory identity" in
    Ok (directory, identity).

(** The set of identifiers that a loop has seen, and the records it has read *)
Abbreviation seen X := (gset string * list X)%type.

Definition action_kinds : list string :=
  ["fault"; "route-apply"; "route-clear"; "credential-rotate"; "traffic"].
Definition action_statuses : list string := ["pending"; "complete"; "cleared"].

Definition read_action (item : node) (s : seen OwnedScenarioAction)
    : result (seen OwnedScenarioAction) :=
  let* id := required_scalar item "id" in
  let* kind := required_scalar item "kind" in
  let* status := required_scalar item "status" in
  let* identity := text_at item "identity" in
  let* _ := fail_if (negb (short_name id) || bool_decide (id ∈ s.1) || (65536 <? size identity)
                     || negb (one_of kind action_kinds) || negb (one_of status action_statuses))
              "invalid scenario action identity" in
  Ok ({[id]} ∪ s.1, s.2 ++ [{| a_id := id; a_kind := kind; a_status := status;
                              a_identity := identity |}]).

(** An inventory: a sequence of bounded length, or nothing *)
Definition read_inventory {X} (root : node) (key text : string) (bound : Z)
    (read : node -> seen X -> result (seen X)) : result (list X) :=
  let* v := get root key in
  if negb (defined v) then Ok []
  else
    let* _ := fail_if (negb (is_sequence v) || (bound <? node_size v)) text in
    let* s := fold_result read (elements_of v) (∅, []) in
    Ok s.2.

Definition process_kinds : list string := ["native"; "container"; "volume"; "network"].

(** Where a guest keeps its files *)
Definition read_runtime (item : node) (kind : string) : result (string * string) :=
  let* directory := get item "runtime_directory" in
  let* identity := (if defined directory then Ok directory else get item "runtime_identity") in
  if negb (defined identity) then Ok ("", "")
  else
    let* directory := required_scalar item "runtime_directory" in
    let* identity := required_scalar item "runtime_identity" in
    let* _ := fail_if (negb (String.eqb kind "native") || (4096 <? size directory)
                       || is_empty directory || is_empty identity)
                "invalid owned guest directory identity" in
    Ok (directory, identity).

Definition read_process (graph owner : string) (item : node) (s : seen OwnedResourceIdentity)
    : result (seen OwnedResourceIdentity) :=
  let* kind := required_scalar item "kind" in
  let* name := required_scalar item "name" in
  let* stable := required_scalar item "stable_id" in
  let* secondary := required_scalar item "secondary_id" in
  let* identity := required_scalar item "process_identity" in
  let* (directory, directory_identity) := read_runtime item kind in
  let key := kind +:+ ":" +:+ name in
  let* _ := fail_if (bool_decide (key ∈ s.1) || negb (one_of kind process_kinds))
              "invalid owned process identity" in
  let* _ := fail_if (negb (String.eqb kind "native")
                     && (negb (String.eqb identity owner)
                         || negb (String.prefix ("graphx-" +:+ graph +:+ "-") name)
                         || negb (plain_name name)))
              "invalid owned Docker resource scope" in
  Ok ({[key]} ∪ s.1,
      s.2 ++ [process_identity kind name stable secondary identity directory directory_identity]).

Definition read_bridge_name (v : node) (s : seen string) : result (seen string) :=
  let* name := convert v (as_string c) in
  let* _ := fail_if (is_empty name || bool_decide (name ∈ s.1)) "invalid or duplicate expected bridge" in
  Ok ({[name]} ∪ s.1, s.2 ++ [name]).

Definition read_namespace_name (v : node) (l : list string) : result (list string) :=
  let* name := convert v (as_string c) in
  let* _ := fail_if (is_empty name || one_of name l) "invalid expected Linux namespace" in
  Ok (l ++ [name]).

(** A loop over a field that may be missing *)
Definition read_each {X} (root : node) (key : string) (read : node -> X -> result X) (start : X)
    : result X :=
  let* v := get root key in
  if negb (defined v) then Ok start else fold_result read (elements_of v) start.

Definition read_expected_capture (v : node) (s : seen ExpectedCapture)
    : result (seen ExpectedCapture) :=
  let* id := required_scalar v "id" in
  let* attachment := required_scalar v "attachment" in
  let* interface := required_scalar v "interface" in
  let* directory := required_scalar v "directory" in
  let* snaplen := unsigned_or 32 v "snaplen" 0 in
  let* bytes := unsigned_or 64 v "max_file_bytes" 0 in
  let* files := unsigned_or 32 v "max_files" 0 in
  let* rotation := unsigned_or 32 v "rotation_seconds" 0 in
  let* retention := unsigned_or 32 v "retention_seconds" 0 in
  let* _ := fail_if (bool_decide (id ∈ s.1) || (snaplen <? 256) || (bytes <? 65536) || (files =? 0)
                     || (rotation =? 0) || (retention <? rotation))
              "invalid expected network capture" in
  Ok ({[id]} ∪ s.1,
      s.2 ++ [{| xc_definition := {| capture_id := id; attachment := attachment;
                                     directory := directory; snaplen := snaplen;
                                     max_file_bytes := bytes; max_files := files;
                                     rotation_seconds := rotation;
                                     retention_seconds := retention |};
                 xc_interface := interface |}]).

(** [x == 0.0] *)
Definition is_zero (x : spec_float) : bool := match x with S754_zero _ => true | _ => false end.

Definition read_expected_fault (v : node) (s : seen ExpectedFault) : result (seen ExpectedFault) :=
  let* id := required_scalar v "id" in
  let* attachment := required_scalar v "attachment" in
  let* interface := required_scalar v "interface" in
  let* delay := unsigned_or 32 v "delay_ms" 0 in
  let* jitter := unsigned_or 32 v "jitter_ms" 0 in
  let* loss := double_or v "loss_percent" (S754_zero false) in
  let* rate := unsigned_or 32 v "rate_kbit" 0 in
  let* duration := unsigned_or 32 v "duration_seconds" 0 in
  let* _ := fail_if (bool_decide (id ∈ s.1) || (duration =? 0)
                     || ((delay =? 0) && is_zero loss && (rate =? 0)))
              "invalid expected network fault" in
  Ok ({[id]} ∪ s.1,
      s.2 ++ [{| xf_definition := {| fault_id := id; fault_attachment := attachment;
                                     delay_ms := delay; jitter_ms := jitter; loss_percent := loss;
                                     rate_kbit := rate; duration_seconds := duration |};
                 xf_interface := interface |}]).

(** [std::from_chars] into an [unsigned] that must consume the whole text *)
Definition unsigned_text (s : string) : option Z :=
  match s with
  | EmptyString => None
  | _ => match ConfigParse.digits 0 s with
         | Some z => if z <? 2 ^ 32 then Some z else None
         | None => None
         end
  end.

(** The text after the first slash, if there is one *)
Fixpoint after_slash (s : string) : option string :=
  match s with
  | EmptyString => None
  | String ch s => if Ascii.eqb ch "/" then Some s else after_slash s
  end.

Section Load.
Context (inet_pton : string -> option Z).

Definition alias_ok (address : string) : bool :=
  match after_slash address with
  | None => false
  | Some bits =>
      match inet_pton (ConfigNetwork.before_slash address), unsigned_text bits with
      | Some _, Some prefix => prefix <=? 32
      | _, _ => false
      end
  end.

Definition read_alias (v : node) (s : seen string) : result (seen string) :=
  let* address := convert v (as_string c) in
  let* _ := fail_if (negb (alias_ok address) || bool_decide (address ∈ s.1)) "invalid endpoint alias" in
  Ok ({[address]} ∪ s.1, s.2 ++ [address]).

Definition read_aliases (v : node) : result (list string) :=
  read_inventory v "aliases" "invalid endpoint aliases" 64 read_alias.

Definition read_endpoint_kind (v : node) : result AttachmentKind :=
  let* present := get v "kind" in
  if negb (defined present) then Ok container_veth
  else
    let* kind := convert present (as_string c) in
    if String.eqb kind "namespace_veth" then Ok namespace_veth
    else if String.eqb kind "qemu_tap" then Ok qemu_tap
    else if String.eqb kind "mirror" then Ok mirror_kind
    else if String.eqb kind "container_veth" then Ok container_veth
    else Throw (RuntimeError "invalid endpoint kind").

Definition read_management_policy (v : node) : result string :=
  let* present := get v "management_policy" in
  if negb (defined present) then Ok ""
  else
    let* policy := convert present (as_string c) in
    let* _ := fail_if (negb (size policy =? 64) || negb (hexadecimal policy))
                "invalid management policy identity" in
    Ok policy.

Definition read_vlan (v : node) : result VlanMetadata :=
  let* present := get v "access_tag" in
  let* tag := (if negb (defined present) then Ok None
               else let* tag := convert present (as_unsigned c 16) in Ok (Some tag)) in
  let* trunks := read_each v "trunks" (fun trunk l =>
      let* tag := convert trunk (as_unsigned c 16) in Ok (l ++ [tag])) [] in
  Ok {| access_tag := tag; trunks := trunks |}.

Definition read_route (v : node) (l : list RouteDefinition) : result (list RouteDefinition) :=
  let* destination := required_scalar v "destination" in
  let* via := text_or_empty v "via" in
  let* install := bool_or v "install_on_create" true in
  Ok (l ++ [{| destination := destination; via := via; device := "";
               install_on_create := install |}]).

Definition endpoint_invalid (e : ExpectedEndpoint) (ids : gset string) : bool :=
  (e_mtu e <? 576) || (9000 <? e_mtu e)
  || (e_mirror_container e
      && (negb (bool_decide (e_kind e = mirror_kind)) || negb (size (e_container_id e) =? 64)
          || negb (hexadecimal (e_container_id e))))
  || bool_decide (e_id e ∈ ids) || (e_namespace_inode e =? 0)
  || (bool_decide (e_kind e = container_veth) && is_empty (e_container_id e))
  || (bool_decide (e_kind e = namespace_veth) && is_empty (e_namespace_name e))
  || (bool_decide (e_kind e = qemu_tap) && ((e_tap_uid e =? 0) || (e_tap_gid e =? 0))).

Definition with_routes (routes : list RouteDefinition) (e : ExpectedEndpoint) : ExpectedEndpoint :=
  {| e_mirror_container := e_mirror_container e; e_kind := e_kind e; e_id := e_id e;
     e_owner := e_owner e; e_host_interface := e_host_interface e;
     e_target_interface := e_target_interface e; e_network_switch := e_network_switch e;
     e_address := e_address e; e_mac := e_mac e; e_mtu := e_mtu e; e_routes := routes;
     e_aliases := e_aliases e; e_management_policy := e_management_policy e;
     e_container_id := e_container_id e; e_namespace_inode := e_namespace_inode e;
     e_namespace_name := e_namespace_name e; e_tap_uid := e_tap_uid e; e_tap_gid := e_tap_gid e;
     e_vlan := e_vlan e |}.

(** The fields of an expected endpoint, up to its routes *)
Definition read_endpoint_fields (v : node) : result ExpectedEndpoint :=
  let* id := required_scalar v "id" in
  let* kind := read_endpoint_kind v in
  let* owner := required_scalar v "owner" in
  let* host := required_scalar v "host_interface" in
  let* target := required_scalar v "target_interface" in
  let* network_switch := required_scalar v "switch" in
  let* address := text_or_empty v "address" in
  let* policy := read_management_policy v in
  let* aliases := read_aliases v in
  let* mac := text_or_empty v "mac" in
  let* mtu := unsigned_or 32 v "mtu" 1500 in
  let* mirror := bool_or v "mirror_container" false in
  let* container_text := text_or_empty v "container_id" in
  let* namespace := text_or_empty v "namespace_name" in
  let* inode := unsigned_or 64 v "namespace_inode" 0 in
  let* uid := unsigned_or 32 v "tap_uid" 0 in
  let* gid := unsigned_or 32 v "tap_gid" 0 in
  let* vlan := read_vlan v in
  Ok {| e_mirror_container := mirror; e_kind := kind; e_id := id; e_owner := owner;
        e_host_interface := host; e_target_interface := target;
        e_network_switch := network_switch; e_address := address; e_mac := mac; e_mtu := mtu;
        e_routes := []; e_aliases := aliases; e_management_policy := policy;
        e_container_id := container_text; e_namespace_inode := inode; e_namespace_name := namespace;
        e_tap_uid := uid; e_tap_gid := gid; e_vlan := vlan |}.

Definition read_expected_endpoint (v : node) (s : seen ExpectedEndpoint)
    : result (seen ExpectedEndpoint) :=
  let* e := read_endpoint_fields v in
  let* _ := fail_if (endpoint_invalid e s.1) "invalid expected endpoint" in
  let* routes := read_each v "routes" read_route [] in
  Ok ({[e_id e]} ∪ s.1, s.2 ++ [with_routes routes e]).

(** ** The owned resources *)

(** What the loop over the resources fills; [recorded] are the bridges. *)
Record Resources := {
  res_recorded : gset string; res_bridges : list OwnedResourceIdentity;
  res_endpoints : list OwnedResourceIdentity; res_namespaces : list OwnedResourceIdentity;
  res_captures : list OwnedCapture; res_faults : list OwnedFault }.

Section Resources.
Context (expected_bridges expected_namespaces : list string)
  (expected_captures : list ExpectedCapture) (expected_faults : list ExpectedFault)
  (expected_endpoints : list ExpectedEndpoint).

Definition owned_capture_invalid (x : OwnedCapture) : bool :=
  negb (one_of (c_id x) (map (fun e => capture_id (xc_definition e)) expected_captures))
  || (c_ifindex x =? 0) || (c_directory_device x =? 0) || (c_directory_inode x =? 0)
  || negb (c_directory_uid x =? 0) || negb (c_directory_gid x =? 0)
  || negb (c_directory_mode x =? 448) || (c_pid x =? 0).

Definition read_capture (v : node) : result OwnedCapture :=
  let* id := required_scalar v "id" in
  let* attachment := required_scalar v "attachment_id" in
  let* interface := required_scalar v "interface" in
  let* directory := required_scalar v "session_directory" in
  let* ifindex := unsigned_or 32 v "ifindex" 0 in
  let* device := unsigned_or 64 v "directory_device" 0 in
  let* inode := unsigned_or 64 v "directory_inode" 0 in
  let* uid := unsigned_or 32 v "directory_uid" (2 ^ 32 - 1) in
  let* gid := unsigned_or 32 v "directory_gid" (2 ^ 32 - 1) in
  let* mode := unsigned_or 32 v "directory_mode" 0 in
  let* pid := unsigned_or 32 v "pid" 0 in
  let* start := required_scalar v "process_start_time" in
  let* snapshot := unsigned_or 64 v "snapshot_inode" 0 in
  let* pending := unsigned_or 64 v "snapshot_pending_inode" 0 in
  let x := {| c_id := id; c_attachment_id := attachment; c_interface := interface;
              c_session_directory := directory; c_ifindex := ifindex;
              c_directory_device := device; c_directory_inode := inode; c_directory_uid := uid;
              c_directory_gid := gid; c_directory_mode := mode; c_pid := pid;
              c_process_start_time := start; c_snapshot_inode := snapshot;
              c_snapshot_pending_inode := pending |} in
  let* _ := fail_if (owned_capture_invalid x) "invalid owned network capture" in
  Ok x.

(** [text.find(part) != npos] *)
Fixpoint has_part (part text : string) : bool :=
  String.prefix part text || match text with EmptyString => false | String _ s => has_part part s end.

Definition find_fault (id : string) : option ExpectedFault :=
  List.find (fun e => String.eqb (fault_id (xf_definition e)) id) expected_faults.

Definition owned_fault_invalid (x : OwnedFault) : bool :=
  let duration := match find_fault (f_id x) with
                  | None => 0
                  | Some e => duration_seconds (xf_definition e) * 1000000000
                  end in
  negb (one_of (f_id x) (map (fun e => fault_id (xf_definition e)) expected_faults))
  || (f_ifindex x =? 0) || (f_timer_pid x =? 0) || negb (has_part "netem" (f_qdisc_identity x))
  || negb (size (f_boot_id x) =? 36) || (f_applied_monotonic_ns x =? 0)
  || (f_expires_monotonic_ns x <=? f_applied_monotonic_ns x)
  || negb (u64 (f_expires_monotonic_ns x - f_applied_monotonic_ns x) =? duration).

Definition read_fault (v : node) : result OwnedFault :=
  let* id := required_scalar v "id" in
  let* attachment := required_scalar v "attachment_id" in
  let* interface := required_scalar v "interface" in
  let* ifindex := unsigned_or 32 v "ifindex" 0 in
  let* qdisc := required_scalar v "qdisc_identity" in
  let* timer := unsigned_or 32 v "timer_pid" 0 in
  let* start := required_scalar v "timer_start_time" in
  let* boot := required_scalar v "boot_id" in
  let* applied := unsigned_or 64 v "applied_monotonic_ns" 0 in
  let* expires := unsigned_or 64 v "expires_monotonic_ns" 0 in
  let x := {| f_id := id; f_attachment_id := attachment; f_interface := interface;
              f_ifindex := ifindex; f_qdisc_identity := qdisc; f_timer_pid := timer;
              f_timer_start_time := start; f_boot_id := boot; f_applied_monotonic_ns := applied;
              f_expires_monotonic_ns := expires |} in
  let* _ := fail_if (owned_fault_invalid x) "invalid owned netem fault" in
  Ok x.

Definition find_endpoint (id : string) : option ExpectedEndpoint :=
  List.find (fun e => String.eqb (e_id e) id) expected_endpoints.

Definition missing_index (o : option Z) : bool := default 0 o =? 0.

Definition owned_endpoint_invalid (x : OwnedResourceIdentity) : bool :=
  negb (one_of (r_attachment_id x) (map e_id expected_endpoints))
  || missing_index (r_ifindex x) || missing_index (r_peer_ifindex x)
  || missing_index (r_namespace_inode x)
  || (String.eqb (r_kind x) "qemu_tap" && is_empty (r_tap_owner x)).

(** An endpoint in a container must be the very one that was expected. *)
Definition endpoint_mismatch (x : OwnedResourceIdentity) : bool :=
  match find_endpoint (r_attachment_id x) with
  | None => false
  | Some e =>
      (e_mirror_container e || bool_decide (e_kind e = container_veth))
      && (negb (String.eqb (r_kind x)
                  (if e_mirror_container e then "mirror_veth" else "container_veth"))
          || negb (String.eqb (r_container_id x) (e_container_id e))
          || negb (bool_decide (r_namespace_inode x = Some (e_namespace_inode e)))
          || negb (String.eqb (r_name x) (e_host_interface e))
          || negb (String.eqb (r_target_interface x) (e_target_interface e)))
  end.

Definition read_endpoint (kind : string) (v : node) : result OwnedResourceIdentity :=
  let* attachment := required_scalar v "attachment_id" in
  let* name := required_scalar v "name" in
  let* target := required_scalar v "target_interface" in
  let* port := required_scalar v "port_uuid" in
  let* interface := required_scalar v "interface_uuid" in
  let* ifindex := unsigned_or 32 v "ifindex" 0 in
  let* peer := unsigned_or 32 v "peer_ifindex" 0 in
  let* inode := unsigned_or 64 v "namespace_inode" 0 in
  let* container_text := text_or_empty v "container_id" in
  let* tap_owner := text_or_empty v "tap_owner" in
  let* mirror := text_or_empty v "mirror_uuid" in
  let x := endpoint_identity kind attachment name target port interface ifindex peer inode
             container_text tap_owner mirror in
  let* _ := fail_if (owned_endpoint_invalid x) "invalid owned endpoint" in
  let* _ := fail_if (endpoint_mismatch x) "container endpoint ownership mismatch" in
  Ok x.

Definition read_namespace (v : node) (owned : list OwnedResourceIdentity)
    : result OwnedResourceIdentity :=
  let* name := required_scalar v "name" in
  let* inode := unsigned_or 64 v "namespace_inode" 0 in
  let* _ := fail_if ((inode =? 0) || negb (one_of name expected_namespaces)
                     || one_of name (map r_name owned)) "invalid owned Linux namespace" in
  let* present := get v "rule_identity" in
  let* rules :=
    (if negb (defined present) then Ok ""
     else
       let* rules := convert present (as_string c) in
       let* _ := fail_if (negb (size rules =? 64) || negb (hexadecimal rules))
                   "invalid namespace policy identity" in
       Ok rules) in
  Ok (namespace_identity name inode rules).

Definition read_bridge (v : node) (recorded : gset string) : result OwnedResourceIdentity :=
  let* name := required_scalar v "name" in
  let* uuid := required_scalar v "uuid" in
  let* internal := text_or_empty v "internal_port_uuid" in
  let* _ := fail_if (negb (one_of name expected_bridges) || bool_decide (name ∈ recorded)
                     || negb (size uuid =? 36)
                     || (negb (is_empty internal) && negb (size internal =? 36)))
              "invalid owned bridge record" in
  Ok (bridge_identity name uuid internal).

Definition endpoint_kinds : list string :=
  ["container_veth"; "namespace_veth"; "qemu_tap"; "mirror_veth"].

Definition read_resource (v : node) (s : Resources) : result Resources :=
  let* kind := required_scalar v "kind" in
  if String.eqb kind "network_capture" then
    let* x := read_capture v in
    Ok {| res_recorded := res_recorded s; res_bridges := res_bridges s;
          res_endpoints := res_endpoints s; res_namespaces := res_namespaces s;
          res_captures := res_captures s ++ [x]; res_faults := res_faults s |}
  else if String.eqb kind "netem_fault" then
    let* x := read_fault v in
    Ok {| res_recorded := res_recorded s; res_bridges := res_bridges s;
          res_endpoints := res_endpoints s; res_namespaces := res_namespaces s;
          res_captures := res_captures s; res_faults := res_faults s ++ [x] |}
  else if one_of kind endpoint_kinds then
    let* x := read_endpoint kind v in
    Ok {| res_recorded := res_recorded s; res_bridges := res_bridges s;
          res_endpoints := res_endpoints s ++ [x]; res_namespaces := res_namespaces s;
          res_captures := res_captures s; res_faults := res_faults s |}
  else if String.eqb kind "linux_namespace" then
    let* x := read_namespace v (res_namespaces s) in
    Ok {| res_recorded := res_recorded s; res_bridges := res_bridges s;
          res_endpoints := res_endpoints s; res_namespaces := res_namespaces s ++ [x];
          res_captures := res_captures s; res_faults := res_faults s |}
  else
    let* _ := fail_if (negb (String.eqb kind "ovs_bridge")) "unsupported owned resource kind" in
    let* x := read_bridge v (res_recorded s) in
    Ok {| res_recorded := {[r_name x]} ∪ res_recorded s; res_bridges := res_bridges s ++ [x];
          res_endpoints := res_endpoints s; res_namespaces := res_namespaces s;
          res_captures := res_captures s; res_faults := res_faults s |}.

End Resources.

(** ** [load_state]: the whole ledger *)

Definition statuses : list string := ["creating"; "ready"; "destroying"].

Definition read_state (root : node) : result OwnershipState :=
  let* graph := required_scalar root "graph_id" in
  let* hash := required_scalar root "config_sha256" in
  let* owner := required_scalar root "owner_token" in
  let* status := required_scalar root "status" in
  let* (console, console_inode, console_device) := read_console root in
  let* sockets := read_map root "console_sockets" "invalid console socket inventory"
                    "invalid console socket identity" short_name inode_text in
  let* (handoff, handoff_inode, handoff_device) := read_handoff root in
  let* (directory, directory_identity) := read_credentials root in
  let* actions := read_inventory root "scenario_actions" "invalid scenario inventory" 64
                    read_action in
  let* applications := read_map root "applications" "invalid application admission inventory"
                         "invalid application admission" short_name
                         (fun a => one_of a ["ready"; "exited"; "timeout"]) in
  let* processes := read_inventory root "processes" "invalid owned process inventory" 4096
                      (read_process graph owner) in
  let* _ := fail_if (negb (size hash =? 64) || negb (hexadecimal hash)
                     || negb (size owner =? 32) || negb (hexadecimal owner))
              "invalid ownership state identity" in
  let* _ := fail_if (negb (one_of status statuses)) "invalid ownership state status" in
  let* v := get root "expected_bridges" in
  let* _ := fail_if (negb (is_sequence v)) "invalid ownership state expected_bridges" in
  let* bridge_names := fold_result read_bridge_name (elements_of v) (∅, []) in
  let* namespace_names := read_each root "expected_namespaces" read_namespace_name [] in
  let* xcaptures := read_each root "expected_captures" read_expected_capture (∅, []) in
  let* xfaults := read_each root "expected_faults" read_expected_fault (∅, []) in
  let* xendpoints := read_each root "expected_endpoints" read_expected_endpoint (∅, []) in
  let* r := read_each root "resources"
              (read_resource bridge_names.2 namespace_names xcaptures.2 xfaults.2 xendpoints.2)
              {| res_recorded := ∅; res_bridges := []; res_endpoints := []; res_namespaces := [];
                 res_captures := []; res_faults := [] |} in
  Ok {| actions := actions; credential_directory := directory;
        credential_identity := directory_identity; graph_id := graph; config_hash := hash;
        owner_token := owner; status := status; applications := applications;
        console_sockets := sockets; console_name := console; console_inode := console_inode;
        console_device := console_device; handoff_name := handoff;
        handoff_inode := handoff_inode; handoff_device := handoff_device;
        expected_bridges := bridge_names.2; bridges := res_bridges r;
        expected_endpoints := xendpoints.2; endpoints := res_endpoints r;
        expected_namespaces := namespace_names; namespaces := res_namespaces r;
        expected_captures := xcaptures.2; captures := res_captures r;
        expected_faults := xfaults.2; faults := res_faults r; processes := processes |}.

(** What [fstat] tells of the opened file *)
Record Metadata := { regular : bool; mode : Z; st_size : Z }.

(** One call of [read]: it is interrupted, fails or meets the end of the
    file, or fills some bytes of the buffer. *)
Inductive read_event := read_again | read_nothing | read_some (first : ascii) (rest : string).

(** The bytes still needed; [None] when the script of calls ends. *)
Fixpoint read_all (need : nat) (events : list read_event) : option (result string) :=
  match need with
  | O => Some (Ok "")
  | S _ =>
      match events with
      | [] => None
      | read_again :: events => read_all need events
      | read_nothing :: _ => Some (Throw (RuntimeError "cannot read complete ownership state"))
      | read_some ch s :: events =>
          let got := String.substring 0 need (String ch s) in
          match read_all (need - String.length (String ch s)) events with
          | Some (Ok rest) => Some (Ok (got +:+ rest))
          | r => r
          end
      end
  end.

Context (load : string -> option node).

Definition load_bytes (bytes : string) : result OwnershipState :=
  match load bytes with
  | None => yaml_exception "parser error"
  | Some root =>
      let* _ := fail_if (negb (is_map root)) "unsupported ownership state format" in
      let* version := get root "version" in
      let* _ := fail_if (negb (convert_or version (as_int c) 0 =? 2))
                  "unsupported ownership state format" in
      read_state root
  end.

Definition check_metadata (m : Metadata) : result unit :=
  let* _ := fail_if (negb (regular m)) "ownership state must be a regular file" in
  let* _ := fail_if (negb (Z.land (mode m) 511 =? 384)) "ownership state permissions must be 0600" in
  fail_if ((st_size m <? 0) || (1024 * 1024 <? st_size m)) "ownership state exceeds 1 MiB".

Definition load_state (opened : result Metadata) (reads : list read_event)
    : option (result OwnershipState) :=
  match (let* m := opened in let* _ := check_metadata m in Ok m) with
  | Throw e => Some (Throw e)
  | Ok m =>
      match read_all (Z.to_nat (st_size m)) reads with
      | None => None
      | Some (Throw e) => Some (Throw e)
      | Some (Ok bytes) => Some (load_bytes bytes)
      end
  end.

End Load.

(** ** [save_state] *)

(** The two names it works on, in one directory: the ledger and its temporary
    file, each with its content and whether that content has reached the disk *)
Record File := { content : string; synced : bool }.
Record Directory := { target : option File; temporary : option File; names_synced : bool }.

(** One call of [write] *)
Inductive write_event := write_again | write_failed | wrote (count : nat).

(** The outcomes of the other calls: [true] is success. *)
Record Calls := {
  open_temporary : bool; writes : list write_event; sync_file : bool;
  publish : bool;                (** [rename], or [link] *)
  open_directory : bool; sync_directory : bool }.

(** The bytes written so far, and how the loop ended; [write] never takes more
    than it was given.  [None]: the process died. *)
Fixpoint write_all (bytes : string) (events : list write_event) : string * option bool :=
  match bytes with
  | EmptyString => ("", Some true)
  | _ =>
      match events with
      | [] => ("", None)
      | write_again :: events => write_all bytes events
      | write_failed :: _ => ("", Some false)
      | wrote count :: events =>
          let n := S count in
          let (written, r) :=
            write_all (String.substring n (String.length bytes - n) bytes) events in
          (String.substring 0 n bytes +:+ written, r)
      end
  end.

Definition system_error {A} (text : string) : result A := Throw (RuntimeError text).

Definition with_temporary (f : option File) (d : Directory) : Directory :=
  {| target := target d; temporary := f; names_synced := names_synced d |}.
Definition with_target (f : option File) (d : Directory) : Directory :=
  {| target := f; temporary := temporary d; names_synced := false |}.

(** The states of the directory after each call, the latest last *)
Abbreviation trace := (list Directory).

(** [rename] replaces; [link] refuses an existing name and is followed by
    [unlink]. *)
Definition publish_file (replace_existing : bool) (f : File) (ok : bool) (d : Directory)
    : trace * result unit :=
  if replace_existing then
    if ok then ([with_target (Some f) (with_temporary None d)], Ok tt)
    else ([with_temporary None d], system_error "cannot publish ownership state")
  else
    if ok && bool_decide (target d = None)
    then ([with_target (Some f) d; with_temporary None (with_target (Some f) d)], Ok tt)
    else ([with_temporary None d], system_error "cannot exclusively publish ownership state").

Definition sync_names (calls : Calls) (d : Directory) : trace * result unit :=
  if open_directory calls && sync_directory calls
  then ([{| target := target d; temporary := temporary d; names_synced := true |}], Ok tt)
  else ([], system_error "cannot sync ownership state directory").

(** The trace of the call from [d], and its result; [None]: the process died
    while it wrote. *)
Definition save_bytes (bytes : string) (replace_existing : bool) (calls : Calls) (d : Directory)
    : trace * option (result unit) :=
  if negb (open_temporary calls) || bool_decide (is_Some (temporary d))
  then ([], Some (system_error "cannot create temporary state"))
  else
    let opened := with_temporary (Some {| content := ""; synced := false |}) d in
    let (written, outcome) := write_all bytes (writes calls) in
    let filled := with_temporary (Some {| content := written; synced := false |}) d in
    match outcome with
    | None => ([opened; filled], None)
    | Some false =>
        ([opened; filled; with_temporary None d],
         Some (system_error "cannot write ownership state"))
    | Some true =>
        if negb (sync_file calls)
        then ([opened; filled; with_temporary None d],
              Some (system_error "cannot publish ownership state"))
        else
          let file := {| content := written; synced := true |} in
          let flushed := with_temporary (Some file) d in
          let (published, r) := publish_file replace_existing file (publish calls) flushed in
          let start := [opened; filled; flushed] ++ published in
          match r with
          | Throw e => (start, Some (Throw e))
          | Ok _ =>
              let (names, r) := sync_names calls (List.last published flushed) in
              (start ++ names, Some r)
          end
    end.

(** [emit] is the text of the emitter, or nothing if it is not [good()]. *)
Definition save_state (emit : node -> option string) (s : OwnershipState) (replace_existing : bool)
    (calls : Calls) (d : Directory) : trace * option (result unit) :=
  match emit (state_node s) with
  | None => ([], Some (Throw (RuntimeError "cannot serialize ownership state")))
  | Some text => save_bytes (text +:+ String "010" EmptyString) replace_existing calls d
  end.

End Ledger.
End OwnershipState.
