(* ===== verification/OwnershipStateProofs.v ===== *)
(** * The ledger survives being saved and loaded

    [ledger_wf] is what the ledger promises about itself: identities in their
    formats, inventories without duplicates, owned resources that were
    expected.  [load_state] accepts nothing else, and loads every such ledger
    back as it was saved. *)

From Stdlib Require Import ZArith Lia Strings.Byte Strings.Ascii Strings.String Floats.SpecFloat.
From stdpp Require Import base gmap strings sorting pretty countable list.
From S2P Require Import Prelude Envelope ConfigParse ConfigNetwork ResolvedNetwork Yaml OwnershipState.

Module OwnershipStateProofs.
Import Envelope ResolvedNetwork Yaml OwnershipState.
Local Open Scope Z_scope.

(** ** Lookups in maps built by assignments *)

Section Lookups.
Context (c : Conversions) {laws : ConversionLaws c}.

(** The value of a field that may have been left out *)
Definition once (o : option node) : option node :=
  match o with Some v => Some v | None => None end.

Lemma fail_if_false {A} text (k : unit -> result A) : bind (fail_if false text) k = k tt.
Proof. done. Qed.

Lemma state_check_ok b text u : fail_if b text = Ok u -> b = false.
Proof. by destruct b. Qed.

Lemma convert_text text : convert (Scalar text) (as_string c) = Ok text.
Proof. unfold convert. by rewrite as_string_scalar. Qed.

Lemma convert_number bits z : 0 <= z < 2 ^ bits -> convert (number c z) (as_unsigned c bits) = Ok z.
Proof. intros Hz. unfold convert, number. by rewrite as_unsigned_show. Qed.

Lemma required_make l key text :
  find_assignment key l = Some (Scalar text) -> is_empty text = false ->
  required_scalar (make_map l) key = Ok text.
Proof. intros H He. unfold required_scalar. rewrite get_make, H. cbn. by rewrite He. Qed.

Lemma unsigned_make bits l key z fallback :
  find_assignment key l = Some (number c z) -> 0 <= z < 2 ^ bits ->
  unsigned_or c bits (make_map l) key fallback = Ok z.
Proof.
  unfold number. intros H Hz. unfold unsigned_or. rewrite get_make, H. cbn.
  by rewrite (as_unsigned_show bits z Hz).
Qed.

Lemma unsigned_make_if bits l key b z fallback :
  find_assignment key l = once (if b : bool then Some (number c z) else None) ->
  0 <= z < 2 ^ bits -> (b = false -> z = fallback) ->
  unsigned_or c bits (make_map l) key fallback = Ok z.
Proof.
  intros H Hz Hb. destruct b; [by apply unsigned_make|].
  unfold unsigned_or. rewrite get_make, H, Hb by done. done.
Qed.

Lemma text_make l key text :
  find_assignment key l = Some (Scalar text) -> text_at c (make_map l) key = Ok text.
Proof. intros H. unfold text_at. rewrite get_make, H. cbn. by rewrite as_string_scalar. Qed.

Lemma text_make_field l key text :
  find_assignment key l = Some (Scalar text) -> text_or_empty c (make_map l) key = Ok text.
Proof. intros H. unfold text_or_empty. rewrite get_make, H. cbn. by rewrite as_string_scalar. Qed.

Lemma text_make_if l key text :
  find_assignment key l = once (if negb (is_empty text) then Some (Scalar text) else None) ->
  text_or_empty c (make_map l) key = Ok text.
Proof.
  intros H. unfold text_or_empty. rewrite get_make, H. destruct (is_empty text) eqn:E; cbn.
  - by apply String.eqb_eq in E as ->.
  - by rewrite as_string_scalar.
Qed.

Lemma bool_make l key b fallback :
  find_assignment key l = Some (Scalar (show_bool c b)) ->
  bool_or c (make_map l) key fallback = Ok b.
Proof. intros H. unfold bool_or. rewrite get_make, H. cbn. by rewrite as_bool_show. Qed.

Lemma double_make l key d fallback :
  find_assignment key l = Some (Scalar (show_double c d)) -> valid_binary 53 1024 d = true ->
  double_or c (make_map l) key fallback = Ok d.
Proof. intros H Hd. unfold double_or. rewrite get_make, H. cbn. by rewrite as_double_show. Qed.

Lemma each_make {X Y} l key (enc : Y -> node) items (read : node -> X -> result X) start :
  find_assignment key l = once (sequence_field key (map enc items)).2 ->
  read_each (make_map l) key read start = fold_result read (map enc items) start.
Proof. intros H. unfold read_each. rewrite get_make, H. by destruct items. Qed.

Lemma inventory_make {X Y} l key text bound (enc : Y -> node) items
    (read : node -> gset string * list X -> result (gset string * list X)) :
  find_assignment key l = once (sequence_field key (map enc items)).2 ->
  Z.of_nat (length items) <= bound ->
  read_inventory (make_map l) key text bound read
  = (let* s := fold_result read (map enc items) (∅, []) in Ok s.2).
Proof.
  intros H Hb. unfold read_inventory. rewrite get_make, H. rewrite <-(length_map enc) in Hb.
  destruct (map enc items) as [|n nodes]; [done|]. cbn -[Z.of_nat length].
  apply Z.ltb_ge in Hb. by rewrite Hb.
Qed.

(** ** Lookups that succeeded *)

Lemma inventory_ok {X} v key text bound (read : node -> gset string * list X -> result (gset string * list X)) l :
  read_inventory v key text bound read = Ok l -> 0 <= bound ->
  exists items s, Z.of_nat (length items) <= bound /\ fold_result read items (∅, []) = Ok s /\ s.2 = l.
Proof.
  unfold read_inventory. intros H Hb. apply bind_ok in H as (w & _ & H).
  destruct (negb (defined w)); [injection H as <-; by exists [], (∅, [])|].
  apply bind_ok in H as ([] & Hok%state_check_ok & H). apply bind_ok in H as (s & Hs & [= <-]).
  reflect_bools. destruct w; try done. cbn in *. by exists items, s.
Qed.

Lemma each_ok {X} v key (read : node -> X -> result X) start x :
  read_each v key read start = Ok x -> exists items, fold_result read items start = Ok x.
Proof.
  unfold read_each. intros H. apply bind_ok in H as (w & _ & H).
  destruct (negb (defined w)); [injection H as <-; by exists []|]. by eexists.
Qed.

Lemma required_ok v key text : required_scalar v key = Ok text -> is_empty text = false.
Proof.
  unfold required_scalar. intros H. apply bind_ok in H as (w & _ & H). destruct w; try done.
  apply bind_ok in H as ([] & He%state_check_ok & H). by injection H as <-.
Qed.

Lemma unsigned_ok bits v key fallback z :
  unsigned_or c bits v key fallback = Ok z -> 0 <= fallback < 2 ^ bits -> 0 <= z < 2 ^ bits.
Proof.
  unfold unsigned_or. intros H Hf. apply bind_ok in H as (w & _ & [= <-]).
  unfold convert_or. destruct w; try done;
    (destruct (as_unsigned c bits _) eqn:E; [by eapply as_unsigned_range|done]).
Qed.

Lemma double_ok v key fallback d :
  double_or c v key fallback = Ok d -> valid_binary 53 1024 fallback = true ->
  valid_binary 53 1024 d = true.
Proof.
  unfold double_or. intros H Hf. apply bind_ok in H as (w & _ & [= <-]).
  unfold convert_or. destruct w; try done;
    (destruct (as_double c _) eqn:E; [by eapply as_double_valid|done]).
Qed.

End Lookups.

(** A loop whose state after each step is a function of what it consumed *)
Lemma fold_grow {X S} (step : node -> S -> result S) (enc : X -> node) (state : list X -> S) l :
  (forall pre x post, l = pre ++ x :: post -> step (enc x) (state pre) = Ok (state (pre ++ [x]))) ->
  fold_result step (map enc l) (state []) = Ok (state l).
Proof.
  intros Hstep.
  enough (Hg : forall post pre, l = pre ++ post -> fold_result step (map enc post) (state pre) = Ok (state l))
    by by apply (Hg l []).
  induction post as [|x post IH]; intros pre ->; [by rewrite app_nil_r|].
  cbn [map fold_result]. rewrite (Hstep pre x post) by done. cbn [bind]. apply IH.
  by rewrite <-app_assoc.
Qed.

(** ** Inventories: loops that collect records with distinct keys *)

Section Seen.
Context {X : Type} (read : node -> gset string * list X -> result (gset string * list X)).
Context (enc : X -> node) (key : X -> string) (ok : X -> Prop).

Lemma fold_seen_write l :
  (forall x s, ok x -> key x ∉ s.1 -> read (enc x) s = Ok ({[key x]} ∪ s.1, s.2 ++ [x])) ->
  Forall ok l -> NoDup (map key l) ->
  exists ids, fold_result read (map enc l) (∅, []) = Ok (ids, l).
Proof.
  intros Hstep Hok Hnd.
  enough (Hg : forall l' s, Forall ok l' -> NoDup (map key l') ->
              (forall x, x ∈ l' -> key x ∉ s.1) ->
              exists ids, fold_result read (map enc l') s = Ok (ids, s.2 ++ l')).
  { apply (Hg l (∅, [])); [done|done|]. intros x _. cbn. set_solver. }
  clear l Hok Hnd. induction l' as [|x l' IH]; intros s Hok Hnd Hfresh.
  - exists s.1. cbn. rewrite app_nil_r. by destruct s.
  - inversion Hok; subst. cbn [map fold_result] in *. apply NoDup_cons in Hnd as [Hx Hnd].
    rewrite Hstep; [|done|apply Hfresh; by left]. cbn [bind].
    destruct (IH ({[key x]} ∪ s.1, s.2 ++ [x])) as (ids & ->); [done|done| |].
    + intros y Hy Hin. cbn in Hin. apply elem_of_union in Hin as [Heq%elem_of_singleton|Hin].
      * apply Hx. rewrite <-Heq. by apply list_elem_of_fmap_2.
      * by apply (Hfresh y); [right|].
    + exists ids. cbn. by rewrite <-app_assoc.
Qed.

Lemma fold_seen_read items s :
  (forall v s s', read v s = Ok s' ->
     exists x, s' = ({[key x]} ∪ s.1, s.2 ++ [x]) /\ ok x /\ key x ∉ s.1) ->
  fold_result read items (∅, []) = Ok s ->
  Forall ok s.2 /\ NoDup (map key s.2) /\ length s.2 = length items.
Proof using X key ok read.
  clear enc. intros Hstep H.
  set (inv := fun (pre : list node) (s : gset string * list X) =>
    Forall ok s.2 /\ NoDup (map key s.2) /\ (forall k, k ∈ map key s.2 -> k ∈ s.1)
    /\ length s.2 = length pre).
  enough (inv items s) by (unfold inv in *; naive_solver).
  revert H. apply (fold_result_prefix inv); unfold inv.
  - repeat split; [constructor|constructor|]. intros k Hk. by apply elem_of_nil in Hk.
  - intros pre v s1 s2 _ (Hok & Hnd & Hin & Hl) (x & -> & Hx & Hfresh)%Hstep. cbn. rewrite map_app.
    split_and!.
    + apply Forall_app. by repeat constructor.
    + apply NoDup_app. split; [done|]. split; [|by apply NoDup_singleton].
      intros k Hk Hk'. apply list_elem_of_singleton in Hk' as ->. by apply Hfresh, Hin.
    + intros k [Hk|Hk]%elem_of_app; [apply elem_of_union_r; auto|].
      apply list_elem_of_singleton in Hk as ->. set_solver.
    + rewrite !length_app, Hl. done.
Qed.
End Seen.

(** ** The invariant, record by record *)

Abbreviation filled s := (is_empty s = false).

Definition action_ok (a : OwnedScenarioAction) : Prop :=
  short_name (a_id a) = true /\ size (a_identity a) <= 65536
  /\ one_of (a_kind a) action_kinds = true /\ one_of (a_status a) action_statuses = true.

(** Only guests have a directory of their own, and Docker resources carry the
    token and the name of their graph. *)
Definition process_ok (graph owner : string) (p : OwnedResourceIdentity) : Prop :=
  p = process_identity (r_kind p) (r_name p) (r_stable_id p) (r_secondary_id p)
        (r_process_identity p) (r_runtime_directory p) (r_runtime_identity p)
  /\ filled (r_name p) /\ filled (r_stable_id p) /\ filled (r_secondary_id p)
  /\ filled (r_process_identity p)
  /\ (is_empty (r_runtime_directory p) = is_empty (r_runtime_identity p))
  /\ (filled (r_runtime_directory p) -> r_kind p = "native" /\ size (r_runtime_directory p) <= 4096)
  /\ one_of (r_kind p) process_kinds = true
  /\ (r_kind p <> "native" ->
        r_process_identity p = owner
        /\ String.prefix ("graphx-" +:+ graph +:+ "-") (r_name p) = true
        /\ plain_name (r_name p) = true).

Definition process_key (p : OwnedResourceIdentity) : string := r_kind p +:+ ":" +:+ r_name p.

Definition expected_capture_ok (x : ExpectedCapture) : Prop :=
  let d := xc_definition x in
  filled (capture_id d) /\ filled (attachment d) /\ filled (xc_interface x) /\ filled (directory d)
  /\ 256 <= snaplen d < 2 ^ 32 /\ 65536 <= max_file_bytes d < 2 ^ 64 /\ 0 < max_files d < 2 ^ 32
  /\ 0 < rotation_seconds d <= retention_seconds d /\ retention_seconds d < 2 ^ 32.

Definition expected_fault_ok (x : ExpectedFault) : Prop :=
  let d := xf_definition x in
  filled (fault_id d) /\ filled (fault_attachment d) /\ filled (xf_interface x)
  /\ in_u32 (delay_ms d) /\ in_u32 (jitter_ms d) /\ valid_binary 53 1024 (loss_percent d) = true
  /\ in_u32 (rate_kbit d) /\ 0 < duration_seconds d < 2 ^ 32
  /\ (delay_ms d =? 0) && is_zero (loss_percent d) && (rate_kbit d =? 0) = false.

(** One way for each of the conversions *)
Ltac read_field :=
  first
  [ erewrite required_make by (reflexivity || assumption)
  | erewrite text_make by (reflexivity || assumption)
  | erewrite text_make_field by (reflexivity || assumption)
  | erewrite text_make_if by (reflexivity || assumption)
  | erewrite bool_make by (reflexivity || assumption)
  | erewrite double_make by (reflexivity || assumption)
  | erewrite unsigned_make by (reflexivity || assumption || (unfold in_u32, in_u64 in *; lia)) ];
  cbn [bind].

(** Comparisons that the context decides *)
Ltac settle_checks :=
  repeat match goal with
  | |- context [?a <? ?b] =>
      first [replace (a <? b) with false by (symmetry; apply Z.ltb_ge; lia)
            |replace (a <? b) with true by (symmetry; apply Z.ltb_lt; lia)]
  | |- context [?a <=? ?b] =>
      first [replace (a <=? b) with false by (symmetry; apply Z.leb_gt; lia)
            |replace (a <=? b) with true by (symmetry; apply Z.leb_le; lia)]
  | |- context [?a =? ?b] =>
      first [replace (a =? b) with false by (symmetry; apply Z.eqb_neq; lia)
            |replace (a =? b) with true by (symmetry; apply Z.eqb_eq; lia)]
  end.

Lemma one_of_filled text l : one_of text l = true -> forallb (fun s => negb (is_empty s)) l = true ->
  filled text.
Proof.
  unfold one_of. rewrite existsb_exists, forallb_forall. intros (s & Hs & ->%String.eqb_eq) Hl.
  by apply negb_true_iff, Hl.
Qed.

Lemma short_name_filled s : short_name s = true -> filled s.
Proof. unfold short_name. intros H. reflect_bools. done. Qed.

Section Records.
Context (c : Conversions) {laws : ConversionLaws c}.

Lemma write_action a s :
  action_ok a -> a_id a ∉ s.1 ->
  read_action c (action_node a) s = Ok ({[a_id a]} ∪ s.1, s.2 ++ [a]).
Proof.
  intros (Hid & Hi & Hk & Hs) Hfresh. pose proof (short_name_filled _ Hid).
  pose proof (one_of_filled _ _ Hk eq_refl). pose proof (one_of_filled _ _ Hs eq_refl).
  unfold read_action, action_node. do 4 read_field.
  rewrite bool_decide_eq_false_2 by done. rewrite Hid, Hk, Hs.
  replace (65536 <? _) with false by lia. by destruct a.
Qed.

Lemma action_read v s s' :
  read_action c v s = Ok s' ->
  exists a, s' = ({[a_id a]} ∪ s.1, s.2 ++ [a]) /\ action_ok a /\ a_id a ∉ s.1.
Proof.
  unfold read_action. intros H. apply bind_ok in H as (id & Hid & H).
  apply bind_ok in H as (kind & Hkind & H). apply bind_ok in H as (status & Hstatus & H).
  apply bind_ok in H as (identity & _ & H). apply bind_ok in H as ([] & Hok%state_check_ok & [= <-]).
  reflect_bools. rewrite bool_decide_eq_false in *.
  eexists {| a_id := id; a_kind := kind; a_status := status; a_identity := identity |}. done.
Qed.

Lemma write_runtime p l :
  find_assignment "runtime_directory" l
    = once (if negb (is_empty (r_runtime_directory p)) then Some (Scalar (r_runtime_directory p)) else None) ->
  find_assignment "runtime_identity" l
    = once (if negb (is_empty (r_runtime_directory p)) then Some (Scalar (r_runtime_identity p)) else None) ->
  is_empty (r_runtime_directory p) = is_empty (r_runtime_identity p) ->
  (filled (r_runtime_directory p) -> r_kind p = "native" /\ size (r_runtime_directory p) <= 4096) ->
  read_runtime (make_map l) (r_kind p) = Ok (r_runtime_directory p, r_runtime_identity p).
Proof.
  intros Hd Hi Heq Hk. unfold read_runtime. rewrite !get_make, Hd, Hi.
  destruct (is_empty (r_runtime_directory p)) eqn:E.
  - apply String.eqb_eq in E as ->. symmetry in Heq. apply String.eqb_eq in Heq as ->. done.
  - cbn [negb once default defined bind from_option id]. destruct (Hk eq_refl) as [Hn Hs].
    symmetry in Heq. rewrite (required_make _ _ _ Hd E), (required_make _ _ _ Hi Heq).
    cbn [bind]. rewrite Hn, E, Heq.
    replace (4096 <? _) with false by lia. done.
Qed.

Lemma write_process graph owner p s :
  process_ok graph owner p -> process_key p ∉ s.1 ->
  read_process graph owner (process_node p) s = Ok ({[process_key p]} ∪ s.1, s.2 ++ [p]).
Proof.
  intros (Hp & Hn & Hst & Hse & Hpi & Heq & Hr & Hk & Hd) Hfresh.
  pose proof (one_of_filled _ _ Hk eq_refl).
  unfold read_process, process_node. do 5 read_field. rewrite write_runtime by done. cbn [bind].
  fold (process_key p). rewrite bool_decide_eq_false_2 by done. rewrite Hk. cbn [negb orb].
  rewrite fail_if_false, <-Hp. destruct (String.eqb_spec (r_kind p) "native") as [|Hne]; [done|].
  destruct (Hd Hne) as (-> & -> & ->). by rewrite String.eqb_refl.
Qed.

Lemma runtime_read v kind d i :
  read_runtime v kind = Ok (d, i) ->
  is_empty d = is_empty i /\ (filled d -> kind = "native" /\ size d <= 4096).
Proof.
  unfold read_runtime. intros H. apply bind_ok in H as (dn & _ & H).
  apply bind_ok in H as (idn & _ & H). destruct (negb (defined idn)); [by injection H as <- <-|].
  apply bind_ok in H as (d' & Hd%required_ok & H). apply bind_ok in H as (i' & Hi%required_ok & H).
  apply bind_ok in H as ([] & Hok%state_check_ok & [= -> ->]). reflect_bools. rewrite Hd, Hi. done.
Qed.

Lemma process_read graph owner v s s' :
  read_process graph owner v s = Ok s' ->
  exists p, s' = ({[process_key p]} ∪ s.1, s.2 ++ [p]) /\ process_ok graph owner p
            /\ process_key p ∉ s.1.
Proof.
  unfold read_process. intros H. apply bind_ok in H as (kind & _ & H).
  apply bind_ok in H as (name & Hn%required_ok & H). apply bind_ok in H as (st & Hst%required_ok & H).
  apply bind_ok in H as (se & Hse%required_ok & H). apply bind_ok in H as (pi & Hpi%required_ok & H).
  apply bind_ok in H as ([d i] & [Heq Hr]%runtime_read & H).
  apply bind_ok in H as ([] & H1%state_check_ok & H). apply bind_ok in H as ([] & H2%state_check_ok & [= <-]).
  reflect_bools. rewrite bool_decide_eq_false in *.
  eexists (process_identity kind name st se pi d i). split; [done|]. split; [|done].
  unfold process_ok. cbn. split_and!; try done. intros Hne. apply String.eqb_neq in Hne.
  rewrite Hne in H2. cbn in H2. by reflect_bools.
Qed.

Lemma write_expected_capture x s :
  expected_capture_ok x -> capture_id (xc_definition x) ∉ s.1 ->
  read_expected_capture c (expected_capture_node c x) s
  = Ok ({[capture_id (xc_definition x)]} ∪ s.1, s.2 ++ [x]).
Proof.
  intros (Hid & Hat & Hi & Hd & Hs & Hb & Hf & Hr & Hre) Hfresh.
  unfold read_expected_capture, expected_capture_node. do 9 read_field.
  rewrite bool_decide_eq_false_2 by done. settle_checks. by destruct x as [[]].
Qed.

Lemma expected_capture_read v s s' :
  read_expected_capture c v s = Ok s' ->
  exists x, s' = ({[capture_id (xc_definition x)]} ∪ s.1, s.2 ++ [x]) /\ expected_capture_ok x
            /\ capture_id (xc_definition x) ∉ s.1.
Proof.
  unfold read_expected_capture. intros H.
  apply bind_ok in H as (id & Hid%required_ok & H). apply bind_ok in H as (at_ & Hat%required_ok & H).
  apply bind_ok in H as (i & Hi%required_ok & H). apply bind_ok in H as (d & Hd%required_ok & H).
  apply bind_ok in H as (sn & Hsn%(unsigned_ok c) & H); [|lia].
  apply bind_ok in H as (b & Hb%(unsigned_ok c) & H); [|lia].
  apply bind_ok in H as (f & Hf%(unsigned_ok c) & H); [|lia].
  apply bind_ok in H as (ro & Hro%(unsigned_ok c) & H); [|lia].
  apply bind_ok in H as (re & Hre%(unsigned_ok c) & H); [|lia].
  apply bind_ok in H as ([] & Hok%state_check_ok & [= <-]). reflect_bools. rewrite bool_decide_eq_false in *.
  eexists {| xc_definition := {| capture_id := id |}; xc_interface := i |}. cbn.
  split; [done|]. split; [|done]. unfold expected_capture_ok. cbn. split_and!; done || lia.
Qed.

Lemma write_expected_fault x s :
  expected_fault_ok x -> fault_id (xf_definition x) ∉ s.1 ->
  read_expected_fault c (expected_fault_node c x) s
  = Ok ({[fault_id (xf_definition x)]} ∪ s.1, s.2 ++ [x]).
Proof.
  intros (Hid & Hat & Hi & Hd & Hj & Hl & Hr & Hdu & Hsome) Hfresh.
  unfold read_expected_fault, expected_fault_node. do 8 read_field.
  rewrite bool_decide_eq_false_2, Hsome by done.
  replace (duration_seconds _ =? 0) with false by lia. by destruct x as [[]].
Qed.

Lemma expected_fault_read v s s' :
  read_expected_fault c v s = Ok s' ->
  exists x, s' = ({[fault_id (xf_definition x)]} ∪ s.1, s.2 ++ [x]) /\ expected_fault_ok x
            /\ fault_id (xf_definition x) ∉ s.1.
Proof.
  unfold read_expected_fault. intros H.
  apply bind_ok in H as (id & Hid%required_ok & H). apply bind_ok in H as (at_ & Hat%required_ok & H).
  apply bind_ok in H as (i & Hi%required_ok & H).
  apply bind_ok in H as (d & Hd%(unsigned_ok c) & H); [|lia].
  apply bind_ok in H as (j & Hj%(unsigned_ok c) & H); [|lia].
  apply bind_ok in H as (l & Hl%(double_ok c) & H); [|done].
  apply bind_ok in H as (r & Hr%(unsigned_ok c) & H); [|lia].
  apply bind_ok in H as (du & Hdu%(unsigned_ok c) & H); [|lia].
  apply bind_ok in H as ([] & Hok%state_check_ok & [= <-]).
  apply orb_false_iff in Hok as [Hok Hsome]. reflect_bools. rewrite bool_decide_eq_false in *.
  eexists {| xf_definition := {| fault_id := id |}; xf_interface := i |}.
  split; [done|]. split; [|done]. unfold expected_fault_ok. cbn. split_and!; done || lia.
Qed.

Lemma write_bridge_name name s :
  filled name -> name ∉ s.1 ->
  read_bridge_name c (Scalar name) s = Ok ({[name]} ∪ s.1, s.2 ++ [name]).
Proof.
  intros Hn Hfresh. unfold read_bridge_name, convert. rewrite as_string_scalar. cbn [bind].
  by rewrite Hn, bool_decide_eq_false_2.
Qed.

Lemma bridge_name_read v s s' :
  read_bridge_name c v s = Ok s' ->
  exists x, s' = ({[x]} ∪ s.1, s.2 ++ [x]) /\ filled x /\ x ∉ s.1.
Proof.
  unfold read_bridge_name. intros H. apply bind_ok in H as (name & _ & H).
  apply bind_ok in H as ([] & Hok%state_check_ok & [= <-]). reflect_bools.
  rewrite bool_decide_eq_false in *. by exists name.
Qed.

Lemma one_of_elem name l : one_of name l = true <-> name ∈ l.
Proof.
  unfold one_of. rewrite existsb_exists, list_elem_of_In. split.
  - by intros (x & Hx & ->%String.eqb_eq).
  - intros H. exists name. by rewrite String.eqb_refl.
Qed.

Lemma one_of_not_elem name l : one_of name l = false <-> name ∉ l.
Proof. rewrite <-one_of_elem. by destruct (one_of name l). Qed.

Lemma write_namespace_names l :
  Forall (fun s => filled s) l -> NoDup l ->
  fold_result (read_namespace_name c) (map Scalar l) [] = Ok l.
Proof.
  intros Hf Hnd.
  enough (Hg : forall l' acc, Forall (fun s => filled s) l' -> NoDup (acc ++ l') ->
               fold_result (read_namespace_name c) (map Scalar l') acc = Ok (acc ++ l'))
    by by apply (Hg l []).
  clear -laws. induction l' as [|x l' IH]; intros acc Hf Hnd; [by rewrite app_nil_r|].
  inversion Hf; subst. cbn [map fold_result]. unfold read_namespace_name at 1, convert.
  rewrite as_string_scalar. cbn [bind]. assert (Hx : x ∉ acc).
  { apply NoDup_app in Hnd as (_ & Hd & _). intros Hin. apply (Hd x Hin). by left. }
  rewrite H1, (proj2 (one_of_not_elem x acc) Hx). cbn [orb fail_if throw_if bind].
  rewrite IH; [by rewrite <-app_assoc|done|by rewrite <-app_assoc].
Qed.

Lemma namespace_names_read items l :
  fold_result (read_namespace_name c) items [] = Ok l -> Forall (fun s => filled s) l /\ NoDup l.
Proof.
  apply (fold_result_invariant (fun l => Forall (fun s => filled s) l /\ NoDup l)).
  - intros v s s' _ [Hf Hnd] H. unfold read_namespace_name in H. apply bind_ok in H as (name & _ & H).
    apply bind_ok in H as ([] & Hok%state_check_ok & [= <-]). reflect_bools.
    rewrite one_of_not_elem in *. split.
    + apply Forall_app. by repeat constructor.
    + apply NoDup_app. split; [done|]. split; [|by apply NoDup_singleton].
      by intros x Hx ->%list_elem_of_singleton.
  - by repeat constructor.
Qed.

(** A map of texts whose keys and values have been checked *)
Definition texts_ok (key_ok value_ok : string -> bool) (m : gmap string string) : Prop :=
  map_Forall (fun k v => key_ok k = true /\ value_ok v = true) m
  /\ Z.of_nat (base.size m) <= 4096.

Lemma sorted_pairs_perm m : sorted_pairs m ≡ₚ map_to_list m.
Proof. apply merge_sort_Permutation. Qed.

Lemma sorted_pairs_map m : list_to_map (sorted_pairs m) = m.
Proof.
  rewrite <-(list_to_map_to_list m) at 2. apply list_to_map_proper.
  - rewrite sorted_pairs_perm. apply NoDup_fst_map_to_list.
  - apply sorted_pairs_perm.
Qed.

Lemma write_pairs key_ok value_ok text l :
  NoDup l.*1 -> Forall (fun p => key_ok p.1 = true /\ value_ok p.2 = true) l ->
  fold_result (read_pair c key_ok value_ok text) (text_pairs l) ∅ = Ok (list_to_map l).
Proof.
  intros Hnd Hf.
  enough (Hg : forall l m, NoDup l.*1 -> Forall (fun p => key_ok p.1 = true /\ value_ok p.2 = true) l ->
               (forall k, k ∈ l.*1 -> m !! k = None) ->
               fold_result (read_pair c key_ok value_ok text) (text_pairs l) m
               = Ok (list_to_map l ∪ m)).
  { rewrite Hg by done. by rewrite (right_id ∅ (∪)). }
  clear -laws. induction l as [|[k v] l IH]; intros m Hnd Hf Hm; [by rewrite list_to_map_nil, (left_id ∅ (∪))|].
  inversion Hf as [|? ? [Hk Hv] Hf']; subst. rewrite fmap_cons in *.
  apply NoDup_cons in Hnd as [Hfresh Hnd].
  cbn [text_pairs map fold_result fst snd] in *. unfold read_pair at 1, convert.
  cbn [fst snd]. rewrite !as_string_scalar. cbn [bind]. rewrite Hk, Hv, (Hm k) by by left.
  rewrite bool_decide_eq_false_2 by apply is_Some_None. cbn [negb orb fail_if throw_if bind].
  fold (text_pairs l). rewrite IH; [|done|done|].
  - rewrite list_to_map_cons, <-insert_union_l, insert_union_r; [done|].
    by apply not_elem_of_list_to_map.
  - intros i Hi. rewrite lookup_insert_ne by (intros ->; done). apply Hm. by right.
Qed.

Lemma write_map key_ok value_ok l key inventory text m :
  find_assignment key l
    = once (map_field key (sorted_pairs m)).2 ->
  texts_ok key_ok value_ok m ->
  read_map c (make_map l) key inventory text key_ok value_ok = Ok m.
Proof.
  intros H [Hok Hsize]. unfold read_map. rewrite get_make, H.
  assert (Hlen : length (sorted_pairs m) = base.size m)
    by by rewrite sorted_pairs_perm, length_map_to_list.
  destruct (sorted_pairs m) as [|p ps] eqn:E.
  - cbn. f_equal. by rewrite <-(sorted_pairs_map m), E.
  - cbn -[Z.of_nat length text_pairs fold_result].
    replace (4096 <? _) with false
      by (symmetry; apply Z.ltb_ge; unfold text_pairs; rewrite length_map, Hlen; done).
    rewrite fail_if_false, <-E, write_pairs.
    + by rewrite sorted_pairs_map.
    + rewrite sorted_pairs_perm. apply NoDup_fst_map_to_list.
    + rewrite sorted_pairs_perm. apply map_Forall_to_list in Hok.
      eapply Forall_impl; [exact Hok|]. by intros [].
Qed.

Lemma map_read key_ok value_ok v key inventory text m :
  read_map c v key inventory text key_ok value_ok = Ok m -> texts_ok key_ok value_ok m.
Proof.
  unfold read_map. intros H. apply bind_ok in H as (w & _ & H).
  destruct (negb (defined w)); [injection H as <-; split; [apply map_Forall_empty|by rewrite map_size_empty]|].
  apply bind_ok in H as ([] & Hok%state_check_ok & H). reflect_bools. destruct w; try done.
  cbn [pairs_of node_size] in *.
  assert (Hg : map_Forall (fun k v => key_ok k = true /\ value_ok v = true) m
               /\ (base.size m <= length pairs)%nat).
  { revert H. apply (fold_result_prefix (fun pre m =>
      map_Forall (fun k v => key_ok k = true /\ value_ok v = true) m /\ (base.size m <= length pre)%nat)).
    - by split; [apply map_Forall_empty|rewrite map_size_empty].
    - intros pre p m1 m2 _ [Hf Hs] H. unfold read_pair in H. apply bind_ok in H as (k & _ & H).
      apply bind_ok in H as (x & _ & H). apply bind_ok in H as ([] & Hok%state_check_ok & [= <-]).
      reflect_bools. rewrite bool_decide_eq_false in *. split.
      + by apply map_Forall_insert_2.
      + rewrite map_size_insert_None by (by apply eq_None_not_Some). rewrite length_app. cbn. lia. }
  destruct Hg. split; [done|]. lia.
Qed.

(** ** Expected endpoints *)

Context (inet_pton : string -> option Z).

Definition policy_ok (policy : string) : Prop :=
  policy = "" \/ (size policy = 64 /\ hexadecimal policy = true).

Definition vlan_ok (v : VlanMetadata) : Prop :=
  (forall tag, access_tag v = Some tag -> 0 <= tag < 2 ^ 16)
  /\ Forall (fun tag => 0 <= tag < 2 ^ 16) (trunks v).

Definition route_ok (r : RouteDefinition) : Prop := filled (destination r) /\ device r = "".

Definition expected_endpoint_ok (e : ExpectedEndpoint) : Prop :=
  filled (e_id e) /\ filled (e_owner e) /\ filled (e_host_interface e)
  /\ filled (e_target_interface e) /\ filled (e_network_switch e) /\ e_kind e <> external
  /\ policy_ok (e_management_policy e)
  /\ (Forall (fun a => alias_ok inet_pton a = true) (e_aliases e) /\ NoDup (e_aliases e)
      /\ (length (e_aliases e) <= 64)%nat)
  /\ in_u32 (e_mtu e) /\ in_u64 (e_namespace_inode e) /\ in_u32 (e_tap_uid e)
  /\ in_u32 (e_tap_gid e) /\ vlan_ok (e_vlan e) /\ Forall route_ok (e_routes e)
  /\ endpoint_invalid e ∅ = false.

Lemma endpoint_valid e ids :
  endpoint_invalid e ids = false <-> endpoint_invalid e ∅ = false /\ e_id e ∉ ids.
Proof.
  unfold endpoint_invalid. rewrite (bool_decide_eq_false_2 (e_id e ∈ ∅)) by set_solver.
  rewrite !orb_false_iff, bool_decide_eq_false. tauto.
Qed.

Lemma write_kind l k :
  find_assignment "kind" l = Some (Scalar (kind_to_string k)) -> k <> external ->
  read_endpoint_kind c (make_map l) = Ok k.
Proof.
  intros H Hk. unfold read_endpoint_kind. rewrite get_make, H. cbn [default bind defined negb from_option id].
  unfold convert. rewrite as_string_scalar. by destruct k.
Qed.

Lemma write_policy l policy :
  find_assignment "management_policy" l
    = once (if negb (is_empty policy) then Some (Scalar policy) else None) ->
  policy_ok policy -> read_management_policy c (make_map l) = Ok policy.
Proof.
  intros H Hp. unfold read_management_policy. rewrite get_make, H.
  destruct (is_empty policy) eqn:E; [by apply String.eqb_eq in E as ->|].
  destruct Hp as [->|[Hs Hh]]; [done|]. cbn. rewrite as_string_scalar. cbn. by rewrite Hs, Hh.
Qed.

Lemma write_aliases l aliases :
  find_assignment "aliases" l
    = once (sequence_field "aliases" (map Scalar aliases)).2 ->
  Forall (fun a => alias_ok inet_pton a = true) aliases -> NoDup aliases ->
  (length aliases <= 64)%nat ->
  read_aliases c inet_pton (make_map l) = Ok aliases.
Proof.
  intros H Hok Hnd Hlen. unfold read_aliases.
  rewrite (inventory_make _ _ _ _ Scalar aliases) by (done || lia).
  destruct (fold_seen_write (read_alias c inet_pton) Scalar id (fun a => alias_ok inet_pton a = true)
              aliases) as (ids & ->); [|done|by rewrite map_id|done].
  intros a s Ha Hfresh. unfold read_alias, convert. rewrite as_string_scalar. cbn [bind].
  by rewrite Ha, bool_decide_eq_false_2.
Qed.

Lemma write_vlan l v :
  find_assignment "access_tag" l = once (option_map (number c) (access_tag v)) ->
  find_assignment "trunks" l
    = once (sequence_field "trunks" (map (number c) (trunks v))).2 ->
  vlan_ok v -> read_vlan c (make_map l) = Ok v.
Proof.
  intros Ht Htr [Htag Htrunks]. unfold read_vlan. rewrite get_make, Ht.
  rewrite (each_make _ _ (number c) (trunks v)) by done.
  assert (Hloop : forall l acc, Forall (fun tag => 0 <= tag < 2 ^ 16) l ->
    fold_result (fun trunk l => let* tag := convert trunk (as_unsigned c 16) in Ok (l ++ [tag]))
      (map (number c) l) acc = Ok (acc ++ l)).
  { clear -laws. induction l as [|x l IH]; intros acc Hl; [by rewrite app_nil_r|].
    inversion Hl; subst. cbn [map fold_result]. rewrite convert_number by done.
    cbn [bind]. rewrite IH by done. by rewrite <-app_assoc. }
  rewrite Hloop by done. destruct v as [[tag|] trunks]; [|done]. unfold number. cbn.
  rewrite (as_unsigned_show 16 tag) by by apply Htag. done.
Qed.

Lemma write_routes l routes :
  find_assignment "routes" l
    = once (sequence_field "routes" (map (route_node c) routes)).2 ->
  Forall route_ok routes -> read_each (make_map l) "routes" (read_route c) [] = Ok routes.
Proof.
  intros H Hok. rewrite (each_make _ _ (route_node c) routes) by done.
  enough (Hg : forall l acc, Forall route_ok l ->
            fold_result (read_route c) (map (route_node c) l) acc = Ok (acc ++ l)) by by apply Hg.
  clear -laws. induction l as [|x l IH]; intros acc Hl; [by rewrite app_nil_r|].
  inversion Hl as [|? ? [Hd Hv] Hl']; subst. cbn [map fold_result]. unfold read_route at 1, route_node at 1 2 3.
  do 3 read_field. rewrite IH by done. rewrite <-app_assoc. destruct x. cbn in *. by subst.
Qed.

Lemma write_endpoint_fields e :
  expected_endpoint_ok e ->
  read_endpoint_fields c inet_pton (expected_endpoint_node c e) = Ok (with_routes [] e).
Proof.
  intros (Hid & Ho & Hh & Ht & Hs & Hk & Hp & (Ha & Hand & Halen) & Hm & Hi & Hu & Hg & Hv & _ & _).
  unfold read_endpoint_fields, expected_endpoint_node. read_field.
  erewrite write_kind by (reflexivity || assumption). cbn [bind]. do 5 read_field.
  erewrite write_policy by (reflexivity || assumption). cbn [bind].
  rewrite (write_aliases _ (e_aliases e)) by (reflexivity || assumption). cbn [bind]. do 2 read_field.
  replace (bool_or _ _ _ _) with (Ok (e_mirror_container e)).
  2: { unfold bool_or. rewrite get_make. cbn. by destruct (e_mirror_container e); cbn; rewrite ?as_bool_show. }
  cbn [bind]. do 3 read_field.
  do 2 (erewrite (unsigned_make_if c);
    [cbn [bind]|reflexivity|unfold in_u32 in *; lia|by intros Hz%negb_false_iff%Z.eqb_eq]).
  erewrite write_vlan by (reflexivity || assumption). done.
Qed.

Lemma write_expected_endpoint e s :
  expected_endpoint_ok e -> e_id e ∉ s.1 ->
  read_expected_endpoint c inet_pton (expected_endpoint_node c e) s
  = Ok ({[e_id e]} ∪ s.1, s.2 ++ [e]).
Proof.
  intros Hok Hfresh. unfold read_expected_endpoint. rewrite write_endpoint_fields by done. cbn [bind].
  replace (endpoint_invalid _ _) with false.
  2: { symmetry. apply (endpoint_valid e). split; [apply Hok|done]. }
  rewrite fail_if_false. unfold expected_endpoint_node at 1.
  rewrite (write_routes _ (e_routes e)); [|done|apply Hok]. cbn [bind]. by destruct e.
Qed.

Lemma kind_read v k : read_endpoint_kind c v = Ok k -> k <> external.
Proof.
  unfold read_endpoint_kind. intros H. apply bind_ok in H as (w & _ & H).
  destruct (negb (defined w)); [by injection H as <-|]. apply bind_ok in H as (t & _ & H).
  repeat (case_match; [by injection H as <-|]). done.
Qed.

Lemma policy_read v policy : read_management_policy c v = Ok policy -> policy_ok policy.
Proof.
  unfold read_management_policy. intros H. apply bind_ok in H as (w & _ & H).
  destruct (negb (defined w)); [injection H as <-; by left|]. apply bind_ok in H as (t & _ & H).
  apply bind_ok in H as ([] & Hok%state_check_ok & [= <-]). reflect_bools. by right.
Qed.

Lemma aliases_read v aliases :
  read_aliases c inet_pton v = Ok aliases ->
  Forall (fun a => alias_ok inet_pton a = true) aliases /\ NoDup aliases
  /\ (length aliases <= 64)%nat.
Proof.
  intros (items & s & Hb & H & <-)%inventory_ok; [|done].
  apply (fold_seen_read _ id (fun a => alias_ok inet_pton a = true)) in H as (Hok & Hnd & Hl).
  - rewrite map_id in Hnd. split_and!; [done|done|lia].
  - intros w s1 s2 Hr. unfold read_alias in Hr. apply bind_ok in Hr as (a & _ & Hr).
    apply bind_ok in Hr as ([] & Ha%state_check_ok & [= <-]). reflect_bools.
    rewrite bool_decide_eq_false in *. by exists a.
Qed.

Lemma tag_read w tag : convert w (as_unsigned c 16) = Ok tag -> 0 <= tag < 2 ^ 16.
Proof.
  unfold convert. destruct w; try done; intros H;
    (destruct (as_unsigned c 16 _) eqn:E; [injection H as <-; by eapply as_unsigned_range|done]).
Qed.

Lemma vlan_read v x : read_vlan c v = Ok x -> vlan_ok x.
Proof.
  unfold read_vlan. intros H. apply bind_ok in H as (w & _ & H). apply bind_ok in H as (tag & Ht & H).
  apply bind_ok in H as (trunks & (items & Htr)%each_ok & [= <-]). split; cbn.
  - intros t ->. destruct (negb (defined w)); [done|]. apply bind_ok in Ht as (t' & Ht' & [= <-]).
    by apply tag_read in Ht'.
  - revert Htr. apply (fold_result_invariant (Forall (fun tag => 0 <= tag < 2 ^ 16))); [|constructor].
    intros n l l' _ Hl Hn. apply bind_ok in Hn as (t & Htag%tag_read & [= <-]).
    apply Forall_app. split; [done|]. by apply Forall_singleton.
Qed.

Lemma routes_read v routes : read_each v "routes" (read_route c) [] = Ok routes -> Forall route_ok routes.
Proof.
  intros (items & H)%each_ok. revert H. apply (fold_result_invariant (Forall route_ok)); [|constructor].
  intros n l l' _ Hl H. unfold read_route in H. apply bind_ok in H as (d & Hd%required_ok & H).
  apply bind_ok in H as (via & _ & H). apply bind_ok in H as (install & _ & [= <-]).
  apply Forall_app. by repeat constructor.
Qed.

Lemma expected_endpoint_read v s s' :
  read_expected_endpoint c inet_pton v s = Ok s' ->
  exists e, s' = ({[e_id e]} ∪ s.1, s.2 ++ [e]) /\ expected_endpoint_ok e /\ e_id e ∉ s.1.
Proof.
  unfold read_expected_endpoint. intros H. apply bind_ok in H as (e & He & H).
  apply bind_ok in H as ([] & [Hvalid Hfresh]%state_check_ok%endpoint_valid & H).
  apply bind_ok in H as (routes & Hr%routes_read & [= <-]).
  exists (with_routes routes e). split; [done|]. split; [|done].
  unfold read_endpoint_fields in He. apply bind_ok in He as (id & Hid%required_ok & He).
  apply bind_ok in He as (k & Hk%kind_read & He). apply bind_ok in He as (o & Ho%required_ok & He).
  apply bind_ok in He as (h & Hh%required_ok & He). apply bind_ok in He as (t & Ht%required_ok & He).
  apply bind_ok in He as (sw & Hs%required_ok & He). apply bind_ok in He as (a & _ & He).
  apply bind_ok in He as (p & Hp%policy_read & He). apply bind_ok in He as (al & Hal%aliases_read & He).
  apply bind_ok in He as (mac & _ & He). apply bind_ok in He as (mtu & Hm%(unsigned_ok c) & He); [|lia].
  apply bind_ok in He as (mi & _ & He). apply bind_ok in He as (ci & _ & He).
  apply bind_ok in He as (nn & _ & He). apply bind_ok in He as (i & Hi%(unsigned_ok c) & He); [|lia].
  apply bind_ok in He as (u & Hu%(unsigned_ok c) & He); [|lia].
  apply bind_ok in He as (g & Hg%(unsigned_ok c) & He); [|lia].
  apply bind_ok in He as (vl & Hv%vlan_read & [= <-]).
  unfold expected_endpoint_ok. cbn. split_and!; first [done|apply Hal].
Qed.

(** ** Owned resources *)

Section Owned.
Context (xbridges xnamespaces : list string) (xcaptures : list ExpectedCapture)
  (xfaults : list ExpectedFault) (xendpoints : list ExpectedEndpoint).

Definition owned_capture_ok (x : OwnedCapture) : Prop :=
  filled (c_id x) /\ filled (c_attachment_id x) /\ filled (c_interface x)
  /\ filled (c_session_directory x) /\ filled (c_process_start_time x)
  /\ in_u32 (c_ifindex x) /\ in_u64 (c_directory_device x) /\ in_u64 (c_directory_inode x)
  /\ in_u32 (c_directory_uid x) /\ in_u32 (c_directory_gid x) /\ in_u32 (c_directory_mode x)
  /\ in_u32 (c_pid x) /\ in_u64 (c_snapshot_inode x) /\ in_u64 (c_snapshot_pending_inode x)
  /\ owned_capture_invalid xcaptures x = false.

Definition owned_fault_ok (x : OwnedFault) : Prop :=
  filled (f_id x) /\ filled (f_attachment_id x) /\ filled (f_interface x)
  /\ filled (f_qdisc_identity x) /\ filled (f_timer_start_time x) /\ filled (f_boot_id x)
  /\ in_u32 (f_ifindex x) /\ in_u32 (f_timer_pid x) /\ in_u64 (f_applied_monotonic_ns x)
  /\ in_u64 (f_expires_monotonic_ns x) /\ owned_fault_invalid xfaults x = false.

Definition owned_endpoint_ok (x : OwnedResourceIdentity) : Prop :=
  exists ifindex peer inode,
    x = endpoint_identity (r_kind x) (r_attachment_id x) (r_name x) (r_target_interface x)
          (r_stable_id x) (r_secondary_id x) ifindex peer inode (r_container_id x)
          (r_tap_owner x) (r_route_identity x)
    /\ in_u32 ifindex /\ in_u32 peer /\ in_u64 inode
    /\ filled (r_attachment_id x) /\ filled (r_name x) /\ filled (r_target_interface x)
    /\ filled (r_stable_id x) /\ filled (r_secondary_id x)
    /\ one_of (r_kind x) endpoint_kinds = true
    /\ owned_endpoint_invalid xendpoints x = false /\ endpoint_mismatch xendpoints x = false.

Definition owned_namespace_ok (x : OwnedResourceIdentity) : Prop :=
  exists inode, x = namespace_identity (r_name x) inode (r_rule_identity x)
    /\ 0 < inode < 2 ^ 64 /\ filled (r_name x) /\ r_name x ∈ xnamespaces
    /\ policy_ok (r_rule_identity x).

Definition owned_bridge_ok (x : OwnedResourceIdentity) : Prop :=
  x = bridge_identity (r_name x) (r_stable_id x) (r_secondary_id x)
  /\ filled (r_name x) /\ r_name x ∈ xbridges /\ size (r_stable_id x) = 36
  /\ (r_secondary_id x = "" \/ size (r_secondary_id x) = 36).

Abbreviation read_owned := (read_resource c xbridges xnamespaces xcaptures xfaults xendpoints).

Lemma write_capture x :
  owned_capture_ok x -> read_capture c xcaptures (capture_node c x) = Ok x.
Proof.
  intros (Hid & Ha & Hi & Hd & Hp & Hif & Hdd & Hdi & Hu & Hg & Hm & Hpid & Hs & Hsp & Hok).
  unfold read_capture, capture_node. do 14 read_field. destruct x. cbn in *. by rewrite Hok.
Qed.

Lemma write_fault x : owned_fault_ok x -> read_fault c xfaults (fault_node c x) = Ok x.
Proof.
  intros (Hid & Ha & Hi & Hq & Ht & Hb & Hif & Htp & Hap & Hex & Hok).
  unfold read_fault, fault_node. do 10 read_field. destruct x. cbn in *. by rewrite Hok.
Qed.

Lemma write_endpoint x :
  owned_endpoint_ok x -> read_endpoint c xendpoints (r_kind x) (endpoint_node c x) = Ok x.
Proof.
  intros (i & p & n & Hx & Hi & Hp & Hn & Ha & Hna & Ht & Hst & Hse & Hk & Hinv & Hmis).
  assert (Hix : r_ifindex x = Some i) by by rewrite Hx.
  assert (Hpx : r_peer_ifindex x = Some p) by by rewrite Hx.
  assert (Hnx : r_namespace_inode x = Some n) by by rewrite Hx.
  unfold read_endpoint, endpoint_node, index_of. rewrite Hix, Hpx, Hnx. cbn [default from_option id]. do 11 read_field.
  rewrite <-Hx, Hinv, Hmis. done.
Qed.

Lemma write_namespace x owned :
  owned_namespace_ok x -> r_name x ∉ map r_name owned ->
  read_namespace c xnamespaces (namespace_node c x) owned = Ok x.
Proof.
  intros (n & Hx & Hn & Hname & Hin & Hp) Hfresh.
  assert (Hnx : r_namespace_inode x = Some n) by by rewrite Hx.
  unfold read_namespace, namespace_node, index_of. rewrite Hnx. cbn [default from_option id]. do 2 read_field.
  rewrite (proj2 (one_of_elem _ _) Hin), (proj2 (one_of_not_elem _ _) Hfresh).
  replace (n =? 0) with false by lia. cbn [orb negb]. rewrite fail_if_false, get_make. cbn.
  destruct (is_empty (r_rule_identity x)) eqn:E.
  - apply String.eqb_eq in E. rewrite E in Hx. cbn. by rewrite <-Hx.
  - destruct Hp as [Hp|[Hs Hh]]; [by rewrite Hp in E|]. cbn. rewrite as_string_scalar. cbn.
    rewrite Hs, Hh. cbn. by rewrite <-Hx.
Qed.

Lemma write_bridge x recorded :
  owned_bridge_ok x -> r_name x ∉ recorded ->
  read_bridge c xbridges (bridge_node x) recorded = Ok x.
Proof.
  intros (Hx & Hname & Hin & Hu & Hs) Hfresh.
  assert (Hst : filled (r_stable_id x)) by by destruct (r_stable_id x).
  unfold read_bridge, bridge_node. do 3 read_field.
  rewrite (proj2 (one_of_elem _ _) Hin), bool_decide_eq_false_2, Hu by done.
  replace (_ && _) with false; [by rewrite <-Hx|].
  destruct Hs as [->| ->]; [done|]. by rewrite andb_false_r.
Qed.

Definition owned_ok (r : Resources) : Prop :=
  Forall owned_bridge_ok (res_bridges r) /\ NoDup (map r_name (res_bridges r))
  /\ Forall owned_endpoint_ok (res_endpoints r)
  /\ Forall owned_namespace_ok (res_namespaces r) /\ NoDup (map r_name (res_namespaces r))
  /\ Forall owned_capture_ok (res_captures r) /\ Forall owned_fault_ok (res_faults r).

Lemma resource_bridge x s :
  owned_bridge_ok x -> r_name x ∉ res_recorded s ->
  read_owned (bridge_node x) s
  = Ok {| res_recorded := {[r_name x]} ∪ res_recorded s; res_bridges := res_bridges s ++ [x];
          res_endpoints := res_endpoints s; res_namespaces := res_namespaces s;
          res_captures := res_captures s; res_faults := res_faults s |}.
Proof.
  intros Hok Hfresh. assert (Hk : r_kind x = "ovs_bridge") by (destruct Hok as [-> _]; done).
  assert (Hkind : required_scalar (bridge_node x) "kind" = Ok "ovs_bridge")
    by (apply required_make; [cbn; by rewrite Hk|done]).
  unfold read_resource. rewrite Hkind. cbn -[read_bridge]. by rewrite write_bridge.
Qed.

Lemma resource_endpoint x s :
  owned_endpoint_ok x ->
  read_owned (endpoint_node c x) s
  = Ok {| res_recorded := res_recorded s; res_bridges := res_bridges s;
          res_endpoints := res_endpoints s ++ [x]; res_namespaces := res_namespaces s;
          res_captures := res_captures s; res_faults := res_faults s |}.
Proof.
  intros Hok. assert (Hk : one_of (r_kind x) endpoint_kinds = true).
  { by destruct Hok as (? & ? & ? & _ & _ & _ & _ & _ & _ & _ & _ & _ & Hk & _). }
  assert (Hkind : required_scalar (endpoint_node c x) "kind" = Ok (r_kind x))
    by (apply required_make; [done|by eapply one_of_filled]).
  unfold read_resource. rewrite Hkind. cbn [bind]. rewrite Hk, write_endpoint by done.
  apply one_of_elem in Hk. unfold endpoint_kinds in Hk.
  repeat (apply elem_of_cons in Hk as [->|Hk]; [done|]). by apply elem_of_nil in Hk.
Qed.

Lemma resource_namespace x s :
  owned_namespace_ok x -> r_name x ∉ map r_name (res_namespaces s) ->
  read_owned (namespace_node c x) s
  = Ok {| res_recorded := res_recorded s; res_bridges := res_bridges s;
          res_endpoints := res_endpoints s; res_namespaces := res_namespaces s ++ [x];
          res_captures := res_captures s; res_faults := res_faults s |}.
Proof.
  intros Hok Hfresh.
  assert (Hk : r_kind x = "linux_namespace") by (destruct Hok as (? & -> & _); done).
  assert (Hkind : required_scalar (namespace_node c x) "kind" = Ok "linux_namespace")
    by (apply required_make; [cbn; by rewrite Hk|done]).
  unfold read_resource. rewrite Hkind. cbn -[read_namespace]. rewrite write_namespace by done. done.
Qed.

Lemma resource_capture x s :
  owned_capture_ok x ->
  read_owned (capture_node c x) s
  = Ok {| res_recorded := res_recorded s; res_bridges := res_bridges s;
          res_endpoints := res_endpoints s; res_namespaces := res_namespaces s;
          res_captures := res_captures s ++ [x]; res_faults := res_faults s |}.
Proof.
  intros Hok. unfold read_resource.
  replace (required_scalar (capture_node c x) "kind") with (Ok "network_capture")
    by (symmetry; by apply required_make).
  cbn -[read_capture]. rewrite write_capture by done. done.
Qed.

Lemma resource_fault x s :
  owned_fault_ok x ->
  read_owned (fault_node c x) s
  = Ok {| res_recorded := res_recorded s; res_bridges := res_bridges s;
          res_endpoints := res_endpoints s; res_namespaces := res_namespaces s;
          res_captures := res_captures s; res_faults := res_faults s ++ [x] |}.
Proof.
  intros Hok. unfold read_resource.
  replace (required_scalar (fault_node c x) "kind") with (Ok "netem_fault")
    by (symmetry; by apply required_make).
  cbn -[read_fault]. rewrite write_fault by done. done.
Qed.

(** The names of a prefix differ from the next name. *)
Lemma fresh_name {X} (name : X -> string) l pre x post :
  NoDup (map name l) -> l = pre ++ x :: post -> name x ∉ map name pre.
Proof.
  intros Hnd ->. rewrite map_app in Hnd. apply NoDup_app in Hnd as (_ & Hd & _).
  intros Hin. apply (Hd _ Hin). by left.
Qed.

Lemma write_resources bs es ns cs fs :
  owned_ok {| res_recorded := ∅; res_bridges := bs; res_endpoints := es; res_namespaces := ns;
              res_captures := cs; res_faults := fs |} ->
  fold_result read_owned
    (map bridge_node bs ++ map (endpoint_node c) es ++ map (namespace_node c) ns
     ++ map (capture_node c) cs ++ map (fault_node c) fs)
    {| res_recorded := ∅; res_bridges := []; res_endpoints := []; res_namespaces := [];
       res_captures := []; res_faults := [] |}
  = Ok {| res_recorded := list_to_set (map r_name bs); res_bridges := bs; res_endpoints := es;
          res_namespaces := ns; res_captures := cs; res_faults := fs |}.
Proof.
  intros (Hb & Hbn & He & Hn & Hnn & Hc & Hf). cbn in *.
  rewrite Forall_forall in Hb, He, Hn. rewrite Forall_forall in Hc. rewrite Forall_forall in Hf.
  assert (Hin : forall {X} (l : list X) pre x post, l = pre ++ x :: post -> x ∈ l).
  { intros X l pre x post ->. set_solver. }
  rewrite fold_result_app. pose proof (fold_grow read_owned bridge_node (fun l => {|
    res_recorded := list_to_set (map r_name l); res_bridges := l; res_endpoints := [];
    res_namespaces := []; res_captures := []; res_faults := [] |}) bs) as Hbs.
  cbv beta in Hbs. change (list_to_set (map r_name [])) with (∅ : gset string) in Hbs.
  rewrite Hbs; clear Hbs.
  2: { intros pre x post Hl. rewrite resource_bridge; [|by eapply Hb, Hin|].
       - cbn. do 2 f_equal. rewrite map_app. set_solver.
       - cbn. rewrite elem_of_list_to_set. exact (fresh_name _ _ _ _ _ Hbn Hl). }
  cbn [bind]. rewrite fold_result_app, (fold_grow _ (endpoint_node c) (fun l => {|
    res_recorded := list_to_set (map r_name bs); res_bridges := bs; res_endpoints := l;
    res_namespaces := []; res_captures := []; res_faults := [] |})).
  2: { intros pre x post Hl. by rewrite resource_endpoint by by eapply He, Hin. }
  cbn [bind]. rewrite fold_result_app, (fold_grow _ (namespace_node c) (fun l => {|
    res_recorded := list_to_set (map r_name bs); res_bridges := bs; res_endpoints := es;
    res_namespaces := l; res_captures := []; res_faults := [] |})).
  2: { intros pre x post Hl. rewrite resource_namespace; [done|by eapply Hn, Hin|exact (fresh_name _ _ _ _ _ Hnn Hl)]. }
  cbn [bind]. rewrite fold_result_app, (fold_grow _ (capture_node c) (fun l => {|
    res_recorded := list_to_set (map r_name bs); res_bridges := bs; res_endpoints := es;
    res_namespaces := ns; res_captures := l; res_faults := [] |})).
  2: { intros pre x post Hl. by rewrite resource_capture by by eapply Hc, Hin. }
  cbn [bind]. rewrite (fold_grow _ (fault_node c) (fun l => {|
    res_recorded := list_to_set (map r_name bs); res_bridges := bs; res_endpoints := es;
    res_namespaces := ns; res_captures := cs; res_faults := l |})); [done|].
  intros pre x post Hl. by rewrite resource_fault by by eapply Hf, Hin.
Qed.

Lemma capture_read v x : read_capture c xcaptures v = Ok x -> owned_capture_ok x.
Proof.
  unfold read_capture. intros H. do 4 (apply bind_ok in H as (? & ?%required_ok & H)).
  do 7 (apply bind_ok in H as (? & ?%(unsigned_ok c) & H); [|lia]).
  apply bind_ok in H as (? & ?%required_ok & H).
  do 2 (apply bind_ok in H as (? & ?%(unsigned_ok c) & H); [|lia]).
  apply bind_ok in H as ([] & Hok%state_check_ok & [= <-]). unfold owned_capture_ok. by split_and!.
Qed.

Lemma fault_read v x : read_fault c xfaults v = Ok x -> owned_fault_ok x.
Proof.
  unfold read_fault. intros H. do 3 (apply bind_ok in H as (? & ?%required_ok & H)).
  apply bind_ok in H as (? & ?%(unsigned_ok c) & H); [|lia].
  apply bind_ok in H as (? & ?%required_ok & H).
  apply bind_ok in H as (? & ?%(unsigned_ok c) & H); [|lia].
  do 2 (apply bind_ok in H as (? & ?%required_ok & H)).
  do 2 (apply bind_ok in H as (? & ?%(unsigned_ok c) & H); [|lia]).
  apply bind_ok in H as ([] & Hok%state_check_ok & [= <-]). unfold owned_fault_ok. by split_and!.
Qed.

Lemma endpoint_read kind v x :
  one_of kind endpoint_kinds = true -> read_endpoint c xendpoints kind v = Ok x ->
  owned_endpoint_ok x.
Proof.
  intros Hk. unfold read_endpoint. intros H. do 5 (apply bind_ok in H as (? & ?%required_ok & H)).
  apply bind_ok in H as (i & ?%(unsigned_ok c) & H); [|lia].
  apply bind_ok in H as (p & ?%(unsigned_ok c) & H); [|lia].
  apply bind_ok in H as (n & ?%(unsigned_ok c) & H); [|lia].
  do 3 (apply bind_ok in H as (? & _ & H)). apply bind_ok in H as ([] & ?%state_check_ok & H).
  apply bind_ok in H as ([] & ?%state_check_ok & [= <-]). exists i, p, n. by split_and!.
Qed.

Lemma namespace_read v owned x :
  read_namespace c xnamespaces v owned = Ok x ->
  owned_namespace_ok x /\ r_name x ∉ map r_name owned.
Proof.
  unfold read_namespace. intros H. apply bind_ok in H as (name & Hname%required_ok & H).
  apply bind_ok in H as (n & Hn%(unsigned_ok c) & H); [|lia].
  apply bind_ok in H as ([] & Hok%state_check_ok & H). apply bind_ok in H as (w & _ & H).
  apply bind_ok in H as (rules & Hr & [= <-]). reflect_bools.
  rewrite one_of_elem, one_of_not_elem in *. split; [|done]. exists n. cbn. split_and!; try done; try lia.
  destruct (negb (defined w)); [injection Hr as <-; by left|].
  apply bind_ok in Hr as (t & _ & Hr). apply bind_ok in Hr as ([] & Hok%state_check_ok & [= <-]).
  reflect_bools. by right.
Qed.

Lemma bridge_read v recorded x :
  read_bridge c xbridges v recorded = Ok x -> owned_bridge_ok x /\ r_name x ∉ recorded.
Proof.
  unfold read_bridge. intros H. apply bind_ok in H as (name & Hname%required_ok & H).
  apply bind_ok in H as (uuid & _ & H). apply bind_ok in H as (internal & _ & H).
  apply bind_ok in H as ([] & Hok%state_check_ok & [= <-]).
  apply orb_false_iff in Hok as [Hok Hi]. reflect_bools.
  rewrite one_of_elem, bool_decide_eq_false in *. split; [|done]. unfold owned_bridge_ok. cbn.
  split_and!; try done. destruct (is_empty internal) eqn:E.
  - left. by apply String.eqb_eq in E.
  - right. cbn in Hi. by reflect_bools.
Qed.

(** The loop over the resources keeps every inventory well formed. *)
Definition owned_inv (s : Resources) : Prop :=
  owned_ok s /\ forall x, x ∈ map r_name (res_bridges s) -> x ∈ res_recorded s.

Lemma resource_read v s s' : read_owned v s = Ok s' -> owned_inv s -> owned_inv s'.
Proof.
  unfold read_resource. intros H ((Hb & Hbn & He & Hn & Hnn & Hc & Hf) & Hin).
  apply bind_ok in H as (kind & _ & H).
  assert (Hsnoc : forall {X} (P : X -> Prop) l x, Forall P l -> P x -> Forall P (l ++ [x]))
    by (intros; apply Forall_app; split; [done|by apply Forall_singleton]).
  assert (Hnames : forall l (x : OwnedResourceIdentity), NoDup (map r_name l) -> r_name x ∉ map r_name l ->
            NoDup (map r_name (l ++ [x]))).
  { intros l x Hnd Hx. rewrite map_app. apply NoDup_app. split; [done|].
    split; [|by apply NoDup_singleton]. by intros k Hk ->%list_elem_of_singleton. }
  destruct (String.eqb kind "network_capture"); [|destruct (String.eqb kind "netem_fault");
    [|destruct (one_of kind endpoint_kinds) eqn:Hk; [|destruct (String.eqb kind "linux_namespace")]]].
  - apply bind_ok in H as (x & Hx%capture_read & [= <-]). by repeat split; cbn; auto.
  - apply bind_ok in H as (x & Hx%fault_read & [= <-]). by repeat split; cbn; auto.
  - apply bind_ok in H as (x & Hx%endpoint_read & [= <-]); [|done]. by repeat split; cbn; auto.
  - apply bind_ok in H as (x & [Hx Hfresh]%namespace_read & [= <-]). by repeat split; cbn; auto.
  - apply bind_ok in H as ([] & _ & H). apply bind_ok in H as (x & [Hx Hfresh]%bridge_read & [= <-]).
    repeat split; cbn; auto.
    intros y. rewrite map_app. intros [Hy|Hy]%elem_of_app; [apply elem_of_union_r; auto|].
    apply list_elem_of_singleton in Hy as ->. set_solver.
Qed.

Lemma resources_read items r :
  fold_result read_owned items
    {| res_recorded := ∅; res_bridges := []; res_endpoints := []; res_namespaces := [];
       res_captures := []; res_faults := [] |} = Ok r ->
  owned_ok r.
Proof.
  intros H. enough (owned_inv r) by (by destruct H0). revert H.
  apply (fold_result_invariant owned_inv).
  - intros v s s' _ Hinv H. by eapply resource_read.
  - repeat split; try constructor. intros x Hx. by apply elem_of_nil in Hx.
Qed.

End Owned.
End Records.
End OwnershipStateProofs.
