(* ===== verification/OwnershipLedger.v ===== *)
(** * The ownership ledger as a whole

    What [load_state] accepts is well formed, every well-formed ledger is
    loaded back as it was saved, and saving never leaves anything else than
    the old or the complete new ledger under its name. *)

From Stdlib Require Import ZArith Lia Strings.Byte Strings.Ascii Strings.String Floats.SpecFloat.
From stdpp Require Import base gmap strings sorting pretty countable list.
From S2P Require Import Prelude Envelope ConfigParse ConfigNetwork ResolvedNetwork Yaml OwnershipState Text.
From S2P Require Import OwnershipStateProofs.

Module OwnershipLedger.
Import Envelope ResolvedNetwork Yaml OwnershipState OwnershipStateProofs.
Local Open Scope Z_scope.

Section Ledger.
Context (c : Conversions) {laws : ConversionLaws c} (inet_pton : string -> option Z).

(** ** The whole ledger *)

(** A private directory of the graph, or none *)
Definition directory_ok (prefix name : string) (inode device : Z) : Prop :=
  (name = "" /\ inode = 0 /\ device = 0)
  \/ (directory_name prefix name = true /\ in_u64 inode /\ in_u64 device).

Definition admission (a : string) : bool := one_of a ["ready"; "exited"; "timeout"].

Record ledger_wf (s : OwnershipState) : Prop := {
  wf_graph : filled (graph_id s);
  wf_hash : size (config_hash s) = 64 /\ hexadecimal (config_hash s) = true;
  wf_owner : size (owner_token s) = 32 /\ hexadecimal (owner_token s) = true;
  wf_status : one_of (status s) statuses = true;
  wf_console : directory_ok "console-" (console_name s) (console_inode s) (console_device s);
  wf_sockets : texts_ok short_name inode_text (console_sockets s);
  wf_handoff : directory_ok "handoff-" (handoff_name s) (handoff_inode s) (handoff_device s);
  wf_credentials : (credential_directory s = "" /\ credential_identity s = "")
    \/ (filled (credential_directory s) /\ filled (credential_identity s)
        /\ size (credential_directory s) <= 4096 /\ size (credential_identity s) <= 64);
  wf_actions : Forall action_ok (actions s) /\ NoDup (map a_id (actions s))
    /\ Z.of_nat (length (actions s)) <= 64;
  wf_applications : texts_ok short_name admission (applications s);
  wf_processes : Forall (process_ok (graph_id s) (owner_token s)) (processes s)
    /\ NoDup (map process_key (processes s)) /\ Z.of_nat (length (processes s)) <= 4096;
  wf_bridges : Forall (fun b => filled b) (expected_bridges s) /\ NoDup (expected_bridges s);
  wf_namespaces : Forall (fun n => filled n) (expected_namespaces s) /\ NoDup (expected_namespaces s);
  wf_captures : Forall expected_capture_ok (expected_captures s)
    /\ NoDup (map (fun x => capture_id (xc_definition x)) (expected_captures s));
  wf_faults : Forall expected_fault_ok (expected_faults s)
    /\ NoDup (map (fun x => fault_id (xf_definition x)) (expected_faults s));
  wf_endpoints : Forall (expected_endpoint_ok inet_pton) (expected_endpoints s)
    /\ NoDup (map e_id (expected_endpoints s));
  wf_owned : owned_ok (expected_bridges s) (expected_namespaces s) (expected_captures s)
    (expected_faults s) (expected_endpoints s)
    {| res_recorded := ∅; res_bridges := bridges s; res_endpoints := endpoints s;
       res_namespaces := namespaces s; res_captures := captures s; res_faults := faults s |};
}.

Lemma directory_name_filled prefix name : directory_name prefix name = true -> filled name.
Proof. unfold directory_name. intros H. reflect_bools. by destruct name. Qed.

(** The three fields of such a directory *)
Lemma write_directory prefix name inode device l key key' key'' :
  find_assignment key l = once (field_if (negb (is_empty name)) key (Scalar name)).2 ->
  find_assignment key' l = once (field_if (negb (is_empty name)) key' (number c inode)).2 ->
  find_assignment key'' l = once (field_if (negb (is_empty name)) key'' (number c device)).2 ->
  directory_ok prefix name inode device ->
  (name = "" /\ inode = 0 /\ device = 0 /\ get (make_map l) key = Ok Undefined)
  \/ (get (make_map l) key = Ok (Scalar name) /\ required_scalar (make_map l) key = Ok name
      /\ unsigned_or c 64 (make_map l) key' 0 = Ok inode
      /\ unsigned_or c 64 (make_map l) key'' 0 = Ok device /\ directory_name prefix name = true).
Proof.
  intros H1 H2 H3 [(-> & -> & ->)|(Hn & Hi & Hd)].
  - left. by rewrite get_make, H1.
  - right. pose proof (directory_name_filled _ _ Hn) as He. rewrite He in *.
    cbn in H1, H2, H3. rewrite get_make, H1. split_and!; [done|by apply required_make|by apply unsigned_make..|done].
Qed.

Lemma write_console l s :
  find_assignment "console_name" l
    = once (field_if (negb (is_empty (console_name s))) "console_name" (Scalar (console_name s))).2 ->
  find_assignment "console_inode" l
    = once (field_if (negb (is_empty (console_name s))) "console_inode" (number c (console_inode s))).2 ->
  find_assignment "console_device" l
    = once (field_if (negb (is_empty (console_name s))) "console_device" (number c (console_device s))).2 ->
  directory_ok "console-" (console_name s) (console_inode s) (console_device s) ->
  read_console c (make_map l) = Ok (console_name s, console_inode s, console_device s).
Proof.
  intros H1 H2 H3 Hd.
  destruct (write_directory _ _ _ _ _ _ _ _ H1 H2 H3 Hd) as [(Hn & Hi & Hde & Hg)|(Hg & Hr & Hi & Hde & Hn)];
    unfold read_console; rewrite Hg.
  - cbn. by rewrite Hn, Hi, Hde.
  - cbn [bind defined negb]. rewrite Hr, Hi, Hde. cbn [bind]. by rewrite Hn.
Qed.

Lemma write_handoff l s :
  find_assignment "handoff_name" l
    = once (field_if (negb (is_empty (handoff_name s))) "handoff_name" (Scalar (handoff_name s))).2 ->
  find_assignment "handoff_inode" l
    = once (field_if (negb (is_empty (handoff_name s))) "handoff_inode" (number c (handoff_inode s))).2 ->
  find_assignment "handoff_device" l
    = once (field_if (negb (is_empty (handoff_name s))) "handoff_device" (number c (handoff_device s))).2 ->
  directory_ok "handoff-" (handoff_name s) (handoff_inode s) (handoff_device s) ->
  read_handoff c (make_map l) = Ok (handoff_name s, handoff_inode s, handoff_device s).
Proof.
  intros H1 H2 H3 Hd.
  destruct (write_directory _ _ _ _ _ _ _ _ H1 H2 H3 Hd) as [(Hn & Hi & Hde & Hg)|(Hg & Hr & Hi & Hde & Hn)];
    unfold read_handoff; rewrite Hg.
  - cbn. by rewrite Hn, Hi, Hde.
  - cbn [bind defined negb]. rewrite convert_text, Hi, Hde by done. cbn [bind]. by rewrite Hn.
Qed.

Lemma directory_read prefix name inode device : directory_name prefix name = true ->
  0 <= inode < 2 ^ 64 -> 0 <= device < 2 ^ 64 -> directory_ok prefix name inode device.
Proof. by right. Qed.

Lemma console_read v n i d : read_console c v = Ok (n, i, d) -> directory_ok "console-" n i d.
Proof.
  unfold read_console. intros H. apply bind_ok in H as (w & _ & H).
  destruct (negb (defined w)); [injection H as <- <- <-; by left|].
  apply bind_ok in H as (name & _ & H).
  do 2 (apply bind_ok in H as (? & ?%(unsigned_ok c) & H); [|lia]).
  apply bind_ok in H as ([] & Hok%state_check_ok & [= <- <- <-]). reflect_bools. by apply directory_read.
Qed.

Lemma handoff_read v n i d : read_handoff c v = Ok (n, i, d) -> directory_ok "handoff-" n i d.
Proof.
  unfold read_handoff. intros H. apply bind_ok in H as (w & _ & H).
  destruct (negb (defined w)); [injection H as <- <- <-; by left|].
  apply bind_ok in H as (name & _ & H).
  do 2 (apply bind_ok in H as (? & ?%(unsigned_ok c) & H); [|lia]).
  apply bind_ok in H as ([] & Hok%state_check_ok & [= <- <- <-]). reflect_bools. by apply directory_read.
Qed.

Lemma write_credentials l s :
  find_assignment "credential_directory" l
    = once (field_if (negb (is_empty (credential_directory s))) "" (Scalar (credential_directory s))).2 ->
  find_assignment "credential_identity" l
    = once (field_if (negb (is_empty (credential_directory s))) "" (Scalar (credential_identity s))).2 ->
  ledger_wf s ->
  read_credentials (make_map l) = Ok (credential_directory s, credential_identity s).
Proof.
  intros H1 H2 Hwf. unfold read_credentials. rewrite get_make, H1.
  destruct (wf_credentials _ Hwf) as [[-> ->]|(Hd & Hi & Hds & His)]; [done|].
  rewrite Hd in *. cbn in H1, H2. cbn [negb field_if snd once default defined bind from_option id].
  rewrite (required_make _ _ _ H1 Hd), (required_make _ _ _ H2 Hi). cbn [bind].
  by settle_checks.
Qed.

Lemma credentials_read v d i : read_credentials v = Ok (d, i) ->
  (d = "" /\ i = "") \/ (filled d /\ filled i /\ size d <= 4096 /\ size i <= 64).
Proof.
  unfold read_credentials. intros H. apply bind_ok in H as (w & _ & H).
  destruct (negb (defined w)); [injection H as <- <-; by left|].
  do 2 (apply bind_ok in H as (? & ?%required_ok & H)).
  apply bind_ok in H as ([] & Hok%state_check_ok & [= <- <-]). reflect_bools. by right.
Qed.

(** Sockets are written with the console directory only. *)
Definition sockets_named (s : OwnershipState) : Prop :=
  console_name s = "" -> console_sockets s = ∅.

Lemma write_sockets l s :
  find_assignment "console_sockets" l
    = once (map_field "console_sockets"
        (if negb (is_empty (console_name s)) then sorted_pairs (console_sockets s) else [])).2 ->
  ledger_wf s -> sockets_named s ->
  read_map c (make_map l) "console_sockets" "invalid console socket inventory"
    "invalid console socket identity" short_name inode_text = Ok (console_sockets s).
Proof.
  intros H Hwf Hn. apply (write_map c); [|apply Hwf]. rewrite H.
  destruct (is_empty (console_name s)) eqn:E; [|done].
  apply String.eqb_eq in E. by rewrite (Hn E).
Qed.

Lemma ledger_loads s : ledger_wf s -> sockets_named s -> read_state c inet_pton (state_node c s) = Ok s.
Proof.
  intros Hwf Hsockets.
  pose proof (wf_graph _ Hwf) as Hg. destruct (wf_hash _ Hwf) as [Hh Hhx].
  destruct (wf_owner _ Hwf) as [Ho Hox]. pose proof (wf_status _ Hwf) as Hs.
  assert (Hhf : filled (config_hash s)) by by destruct (config_hash s).
  assert (Hof : filled (owner_token s)) by by destruct (owner_token s).
  pose proof (one_of_filled _ _ Hs eq_refl) as Hsf.
  unfold read_state, state_node. do 4 read_field.
  rewrite (write_console _ s) by (reflexivity || apply Hwf). cbn [bind].
  rewrite (write_sockets _ s) by (reflexivity || assumption). cbn [bind].
  rewrite (write_handoff _ s) by (reflexivity || apply Hwf). cbn [bind].
  rewrite (write_credentials _ s) by (reflexivity || assumption). cbn [bind].
  rewrite (inventory_make _ _ _ _ action_node (actions s)) by (reflexivity || apply Hwf).
  destruct (fold_seen_write (read_action c) action_node a_id action_ok (actions s) (write_action c))
    as (? & ->); [apply Hwf..|]. cbn [bind snd].
  rewrite (write_map c _ _ _ _ _ _ (applications s)) by (reflexivity || apply Hwf). cbn [bind].
  rewrite (inventory_make _ _ _ _ process_node (processes s)) by (reflexivity || apply Hwf).
  destruct (fold_seen_write (read_process (graph_id s) (owner_token s)) process_node process_key
    (process_ok (graph_id s) (owner_token s)) (processes s)) as (? & ->);
    [intros; by apply write_process|apply Hwf..|]. cbn [bind snd].
  rewrite Hh, Hhx, Ho, Hox, Hs. cbn [negb orb Z.eqb Pos.eqb]. rewrite !fail_if_false, get_make.
  change (find_assignment "expected_bridges" _)
    with (Some (Sequence (map Scalar (expected_bridges s)))).
  cbn [default from_option id bind is_sequence negb elements_of]. rewrite fail_if_false.
  destruct (fold_seen_write (read_bridge_name c) Scalar id (fun b => filled b) (expected_bridges s))
    as (? & ->); [intros; by apply write_bridge_name|apply Hwf|rewrite map_id; apply Hwf|].
  cbn [bind snd]. rewrite (each_make _ _ Scalar (expected_namespaces s)) by reflexivity.
  rewrite (write_namespace_names c) by apply Hwf. cbn [bind].
  rewrite (each_make _ _ (expected_capture_node c) (expected_captures s)) by reflexivity.
  destruct (fold_seen_write (read_expected_capture c) (expected_capture_node c)
    (fun x => capture_id (xc_definition x)) expected_capture_ok (expected_captures s))
    as (? & ->); [intros; by apply write_expected_capture|apply Hwf..|]. cbn [bind snd].
  rewrite (each_make _ _ (expected_fault_node c) (expected_faults s)) by reflexivity.
  destruct (fold_seen_write (read_expected_fault c) (expected_fault_node c)
    (fun x => fault_id (xf_definition x)) expected_fault_ok (expected_faults s))
    as (? & ->); [intros; by apply write_expected_fault|apply Hwf..|]. cbn [bind snd].
  rewrite (each_make _ _ (expected_endpoint_node c) (expected_endpoints s)) by reflexivity.
  destruct (fold_seen_write (read_expected_endpoint c inet_pton) (expected_endpoint_node c) e_id
    (expected_endpoint_ok inet_pton) (expected_endpoints s))
    as (? & ->); [intros; by apply write_expected_endpoint|apply Hwf..|]. cbn [bind snd].
  replace (read_each _ "resources" _ _) with (fold_result
    (read_resource c (expected_bridges s) (expected_namespaces s) (expected_captures s)
       (expected_faults s) (expected_endpoints s)) (resource_nodes c s)
    {| res_recorded := ∅; res_bridges := []; res_endpoints := []; res_namespaces := [];
       res_captures := []; res_faults := [] |}).
  2: { rewrite <-(map_id (resource_nodes c s)) at 1. symmetry. apply each_make.
       rewrite map_id. reflexivity. }
  unfold resource_nodes. rewrite (write_resources c inet_pton _ _ _ _ _ _ _ _ _ _ (wf_owned _ Hwf)). cbn. by destruct s.
Qed.
Lemma inventory_seen {X} v key text bound read (name : X -> string) ok l :
  read_inventory v key text bound read = Ok l -> 0 <= bound ->
  (forall v s s', read v s = Ok s' ->
     exists x, s' = ({[name x]} ∪ s.1, s.2 ++ [x]) /\ ok x /\ name x ∉ s.1) ->
  Forall ok l /\ NoDup (map name l) /\ Z.of_nat (length l) <= bound.
Proof.
  intros H Hbound Hstep. apply inventory_ok in H as (items & s & Hb & Hs & <-); [|done].
  apply (fold_seen_read read name ok) in Hs as (Hok & Hnd & Hl); [|done]. split_and!; [done|done|lia].
Qed.

Lemma each_seen {X} v key (read : node -> gset string * list X -> result (gset string * list X))
    (name : X -> string) ok s :
  read_each v key read (∅, []) = Ok s ->
  (forall v s s', read v s = Ok s' ->
     exists x, s' = ({[name x]} ∪ s.1, s.2 ++ [x]) /\ ok x /\ name x ∉ s.1) ->
  Forall ok s.2 /\ NoDup (map name s.2).
Proof.
  intros (items & Hs)%each_ok Hstep.
  by apply (fold_seen_read read name ok) in Hs as (Hok & Hnd & _).
Qed.

Lemma state_read root s : read_state c inet_pton root = Ok s -> ledger_wf s.
Proof.
  unfold read_state. intros H.
  apply bind_ok in H as (graph & Hgraph%required_ok & H). apply bind_ok in H as (hash & _ & H).
  apply bind_ok in H as (owner & _ & H). apply bind_ok in H as (status & _ & H).
  apply bind_ok in H as ([[cn ci] cd] & Hconsole%console_read & H).
  apply bind_ok in H as (sockets & Hsockets%map_read & H).
  apply bind_ok in H as ([[hn hi] hd] & Hhandoff%handoff_read & H).
  apply bind_ok in H as ([cdir cid] & Hcred%credentials_read & H).
  apply bind_ok in H as (acts & Hacts & H). apply bind_ok in H as (apps & Happs%map_read & H).
  apply bind_ok in H as (procs & Hprocs & H).
  apply bind_ok in H as ([] & Hid%state_check_ok & H). apply bind_ok in H as ([] & Hst%state_check_ok & H).
  apply bind_ok in H as (v & _ & H). apply bind_ok in H as ([] & _ & H).
  apply bind_ok in H as (bs & Hbs & H). apply bind_ok in H as (ns & Hns & H).
  apply bind_ok in H as (xc & Hxc & H). apply bind_ok in H as (xf & Hxf & H).
  apply bind_ok in H as (xe & Hxe & H). apply bind_ok in H as (r & Hr & [= <-]). reflect_bools.
  eapply inventory_seen in Hacts; [|done|apply action_read].
  eapply inventory_seen in Hprocs; [|done|apply process_read].
  eapply (fold_seen_read _ id) in Hbs as (Hbs & Hbn & _); [|apply bridge_name_read].
  rewrite map_id in Hbn. apply each_ok in Hns as (items & Hns%namespace_names_read).
  eapply each_seen in Hxc; [|apply expected_capture_read].
  eapply each_seen in Hxf; [|apply expected_fault_read].
  eapply each_seen in Hxe; [|apply expected_endpoint_read].
  apply each_ok in Hr as (items' & Hr%resources_read). by constructor.
  Unshelve. all: done.
Qed.

(** ** Saving *)

Lemma substring_full s : String.substring 0 (String.length s) s = s.
Proof. induction s as [|ch s IH]; [done|]. cbn. by rewrite IH. Qed.

Lemma substring_split n s :
  String.substring 0 n s +:+ String.substring n (String.length s - n) s = s.
Proof.
  revert n; induction s as [|ch s IH]; intros [|n]; try done.
  - cbn. by rewrite substring_full.
  - change (String ch (String.substring 0 n s +:+ String.substring n (String.length s - n) s)
            = String ch s). by rewrite IH.
Qed.

(** A write loop that reports success has written every byte. *)
Lemma write_all_complete bytes events written :
  write_all bytes events = (written, Some true) -> written = bytes.
Proof.
  revert bytes written; induction events as [|[] events IH]; intros bytes written H;
    destruct bytes as [|ch bytes]; cbn [write_all] in H; try by injection H as <-.
  - by apply IH.
  - destruct (write_all _ events) as [w r] eqn:E. injection H as <- ->.
    apply IH in E as ->. exact (substring_split (S count) (String ch bytes)).
Qed.

(** Under its name the ledger has either what it had, or the whole new text,
    on the disk before it was named. *)
Definition old_or_new (bytes : string) (d d' : Directory) : Prop :=
  target d' = target d \/ target d' = Some {| content := bytes; synced := true |}.

Lemma last_app_default {A} (l l' : list A) d : List.last (l ++ l') d = List.last l' (List.last l d).
Proof.
  destruct l' as [|x l'] using rev_ind; [by rewrite app_nil_r|].
  by rewrite app_assoc, !List.last_last.
Qed.

Lemma publish_atomic replace file ok d tr r :
  publish_file replace file ok d = (tr, r) ->
  Forall (fun d' => target d' = target d \/ target d' = Some file) tr
  /\ match r with
     | Ok _ => target (List.last tr d) = Some file /\ temporary (List.last tr d) = None
               /\ (replace = false -> target d = None)
     | Throw _ => target (List.last tr d) = target d /\ temporary (List.last tr d) = None
     end.
Proof.
  unfold publish_file. intros H. destruct replace; [destruct ok|].
  1, 2: injection H as <- <-; by repeat constructor; auto.
  destruct (ok && bool_decide (target d = None)) eqn:E; injection H as <- <-.
  - reflect_bools. rewrite bool_decide_eq_true in *. by repeat constructor; auto.
  - by repeat constructor; auto.
Qed.

(** C20: While a ledger is saved, and at whatever call the process dies, the
    file under the ledger's name is the one that was there before or holds the
    complete new text, written to the disk before it got the name.  If the
    save returns, the new text is there, the temporary file is gone and the
    directory is on the disk; without permission to replace there was no
    ledger before.  If it fails before the new text has the name, the old file
    stays and no new temporary file is left. *)
Theorem save_atomic bytes replace calls d tr r :
  temporary d = None -> save_bytes bytes replace calls d = (tr, r) ->
  Forall (old_or_new bytes d) tr
  /\ match r with
     | Some (Ok _) =>
         let d' := List.last tr d in
         target d' = Some {| content := bytes; synced := true |} /\ temporary d' = None
         /\ names_synced d' = true /\ (replace = false -> target d = None)
     | Some (Throw _) => temporary (List.last tr d) = None
     | None => target (List.last tr d) = target d
     end.
Proof.
  intros Ht H. unfold save_bytes in H.
  rewrite (bool_decide_eq_false_2 (is_Some (temporary d))), orb_false_r in H
    by (rewrite Ht; apply is_Some_None).
  destruct (open_temporary calls); [|by injection H as <- <-; repeat constructor].
  cbn [negb] in H. destruct (write_all bytes (writes calls)) as [written [[]|]] eqn:E.
  2, 3: injection H as <- <-; by repeat constructor; left.
  apply write_all_complete in E as ->.
  destruct (sync_file calls); cbn [negb] in H; [|injection H as <- <-; by repeat constructor; left].
  destruct (publish_file _ _ _ _) as [published r'] eqn:Ep.
  pose proof (publish_atomic _ _ _ _ _ _ Ep) as [Hall Hr].
  assert (Hstart : Forall (old_or_new bytes d)
    ([with_temporary (Some {| content := ""; synced := false |}) d;
      with_temporary (Some {| content := bytes; synced := false |}) d;
      with_temporary (Some {| content := bytes; synced := true |}) d] ++ published)).
  { apply Forall_app. split; [by repeat constructor; left|exact Hall]. }
  destruct r' as [u|e].
  - unfold sync_names in H. destruct (open_directory calls && sync_directory calls);
      apply pair_equal_spec in H as [<- <-]; destruct Hr as (Hr1 & Hr2 & Hr3).
    + split; [apply Forall_app; split; [exact Hstart|]|].
      * apply Forall_singleton. by right.
      * cbn zeta. rewrite List.last_last. done.
    + rewrite app_nil_r. split; [done|]. by rewrite last_app_default.
  - apply pair_equal_spec in H as [<- <-]. split; [done|]. destruct Hr as (_ & Hr).
    by rewrite last_app_default.
Qed.
(** ** What is written can be stored *)

Definition value_storable (a : assignment) : bool :=
  match a.2 with Some v => storable v | None => true end.

Lemma storable_make l : forallb value_storable l = true -> storable (make_map l) = true.
Proof.
  intros H. unfold make_map. cbn [storable]. induction l as [|[k [v|]] l IH]; csimpl in *; [done| |auto].
  apply andb_true_iff in H as [Hv Hl]. cbn in *. rewrite Hv. by apply IH.
Qed.

Lemma forallb_image {X Y} (p : Y -> bool) (f : X -> Y) l :
  (forall x, p (f x) = true) -> forallb p (map f l) = true.
Proof. intros H. induction l as [|x l IH]; [done|]. cbn. by rewrite H. Qed.

Lemma storable_sequence {X} key (enc : X -> node) l :
  (forall x, storable (enc x) = true) -> value_storable (sequence_field key (map enc l)) = true.
Proof.
  intros He. unfold value_storable, sequence_field. cbn. destruct (map enc l) as [|n ns] eqn:E; [done|].
  rewrite <-E. cbn. by apply forallb_image.
Qed.

Lemma storable_pairs key l : value_storable (map_field key l) = true.
Proof.
  unfold value_storable, map_field. destruct l as [|p l]; [done|]. cbn [snd storable].
  unfold text_pairs. by apply forallb_image.
Qed.

Lemma storable_if b key v : storable v = true -> value_storable (field_if b key v) = true.
Proof. by destruct b. Qed.

Lemma storable_option key o : value_storable (key, option_map (number c) o) = true.
Proof. by destruct o. Qed.

Ltac storable_fields :=
  apply storable_make; cbn [forallb];
  repeat match goal with
    | |- _ && _ = true => apply andb_true_iff; split
    | |- value_storable (sequence_field _ _) = true => apply storable_sequence; intros
    | |- value_storable (map_field _ _) = true => apply storable_pairs
    | |- value_storable (field_if _ _ _) = true => apply storable_if
    | |- value_storable (text_if _ _) = true => apply storable_if
    | |- value_storable (_, option_map _ _) = true => apply storable_option
    | |- value_storable (field _ _) = true => unfold value_storable; cbn [field snd]
    | |- storable (Scalar _) = true => reflexivity
    | |- storable (number _ _) = true => reflexivity
    | |- storable (index_of _ _) = true => reflexivity
    | |- true = true => reflexivity
    end.

Lemma storable_route r : storable (route_node c r) = true.
Proof. storable_fields. Qed.

Lemma storable_endpoint e : storable (expected_endpoint_node c e) = true.
Proof. storable_fields. apply storable_route. Qed.

Lemma storable_resource s n : n ∈ resource_nodes c s -> storable n = true.
Proof.
  unfold resource_nodes. rewrite !elem_of_app, !list_elem_of_fmap.
  intros [(x & -> & _)|[(x & -> & _)|[(x & -> & _)|[(x & -> & _)|(x & -> & _)]]]];
    storable_fields.
Qed.

Lemma state_storable s : storable (state_node c s) = true.
Proof.
  unfold state_node, console_fields, handoff_fields, credential_fields. cbn [app]. storable_fields.
  - cbn [storable]. by apply forallb_image.
  - storable_fields.
  - storable_fields.
  - apply storable_endpoint.
  - storable_fields.
  - storable_fields.
  - unfold value_storable, sequence_field.
    destruct (resource_nodes c s) as [|n ns] eqn:E; [done|]. cbn [snd storable].
    apply forallb_forall. intros x Hx. apply (storable_resource s). rewrite E. by apply list_elem_of_In.
Qed.

(** ** Reading the file *)

(** The bytes that a script of calls delivers before it fails *)
Fixpoint delivered (events : list read_event) : string :=
  match events with
  | [] | read_nothing :: _ => ""
  | read_again :: events => delivered events
  | read_some ch s :: events => String ch s +:+ delivered events
  end.

Lemma substring_all n s : (String.length s <= n)%nat -> String.substring 0 n s = s.
Proof.
  revert n; induction s as [|ch s IH]; intros [|n] H; try done; cbn in H; [lia|].
  change (String ch (String.substring 0 n s) = String ch s). by rewrite IH by lia.
Qed.

Lemma length_text_app s t : String.length (s +:+ t) = (String.length s + String.length t)%nat.
Proof.
  induction s as [|ch s IH]; [done|].
  change (S (String.length (s +:+ t)) = S (String.length s + String.length t)). by rewrite IH.
Qed.

Lemma ledger_bytes_delivered events :
  read_all (String.length (delivered events)) events = Some (Ok (delivered events)).
Proof.
  induction events as [|[| |ch s] events IH]; try done.
  - cbn [delivered]. by destruct (String.length (delivered events)) eqn:E; [destruct (delivered events)|].
  - cbn [delivered]. rewrite length_text_app. cbn [String.length read_all Nat.add].
    rewrite substring_all by (cbn [String.length]; lia).
    replace (S (String.length s + String.length (delivered events)) - S (String.length s))%nat
      with (String.length (delivered events)) by lia.
    by rewrite IH.
Qed.

(** ** Saving and loading *)

Section File.
Context (emit : node -> option string) (load : string -> option node).
(** The library reads back the trees of scalars, sequences and maps it wrote. *)
Hypothesis emit_load : forall n text,
  storable n = true -> emit n = Some text -> load (text +:+ String "010" EmptyString) = Some n.

Lemma oversized_refused n events : 1024 * 1024 < n ->
  exists e, load_state c inet_pton load (Ok {| regular := true; mode := 384; st_size := n |}) events = Some (Throw e).
Proof.
  intros Hn. unfold load_state, check_metadata. cbn [bind regular mode st_size negb].
  change (Z.land 384 511 =? 384) with true. cbn [negb]. rewrite !fail_if_false.
  replace (_ || _) with true by (symmetry; apply orb_true_iff; lia). cbn. by eexists.
Qed.

(** C19: With no temporary file left over, a save of a well-formed ledger, whose
    console sockets come with the name of the console, leaves a file that has its name and is complete on the
    disk when it returns.  If the file has at most 1 MiB, a load that is given
    its bytes, in any pieces, returns exactly the state that was saved; a larger
    file is written just the same, and every load of it fails. *)
Theorem ledger_survives s replace calls d tr f events :
  ledger_wf s -> sockets_named s -> temporary d = None ->
  save_state c emit s replace calls d = (tr, Some (Ok tt)) ->
  target (List.last tr d) = Some f -> delivered events = content f ->
  let loaded := load_state c inet_pton load
       (Ok {| regular := true; mode := 384; st_size := size (content f) |}) events in
  synced f = true
  /\ (size (content f) <= 1024 * 1024 -> loaded = Some (Ok s))
  /\ (1024 * 1024 < size (content f) -> exists e, loaded = Some (Throw e)).
Proof.
  intros Hwf Hsockets Ht Hsave Hf Hread loaded. unfold save_state in Hsave.
  destruct (emit (state_node c s)) as [text|] eqn:E; [|done].
  pose proof (save_atomic _ _ _ _ _ _ Ht Hsave) as [_ Hd]. cbn zeta in Hd.
  destruct Hd as (Hd & _). rewrite Hd in Hf. injection Hf as <-. split; [done|]. subst loaded.
  split; intros Hsize; [|by apply oversized_refused].
  cbn [content] in *. unfold load_state, check_metadata. cbn [bind regular mode st_size negb].
  change (Z.land 384 511 =? 384) with true. cbn [negb]. rewrite !fail_if_false.
  replace (_ || _) with false by (symmetry; apply orb_false_iff; unfold size in *; lia).
  cbn [fail_if throw_if bind st_size]. unfold size. rewrite Nat2Z.id, <-Hread, ledger_bytes_delivered, Hread.
  unfold load_bytes. rewrite (emit_load _ _ (state_storable s) E). f_equal.
  change (is_map (state_node c s)) with true. cbn [negb]. rewrite fail_if_false.
  unfold state_node at 1. rewrite get_make. cbn [find_assignment field String.eqb app default bind].
  unfold number, convert_or. cbn. rewrite as_int_show by done. cbn. by apply ledger_loads.
Qed.
End File.

(** A load that returns has opened a regular file that only its owner can
    read and write, of at most one MiB, and the state it returns is a
    well-formed ledger: its identities have their formats, its inventories no
    duplicates, and every bridge, namespace, endpoint, capture and fault it
    owns is one that it expected. *)
Theorem loaded_ledger_wf load opened events s :
  load_state c inet_pton load opened events = Some (Ok s) ->
  ledger_wf s
  /\ exists m, opened = Ok m /\ regular m = true /\ Z.land (mode m) 511 = 384
       /\ 0 <= st_size m <= 1024 * 1024.
Proof.
  unfold load_state. intros H. destruct opened as [m|]; [|done]. cbn [bind] in H.
  destruct (check_metadata m) as [[]|] eqn:Hm; [|done]. cbn [bind] in H.
  destruct (read_all _ _) as [[bytes|]|]; [|done|done]. injection H as H. split.
  - unfold load_bytes in H. destruct (load bytes); [|done]. apply bind_ok in H as ([] & _ & H).
    apply bind_ok in H as (v & _ & H). apply bind_ok in H as ([] & _ & H). by apply state_read in H.
  - unfold check_metadata in Hm. apply bind_ok in Hm as ([] & Hr%state_check_ok & Hm).
    apply bind_ok in Hm as ([] & Hmode%state_check_ok & Hm%state_check_ok). reflect_bools.
    exists m. split_and!; done || lia.
Qed.

End Ledger.

(** ** Concrete conversions: decimal numbers, and a numbering of the reals *)

Definition sample_unsigned (bits : Z) (v : node) : option Z :=
  match v with
  | Scalar text =>
      match ConfigParse.digits 0 text with
      | Some z => if (0 <=? z) && (z <? 2 ^ bits) then Some z else None
      | None => None
      end
  | _ => None
  end.

Definition real_code (d : spec_float) : bool + bool + unit + bool * positive * Z :=
  match d with
  | S754_zero s => inl (inl (inl s))
  | S754_infinity s => inl (inl (inr s))
  | S754_nan => inl (inr tt)
  | S754_finite s m e => inr (s, m, e)
  end.
Definition real_of_code (x : bool + bool + unit + bool * positive * Z) : spec_float :=
  match x with
  | inl (inl (inl s)) => S754_zero s
  | inl (inl (inr s)) => S754_infinity s
  | inl (inr _) => S754_nan
  | inr (s, m, e) => S754_finite s m e
  end.

Definition sample_conversions : Conversions := {|
  as_string v := match v with Scalar text => Some text | _ => None end;
  as_int := sample_unsigned 31;
  as_unsigned := sample_unsigned;
  as_bool v := match v with
               | Scalar "true" => Some true | Scalar "false" => Some false | _ => None
               end;
  as_double v :=
    match v with
    | Scalar text =>
        match ConfigParse.digits 0 text with
        | Some (Zpos p) =>
            d ← decode p;
            if valid_binary 53 1024 (real_of_code d) then Some (real_of_code d) else None
        | _ => None
        end
    | _ => None
    end;
  show_int := to_string;
  show_bool b := if b then "true" else "false";
  show_double d := to_string (Zpos (encode (real_code d)));
|}.

Lemma sample_unsigned_show bits n : 0 <= n < 2 ^ bits -> sample_unsigned bits (Scalar (to_string n)) = Some n.
Proof.
  intros Hn. unfold sample_unsigned. rewrite Text.digits_to_string by lia.
  replace (_ && _) with true; [done|]. symmetry. apply andb_true_iff. lia.
Qed.

#[export] Instance sample_laws : ConversionLaws sample_conversions.
Proof.
  split.
  - done.
  - intros n Hn. unfold in_u8 in Hn. apply sample_unsigned_show. lia.
  - apply sample_unsigned_show.
  - by intros [].
  - intros d Hd. cbn -[ConfigParse.digits to_string encode decode valid_binary].
    rewrite Text.digits_to_string by done. cbn -[decode encode valid_binary].
    rewrite decode_encode. cbn -[valid_binary].
    replace (real_of_code (real_code d)) with d by by destruct d. by rewrite Hd.
  - intros bits v n H. cbn in H. unfold sample_unsigned in H. destruct v; try done.
    destruct (ConfigParse.digits 0 text) as [z|]; [|done].
    destruct ((0 <=? z) && (z <? 2 ^ bits)) eqn:E; [|done]. injection H as <-. reflect_bools. lia.
  - intros v d H. cbn -[decode valid_binary] in H. destruct v; try done.
    destruct (ConfigParse.digits 0 text) as [[|q|]|]; try done.
    destruct (decode q) as [x|]; [|done]. cbn -[valid_binary] in H.
    destruct (valid_binary _ _ _) eqn:E; [|done]. by injection H as <-.
Qed.

(** Equality of trees, to single out one tree *)
Fixpoint node_eqb (n m : node) : bool :=
  match n, m with
  | Undefined, Undefined | Null, Null => true
  | Scalar a, Scalar b => String.eqb a b
  | Sequence l, Sequence k =>
      (fix go (l k : list node) : bool :=
         match l, k with
         | [], [] => true
         | x :: l, y :: k => node_eqb x y && go l k
         | _, _ => false
         end) l k
  | Map l, Map k =>
      (fix go (l k : list (node * node)) : bool :=
         match l, k with
         | [], [] => true
         | (x, v) :: l, (y, w) :: k => node_eqb x y && node_eqb v w && go l k
         | _, _ => false
         end) l k
  | _, _ => false
  end.

Lemma node_eqb_eq : forall n m, node_eqb n m = true -> n = m.
Proof.
  fix IH 1. intros [| |a|l|l] [| |b|k|k]; cbn; try done.
  - by intros ->%String.eqb_eq.
  - intros H. f_equal. revert k H. induction l as [|x l IHl]; intros [|y k] H; try done.
    apply andb_true_iff in H as [Hx Hl]. f_equal; [by apply IH|by apply IHl].
  - intros H. f_equal. revert k H. induction l as [|[x v] l IHl]; intros [|[y w] k] H; try done.
    apply andb_true_iff in H as [[Hx Hv]%andb_true_iff Hl].
    f_equal; [f_equal; by apply IH|by apply IHl].
Qed.

(** ** A ledger with a record of every kind *)

Definition repeat_text (n : nat) (ch : ascii) : string :=
  string_of_list_ascii (repeat ch n).

Definition sample_endpoint : ExpectedEndpoint :=
  {| e_mirror_container := false; e_kind := container_veth; e_id := "uplink"; e_owner := "radio";
     e_host_interface := "gxh0"; e_target_interface := "eth1"; e_network_switch := "gxbr0";
     e_address := "10.0.0.2/24"; e_mac := ""; e_mtu := 1500;
     e_routes := [{| destination := "10.1.0.0/16"; via := "10.0.0.1"; device := "";
                     install_on_create := true |}];
     e_aliases := ["10.0.0.3/24"]; e_management_policy := ""; e_container_id := "c0ffee";
     e_namespace_inode := 4026532000; e_namespace_name := ""; e_tap_uid := 0; e_tap_gid := 0;
     e_vlan := {| access_tag := Some 43; trunks := [43; 44] |} |}.

Definition sample_fault : ExpectedFault :=
  {| xf_definition := {| fault_id := "lossy"; fault_attachment := "uplink"; delay_ms := 20;
                         jitter_ms := 5; loss_percent := S754_zero false; rate_kbit := 0;
                         duration_seconds := 30 |}; xf_interface := "gxh0" |}.

Definition sample_state : OwnershipState :=
  {| actions := [{| a_id := "rotate"; a_kind := "credential-rotate"; a_status := "pending";
                    a_identity := "" |}];
     credential_directory := "/run/credentials"; credential_identity := "12:34";
     graph_id := "demo"; config_hash := repeat_text 64 "a"; owner_token := repeat_text 32 "b";
     status := "ready"; applications := {["radio" := "ready"]};
     console_sockets := {["radio" := "12:34"]};
     console_name := "console-" +:+ repeat_text 32 "c"; console_inode := 7; console_device := 8;
     handoff_name := ""; handoff_inode := 0; handoff_device := 0; expected_bridges := ["gxbr0"];
     bridges := [bridge_identity "gxbr0" (repeat_text 36 "d") ""];
     expected_endpoints := [sample_endpoint];
     endpoints := [endpoint_identity "container_veth" "uplink" "gxh0" "eth1" "port" "interface" 11 12
                     4026532000 "c0ffee" "" ""];
     expected_namespaces := ["router"];
     namespaces := [namespace_identity "router" 4026532001 (repeat_text 64 "e")];
     expected_captures := [{| xc_definition := {| capture_id := "tap"; attachment := "uplink";
         directory := "/captures"; snaplen := 65535; max_file_bytes := 67108864; max_files := 4;
         rotation_seconds := 300; retention_seconds := 86400 |}; xc_interface := "gxh0" |}];
     captures := [{| c_id := "tap"; c_attachment_id := "uplink"; c_interface := "gxh0";
         c_session_directory := "/captures/1"; c_ifindex := 11; c_directory_device := 1;
         c_directory_inode := 2; c_directory_uid := 0; c_directory_gid := 0;
         c_directory_mode := 448; c_pid := 100; c_process_start_time := "5"; c_snapshot_inode := 0;
         c_snapshot_pending_inode := 0 |}];
     expected_faults := [sample_fault];
     faults := [{| f_id := "lossy"; f_attachment_id := "uplink"; f_interface := "gxh0";
         f_ifindex := 11; f_qdisc_identity := "qdisc netem 8001:"; f_timer_pid := 101;
         f_timer_start_time := "6"; f_boot_id := repeat_text 36 "f";
         f_applied_monotonic_ns := 1000; f_expires_monotonic_ns := 30000001000 |}];
     processes := [process_identity "container" "graphx-demo-radio" "c0ffee" "image"
                     (repeat_text 32 "b") "" ""] |}.

Definition sample_inet (text : string) : option Z :=
  if String.eqb text "10.0.0.3" then Some 167772163 else None.

Lemma texts_ok_singleton key_ok value_ok k v :
  key_ok k = true -> value_ok v = true -> texts_ok key_ok value_ok {[k := v]}.
Proof. intros Hk Hv. split; [by apply map_Forall_singleton|by rewrite map_size_singleton]. Qed.

(** Closed facts about one ledger *)
Ltac settle :=
  repeat match goal with
    | |- _ /\ _ => split
    | |- Forall _ _ => refine (proj2 (Forall_singleton _ _) _); hnf
    | |- Forall _ _ => apply Forall_nil_2
    | |- NoDup _ => refine (NoDup_singleton _)
    | |- in_u32 _ => unfold in_u32
    | |- in_u64 _ => unfold in_u64
    | |- _ <= _ => vm_compute; discriminate
    | |- _ < _ => vm_compute; reflexivity
    | |- (_ <= _)%nat => cbn; lia
    | |- _ ∈ _ => refine (proj2 (list_elem_of_singleton _ _) _)
    | |- @eq bool _ _ => vm_compute; reflexivity
    | |- @eq _ _ _ => reflexivity
    | |- _ <> _ => discriminate
    end.

Lemma sample_wf : ledger_wf sample_inet sample_state.
Proof.
  constructor; settle.
  - right. settle.
  - by apply texts_ok_singleton.
  - by left.
  - right. settle.
  - by apply texts_ok_singleton.
  - discriminate.
  - intros _. settle.
  - by left.
  - split; [intros tag [= <-]; lia|repeat constructor; lia].
  - unfold owned_ok, owned_bridge_ok, owned_capture_ok, owned_fault_ok. settle.
    + by left.
    + exists 11, 12, 4026532000. settle.
    + exists 4026532001. settle. right. settle.
Qed.


(** The file of that ledger, and calls that save it in three writes *)
Definition ledger_text : string := "ledger" +:+ String "010" EmptyString.
Definition sample_emit (n : node) : option string :=
  if node_eqb n (state_node sample_conversions sample_state) then Some "ledger" else None.
Definition sample_load (text : string) : option node :=
  if String.eqb text ledger_text then Some (state_node sample_conversions sample_state) else None.
Definition sample_calls : Calls :=
  {| open_temporary := true; writes := [wrote 1; write_again; wrote 0; wrote 100]; sync_file := true;
     publish := true; open_directory := true; sync_directory := true |}.
Definition sample_directory : Directory :=
  {| target := Some {| content := "old"; synced := true |}; temporary := None;
     names_synced := true |}.
Definition sample_reads : list read_event :=
  [read_some "l" "ed"; read_again; read_some "g" ("er" +:+ String "010" EmptyString)].

Lemma sample_emit_load n text :
  storable n = true -> sample_emit n = Some text ->
  sample_load (text +:+ String "010" EmptyString) = Some n.
Proof.
  unfold sample_emit. intros _ H. destruct (node_eqb n _) eqn:E; [|done].
  injection H as <-. by apply node_eqb_eq in E as ->.
Qed.

Lemma ledger_survives_witness :
  load_state sample_conversions sample_inet sample_load
    (Ok {| regular := true; mode := 384; st_size := 7 |}) sample_reads = Some (Ok sample_state).
Proof.
  refine (proj1 (proj2 (ledger_survives sample_conversions sample_inet sample_emit sample_load
    sample_emit_load sample_state true sample_calls sample_directory
    (fst (save_state sample_conversions sample_emit sample_state true sample_calls sample_directory))
    {| content := ledger_text; synced := true |} sample_reads sample_wf _ eq_refl _ _ eq_refl)) _);
    [discriminate|vm_compute; reflexivity|vm_compute; reflexivity|vm_compute; discriminate].
Defined.

Lemma save_atomic_witness :
  Forall (old_or_new ledger_text sample_directory)
    (fst (save_bytes ledger_text true sample_calls sample_directory)).
Proof.
  exact (proj1 (save_atomic ledger_text true sample_calls sample_directory _ _ eq_refl
    (surjective_pairing (save_bytes ledger_text true sample_calls sample_directory)))).
Defined.

Lemma loaded_ledger_wf_witness : ledger_wf sample_inet sample_state.
Proof.
  refine (proj1 (loaded_ledger_wf sample_conversions sample_inet sample_load
    (Ok {| regular := true; mode := 384; st_size := 7 |}) sample_reads sample_state _)).
  vm_compute. reflexivity.
Defined.

End OwnershipLedger.
