(* ===== verification/PowerSpectrum.v ===== *)
(** * The power spectrum of a window of samples (src/src/vita/processing.cpp)

    [power_spectrum] weighs the samples, transforms them in place with the
    iterative radix-2 algorithm and stores the powers with the centre frequency
    in the middle; [detect] looks for the peak.  The operations on [double]
    and [std::complex<double>] are a record, so that the algorithm can be read
    over any arithmetic: the rounding one of a machine or an exact one. *)

From Stdlib Require Import ZArith Lia Strings.Byte Strings.String.
From stdpp Require Import base strings list.
From S2P Require Import Prelude Spectrum.

Module PowerSpectrum.
Import Spectrum.
Local Open Scope Z_scope.

(** [R] is [double], [C] is [std::complex<double>]. *)
Record Arithmetic (R C : Type) := {
  r_of_Z : Z -> R;  r_half : R;  r_pi : R;
  r_add : R -> R -> R;  r_sub : R -> R -> R;  r_mul : R -> R -> R;  r_div : R -> R -> R;
  r_cos : R -> R;
  c_zero : C;  c_one : C;
  c_add : C -> C -> C;  c_sub : C -> C -> C;  c_mul : C -> C -> C;
  c_scale : C -> R -> C;      (** [operator*(complex, double)] *)
  c_polar : R -> R -> C;      (** [std::polar] *)
  c_norm : C -> R;            (** [std::norm] *)
  c_finite : C -> bool;       (** [std::isfinite] of both parts *)
  to_float : R -> Z;          (** [static_cast<float>], as its pattern *)
}.
Arguments r_of_Z {R C} _ _.  Arguments r_half {R C} _.  Arguments r_pi {R C} _.
Arguments r_add {R C} _ _ _. Arguments r_sub {R C} _ _ _. Arguments r_mul {R C} _ _ _.
Arguments r_div {R C} _ _ _. Arguments r_cos {R C} _ _. Arguments c_zero {R C} _.
Arguments c_one {R C} _. Arguments c_add {R C} _ _ _. Arguments c_sub {R C} _ _ _.
Arguments c_mul {R C} _ _ _. Arguments c_scale {R C} _ _ _. Arguments c_polar {R C} _ _ _.
Arguments c_norm {R C} _ _. Arguments c_finite {R C} _ _. Arguments to_float {R C} _ _.

(** ** The bit-reversed counter *)

(** [for (; j & bit; bit >>= 1) j ^= bit;]  A [size_t] has 64 bits, so that
    [bit] is zero after 64 rounds and the condition fails ([carry_stops]). *)
Fixpoint carry (rounds : nat) (j bit : N) : N * N :=
  match rounds with
  | O => (j, bit)
  | S rounds =>
      if (N.land j bit =? 0)%N then (j, bit)
      else carry rounds (N.lxor j bit) (N.shiftr bit 1)
  end.

(** The value of [j] after that of one round *)
Definition reverse_step (size j : N) : N :=
  let (j, bit) := carry 64 j (N.shiftr size 1) in N.lxor j bit.

Section Transform.
Context {R C : Type} (A : Arithmetic R C).

(** [a[i]] *)
Definition at_ (a : list C) (i : nat) : C := nth i a (c_zero A).

Definition swap (a : list C) (i j : nat) : list C := <[j := at_ a i]> (<[i := at_ a j]> a).

(** The loop of the swaps, over the pair of [j] and [a] *)
Definition reorder_step (size : N) (i : nat) (s : N * list C) : N * list C :=
  let j := reverse_step size s.1 in
  (j, if (N.of_nat i <? j)%N then swap s.2 i (N.to_nat j) else s.2).
Definition reorder (size : nat) (a : list C) : list C :=
  (fold_left (fun s i => reorder_step (N.of_nat size) i s) (seq 1 (size - 1)) (0%N, a)).2.

(** The loop over [k], over the pair of [a] and [w] *)
Definition butterfly (root : C) (base half k : nat) (s : list C * C) : list C * C :=
  let (a, w) := s in
  let u := at_ a (base + k) in
  let v := c_mul A w (at_ a (base + k + half)) in
  (<[base + k + half := c_sub A u v]> (<[base + k := c_add A u v]> a), c_mul A w root)%nat.
Definition block (root : C) (base half : nat) (a : list C) : list C :=
  (fold_left (fun s k => butterfly root base half k s) (seq 0 half) (a, c_one A)).1.

Definition root (length : nat) : C :=
  c_polar A (r_of_Z A 1) (r_div A (r_mul A (r_of_Z A (-2)) (r_pi A)) (r_of_Z A (Z.of_nat length))).

(** [for (base = 0; base < size; base += length)] *)
Definition bases (size length : nat) : list nat :=
  map (fun b => b * length)%nat (seq 0 ((size + length - 1) / length)).
Definition stage (size length : nat) (a : list C) : list C :=
  fold_left (fun a base => block (root length) base (length / 2) a) (bases size length) a.

(** [for (length = 2; length <= size; length *= 2)]; 64 doublings exceed any
    [size_t] ([stages_stop]). *)
Fixpoint stages (rounds : nat) (size length : nat) (a : list C) : list C :=
  match rounds with
  | O => a
  | S rounds =>
      if (length <=? size)%nat then stages rounds size (length * 2) (stage size length a) else a
  end.

(** ** The spectrum *)

Definition window (c : ProcessingConfig) (i : Z) : R :=
  if hann c then
    r_sub A (r_half A)
      (r_mul A (r_half A)
         (r_cos A (r_div A (r_mul A (r_mul A (r_of_Z A 2) (r_pi A)) (r_of_Z A i)) (r_of_Z A (size c)))))
  else r_of_Z A 1.

(** [bits[i / 8] |= std::byte(1u << (7 - i % 8))] *)
Definition mark (i : nat) (bits : list byte) : list byte :=
  alter (fun b => byte_of_Z (Z.lor (Z_of_byte b) (Z.shiftl 1 (7 - Z.of_nat (i mod 8))))) (i / 8)%nat bits.

Record Weighed := { values : list C; scale : R; gap_bits : list byte; valid_count : Z }.

(** One round of the first loop *)
Definition weigh (c : ProcessingConfig) (samples : list C) (missing : list bool) (i : nat)
    (s : Weighed) : result Weighed :=
  let w := window c (Z.of_nat i) in
  let sample := at_ samples i in
  let* _ := require (c_finite A sample) in
  let lost := nth i missing false in
  Ok {| values := <[i := if lost then c_zero A else c_scale A sample w]> (values s);
        scale := r_add A (scale s) w;
        gap_bits := if lost then mark i (gap_bits s) else gap_bits s;
        valid_count := if lost then valid_count s else u32 (valid_count s + 1) |}.

Definition no_time : ProtocolTime := {| seconds := 0; picoseconds := 0 |}.

Definition power_spectrum (c : ProcessingConfig) (samples : list C) (missing : list bool)
    : result Spectrum :=
  let* _ := validate_config c in
  let* _ := require ((Z.of_nat (length samples) =? size c) && (Z.of_nat (length missing) =? size c)) in
  let n := Z.to_nat (size c) in
  let* s := fold_result (weigh c samples missing) (seq 0 n)
              {| values := replicate n (c_zero A); scale := r_of_Z A 0;
                 gap_bits := replicate (n / 8) x00; valid_count := 0 |} in
  let a := stages 64 n 2 (reorder n (values s)) in
  Ok {| stream := 0; sequence := 0; s_rate := rate c; s_size := size c; s_hop := hop c;
        valid := valid_count s; s_hann := hann c; center := 0; discontinuities := 0; ordinal := 0;
        sequence_gaps := 0; begin_time := no_time; end_time := no_time; epoch := no_time;
        power := map (fun i => to_float A (r_div A (c_norm A (at_ a ((i + n / 2) mod n)))
                                                  (r_mul A (scale s) (scale s)))) (seq 0 n);
        gaps := gap_bits s; boundaries := replicate (n / 8 + 4) x00 |}.

(** ** The peak *)

(** The order of floats that are not negative, on their patterns; -0 is 0. *)
Definition float_key (bits : Z) : Z := if bits =? 2 ^ 31 then 0 else bits.

(** [std::max_element]: the index of the first of the largest *)
Definition peak_step (power : list Z) (best i : nat) : nat :=
  if float_key (nth best power 0) <? float_key (nth i power 0) then i else best.
Definition max_element (power : list Z) : nat :=
  fold_left (peak_step power) (seq 1 (length power - 1)) 0%nat.

Definition peak_frequency (s : Spectrum) (peak : nat) : R :=
  r_add A (r_of_Z A (center s))
    (r_div A (r_mul A (r_sub A (r_of_Z A (Z.of_nat peak))
                                (r_div A (r_of_Z A (s_size s)) (r_of_Z A 2)))
                       (r_of_Z A (s_rate s)))
             (r_of_Z A (s_size s))).

Definition detect {Timeline} (create : ProtocolTime -> Z -> option Timeline)
    (advance : Timeline -> Z -> option Timeline) (time : Timeline -> ProtocolTime)
    (s : Spectrum) : result (option R) :=
  let* _ := validate create advance time s in
  if negb (valid s =? s_size s) then Ok None
  else
    let peak := max_element (power s) in
    if float_key (nth peak (power s) 0) =? 0 then Ok None
    else Ok (Some (peak_frequency s peak)).
End Transform.
End PowerSpectrum.

(** * The in-place transform is the recursive one

    The bit-reversed counter, the swaps and the butterflies together compute
    what the recursive radix-2 transform does, with the same operations in the
    same order, so also where they round.  Over an arithmetic whose complex
    operations satisfy the laws of a commutative ring, that is the discrete
    Fourier transform. *)

From Stdlib Require Import ZArith Lia Ring Zmod.Zmod Strings.Byte Strings.String Floats.SpecFloat.
From stdpp Require Import base strings list.
From S2P Require Import Prelude Spectrum.

Module PowerSpectrumProofs.
Import Spectrum PowerSpectrum.
Local Open Scope nat_scope.

(** ** The loops end *)

Lemma carry_stops rounds j bit :
  (bit < 2 ^ N.of_nat rounds)%N ->
  N.land (carry rounds j bit).1 (carry rounds j bit).2 = 0%N.
Proof.
  revert j bit; induction rounds as [|rounds IH]; intros j bit H.
  - assert (bit = 0%N) as -> by (cbn in H; lia). apply N.land_0_r.
  - cbn [carry]. destruct (N.eqb_spec (N.land j bit) 0); [done|]. apply IH.
    rewrite N.shiftr_div_pow2. apply N.Div0.div_lt_upper_bound.
    rewrite Nat2N.inj_succ, N.pow_succ_r' in H. change (2 ^ 1)%N with 2%N. lia.
Qed.

Section Stages.
Context {R C : Type} (A : Arithmetic R C).

Lemma stages_stop rounds size length (a : list C) :
  size < length * 2 ^ rounds -> stages A (S rounds) size length a = stages A rounds size length a.
Proof.
  revert length a; induction rounds as [|rounds IH]; intros length a H.
  - cbn. destruct (Nat.leb_spec length size); [|done]. cbn in H. lia.
  - change (stages A (S (S rounds)) size length a)
      with (if length <=? size then stages A (S rounds) size (length * 2) (stage A size length a) else a).
    rewrite IH; [done|]. cbn in *. lia.
Qed.
End Stages.

(** ** Reading an updated array *)

Lemma at_insert {R C : Type} (A : Arithmetic R C) (a : list C) i j x :
  i < length a -> at_ A (<[i := x]> a) j = if decide (i = j) then x else at_ A a j.
Proof.
  intros Hi. unfold at_. rewrite !nth_lookup. destruct (decide (i = j)) as [<-|Hne].
  - by rewrite list_lookup_insert_eq.
  - by rewrite list_lookup_insert_ne.
Qed.

(** ** Bit reversal *)

Fixpoint rev (n b : nat) : nat :=
  match n with
  | O => 0
  | S n => (b mod 2) * 2 ^ n + rev n (b / 2)
  end.

Lemma rev_bound n b : rev n b < 2 ^ n.
Proof.
  revert b; induction n as [|n IH]; intros b; cbn [rev Nat.pow]; [lia|].
  specialize (IH (b / 2)). pose proof (Nat.mod_upper_bound b 2). nia.
Qed.

Lemma rev_even n b : rev (S n) (2 * b) = rev n b.
Proof.
  cbn [rev]. rewrite (Nat.mul_comm 2 b), Nat.Div0.mod_mul, Nat.div_mul by done. done.
Qed.

Lemma rev_odd n b : rev (S n) (2 * b + 1) = 2 ^ n + rev n b.
Proof.
  cbn [rev]. replace (2 * b + 1) with (1 + b * 2) by lia.
  rewrite Nat.Div0.mod_add, Nat.div_add by done. cbn. lia.
Qed.

(** Checked for every size that [ProcessingConfig::validate] admits *)
Definition reversal_ok (n : nat) : bool :=
  forallb (fun i => (reverse_step (N.of_nat (2 ^ n)) (N.of_nat (rev n i)) =? N.of_nat (rev n (S i)))%N)
    (seq 0 (2 ^ n - 1))
  && forallb (fun i => rev n (rev n i) =? i) (seq 0 (2 ^ n)).

Lemma reversals_ok : forallb reversal_ok (seq 6 6) = true.
Proof. vm_compute. reflexivity. Qed.

Section Reorder.
Context {R C : Type} (A : Arithmetic R C) (n : nat) (Hn : reversal_ok n = true).

Lemma reverse_counts i :
  S i < 2 ^ n -> reverse_step (N.of_nat (2 ^ n)) (N.of_nat (rev n i)) = N.of_nat (rev n (S i)).
Proof.
  intros Hi. apply andb_true_iff in Hn as [H _]. rewrite forallb_forall in H.
  apply N.eqb_eq, H, in_seq. lia.
Qed.

Lemma rev_rev i : i < 2 ^ n -> rev n (rev n i) = i.
Proof.
  intros Hi. apply andb_true_iff in Hn as [_ H]. rewrite forallb_forall in H.
  apply Nat.eqb_eq, H, in_seq. lia.
Qed.

(** After the rounds below [m] the pairs whose smaller index is below [m] are
    exchanged. *)
Lemma reorder_prefix a m :
  length a = 2 ^ n -> 0 < m <= 2 ^ n ->
  exists a', fold_left (fun s i => reorder_step A (N.of_nat (2 ^ n)) i s) (seq 1 (m - 1)) (0%N, a)
             = (N.of_nat (rev n (m - 1)), a')
    /\ length a' = 2 ^ n
    /\ forall t, t < 2 ^ n -> at_ A a' t = at_ A a (if t `min` rev n t <? m then rev n t else t).
Proof.
  intros Ha. induction m as [|[|m] IH]; intros Hm; [lia| |].
  - exists a. assert (H0 : rev n 0 = 0).
    { clear. induction n as [|k IH]; [done|]. cbn [rev]. by rewrite Nat.Div0.mod_0_l, Nat.Div0.div_0_l, IH. }
    split_and!; [by cbn; rewrite H0|done|]. intros t Ht. destruct (Nat.ltb_spec (t `min` rev n t) 1) as [Hlt|]; [|done].
    assert (t = 0 \/ rev n t = 0) as [->|Hr] by lia; [by rewrite H0|].
    rewrite <-(rev_rev t Ht), Hr, H0. by rewrite H0.
  - destruct IH as (a' & Hfold & Hlen & Hat); [lia|].
    replace (S (S m) - 1) with (S (S m - 1)) by lia. rewrite seq_S, fold_left_app, Hfold.
    replace (1 + (S m - 1)) with (S m) by lia. cbn [fold_left reorder_step fst snd].
    replace (S m - 1) with m by lia. unfold reorder_step. cbn [fst snd].
    rewrite reverse_counts by lia. eexists; split_and!; [done| |].
    + destruct (_ <? _)%N; [|done]. unfold swap. by rewrite !length_insert.
    + intros t Ht. pose proof (rev_bound n (S m)) as Hb. pose proof (rev_bound n t) as Hbt.
      pose proof (rev_rev (S m) ltac:(lia)) as Hi. pose proof (rev_rev t Ht) as Hit.
      destruct (N.ltb_spec (N.of_nat (S m)) (N.of_nat (rev n (S m)))) as [Hlt|Hge].
      * unfold swap. rewrite Nat2N.id, !at_insert by (rewrite ?length_insert; lia).
        rewrite !Hat by lia.
        destruct (decide (rev n (S m) = t)) as [<-|Hne1]; [|destruct (decide (S m = t)) as [<-|Hne2]].
        -- rewrite Hi. replace (_ <? S m) with false by (symmetry; apply Nat.ltb_ge; lia).
           by replace (_ <? _) with true by (symmetry; apply Nat.ltb_lt; lia).
        -- rewrite Hi. replace (_ <? S m) with false by (symmetry; apply Nat.ltb_ge; lia).
           by replace (_ <? _) with true by (symmetry; apply Nat.ltb_lt; lia).
        -- assert (rev n t <> S m) by (intros Heq; by rewrite Heq in Hit).
           destruct (Nat.ltb_spec (t `min` rev n t) (S m)), (Nat.ltb_spec (t `min` rev n t) (S (S m)));
             try done; lia.
      * rewrite Hat by lia.
        destruct (Nat.ltb_spec (t `min` rev n t) (S m)), (Nat.ltb_spec (t `min` rev n t) (S (S m)));
          try done; [lia|]. f_equal.
        assert (t `min` rev n t = S m) as Hmin by lia.
        destruct (Nat.min_spec t (rev n t)) as [[? Heq]|[? Heq]]; rewrite Heq in Hmin.
        -- rewrite Hmin in *. lia.
        -- rewrite Hmin in Hit. lia.
Qed.

Lemma reorder_spec a :
  length a = 2 ^ n ->
  length (reorder A (2 ^ n) a) = 2 ^ n
  /\ forall t, t < 2 ^ n -> at_ A (reorder A (2 ^ n) a) t = at_ A a (rev n t).
Proof.
  intros Ha. assert (0 < 2 ^ n) by (pose proof (Nat.pow_nonzero 2 n); lia).
  destruct (reorder_prefix a (2 ^ n) Ha) as (a' & Hfold & Hlen & Hat); [lia|].
  unfold reorder. rewrite Hfold. split; [done|]. intros t Ht. cbn [snd]. rewrite Hat by done.
  by replace (_ <? _) with true by (symmetry; apply Nat.ltb_lt; lia).
Qed.
End Reorder.

(** ** The butterflies *)

Section Blocks.
Context {R C : Type} (A : Arithmetic R C).

Fixpoint pow (w : C) (k : nat) : C :=
  match k with O => c_one A | S k => c_mul A (pow w k) w end.

(** What a butterfly makes of the pair at distance [half] *)
Definition upper (r : C) (a : list C) (i half k : nat) : C :=
  c_add A (at_ A a i) (c_mul A (pow r k) (at_ A a (i + half))).
Definition lower (r : C) (a : list C) (i half k : nat) : C :=
  c_sub A (at_ A a i) (c_mul A (pow r k) (at_ A a (i + half))).

Lemma block_prefix r a base half m :
  m <= half -> base + 2 * half <= length a ->
  exists a', fold_left (fun s k => butterfly A r base half k s) (seq 0 m) (a, c_one A) = (a', pow r m)
    /\ length a' = length a
    /\ (forall k, k < m -> at_ A a' (base + k) = upper r a (base + k) half k)
    /\ (forall k, k < m -> at_ A a' (base + k + half) = lower r a (base + k) half k)
    /\ (forall i, (forall k, k < m -> i <> base + k /\ i <> base + k + half) -> at_ A a' i = at_ A a i).
Proof.
  intros Hm Ha. induction m as [|m IH].
  - exists a. split_and!; [done|done|lia|lia|done].
  - destruct IH as (a' & Hfold & Hlen & Hup & Hlow & Hother); [lia|].
    rewrite seq_S, fold_left_app, Hfold. cbn [fold_left butterfly Nat.add].
    rewrite !(Hother (base + m)), !(Hother (base + m + half)) by lia.
    eexists; split_and!; [done|by rewrite !length_insert| | |].
    + intros k Hk. rewrite !at_insert by (rewrite ?length_insert; lia).
      destruct (decide (base + m + half = base + k)); [lia|].
      destruct (decide (base + m = base + k)); [|apply Hup; lia].
      by replace k with m by lia.
    + intros k Hk. rewrite !at_insert by (rewrite ?length_insert; lia).
      destruct (decide (base + m + half = base + k + half)); [by replace k with m by lia|].
      destruct (decide (base + m = base + k + half)); [lia|]. apply Hlow. lia.
    + intros i Hi. rewrite !at_insert by (rewrite ?length_insert; lia).
      destruct (Hi m) as [H1 H2]; [lia|].
      destruct (decide (base + m + half = i)); [lia|]. destruct (decide (base + m = i)); [lia|].
      apply Hother. intros k Hk. apply Hi. lia.
Qed.

Lemma block_spec r a base half :
  base + 2 * half <= length a ->
  let a' := block A r base half a in
  length a' = length a
  /\ (forall k, k < half -> at_ A a' (base + k) = upper r a (base + k) half k
                         /\ at_ A a' (base + k + half) = lower r a (base + k) half k)
  /\ (forall i, i < base \/ base + 2 * half <= i -> at_ A a' i = at_ A a i).
Proof.
  intros Ha. destruct (block_prefix r a base half half (le_n _) Ha) as (a' & Hfold & Hlen & Hup & Hlow & Hi).
  unfold block. rewrite Hfold. split_and!; [done| |].
  - intros k Hk. split; [by apply Hup|by apply Hlow].
  - intros i H. apply Hi. intros k Hk. lia.
Qed.

(** All blocks of one length *)
Lemma stage_prefix r half a m :
  m * (2 * half) <= length a ->
  let a' := fold_left (fun a base => block A r base half a)
              (map (fun b => b * (2 * half)) (seq 0 m)) a in
  length a' = length a
  /\ (forall b k, b < m -> k < half ->
        at_ A a' (b * (2 * half) + k) = upper r a (b * (2 * half) + k) half k
        /\ at_ A a' (b * (2 * half) + k + half) = lower r a (b * (2 * half) + k) half k)
  /\ (forall i, m * (2 * half) <= i -> at_ A a' i = at_ A a i).
Proof.
  intros Ha. induction m as [|m IH]; [split_and!; [done|lia|done]|].
  destruct IH as (Hlen & Hb & Hi); [lia|]. cbn zeta in *.
  rewrite seq_S, map_app, fold_left_app. cbn [map fold_left Nat.add].
  set (a' := fold_left _ _ a) in *.
  destruct (block_spec r a' (m * (2 * half)) half) as (Hlen' & Hblock & Hother); [lia|].
  split_and!; [congruence| |].
  - intros b k Hbm Hk. destruct (decide (b = m)) as [->|Hne].
    + destruct (Hblock k Hk) as [-> ->]. unfold upper, lower. by rewrite !Hi by lia.
    + assert (b * (2 * half) + 2 * half <= m * (2 * half)) by nia.
      rewrite !Hother by lia. apply Hb; lia.
  - intros i Him. rewrite Hother by lia. apply Hi. lia.
Qed.

Lemma stage_spec half blocks a :
  0 < half -> length a = blocks * (2 * half) ->
  let r := root A (2 * half) in
  let a' := stage A (length a) (2 * half) a in
  length a' = length a
  /\ forall b k, b < blocks -> k < half ->
       at_ A a' (b * (2 * half) + k) = upper r a (b * (2 * half) + k) half k
       /\ at_ A a' (b * (2 * half) + k + half) = lower r a (b * (2 * half) + k) half k.
Proof.
  intros Hh Ha. cbn zeta. unfold stage, bases.
  replace (2 * half / 2) with half by (rewrite Nat.mul_comm, Nat.div_mul; lia).
  replace ((length a + 2 * half - 1) / (2 * half)) with blocks.
  - destruct (stage_prefix (root A (2 * half)) half a blocks) as (Hlen & Hb & _); [lia|]. done.
  - rewrite Ha. apply (Nat.div_unique _ _ _ (2 * half - 1)); lia.
Qed.
End Blocks.

(** ** The recursive transform *)

Section Radix.
Context {R C : Type} (A : Arithmetic R C).

(** The transform of [2 ^ s] values by decimation in time, as it is defined:
    those of the even and of the odd values, combined with the powers of the
    root, each computed by repeated multiplication. *)
Fixpoint fft (s : nat) (x : nat -> C) (k : nat) : C :=
  match s with
  | O => x 0
  | S s =>
      let j := k mod 2 ^ s in
      let u := fft s (fun m => x (2 * m)) j in
      let v := c_mul A (pow A (root A (2 ^ S s)) j) (fft s (fun m => x (2 * m + 1)) j) in
      if k <? 2 ^ s then c_add A u v else c_sub A u v
  end.

Lemma fft_ext s : forall x y k, k < 2 ^ s -> (forall m, m < 2 ^ s -> x m = y m) -> fft s x k = fft s y k.
Proof.
  induction s as [|s IH]; intros x y k Hk H; [apply H; cbn; lia|]. cbn [fft].
  rewrite Nat.pow_succ_r' in H. pose proof (Nat.mod_upper_bound k (2 ^ s) (Nat.pow_nonzero 2 s ltac:(done))).
  rewrite (IH (fun m => x (2 * m)) (fun m => y (2 * m))), (IH (fun m => x (2 * m + 1)) (fun m => y (2 * m + 1)));
    try done; intros m Hm; apply H; lia.
Qed.

Lemma fft_low s x k : k < 2 ^ s ->
  fft (S s) x k = c_add A (fft s (fun m => x (2 * m)) k)
                          (c_mul A (pow A (root A (2 ^ S s)) k) (fft s (fun m => x (2 * m + 1)) k)).
Proof. intros Hk. cbn [fft]. rewrite Nat.mod_small by done. by apply Nat.ltb_lt in Hk as ->. Qed.
Lemma fft_high s x k : k < 2 ^ s ->
  fft (S s) x (k + 2 ^ s) = c_sub A (fft s (fun m => x (2 * m)) k)
                          (c_mul A (pow A (root A (2 ^ S s)) k) (fft s (fun m => x (2 * m + 1)) k)).
Proof.
  intros Hk. cbn [fft]. replace (k + 2 ^ s) with (k + 1 * 2 ^ s) by lia.
  rewrite Nat.Div0.mod_add, Nat.mod_small by done. by replace (_ <? _) with false by (symmetry; apply Nat.ltb_ge; lia).
Qed.

(** After the blocks of [2 ^ s] values: block [b] holds the transform of the
    inputs whose index is the bit reversal of [b] modulo [2 ^ t]. *)
Definition transformed (x : nat -> C) (t s : nat) (a : list C) : Prop :=
  length a = 2 ^ (t + s)
  /\ forall b k, b < 2 ^ t -> k < 2 ^ s -> at_ A a (b * 2 ^ s + k) = fft s (fun m => x (m * 2 ^ t + rev t b)) k.

(** The two halves of a block of double length *)
Lemma halves (x : nat -> C) t b s k :
  k < 2 ^ s ->
  let u := fft s (fun m => x (m * 2 ^ S t + rev (S t) (2 * b))) k in
  let v := fft s (fun m => x (m * 2 ^ S t + rev (S t) (2 * b + 1))) k in
  let w := root A (2 ^ S s) in
  let full := fft (S s) (fun m => x (m * 2 ^ t + rev t b)) in
  c_add A u (c_mul A (pow A w k) v) = full k /\ c_sub A u (c_mul A (pow A w k) v) = full (k + 2 ^ s).
Proof.
  intros Hk u v w full. unfold full. rewrite fft_low, fft_high by done.
  assert (u = fft s (fun m => x (2 * m * 2 ^ t + rev t b)) k) as ->.
  { apply fft_ext; [done|]. intros m _. rewrite rev_even, Nat.pow_succ_r'. f_equal. lia. }
  assert (v = fft s (fun m => x ((2 * m + 1) * 2 ^ t + rev t b)) k) as ->; [|done].
  apply fft_ext; [done|]. intros m _. rewrite rev_odd, Nat.pow_succ_r'. f_equal. lia.
Qed.

Lemma stage_transforms x t s a :
  transformed x (S t) s a -> transformed x t (S s) (stage A (2 ^ (t + S s)) (2 ^ S s) a).
Proof.
  intros [Hlen Ha]. replace (t + S s) with (S t + s) by lia. rewrite <-Hlen, (Nat.pow_succ_r' 2 s).
  destruct (stage_spec A (2 ^ s) (2 ^ t) a) as [Hlen' Hstage].
  { pose proof (Nat.pow_nonzero 2 s). lia. }
  { rewrite Hlen, <-Nat.pow_succ_r', <-Nat.pow_add_r. f_equal. lia. }
  split; [rewrite Hlen', Hlen; f_equal; lia|]. intros b k Hb Hk. rewrite <-Nat.pow_succ_r' in *.
  assert (Hpair : forall k, k < 2 ^ s ->
    at_ A a (b * 2 ^ S s + k) = fft s (fun m => x (m * 2 ^ S t + rev (S t) (2 * b))) k
    /\ at_ A a (b * 2 ^ S s + k + 2 ^ s) = fft s (fun m => x (m * 2 ^ S t + rev (S t) (2 * b + 1))) k).
  { clear k Hk. intros k Hk. rewrite <-!Ha by (rewrite ?Nat.pow_succ_r'; lia).
    split; f_equal; rewrite Nat.pow_succ_r'; lia. }
  destruct (decide (k < 2 ^ s)) as [Hlt|Hge].
  - destruct (Hstage b k Hb Hlt) as [-> _]. unfold upper.
    destruct (Hpair k Hlt) as [-> ->]. by apply halves.
  - assert (Hk' : k - 2 ^ s < 2 ^ s) by (rewrite Nat.pow_succ_r' in Hk; lia).
    destruct (Hstage b (k - 2 ^ s) Hb Hk') as [_ Hlow].
    replace (b * 2 ^ S s + (k - 2 ^ s) + 2 ^ s) with (b * 2 ^ S s + k) in Hlow by lia. rewrite Hlow.
    unfold lower. destruct (Hpair _ Hk') as [-> ->].
    destruct (halves x t b s (k - 2 ^ s) Hk') as [_ Hh]. cbn beta zeta in Hh.
    by replace (k - 2 ^ s + 2 ^ s) with k in Hh by lia.
Qed.

Lemma stages_transform x t s a rounds :
  t < rounds -> transformed x t s a ->
  transformed x 0 (t + s) (stages A rounds (2 ^ (t + s)) (2 ^ S s) a).
Proof.
  revert s a rounds; induction t as [|t IH]; intros s a [|rounds] Hr Ha; try lia; cbn [stages].
  - destruct (Nat.leb_spec (2 ^ S s) (2 ^ (0 + s))) as [Hle|]; [|done].
    rewrite Nat.pow_succ_r' in Hle. pose proof (Nat.pow_nonzero 2 s). cbn in Hle. lia.
  - destruct (Nat.leb_spec (2 ^ S s) (2 ^ (S t + s))) as [_|Hlt];
      [|apply (Nat.pow_lt_mono_r_iff 2) in Hlt; lia].
    replace (S t + s) with (t + S s) by lia. replace (2 ^ S s * 2) with (2 ^ S (S s)).
    + apply IH; [lia|]. by apply stage_transforms.
    + rewrite (Nat.pow_succ_r' 2 (S s)). lia.
Qed.

(** The whole transform, in any arithmetic *)
Lemma transform_is_fft n a :
  6 <= n <= 11 -> length a = 2 ^ n ->
  forall k, k < 2 ^ n -> at_ A (stages A 64 (2 ^ n) 2 (reorder A (2 ^ n) a)) k = fft n (at_ A a) k.
Proof.
  intros Hn Ha k Hkn.
  assert (Hok : reversal_ok n = true).
  { pose proof reversals_ok as H. rewrite forallb_forall in H. apply H, in_seq. lia. }
  destruct (reorder_spec A n Hok a Ha) as [Hlen Hat].
  assert (H0 : transformed (at_ A a) n 0 (reorder A (2 ^ n) a)).
  { split; [by rewrite Nat.add_0_r|]. intros b j Hb Hj. cbn in Hj. replace j with 0 by lia.
    cbn [Nat.pow fft]. by rewrite Nat.mul_1_r, Nat.add_0_r, Hat. }
  apply (stages_transform _ n 0 _ 64) in H0 as [_ Hk]; [|lia].
  rewrite Nat.add_0_r in *. specialize (Hk 0 k ltac:(cbn; lia) Hkn). rewrite Nat.mul_0_l in Hk. cbn [Nat.add] in Hk.
  change (2 ^ 1) with 2 in Hk. rewrite Hk. apply fft_ext; [done|]. intros m _. cbn [Nat.pow rev].
  by rewrite Nat.mul_1_r, Nat.add_0_r.
Qed.
End Radix.

(** ** Exact arithmetic *)

(** The complex operations form a commutative ring, and the roots that the
    code computes with [std::polar] are roots of unity. *)
Class Exact {R C : Type} (A : Arithmetic R C) := {
  c_opp : C -> C;
  c_ring : ring_theory (c_zero A) (c_one A) (c_add A) (c_mul A) (c_sub A) c_opp eq;
  root_two : root A 2 = c_opp (c_one A);
  root_square : forall k, 0 < k < 11 ->
    c_mul A (root A (2 ^ S k)) (root A (2 ^ S k)) = root A (2 ^ k);
}.

Section Fourier.
Context {R C : Type} (A : Arithmetic R C).
Local Notation "x ⊕ y" := (c_add A x y) (at level 50, left associativity).
Local Notation "x ⊗ y" := (c_mul A x y) (at level 40, left associativity).

Fixpoint dsum (f : nat -> C) (n : nat) : C :=
  match n with O => c_zero A | S n => dsum f n ⊕ f n end.

(** The discrete Fourier transform of [n] values *)
Definition dft (x : nat -> C) (n k : nat) : C :=
  dsum (fun m => x m ⊗ pow A (root A n) (m * k)) n.

Context {exact : Exact A}.
Add Ring complex : (c_ring (A := A)).

Lemma dsum_ext f g n : (forall m, m < n -> f m = g m) -> dsum f n = dsum g n.
Proof. induction n as [|n IH]; intros H; [done|]. cbn. rewrite IH, H by auto. done. Qed.

Lemma dsum_add f g n : dsum f n ⊕ dsum g n = dsum (fun m => f m ⊕ g m) n.
Proof. induction n as [|n IH]; cbn; [ring|]. rewrite <-IH. ring. Qed.

Lemma dsum_mul c f n : c ⊗ dsum f n = dsum (fun m => c ⊗ f m) n.
Proof. induction n as [|n IH]; cbn; [ring|]. rewrite <-IH. ring. Qed.

(** Even and odd terms *)
Lemma dsum_split f n : dsum f (2 * n) = dsum (fun m => f (2 * m)) n ⊕ dsum (fun m => f (2 * m + 1)) n.
Proof.
  induction n as [|n IH]; [cbn; ring|]. replace (2 * S n) with (S (S (2 * n))) by lia.
  cbn [dsum]. rewrite IH. replace (S (2 * n)) with (2 * n + 1) by lia. ring.
Qed.

Lemma pow_add w a b : pow A w (a + b) = pow A w a ⊗ pow A w b.
Proof. induction b as [|b IH]; rewrite ?Nat.add_0_r, ?Nat.add_succ_r; cbn; [ring|]. rewrite IH. ring. Qed.

Lemma pow_square w k : pow A (w ⊗ w) k = pow A w (2 * k).
Proof.
  induction k as [|k IH]; [done|]. replace (2 * S k) with (S (S (2 * k))) by lia.
  cbn [pow]. rewrite IH. ring.
Qed.

Lemma root_half s : s < 11 -> pow A (root A (2 ^ S s)) (2 ^ s) = c_opp (c_one A).
Proof.
  induction s as [|s IH]; intros Hs.
  - cbn [Nat.pow Nat.mul Nat.add pow]. rewrite root_two. ring.
  - rewrite (Nat.pow_succ_r' 2 s), <-pow_square, root_square by lia. apply IH. lia.
Qed.

Lemma root_full s k m : s < 11 -> pow A (root A (2 ^ S s)) (2 * m * (k + 2 ^ s))
  = pow A (root A (2 ^ S s)) (2 * m * k).
Proof.
  intros Hs. rewrite Nat.mul_add_distr_l, pow_add.
  enough (pow A (root A (2 ^ S s)) (2 * m * 2 ^ s) = c_one A) as -> by ring.
  induction m as [|m IH]; [done|].
  replace (2 * S m * 2 ^ s) with (2 ^ s + 2 ^ s + 2 * m * 2 ^ s) by lia.
  rewrite !pow_add, IH, root_half by done. ring.
Qed.

(** ** The recursive transform is the discrete one *)

(** The two halves of a transform of double length *)
Lemma dft_halves (x : nat -> C) s k :
  s < 11 -> k < 2 ^ s ->
  let u := dft (fun m => x (2 * m)) (2 ^ s) k in
  let v := dft (fun m => x (2 * m + 1)) (2 ^ s) k in
  let w := root A (2 ^ S s) in
  u ⊕ pow A w k ⊗ v = dft x (2 ^ S s) k /\ c_sub A u (pow A w k ⊗ v) = dft x (2 ^ S s) (k + 2 ^ s).
Proof.
  intros Hs Hk u v w.
  assert (Hroot : forall m, pow A (root A (2 ^ s)) (m * k) = pow A w (2 * m * k)).
  { intros m. destruct (decide (s = 0)) as [->|Hs0].
    - cbn in Hk. replace k with 0 by lia. by rewrite !Nat.mul_0_r.
    - rewrite <-(root_square s) by lia. rewrite pow_square. f_equal. lia. }
  assert (Hu : u = dsum (fun m => x (2 * m) ⊗ pow A w (2 * m * k)) (2 ^ s)).
  { apply dsum_ext. intros m _. by rewrite Hroot. }
  assert (Hv : v = dsum (fun m => x (2 * m + 1) ⊗ pow A w (2 * m * k)) (2 ^ s)).
  { apply dsum_ext. intros m _. by rewrite Hroot. }
  unfold dft. rewrite !Nat.pow_succ_r', !dsum_split, Hu, Hv. rewrite <-!Nat.pow_succ_r'. fold w. split.
  - f_equal. rewrite dsum_mul. apply dsum_ext. intros m _.
    replace ((2 * m + 1) * k) with (2 * m * k + k) by lia. rewrite pow_add. ring.
  - rewrite (Rsub_def (c_ring (A := A))). f_equal.
    + apply dsum_ext. intros m _. unfold w. by rewrite root_full.
    + transitivity (c_opp (c_one A) ⊗ pow A w k
          ⊗ dsum (fun m => x (2 * m + 1) ⊗ pow A w (2 * m * k)) (2 ^ s)); [ring|].
      rewrite dsum_mul. apply dsum_ext. intros m _.
      replace ((2 * m + 1) * (k + 2 ^ s)) with (2 * m * (k + 2 ^ s) + k + 2 ^ s) by lia.
      rewrite !pow_add. unfold w. rewrite root_full, root_half by done. ring.
Qed.

Lemma fft_is_dft s : s <= 11 -> forall x k, k < 2 ^ s -> fft A s x k = dft x (2 ^ s) k.
Proof.
  induction s as [|s IH]; intros Hs x k Hk.
  - cbn in Hk. replace k with 0 by lia. cbn. ring.
  - rewrite Nat.pow_succ_r' in Hk. destruct (decide (k < 2 ^ s)) as [Hlt|Hge].
    + rewrite fft_low, !IH by (done || lia). by apply dft_halves; [lia|].
    + replace k with (k - 2 ^ s + 2 ^ s) by lia. rewrite fft_high, !IH by lia. apply dft_halves; lia.
Qed.
End Fourier.

(** ** Bit maps *)

(** Bit [i] of a map, the first in the most significant place *)
Definition bit_at (bits : list byte) (i : nat) : bool :=
  Z.testbit (Z_of_byte (nth (i / 8) bits x00)) (7 - Z.of_nat (i mod 8)).

Lemma mark_length i bits : length (mark i bits) = length bits.
Proof. apply length_alter. Qed.

Lemma bit_at_mark i j bits :
  i / 8 < length bits -> bit_at (mark i bits) j = (i =? j) || bit_at bits j.
Proof.
  intros Hi. unfold bit_at, mark. rewrite !nth_lookup.
  pose proof (Nat.mod_upper_bound i 8). pose proof (Nat.mod_upper_bound j 8).
  destruct (decide (i / 8 = j / 8)) as [Heq|Hne].
  - rewrite <-Heq, list_lookup_alter_eq. destruct (lookup_lt_is_Some_2 bits (i / 8) Hi) as [b ->].
    cbn [fmap option_fmap option_map default from_option id].
    rewrite Z_of_byte_of_Z. change 256%Z with (2 ^ 8)%Z.
    rewrite Z.mod_pow2_bits_low, Z.lor_spec, Z.shiftl_spec by lia.
    rewrite orb_comm. f_equal.
    assert (Hij : (i =? j) = (i mod 8 =? j mod 8)).
    { destruct (Nat.eqb_spec (i mod 8) (j mod 8)) as [Hm|Hm].
      - apply Nat.eqb_eq. rewrite (Nat.div_mod_eq i 8), (Nat.div_mod_eq j 8). lia.
      - apply Nat.eqb_neq. congruence. }
    rewrite Hij. destruct (Nat.eqb_spec (i mod 8) (j mod 8)) as [->|Hm]; [by rewrite Z.sub_diag|].
    destruct (Z.ltb_spec (7 - Z.of_nat (j mod 8) - (7 - Z.of_nat (i mod 8))) 0) as [Hlt|Hge].
    + by rewrite Z.testbit_neg_r.
    + change 1%Z with (2 ^ 0)%Z. apply Z.pow2_bits_false. lia.
  - rewrite list_lookup_alter_ne by done.
    replace (i =? j) with false; [done|]. symmetry. apply Nat.eqb_neq. congruence.
Qed.

(** Marking every position that a list of flags names *)
Definition marks (flag : nat -> bool) (l : list nat) (bits : list byte) : list byte :=
  fold_left (fun bits i => if flag i then mark i bits else bits) l bits.

Lemma marks_length flag l bits : length (marks flag l bits) = length bits.
Proof.
  unfold marks. revert bits; induction l as [|i l IH]; intros bits; [done|]. cbn. rewrite IH.
  destruct (flag i); [apply mark_length|done].
Qed.

Lemma bit_at_marks flag n bits i :
  (forall j, j < n -> j / 8 < length bits) ->
  bit_at (marks flag (seq 0 n) bits) i = (flag i && (i <? n)) || bit_at bits i.
Proof.
  intros H. induction n as [|n IH].
  - cbn. by rewrite andb_false_r.
  - unfold marks. rewrite seq_S, fold_left_app. cbn [fold_left Nat.add]. fold (marks flag (seq 0 n) bits).
    assert (Hlt : (i <? S n) = (i <? n) || (n =? i)).
    { destruct (Nat.ltb_spec i n), (Nat.eqb_spec n i), (Nat.ltb_spec i (S n)); lia || done. }
    rewrite Hlt. destruct (flag n) eqn:Hf.
    + rewrite bit_at_mark, IH by (rewrite ?marks_length; auto).
      destruct (Nat.eqb_spec n i) as [->|]; [by rewrite Hf, orb_true_r|].
      by rewrite !orb_false_r.
    + rewrite IH by auto. destruct (Nat.eqb_spec n i) as [->|]; [by rewrite Hf|]. by rewrite orb_false_r.
Qed.

Lemma bit_at_zeros n i : bit_at (replicate n x00) i = false.
Proof.
  unfold bit_at. rewrite nth_lookup. destruct (replicate n x00 !! (i / 8)) as [b|] eqn:E.
  - apply lookup_replicate in E as [-> _]. apply Z.testbit_0_l.
  - apply Z.testbit_0_l.
Qed.

(** ** The spectrum *)

Section Spectra.
Context {R C : Type} (A : Arithmetic R C).
Context (c : ProcessingConfig) (samples : list C) (missing : list bool).

(** What the transform is applied to: the window is one where [hann] is off,
    and lost samples count as zero. *)
Definition weighed (i : nat) : C :=
  if nth i missing false then c_zero A else c_scale A (at_ A samples i) (window A c (Z.of_nat i)).
Definition total_weight (n : nat) : R :=
  fold_left (fun sum i => r_add A sum (window A c (Z.of_nat i))) (seq 0 n) (r_of_Z A 0).
Definition present (n : nat) : nat := length (filter (fun i => nth i missing false = false) (seq 0 n)).

Definition start (n : nat) : Weighed (R := R) (C := C) :=
  {| values := replicate n (c_zero A); scale := r_of_Z A 0; gap_bits := replicate (n / 8) x00;
     valid_count := 0 |}.

Lemma weigh_prefix n m :
  (forall i, i < n -> c_finite A (at_ A samples i) = true) -> m <= n -> (Z.of_nat n < 2 ^ 32)%Z ->
  fold_result (weigh A c samples missing) (seq 0 m) (start n)
  = Ok {| values := map weighed (seq 0 m) ++ replicate (n - m) (c_zero A); scale := total_weight m;
          gap_bits := marks (fun i => nth i missing false) (seq 0 m) (replicate (n / 8) x00);
          valid_count := Z.of_nat (present m) |}.
Proof.
  intros Hfin Hm Hn. induction m as [|m IH]; [cbn; by rewrite Nat.sub_0_r|].
  rewrite seq_S, fold_result_app, IH by lia. cbn [bind fold_result Nat.add]. unfold weigh.
  rewrite Hfin by lia. cbn [require negb throw_if bind values scale gap_bits valid_count].
  f_equal. f_equal.
  - rewrite map_app, <-app_assoc. cbn [map]. replace (n - m) with (S (n - S m)) by lia. cbn [replicate].
    rewrite insert_app_r_alt by (rewrite length_map, length_seq; lia).
    rewrite length_map, length_seq, Nat.sub_diag. done.
  - unfold total_weight. by rewrite seq_S, fold_left_app.
  - unfold marks. by rewrite fold_left_app.
  - unfold present. rewrite seq_S, filter_app, length_app. cbn [Nat.add].
    rewrite filter_cons, filter_nil.
    pose proof (length_filter (fun i => nth i missing false = false) (seq 0 m)) as Hl.
    rewrite length_seq in Hl.
    destruct (nth m missing false); cbn [decide]; [destruct (decide (true = false)); [done|]|destruct (decide (false = false)); [|done]].
    + by rewrite Nat.add_0_r.
    + rewrite u32_small by (unfold in_u32; lia). cbn [length]. lia.
Qed.

(** The sizes that pass the checks are the powers of two from 64 to 2048. *)
Lemma valid_size : validate_config c = Ok tt ->
  exists n, 6 <= n <= 11 /\ size c = (2 ^ Z.of_nat n)%Z /\ Z.to_nat (size c) = 2 ^ n.
Proof.
  unfold validate_config, require. intros H. apply bind_ok in H as ([] & H%throw_if_ok & _).
  reflect_bools. unfold has_single_bit in *. reflect_bools.
  pose proof (land_pred_power (size c) ltac:(lia) ltac:(done)) as Hp.
  exists (Z.to_nat (Z.log2 (size c))).
  pose proof (Z.log2_le_mono 64 (size c) ltac:(lia)). pose proof (Z.log2_le_mono (size c) 2048 ltac:(lia)).
  change (Z.log2 64) with 6%Z in *. change (Z.log2 2048) with 11%Z in *.
  rewrite Z2Nat.id by lia. split_and!; [lia|lia|done|].
  apply Nat2Z.inj. by rewrite Nat2Z.inj_pow, !Z2Nat.id by lia.
Qed.

Lemma shape (H : validate_config c = Ok tt) :
  Z.of_nat (length samples) = size c -> Z.of_nat (length missing) = size c ->
  (forall i, i < length samples -> c_finite A (at_ A samples i) = true) ->
  let n := Z.to_nat (size c) in
  let y := stages A 64 n 2 (reorder A n (map weighed (seq 0 n))) in
  power_spectrum A c samples missing = Ok
    {| stream := 0; sequence := 0; s_rate := rate c; s_size := size c; s_hop := hop c;
       valid := Z.of_nat (present n); s_hann := hann c; center := 0; discontinuities := 0;
       ordinal := 0; sequence_gaps := 0; begin_time := no_time; end_time := no_time;
       epoch := no_time;
       power := map (fun i => to_float A (r_div A (c_norm A (at_ A y ((i + n / 2) mod n)))
                                  (r_mul A (total_weight n) (total_weight n)))) (seq 0 n);
       gaps := marks (fun i => nth i missing false) (seq 0 n) (replicate (n / 8) x00);
       boundaries := replicate (n / 8 + 4) x00 |}.
Proof.
  intros Hs Hm Hfin n y. destruct (valid_size H) as (k & Hk & Hsize & Hn).
  unfold power_spectrum. rewrite H, Hs, Hm, Z.eqb_refl. cbn [bind andb require negb throw_if].
  change (require true) with (Ok tt). cbn [bind]. fold n.
  assert (length samples = n) as Hl by (unfold n; lia).
  assert (2 ^ k <= 2 ^ 11) by (apply Nat.pow_le_mono_r; lia). change (2 ^ 11) with 2048 in *.
  pose proof (weigh_prefix n n ltac:(intros i Hi; apply Hfin; lia) ltac:(lia) ltac:(lia)) as Hw.
  unfold start in Hw. rewrite Hw.
  cbn [bind values scale gap_bits valid_count]. by rewrite Nat.sub_diag, app_nil_r.
Qed.
End Spectra.

(** C32: In any arithmetic, so also in one that rounds, the spectrum of a window
    holds, with the centre frequency in the middle, the squared magnitudes of the
    recursive radix-2 transform of the weighed samples, lost samples being zero,
    divided by the square of the sum of the weights, bit for bit; its bit map
    tells exactly which samples are lost, and [valid] counts the others.  If the
    arithmetic is exact, a commutative ring with the roots of unity, the
    recursive transform is the discrete Fourier transform. *)
Theorem power_spectrum_is_fft {R C : Type} (A : Arithmetic R C)
    (c : ProcessingConfig) (samples : list C) (missing : list bool) :
  validate_config c = Ok tt ->
  Z.of_nat (length samples) = size c -> Z.of_nat (length missing) = size c ->
  (forall i, i < length samples -> c_finite A (at_ A samples i) = true) ->
  let n := Z.to_nat (size c) in
  let bin := fft A (Nat.log2 n) (weighed A c samples missing) in
  let total := total_weight A c n in
  (exists s, power_spectrum A c samples missing = Ok s
    /\ length (power s) = n /\ length (gaps s) = n / 8
    /\ (forall i, i < n -> nth i (power s) 0%Z
          = to_float A (r_div A (c_norm A (bin ((i + n / 2) mod n))) (r_mul A total total)))
    /\ (forall i, i < n -> bit_at (gaps s) i = nth i missing false)
    /\ valid s = Z.of_nat (length (filter (fun i => nth i missing false = false) (seq 0 n))))
  /\ (Exact A -> forall k, k < n -> bin k = dft A (weighed A c samples missing) n k).
Proof.
  intros H Hs Hm Hfin n bin total. destruct (valid_size c H) as (k & Hk & _ & Hn). fold n in Hn.
  assert (Nat.log2 n = k) as Hlog by (rewrite Hn; apply Nat.log2_pow2; lia).
  split; [|intros Hexact j Hj; unfold bin; rewrite Hlog, Hn in *; apply (fft_is_dft A (exact := Hexact)); [apply Hk|done]].
  eexists. split; [by apply shape|]. fold n. cbn [power gaps valid].
  assert (Hn0 : n <> 0) by (rewrite Hn; by apply Nat.pow_nonzero).
  pose proof (transform_is_fft A k (map (weighed A c samples missing) (seq 0 n)) Hk) as Hfft.
  rewrite length_map, length_seq in Hfft. specialize (Hfft Hn).
  assert (Hat : forall m, m < n -> at_ A (map (weighed A c samples missing) (seq 0 n)) m
                             = weighed A c samples missing m).
  { intros m Hlt. unfold at_. rewrite nth_lookup, list_lookup_fmap, lookup_seq_lt by done. done. }
  split_and!; [by rewrite length_map, length_seq|by rewrite marks_length, length_replicate| | |done].
  - intros i Hi. rewrite nth_lookup, list_lookup_fmap, lookup_seq_lt by done.
    cbn [fmap option_fmap option_map default from_option id Nat.add].
    do 3 f_equal. pose proof (Nat.mod_upper_bound (i + n / 2) n Hn0). rewrite Hn at 1 2.
    rewrite Hfft by (rewrite <-Hn; done). unfold bin. rewrite Hlog.
    apply fft_ext; [by rewrite <-Hn|]. intros m Hlt. apply Hat. by rewrite Hn.
  - intros i Hi. rewrite bit_at_marks.
    + rewrite bit_at_zeros, orb_false_r. replace (i <? n) with true by (symmetry; by apply Nat.ltb_lt).
      apply andb_true_r.
    + intros j Hj. rewrite length_replicate. apply Nat.Div0.div_lt_upper_bound.
      enough (n = 8 * (n / 8)) by lia. apply Nat.Div0.div_exact. rewrite Hn.
      replace k with (k - 3 + 3) by lia. rewrite Nat.pow_add_r. apply Nat.Div0.mod_mul.
Qed.

(** ** The peak *)

Lemma max_element_spec l :
  l <> [] ->
  let key i := float_key (nth i l 0%Z) in
  max_element l < length l
  /\ (forall i, i < length l -> (key i <= key (max_element l))%Z)
  /\ (forall i, i < max_element l -> (key i < key (max_element l))%Z).
Proof.
  intros Hl key. assert (0 < length l) by (destruct l; [done|cbn; lia]).
  enough (Hg : forall m, m < length l ->
    let best := fold_left (peak_step l) (seq 1 m) 0 in
    best <= m /\ (forall i, i <= m -> (key i <= key best)%Z)
    /\ (forall i, i < best -> (key i < key best)%Z)).
  { destruct (Hg (length l - 1)) as (Hb & Hle & Hlt); [lia|]. unfold max_element.
    split_and!; [lia|intros i Hi; apply Hle; lia|done]. }
  induction m as [|m IH]; intros Hm.
  - cbn. split_and!; [lia|intros i Hi; by replace i with 0 by lia|lia].
  - destruct IH as (Hb & Hle & Hlt); [lia|]. cbn zeta in *.
    rewrite seq_S, fold_left_app. cbn [fold_left Nat.add].
    set (best := fold_left (peak_step l) (seq 1 m) 0) in *. unfold peak_step.
    fold (key best) (key (S m)). destruct (Z.ltb_spec (key best) (key (S m))) as [Hnew|Hold].
    + split_and!; [lia| |].
      * intros i Hi. destruct (decide (i = S m)) as [->|]; [lia|]. specialize (Hle i). lia.
      * intros i Hi. specialize (Hle i). lia.
    + split_and!; [lia| |done]. intros i Hi. destruct (decide (i = S m)) as [->|]; [done|].
      apply Hle. lia.
Qed.

Section Detector.
Context {R C : Type} (A : Arithmetic R C).
Context {Timeline : Type} (create : ProtocolTime -> Z -> option Timeline)
  (advance : Timeline -> Z -> option Timeline) (time : Timeline -> ProtocolTime).

Lemma validate_powers s : validate create advance time s = Ok tt ->
  Z.of_nat (length (power s)) = s_size s /\ (64 <= s_size s)%Z
  /\ Forall (fun p => usable_power p = true) (power s).
Proof.
  unfold validate. intros H. apply bind_ok in H as ([] & _ & H).
  apply bind_ok in H as ([] & Hc & H). apply bind_ok in H as ([] & _ & H).
  apply bind_ok in H as ([] & Hl%throw_if_ok & H). do 3 (apply bind_ok in H as ([] & _ & H)).
  apply bind_ok in H as ([] & _ & H). unfold validate_config in Hc.
  apply bind_ok in Hc as ([] & Hc%throw_if_ok & _). cbn [Spectrum.size] in Hc. reflect_bools.
  split_and!; [done|done|]. rewrite for_each_ok in H. apply Forall_forall. intros p Hp.
  specialize (H p Hp). apply throw_if_ok in H. by apply negb_false_iff in H.
Qed.

(** On a valid spectrum the detector reports nothing exactly if a sample is
    lost or every power is zero; otherwise it reports the frequency of the
    first bin of the greatest power. *)
Theorem detect_spec (s : Spectrum) :
  validate create advance time s = Ok tt -> Forall in_u32 (power s) ->
  let key i := float_key (nth i (power s) 0%Z) in
  (valid s <> s_size s \/ (forall i, i < length (power s) -> key i = 0%Z))
    /\ detect A create advance time s = Ok None
  \/ valid s = s_size s
     /\ exists peak, peak < length (power s) /\ (0 < key peak)%Z
          /\ (forall i, i < length (power s) -> (key i <= key peak)%Z)
          /\ (forall i, i < peak -> (key i < key peak)%Z)
          /\ detect A create advance time s = Ok (Some (peak_frequency A s peak)).
Proof.
  intros H Hrange key. unfold detect. rewrite H. cbn [bind].
  destruct (Z.eqb_spec (valid s) (s_size s)) as [Hv|Hv]; cbn [negb]; [|left; by split; [left|]].
  destruct (validate_powers s H) as (Hl & Hs & Husable).
  destruct (max_element_spec (power s)) as (Hpeak & Hle & Hlt).
  { intros Hnil. rewrite Hnil in Hl. cbn in Hl. lia. }
  set (peak := max_element (power s)) in *. fold (key peak) in *.
  assert (Hpos : forall i, i < length (power s) -> (0 <= key i)%Z).
  { intros i Hi. unfold key, float_key. destruct (_ =? _)%Z; [done|].
    destruct (lookup_lt_is_Some_2 (power s) i Hi) as [p Hp]. rewrite nth_lookup, Hp.
    by apply (Forall_lookup_1 _ _ _ _ Hrange Hp). }
  destruct (Z.eqb_spec (key peak) 0) as [Hz|Hz].
  - left. split; [|done]. right. intros i Hi. specialize (Hle i Hi). specialize (Hpos i Hi).
    fold (key i) in Hle. lia.
  - right. split; [done|]. exists peak. specialize (Hpos peak Hpeak).
    split_and!; [done|lia|exact Hle|exact Hlt|done].
Qed.
End Detector.

(** ** An exact arithmetic: the field of 12289 elements

    It has roots of unity of every order up to 4096.  Real numbers are
    fractions, and angles are measured in half turns. *)

Definition turn (angle : Z * Z) : Zmod 12289 :=
  Zmod.pow (Zmod.of_Z 12289 11) ((6144 * angle.1 / angle.2) mod 12288).

Definition field_arithmetic : Arithmetic (Z * Z) (Zmod 12289) := {|
  r_of_Z z := (z, 1%Z);  r_half := (1, 2)%Z;  r_pi := (1, 1)%Z;
  r_add x y := (x.1 * y.2 + y.1 * x.2, x.2 * y.2)%Z;
  r_sub x y := (x.1 * y.2 - y.1 * x.2, x.2 * y.2)%Z;
  r_mul x y := (x.1 * y.1, x.2 * y.2)%Z;  r_div x y := (x.1 * y.2, x.2 * y.1)%Z;
  r_cos x := x;
  c_zero := Zmod.zero;  c_one := Zmod.one;
  c_add := Zmod.add;  c_sub := Zmod.sub;  c_mul := Zmod.mul;
  c_scale x r := Zmod.mul x (Zmod.of_Z 12289 r.1);
  c_polar _ := turn;
  c_norm x := (Zmod.unsigned (Zmod.mul x x), 1%Z);
  c_finite _ := true;
  to_float x := (x.1 mod 2 ^ 30)%Z;
|}.

#[export] Instance field_exact : Exact field_arithmetic.
Proof.
  exists Zmod.opp.
  - exact (Zmod.ring_theory 12289).
  - apply Zmod.unsigned_inj. vm_compute. reflexivity.
  - intros k Hk. apply Zmod.unsigned_inj.
    do 10 (destruct k as [|k]; [try lia; vm_compute; reflexivity|]).
    destruct k; [vm_compute; reflexivity|lia].
Defined.

(** A tone in bin 5, of which sample 9 is lost *)
Definition tone_config : ProcessingConfig :=
  {| rate := 1000000; size := 64; overlap := 0; hann := false |}%Z.
Definition tone : list (Zmod 12289) :=
  map (fun m => pow field_arithmetic (root field_arithmetic 64) (59 * m)) (seq 0 64).
Definition tone_missing : list bool := map (fun i => i =? 9) (seq 0 64).

(** The field is exact: the transform of the tone is the discrete one. *)
Example tone_is_dft :
  fft field_arithmetic 6 (weighed field_arithmetic tone_config tone tone_missing) 5
  = dft field_arithmetic (weighed field_arithmetic tone_config tone tone_missing) 64 5.
Proof. apply Zmod.unsigned_inj. vm_compute. reflexivity. Qed.

(** ** An arithmetic that rounds: binary64

    The operations round to nearest even; cosine and sine are sums of their
    series, evaluated with these operations, where the code calls the library of
    the machine. *)

Local Abbreviation sf_add := (SFadd 53 1024).
Local Abbreviation sf_sub := (SFsub 53 1024).
Local Abbreviation sf_mul := (SFmul 53 1024).
Local Abbreviation sf_div := (SFdiv 53 1024).
Definition sf_of_Z (z : Z) : spec_float := binary_normalize 53 1024 z 0 false.

(** Terms of the series of degrees [d], [d + 2], ...; [term] is the last one. *)
Fixpoint series (terms : nat) (d : Z) (x2 term : spec_float) : spec_float :=
  match terms with
  | O => term
  | S terms =>
      let next := SFopp (sf_div (sf_mul term x2) (sf_of_Z ((d + 1) * (d + 2)))) in
      sf_add term (series terms (d + 2) x2 next)
  end.
Definition sf_cos (x : spec_float) : spec_float := series 14 0 (sf_mul x x) (sf_of_Z 1).
Definition sf_sin (x : spec_float) : spec_float := series 14 1 (sf_mul x x) x.

Definition sf_finite (x : spec_float) : bool :=
  match x with S754_zero _ | S754_finite _ _ _ => true | _ => false end.

(** The pattern of the nearest binary32 *)
Definition binary32 (x : spec_float) : Z :=
  let sign (s : bool) := if s then (2 ^ 31)%Z else 0%Z in
  match x with
  | S754_zero s => sign s
  | S754_infinity s => (sign s + 2139095040)%Z
  | S754_nan => 2143289344%Z
  | S754_finite s m e =>
      match binary_round 24 128 s m e with
      | S754_finite s m e => (sign s + if (Zpos m <? 2 ^ 23)%Z then Zpos m else (e + 150) * 2 ^ 23 + (Zpos m - 2 ^ 23))%Z
      | S754_infinity s => (sign s + 2139095040)%Z
      | _ => sign s
      end
  end.

Definition double_arithmetic : Arithmetic spec_float (spec_float * spec_float) := {|
  r_of_Z := sf_of_Z;  r_half := S754_finite false 4503599627370496 (-53);
  r_pi := S754_finite false 7074237752028440 (-51);
  r_add := sf_add;  r_sub := sf_sub;  r_mul := sf_mul;  r_div := sf_div;  r_cos := sf_cos;
  c_zero := (S754_zero false, S754_zero false);  c_one := (sf_of_Z 1, S754_zero false);
  c_add x y := (sf_add x.1 y.1, sf_add x.2 y.2);  c_sub x y := (sf_sub x.1 y.1, sf_sub x.2 y.2);
  c_mul x y := (sf_sub (sf_mul x.1 y.1) (sf_mul x.2 y.2), sf_add (sf_mul x.1 y.2) (sf_mul x.2 y.1));
  c_scale x r := (sf_mul x.1 r, sf_mul x.2 r);
  c_polar r angle := (sf_mul r (sf_cos angle), sf_mul r (sf_sin angle));
  c_norm x := sf_add (sf_mul x.1 x.1) (sf_mul x.2 x.2);
  c_finite x := sf_finite x.1 && sf_finite x.2;
  to_float := binary32;
|}.

(** A constant level of which sample 9 is lost: the middle has (63 / 64) ^ 2. *)
Definition level : list (spec_float * spec_float) := replicate 64 (sf_of_Z 1, S754_zero false).

Lemma power_spectrum_is_fft_witness :
  exists s, power_spectrum double_arithmetic tone_config level tone_missing = Ok s
    /\ nth 32 (power s) 0%Z = 1064833024%Z /\ valid s = 63%Z /\ bit_at (gaps s) 9 = true.
Proof.
  destruct (power_spectrum_is_fft double_arithmetic tone_config level tone_missing)
    as [(s & Hs & _ & _ & Hpower & Hgaps & Hvalid) _]; [vm_compute; reflexivity..| |].
  { intros i Hi. unfold at_, level. rewrite nth_lookup, lookup_replicate_2; [vm_compute; reflexivity|exact Hi]. }
  exists s. split; [exact Hs|]. split; [rewrite Hpower by (vm_compute; lia); vm_compute; reflexivity|].
  split; [rewrite Hvalid; vm_compute; reflexivity|].
  rewrite Hgaps by (vm_compute; lia). vm_compute. reflexivity.
Defined.

(** A spectrum whose greatest power is in bins 40 and 41 *)
Definition peaked : Spectrum :=
  {| stream := 2; sequence := 7; s_rate := 1000; s_size := 64; s_hop := 32; valid := 64;
     s_hann := true; center := 100000000; discontinuities := 1; ordinal := 32;
     sequence_gaps := 0; epoch := {| seconds := 5; picoseconds := 0 |};
     begin_time := {| seconds := 5; picoseconds := 32000000000 |};
     end_time := {| seconds := 5; picoseconds := 96000000000 |};
     power := replicate 40 1065353216 ++ [1073741824; 1073741824] ++ replicate 22 2147483648;
     gaps := replicate 8 x00; boundaries := replicate 12 x00 |}%Z.

Lemma detect_spec_witness :
  detect field_arithmetic SpectrumProofs.clock_create SpectrumProofs.clock_advance
    SpectrumProofs.clock_time peaked = Ok (Some (peak_frequency field_arithmetic peaked 40)).
Proof.
  destruct (detect_spec field_arithmetic SpectrumProofs.clock_create SpectrumProofs.clock_advance
    SpectrumProofs.clock_time peaked) as [[[H|H] _]|(_ & peak & Hp & _ & Hle & Hlt & Hd)].
  - vm_compute. reflexivity.
  - apply Forall_forall. intros p Hp. unfold peaked, power in Hp.
    rewrite !elem_of_app, !elem_of_cons, !elem_of_replicate in Hp.
    unfold in_u32. destruct Hp as [[-> _]|[[->|[->|Hp]]|[-> _]]]; [lia..| |lia].
    by apply elem_of_nil in Hp.
  - exfalso. apply H. reflexivity.
  - specialize (H 40 ltac:(cbn; lia)). discriminate H.
  - replace 40 with peak; [exact Hd|].
    destruct (decide (peak < 40)) as [Hb|Hb].
    + specialize (Hle 40 ltac:(cbn; lia)). exfalso. revert Hle. do 40 (destruct peak as [|peak]; [vm_compute; congruence|]). lia.
    + destruct (decide (peak = 40)) as [|Hne]; [done|]. specialize (Hlt 40 ltac:(lia)). exfalso.
      revert Hlt Hp. do 64 (destruct peak as [|peak]; [lia || vm_compute; congruence|]). cbn. lia.
Defined.
End PowerSpectrumProofs.
