(* ===== verification/Assembler.v ===== *)
(** * Assembling windows of samples (SampleAssembler of src/src/vita/processing.cpp)

    Datagrams are first shown to [observe], which keeps what it saw of their
    headers as hints; the VITA runtime then delivers their samples to
    [receive], which matches a hint and queues a packet by time; [progress]
    consumes packets in order, [append] emits the spectrum of every complete
    window.  The decoder, the time line and the order of times belong to the
    VITA runtime library and are parameters, and so is the callback [emit],
    whose outcome may depend on everything emitted before.  A method returns
    the new state also when it throws. *)

From Stdlib Require Import ZArith Lia Strings.Byte Strings.String.
From stdpp Require Import base strings list.
From S2P Require Import Prelude Spectrum PowerSpectrum.

Module Assembler.
Import Spectrum PowerSpectrum.
Local Open Scope Z_scope.

Record Packet (C : Type) := {
  p_time : ProtocolTime; p_center : Z; p_samples : list C; p_count : Z; p_first : bool;
  p_final : bool; arrival : Z }.
Arguments p_time {C} _. Arguments p_center {C} _. Arguments p_samples {C} _.
Arguments p_count {C} _. Arguments p_first {C} _. Arguments p_final {C} _. Arguments arrival {C} _.

Record Sample (C : Type) := { s_value : C; s_missing : bool; s_first : bool; s_final : bool }.
Arguments s_value {C} _. Arguments s_missing {C} _. Arguments s_first {C} _. Arguments s_final {C} _.
Arguments Build_Sample {C} _ _ _ _.

Record Hint := { h_time : ProtocolTime; h_count : Z; h_first : bool; h_final : bool }.

(** ** What the library delivers *)

Inductive Frame := single | first | middle | final.
Inductive PacketType := signal | context | other_packet.

(** A decoded datagram, [T] being the type of trailers *)
Record View (T : Type) := {
  v_stream : Z; v_type : PacketType; v_utc : bool; v_picoseconds : bool; v_integer : Z;
  v_fractional : Z; v_count : Z; v_trailer : option T }.
Arguments v_stream {T} _. Arguments v_type {T} _. Arguments v_utc {T} _.
Arguments v_picoseconds {T} _. Arguments v_integer {T} _. Arguments v_fractional {T} _.
Arguments v_count {T} _. Arguments v_trailer {T} _.

(** A borrowed signal: a field that is not a frequency is [None]; so is a
    fragment that cannot be had, and [Some None] is one that is not made of
    16-bit samples. *)
Record SignalRx := {
  sample_time : ProtocolTime; confidence_known : bool; valid_data : bool;
  rate_q20 : option Z; center_q20 : option Z; fragments : list (option (option (list (Z * Z)))) }.

Section Assembler.
Context {R C : Type} (A : Arithmetic R C) (c_make : R -> R -> C).
Context {Timeline : Type} (create : ProtocolTime -> Z -> option Timeline)
  (advance : Timeline -> Z -> option Timeline) (time : Timeline -> ProtocolTime).
Context (before : ProtocolTime -> ProtocolTime -> bool) (valid_time : ProtocolTime -> bool).
Context {T : Type} (trailer_eqb : T -> T -> bool) (graphx_trailer : Frame -> T)
  (decode_envelope : list byte -> option (View T)).
Context (emit : list Spectrum -> Spectrum -> option exn).

Record Assembler := {
  sid : Z; config : ProcessingConfig; sequence_no : Z; hints : list Hint;
  count : option Z; pending : list (Packet C); samples : list (Sample C); epoch_at : option ProtocolTime;
  center_at : Z; ordinal_at : Z; window_at : Z; invalid : Z;
  duplicates : Z; skipped : Z; missed : Z; emitted : list Spectrum }.

Definition set_sequence_no (x : Z) (s : Assembler) : Assembler :=
  {| sid := sid s; config := config s; sequence_no := x; hints := hints s; count := count s;
     pending := pending s; samples := samples s; epoch_at := epoch_at s; center_at := center_at
     s; ordinal_at := ordinal_at s; window_at := window_at s; invalid := invalid s; duplicates
     := duplicates s; skipped := skipped s; missed := missed s; emitted := emitted s |}.
Definition set_hints (x : list Hint) (s : Assembler) : Assembler :=
  {| sid := sid s; config := config s; sequence_no := sequence_no s; hints := x; count := count
     s; pending := pending s; samples := samples s; epoch_at := epoch_at s; center_at :=
     center_at s; ordinal_at := ordinal_at s; window_at := window_at s; invalid := invalid s;
     duplicates := duplicates s; skipped := skipped s; missed := missed s; emitted := emitted s
     |}.
Definition set_count (x : option Z) (s : Assembler) : Assembler :=
  {| sid := sid s; config := config s; sequence_no := sequence_no s; hints := hints s; count :=
     x; pending := pending s; samples := samples s; epoch_at := epoch_at s; center_at :=
     center_at s; ordinal_at := ordinal_at s; window_at := window_at s; invalid := invalid s;
     duplicates := duplicates s; skipped := skipped s; missed := missed s; emitted := emitted s
     |}.
Definition set_pending (x : list (Packet C)) (s : Assembler) : Assembler :=
  {| sid := sid s; config := config s; sequence_no := sequence_no s; hints := hints s; count :=
     count s; pending := x; samples := samples s; epoch_at := epoch_at s; center_at := center_at
     s; ordinal_at := ordinal_at s; window_at := window_at s; invalid := invalid s; duplicates
     := duplicates s; skipped := skipped s; missed := missed s; emitted := emitted s |}.
Definition set_samples (x : list (Sample C)) (s : Assembler) : Assembler :=
  {| sid := sid s; config := config s; sequence_no := sequence_no s; hints := hints s; count :=
     count s; pending := pending s; samples := x; epoch_at := epoch_at s; center_at := center_at
     s; ordinal_at := ordinal_at s; window_at := window_at s; invalid := invalid s; duplicates
     := duplicates s; skipped := skipped s; missed := missed s; emitted := emitted s |}.
Definition set_epoch_at (x : option ProtocolTime) (s : Assembler) : Assembler :=
  {| sid := sid s; config := config s; sequence_no := sequence_no s; hints := hints s; count :=
     count s; pending := pending s; samples := samples s; epoch_at := x; center_at := center_at
     s; ordinal_at := ordinal_at s; window_at := window_at s; invalid := invalid s; duplicates
     := duplicates s; skipped := skipped s; missed := missed s; emitted := emitted s |}.
Definition set_center_at (x : Z) (s : Assembler) : Assembler :=
  {| sid := sid s; config := config s; sequence_no := sequence_no s; hints := hints s; count :=
     count s; pending := pending s; samples := samples s; epoch_at := epoch_at s; center_at :=
     x; ordinal_at := ordinal_at s; window_at := window_at s; invalid := invalid s; duplicates
     := duplicates s; skipped := skipped s; missed := missed s; emitted := emitted s |}.
Definition set_ordinal_at (x : Z) (s : Assembler) : Assembler :=
  {| sid := sid s; config := config s; sequence_no := sequence_no s; hints := hints s; count :=
     count s; pending := pending s; samples := samples s; epoch_at := epoch_at s; center_at :=
     center_at s; ordinal_at := x; window_at := window_at s; invalid := invalid s; duplicates :=
     duplicates s; skipped := skipped s; missed := missed s; emitted := emitted s |}.
Definition set_window_at (x : Z) (s : Assembler) : Assembler :=
  {| sid := sid s; config := config s; sequence_no := sequence_no s; hints := hints s; count :=
     count s; pending := pending s; samples := samples s; epoch_at := epoch_at s; center_at :=
     center_at s; ordinal_at := ordinal_at s; window_at := x; invalid := invalid s; duplicates
     := duplicates s; skipped := skipped s; missed := missed s; emitted := emitted s |}.
Definition set_invalid (x : Z) (s : Assembler) : Assembler :=
  {| sid := sid s; config := config s; sequence_no := sequence_no s; hints := hints s; count :=
     count s; pending := pending s; samples := samples s; epoch_at := epoch_at s; center_at :=
     center_at s; ordinal_at := ordinal_at s; window_at := window_at s; invalid := x; duplicates
     := duplicates s; skipped := skipped s; missed := missed s; emitted := emitted s |}.
Definition set_duplicates (x : Z) (s : Assembler) : Assembler :=
  {| sid := sid s; config := config s; sequence_no := sequence_no s; hints := hints s; count :=
     count s; pending := pending s; samples := samples s; epoch_at := epoch_at s; center_at :=
     center_at s; ordinal_at := ordinal_at s; window_at := window_at s; invalid := invalid s;
     duplicates := x; skipped := skipped s; missed := missed s; emitted := emitted s |}.
Definition set_skipped (x : Z) (s : Assembler) : Assembler :=
  {| sid := sid s; config := config s; sequence_no := sequence_no s; hints := hints s; count :=
     count s; pending := pending s; samples := samples s; epoch_at := epoch_at s; center_at :=
     center_at s; ordinal_at := ordinal_at s; window_at := window_at s; invalid := invalid s;
     duplicates := duplicates s; skipped := x; missed := missed s; emitted := emitted s |}.
Definition set_missed (x : Z) (s : Assembler) : Assembler :=
  {| sid := sid s; config := config s; sequence_no := sequence_no s; hints := hints s; count :=
     count s; pending := pending s; samples := samples s; epoch_at := epoch_at s; center_at :=
     center_at s; ordinal_at := ordinal_at s; window_at := window_at s; invalid := invalid s;
     duplicates := duplicates s; skipped := skipped s; missed := x; emitted := emitted s |}.
Definition set_emitted (x : list Spectrum) (s : Assembler) : Assembler :=
  {| sid := sid s; config := config s; sequence_no := sequence_no s; hints := hints s; count :=
     count s; pending := pending s; samples := samples s; epoch_at := epoch_at s; center_at :=
     center_at s; ordinal_at := ordinal_at s; window_at := window_at s; invalid := invalid s;
     duplicates := duplicates s; skipped := skipped s; missed := missed s; emitted := x |}.

Definition new_assembler (stream : Z) (c : ProcessingConfig) : result Assembler :=
  let* _ := validate_config c in
  Ok {| sid := stream; config := c; sequence_no := 0; hints := []; count := None; pending := [];
        samples := []; epoch_at := None; center_at := 0; ordinal_at := 0; window_at := 0;
        invalid := 0; duplicates := 0; skipped := 0; missed := 0; emitted := [] |}.

Definition count_invalid (s : Assembler) : Assembler := set_invalid (u64 (invalid s + 1)) s.
Definition count_duplicate (s : Assembler) : Assembler := set_duplicates (u64 (duplicates s + 1)) s.

Definition start_epoch (t : ProtocolTime) (s : Assembler) : Assembler * result unit :=
  match require (valid_time t) with
  | Throw e => (s, Throw e)
  | Ok _ =>
      (set_count None (set_hints [] (set_pending [] (set_samples []
         (set_ordinal_at 0 (set_window_at 0 (set_center_at 0 (set_epoch_at (Some t) s))))))), Ok tt)
  end.

(** Where the code dereferences an [expected] that holds an error *)
Definition undefined : exn := LogicError "undefined behaviour".

(** The two passes over the boundary flags, sample by sample *)
Definition mark_boundaries (samples : list (Sample C)) (bits : list byte) : list byte :=
  fold_left (fun bits p =>
      let bits := if s_first p.2 then mark p.1 bits else bits in
      if s_final p.2 then mark (p.1 + 1) bits else bits)
    (combine (seq 0 (length samples)) samples) bits.

(** The spectrum of a window, but for its times *)
Definition label (spectrum : Spectrum) (s : Assembler) (window : list (Sample C)) : Spectrum :=
  {| stream := sid s; sequence := sequence_no s; s_rate := s_rate spectrum;
     s_size := s_size spectrum; s_hop := s_hop spectrum; valid := valid spectrum;
     s_hann := s_hann spectrum; center := center_at s; discontinuities := skipped s;
     ordinal := window_at s; sequence_gaps := missed s; begin_time := begin_time spectrum;
     end_time := end_time spectrum; epoch := default no_time (epoch_at s);
     power := power spectrum; gaps := gaps spectrum;
     boundaries := mark_boundaries window (boundaries spectrum) |}.
Definition with_times (from to : ProtocolTime) (x : Spectrum) : Spectrum :=
  {| stream := stream x; sequence := sequence x; s_rate := s_rate x; s_size := s_size x;
     s_hop := s_hop x; valid := valid x; s_hann := s_hann x; center := center x;
     discontinuities := discontinuities x; ordinal := ordinal x; sequence_gaps := sequence_gaps x;
     begin_time := from; end_time := to; epoch := epoch x; power := power x; gaps := gaps x;
     boundaries := boundaries x |}.

(** The times of a window of [size] samples from sample [window] of the epoch *)
Definition window_times (e : option ProtocolTime) (rate window size : Z)
    : result (ProtocolTime * ProtocolTime) :=
  match e with
  | None => Throw undefined
  | Some e =>
      match create e rate with
      | None => Throw undefined
      | Some clock =>
          match advance clock window with
          | None => Throw (RuntimeError "sample time overflow")
          | Some clock =>
              match advance clock size with
              | None => Throw (RuntimeError "sample time overflow")
              | Some clock' => Ok (time clock, time clock')
              end
          end
      end
  end.

Definition append (v : Sample C) (s : Assembler) : Assembler * result unit :=
  let s := set_ordinal_at (u64 (ordinal_at s + 1)) (set_samples (samples s ++ [v]) s) in
  let c := config s in
  let n := Z.to_nat (size c) in
  if (length (samples s) <? n)%nat then (s, Ok tt)
  else
    let window := take n (samples s) in
    match power_spectrum A c (map s_value window) (map s_missing window) with
    | Throw e => (s, Throw e)
    | Ok spectrum =>
        let spectrum := label spectrum s window in
        let s := set_sequence_no (u32 (sequence_no s + 1)) s in
        match window_times (epoch_at s) (rate c) (window_at s) (size c) with
        | Throw e => (s, Throw e)
        | Ok (from, to) =>
            let spectrum := with_times from to spectrum in
            let outcome := emit (emitted s) spectrum in
            let s := set_emitted (emitted s ++ [spectrum]) s in
            match outcome with
            | Some e => (s, Throw e)
            | None =>
                (set_window_at (u64 (window_at s + hop c))
                   (set_samples (drop (Z.to_nat (hop c)) (samples s)) s), Ok tt)
            end
        end
    end.

(** A loop of [append]: the first exception ends it. *)
Fixpoint append_all (l : list (Sample C)) (s : Assembler) : Assembler * result unit :=
  match l with
  | [] => (s, Ok tt)
  | v :: l =>
      match append v s with
      | (s, Ok _) => append_all l s
      | (s, Throw e) => (s, Throw e)
      end
  end.

(** The samples of a packet with their flags *)
Definition packet_samples (p : Packet C) : list (Sample C) :=
  imap (fun i x => Build_Sample x false (p_first p && (i =? 0)%nat)
                     (p_final p && (i + 1 =? length (p_samples p))%nat)) (p_samples p).
Definition lost_samples (gap : Z) : list (Sample C) :=
  replicate (Z.to_nat gap) (Build_Sample (c_zero A) true false false).

(** The index of the sample at time [t]: whole seconds, and the rest rounded
    to the nearest sample, in signed 64-bit arithmetic *)
Definition sample_index (rate : Z) (e t : ProtocolTime) : Z :=
  let sec := u64 (seconds t - seconds e) in
  let ps := i64 (picoseconds t) - i64 (picoseconds e) in
  i64 (u64 (sec * rate))
  + Z.quot (ps * rate + (if 0 <=? ps then 500000000000 else -500000000000)) 1000000000000.

Definition consume (p : Packet C) (s : Assembler) : Assembler * result unit :=
  let s := match epoch_at s with None => set_epoch_at (Some (p_time p)) s | Some _ => s end in
  let e := default (p_time p) (epoch_at s) in
  let r := rate (config s) in
  if before (p_time p) e then (count_duplicate s, Ok tt)
  else if (2 ^ 63 - 1) / r <? u64 (seconds (p_time p) - seconds e) then (count_invalid s, Ok tt)
  else
    let index := sample_index r e (p_time p) in
    if index <? i64 (ordinal_at s) then (count_duplicate s, Ok tt)
    else
      match create e r with
      | None => (s, Throw undefined)
      | Some clock =>
          let found := match advance clock (u64 index) with
                       | Some clock => bool_decide (time clock = p_time p)
                       | None => false
                       end in
          if negb found then (count_invalid s, Ok tt)
          else
            let follows := match count s with
                           | Some n => p_count p =? Z.land (n + 1) 15
                           | None => true
                           end in
            let s := if follows then s else set_missed (u64 (missed s + 1)) s in
            let s := set_count (Some (p_count p)) s in
            let gap := u64 (u64 index - ordinal_at s) in
            let changed := negb (center_at s =? 0) && negb (center_at s =? p_center p) in
            let s := set_center_at (p_center p) s in
            if (u32 (2 * size (config s)) <? gap) || changed then
              append_all (packet_samples p)
                (set_window_at (u64 index) (set_ordinal_at (u64 index) (set_samples []
                   (set_skipped (u64 (skipped s + (gap + Z.of_nat (length (samples s))))) s))))
            else append_all (lost_samples gap ++ packet_samples p) s
      end.

(** ** Hints *)

(** The last of the four frames whose trailer is that of the datagram *)
Definition frame_of (trailer : T) : option Frame :=
  fold_left (fun frame f => if trailer_eqb trailer (graphx_trailer f) then Some f else frame)
    [single; first; middle; final] None.

Definition hint_of (v : View T) (f : Frame) : Hint :=
  {| h_time := {| seconds := v_integer v; picoseconds := v_fractional v |}; h_count := v_count v;
     h_first := match f with single | first => true | _ => false end;
     h_final := match f with single | final => true | _ => false end |}.

Definition observe (wire : list byte) (s : Assembler) : Assembler * bool :=
  match decode_envelope wire with
  | None => (s, false)
  | Some v =>
      if negb (v_stream v =? sid s) then (s, false)
      else
        match v_type v, v_utc v, v_picoseconds v, v_trailer v with
        | context, _, _, _ => (s, true)
        | signal, true, true, Some trailer =>
            match frame_of trailer with
            | None => (s, false)
            | Some f =>
                let s := if (length (hints s) =? 128)%nat
                         then count_invalid (set_hints (drop 1 (hints s)) s) else s in
                (set_hints (hints s ++ [hint_of v f]) s, true)
            end
        | _, _, _, _ => (s, false)
        end
  end.

(** ** Packets *)

(** [std::find_if] and [erase]: the first hint of that time, and the others *)
Fixpoint take_hint (t : ProtocolTime) (l : list Hint) : option (Hint * list Hint) :=
  match l with
  | [] => None
  | h :: l =>
      if bool_decide (h_time h = t) then Some (h, l)
      else match take_hint t l with
           | Some (found, rest) => Some (found, h :: rest)
           | None => None
           end
  end.

(** [std::lower_bound] of a range sorted by time, and [insert] there; [None]
    where a packet of that time is queued already *)
Fixpoint insert_packet (p : Packet C) (l : list (Packet C)) : option (list (Packet C)) :=
  match l with
  | [] => Some [p]
  | q :: l =>
      if before (p_time q) (p_time p) then
        match insert_packet p l with Some l => Some (q :: l) | None => None end
      else if bool_decide (p_time q = p_time p) then None
      else Some (p :: q :: l)
  end.

Definition read_fragment (f : option (option (list (Z * Z)))) (l : list C) : result (list C) :=
  match f with
  | None => Throw (RuntimeError "sample fragment")
  | Some None => Throw (RuntimeError "sample view")
  | Some (Some iq) =>
      let part z := r_div A (r_of_Z A z) (r_of_Z A 32768) in
      Ok (l ++ map (fun p => c_make (part p.1) (part p.2)) iq)
  end.

Definition receive (rx : SignalRx) (now : Z) (s : Assembler) : Assembler :=
  if (2 ^ 32 - 1 <? seconds (sample_time rx)) || (1000000000000 <=? picoseconds (sample_time rx))
  then count_invalid s
  else if negb (confidence_known rx) || negb (valid_data rx) then count_invalid s
  else
    match rate_q20 rx with
    | None => count_invalid s          (** [std::bad_variant_access], caught *)
    | Some q20 =>
        if negb (q20 =? rate (config s) * 1048576) then count_invalid s
        else
          match take_hint (sample_time rx) (hints s), center_q20 rx with
          | None, _ => count_invalid s
          | Some _, None => count_invalid s
          | Some (hint, rest), Some q20 =>
              if (q20 <? 1000000 * 1048576) || (6000000000 * 1048576 <? q20)
                 || negb (Z.rem q20 1048576 =? 0)
              then count_invalid s
              else
                let s := set_hints rest s in
                match fold_result read_fragment (fragments rx) [] with
                | Throw _ => count_invalid s
                | Ok values =>
                    if (length values =? 0)%nat || (1024 <? length values)%nat
                       || (length (pending s) =? 32)%nat
                    then count_invalid s
                    else
                      match insert_packet
                              {| p_time := sample_time rx; p_center := Z.quot q20 1048576;
                                 p_samples := values; p_count := h_count hint;
                                 p_first := h_first hint; p_final := h_final hint;
                                 arrival := now |} (pending s) with
                      | None => count_duplicate s
                      | Some l => set_pending l s
                      end
                end
          end
    end.

(** ** Progress *)

(** Is the first packet the next one of the time line? *)
Definition contiguous (p : Packet C) (s : Assembler) : bool :=
  match epoch_at s with
  | None => false
  | Some e =>
      match create e (rate (config s)) with
      | None => false
      | Some clock =>
          match advance clock (ordinal_at s) with
          | None => false
          | Some clock => bool_decide (time clock = p_time p)
          end
      end
  end.

(** Every round but the last takes a packet from the queue, whose packets at
    the call are [queue]. *)
Fixpoint progress_loop (now : Z) (queue : list (Packet C)) (s : Assembler) : Assembler * result unit :=
  match queue with
  | [] => (s, Ok tt)
  | p :: queue =>
      if negb (contiguous p s) && (now - arrival p <? 10000000) then (s, Ok tt)
      else
        match consume p (set_pending queue s) with
        | (s, Ok _) => progress_loop now queue s
        | (s, Throw e) => (s, Throw e)
        end
  end.
Definition progress (now : Z) (s : Assembler) : Assembler * result unit :=
  progress_loop now (pending s) s.

End Assembler.
End Assembler.
