(* ===== verification/AssemblerProofs.v ===== *)
(** * What the sample assembler emits

    Every spectrum it emits can be sent and is received unchanged; its queues
    stay bounded and sorted, whatever datagrams arrive and whatever the
    callback does; over an uninterrupted stream it emits exactly the windows of
    the stream, one every hop. *)

From Stdlib Require Import ZArith Lia Zmod.Zmod Strings.Byte Strings.String.
From stdpp Require Import base strings sorting relations list.
From S2P Require Import Prelude Spectrum PowerSpectrum Assembler.

Module AssemblerProofs.
Import Spectrum PowerSpectrum Assembler.
Import SpectrumProofs PowerSpectrumProofs.
Local Open Scope Z_scope.

(** ** Counting the bits of a map *)

Definition ones (bits : list byte) : nat :=
  length (filter (fun i => bit_at bits i = true) (seq 0 (8 * length bits))).

Lemma popcount_ones b :
  popcount b = Z.of_nat (length (filter (fun i => bit_at [b] i = true) (seq 0 8))).
Proof. destruct b; vm_compute; reflexivity. Qed.

Lemma filter_image {X Y} (P : Y -> Prop) `{!forall y, Decision (P y)} (f : X -> Y) l :
  length (filter P (map f l)) = length (filter (fun x => P (f x)) l).
Proof.
  induction l as [|x l IH]; [done|]. cbn [map]. rewrite !filter_cons.
  destruct (decide (P (f x))); cbn [length]; by rewrite IH.
Qed.

Lemma filter_same {X} (P Q : X -> Prop) `{!forall x, Decision (P x)} `{!forall x, Decision (Q x)} (l : list X) :
  (forall x, x ∈ l -> P x <-> Q x) -> filter P l = filter Q l.
Proof.
  induction l as [|x l IH]; intros Hl; [done|]. rewrite !filter_cons.
  rewrite IH by (intros y Hy; apply Hl; by right).
  assert (P x <-> Q x) by (apply Hl; by left). destruct (decide (P x)), (decide (Q x)); tauto.
Qed.

Lemma filter_split {X} (P Q : X -> Prop) `{!forall x, Decision (P x)} `{!forall x, Decision (Q x)} (l : list X) :
  (forall x, x ∈ l -> P x <-> ~ Q x) -> (length (filter P l) + length (filter Q l) = length l)%nat.
Proof.
  induction l as [|x l IH]; intros Hl; [done|]. rewrite !filter_cons.
  assert (length (filter P l) + length (filter Q l) = length l)%nat
    by (apply IH; intros y Hy; apply Hl; by right).
  assert (P x <-> ~ Q x) by (apply Hl; by left).
  destruct (decide (P x)), (decide (Q x)); cbn [length]; tauto || lia.
Qed.

Lemma ones_cons b bits : Z.of_nat (ones (b :: bits)) = popcount b + Z.of_nat (ones bits).
Proof.
  unfold ones. replace (8 * length (b :: bits))%nat with (8 + 8 * length bits)%nat by (cbn [length]; lia).
  rewrite seq_app, filter_app, length_app, popcount_ones, Nat2Z.inj_add. f_equal.
  replace (seq (0 + 8) (8 * length bits)) with (map (Nat.add 8) (seq 0 (8 * length bits))).
  - rewrite filter_image. f_equal. f_equal. apply filter_same. intros i _. unfold bit_at.
    replace ((8 + i) / 8)%nat with (S (i / 8)); [|symmetry; apply (Nat.div_add_l 1 8 i); lia].
    replace ((8 + i) mod 8)%nat with (i mod 8)%nat; [done|].
    rewrite Nat.add_comm. symmetry. apply (Nat.Div0.mod_add i 1 8).
  - exact (fmap_add_seq 8 0 (8 * length bits)).
Qed.

Lemma popcounts bits : forall n, 0 <= n -> n + Z.of_nat (8 * length bits) < 2 ^ 32 ->
  fold_left (fun n b => u32 (n + popcount b)) bits n = n + Z.of_nat (ones bits).
Proof.
  induction bits as [|b bits IH]; intros n Hn Hb; [cbn; lia|]. cbn [fold_left].
  rewrite ones_cons. cbn [length] in Hb.
  assert (0 <= popcount b <= 8).
  { rewrite popcount_ones. pose proof (length_filter (fun i => bit_at [b] i = true) (seq 0 8)) as Hf.
    rewrite length_seq in Hf. lia. }
  rewrite u32_small by (unfold in_u32; lia). rewrite IH by lia. lia.
Qed.

(** A byte all of whose bits are clear below [k] from the left *)
Lemma byte_bits bits i t :
  0 <= t < 8 -> Z.testbit (Z_of_byte (nth i bits x00)) t = bit_at bits (8 * i + Z.to_nat (7 - t)).
Proof.
  intros Ht. unfold bit_at. replace (8 * i + Z.to_nat (7 - t))%nat with (Z.to_nat (7 - t) + i * 8)%nat by lia.
  rewrite Nat.div_add, Nat.Div0.mod_add, Nat.div_small, Nat.mod_small by lia.
  cbn [Nat.add]. f_equal. lia.
Qed.

Lemma byte_zero b : (forall t, 0 <= t < 8 -> Z.testbit (Z_of_byte b) t = false) -> Z_of_byte b = 0.
Proof.
  intros H. pose proof (Z_of_byte_range b). apply Z.bits_inj'. intros t Ht. rewrite Z.bits_0.
  destruct (decide (t < 8)) as [|Hge]; [by apply H|].
  rewrite <-(Z.mod_small (Z_of_byte b) (2 ^ 8)) by lia. apply Z.mod_pow2_bits_high. lia.
Qed.

Lemma byte_low b : (forall t, 0 <= t < 7 -> Z.testbit (Z_of_byte b) t = false) -> Z.land (Z_of_byte b) 127 = 0.
Proof.
  intros H. apply Z.bits_inj'. intros t Ht. change 127 with (Z.ones 7).
  rewrite Z.land_ones, Z.bits_0 by lia. destruct (decide (t < 7)).
  - rewrite Z.mod_pow2_bits_low by lia. by apply H.
  - apply Z.mod_pow2_bits_high. lia.
Qed.

(** The boundary flags of a window are at most its length. *)
Lemma boundaries_low {C} (window : list (Sample C)) n bits :
  length window = n -> (n / 8 < length bits)%nat -> (forall j, bit_at bits j = false) ->
  length (mark_boundaries window bits) = length bits
  /\ forall j, (n < j)%nat -> bit_at (mark_boundaries window bits) j = false.
Proof.
  intros Hn Hlen Hz. unfold mark_boundaries.
  set (inv := fun b => length b = length bits /\ forall j, (n < j)%nat -> bit_at b j = false).
  enough (forall l b, Forall (fun p : nat * Sample C => (p.1 < n)%nat) l -> inv b ->
    inv (fold_left (fun bits p =>
      let bits := if s_first p.2 then mark p.1 bits else bits in
      if s_final p.2 then mark (p.1 + 1) bits else bits) l b)) as Hg.
  { apply Hg; [|split; [done|by intros]]. apply Forall_forall. intros [i x] Hi. cbn.
    apply elem_of_zip_l in Hi. apply elem_of_seq in Hi. lia. }
  assert (Hmark : forall i b, (i <= n)%nat -> inv b -> inv (mark i b)).
  { intros i b Hi [Hl Hb]. split; [by rewrite mark_length|]. intros j Hj.
    rewrite bit_at_mark by (rewrite Hl; apply Nat.le_lt_trans with (n / 8)%nat; [by apply Nat.Div0.div_le_mono|done]).
    rewrite (Hb j Hj), orb_false_r. apply Nat.eqb_neq. lia. }
  induction l as [|[i x] l IH]; intros b Hl Hb; [done|]. inversion Hl; subst. cbn [fold_left fst snd] in *.
  apply IH; [done|]. destruct (s_first x), (s_final x); auto with lia.
Qed.

(** ** A successful transform *)

Lemma hop_ok c : validate_config c = Ok tt ->
  negb (hop c =? 0) && (hop c <=? size c) && (size c mod hop c =? 0) = true
  /\ u32 (100 - u32 (hop c * 100) / size c) = overlap c.
Proof.
  intros H. destruct (valid_size c H) as (n & Hn & Hs & _). unfold hop.
  unfold validate_config in H. apply bind_ok in H as ([] & _ & Ho%throw_if_ok).
  apply negb_false_iff in Ho. rewrite Hs.
  assert (overlap c = 0 \/ overlap c = 50 \/ overlap c = 75) as [->|[->| ->]].
  { destruct (Z.eqb_spec (overlap c) 0), (Z.eqb_spec (overlap c) 50), (Z.eqb_spec (overlap c) 75);
      auto; done. }
  all: do 6 (destruct n as [|n]; [lia|]).
  all: do 6 (destruct n as [|n]; [vm_compute; split; reflexivity|]); lia.
Qed.

Section Windows.
Context {R C : Type} (A : Arithmetic R C).

Lemma weigh_finite c samples missing l s s' :
  fold_result (weigh A c samples missing) l s = Ok s' ->
  forall i, i ∈ l -> c_finite A (at_ A samples i) = true.
Proof.
  revert s; induction l as [|j l IH]; intros s H i Hi; [by apply elem_of_nil in Hi|].
  cbn [fold_result] in H. apply bind_ok in H as (s1 & Hw & H). apply elem_of_cons in Hi as [->|Hi].
  - unfold weigh in Hw. apply bind_ok in Hw as ([] & Hw%throw_if_ok & _). by apply negb_false_iff in Hw.
  - by apply (IH s1).
Qed.

(** What a spectrum says of itself before it is labelled *)
Record raw_ok (c : ProcessingConfig) (raw : Spectrum) : Prop := {
  raw_config : validate_config c = Ok tt;
  raw_rate : s_rate raw = rate c;
  raw_size : s_size raw = size c;
  raw_hop : s_hop raw = hop c;
  raw_hann : s_hann raw = hann c;
  raw_power : Z.of_nat (length (power raw)) = size c;
  raw_gaps : length (gaps raw) = Z.to_nat (size c / 8);
  raw_boundaries : boundaries raw = replicate (Z.to_nat (size c / 8) + 4) x00;
  raw_valid : 0 <= valid raw <= size c;
  raw_missing : valid raw + Z.of_nat (ones (gaps raw)) = size c;
}.

Lemma power_spectrum_ok c samples missing raw :
  power_spectrum A c samples missing = Ok raw -> raw_ok c raw.
Proof.
  intros H. pose proof H as Hraw. unfold power_spectrum in H.
  apply bind_ok in H as ([] & Hc & H). apply bind_ok in H as ([] & Hl%throw_if_ok & H).
  apply bind_ok in H as (s & Hw & _). reflect_bools.
  rewrite (shape A c samples missing Hc) in Hraw; [|done|done|].
  2: { intros i Hi. apply (weigh_finite c samples missing _ _ _ Hw). apply elem_of_seq. lia. }
  apply Ok_inj in Hraw. subst raw. destruct (valid_size c Hc) as (k & Hk & Hs & Hn). rewrite Hn.
  set (n := (2 ^ k)%nat) in *.
  assert (Hsn : size c = Z.of_nat n) by (unfold n; rewrite Nat2Z.inj_pow; done).
  assert (Hn8 : (n = 8 * (n / 8))%nat).
  { apply Nat.Div0.div_exact. unfold n. replace k with (k - 3 + 3)%nat by lia.
    rewrite Nat.pow_add_r. apply Nat.Div0.mod_mul. }
  clearbody n. clear Hn Hk Hs k.
  assert (H8 : Z.to_nat (size c / 8) = (n / 8)%nat).
  { rewrite Hsn. change 8 with (Z.of_nat 8). by rewrite <-Nat2Z.inj_div, Nat2Z.id. }
  pose proof (length_filter (fun i => nth i missing false = false) (seq 0 n)) as Hpresent.
  rewrite length_seq in Hpresent. split; cbn [s_rate s_size s_hop s_hann power gaps boundaries valid];
    try reflexivity; [exact Hc|..].
  - rewrite length_map, length_seq. symmetry. exact Hsn.
  - rewrite marks_length, length_replicate. symmetry. exact H8.
  - by rewrite H8.
  - unfold present. lia.
  - unfold ones. rewrite marks_length, length_replicate, <-Hn8, Hsn, <-Nat2Z.inj_add. f_equal.
    unfold present. rewrite (filter_split _ _ (seq 0 n)), length_seq; [done|].
    intros i Hi%elem_of_seq. rewrite bit_at_marks, bit_at_zeros, orb_false_r.
    + replace (i <? n)%nat with true by (symmetry; apply Nat.ltb_lt; lia). rewrite andb_true_r.
      by destruct (nth i missing false).
    + intros j Hj. rewrite length_replicate. apply Nat.Div0.div_lt_upper_bound. lia.
Qed.
End Windows.

(** ** Emitted spectra are valid *)

Section Assembly.
Context {R C : Type} (A : Arithmetic R C) (c_make : R -> R -> C).
Context {Timeline : Type} (create : ProtocolTime -> Z -> option Timeline)
  (advance : Timeline -> Z -> option Timeline) (time : Timeline -> ProtocolTime).
Context (before : ProtocolTime -> ProtocolTime -> bool) (valid_time : ProtocolTime -> bool).
Context {T : Type} (trailer_eqb : T -> T -> bool) (graphx_trailer : Frame -> T)
  (decode_envelope : list byte -> option (View T)).
Context (emit : list Spectrum -> Spectrum -> option exn).
Abbreviation Assembler := (Assembler (C := C)).
Abbreviation append := (append A create advance time emit).
Abbreviation append_all := (append_all A create advance time emit).
Abbreviation window_times := (window_times create advance time).
Abbreviation validate := (validate create advance time).

Definition usable (x : Spectrum) : Prop := Forall (fun p => usable_power p = true) (power x).
Definition center_ok (z : Z) : Prop := 1000000 <= z <= 6000000000.

Lemma window_times_agree e r w n from to :
  window_times (Some e) r w n = Ok (from, to) ->
  forall x, epoch x = e -> s_rate x = r -> ordinal x = w -> s_size x = n ->
    begin_time x = from -> end_time x = to -> timeline_agrees create advance time x = true.
Proof.
  cbn. intros H x <- <- <- <- Hf Ht. unfold timeline_agrees.
  destruct (create _ _) as [clock|]; [|done]. destruct (advance clock _) as [clock1|]; [|done].
  destruct (advance clock1 _) as [clock2|]; [|done]. injection H as H1 H2.
  by rewrite !bool_decide_eq_true_2 by congruence.
Qed.

Lemma require_true b : b = true -> require b = Ok tt.
Proof. by intros ->. Qed.

Lemma validate_intro x :
  negb (s_hop x =? 0) && (s_hop x <=? s_size x) && (s_size x mod s_hop x =? 0) = true ->
  validate_config {| rate := s_rate x; size := s_size x; hann := s_hann x;
                     overlap := u32 (100 - u32 (s_hop x * 100) / s_size x) |} = Ok tt ->
  1 <= stream x <= 4 -> center_ok (center x) ->
  valid x <= s_size x -> Z.of_nat (length (power x)) = s_size x ->
  length (gaps x) = Z.to_nat (s_size x / 8) ->
  length (boundaries x) = (Z.to_nat (s_size x / 8) + 4)%nat ->
  Z.land (Z_of_byte (nth (Z.to_nat (s_size x / 8)) (boundaries x) x00)) 127 = 0 ->
  (forall b, b ∈ drop (Z.to_nat (s_size x / 8) + 1) (boundaries x) -> Z_of_byte b = 0) ->
  timeline_agrees create advance time x = true ->
  u32 (valid x + fold_left (fun n b => u32 (n + popcount b)) (gaps x) 0) = s_size x ->
  usable x -> validate x = Ok tt.
Proof.
  intros H1 H2 H3 H4 H5 H6 H7 H8 H9 H10 H11 H12 H13. unfold Spectrum.validate, center_ok in *.
  rewrite (require_true _ H1), H2. cbn [bind]. rewrite (require_true (_ && _ && _ && _)).
  2: { rewrite !andb_true_iff, !Z.leb_le. lia. }
  cbn [bind]. rewrite (require_true (_ && _ && _ && _)).
  2: { rewrite H7, H8, !Nat.eqb_refl, !andb_true_iff, Z.leb_le, Z.eqb_eq. auto. }
  cbn [bind]. rewrite H9. change (require (0 =? 0)) with (Ok tt). cbn [bind].
  replace (for_each _ (drop _ _)) with (Ok tt).
  2: { symmetry. apply for_each_ok. intros b Hb. by rewrite (H10 b Hb). }
  cbn [bind]. rewrite (require_true _ H11), H12, Z.eqb_refl. cbn [bind].
  change (require true) with (Ok tt). cbn [bind]. apply for_each_ok. intros p Hp.
  apply require_true. unfold usable in H13. rewrite Forall_forall in H13. by apply H13.
Qed.

Lemma labelled_valid c raw (s : Assembler) (window : list (Sample C)) from to :
  raw_ok c raw -> config s = c -> 1 <= sid s <= 4 -> center_ok (center_at s) ->
  length window = Z.to_nat (size c) ->
  window_times (epoch_at s) (rate c) (window_at s) (size c) = Ok (from, to) ->
  usable raw -> validate (with_times from to (label raw s window)) = Ok tt.
Proof.
  intros Hraw Hconf Hsid Hcenter Hwindow Htimes Huse.
  destruct Hraw as [Hc Hrate Hsize Hhop Hhann Hpower Hgaps Hbounds Hvalid Hmissing].
  destruct (hop_ok c Hc) as [Hhops Hover].
  destruct (valid_size c Hc) as (k & Hk & Hs & Hn).
  assert (Hs8 : Z.to_nat (size c / 8) = (Z.to_nat (size c) / 8)%nat).
  { rewrite Z2Nat.inj_div; [done|rewrite Hs; by apply Z.pow_nonneg|done]. }
  assert (Hsmall : 64 <= size c <= 2048).
  { rewrite Hs. split; [change 64 with (2 ^ 6)|change 2048 with (2 ^ 11)]; apply Z.pow_le_mono_r; lia. }
  assert (Hn8 : (Z.to_nat (size c) = 8 * (Z.to_nat (size c) / 8))%nat).
  { rewrite Hn. apply Nat.Div0.div_exact. replace k with (k - 3 + 3)%nat by lia.
    rewrite Nat.pow_add_r. apply Nat.Div0.mod_mul. }
  destruct (boundaries_low window (Z.to_nat (size c)) (boundaries raw)) as [Hblen Hblow].
  { done. } { rewrite Hbounds, length_replicate. lia. } { rewrite Hbounds. apply bit_at_zeros. }
  assert (Hbyte : forall i t, 0 <= t < 8 -> (Z.to_nat (size c) < 8 * i + Z.to_nat (7 - t))%nat ->
    Z.testbit (Z_of_byte (nth i (mark_boundaries window (boundaries raw)) x00)) t = false).
  { intros i t Ht Hlt. rewrite byte_bits by done. by apply Hblow. }
  assert (Hbl : length (boundaries raw) = (Z.to_nat (size c / 8) + 4)%nat)
    by by rewrite Hbounds, length_replicate.
  rewrite Hbl in Hblen.
  apply validate_intro; cbn [s_hop s_size s_rate s_hann stream center valid power gaps boundaries with_times label];
    rewrite ?Hhop, ?Hsize, ?Hrate, ?Hhann; try done.
  - rewrite Hover. rewrite <-Hc. by destruct c.
  - lia.
  - apply byte_low. intros t Ht. apply Hbyte; lia.
  - intros b [j Hj]%list_elem_of_lookup. rewrite lookup_drop in Hj. apply byte_zero. intros t Ht.
    rewrite <-(nth_lookup_Some _ _ x00 _ Hj). apply Hbyte; lia.
  - eapply window_times_agree; [|reflexivity..]. cbn [epoch label with_times s_rate s_size ordinal].
    rewrite Hrate, Hsize. destruct (epoch_at s); [exact Htimes|done].
  - rewrite popcounts; [|lia|rewrite Hgaps; lia]. rewrite Z.add_0_l, Hmissing. apply u32_small.
    unfold in_u32. lia.
Qed.

(** ** The invariant *)

Hypothesis before_irreflexive : forall t, before t t = false.
Hypothesis before_transitive : forall a b c,
  before a b = true -> before b c = true -> before a c = true.
Hypothesis before_total : forall a b, before a b = false -> before b a = false -> a = b.
Hypothesis time_range : forall clock, time_in_range (time clock).
Hypothesis float_range : forall r, in_u32 (to_float A r).

Lemma power_floats c samples missing raw :
  power_spectrum A c samples missing = Ok raw -> Forall in_u32 (power raw).
Proof using float_range.
  intros H. unfold power_spectrum in H. do 3 (apply bind_ok in H as (? & _ & H)).
  apply Ok_inj in H. subst raw. cbn [power]. apply Forall_forall. intros p Hp.
  apply list_elem_of_In, in_map_iff in Hp as (i & <- & _). apply float_range.
Qed.

(** A spectrum with the ranges of its fields, which passes the checks if its
    powers are finite *)
Definition emitted_ok (x : Spectrum) : Prop := in_range x /\ (usable x -> validate x = Ok tt).

Record packet_ok (p : Packet C) : Prop := {
  packet_size : (1 <= length (p_samples p) <= 1024)%nat;
  packet_center : center_ok (p_center p);
  packet_seconds : 0 <= seconds (p_time p) < 2 ^ 32;
  packet_picoseconds : 0 <= picoseconds (p_time p) < 1000000000000;
}.

Definition earlier (p q : Packet C) : Prop := before (p_time p) (p_time q) = true.

Record asm_ok (s : Assembler) : Prop := {
  ok_config : validate_config (config s) = Ok tt;
  ok_sid : 1 <= sid s <= 4;
  ok_sequence : in_u32 (sequence_no s);
  ok_skipped : in_u64 (skipped s);
  ok_missed : in_u64 (missed s);
  ok_window : in_u64 (window_at s);
  ok_index : ordinal_at s = u64 (window_at s + Z.of_nat (length (samples s)));
  ok_hints : (length (hints s) <= 128)%nat;
  ok_pending : (length (pending s) <= 32)%nat;
  ok_sorted : StronglySorted earlier (pending s);
  ok_packets : Forall packet_ok (pending s);
  ok_center : center_at s = 0 \/ center_ok (center_at s);
  ok_epoch : forall e, epoch_at s = Some e -> time_in_range e;
  ok_emitted : Forall emitted_ok (emitted s);
}.

Lemma labelled_ok c samples missing raw (s : Assembler) (window : list (Sample C)) from to :
  power_spectrum A c samples missing = Ok raw -> config s = c -> asm_ok s -> center_ok (center_at s) ->
  length window = Z.to_nat (size c) ->
  window_times (epoch_at s) (rate c) (window_at s) (size c) = Ok (from, to) ->
  emitted_ok (with_times from to (label raw s window)).
Proof using float_range time_range.
  intros Hp Hc Hs Hcenter Hw Ht. pose proof (power_spectrum_ok A c samples missing raw Hp) as Hraw.
  split; [|intros Hu; apply (labelled_valid c); done || apply Hs].
  destruct Hraw as [Hconf Hr Hz Hh _ _ _ _ Hv _].
  destruct (valid_size c Hconf) as (k & Hk & Hsize & _).
  assert (64 <= size c <= 2048).
  { rewrite Hsize. split; [change 64 with (2 ^ 6)|change 2048 with (2 ^ 11)]; apply Z.pow_le_mono_r; lia. }
  assert (Hhop : 0 <= hop c <= size c).
  { destruct (hop_ok c Hconf) as [Hhops _]. reflect_bools. split; [|done]. unfold hop. apply Z.div_pos; [|lia].
    apply u32_range. }
  assert (Hrate : 0 <= rate c <= 2000000).
  { unfold validate_config in Hconf. apply bind_ok in Hconf as ([] & Hconf%throw_if_ok & _).
    reflect_bools. lia. }
  assert (Htimes : time_in_range from /\ time_in_range to /\ time_in_range (default no_time (epoch_at s))).
  { unfold Assembler.window_times in Ht. destruct (epoch_at s) as [e|] eqn:He; [|done].
    destruct (create e _); [|done]. destruct (advance _ _); [|done]. destruct (advance _ _); [|done].
    injection Ht as <- <-. split_and!; [apply time_range..|]. by apply (ok_epoch s). }
  pose proof (ok_sid s Hs). unfold center_ok in Hcenter.
  unfold in_range. cbn [stream sequence s_size s_hop center s_rate begin_time end_time valid
    discontinuities epoch ordinal sequence_gaps power with_times label].
  rewrite Hz, Hh, Hr.
  split_and!; try apply Htimes; try apply Hs; try (by apply (power_floats c samples missing));
    unfold in_u32, in_u64; lia.
Qed.

(** ** Preservation *)

(** What the appends of a packet leave alone *)
Definition same_queue (s s' : Assembler) : Prop :=
  pending s' = pending s /\ config s' = config s /\ sid s' = sid s /\ center_at s' = center_at s.

Lemma u64_add_r a b : u64 (a + u64 b) = u64 (a + b).
Proof. unfold u64. by rewrite Z.add_mod_idemp_r. Qed.
Lemma u64_add_l a b : u64 (u64 a + b) = u64 (a + b).
Proof. unfold u64. by rewrite Z.add_mod_idemp_l. Qed.

Lemma append_ok v s s' r :
  asm_ok s -> center_ok (center_at s) -> append v s = (s', r) -> asm_ok s' /\ same_queue s s'.
Proof using float_range time_range.
  intros Hs Hcenter H. unfold Assembler.append in H.
  set (s1 := set_ordinal_at _ _) in H.
  assert (Hs1 : asm_ok s1).
  { destruct Hs. split; cbn; try done. rewrite ok_index0, u64_add_l, length_app.
    f_equal. cbn [length]. lia. }
  assert (Hsame : same_queue s s1) by done.
  destruct (_ <? _)%nat eqn:Hlen; [by injection H as <- <-|].
  apply Nat.ltb_ge in Hlen.
  destruct (power_spectrum _ _ _ _) as [raw|e] eqn:Hraw; [|by injection H as <- <-].
  set (s2 := set_sequence_no _ _) in H.
  assert (Hs2 : asm_ok s2) by (destruct Hs1; split; cbn; auto; apply u32_range).
  destruct (Assembler.window_times _ _ _ _ _ _ _) as [[from to]|e] eqn:Htimes; [|by injection H as <- <-].
  assert (Hlabel : emitted_ok (with_times from to (label raw s1 (take (Z.to_nat (size (config s1))) (samples s1))))).
  { apply (labelled_ok (config s1) _ _ raw s1 _ from to Hraw); try done. rewrite length_take. lia. }
  set (x := with_times _ _ _) in *. set (s3 := set_emitted _ _) in H.
  assert (Hs3 : asm_ok s3).
  { destruct Hs2. split; cbn; try done. apply Forall_app. split; [done|]. by apply Forall_singleton. }
  destruct (emit _ _) as [e|]; injection H as <- <-; [done|]. split; [|done].
  destruct Hs3. split; cbn in *; try done; [apply u64_range|].
  rewrite ok_index0, u64_add_l. f_equal. rewrite length_drop.
  destruct (hop_ok _ ok_config0) as [Hh _]. reflect_bools.
  assert (0 <= hop (config s)) by (unfold hop; apply Z.div_pos; [apply u32_range|lia]).
  cbn in Hlen. lia.
Qed.

Lemma same_queue_trans s1 s2 s3 : same_queue s1 s2 -> same_queue s2 s3 -> same_queue s1 s3.
Proof. unfold same_queue. intuition congruence. Qed.

Lemma append_all_ok l : forall s s' r,
  asm_ok s -> center_ok (center_at s) -> append_all l s = (s', r) -> asm_ok s' /\ same_queue s s'.
Proof using float_range time_range.
  induction l as [|v l IH]; intros s s' r Hs Hc H; cbn [Assembler.append_all] in H.
  - by injection H as <- <-.
  - destruct (append v s) as [s1 r1] eqn:E. apply append_ok in E as [H1 Hq1]; [|done|done].
    destruct r1 as [u|e]; [|by injection H as <- <-].
    apply IH in H as [H2 Hq2]; [|done|]. { split; [done|by eapply same_queue_trans]. }
    by destruct Hq1 as (_ & _ & _ & ->).
Qed.

Abbreviation consume := (consume A create advance time before emit).
Abbreviation progress := (progress A create advance time before emit).

Lemma consume_ok p s s' r :
  asm_ok s -> packet_ok p -> consume p s = (s', r) ->
  asm_ok s' /\ pending s' = pending s /\ config s' = config s.
Proof using float_range time_range.
  intros Hs Hp H. unfold Assembler.consume in H.
  set (s1 := match epoch_at s with None => _ | Some _ => _ end) in H.
  assert (Hs1 : asm_ok s1 /\ pending s1 = pending s /\ config s1 = config s).
  { unfold s1. destruct (epoch_at s) eqn:He; [done|]. split; [|done].
    destruct Hs. split; cbn; try done. intros e [= <-]. destruct Hp. split; unfold in_u64; lia. }
  destruct Hs1 as (Hs1 & Hq1 & Hc1). clearbody s1. clear Hs. rewrite <-Hq1, <-Hc1. clear Hq1 Hc1 s.
  assert (Hinvalid : asm_ok (count_invalid s1)) by (by destruct Hs1; split).
  assert (Hdup : asm_ok (count_duplicate s1)) by (by destruct Hs1; split).
  destruct (before _ _); [by injection H as <- <-|].
  destruct (_ <? _); [by injection H as <- <-|].
  set (index := sample_index _ _ _) in H.
  destruct (index <? _); [by injection H as <- <-|].
  destruct (create _ _) as [clock|]; [|by injection H as <- <-].
  destruct (negb _); [by injection H as <- <-|].
  set (follows := match count s1 with Some n => p_count p =? Z.land (n + 1) 15 | None => true end) in H.
  set (s2 := if follows then s1 else _) in H.
  assert (Hs2 : asm_ok s2 /\ pending s2 = pending s1 /\ config s2 = config s1).
  { unfold s2. destruct follows; [done|].
    split; [|done]. destruct Hs1. split; cbn; try done. apply u64_range. }
  destruct Hs2 as (Hs2 & Hq2 & Hc2). rewrite <-Hq2, <-Hc2. clearbody s2.
  set (s3 := set_center_at _ _) in H.
  assert (Hs3 : asm_ok s3 /\ center_ok (center_at s3)).
  { split; [|apply Hp]. destruct Hs2. split; cbn; try done. right. apply Hp. }
  destruct Hs3 as [Hs3 Hcenter]. destruct (_ || _) in H.
  - apply append_all_ok in H as [H (Hq & Hc & _)]; [done| |done].
    destruct Hs3. split; cbn in *; try done; try apply u64_range.
    rewrite Z.add_0_r. unfold u64. by rewrite Z.mod_mod.
  - by apply append_all_ok in H as [H (Hq & Hc & _)].
Qed.

Lemma progress_ok now s s' r : asm_ok s -> progress now s = (s', r) -> asm_ok s'.
Proof using float_range time_range.
  unfold Assembler.progress. intros Hs H.
  enough (Hg : forall queue s, asm_ok s -> pending s = queue ->
            progress_loop A create advance time before emit now queue s = (s', r) -> asm_ok s').
  { by apply (Hg _ _ Hs eq_refl). }
  clear s Hs H. induction queue as [|p queue IH]; intros s Hs Hq H; cbn [progress_loop] in H.
  - by injection H as <- <-.
  - destruct (negb _ && _); [by injection H as <- <-|].
    destruct (consume p (set_pending queue s)) as [s1 r1] eqn:E.
    pose proof (ok_packets s Hs) as Hp. rewrite Hq in Hp. inversion Hp; subst.
    apply consume_ok in E as (H1 & Hq1 & _); [| |done].
    + destruct r1; [|by injection H as <- <-]. by apply (IH s1).
    + destruct Hs. rewrite Hq in *. split; cbn; try done; [cbn in *; lia|by inversion ok_sorted0].
Qed.

(** ** The other methods *)

Abbreviation observe := (observe (C := C) trailer_eqb graphx_trailer decode_envelope).
Abbreviation receive := (receive A c_make before).
Abbreviation start_epoch := (start_epoch (C := C) valid_time).

Lemma count_invalid_ok s : asm_ok s -> asm_ok (count_invalid s).
Proof. intros []. by split. Qed.
Lemma count_duplicate_ok s : asm_ok s -> asm_ok (count_duplicate s).
Proof. intros []. by split. Qed.

Lemma start_epoch_ok t s s' r :
  time_in_range t -> asm_ok s -> start_epoch t s = (s', r) -> asm_ok s'.
Proof.
  unfold Assembler.start_epoch. intros Ht Hs H. destruct (require _); injection H as <- <-; [|done].
  destruct Hs. split; cbn; try done; try lia; try (by constructor); intros ? [= <-]; exact Ht.
Qed.

Lemma observe_ok wire s : asm_ok s -> asm_ok (observe wire s).1.
Proof.
  intros Hs. unfold Assembler.observe. destruct (decode_envelope wire) as [v|]; [|done].
  destruct (negb _); [done|]. destruct (v_type v), (v_utc v), (v_picoseconds v), (v_trailer v); try done.
  destruct (frame_of _ _ _); [|done]. cbn [fst]. pose proof (ok_hints s Hs) as Hh.
  destruct (Nat.eqb_spec (length (hints s)) 128) as [Hf|Hf]; destruct Hs; split; cbn; try done;
    rewrite length_app; cbn [length]; [rewrite length_drop|]; lia.
Qed.

Lemma take_hint_length t l h rest : take_hint t l = Some (h, rest) -> (length rest <= length l)%nat.
Proof.
  revert rest; induction l as [|x l IH]; intros rest H; [done|]. cbn in *.
  destruct (bool_decide _); [injection H as <- <-; lia|].
  destruct (take_hint t l) as [[h' rest']|]; [|done]. injection H as <- <-. specialize (IH _ eq_refl).
  cbn. lia.
Qed.

(** The queue after an insertion: the packet is new, and the times ascend. *)
Lemma insert_packet_ok p l l' :
  StronglySorted earlier l -> insert_packet before p l = Some l' ->
  StronglySorted earlier l' /\ l' ≡ₚ p :: l.
Proof using before_transitive before_total.
  revert l'; induction l as [|q l IH]; intros l' Hs H; cbn [insert_packet] in H.
  - injection H as <-. by repeat constructor.
  - apply StronglySorted_inv in Hs as [Hs Hq]. destruct (before (p_time q) (p_time p)) eqn:Hb.
    + destruct (insert_packet before p l) as [l1|] eqn:E; [|done]. injection H as <-.
      destruct (IH l1 Hs eq_refl) as [Hs1 Hp1]. split.
      * constructor; [done|]. rewrite Hp1. by constructor.
      * rewrite Hp1. apply Permutation_swap.
    + case_bool_decide as Heq; [done|]. injection H as <-.
      assert (Hpq : before (p_time p) (p_time q) = true).
      { destruct (before (p_time p) (p_time q)) eqn:Hb'; [done|]. by destruct Heq; apply before_total. }
      split; [|done]. constructor; [by constructor|]. constructor; [done|].
      eapply Forall_impl; [exact Hq|]. intros x Hx. by apply (before_transitive _ (p_time q)).
Qed.

Lemma receive_ok rx now s : time_in_range (sample_time rx) -> asm_ok s -> asm_ok (receive rx now s).
Proof using before_transitive before_total.
  intros Ht Hs. pose proof (count_invalid_ok s Hs) as Hi. unfold Assembler.receive.
  destruct (_ || _) eqn:Htime; [done|]. destruct (_ || _) in |- *; [done|].
  destruct (rate_q20 rx) as [q20|]; [|done]. destruct (negb _); [done|].
  destruct (take_hint _ _) as [[h rest]|] eqn:Hh; [|done]. destruct (center_q20 rx) as [q|]; [|done].
  destruct (_ || _ || _) eqn:Hq; [done|].
  assert (Hs1 : asm_ok (set_hints rest s)).
  { apply take_hint_length in Hh. destruct Hs. split; cbn; try done. lia. }
  destruct (fold_result _ _ _) as [values|e]; [|by apply count_invalid_ok].
  destruct (_ || _ || _) eqn:Hsize in |- *; [by apply count_invalid_ok|].
  destruct (insert_packet _ _ _) as [l|] eqn:Hl; [|by apply count_duplicate_ok].
  apply orb_false_iff in Hsize as [[Hs0%Nat.eqb_neq Hs2%Nat.ltb_ge]%orb_false_iff Hs3%Nat.eqb_neq].
  reflect_bools. apply insert_packet_ok in Hl as [Hsorted Hperm]; [|apply Hs1].
  destruct Hs1. split; cbn [config sid sequence_no skipped missed window_at ordinal_at samples hints pending
    center_at epoch_at emitted set_pending]; try done.
  - rewrite Hperm. cbn [length pending set_hints] in *. lia.
  - rewrite Hperm. constructor; [|done]. destruct Ht as [[Ht1 _] [Ht2 _]].
    assert (q = 1048576 * Z.quot q 1048576) as Hquot by (rewrite (Z.quot_rem q 1048576) at 1; lia).
    split; cbn; [|unfold center_ok; lia|lia|lia].
    lia.
Qed.

(** ** Every history *)

Inductive step : Assembler -> Assembler -> Prop :=
| step_start t s s' r : time_in_range t -> start_epoch t s = (s', r) -> step s s'
| step_observe wire s : step s (observe wire s).1
| step_receive rx now s : time_in_range (sample_time rx) -> step s (receive rx now s)
| step_progress now s s' r : progress now s = (s', r) -> step s s'.

(** What an assembler of one of the four streams can become *)
Definition reachable (s : Assembler) : Prop :=
  exists stream c s0, 1 <= stream <= 4 /\ new_assembler stream c = Ok s0 /\ rtc step s0 s.

Lemma reachable_ok s : reachable s -> asm_ok s.
Proof using before_transitive before_total time_range float_range.
  intros (stream & c & s0 & Hstream & Hnew & Hsteps). unfold new_assembler in Hnew.
  apply bind_ok in Hnew as ([] & Hc & [= <-]).
  match type of Hsteps with rtc _ ?s0 _ => assert (asm_ok s0) as H0 end.
  { split; cbn; try done; try lia; try constructor; done. }
  induction Hsteps as [|s1 s2 s3 Hstep _ IH]; [done|]. apply IH. destruct Hstep.
  - by eapply start_epoch_ok.
  - by apply observe_ok.
  - by apply receive_ok.
  - by eapply progress_ok.
Qed.

(** Whatever datagrams and samples arrive and however the callback fails,
    every spectrum that is emitted and whose powers are finite can be encoded,
    and its datagram is decoded to the same spectrum by the receiver. *)
Theorem emitted_arrive (s : Assembler) (x : Spectrum) :
  reachable s -> x ∈ emitted s -> usable x ->
  exists bytes, encode_spectrum create advance time x = Ok bytes
    /\ decode_spectrum create advance time bytes = Ok x.
Proof using before_transitive before_total time_range float_range.
  intros Hs Hx Hu. apply reachable_ok in Hs. pose proof (ok_emitted s Hs) as He.
  rewrite Forall_forall in He. destruct (He x Hx) as [Hr Hv].
  assert (Henc : exists bytes, encode_spectrum create advance time x = Ok bytes).
  { eexists. apply encode_ok. split; [by apply Hv|reflexivity]. }
  destruct Henc as [bytes Hb]. exists bytes. split; [done|].
  apply (decoded_decode create advance time); [by apply encode_decoded|].
  specialize (Hv Hu). apply (validate_sizes create advance time) in Hv as (_ & _ & _ & _ & H & _). lia.
Qed.

(** The queues of a reachable assembler are bounded: at most 128 hints and
    32 packets of 1 to 1024 samples, sorted by time without repetition; the
    next sample is the one after those that are held of the current window. *)
Theorem queues_bounded (s : Assembler) :
  reachable s ->
  (length (hints s) <= 128)%nat /\ (length (pending s) <= 32)%nat
  /\ StronglySorted (fun p q => before (p_time p) (p_time q) = true) (pending s)
  /\ Forall (fun p => (1 <= length (p_samples p) <= 1024)%nat) (pending s)
  /\ ordinal_at s = u64 (window_at s + Z.of_nat (length (samples s))).
Proof using before_transitive before_total time_range float_range.
  intros Hs. apply reachable_ok in Hs as []. split_and!; try done.
  eapply Forall_impl; [exact ok_packets0|]. by intros p [].
Qed.

(** ** An uninterrupted stream *)

(** The number of windows of [n] samples, one every [hop], in [len] samples *)
Definition window_count (n hop len : nat) : nat :=
  if (len <? n)%nat then 0%nat else S ((len - n) / hop).
Definition window_of (n hop : nat) (stream : list (Sample C)) (j : nat) : list (Sample C) :=
  take n (drop (j * hop) stream).

(** The spectrum of window [j] of a stream that begins at the window of [s] *)
Definition window_spectrum (s : Assembler) (stream : list (Sample C)) (j : nat) (x : Spectrum) : Prop :=
  let c := config s in
  let samples := window_of (Z.to_nat (size c)) (Z.to_nat (hop c)) stream j in
  exists raw,
    power_spectrum A c (map s_value samples) (map s_missing samples) = Ok raw
    /\ power x = power raw /\ gaps x = gaps raw /\ valid x = valid raw
    /\ boundaries x = mark_boundaries samples (boundaries raw)
    /\ Spectrum.stream x = sid s /\ center x = center_at s
    /\ ordinal x = u64 (window_at s + Z.of_nat j * hop c)
    /\ sequence x = u32 (sequence_no s + Z.of_nat j)
    /\ window_times (epoch_at s) (rate c) (ordinal x) (size c) = Ok (begin_time x, end_time x).

Lemma window_count_step n hop len :
  (0 < hop)%nat -> (hop <= n)%nat -> (n <= len)%nat ->
  window_count n hop len = S (window_count n hop (len - hop)).
Proof.
  intros Hh Hn Hl. unfold window_count. destruct (Nat.ltb_spec len n); [lia|]. f_equal.
  destruct (Nat.ltb_spec (len - hop) n); [by rewrite Nat.div_small by lia|].
  replace (len - n)%nat with (len - hop - n + 1 * hop)%nat by lia. rewrite Nat.div_add by lia. lia.
Qed.

Section Stream.
Context (c : ProcessingConfig) (s0 : Assembler).
Hypothesis config_ok : validate_config c = Ok tt.
Hypothesis times_ok : forall w, exists times, window_times (epoch_at s0) (rate c) w (size c) = Ok times.
Hypothesis emit_returns : forall done x, emit done x = None.
Abbreviation n := (Z.to_nat (size c)).
Abbreviation h := (Z.to_nat (hop c)).

(** The parts of the state that appends do not change *)
Definition stream_state (s : Assembler) : Prop :=
  config s = c /\ epoch_at s = epoch_at s0 /\ sid s = sid s0 /\ center_at s = center_at s0
  /\ in_u64 (window_at s) /\ in_u32 (sequence_no s).

Lemma hop_range : (0 < h)%nat /\ (h <= n)%nat /\ 0 <= hop c.
Proof using config_ok.
  destruct (hop_ok c config_ok) as [Hh _]. reflect_bools.
  assert (0 <= hop c) by (unfold hop; apply Z.div_pos; [apply u32_range|lia]). lia.
Qed.

Lemma append_fills v s :
  stream_state s -> (S (length (samples s)) < n)%nat ->
  append v s = (set_ordinal_at (u64 (ordinal_at s + 1)) (set_samples (samples s ++ [v]) s), Ok tt).
Proof using Type.
  intros (Hc & _) Hl. unfold Assembler.append. cbn [config set_ordinal_at set_samples samples].
  rewrite Hc, length_app. cbn [length]. by replace (_ <? _)%nat with true by (symmetry; apply Nat.ltb_lt; lia).
Qed.

Lemma append_emits v s :
  stream_state s -> length (samples s ++ [v]) = n ->
  (forall x, x ∈ samples s ++ [v] -> c_finite A (s_value x) = true) ->
  exists s1 x, append v s = (s1, Ok tt) /\ stream_state s1 /\ samples s1 = drop h (samples s ++ [v])
    /\ emitted s1 = emitted s ++ [x] /\ window_spectrum s (samples s ++ [v]) 0 x
    /\ window_at s1 = u64 (window_at s + hop c) /\ sequence_no s1 = u32 (sequence_no s + 1).
Proof using config_ok times_ok emit_returns.
  intros Hs Hl Hfin. destruct Hs as (Hc & He & Hsid & Hcenter & Hwindow & Hsequence). unfold Assembler.append.
  cbn [config set_ordinal_at set_samples samples]. rewrite Hc.
  destruct (Nat.ltb_spec (length (samples s ++ [v])) n); [lia|].
  rewrite (take_ge (samples s ++ [v])) by lia. set (W := samples s ++ [v]) in *.
  assert (Hraw : exists raw, power_spectrum A c (map s_value W) (map s_missing W) = Ok raw).
  { eexists. destruct (valid_size c config_ok) as (k & _ & Hk & _).
    assert (0 <= size c) by (rewrite Hk; by apply Z.pow_nonneg).
    apply shape; rewrite ?length_map; [done|lia|lia|]. intros i Hi. unfold at_.
    destruct (lookup_lt_is_Some_2 W i Hi) as [x Hx].
    rewrite nth_lookup, list_lookup_fmap, Hx. cbn. apply Hfin. by eapply list_elem_of_lookup_2. }
  destruct Hraw as [raw Hraw]. rewrite Hraw.
  destruct (times_ok (window_at s)) as [[from to] Ht]. cbn [epoch_at window_at set_sequence_no set_ordinal_at set_samples].
  rewrite He, Ht, emit_returns. do 2 eexists. split; [done|].
  split_and!; cbn [window_at sequence_no set_window_at set_sequence_no set_emitted set_samples set_ordinal_at]; try done.
  { split_and!; cbn; try done; [apply u64_range|apply u32_range]. }
  unfold window_spectrum. cbn zeta. rewrite Hc. unfold window_of. rewrite Nat.mul_0_l, drop_0, take_ge by lia.
  exists raw. cbn [power gaps valid boundaries Spectrum.stream center ordinal sequence begin_time end_time
    with_times label]. split_and!; try done.
  - cbn. by rewrite Z.mul_0_l, Z.add_0_r, u64_small.
  - cbn. by rewrite Z.add_0_r, u32_small.
  - cbn [ordinal]. by rewrite He.
Qed.

Lemma window_shift s s1 stream j x :
  stream_state s -> stream_state s1 -> window_at s1 = u64 (window_at s + hop c) ->
  sequence_no s1 = u32 (sequence_no s + 1) ->
  window_spectrum s1 (drop h stream) j x -> window_spectrum s stream (S j) x.
Proof using Type.
  intros (Hc & He & Hsid & Hcenter & _) (Hc1 & He1 & Hsid1 & Hcenter1 & _) Hw Hq.
  unfold window_spectrum. cbn zeta. rewrite Hc, Hc1, He, He1, Hsid, Hsid1, Hcenter, Hcenter1, Hw, Hq.
  unfold window_of. rewrite drop_drop. replace (h + j * h)%nat with (S j * h)%nat by lia.
  intros (raw & H & Hp & Hg & Hv & Hb & Hs & Hce & Ho & Hse & Ht). exists raw.
  split_and!; try done.
  - rewrite Ho, u64_add_l. f_equal. lia.
  - rewrite Hse. unfold u32. rewrite Z.add_mod_idemp_l by done. f_equal. lia.
Qed.

Lemma stream_windows l : forall s,
  stream_state s -> (length (samples s) < n)%nat ->
  (forall v, v ∈ samples s ++ l -> c_finite A (s_value v) = true) ->
  exists s' new, append_all l s = (s', Ok tt)
    /\ emitted s' = emitted s ++ new
    /\ length new = window_count n h (length (samples s ++ l))
    /\ samples s' = drop (length new * h) (samples s ++ l)
    /\ window_at s' = u64 (window_at s + Z.of_nat (length new) * hop c)
    /\ forall j x, new !! j = Some x -> window_spectrum s (samples s ++ l) j x.
Proof using config_ok times_ok emit_returns.
  pose proof hop_range as (Hh & Hhn & Hhop).
  induction l as [|v l IH]; intros s Hs Hl Hfin.
  - exists s, []. rewrite !app_nil_r. unfold window_count.
    replace (_ <? n)%nat with true by (symmetry; by apply Nat.ltb_lt).
    split_and!; try done. destruct Hs as (_ & _ & _ & _ & Hw & _). by rewrite Z.add_0_r, u64_small.
  - rewrite cons_middle, app_assoc in *. cbn [Assembler.append_all].
    destruct (decide (S (length (samples s)) < n)%nat) as [Hlt|Hge].
    + rewrite append_fills by done.
      destruct (IH (set_ordinal_at (u64 (ordinal_at s + 1)) (set_samples (samples s ++ [v]) s)))
        as (s' & new & H & Hrest); [done| |done|].
      { cbn. rewrite length_app. cbn. lia. }
      exists s', new. split; [exact H|exact Hrest].
    + destruct (append_emits v s Hs) as (s1 & x & H1 & Hs1 & Hsamples & Hem & Hwin & Hwindow & Hseq).
      { rewrite length_app. cbn. lia. }
      { intros y Hy. apply Hfin. apply elem_of_app. by left. }
      rewrite H1. assert (Hlen : length (samples s ++ [v]) = n) by (rewrite length_app; cbn; lia).
      assert (Hdrop : samples s1 ++ l = drop h ((samples s ++ [v]) ++ l)).
      { by rewrite Hsamples, (drop_app_le (samples s ++ [v]) l h) by lia. }
      destruct (IH s1) as (s' & new & H & Hem' & Hnew & Hs' & Hw' & Hwins); [done| | |].
      { rewrite Hsamples, length_drop. lia. }
      { rewrite Hdrop. intros y Hy. apply Hfin. by eapply subseteq_drop. }
      rewrite Hdrop in *. exists s', (x :: new). split; [exact H|]. split_and!.
      * by rewrite Hem', Hem, <-app_assoc.
      * rewrite window_count_step by (rewrite ?length_app in *; lia). cbn [length].
        by rewrite Hnew, length_drop.
      * by rewrite Hs', drop_drop.
      * rewrite Hw', Hwindow, u64_add_l. f_equal. cbn [length]. lia.
      * intros [|j] y Hy.
        -- injection Hy as <-. revert Hwin. unfold window_spectrum, window_of. cbn zeta.
           destruct Hs as (Hc & _). rewrite Hc, !Nat.mul_0_l, !drop_0.
           by rewrite (take_app_le (samples s ++ [v]) l) by lia.
        -- apply (window_shift s s1); try done. by apply Hwins.
Qed.
End Stream.

(** C33: Over an uninterrupted stream the assembler emits exactly the windows of
    the stream: of [len] samples, counting those it holds, there is one window
    every hop as long as a whole one is there, each emitted once, in order,
    as the power spectrum of its samples with their losses, boundaries, ordinal
    and times; what is left of the stream is held. *)
Theorem windows_emitted (l : list (Sample C)) (s : Assembler) :
  let c := config s in
  let n := Z.to_nat (size c) in
  let h := Z.to_nat (hop c) in
  let stream := samples s ++ l in
  validate_config c = Ok tt -> in_u64 (window_at s) -> in_u32 (sequence_no s) ->
  (length (samples s) < n)%nat ->
  (forall w, exists times, window_times (epoch_at s) (rate c) w (size c) = Ok times) ->
  (forall done x, emit done x = None) ->
  (forall v, v ∈ stream -> c_finite A (s_value v) = true) ->
  exists s' new, append_all l s = (s', Ok tt) /\ emitted s' = emitted s ++ new
    /\ length new = window_count n h (length stream)
    /\ samples s' = drop (length new * h) stream
    /\ window_at s' = u64 (window_at s + Z.of_nat (length new) * hop c)
    /\ forall j x, new !! j = Some x -> window_spectrum s stream j x.
Proof using Type.
  intros c n h stream Hc Hw Hq Hl Ht He Hfin.
  by apply (stream_windows c s Hc Ht He l s).
Qed.
End Assembly.

(** ** The index of a sample *)

(** For times that [receive] admits, no signed operation of the index
    computation overflows, and the index is that of the sample nearest to the
    time, counting from the epoch. *)
Theorem sample_index_nearest (r : Z) (e t : ProtocolTime) :
  1 <= r <= 2000000 ->
  0 <= picoseconds e < 1000000000000 -> 0 <= picoseconds t < 1000000000000 ->
  0 <= seconds e <= seconds t -> seconds t < 2 ^ 32 ->
  let span := (seconds t - seconds e) * 1000000000000 + (picoseconds t - picoseconds e) in
  let i := sample_index r e t in
  0 <= span ->
  in_i64 ((picoseconds t - picoseconds e) * r + 500000000000)
  /\ in_i64 ((picoseconds t - picoseconds e) * r - 500000000000)
  /\ 0 <= i /\ in_i64 i /\ 2 * Z.abs (i * 1000000000000 - span * r) <= 1000000000000.
Proof.
  intros Hr He Ht Hs Hb span i Hspan. set (d := picoseconds t - picoseconds e) in *.
  set (sec := seconds t - seconds e) in *.
  assert (Hd : - (1000000000000 * 2000000) <= d * r <= 1000000000000 * 2000000) by nia.
  assert (Hsec : 0 <= sec * r <= 2 ^ 32 * 2000000) by nia.
  assert (Hi : exists q, i = sec * r + q /\ 2 * Z.abs (q * 1000000000000 - d * r) <= 1000000000000).
  { unfold i, sample_index. fold sec.
    rewrite (u64_small sec), (u64_small (sec * r)) by (unfold in_u64; lia).
    assert (Hid : forall z, in_i64 z -> i64 z = z).
    { intros z Hz. unfold i64, in_i64 in *. rewrite Z.mod_small; lia. }
    rewrite !Hid by (unfold in_i64; lia). fold d. eexists; split; [done|].
    destruct (Z.leb_spec 0 d).
    - rewrite Z.quot_div_nonneg by lia. pose proof (Z.div_mod (d * r + 500000000000) 1000000000000).
      pose proof (Z.mod_pos_bound (d * r + 500000000000) 1000000000000). lia.
    - replace (d * r + -500000000000) with (- (- (d * r) + 500000000000)) by lia.
      rewrite Z.quot_opp_l, Z.quot_div_nonneg by lia.
      pose proof (Z.div_mod (- (d * r) + 500000000000) 1000000000000).
      pose proof (Z.mod_pos_bound (- (d * r) + 500000000000) 1000000000000). lia. }
  destruct Hi as (q & -> & Hq).
  assert (0 <= sec * r + q) by nia. unfold in_i64, span. split_and!; lia.
Qed.

Lemma sample_index_nearest_witness :
  let e := {| seconds := 5; picoseconds := 999999000000 |} in
  let t := {| seconds := 6; picoseconds := 1000000 |} in
  sample_index 1000000 e t = 2
  /\ 2 * Z.abs (sample_index 1000000 e t * 1000000000000 - 2000000 * 1000000) <= 1000000000000.
Proof.
  split; [vm_compute; reflexivity|].
  apply (sample_index_nearest 1000000 {| seconds := 5; picoseconds := 999999000000 |}
    {| seconds := 6; picoseconds := 1000000 |}); cbn; lia.
Defined.

(** ** A run *)

Definition lexicographic (a b : ProtocolTime) : bool :=
  (seconds a <? seconds b) || ((seconds a =? seconds b) && (picoseconds a <? picoseconds b)).

Lemma lexicographic_irreflexive t : lexicographic t t = false.
Proof. unfold lexicographic. by rewrite !Z.ltb_irrefl, andb_false_r. Qed.
Lemma lexicographic_spec a b : lexicographic a b = true <->
  seconds a < seconds b \/ (seconds a = seconds b /\ picoseconds a < picoseconds b).
Proof. unfold lexicographic. rewrite orb_true_iff, andb_true_iff, !Z.ltb_lt, Z.eqb_eq. done. Qed.
Lemma lexicographic_transitive a b c :
  lexicographic a b = true -> lexicographic b c = true -> lexicographic a c = true.
Proof. rewrite !lexicographic_spec. lia. Qed.
Lemma lexicographic_total a b : lexicographic a b = false -> lexicographic b a = false -> a = b.
Proof.
  intros Ha%not_true_iff_false Hb%not_true_iff_false. rewrite lexicographic_spec in *.
  destruct a as [x y], b as [z w]. cbn in *. f_equal; lia.
Qed.

(** A time line whose times are 64-bit numbers *)
Definition line_time (c : clock) : ProtocolTime :=
  {| seconds := u64 (seconds (clock_time c)); picoseconds := u64 (picoseconds (clock_time c)) |}.
Lemma line_time_range c : time_in_range (line_time c).
Proof. split; apply u64_range. Qed.

Lemma field_floats r : in_u32 (to_float field_arithmetic r).
Proof.
  unfold in_u32. cbn. pose proof (Z.mod_pos_bound r.1 (2 ^ 30)). change (2 ^ 30) with 1073741824 in *. lia.
Qed.

Definition run_config : ProcessingConfig := {| rate := 1000; size := 64; overlap := 50; hann := false |}.

(** Datagrams of one byte, which is their number; they carry 64 samples. *)
Definition run_time (k : Z) : ProtocolTime := {| seconds := 5; picoseconds := k * 64000000000 |}.
Definition run_decode (wire : list byte) : option (View Frame) :=
  match wire with
  | [b] => Some {| v_stream := 2; v_type := signal; v_utc := true; v_picoseconds := true;
                   v_integer := 5; v_fractional := picoseconds (run_time (Z_of_byte b));
                   v_count := Z_of_byte b; v_trailer := Some single |}
  | _ => None
  end.
Definition frame_eqb (f g : Frame) : bool :=
  match f, g with single, single | first, first | middle, middle | final, final => true | _, _ => false end.
Definition run_signal (k : Z) : SignalRx :=
  {| sample_time := run_time k; confidence_known := true; valid_data := true;
     rate_q20 := Some (1000 * 1048576); center_q20 := Some (2000000 * 1048576);
     fragments := [Some (Some (map (fun i => (Z.of_nat i, 1)) (seq 0 64)))] |}.

Abbreviation run_observe := (observe (C := Zmod 12289) frame_eqb id run_decode).
Abbreviation run_receive :=
  (receive field_arithmetic (fun x y => Zmod.of_Z 12289 (x.1 + y.1)) lexicographic).
Abbreviation run_progress :=
  (progress field_arithmetic clock_create clock_advance line_time lexicographic (fun _ _ => None)).

Definition run_start : Assembler (C := Zmod 12289) :=
  match new_assembler 2 run_config with
  | Ok s => s
  | Throw _ => Build_Assembler 0 run_config 0 [] None [] [] None 0 0 0 0 0 0 0 []
  end.
Definition run_seen := (run_observe [x00] run_start).1.
Definition run_queued := run_receive (run_signal 0) 7 run_seen.
Definition run_end := (run_progress 20000000 run_queued).1.
Definition run_spectrum : Spectrum := default sample (emitted run_end !! 0%nat).

Abbreviation run_reachable := (reachable field_arithmetic (fun x y => Zmod.of_Z 12289 (x.1 + y.1))
  clock_create clock_advance line_time lexicographic (fun _ => true) frame_eqb id run_decode
  (fun _ _ => None)).

Lemma run_queued_reachable : run_reachable run_queued.
Proof.
  exists 2, run_config, run_start. split; [lia|]. split; [vm_compute; reflexivity|].
  apply (rtc_l _ _ run_seen); [apply step_observe|].
  apply rtc_once, step_receive. split; vm_compute; split; congruence.
Qed.

Lemma run_end_reachable : run_reachable run_end.
Proof.
  destruct run_queued_reachable as (stream & c & s0 & H1 & H2 & H3).
  exists stream, c, s0. split; [exact H1|]. split; [exact H2|].
  eapply rtc_r; [exact H3|]. eapply step_progress. apply surjective_pairing.
Qed.

Lemma emitted_arrive_witness :
  exists bytes, encode_spectrum clock_create clock_advance line_time run_spectrum = Ok bytes
    /\ decode_spectrum clock_create clock_advance line_time bytes = Ok run_spectrum.
Proof.
  refine (emitted_arrive field_arithmetic (fun x y => Zmod.of_Z 12289 (x.1 + y.1)) clock_create
    clock_advance line_time lexicographic (fun _ => true) frame_eqb id run_decode (fun _ _ => None)
    lexicographic_transitive lexicographic_total line_time_range field_floats
    run_end run_spectrum run_end_reachable _ _).
  - apply (list_elem_of_lookup_2 (emitted run_end) 0). vm_compute. reflexivity.
  - apply Forall_forall. intros p Hp%list_elem_of_In.
    refine (proj1 (forallb_forall usable_power (power run_spectrum)) _ p Hp). vm_compute. reflexivity.
Defined.

Lemma queues_bounded_witness : (length (pending run_queued) <= 32)%nat.
Proof.
  apply (queues_bounded field_arithmetic (fun x y => Zmod.of_Z 12289 (x.1 + y.1)) clock_create
    clock_advance line_time lexicographic (fun _ => true) frame_eqb id run_decode (fun _ _ => None)
    lexicographic_transitive lexicographic_total line_time_range field_floats
    run_queued run_queued_reachable).
Defined.

(** A stream of 160 samples has four windows of 64, one every 32. *)
Lemma windows_emitted_witness :
  exists s' new, append_all field_arithmetic clock_create clock_advance line_time (fun _ _ => None)
      (lost_samples field_arithmetic 160) (set_epoch_at (Some (run_time 0)) run_start) = (s', Ok tt)
    /\ length new = 4%nat /\ emitted s' = new.
Proof.
  destruct (windows_emitted field_arithmetic clock_create clock_advance line_time (fun _ _ => None)
    (lost_samples field_arithmetic 160) (set_epoch_at (Some (run_time 0)) run_start))
    as (s' & new & H & He & Hn & _);
    [vm_compute; reflexivity|vm_compute; split; congruence|vm_compute; split; congruence
    |vm_compute; lia|by eexists|done|done|].
  exists s', new. split; [exact H|]. split; [rewrite Hn; vm_compute; reflexivity|exact He].
Defined.
End AssemblerProofs.
