(* ===== verification/Pcapng.v ===== *)
(** * Packet captures (src/src/capture.cpp, src/include/graphx/capture.hpp)

    A PCAPNG file is a sequence of blocks that repeat their length at both
    ends.  The writer puts a section header and an interface description at
    the start and one block per frame behind it, with correlation fields as a
    comment.  A block that cannot be written whole is cut off again.

    The system calls of the writer are scripts of outcomes; a script that ends
    during a write is a process that dies there. *)

From Stdlib Require Import ZArith Lia Strings.Byte Strings.Ascii Strings.String.
From stdpp Require Import base strings pretty list.
From S2P Require Import Prelude Envelope.

Module Pcapng.
Import Envelope.
Local Open Scope Z_scope.

Definition kSectionHeaderBlock : Z := 0x0a0d0d0a.
Definition kInterfaceDescriptionBlock : Z := 0x00000001.
Definition kEnhancedPacketBlock : Z := 0x00000006.
Definition kLinktypeEthernet : Z := 1.
Definition kLinktypeUser0 : Z := 147.
Definition kMaximumOptionLength : Z := 65535.

(** ** Encoding *)

(** [put_u16], [put_u32] and [put_u64]: the low byte first *)
Definition put_le (width : nat) (out : list byte) (value : Z) : list byte :=
  out ++ map (fun i => byte_of_Z (Z.land (Z.shiftr value (8 * Z.of_nat i)) 255)) (seq 0 width).
Definition put_u16 := put_le 2.
Definition put_u32 := put_le 4.
Definition put_u64 := put_le 8.

Definition put_bytes (out : list byte) (value : string) : list byte := out ++ bytes_of value.

(** [while (out.size() % 4 != 0) out.push_back({})]; three rounds are enough
    ([pad32_aligned]). *)
Fixpoint pad_rounds (rounds : nat) (out : list byte) : list byte :=
  match rounds with
  | O => out
  | S rounds => if (length out mod 4 =? 0)%nat then out else pad_rounds rounds (out ++ [x00])
  end.
Definition pad32 := pad_rounds 3.

Definition put_option (out : list byte) (code : Z) (value : string) : result (list byte) :=
  if kMaximumOptionLength <? size value then Throw (LengthError "PCAPNG option is too large")
  else Ok (pad32 (put_bytes (put_u16 (put_u16 out code) (u16 (size value))) value)).

Definition end_options (out : list byte) : list byte := put_u16 (put_u16 out 0) 0.

Definition block (type : Z) (body : list byte) : list byte :=
  let total := u32 (Z.of_nat (length body) + 12) in
  put_u32 (put_u32 (put_u32 [] type) total ++ body) total.

(** ** The comment of a frame *)

(** [None] is [false]: the text would become too long. *)
Definition append_bounded (output value : string) : option string :=
  if (kMaximumOptionLength <? size output)
     || (kMaximumOptionLength - size output <? size value)
  then None else Some (output +:+ value).

Definition escape_char (ch : ascii) : string :=
  let byte := Z_of_byte (byte_of_ascii ch) in
  if byte =? 92 then "\\"
  else if byte =? 34 then String "\" (String "034" "")
  else if byte =? 10 then "\n"
  else if byte =? 13 then "\r"
  else if byte =? 9 then "\t"
  else if (byte <? 32) || (127 <=? byte) then
    "\u00" +:+ String (ascii_of_byte (hex_digit (Z.shiftr byte 4)))
      (String (ascii_of_byte (hex_digit (Z.land byte 15))) "")
  else String ch "".

Fixpoint append_escaped_json (output value : string) : option string :=
  match value with
  | EmptyString => Some output
  | String ch value =>
      match append_bounded output (escape_char ch) with
      | Some output => append_escaped_json output value
      | None => None
      end
  end.

Record Metadata := {
  m_sent : bool; m_sequence : Z; m_wire_version : Z; m_message_id : string;
  m_parent_message_id : string; m_trace_id : string; m_type : string }.

(** The parts of the comment in order; a flag tells which are escaped. *)
Definition comment_parts (edge direction : string) (m : Metadata) : list (bool * string) :=
  let quote := String "034" "" in
  [(false, "{" +:+ quote +:+ "graphx" +:+ quote +:+ ":{" +:+ quote +:+ "edge" +:+ quote +:+ ":" +:+ quote);
   (true, edge);
   (false, quote +:+ "," +:+ quote +:+ "direction" +:+ quote +:+ ":" +:+ quote);
   (true, direction);
   (false, quote +:+ "," +:+ quote +:+ "sequence" +:+ quote +:+ ":");
   (false, pretty (m_sequence m));
   (false, "," +:+ quote +:+ "wire_version" +:+ quote +:+ ":");
   (false, pretty (m_wire_version m));
   (false, "," +:+ quote +:+ "message_id" +:+ quote +:+ ":" +:+ quote);
   (true, m_message_id m);
   (false, quote +:+ "," +:+ quote +:+ "parent_message_id" +:+ quote +:+ ":" +:+ quote);
   (true, m_parent_message_id m);
   (false, quote +:+ "," +:+ quote +:+ "trace_id" +:+ quote +:+ ":" +:+ quote);
   (true, m_trace_id m);
   (false, quote +:+ "," +:+ quote +:+ "type" +:+ quote +:+ ":" +:+ quote);
   (true, m_type m);
   (false, quote +:+ "}}")].

Fixpoint append_parts (output : string) (parts : list (bool * string)) : option string :=
  match parts with
  | [] => Some output
  | (escaped, value) :: parts =>
      match (if escaped : bool then append_escaped_json output value else append_bounded output value) with
      | Some output => append_parts output parts
      | None => None
      end
  end.

Definition truncated_comment (m : Metadata) : string :=
  let quote := String "034" "" in
  "{" +:+ quote +:+ "graphx" +:+ quote +:+ ":{" +:+ quote +:+ "metadata_truncated" +:+ quote
    +:+ ":true," +:+ quote +:+ "sequence" +:+ quote +:+ ":" +:+ pretty (m_sequence m)
    +:+ "," +:+ quote +:+ "wire_version" +:+ quote +:+ ":" +:+ pretty (m_wire_version m) +:+ "}}".

Definition capture_comment (edge direction : string) (m : Metadata) : string :=
  match append_parts "" (comment_parts edge direction m) with
  | Some text => text
  | None => truncated_comment m
  end.

(** ** The file *)

Record CaptureFile := { contents : list byte; position : nat }.

(** [write] at the position; beyond the end it leaves a hole of zeros. *)
Definition write_at (f : CaptureFile) (data : list byte) : CaptureFile :=
  {| contents := take (position f) (contents f) ++ replicate (position f - length (contents f)) x00
                   ++ data ++ drop (position f + length data) (contents f);
     position := position f + length data |}.
Definition truncate_to (n : nat) (f : CaptureFile) : CaptureFile :=
  {| contents := take n (contents f) ++ replicate (n - length (contents f)) x00;
     position := position f |}.
Definition seek_to (n : nat) (f : CaptureFile) : CaptureFile :=
  {| contents := contents f; position := n |}.

(** One call of [write]: it is interrupted, fails, or takes some bytes. *)
Inductive write_event := write_again | write_failed | wrote (more : nat).

(** What was written, and whether it was all; [None]: the process died. *)
Fixpoint write_all (bytes : list byte) (events : list write_event) : list byte * option bool :=
  match bytes with
  | [] => ([], Some true)
  | _ =>
      match events with
      | [] => ([], None)
      | write_again :: events => write_all bytes events
      | write_failed :: _ => ([], Some false)
      | wrote more :: events =>
          let (rest, outcome) := write_all (drop (S more) bytes) events in
          (take (S more) bytes ++ rest, outcome)
      end
  end.

(** ** The writer *)

(** The outcomes of the calls for one block: finding the position, the writes,
    and, if they fail, cutting off and going back *)
Record BlockIO := { locate_ok : bool; writes : list write_event; truncate_ok : bool; restore_ok : bool }.

Record Writer := {
  w_snaplen : Z; w_max_file_bytes : Z; w_max_packets : Z; w_file : CaptureFile;
  w_packets : Z; w_last_offset : Z; w_bytes_written : Z }.

Definition with_file (f : CaptureFile) (w : Writer) : Writer :=
  {| w_snaplen := w_snaplen w; w_max_file_bytes := w_max_file_bytes w;
     w_max_packets := w_max_packets w; w_file := f; w_packets := w_packets w;
     w_last_offset := w_last_offset w; w_bytes_written := w_bytes_written w |}.
Definition with_counts (packets last_offset bytes_written : Z) (w : Writer) : Writer :=
  {| w_snaplen := w_snaplen w; w_max_file_bytes := w_max_file_bytes w;
     w_max_packets := w_max_packets w; w_file := w_file w; w_packets := packets;
     w_last_offset := last_offset; w_bytes_written := bytes_written |}.

Definition write_block (bytes : list byte) (io : BlockIO) (w : Writer) : Writer * option (result Z) :=
  if (w_max_file_bytes w <? w_bytes_written w)
     || (w_max_file_bytes w - w_bytes_written w <? Z.of_nat (length bytes))
  then (w, Some (Throw (LengthError "PCAPNG file size limit reached")))
  else if negb (locate_ok io)
  then (w, Some (Throw (RuntimeError "failed to locate PCAPNG block offset")))
  else
    let start := position (w_file w) in
    let (written, outcome) := write_all bytes (writes io) in
    let f := write_at (w_file w) written in
    match outcome with
    | None => (with_file f w, None)
    | Some true =>
        (with_counts (w_packets w) (w_last_offset w)
           (u64 (w_bytes_written w + Z.of_nat (length bytes))) (with_file f w),
         Some (Ok (Z.of_nat start)))
    | Some false =>
        let f := if truncate_ok io then truncate_to start f else f in
        let f := if restore_ok io then seek_to start f else f in
        (with_file f w, Some (Throw (RuntimeError "failed to write PCAPNG capture")))
    end.

(** The body of a packet block *)
Definition packet_body (snaplen : Z) (bytes : list byte) (nanoseconds : Z) (comment : string)
    : result (list byte) :=
  let captured := Z.min (Z.of_nat (length bytes)) snaplen in
  let original := Z.min (Z.of_nat (length bytes)) (2 ^ 32 - 1) in
  let tick := Z.max 0 nanoseconds in
  let out := put_u32 (put_u32 (put_u32 (put_u32 (put_u32 [] 0) (u32 (Z.shiftr tick 32))) (u32 tick))
                        captured) original in
  let out := pad32 (out ++ take (Z.to_nat captured) bytes) in
  let* out := (if String.eqb comment "" then Ok out else put_option out 1 comment) in
  Ok (end_options out).

(** A frame to be recorded: its bytes, the time since the epoch in
    nanoseconds, and the comment *)
Record Frame := { f_bytes : list byte; f_time : Z; f_comment : string }.

Definition record (x : Frame) (io : BlockIO) (w : Writer) : Writer * option (result unit) :=
  if w_max_packets w <=? w_packets w
  then (w, Some (Throw (LengthError "PCAPNG packet limit reached")))
  else
    match packet_body (w_snaplen w) (f_bytes x) (f_time x) (f_comment x) with
    | Throw e => (w, Some (Throw e))
    | Ok body =>
        match write_block (block kEnhancedPacketBlock body) io w with
        | (w, Some (Ok offset)) =>
            (with_counts (u64 (w_packets w + 1)) offset (w_bytes_written w) w, Some (Ok tt))
        | (w, Some (Throw e)) => (w, Some (Throw e))
        | (w, None) => (w, None)
        end
    end.

Definition section_body (comment : string) : result (list byte) :=
  let out := put_u64 (put_u16 (put_u16 (put_u32 [] 0x1a2b3c4d) 1) 0) (2 ^ 64 - 1) in
  let* out := put_option out 1 comment in
  Ok (end_options out).
Definition interface_body (linktype snaplen : Z) (name description : string) : result (list byte) :=
  let out := put_u32 (put_u16 (put_u16 [] linktype) 0) snaplen in
  let* out := put_option out 2 name in
  let* out := put_option out 3 description in
  Ok (end_options (pad32 (put_u16 (put_u16 out 9) 1 ++ [byte_of_Z 9]))).

(** The outcomes of the calls that open the file *)
Record OpenIO := {
  directories_ok : bool; open_ok : bool; fstat_ok : bool; singly_linked_file : bool;
  blocking_ok : bool; empty_ok : bool; chmod_ok : bool; section_io : BlockIO; interface_io : BlockIO }.

(** Linktype and the texts of the two header blocks *)
Record Header := { h_linktype : Z; h_name : string; h_description : string; h_comment : string }.

Definition fail_unless (ok : bool) (text path : string) : result unit :=
  throw_if (negb ok) (RuntimeError (text +:+ path)).

Definition check_output (path : string) (snaplen max_file_bytes max_packets : Z) (io : OpenIO)
    : result unit :=
  let* _ := throw_if (snaplen =? 0) (InvalidArgument "PCAPNG snaplen must be positive") in
  let* _ := throw_if (max_file_bytes <? 65536)
              (InvalidArgument "PCAPNG maximum file size must be at least 65536 bytes") in
  let* _ := throw_if (max_packets =? 0)
              (InvalidArgument "PCAPNG maximum packet count must be positive") in
  let* _ := fail_unless (directories_ok io) "cannot create directories" "" in
  let* _ := fail_unless (open_ok io) "cannot safely open PCAPNG capture " path in
  let* _ := fail_unless (fstat_ok io) "cannot inspect PCAPNG output " path in
  let* _ := fail_unless (singly_linked_file io)
              "PCAPNG output must be a singly linked regular file " path in
  let* _ := fail_unless (blocking_ok io) "cannot configure PCAPNG output " path in
  let* _ := fail_unless (empty_ok io) "cannot truncate PCAPNG capture " path in
  fail_unless (chmod_ok io) "cannot protect PCAPNG capture " path.

(** One of the two header blocks *)
Definition write_header (type : Z) (body : result (list byte)) (io : BlockIO) (w : Writer)
    : Writer * option (result unit) :=
  match body with
  | Throw e => (w, Some (Throw e))
  | Ok body =>
      match write_block (block type body) io w with
      | (w, Some (Ok _)) => (w, Some (Ok tt))
      | (w, Some (Throw e)) => (w, Some (Throw e))
      | (w, None) => (w, None)
      end
  end.

Definition open_writer (path : string) (snaplen max_file_bytes max_packets : Z) (h : Header)
    (io : OpenIO) : option (result Writer) :=
  match check_output path snaplen max_file_bytes max_packets io with
  | Throw e => Some (Throw e)
  | Ok _ =>
      let w := {| w_snaplen := snaplen; w_max_file_bytes := max_file_bytes;
                  w_max_packets := max_packets; w_file := {| contents := []; position := 0 |};
                  w_packets := 0; w_last_offset := 0; w_bytes_written := 0 |} in
      match write_header kSectionHeaderBlock (section_body (h_comment h)) (section_io io) w with
      | (w, Some (Ok _)) =>
          match write_header kInterfaceDescriptionBlock
                  (interface_body (h_linktype h) snaplen (h_name h) (h_description h))
                  (interface_io io) w with
          | (w, Some (Ok _)) => Some (Ok w)
          | (_, Some (Throw e)) => Some (Throw e)
          | (_, None) => None
          end
      | (_, Some (Throw e)) => Some (Throw e)
      | (_, None) => None
      end
  end.

(** ** The two sinks *)

Definition frame_header : Header :=
  {| h_linktype := kLinktypeUser0; h_name := "graphx-framed-envelope";
     h_description := "GraphX application frame, not an Ethernet or IP network packet";
     h_comment := "GraphX canonical application frames: u32be length + GXE envelope; LINKTYPE_USER0" |}.
Definition ethernet_header (interface : string) : Header :=
  {| h_linktype := kLinktypeEthernet; h_name := interface;
     h_description := "IEEE 802.3/Ethernet frames captured from " +:+ interface;
     h_comment := "GraphX standard Ethernet packet capture; LINKTYPE_ETHERNET" |}.

Definition record_frame (edge : string) (bytes : list byte) (nanoseconds : Z) (m : Metadata)
    (io : BlockIO) (w : Writer) : Writer * option (result unit) :=
  record {| f_bytes := bytes; f_time := nanoseconds;
            f_comment := capture_comment edge (if m_sent m then "sent" else "received") m |} io w.

Definition record_packet (bytes : list byte) (nanoseconds : Z) (comment : string) (io : BlockIO)
    (w : Writer) : Writer * option (result unit) :=
  if (length bytes <? 14)%nat
  then (w, Some (Throw (InvalidArgument "Ethernet frame must include a 14-byte header")))
  else record {| f_bytes := bytes; f_time := nanoseconds; f_comment := comment |} io w.
End Pcapng.

(** * Captures can be read back

    A reader of the PCAPNG format finds in the file exactly the frames whose
    recording succeeded, whatever writes failed in between. *)

From Stdlib Require Import ZArith Lia Strings.Byte Strings.Ascii Strings.String.
From stdpp Require Import base option strings list.
From S2P Require Import Prelude Envelope.

Module PcapngProofs.
Import Envelope Pcapng.
Local Open Scope Z_scope.

(** ** Little-endian numbers *)

Definition le_bytes (width : nat) (v : Z) : list byte := put_le width [] v.
Definition le_value (l : list byte) : Z := foldr (fun b acc => Z_of_byte b + 256 * acc) 0 l.

Lemma put_le_app w out v : put_le w out v = out ++ le_bytes w v.
Proof. done. Qed.

Lemma le_bytes_length w v : length (le_bytes w v) = w.
Proof. unfold le_bytes, put_le. cbn. by rewrite length_map, length_seq. Qed.

Lemma le_bytes_succ w v : 0 <= v -> le_bytes (S w) v = byte_of_Z v :: le_bytes w (Z.shiftr v 8).
Proof.
  intros Hv. unfold le_bytes, put_le. cbn [seq map app]. f_equal.
  - rewrite Z.mul_0_r, Z.shiftr_0_r. apply Z_of_byte_inj. rewrite !Z_of_byte_of_Z.
    change 255 with (Z.ones 8). rewrite Z.land_ones by done. by rewrite Z.mod_mod.
  - rewrite <-seq_shift, map_map. apply map_ext. intros i. rewrite Z.shiftr_shiftr by lia.
    do 3 f_equal. lia.
Qed.

Lemma le_value_bytes w v : 0 <= v -> le_value (le_bytes w v) = v mod 2 ^ (8 * Z.of_nat w).
Proof.
  revert v; induction w as [|w IH]; intros v Hv.
  - cbn. by rewrite Z.mod_1_r.
  - rewrite le_bytes_succ by done. cbn [le_value foldr]. fold (le_value (le_bytes w (Z.shiftr v 8))).
    rewrite IH by by apply Z.shiftr_nonneg.
    rewrite Z_of_byte_of_Z, Z.shiftr_div_pow2 by done. change (2 ^ 8) with 256.
    replace (2 ^ (8 * Z.of_nat (S w))) with (256 * 2 ^ (8 * Z.of_nat w)).
    + by rewrite Z.rem_mul_r by lia.
    + replace (8 * Z.of_nat (S w)) with (8 + 8 * Z.of_nat w) by lia. rewrite Z.pow_add_r by lia. done.
Qed.

(** ** Padding *)

Definition padding (n : nat) : nat := ((4 - n mod 4) mod 4)%nat.

Lemma pad_step rounds out r :
  (length out mod 4 = S r)%nat -> pad_rounds (S rounds) out = pad_rounds rounds (out ++ [x00]).
Proof. intros H. cbn [pad_rounds]. by rewrite H. Qed.

Lemma pad_stop rounds out : (length out mod 4 = 0)%nat -> pad_rounds rounds out = out.
Proof. intros H. destruct rounds; [done|]. cbn [pad_rounds]. by rewrite H. Qed.

Lemma length_mod_snoc (out : list byte) r :
  (length out mod 4 = r)%nat -> (length (out ++ [x00]) mod 4 = S r mod 4)%nat.
Proof. intros H. rewrite length_app, Nat.Div0.add_mod, H. by rewrite Nat.add_1_r. Qed.

Lemma pad32_zeros out : pad32 out = out ++ replicate (padding (length out)) x00.
Proof.
  unfold pad32, padding. pose proof (Nat.mod_upper_bound (length out) 4) as Hb.
  destruct (length out mod 4)%nat as [|r] eqn:E; [by rewrite pad_stop, app_nil_r|].
  pose proof (length_mod_snoc out _ E) as E1. pose proof (length_mod_snoc _ _ E1) as E2.
  destruct r as [|[|[|r]]]; [| | |lia].
  - rewrite (pad_step _ _ _ E), (pad_step _ _ _ E1), (pad_step _ _ _ E2). by rewrite <-!app_assoc.
  - rewrite (pad_step _ _ _ E), (pad_step _ _ _ E1), (pad_stop _ _ E2). by rewrite <-!app_assoc.
  - rewrite (pad_step _ _ _ E), (pad_stop _ _ E1). done.
Qed.

Lemma padding_aligned n : ((n + padding n) mod 4 = 0)%nat.
Proof.
  unfold padding. pose proof (Nat.mod_upper_bound n 4) as Hb. rewrite Nat.Div0.add_mod.
  destruct (n mod 4)%nat as [|[|[|[|r]]]] eqn:E; [done..|lia].
Qed.

Lemma padding_shift k n : (padding (4 * k + n) = padding n)%nat.
Proof. unfold padding. rewrite Nat.add_comm, Nat.mul_comm. by rewrite Nat.Div0.mod_add. Qed.

Lemma pad32_aligned out : (length (pad32 out) mod 4 = 0)%nat.
Proof. rewrite pad32_zeros, length_app, length_replicate. apply padding_aligned. Qed.

(** ** A reader of the format *)

Definition read_le (width : nat) (l : list byte) : option (Z * list byte) :=
  if (width <=? length l)%nat then Some (le_value (take width l), drop width l) else None.

(** The type, the body and what follows a block *)
Definition read_block (l : list byte) : option (Z * list byte * list byte) :=
  '(type, rest) ← read_le 4 l;
  '(total, rest) ← read_le 4 rest;
  if (12 <=? total) && (total <=? Z.of_nat (length l)) && (total mod 4 =? 0) then
    '(again, after) ← read_le 4 (drop (Z.to_nat total - 12) rest);
    if again =? total then Some (type, take (Z.to_nat total - 12) rest, after) else None
  else None.

Fixpoint read_options (fuel : nat) (l : list byte) : option (list (Z * list byte)) :=
  match fuel with
  | O => None
  | S fuel =>
      '(code, rest) ← read_le 2 l;
      '(len, rest) ← read_le 2 rest;
      if code =? 0 then Some []
      else if Z.of_nat (length rest) <? len then None
      else
        let n := Z.to_nat len in
        options ← read_options fuel (drop (n + padding n) rest);
        Some ((code, take n rest) :: options)
  end.

Record Packet := { r_time : Z; r_captured : list byte; r_original : Z; r_comment : option string }.

Definition comment_of (options : list (Z * list byte)) : option string :=
  '(_, text) ← list_find (fun option : Z * list byte => option.1 = 1) options ;
  Some (string_of text.2).

Definition read_packet (body : list byte) : option Packet :=
  '(_, rest) ← read_le 4 body;
  '(high, rest) ← read_le 4 rest;
  '(low, rest) ← read_le 4 rest;
  '(captured, rest) ← read_le 4 rest;
  '(original, rest) ← read_le 4 rest;
  if Z.of_nat (length rest) <? captured then None
  else
    let n := Z.to_nat captured in
    options ← read_options (length rest) (drop (n + padding n) rest);
    Some {| r_time := high * 2 ^ 32 + low; r_captured := take n rest; r_original := original;
            r_comment := comment_of options |}.

Fixpoint read_packets (fuel : nat) (l : list byte) : option (list Packet) :=
  match fuel, l with
  | _, [] => Some []
  | O, _ => None
  | S fuel, _ =>
      '(type, body, rest) ← read_block l;
      if type =? kEnhancedPacketBlock then
        packet ← read_packet body; packets ← read_packets fuel rest; Some (packet :: packets)
      else None
  end.

(** The link type, the length to which frames are cut, and the packets *)
Definition read_capture (l : list byte) : option (Z * Z * list Packet) :=
  '(type, section, rest) ← read_block l;
  '(magic, _) ← read_le 4 section;
  if (type =? kSectionHeaderBlock) && (magic =? 0x1a2b3c4d) then
    '(type, interface, rest) ← read_block rest;
    '(linktype, fields) ← read_le 2 interface;
    '(_, fields) ← read_le 2 fields;
    '(snaplen, _) ← read_le 4 fields;
    if type =? kInterfaceDescriptionBlock then
      packets ← read_packets (length rest) rest; Some (linktype, snaplen, packets)
    else None
  else None.

(** ** Reading what was written *)

Lemma read_le_bytes w v rest :
  0 <= v < 2 ^ (8 * Z.of_nat w) -> read_le w (le_bytes w v ++ rest) = Some (v, rest).
Proof.
  intros Hv. unfold read_le. rewrite length_app, le_bytes_length.
  replace (w <=? w + length rest)%nat with true by (symmetry; apply Nat.leb_le; lia).
  rewrite take_app_length', drop_app_length' by by rewrite le_bytes_length.
  rewrite le_value_bytes, Z.mod_small by lia. done.
Qed.

Ltac read_field := rewrite ?app_nil_l, <-?app_assoc; rewrite read_le_bytes; [cbn [mbind option_bind]|].

Lemma block_shape type body :
  block type body = let total := u32 (Z.of_nat (length body) + 12) in
    le_bytes 4 type ++ le_bytes 4 total ++ body ++ le_bytes 4 total.
Proof.
  unfold block, put_u32. cbn zeta. rewrite !put_le_app, !app_nil_l. by rewrite <-!app_assoc.
Qed.

Lemma block_length type body : length (block type body) = (length body + 12)%nat.
Proof. rewrite block_shape. cbn zeta. rewrite !length_app, !le_bytes_length. lia. Qed.

Lemma read_block_block type body rest :
  0 <= type < 2 ^ 32 -> (length body mod 4 = 0)%nat -> Z.of_nat (length body) + 12 < 2 ^ 32 ->
  read_block (block type body ++ rest) = Some (type, body, rest).
Proof.
  intros Ht Hm Hl. unfold read_block. rewrite length_app, block_length. rewrite block_shape. cbn zeta.
  rewrite u32_small by (unfold in_u32; lia). set (total := Z.of_nat (length body) + 12) in *.
  read_field; [|done]. read_field; [|unfold total; lia].
  replace (_ && _ && _) with true.
  2: { symmetry. rewrite !andb_true_iff, !Z.leb_le, Z.eqb_eq. unfold total.
       split; [lia|]. apply Nat2Z.inj_iff in Hm. rewrite Nat2Z.inj_mod in Hm.
       rewrite Z.add_mod by done. change (Z.of_nat 4) with 4 in Hm. rewrite Hm. done. }
  assert (Hn : (Z.to_nat total - 12 = length body)%nat) by (unfold total; lia).
  rewrite Hn, drop_app_length, take_app_length. read_field; [|unfold total; lia].
  by rewrite Z.eqb_refl.
Qed.

(** One option behind an aligned prefix *)
Definition option_bytes (code : Z) (value : string) : list byte :=
  le_bytes 2 code ++ le_bytes 2 (size value) ++ bytes_of value
  ++ replicate (padding (String.length value)) x00.

Lemma put_option_ok out code value out' :
  (length out mod 4 = 0)%nat -> put_option out code value = Ok out' ->
  out' = out ++ option_bytes code value /\ size value <= 65535 /\ (length out' mod 4 = 0)%nat.
Proof.
  intros Ha. unfold put_option, kMaximumOptionLength. destruct (Z.ltb_spec 65535 (size value)); [done|].
  intros [= <-]. split; [|split; [done|apply pad32_aligned]].
  rewrite pad32_zeros. unfold put_bytes, put_u16. rewrite !put_le_app.
  replace (u16 (size value)) with (size value) by (symmetry; apply Z.mod_small; unfold size in *; lia).
  unfold option_bytes. rewrite <-!app_assoc. do 4 f_equal. f_equal.
  rewrite !length_app, !le_bytes_length, bytes_of_length.
  assert (length out = 4 * (length out / 4))%nat as -> by by apply Nat.Div0.div_exact.
  replace (4 * (length out / 4) + (2 + (2 + String.length value)))%nat
    with (4 * (length out / 4 + 1) + String.length value)%nat by lia. apply padding_shift.
Qed.

Lemma option_length code value :
  length (option_bytes code value) = (4 + String.length value + padding (String.length value))%nat.
Proof.
  unfold option_bytes. rewrite !length_app, !le_bytes_length, bytes_of_length, length_replicate. lia.
Qed.

Lemma read_option fuel code value rest :
  0 < code < 2 ^ 16 -> size value <= 65535 ->
  read_options (S fuel) (option_bytes code value ++ rest)
  = (options ← read_options fuel rest; Some ((code, bytes_of value) :: options)).
Proof.
  intros Hc Hs. cbn [read_options]. unfold option_bytes. read_field; [|lia].
  read_field; [|unfold size in *; lia].
  replace (code =? 0) with false by (symmetry; apply Z.eqb_neq; lia).
  assert (Hn : Z.to_nat (size value) = length (bytes_of value)) by (rewrite bytes_of_length; unfold size; lia).
  replace (_ <? _) with false.
  2: { symmetry. apply Z.ltb_ge. rewrite length_app, <-Hn. unfold size in *. lia. }
  rewrite Hn, take_app_length, <-drop_drop, drop_app_length.
  rewrite <-(bytes_of_length value), drop_app_length' by by rewrite length_replicate. done.
Qed.

Lemma read_end fuel rest : read_options (S fuel) (le_bytes 2 0 ++ le_bytes 2 0 ++ rest) = Some [].
Proof. cbn [read_options]. do 2 (read_field; [|lia]). done. Qed.

Lemma end_options_app out : end_options out = out ++ le_bytes 2 0 ++ le_bytes 2 0.
Proof. unfold end_options, put_u16. rewrite !put_le_app. by rewrite <-app_assoc. Qed.

(** ** Packets *)

Definition frame_ok (x : Frame) : Prop := f_time x < 2 ^ 63.

(** What a reader finds of a frame *)
Definition packet_of (snaplen : Z) (x : Frame) : Packet :=
  {| r_time := Z.max 0 (f_time x); r_captured := take (Z.to_nat snaplen) (f_bytes x);
     r_original := Z.min (Z.of_nat (length (f_bytes x))) (2 ^ 32 - 1);
     r_comment := if String.eqb (f_comment x) "" then None else Some (f_comment x) |}.

(** The options of a packet behind its data *)
Lemma packet_options fixed comment body :
  (length fixed mod 4 = 0)%nat ->
  (let* out := (if String.eqb comment "" then Ok fixed else put_option fixed 1 comment) in
   Ok (end_options out)) = Ok body ->
  exists options, body = fixed ++ options /\ (length options mod 4 = 0)%nat
    /\ (4 <= length options)%nat
    /\ forall fuel, (4 <= fuel)%nat -> exists l, read_options fuel options = Some l
         /\ comment_of l = if String.eqb comment "" then None else Some comment.
Proof.
  intros Haligned H. destruct (String.eqb_spec comment "") as [He|He].
  - injection H as <-. eexists; split; [apply end_options_app|]. split; [done|]. split; [done|].
    intros [|fuel] Hf; [lia|]. exists []. split; [|done].
    rewrite <-(app_nil_r (le_bytes 2 0)) at 2. apply read_end.
  - apply bind_ok in H as (out & Ho & [= <-]). apply put_option_ok in Ho as (-> & Hlen & Hm); [|done].
    exists (option_bytes 1 comment ++ le_bytes 2 0 ++ le_bytes 2 0).
    rewrite end_options_app, <-app_assoc. split; [done|]. split.
    + rewrite length_app, option_length, !length_app, !le_bytes_length.
      pose proof (padding_aligned (String.length comment)) as Hp.
      replace (4 + _ + _ + _)%nat with (String.length comment + padding (String.length comment) + 2 * 4)%nat by lia.
      by rewrite Nat.Div0.mod_add.
    + split; [rewrite length_app, option_length; lia|]. intros [|[|fuel]] Hf; [lia..|]. eexists. rewrite read_option by lia.
      rewrite <-(app_nil_r (le_bytes 2 0)) at 2. rewrite read_end. split; [done|].
      transitivity (Some (string_of (bytes_of comment))); [done|by rewrite string_of_bytes_of].
Qed.

Lemma read_packet_body snaplen x body :
  in_u32 snaplen -> frame_ok x ->
  packet_body snaplen (f_bytes x) (f_time x) (f_comment x) = Ok body ->
  read_packet body = Some (packet_of snaplen x) /\ (length body mod 4 = 0)%nat.
Proof.
  intros Hs Hx H. unfold packet_body in H.
  set (captured := Z.min (Z.of_nat (length (f_bytes x))) snaplen) in H.
  set (original := Z.min _ (2 ^ 32 - 1)) in H. set (tick := Z.max 0 (f_time x)) in H.
  assert (Htick : 0 <= tick < 2 ^ 63) by (unfold tick, frame_ok in *; lia).
  assert (Hhigh : 0 <= Z.shiftr tick 32 < 2 ^ 32).
  { rewrite Z.shiftr_div_pow2 by done. split; [apply Z.div_pos; lia|apply Z.div_lt_upper_bound; lia]. }
  set (data := take (Z.to_nat captured) (f_bytes x)) in H.
  assert (Hdata : length data = Z.to_nat captured) by (unfold data; rewrite length_take; lia).
  set (head := le_bytes 4 0 ++ le_bytes 4 (Z.shiftr tick 32) ++ le_bytes 4 (u32 tick)
                 ++ le_bytes 4 captured ++ le_bytes 4 original).
  assert (Hhead : length head = 20%nat) by (unfold head; by rewrite !length_app, !le_bytes_length).
  set (fixed := pad32 _) in H.
  assert (Hfixed : fixed = head ++ data ++ replicate (padding (Z.to_nat captured)) x00).
  { unfold fixed. rewrite pad32_zeros. unfold put_u32. rewrite !put_le_app, app_nil_l.
    rewrite (u32_small (Z.shiftr tick 32)) by done. unfold head. rewrite <-!app_assoc. do 6 f_equal.
    rewrite !length_app, !le_bytes_length, Hdata.
    exact (f_equal (fun n => replicate n x00) (padding_shift 5 (Z.to_nat captured))). }
  assert (Haligned : (length fixed mod 4 = 0)%nat) by apply pad32_aligned.
  apply (packet_options fixed) in H as (options & -> & Hm & Hmin & Hread); [|done]. split.
  2: { rewrite length_app, Nat.Div0.add_mod, Haligned, Hm. done. }
  unfold read_packet. rewrite Hfixed. unfold head. rewrite <-!app_assoc.
  assert (0 <= captured < 2 ^ 32) by (unfold captured, in_u32 in *; lia).
  assert (0 <= original < 2 ^ 32) by (unfold original; lia).
  do 5 (read_field; [|apply u32_range || lia]).
  replace (_ <? captured) with false.
  2: { symmetry. apply Z.ltb_ge. rewrite length_app. unfold data in *. lia. }
  rewrite <-Hdata at 2. rewrite <-drop_drop, (drop_app_length' data) by (rewrite Hdata; done).
  rewrite drop_app_length' by by rewrite length_replicate.
  destruct (Hread (length (data ++ replicate (padding (Z.to_nat captured)) x00 ++ options)))
    as (l & -> & Hl); [rewrite !length_app; lia|].
  cbn [mbind option_bind]. f_equal. unfold packet_of. f_equal; [| |exact Hl].
  - unfold u32. rewrite Z.shiftr_div_pow2 by done. pose proof (Z.div_mod tick (2 ^ 32)). fold tick. lia.
  - rewrite <-Hdata, take_app_length. unfold data, captured.
    destruct (Z.min_spec (Z.of_nat (length (f_bytes x))) snaplen) as [[Hlt ->]|[Hge ->]]; [|done].
    rewrite !take_ge; [done|lia|lia].
Qed.

(** ** The writer *)

Lemma write_all_prefix bytes events : forall written outcome,
  write_all bytes events = (written, outcome) -> outcome = Some true -> written = bytes.
Proof.
  revert bytes; induction events as [|[| |more] events IH]; intros bytes written outcome H Ho;
    destruct bytes as [|b bytes]; cbn [write_all] in H; subst; try congruence.
  - by eapply IH.
  - destruct (write_all _ events) as [rest o] eqn:E. injection H as <- ->.
    rewrite (IH _ _ _ E eq_refl). exact (take_drop (S more) (b :: bytes)).
Qed.

(** The file begins with the blocks [done], and the position is behind them. *)
Definition holds (done : list byte) (w : Writer) : Prop :=
  w_bytes_written w = Z.of_nat (length done) /\ position (w_file w) = length done
  /\ take (length done) (contents (w_file w)) = done
  /\ (length done <= length (contents (w_file w)))%nat.

(** No tail of an incomplete block *)
Definition clean (w : Writer) : Prop :=
  Z.of_nat (length (contents (w_file w))) = w_bytes_written w.

Lemma write_at_holds done f data :
  position f = length done -> take (length done) (contents f) = done ->
  (length done <= length (contents f))%nat ->
  contents (write_at f data) = done ++ data ++ drop (length done + length data) (contents f).
Proof.
  intros Hp Ht Hl. unfold write_at. cbn [contents]. rewrite Hp, Ht.
  by replace (length done - length (contents f))%nat with 0%nat by lia.
Qed.

Lemma write_block_holds done bytes io w w' r :
  holds done w -> restore_ok io = true -> w_max_file_bytes w < 2 ^ 64 ->
  write_block bytes io w = (w', r) ->
  w_max_file_bytes w' = w_max_file_bytes w /\ w_snaplen w' = w_snaplen w
  /\ w_max_packets w' = w_max_packets w /\ w_packets w' = w_packets w
  /\ match r with
     | Some (Ok offset) =>
         offset = Z.of_nat (length done) /\ holds (done ++ bytes) w'
         /\ w_bytes_written w' <= w_max_file_bytes w' /\ (clean w -> clean w')
     | Some (Throw _) => holds done w' /\ (truncate_ok io = true -> clean w -> clean w')
     | None => take (length done) (contents (w_file w')) = done /\ w_bytes_written w' = w_bytes_written w
               /\ (length done <= length (contents (w_file w')))%nat
     end.
Proof.
  intros Hw Hr Hmax H. pose proof Hw as (Hb & Hp & Ht & Hl). unfold write_block in H.
  destruct (_ || _) eqn:Hbound; [by injection H as <- <-|].
  destruct (negb (locate_ok io)); [by injection H as <- <-|].
  apply orb_false_iff in Hbound as [Hb1%Z.ltb_ge Hb2%Z.ltb_ge].
  destruct (write_all bytes (writes io)) as [written outcome] eqn:E.
  pose proof (write_at_holds done (w_file w) written Hp Ht Hl) as Hc.
  assert (Htake : take (length done) (contents (write_at (w_file w) written)) = done)
    by by rewrite Hc, take_app_length.
  assert (Hlen : (length done <= length (contents (write_at (w_file w) written)))%nat)
    by (rewrite Hc, length_app; lia).
  rewrite Hp in H. destruct outcome as [[]|]; injection H as <- <-; cbn; split_and!; try done.
  - apply write_all_prefix in E as ->; [|done]. unfold holds. cbn [w_bytes_written w_file with_counts with_file].
    rewrite u64_small by (unfold in_u64; lia). 
    change (position (write_at (w_file w) bytes)) with (position (w_file w) + length bytes)%nat.
    rewrite Hp, length_app. split_and!; [lia|done| |].
    + rewrite Hc, app_assoc, take_app_length'; [done|by rewrite length_app].
    + rewrite Hc, !length_app. lia.
  - rewrite u64_small by (unfold in_u64; lia). lia.
  - unfold clean. cbn [w_file w_bytes_written with_counts with_file]. intros Hclean.
    apply write_all_prefix in E as ->; [|done].
    rewrite Hc, u64_small by (unfold in_u64; lia). rewrite !length_app, length_drop. lia.
  - unfold holds. rewrite Hr. cbn [w_file w_bytes_written with_file seek_to position contents].
    split_and!; [done|done| |]; destruct (truncate_ok io); cbn [contents truncate_to]; try done.
    + by rewrite Htake, take_app_length'.
    + rewrite Htake, length_app. lia.
  - unfold clean. intros -> _. rewrite Hr. cbn [w_file w_bytes_written with_file seek_to contents truncate_to].
    rewrite Htake, length_app, length_replicate. lia.
Qed.

Lemma write_block_counts bytes io w w' r :
  write_block bytes io w = (w', r) ->
  w_packets w' = w_packets w /\ w_last_offset w' = w_last_offset w.
Proof.
  unfold write_block. intros H. destruct (_ || _); [by injection H as <- _|].
  destruct (negb _); [by injection H as <- _|].
  destruct (write_all _ _) as [written [[]|]]; by injection H as <- _.
Qed.

(** ** Whole files *)

Definition block_ok (body : list byte) : Prop :=
  (length body mod 4 = 0)%nat /\ Z.of_nat (length body) + 12 < 2 ^ 32.

(** The block of a frame *)
Definition packet_block (snaplen : Z) (x : Frame) (bytes : list byte) : Prop :=
  exists body, bytes = block kEnhancedPacketBlock body /\ block_ok body
    /\ read_packet body = Some (packet_of snaplen x).

Lemma read_packet_blocks snaplen xs bs : Forall2 (packet_block snaplen) xs bs ->
  forall fuel, (length xs <= fuel)%nat -> read_packets fuel (concat bs) = Some (map (packet_of snaplen) xs).
Proof.
  induction 1 as [|x bytes xs bs (body & -> & [Hm Hl] & Hread) _ IH]; intros fuel Hf; [by destruct fuel|].
  destruct fuel as [|fuel]; [cbn in Hf; lia|]. cbn [concat].
  assert (Hne : exists b l, block kEnhancedPacketBlock body ++ concat bs = b :: l).
  { rewrite block_shape. cbn zeta. by do 2 eexists. }
  destruct Hne as (b & l & Heq). cbn [read_packets]. rewrite Heq, <-Heq.
  rewrite read_block_block by done. cbn [mbind option_bind]. rewrite Z.eqb_refl, Hread.
  cbn [mbind option_bind]. rewrite IH by (cbn in Hf; lia). done.
Qed.

(** The two header blocks *)
Definition header_bytes (linktype snaplen : Z) (head : list byte) : Prop :=
  exists section interface, head = block kSectionHeaderBlock section
      ++ block kInterfaceDescriptionBlock interface
    /\ block_ok section /\ block_ok interface
    /\ (exists rest, section = le_bytes 4 0x1a2b3c4d ++ rest)
    /\ (exists rest, interface = le_bytes 2 linktype ++ le_bytes 2 0 ++ le_bytes 4 snaplen ++ rest).

Lemma blocks_at_least snaplen xs bs :
  Forall2 (packet_block snaplen) xs bs -> (length xs <= length (concat bs))%nat.
Proof.
  induction 1 as [|x bytes xs bs (body & -> & _) _ IH]; [done|].
  cbn [concat]. rewrite length_app, block_length. cbn [length]. lia.
Qed.

Lemma read_file linktype snaplen head xs bs :
  0 <= linktype < 2 ^ 16 -> in_u32 snaplen -> header_bytes linktype snaplen head ->
  Forall2 (packet_block snaplen) xs bs ->
  read_capture (head ++ concat bs) = Some (linktype, snaplen, map (packet_of snaplen) xs).
Proof.
  intros Hl Hs (section & interface & -> & [Hm1 Hl1] & [Hm2 Hl2] & (r1 & Hr1) & (r2 & Hr2)) Hbs.
  unfold read_capture. rewrite <-app_assoc, read_block_block by done. cbn [mbind option_bind].
  rewrite Hr1. read_field; [|lia]. cbn [andb Z.eqb Pos.eqb].
  change ((kSectionHeaderBlock =? kSectionHeaderBlock) && (439041101 =? 439041101)) with true.
  cbn match. rewrite read_block_block by done. cbn [mbind option_bind]. rewrite Hr2.
  read_field; [|lia]. read_field; [|lia]. read_field; [|done].
  change (kInterfaceDescriptionBlock =? kInterfaceDescriptionBlock) with true. cbn match.
  rewrite (read_packet_blocks snaplen xs bs); [done|done|]. by apply (blocks_at_least snaplen).
Qed.

(** ** Recording frames *)

(** Records frames in order, whatever fails; the frames whose recording
    returned, and whether the process survived *)
Fixpoint record_all (l : list (Frame * BlockIO)) (w : Writer) : Writer * list Frame * bool :=
  match l with
  | [] => (w, [], true)
  | (x, io) :: l =>
      match record x io w with
      | (w, Some (Ok _)) =>
          let '(w, recorded, alive) := record_all l w in (w, x :: recorded, alive)
      | (w, Some (Throw _)) => record_all l w
      | (w, None) => (w, [], false)
      end
  end.

(** The state between two calls *)
Record writer_ok (head : list byte) (bs : list (list byte)) (w : Writer) : Prop := {
  w_holds : holds (head ++ concat bs) w;
  w_count : w_packets w = Z.of_nat (length bs);
  w_count_max : w_packets w <= w_max_packets w < 2 ^ 64;
  w_size_max : w_bytes_written w <= w_max_file_bytes w < 2 ^ 32;
}.

(** What is left of the file when the process died in a write *)
Definition died (head : list byte) (bs : list (list byte)) (w : Writer) : Prop :=
  take (length (head ++ concat bs)) (contents (w_file w)) = head ++ concat bs
  /\ w_bytes_written w = Z.of_nat (length (head ++ concat bs)) /\ w_packets w = Z.of_nat (length bs)
  /\ (length (head ++ concat bs) <= length (contents (w_file w)))%nat.

Lemma record_ok head bs w x io w' r :
  writer_ok head bs w -> in_u32 (w_snaplen w) -> frame_ok x -> restore_ok io = true ->
  record x io w = (w', r) ->
  w_snaplen w' = w_snaplen w /\ w_max_file_bytes w' = w_max_file_bytes w
  /\ w_max_packets w' = w_max_packets w
  /\ match r with
     | Some (Ok _) => exists bytes, packet_block (w_snaplen w) x bytes
         /\ writer_ok head (bs ++ [bytes]) w' /\ (clean w -> clean w')
         /\ w_last_offset w' = Z.of_nat (length (head ++ concat bs))
     | Some (Throw _) => writer_ok head bs w' /\ (truncate_ok io = true -> clean w -> clean w')
         /\ w_last_offset w' = w_last_offset w
     | None => died head bs w'
     end.
Proof.
  intros [Hw Hn Hnm Hsz] Hs Hx Hr H. unfold record in H.
  destruct (Z.leb_spec (w_max_packets w) (w_packets w)) as [Hfull|Hroom]; [by injection H as <- <-|].
  destruct (packet_body _ _ _ _) as [body|e] eqn:Hbody; [|by injection H as <- <-].
  apply read_packet_body in Hbody as [Hread Hm]; [|done|done].
  destruct (write_block _ io w) as [w1 r1] eqn:E.
  pose proof E as (Hmax & Hsn & Hmp & Hp & Hcase)%(write_block_holds _ _ _ _ _ _ Hw Hr); [|lia].
  destruct r1 as [[offset|e]|]; injection H as <- <-.
  - destruct Hcase as (-> & Hh & Hle & Hclean). split_and!; [done..|].
    exists (block kEnhancedPacketBlock body). rewrite <-app_assoc in Hh.
    assert (Hlen : Z.of_nat (length body) + 12 < 2 ^ 32).
    { destruct Hh as (Hb & _). rewrite !length_app, block_length in Hb. lia. }
    split; [by exists body|]. split; [|by split].
    assert (Hcat : concat (bs ++ [block kEnhancedPacketBlock body])
                   = concat bs ++ block kEnhancedPacketBlock body)
      by (rewrite concat_app; apply (f_equal (app _)); apply app_nil_r).
    split; cbn [w_packets w_max_packets w_bytes_written w_max_file_bytes with_counts].
    + rewrite Hcat. exact Hh.
    + rewrite u64_small, length_app by (unfold in_u64; lia). cbn [length]. lia.
    + rewrite u64_small by (unfold in_u64; lia). lia.
    + lia.
  - destruct Hcase as (Hh & Hclean). split_and!; try done.
    + split; [done|lia|lia|]. destruct Hh as (-> & _). destruct Hw as (<- & _). lia.
    + apply write_block_counts in E. tauto.
  - destruct Hcase as (Ht & Hb & Hl). split_and!; try done. split_and!; try done; [|congruence].
    rewrite Hb. by destruct Hw as (-> & _).
Qed.

(** ** The header *)

Lemma end_options_aligned out : (length out mod 4 = 0)%nat -> (length (end_options out) mod 4 = 0)%nat.
Proof.
  intros H. rewrite end_options_app, !length_app, !le_bytes_length.
  by rewrite Nat.Div0.add_mod, H.
Qed.

Lemma section_body_ok comment body : section_body comment = Ok body ->
  (length body mod 4 = 0)%nat /\ exists rest, body = le_bytes 4 0x1a2b3c4d ++ rest.
Proof.
  unfold section_body. intros (out & Ho & [= <-])%bind_ok.
  apply put_option_ok in Ho as (-> & _ & Hm); [|done]. split; [by apply end_options_aligned|].
  rewrite end_options_app. eexists. unfold put_u64, put_u16, put_u32.
  rewrite !put_le_app, app_nil_l, <-!app_assoc. done.
Qed.

Lemma interface_body_ok linktype snaplen name description body :
  interface_body linktype snaplen name description = Ok body ->
  (length body mod 4 = 0)%nat
  /\ exists rest, body = le_bytes 2 linktype ++ le_bytes 2 0 ++ le_bytes 4 snaplen ++ rest.
Proof.
  unfold interface_body. intros (o1 & H1 & (o2 & H2 & [= <-])%bind_ok)%bind_ok.
  apply put_option_ok in H1 as (-> & _ & Hm); [|done].
  apply put_option_ok in H2 as (-> & _ & _); [|done].
  split; [apply end_options_aligned, pad32_aligned|].
  rewrite end_options_app, pad32_zeros. eexists. unfold put_u16, put_u32.
  rewrite !put_le_app, app_nil_l, <-!app_assoc. done.
Qed.

(** A block that was written whole did not need the calls that repair. *)
Lemma write_block_ok done bytes io w w' offset :
  holds done w -> w_max_file_bytes w < 2 ^ 64 -> write_block bytes io w = (w', Some (Ok offset)) ->
  w_max_file_bytes w' = w_max_file_bytes w /\ w_snaplen w' = w_snaplen w
  /\ w_max_packets w' = w_max_packets w /\ w_packets w' = w_packets w
  /\ holds (done ++ bytes) w' /\ w_bytes_written w' <= w_max_file_bytes w /\ (clean w -> clean w').
Proof.
  intros Hw Hmax H.
  assert (H' : write_block bytes {| locate_ok := locate_ok io; writes := writes io;
                                    truncate_ok := true; restore_ok := true |} w
               = (w', Some (Ok offset))).
  { revert H. unfold write_block. cbn [locate_ok writes truncate_ok restore_ok].
    destruct (_ || _); [done|]. destruct (negb _); [done|].
    destruct (write_all _ _) as [written [[]|]]; done. }
  apply (write_block_holds done) in H' as (E1 & E2 & E3 & E4 & _ & E5 & E6 & E7); [|done..].
  rewrite E1 in E6. by split_and!.
Qed.

Lemma write_header_ok done type body io w w' :
  holds done w -> w_max_file_bytes w < 2 ^ 32 -> write_header type body io w = (w', Some (Ok tt)) ->
  exists b, body = Ok b /\ Z.of_nat (length b) + 12 < 2 ^ 32
  /\ w_max_file_bytes w' = w_max_file_bytes w /\ w_snaplen w' = w_snaplen w
  /\ w_max_packets w' = w_max_packets w /\ w_packets w' = w_packets w
  /\ holds (done ++ block type b) w' /\ w_bytes_written w' <= w_max_file_bytes w /\ (clean w -> clean w').
Proof.
  intros Hw Hmax H. unfold write_header in H. destruct body as [b|e]; [|done].
  destruct (write_block _ io w) as [w1 [[offset|e]|]] eqn:E; [|done..]. injection H as <-.
  apply (write_block_ok done) in E as (E1 & E2 & E3 & E4 & E5 & E6 & E7); [|done|lia].
  exists b. split; [done|]. split_and!; try done.
  destruct E5 as (Hb & _). rewrite length_app, block_length in Hb. lia.
Qed.

Lemma open_writer_ok path snaplen max_file_bytes max_packets h io w :
  max_file_bytes < 2 ^ 32 -> 0 <= max_packets < 2 ^ 64 ->
  open_writer path snaplen max_file_bytes max_packets h io = Some (Ok w) ->
  w_snaplen w = snaplen /\ w_max_file_bytes w = max_file_bytes /\ w_max_packets w = max_packets
  /\ clean w /\ exists head, header_bytes (h_linktype h) snaplen head /\ writer_ok head [] w.
Proof.
  intros Hmax Hmp H. unfold open_writer in H. destruct (check_output _ _ _ _ _); [|done].
  set (w0 := Build_Writer _ _ _ _ _ _ _) in H.
  assert (H0 : holds [] w0) by (split_and!; [done..|cbn; lia]).
  destruct (write_header _ _ (section_io io) w0) as [w1 [[[]|]|]] eqn:E1; [|done..].
  apply (write_header_ok []) in E1 as (b1 & Hb1 & L1 & M1 & S1 & P1 & C1 & Hh1 & Z1 & K1); [|done..].
  destruct (write_header _ _ (interface_io io) w1) as [w2 [[[]|]|]] eqn:E2; [|done..].
  injection H as <-.
  apply (write_header_ok _ _ _ _ _ _ Hh1) in E2
    as (b2 & Hb2 & L2 & M2 & S2 & P2 & C2 & Hh2 & Z2 & K2); [|by rewrite M1].
  split; [by rewrite S2, S1|]. split; [by rewrite M2, M1|]. split; [by rewrite P2, P1|].
  split; [by apply K2, K1|].
  exists (block kSectionHeaderBlock b1 ++ block kInterfaceDescriptionBlock b2). split.
  - apply section_body_ok in Hb1 as [A1 R1]. apply interface_body_ok in Hb2 as [A2 R2].
    exists b1, b2. by split_and!.
  - rewrite app_nil_l in Hh2. split; cbn [concat]; rewrite ?app_nil_r, ?C2, ?C1, ?P2, ?P1, ?M2, ?M1 in *;
      [done..|cbn in *; lia|cbn in *; lia].
Qed.

(** ** The capture *)

Lemma writer_ok_died head bs w : writer_ok head bs w -> died head bs w.
Proof. intros [(Hb & _ & Ht & Hl) Hn _ _]. by split_and!. Qed.

Lemma record_all_ok head : forall l bs w w' recorded alive,
  writer_ok head bs w -> in_u32 (w_snaplen w) ->
  Forall (fun p => frame_ok p.1 /\ restore_ok p.2 = true) l ->
  record_all l w = (w', recorded, alive) ->
  exists bs', Forall2 (packet_block (w_snaplen w)) recorded bs' /\ died head (bs ++ bs') w'
  /\ w_packets w' <= w_max_packets w /\ w_bytes_written w' <= w_max_file_bytes w
  /\ (alive = true -> Forall (fun p => truncate_ok p.2 = true) l -> clean w -> clean w').
Proof.
  induction l as [|[x io] l IH]; intros bs w w' recorded alive Hw Hs Hl H; cbn [record_all] in H.
  - injection H as <- <- <-. exists []. rewrite app_nil_r. pose proof Hw as [_ _ [Hn _] [Hb _]].
    split_and!; [done|by apply writer_ok_died|done..].
  - apply Forall_cons in Hl as [[Hx Hr] Hl].
    destruct (record x io w) as [w1 r] eqn:E.
    apply (record_ok head bs) in E as (S1 & M1 & P1 & Hcase); [|done..].
    destruct r as [[u|e]|].
    + destruct Hcase as (bytes & Hbytes & Hw1 & Hc1 & _).
      destruct (record_all l w1) as [[w2 rs] al] eqn:E2. injection H as <- <- <-.
      apply (IH (bs ++ [bytes])) in E2 as (bs' & Hbs & Hd & Hn & Hb & Hc); [|done|by rewrite S1|done].
      exists (bytes :: bs'). rewrite S1, M1, P1, <-?app_assoc in *.
      split_and!; [by constructor|done..|]. intros Ha [_ Ht]%Forall_cons Hk. auto.
    + destruct Hcase as (Hw1 & Hc1 & _).
      apply (IH bs) in H as (bs' & Hbs & Hd & Hn & Hb & Hc); [|done|by rewrite S1|done].
      exists bs'. rewrite S1, M1, P1 in *.
      split_and!; [done..|]. intros Ha [Ht1 Ht]%Forall_cons Hk. auto.
    + injection H as <- <- <-. exists []. rewrite app_nil_r. pose proof Hw as [(Hb & _) Hn Hnm Hbm].
      pose proof Hcase as (_ & Hb' & Hn' & _). split_and!; [constructor|done|lia|lia|done].
Qed.

(** C38: Whatever writes fail, and even when the process dies in one of them,
    the blocks that the writer has counted are a well-formed capture: a reader
    finds the link type, the snapshot length, and exactly the frames whose
    recording returned, in order, with their time, their first bytes, their
    length and their comment.  The bounds on packets and bytes hold, and a
    writer that could cut off its incomplete blocks leaves nothing else in
    the file. *)
Theorem capture_readable path snaplen max_file_bytes max_packets h io w l w' recorded alive :
  in_u32 snaplen -> 0 <= h_linktype h < 2 ^ 16 ->
  max_file_bytes < 2 ^ 32 -> 0 <= max_packets < 2 ^ 64 ->
  open_writer path snaplen max_file_bytes max_packets h io = Some (Ok w) ->
  Forall (fun p => frame_ok p.1 /\ restore_ok p.2 = true) l ->
  record_all l w = (w', recorded, alive) ->
  let file := contents (w_file w') in
  let whole := Z.to_nat (w_bytes_written w') in
  read_capture (take whole file) = Some (h_linktype h, snaplen, map (packet_of snaplen) recorded)
  /\ (whole <= length file)%nat
  /\ w_packets w' = Z.of_nat (length recorded) /\ w_packets w' <= max_packets
  /\ w_bytes_written w' <= max_file_bytes
  /\ (alive = true -> Forall (fun p => truncate_ok p.2 = true) l -> whole = length file).
Proof.
  intros Hs Hlink Hmax Hmp Ho Hl H file whole.
  apply open_writer_ok in Ho as (Es & Em & Ep & Hclean & head & Hhead & Hw); [|done..].
  apply (record_all_ok head _ []) in H as (bs & Hbs & (Ht & Hb & Hn & Hlen) & Hnm & Hbm & Hc);
    [|done|by rewrite Es|done].
  rewrite Es, Em, Ep in *. cbn [app] in *.
  assert (Hwhole : whole = length (head ++ concat bs)) by (unfold whole; rewrite Hb; lia).
  unfold file. rewrite Hwhole, Ht. split; [by apply read_file|]. split; [done|].
  apply Forall2_length in Hbs as Hcount. rewrite Hcount. split_and!; [done|lia|done|].
  intros Ha Htr. specialize (Hc Ha Htr Hclean). unfold clean in Hc. lia.
Qed.

(** Two frames are recorded; between them a write fails halfway. *)
Definition good_io : BlockIO :=
  {| locate_ok := true; writes := [write_again; wrote 9; wrote 1000]; truncate_ok := true;
     restore_ok := true |}.
Definition bad_io : BlockIO :=
  {| locate_ok := true; writes := [wrote 20; write_failed]; truncate_ok := true; restore_ok := true |}.
Definition good_open : OpenIO :=
  {| directories_ok := true; open_ok := true; fstat_ok := true; singly_linked_file := true;
     blocking_ok := true; empty_ok := true; chmod_ok := true; section_io := good_io;
     interface_io := good_io |}.
Definition sample_frame (n : nat) (text : string) : Frame :=
  {| f_bytes := replicate n x41; f_time := 10 ^ 18 + Z.of_nat n; f_comment := text |}.
Definition sample_frames : list (Frame * BlockIO) :=
  [(sample_frame 5 "first", good_io); (sample_frame 70 "", bad_io); (sample_frame 70 "", good_io)].

Definition sample_writer : option Writer :=
  match open_writer "capture.pcapng" 64 65536 10 frame_header good_open with
  | Some (Ok w) => Some w
  | _ => None
  end.

Lemma capture_readable_witness : exists w w',
  open_writer "capture.pcapng" 64 65536 10 frame_header good_open = Some (Ok w)
  /\ record_all sample_frames w = (w', [sample_frame 5 "first"; sample_frame 70 ""], true)
  /\ read_capture (take (Z.to_nat (w_bytes_written w')) (contents (w_file w')))
     = Some (147, 64, map (packet_of 64) [sample_frame 5 "first"; sample_frame 70 ""])
  /\ Z.to_nat (w_bytes_written w') = length (contents (w_file w')).
Proof.
  assert (Ho : exists w, open_writer "capture.pcapng" 64 65536 10 frame_header good_open = Some (Ok w)
    /\ sample_writer = Some w) by (eexists; split; vm_compute; reflexivity).
  destruct Ho as (w & Ho & Hw).
  assert (Hr : exists w', record_all sample_frames w
    = (w', [sample_frame 5 "first"; sample_frame 70 ""], true)).
  { vm_compute in Hw. injection Hw as <-. eexists. vm_compute. reflexivity. }
  destruct Hr as [w' Hr]. exists w, w'. split; [exact Ho|]. split; [exact Hr|].
  assert (Hs : in_u32 64) by (unfold in_u32; lia).
  assert (Hh : 0 <= h_linktype frame_header < 2 ^ 16) by (split; vm_compute; congruence).
  destruct (capture_readable "capture.pcapng" 64 65536 10 frame_header good_open w sample_frames w'
    _ true Hs Hh ltac:(lia) ltac:(lia) Ho ltac:(repeat constructor; vm_compute; reflexivity) Hr)
    as (Hread & _ & _ & _ & Hall).
  split; [exact Hread|]. apply Hall; [done|]. repeat constructor; vm_compute; reflexivity.
Defined.
End PcapngProofs.
