(* ===== verification/Control.v ===== *)
(** * Signed telemetry and the control channel (src/src/observability.cpp)

    Telemetry datagrams carry a time, a nonce and an HMAC over both and the
    payload.  The same envelope brings commands back: a thread receives
    datagrams, authenticates them, and pauses or resumes the node.  The reader
    searches for markers in the text; it does not parse JSON.

    The HMAC, the clock, the random device and the reader of the secret are
    arguments.  The thread is a loop over the datagrams that arrive. *)

From Stdlib Require Import ZArith Lia Strings.Byte Strings.Ascii Strings.String.
From stdpp Require Import base option strings gmap list.
From S2P Require Import Prelude Envelope Text Pcapng.

Module Control.
Import Text.
Local Open Scope Z_scope.

(** ** Texts *)

Fixpoint escape_json (value : string) : string :=
  match value with
  | EmptyString => ""
  | String c value => Pcapng.escape_char c +:+ escape_json value
  end.

Definition payload_marker : string := Eval vm_compute in "{" +:+ quoted "payload" +:+ ":".
Definition auth_marker : string := Eval vm_compute in "," +:+ quoted "auth" +:+ ":{".
Definition timestamp_marker : string := Eval vm_compute in quoted "timestamp" +:+ ":".

(** The text behind [marker], at most as long as [json_string_field] allows *)
Definition json_auth_field (input name : string) (length : nat) : string :=
  let marker := quoted name +:+ ":" +:+ quote in
  match find marker input with
  | None => ""
  | Some start =>
      let value := (start + String.length marker)%nat in
      if (String.length input <=? value + length)%nat
         || negb (bool_decide (String.get (value + length) input = Some "034"%char))
      then "" else substr value length input
  end.

Definition json_string_field (input name : string) (maximum : nat) : string :=
  let marker := quoted name +:+ ":" +:+ quote in
  match find marker input with
  | None => ""
  | Some start =>
      let value := (start + String.length marker)%nat in
      match find_from value quote input with
      | None => ""
      | Some last =>
          if (maximum <? last - value)%nat then ""
          else
            let result := substr value (last - value) input in
            match find "\" result with Some _ => "" | None => result end
      end
  end.

(** The sign and the digits at the start *)
Fixpoint digit_run (s : string) : string :=
  match s with
  | String c rest => match ConfigParse.ConfigParse.digit c with
                     | Some _ => String c (digit_run rest) | None => "" end
  | EmptyString => ""
  end.
Definition number_run (s : string) : string :=
  match s with String "-" rest => String "-" (digit_run rest) | _ => digit_run s end.

Definition json_integer_field (input name : string) : option Z :=
  let marker := quoted name +:+ ":" in
  match find marker input with
  | None => None
  | Some start =>
      let text := number_run (sdrop (start + String.length marker) input) in
      if String.eqb text "" || String.eqb text "-" then None else stoll text
  end.

Definition valid_command_id (value : string) : bool :=
  (String.length value =? 36)%nat
  && forallb (fun index =>
       match String.get index value with
       | None => false
       | Some c =>
           if bool_decide (index ∈ [8; 13; 18; 23]%nat) then Ascii.eqb c "-"
           else
             let n := Z.of_N (N_of_ascii c) in
             ((48 <=? n) && (n <=? 57)) || ((97 <=? n) && (n <=? 102)) || ((65 <=? n) && (n <=? 70))
       end) (seq 0 36).

(** ** Signatures *)

Section hmac.
(** HMAC-SHA256 of a secret and a text; [None] when the library fails *)
Context (hmac : string -> string -> option (list byte)).

Definition hmac_hex (secret value : string) : result string :=
  match hmac secret value with
  | Some digest => Ok (hex_text digest)
  | None => Throw (RuntimeError "HMAC-SHA256 failed")
  end.

(** [entropy] is what [getentropy] yields for 16 bytes. *)
Definition random_hex_nonce (entropy : option (list byte)) : result string :=
  match entropy with
  | Some bytes => Ok (hex_text bytes)
  | None => Throw (RuntimeError "getentropy failed")
  end.

Definition signed_value (timestamp : Z) (nonce payload : string) : string :=
  to_string timestamp +:+ "." +:+ nonce +:+ "." +:+ payload.

Definition signed_datagram (payload secret : string) (now : Z) (entropy : option (list byte))
    : result string :=
  if String.eqb secret "" then Ok payload
  else
    let* nonce := random_hex_nonce entropy in
    let* signature := hmac_hex secret (signed_value now nonce payload) in
    Ok (payload_marker +:+ payload +:+ auth_marker +:+ timestamp_marker +:+ to_string now
        +:+ "," +:+ quoted "nonce" +:+ ":" +:+ quoted nonce
        +:+ "," +:+ quoted "signature" +:+ ":" +:+ quoted signature +:+ "}}").

Definition command_payload (input : string) : string :=
  match rfind auth_marker input with
  | Some auth =>
      if starts_with input payload_marker
      then substr (String.length payload_marker) (auth - String.length payload_marker) input
      else ""
  | None => ""
  end.

(** The text of the time, up to the next comma *)
Definition timestamp_of (input : string) (auth : nat) : option Z :=
  match find_from auth timestamp_marker input with
  | None => None
  | Some marker =>
      let start := (marker + 12)%nat in
      match find_from start "," input with
      | None => None
      | Some last => stoll (substr start (last - start) input)
      end
  end.

Definition authenticate_command (input secret : string) (nonces : gset string) (now : Z)
    : result (bool * gset string) :=
  if String.eqb secret "" then Ok (false, nonces)
  else
    match rfind auth_marker input with
    | None => Ok (false, nonces)
    | Some auth =>
        if negb (starts_with input payload_marker) || negb (ends_with input "}}")
        then Ok (false, nonces)
        else
          let payload := substr (String.length payload_marker)
                           (auth - String.length payload_marker) input in
          match timestamp_of input auth with
          | None => Ok (false, nonces)
          | Some timestamp =>
              if (timestamp <? now - 30000) || (now + 30000 <? timestamp) then Ok (false, nonces)
              else
                let nonce := json_auth_field (sdrop auth input) "nonce" 32 in
                let signature := json_auth_field (sdrop auth input) "signature" 64 in
                if String.eqb nonce "" || String.eqb signature "" || bool_decide (nonce ∈ nonces)
                then Ok (false, nonces)
                else
                  let* expected := hmac_hex secret (signed_value timestamp nonce payload) in
                  if negb (String.eqb signature expected) then Ok (false, nonces)
                  else
                    let nonces := if 4096 <=? Z.of_nat (base.size nonces) then ∅ else nonces in
                    Ok (true, {[nonce]} ∪ nonces)
          end
    end.

(** ** The control thread *)

Record Control := { paused : bool; nonces : gset string }.

(** A datagram, and what the calls made for it return: the secret, the clock
    before and after the authentication, and what the acknowledgement needs *)
Record Arrival := {
  a_text : string; a_secret : option string; a_auth_now : Z; a_now : Z;
  a_ack_secret : option string; a_ack_now : Z; a_ack_entropy : option (list byte) }.

(** [secret()], which throws when the reader fails *)
Definition secret (s : option string) : result string :=
  match s with Some s => Ok s | None => Throw (RuntimeError "secret reader") end.

(** [Impl::sign] *)
Definition sign (payload : string) (key : option string) (now : Z) (entropy : option (list byte))
    : string :=
  match (let* key := secret key in signed_datagram payload key now entropy) with
  | Ok text => text
  | Throw _ => ""
  end.

Inductive Action := pause | resume.
#[global] Instance action_dec : EqDecision Action.
Proof. solve_decision. Defined.

Definition action_of (text : string) : option Action :=
  if String.eqb text "pause" then Some pause
  else if String.eqb text "resume" then Some resume else None.
Definition action_text (a : Action) : string :=
  match a with pause => "pause" | resume => "resume" end.

(** The action of an authentic payload, and the command it names *)
Definition command_of (node_id payload : string) (now : Z) : option (Action * string) :=
  let command_id := json_string_field payload "commandId" 36 in
  if negb (String.eqb (json_string_field payload "kind" 16) "control")
     || negb (valid_command_id command_id)
     || negb (String.eqb (json_string_field payload "targetNode" 64) node_id)
  then None
  else
    match json_integer_field payload "expiresAt" with
    | None => None
    | Some expires_at =>
        if (expires_at <? now) || (now + 30000 <? expires_at) then None
        else option_map (fun a => (a, command_id)) (action_of (json_string_field payload "action" 8))
    end.

Definition acknowledgement_payload (node_id : string) (a : Action) (command_id : string) (paused : bool)
    : string :=
  "{" +:+ quoted "kind" +:+ ":" +:+ quoted "control_ack" +:+ "," +:+ quoted "nodeId" +:+ ":"
    +:+ quoted (escape_json node_id) +:+ "," +:+ quoted "action" +:+ ":" +:+ quoted (action_text a)
    +:+ "," +:+ quoted "commandId" +:+ ":" +:+ quoted command_id +:+ "," +:+ quoted "accepted"
    +:+ ":true," +:+ quoted "state" +:+ ":" +:+ quoted (if paused then "paused" else "running") +:+ "}".

(** One round of the loop; the datagrams it sends *)
Definition control_step (node_id : string) (a : Arrival) (c : Control) : Control * list string :=
  let command := stake 2048 (a_text a) in
  if String.eqb command "" then (c, [])
  else
    match (let* key := secret (a_secret a) in
           authenticate_command command key (nonces c) (a_auth_now a)) with
    | Throw _ => (c, [])
    | Ok (false, nonces) => ({| paused := paused c; nonces := nonces |}, [])
    | Ok (true, nonces) =>
        match command_of node_id (command_payload command) (a_now a) with
        | None => ({| paused := paused c; nonces := nonces |}, [])
        | Some (action, command_id) =>
            let paused := bool_decide (action = pause) in
            ({| paused := paused; nonces := nonces |},
             [sign (acknowledgement_payload node_id action command_id paused)
                (a_ack_secret a) (a_ack_now a) (a_ack_entropy a)])
        end
    end.

Fixpoint control_loop (node_id : string) (l : list Arrival) (c : Control) : Control * list string :=
  match l with
  | [] => (c, [])
  | a :: l =>
      let '(c, sent) := control_step node_id a c in
      let '(c, later) := control_loop node_id l c in
      (c, sent ++ later)
  end.

Definition initial : Control := {| paused := false; nonces := ∅ |}.
End hmac.
End Control.

(** * Signed datagrams are accepted once, and only for their payload

    What was signed is authenticated and yields its payload, whatever the
    payload contains; what is authenticated carries the HMAC of its time, nonce
    and payload.  The set of nonces is bounded, and until it is emptied no
    datagram is accepted twice; after that, datagrams that are still in time
    are accepted again. *)

From Stdlib Require Import ZArith Lia Strings.Byte Strings.Ascii Strings.String.
From stdpp Require Import base option strings gmap list.
From S2P Require Import Prelude Envelope EnvelopeIdentity ConfigRender Text Pcapng.

Module ControlProofs.
Import Envelope ConfigRender Text Control.
Local Open Scope Z_scope.

(** ** Searching in texts with fixed parts *)

(** The texts differ in a common position. *)
Fixpoint mismatch (p s : string) : bool :=
  match p, s with
  | String a p, String b s => negb (Ascii.eqb a b) || mismatch p s
  | _, _ => false
  end.

(** No occurrence of [p] starts inside [w]. *)
Fixpoint no_start (p w : string) : bool :=
  match w with
  | EmptyString => true
  | String _ rest => mismatch p w && no_start p rest
  end.

Lemma mismatch_prefix p w v : mismatch p w = true -> String.prefix p (w +:+ v) = false.
Proof.
  revert w; induction p as [|a p IH]; intros [|b w] H; try done. rewrite sapp_cons. cbn in *.
  destruct (ascii_dec a b) as [->|Hne]; [|done]. rewrite Ascii.eqb_refl in H. by apply IH.
Qed.

Lemma find_step p c s :
  String.prefix p (String c s) = false -> find p (String c s) = option_map S (find p s).
Proof. intros H. cbn [find]. by rewrite H. Qed.

Lemma prefix_cons h p s : String.prefix (String h p) (String h s) = String.prefix p s.
Proof. cbn [String.prefix]. by destruct (ascii_dec h h). Qed.

Lemma find_here p v : find p (p +:+ v) = Some 0%nat.
Proof. pose proof (prefix_self p v) as H. destruct (p +:+ v); cbn [find]; by rewrite H. Qed.

Lemma find_fixed p w v :
  no_start p w = true -> find p (w +:+ v) = option_map (Nat.add (String.length w)) (find p v).
Proof.
  induction w as [|c w IH]; intros H; [rewrite sapp_empty; by destruct (find p v)|].
  cbn [no_start] in H. apply andb_true_iff in H as [Hm H]. rewrite sapp_cons.
  rewrite find_step by by apply (mismatch_prefix _ (String c w)).
  rewrite IH by done. by destruct (find p v).
Qed.

Lemma rfind_fixed p w v : no_start p w = true -> rfind p v = None -> rfind p (w +:+ v) = None.
Proof.
  intros H Hv. induction w as [|c w IH]; [done|].
  cbn [no_start] in H. apply andb_true_iff in H as [Hm H]. rewrite sapp_cons. cbn [rfind].
  rewrite IH by done. by rewrite <-sapp_cons, mismatch_prefix.
Qed.

Lemma ends_with_app u s : ends_with (u +:+ s) s = true.
Proof.
  unfold ends_with. rewrite sapp_length, sdrop_app' by lia. rewrite String.eqb_refl, andb_true_r.
  apply Nat.leb_le. lia.
Qed.

Lemma string_get_app u v : String.get (String.length u) (u +:+ v) = String.get 0 v.
Proof. induction u as [|c u IH]; [done|]. rewrite sapp_cons. exact IH. Qed.

(** ** Hexadecimal texts *)

Definition hex_char (c : ascii) : Prop :=
  (48 <= N_of_ascii c <= 57)%N \/ (97 <= N_of_ascii c <= 102)%N.

Lemma hex_char_digit n : 0 <= n < 16 -> hex_char (ascii_of_byte (hex_digit n)).
Proof.
  intros Hn. assert (Hin : In n (map Z.of_nat (seq 0 16))).
  { apply in_map_iff. exists (Z.to_nat n). rewrite in_seq. lia. }
  unfold hex_char. cbn in Hin. repeat destruct Hin as [<-|Hin]; try done; vm_compute;
    first [left; split; congruence|right; split; congruence].
Qed.

Lemma hex_text_cons b l :
  hex_text (b :: l) = String (ascii_of_byte (hex_digit (Z.shiftr (Z_of_byte b) 4)))
    (String (ascii_of_byte (hex_digit (Z.land (Z_of_byte b) 15))) (hex_text l)).
Proof. done. Qed.

Lemma hex_text_length l : String.length (hex_text l) = (2 * length l)%nat.
Proof. induction l as [|b l IH]; [done|]. rewrite hex_text_cons. cbn [String.length length]. lia. Qed.

Lemma hex_text_chars l : all_chars hex_char (hex_text l).
Proof.
  induction l as [|b l IH]; [done|]. rewrite hex_text_cons. pose proof (Z_of_byte_range b).
  split; [|split; [|done]]; apply hex_char_digit.
  - rewrite Z.shiftr_div_pow2 by done. split; [apply Z.div_pos; lia|apply Z.div_lt_upper_bound; lia].
  - change 15 with (Z.ones 4). rewrite Z.land_ones by done. by apply Z.mod_pos_bound.
Qed.

Lemma hex_without c l : ~ hex_char c -> without c (hex_text l).
Proof.
  intros Hc. apply (all_chars_impl hex_char); [|apply hex_text_chars]. by intros x Hx ->.
Qed.

Ltac not_char := unfold number_char, hex_char; vm_compute; intuition congruence.

(** ** The envelope *)

(** Everything behind the payload *)
Definition tail (time nonce signature : string) : string :=
  auth_marker +:+ timestamp_marker +:+ time +:+ "," +:+ quoted "nonce" +:+ ":" +:+ quoted nonce
  +:+ "," +:+ quoted "signature" +:+ ":" +:+ quoted signature +:+ "}}".

Definition nonce_part : string := Eval vm_compute in "," +:+ quoted "nonce" +:+ ":" +:+ quote.
Definition signature_part : string :=
  Eval vm_compute in quote +:+ "," +:+ quoted "signature" +:+ ":" +:+ quote.
Definition last_part : string := Eval vm_compute in quote +:+ "}}".

Lemma tail_parts time nonce signature :
  tail time nonce signature = auth_marker +:+ timestamp_marker +:+ time +:+ nonce_part +:+ nonce
    +:+ signature_part +:+ signature +:+ last_part.
Proof. unfold tail, quoted. rewrite <-!sapp_assoc. reflexivity. Qed.

(** The value of a field is quoted and has the expected length. *)
Lemma field_value u v w n : n = String.length v ->
  (if (String.length (u +:+ v +:+ quote +:+ w) <=? String.length u + n)%nat
      || negb (bool_decide (String.get (String.length u + n) (u +:+ v +:+ quote +:+ w) = Some "034"%char))
   then "" else substr (String.length u) n (u +:+ v +:+ quote +:+ w)) = v.
Proof.
  intros ->. rewrite !sapp_length. cbn [String.length quote].
  replace (_ <=? _)%nat with false by (symmetry; apply Nat.leb_gt; lia).
  rewrite bool_decide_eq_true_2.
  2: { rewrite sapp_assoc, <-sapp_length, string_get_app. done. }
  cbn [orb negb]. unfold substr. rewrite sdrop_app, stake_app' by done. done.
Qed.

Section tail.
Context (time nonce signature : string).
Context (time_comma : without "," time) (time_quote : without "034" time).
Context (nonce_comma : without "," nonce) (nonce_quote : without "034" nonce)
  (nonce_s : without "s" nonce) (nonce_length : String.length nonce = 32%nat).
Context (signature_comma : without "," signature) (signature_length : String.length signature = 64%nat).

Lemma tail_auth : rfind auth_marker (tail time nonce signature) = Some 0%nat.
Proof.
  rewrite tail_parts. set (rest := timestamp_marker +:+ _).
  assert (Hrest : rfind auth_marker (sdrop 1 auth_marker +:+ rest) = None).
  { apply rfind_fixed; [done|]. apply rfind_fixed; [done|]. apply rfind_skip; [done|].
    apply rfind_fixed; [done|]. apply rfind_skip; [done|]. apply rfind_fixed; [done|].
    apply rfind_skip; done. }
  change (auth_marker +:+ rest) with (String "," (sdrop 1 auth_marker +:+ rest)). cbn [rfind].
  rewrite Hrest. change (String "," (sdrop 1 auth_marker +:+ rest)) with (auth_marker +:+ rest).
  by rewrite prefix_self.
Qed.

(** The first occurrence of a marker whose first character is a quote *)
Lemma find_time (rest : string) p :
  no_start (String "034" p) (auth_marker +:+ timestamp_marker) = true ->
  find (String "034" p) (auth_marker +:+ timestamp_marker +:+ time +:+ rest)
  = option_map (Nat.add (String.length (auth_marker +:+ timestamp_marker +:+ time)))
      (find (String "034" p) rest).
Proof.
  intros Hp. rewrite (sapp_assoc auth_marker timestamp_marker), find_fixed, find_skip by done.
  destruct (find _ rest) as [n|]; [|done]. cbn [option_map]. apply (f_equal Some). rewrite !sapp_length. lia.
Qed.

Definition nonce_marker : string := Eval vm_compute in quoted "nonce" +:+ ":" +:+ quote.
Definition signature_marker : string := Eval vm_compute in quoted "signature" +:+ ":" +:+ quote.

Lemma tail_nonce : json_auth_field (tail time nonce signature) "nonce" 32 = nonce.
Proof.
  unfold json_auth_field. change (quoted "nonce" +:+ ":" +:+ quote) with nonce_marker.
  set (rest := nonce +:+ signature_part +:+ signature +:+ last_part).
  assert (Hfind : find nonce_marker (tail time nonce signature)
                  = Some (String.length ((auth_marker +:+ timestamp_marker +:+ time) +:+ ","))).
  { rewrite tail_parts. unfold nonce_marker at 1. rewrite find_time by done.
    assert (Hn : find nonce_marker (nonce_part +:+ rest) = Some 1%nat).
    { transitivity (find nonce_marker ("," +:+ (nonce_marker +:+ rest))); [done|].
      by rewrite find_fixed, find_here. }
    unfold nonce_marker, rest in Hn. rewrite Hn. cbn [option_map]. apply (f_equal Some). rewrite !sapp_length. cbn. lia. }
  rewrite Hfind, <-sapp_length.
  assert (Htail : tail time nonce signature
    = (((auth_marker +:+ timestamp_marker +:+ time) +:+ ",") +:+ nonce_marker) +:+ nonce
        +:+ quote +:+ sdrop 1 signature_part +:+ signature +:+ last_part)
    by (rewrite tail_parts, <-!sapp_assoc; reflexivity).
  rewrite Htail. by apply field_value.
Qed.

Lemma tail_signature : json_auth_field (tail time nonce signature) "signature" 64 = signature.
Proof.
  unfold json_auth_field. change (quoted "signature" +:+ ":" +:+ quote) with signature_marker.
  set (before := (((auth_marker +:+ timestamp_marker +:+ time) +:+ sdrop 0 nonce_part) +:+ nonce)
                   +:+ String "034" ",").
  assert (Hfind : find signature_marker (tail time nonce signature) = Some (String.length before)).
  { rewrite tail_parts. unfold signature_marker at 1. rewrite find_time by done.
    set (rest := signature +:+ last_part).
    change (nonce_part +:+ nonce +:+ signature_part +:+ rest)
      with (("," +:+ quoted "nonce" +:+ ":") +:+ String "034" (nonce +:+ signature_part +:+ rest)).
    rewrite find_fixed by done. rewrite find_step.
    2: { destruct nonce as [|c n]; [done|]. destruct nonce_s as [Hc _].
         rewrite sapp_cons, prefix_cons. by apply prefix_head_ne. }
    rewrite find_skip by done.
    assert (Hn : find signature_marker (signature_part +:+ rest) = Some 2%nat).
    { transitivity (find signature_marker (String "034" "," +:+ (signature_marker +:+ rest))); [done|].
      by rewrite find_fixed, find_here. }
    unfold signature_marker in Hn. rewrite Hn. cbn [option_map]. apply (f_equal Some).
    unfold before. rewrite !sapp_length. change (String.length (sdrop 0 nonce_part)) with 10%nat.
    change (String.length (quoted "nonce")) with 7%nat.
    change (String.length (String "034" ",")) with 2%nat.
    change (String.length ",") with 1%nat. change (String.length ":") with 1%nat. lia. }
  rewrite Hfind, <-sapp_length.
  assert (Htail : tail time nonce signature
    = (before +:+ signature_marker) +:+ signature +:+ quote +:+ "}}")
    by (unfold before; rewrite tail_parts, <-!sapp_assoc; reflexivity).
  rewrite Htail. by apply field_value.
Qed.

Lemma tail_time before :
  timestamp_of (before +:+ tail time nonce signature) (String.length before) = stoll time.
Proof.
  unfold timestamp_of, find_from. rewrite sdrop_app, tail_parts, find_fixed, find_here by done.
  cbn [option_map].
  set (rest := nonce_part +:+ nonce +:+ signature_part +:+ signature +:+ last_part).
  assert (Hs : sdrop (String.length before + (String.length auth_marker + 0) + 12)
                 (before +:+ auth_marker +:+ timestamp_marker +:+ time +:+ rest) = time +:+ rest).
  { rewrite !sapp_assoc, <-(sapp_assoc _ time). apply sdrop_app'. rewrite !sapp_length. cbn. lia. }
  rewrite Hs, find_skip by done. change (find "," rest) with (Some 0%nat). cbn [option_map].
  unfold substr. rewrite Hs, stake_app'; [done|lia].
Qed.
End tail.

(** ** What the reader makes of a datagram *)

(** The time, the nonce, the payload and the signature *)
Definition message (input : string) : option (Z * string * string * string) :=
  match rfind auth_marker input with
  | None => None
  | Some auth =>
      if negb (starts_with input payload_marker) || negb (ends_with input "}}") then None
      else
        match timestamp_of input auth with
        | None => None
        | Some timestamp =>
            let nonce := json_auth_field (sdrop auth input) "nonce" 32 in
            let signature := json_auth_field (sdrop auth input) "signature" 64 in
            if String.eqb nonce "" || String.eqb signature "" then None
            else Some (timestamp, nonce, command_payload input, signature)
        end
  end.

Definition in_time (timestamp now : Z) : Prop := now - 30000 <= timestamp <= now + 30000.

(** The set after a nonce was taken *)
Definition use_nonce (nonce : string) (nonces : gset string) : gset string :=
  {[nonce]} ∪ (if 4096 <=? Z.of_nat (base.size nonces) then ∅ else nonces).

Section proofs.
Context (hmac : string -> string -> option (list byte)).

(** [Some] of the nonce: accepted *)
Definition authentic (input key : string) (now : Z) (nonce : string) : Prop :=
  key <> "" /\ exists timestamp payload digest,
    message input = Some (timestamp, nonce, payload, hex_text digest) /\ in_time timestamp now
    /\ hmac key (signed_value timestamp nonce payload) = Some digest.

Lemma authenticate_true input key nonces now nonces' :
  authenticate_command hmac input key nonces now = Ok (true, nonces') <->
  exists nonce, authentic input key now nonce /\ nonce ∉ nonces /\ nonces' = use_nonce nonce nonces.
Proof.
  unfold authenticate_command, authentic, message, command_payload.
  destruct (String.eqb_spec key "") as [->|Hk]; [split; [done|by intros (? & [? _] & _)]|].
  destruct (rfind auth_marker input) as [auth|]; [|split; [done|by intros (? & (_ & ? & ? & ? & ? & _) & _)]].
  destruct (starts_with input payload_marker); cbn [negb orb];
    [|split; [done|by intros (? & (_ & ? & ? & ? & ? & _) & _)]].
  destruct (ends_with input "}}"); cbn [negb]; [|split; [done|by intros (? & (_ & ? & ? & ? & ? & _) & _)]].
  destruct (timestamp_of input auth) as [t|]; [|split; [done|by intros (? & (_ & ? & ? & ? & ? & _) & _)]].
  set (nonce := json_auth_field _ "nonce" 32). set (signature := json_auth_field _ "signature" 64).
  set (payload := substr _ _ input).
  destruct (String.eqb nonce "" || String.eqb signature "") eqn:Hempty; cbn [orb].
  { split; [intros H; case_match; discriminate|by intros (? & (_ & ? & ? & ? & ? & _) & _)]. }
  unfold hmac_hex. split.
  - destruct ((t <? now - 30000) || (now + 30000 <? t)) eqn:Ht; [done|].
    destruct (bool_decide (nonce ∈ nonces)) eqn:Hn; [done|]. apply bool_decide_eq_false in Hn.
    intros (expected & He & H)%bind_ok.
    destruct (hmac key _) as [digest|] eqn:Hd; [|done]. injection He as <-.
    destruct (String.eqb_spec signature (hex_text digest)) as [Hs|]; [|done].
    injection H as <-. exists nonce. split; [|done]. split; [done|]. exists t, payload, digest.
    rewrite Hs. split; [done|]. split; [|done]. unfold in_time. reflect_bools. lia.
  - intros (? & (_ & ? & ? & digest & [= -> <- <- Hs] & Ht & Hd) & Hn & ->).
    replace ((_ <? _) || _) with false.
    2: { symmetry. unfold in_time in Ht. apply orb_false_iff. rewrite !Z.ltb_ge. lia. }
    rewrite bool_decide_eq_false_2 by done. rewrite Hd. cbn [bind].
    by rewrite Hs, String.eqb_refl.
Qed.

Lemma authenticate_false input key nonces now nonces' :
  authenticate_command hmac input key nonces now = Ok (false, nonces') -> nonces' = nonces.
Proof.
  unfold authenticate_command. destruct (String.eqb key ""); [congruence|].
  destruct (rfind _ input); [|congruence]. destruct (_ || _); [congruence|].
  destruct (timestamp_of _ _); [|congruence]. destruct (_ || _); [congruence|].
  destruct (_ || _ || _); [congruence|]. intros (expected & _ & H)%bind_ok.
  destruct (negb _); congruence.
Qed.

(** ** The loop *)

Definition command_text (a : Arrival) : string := stake 2048 (a_text a).
Definition arrival_nonce (a : Arrival) : string :=
  match message (command_text a) with Some (_, nonce, _, _) => nonce | None => "" end.

(** The datagram carries the HMAC of its contents and is in time. *)
Definition valid (a : Arrival) : Prop :=
  exists key, a_secret a = Some key
  /\ authentic (command_text a) key (a_auth_now a) (arrival_nonce a).

Definition accepts (a : Arrival) (c : Control) : bool :=
  match (let* key := secret (a_secret a) in
         authenticate_command hmac (command_text a) key (nonces c) (a_auth_now a)) with
  | Ok (accepted, _) => accepted
  | Throw _ => false
  end.

(** The datagrams that a run accepts, in order *)
Fixpoint accepted (node_id : string) (l : list Arrival) (c : Control) : list Arrival :=
  match l with
  | [] => []
  | a :: l => (if accepts a c then [a] else []) ++ accepted node_id l (control_step hmac node_id a c).1
  end.

(** What an accepted datagram commands *)
Definition commands (node_id : string) (l : list Arrival) : list Action :=
  omap (fun a => fst <$> command_of node_id (command_payload (command_text a)) (a_now a)) l.

Lemma authentic_nonce input key now nonce a :
  authentic input key now nonce -> command_text a = input -> arrival_nonce a = nonce.
Proof.
  intros (_ & t & p & d & Hm & _) <-. unfold arrival_nonce. by rewrite Hm.
Qed.

Lemma accepts_true a c : accepts a c = true <-> valid a /\ arrival_nonce a ∉ nonces c.
Proof.
  unfold accepts, valid. destruct (a_secret a) as [key|]; cbn [secret bind].
  2: { split; [done|by intros [(? & ? & _) _]]. }
  split.
  - intros H. destruct (authenticate_command _ _ _ _ _) as [[[] nonces']|] eqn:E; try done.
    apply authenticate_true in E as (nonce & Ha & Hn & _).
    rewrite (authentic_nonce _ _ _ _ a Ha eq_refl). split; [|done]. by exists key.
  - intros [(? & [= <-] & Ha) Hn].
    by rewrite (proj2 (authenticate_true _ _ _ _ _) (ex_intro _ _ (conj Ha (conj Hn eq_refl)))).
Qed.

Lemma message_empty : message "" = None.
Proof. done. Qed.

Lemma step_accepts node_id a c :
  let c' := (control_step hmac node_id a c).1 in
  if accepts a c
  then nonces c' = use_nonce (arrival_nonce a) (nonces c)
       /\ paused c' = foldl (fun _ x => bool_decide (x = pause)) (paused c) (commands node_id [a])
       /\ length (control_step hmac node_id a c).2 = length (commands node_id [a])
  else c' = c /\ (control_step hmac node_id a c).2 = [].
Proof.
  intros c'. destruct (accepts a c) eqn:Ha.
  - pose proof Ha as [(key & Hk & Hv) Hn]%accepts_true. unfold c', control_step. fold (command_text a).
    destruct (String.eqb_spec (command_text a) "") as [He|_].
    { destruct Hv as (_ & t & p & d & Hm & _). by rewrite He in Hm. }
    rewrite Hk. cbn [secret bind].
    rewrite (proj2 (authenticate_true _ _ _ _ _) (ex_intro _ _ (conj Hv (conj Hn eq_refl)))).
    unfold commands. cbn [omap list_omap].
    destruct (command_of node_id _ _) as [[action id]|]; by split_and!.
  - unfold accepts in Ha. unfold c', control_step. fold (command_text a).
    destruct (String.eqb _ ""); [done|].
    destruct (bind (secret (a_secret a)) _) as [[[] nonces']|] eqn:E; [done| |done].
    apply bind_ok in E as (key & _ & E). apply authenticate_false in E as ->. by destruct c.
Qed.

Lemma use_nonce_size nonce (X : gset string) : Z.of_nat (base.size X) <= 4096 -> Z.of_nat (base.size (use_nonce nonce X)) <= 4096.
Proof.
  intros HX. unfold use_nonce. destruct (Z.leb_spec 4096 (Z.of_nat (base.size X))) as [_|Hlt].
  - rewrite union_empty_r_L, size_singleton. lia.
  - rewrite size_union_alt, size_singleton.
    pose proof (subseteq_size (X ∖ {[nonce]}) X ltac:(set_solver)). lia.
Qed.

Lemma use_nonce_room nonce (X : gset string) : Z.of_nat (base.size X) < 4096 -> nonce ∉ X ->
  use_nonce nonce X = {[nonce]} ∪ X /\ base.size (use_nonce nonce X) = S (base.size X).
Proof.
  intros HX Hn. unfold use_nonce. destruct (Z.leb_spec 4096 (Z.of_nat (base.size X))) as [Hle|_]; [lia|].
  split; [done|]. rewrite size_union, size_singleton by set_solver. done.
Qed.

Lemma commands_cons node_id a l : commands node_id (a :: l) = commands node_id [a] ++ commands node_id l.
Proof. unfold commands. by rewrite <-omap_app. Qed.

Lemma loop_spec node_id l : forall c c' sent,
  control_loop hmac node_id l c = (c', sent) ->
  let acc := accepted node_id l c in
  Forall valid acc
  /\ paused c' = foldl (fun _ x => bool_decide (x = pause)) (paused c) (commands node_id acc)
  /\ length sent = length (commands node_id acc)
  /\ (Z.of_nat (base.size (nonces c)) <= 4096 -> Z.of_nat (base.size (nonces c')) <= 4096)
  /\ (Z.of_nat (base.size (nonces c) + length acc) <= 4096 ->
      NoDup (map arrival_nonce acc) /\ forall n, n ∈ map arrival_nonce acc -> n ∉ nonces c).
Proof.
  induction l as [|a l IH]; intros c c' sent H acc.
  - injection H as <- <-. split_and!; [constructor|done|done|done|]. intros _.
    split; [constructor|by intros n Hn%elem_of_nil].
  - cbn [control_loop] in H. pose proof (step_accepts node_id a c) as Hstep.
    unfold acc. cbn [accepted]. destruct (control_step hmac node_id a c) as [c1 s1].
    destruct (control_loop hmac node_id l c1) as [c2 s2] eqn:E. injection H as <- <-.
    apply IH in E as (Hv & Hp & Hs & Hz & Hn). cbn [fst snd] in *. fold (accepted node_id l c1) in *.
    set (acc1 := accepted node_id l c1) in *.
    destruct (accepts a c) eqn:Ha; cbn [app].
    + destruct Hstep as (Hn1 & Hp1 & Hs1). apply accepts_true in Ha as [Hva Hfresh].
      rewrite commands_cons, foldl_app, !length_app, <-Hp1, Hs, Hs1. split_and!; [by constructor|done|done| |].
      * intros Hc. apply Hz. rewrite Hn1. by apply use_nonce_size.
      * cbn [length map]. intros Hc. destruct (use_nonce_room (arrival_nonce a) (nonces c)) as [E1 E2]; [lia|done|].
        rewrite Hn1, E2 in Hn. destruct Hn as [Hnd Hout]; [lia|]. rewrite E1 in Hout. split.
        -- constructor; [|done]. intros Hin%Hout. by apply Hin, elem_of_union_l, elem_of_singleton.
        -- intros n [->|Hin]%elem_of_cons; [done|]. apply Hout in Hin. by intros ?%(elem_of_union_r n {[arrival_nonce a]}).
    + destruct Hstep as [-> ->]. by split_and!.
Qed.

(** C31: Whatever datagrams arrive, a node is paused exactly as the last
    command among the accepted ones says, it acknowledges every command and
    nothing else, everything accepted carries the HMAC of its time, nonce and
    payload under the secret of that moment and is at most 30 seconds off,
    at most 4096 nonces are kept, and among the first 4096 accepted datagrams
    no nonce occurs twice. *)
Theorem commands_once node_id l c' sent :
  control_loop hmac node_id l initial = (c', sent) ->
  let acc := accepted node_id l initial in
  Forall valid acc
  /\ paused c' = foldl (fun _ x => bool_decide (x = pause)) false (commands node_id acc)
  /\ length sent = length (commands node_id acc)
  /\ Z.of_nat (base.size (nonces c')) <= 4096
  /\ (Z.of_nat (length acc) <= 4096 -> NoDup (map arrival_nonce acc)).
Proof.
  intros H acc. apply loop_spec in H as (Hv & Hp & Hs & Hz & Hn). split_and!; try done.
  - apply Hz. cbn. rewrite size_empty. lia.
  - intros Hl. apply Hn. cbn [initial nonces]. rewrite size_empty. exact Hl.
Qed.

Lemma accepts_fresh a c : valid a -> arrival_nonce a ∉ nonces c -> accepts a c = true.
Proof. intros. by apply accepts_true. Qed.

Lemma accepted_distinct node_id l : forall c,
  Forall valid l -> NoDup (map arrival_nonce l) ->
  (forall n, n ∈ map arrival_nonce l -> n ∉ nonces c) -> Z.of_nat (base.size (nonces c) + length l) <= 4096 ->
  accepted node_id l c = l
  /\ nonces (control_loop hmac node_id l c).1 = list_to_set (map arrival_nonce l) ∪ nonces c.
Proof.
  induction l as [|a l IH]; intros c Hv Hnd Hout Hl; [split; [done|cbn; set_solver]|].
  apply Forall_cons in Hv as [Hva Hv]. cbn [map] in Hnd, Hout. apply NoDup_cons in Hnd as [Hna Hnd].
  assert (Hfresh : arrival_nonce a ∉ nonces c) by (apply Hout, list_elem_of_here).
  pose proof (step_accepts node_id a c) as Hstep. rewrite (accepts_fresh a c Hva Hfresh) in Hstep.
  destruct Hstep as (Hn1 & _ & _). cbn [length] in Hl.
  destruct (use_nonce_room (arrival_nonce a) (nonces c)) as [E1 E2]; [lia|done|].
  cbn [accepted control_loop]. rewrite accepts_fresh by done. cbn [app].
  destruct (control_step hmac node_id a c) as [c1 s1]. cbn [fst] in *.
  destruct (IH c1) as [Hacc Hset]; [done|done| |rewrite Hn1, E2; lia|].
  { intros n Hin. rewrite Hn1, E1, elem_of_union, elem_of_singleton. intros [->|Hc]; [done|].
    by apply (Hout n); [apply elem_of_cons; right|]. }
  rewrite Hacc. split; [done|]. destruct (control_loop hmac node_id l c1) as [c2 s2]. cbn [fst] in *.
  rewrite Hset, Hn1, E1. cbn [map list_to_set list_fmap fmap]. by rewrite (assoc_L (∪)), (comm_L (∪) (list_to_set _)).
Qed.

Lemma accepted_app node_id l1 l2 c : accepted node_id (l1 ++ l2) c
  = accepted node_id l1 c ++ accepted node_id l2 (control_loop hmac node_id l1 c).1.
Proof.
  revert c; induction l1 as [|a l1 IH]; intros c; [done|]. cbn [app accepted control_loop].
  rewrite IH, app_assoc. destruct (control_step _ _ _ _) as [c1 s1]. cbn [fst].
  by destruct (control_loop _ _ l1 c1).
Qed.

(** C39: When a node accepted 4096 datagrams, the next one empties the set of
    nonces, and every datagram among them that is still in time is accepted,
    and its command executed, a second time. *)
Theorem replay_after_clear node_id l e d :
  Z.of_nat (length l) = 4096 -> Forall valid (l ++ [e; d]) -> NoDup (map arrival_nonce (l ++ [e])) ->
  (exists a, a ∈ l /\ arrival_nonce a = arrival_nonce d) ->
  accepted node_id (l ++ [d; e; d]) initial = l ++ [e; d].
Proof.
  intros Hl Hv Hnd (a0 & Ha0 & Hd). rewrite map_app in Hnd. apply NoDup_app in Hnd as (Hnd & Hne & _).
  apply Forall_app in Hv as [Hv [Hve [Hvd _]%Forall_cons]%Forall_cons].
  destruct (accepted_distinct node_id l initial Hv Hnd) as [Hacc Hset].
  { intros n _. cbn [initial nonces]. set_solver. }
  { cbn [initial nonces]. rewrite size_empty. lia. }
  rewrite accepted_app, Hacc. apply (f_equal (app l)).
  destruct (control_loop hmac node_id l initial) as [c s]. cbn [fst initial nonces] in Hset |- *.
  rewrite union_empty_r_L in Hset.
  assert (Hused : arrival_nonce d ∈ nonces c).
  { rewrite Hset, elem_of_list_to_set, <-Hd. apply list_elem_of_fmap. by exists a0. }
  assert (Hfresh : arrival_nonce e ∉ nonces c).
  { rewrite Hset, elem_of_list_to_set. intros Hin. apply (Hne _ Hin), list_elem_of_here. }
  cbn [accepted]. pose proof (step_accepts node_id d c) as Hs.
  assert (Hna : accepts d c = false).
  { destruct (accepts d c) eqn:E; [|done]. by apply accepts_true in E as [_ ?]. }
  rewrite Hna in *. destruct Hs as [-> _]. rewrite accepts_fresh by done. cbn [app].
  pose proof (step_accepts node_id e c) as Hs. rewrite accepts_fresh in Hs by done.
  destruct Hs as (Hn1 & _ & _). rewrite accepts_fresh; [done|done|].
  rewrite Hn1. unfold use_nonce. rewrite Hset, size_list_to_set, length_map, Hl by done.
  rewrite Z.leb_refl.
  rewrite union_empty_r_L. rewrite elem_of_singleton. intros Heq. apply Hfresh. by rewrite <-Heq.
Qed.
(** ** Signed datagrams *)

Context (digest_length : forall key value digest, hmac key value = Some digest -> length digest = 32%nat).

Lemma signed_message payload key timestamp bytes text :
  key <> "" -> in_i64 timestamp -> length bytes = 16%nat ->
  signed_datagram hmac payload key timestamp (Some bytes) = Ok text ->
  exists digest, hmac key (signed_value timestamp (hex_text bytes) payload) = Some digest
  /\ message text = Some (timestamp, hex_text bytes, payload, hex_text digest).
Proof.
  intros Hk Ht Hb. unfold signed_datagram. rewrite (proj2 (String.eqb_neq key "")) by done.
  intros (nonce & [= <-] & (signature & Hs & [= <-])%bind_ok)%bind_ok.
  unfold hmac_hex in Hs. destruct (hmac key _) as [digest|] eqn:Hd; [|done]. injection Hs as <-.
  exists digest. split; [done|]. fold (tail (to_string timestamp) (hex_text bytes) (hex_text digest)).
  set (time := to_string timestamp). set (nonce := hex_text bytes). set (signature := hex_text digest).
  assert (Htc : without "," time) by (apply number_without; not_char).
  assert (Htq : without "034" time) by (apply number_without; not_char).
  assert (Hnc : without "," nonce) by (apply hex_without; not_char).
  assert (Hnq : without "034" nonce) by (apply hex_without; not_char).
  assert (Hns : without "s" nonce) by (apply hex_without; not_char).
  assert (Hsc : without "," signature) by (apply hex_without; not_char).
  assert (Hnl : String.length nonce = 32%nat) by (unfold nonce; rewrite hex_text_length; lia).
  assert (Hsl : String.length signature = 64%nat)
    by (unfold signature; rewrite hex_text_length, (digest_length _ _ _ Hd); lia).
  unfold message, command_payload. rewrite sapp_assoc.
  erewrite rfind_app by by apply tail_auth. rewrite Nat.add_0_r.
  rewrite tail_time, sdrop_app by done. rewrite tail_nonce, tail_signature by done.
  unfold starts_with. rewrite <-sapp_assoc, prefix_self. unfold tail, quoted. rewrite !sapp_assoc.
  rewrite ends_with_app. cbn [negb orb]. rewrite <-!sapp_assoc. unfold time at 1. rewrite stoll_to_string by done.
  rewrite (proj2 (String.eqb_neq nonce "")) by (intros He; by rewrite He in Hnl).
  rewrite (proj2 (String.eqb_neq signature "")) by (intros He; by rewrite He in Hsl). cbn [orb].
  do 3 f_equal. unfold substr. rewrite sdrop_app, sapp_length. apply stake_app'. lia.
Qed.

Lemma signed_accepted payload key timestamp bytes text nonces now :
  key <> "" -> in_i64 timestamp -> length bytes = 16%nat -> in_time timestamp now ->
  hex_text bytes ∉ nonces ->
  signed_datagram hmac payload key timestamp (Some bytes) = Ok text ->
  authenticate_command hmac text key nonces now = Ok (true, use_nonce (hex_text bytes) nonces)
  /\ command_payload text = payload.
Proof.
  intros Hk Ht Hb Hnow Hn H. apply signed_message in H as (digest & Hd & Hm); [|done..]. split.
  - apply authenticate_true. exists (hex_text bytes). split; [|done]. split; [done|].
    by exists timestamp, payload, digest.
  - unfold message in Hm. destruct (rfind _ text); [|done]. destruct (_ || _); [done|].
    destruct (timestamp_of _ _); [|done]. destruct (_ || _); [done|]. by injection Hm.
Qed.

(** A command that the peer signed is executed and acknowledged, and the
    peer can authenticate the acknowledgement: its payload names the command,
    the action and the new state.  The texts of payloads are arbitrary; they
    may contain the markers of the envelope. *)
Theorem command_executed node_id payload key timestamp bytes a c action command_id ack_key ack_bytes peer_now peer_nonces :
  key <> "" -> in_i64 timestamp -> length bytes = 16%nat -> in_time timestamp (a_auth_now a) ->
  signed_datagram hmac payload key timestamp (Some bytes) = Ok (a_text a) ->
  (String.length (a_text a) <= 2048)%nat -> a_secret a = Some key ->
  hex_text bytes ∉ nonces c ->
  command_of node_id payload (a_now a) = Some (action, command_id) ->
  a_ack_secret a = Some ack_key -> ack_key <> "" -> a_ack_entropy a = Some ack_bytes ->
  length ack_bytes = 16%nat -> in_i64 (a_ack_now a) -> in_time (a_ack_now a) peer_now ->
  (forall value, hmac ack_key value <> None) -> hex_text ack_bytes ∉ peer_nonces ->
  exists c' reply, control_step hmac node_id a c = (c', [reply])
  /\ paused c' = bool_decide (action = pause) /\ hex_text bytes ∈ nonces c'
  /\ authenticate_command hmac reply ack_key peer_nonces peer_now
     = Ok (true, use_nonce (hex_text ack_bytes) peer_nonces)
  /\ command_payload reply = acknowledgement_payload node_id action command_id (paused c').
Proof.
  intros Hk Ht Hb Hnow Hsigned Hlen Hsecret Hn Hcmd Hak Hak0 Hae Hab Hat Hpn Htotal Hpeer.
  destruct (signed_accepted payload key timestamp bytes _ _ _ Hk Ht Hb Hnow Hn Hsigned) as [Hauth Hpay].
  unfold control_step. rewrite stake_all by done.
  destruct (String.eqb_spec (a_text a) "") as [He|_].
  { unfold signed_datagram in Hsigned. rewrite (proj2 (String.eqb_neq key "")) in Hsigned by done.
    apply bind_ok in Hsigned as (? & _ & (? & _ & [= Hbad])%bind_ok). by rewrite He in Hbad. }
  rewrite Hsecret. cbn [secret bind]. rewrite Hauth, Hpay, Hcmd.
  unfold sign. rewrite Hak. cbn [secret bind]. rewrite Hae.
  set (state := bool_decide (action = pause)). set (ack := acknowledgement_payload _ _ _ _).
  assert (Hack : exists reply, signed_datagram hmac ack ack_key (a_ack_now a) (Some ack_bytes) = Ok reply).
  { unfold signed_datagram, hmac_hex. rewrite (proj2 (String.eqb_neq ack_key "")) by done. cbn [random_hex_nonce bind].
    destruct (hmac ack_key _) as [d|] eqn:Hd; [by eexists|by apply Htotal in Hd]. }
  destruct Hack as [reply Hreply]. rewrite Hreply. do 2 eexists. split; [done|]. cbn [paused nonces].
  split; [done|]. split; [unfold use_nonce; set_solver|].
  exact (signed_accepted ack ack_key (a_ack_now a) ack_bytes reply peer_nonces peer_now Hak0 Hat Hab Hpn Hpeer Hreply).
Qed.
End proofs.

(** ** Concrete runs *)

(** A keyed function with digests of 32 bytes *)
Definition sample_hmac (key value : string) : option (list byte) :=
  Some (take 32 (bytes_of (key +:+ value) ++ replicate 32 x00)).

Lemma sample_digest key value digest : sample_hmac key value = Some digest -> length digest = 32%nat.
Proof.
  unfold sample_hmac. intros H. assert (Hd : digest = take 32 (bytes_of (key +:+ value) ++ replicate 32 x00))
    by congruence.
  rewrite Hd, length_take, length_app, length_replicate. lia.
Qed.

Lemma Some_ne_None {A} (x : A) : Some x <> None.
Proof. discriminate. Qed.

Definition sample_id : string := "01234567-89ab-cdef-0123-456789abcdef".
Definition sample_payload (action : string) : string :=
  "{" +:+ quoted "kind" +:+ ":" +:+ quoted "control" +:+ "," +:+ quoted "commandId" +:+ ":"
    +:+ quoted sample_id +:+ "," +:+ quoted "targetNode" +:+ ":" +:+ quoted "node-a" +:+ ","
    +:+ quoted "action" +:+ ":" +:+ quoted action +:+ "," +:+ quoted "expiresAt" +:+ ":120000}".
Definition sample_bytes (n : Z) : list byte := be_bytes 16 n.
Definition sample_text (n : Z) (action : string) : string :=
  match signed_datagram sample_hmac (sample_payload action) "key" 100000 (Some (sample_bytes n)) with
  | Ok text => text | Throw _ => "" end.
Definition sample_arrival (n : Z) (action : string) : Arrival :=
  {| a_text := sample_text n action; a_secret := Some "key"; a_auth_now := 99000; a_now := 99001;
     a_ack_secret := Some "key"; a_ack_now := 99002; a_ack_entropy := Some (sample_bytes (n + 2 ^ 100)) |}.

Lemma sample_signed n action : signed_datagram sample_hmac (sample_payload action) "key" 100000
  (Some (sample_bytes n)) = Ok (sample_text n action).
Proof. done. Qed.

Definition sample_run : list Arrival :=
  [sample_arrival 1 "pause"; sample_arrival 2 "resume"; sample_arrival 1 "pause"].

Lemma commands_once_witness : exists c' sent,
  control_loop sample_hmac "node-a" sample_run initial = (c', sent)
  /\ accepted sample_hmac "node-a" sample_run initial = [sample_arrival 1 "pause"; sample_arrival 2 "resume"]
  /\ paused c' = false /\ length sent = 2%nat /\ Z.of_nat (base.size (nonces c')) <= 4096.
Proof.
  destruct (control_loop sample_hmac "node-a" sample_run initial) as [c' sent] eqn:E.
  exists c', sent. split; [done|].
  assert (Hacc : accepted sample_hmac "node-a" sample_run initial
                 = [sample_arrival 1 "pause"; sample_arrival 2 "resume"]) by (vm_compute; reflexivity).
  destruct (commands_once sample_hmac "node-a" sample_run c' sent E) as (_ & Hp & Hs & Hz & _).
  rewrite Hacc in Hp, Hs. split; [done|]. rewrite Hp, Hs. split; [vm_compute; reflexivity|].
  split; [vm_compute; reflexivity|exact Hz].
Defined.

Lemma command_executed_witness : exists c' reply,
  control_step sample_hmac "node-a" (sample_arrival 7 "pause") initial = (c', [reply])
  /\ paused c' = true
  /\ command_payload reply = acknowledgement_payload "node-a" pause sample_id true.
Proof.
  assert (Hlen : (String.length (sample_text 7 "pause") <= 2048)%nat)
    by (apply Nat.leb_le; vm_compute; reflexivity).
  assert (Hcmd : command_of "node-a" (sample_payload "pause") 99001 = Some (pause, sample_id))
    by (vm_compute; reflexivity).
  assert (Hkey : "key" <> "") by discriminate.
  assert (Ht : in_i64 100000) by (unfold in_i64; lia).
  assert (Hat : in_i64 99002) by (unfold in_i64; lia).
  assert (Hnow : in_time 100000 99000) by (unfold in_time; lia).
  assert (Hpeer : in_time 99002 99500) by (unfold in_time; lia).
  destruct (command_executed sample_hmac sample_digest "node-a" (sample_payload "pause") "key" 100000
    (sample_bytes 7) (sample_arrival 7 "pause") initial pause sample_id "key" (sample_bytes (7 + 2 ^ 100))
    99500 ∅ Hkey Ht (be_bytes_length 16 7) Hnow (sample_signed 7 "pause") Hlen eq_refl
    (not_elem_of_empty _) Hcmd eq_refl Hkey eq_refl (be_bytes_length 16 _) Hat Hpeer
    (fun value => @Some_ne_None _ _) (not_elem_of_empty _)) as (c' & reply & H1 & H2 & _ & _ & H3).
  exists c', reply. rewrite H2 in H3. split; [exact H1|]. split; [exact H2|exact H3].
Defined.

(** *** 4096 accepted datagrams *)

Lemma hex_text_inj l l' : hex_text l = hex_text l' -> l = l'.
Proof.
  revert l'; induction l as [|b l IH]; intros [|b' l'] H; [done|done|done|].
  rewrite !hex_text_cons in H. injection H as H1 H2 H. f_equal; [|by apply IH].
  pose proof (Z_of_byte_range b) as Hb. pose proof (Z_of_byte_range b') as Hb'.
  assert (Hhex : forall m n, 0 <= m < 16 -> 0 <= n < 16 ->
    ascii_of_byte (hex_digit m) = ascii_of_byte (hex_digit n) -> m = n).
  { intros m n Hm Hn He. apply (f_equal byte_of_ascii) in He. rewrite !byte_of_ascii_of_byte in He.
    by apply Identity.hex_digit_inj. }
  apply Hhex in H1; [|rewrite Z.shiftr_div_pow2 by done; split; [apply Z.div_pos|apply Z.div_lt_upper_bound]; lia..].
  change 15 with (Z.ones 4) in H2. rewrite !Z.land_ones in H2 by done.
  apply Hhex in H2; [|by apply Z.mod_pos_bound..].
  apply Z_of_byte_inj. rewrite (Z.div_mod (Z_of_byte b) 16), (Z.div_mod (Z_of_byte b') 16) by done.
  rewrite !Z.shiftr_div_pow2 in H1 by done. change (2 ^ 4) with 16 in *. by rewrite H1, H2.
Qed.

Lemma signed_length hmac payload key timestamp bytes text :
  (forall key value digest, hmac key value = Some digest -> length digest = 32%nat) ->
  key <> "" -> length bytes = 16%nat -> signed_datagram hmac payload key timestamp (Some bytes) = Ok text ->
  String.length text = (String.length payload + String.length (to_string timestamp) + 156)%nat.
Proof.
  intros Hdigest Hk Hb H. unfold signed_datagram in H. rewrite (proj2 (String.eqb_neq key "")) in H by done.
  apply bind_ok in H as (nonce & [= <-] & (signature & Hs & [= <-])%bind_ok).
  unfold hmac_hex in Hs. destruct (hmac key _) as [digest|] eqn:Hd; [|done]. injection Hs as <-.
  fold (tail (to_string timestamp) (hex_text bytes) (hex_text digest)).
  rewrite tail_parts, !sapp_length, !hex_text_length, Hb, (Hdigest _ _ _ Hd).
  change (String.length payload_marker) with 11%nat. change (String.length auth_marker) with 9%nat.
  change (String.length timestamp_marker) with 12%nat. change (String.length nonce_part) with 10%nat.
  change (String.length signature_part) with 15%nat. change (String.length last_part) with 3%nat. lia.
Qed.

Lemma sample_short n : (String.length (sample_text n "pause") <= 2048)%nat.
Proof.
  pose proof (sample_signed n "pause") as H.
  apply signed_length in H as ->; [|apply sample_digest|done|apply be_bytes_length].
  apply Nat.leb_le. vm_compute. reflexivity.
Qed.

Lemma sample_valid n action : (String.length (sample_text n action) <= 2048)%nat ->
  valid sample_hmac (sample_arrival n action)
  /\ arrival_nonce (sample_arrival n action) = hex_text (sample_bytes n).
Proof.
  intros Hl. destruct (signed_message sample_hmac sample_digest (sample_payload action) "key" 100000
    (sample_bytes n) (sample_text n action)) as (digest & Hd & Hm); [done|done|apply be_bytes_length|done|].
  assert (Hn : arrival_nonce (sample_arrival n action) = hex_text (sample_bytes n)).
  { unfold arrival_nonce, command_text. cbn [a_text sample_arrival]. by rewrite stake_all, Hm by done. }
  split; [|done]. exists "key". split; [done|]. rewrite Hn. split; [done|].
  exists 100000, (sample_payload action), digest. unfold command_text. cbn [a_text sample_arrival].
  rewrite stake_all by done. split; [done|]. split; [unfold in_time; cbn; lia|done].
Qed.

Definition sample_flood : list Arrival :=
  map (fun n => sample_arrival (Z.of_nat n) "pause") (seq 0 (Z.to_nat 4096)).

Lemma sample_flood_nonces (l : list Z) :
  Forall (fun n => 0 <= n < 2 ^ 128) l -> NoDup l ->
  NoDup (map arrival_nonce (map (fun n => sample_arrival n "pause") l)).
Proof.
  intros Hl Hnd. rewrite map_map. apply (NoDup_fmap_2_strong (fun n => arrival_nonce (sample_arrival n "pause"))); [|done].
  rewrite Forall_forall in Hl. intros x y Hx Hy.
  rewrite !(proj2 (sample_valid _ "pause" (sample_short _))).
  intros H%hex_text_inj. apply be_bytes_inj in H; [done|by apply Hl|by apply Hl].
Qed.

Lemma replay_after_clear_witness :
  accepted sample_hmac "node-a" (sample_flood
    ++ [sample_arrival 0 "pause"; sample_arrival 5000 "pause"; sample_arrival 0 "pause"]) initial
  = sample_flood ++ [sample_arrival 5000 "pause"; sample_arrival 0 "pause"].
Proof.
  assert (Hz : exists l : list Z, sample_flood = map (fun n => sample_arrival n "pause") l
    /\ l = map Z.of_nat (seq 0 (Z.to_nat 4096)))
    by (exists (map Z.of_nat (seq 0 (Z.to_nat 4096))); split; [symmetry; unfold sample_flood; apply map_map|reflexivity]).
  destruct Hz as (zs & Hflood & Hzs).
  assert (Hrange : forall n, n ∈ zs -> 0 <= n < 4096).
  { subst zs. intros n (k & -> & Hk)%list_elem_of_fmap. apply elem_of_seq in Hk. lia. }
  assert (Hall : forall n, valid sample_hmac (sample_arrival n "pause")).
  { intros n. apply sample_valid, sample_short. }
  apply (replay_after_clear sample_hmac "node-a" sample_flood).
  - unfold sample_flood. rewrite length_map, length_seq. lia.
  - apply Forall_app. split; [|by repeat constructor].
    rewrite Hflood. apply Forall_map, Forall_true. intros n. apply Hall.
  - rewrite Hflood. change [sample_arrival 5000 "pause"] with (map (fun n => sample_arrival n "pause") [5000]).
    rewrite <-map_app. apply sample_flood_nonces.
    + apply Forall_app. split; [|repeat constructor; lia]. apply Forall_forall.
      intros n Hn%Hrange. lia.
    + apply NoDup_app. split_and!; [|by intros n Hn%Hrange ->%list_elem_of_singleton; lia|apply NoDup_singleton].
      subst zs. apply (NoDup_fmap_2 Z.of_nat), NoDup_seq.
  - exists (sample_arrival 0 "pause"). split; [|done]. rewrite Hflood.
    apply list_elem_of_fmap. exists 0. split; [done|]. subst zs. apply list_elem_of_fmap.
    exists 0%nat. split; [done|]. apply elem_of_seq. lia.
Defined.
End ControlProofs.
