(* ===== verification/Json.v ===== *)
(** * A reader of JSON texts

    The telemetry of the program is JSON written by hand.  This file has the
    documents, their compact text, a reader that accepts such texts, and the
    proof that it reads a text back.  Strings are byte strings: an escape
    stands for one byte. *)

From Stdlib Require Import ZArith Lia Strings.Byte Strings.Ascii Strings.String.
From stdpp Require Import base option strings list.
From S2P Require Import Prelude Envelope EnvelopeIdentity ConfigRender Text Pcapng Control.

Module Json.
Import Envelope ConfigRender Text Control.
Local Open Scope Z_scope.

(** [JWord] is a number or one of the three names. *)
Inductive json :=
  | JText (s : string) | JWord (w : string) | JList (l : list json) | JObject (l : list (string * json)).

Fixpoint join (l : list string) : string :=
  match l with
  | [] => ""
  | [x] => x
  | x :: l => x +:+ "," +:+ join l
  end.

Fixpoint render (j : json) : string :=
  match j with
  | JText s => quoted (escape_json s)
  | JWord w => w
  | JList l => "[" +:+ join (map render l) +:+ "]"
  | JObject l =>
      "{" +:+ join (map (fun kv => quoted (escape_json kv.1) +:+ ":" +:+ render kv.2) l) +:+ "}"
  end.

(** ** Reading *)

Definition hex_digit_value (c : ascii) : option Z :=
  match hex_value (byte_of_ascii c) with Ok n => Some n | Throw _ => None end.

(** What an escape stands for, and what follows it *)
Definition read_escape (s : string) : option (ascii * string) :=
  match s with
  | String "u" (String "0" (String "0" (String a (String b rest)))) =>
      high ← hex_digit_value a; low ← hex_digit_value b;
      Some (ascii_of_byte (byte_of_Z (16 * high + low)), rest)
  | String "n" rest => Some ("010"%char, rest)
  | String "r" rest => Some ("013"%char, rest)
  | String "t" rest => Some ("009"%char, rest)
  | String "\" rest => Some ("\"%char, rest)
  | String "034" rest => Some ("034"%char, rest)
  | _ => None
  end.

(** A string behind its opening quote *)
Fixpoint read_text (fuel : nat) (s : string) : option (string * string) :=
  match fuel, s with
  | S fuel, String c rest =>
      if Ascii.eqb c "034" then Some ("", rest)
      else if Ascii.eqb c "\" then
        '(c, rest) ← read_escape rest; '(text, rest) ← read_text fuel rest; Some (String c text, rest)
      else '(text, rest) ← read_text fuel rest; Some (String c text, rest)
  | _, _ => None
  end.

Definition word_char (c : ascii) : bool :=
  let n := Z.of_N (N_of_ascii c) in
  ((48 <=? n) && (n <=? 57)) || ((97 <=? n) && (n <=? 122)) || (n =? 45) || (n =? 46) || (n =? 43).

Fixpoint take_word (s : string) : string * string :=
  match s with
  | String c rest => if word_char c then let '(w, rest) := take_word rest in (String c w, rest) else ("", s)
  | EmptyString => ("", "")
  end.

Definition read_word (s : string) : option (json * string) :=
  let '(w, rest) := take_word s in if String.eqb w "" then None else Some (JWord w, rest).

Fixpoint read (fuel : nat) (s : string) : option (json * string) :=
  match fuel with
  | O => None
  | S fuel =>
      match s with
      | String "034" rest => '(text, rest) ← read_text (String.length rest) rest; Some (JText text, rest)
      | String "[" (String "]" rest) => Some (JList [], rest)
      | String "[" rest => '(l, rest) ← read_items fuel rest; Some (JList l, rest)
      | String "{" (String "}" rest) => Some (JObject [], rest)
      | String "{" rest => '(l, rest) ← read_members fuel rest; Some (JObject l, rest)
      | _ => read_word s
      end
  end
with read_items (fuel : nat) (s : string) : option (list json * string) :=
  match fuel with
  | O => None
  | S fuel =>
      '(j, rest) ← read fuel s;
      match rest with
      | String "]" rest => Some ([j], rest)
      | String "," rest => '(l, rest) ← read_items fuel rest; Some (j :: l, rest)
      | _ => None
      end
  end
with read_members (fuel : nat) (s : string) : option (list (string * json) * string) :=
  match fuel with
  | O => None
  | S fuel =>
      match s with
      | String "034" rest =>
          '(key, rest) ← read_text (String.length rest) rest;
          match rest with
          | String ":" rest =>
              '(j, rest) ← read fuel rest;
              match rest with
              | String "}" rest => Some ([(key, j)], rest)
              | String "," rest => '(l, rest) ← read_members fuel rest; Some ((key, j) :: l, rest)
              | _ => None
              end
          | _ => None
          end
      | _ => None
      end
  end.

(** A whole document *)
Definition read_document (s : string) : option json :=
  '(j, rest) ← read (String.length s + 1) s;
  if String.eqb rest "" then Some j else None.

(** ** Strings are read back *)

Lemma hex_digit_value_digit n : 0 <= n < 16 -> hex_digit_value (ascii_of_byte (hex_digit n)) = Some n.
Proof.
  intros Hn. unfold hex_digit_value. rewrite byte_of_ascii_of_byte.
  pose proof (Identity.digit_of_nibble n Hn) as (_ & _ & -> & _). done.
Qed.

(** An escaped byte is a plain character or a backslash and an escape. *)
Lemma escape_char_cases c :
  (Pcapng.escape_char c = String c "" /\ c <> "034"%char /\ c <> "\"%char)
  \/ exists e, Pcapng.escape_char c = String "\" e /\ forall rest, read_escape (e +:+ rest) = Some (c, rest).
Proof.
  unfold Pcapng.escape_char. set (byte := Z_of_byte (byte_of_ascii c)).
  assert (Hc : forall n, byte = n -> c = ascii_of_byte (byte_of_Z n)).
  { intros n <-. unfold byte. by rewrite byte_of_Z_of_byte, ascii_of_byte_of_ascii. }
  repeat match goal with
  | |- context[?b =? ?n] => let E := fresh "E" in destruct (Z.eqb_spec b n) as [E|E];
      [apply Hc in E; subst c; right; eexists; split; [reflexivity|reflexivity]|]
  end.
  assert (Hb : 0 <= byte < 256) by apply Z_of_byte_range.
  destruct ((byte <? 32) || (127 <=? byte)).
  - right. eexists. split; [reflexivity|]. intros rest.
    assert (Hhigh : 0 <= Z.shiftr byte 4 < 16).
    { rewrite Z.shiftr_div_pow2 by done. split; [apply Z.div_pos; lia|apply Z.div_lt_upper_bound; lia]. }
    assert (Hlow : 0 <= Z.land byte 15 < 16).
    { change 15 with (Z.ones 4). rewrite Z.land_ones by done. by apply Z.mod_pos_bound. }
    cbn [String.append read_escape]. rewrite sapp_cons. cbn [read_escape].
    rewrite !sapp_cons, sapp_empty. cbn [read_escape].
    rewrite !hex_digit_value_digit by done. cbn [mbind option_bind]. do 2 f_equal.
    rewrite (Hc _ eq_refl). do 2 f_equal. change 15 with (Z.ones 4). rewrite Z.land_ones by done.
    rewrite Z.shiftr_div_pow2 by done. symmetry. apply Z.div_mod. done.
  - left. split; [done|]. by split; intros ->.
Qed.

Lemma read_text_escape s rest fuel :
  (String.length (escape_json s +:+ quote +:+ rest) <= fuel)%nat ->
  read_text fuel (escape_json s +:+ quote +:+ rest) = Some (s, rest).
Proof.
  revert fuel; induction s as [|c s IH]; intros fuel Hf.
  - destruct fuel; [by apply Nat.nle_succ_0 in Hf|done].
  - cbn [escape_json] in *. destruct (escape_char_cases c) as [(He & Hq & Hb)|(e & He & Hread)]; rewrite He in *.
    + destruct fuel as [|fuel]; [by apply Nat.nle_succ_0 in Hf|]. rewrite !sapp_cons, sapp_empty in *. cbn [read_text].
      rewrite (proj2 (Ascii.eqb_neq c "034")), (proj2 (Ascii.eqb_neq c "\")) by done.
      rewrite IH; [done|]. exact (le_S_n _ _ Hf).
    + destruct fuel as [|fuel]; [by apply Nat.nle_succ_0 in Hf|].
      rewrite !sapp_cons, <-!sapp_assoc in *. cbn [read_text].
      change (Ascii.eqb "\" "034") with false. change (Ascii.eqb "\" "\") with true. cbn match.
      rewrite Hread. cbn [mbind option_bind]. rewrite IH; [done|].
      cbn [String.length] in Hf. rewrite sapp_length in Hf. lia.
Qed.

(** ** Documents are read back *)

Section json_ind.
Context (P : json -> Prop) (Ptext : forall s, P (JText s)) (Pword : forall w, P (JWord w))
  (Plist : forall l, Forall P l -> P (JList l))
  (Pobject : forall l, Forall (fun kv => P kv.2) l -> P (JObject l)).

Fixpoint json_nested_ind (j : json) : P j :=
  match j with
  | JText s => Ptext s
  | JWord w => Pword w
  | JList l => Plist l ((fix go l : Forall P l :=
      match l with [] => Forall_nil_2 _ | j :: l => Forall_cons_2 _ _ _ (json_nested_ind j) (go l) end) l)
  | JObject l => Pobject l ((fix go l : Forall (fun kv => P kv.2) l :=
      match l with [] => Forall_nil_2 _ | kv :: l => Forall_cons_2 _ _ _ (json_nested_ind kv.2) (go l) end) l)
  end.
End json_ind.

Fixpoint all_word (w : string) : bool :=
  match w with EmptyString => true | String c w => word_char c && all_word w end.

(** Words are words. *)
Fixpoint wf (j : json) : bool :=
  match j with
  | JText _ => true
  | JWord w => negb (String.eqb w "") && all_word w
  | JList l => forallb wf l
  | JObject l => forallb (fun kv => wf kv.2) l
  end.

(** The fuel that reading takes *)
Fixpoint weight (j : json) : nat :=
  match j with
  | JText _ | JWord _ => 1
  | JList l => S (foldr (fun j n => S (weight j + n)) 0 l)%nat
  | JObject l => S (foldr (fun kv n => S (weight kv.2 + n)) 0 l)%nat
  end.

Lemma read_open_list c s fuel : c <> "]"%char ->
  read (S fuel) (String "[" (String c s)) = ('(l, rest) ← read_items fuel (String c s); Some (JList l, rest)).
Proof. intros H. destruct c as [[] [] [] [] [] [] [] []]; try done. Qed.

Lemma read_open_object s fuel :
  read (S fuel) (String "{" (quote +:+ s)) = ('(l, rest) ← read_members fuel (quote +:+ s); Some (JObject l, rest)).
Proof. done. Qed.

Lemma read_open_word c s fuel : word_char c = true -> read (S fuel) (String c s) = read_word (String c s).
Proof. intros H. destruct c as [[] [] [] [] [] [] [] []]; done. Qed.

Lemma take_word_app w rest : all_word w = true -> delimited rest -> take_word (w +:+ rest) = (w, rest).
Proof.
  induction w as [|c w IH]; intros Hw Hr.
  - destruct rest as [|c rest]; [done|]. unfold delimited in Hr. cbn in Hr.
    rewrite sapp_empty. cbn [take_word]. by destruct Hr as [->|[->| ->]].
  - cbn in Hw. apply andb_true_iff in Hw as [Hc Hw]. rewrite sapp_cons. cbn [take_word].
    by rewrite Hc, IH.
Qed.

Lemma render_first j rest : wf j = true -> exists c s, render j +:+ rest = String c s /\ c <> "]"%char.
Proof.
  destruct j as [s|w|l|l]; intros Hwf; [by do 2 eexists| |by do 2 eexists|by do 2 eexists].
  cbn in Hwf. destruct w as [|c w]; [done|]. cbn in Hwf. apply andb_true_iff in Hwf as [Hc _].
  exists c, (w +:+ rest). split; [done|]. by intros ->.
Qed.

Lemma join_cons (x : string) y l : join (x :: y :: l) = x +:+ "," +:+ join (y :: l).
Proof. done. Qed.

Lemma join_first (x : string) l :
  join (x :: l) = x +:+ match l with [] => "" | _ => "," +:+ join l end.
Proof. destruct l; [by rewrite sapp_nil|done]. Qed.

Definition reads_back (j : json) : Prop := wf j = true -> forall fuel rest,
  (weight j <= fuel)%nat -> delimited rest -> read fuel (render j +:+ rest) = Some (j, rest).

Lemma items_back l : Forall reads_back l -> l <> [] -> forallb wf l = true -> forall fuel rest,
  (foldr (fun j n => S (weight j + n)) 0 l <= fuel)%nat ->
  read_items fuel (join (map render l) +:+ "]" +:+ rest) = Some (l, rest).
Proof.
  induction 1 as [|j l Hj Hl IH]; intros Hne Hwf fuel rest Hf; [done|].
  cbn [forallb foldr] in *. apply andb_true_iff in Hwf as [Hwj Hwl].
  destruct fuel as [|fuel]; [lia|]. cbn [map read_items].
  destruct l as [|j' l].
  - cbn [map join]. rewrite Hj; [done|done|lia|]. right. by left.
  - cbn [map] in *. rewrite join_cons, <-!sapp_assoc. rewrite Hj; [|done|lia|by left].
    cbn [mbind option_bind]. rewrite sapp_cons, sapp_empty. rewrite IH; [done|done|done|lia].
Qed.

Definition member (kv : string * json) : string := quoted (escape_json kv.1) +:+ ":" +:+ render kv.2.

Lemma read_key k s fuel : read_members (S fuel) (quoted (escape_json k) +:+ ":" +:+ s)
  = ('(j, rest) ← read fuel s;
     match rest with
     | String "}" rest => Some ([(k, j)], rest)
     | String "," rest => '(l, rest) ← read_members fuel rest; Some ((k, j) :: l, rest)
     | _ => None
     end).
Proof.
  unfold quoted. rewrite <-!sapp_assoc. unfold quote at 1. rewrite sapp_cons, sapp_empty.
  cbn [read_members]. rewrite read_text_escape by done. done.
Qed.

Lemma members_back l : Forall (fun kv => reads_back kv.2) l -> l <> [] ->
  forallb (fun kv => wf kv.2) l = true -> forall fuel rest,
  (foldr (fun kv n => S (weight kv.2 + n)) 0 l <= fuel)%nat ->
  read_members fuel (join (map member l) +:+ "}" +:+ rest) = Some (l, rest).
Proof.
  induction 1 as [|[k j] l Hj Hl IH]; intros Hne Hwf fuel rest Hf; [done|].
  cbn [forallb foldr fst snd] in *. apply andb_true_iff in Hwf as [Hwj Hwl].
  destruct fuel as [|fuel]; [lia|]. cbn [map].
  destruct l as [|kv l].
  - cbn [map join]. unfold member. cbn [fst snd]. rewrite <-!sapp_assoc, read_key.
    rewrite Hj; [done|done|lia|]. right. by right.
  - cbn [map] in *. rewrite join_cons. unfold member at 1. cbn [fst snd].
    rewrite <-!sapp_assoc, read_key. rewrite Hj; [|done|lia|by left].
    cbn [mbind option_bind]. rewrite sapp_cons, sapp_empty. rewrite IH; [done|done|done|lia].
Qed.

Lemma read_render j : reads_back j.
Proof.
  induction j as [s|w|l IH|l IH] using json_nested_ind; intros Hwf fuel rest Hf Hr;
    cbn [weight] in Hf; (destruct fuel as [|fuel]; [lia|]).
  - unfold render, quoted. rewrite <-!sapp_assoc. unfold quote at 1. rewrite sapp_cons, sapp_empty.
    cbn [read]. by rewrite read_text_escape.
  - cbn [render wf] in *. apply andb_true_iff in Hwf as [Hne Hw].
    destruct w as [|c w]; [done|]. rewrite sapp_cons, read_open_word by by apply andb_true_iff in Hw as [? _].
    unfold read_word. by rewrite <-sapp_cons, take_word_app.
  - cbn [render wf] in *. destruct l as [|j l]; [done|]. rewrite <-!sapp_assoc.
    destruct (render_first j ((match map render l with [] => "" | _ => "," +:+ join (map render l) end) +:+ "]" +:+ rest))
      as (c & s & Hs & Hc); [by apply andb_true_iff in Hwf as [? _]|].
    assert (Hjoin : join (map render (j :: l)) +:+ "]" +:+ rest = String c s).
    { cbn [map]. by rewrite join_first, <-sapp_assoc. }
    rewrite sapp_cons, sapp_empty, Hjoin, read_open_list, <-Hjoin by done.
    rewrite items_back; [done|done|done|done|lia].
  - cbn [render wf] in *. destruct l as [|kv l]; [done|]. fold member. rewrite <-!sapp_assoc.
    assert (Hopen : exists s, join (map member (kv :: l)) +:+ "}" +:+ rest = quote +:+ s).
    { cbn [map]. destruct (map member l); cbn [join]; unfold member, quoted; rewrite <-!sapp_assoc; by eexists. }
    destruct Hopen as [s Hs]. rewrite sapp_cons, sapp_empty, Hs, read_open_object, <-Hs.
    rewrite members_back; [done|done|done|done|lia].
Qed.

Lemma weight_length j : wf j = true -> (weight j <= String.length (render j))%nat.
Proof.
  induction j as [s|w|l IH|l IH] using json_nested_ind; intros Hwf; cbn [weight render wf] in *.
  - unfold quoted. rewrite !sapp_length. cbn [String.length quote]. lia.
  - destruct w; [done|]. cbn. lia.
  - rewrite !sapp_length. cbn [String.length].
    enough (Hl : (foldr (fun j n => S (weight j + n)) 0 l <= String.length (join (map render l)) + 1)%nat) by lia.
    clear -IH Hwf. induction IH as [|j l Hj Hl IH]; [cbn; lia|]. cbn [forallb foldr map] in *.
    apply andb_true_iff in Hwf as [Hwj Hwl]. specialize (Hj Hwj). specialize (IH Hwl).
    destruct l as [|j' l]; [cbn [map join foldr] in *; lia|]. cbn [map] in *.
    rewrite join_cons, !sapp_length. cbn [String.length]. lia.
  - rewrite !sapp_length. cbn [String.length]. fold member.
    enough (Hl : (foldr (fun kv n => S (weight kv.2 + n)) 0 l <= String.length (join (map member l)) + 1)%nat) by lia.
    clear -IH Hwf. induction IH as [|[k j] l Hj Hl IH]; [cbn; lia|]. cbn [forallb foldr map fst snd] in *.
    apply andb_true_iff in Hwf as [Hwj Hwl]. specialize (Hj Hwj). specialize (IH Hwl).
    assert (Hm : (weight j <= String.length (member (k, j)))%nat).
    { unfold member. cbn [fst snd]. rewrite !sapp_length. lia. }
    destruct l as [|kv l]; [cbn [map join foldr] in *; lia|]. cbn [map] in *.
    rewrite join_cons, !sapp_length. cbn [String.length]. lia.
Qed.

Lemma read_document_render j : wf j = true -> read_document (render j) = Some j.
Proof.
  intros Hj. unfold read_document. rewrite <-(sapp_nil (render j)) at 2.
  rewrite read_render; [done|done| |done]. pose proof (weight_length j Hj). lia.
Qed.

(** Numbers are words. *)
Lemma number_word z : wf (JWord (to_string z)) = true.
Proof.
  destruct (to_string_number z) as [Hn Hne]. cbn [wf]. apply andb_true_iff. split.
  - apply negb_true_iff. by apply String.eqb_neq.
  - clear Hne. induction (to_string z) as [|c s IH]; [done|]. destruct Hn as [Hc Hs]. cbn [all_word].
    rewrite IH, andb_true_r by done. unfold word_char.
    destruct Hc as [->|Hc]; [done|]. set (n := N_of_ascii c) in *.
    replace ((48 <=? Z.of_N n) && (Z.of_N n <=? 57)) with true; [done|].
    symmetry. apply andb_true_iff. rewrite !Z.leb_le. lia.
Qed.
End Json.
