(* ===== verification/Telemetry.v ===== *)
(** * Trace sinks and telemetry (src/src/observability.cpp)

    A sink receives the events of transports and nodes.  [Event] has one
    constructor per method of [TraceSink].  The UDP sink turns an event into a
    JSON text and signs it; the metrics sink counts; the composite sink passes
    events on.  The text of a floating-point number is an argument. *)

From Stdlib Require Import ZArith Lia Strings.Byte Strings.Ascii Strings.String.
From stdpp Require Import base option strings gmap list.
From S2P Require Import Prelude Envelope Text Control.

Module Telemetry.
Import Envelope Text Control.
Local Open Scope Z_scope.

Inductive ConnectionState := disconnected | connecting | listening | connected | closed | error.
#[export] Instance ConnectionState_eq_dec : EqDecision ConnectionState.
Proof. solve_decision. Defined.

Definition connection_text (state : ConnectionState) : string :=
  match state with
  | disconnected => "disconnected" | connecting => "connecting" | listening => "listening"
  | connected => "connected" | closed => "closed" | error => "error"
  end.

Inductive UdpEvent :=
  malformed | truncated | oversized | socket_error | sequence_gap | duplicate | out_of_order.
#[export] Instance UdpEvent_eq_dec : EqDecision UdpEvent.
Proof. solve_decision. Defined.

Definition udp_event_text (event : UdpEvent) : string :=
  match event with
  | malformed => "malformed" | truncated => "truncated" | oversized => "oversized"
  | socket_error => "socket_error" | sequence_gap => "sequence_gap" | duplicate => "duplicate"
  | out_of_order => "out_of_order"
  end.

(** Times are in nanoseconds; [cpu] is the text of a percentage that is not
    negative. *)
Inductive Event :=
  | on_send (edge_id : string) (envelope : Envelope) (wire_bytes : Z)
  | on_receive (edge_id : string) (envelope : Envelope) (wire_bytes latency : Z)
  | on_error (edge_id message : string)
  | on_connection (edge_id : string) (state : ConnectionState)
  | on_reconnect (edge_id : string)
  | on_backpressure (edge_id : string) (duration : Z) (rejected : bool)
  | on_processing (node_id : string) (envelope : Envelope) (duration : Z) (success : bool)
  | on_heartbeat (node_id : string) (cpu : option string)
  | on_udp_event (edge_id : string) (event : UdpEvent) (count : Z).

(** ** The UDP sink *)

Definition field (name value : string) : string := "," +:+ quoted name +:+ ":" +:+ value.
Definition escaped (value : string) : string := quoted (escape_json value).

(** [UdpJsonTraceSink::emit] up to the signature; [now] is in milliseconds. *)
Definition emit (node_id event edge_id : string) (envelope : option Envelope)
    (wire_bytes latency : Z) (message : string) (cpu : option string) (now : Z) : string :=
  "{" +:+ quoted "kind" +:+ ":" +:+ quoted "trace" +:+ field "event" (quoted event)
  +:+ field "nodeId" (escaped node_id)
  +:+ (if String.eqb edge_id "" then "" else field "edgeId" (escaped edge_id))
  +:+ field "timestamp" (to_string now) +:+ field "wireBytes" (to_string wire_bytes)
  +:+ field "latencyUs" (to_string (Z.quot latency 1000))
  +:+ match envelope with
      | Some e =>
          field "sequence" (to_string (sequence e)) +:+ field "wireVersion" (to_string (wire_version e))
          +:+ field "type" (escaped (type e))
          +:+ field "payloadBytes" (to_string (size (payload e)))
          +:+ field "messageId" (escaped (message_id e))
          +:+ field "parentMessageId" (escaped (parent_message_id e))
          +:+ field "traceId" (escaped (trace_id e))
      | None => ""
      end
  +:+ (if String.eqb message "" then "" else field "message" (escaped message))
  +:+ match cpu with Some text => field "cpuPercent" text | None => "" end
  +:+ "}".

(** The text of an event; [TraceSink::on_udp_event] is not overridden. *)
Definition udp_json (node_id : string) (e : Event) (now : Z) : option string :=
  match e with
  | on_send edge_id envelope wire_bytes =>
      Some (emit node_id "send" edge_id (Some envelope) wire_bytes 0 "" None now)
  | on_receive edge_id envelope wire_bytes latency =>
      Some (emit node_id "receive" edge_id (Some envelope) wire_bytes latency "" None now)
  | on_error edge_id message => Some (emit node_id "error" edge_id None 0 0 message None now)
  | on_connection edge_id state =>
      Some (emit node_id "connection" edge_id None 0 0 (connection_text state) None now)
  | on_reconnect edge_id => Some (emit node_id "reconnect" edge_id None 0 0 "" None now)
  | on_backpressure edge_id duration rejected =>
      Some (emit node_id "backpressure" edge_id None 0 duration
              (if rejected then "rejected" else "blocked") None now)
  | on_processing _ envelope duration success =>
      Some (emit node_id "processing" "" (Some envelope) 0 duration
              (if success then "ok" else "error") None now)
  | on_heartbeat _ cpu => Some (emit node_id "heartbeat" "" None 0 0 "" cpu now)
  | on_udp_event _ _ _ => None
  end.

Definition on_edge_totals (node_id counter_session edge_id : string) (sent : bool)
    (packets wire_bytes now : Z) : string :=
  "{" +:+ quoted "kind" +:+ ":" +:+ quoted "edge_totals" +:+ field "event" (quoted "totals")
  +:+ field "nodeId" (escaped node_id) +:+ field "edgeId" (escaped edge_id)
  +:+ field "direction" (quoted (if sent then "sent" else "received"))
  +:+ field "sessionId" (quoted counter_session) +:+ field "timestamp" (to_string now)
  +:+ field "packets" (to_string packets) +:+ field "wireBytes" (to_string wire_bytes) +:+ "}".

Definition on_capture (node_id edge_id : string) (e : Envelope) (direction file : string)
    (packet_index file_offset now : Z) : string :=
  "{" +:+ quoted "kind" +:+ ":" +:+ quoted "capture" +:+ field "event" (quoted "frame")
  +:+ field "nodeId" (escaped node_id) +:+ field "edgeId" (escaped edge_id)
  +:+ field "timestamp" (to_string now) +:+ field "sequence" (to_string (sequence e))
  +:+ field "wireVersion" (to_string (wire_version e)) +:+ field "type" (escaped (type e))
  +:+ field "messageId" (escaped (message_id e))
  +:+ field "parentMessageId" (escaped (parent_message_id e))
  +:+ field "traceId" (escaped (trace_id e)) +:+ field "direction" (escaped direction)
  +:+ field "captureFile" (escaped file) +:+ field "capturePacket" (to_string packet_index)
  +:+ field "captureOffset" (to_string file_offset) +:+ "}".

(** ** The metrics sink *)

Record UdpCounters := {
  udp_malformed : Z; udp_truncated : Z; udp_oversized : Z; udp_socket_errors : Z;
  udp_sequence_gaps : Z; udp_duplicates : Z; udp_out_of_order : Z }.

Record EdgeMetrics := {
  sent : Z; received : Z; sent_wire_bytes : Z; received_wire_bytes : Z; errors : Z;
  reconnects : Z; backpressure_events : Z; rejected_count : Z; udp_counts : UdpCounters;
  total_backpressure : Z; total_latency : Z; latency_buckets : list Z;
  connection : ConnectionState }.

Definition no_udp : UdpCounters :=
  {| udp_malformed := 0; udp_truncated := 0; udp_oversized := 0; udp_socket_errors := 0;
     udp_sequence_gaps := 0; udp_duplicates := 0; udp_out_of_order := 0 |}.

Definition no_metrics : EdgeMetrics :=
  {| sent := 0; received := 0; sent_wire_bytes := 0; received_wire_bytes := 0; errors := 0;
     reconnects := 0; backpressure_events := 0; rejected_count := 0; udp_counts := no_udp;
     total_backpressure := 0; total_latency := 0; latency_buckets := replicate 8 0;
     connection := disconnected |}.

(** In nanoseconds *)
Definition kLatencyBounds : list Z :=
  map (Z.mul 1000) [10; 50; 100; 500; 1000; 5000; 10000].

(** [while (bucket < size && latency > bounds[bucket]) ++bucket] *)
Fixpoint bucket_of (bounds : list Z) (latency : Z) : nat :=
  match bounds with
  | [] => O
  | bound :: bounds => if bound <? latency then S (bucket_of bounds latency) else O
  end.

(** The edge of an event that the metrics sink handles *)
Definition metrics_edge (e : Event) : option string :=
  match e with
  | on_send edge_id _ _ | on_receive edge_id _ _ _ | on_error edge_id _ | on_connection edge_id _
  | on_reconnect edge_id | on_backpressure edge_id _ _ | on_udp_event edge_id _ _ => Some edge_id
  | on_processing _ _ _ _ | on_heartbeat _ _ => None
  end.

Definition count_udp (event : UdpEvent) (count : Z) (u : UdpCounters) : UdpCounters :=
  match event with
  | malformed =>
      {| udp_malformed := u64 (udp_malformed u + count); udp_truncated := udp_truncated u; udp_oversized := udp_oversized u; udp_socket_errors := udp_socket_errors u;
         udp_sequence_gaps := udp_sequence_gaps u; udp_duplicates := udp_duplicates u; udp_out_of_order := udp_out_of_order u |}
  | truncated =>
      {| udp_malformed := udp_malformed u; udp_truncated := u64 (udp_truncated u + count); udp_oversized := udp_oversized u; udp_socket_errors := udp_socket_errors u;
         udp_sequence_gaps := udp_sequence_gaps u; udp_duplicates := udp_duplicates u; udp_out_of_order := udp_out_of_order u |}
  | oversized =>
      {| udp_malformed := udp_malformed u; udp_truncated := udp_truncated u; udp_oversized := u64 (udp_oversized u + count); udp_socket_errors := udp_socket_errors u;
         udp_sequence_gaps := udp_sequence_gaps u; udp_duplicates := udp_duplicates u; udp_out_of_order := udp_out_of_order u |}
  | socket_error =>
      {| udp_malformed := udp_malformed u; udp_truncated := udp_truncated u; udp_oversized := udp_oversized u; udp_socket_errors := u64 (udp_socket_errors u + count);
         udp_sequence_gaps := udp_sequence_gaps u; udp_duplicates := udp_duplicates u; udp_out_of_order := udp_out_of_order u |}
  | sequence_gap =>
      {| udp_malformed := udp_malformed u; udp_truncated := udp_truncated u; udp_oversized := udp_oversized u; udp_socket_errors := udp_socket_errors u;
         udp_sequence_gaps := u64 (udp_sequence_gaps u + count); udp_duplicates := udp_duplicates u; udp_out_of_order := udp_out_of_order u |}
  | duplicate =>
      {| udp_malformed := udp_malformed u; udp_truncated := udp_truncated u; udp_oversized := udp_oversized u; udp_socket_errors := udp_socket_errors u;
         udp_sequence_gaps := udp_sequence_gaps u; udp_duplicates := u64 (udp_duplicates u + count); udp_out_of_order := udp_out_of_order u |}
  | out_of_order =>
      {| udp_malformed := udp_malformed u; udp_truncated := udp_truncated u; udp_oversized := udp_oversized u; udp_socket_errors := udp_socket_errors u;
         udp_sequence_gaps := udp_sequence_gaps u; udp_duplicates := udp_duplicates u; udp_out_of_order := u64 (udp_out_of_order u + count) |}
  end.

(** What an event does to the metrics of its edge; counters are 64 bits wide
    and durations are [int64_t]. *)
Definition count_event (e : Event) (m : EdgeMetrics) : EdgeMetrics :=
  match e with
  | on_send _ _ wire_bytes =>
      {| sent := u64 (sent m + 1); received := received m;
         sent_wire_bytes := u64 (sent_wire_bytes m + wire_bytes);
         received_wire_bytes := received_wire_bytes m; errors := errors m; reconnects := reconnects m;
         backpressure_events := backpressure_events m; rejected_count := rejected_count m;
         udp_counts := udp_counts m; total_backpressure := total_backpressure m;
         total_latency := total_latency m; latency_buckets := latency_buckets m;
         connection := connection m |}
  | on_receive _ _ wire_bytes latency =>
      {| sent := sent m; received := u64 (received m + 1); sent_wire_bytes := sent_wire_bytes m;
         received_wire_bytes := u64 (received_wire_bytes m + wire_bytes); errors := errors m;
         reconnects := reconnects m; backpressure_events := backpressure_events m;
         rejected_count := rejected_count m; udp_counts := udp_counts m;
         total_backpressure := total_backpressure m; total_latency := total_latency m + latency;
         latency_buckets := alter (fun n => u64 (n + 1)) (bucket_of kLatencyBounds latency) (latency_buckets m);
         connection := connection m |}
  | on_error _ _ =>
      {| sent := sent m; received := received m; sent_wire_bytes := sent_wire_bytes m;
         received_wire_bytes := received_wire_bytes m; errors := u64 (errors m + 1);
         reconnects := reconnects m; backpressure_events := backpressure_events m;
         rejected_count := rejected_count m; udp_counts := udp_counts m;
         total_backpressure := total_backpressure m; total_latency := total_latency m;
         latency_buckets := latency_buckets m; connection := error |}
  | on_connection _ state =>
      {| sent := sent m; received := received m; sent_wire_bytes := sent_wire_bytes m;
         received_wire_bytes := received_wire_bytes m; errors := errors m; reconnects := reconnects m;
         backpressure_events := backpressure_events m; rejected_count := rejected_count m;
         udp_counts := udp_counts m; total_backpressure := total_backpressure m;
         total_latency := total_latency m; latency_buckets := latency_buckets m; connection := state |}
  | on_reconnect _ =>
      {| sent := sent m; received := received m; sent_wire_bytes := sent_wire_bytes m;
         received_wire_bytes := received_wire_bytes m; errors := errors m;
         reconnects := u64 (reconnects m + 1); backpressure_events := backpressure_events m;
         rejected_count := rejected_count m; udp_counts := udp_counts m;
         total_backpressure := total_backpressure m; total_latency := total_latency m;
         latency_buckets := latency_buckets m; connection := connection m |}
  | on_backpressure _ duration rejected =>
      {| sent := sent m; received := received m; sent_wire_bytes := sent_wire_bytes m;
         received_wire_bytes := received_wire_bytes m; errors := errors m; reconnects := reconnects m;
         backpressure_events := u64 (backpressure_events m + 1);
         rejected_count := if rejected then u64 (rejected_count m + 1) else rejected_count m;
         udp_counts := udp_counts m; total_backpressure := total_backpressure m + duration;
         total_latency := total_latency m; latency_buckets := latency_buckets m;
         connection := connection m |}
  | on_udp_event _ event count =>
      {| sent := sent m; received := received m; sent_wire_bytes := sent_wire_bytes m;
         received_wire_bytes := received_wire_bytes m; errors := errors m; reconnects := reconnects m;
         backpressure_events := backpressure_events m; rejected_count := rejected_count m;
         udp_counts := count_udp event count (udp_counts m);
         total_backpressure := total_backpressure m; total_latency := total_latency m;
         latency_buckets := latency_buckets m; connection := connection m |}
  | on_processing _ _ _ _ | on_heartbeat _ _ => m
  end.

(** One method of [MetricsTraceSink]; [edges_[id]] inserts empty metrics. *)
Definition metrics_step (e : Event) (edges : gmap string EdgeMetrics) : gmap string EdgeMetrics :=
  match metrics_edge e with
  | Some edge_id => <[edge_id := count_event e (default no_metrics (edges !! edge_id))]> edges
  | None => edges
  end.

Definition edge (edges : gmap string EdgeMetrics) (edge_id : string) : EdgeMetrics :=
  default no_metrics (edges !! edge_id).

(** ** The composite sink *)

(** A sink handles an event in its state, or throws. *)
Definition Sink (S : Type) := Event -> S -> result S.

(** [for (auto* sink : sinks_) sink->on_...]: a throw leaves the loop. *)
Fixpoint composite {S} (sinks : list (Sink S)) (e : Event) (states : list S) : list S * result unit :=
  match sinks, states with
  | sink :: sinks, s :: states =>
      match sink e s with
      | Ok s => let '(states, r) := composite sinks e states in (s :: states, r)
      | Throw x => (s :: states, Throw x)
      end
  | _, _ => (states, Ok tt)
  end.
End Telemetry.

(** * Telemetry can be read, and metrics summarize the history

    Every text the UDP sink sends is JSON: a reader gets the event back, and
    behind a signature the payload and what authenticates it.  The metrics of
    an edge are those of a summary over all its events. *)

From Stdlib Require Import ZArith Lia Strings.Byte Strings.Ascii Strings.String.
From stdpp Require Import base option strings gmap list.
From S2P Require Import Prelude Envelope ConfigRender Text Pcapng Control Json.

Module TelemetryProofs.
Import Envelope ConfigRender Text Control Json Telemetry.
Local Open Scope Z_scope.

(** ** Documents of events *)

Definition envelope_members (e : Envelope) : list (string * json) :=
  [("sequence", JWord (to_string (sequence e))); ("wireVersion", JWord (to_string (wire_version e)));
   ("type", JText (type e)); ("payloadBytes", JWord (to_string (Prelude.size (payload e))));
   ("messageId", JText (message_id e)); ("parentMessageId", JText (parent_message_id e));
   ("traceId", JText (trace_id e))].

Definition trace_document (node_id event edge_id : string) (envelope : option Envelope)
    (wire_bytes latency : Z) (message : string) (cpu : option string) (now : Z) : json :=
  JObject ([("kind", JText "trace"); ("event", JText event); ("nodeId", JText node_id)]
    ++ (if String.eqb edge_id "" then [] else [("edgeId", JText edge_id)])
    ++ [("timestamp", JWord (to_string now)); ("wireBytes", JWord (to_string wire_bytes));
        ("latencyUs", JWord (to_string (Z.quot latency 1000)))]
    ++ match envelope with Some e => envelope_members e | None => [] end
    ++ (if String.eqb message "" then [] else [("message", JText message)])
    ++ match cpu with Some text => [("cpuPercent", JWord text)] | None => [] end).

(** What the text of an event says *)
Definition event_document (node_id : string) (e : Event) (now : Z) : option json :=
  match e with
  | on_send edge_id envelope wire_bytes =>
      Some (trace_document node_id "send" edge_id (Some envelope) wire_bytes 0 "" None now)
  | on_receive edge_id envelope wire_bytes latency =>
      Some (trace_document node_id "receive" edge_id (Some envelope) wire_bytes latency "" None now)
  | on_error edge_id message =>
      Some (trace_document node_id "error" edge_id None 0 0 message None now)
  | on_connection edge_id state =>
      Some (trace_document node_id "connection" edge_id None 0 0 (connection_text state) None now)
  | on_reconnect edge_id =>
      Some (trace_document node_id "reconnect" edge_id None 0 0 "" None now)
  | on_backpressure edge_id duration rejected =>
      Some (trace_document node_id "backpressure" edge_id None 0 duration
              (if rejected then "rejected" else "blocked") None now)
  | on_processing _ envelope duration success =>
      Some (trace_document node_id "processing" "" (Some envelope) 0 duration
              (if success then "ok" else "error") None now)
  | on_heartbeat _ cpu => Some (trace_document node_id "heartbeat" "" None 0 0 "" cpu now)
  | on_udp_event _ _ _ => None
  end.

Definition totals_document (node_id counter_session edge_id : string) (sent : bool)
    (packets wire_bytes now : Z) : json :=
  JObject [("kind", JText "edge_totals"); ("event", JText "totals"); ("nodeId", JText node_id);
    ("edgeId", JText edge_id); ("direction", JText (if sent then "sent" else "received"));
    ("sessionId", JText counter_session); ("timestamp", JWord (to_string now));
    ("packets", JWord (to_string packets)); ("wireBytes", JWord (to_string wire_bytes))].

Definition capture_document (node_id edge_id : string) (e : Envelope) (direction file : string)
    (packet_index file_offset now : Z) : json :=
  JObject [("kind", JText "capture"); ("event", JText "frame"); ("nodeId", JText node_id);
    ("edgeId", JText edge_id); ("timestamp", JWord (to_string now));
    ("sequence", JWord (to_string (sequence e))); ("wireVersion", JWord (to_string (wire_version e)));
    ("type", JText (type e)); ("messageId", JText (message_id e));
    ("parentMessageId", JText (parent_message_id e)); ("traceId", JText (trace_id e));
    ("direction", JText direction); ("captureFile", JText file);
    ("capturePacket", JWord (to_string packet_index));
    ("captureOffset", JWord (to_string file_offset))].

Definition signed_document (payload : json) (timestamp : Z) (nonce signature : string) : json :=
  JObject [("payload", payload);
    ("auth", JObject [("timestamp", JWord (to_string timestamp)); ("nonce", JText nonce);
                      ("signature", JText signature)])].

(** ** Texts are renderings *)

Fixpoint fields (l : list (string * json)) : string :=
  match l with [] => "" | kv :: l => "," +:+ member kv +:+ fields l end.

Lemma fields_app l l' : fields (l ++ l') = fields l +:+ fields l'.
Proof. induction l as [|kv l IH]; [done|]. cbn [app fields]. by rewrite IH, !sapp_assoc. Qed.

Lemma join_fields kv l : join (map member (kv :: l)) = member kv +:+ fields l.
Proof.
  revert kv; induction l as [|kv' l IH]; intros kv; [cbn; by rewrite sapp_nil|].
  cbn [map] in *. rewrite join_cons, IH. done.
Qed.

Lemma render_object kv l : render (JObject (kv :: l)) = "{" +:+ member kv +:+ fields l +:+ "}".
Proof.
  change (render (JObject (kv :: l))) with ("{" +:+ join (map member (kv :: l)) +:+ "}").
  by rewrite join_fields, <-sapp_assoc.
Qed.

Lemma emit_renders node_id event edge_id envelope wire_bytes latency message cpu now :
  escape_json event = event ->
  emit node_id event edge_id envelope wire_bytes latency message cpu now
  = render (trace_document node_id event edge_id envelope wire_bytes latency message cpu now).
Proof.
  intros He. unfold trace_document. cbn [app]. rewrite render_object. cbn [fields].
  rewrite !fields_app. cbn [fields]. unfold emit, field, escaped.
  change (member ("event", JText event)) with (quoted "event" +:+ ":" +:+ quoted (escape_json event)).
  rewrite He. rewrite <-!sapp_assoc.
  destruct (String.eqb edge_id ""), envelope as [e|], (String.eqb message ""), cpu as [c|];
    rewrite ?fields_app; cbn [app fields envelope_members]; unfold member; cbn [fst snd render];
    rewrite ?sapp_nil, <-?sapp_assoc; reflexivity.
Qed.

(** Everything that the UDP sink sends of its own accord *)
Inductive Report :=
  | trace_report (e : Event)
  | totals_report (counter_session edge_id : string) (sent : bool) (packets wire_bytes : Z)
  | capture_report (edge_id : string) (e : Envelope) (direction file : string) (index offset : Z).

Definition report_text (node_id : string) (r : Report) (now : Z) : option string :=
  match r with
  | trace_report e => udp_json node_id e now
  | totals_report session edge_id sent packets wire_bytes =>
      Some (on_edge_totals node_id session edge_id sent packets wire_bytes now)
  | capture_report edge_id e direction file index offset =>
      Some (on_capture node_id edge_id e direction file index offset now)
  end.

Definition report_document (node_id : string) (r : Report) (now : Z) : option json :=
  match r with
  | trace_report e => event_document node_id e now
  | totals_report session edge_id sent packets wire_bytes =>
      Some (totals_document node_id session edge_id sent packets wire_bytes now)
  | capture_report edge_id e direction file index offset =>
      Some (capture_document node_id edge_id e direction file index offset now)
  end.

(** The text of a percentage is a number; the session is a nonce. *)
Definition report_ok (r : Report) : Prop :=
  match r with
  | trace_report (on_heartbeat _ (Some text)) => wf (JWord text) = true
  | totals_report session _ _ _ _ => all_chars ControlProofs.hex_char session
  | _ => True
  end.

Lemma escape_hex s : all_chars ControlProofs.hex_char s -> escape_json s = s.
Proof.
  induction s as [|c s IH]; [done|]. intros [Hc Hs]. cbn [escape_json]. rewrite IH by done.
  assert (He : Pcapng.escape_char c = String c "").
  { unfold ControlProofs.hex_char in Hc.
    destruct c as [[] [] [] [] [] [] [] []]; try reflexivity; exfalso; vm_compute in Hc; intuition congruence. }
  by rewrite He.
Qed.

Lemma udp_json_renders node_id e now text : udp_json node_id e now = Some text ->
  exists doc, event_document node_id e now = Some doc /\ text = render doc.
Proof. destruct e; cbn; intros [= <-]; eexists; (split; [done|by apply emit_renders]). Qed.

Ltac renders := rewrite render_object; cbn [fields]; unfold field, escaped, member;
  cbn [fst snd render]; rewrite ?sapp_nil, <-?sapp_assoc; reflexivity.

Lemma report_renders node_id r now text : report_ok r -> report_text node_id r now = Some text ->
  exists doc, report_document node_id r now = Some doc /\ text = render doc.
Proof.
  destruct r as [e|session edge_id sent packets wire_bytes|edge_id e direction file index offset];
    intros Hok; cbn [report_text report_document].
  - apply udp_json_renders.
  - intros [= <-]. eexists; split; [done|]. unfold on_edge_totals, totals_document.
    cbn in Hok. rewrite <-(escape_hex session) at 1 by done. destruct sent; renders.
  - intros [= <-]. eexists; split; [done|]. unfold on_capture, capture_document. renders.
Qed.

Lemma wf_object l : wf (JObject l) = true <-> Forall (fun kv => wf kv.2 = true) l.
Proof. cbn [wf]. by rewrite forallb_forall, Forall_forall; setoid_rewrite <-list_elem_of_In. Qed.

Ltac wf_members :=
  repeat first [apply Forall_nil_2 | apply Forall_cons_2; [first [exact eq_refl|apply number_word|assumption]|]
               | apply Forall_app_2].

Lemma trace_wf node_id event edge_id envelope wire_bytes latency message cpu now :
  match cpu with Some text => wf (JWord text) = true | None => True end ->
  wf (trace_document node_id event edge_id envelope wire_bytes latency message cpu now) = true.
Proof.
  intros Hc. apply wf_object.
  destruct (String.eqb edge_id ""), envelope as [e|], (String.eqb message ""), cpu as [c|]; wf_members.
Qed.

Lemma report_wf node_id r now doc :
  report_ok r -> report_document node_id r now = Some doc -> wf doc = true.
Proof.
  destruct r as [e|session edge_id sent packets wire_bytes|edge_id e direction file index offset];
    cbn [report_document].
  - intros Hok. destruct e; cbn [event_document]; intros [= <-]; try by apply trace_wf.
  - intros _ [= <-]. apply wf_object. wf_members.
  - intros _ [= <-]. apply wf_object. wf_members.
Qed.

(** ** Signed reports *)

Section signed.
Context (hmac : string -> string -> option (list byte)).

Lemma signed_renders doc key timestamp bytes text :
  key <> "" -> signed_datagram hmac (render doc) key timestamp (Some bytes) = Ok text ->
  exists digest, hmac key (signed_value timestamp (hex_text bytes) (render doc)) = Some digest
  /\ text = render (signed_document doc timestamp (hex_text bytes) (hex_text digest)).
Proof.
  intros Hk. unfold signed_datagram. rewrite (proj2 (String.eqb_neq key "")) by done.
  intros (nonce & [= <-] & (signature & Hs & [= <-])%bind_ok)%bind_ok.
  unfold hmac_hex in Hs. destruct (hmac key _) as [digest|] eqn:Hd; [|done]. injection Hs as <-.
  exists digest. split; [done|]. unfold signed_document. rewrite render_object. cbn [fields].
  unfold member. cbn [fst snd]. rewrite render_object. cbn [fields]. unfold member. cbn [fst snd render].
  rewrite !(escape_hex (hex_text _)) by apply ControlProofs.hex_text_chars.
  rewrite ?sapp_nil, <-?sapp_assoc. reflexivity.
Qed.

(** Whatever a node reports about its edges, its processing, its counters
    or its captures, with texts of any bytes, the signed datagram is JSON: a
    reader obtains the report, member by member, together with the time, the
    nonce and the signature, and the signature is the HMAC of the text of that
    report. *)
Theorem telemetry_readable node_id r now text key timestamp bytes datagram :
  report_ok r -> report_text node_id r now = Some text -> key <> "" ->
  signed_datagram hmac text key timestamp (Some bytes) = Ok datagram ->
  exists doc digest, report_document node_id r now = Some doc
  /\ read_document text = Some doc
  /\ read_document datagram = Some (signed_document doc timestamp (hex_text bytes) (hex_text digest))
  /\ hmac key (signed_value timestamp (hex_text bytes) text) = Some digest.
Proof.
  intros Hok Htext Hk Hs. apply report_renders in Htext as (doc & Hdoc & ->); [|done].
  pose proof (report_wf _ _ _ _ Hok Hdoc) as Hwf.
  apply signed_renders in Hs as (digest & Hd & ->); [|done]. exists doc, digest.
  split; [done|]. split; [by apply read_document_render|]. split; [|done].
  apply read_document_render, wf_object. wf_members. constructor; [|constructor].
  apply (wf_object _). wf_members.
Qed.
End signed.

Definition sample_envelope : Envelope :=
  {| sequence := 7; timestamp_ns := 5; type := "a" +:+ quote +:+ String "010" "b"; trace_id := "t";
     attributes := ∅; payload := "xyz"; message_id := "m"; parent_message_id := ""; wire_version := 2 |}.

Lemma telemetry_readable_witness : exists datagram doc digest,
  signed_datagram ControlProofs.sample_hmac
    (emit "node" "receive" "e" (Some sample_envelope) 40 (-2500) "" None 1000)
    "key" 1001 (Some (replicate 16 x41)) = Ok datagram
  /\ read_document datagram
     = Some (signed_document doc 1001 (hex_text (replicate 16 x41)) (hex_text digest))
  /\ doc = trace_document "node" "receive" "e" (Some sample_envelope) 40 (-2500) "" None 1000.
Proof.
  eexists. assert (Hk : "key" <> "") by discriminate.
  destruct (telemetry_readable ControlProofs.sample_hmac "node"
    (trace_report (on_receive "e" sample_envelope 40 (-2500))) 1000
    (emit "node" "receive" "e" (Some sample_envelope) 40 (-2500) "" None 1000)
    "key" 1001 (replicate 16 x41) _ I eq_refl Hk eq_refl) as (doc & digest & Hdoc & _ & Hread & _).
  exists doc, digest. split; [reflexivity|]. split; [exact Hread|]. injection Hdoc as <-. reflexivity.
Defined.
End TelemetryProofs.

(** * Metrics summarize the history

    The counters that the metrics sink keeps for an edge are the numbers and
    sums over all events of that edge, modulo 2^64; the histogram counts the
    latencies between its bounds; the connection is the last reported one. *)

From Stdlib Require Import ZArith Lia Strings.String.
From stdpp Require Import base option strings gmap list.
From S2P Require Import Prelude Envelope.

Module MetricsProofs.
Import Envelope Telemetry.
Local Open Scope Z_scope.

(** ** The summary *)

Definition total (f : Event -> Z) (l : list Event) : Z := foldr (fun e n => f e + n) 0 l.

Definition is_send (e : Event) : Z := match e with on_send _ _ _ => 1 | _ => 0 end.
Definition is_receive (e : Event) : Z := match e with on_receive _ _ _ _ => 1 | _ => 0 end.
Definition is_error (e : Event) : Z := match e with on_error _ _ => 1 | _ => 0 end.
Definition is_reconnect (e : Event) : Z := match e with on_reconnect _ => 1 | _ => 0 end.
Definition is_backpressure (e : Event) : Z := match e with on_backpressure _ _ _ => 1 | _ => 0 end.
Definition is_rejected (e : Event) : Z := match e with on_backpressure _ _ true => 1 | _ => 0 end.
Definition bytes_sent (e : Event) : Z := match e with on_send _ _ n => n | _ => 0 end.
Definition bytes_received (e : Event) : Z := match e with on_receive _ _ n _ => n | _ => 0 end.
Definition time_received (e : Event) : Z := match e with on_receive _ _ _ t => t | _ => 0 end.
Definition time_blocked (e : Event) : Z := match e with on_backpressure _ t _ => t | _ => 0 end.
Definition udp_count (x : UdpEvent) (e : Event) : Z :=
  match e with on_udp_event _ y n => if decide (x = y) then n else 0 | _ => 0 end.

(** The [i]th interval of latencies: above the bound before, at most the next *)
Definition in_interval (i : nat) (latency : Z) : bool :=
  ((i =? 0)%nat || (nth (i - 1) kLatencyBounds 0 <? latency))
  && ((i =? 7)%nat || (latency <=? nth i kLatencyBounds 0)).
Definition in_bucket (i : nat) (e : Event) : Z :=
  match e with on_receive _ _ _ latency => if in_interval i latency then 1 else 0 | _ => 0 end.

Definition reported (e : Event) : option ConnectionState :=
  match e with
  | on_error _ _ => Some error
  | on_connection _ state => Some state
  | _ => None
  end.

Definition summary (l : list Event) : EdgeMetrics :=
  {| sent := u64 (total is_send l); received := u64 (total is_receive l);
     sent_wire_bytes := u64 (total bytes_sent l);
     received_wire_bytes := u64 (total bytes_received l);
     errors := u64 (total is_error l); reconnects := u64 (total is_reconnect l);
     backpressure_events := u64 (total is_backpressure l);
     rejected_count := u64 (total is_rejected l);
     udp_counts :=
       {| udp_malformed := u64 (total (udp_count malformed) l);
          udp_truncated := u64 (total (udp_count truncated) l);
          udp_oversized := u64 (total (udp_count oversized) l);
          udp_socket_errors := u64 (total (udp_count socket_error) l);
          udp_sequence_gaps := u64 (total (udp_count sequence_gap) l);
          udp_duplicates := u64 (total (udp_count duplicate) l);
          udp_out_of_order := u64 (total (udp_count out_of_order) l) |};
     total_backpressure := total time_blocked l; total_latency := total time_received l;
     latency_buckets := map (fun i => u64 (total (in_bucket i) l)) (seq 0 8);
     connection := default disconnected (last (omap reported l)) |}.

(** ** Counting *)

Lemma total_snoc f l e : total f (l ++ [e]) = total f l + f e.
Proof. induction l as [|x l IH]; cbn [app total foldr] in *; [lia|]. unfold total in IH. lia. Qed.

Lemma u64_idem a b : u64 (u64 a + b) = u64 (a + b).
Proof. unfold u64. by rewrite Zplus_mod_idemp_l. Qed.

Lemma u64_u64 a : u64 (u64 a) = u64 a.
Proof. unfold u64. by rewrite Z.mod_mod. Qed.

Lemma bucket_interval latency i :
  (i < 8)%nat -> in_interval i latency = true <-> i = bucket_of kLatencyBounds latency.
Proof.
  intros Hi. unfold in_interval, kLatencyBounds.
  change (map (Z.mul 1000) _) with [10000; 50000; 100000; 500000; 1000000; 5000000; 10000000].
  cbn [bucket_of].
  do 8 (destruct i as [|i]; [cbn [nth Nat.eqb Nat.sub orb andb];
    rewrite ?andb_true_iff, ?Z.ltb_lt, ?Z.leb_le;
    repeat match goal with |- context[?a <? ?b] => destruct (Z.ltb_spec a b) end; intuition lia|]).
  lia.
Qed.

Lemma bucket_bound bounds latency : (bucket_of bounds latency <= length bounds)%nat.
Proof. induction bounds as [|b bounds IH]; cbn; [done|]. destruct (b <? latency); lia. Qed.

Lemma bucket_alter l latency :
  alter (fun n => u64 (n + 1)) (bucket_of kLatencyBounds latency)
    (map (fun i => u64 (total (in_bucket i) l)) (seq 0 8))
  = map (fun i => u64 (u64 (total (in_bucket i) l) + (if in_interval i latency then 1 else 0))) (seq 0 8).
Proof.
  apply list_eq. intros i. rewrite !list_lookup_fmap.
  destruct (decide (i < 8)%nat) as [Hi|Hi].
  2: { rewrite !lookup_ge_None_2; [done|rewrite length_seq; lia|].
       rewrite length_alter, length_map, length_seq. lia. }
  destruct (decide (i = bucket_of kLatencyBounds latency)) as [E|E].
  - rewrite <-E, list_lookup_alter, list_lookup_fmap, lookup_seq_lt by done. cbn [fmap option_fmap option_map Nat.add].
    rewrite (proj2 (bucket_interval latency i Hi)) by done. by rewrite decide_True by done.
  - rewrite list_lookup_alter_ne, list_lookup_fmap, lookup_seq_lt by done. cbn [fmap option_fmap option_map Nat.add].
    destruct (in_interval i latency) eqn:Hin; [by apply bucket_interval in Hin|].
    by rewrite Z.add_0_r, u64_u64.
Qed.

Lemma summary_nil : summary [] = no_metrics.
Proof. reflexivity. Qed.

Lemma last_reported l e : last (omap reported (l ++ [e])) =
  match reported e with Some state => Some state | None => last (omap reported l) end.
Proof.
  rewrite omap_app. cbn [omap list_omap]. destruct (reported e); [by rewrite last_snoc|by rewrite app_nil_r].
Qed.

Lemma metrics_equal a b :
  sent a = sent b -> received a = received b -> sent_wire_bytes a = sent_wire_bytes b ->
  received_wire_bytes a = received_wire_bytes b -> errors a = errors b -> reconnects a = reconnects b ->
  backpressure_events a = backpressure_events b -> rejected_count a = rejected_count b ->
  udp_counts a = udp_counts b -> total_backpressure a = total_backpressure b ->
  total_latency a = total_latency b -> latency_buckets a = latency_buckets b ->
  connection a = connection b -> a = b.
Proof. destruct a, b; cbn. intros; by subst. Qed.

Lemma buckets_snoc l e : latency_buckets (count_event e (summary l)) = latency_buckets (summary (l ++ [e])).
Proof.
  assert (Hmap : latency_buckets (summary (l ++ [e]))
    = map (fun i => u64 (u64 (total (in_bucket i) l) + in_bucket i e)) (seq 0 8)).
  { unfold summary. cbn [latency_buckets]. apply map_ext. intros i. by rewrite total_snoc, u64_idem. }
  rewrite Hmap. destruct e; cbn [count_event latency_buckets in_bucket]; [|apply bucket_alter| | | | | | |].
  all: apply map_ext; intros i; by rewrite Z.add_0_r, u64_u64.
Qed.

Lemma count_summary l e : count_event e (summary l) = summary (l ++ [e]).
Proof.
  apply metrics_equal; [..|apply buckets_snoc|unfold summary; cbn [connection]; rewrite last_reported; by destruct e].
  all: unfold summary; cbn [sent received sent_wire_bytes received_wire_bytes errors reconnects
    backpressure_events rejected_count udp_counts total_backpressure total_latency];
    rewrite ?total_snoc.
  all: destruct e as [| | | | |? ? []| | |? []]; cbn; rewrite ?Z.add_0_r, ?u64_idem; try done.
Qed.

(** ** The sink *)

(** The events that count for an edge *)
Definition events_of (edge_id : string) (l : list Event) : list Event :=
  filter (fun e => metrics_edge e = Some edge_id) l.

Definition run (l : list Event) : gmap string EdgeMetrics :=
  foldl (fun edges e => metrics_step e edges) ∅ l.

Lemma edge_summary l edge_id : edge (run l) edge_id = summary (events_of edge_id l).
Proof.
  induction l as [|e l IH] using rev_ind; [done|].
  unfold run, events_of in *. rewrite foldl_snoc, filter_app. cbn [filter list_filter].
  unfold metrics_step at 1. destruct (metrics_edge e) as [other|] eqn:He.
  - destruct (decide (other = edge_id)) as [->|Hne].
    + rewrite decide_True by done. rewrite <-count_summary, <-IH.
      unfold edge at 1. by rewrite lookup_insert_eq.
    + rewrite decide_False by congruence. rewrite app_nil_r, <-IH.
      unfold edge. by rewrite lookup_insert_ne.
  - rewrite decide_False by done. by rewrite app_nil_r, <-IH.
Qed.

(** Every receive is in exactly one bucket. *)
Lemma bucket_total l : total is_receive l = foldr Z.add 0 (map (fun i => total (in_bucket i) l) (seq 0 8)).
Proof.
  induction l as [|e l IH]; [done|]. cbn [total foldr]. fold (total is_receive l).
  assert (Hsum : forall f g (il : list nat), foldr Z.add 0 (map (fun i : nat => f i + g i) il)
    = foldr Z.add 0 (map f il) + foldr Z.add 0 (map g il)).
  { intros f g il. induction il as [|i il IHl]; cbn; [done|]. rewrite IHl. lia. }
  change (map (fun i => in_bucket i e + foldr (fun e n => in_bucket i e + n) 0 l) (seq 0 8))
    with (map (fun i => in_bucket i e + total (in_bucket i) l) (seq 0 8)).
  rewrite Hsum, IH. f_equal. destruct e as [|edge_id envelope n latency| | | | | | |]; try done.
  cbn [is_receive in_bucket].
  assert (Hone : forall i, (i < 8)%nat -> (if in_interval i latency then 1 else 0)
    = if decide (i = bucket_of kLatencyBounds latency) then 1 else 0).
  { intros i Hi. pose proof (bucket_interval latency i Hi) as Hb.
    destruct (in_interval i latency), (decide _); try done; [tauto|]. by apply Hb in e. }
  rewrite (map_ext_in _ (fun i => if decide (i = bucket_of kLatencyBounds latency) then 1 else 0)).
  - pose proof (bucket_bound kLatencyBounds latency) as Hb. change (length kLatencyBounds) with 7%nat in Hb.
    destruct (bucket_of kLatencyBounds latency) as [|[|[|[|[|[|[|[|n']]]]]]]]; [done..|lia].
  - intros i Hi%in_seq. apply Hone. lia.
Qed.

(** After any sequence of events the metrics of an edge are the summary of
    all events of that edge, in any interleaving with those of other edges:
    counts and sums modulo 2^64, the histogram of latencies by the intervals
    between its bounds, the sums of times, and the connection that was
    reported last.  The buckets of the histogram add up to the number of
    messages received. *)
Theorem metrics_summarize l edge_id :
  let m := edge (run l) edge_id in
  m = summary (events_of edge_id l)
  /\ length (latency_buckets m) = 8%nat
  /\ received m = u64 (foldr Z.add 0 (latency_buckets m)).
Proof.
  intros m. unfold m. rewrite edge_summary. split; [done|]. split; [done|].
  unfold summary. cbn [received latency_buckets]. rewrite bucket_total.
  generalize (seq 0 8) as il. induction il as [|i il IH]; [done|]. cbn [map foldr]. rewrite u64_idem.
  unfold u64 in *. by rewrite (Z.add_mod (total _ _)), IH, <-Z.add_mod by done.
Qed.

(** ** The composite sink *)

(** While no sink throws, every sink sees every event, as if it were alone. *)
Lemma composite_independent {S} (sinks : list (Sink S)) e states states' :
  length sinks = length states -> composite sinks e states = (states', Ok tt) ->
  Forall2 (fun '(sink, s) s' => sink e s = Ok s') (zip sinks states) states'.
Proof.
  revert states states'; induction sinks as [|sink sinks IH]; intros [|s states] states' Hl H; try done.
  - injection H as <-. constructor.
  - cbn in H. destruct (sink e s) as [s1|] eqn:E; [|done].
    destruct (composite sinks e states) as [rest r] eqn:E2. injection H as <- ->.
    constructor; [done|]. apply IH; [by injection Hl|done].
Qed.
End MetricsProofs.
