(* ===== verification/Otlp.v ===== *)
(** * The OTLP exporter (src/src/observability.cpp)

    Spans are JSON texts in a bounded queue that a thread posts one by one.
    The exporter is the sequence of its critical sections, in any order that
    the lock allows; the clock and the random device are arguments. *)

From Stdlib Require Import ZArith Lia Strings.Byte Strings.Ascii Strings.String.
From stdpp Require Import base option strings list.
From S2P Require Import Prelude Envelope Text Control Telemetry.

Module Otlp.
Import Envelope Text Control Telemetry.
Local Open Scope Z_scope.

(** ** Identifiers *)

(** FNV-1a over 64 bits *)
Definition hash (text : string) (seed : Z) : Z :=
  foldl (fun result byte => u64 (Z.lxor result (Z_of_byte byte) * 1099511628211)) seed (bytes_of text).

Definition hex_id (value : string) (digits : nat) (salt : Z) : string :=
  let first := Z.lxor (hash value 14695981039346656037) salt in
  let second := hash value (Z.lxor 1099511628211 salt) in
  string_of (take digits (word_digits first
                            ++ (if (16 <? digits)%nat then word_digits second else []))).

(** One round of [generate_span_id]: what [getentropy] wrote, or the draws of
    the random device *)
Inductive entropy := entropy_read (value : Z) | random_draws (draws : list Z).

Definition entropy_value (e : entropy) : Z :=
  match e with
  | entropy_read value => value
  | random_draws draws =>
      fold_left (fun value r => Z.lxor (u64 (Z.shiftl value 16)) (Z.land r 65535)) (take 4 draws) 0
  end.

(** [None]: the rounds that are given do not suffice. *)
Fixpoint generate_span_id (rounds : list entropy) : option string :=
  match rounds with
  | [] => None
  | e :: rounds =>
      let value := entropy_value e in
      if value =? 0 then generate_span_id rounds else Some (string_of (word_digits value))
  end.

Definition trace_id_of (envelope : option Envelope) (subject : string) : string :=
  let trace_source := match envelope with Some e => trace_id e | None => subject end in
  if is_canonical_identity trace_source then trace_source else hex_id trace_source 32 0.

(** ** Spans *)

(** [{"key":key,"value":{kind:value}}] *)
Definition attribute (key kind value : string) : string :=
  "{" +:+ quoted "key" +:+ ":" +:+ quoted key +:+ "," +:+ quoted "value" +:+ ":{" +:+ quoted kind
  +:+ ":" +:+ quoted value +:+ "}}".

(** The text of a span that ends at [now] *)
Definition span_text (node_id name subject : string) (envelope : option Envelope) (duration : Z)
    (status : string) (wire_bytes now : Z) (span_id : string) : string :=
  let start := now - Z.max 0 duration in
  "{" +:+ quoted "resourceSpans" +:+ ":[{" +:+ quoted "resource" +:+ ":{" +:+ quoted "attributes"
  +:+ ":[" +:+ attribute "service.name" "stringValue" ("graphx-" +:+ escape_json node_id)
  +:+ "]}," +:+ quoted "scopeSpans" +:+ ":[{" +:+ quoted "scope" +:+ ":{" +:+ quoted "name" +:+ ":"
  +:+ quoted "graphx.runtime" +:+ "}," +:+ quoted "spans" +:+ ":[{"
  +:+ quoted "traceId" +:+ ":" +:+ quoted (trace_id_of envelope subject) +:+ ","
  +:+ quoted "spanId" +:+ ":" +:+ quoted span_id +:+ ","
  +:+ quoted "name" +:+ ":" +:+ quoted (name +:+ " " +:+ escape_json subject) +:+ ","
  +:+ quoted "startTimeUnixNano" +:+ ":" +:+ quoted (to_string start) +:+ ","
  +:+ quoted "endTimeUnixNano" +:+ ":" +:+ quoted (to_string now) +:+ ","
  +:+ quoted "attributes" +:+ ":["
  +:+ attribute "graphx.subject" "stringValue" (escape_json subject) +:+ ","
  +:+ attribute "graphx.status" "stringValue" (escape_json status) +:+ ","
  +:+ attribute "graphx.wire_bytes" "intValue" (to_string wire_bytes)
  +:+ match envelope with
      | Some e =>
          "," +:+ attribute "graphx.sequence" "intValue" (to_string (sequence e))
          +:+ "," +:+ attribute "graphx.message_id" "stringValue" (escape_json (message_id e))
          +:+ "," +:+ attribute "graphx.parent_message_id" "stringValue" (escape_json (parent_message_id e))
      | None => ""
      end
  +:+ "]}]}]}]}".

(** The methods that the exporter overrides *)
Definition span_of (node_id : string) (e : Event) (now : Z) (span_id : string) : option string :=
  match e with
  | on_send edge_id envelope wire_bytes =>
      Some (span_text node_id "graphx.send" edge_id (Some envelope) 0 "ok" wire_bytes now span_id)
  | on_receive edge_id envelope wire_bytes latency =>
      Some (span_text node_id "graphx.receive" edge_id (Some envelope) latency "ok" wire_bytes now span_id)
  | on_error edge_id message =>
      Some (span_text node_id "graphx.error" edge_id None 0 message 0 now span_id)
  | on_processing node envelope duration success =>
      Some (span_text node_id "graphx.process" node (Some envelope) duration
              (if success then "ok" else "error") 0 now span_id)
  | on_connection _ _ | on_reconnect _ | on_backpressure _ _ _ | on_heartbeat _ _
  | on_udp_event _ _ _ => None
  end.

(** ** The queue and its thread *)

(** [active] is the text that is being posted; [posted] are the texts whose
    post ended, in order; [finished] is the end of the thread. *)
Record Exporter := {
  capacity : Z; queue : list string; stopping : bool; active : option string;
  posted : list string; finished : bool }.

Definition new_exporter (queue_capacity : Z) : Exporter :=
  {| capacity := Z.max 1 queue_capacity; queue := []; stopping := false; active := None;
     posted := []; finished := false |}.

(** The critical sections: the end of [enqueue_span], the two of [run], the
    end of the thread, and the one of the destructor, which waited until the
    queue was drained or for 600 ms *)
Inductive label := enqueue (text : string) | take_front | post_done | thread_ends | destroy.

(** Whether [enqueue] keeps the text *)
Definition admits (x : Exporter) : bool :=
  negb (stopping x || (capacity x <=? Z.of_nat (length (queue x)))).

(** [None]: the lock or the wait does not allow the section now. *)
Definition exporter_step (l : label) (x : Exporter) : option Exporter :=
  match l with
  | enqueue text =>
      Some (if admits x
            then {| capacity := capacity x; queue := queue x ++ [text]; stopping := stopping x;
                    active := active x; posted := posted x; finished := finished x |}
            else x)
  | take_front =>
      match finished x, active x, queue x with
      | false, None, text :: rest =>
          Some {| capacity := capacity x; queue := rest; stopping := stopping x; active := Some text;
                  posted := posted x; finished := false |}
      | _, _, _ => None
      end
  | post_done =>
      match active x with
      | Some text =>
          Some {| capacity := capacity x; queue := queue x; stopping := stopping x; active := None;
                  posted := posted x ++ [text]; finished := finished x |}
      | None => None
      end
  | thread_ends =>
      match finished x, active x, queue x, stopping x with
      | false, None, [], true =>
          Some {| capacity := capacity x; queue := []; stopping := true; active := None;
                  posted := posted x; finished := true |}
      | _, _, _, _ => None
      end
  | destroy =>
      if stopping x then None
      else Some {| capacity := capacity x; queue := []; stopping := true; active := active x;
                   posted := posted x; finished := finished x |}
  end.

Fixpoint exporter_run (l : list label) (x : Exporter) : option Exporter :=
  match l with
  | [] => Some x
  | a :: l => x ← exporter_step a x; exporter_run l x
  end.
End Otlp.

(** * Spans can be read and leave in order

    The text of a span is JSON with well-formed identifiers and ordered times;
    the exporter posts what it admitted, in order, within its bound, and its
    thread ends after the destructor. *)

From Stdlib Require Import ZArith Lia Strings.Byte Strings.Ascii Strings.String.
From stdpp Require Import base option strings list.
From S2P Require Import Prelude Envelope EnvelopeIdentity ConfigRender Text Pcapng Control Json Telemetry.

Module OtlpProofs.
Import Envelope ConfigRender Text Control Json Telemetry TelemetryProofs Otlp.
Local Open Scope Z_scope.

(** ** The queue *)

(** The texts a run admits *)
Fixpoint admitted (l : list label) (x : Exporter) : list string :=
  match l with
  | [] => []
  | a :: l =>
      match exporter_step a x with
      | None => []
      | Some x' =>
          match a with enqueue text => if admits x then [text] else [] | _ => [] end ++ admitted l x'
      end
  end.

(** What left the queue, and what is still in it *)
Record exporter_ok (acc : list string) (x : Exporter) : Prop := {
  x_order : exists lost, acc = posted x ++ option_list (active x) ++ queue x ++ lost
            /\ (stopping x = false -> lost = []);
  x_bound : Z.of_nat (length (queue x)) <= capacity x;
  x_stop : stopping x = true -> queue x = [];
  x_done : finished x = true -> active x = None /\ stopping x = true }.

Lemma step_ok acc a x x' :
  exporter_ok acc x -> exporter_step a x = Some x' ->
  exporter_ok (acc ++ match a with enqueue text => if admits x then [text] else [] | _ => [] end) x'
  /\ capacity x' = capacity x.
Proof.
  intros Hx H. pose proof Hx as [(lost & Ho & Hlost) Hb Hs Hd]. destruct a as [text| | | |]; cbn [exporter_step] in H.
  - injection H as <-. destruct (admits x) eqn:Ha; [|by rewrite app_nil_r].
    unfold admits in Ha. apply negb_true_iff, orb_false_iff in Ha as [Hstop Hroom%Z.leb_gt].
    rewrite (Hlost Hstop), app_nil_r in Ho. split; [|done]. split; cbn.
    + exists []. rewrite Ho. split; [|done]. by rewrite app_nil_r, <-!app_assoc.
    + rewrite length_app. cbn. lia.
    + intros Ht. congruence.
    + exact Hd.
  - rewrite app_nil_r. destruct (finished x) eqn:Hf, (active x) eqn:Hac, (queue x) as [|t q] eqn:Hq; try done.
    injection H as <-. split; [|done]. split; cbn; [|cbn in Hb; lia|intros Ht; by apply Hs in Ht|done].
    exists lost. split; [by rewrite Ho|done].
  - rewrite app_nil_r. destruct (active x) as [t|] eqn:Hac; [|done]. injection H as <-. split; [|done].
    split; cbn; [|done|done|intros Hf; by apply Hd in Hf as [? _]].
    exists lost. split; [|done]. by rewrite Ho, <-app_assoc.
  - rewrite app_nil_r. destruct (finished x) eqn:Hf, (active x) eqn:Hac, (queue x) eqn:Hq, (stopping x) eqn:Hst; try done.
    injection H as <-. split; [|done]. split; cbn; [|cbn in Hb; lia|done|done]. by exists lost.
  - rewrite app_nil_r. destruct (stopping x) eqn:Hst; [done|]. injection H as <-. split; [|done].
    split; cbn; [|pose proof Hb; lia|done|intros Hf; by apply Hd in Hf as [? [=]]].
    exists (queue x ++ lost). by split; [rewrite Ho|].
Qed.

Lemma run_ok l : forall acc x x', exporter_ok acc x -> exporter_run l x = Some x' ->
  exporter_ok (acc ++ admitted l x) x' /\ capacity x' = capacity x.
Proof.
  induction l as [|a l IH]; intros acc x x' Hx H; cbn [exporter_run admitted] in *.
  - injection H as <-. by rewrite app_nil_r.
  - destruct (exporter_step a x) as [x1|] eqn:E; [|done]. cbn [mbind option_bind] in H.
    apply (step_ok acc) in E as [Hx1 Hc]; [|done]. apply (IH _ _ _ Hx1) in H as [Hx' Hc'].
    rewrite <-app_assoc in Hx'. split; [done|congruence].
Qed.

Lemma new_ok n : exporter_ok [] (new_exporter n).
Proof. split; cbn; [by exists []|lia|done|done]. Qed.

(** In every interleaving of senders, thread and destructor the exporter
    posts the texts it admitted, in order and each once; before the destructor
    nothing admitted is lost, and never are more queued than the capacity.
    The thread ends only behind the destructor with nothing in hand, and from
    every state behind it at most two steps of the thread end it. *)
Theorem exporter_in_order n l x :
  exporter_run l (new_exporter n) = Some x ->
  (exists rest, admitted l (new_exporter n) = posted x ++ option_list (active x) ++ rest
   /\ (stopping x = false -> rest = queue x))
  /\ Z.of_nat (length (queue x)) <= Z.max 1 n
  /\ (finished x = true -> active x = None /\ queue x = [] /\ stopping x = true)
  /\ (stopping x = true -> finished x = true \/ exists more x', (length more <= 2)%nat
      /\ Forall (fun a => a = post_done \/ a = thread_ends) more
      /\ exporter_run more x = Some x' /\ finished x' = true).
Proof.
  intros H. apply (run_ok l [] _ _ (new_ok n)) in H as [[(lost & Ho & Hlost) Hb Hs Hd] Hc].
  cbn [app] in Ho. split_and!.
  - exists (queue x ++ lost). split; [done|]. intros Hst. by rewrite (Hlost Hst), app_nil_r.
  - by rewrite Hc in Hb.
  - intros Hf. destruct (Hd Hf) as [Ha Hst]. by split_and!; [|apply Hs|].
  - intros Hst. destruct (finished x) eqn:Hf; [by left|right].
    exists (match active x with Some _ => [post_done; thread_ends] | None => [thread_ends] end).
    pose proof (Hs Hst) as Hq. destruct (active x) as [t|] eqn:Ha.
    + eexists. split; [done|]. split; [by constructor; [left|constructor; [right|]]|].
      cbn. rewrite Ha. cbn. by rewrite Hf, Hq, Hst.
    + eexists. split; [cbn; lia|]. split; [by constructor; [right|]|].
      cbn. by rewrite Ha, Hf, Hq, Hst.
Qed.

Definition sample_labels : list label :=
  [enqueue "a"; enqueue "b"; take_front; enqueue "c"; enqueue "d"; post_done; destroy; enqueue "e"].

Definition sample_exporter : Exporter :=
  {| capacity := 2; queue := []; stopping := true; active := None; posted := ["a"]; finished := false |}.

Lemma exporter_in_order_witness :
  exporter_run sample_labels (new_exporter 2) = Some sample_exporter
  /\ admitted sample_labels (new_exporter 2) = ["a"; "b"; "c"]
  /\ exists rest, admitted sample_labels (new_exporter 2)
       = posted sample_exporter ++ option_list (active sample_exporter) ++ rest.
Proof.
  assert (Hrun : exporter_run sample_labels (new_exporter 2) = Some sample_exporter)
    by (vm_compute; reflexivity).
  split; [exact Hrun|]. split; [vm_compute; reflexivity|].
  destruct (exporter_in_order 2 sample_labels sample_exporter Hrun) as ((rest & Hrest & _) & _).
  exists rest. exact Hrest.
Defined.

(** ** Spans *)

Definition attribute_document (key kind value : string) : json :=
  JObject [("key", JText key); ("value", JObject [(kind, JText value)])].

Definition span_document (node_id name subject : string) (envelope : option Envelope) (duration : Z)
    (status : string) (wire_bytes now : Z) (span_id : string) : json :=
  JObject [("resourceSpans", JList [JObject [
    ("resource", JObject [("attributes", JList
       [attribute_document "service.name" "stringValue" ("graphx-" +:+ node_id)])]);
    ("scopeSpans", JList [JObject [
      ("scope", JObject [("name", JText "graphx.runtime")]);
      ("spans", JList [JObject [
        ("traceId", JText (trace_id_of envelope subject)); ("spanId", JText span_id);
        ("name", JText (name +:+ " " +:+ subject));
        ("startTimeUnixNano", JText (to_string (now - Z.max 0 duration)));
        ("endTimeUnixNano", JText (to_string now));
        ("attributes", JList ([attribute_document "graphx.subject" "stringValue" subject;
           attribute_document "graphx.status" "stringValue" status;
           attribute_document "graphx.wire_bytes" "intValue" (to_string wire_bytes)]
           ++ match envelope with
              | Some e => [attribute_document "graphx.sequence" "intValue" (to_string (sequence e));
                           attribute_document "graphx.message_id" "stringValue" (message_id e);
                           attribute_document "graphx.parent_message_id" "stringValue" (parent_message_id e)]
              | None => []
              end))]])]])]])].

Definition plain (s : string) : Prop := escape_json s = s.

Lemma escape_app a b : escape_json (a +:+ b) = escape_json a +:+ escape_json b.
Proof. induction a as [|c a IH]; [done|]. rewrite sapp_cons. cbn [escape_json]. by rewrite IH, sapp_assoc. Qed.

Lemma number_plain z : plain (to_string z).
Proof.
  unfold plain. destruct (to_string_number z) as [Hn _]. induction (to_string z) as [|c s IH]; [done|].
  destruct Hn as [Hc Hs]. cbn [escape_json]. rewrite IH by done.
  assert (He : Pcapng.escape_char c = String c "").
  { unfold number_char in Hc. destruct c as [[] [] [] [] [] [] [] []]; try reflexivity; exfalso;
      vm_compute in Hc; intuition congruence. }
  by rewrite He.
Qed.

Lemma hex_bytes_text l : Forall (fun c => is_hex c = true) l -> all_chars ControlProofs.hex_char (string_of l).
Proof.
  induction 1 as [|b l Hb _ IH]; [done|]. split; [|exact IH].
  unfold ControlProofs.hex_char, is_hex in *. destruct b; vm_compute in Hb |- *; (discriminate Hb ||
    (first [left; split; congruence|right; split; congruence])).
Qed.

Lemma string_of_length l : String.length (string_of l) = length l.
Proof. by rewrite <-bytes_of_length, bytes_of_string_of. Qed.

Lemma trace_id_ok envelope subject :
  all_chars ControlProofs.hex_char (trace_id_of envelope subject)
  /\ String.length (trace_id_of envelope subject) = 32%nat.
Proof.
  unfold trace_id_of. set (source := match envelope with Some e => trace_id e | None => subject end).
  destruct (is_canonical_identity source) eqn:E.
  - apply Identity.is_canonical_identity_spec in E as (Hl & Hx & _).
    rewrite bytes_of_length in Hl. split; [|done].
    rewrite <-(string_of_bytes_of source). by apply hex_bytes_text.
  - unfold hex_id. change (16 <? 32)%nat with true. cbn match. rewrite take_ge.
    2: { by rewrite length_app, !Identity.word_digits_length. }
    split; [|by rewrite string_of_length, length_app, !Identity.word_digits_length].
    apply hex_bytes_text, Forall_app_2; apply Identity.word_digits_hex.
Qed.

Lemma attribute_renders key kind value : plain key -> plain kind ->
  attribute key kind (escape_json value) = render (attribute_document key kind value).
Proof.
  intros Hk Hd. unfold attribute_document, attribute. rewrite render_object. cbn [fields].
  unfold member. cbn [fst snd]. rewrite render_object. cbn [fields]. unfold member. cbn [fst snd render].
  rewrite Hk, Hd, ?sapp_nil, <-?sapp_assoc. reflexivity.
Qed.

Lemma attribute_number_renders key z : plain key ->
  attribute key "intValue" (to_string z) = render (attribute_document key "intValue" (to_string z)).
Proof. intros Hk. rewrite <-attribute_renders by done. by rewrite number_plain. Qed.

Lemma render_single j : render (JList [j]) = "[" +:+ render j +:+ "]".
Proof. done. Qed.

Lemma render_text s : render (JText s) = quoted (escape_json s).
Proof. done. Qed.

Lemma render_list (l : list json) : render (JList l) = "[" +:+ join (map render l) +:+ "]".
Proof. done. Qed.

Lemma span_renders node_id name subject envelope duration status wire_bytes now span_id :
  plain name -> all_chars ControlProofs.hex_char span_id ->
  span_text node_id name subject envelope duration status wire_bytes now span_id
  = render (span_document node_id name subject envelope duration status wire_bytes now span_id).
Proof.
  intros Hname Hid. destruct (trace_id_ok envelope subject) as [Htrace _].
  unfold span_document, span_text.
  change ("graphx-" +:+ escape_json node_id) with (escape_json "graphx-" +:+ escape_json node_id).
  rewrite <-escape_app.
  assert (Hattributes : ":[" +:+ attribute "graphx.subject" "stringValue" (escape_json subject) +:+ ","
    +:+ attribute "graphx.status" "stringValue" (escape_json status) +:+ ","
    +:+ attribute "graphx.wire_bytes" "intValue" (to_string wire_bytes)
    +:+ match envelope with
        | Some e =>
            "," +:+ attribute "graphx.sequence" "intValue" (to_string (sequence e))
            +:+ "," +:+ attribute "graphx.message_id" "stringValue" (escape_json (message_id e))
            +:+ "," +:+ attribute "graphx.parent_message_id" "stringValue" (escape_json (parent_message_id e))
        | None => ""
        end +:+ "]}]}]}]}" = ":" +:+ render (JList (
        [attribute_document "graphx.subject" "stringValue" subject;
           attribute_document "graphx.status" "stringValue" status;
           attribute_document "graphx.wire_bytes" "intValue" (to_string wire_bytes)]
           ++ match envelope with
              | Some e => [attribute_document "graphx.sequence" "intValue" (to_string (sequence e));
                           attribute_document "graphx.message_id" "stringValue" (message_id e);
                           attribute_document "graphx.parent_message_id" "stringValue" (parent_message_id e)]
              | None => []
              end)) +:+ "}]}]}]}").
  { rewrite render_list. destruct envelope as [e|]; cbn [app map];
      rewrite !join_cons; cbn [join]; rewrite !attribute_renders, !attribute_number_renders by exact eq_refl;
      rewrite <-!sapp_assoc; reflexivity. }
  rewrite Hattributes. rewrite attribute_renders by exact eq_refl.
  set (attributes := JList (_ ++ _)) in *. clearbody attributes. clear Hattributes.
  rewrite !render_object. cbn [fields]. unfold member. cbn [fst snd].
  rewrite !render_single, !render_object. cbn [fields]. unfold member. cbn [fst snd].
  rewrite !render_single, !render_object. cbn [fields]. unfold member. cbn [fst snd].
  rewrite !render_single, !render_object. cbn [fields]. unfold member. cbn [fst snd].
  set (service := attribute_document _ _ _). clearbody service. rewrite !render_text.
  rewrite (escape_app name), (escape_app " "), !number_plain, Hname, (escape_hex span_id),
    (escape_hex (trace_id_of envelope subject)) by done.
  rewrite ?sapp_nil, <-?sapp_assoc. reflexivity.
Qed.

Lemma wf_list l : wf (JList l) = true <-> Forall (fun j => wf j = true) l.
Proof. cbn [wf]. by rewrite forallb_forall, Forall_forall; setoid_rewrite <-list_elem_of_In. Qed.

Lemma span_wf node_id name subject envelope duration status wire_bytes now span_id :
  wf (span_document node_id name subject envelope duration status wire_bytes now span_id) = true.
Proof. unfold span_document. destruct envelope; reflexivity. Qed.

(** What a span is about: its name, its subject, the envelope, the duration,
    the status and the number of bytes *)
Definition span_parts (e : Event) : option (string * string * option Envelope * Z * string * Z) :=
  match e with
  | on_send edge_id envelope wire_bytes => Some ("graphx.send", edge_id, Some envelope, 0, "ok", wire_bytes)
  | on_receive edge_id envelope wire_bytes latency =>
      Some ("graphx.receive", edge_id, Some envelope, latency, "ok", wire_bytes)
  | on_error edge_id message => Some ("graphx.error", edge_id, None, 0, message, 0)
  | on_processing node envelope duration success =>
      Some ("graphx.process", node, Some envelope, duration, if success then "ok" else "error", 0)
  | _ => None
  end.

Lemma span_id_ok rounds span_id :
  Forall (fun e => in_u64 (entropy_value e)) rounds -> generate_span_id rounds = Some span_id ->
  exists value, in_u64 value /\ value <> 0 /\ span_id = string_of (word_digits value).
Proof.
  induction 1 as [|e rounds He _ IH]; cbn [generate_span_id]; [done|].
  destruct (Z.eqb_spec (entropy_value e) 0) as [|Hne]; [exact IH|]. intros [= <-].
  by exists (entropy_value e).
Qed.

(** A span of the exporter is JSON whatever bytes its texts have: a reader
    finds its name and subject, its status and the identifiers of its
    envelope.  The trace identifier is that of the envelope when it is
    canonical, and always 32 hexadecimal digits; the span identifier has 16
    and is not zero; the span does not end before it starts. *)
Theorem span_readable node_id e now rounds span_id text :
  Forall (fun e => in_u64 (entropy_value e)) rounds -> generate_span_id rounds = Some span_id ->
  span_of node_id e now span_id = Some text ->
  exists name subject envelope duration status wire_bytes,
    span_parts e = Some (name, subject, envelope, duration, status, wire_bytes)
    /\ read_document text
       = Some (span_document node_id name subject envelope duration status wire_bytes now span_id)
    /\ String.length (trace_id_of envelope subject) = 32%nat
    /\ all_chars ControlProofs.hex_char (trace_id_of envelope subject)
    /\ String.length span_id = 16%nat /\ all_chars ControlProofs.hex_char span_id
    /\ span_id <> "0000000000000000"
    /\ now - Z.max 0 duration <= now.
Proof.
  intros Hrounds Hid Htext. apply span_id_ok in Hid as (value & Hv & Hne & Hspan); [|done].
  assert (Hhex : all_chars ControlProofs.hex_char span_id)
    by (rewrite Hspan; apply hex_bytes_text, Identity.word_digits_hex).
  assert (Hlen : String.length span_id = 16%nat)
    by (rewrite Hspan, string_of_length; apply Identity.word_digits_length).
  assert (Hzero : span_id <> "0000000000000000").
  { intros Hz. apply Hne. rewrite Hspan in Hz. apply (f_equal bytes_of) in Hz.
    rewrite bytes_of_string_of in Hz. apply Identity.word_digits_inj; [done|unfold in_u64; lia|].
    rewrite Hz. reflexivity. }
  assert (Hread : forall name subject envelope duration status wire_bytes, plain name ->
    read_document (span_text node_id name subject envelope duration status wire_bytes now span_id)
    = Some (span_document node_id name subject envelope duration status wire_bytes now span_id)).
  { intros. rewrite span_renders by done. apply read_document_render, span_wf. }
  destruct e; cbn [span_of] in Htext; try discriminate Htext; injection Htext as <-;
    do 6 eexists; (split; [reflexivity|]);
    (split; [apply Hread; reflexivity|]);
    (split; [apply trace_id_ok|]); (split; [apply trace_id_ok|]);
    (split; [exact Hlen|]); (split; [exact Hhex|]); (split; [exact Hzero|]); lia.
Qed.

Lemma span_readable_witness : exists name subject envelope duration status wire_bytes text,
  span_of "node" (on_error ("e" +:+ quote) "broken") 1000 "00000000000000ff" = Some text
  /\ read_document text
     = Some (span_document "node" name subject envelope duration status wire_bytes 1000 "00000000000000ff")
  /\ span_parts (on_error ("e" +:+ quote) "broken")
     = Some (name, subject, envelope, duration, status, wire_bytes).
Proof.
  assert (Hid : generate_span_id [entropy_read 0; random_draws [0; 0; 0; 255; 9]] = Some "00000000000000ff")
    by (vm_compute; reflexivity).
  assert (Hr : Forall (fun e => in_u64 (entropy_value e)) [entropy_read 0; random_draws [0; 0; 0; 255; 9]])
    by (repeat constructor; vm_compute; congruence).
  destruct (span_readable "node" (on_error ("e" +:+ quote) "broken") 1000 _ _ _ Hr Hid eq_refl)
    as (name & subject & envelope & duration & status & wire_bytes & Hparts & Hread & _).
  do 7 eexists. split; [reflexivity|]. split; [exact Hread|exact Hparts].
Defined.
End OtlpProofs.
