(* ===== verification/Effects.v ===== *)
(** * Programs over system calls

    A program is a tree of system calls: at each it waits for the answer and
    goes on; it returns or throws.  The answers are not restricted, so a
    statement about all runs holds whatever the environment does.  A run may
    also stop anywhere: the process died. *)

From Stdlib Require Import ZArith Lia.
From stdpp Require Import base option list.
From S2P Require Import Prelude.

Module Effects.

Section prog.
Context {C : Type} {R : C -> Type}.

Inductive prog (A : Type) : Type :=
| Ret (a : A)
| Fail (e : exn)
| Do (c : C) (k : R c -> prog A).
Arguments Ret {A} a.
Arguments Fail {A} e.
Arguments Do {A} c k.

Fixpoint and_then {A B} (p : prog A) (f : A -> prog B) : prog B :=
  match p with
  | Ret a => f a
  | Fail e => Fail e
  | Do c k => Do c (fun x => and_then (k x) f)
  end.

(** [try { p } catch (const std::exception& e) { handler(e) }] *)
Fixpoint catch {A} (p : prog A) (handler : exn -> prog A) : prog A :=
  match p with
  | Ret a => Ret a
  | Fail e => handler e
  | Do c k => Do c (fun x => catch (k x) handler)
  end.

Definition call (c : C) : prog (R c) := Do c Ret.

Definition of_result {A} (r : result A) : prog A :=
  match r with Ok a => Ret a | Throw e => Fail e end.

(** [for (const auto& x : l) body(x, s)] *)
Fixpoint for_each_in {A S} (body : A -> S -> prog S) (l : list A) (s : S) : prog S :=
  match l with
  | [] => Ret s
  | x :: l => and_then (body x s) (for_each_in body l)
  end.

(** The outcome as a value *)
Fixpoint attempt {A} (p : prog A) : prog (result A) :=
  match p with
  | Ret a => Ret (Ok a)
  | Fail e => Ret (Throw e)
  | Do c k => Do c (fun x => attempt (k x))
  end.

(** ** Programs with an object they change

    The state survives an exception: [catch (...)] sees what was done to it. *)

Definition stateful (S A : Type) : Type := S -> prog (S * result A).

Definition returns {S A} (a : A) : stateful S A := fun s => Ret (s, Ok a).
Definition raises {S A} (e : exn) : stateful S A := fun s => Ret (s, Throw e).
Definition current {S} : stateful S S := fun s => Ret (s, Ok s).
Definition modify {S} (f : S -> S) : stateful S unit := fun s => Ret (f s, Ok tt).
Definition lift {S A} (p : prog A) : stateful S A :=
  fun s => and_then (attempt p) (fun r => Ret (s, r)).

Definition bind_state {S A B} (p : stateful S A) (f : A -> stateful S B) : stateful S B :=
  fun s => and_then (p s) (fun sr =>
    match sr.2 with Ok a => f a sr.1 | Throw e => Ret (sr.1, Throw e) end).

Definition catch_state {S A} (p : stateful S A) (handler : exn -> stateful S A) : stateful S A :=
  fun s => and_then (p s) (fun sr =>
    match sr.2 with Ok a => Ret (sr.1, Ok a) | Throw e => handler e sr.1 end).

Fixpoint for_each_state {S A} (body : A -> stateful S unit) (l : list A) : stateful S unit :=
  match l with
  | [] => returns tt
  | x :: l => bind_state (body x) (fun _ => for_each_state body l)
  end.

(** The same with a value handed from one round to the next *)
Fixpoint fold_state {S A B} (body : A -> B -> stateful S B) (l : list A) (b : B) : stateful S B :=
  match l with
  | [] => returns b
  | x :: l => bind_state (body x b) (fold_state body l)
  end.

(** A program on one part of a state *)
Definition inner {S T A} (p : stateful T A) : stateful (S * T) A :=
  fun s => and_then (p s.2) (fun r => Ret ((s.1, r.1), r.2)).

(** A program with a local object *)
Definition with_local {S T A} (local : S) (p : stateful (S * T) A) : stateful T A :=
  fun s => and_then (p (local, s)) (fun r => Ret (r.1.2, r.2)).

(** ** Runs *)

(** A call with its answer *)
Record event := Event { e_call : C; e_answer : R e_call }.

(** A run that ended, in order *)
Inductive runs {A} : prog A -> list event -> result A -> Prop :=
| runs_ret a : runs (Ret a) [] (Ok a)
| runs_fail e : runs (Fail e) [] (Throw e)
| runs_do c k x h r : runs (k x) h r -> runs (Do c k) (Event c x :: h) r.

(** A run up to any point *)
Inductive reaches {A} : prog A -> list event -> Prop :=
| reaches_nil p : reaches p []
| reaches_do c k x h : reaches (k x) h -> reaches (Do c k) (Event c x :: h).

(** ** Verification conditions *)

(** Every call is allowed after the calls before it, and every end satisfies
    [Q]; [h] has the events so far, the last one first. *)
Fixpoint wp {A} (allowed : list event -> C -> Prop) (p : prog A) (h : list event)
    (Q : list event -> result A -> Prop) : Prop :=
  match p with
  | Ret a => Q h (Ok a)
  | Fail e => Q h (Throw e)
  | Do c k => allowed h c /\ forall x, wp allowed (k x) (Event c x :: h) Q
  end.

Lemma wp_mono {A} allowed (p : prog A) h (Q Q' : list event -> result A -> Prop) :
  (forall h r, Q h r -> Q' h r) -> wp allowed p h Q -> wp allowed p h Q'.
Proof.
  intros HQ. revert h; induction p as [a|e|c k IH]; intros h; cbn; [apply HQ..|].
  intros [Ha Hk]. split; [done|]. intros x. by apply IH, Hk.
Qed.

Lemma wp_and_then {A B} allowed (p : prog A) (f : A -> prog B) h Q :
  wp allowed p h (fun h r => match r with Ok a => wp allowed (f a) h Q | Throw e => Q h (Throw e) end) ->
  wp allowed (and_then p f) h Q.
Proof.
  revert h; induction p as [a|e|c k IH]; intros h; cbn; [done..|].
  intros [Ha Hk]. split; [done|]. intros x. by apply IH, Hk.
Qed.

Lemma wp_catch {A} allowed (p : prog A) handler h Q :
  wp allowed p h (fun h r => match r with Ok a => Q h (Ok a) | Throw e => wp allowed (handler e) h Q end) ->
  wp allowed (catch p handler) h Q.
Proof.
  revert h; induction p as [a|e|c k IH]; intros h; cbn; [done..|].
  intros [Ha Hk]. split; [done|]. intros x. by apply IH, Hk.
Qed.

(** A loop with an invariant over the state *)
Lemma wp_for_each {A S} allowed (body : A -> S -> prog S) (I : list event -> S -> Prop)
    (E : list event -> exn -> Prop) l : forall h s,
  I h s ->
  (forall x h s, x ∈ l -> I h s ->
     wp allowed (body x s) h (fun h r => match r with Ok s => I h s | Throw e => E h e end)) ->
  wp allowed (for_each_in body l s) h (fun h r => match r with Ok s => I h s | Throw e => E h e end).
Proof.
  induction l as [|x l IH]; intros h s Hs Hbody; [done|]. cbn [for_each_in].
  apply wp_and_then. eapply wp_mono; [|apply Hbody; [apply list_elem_of_here|done]].
  intros h' [s'|e]; [|done]. intros Hs'. apply IH; [done|]. intros y h'' s'' Hy.
  apply Hbody. by apply elem_of_cons; right.
Qed.

Lemma wp_attempt {A} allowed (p : prog A) h (Q : list event -> result (result A) -> Prop) :
  wp allowed p h (fun h r => Q h (Ok r)) -> wp allowed (attempt p) h Q.
Proof.
  revert h; induction p as [a|e|c k IH]; intros h; cbn; [done..|].
  intros [Ha Hk]. split; [done|]. intros x. by apply IH, Hk.
Qed.

Lemma wp_of_result {A} allowed (r : result A) h (Q : list event -> result A -> Prop) :
  Q h r -> wp allowed (of_result r) h Q.
Proof. by destruct r. Qed.

Lemma wp_and {A} allowed allowed' (p : prog A) h (Q Q' : list event -> result A -> Prop) :
  wp allowed p h Q -> wp allowed' p h Q' ->
  wp (fun h c => allowed h c /\ allowed' h c) p h (fun h r => Q h r /\ Q' h r).
Proof.
  revert h; induction p as [a|e|c k IH]; intros h; cbn; [done..|].
  intros [Ha Hk] [Ha' Hk']. split; [done|]. intros x. by apply IH.
Qed.

Lemma wp_weaken {A} (allowed allowed' : list event -> C -> Prop) (p : prog A) h Q :
  (forall h c, allowed h c -> allowed' h c) -> wp allowed p h Q -> wp allowed' p h Q.
Proof.
  intros Hw. revert h; induction p as [a|e|c k IH]; intros h; cbn; [done..|].
  intros [Ha Hk]. split; [by apply Hw|]. intros x. by apply IH.
Qed.

(** ** Programs that use some calls only *)

Fixpoint calls_only {A} (P : C -> Prop) (p : prog A) : Prop :=
  match p with
  | Ret _ | Fail _ => True
  | Do c k => P c /\ forall x, calls_only P (k x)
  end.

Section calls.
Context (P : C -> Prop).

Lemma calls_ret {A} (a : A) : calls_only P (Ret a).
Proof. done. Qed.
Lemma calls_fail {A} e : calls_only P (Fail (A := A) e).
Proof. done. Qed.
Lemma calls_call c : P c -> calls_only P (call c).
Proof. by intros H; split. Qed.

Lemma calls_and_then {A B} (p : prog A) (f : A -> prog B) :
  calls_only P p -> (forall a, calls_only P (f a)) -> calls_only P (and_then p f).
Proof.
  intros Hp Hf. induction p as [a|e|c k IH]; cbn in *; [apply Hf|done|].
  destruct Hp as [Hc Hk]. split; [done|]. intros x. by apply IH.
Qed.

Lemma calls_catch {A} (p : prog A) f :
  calls_only P p -> (forall e, calls_only P (f e)) -> calls_only P (catch p f).
Proof.
  intros Hp Hf. induction p as [a|e|c k IH]; cbn in *; [done|apply Hf|].
  destruct Hp as [Hc Hk]. split; [done|]. intros x. by apply IH.
Qed.

Lemma calls_attempt {A} (p : prog A) : calls_only P p -> calls_only P (attempt p).
Proof.
  intros Hp. induction p as [a|e|c k IH]; cbn in *; [done..|].
  destruct Hp as [Hc Hk]. split; [done|]. intros x. by apply IH.
Qed.

Lemma calls_of_result {A} (r : result A) : calls_only P (of_result r).
Proof. by destruct r. Qed.

Lemma calls_for_each {A S} (body : A -> S -> prog S) l s :
  (forall x s, calls_only P (body x s)) -> calls_only P (for_each_in body l s).
Proof.
  intros Hb. revert s; induction l as [|x l IH]; intros s; [done|].
  apply calls_and_then; [apply Hb|apply IH].
Qed.
End calls.

(** Such a program keeps what its calls keep, whatever it returns. *)
Lemma wp_calls {A} (P : C -> Prop) allowed (I : list event -> Prop) (p : prog A) h :
  calls_only P p ->
  (forall h c, I h -> P c -> allowed h c /\ forall x, I (Event c x :: h)) ->
  I h -> wp allowed p h (fun h _ => I h).
Proof.
  intros Hp HI. revert h; induction p as [a|e|c k IH]; intros h Hh; cbn in *; [done..|].
  destruct Hp as [Hc Hk]. destruct (HI h c Hh Hc) as [Ha Hx]. split; [done|]. intros x. by apply IH.
Qed.

(** *** Programs with a state that use some calls only *)

Section state_calls.
Context (P : C -> Prop).

Definition state_calls {S A} (p : stateful S A) : Prop := forall s, calls_only P (p s).

Lemma state_calls_returns {S A} (a : A) : state_calls (S := S) (returns a).
Proof. done. Qed.
Lemma state_calls_raises {S A} e : state_calls (S := S) (raises (A := A) e).
Proof. done. Qed.
Lemma state_calls_current {S} : state_calls (S := S) current.
Proof. done. Qed.
Lemma state_calls_modify {S} (f : S -> S) : state_calls (modify f).
Proof. done. Qed.
Lemma state_calls_lift {S A} (p : prog A) : calls_only P p -> state_calls (S := S) (lift p).
Proof. intros Hp s. apply calls_and_then; [by apply calls_attempt|done]. Qed.

Lemma state_calls_bind {S A B} (p : stateful S A) (f : A -> stateful S B) :
  state_calls p -> (forall a, state_calls (f a)) -> state_calls (bind_state p f).
Proof. intros Hp Hf s. apply calls_and_then; [apply Hp|]. intros [s' [a|e]]; [apply Hf|done]. Qed.

Lemma state_calls_catch {S A} (p : stateful S A) handler :
  state_calls p -> (forall e, state_calls (handler e)) -> state_calls (catch_state p handler).
Proof. intros Hp Hf s. apply calls_and_then; [apply Hp|]. intros [s' [a|e]]; [done|apply Hf]. Qed.

Lemma state_calls_for_each {S A} (body : A -> stateful S unit) l :
  (forall x, state_calls (body x)) -> state_calls (for_each_state body l).
Proof.
  intros Hb. induction l as [|x l IH]; cbn [for_each_state]; [done|].
  by apply state_calls_bind; [apply Hb|].
Qed.

Lemma state_calls_fold {S A B} (body : A -> B -> stateful S B) l :
  (forall x b, state_calls (body x b)) -> forall b, state_calls (fold_state body l b).
Proof.
  intros Hb. induction l as [|x l IH]; intros b; cbn [fold_state]; [done|].
  by apply state_calls_bind; [apply Hb|].
Qed.
End state_calls.

(** ** Conditions of programs with a state *)

Definition swp {S A} (allowed : list event -> C -> Prop) (p : stateful S A) (s : S) (h : list event)
    (Q : list event -> S -> result A -> Prop) : Prop :=
  wp allowed (p s) h (fun h r => match r with Ok (s, r) => Q h s r | Throw _ => False end).

Lemma swp_mono {S A} allowed (p : stateful S A) s h (Q Q' : list event -> S -> result A -> Prop) :
  (forall h s r, Q h s r -> Q' h s r) -> swp allowed p s h Q -> swp allowed p s h Q'.
Proof. intros HQ. apply wp_mono. intros h' [[s' r]|e]; [apply HQ|done]. Qed.

Lemma swp_wp {S A} allowed (p : stateful S A) s h (Q : list event -> result (S * result A) -> Prop) :
  swp allowed p s h (fun h s r => Q h (Ok (s, r))) -> wp allowed (p s) h Q.
Proof. apply wp_mono. by intros h' [[s' r]|e]. Qed.

Lemma swp_bind {S A B} allowed (p : stateful S A) (f : A -> stateful S B) s h Q :
  swp allowed p s h (fun h s r => match r with Ok a => swp allowed (f a) s h Q | Throw e => Q h s (Throw e) end) ->
  swp allowed (bind_state p f) s h Q.
Proof.
  intros Hp. apply wp_and_then. eapply wp_mono; [|exact Hp].
  intros h' [[s' [a|e]]|e]; cbn; done.
Qed.

Lemma swp_catch {S A} allowed (p : stateful S A) handler s h Q :
  swp allowed p s h (fun h s r => match r with Ok a => Q h s (Ok a) | Throw e => swp allowed (handler e) s h Q end) ->
  swp allowed (catch_state p handler) s h Q.
Proof.
  intros Hp. apply wp_and_then. eapply wp_mono; [|exact Hp].
  intros h' [[s' [a|e]]|e]; cbn; done.
Qed.

Lemma swp_returns {S A} allowed (a : A) (s : S) h Q : Q h s (Ok a) -> swp allowed (returns a) s h Q.
Proof. done. Qed.
Lemma swp_raises {S A} allowed e (s : S) h (Q : list event -> S -> result A -> Prop) :
  Q h s (Throw e) -> swp allowed (raises e) s h Q.
Proof. done. Qed.
Lemma swp_current {S} allowed (s : S) h Q : Q h s (Ok s) -> swp allowed current s h Q.
Proof. done. Qed.
Lemma swp_modify {S} allowed f (s : S) h Q : Q h (f s) (Ok tt) -> swp allowed (modify f) s h Q.
Proof. done. Qed.

Lemma swp_lift {S A} allowed (p : prog A) (s : S) h Q :
  wp allowed p h (fun h r => Q h s r) -> swp allowed (lift p) s h Q.
Proof. intros Hp. apply wp_and_then, wp_attempt. eapply wp_mono; [|exact Hp]. done. Qed.

Lemma swp_call {S} allowed c (s : S) h (Q : list event -> S -> result (R c) -> Prop) :
  allowed h c -> (forall x, Q (Event c x :: h) s (Ok x)) -> swp allowed (lift (call c)) s h Q.
Proof. intros Ha HQ. apply swp_lift. by split. Qed.

Lemma swp_for_each {S A} allowed (body : A -> stateful S unit) (I : list event -> S -> Prop)
    (E : list event -> S -> exn -> Prop) l : forall s h,
  I h s ->
  (forall x s h, x ∈ l -> I h s ->
     swp allowed (body x) s h (fun h s r => match r with Ok _ => I h s | Throw e => E h s e end)) ->
  swp allowed (for_each_state body l) s h
    (fun h s r => match r with Ok _ => I h s | Throw e => E h s e end).
Proof.
  induction l as [|x l IH]; intros s h Hs Hbody; [done|]. cbn [for_each_state].
  apply swp_bind. eapply swp_mono; [|apply Hbody; [apply list_elem_of_here|done]].
  intros h' s' [[]|e]; [|done]. intros Hs'. apply IH; [done|]. intros y s'' h'' Hy.
  apply Hbody. by apply elem_of_cons; right.
Qed.

(** *** Programs that keep a condition on history and state *)

Section kept.
Context {S : Type} (allowed : list event -> C -> Prop) (K : list event -> S -> Prop).

Definition kept {A} (p : stateful S A) : Prop :=
  forall s h, K h s -> swp allowed p s h (fun h s _ => K h s).

Lemma kept_returns {A} (a : A) : kept (returns a).
Proof. by intros s h HK. Qed.
Lemma kept_raises {A} e : kept (raises (A := A) e).
Proof. by intros s h HK. Qed.
Lemma kept_modify f : (forall h s, K h s -> K h (f s)) -> kept (modify f).
Proof. intros Hf s h HK. by apply Hf. Qed.

Lemma kept_bind {A B} (p : stateful S A) (f : A -> stateful S B) :
  kept p -> (forall a, kept (f a)) -> kept (bind_state p f).
Proof.
  intros Hp Hf s h HK. apply swp_bind. eapply swp_mono; [|by apply Hp].
  intros h' s' [a|e] HK'; [by apply Hf|done].
Qed.

(** What is known of the state is known of the snapshot. *)
Lemma kept_current {A} (f : S -> stateful S A) :
  (forall s h, K h s -> kept (f s)) -> kept (bind_state current f).
Proof. intros Hf s h HK. apply swp_bind, swp_current. by eapply Hf. Qed.

Lemma kept_catch {A} (p : stateful S A) handler :
  kept p -> (forall e, kept (handler e)) -> kept (catch_state p handler).
Proof.
  intros Hp Hf s h HK. apply swp_catch. eapply swp_mono; [|by apply Hp].
  intros h' s' [a|e] HK'; [done|by apply Hf].
Qed.

Lemma kept_for_each {A} (body : A -> stateful S unit) l :
  (forall x, x ∈ l -> kept (body x)) -> kept (for_each_state body l).
Proof.
  induction l as [|x l IH]; intros Hb; cbn [for_each_state]; [apply kept_returns|].
  apply kept_bind; [apply Hb, list_elem_of_here|]. intros _. apply IH.
  intros y Hy. apply Hb. by apply elem_of_cons; right.
Qed.

Lemma kept_fold {A B} (body : A -> B -> stateful S B) l :
  (forall x b, x ∈ l -> kept (body x b)) -> forall b, kept (fold_state body l b).
Proof.
  induction l as [|x l IH]; intros Hb b; cbn [fold_state]; [apply kept_returns|].
  apply kept_bind; [apply Hb, list_elem_of_here|]. intros b'. apply IH.
  intros y b'' Hy. apply Hb. by apply elem_of_cons; right.
Qed.

Lemma kept_lift {A} (p : prog A) :
  (forall s h, K h s -> wp allowed p h (fun h _ => K h s)) -> kept (lift p).
Proof. intros Hp s h HK. by apply swp_lift, Hp. Qed.

Lemma kept_lift_calls {A} (P : C -> Prop) (p : prog A) :
  (forall s h c, K h s -> P c -> allowed h c /\ forall x, K (Event c x :: h) s) ->
  calls_only P p -> kept (lift p).
Proof.
  intros HP Hp. apply kept_lift. intros s h HK.
  apply (wp_calls P allowed (fun h => K h s)); [done| |done]. intros h' c HK'. by apply HP.
Qed.
End kept.

Section local.
Context {S T : Type} (allowed : list event -> C -> Prop) (K : list event -> T -> Prop).
Abbreviation below := (fun h (s : S * T) => K h s.2).

Lemma kept_with_local {A} local (p : stateful (S * T) A) :
  kept allowed below p -> kept allowed K (with_local local p).
Proof.
  intros Hp s h HK. apply wp_and_then. eapply wp_mono; [|apply (Hp (local, s) h HK)].
  by intros h' [[[l s'] r]|e].
Qed.

Lemma kept_inner {A} (p : stateful T A) : kept allowed K p -> kept allowed below (inner p).
Proof.
  intros Hp [l s] h HK. apply wp_and_then. eapply wp_mono; [|apply (Hp s h HK)].
  by intros h' [[s' r]|e].
Qed.
End local.

(** ** What the conditions mean *)

Lemma wp_runs {A} allowed (p : prog A) h Q l r :
  wp allowed p h Q -> runs p l r -> Q (rev l ++ h) r.
Proof.
  intros Hwp Hr. revert h Hwp; induction Hr as [a|e|c k x l r Hr IH]; intros h Hwp; [done..|].
  cbn [wp rev] in *. destruct Hwp as [_ Hk]. rewrite <-app_assoc. by apply IH, Hk.
Qed.

Lemma wp_reaches {A} allowed (p : prog A) h Q l1 c x l2 :
  wp allowed p h Q -> reaches p (l1 ++ Event c x :: l2) -> allowed (rev l1 ++ h) c.
Proof.
  revert p h; induction l1 as [|ev l1 IH]; intros p h Hwp Hr; cbn [app rev] in *.
  - inversion Hr as [|c' k x' h' Hr' Hp Hl]; subst. by destruct Hwp.
  - inversion Hr as [|c' k x' h' Hr' Hp Hl]; subst. destruct Hwp as [_ Hk].
    rewrite <-app_assoc. by apply (IH (k x')), Hr'.
Qed.

(** ** A run in a given environment *)

(** Without an answer the run stops.  The events, the first one first *)
Fixpoint simulate {A} (env : list event -> forall c, option (R c)) (p : prog A) (h : list event)
    : list event * option (result A) :=
  match p with
  | Ret a => ([], Some (Ok a))
  | Fail e => ([], Some (Throw e))
  | Do c k =>
      match env h c with
      | Some x => let '(l, r) := simulate env (k x) (Event c x :: h) in (Event c x :: l, r)
      | None => ([], None)
      end
  end.

Lemma simulate_reaches {A} env (p : prog A) h : reaches p (simulate env p h).1.
Proof.
  revert h; induction p as [a|e|c k IH]; intros h; cbn; [constructor..|].
  destruct (env h c) as [x|]; [|constructor].
  pose proof (IH x (Event c x :: h)) as H. destruct (simulate env (k x) _). by constructor.
Qed.

Lemma simulate_runs {A} env (p : prog A) h r :
  (simulate env p h).2 = Some r -> runs p (simulate env p h).1 r.
Proof.
  revert h; induction p as [a|e|c k IH]; intros h; cbn; [intros [= <-]; constructor..|].
  destruct (env h c) as [x|]; [|done].
  pose proof (IH x (Event c x :: h)) as H. destruct (simulate env (k x) _) as [l o]; cbn [fst snd] in *. intros ->.
  constructor. by apply H.
Qed.

(** Any point of a run is before an allowed call or at an end. *)
Lemma wp_prefix {A} allowed (p : prog A) h Q l :
  wp allowed p h Q -> reaches p l -> (exists c, allowed (rev l ++ h) c) \/ (exists r, Q (rev l ++ h) r).
Proof.
  intros Hwp Hr. revert h Hwp; induction Hr as [p|c k x l Hr IH]; intros h Hwp; cbn [rev app].
  - destruct p as [a|e|c k]; cbn in Hwp; [right; by eexists..|left; exists c; apply Hwp].
  - destruct Hwp as [_ Hk]. rewrite <-app_assoc. by apply IH, Hk.
Qed.

Lemma reaches_take {A} (p : prog A) l n : reaches p l -> reaches p (take n l).
Proof.
  revert p l; induction n as [|n IH]; intros p l Hr; [constructor|].
  destruct Hr; cbn; constructor. by apply IH.
Qed.

Lemma runs_reaches {A} (p : prog A) l r : runs p l r -> reaches p l.
Proof. induction 1; by constructor. Qed.
End prog.
Arguments prog : clear implicits.
Arguments Ret {C R A} a.
Arguments Fail {C R A} e.
Arguments Do {C R A} c k.
Arguments event {C} R.

(** One step of a program with a state *)
Ltac state_step :=
  match goal with
  | |- swp _ (bind_state _ _) _ _ _ => apply swp_bind
  | |- swp _ (returns _) _ _ _ => apply swp_returns
  | |- swp _ (raises _) _ _ _ => apply swp_raises
  | |- swp _ current _ _ _ => apply swp_current
  | |- swp _ (modify _) _ _ _ => apply swp_modify
  | |- swp _ (catch_state _ _) _ _ _ => apply swp_catch
  end.
Ltac state_steps := cbv beta iota; repeat (state_step; cbv beta iota).
End Effects.
