(* ===== verification/Process.v ===== *)
(** * Owned processes (src/src/infra/process_resources.cpp)

    A process of the graph is known by its process identifier, its start time,
    and the path and digest of its executable.  It is signalled only behind a
    check of all of them, and it is started behind a gate that opens when the
    ledger has recorded it.

    The operations are programs over system calls ([Effects]).  [inspect_process]
    of src/src/infra/command_runner.cpp is the Linux one. *)

From Stdlib Require Import ZArith Lia Strings.Byte Strings.Ascii Strings.String.
From stdpp Require Import base option gmap strings list.
From S2P Require Import Prelude ConfigParse Text OwnershipState Effects.

Module Process.
Import Text OwnershipState Effects.
Local Open Scope Z_scope.

(** ** System calls *)

Inductive file_kind := file_directory | file_regular | file_link | file_socket | file_other.

Record metadata := {
  st_kind : file_kind; st_nlink : Z; st_mode : Z; st_uid : Z; st_gid : Z; st_size : Z; st_dev : Z; st_ino : Z;
  st_mtime : Z }.

Inductive lstat_answer := lstat_found (m : metadata) | lstat_missing | lstat_error.

(** [kill(pid, 0)]; absence is [ESRCH]. *)
Inductive probe_answer := probe_present | probe_absent | probe_denied.

(** [poll] on the pipe that [exec] closes *)
Inductive poll_answer := poll_ready | poll_interrupted | poll_failed.

(** What [fork] returns to the parent: no child is the idle or the first
    process, and [pid_t] is an [int]. *)
Record fork_answer := { fork_pid : Z; fork_range : (2 <=? fork_pid) && (fork_pid <=? 2147483647) = true }.

Record NativeProcessOptions := {
  o_id : string; o_argv : list string; o_environment : gmap string string; o_cwd : string;
  o_log : string; o_executable : string; o_network_namespace : string; o_namespace_inode : Z;
  o_guest_identity : bool; o_console_directory : string; o_log_bytes : Z; o_file_bytes_limit : Z }.

Inductive sys :=
  | Lstat (path : string)
  | Hash (path : string)                 (** [configuration_hash] *)
  | Waitpid (pid : Z)                    (** without waiting: a status, or nothing *)
  | Reap (pid : Z)                       (** waiting *)
  | ReadStat (pid : Z)                   (** the first line of /proc/PID/stat *)
  | ReadExe (pid : Z)                    (** the link /proc/PID/exe *)
  | Probe (pid : Z)
  | Signal (pid signal : Z)
  | Sleep (milliseconds : Z)
  | OpenExclusive (path : string)        (** whether a new file was opened *)
  | WriteSync (bytes : string)           (** whether all was written and synced *)
  | Rename (from to : string)            (** whether it succeeded *)
  | OpenDirectory (path : string) | SyncDirectory (path : string)
  | OpenLog (path : string)              (** opened for reading; its metadata *)
  | ReadOpen (path : string) (size : Z)
  | BindLoopback (port : Z)              (** a socket; whether it could be bound *)
  | Pipe | SetCloexec
  | OpenNamespace (path : string)        (** its inode *)
  | Fork (options : NativeProcessOptions)
  | ReleaseGate (pid : Z)
  | PollExec (pid : Z)
  | Now | Interrupted
  | Exists (path : string)
  | ReadDocument (path : string) (maximum : Z)
  | Remove (path : string)
  | EnsureRoot (path : string)           (** [ensure_state_root] *)
  | Healthy (port : Z)                   (** an HTTP request to the console *)
  | Command (argv : list string)
  | Save (s : OwnershipState)            (** [save_state]: the whole ledger, or an exception *)
  | RandomToken
  | ListDirectory (path : string)
  | CreateDirectory (path : string) | Chown (path : string) (uid gid : Z) | Chmod (path : string) (mode : Z)
  | Geteuid
  | CopyFile (from to : string)          (** [copy_file]: whether it copied *)
  | Load (path : string)                 (** [load_state] *)
  | ReadLink (path : string)
  | Getenv (name : string)
  | Print (text : string) | Log (text : string)
  | Cmd (argv : list string) (input : string)   (** [run_command] *)
  | ReadFile (path : string)             (** a whole file through a stream; nothing if it cannot be read *)
  | StatPath (path : string)             (** [stat], which follows links *)
  | OpenDirectoryFd (path : string)      (** a directory that is no link: its descriptor *)
  | Fstat (fd : Z) | Entries (fd : Z)
  | FstatAt (fd : Z) (name : string) | OpenAt (fd : Z) (name : string)
  | Pread (fd : Z) (offset size : Z) | Fchmod (fd mode : Z) | UnlinkAt (fd : Z) (name : string)
  | Mkdir (path : string) (mode : Z) | Rmdir (path : string)
  | Listing (path : string)              (** [directory_iterator]: the names, or an exception *)
  | Time                                 (** [std::time], in seconds *)
  | Monotonic                            (** nanoseconds *)
  | SpawnTimer (duration : Z) (interface : string) (ifindex : Z) (qdisc : string)
                                         (** the child of a fault, behind its gate *)
  | ReleaseTimer (pid : Z)
  | Exit (status : Z)                    (** [_exit] *)
  | LockExisting (path : string)         (** [OwnershipLock::open_existing], shared *)
  | LockExclusive (path : string)        (** [OwnershipLock::open_existing], exclusive *)
  | LockCreate (path : string)           (** [OwnershipLock::open_or_create], exclusive *)
  | CreateFile (path : string)           (** an exclusive new file: its descriptor *)
  | ReadNext (fd size : Z)               (** [read] *)
  | WriteNext (fd : Z) (bytes : string)  (** [write] *)
  | Fsync (fd : Z) | Unlink (path : string)
  | Account                              (** [getpwuid(65532)]: name and group *)
  | Group                                (** [getgrgid(65532)]: name *)
  | FileSize (path : string) | Canonical (path : string)
  | OpenStream                           (** [socket] of the Unix domain *)
  | StreamFlag (fd : Z) (nonblocking : bool)   (** [fcntl]: close-on-exec or non-blocking *)
  | ConnectStream (fd : Z) (path : string)
  | CloseStream (fd : Z)
  | PollStream (fd : Z) (output : bool)  (** for 50 milliseconds *)
  | StreamError (fd : Z)                 (** whether [SO_ERROR] is clear *)
  | StreamPeer (fd : Z)                  (** [SO_PEERCRED]: uid and pid *)
  | SendStream (fd : Z) (bytes : string) | ReceiveStream (fd size : Z)
  | RunFor (argv : list string) (input : string) (timeout : Z)
                                         (** [run_command] for so many milliseconds, ended by an interruption *)
  | Tree (path : string)                 (** [recursive_directory_iterator]: the relative paths *)
  | MakeDirectory (path : string)        (** [create_directory], or an exception *)
  | Permissions (path : string) (mode : Z)
  | WriteFile (path bytes : string)      (** through a stream that truncates; whether it is good *)
  | Handlers (installed : bool)          (** the handlers of signals, installed or as they were *)
  | ClearInterrupted
  | Getpid
  | Spinning.                            (** a loop went through all rounds of the model *)

Inductive connect_answer := connect_done | connect_later | connect_pending | connect_failed.
Inductive stream_poll := stream_quiet | stream_interrupted | stream_broken | stream_ready (wanted : bool).

(** What [run_command] returns *)
Record CommandResult := {
  c_status : Z; c_exec_error : Z; c_output : string; c_output_truncated : bool }.

(** [read] and [write] *)
Inductive transfer (A : Type) := bytes_moved (a : A) | transfer_interrupted | transfer_failed.
Arguments bytes_moved {A} a.
Arguments transfer_interrupted {A}.
Arguments transfer_failed {A}.

Definition answer (c : sys) : Type :=
  match c with
  | Lstat _ => lstat_answer
  | Hash _ | ReadDocument _ _ => result string
  | Waitpid _ => option Z
  | ReadStat _ | ReadExe _ | RandomToken | ReadLink _ => string
  | Probe _ => probe_answer
  | OpenExclusive _ | WriteSync _ | Rename _ _ | Pipe | SetCloexec | ReleaseGate _ | Interrupted
  | Exists _ | Healthy _ | CreateDirectory _ | Chown _ _ _ | Chmod _ _
  | OpenDirectory _ | SyncDirectory _ => bool
  | OpenLog _ => option (option metadata)
  | ReadOpen _ _ | Getenv _ => option string
  | BindLoopback _ => option bool
  | OpenNamespace _ => option Z
  | Fork _ => option fork_answer
  | PollExec _ => poll_answer
  | Now | Geteuid => Z
  | ListDirectory _ => list string
  | CopyFile _ _ => result bool
  | Load _ => result OwnershipState
  | Remove _ | EnsureRoot _ | LockExisting _ | LockExclusive _ | LockCreate _ | Save _ | Command _ => result unit
  | Reap _ | Signal _ _ | Sleep _ | Print _ | Log _ => unit
  | Cmd _ _ => result CommandResult
  | ReadFile _ => string
  | StatPath _ | Fstat _ | FstatAt _ _ => option metadata
  | OpenDirectoryFd _ | OpenAt _ _ => option Z
  | Entries _ => option (list string)
  | Pread _ _ _ => option string
  | Fchmod _ _ | UnlinkAt _ _ | Mkdir _ _ | Rmdir _ | ReleaseTimer _ => bool
  | Listing _ => result (list string)
  | Time => Z
  | Monotonic => option Z
  | SpawnTimer _ _ _ _ => option fork_answer
  | CreateFile _ => option Z
  | ReadNext _ _ => transfer string
  | WriteNext _ _ => transfer Z
  | Fsync _ => bool
  | Unlink _ => unit
  | Account => option (string * Z)
  | Group => option string
  | FileSize _ => result Z
  | Canonical _ => result string
  | OpenStream => option Z
  | StreamFlag _ _ | StreamError _ => bool
  | ConnectStream _ _ => connect_answer
  | CloseStream _ => unit
  | PollStream _ _ => stream_poll
  | StreamPeer _ => option (Z * Z)
  | SendStream _ _ => transfer Z
  | ReceiveStream _ _ => transfer string
  | RunFor _ _ _ => result CommandResult
  | Tree _ => result (list string)
  | MakeDirectory _ => result bool
  | Permissions _ _ => result unit
  | WriteFile _ _ => bool
  | Handlers _ | ClearInterrupted => unit
  | Getpid => Z
  | Exit _ | Spinning => Empty_set
  end.

Abbreviation Prog := (prog sys answer).
Abbreviation Event := (event answer).

Declare Scope prog_scope.
Delimit Scope prog_scope with prog.
Notation "'let!' x ':=' p 'in' k" := (and_then p (fun x => k))
  (at level 200, x pattern, p at level 100, k at level 200) : prog_scope.
Notation "p ;;; k" := (and_then p (fun _ => k))
  (at level 100, k at level 200, right associativity) : prog_scope.
#[local] Open Scope prog_scope.

Definition sys_call (c : sys) : Prog (answer c) := call c.

Definition throw {A} (text : string) : Prog A := Fail (RuntimeError text).

(** A call whose answer may be an exception *)
Definition checked {A} (p : Prog (result A)) : Prog A := let! r := p in of_result r.

(** A loop that did not end within the rounds of the model *)
Definition spinning {A} : Prog A :=
  let! x := sys_call Spinning in match (x : Empty_set) with end.

(** ** Paths *)

Fixpoint split_slash (s : string) : list string :=
  match s with
  | EmptyString => [""]
  | String "/" rest => "" :: split_slash rest
  | String c rest =>
      match split_slash rest with
      | [] => [String c ""]
      | x :: l => String c x :: l
      end
  end.

(** The components behind the root: separators may be repeated, and an empty
    component stands for a separator at the end. *)
Definition path_components (rest : string) : list string :=
  let l := split_slash rest in
  let names := filter (fun x => x <> "") l in
  if bool_decide (names = []) then []
  else names ++ (if bool_decide (last l = Some "") then [""] else []).

(** [path.is_absolute()] and [path.lexically_normal() == path], which compares
    components: none is [.] or [..] *)
Definition canonical_components (path : string) : option (list string) :=
  match path with
  | String "/" rest =>
      let l := path_components rest in
      if existsb (fun x => String.eqb x "." || String.eqb x "..") l then None else Some l
  | _ => None
  end.

(** [current /= component] for every component: the path up to each *)
Fixpoint extend_each (current : string) (l : list string) : list string :=
  match l with
  | [] => []
  | x :: l => let next := current +:+ "/" +:+ x in next :: extend_each next l
  end.

Definition safe_component (absent : bool) (current : string) : Prog unit :=
  let! details := sys_call (Lstat current) in
  match details with
  | lstat_missing =>
      if absent then Ret tt else throw ("E_EXECUTION_PATH: missing path " +:+ current)
  | lstat_error => throw ("E_EXECUTION_PATH: missing path " +:+ current)
  | lstat_found m =>
      match st_kind m with
      | file_directory => Ret tt
      | file_regular =>
          if st_nlink m =? 1 then Ret tt else throw ("E_EXECUTION_PATH: unsafe path " +:+ current)
      | _ => throw ("E_EXECUTION_PATH: unsafe path " +:+ current)
      end
  end.

Definition safe_execution_path (path : string) (absent : bool) : Prog unit :=
  match canonical_components path with
  | None => throw "E_EXECUTION_PATH: canonical absolute path required"
  | Some components =>
      for_each_in (fun current _ => safe_component absent current)
        ("/" :: extend_each "" components) tt
  end.

(** ** Observation *)

Definition newline : string := String "010" "".

Fixpoint split_words (s : string) : list string :=
  match s with
  | EmptyString => []
  | String c rest =>
      if is_space c then split_words rest
      else match rest with
           | EmptyString => [String c ""]
           | String d _ =>
               if is_space d then String c "" :: split_words rest
               else match split_words rest with
                    | [] => [String c ""]
                    | w :: l => String c w :: l
                    end
           end
  end.

Record ProcessIdentity := {
  start_time : string; process_command : string; process_name : string; executable : string;
  exited : bool }.

(** [std::replace] of null characters by spaces; the first line *)
Fixpoint spaced (s : string) : string :=
  match s with
  | EmptyString => ""
  | String c s => String (if bool_decide (c = "000"%char) then " "%char else c) (spaced s)
  end.
Definition first_line (s : string) : string :=
  match find newline s with Some n => stake n s | None => s end.

(** The line of /proc/PID/stat: behind the last parenthesis and a space come
    the state and the other fields; the start time is the twentieth of them. *)
Definition parse_stat (value : string) : bool * string :=
  match rfind ")" value with
  | None => (false, "")
  | Some close =>
      if (close + 2 <? String.length value)%nat then
        let fields := sdrop (close + 2) value in
        (bool_decide (String.get 0 fields = Some "Z"%char), nth 19 (split_words fields) "")
      else (false, "")
  end.

Definition inspect_process (pid : Z) : Prog ProcessIdentity :=
  let! command := sys_call (ReadFile ("/proc/" +:+ to_string pid +:+ "/cmdline")) in
  let! name := sys_call (ReadFile ("/proc/" +:+ to_string pid +:+ "/comm")) in
  let! executable := sys_call (ReadExe pid) in
  let! value := sys_call (ReadStat pid) in
  let '(exited, start_time) := parse_stat value in
  let unnamed := String.eqb executable "" && negb exited in
  Ret {| start_time := if unnamed then "" else start_time; process_command := spaced command;
         process_name := first_line name; executable := executable; exited := exited |}.

(** [a / b] on paths *)
Definition slash (a b : string) : string :=
  if String.prefix "/" b then b
  else if is_empty a || ends_with a "/" then a +:+ b else a +:+ "/" +:+ b.

Definition default_options (id : string) : NativeProcessOptions :=
  {| o_id := id; o_argv := []; o_environment := ∅; o_cwd := ""; o_log := ""; o_executable := "";
     o_network_namespace := ""; o_namespace_inode := 0; o_guest_identity := false;
     o_console_directory := ""; o_log_bytes := 2097152; o_file_bytes_limit := 0 |}.

(** ** Identity *)

(** [std::from_chars] into an [unsigned int] that must consume the text *)
Definition pid_of (resource : OwnedResourceIdentity) : option Z :=
  match r_stable_id resource, ConfigParse.digits 0 (r_stable_id resource) with
  | String _ _, Some pid => if (pid <? 2) || (2147483647 <? pid) then None else Some pid
  | _, _ => None
  end.

Definition process_id (resource : OwnedResourceIdentity) : Prog Z :=
  match pid_of resource with
  | Some pid => Ret pid
  | None => throw "E_PROCESS_IDENTITY: invalid process ID"
  end.

(** The path and the digest of an identity *)
Definition executable_of (resource : OwnedResourceIdentity) : option (string * string) :=
  match rfind newline (r_process_identity resource) with
  | Some split => Some (stake split (r_process_identity resource),
                        sdrop (split + 1) (r_process_identity resource))
  | None => None
  end.

(** The loop over short disappearances: the exit status, or an observation *)
Fixpoint observe_again (attempts : nat) (pid : Z) (observed : ProcessIdentity)
    : Prog (option Z + ProcessIdentity) :=
  match attempts with
  | O => Ret (inr observed)
  | S attempts =>
      if negb (String.eqb (start_time observed) "") || exited observed then Ret (inr observed)
      else
        let! status := sys_call (Waitpid pid) in
        match status with
        | Some status => Ret (inl (Some status))
        | None =>
            let! present := sys_call (Probe pid) in
            match present with
            | probe_absent => Ret (inl None)
            | _ =>
                sys_call (Sleep 1);;;
                let! observed := inspect_process pid in
                observe_again attempts pid observed
            end
        end
  end.

(** Whether the process runs with exactly this identity, and its exit status
    or -1; [want_status] is whether the caller asks for the status. *)
Definition native_process_status (resource : OwnedResourceIdentity) (want_status : bool)
    : Prog (bool * Z) :=
  let! pid := process_id resource in
  let! status := sys_call (Waitpid pid) in
  match status with
  | Some status => Ret (false, status)
  | None =>
      let! observed := inspect_process pid in
      let! again := observe_again 25 pid observed in
      match again with
      | inl (Some status) => Ret (false, status)
      | inl None => Ret (false, -1)
      | inr observed =>
          if exited observed then
            (if want_status then
               let! status := sys_call (Waitpid pid) in
               Ret (false, default (-1) status)
             else Ret (false, -1))
          else if String.eqb (start_time observed) "" then
            let! present := sys_call (Probe pid) in
            match present with
            | probe_absent => Ret (false, -1)
            | _ => throw "E_PROCESS_IDENTITY: process identity unavailable"
            end
          else
            match executable_of resource with
            | Some (path, digest) =>
                if negb (String.eqb (start_time observed) (r_secondary_id resource))
                   || negb (String.eqb (executable observed) path)
                then throw "E_PROCESS_IDENTITY: process substitution; nothing signalled"
                else
                  safe_execution_path path false;;;
                  let! hash := checked (sys_call (Hash path)) in
                  if negb (String.eqb hash digest)
                  then throw "E_PROCESS_IDENTITY: executable changed; nothing signalled"
                  else Ret (true, -1)
            | None => throw "E_PROCESS_IDENTITY: process substitution; nothing signalled"
            end
      end
  end.

(** ** Stopping *)

Definition SIGKILL : Z := 9.
Definition SIGTERM : Z := 15.

Definition exited_after_signal (resource : OwnedResourceIdentity) : Prog bool :=
  catch (let! status := native_process_status resource false in Ret (negb status.1))
    (fun e => if bool_decide (what e = "E_PROCESS_IDENTITY: process identity unavailable")
              then Ret false else Fail e).

(** [for (attempt < attempts) { if (exited) return; sleep }]: whether it exited *)
Fixpoint await_exit (attempts : nat) (resource : OwnedResourceIdentity) : Prog bool :=
  match attempts with
  | O => Ret false
  | S attempts =>
      let! exited := exited_after_signal resource in
      if exited : bool then Ret true else sys_call (Sleep 20);;; await_exit attempts resource
  end.

Definition stop_native_process (resource : OwnedResourceIdentity) : Prog unit :=
  let! pid := process_id resource in
  let! status := native_process_status resource false in
  if negb status.1 then Ret tt
  else
    sys_call (Signal pid SIGTERM);;;
    let! exited := await_exit 100 resource in
    if exited : bool then Ret tt
    else
      let! status := native_process_status resource false in
      (if status.1 then sys_call (Signal pid SIGKILL) else Ret tt);;;
      let! exited := await_exit 100 resource in
      if exited : bool then Ret tt
      else throw "E_PROCESS_TIMEOUT: owned process did not stop".

(** ** Files *)

Definition read_process_log (path : string) (maximum : Z) : Prog string :=
  safe_execution_path path false;;;
  let! opened := sys_call (OpenLog path) in
  match opened with
  | None => throw "E_PROCESS_LOG: cannot open log snapshot"
  | Some None => throw "E_PROCESS_LOG: expected bounded regular log"
  | Some (Some m) =>
      if negb (match st_kind m with file_regular => true | _ => false end)
         || negb (st_nlink m =? 1) || (st_size m <? 0) || (maximum <? st_size m)
      then throw "E_PROCESS_LOG: expected bounded regular log"
      else
        let! bytes := sys_call (ReadOpen path (st_size m)) in
        match bytes with
        | Some bytes => Ret bytes
        | None => throw "E_PROCESS_LOG: cannot read log snapshot"
        end
  end.

Definition require_available_tcp_port (port : Z) : Prog unit :=
  let! bound := sys_call (BindLoopback port) in
  match bound with
  | None => throw "E_LISTENER: cannot inspect console port"
  | Some false => throw "E_LISTENER_BUSY: console port is occupied"
  | Some true => Ret tt
  end.

Definition parent_path (s : string) : string :=
  match rfind "/" s with Some n => stake n s | None => "" end.

Definition publish_execution_file (path bytes : string) : Prog unit :=
  safe_execution_path path true;;;
  let! opened := sys_call (OpenExclusive (path +:+ ".pending")) in
  if negb opened then throw "E_EXECUTION_FILE: exclusive publication failed"
  else
    let! written := sys_call (WriteSync bytes) in
    let! renamed := (if written : bool then sys_call (Rename (path +:+ ".pending") path) else Ret false) in
    if negb renamed then throw "E_EXECUTION_FILE: publication failed; retained pending file"
    else
      let! directory := sys_call (OpenDirectory (parent_path path)) in
      if negb directory then throw "E_EXECUTION_FILE: cannot open publication directory"
      else
        let! synced := sys_call (SyncDirectory (parent_path path)) in
        if negb synced then throw "E_EXECUTION_FILE: cannot sync publication directory"
        else Ret tt.

(** ** Starting *)

Definition native_resource (options : NativeProcessOptions) (pid : Z) (start digest : string)
    : OwnedResourceIdentity :=
  OwnershipState.process_identity "native" (o_id options) (to_string pid) start
    (o_executable options +:+ newline +:+ digest) "" "".

(** The checks and descriptors before the fork: the digest of the executable *)
Definition prepare_process (options : NativeProcessOptions) : Prog string :=
  safe_execution_path (o_executable options) false;;;
  safe_execution_path (o_cwd options) false;;;
  safe_execution_path (o_log options) true;;;
  let! digest := checked (sys_call (Hash (o_executable options))) in
  let! log := sys_call (OpenExclusive (o_log options)) in
  if negb log then throw "E_PROCESS_LOG: exclusive log creation failed"
  else
    let! gate := sys_call Pipe in
    if negb gate then throw "E_PROCESS_START: cannot create registration gate"
    else
      let! executed := sys_call Pipe in
      if negb executed then throw "E_PROCESS_START: cannot create exec confirmation pipe"
      else
        let! configured := sys_call SetCloexec in
        if negb configured then throw "E_PROCESS_START: cannot configure exec confirmation pipe"
        else if String.eqb (o_network_namespace options) "" then Ret digest
        else
          let! inode := sys_call (OpenNamespace (o_network_namespace options)) in
          if bool_decide (inode = Some (o_namespace_inode options)) then Ret digest
          else throw "E_NAMESPACE_IDENTITY: cannot enter replaced namespace".

(** From the opened gate to the confirmation of [exec] *)
Definition release_process (pid : Z) : Prog unit :=
  let! released := sys_call (ReleaseGate pid) in
  if negb released then throw "E_PROCESS_START: gate failed"
  else
    let! confirmed := sys_call (PollExec pid) in
    match confirmed with
    | poll_ready => Ret tt
    | poll_interrupted =>
        throw "E_INTERRUPTED: process startup interrupted before exec confirmation"
    | poll_failed => throw "E_PROCESS_START: exec confirmation timed out"
    end.

Declare Scope stateful_scope.
Delimit Scope stateful_scope with stateful.
Notation "'do!' x ':=' p 'in' k" := (bind_state p (fun x => k))
  (at level 200, x pattern, p at level 100, k at level 200) : stateful_scope.
Notation "p ;;; k" := (bind_state p (fun _ => k))
  (at level 100, k at level 200, right associativity) : stateful_scope.

(** [register_identity] changes the ledger of the caller. *)
Definition start_native_process {S} (options : NativeProcessOptions)
    (register_identity : OwnedResourceIdentity -> stateful S unit)
    : stateful S OwnedResourceIdentity := (
  do! digest := lift (prepare_process options) in
  do! child := lift (sys_call (Fork options)) in
  match child with
  | None => raises (RuntimeError "E_PROCESS_START: fork failed")
  | Some child =>
      let pid := fork_pid child in
      do! observed := lift (inspect_process pid) in
      let resource := native_resource options pid (start_time observed) digest in
      catch_state
        ((if String.eqb (r_secondary_id resource) ""
          then raises (RuntimeError "E_PROCESS_IDENTITY: unavailable") else returns tt);;;
         register_identity resource;;;
         lift (release_process pid);;;
         returns resource)
        (fun e =>
           lift (sys_call (Signal pid SIGKILL));;;
           lift (sys_call (Reap pid));;;
           raises e)
  end)%stateful.

(** ** The child *)

(** What the forked child does before the program runs.  An exit is [None]. *)
Inductive child_call :=
  | ReadGate                             (** the byte, if one came *)
  | Setns (path : string) | NoNewPrivileges | Setsid | Chdir (path : string)
  | ExecDescriptor                       (** the descriptor of the confirmation pipe *)
  | OpenConsole (path : string)          (** at descriptor 198, not closed by [exec] *)
  | Umask (mask : Z) | DropGroups | Setgid (gid : Z) | Setuid (uid : Z)
  | RedirectStandard                     (** null, log, log *)
  | CloseDescriptors (kept_console : bool)
  | LimitFileSize (bytes : Z) | DefaultSignals
  | Execve (argv : list string) (environment : list string).

Definition child_answer (c : child_call) : Type :=
  match c with
  | ReadGate => option ascii
  | ExecDescriptor => Z
  | Umask _ | CloseDescriptors _ | DefaultSignals | Execve _ _ => unit
  | _ => bool
  end.

Abbreviation Child := (prog child_call child_answer).

Definition child_do (c : child_call) : Child (child_answer c) := call c.

(** Goes on when the call succeeded, else [_exit(125)] *)
Definition required (p : Child bool) (k : Child Z) : Child Z :=
  let! ok := p in if ok : bool then k else Ret 125.

Definition when (b : bool) (p : Child Z -> Child Z) (k : Child Z) : Child Z := if b then p k else k.

(** The child in the order of its steps: the exit status *)
Definition child (o : NativeProcessOptions) : Child Z :=
  let! release := child_do ReadGate in
  if negb (bool_decide (release = Some "R"%char)) then Ret 125
  else
    when (negb (String.eqb (o_network_namespace o) ""))
      (fun k => required (child_do (Setns (o_network_namespace o)))
                  (required (child_do NoNewPrivileges) k))
    (required (child_do Setsid)
    (required (child_do (Chdir (o_cwd o)))
    (when (negb (String.eqb (o_console_directory o) ""))
      (fun k =>
         let! descriptor := child_do ExecDescriptor in
         if negb (o_guest_identity o) || (descriptor =? 198) then Ret 125
         else required (child_do (OpenConsole (o_console_directory o))) k)
    (when (o_guest_identity o)
      (fun k =>
         child_do (Umask 63);;;
         required (child_do DropGroups)
         (required (child_do (Setgid 65532))
         (required (child_do (Setuid 65532))
         (required (child_do NoNewPrivileges) k))))
    (required (child_do RedirectStandard)
    (child_do (CloseDescriptors (negb (String.eqb (o_console_directory o) "")));;;
    when (negb (o_file_bytes_limit o =? 0))
      (fun k => required (child_do (LimitFileSize (o_file_bytes_limit o))) k)
    (child_do DefaultSignals;;;
     child_do (Execve (o_argv o)
       (map (fun kv => kv.1 +:+ "=" +:+ kv.2) (sorted_pairs (o_environment o))));;;
     Ret 127))))))).
End Process.
