(* ===== verification/Native.v ===== *)
(** * Native execution (src/src/execution.cpp, src/src/infra/node_console.cpp,
    src/src/infra/application_lifecycle.hpp)

    [graphx run up | status | down] for a graph whose nodes are processes of
    this host: the processes are started in the order of the plan, each becomes
    ready, and then the release barrier lets them all communicate.  The ledger
    is the state of the program; it survives an exception, as [state] does in
    the code. *)

From Stdlib Require Import ZArith Lia Strings.Byte Strings.Ascii Strings.String.
From stdpp Require Import base option gmap strings list.
From S2P Require Import Prelude ConfigValue ConfigNetwork Text OwnershipState Effects Process.

Module Native.
Import Text OwnershipState ConfigValue Effects Process.
Local Open Scope Z_scope.

(** ** application_lifecycle.hpp *)

(** [offset == 0 || log[offset - 1] == '\n'] and the same behind the marker *)
Definition starts_line (log : string) (offset : nat) : bool :=
  match offset with O => true | S p => bool_decide (String.get p log = Some "010"%char) end.
Definition ends_line (log : string) (end_ : nat) : bool :=
  (end_ =? String.length log)%nat || bool_decide (String.get end_ log = Some "010"%char).

Fixpoint ready_from (fuel offset : nat) (marker log : string) : bool :=
  match fuel with
  | O => false
  | S fuel =>
      match find_from offset marker log with
      | None => false
      | Some offset =>
          let end_ := (offset + String.length marker)%nat in
          if starts_line log offset && ends_line log end_ then true
          else ready_from fuel end_ marker log
      end
  end.

(** Every round of the loop goes on behind a marker, which is not empty. *)
Definition application_ready (log name : string) : bool :=
  ready_from (S (String.length log)) 0 ("ready node=" +:+ name) log.

Definition available_startup (graph : Value) : result bool :=
  if contains graph "lifecycle" then
    let* lifecycle := at_ graph "lifecycle" in
    let* startup := text_at lifecycle "startup" in Ok (String.eqb startup "available")
  else Ok false.

Definition application_readiness_ms (graph : Value) : result Z :=
  if contains graph "lifecycle" then
    let* lifecycle := at_ graph "lifecycle" in integer_at lifecycle "readiness_ms"
  else Ok 30000.

Definition unavailable_exit (code : Z) (container : bool) : bool :=
  (code =? 0) || (code =? 75) || (container && (128 <? code) && (code <=? 159)).

Record StatusCount := { count : Z; radios : Z; processor : bool; needs_processor : bool }.

Definition count_status (live : gmap string bool) (node : Value) (c : StatusCount)
    : result StatusCount :=
  let* id := text_at node "node_id" in
  let running := default false (live !! id) in
  let* type := text_at node "type" in
  let is_processor := String.eqb type "vita.processor" in
  Ok {| count := count c + Z.b2z running;
        radios := radios c + (if String.eqb type "vita.radio" then Z.b2z running else 0);
        processor := processor c || (is_processor && running);
        needs_processor := needs_processor c || is_processor |}.

Definition application_status (graph : Value) (live : gmap string bool) : result string :=
  let* nodes := array_at graph "nodes" in
  let* c := fold_result (count_status live) nodes
              {| count := 0; radios := 0; processor := false; needs_processor := false |} in
  if (count c =? 0) || (needs_processor c && (negb (processor c) || (radios c =? 0)))
  then Ok "unavailable"
  else Ok (if count c =? Z.of_nat (length nodes) then "ready" else "degraded").

(** The macros of sys/wait.h *)
Definition WIFEXITED (status : Z) : bool := Z.land status 127 =? 0.
Definition WEXITSTATUS (status : Z) : Z := Z.land (Z.shiftr status 8) 255.
Definition WIFSIGNALED (status : Z) : bool :=
  negb (Z.land status 127 =? 0) && negb (Z.land status 127 =? 127).

(** The condition under which a stopped application fails the startup *)
Definition unclassified (status : Z) : bool :=
  (status <? 0)
  || (negb (WIFSIGNALED status)
      && (negb (WIFEXITED status) || negb (unavailable_exit (WEXITSTATUS status) false))).

(** ** The ledger *)

Definition rebuild (s : OwnershipState) (acts : list OwnedScenarioAction)
    (directory identity hash graph token stat : string) (apps sockets : gmap string string)
    (name : string) (inode device : Z) (ps : list OwnedResourceIdentity) : OwnershipState :=
  {| actions := acts; credential_directory := directory; credential_identity := identity;
     graph_id := graph; config_hash := hash; owner_token := token; status := stat;
     applications := apps; console_sockets := sockets; console_name := name;
     console_inode := inode; console_device := device; handoff_name := handoff_name s;
     handoff_inode := handoff_inode s; handoff_device := handoff_device s;
     expected_bridges := expected_bridges s; bridges := bridges s;
     expected_endpoints := expected_endpoints s; endpoints := endpoints s;
     expected_namespaces := expected_namespaces s; namespaces := namespaces s;
     expected_captures := expected_captures s; captures := captures s;
     expected_faults := expected_faults s; faults := faults s; processes := ps |}.

Definition set_run (stat : string) (apps : gmap string string) (ps : list OwnedResourceIdentity)
    (s : OwnershipState) : OwnershipState :=
  rebuild s (actions s) (credential_directory s) (credential_identity s) (config_hash s) (graph_id s)
    (owner_token s) stat apps (console_sockets s) (console_name s) (console_inode s)
    (console_device s) ps.

Definition set_status (stat : string) (s : OwnershipState) : OwnershipState :=
  set_run stat (applications s) (processes s) s.
Definition set_processes (ps : list OwnedResourceIdentity) (s : OwnershipState) : OwnershipState :=
  set_run (status s) (applications s) ps s.
Definition set_application (name value : string) (s : OwnershipState) : OwnershipState :=
  set_run (status s) (<[name := value]> (applications s)) (processes s) s.
Definition push_process (p : OwnedResourceIdentity) (s : OwnershipState) : OwnershipState :=
  set_processes (processes s ++ [p]) s.
Definition pop_process (s : OwnershipState) : OwnershipState :=
  set_processes (removelast (processes s)) s.

Definition set_credentials (directory identity : string) (s : OwnershipState) : OwnershipState :=
  rebuild s [] directory identity (config_hash s) (graph_id s) (owner_token s) (status s)
    (applications s) (console_sockets s) (console_name s) (console_inode s) (console_device s)
    (processes s).

Definition set_console (name : string) (inode device : Z) (s : OwnershipState) : OwnershipState :=
  rebuild s (actions s) (credential_directory s) (credential_identity s) (config_hash s) (graph_id s)
    (owner_token s) (status s) (applications s) ∅ name inode device (processes s).

Definition empty_state : OwnershipState :=
  {| actions := []; credential_directory := ""; credential_identity := ""; graph_id := "";
     config_hash := ""; owner_token := ""; status := ""; applications := ∅; console_sockets := ∅;
     console_name := ""; console_inode := 0; console_device := 0; handoff_name := "";
     handoff_inode := 0; handoff_device := 0; expected_bridges := []; bridges := [];
     expected_endpoints := []; endpoints := []; expected_namespaces := []; namespaces := [];
     expected_captures := []; captures := []; expected_faults := []; faults := [];
     processes := [] |}.

Abbreviation Run := (stateful (C := sys) (R := answer) OwnershipState).
#[local] Open Scope stateful_scope.

Definition sys_run (c : sys) : Run (answer c) := lift (sys_call c).
Definition save : Run unit := do! s := current in lift (checked (sys_call (Save s))).
Definition fail {A} (text : string) : Run A := raises (RuntimeError text).
Definition pure {A} (r : result A) : Run A := lift (of_result r).

Record ExecutionOptions := {
  x_action : string; x_scenario_action : string; x_allow_privileged : bool; x_owner_token : string;
  x_output : string; x_state_root : string; x_release : string; x_credentials : string;
  x_images : string; x_external_credentials : string }.

Definition with_program (id executable cwd log : string) (argv : list string)
    (environment : gmap string string) : NativeProcessOptions :=
  let o := default_options id in
  {| o_id := id; o_argv := argv; o_environment := environment; o_cwd := cwd; o_log := log;
     o_executable := executable; o_network_namespace := o_network_namespace o;
     o_namespace_inode := o_namespace_inode o; o_guest_identity := o_guest_identity o;
     o_console_directory := o_console_directory o; o_log_bytes := o_log_bytes o;
     o_file_bytes_limit := o_file_bytes_limit o |}.

(** The processes register in the ledger, which is saved before the gate opens. *)
Definition register (p : OwnedResourceIdentity) : Run unit := modify (push_process p);;; save.

(** ** The console (node_console.cpp) *)

Section Console.

(** [directory_identity] *)
Definition directory_identity (path : string) (state : OwnershipState) : Prog unit :=
  (let! _ := safe_execution_path path false in
   let! details := sys_call (Lstat path) in
   let! euid := sys_call Geteuid in
   match details with
   | lstat_found m =>
       if match st_kind m with file_directory => true | _ => false end
          && (st_uid m =? euid) && (st_ino m =? console_inode state)
          && (st_dev m =? console_device state)
       then Ret tt else throw "E_CONSOLE_IDENTITY: directory replaced"
   | _ => throw "E_CONSOLE_IDENTITY: directory replaced"
   end)%prog.

(** A file that may be left in the directory of a console *)
Definition retained_file (sockets : gmap string string) (name : string) (m : metadata) (euid : Z)
    : bool :=
  match st_kind m with
  | file_regular =>
      (st_nlink m =? 1) && (st_uid m =? euid)
      && (ends_with name ".json" || ends_with name ".boot" || String.eqb name "relay.log"
          || String.eqb name "relay.bin")
  | file_socket =>
      let node := if (5 <? String.length name)%nat then stake (String.length name - 5) name else "" in
      (st_uid m =? 65532) && ends_with name ".sock"
      && bool_decide (sockets !! node = Some (to_string (st_dev m) +:+ ":" +:+ to_string (st_ino m)))
  | _ => false
  end.

Definition check_retained (previous : string) (state : OwnershipState) (name : string) (_ : unit)
    : Prog unit :=
  (let! details := sys_call (Lstat (slash previous name)) in
   match details with
   | lstat_found m =>
       let! euid := sys_call Geteuid in
       if retained_file (console_sockets state) name m euid then Ret tt
       else throw "E_CONSOLE_IDENTITY: unexpected retained file"
   | _ => throw "E_CONSOLE_IDENTITY: unexpected retained file"
   end)%prog.

Definition remove_entry (path : string) : Prog unit := checked (sys_call (Remove path)).

(** The directory of the previous run is removed if it holds nothing else. *)
Definition remove_console (previous : string) (state : OwnershipState) : Prog unit :=
  (let! _ := directory_identity previous state in
   let! names := sys_call (ListDirectory previous) in
   let! _ := for_each_in (check_retained previous state) names tt in
   let! names := sys_call (ListDirectory previous) in
   let! _ := for_each_in (fun name _ => remove_entry (slash previous name)) names tt in
   remove_entry previous)%prog.

(** Creates the directory: its inode and device *)
Definition create_console (path : string) : Prog (Z * Z) :=
  (let! created := sys_call (CreateDirectory path) in
   if negb created then throw "console directory collision"
   else
     let! euid := sys_call Geteuid in
     let! owned := (if euid =? 0 then sys_call (Chown path 0 65532) else Ret true) in
     if negb owned then throw "cannot assign console group"
     else
       let! euid := sys_call Geteuid in
       let! moded := sys_call (Chmod path (if euid =? 0 then 504 else 493)) in
       if negb moded then throw "cannot set console permissions"
       else
         let! details := sys_call (Lstat path) in
         match details with
         | lstat_found m => Ret (st_ino m, st_dev m)
         | _ => throw "cannot inspect console directory"
         end)%prog.

Definition prepare_node_console (root : string) : Run unit :=
  do! state := current in
  (if is_empty (console_name state) then returns tt
   else lift (remove_console (slash root (console_name state)) state));;;
  do! token := sys_run RandomToken in
  let name := "console-" +:+ token in
  modify (set_console name 0 0);;;
  save;;;
  do! created := lift (create_console (slash root name)) in
  modify (set_console name created.1 created.2);;;
  save.

(** Copies the running program beside the console for a graph without a release *)
Definition stage_relay (executable copy : string) : Prog unit :=
  (let! digest := checked (sys_call (Hash executable)) in
   let! copied := checked (sys_call (CopyFile executable copy)) in
   let! same := (if copied : bool
                 then let! hash := checked (sys_call (Hash copy)) in Ret (String.eqb hash digest)
                 else Ret false) in
   let! moded := (if same : bool then sys_call (Chmod copy 365) else Ret false) in
   if moded : bool then Ret tt
   else throw "E_CONSOLE_IDENTITY: cannot stage stable relay executable")%prog.

Definition inherited_variables : list string :=
  ["DOCKER_HOST"; "DOCKER_CONTEXT"; "DOCKER_CONFIG"; "HOME"].

Definition inherit (key : string) (environment : gmap string string) : Prog (gmap string string) :=
  (let! value := sys_call (Getenv key) in
   Ret match value with Some value => <[key := value]> environment | None => environment end)%prog.

Definition start_node_console (options : ExecutionOptions) : Run unit :=
  do! state := current in
  let root := slash (slash (x_state_root options) (graph_id state)) (console_name state) in
  do! self := sys_run (ReadLink "/proc/self/exe") in
  do! executable :=
    (if is_empty (x_release options)
     then lift (stage_relay self (slash root "relay.bin"));;; returns (slash root "relay.bin")
     else returns (slash (x_release options) "bin/graphx")) in
  do! path := sys_run (Getenv "PATH") in
  do! environment := lift (for_each_in inherit inherited_variables
                             {["PATH" := default "/usr/bin:/bin" path]}) in
  do! _ := start_native_process
    (with_program "mg-node-console" executable (x_output options) (slash root "relay.log")
       [executable; "run"; "console-relay"; "--output"; x_output options; "--state-root";
        x_state_root options; "--owner"; owner_token state] environment)
    register in
  returns tt.
End Console.

(** ** execution.cpp *)

Section Execution.
(** [parse_document] of src/src/config_document.cpp reads a configuration; it
    is here any function.  [runtime_types] is the list the build embeds.
    [rounds] bounds the rounds of a waiting loop: a loop that needs more ends
    the run with [Spinning], which has no answer. *)
Context (parse_document : string -> result Value) (runtime_types : Array) (rounds : nat)
  (opts : ExecutionOptions) (resolved : Value) (config_hash : string).

Definition checkpoint : Prog unit :=
  (let! interrupted := sys_call Interrupted in
   if interrupted : bool then throw "E_INTERRUPTED: startup interrupted before release"
   else Ret tt)%prog.

Definition document (path : string) : Prog Value :=
  (let! _ := safe_execution_path path false in
   let! bytes := checked (sys_call (ReadDocument path (16 * 1024 * 1024))) in
   of_result (parse_document bytes))%prog.

Definition command (argv : list string) : Prog unit := checked (sys_call (Command argv)).

Section Graph.
Context (id : string).
Definition state_directory : string := slash (x_state_root opts) id.
Definition state_file : string := slash state_directory "ownership.yml".
Definition barrier : string := slash state_directory "barriers/release".
Definition log_path (name : string) : string := slash (slash state_directory "logs") (name +:+ ".log").

(** The ledger on disk if it is this graph's, or a new one *)
Definition open_ledger : Prog OwnershipState :=
  (let! exists_ := sys_call (Exists state_file) in
   if exists_ : bool then
     let! state := checked (sys_call (Load state_file)) in
     if negb (String.eqb (graph_id state) id)
        || negb (String.eqb (OwnershipState.config_hash state) config_hash)
     then throw "E_EXECUTION_IDENTITY: state belongs to another compiled graph"
     else Ret state
   else
     let! token := sys_call RandomToken in
     Ret (rebuild empty_state [] "" "" config_hash id token "creating" ∅ ∅ "" 0 0 []))%prog.

Definition remove_barrier (token : string) : Prog unit :=
  (let! exists_ := sys_call (Exists barrier) in
   if exists_ : bool then
     let! _ := safe_execution_path barrier false in
     let! bytes := checked (sys_call (ReadDocument barrier 128)) in
     if negb (String.eqb bytes token)
     then throw "E_EXECUTION_IDENTITY: release barrier identity mismatch"
     else remove_entry barrier
   else Ret tt)%prog.

(** *** Stopping *)

Definition running (p : OwnedResourceIdentity) : Prog bool :=
  (let! status := native_process_status p false in Ret status.1)%prog.

(** Every process is observed once before the first is stopped; an observation
    that fails is repeated until the deadline. *)
Fixpoint validate_inventory (rounds : nat) (deadline : Z) (ps : list OwnedResourceIdentity)
    : Prog unit :=
  match rounds with
  | O => spinning
  | S rounds =>
      let! outcome := attempt (for_each_in (fun p _ =>
                        let! _ := running p in Ret tt) ps tt) in
      match outcome with
      | Ok _ => Ret tt
      | Throw e =>
          let! now := sys_call Now in
          if deadline <=? now then Fail e
          else let! _ := sys_call (Sleep 20) in validate_inventory rounds deadline ps
      end
  end%prog.

(** [while (!state.processes.empty()) { stop back; pop; save }] *)
Fixpoint stop_processes (n : nat) : Run unit :=
  match n with
  | O => returns tt
  | S n =>
      do! s := current in
      match last (processes s) with
      | None => returns tt
      | Some p =>
          lift (stop_native_process p);;;
          modify pop_process;;;
          save;;;
          stop_processes n
      end
  end.

Definition stop : Run unit :=
  do! start := sys_run Now in
  do! s := current in
  lift (validate_inventory rounds (start + 500) (processes s));;;
  lift (remove_barrier (owner_token s));;;
  modify (set_status "destroying");;;
  save;;;
  stop_processes (length (processes s)).

(** *** Status *)

Definition yes_no (b : bool) (yes no : string) : string := if b then yes else no.

(** The line of one process: whether the platform and which applications live *)
Definition report_application (state : OwnershipState) (p : OwnedResourceIdentity)
    (s : gmap string bool * bool) : Prog (gmap string bool * bool) :=
  (let! run := running p in
   let platform_live := if String.eqb (r_name p) "platform" then run else s.2 in
   match applications state !! r_name p with
   | Some admission =>
       let ready := run && String.eqb admission "ready" in
       let! _ := sys_call (Print ("application=" +:+ r_name p +:+ " admission=" +:+ admission
                  +:+ " status=" +:+ yes_no ready "ready" "unavailable" +:+ newline)) in
       Ret (<[r_name p := ready]> s.1, platform_live)
   | None => Ret (s.1, platform_live)
   end)%prog.

Definition report_process (p : OwnedResourceIdentity) (_ : unit) : Prog unit :=
  (let! run := running p in
   sys_call (Print (r_name p +:+ " " +:+ yes_no run "running" "exited" +:+ newline)))%prog.

Definition report_status (state : OwnershipState) : Prog unit :=
  (let! available := of_result (available_startup resolved) in
   if available && negb (is_nil (processes state)) then
     let! live := for_each_in (report_application state) (processes state) (∅, false) in
     let! status := (if live.2 : bool then of_result (application_status resolved live.1)
                     else Ret "unavailable") in
     sys_call (Print ("graph=" +:+ id +:+ " status=" +:+ status
       +:+ " evidence=process-liveness throughput=unverified" +:+ newline))
   else
     let! _ := for_each_in report_process (processes state) tt in
     sys_call (Print ("graph=" +:+ id +:+ " status="
       +:+ (if is_nil (processes state) then "inactive" else OwnershipState.status state)
       +:+ newline)))%prog.
End Graph.

(** *** Starting *)

Definition node_program : string := slash (x_release opts) "libexec/graphx-platform/node".
Definition platform_program : string :=
  slash (x_release opts) "libexec/graphx-platform/apps/telemetry/platform.mjs".

(** Stages the credentials if they are missing: their directory's identity *)
Definition stage_credentials : Prog string :=
  (let! staged := sys_call (Exists (x_credentials opts)) in
   let! _ := (if staged : bool then Ret tt else
     let! external := (if is_empty (x_external_credentials opts) then Ret [] else
       let! _ := safe_execution_path (x_external_credentials opts) false in
       Ret ["--external"; x_external_credentials opts]) in
     command ([node_program; platform_program; "stage"; "--manifest";
               slash (x_output opts) "credentials.json"; "--destination"; x_credentials opts]
              ++ external)) in
   let! _ := safe_execution_path (x_credentials opts) false in
   let! details := sys_call (Lstat (x_credentials opts)) in
   match details with
   | lstat_found m =>
       match st_kind m with
       | file_directory => Ret (to_string (st_dev m) +:+ ":" +:+ to_string (st_ino m))
       | _ => throw "E_CREDENTIAL_IDENTITY: staging directory unavailable"
       end
   | _ => throw "E_CREDENTIAL_IDENTITY: staging directory unavailable"
   end)%prog.

(** [stable_sort]: the platform before the others *)
Definition is_platform (process : Value) : result bool :=
  eq_at process "id" (VStr "platform").

Fixpoint platform_first (l : Array) : result (Array * Array) :=
  match l with
  | [] => Ok ([], [])
  | p :: l =>
      let* platform := is_platform p in
      let* parts := platform_first l in
      Ok (if platform : bool then (p :: parts.1, parts.2) else (parts.1, p :: parts.2))
  end.

Definition keep_previous_log (log : string) : Prog unit :=
  (let! exists_ := sys_call (Exists log) in
   if exists_ : bool then
     let! _ := safe_execution_path log false in
     let! _ := safe_execution_path (log +:+ ".previous") true in
     let! renamed := sys_call (Rename log (log +:+ ".previous")) in
     if renamed : bool then Ret tt else throw "filesystem error: cannot rename"
   else Ret tt)%prog.

Definition find_by (key : string) (value : Value) (l : Array) : result (option Value) :=
  ConfigNetwork.find_result (fun candidate => eq_at candidate key value) l.

(** The program, its arguments and its own variables: an application.  The
    names of executables in [runtime_types] are plain file names. *)
Definition application_program (id name token : string)
    : Prog (string * list string * gmap string string) :=
  (let! nodes := of_result (array_at resolved "nodes") in
   let! found := of_result (find_by "node_id" (VStr name) nodes) in
   match found with
   | None => throw "E_COMPILE_IDENTITY: unknown process"
   | Some found =>
       let! type := of_result (at_ found "type") in
       let! type := of_result (find_by "id" type runtime_types) in
       match type with
       | None => throw "E_RELEASE_IDENTITY: unsupported executable"
       | Some type =>
           let! program := of_result (text_at type "executable") in
           let executable := slash (slash (x_release opts) "bin") program in
           let! receipt := document (slash (x_release opts) "release.json") in
           let! files := of_result (at_ receipt "files") in
           if negb (contains files ("bin/" +:+ program))
           then throw "E_RELEASE_IDENTITY: executable has no verified inventory entry"
           else
             let argv := [executable; "--node"; name; "--config";
                          slash (slash (x_output opts) "nodes") (name +:+ ".json");
                          "--release-file"; barrier id; "--release-token"; token] in
             let! telemetry := of_result (at_ found "telemetry") in
             let! credential := of_result (at_ telemetry "credential") in
             let! secret := (if is_null credential then Ret ∅ else
               let! reference := of_result (text credential) in
               Ret {["GRAPHX_TELEMETRY_SHARED_SECRET_FILE" :=
                      slash (slash (x_credentials opts) reference) "hmac"]}) in
             Ret (executable, argv, <["GRAPHX_CREDENTIALS" := x_credentials opts]> secret)
       end
   end)%prog.

(** Everything [start_native_process] gets *)
Definition process_options (id name : string) (state : OwnershipState)
    : Prog NativeProcessOptions :=
  (let! _ := keep_previous_log (log_path id name) in
   let! program :=
     (if String.eqb name "platform"
      then Ret (node_program,
                [node_program; platform_program; "--config"; slash (x_output opts) "platform.json"],
                {["GX_CONSOLE" := slash (state_directory id) (console_name state)]})
      else application_program id name (owner_token state)) in
   let '(executable, argv, own) := program in
   let! home := sys_call (Getenv "HOME") in
   let environment :=
     <["GRAPHX_LOG_MAX_BYTES" := to_string (o_log_bytes (default_options name))]>
     (<["HOME" := default (state_directory id) home]>
     (<["PATH" := slash (x_release opts) "bin" +:+ ":/usr/bin:/bin"]>
     (<["GX_RELEASE" := x_release opts]> (<["GX_OUTPUT" := x_output opts]>
     (<["GX_STATE" := state_directory id]> (<["GX_CREDENTIALS" := x_credentials opts]>
     (<["GX_OWNER" := owner_token state]> own))))))) in
   Ret (with_program name executable (x_output opts) (log_path id name) argv environment))%prog.

(** *** Readiness *)

(** One round of the loop behind a started process: whether it is ready *)
Definition readiness_round (p : OwnedResourceIdentity) (name log : string) (deadline : Z)
    : Prog bool :=
  (let! _ := checkpoint in
   let! now := sys_call Now in
   if deadline <=? now then throw ("E_READINESS_TIMEOUT: " +:+ name)
   else
     let! pid := process_id p in
     let! identity := inspect_process pid in
     let! status := sys_call (Waitpid pid) in
     match status with
     | Some status => throw ("E_READINESS_EXIT: " +:+ name +:+ " status=" +:+ to_string status)
     | None =>
         let! bytes := read_process_log log (2097152 + 1) in
         if String.eqb name "platform" then
           if String.eqb (executable identity) node_program then
             let! platform := of_result (at_ resolved "platform") in
             let! console := of_result (at_ platform "console") in
             let! port := of_result (integer_at console "port") in
             sys_call (Healthy (u16 port))
           else Ret false
         else Ret (application_ready bytes name)
     end)%prog.

Fixpoint await_ready (rounds : nat) (p : OwnedResourceIdentity) (name log : string) (deadline : Z)
    : Prog unit :=
  match rounds with
  | O => spinning
  | S rounds =>
      let! ready := readiness_round p name log deadline in
      if ready : bool then Ret tt
      else let! _ := sys_call (Sleep 20) in await_ready rounds p name log deadline
  end%prog.

(** The name of a process of the plan; it may start once. *)
Definition plan_name (process : Value) (started : gset string) : result (string * gset string) :=
  let* name := text_at process "id" in
  if bool_decide (name ∈ started)
  then Throw (RuntimeError "E_COMPILE_IDENTITY: duplicate process")
  else Ok (name, {[name]} ∪ started).

Definition start_process (id : string) (available : bool) (name : string) : Run unit :=
  do! state := current in
  do! options := lift (process_options id name state) in
  do! resource := start_native_process options register in
  if available && negb (String.eqb name "platform") then returns tt
  else
    do! start := sys_run Now in
    do! budget := (if String.eqb name "platform" then returns 30000
                   else pure (application_readiness_ms resolved)) in
    lift (await_ready rounds resource name (log_path id name) (start + budget)).

Fixpoint start_processes (id : string) (available : bool) (l : Array) (started : gset string)
    : Run unit :=
  match l with
  | [] => returns tt
  | process :: l =>
      lift checkpoint;;;
      do! next := pure (plan_name process started) in
      start_process id available next.1;;;
      start_processes id available l next.2
  end.

(** *** Startup with the applications that are available *)

(** An application of the round: whether it is still pending *)
Definition admit_application (id : string) (deadline : Z) (p : OwnedResourceIdentity) : Run bool :=
  do! status := lift (native_process_status p true) in
  if negb status.1 then
    if unclassified status.2
    then fail ("E_APPLICATION_STARTUP: unclassified failure " +:+ r_name p)
    else modify (set_application (r_name p) "exited");;; returns false
  else
    do! now := sys_run Now in
    do! ready := (if now <? deadline
                  then do! log := lift (read_process_log (log_path id (r_name p)) 2097152) in
                       returns (application_ready log (r_name p))
                  else returns false) in
    if ready : bool then modify (set_application (r_name p) "ready");;; returns false
    else
      do! now := sys_run Now in
      if deadline <=? now then
        lift (stop_native_process p);;;
        modify (set_application (r_name p) "timeout");;; returns false
      else returns true.

Definition admit_process (id : string) (deadline : Z) (p : OwnedResourceIdentity) : Run bool :=
  do! state := current in
  if String.eqb (r_name p) "platform" then
    do! run := lift (running p) in
    if run : bool then returns false else fail "E_READINESS_EXIT: platform"
  else if bool_decide (is_Some (applications state !! r_name p)) then returns false
  else admit_application id deadline p.

Fixpoint admit_all (id : string) (deadline : Z) (l : list OwnedResourceIdentity) : Run bool :=
  match l with
  | [] => returns false
  | p :: l =>
      do! pending := admit_process id deadline p in
      do! more := admit_all id deadline l in
      returns (pending || more)
  end.

Fixpoint admission (rounds : nat) (id : string) (deadline : Z) : Run unit :=
  match rounds with
  | O => lift spinning
  | S rounds =>
      lift checkpoint;;;
      do! state := current in
      do! pending := admit_all id deadline (processes state) in
      save;;;
      if pending : bool then do! _ := sys_run (Sleep 20) in admission rounds id deadline
      else returns tt
  end.

(** *** Release *)

(** The last look at a process before the release *)
Definition confirm_process (available : bool) (p : OwnedResourceIdentity) : Run unit :=
  do! status := lift (native_process_status p true) in
  if status.1 : bool then returns tt
  else if negb available || String.eqb (r_name p) "platform"
  then fail "E_READINESS_EXIT: application exited before release"
  else
    do! state := current in
    match applications state !! r_name p with
    | None => raises (OutOfRange "map::at")
    | Some admission =>
        if String.eqb admission "ready" then
          if unclassified status.2
          then fail ("E_APPLICATION_STARTUP: unclassified failure " +:+ r_name p)
          else modify (set_application (r_name p) "exited")
        else returns tt
    end.

(** With the [available] startup: the rounds in which the applications become
    ready or are given up *)
Definition admit_processes (id : string) (available : bool) : Run unit :=
  if available then
    do! start := sys_run Now in
    do! budget := pure (application_readiness_ms resolved) in
    admission rounds id (start + budget)
  else returns tt.

(** The last look, the barrier, and the console *)
Definition finish (id : string) (available : bool) : Run unit :=
  do! state := current in
  for_each_state (confirm_process available) (processes state);;;
  lift checkpoint;;;
  do! state := current in
  lift (publish_execution_file (barrier id) (owner_token state));;;
  modify (set_status "ready");;;
  save;;;
  start_node_console opts;;;
  do! state := current in
  let live := (fun admission => String.eqb admission "ready") <$> applications state in
  do! status := (if available then pure (application_status resolved live)
                 else returns "ready") in
  sys_run (Print (status +:+ " graph=" +:+ id +:+ " owner=" +:+ owner_token state +:+ newline)).

(** The startup from its credentials to the release *)
Definition startup (id : string) : Run unit :=
  do! credentials := lift stage_credentials in
  modify (set_credentials (x_credentials opts) credentials);;;
  save;;;
  do! plan := lift (document (slash (x_output opts) "native-plan.json")) in
  do! plan := pure (array_at plan "processes") in
  do! nodes := pure (array_at resolved "nodes") in
  (if (length plan =? length nodes + 1)%nat then returns tt
   else fail "E_COMPILE_IDENTITY: process inventory mismatch");;;
  do! parts := pure (platform_first plan) in
  do! available := pure (available_startup resolved) in
  start_processes id available (parts.1 ++ parts.2) ∅;;;
  admit_processes id available;;;
  finish id available.

(** The directories of a run *)
Definition create_directories (id : string) : Prog unit :=
  (let ensure path := checked (sys_call (EnsureRoot path)) in
   let! _ := ensure (slash (state_directory id) "logs") in
   let! platform := of_result (at_ resolved "platform") in
   let! capture := of_result (at_ platform "capture") in
   let! enabled := of_result (boolean_at capture "enabled") in
   let! _ := (if enabled : bool then
     let! _ := ensure (slash (state_directory id) "captures") in
     let! nodes := of_result (array_at resolved "nodes") in
     for_each_in (fun node _ =>
       let! capture := of_result (at_ node "capture") in
       let! enabled := of_result (boolean_at capture "enabled") in
       if enabled : bool then
         let! name := of_result (text_at node "node_id") in
         ensure (slash (slash (state_directory id) "captures") name)
       else Ret tt) nodes tt
     else Ret tt) in
   ensure (slash (state_directory id) "barriers"))%prog.

(** [up]: a startup that fails stops what it started and throws again. *)
Definition up (id : string) : Run unit :=
  do! state := current in
  (if is_nil (processes state) then returns tt
   else fail "E_EXECUTION_ACTIVE: recover with run down before another startup");;;
  lift (remove_barrier id (owner_token state));;;
  lift (create_directories id);;;
  modify (set_run "creating" ∅ (processes state));;;
  save;;;
  prepare_node_console (state_directory id);;;
  catch_state (startup id) (fun e =>
    catch_state (stop id) (fun failure =>
      sys_run (Log (what failure +:+ "; recovery state retained" +:+ newline)));;;
    raises e).

Definition down (id : string) : Run unit :=
  stop id;;;
  sys_run (Print ("stopped graph=" +:+ id +:+ "; history and logs retained" +:+ newline)).

(** [execute_graph] of a native plan behind the lock *)
Definition execute_native (id : string) : Prog (OwnershipState * result unit) :=
  (let! state := open_ledger id in
   if String.eqb (x_action opts) "status" then lift (report_status id state) state
   else if String.eqb (x_action opts) "down" then down id state
   else up id state)%prog.
End Execution.
End Native.
