(* ===== verification/ProcessProofs.v ===== *)
(** * Owned processes: identity before signals

    What a run shows about processes: an observation that confirms an identity,
    or that a process is gone; and the specifications of the operations of
    Process.v by these. *)

From Stdlib Require Import ZArith Lia Strings.Byte Strings.Ascii Strings.String.
From stdpp Require Import base option gmap strings list.
From S2P Require Import Prelude Text OwnershipState Effects Process.

Module ProcessProofs.
Import Text OwnershipState Effects Process.
Local Open Scope Z_scope.

(** ** What an event shows *)

(** The process that the event shows to be gone *)
Definition gone (e : Event) : option Z :=
  match e with
  | Effects.Event c x =>
      match c as c return answer c -> option Z with
      | Waitpid pid => fun x => match x with Some _ => Some pid | None => None end
      | Probe pid => fun x => match x with probe_absent => Some pid | _ => None end
      | ReadStat pid => fun x => if (parse_stat x).1 then Some pid else None
      | Reap pid => fun _ => Some pid
      | _ => fun _ => None
      end x
  end.

(** The process whose gate the event opened *)
Definition released (e : Event) : option Z :=
  match e with
  | Effects.Event c x =>
      match c as c return answer c -> option Z with
      | ReleaseGate pid => fun x => if x then Some pid else None
      | _ => fun _ => None
      end x
  end.

(** The child of a fork; a waited child *)
Definition forked (e : Event) : option Z :=
  match e with
  | Effects.Event c x =>
      match c as c return answer c -> option Z with
      | Fork _ => fun x => fork_pid <$> x
      | _ => fun _ => None
      end x
  end.
Definition waited (e : Event) : option Z :=
  match e with
  | Effects.Event c x =>
      match c as c return answer c -> option Z with
      | Waitpid pid => fun x => match x with Some _ => Some pid | None => None end
      | Reap pid => fun _ => Some pid
      | _ => fun _ => None
      end x
  end.

(** The ledgers that may be on disk: a save that throws may have published. *)
Fixpoint disk (h : list Event) : list OwnershipState :=
  match h with
  | [] => []
  | Effects.Event c x :: h =>
      match c as c return answer c -> list OwnershipState with
      | Save s => fun x => match x with Ok _ => [s] | Throw _ => s :: disk h end
      | Load _ => fun x => match x with Ok s => [s] | Throw _ => disk h end
      | _ => fun _ => disk h
      end x
  end.

Definition loaded (e : Event) : option OwnershipState :=
  match e with
  | Effects.Event c x =>
      match c as c return answer c -> option OwnershipState with
      | Load _ => fun x => match x with Ok s => Some s | Throw _ => None end
      | _ => fun _ => None
      end x
  end.

Definition pids (s : OwnershipState) : gset Z := list_to_set (omap pid_of (processes s)).

(** The processes of the loaded ledger and the released ones, but those that
    have been seen gone since *)
Fixpoint unresolved (h : list Event) : gset Z :=
  match h with
  | [] => ∅
  | e :: h =>
      match loaded e, released e, gone e with
      | Some s, _, _ => pids s ∪ unresolved h
      | None, Some pid, _ => {[pid]} ∪ unresolved h
      | None, None, Some pid => unresolved h ∖ {[pid]}
      | None, None, None => unresolved h
      end
  end.

(** A child of this run that was not waited for, so that its identifier is its own *)
Fixpoint unreaped (pid : Z) (h : list Event) : bool :=
  match h with
  | [] => false
  | e :: h =>
      if bool_decide (forked e = Some pid) then true
      else if bool_decide (waited e = Some pid) then false
      else unreaped pid h
  end.

Definition lstat_call (c : sys) : bool := match c with Lstat _ => true | _ => false end.
Definition is_lstat (e : Event) : bool := lstat_call (e_call e).

(** The last calls read the executable and the start time of the process and
    the digest of the executable, and they are those of the identity. *)
Definition confirmed (r : OwnedResourceIdentity) (h : list Event) : Prop :=
  exists pid path digest value lst rest,
    pid_of r = Some pid /\ executable_of r = Some (path, digest) /\
    parse_stat value = (false, r_secondary_id r) /\ forallb is_lstat lst = true /\
    h = Effects.Event (C := sys) (R := answer) (Hash path) (Ok digest)
        :: lst ++ Effects.Event (C := sys) (R := answer) (ReadStat pid) value
        :: Effects.Event (C := sys) (R := answer) (ReadExe pid) path :: rest.

Definition shows_gone (r : OwnedResourceIdentity) (l : list Event) : Prop :=
  exists pid e, pid_of r = Some pid /\ e ∈ l /\ gone e = Some pid.

(** ** Calls that leave the ledger and the gates alone *)

Definition calm (c : sys) : bool :=
  match c with Save _ | Load _ | ReleaseGate _ => false | _ => true end.

Definition quiet (c : sys) : bool :=
  match c with
  | Save _ | Load _ | ReleaseGate _ | Signal _ _ | WriteSync _ | Fork _ | Reap _ | RunFor _ _ _ => false
  | _ => true
  end.

(** [h'] goes on from [h] with calm calls. *)
Definition frame (h h' : list Event) : Prop :=
  exists l, h' = l ++ h /\ forallb (fun e => calm (e_call e)) l = true.

Lemma frame_refl h : frame h h.
Proof. by exists []. Qed.

Lemma frame_trans h1 h2 h3 : frame h1 h2 -> frame h2 h3 -> frame h1 h3.
Proof.
  intros (l & -> & Hl) (m & -> & Hm). exists (m ++ l). rewrite app_assoc. split; [done|].
  rewrite forallb_app, Hl, Hm. done.
Qed.

Lemma frame_cons c x h h' : calm c = true -> frame h h' -> frame h (Effects.Event c x :: h').
Proof. intros Hc (l & -> & Hl). exists (Effects.Event c x :: l). cbn. by rewrite Hc, Hl. Qed.

Lemma frame_disk h h' : frame h h' -> disk h' = disk h.
Proof.
  intros (l & -> & Hl). induction l as [|[c x] l IH]; [done|]. cbn in Hl |- *.
  apply andb_prop in Hl as [Hc Hl]. destruct c; cbn in Hc |- *; try done; by apply IH.
Qed.

Lemma frame_unresolved h h' : frame h h' -> unresolved h' ⊆ unresolved h.
Proof.
  intros (l & -> & Hl). induction l as [|[c x] l IH]; [done|]. cbn [app forallb e_call] in *.
  apply andb_prop in Hl as [Hc Hl]. specialize (IH Hl). cbn [unresolved].
  assert (loaded (Effects.Event c x) = None) as -> by (destruct c; done).
  assert (released (Effects.Event c x) = None) as -> by (destruct c; done).
  destruct (gone _); set_solver.
Qed.

Lemma shows_gone_app r l m : shows_gone r l -> shows_gone r (m ++ l).
Proof. intros (p & e & Hp & He & Hg). exists p, e. rewrite elem_of_app. auto. Qed.

(** A process seen gone within a frame is resolved behind it. *)
Lemma frame_gone r h l pid :
  forallb (fun e => calm (e_call e)) l = true -> shows_gone r l -> pid_of r = Some pid ->
  pid ∉ unresolved (l ++ h).
Proof.
  intros Hl (p & e & Hp & He & Hg) Hpid. rewrite Hp in Hpid. injection Hpid as <-.
  induction l as [|e' l IH]; [by apply elem_of_nil in He|]. cbn [app forallb] in *.
  apply andb_prop in Hl as [Hc Hl]. destruct e' as [c x]. cbn [e_call unresolved] in *.
  assert (loaded (Effects.Event c x) = None) as -> by (destruct c; done).
  assert (released (Effects.Event c x) = None) as -> by (destruct c; done).
  apply elem_of_cons in He as [<-|He]; [rewrite Hg, elem_of_difference, elem_of_singleton; tauto|].
  specialize (IH Hl He). destruct (gone (Effects.Event c x)); [rewrite elem_of_difference; tauto|done].
Qed.

(** ** The observations are quiet *)

Create HintDb calls discriminated.
#[export] Hint Resolve calls_ret calls_fail calls_of_result : calls.

(** Goals that a program uses quiet calls only *)
Ltac quiet_step :=
  match goal with
  | |- calls_only _ (and_then _ _) => apply calls_and_then; [|intro]
  | |- calls_only _ (catch _ _) => apply calls_catch; [|intro]
  | |- calls_only _ (attempt _) => apply calls_attempt
  | |- calls_only _ (for_each_in _ _ _) => apply calls_for_each; intros
  | |- calls_only _ (call _) => apply calls_call; reflexivity
  | |- calls_only _ (sys_call _) => apply calls_call; reflexivity
  | |- calls_only _ (checked _) => apply calls_and_then; [|intro]
  | |- calls_only _ (throw _) => exact I
  | |- calls_only _ _ => solve [auto with calls nocore]
  | |- calls_only _ (match ?x with _ => _ end) => destruct x
  | |- calls_only _ (let '(_, _) := ?x in _) => destruct x
  end.
Ltac quiet_prog := repeat quiet_step.

Abbreviation quiet_calls := (calls_only (fun c => quiet c = true)).

Lemma quiet_spinning {A} : quiet_calls (spinning (A := A)).
Proof. split; [done|]. intros []. Qed.

Lemma quiet_path path absent : quiet_calls (safe_execution_path path absent).
Proof. unfold safe_execution_path. quiet_prog. unfold safe_component. quiet_prog. Qed.
#[export] Hint Resolve quiet_path quiet_spinning : calls.

Lemma quiet_inspect pid : quiet_calls (inspect_process pid).
Proof. unfold inspect_process. quiet_prog. Qed.

Lemma quiet_process_id r : quiet_calls (process_id r).
Proof. unfold process_id. quiet_prog. Qed.
#[export] Hint Resolve quiet_inspect quiet_process_id : calls.

Lemma quiet_observe n pid o : quiet_calls (observe_again n pid o).
Proof. revert o; induction n as [|n IH]; intros o; cbn [observe_again]; quiet_prog. Qed.
#[export] Hint Resolve quiet_observe : calls.

Lemma quiet_status r w : quiet_calls (native_process_status r w).
Proof. unfold native_process_status. quiet_prog. Qed.

Lemma quiet_log path maximum : quiet_calls (read_process_log path maximum).
Proof. unfold read_process_log. quiet_prog. Qed.

Lemma quiet_exited r : quiet_calls (exited_after_signal r).
Proof. unfold exited_after_signal. quiet_prog. apply quiet_status. Qed.
#[export] Hint Resolve quiet_status quiet_log quiet_exited : calls.

Lemma quiet_await n r : quiet_calls (await_exit n r).
Proof. induction n as [|n IH]; cbn [await_exit]; quiet_prog. Qed.
#[export] Hint Resolve quiet_await : calls.

Lemma quiet_prepare o : quiet_calls (prepare_process o).
Proof. unfold prepare_process. quiet_prog. Qed.
#[export] Hint Resolve quiet_prepare : calls.

(** ** What the observations show *)

Definition any (_ : list Event) (_ : sys) : Prop := True.

Definition goes (h h' : list Event) : Prop := exists l, h' = l ++ h.

Lemma goes_refl h : goes h h.
Proof. by exists []. Qed.
Lemma goes_cons h h' e : goes h h' -> goes h (e :: h').
Proof. intros [l ->]. by exists (e :: l). Qed.
Lemma goes_trans h1 h2 h3 : goes h1 h2 -> goes h2 h3 -> goes h1 h3.
Proof. intros [l ->] [m ->]. exists (m ++ l). by rewrite app_assoc. Qed.
#[export] Hint Resolve goes_refl goes_cons : calls.

(** Since [h], the process was seen to be gone. *)
Definition gone_since (pid : Z) (h h' : list Event) : Prop :=
  exists e h1, goes h h1 /\ goes (e :: h1) h' /\ gone e = Some pid.

Lemma gone_since_goes pid h h1 h2 : gone_since pid h h1 -> goes h1 h2 -> gone_since pid h h2.
Proof.
  intros (e & h0 & H0 & H1 & He) H2. exists e, h0.
  split; [done|]. split; [|done]. eapply goes_trans; eassumption.
Qed.

Lemma gone_since_here pid h h1 e : goes h h1 -> gone e = Some pid -> gone_since pid h (e :: h1).
Proof. intros H He. exists e, h1. auto with calls. Qed.

Lemma gone_since_shows r pid h l : pid_of r = Some pid -> gone_since pid h (l ++ h) -> shows_gone r l.
Proof.
  intros Hr (e & h1 & [l1 ->] & [l2 H] & He). exists pid, e. split; [done|]. split; [|done].
  change (e :: l1 ++ h) with ((e :: l1) ++ h) in H. rewrite app_assoc in H.
  apply app_inv_tail in H as ->. rewrite elem_of_app. right. apply list_elem_of_here.
Qed.

Lemma goes_calls {A} (P : sys -> Prop) (p : Prog A) h :
  calls_only P p -> wp any p h (fun h' _ => exists l, h' = l ++ h /\ Forall (fun e => P (e_call e)) l).
Proof.
  intros Hp. apply (wp_calls P any (fun h' => exists l, h' = l ++ h /\ Forall (fun e => P (e_call e)) l));
    [done| |by exists []].
  intros h' c (l & -> & Hl) Hc. split; [done|]. intros x. exists (Effects.Event c x :: l).
  split; [done|]. by constructor.
Qed.

Lemma path_lstats path absent h :
  wp any (safe_execution_path path absent) h
    (fun h' _ => exists l, h' = l ++ h /\ forallb is_lstat l = true).
Proof.
  eapply wp_mono; [|apply (goes_calls (fun c => lstat_call c = true))].
  - intros h' _ (l & -> & Hl). exists l. split; [done|].
    apply forallb_forall. intros e He. by eapply Forall_forall in Hl; [|apply list_elem_of_In].
  - unfold safe_execution_path. quiet_prog. unfold safe_component. quiet_prog.
Qed.

(** The last two calls observed [o]. *)
Definition observed (pid : Z) (o : ProcessIdentity) (h h' : list Event) : Prop :=
  exists value start rest, goes h rest /\ parse_stat value = (exited o, start) /\
    (start_time o = "" \/ start_time o = start) /\
    h' = Effects.Event (C := sys) (R := answer) (ReadStat pid) value
         :: Effects.Event (C := sys) (R := answer) (ReadExe pid) (executable o) :: rest.

Lemma observed_goes pid o h h' : observed pid o h h' -> goes h h'.
Proof. intros (v & st & rest & H & _ & _ & ->). auto with calls. Qed.

Lemma inspect_spec pid h0 h :
  goes h0 h ->
  wp any (inspect_process pid) h
    (fun h' r => match r with Ok o => observed pid o h0 h' | Throw _ => False end).
Proof.
  intros Hg. do 2 (split; [done|]; intros ?). split; [done|]. intros exe. split; [done|]. intros value.
  cbn. destruct (parse_stat value) as [ex st] eqn:Hp. cbn. eexists value, st, _.
  refine (conj _ (conj Hp (conj _ eq_refl))); cbn; [auto with calls|].
  destruct (String.eqb exe "" && negb ex); auto.
Qed.

Lemma observe_spec n pid h0 : forall o h,
  observed pid o h0 h ->
  wp any (observe_again n pid o) h (fun h' r =>
    match r with
    | Ok (inl _) => gone_since pid h0 h'
    | Ok (inr o) => observed pid o h0 h'
    | Throw _ => False
    end).
Proof.
  induction n as [|n IH]; intros o h Ho; cbn [observe_again]; [done|].
  destruct (negb (String.eqb (start_time o) "") || exited o); [done|].
  pose proof (observed_goes _ _ _ _ Ho) as Hg.
  split; [done|]. intros [status|]; [by apply gone_since_here|].
  split; [done|]. intros present.
  destruct present; [|by apply gone_since_here; auto with calls|];
    (split; [done|]; intros []; cbn [and_then]; apply wp_and_then;
     eapply wp_mono; [|apply (inspect_spec pid h0); auto with calls];
     intros h' [o'|e]; [apply IH|done]).
Qed.

(** A process is found running only with its whole identity, and gone only when
    that was observed. *)
Lemma status_spec r w h :
  wp any (native_process_status r w) h (fun h' res =>
    match res with
    | Ok (true, _) => confirmed r h'
    | Ok (false, _) => exists pid, pid_of r = Some pid /\ gone_since pid h h'
    | Throw _ => True
    end).
Proof.
  unfold native_process_status, process_id. destruct (pid_of r) as [pid|] eqn:Hr; [|done].
  cbn [and_then]. split; [done|]. intros [status|].
  { exists pid. split; [done|]. apply gone_since_here; auto with calls. }
  cbn [and_then]. apply wp_and_then.
  eapply wp_mono; [|apply (inspect_spec pid h); auto with calls].
  intros h1 [o|e]; [|done]. intros Ho. apply wp_and_then.
  eapply wp_mono; [|by apply (observe_spec 25 pid h)].
  intros h2 [[status|o2]|e]; [|clear Ho|done].
  { intros Hg. destruct status; exists pid; done. }
  intros Ho. pose proof (observed_goes _ _ _ _ Ho) as Hgo.
  destruct (exited o2) eqn:Hex.
  - assert (gone_since pid h h2) as Hg.
    { destruct Ho as (v & st & rest & Hrest & Hp & _ & ->). apply gone_since_here; [auto with calls|].
      cbn. by rewrite Hp, Hex. }
    destruct w; [|by exists pid]. split; [done|]. intros status.
    exists pid. split; [done|]. eapply gone_since_goes; [exact Hg|auto with calls].
  - destruct (String.eqb_spec (start_time o2) "") as [Hst|Hst].
    + split; [done|]. intros []; try done. exists pid. split; [done|].
      apply gone_since_here; auto with calls.
    + destruct (executable_of r) as [[path digest]|] eqn:Hpath; [|done].
      destruct (String.eqb_spec (start_time o2) (r_secondary_id r)) as [Hs|]; [|done].
      destruct (String.eqb_spec (executable o2) path) as [Hx|]; [|done]. cbn [negb orb].
      apply wp_and_then. eapply wp_mono; [|apply path_lstats].
      intros h3 [[]|e] (l & -> & Hl); [|done]. split; [done|]. intros [hash|e]; [|done]. cbn.
      destruct (String.eqb_spec hash digest) as [->|]; [|done]. cbn.
      destruct Ho as (value & st & rest & Hrest & Hp & [Hst'|Hst'] & ->); [done|].
      exists pid, path, digest, value, l, rest. rewrite Hp, Hex, <-Hst', Hs, Hx. done.
Qed.

(** ** Rules for runs *)

(** The ledger has every unresolved process. *)
Definition covers (s : OwnershipState) (h : list Event) : Prop := unresolved h ⊆ pids s.
Definition custody (h : list Event) : Prop := forall s, s ∈ disk h -> covers s h.

Lemma custody_frame h h' : frame h h' -> custody h -> custody h'.
Proof.
  intros Hf Hc s. rewrite (frame_disk _ _ Hf). intros Hs. unfold covers.
  etrans; [apply (frame_unresolved _ _ Hf)|by apply Hc].
Qed.

Lemma covers_frame s h h' : frame h h' -> covers s h -> covers s h'.
Proof. intros Hf Hc. unfold covers. etrans; [apply (frame_unresolved _ _ Hf)|done]. Qed.

Lemma gone_resolved r pid h h' :
  pid_of r = Some pid -> frame h h' -> gone_since pid h h' -> pid ∉ unresolved h'.
Proof.
  intros Hr (l & -> & Hl) Hg. eapply frame_gone; [done| |done]. by eapply gone_since_shows.
Qed.

(** The ledger on disk is certain, and has the process. *)
Definition on_record (r : OwnedResourceIdentity) (h : list Event) : Prop :=
  exists s, disk h = [s] /\ r ∈ processes s.

Lemma on_record_frame r h h' : frame h h' -> on_record r h -> on_record r h'.
Proof. intros Hf (s & Hd & Hr). exists s. by rewrite (frame_disk _ _ Hf). Qed.

(** Signals go to a process of the ledger on disk that was just identified, or
    to an own child that was not waited for. *)
Definition signal_ok (h : list Event) (pid signal : Z) : Prop :=
  (exists r, on_record r h /\ pid_of r = Some pid /\ confirmed r h) \/ (signal = SIGKILL /\ unreaped pid h = true).

(** A gate opens right behind the save of a ledger with the process. *)
Definition gate_ok (h : list Event) (pid : Z) : Prop :=
  exists s r rest,
    h = Effects.Event (C := sys) (R := answer) (Save s) (Ok tt) :: rest /\ r ∈ processes s /\
    pid_of r = Some pid /\ r_secondary_id r <> "".

Section policy.
Context (may_write : list Event -> Prop).

Definition policy (h : list Event) (c : sys) : Prop :=
  custody h /\
  match c with
  | Signal pid signal => signal_ok h pid signal
  | ReleaseGate pid => gate_ok h pid
  | WriteSync _ => may_write h
  | _ => True
  end.

(** Behind a step that keeps the ledger and the gates *)
Definition keeps (h h' : list Event) : Prop := frame h h' /\ custody h'.

Lemma keeps_refl h : custody h -> keeps h h.
Proof. split; [apply frame_refl|done]. Qed.
Lemma keeps_trans h1 h2 h3 : keeps h1 h2 -> keeps h2 h3 -> keeps h1 h3.
Proof. intros [H1 _] [H2 H]. split; [by eapply frame_trans|done]. Qed.
Lemma keeps_cons c x h h' : calm c = true -> keeps h h' -> keeps h (Effects.Event c x :: h').
Proof.
  intros Hc [Hf Hh]. pose proof (frame_cons c x h' h' Hc (frame_refl _)) as Hf'.
  split; [by eapply frame_trans|by apply (custody_frame h')].
Qed.
Lemma keeps_custody h h' : keeps h h' -> custody h'.
Proof. by intros [_ H]. Qed.

Lemma quiet_calm c : quiet c = true -> calm c = true.
Proof. by destruct c. Qed.

Lemma quiet_wp {A} (p : Prog A) h :
  quiet_calls p -> custody h -> wp policy p h (fun h' _ => keeps h h').
Proof.
  intros Hp Hc. apply (wp_calls (fun c => quiet c = true)); [done| |by apply keeps_refl].
  intros h' c Hk Hq. split; [|intros x; by apply keeps_cons; [apply quiet_calm|]].
  split; [by eapply keeps_custody|]. by destruct c.
Qed.

(** A quiet program with what its calls show *)
Lemma quiet_spec {A} (p : Prog A) h Q :
  quiet_calls p -> custody h -> wp any p h Q -> wp policy p h (fun h' r => keeps h h' /\ Q h' r).
Proof.
  intros Hp Hc HQ. eapply wp_weaken; [|apply wp_and; [by apply quiet_wp|exact HQ]]. by intros ? ? [].
Qed.

Definition status_result (r : OwnedResourceIdentity) (h h' : list Event) (res : result (bool * Z))
    : Prop :=
  match res with
  | Ok (true, _) => confirmed r h'
  | Ok (false, _) => exists pid, pid_of r = Some pid /\ gone_since pid h h'
  | Throw _ => True
  end.

Lemma status_wp r w h :
  custody h ->
  wp policy (native_process_status r w) h (fun h' res => keeps h h' /\ status_result r h h' res).
Proof. intros Hc. apply quiet_spec; [apply quiet_status|done|apply status_spec]. Qed.

(** What a stopping step shows: the process is gone if it says so. *)
Definition stopped (r : OwnedResourceIdentity) (h h' : list Event) : Prop :=
  exists pid, pid_of r = Some pid /\ gone_since pid h h'.

Lemma stopped_goes r h0 h h' : goes h0 h -> stopped r h h' -> stopped r h0 h'.
Proof.
  intros Hg (pid & Hr & e & h1 & H1 & H2 & He). exists pid. split; [done|]. exists e, h1.
  split; [by eapply goes_trans|done].
Qed.

Lemma frame_goes h h' : frame h h' -> goes h h'.
Proof. intros (l & -> & _). by exists l. Qed.

Definition exited_result (r : OwnedResourceIdentity) (h h' : list Event) (res : result bool) : Prop :=
  match res with Ok true => stopped r h h' | _ => True end.

Lemma exited_wp r h :
  custody h ->
  wp policy (exited_after_signal r) h (fun h' res => keeps h h' /\ exited_result r h h' res).
Proof.
  intros Hc. apply wp_catch, wp_and_then. eapply wp_mono; [|by apply status_wp].
  intros h' [[[] s]|e] [Hk Hs]; cbn in *; [done|done|].
  by destruct (bool_decide _).
Qed.

Lemma await_wp r n : forall h0 h,
  keeps h0 h -> wp policy (await_exit n r) h (fun h' res => keeps h0 h' /\ exited_result r h0 h' res).
Proof.
  induction n as [|n IH]; intros h0 h Hk; cbn [await_exit]; [done|].
  apply wp_and_then. eapply wp_mono; [|apply exited_wp; by eapply keeps_custody].
  intros h1 [[]|e] [Hk1 Hr]; cbn.
  - split; [by eapply keeps_trans|]. eapply stopped_goes; [apply frame_goes, Hk|done].
  - split; [split; [by eapply keeps_custody|done]|]. intros []. apply IH.
    apply keeps_cons; [done|]. by eapply keeps_trans.
  - split; [by eapply keeps_trans|done].
Qed.

Lemma stop_wp r h :
  custody h -> on_record r h ->
  wp policy (stop_native_process r) h
    (fun h' res => keeps h h' /\ match res with Ok _ => stopped r h h' | Throw _ => True end).
Proof.
  intros Hc Hrec. unfold stop_native_process, process_id. destruct (pid_of r) as [pid|] eqn:Hr;
    [|by split; [apply keeps_refl|]].
  cbn [and_then]. apply wp_and_then. eapply wp_mono; [|by apply status_wp].
  intros h1 [[[] s]|e] [Hk Hs]; cbn [negb fst]; [|done|done].
  pose proof (on_record_frame _ _ _ (proj1 Hk) Hrec) as Hrec1.
  split; [split; [by eapply keeps_custody|left; by exists r]|]. intros []. cbn [and_then].
  assert (keeps h (Effects.Event (C := sys) (R := answer) (Signal pid SIGTERM) tt :: h1)) as Hk1
    by by apply keeps_cons.
  apply wp_and_then. eapply wp_mono; [|by apply (await_wp r 100 h)].
  intros h2 [[]|e] [Hk2 Hs2]; [done| |done].
  apply wp_and_then. eapply wp_mono; [|apply status_wp; by eapply keeps_custody].
  intros h3 [[alive s3]|e] [Hk3 Hs3]; [|by split; [eapply keeps_trans|]].
  assert (keeps h h3) as Hk03 by by eapply keeps_trans.
  apply wp_and_then. cbn [fst]. apply (wp_mono policy _ _ (fun h' _ => keeps h h')).
  - intros h4 [[]|e] Hk4; [|done]. apply wp_and_then. eapply wp_mono; [|by apply (await_wp r 100 h)].
    intros h5 [[]|e] [Hk5 Hs5]; done.
  - destruct alive; [|done]. pose proof (on_record_frame _ _ _ (proj1 Hk03) Hrec) as Hrec3.
    split; [split; [by eapply keeps_custody|left; by exists r]|]. intros []. by apply keeps_cons.
Qed.
End policy.
End ProcessProofs.
