(* ===== verification/NativeProofs.v ===== *)
(** * Native execution: custody of processes

    The rules of ProcessProofs.v hold in every run of [execute_native], wherever
    it stops: signals follow an identification, gates open behind a saved
    ledger, and no process that may run is missing from the ledger on disk.
    The release is published when the processes are ready, and a finished
    [down] has seen every process gone. *)

From Stdlib Require Import ZArith Lia Strings.Byte Strings.Ascii Strings.String.
From stdpp Require Import base option gmap strings list.
From S2P Require Import Prelude ConfigValue ConfigParse Text OwnershipState Effects Process ProcessProofs Native ConfigRender.

Module NativeProofs.
Import ConfigRender Text OwnershipState ConfigValue Effects Process ProcessProofs Native ConfigRender.
Local Open Scope Z_scope.

Abbreviation event c x := (Effects.Event (C := sys) (R := answer) c x).

(** ** Identities of new processes *)

Lemma pid_of_native options child start digest :
  pid_of (native_resource options (fork_pid child) start digest) = Some (fork_pid child).
Proof.
  destruct child as [pid Hpid]. unfold pid_of, native_resource. cbn [r_stable_id process_identity fork_pid].
  reflect_bools. pose proof (to_string_number pid) as [_ Hne].
  rewrite digits_to_string by lia. destruct (to_string pid); [done|].
  destruct (Z.ltb_spec pid 2), (Z.ltb_spec 2147483647 pid); [lia..|done].
Qed.

Lemma pids_push p s : pids (push_process p s) = list_to_set (omap pid_of [p]) ∪ pids s.
Proof.
  unfold pids. cbn [push_process set_processes set_run rebuild processes].
  rewrite omap_app, list_to_set_app_L. by rewrite (union_comm_L _ (list_to_set (omap pid_of [p]))).
Qed.

Lemma quiet_remove_barrier opts id token : quiet_calls (remove_barrier opts id token).
Proof. unfold remove_barrier, remove_entry. quiet_prog. Qed.

Lemma quiet_running p : quiet_calls (running p).
Proof. unfold running. quiet_prog. Qed.

Lemma quiet_inventory n deadline ps : quiet_calls (validate_inventory n deadline ps).
Proof.
  induction n as [|n IH]; cbn [validate_inventory]; quiet_prog. apply quiet_running.
Qed.

#[export] Hint Resolve quiet_remove_barrier quiet_running quiet_inventory : calls.

(** ** The invariant of the ledger in memory *)

Section rules.
Context (may_write : list Event -> Prop).

Abbreviation pol := (policy may_write).

Definition safe (s : OwnershipState) (h : list Event) : Prop := custody h /\ covers s h.

Lemma safe_keeps s h h' : keeps h h' -> safe s h -> safe s h'.
Proof. intros [Hf Hc] [_ Hs]. split; [done|]. by eapply covers_frame. Qed.

Lemma safe_processes s s' h : processes s = processes s' -> safe s h -> safe s' h.
Proof. unfold safe, covers, pids. by intros ->. Qed.

Lemma swp_quiet {A} (p : Prog A) (s : OwnershipState) h Q :
  quiet_calls p -> safe s h -> (forall h' r, keeps h h' -> safe s h' -> Q h' s r) ->
  swp pol (lift p) s h Q.
Proof.
  intros Hp Hs HQ. apply swp_lift. eapply wp_mono; [|apply quiet_wp; [done|exact (proj1 Hs)]].
  intros h' r Hk. apply HQ; [done|exact (safe_keeps s h h' Hk Hs)].
Qed.

(** The ledger that is on disk after a save *)
Lemma save_wp s h (Q : list Event -> OwnershipState -> result unit -> Prop) :
  safe s h ->
  Q (event (Save s) (Ok tt) :: h) s (Ok tt) ->
  (forall e, safe s (event (Save s) (Throw e) :: h) -> Q (event (Save s) (Throw e) :: h) s (Throw e)) ->
  swp pol save s h Q.
Proof.
  intros [Hc Hs] Hok Hthrow. cbn. split; [by split|]. intros [[]|e]; [done|].
  apply Hthrow. split; [|done]. intros s' Hs'. cbn in Hs'. apply elem_of_cons in Hs' as [->|Hs']; [done|].
  by apply Hc.
Qed.

Lemma safe_saved s h : safe s h -> safe s (event (Save s) (Ok tt) :: h).
Proof. intros [Hc Hs]. split; [|done]. intros s' Hs'. cbn in Hs'. by apply list_elem_of_singleton in Hs' as ->. Qed.

(** ** Stopping *)

Lemma pop_last s p : last (processes s) = Some p -> processes s = processes (pop_process s) ++ [p].
Proof.
  intros [l Hl]%last_Some. unfold pop_process. cbn [set_processes set_run rebuild processes].
  by rewrite Hl, removelast_last.
Qed.

Lemma safe_pop s p h h' :
  safe s h -> keeps h h' -> last (processes s) = Some p -> stopped p h h' -> safe (pop_process s) h'.
Proof.
  intros Hs Hk Hp (pid & Hr & Hg). split; [by eapply keeps_custody|].
  destruct Hk as [Hf _]. pose proof (gone_resolved p pid h h' Hr Hf Hg) as Hn.
  pose proof (covers_frame s h h' Hf (proj2 Hs)) as Hc. intros q Hq.
  pose proof (Hc q Hq) as Hin. unfold pids in *.
  rewrite (pop_last s p Hp), omap_app, list_to_set_app in Hin.
  apply elem_of_union in Hin as [Hin|Hin]; [done|].
  apply elem_of_list_to_set in Hin. cbn in Hin. rewrite Hr in Hin.
  apply list_elem_of_singleton in Hin as ->. done.
Qed.

(** What an operation leaves when it throws, and when it returns *)
Definition safe_or {A} (Q : list Event -> OwnershipState -> A -> Prop)
    (h : list Event) (s : OwnershipState) (r : result A) : Prop :=
  match r with Ok a => Q h s a | Throw _ => safe s h end.

Lemma stop_processes_wp n : forall s h,
  (length (processes s) <= n)%nat -> safe s h -> disk h = [s] ->
  swp pol (stop_processes n) s h (safe_or (fun h s _ => processes s = [] /\ safe s h)).
Proof.
  induction n as [|n IH]; intros s h Hn Hs Hd; cbn [stop_processes].
  { split; [|done]. by destruct (processes s); [|cbn in Hn; lia]. }
  state_steps. destruct (last (processes s)) as [p|] eqn:Hp.
  2: { state_steps. split; [|done]. by apply last_None. }
  state_steps. apply swp_lift. eapply wp_mono; [|apply stop_wp; [exact (proj1 Hs)|]].
  2: { exists s. split; [done|]. by apply last_Some_elem_of. }
  intros h1 [[]|e] [Hk Hg]; [|by eapply safe_keeps].
  pose proof (safe_pop s p h h1 Hs Hk Hp Hg) as Hs1.
  state_steps. apply save_wp; [done| |by intros e He].
  apply IH; [|by apply safe_saved|done].
  rewrite (pop_last s p Hp), length_app in Hn. change (length [p]) with 1%nat in Hn. lia.
Qed.

Lemma stop_all_wp rounds opts id s h :
  safe s h ->
  swp pol (stop rounds opts id) s h (safe_or (fun h s _ => processes s = [] /\ safe s h)).
Proof.
  intros Hs. unfold stop. state_steps. apply swp_quiet; [by split|done|].
  intros h1 [now|e] _ Hs1; [|done]. state_steps. apply swp_quiet; [auto with calls|done|].
  intros h2 [[]|e] _ Hs2; [|done]. state_steps. apply swp_quiet; [auto with calls|done|].
  intros h3 [[]|e] _ Hs3; [|done]. state_steps. apply save_wp; [done| |by intros e He].
  apply stop_processes_wp; [done|by apply safe_saved|done].
Qed.

(** ** Starting a process *)

(** The start leaves the ledger, or adds one process to it. *)
Definition started (options : NativeProcessOptions) (s0 : OwnershipState) (h0 h : list Event)
    (s : OwnershipState) (r : result OwnedResourceIdentity) : Prop :=
  safe s h /\
  match r with
  | Ok p => s = push_process p s0 /\ disk h = [s] /\ r_name p = o_id options /\
            is_Some (pid_of p) /\ goes h0 h
  | Throw _ => True
  end.

Lemma unreaped_cons pid e h : waited e = None -> unreaped pid h = true -> unreaped pid (e :: h) = true.
Proof. intros He Hh. cbn. rewrite He, Hh. by repeat case_bool_decide. Qed.

Lemma kill_wp {A} pid e s h (Q : list Event -> OwnershipState -> result A -> Prop) :
  safe s h -> unreaped pid h = true ->
  (forall h', safe s h' -> Q h' s (Throw e)) ->
  swp pol (do! _ := lift (sys_call (Signal pid SIGKILL)) in
           do! _ := lift (sys_call (Reap pid)) in raises e)%stateful s h Q.
Proof.
  intros Hs Hu HQ. state_steps. apply swp_call; [split; [exact (proj1 Hs)|by right]|]. intros [].
  assert (keeps h (event (Signal pid SIGKILL) tt :: h)) as Hk
    by (apply keeps_cons; [done|apply keeps_refl; exact (proj1 Hs)]).
  pose proof (safe_keeps s h _ Hk Hs) as Hs1.
  state_steps. apply swp_call; [split; [exact (proj1 Hs1)|done]|]. intros [].
  state_steps. apply HQ. eapply safe_keeps; [|exact Hs1]. apply keeps_cons; [done|].
  apply keeps_refl. exact (proj1 Hs1).
Qed.

Lemma safe_push p s h : safe s h -> safe (push_process p s) h.
Proof. intros [Hc Hs]. split; [done|]. unfold covers in *. rewrite pids_push. set_solver. Qed.

(** Behind the gate the process is unresolved, and in the saved ledger. *)
Lemma safe_release p pid s h :
  safe s h -> pid_of p = Some pid -> p ∈ processes s -> disk h = [s] ->
  safe s (event (ReleaseGate pid) true :: h).
Proof.
  intros [Hc Hs] Hp Hin Hd.
  assert (covers s (event (ReleaseGate pid) true :: h)) as Hcov.
  { unfold covers in *. cbn [unresolved loaded released]. apply union_subseteq. split; [|done].
    apply singleton_subseteq_l, elem_of_list_to_set, list_elem_of_omap. by exists p. }
  split; [|done]. intros s' Hs'. cbn in Hs'. rewrite Hd in Hs'. by apply list_elem_of_singleton in Hs' as ->.
Qed.

Lemma safe_calm c x s h : calm c = true -> safe s h -> safe s (event c x :: h).
Proof.
  intros Hc Hs. eapply safe_keeps; [|exact Hs]. apply keeps_cons; [done|].
  apply keeps_refl. exact (proj1 Hs).
Qed.

(** The gate is opened behind the registration; until [exec] is confirmed an
    exception ends the child. *)
Lemma release_wp p pid s h :
  safe s (event (Save s) (Ok tt) :: h) -> pid_of p = Some pid -> p ∈ processes s ->
  r_secondary_id p <> "" -> unreaped pid h = true ->
  swp pol (lift (release_process pid)) s (event (Save s) (Ok tt) :: h)
    (fun h' s' r => s' = s /\ safe s h' /\ disk h' = [s] /\ unreaped pid h' = true /\ goes h h').
Proof.
  intros Hs Hp Hin Hst Hu.
  assert (unreaped pid (event (Save s) (Ok tt) :: h) = true) as Hu1 by by apply unreaped_cons.
  apply swp_lift. split; [split; [exact (proj1 Hs)|by exists s, p, h]|]. intros [].
  - pose proof (safe_release p pid s _ Hs Hp Hin eq_refl) as Hs1.
    assert (unreaped pid (event (ReleaseGate pid) true :: event (Save s) (Ok tt) :: h) = true) as Hu2
      by by apply unreaped_cons.
    split; [split; [exact (proj1 Hs1)|done]|]. intros x.
    assert (unreaped pid (event (PollExec pid) x :: event (ReleaseGate pid) true
              :: event (Save s) (Ok tt) :: h) = true) as Hu3 by by apply unreaped_cons.
    pose proof (safe_calm (PollExec pid) x s _ eq_refl Hs1) as Hs2.
    destruct x; (split; [done|]); (split; [exact Hs2|]); (split; [done|]); auto with calls.
  - assert (unreaped pid (event (ReleaseGate pid) false :: event (Save s) (Ok tt) :: h) = true) as Hu2
      by by apply unreaped_cons.
    split; [done|]. split; [|auto with calls]. split.
    + intros s' Hs'. apply (proj1 Hs). exact Hs'.
    + exact (proj2 Hs).
Qed.

(** The child waits at its gate: it is registered and released, or killed. *)
Lemma registered_wp options p pid s h0 h :
  safe s h -> unreaped pid h = true -> pid_of p = Some pid -> r_name p = o_id options -> goes h0 h ->
  swp pol (catch_state
      (do! _ := (if String.eqb (r_secondary_id p) ""
                 then raises (RuntimeError "E_PROCESS_IDENTITY: unavailable") else returns tt) in
       do! _ := register p in
       do! _ := lift (release_process pid) in
       returns p)
      (fun e => do! _ := lift (sys_call (Signal pid SIGKILL)) in
                do! _ := lift (sys_call (Reap pid)) in raises e))%stateful
    s h (started options s h0).
Proof.
  intros Hs Hu Hp Hname Hg. state_steps.
  destruct (String.eqb_spec (r_secondary_id p) "") as [Hst|Hst]; state_steps.
  { apply kill_wp; [done..|]. by split. }
  unfold register. state_steps. pose proof (safe_push p s h Hs) as Hs1.
  apply save_wp; [done| |].
  - pose proof (safe_saved _ _ Hs1) as Hs2. state_steps.
    eapply swp_mono; [|apply (release_wp p); [exact Hs2|done| |done..]].
    + intros h2 s2 [[]|e] (-> & Hs3 & Hd & Hu3 & Hg3); state_steps.
      * split; [done|]. split; [done|]. split; [done|]. split; [done|]. split; [by eexists|].
        by eapply goes_trans.
      * apply kill_wp; [done..|]. by split.
    + cbn. apply elem_of_app. right. by apply list_elem_of_singleton.
  - intros e He. state_steps. apply kill_wp; [done|by apply unreaped_cons|]. by split.
Qed.

(** Reading about a process waits for none. *)
Definition reads_process (c : sys) : bool :=
  match c with ReadFile _ | ReadStat _ | ReadExe _ => true | _ => false end.

Lemma inspect_wp child pid s h :
  safe s h -> unreaped child h = true ->
  wp pol (inspect_process pid) h (fun h' r =>
    safe s h' /\ unreaped child h' = true /\ goes h h').
Proof.
  intros Hs Hu. apply (wp_calls (fun c => reads_process c = true)); [| |by auto with calls].
  - unfold inspect_process. quiet_prog.
  - intros h' c (Hs' & Hu' & Hg') Hc. split; [split; [exact (proj1 Hs')|by destruct c]|].
    intros x. assert (calm c = true /\ waited (event c x) = None) as [Hcalm Hw] by by destruct c.
    split; [by apply safe_calm|]. split; [by apply unreaped_cons|auto with calls].
Qed.

Lemma start_wp options s h :
  safe s h -> swp pol (start_native_process options register) s h (started options s h).
Proof.
  intros Hs. unfold start_native_process. state_steps.
  apply swp_quiet; [auto with calls|done|].
  intros h1 [digest|e] Hk Hs1; [|by split].
  pose proof (frame_goes _ _ (proj1 Hk)) as Hg.
  state_steps. apply swp_call; [split; [exact (proj1 Hs1)|done]|]. intros [child|]; state_steps.
  2: { split; [by apply safe_calm|done]. }
  set (pid := fork_pid child).
  assert (unreaped pid (event (Fork options) (Some child) :: h1) = true) as Hu
    by (cbn; by rewrite bool_decide_true by done).
  pose proof (safe_calm (Fork options) (Some child) s h1 eq_refl Hs1) as Hs2.
  apply swp_lift. eapply wp_mono; [|by apply (inspect_wp pid pid s)].
  intros h2 [observed|e] (Hs3 & Hu3 & Hg3); [|done]. cbn beta iota.
  assert (goes h h2) as Hg4 by (eapply goes_trans; [exact Hg|]; eapply goes_trans; [|exact Hg3]; auto with calls).
  apply registered_wp; [done|done|apply pid_of_native|done|done].
Qed.
End rules.

(** ** Quiet parts of the startup *)

Lemma quiet_checkpoint : quiet_calls checkpoint.
Proof. unfold checkpoint. quiet_prog. Qed.

Lemma quiet_document parse path : quiet_calls (document parse path).
Proof. unfold document. quiet_prog. Qed.
#[export] Hint Resolve quiet_checkpoint quiet_document : calls.

Lemma quiet_credentials opts : quiet_calls (stage_credentials opts).
Proof. unfold stage_credentials, command. quiet_prog. Qed.

Lemma quiet_application parse types opts resolved id name token :
  quiet_calls (application_program parse types opts resolved id name token).
Proof. unfold application_program. quiet_prog. Qed.
#[export] Hint Resolve quiet_credentials quiet_application : calls.

Lemma quiet_options parse types opts resolved id name s :
  quiet_calls (process_options parse types opts resolved id name s).
Proof. unfold process_options, keep_previous_log. quiet_prog. Qed.

Lemma quiet_round opts resolved p name log deadline :
  quiet_calls (readiness_round opts resolved p name log deadline).
Proof. unfold readiness_round. quiet_prog. Qed.
#[export] Hint Resolve quiet_options quiet_round : calls.

Lemma quiet_ready n opts resolved p name log deadline :
  quiet_calls (await_ready opts resolved n p name log deadline).
Proof. induction n as [|n IH]; cbn [await_ready]; quiet_prog. Qed.

Lemma quiet_directories opts resolved id : quiet_calls (create_directories opts resolved id).
Proof. unfold create_directories. quiet_prog. Qed.

Lemma quiet_identity path s : quiet_calls (directory_identity path s).
Proof. unfold directory_identity. quiet_prog. Qed.
#[export] Hint Resolve quiet_ready quiet_directories quiet_identity : calls.

Lemma quiet_remove_console previous s : quiet_calls (remove_console previous s).
Proof. unfold remove_console, check_retained, remove_entry. quiet_prog. Qed.

Lemma quiet_create_console path : quiet_calls (create_console path).
Proof. unfold create_console. quiet_prog. Qed.

Lemma quiet_relay self copy : quiet_calls (stage_relay self copy).
Proof. unfold stage_relay. quiet_prog. Qed.

Lemma quiet_inherit l e : quiet_calls (for_each_in inherit l e).
Proof. unfold inherit. quiet_prog. Qed.

Lemma quiet_report resolved id s : quiet_calls (report_status resolved id s).
Proof. unfold report_status, report_application, report_process. quiet_prog. Qed.
#[export] Hint Resolve quiet_remove_console quiet_create_console quiet_relay quiet_inherit quiet_report : calls.
End NativeProofs.
