(* ===== verification/NativeRelease.v ===== *)
(** * Native execution: readiness and release

    The invariants of a startup up to the publication of the release barrier,
    and the rules of ProcessProofs.v for every run of [execute_native]. *)

From Stdlib Require Import ZArith Lia Strings.Byte Strings.Ascii Strings.String.
From stdpp Require Import base option gmap strings list.
From S2P Require Import Prelude ConfigValue Text OwnershipState Effects Process ProcessProofs Native NativeProofs.

Module NativeRelease.
Import Text OwnershipState ConfigValue Effects Process ProcessProofs Native NativeProofs.
Local Open Scope Z_scope.

(** ** What the runs show of an application *)

Definition seen_running (r : OwnedResourceIdentity) (h : list Event) : Prop :=
  exists h1, goes h1 h /\ confirmed r h1.
Definition seen_gone (r : OwnedResourceIdentity) (h : list Event) : Prop :=
  exists pid, pid_of r = Some pid /\ gone_since pid [] h.

Lemma seen_running_goes r h h' : goes h h' -> seen_running r h -> seen_running r h'.
Proof. intros Hg (h1 & H1 & Hc). exists h1. split; [by eapply goes_trans|done]. Qed.
Lemma seen_gone_goes r h h' : goes h h' -> seen_gone r h -> seen_gone r h'.
Proof. intros Hg (pid & Hp & H1). exists pid. split; [done|by eapply gone_since_goes]. Qed.

Lemma goes_nil h : goes [] h.
Proof. exists h. by rewrite app_nil_r. Qed.

Lemma stopped_gone r h h' : stopped r h h' -> seen_gone r h'.
Proof.
  intros (pid & Hp & e & h1 & H1 & H2 & He). exists pid. split; [done|].
  exists e, h1. split; [apply goes_nil|done].
Qed.

Section Release.
Context (opts : ExecutionOptions) (resolved : Value) (id : string).

(** A read of the log of the application had the line that it is ready. *)
Definition ready_log (name : string) (h : list Event) : Prop :=
  exists size bytes, event (ReadOpen (log_path opts id name) size) (Some bytes) ∈ h /\
    application_ready bytes name = true.

Lemma ready_log_goes name h h' : goes h h' -> ready_log name h -> ready_log name h'.
Proof.
  intros [l ->] (size & bytes & Hin & Hr). exists size, bytes. rewrite elem_of_app. auto.
Qed.

(** The release may be written: the ledger on disk holds the platform and every
    application once, each was ready and is running; with the [available]
    startup an application may also be gone. *)
Definition process_released (available : bool) (h : list Event) (r : OwnedResourceIdentity) : Prop :=
  (seen_running r h \/ (available = true /\ r_name r <> "platform" /\ seen_gone r h)) /\
  (r_name r = "platform" \/ ready_log (r_name r) h \/ (available = true /\ seen_gone r h)).

Definition may_release (h : list Event) : Prop :=
  exists s available nodes,
    disk h = [s] /\ available_startup resolved = Ok available /\ array_at resolved "nodes" = Ok nodes /\
    length (processes s) = (length nodes + 1)%nat /\ NoDup (map r_name (processes s)) /\
    Forall (process_released available h) (processes s).

Abbreviation pol := (policy may_release).

(** ** Readiness *)

Lemma log_spec path maximum h :
  wp any (read_process_log path maximum) h (fun h' r =>
    match r with Ok bytes => exists size, event (ReadOpen path size) (Some bytes) ∈ h' | Throw _ => True end).
Proof.
  unfold read_process_log. apply wp_and_then. eapply wp_mono; [|apply path_lstats].
  intros h1 [[]|e] _; [|done]. split; [done|]. intros [[m|]|]; [|done|done]. cbn [and_then].
  destruct (_ || _ || _ || _); [done|]. split; [done|]. intros [bytes|]; [|done].
  exists (st_size m). apply list_elem_of_here.
Qed.

Lemma any_goes {A} (p : Prog A) h : quiet_calls p -> wp any p h (fun h' _ => goes h h').
Proof.
  intros Hp. eapply wp_mono; [|by apply (goes_calls (fun c => quiet c = true))].
  intros h' r (l & -> & _). by exists l.
Qed.

Lemma round_spec p name deadline h :
  wp any (readiness_round opts resolved p name (log_path opts id name) deadline) h (fun h' r =>
    match r with Ok true => name = "platform" \/ ready_log name h' | _ => True end).
Proof.
  unfold readiness_round. apply wp_and_then. eapply wp_mono; [|apply any_goes; auto with calls].
  intros h1 [[]|e] _; [|done]. split; [done|]. intros now. cbn [and_then].
  destruct (deadline <=? now); [done|].
  apply wp_and_then. eapply wp_mono; [|apply any_goes; auto with calls].
  intros h2 [pid|e] _; [|done].
  apply wp_and_then. eapply wp_mono; [|apply any_goes; auto with calls].
  intros h3 [identity|e] _; [|done]. split; [done|]. intros [status|]; [done|]. cbn [and_then].
  apply wp_and_then. eapply wp_mono; [|apply log_spec].
  intros h4 [bytes|e]; [|done]. intros [size Hin].
  destruct (String.eqb_spec name "platform") as [Hname|Hname].
  - eapply wp_mono; [|apply any_goes; quiet_prog]. intros h5 [[]|e] _; auto.
  - destruct (application_ready bytes name) eqn:Hr; [right; by exists size, bytes|done].
Qed.

Lemma ready_spec n p name deadline : forall h,
  wp any (await_ready opts resolved n p name (log_path opts id name) deadline) h (fun h' r =>
    match r with Ok _ => name = "platform" \/ ready_log name h' | Throw _ => True end).
Proof.
  induction n as [|n IH]; intros h; cbn [await_ready].
  { split; [done|]. intros []. }
  apply wp_and_then. eapply wp_mono; [|apply round_spec].
  intros h1 [[]|e]; [done| |done]. intros _. split; [done|]. intros []. apply IH.
Qed.

(** ** The startup, process by process *)

Definition recorded (s : OwnershipState) (h : list Event) : Prop :=
  exists s', disk h = [s'] /\ processes s' = processes s.

Definition awaited (available : bool) (h : list Event) (r : OwnedResourceIdentity) : Prop :=
  available = true \/ r_name r = "platform" \/ ready_log (r_name r) h.

Lemma awaited_goes available h h' r : goes h h' -> awaited available h r -> awaited available h' r.
Proof. intros Hg [|[|Hr]]; [by left|by right; left|right; right; by eapply ready_log_goes]. Qed.

(** The ledger of a startup: safe, on disk, and what was started was awaited. *)
Record starting (available : bool) (h : list Event) (s : OwnershipState) : Prop := {
  starting_safe : safe s h;
  starting_recorded : recorded s h;
  starting_awaited : Forall (awaited available h) (processes s);
  starting_apps : applications s = ∅ }.

Lemma recorded_keeps s h h' : keeps h h' -> recorded s h -> recorded s h'.
Proof. intros [Hf _] (s' & Hd & Hp). exists s'. by rewrite (frame_disk _ _ Hf). Qed.

Lemma starting_keeps available s h h' :
  keeps h h' -> starting available h s -> starting available h' s.
Proof.
  intros Hk [Hs Hr Ha Hm]. split; [by eapply safe_keeps|by eapply recorded_keeps| |done].
  eapply Forall_impl; [exact Ha|]. intros r. apply awaited_goes, frame_goes, Hk.
Qed.

Lemma any_true {A} (p : Prog A) h : wp any p h (fun _ _ => True).
Proof. revert h; induction p as [a|e|c k IH]; intros h; [done..|]. split; [done|]. intros x. apply IH. Qed.

Section starts.
Context (parse_document : string -> result Value) (runtime_types : Array) (rounds : nat).

Lemma options_name name s h :
  wp any (process_options parse_document runtime_types opts resolved id name s) h
    (fun _ r => match r with Ok o => o_id o = name | Throw _ => True end).
Proof.
  unfold process_options. apply wp_and_then. eapply wp_mono; [|apply any_true].
  intros h1 [[]|e] _; [|done]. apply wp_and_then. eapply wp_mono; [|apply any_true].
  intros h2 [[[executable argv] own]|e] _; [|done]. apply wp_and_then.
  eapply wp_mono; [|apply any_true]. intros h3 [home|e] _; done.
Qed.

Definition one_more (available : bool) (s0 : OwnershipState) (names : list string)
    (h : list Event) (s : OwnershipState) (r : result unit) : Prop :=
  match r with
  | Ok _ => starting available h s /\ map r_name (processes s) = map r_name (processes s0) ++ names
  | Throw _ => safe s h
  end.

Lemma start_process_wp available name s h :
  starting available h s ->
  swp pol (start_process parse_document runtime_types rounds opts resolved id available name) s h
    (one_more available s [name]).
Proof.
  intros Hst. pose proof (starting_safe _ _ _ Hst) as Hs. unfold start_process. state_steps.
  apply swp_lift. eapply wp_mono;
    [|apply quiet_spec; [apply quiet_options|exact (proj1 Hs)|apply options_name]].
  intros h1 [options|e] [Hk Hname]; [|by eapply safe_keeps].
  pose proof (starting_keeps _ _ _ _ Hk Hst) as Hst1.
  state_steps. eapply swp_mono; [|apply start_wp, (starting_safe _ _ _ Hst1)].
  intros h2 s2 [p|e] [Hs2 Hp]; [|done]. destruct Hp as (-> & Hd & Hpn & _ & Hg).
  assert (map r_name (processes (push_process p s)) = map r_name (processes s) ++ [name]) as Hmap.
  { cbn [push_process set_processes set_run rebuild processes]. rewrite map_app. cbn [map]. by rewrite Hpn, Hname. }
  assert (forall h3, keeps h2 h3 -> awaited available h3 p -> starting available h3 (push_process p s)) as Hfin.
  { intros h3 Hk3 Hp3. split; [by eapply safe_keeps| | |exact (starting_apps _ _ _ Hst)].
    - exists (push_process p s). by rewrite (frame_disk _ _ (proj1 Hk3)).
    - apply Forall_app. split; [|by apply Forall_singleton].
      eapply Forall_impl; [exact (starting_awaited _ _ _ Hst1)|]. intros r.
      apply awaited_goes. eapply goes_trans; [exact Hg|apply frame_goes, Hk3]. }
  assert (keeps h2 h2) as Hk2 by (apply keeps_refl; exact (proj1 Hs2)).
  destruct (available && negb (String.eqb name "platform")) eqn:Hav; state_steps.
  { split; [|done]. apply Hfin; [done|]. left. by apply andb_prop in Hav as [-> _]. }
  apply swp_call; [split; [exact (proj1 Hs2)|done]|]. intros now. state_steps.
  assert (keeps h2 (event Now now :: h2)) as Hk3 by by apply keeps_cons.
  apply (swp_mono _ _ _ _ (fun h3 s3 r => h3 = event Now now :: h2 /\ s3 = push_process p s)).
  2: { destruct (String.eqb name "platform"); [by apply swp_returns|].
       unfold pure. apply swp_lift. by destruct (application_readiness_ms resolved). }
  intros h3 s3 [budget|e] [-> ->]; [|by eapply safe_keeps].
  apply swp_lift. eapply wp_mono;
    [|apply quiet_spec; [auto with calls|exact (keeps_custody _ _ Hk3)|apply ready_spec]].
  intros h4 [[]|e] [Hk4 Hr]; [|eapply safe_keeps; [exact Hk4|by eapply safe_keeps]].
  split; [|done]. apply Hfin; [by eapply keeps_trans|]. right. by rewrite Hpn, Hname.
Qed.

(** Every name of the plan is started once, in the order of the plan. *)
Lemma start_processes_wp available l : forall started s h,
  (forall r, r ∈ processes s -> r_name r ∈ started) -> NoDup (map r_name (processes s)) ->
  starting available h s ->
  swp pol (start_processes parse_document runtime_types rounds opts resolved id available l started) s h
    (fun h s' r => match r with
      | Ok _ => starting available h s' /\ NoDup (map r_name (processes s')) /\
                length (processes s') = (length (processes s) + length l)%nat
      | Throw _ => safe s' h
      end).
Proof.
  induction l as [|process l IH]; intros started s h Hin Hnd Hst; cbn [start_processes].
  { apply swp_returns. split; [done|]. split; [done|]. cbn. lia. }
  pose proof (starting_safe _ _ _ Hst) as Hs.
  state_steps. apply swp_quiet; [auto with calls|done|]. intros h1 [[]|e] Hk1 Hs1; [|done].
  pose proof (starting_keeps _ _ _ _ Hk1 Hst) as Hst1.
  state_steps. unfold pure. apply swp_lift. unfold plan_name.
  destruct (text_at process "id") as [name|e]; [|done]. cbn [bind].
  destruct (bool_decide_reflect (name ∈ started)) as [Hname|Hname]; [done|].
  cbn [of_result wp]. state_steps. eapply swp_mono; [|by apply start_process_wp].
  intros h2 s2 [[]|e]; [|done]. intros [Hst2 Hmap]. cbn [fst snd] in *.
  assert (length (processes s2) = S (length (processes s))) as Hlen.
  { rewrite <-(length_map r_name (processes s2)), Hmap, length_app, length_map. cbn. lia. }
  eapply swp_mono; [|apply IH; [| |exact Hst2]].
  - intros h3 s3 [[]|e]; [|done]. intros (Hst3 & Hnd3 & Hlen3). rewrite Hlen3, Hlen. cbn [length].
    split; [done|]. split; [done|lia].
  - intros r Hr. assert (r_name r ∈ map r_name (processes s2)) as Hr2 by by apply list_elem_of_fmap_2.
    rewrite Hmap in Hr2. apply elem_of_app in Hr2 as [Hr2|Hr2].
    + apply list_elem_of_fmap in Hr2 as (r' & -> & Hr'). apply elem_of_union_r. by apply Hin.
    + apply list_elem_of_singleton in Hr2 as ->. by apply elem_of_union_l, elem_of_singleton.
  - rewrite Hmap. apply NoDup_app. split; [done|]. split; [|apply NoDup_singleton].
    intros x Hx Hx'. apply list_elem_of_singleton in Hx' as ->. apply Hname.
    apply list_elem_of_fmap in Hx as (r & -> & Hr). by apply Hin.
Qed.
End starts.

(** ** Admission of applications *)

Lemma recorded_processes s s' h : processes s = processes s' -> recorded s h -> recorded s' h.
Proof. intros Hp (s1 & Hd & H1). exists s1. by rewrite H1. Qed.

Section admission.
Context (ps : list OwnedResourceIdentity) (Hnames : NoDup (map r_name ps)).

Lemma same_name r p : r ∈ ps -> p ∈ ps -> r_name r = r_name p -> r = p.
Proof.
  clear opts resolved id. induction ps as [|q l IH]; intros Hr Hp Heq; [by apply elem_of_nil in Hr|].
  cbn [map] in Hnames. apply NoDup_cons in Hnames as [Hq Hl].
  apply elem_of_cons in Hr as [->|Hr], Hp as [->|Hp]; [done| | |by apply IH].
  - destruct Hq. rewrite Heq. by apply list_elem_of_fmap_2.
  - destruct Hq. rewrite <-Heq. by apply list_elem_of_fmap_2.
Qed.

(** What is known of an application with an admission *)
Definition evidence (h : list Event) (r : OwnedResourceIdentity) : Prop :=
  ready_log (r_name r) h \/ seen_gone r h.

Lemma evidence_goes h h' r : goes h h' -> evidence h r -> evidence h' r.
Proof. intros Hg [Hr|Hr]; [left; by eapply ready_log_goes|right; by eapply seen_gone_goes]. Qed.

Record admitting (h : list Event) (s : OwnershipState) : Prop := {
  admitting_safe : safe s h;
  admitting_recorded : recorded s h;
  admitting_processes : processes s = ps;
  admitting_evidence : forall r, r ∈ ps -> is_Some (applications s !! r_name r) -> evidence h r }.

Lemma admitting_keeps s h h' : keeps h h' -> admitting h s -> admitting h' s.
Proof.
  intros Hk [Hs Hr Hp He]. split; [by eapply safe_keeps|by eapply recorded_keeps|done|].
  intros r Hin Ha. eapply evidence_goes; [apply frame_goes, Hk|by apply He].
Qed.

Definition settled (s : OwnershipState) (p : OwnedResourceIdentity) : Prop :=
  r_name p = "platform" \/ is_Some (applications s !! r_name p).
Definition grows (s s' : OwnershipState) : Prop :=
  forall name, is_Some (applications s !! name) -> is_Some (applications s' !! name).

Lemma grows_settled s s' p : grows s s' -> settled s p -> settled s' p.
Proof. intros Hg [Hn|Ha]; [by left|right; by apply Hg]. Qed.

(** A step of the round: whether [p] is pending *)
Definition admitted (p : OwnedResourceIdentity) (s : OwnershipState) (h : list Event)
    (s' : OwnershipState) (r : result bool) : Prop :=
  match r with
  | Ok pending => admitting h s' /\ grows s s' /\ (pending = false -> settled s' p)
  | Throw _ => safe s' h
  end.

Lemma admit_as p value s h :
  p ∈ ps -> admitting h s -> evidence h p ->
  admitted p s h (set_application (r_name p) value s) (Ok false).
Proof.
  intros Hp [Hs Hr Hps He] Hev. split; [split|].
  - by apply (safe_processes s).
  - by apply (recorded_processes s).
  - exact Hps.
  - intros r Hin Ha. destruct (decide (r_name r = r_name p)) as [Heq|Hne].
    + by rewrite (same_name r p Hin Hp Heq).
    + apply He; [done|]. cbn in Ha. by rewrite lookup_insert_ne in Ha.
  - split; [|intros _; right; cbn; by rewrite lookup_insert_eq].
    intros name Ha. cbn. destruct (decide (r_name p = name)) as [->|Hne];
      [by rewrite lookup_insert_eq|by rewrite lookup_insert_ne].
Qed.

Lemma admitted_same p s h b : admitting h s -> (b = false -> settled s p) -> admitted p s h s (Ok b).
Proof. intros Ha Hb. split; [done|]. by split; [intros name|]. Qed.

Lemma admit_application_wp p deadline s h :
  p ∈ ps -> admitting h s ->
  swp pol (admit_application opts id deadline p) s h (admitted p s).
Proof.
  intros Hp Ha. unfold admit_application. state_steps. apply swp_lift.
  eapply wp_mono; [|apply status_wp; exact (proj1 (admitting_safe _ _ Ha))].
  intros h1 [[alive status]|e] [Hk Hst]; [|eapply safe_keeps; [exact Hk|apply Ha]].
  pose proof (admitting_keeps _ _ _ Hk Ha) as Ha1. pose proof (admitting_safe _ _ Ha1) as Hs1.
  destruct alive; cbn [negb fst snd].
  2: { destruct (unclassified status); [by apply swp_raises|]. state_steps.
       apply admit_as; [done|done|]. right. by apply (stopped_gone p h). }
  state_steps. apply swp_call; [split; [exact (proj1 Hs1)|done]|]. intros now.
  set (h2 := event Now now :: h1).
  assert (keeps h1 h2) as Hk2 by (apply keeps_cons; [done|apply keeps_refl; exact (proj1 Hs1)]).
  pose proof (admitting_keeps _ _ _ Hk2 Ha1) as Ha2. clearbody h2. state_steps.
  apply (swp_mono _ _ _ _ (fun h3 s3 r => s3 = s /\ keeps h2 h3 /\
    match r with Ok true => ready_log (r_name p) h3 | _ => True end)).
  2: { assert (keeps h2 h2) as Hk22 by (apply keeps_refl, (admitting_safe _ _ Ha2)).
       destruct (now <? deadline); [|by apply swp_returns]. state_steps. apply swp_lift.
       eapply wp_mono; [|apply quiet_spec; [auto with calls|apply (admitting_safe _ _ Ha2)|apply log_spec]].
       intros h3 [log|e] [Hk3 Hlog]; [|done]. state_steps. split; [done|]. split; [done|].
       destruct (application_ready log (r_name p)) eqn:Hr; [|done].
       destruct Hlog as [size Hin]. by exists size, log. }
  intros h3 s3 [ready|e] (-> & Hk3 & Hr); [|eapply safe_keeps; [exact Hk3|apply Ha2]].
  pose proof (admitting_keeps _ _ _ Hk3 Ha2) as Ha3. pose proof (admitting_safe _ _ Ha3) as Hs3.
  destruct ready; state_steps; [by apply admit_as; [| |left]|].
  apply swp_call; [split; [exact (proj1 Hs3)|done]|]. intros now4.
  set (h4 := event Now now4 :: h3).
  assert (keeps h3 h4) as Hk4 by (apply keeps_cons; [done|apply keeps_refl; exact (proj1 Hs3)]).
  pose proof (admitting_keeps _ _ _ Hk4 Ha3) as Ha4. clearbody h4. state_steps.
  destruct (deadline <=? now4); [|by apply swp_returns, admitted_same].
  state_steps. apply swp_lift. eapply wp_mono; [|apply stop_wp; [apply (admitting_safe _ _ Ha4)|]].
  2: { destruct (admitting_recorded _ _ Ha4) as (s' & Hd & Hps'). exists s'. split; [done|].
       by rewrite Hps', (admitting_processes _ _ Ha4). }
  intros h5 [[]|e] [Hk5 Hg]; [|eapply safe_keeps; [exact Hk5|apply Ha4]]. state_steps.
  apply admit_as; [done|by eapply admitting_keeps|]. right. by apply (stopped_gone p h4).
Qed.

Lemma admit_wp p deadline s h :
  p ∈ ps -> admitting h s -> swp pol (admit_process opts id deadline p) s h (admitted p s).
Proof.
  intros Hp Ha. unfold admit_process. state_steps. pose proof (admitting_safe _ _ Ha) as Hs.
  destruct (String.eqb_spec (r_name p) "platform") as [Hn|Hn].
  - state_steps. apply swp_quiet; [auto with calls|done|]. intros h1 [[]|e] Hk Hs1; [|done|done].
    state_steps. apply admitted_same; [by eapply admitting_keeps|by left].
  - destruct (bool_decide_reflect (is_Some (applications s !! r_name p))) as [Hsome|Hnone].
    + state_steps. apply admitted_same; [done|by right].
    + by apply admit_application_wp.
Qed.

Lemma admit_all_wp deadline l : forall s h,
  (forall p, p ∈ l -> p ∈ ps) -> admitting h s ->
  swp pol (admit_all opts id deadline l) s h (fun h s' r =>
    match r with
    | Ok pending => admitting h s' /\ grows s s' /\ (pending = false -> forall p, p ∈ l -> settled s' p)
    | Throw _ => safe s' h
    end).
Proof.
  induction l as [|p l IH]; intros s h Hl Ha; cbn [admit_all].
  { apply swp_returns. split; [done|]. split; [by intros name|]. by intros _ p Hp%elem_of_nil. }
  state_steps. eapply swp_mono; [|apply admit_wp; [apply Hl, list_elem_of_here|done]].
  intros h1 s1 [pending|e]; [|done]. intros (Ha1 & Hg1 & Hp1). state_steps.
  eapply swp_mono; [|apply IH; [|done]].
  2: { intros q Hq. apply Hl. by apply elem_of_cons; right. }
  intros h2 s2 [more|e]; [|done]. intros (Ha2 & Hg2 & Hp2). state_steps.
  split; [done|]. split; [intros name Hsome; by apply Hg2, Hg1|].
  intros [-> ->]%orb_false_elim q [->|Hq]%elem_of_cons; [|by apply Hp2].
  eapply grows_settled; [done|by apply Hp1].
Qed.

Lemma admission_wp n deadline : forall s h,
  admitting h s ->
  swp pol (admission opts n id deadline) s h (fun h s' r =>
    match r with
    | Ok _ => admitting h s' /\ forall p, p ∈ ps -> settled s' p
    | Throw _ => safe s' h
    end).
Proof.
  induction n as [|n IH]; intros s h Ha; cbn [admission].
  { apply swp_lift. split; [split; [apply (admitting_safe _ _ Ha)|done]|]. intros []. }
  pose proof (admitting_safe _ _ Ha) as Hs.
  state_steps. apply swp_quiet; [auto with calls|done|]. intros h1 [[]|e] Hk1 Hs1; [|done].
  pose proof (admitting_keeps _ _ _ Hk1 Ha) as Ha1.
  state_steps. rewrite (admitting_processes _ _ Ha1).
  eapply swp_mono; [|by apply admit_all_wp].
  intros h2 s2 [pending|e]; [|done]. intros (Ha2 & Hg2 & Hp2). state_steps.
  apply save_wp; [apply Ha2| |by intros e He].
  pose proof (safe_saved _ _ (admitting_safe _ _ Ha2)) as Hs3.
  assert (admitting (event (Save s2) (Ok tt) :: h2) s2) as Ha3.
  { split; [done|by exists s2|apply Ha2|]. intros r Hr Hsome.
    eapply evidence_goes; [|by apply (admitting_evidence _ _ Ha2)]. auto with calls. }
  destruct pending; state_steps; [|by split; [|apply Hp2]].
  apply swp_call; [split; [exact (proj1 Hs3)|done]|]. intros []. state_steps.
  apply IH. eapply admitting_keeps; [|exact Ha3]. apply keeps_cons; [done|].
  apply keeps_refl. exact (proj1 Hs3).
Qed.

(** ** The last look at the processes *)

Definition live (available : bool) (h : list Event) (r : OwnedResourceIdentity) : Prop :=
  seen_running r h \/ (available = true /\ r_name r <> "platform" /\ seen_gone r h).

Lemma live_goes available h h' r : goes h h' -> live available h r -> live available h' r.
Proof.
  intros Hg [Hl|(Ha & Hn & Hl)]; [left; by eapply seen_running_goes|right].
  split; [done|]. split; [done|]. by eapply seen_gone_goes.
Qed.

Record confirming (h : list Event) (s : OwnershipState) : Prop := {
  confirming_safe : safe s h; confirming_recorded : recorded s h;
  confirming_processes : processes s = ps }.

Lemma confirming_keeps s h h' : keeps h h' -> confirming h s -> confirming h' s.
Proof. intros Hk [Hs Hr Hp]. split; [by eapply safe_keeps|by eapply recorded_keeps|done]. Qed.

Lemma confirm_wp available p s h :
  confirming h s ->
  swp pol (confirm_process available p) s h (fun h' s' r =>
    match r with
    | Ok _ => confirming h' s' /\ goes h h' /\ live available h' p
    | Throw _ => safe s' h'
    end).
Proof.
  intros Hc. unfold confirm_process. state_steps. apply swp_lift.
  eapply wp_mono; [|apply status_wp, (confirming_safe _ _ Hc)].
  intros h1 [[alive status]|e] [Hk Hst]; [|eapply safe_keeps; [exact Hk|apply Hc]].
  pose proof (confirming_keeps _ _ _ Hk Hc) as Hc1. pose proof (frame_goes _ _ (proj1 Hk)) as Hg.
  cbn [fst snd]. destruct alive; state_steps.
  { split; [done|]. split; [done|]. left. exists h1. split; [apply goes_refl|done]. }
  destruct available; cbn [negb orb]; [|by apply swp_raises, Hc1].
  destruct (String.eqb_spec (r_name p) "platform") as [Hn|Hn]; [by apply swp_raises, Hc1|].
  assert (live true h1 p) as Hlive by (right; split_and!; [done|done|by apply (stopped_gone p h)]).
  state_steps. destruct (applications s !! r_name p) as [admission|]; [|by apply swp_raises, Hc1].
  destruct (String.eqb admission "ready"); [|by apply swp_returns].
  destruct (unclassified status); [by apply swp_raises, Hc1|]. state_steps.
  split; [|done]. destruct Hc1 as [Hs Hr Hp].
  split; [by apply (safe_processes s)|by apply (recorded_processes s)|exact Hp].
Qed.

Lemma confirm_all_wp available l : forall s h,
  confirming h s ->
  swp pol (for_each_state (confirm_process available) l) s h (fun h' s' r =>
    match r with
    | Ok _ => confirming h' s' /\ goes h h' /\ Forall (live available h') l
    | Throw _ => safe s' h'
    end).
Proof.
  induction l as [|p l IH]; intros s h Hc; cbn [for_each_state].
  { apply swp_returns. split; [done|]. split; [apply goes_refl|constructor]. }
  state_steps. eapply swp_mono; [|by apply confirm_wp].
  intros h1 s1 [[]|e]; [|done]. intros (Hc1 & Hg1 & Hl1).
  eapply swp_mono; [|by apply IH].
  intros h2 s2 [[]|e]; [|done]. intros (Hc2 & Hg2 & Hl2).
  split; [done|]. split; [by eapply goes_trans|]. constructor; [by eapply live_goes|done].
Qed.
End admission.

(** ** Publication *)

Lemma publish_wp path token h :
  custody h -> (forall h', keeps h h' -> may_release h') ->
  wp pol (publish_execution_file path token) h (fun h' _ => keeps h h').
Proof.
  intros Hc Hmay. unfold publish_execution_file.
  apply wp_and_then. eapply wp_mono; [|apply quiet_wp; [auto with calls|done]].
  intros h1 [[]|e] Hk1; [|done]. apply wp_and_then.
  split; [split; [by eapply keeps_custody|done]|]. intros opened.
  assert (keeps h (event (OpenExclusive (path +:+ ".pending")) opened :: h1)) as Hk2 by by apply keeps_cons.
  cbn [wp]. destruct opened; cbn [negb]; [|done].
  apply wp_and_then. split; [split; [by eapply keeps_custody|by apply Hmay]|]. intros written.
  cbn [wp]. eapply wp_mono; [|apply quiet_wp].
  - intros h3 r Hk3. eapply keeps_trans; [|exact Hk3]. by apply keeps_cons.
  - quiet_prog.
  - eapply keeps_custody. by apply keeps_cons.
Qed.

(** ** The whole startup *)

Section execute.
Context (parse_document : string -> result Value) (runtime_types : Array) (rounds : nat)
  (config_hash : string).

(** Result of a step that may change the ledger: it stays safe. *)
Definition stays_safe {A} (h : list Event) (s : OwnershipState) (_ : result A) : Prop := safe s h.

Lemma console_wp s h : safe s h -> swp pol (start_node_console opts) s h stays_safe.
Proof.
  intros Hs. unfold start_node_console. state_steps.
  apply swp_call; [split; [exact (proj1 Hs)|done]|]. intros self.
  pose proof (safe_calm (ReadLink "/proc/self/exe") self s h eq_refl Hs) as Hs1. state_steps.
  apply (swp_mono _ _ _ _ (fun h2 s2 r => s2 = s /\ safe s h2)).
  2: { destruct (is_empty (x_release opts)); [|by apply swp_returns]. state_steps.
       apply swp_quiet; [auto with calls|done|]. intros h2 [[]|e] Hk2 Hs2; [|done]. by state_steps. }
  intros h2 s2 [executable|e] [-> Hs2]; [|done]. state_steps.
  apply swp_call; [split; [exact (proj1 Hs2)|done]|]. intros path.
  pose proof (safe_calm (Getenv "PATH") path s _ eq_refl Hs2) as Hs3. state_steps.
  apply swp_quiet; [auto with calls|done|]. intros h4 [environment|e] Hk4 Hs4; [|done]. state_steps.
  eapply swp_mono; [|by apply start_wp]. intros h5 s5 [p|e] [Hs5 _]; [|done]. by state_steps.
Qed.

Lemma release_tail_wp available nodes s h ps :
  available_startup resolved = Ok available -> array_at resolved "nodes" = Ok nodes ->
  NoDup (map r_name ps) -> length ps = (length nodes + 1)%nat ->
  confirming ps h s -> Forall (live available h) ps ->
  Forall (fun r => r_name r = "platform" \/ ready_log (r_name r) h \/ (available = true /\ seen_gone r h)) ps ->
  swp pol (lift (publish_execution_file (barrier opts id) (owner_token s))) s h (fun h' s' _ => s' = s /\ safe s h').
Proof.
  intros Hav Hnodes Hnd Hlen [Hs Hrec Hps] Hlive Hready.
  apply swp_lift. eapply wp_mono; [|apply publish_wp; [exact (proj1 Hs)|]].
  - intros h1 r Hk. split; [done|]. eapply safe_keeps; [exact Hk|exact Hs].
  - intros h1 Hk. pose proof (frame_goes _ _ (proj1 Hk)) as Hg.
    destruct Hrec as (s1 & Hd & Hp1). exists s1, available, nodes.
    rewrite (frame_disk _ _ (proj1 Hk)), Hp1, Hps. split_and!; [done..|].
    apply Forall_forall. intros r Hr. split.
    + eapply live_goes; [exact Hg|]. exact (proj1 (Forall_forall _ _) Hlive r Hr).
    + destruct (proj1 (Forall_forall _ _) Hready r Hr) as [Hn|[Hl|[Ha Hgone]]]; [by left|right..].
      * left. by eapply ready_log_goes.
      * right. split; [done|by eapply seen_gone_goes].
Qed.

(** From the last look to the end *)
Lemma finish_wp available nodes s h ps :
  available_startup resolved = Ok available -> array_at resolved "nodes" = Ok nodes ->
  NoDup (map r_name ps) -> length ps = (length nodes + 1)%nat -> confirming ps h s ->
  Forall (fun r => r_name r = "platform" \/ ready_log (r_name r) h \/ (available = true /\ seen_gone r h)) ps ->
  swp pol (finish opts resolved id available) s h stays_safe.
Proof.
  intros Hav Hnodes Hnd Hlen Hc Hready. unfold finish. state_steps.
  rewrite (confirming_processes _ _ _ Hc).
  eapply swp_mono; [|by apply (confirm_all_wp ps)].
  intros h1 s1 [[]|e]; [|done]. intros (Hc1 & Hg1 & Hlive). state_steps.
  apply swp_quiet; [auto with calls|apply Hc1|]. intros h2 [[]|e] Hk2 Hs2; [|done]. state_steps.
  pose proof (frame_goes _ _ (proj1 Hk2)) as Hg2.
  eapply swp_mono; [|eapply (release_tail_wp available nodes s1 h2 ps)]; try done.
  - intros h3 s3 [[]|e] [-> Hs3]; [|done]. state_steps.
    assert (safe (set_status "ready" s1) h3) as Hs3' by by apply (safe_processes s1).
    apply save_wp; [done| |by intros e He]. pose proof (safe_saved _ _ Hs3') as Hs4. state_steps.
    eapply swp_mono; [|by apply console_wp]. intros h5 s5 [[]|e] Hs5; [|done]. state_steps.
    apply (swp_mono _ _ _ _ (fun h6 s6 r => s6 = s5 /\ safe s5 h6)).
    2: { unfold pure. destruct available; [|by apply swp_returns]. apply swp_lift.
         by destruct (application_status _ _). }
    intros h6 s6 [text|e] [-> Hs6]; [|done]. unfold sys_run.
    apply swp_call; [split; [exact (proj1 Hs6)|done]|]. intros []. by apply safe_calm.
  - by eapply confirming_keeps.
  - eapply Forall_impl; [exact Hlive|]. intros r. by apply live_goes.
  - eapply Forall_impl; [exact Hready|]. intros r [Hn|[Hl|[Ha Hgone]]]; [by left|right..].
    + left. eapply ready_log_goes; [|exact Hl]. by eapply goes_trans.
    + right. split; [done|]. eapply seen_gone_goes; [|exact Hgone]. by eapply goes_trans.
Qed.

(** From the started processes to those with an admission *)
Lemma admitted_wp available s h :
  starting available h s -> NoDup (map r_name (processes s)) ->
  swp pol (admit_processes rounds opts resolved id available) s h (fun h' s' r =>
    match r with
    | Ok _ => confirming (processes s) h' s' /\
        Forall (fun r => r_name r = "platform" \/ ready_log (r_name r) h' \/ (available = true /\ seen_gone r h'))
          (processes s)
    | Throw _ => safe s' h'
    end).
Proof.
  intros [Hs Hr Ha Happ] Hnd. unfold admit_processes. destruct available.
  - state_steps. apply swp_call; [split; [exact (proj1 Hs)|done]|]. intros now.
    assert (keeps h (event Now now :: h)) as Hk
      by (apply keeps_cons; [done|apply keeps_refl; exact (proj1 Hs)]).
    state_steps. unfold pure. apply swp_lift.
    destruct (application_readiness_ms resolved) as [budget|e]; [|by eapply safe_keeps].
    cbn [of_result wp].
    eapply swp_mono; [|apply (admission_wp (processes s) Hnd)].
    + intros h2 s2 [[]|e]; [|done]. intros [[Hs2 Hr2 Hps2 He2] Hset]. split; [done|].
      apply Forall_forall. intros r Hin. destruct (Hset r Hin) as [Hn|Hsome]; [by left|right].
      destruct (He2 r Hin Hsome); auto.
    + split; [by eapply safe_keeps|by eapply recorded_keeps|done|].
      intros r _ [x Hx]. by rewrite Happ in Hx.
  - apply swp_returns. split; [done|]. eapply Forall_impl; [exact Ha|].
    intros r [|[Hn|Hl]]; [done|by left|by right; left].
Qed.

Lemma platform_first_length l parts :
  platform_first l = Ok parts -> length (parts.1 ++ parts.2) = length l.
Proof.
  revert parts; induction l as [|p l IH]; intros parts; cbn [platform_first]; [by intros [= <-]|].
  destruct (is_platform p) as [b|e]; [|done]. cbn [bind].
  destruct (platform_first l) as [q|e]; [|done]. cbn [bind]. intros [= <-].
  specialize (IH q eq_refl). rewrite length_app in *. destruct b; cbn [fst snd length]; lia.
Qed.

Lemma startup_wp s h :
  safe s h -> processes s = [] -> applications s = ∅ ->
  swp pol (startup parse_document runtime_types rounds opts resolved id) s h stays_safe.
Proof.
  intros Hs Hps Happ. unfold startup, pure. state_steps.
  apply swp_quiet; [auto with calls|done|]. intros h1 [credentials|e] _ Hs1; [|done]. state_steps.
  set (s1 := set_credentials (x_credentials opts) credentials s).
  assert (safe s1 h1) as Hs1' by by apply (safe_processes s).
  apply save_wp; [done| |by intros e He]. pose proof (safe_saved _ _ Hs1') as Hs2.
  assert (forall b, starting b (event (Save s1) (Ok tt) :: h1) s1) as Hst0.
  { intros b. split; [done|by exists s1| |done]. change (processes s1) with (processes s). rewrite Hps. constructor. }
  set (h2 := event (Save s1) (Ok tt) :: h1) in *. clearbody h2. state_steps.
  apply swp_quiet; [auto with calls|done|]. intros h3 [plan|e] Hk3 Hs3; [|done]. state_steps.
  apply swp_lift. destruct (array_at plan "processes") as [processes_|e]; [|done].
  cbn [of_result wp]. state_steps.
  apply swp_lift. destruct (array_at resolved "nodes") as [nodes|e] eqn:Hnodes; [|done].
  cbn [of_result wp]. state_steps.
  destruct (Nat.eqb_spec (length processes_) (length nodes + 1)) as [Hlen|Hlen]; [|done]. state_steps.
  apply swp_lift. destruct (platform_first processes_) as [parts|e] eqn:Hparts; [|done].
  cbn [of_result wp]. state_steps.
  apply swp_lift. destruct (available_startup resolved) as [available|e] eqn:Hav; [|done].
  cbn [of_result wp]. state_steps.
  assert (processes s1 = []) as Hps1 by exact Hps.
  eapply swp_mono; [|apply start_processes_wp; [| |by eapply starting_keeps]].
  2: { rewrite Hps1. by intros r Hr%elem_of_nil. }
  2: { rewrite Hps1. constructor. }
  intros h4 s4 [[]|e]; [|done]. intros (Hst4 & Hnd4 & Hlen4). state_steps.
  rewrite Hps1, (platform_first_length _ _ Hparts), Hlen in Hlen4.
  eapply swp_mono; [|by apply admitted_wp].
  intros h5 s5 [[]|e]; [|done]. intros [Hc5 Hready]. by eapply finish_wp.
Qed.

Lemma prepare_wp root s h :
  safe s h ->
  swp pol (prepare_node_console root) s h (fun h' s' r =>
    match r with
    | Ok _ => safe s' h' /\ processes s' = processes s /\ applications s' = applications s
    | Throw _ => safe s' h'
    end).
Proof.
  intros Hs. unfold prepare_node_console. state_steps.
  apply (swp_mono _ _ _ _ (fun h2 s2 r => s2 = s /\ safe s h2)).
  2: { destruct (is_empty (console_name s)); [by apply swp_returns|].
       apply swp_quiet; [auto with calls|done|]. by intros h2 r Hk2 Hs2. }
  intros h2 s2 [[]|e] [-> Hs2]; [|done]. state_steps.
  apply swp_call; [split; [exact (proj1 Hs2)|done]|]. intros token. state_steps.
  pose proof (safe_calm RandomToken token s h2 eq_refl Hs2) as Hs3.
  set (s3 := set_console _ 0 0 s). assert (safe s3 (event RandomToken token :: h2)) as Hs3'
    by by apply (safe_processes s).
  apply save_wp; [done| |by intros e He]. pose proof (safe_saved _ _ Hs3') as Hs4. state_steps.
  apply swp_quiet; [auto with calls|done|]. intros h5 [[inode device]|e] Hk5 Hs5; [|done]. state_steps.
  set (s5 := set_console _ _ _ s3). assert (safe s5 h5) as Hs5' by by apply (safe_processes s3).
  apply save_wp; [done| |by intros e He]. split; [by apply safe_saved|done].
Qed.

Lemma up_wp s h :
  safe s h -> swp pol (up parse_document runtime_types rounds opts resolved id) s h stays_safe.
Proof.
  intros Hs. unfold up. state_steps.
  destruct (processes s) as [|p ps] eqn:Hps; cbn [is_nil]; [|done]. state_steps.
  apply swp_quiet; [auto with calls|done|]. intros h1 [[]|e] Hk1 Hs1; [|done]. state_steps.
  apply swp_quiet; [auto with calls|done|]. intros h2 [[]|e] Hk2 Hs2; [|done]. state_steps.
  set (s2 := set_run "creating" ∅ [] s).
  assert (safe s2 h2) as Hs2' by by apply (safe_processes s).
  apply save_wp; [done| |by intros e He]. pose proof (safe_saved _ _ Hs2') as Hs3. state_steps.
  eapply swp_mono; [|by apply prepare_wp].
  intros h4 s4 [[]|e]; [|done]. intros (Hs4 & Hps4 & Happ4). state_steps.
  eapply swp_mono; [|by apply startup_wp].
  intros h5 s5 [[]|e] Hs5; [done|]. state_steps.
  eapply swp_mono; [|by apply stop_all_wp].
  intros h6 s6 [[]|failure] Hs6; state_steps.
  - apply Hs6.
  - apply (swp_call pol (Log _)); [split; [exact (proj1 Hs6)|done]|]. intros []. state_steps. by apply safe_calm.
Qed.

(** Every run obeys the rules, and [down] ends with no process. *)
Lemma execute_wp :
  wp pol (execute_native parse_document runtime_types rounds opts resolved config_hash id) [] (fun h r =>
    match r with
    | Ok (s, r) => safe s h /\
        (x_action opts = "down" -> r = Ok tt -> processes s = [])
    | Throw _ => custody h
    end).
Proof.
  assert (custody []) as Hc by by intros s Hs%elem_of_nil.
  unfold execute_native. apply wp_and_then. apply (wp_mono _ _ _ (fun h r =>
    match r with Ok s => safe s h | Throw _ => custody h end)).
  - intros h [s|e] Hs; [|done].
    destruct (String.eqb_spec (x_action opts) "status") as [Hst|Hst]; [|destruct (String.eqb_spec (x_action opts) "down") as [Hd|Hd]];
      apply swp_wp.
    + apply swp_quiet; [auto with calls|done|]. intros h' r Hk Hs'. split; [done|]. by rewrite Hst.
    + unfold down. state_steps. eapply swp_mono; [|by apply stop_all_wp].
      intros h1 s1 [[]|e]; [|by intros Hs1]. intros [Hps Hs1].
      apply (swp_call pol (Print _)); [split; [exact (proj1 Hs1)|done]|]. intros [].
      split; [by apply safe_calm|done].
    + eapply swp_mono; [|by apply up_wp]. intros h1 s1 r Hs1. split; [exact Hs1|done].
  - unfold open_ledger. apply wp_and_then. split; [done|]. intros exists_. cbn [wp].
    destruct exists_; cbn [and_then].
    + apply wp_and_then, wp_and_then. split; [done|]. intros [s|e]; [|done]. cbn [wp of_result].
      assert (safe s [event (Load (state_file opts id)) (Ok s); event (Exists (state_file opts id)) true]) as Hs.
      { assert (covers s [event (Load (state_file opts id)) (Ok s); event (Exists (state_file opts id)) true]) as Hcov
          by (unfold covers; cbn; set_solver).
        split; [|done]. intros s' Hs'. cbn in Hs'. by apply list_elem_of_singleton in Hs' as ->. }
      destruct (_ || _); [exact (proj1 Hs)|done].
    + split; [done|]. intros token. split; [done|]. done.
Qed.
End execute.
End Release.
End NativeRelease.
