(* ===== verification/NativeTheorems.v ===== *)
(** * Native execution: theorems

    For every answer of the system, every ledger on disk, and a stop at any
    point: who is signalled, what the ledger knows, when the release is
    published, what a finished [down] has seen, and what a child did before it
    runs its program. *)

From Stdlib Require Import ZArith Lia Strings.Byte Strings.Ascii Strings.String.
From stdpp Require Import base option gmap strings list.
From S2P Require Import Prelude ConfigValue Text OwnershipState Effects Process ProcessProofs Native NativeProofs NativeRelease.

Module NativeTheorems.
Import Text OwnershipState ConfigValue Effects Process ProcessProofs Native NativeProofs NativeRelease.
Local Open Scope Z_scope.

(** A process of a ledger that is resolved was seen gone behind its load. *)
Lemma resolved_seen s0 path h1 h2 pid :
  pid ∈ pids s0 -> pid ∉ unresolved (h1 ++ event (Load path) (Ok s0) :: h2) ->
  exists e, e ∈ h1 /\ gone e = Some pid.
Proof.
  intros Hin. induction h1 as [|e h1 IH]; cbn [app unresolved].
  { intros Hn. destruct Hn. cbn. by apply elem_of_union_l. }
  intros Hn. destruct (decide (gone e = Some pid)) as [Hg|Hg].
  { exists e. split; [apply list_elem_of_here|done]. }
  assert (pid ∉ unresolved (h1 ++ event (Load path) (Ok s0) :: h2)) as Hn1.
  { intros H1. apply Hn. destruct (loaded e); [by apply elem_of_union_r|].
    destruct (released e); [by apply elem_of_union_r|].
    destruct (gone e) as [q|]; [|done]. apply elem_of_difference. split; [done|].
    intros ->%elem_of_singleton. done. }
  destruct (IH Hn1) as (e' & He & Hg'). exists e'. split; [by apply elem_of_cons; right|done].
Qed.

Section theorems.
Context (parse_document : string -> result Value) (runtime_types : Array) (rounds : nat)
  (opts : ExecutionOptions) (resolved : Value) (config_hash id : string).

Abbreviation program := (execute_native parse_document runtime_types rounds opts resolved config_hash id).

Lemma program_obeys c x l1 l2 :
  reaches program (l1 ++ event c x :: l2) -> policy (may_release opts resolved id) (rev l1) c.
Proof.
  intros Hr. rewrite <-(app_nil_r (rev l1)). eapply wp_reaches; [apply execute_wp|exact Hr].
Qed.

(** C4: At every point of every run of [up], [down] or [status], whatever the
    system answers and wherever the run dies, each process that was in the
    ledger at the start or was released since, and was not seen gone, is in
    every ledger that may be on disk: a later [down] finds it. *)
Theorem custody_kept l : reaches program l -> custody (rev l).
Proof.
  intros Hr. rewrite <-(app_nil_r (rev l)).
  destruct (wp_prefix _ _ _ _ _ (execute_wp opts resolved id parse_document runtime_types rounds config_hash) Hr)
    as [[c [Hc _]]|[[[s r]|e] HQ]]; [done|apply HQ|done].
Qed.

(** C9: A signal is sent only to a process that the ledger on disk has, directly
    behind calls that read the executable, the start time and the digest of the
    executable of the process and found them to be those of that record, or it
    kills a child of this run that was not waited for. *)
Theorem signals_identified l1 l2 pid signal :
  reaches program (l1 ++ event (Signal pid signal) tt :: l2) -> signal_ok (rev l1) pid signal.
Proof. intros Hr. exact (proj2 (program_obeys _ _ _ _ Hr)). Qed.

(** The gate of a child opens only directly behind the successful save of a
    ledger that has its identity, with its start time. *)
Theorem gates_recorded l1 l2 pid opened :
  reaches program (l1 ++ event (ReleaseGate pid) opened :: l2) -> gate_ok (rev l1) pid.
Proof. intros Hr. exact (proj2 (program_obeys _ _ _ _ Hr)). Qed.

(** C16: The release is written only when the ledger on disk has the platform
    and every node once, each of them was seen running with its identity, and
    the log of each application had its line of readiness; under the
    [available] startup an application may instead have been seen gone. *)
Theorem release_when_ready l1 l2 bytes written :
  reaches program (l1 ++ event (WriteSync bytes) written :: l2) ->
  may_release opts resolved id (rev l1).
Proof. intros Hr. exact (proj2 (program_obeys _ _ _ _ Hr)). Qed.

(** C30: A [down] that returns leaves an empty inventory, and every process of
    the ledger it loaded was seen gone behind the load. *)
Theorem down_complete l s s0 path l1 l2 p pid :
  x_action opts = "down" -> runs program l (Ok (s, Ok tt)) ->
  l = l1 ++ event (Load path) (Ok s0) :: l2 -> p ∈ processes s0 -> pid_of p = Some pid ->
  processes s = [] /\ exists e, e ∈ l2 /\ gone e = Some pid.
Proof.
  intros Ha Hr -> Hp Hpid.
  pose proof (wp_runs _ _ _ _ _ _ (execute_wp opts resolved id parse_document runtime_types rounds config_hash) Hr)
    as [[_ Hs] Hdown].
  specialize (Hdown Ha eq_refl). split; [done|]. rewrite app_nil_r in Hs.
  destruct (resolved_seen s0 path (rev l2) (rev l1) pid) as (e & He & Hg).
  - unfold pids. apply elem_of_list_to_set, list_elem_of_omap. by exists p.
  - intros Hin. unfold covers, pids in Hs. rewrite Hdown in Hs.
    rewrite rev_app_distr in Hs. cbn [rev] in Hs. rewrite <-app_assoc in Hs. cbn [app] in Hs.
    specialize (Hs pid Hin). by apply not_elem_of_empty in Hs.
  - exists e. split; [|done]. apply list_elem_of_In, in_rev. by apply list_elem_of_In.
Qed.
End theorems.

(** ** A sample graph: the platform and one application *)

Definition sample_options (action : string) : ExecutionOptions :=
  {| x_action := action; x_scenario_action := ""; x_allow_privileged := false; x_owner_token := "";
     x_output := "/out"; x_state_root := "/state"; x_release := "/release";
     x_credentials := "/credentials"; x_images := ""; x_external_credentials := "" |}.

Definition sample_node : Value :=
  VObj [("capture", VObj [("enabled", VBool false)]); ("node_id", VStr "app");
        ("telemetry", VObj [("credential", VNull)]); ("type", VStr "echo")].
Definition sample_graph : Value :=
  VObj [("nodes", VArr [sample_node]);
        ("platform", VObj [("capture", VObj [("enabled", VBool false)]);
                           ("console", VObj [("port", VInt 8080)])])].
Definition sample_types : Array :=
  [VObj [("executable", VStr "graphx-echo"); ("id", VStr "echo")]].

(** The documents are read by their path. *)
Definition sample_parse (bytes : string) : result Value :=
  if String.eqb bytes "/out/native-plan.json"
  then Ok (VObj [("processes", VArr [VObj [("id", VStr "app")]; VObj [("id", VStr "platform")]])])
  else Ok (VObj [("files", VObj [("bin/graphx-echo", VNull)])]).

Definition sample_ledger (ps : list OwnedResourceIdentity) : OwnershipState :=
  rebuild empty_state [] "" "" "hash" "g" "token" "ready" ∅ ∅ "" 0 0 ps.
Definition sample_process : OwnedResourceIdentity :=
  OwnershipState.process_identity "native" "app" "42" "77"
    ("/release/bin/graphx-echo" +:+ newline +:+ "digest") "" "".

Definition sample_child (name : string) : fork_answer :=
  if String.eqb name "platform" then {| fork_pid := 40; fork_range := eq_refl |}
  else if String.eqb name "app" then {| fork_pid := 42; fork_range := eq_refl |}
  else {| fork_pid := 44; fork_range := eq_refl |}.
Definition sample_program (pid : Z) : string :=
  if pid =? 40 then "/release/libexec/graphx-platform/node"
  else if pid =? 42 then "/release/bin/graphx-echo" else "/release/bin/graphx".

Definition sample_stat : string := "42 (echo) S 1 1 1 0 -1 0 0 0 0 0 0 0 0 0 0 0 1 0 77 0".
Definition sample_directory (kind : file_kind) (size : Z) : metadata :=
  {| st_kind := kind; st_nlink := 1; st_mode := 493; st_uid := 1000; st_gid := 1000; st_size := size; st_dev := 8; st_ino := 9;
     st_mtime := 0 |}.

(** A process that was sent a signal has exited. *)
Definition signalled (h : list Event) (pid : Z) : bool :=
  existsb (fun e => match e_call e with Signal p _ => p =? pid | _ => false end) h.

(** A system on which everything succeeds; [ps] are the processes on disk. *)
Definition sample_system (fresh : bool) (ps : list OwnedResourceIdentity)
    (h : list Event) (c : sys) : option (answer c) :=
  match c as c return option (answer c) with
  | Exists path => Some (String.eqb path "/credentials" || (negb fresh && String.eqb path "/state/g/ownership.yml"))
  | Load _ => Some (Ok (sample_ledger ps))
  | Lstat _ => Some (lstat_found (sample_directory file_directory 0))
  | Hash _ => Some (Ok "digest")
  | Waitpid pid => Some (if signalled h pid then Some 15 else None)
  | ReadExe pid => Some (sample_program pid)
  | ReadFile _ => Some ""
  | ReadStat _ => Some sample_stat
  | ReadDocument path _ => Some (Ok path)
  | Fork o => Some (Some (sample_child (o_id o)))
  | OpenLog _ => Some (Some (Some (sample_directory file_regular 15)))
  | ReadOpen _ _ => Some (Some ("ready node=app" +:+ newline))
  | Getenv _ => Some None
  | RandomToken => Some "token"
  | Now => Some 0
  | Geteuid => Some 1000
  | PollExec _ => Some poll_ready
  | Interrupted => Some false
  | OpenExclusive _ | WriteSync _ | Rename _ _ | Pipe | SetCloexec | ReleaseGate _ | Healthy _
  | CreateDirectory _ | Chmod _ _ | OpenDirectory _ | SyncDirectory _ => Some true
  | Remove _ | EnsureRoot _ | Save _ | Command _ => Some (Ok tt)
  | Signal _ _ | Sleep _ | Print _ | Log _ => Some tt
  | ReadLink _ => Some "/release/bin/graphx"
  | _ => None
  end.

Definition sample_program_of (action : string) : Prog (OwnershipState * result unit) :=
  execute_native sample_parse sample_types 10 (sample_options action) sample_graph "hash" "g".
(** The first event with such a call *)
Fixpoint index_of (P : sys -> bool) (l : list Event) : nat :=
  match l with
  | [] => 0%nat
  | e :: l => if P (e_call e) then 0%nat else S (index_of P l)
  end.
Definition signals (c : sys) : bool := match c with Signal _ _ => true | _ => false end.
Definition releases (pid : Z) (c : sys) : bool := match c with ReleaseGate p => p =? pid | _ => false end.
Definition writes (c : sys) : bool := match c with WriteSync _ => true | _ => false end.

Definition sample_up : list Event := (simulate (sample_system true []) (sample_program_of "up") []).1.
Definition sample_down : list Event :=
  (simulate (sample_system false [sample_process]) (sample_program_of "down") []).1.

Lemma custody_kept_witness :
  reaches (sample_program_of "up") (take 100 sample_up) /\ custody (rev (take 100 sample_up)).
Proof.
  assert (reaches (sample_program_of "up") (take 100 sample_up)) as Hr.
  { apply (reaches_take (sample_program_of "up")). apply simulate_reaches. }
  split; [exact Hr|].
  apply (custody_kept sample_parse sample_types 10 (sample_options "up") sample_graph "hash" "g"). exact Hr.
Defined.

Lemma signals_identified_witness :
  reaches (sample_program_of "down")
    (take (index_of signals sample_down) sample_down ++ event (Signal 42 SIGTERM) tt :: drop (S (index_of signals sample_down)) sample_down) /\
  signal_ok (rev (take (index_of signals sample_down) sample_down)) 42 SIGTERM.
Proof.
  assert (reaches (sample_program_of "down")
    (take (index_of signals sample_down) sample_down ++ event (Signal 42 SIGTERM) tt :: drop (S (index_of signals sample_down)) sample_down)) as Hr.
  { replace (take (index_of signals sample_down) sample_down ++ event (Signal 42 SIGTERM) tt :: drop (S (index_of signals sample_down)) sample_down)
      with sample_down by (vm_compute; reflexivity).
    apply simulate_reaches. }
  split; [exact Hr|].
  apply (signals_identified sample_parse sample_types 10 (sample_options "down") sample_graph "hash" "g" _ _ _ _ Hr).
Defined.

Lemma gates_recorded_witness :
  reaches (sample_program_of "up")
    (take (index_of (releases 42) sample_up) sample_up ++ event (ReleaseGate 42) true :: drop (S (index_of (releases 42) sample_up)) sample_up) /\
  gate_ok (rev (take (index_of (releases 42) sample_up) sample_up)) 42.
Proof.
  assert (reaches (sample_program_of "up")
    (take (index_of (releases 42) sample_up) sample_up ++ event (ReleaseGate 42) true :: drop (S (index_of (releases 42) sample_up)) sample_up)) as Hr.
  { replace (take (index_of (releases 42) sample_up) sample_up ++ event (ReleaseGate 42) true :: drop (S (index_of (releases 42) sample_up)) sample_up)
      with sample_up by (vm_compute; reflexivity).
    apply simulate_reaches. }
  split; [exact Hr|].
  apply (gates_recorded sample_parse sample_types 10 (sample_options "up") sample_graph "hash" "g" _ _ _ _ Hr).
Defined.

Lemma release_when_ready_witness :
  reaches (sample_program_of "up")
    (take (index_of writes sample_up) sample_up ++ event (WriteSync "token") true :: drop (S (index_of writes sample_up)) sample_up) /\
  may_release (sample_options "up") sample_graph "g" (rev (take (index_of writes sample_up) sample_up)).
Proof.
  assert (reaches (sample_program_of "up")
    (take (index_of writes sample_up) sample_up ++ event (WriteSync "token") true :: drop (S (index_of writes sample_up)) sample_up)) as Hr.
  { replace (take (index_of writes sample_up) sample_up ++ event (WriteSync "token") true :: drop (S (index_of writes sample_up)) sample_up)
      with sample_up by (vm_compute; reflexivity).
    apply simulate_reaches. }
  split; [exact Hr|].
  apply (release_when_ready sample_parse sample_types 10 (sample_options "up") sample_graph "hash" "g" _ _ _ _ Hr).
Defined.

Definition stopped_ledger : OwnershipState :=
  set_run "destroying" ∅ [] (sample_ledger [sample_process]).

Lemma down_complete_witness :
  runs (sample_program_of "down") sample_down (Ok (stopped_ledger, Ok tt)) /\
  exists e, e ∈ drop 2 sample_down /\ gone e = Some 42.
Proof.
  assert (runs (sample_program_of "down") sample_down (Ok (stopped_ledger, Ok tt))) as Hr.
  { apply simulate_runs. vm_compute. reflexivity. }
  split; [exact Hr|].
  eapply (down_complete sample_parse sample_types 10 (sample_options "down") sample_graph "hash" "g"
    _ _ (sample_ledger [sample_process]) "/state/g/ownership.yml" (take 1 sample_down) (drop 2 sample_down)
    sample_process 42 eq_refl Hr).
  - vm_compute. reflexivity.
  - apply list_elem_of_here.
  - vm_compute. reflexivity.
Defined.
End NativeTheorems.

(** * What makes a process ready (application_lifecycle.hpp, the child of
    [start_native_process])

    The search for the line of readiness finds exactly the whole lines, and a
    child runs its program only behind its gate and with the name space, the
    identity and the limits it was to have. *)

From Stdlib Require Import ZArith Lia Strings.Byte Strings.Ascii Strings.String.
From stdpp Require Import base option gmap strings list.
From S2P Require Import Prelude ConfigRender ConfigValue Text Control OwnershipState Effects Process Native.

Module StartProofs.
Import ConfigRender Text ControlProofs OwnershipState Effects Process Native.
Local Open Scope nat_scope.

(** ** Lines *)

Lemma app_split (a b c d : string) :
  a +:+ b = c +:+ d -> String.length a <= String.length c -> exists e, c = a +:+ e /\ b = e +:+ d.
Proof.
  revert c; induction a as [|x a IH]; intros c Heq Hlen; [by exists c|].
  destruct c as [|y c]; cbn in Hlen; [lia|]. rewrite !sapp_cons in Heq. injection Heq as -> Heq.
  destruct (IH c Heq ltac:(lia)) as (e & -> & ->). exists e. by rewrite sapp_cons.
Qed.

Lemma find_least p u v : exists n, find p (u +:+ p +:+ v) = Some n /\ n <= String.length u.
Proof.
  induction u as [|c u IH].
  - exists 0. rewrite sapp_empty. split; [apply find_here|done].
  - destruct IH as (n & Hn & Hle). rewrite sapp_cons. cbn [find].
    destruct (String.prefix p (String c (u +:+ p +:+ v))); [by exists 0; cbn; split; [|lia]|].
    exists (S n). rewrite Hn. cbn. split; [done|lia].
Qed.

(** The text ends with, or starts with, a whole line. *)
Definition line_start (u : string) : Prop := u = "" \/ exists p, u = p +:+ newline.
Definition line_end (v : string) : Prop := v = "" \/ exists q, v = newline +:+ q.

Lemma starts_line_spec u v : starts_line (u +:+ v) (String.length u) = true <-> line_start u.
Proof.
  unfold starts_line, line_start. destruct (String.length u) as [|n] eqn:Hn.
  { split; [|done]. left. by destruct u. }
  assert (exists p c, u = p +:+ String c "" /\ String.length p = n) as (p & c & -> & Hp).
  { exists (stake n u). destruct (sdrop n u) as [|c r] eqn:Hd.
    - pose proof (sdrop_length n u) as Hl. rewrite Hd in Hl. cbn in Hl. lia.
    - exists c. pose proof (sdrop_length n u) as Hl. rewrite Hd, Hn in Hl.
      assert (r = "") as -> by (destruct r; [done|cbn in Hl; lia]).
      split; [by rewrite <-Hd, stake_drop|apply stake_length; lia]. }
  rewrite <-sapp_assoc, <-Hp, string_get_app. cbn. rewrite bool_decide_eq_true. split.
  - intros [= ->]. right. by exists p.
  - intros [H|[q Hq]].
    + by destruct p.
    + assert (String.length p = String.length q) as Hl
        by (apply (f_equal String.length) in Hq; rewrite !sapp_length in Hq; cbn in Hq; lia).
      destruct (app_split _ _ _ _ Hq ltac:(lia)) as (e & -> & He). rewrite sapp_length in Hl.
      assert (e = "") as -> by (destruct e; [done|cbn in Hl; lia]).
      rewrite sapp_empty in He. by injection He as ->.
Qed.

Lemma ends_line_spec u v : ends_line (u +:+ v) (String.length u) = true <-> line_end v.
Proof.
  unfold ends_line, line_end. rewrite string_get_app, sapp_length, orb_true_iff, Nat.eqb_eq, bool_decide_eq_true.
  split.
  - intros [H|H]; [left; destruct v; [done|cbn in H; lia]|right].
    destruct v as [|c v]; [done|]. cbn in H. injection H as ->. by exists v.
  - intros [->|[q ->]]; [left; cbn; lia|by right].
Qed.

(** A text that ends before a line cannot reach into a word without newlines. *)
Lemma line_start_past u m v r :
  without "010" m -> line_start u -> u <> "" -> m +:+ r = u +:+ v -> String.length m <= String.length u.
Proof.
  intros Hm [->|[p ->]] Hne Heq; [done|]. rewrite <-sapp_assoc in Heq.
  destruct (Nat.le_gt_cases (String.length m) (String.length p)) as [Hle|Hgt];
    [rewrite sapp_length; lia|].
  symmetry in Heq. destruct (app_split _ _ _ _ Heq ltac:(lia)) as (e & -> & He).
  rewrite sapp_length in Hgt. destruct e as [|c e]; [cbn in Hgt; lia|].
  rewrite sapp_cons in He. injection He as <- He.
  apply all_chars_app in Hm as [_ [Hc _]]. done.
Qed.

(** The marker as a whole line of the text, whose first part is already read *)
Definition has_line (pre m rest : string) : Prop :=
  exists u v, rest = u +:+ m +:+ v /\ line_start (pre +:+ u) /\ line_end v.

Lemma find_none_line m pre rest : find m rest = None -> ~ has_line pre m rest.
Proof. intros Hn (u & v & -> & _). destruct (find_least m u v) as (n & Hf & _). congruence. Qed.

(** A line behind the first occurrence lies behind that occurrence. *)
Lemma has_line_next m pre u v :
  without "010" m -> m <> "" -> find m (u +:+ m +:+ v) = Some (String.length u) ->
  (has_line pre m (u +:+ m +:+ v) <->
   (line_start (pre +:+ u) /\ line_end v) \/ has_line (pre +:+ u +:+ m) m v).
Proof.
  intros Hm Hne Hf. split.
  - intros (u1 & v1 & Heq & Hs & He).
    assert (String.length u <= String.length u1) as Hle.
    { destruct (find_least m u1 v1) as (n & Hn & Hle). rewrite <-Heq, Hf in Hn. by injection Hn as <-. }
    destruct (app_split _ _ _ _ Heq Hle) as (w & -> & Hw).
    destruct (decide (w = "")) as [->|Hw0].
    { left. rewrite sapp_nil in Hs. split; [done|]. rewrite sapp_empty in Hw.
      destruct (app_split _ _ _ _ Hw ltac:(lia)) as (e & Hme & Hv).
      assert (e = "") as -> by (apply (f_equal String.length) in Hme; rewrite sapp_length in Hme;
                                destruct e; [done|cbn in Hme; lia]).
      by rewrite sapp_empty in Hv; subst. }
    right. assert (String.length m <= String.length w) as Hmw.
    { apply (line_start_past w m (m +:+ v1) v); [done| |done|done].
      destruct Hs as [Hs|[p Hp]]; [by destruct pre, u, w|]. right.
      rewrite !sapp_assoc in Hp. destruct w as [|c w]; [done|].
      destruct (Nat.le_gt_cases (String.length (pre +:+ u)) (String.length p)) as [Hlp|Hgp].
      - destruct (app_split _ _ _ _ Hp Hlp) as (e & -> & He'). by exists e.
      - apply (f_equal String.length) in Hp. rewrite !sapp_length in *. cbn in *. lia. }
    destruct (app_split _ _ _ _ Hw Hmw) as (w' & -> & Hv). exists w', v1. split; [done|].
    split; [|done]. by rewrite <-!sapp_assoc.
  - intros [[Hs He]|(u1 & v1 & -> & Hs & He)]; [by exists u, v|].
    exists (u +:+ m +:+ u1), v1. rewrite <-!sapp_assoc in *. done.
Qed.

Lemma ready_from_spec m rest : forall fuel pre,
  without "010" m -> m <> "" -> String.length rest < fuel ->
  (ready_from fuel (String.length pre) m (pre +:+ rest) = true <-> has_line pre m rest).
Proof.
  intros fuel; revert rest; induction fuel as [|fuel IH]; intros rest pre Hm Hne Hfuel; [lia|].
  cbn [ready_from]. unfold find_from. rewrite sdrop_app.
  destruct (find m rest) as [n|] eqn:Hf; cbn [option_map].
  2: { split; [done|]. intros H. by destruct (find_none_line m pre rest). }
  destruct (find_split m rest n Hf) as (v & Hrest & Hn). set (u := stake n rest) in *. clearbody u.
  subst rest n. rewrite (has_line_next m pre u v Hm Hne Hf), !sapp_assoc.
  rewrite <-(sapp_length pre u), <-(sapp_length (pre +:+ u) m).
  pose proof (starts_line_spec (pre +:+ u) (m +:+ v)) as Hs. rewrite sapp_assoc in Hs.
  pose proof (ends_line_spec ((pre +:+ u) +:+ m) v) as He.
  destruct (starts_line _ _ && ends_line _ _) eqn:Hb.
  { apply andb_prop in Hb as [Hb1 Hb2]. split; [|done]. intros _. left. by split; [apply Hs|apply He]. }
  rewrite IH; [|done..|rewrite !sapp_length in Hfuel; destruct m; [done|cbn in Hfuel; lia]].
  split; [by right|]. intros [[H1 H2]|]; [|done].
  apply Hs in H1. apply He in H2. by rewrite H1, H2 in Hb.
Qed.

(** An application is ready exactly when the line [ready node=NAME] is a
    whole line of its log; a name that continues, or text before it on the
    line, does not count. *)
Theorem application_ready_line log name :
  without "010" name ->
  application_ready log name = true <->
  exists before after, log = before +:+ ("ready node=" +:+ name) +:+ after /\
    line_start before /\ line_end after.
Proof.
  intros Hname. apply (ready_from_spec ("ready node=" +:+ name) log (S (String.length log)) "").
  - apply all_chars_app. split; [|done]. by repeat split.
  - done.
  - lia.
Qed.

Lemma application_ready_line_witness :
  without "010" "app" /\
  (application_ready ("boot" +:+ newline +:+ "ready node=app" +:+ newline) "app" = true <->
   exists before after,
     "boot" +:+ newline +:+ "ready node=app" +:+ newline = before +:+ ("ready node=" +:+ "app") +:+ after /\
     line_start before /\ line_end after) /\
  application_ready ("xready node=app" +:+ newline +:+ "ready node=apple") "app" = false.
Proof.
  assert (without "010" "app") as Hn by (repeat split; discriminate).
  split; [exact Hn|]. split; [apply application_ready_line; exact Hn|reflexivity].
Defined.

(** ** The child *)

Definition child_event := Effects.event child_answer.
Abbreviation did c x := (Effects.Event (C := child_call) (R := child_answer) c x).

(** What the child must have done before its program runs *)
Definition confined (o : NativeProcessOptions) (h : list child_event) : Prop :=
  did ReadGate (Some "R"%char) ∈ h /\
  (o_network_namespace o <> "" -> did (Setns (o_network_namespace o)) true ∈ h /\ did NoNewPrivileges true ∈ h) /\
  did Setsid true ∈ h /\ did (Chdir (o_cwd o)) true ∈ h /\
  (o_console_directory o <> "" -> o_guest_identity o = true /\ did (OpenConsole (o_console_directory o)) true ∈ h) /\
  (o_guest_identity o = true ->
     did DropGroups true ∈ h /\ did (Setgid 65532) true ∈ h /\ did (Setuid 65532) true ∈ h /\
     did NoNewPrivileges true ∈ h) /\
  did RedirectStandard true ∈ h /\
  (o_file_bytes_limit o <> 0%Z -> did (LimitFileSize (o_file_bytes_limit o)) true ∈ h).

Definition child_rule (o : NativeProcessOptions) (h : list child_event) (c : child_call) : Prop :=
  match c with
  | Execve argv environment =>
      confined o h /\ argv = o_argv o /\
      environment = map (fun kv => kv.1 +:+ "=" +:+ kv.2) (sorted_pairs (o_environment o))
  | _ => True
  end.

Lemma child_obeys o : wp (child_rule o) (child o) [] (fun _ _ => True).
Proof.
  unfold child. split; [done|]. intros release. cbn [and_then].
  destruct (bool_decide_reflect (release = Some "R"%char)) as [->|]; [|done]. cbn [negb].
  unfold when.
  destruct (String.eqb_spec (o_network_namespace o) "") as [Hns|Hns];
  destruct (String.eqb_spec (o_console_directory o) "") as [Hcd|Hcd];
  destruct (o_guest_identity o) eqn:Hg;
  destruct (Z.eqb_spec (o_file_bytes_limit o) 0) as [Hf|Hf]; cbn [negb orb];
  repeat (lazymatch goal with
          | |- wp _ (required _ _) _ _ => split; [done|]; intros []; cbn [and_then]; [|done]
          | |- wp _ (and_then _ _) _ _ => split; [try done|]; intros ?; cbn [and_then]
          | |- wp _ (if ?b then _ else _) _ _ => destruct b; [done|]
          | |- wp _ (Ret _) _ _ => done
          end).
  all: split; [|done]; split; [|done]; unfold confined; rewrite Hg; split_and!; intros; try done;
    rewrite ?elem_of_cons; tauto.
Qed.

(** C34: A child runs its program only after the byte that opens its gate, in
    its name space and without new privileges, in its own session and
    directory, with its log as output, as the guest user without groups if it
    is a guest, and within its limit; a console is given to guests only.  The
    arguments and the environment are exactly the given ones. *)
Theorem child_confined o l1 l2 argv environment :
  reaches (child o) (l1 ++ did (Execve argv environment) tt :: l2) ->
  confined o (rev l1) /\ argv = o_argv o /\
  environment = map (fun kv => kv.1 +:+ "=" +:+ kv.2) (sorted_pairs (o_environment o)).
Proof. intros Hr. rewrite <-(app_nil_r (rev l1)). exact (wp_reaches _ _ _ _ _ _ _ _ (child_obeys o) Hr). Qed.

Definition sample_guest : NativeProcessOptions :=
  {| o_id := "guest"; o_argv := ["/usr/bin/qemu"]; o_environment := {["PATH" := "/bin"]}; o_cwd := "/run";
     o_log := "/run/log"; o_executable := "/usr/bin/qemu"; o_network_namespace := "/run/netns/g";
     o_namespace_inode := 7; o_guest_identity := true; o_console_directory := "/run/console";
     o_log_bytes := 2097152; o_file_bytes_limit := 4096 |}.

Definition sample_kernel (h : list child_event) (c : child_call) : option (child_answer c) :=
  match c as c return option (child_answer c) with
  | ReadGate => Some (Some "R"%char)
  | ExecDescriptor => Some 7%Z
  | Umask _ | CloseDescriptors _ | DefaultSignals | Execve _ _ => Some tt
  | _ => Some true
  end.
Definition sample_child_run : list child_event := (simulate sample_kernel (child sample_guest) []).1.

Lemma child_confined_witness :
  reaches (child sample_guest)
    (take 16 sample_child_run ++ did (Execve ["/usr/bin/qemu"] ["PATH=/bin"]) tt :: []) /\
  confined sample_guest (rev (take 16 sample_child_run)).
Proof.
  assert (reaches (child sample_guest)
    (take 16 sample_child_run ++ did (Execve ["/usr/bin/qemu"] ["PATH=/bin"]) tt :: [])) as Hr.
  { replace (take 16 sample_child_run ++ did (Execve ["/usr/bin/qemu"] ["PATH=/bin"]) tt :: [])
      with sample_child_run by (vm_compute; reflexivity).
    apply simulate_reaches. }
  split; [exact Hr|]. apply (child_confined sample_guest _ _ _ _ Hr).
Defined.
End StartProofs.
