(* ===== verification/Host.v ===== *)
(** * Commands on the host (the [run] of src/src/infra/*_resources.cpp)

    The resource modules run commands with explicit argument lists and read
    files of /proc and /sys.  This file has what they share. *)

From Stdlib Require Import ZArith Lia Strings.Byte Strings.Ascii Strings.String.
From stdpp Require Import base option gmap strings list.
From S2P Require Import Prelude ConfigValue ConfigParse Text ResolvedNetwork OwnershipState Effects Process.

Module Host.
Import Text ResolvedNetwork OwnershipState Effects Process.
Local Open Scope Z_scope.
#[local] Open Scope prog_scope.

(** ** The configuration the host modules see *)

Record DeploymentService := { service_node : string; service_image : string; service_command : string }.

(** The fields of [GraphConfig] in use.  [network_infrastructure.faults] is a
    list of its own here. *)
Record HostConfig := {
  config_version : Z; config_id : string; infrastructure : NetworkInfrastructureConfig;
  configured_faults : list NetworkFaultDefinition; project : string;
  services : list DeploymentService; resolved_graph : ConfigValue.Value }.

(** ** Commands *)

(** [run]: the status, and the output where it is captured *)
Definition run (arguments : list string) : Prog (Z * string) :=
  let! result := checked (sys_call (Cmd arguments "")) in
  if c_output_truncated result then throw "command output exceeded safety limit"
  else Ret (c_status result, c_output result).

Definition succeeds (arguments : list string) : Prog bool :=
  let! result := run arguments in Ret (result.1 =? 0).

(** [run(...) == 0 && test(output)] *)
Definition shows (arguments : list string) (test : string -> bool) : Prog bool :=
  let! result := run arguments in Ret ((result.1 =? 0) && test result.2).

(** [&&] and [||] on conditions that run commands *)
Definition and_also (p q : Prog bool) : Prog bool := let! b := p in if b : bool then q else Ret false.
Definition or_else (p q : Prog bool) : Prog bool := let! b := p in if b : bool then Ret true else q.
Definition negate (p : Prog bool) : Prog bool := let! b := p in Ret (negb b).
Definition gives (p : Prog string) (value : string) : Prog bool :=
  let! x := p in Ret (String.eqb x value).

Definition all_of (l : list (Prog bool)) : Prog bool := fold_right and_also (Ret true) l.

(** [if (!condition) throw]; [if (condition) throw] *)
Definition demand (p : Prog bool) (text : string) : Prog unit :=
  let! b := p in if b : bool then Ret tt else throw text.
Definition refuse (p : Prog bool) (text : string) : Prog unit :=
  let! b := p in if b : bool then throw text else Ret tt.
Definition perform (arguments : list string) (text : string) : Prog unit :=
  demand (succeeds arguments) text.

(** [for (item : l) if (!check(item)) return false; return true] *)
Fixpoint every {A} (check : A -> Prog bool) (l : list A) : Prog bool :=
  match l with
  | [] => Ret true
  | x :: l => and_also (check x) (every check l)
  end.

(** ** Texts *)

(** [text.find(part) != npos] *)
Definition has (part text : string) : bool :=
  match find part text with Some _ => true | None => false end.

(** The texts between newlines, and the lines [std::getline] reads *)
Fixpoint split_newlines (s : string) : list string :=
  match s with
  | EmptyString => [""]
  | String c rest =>
      if bool_decide (c = "010"%char) then "" :: split_newlines rest
      else match split_newlines rest with
           | [] => [String c ""]
           | x :: l => String c x :: l
           end
  end.

Definition getlines (s : string) : list string :=
  let l := split_newlines s in
  if bool_decide (last l = Some "") then removelast l else l.

(** [std::isxdigit] *)
Definition is_xdigit (c : ascii) : bool :=
  let n := Z.of_N (N_of_ascii c) in
  ((48 <=? n) && (n <=? 57)) || ((65 <=? n) && (n <=? 70)) || ((97 <=? n) && (n <=? 102)).

Fixpoint all_in (p : ascii -> bool) (s : string) : bool :=
  match s with EmptyString => true | String c s => p c && all_in p s end.

(** [input >> value] for an unsigned 32-bit value; the files of /sys have
    digits without a sign. *)
Definition stream_u32 (s : string) : option Z :=
  match skip_spaces s with
  | String c _ as s =>
      match ConfigParse.digit c with
      | Some _ => let v := leading_digits 0 s in if v <? 2 ^ 32 then Some v else None
      | None => None
      end
  | EmptyString => None
  end.

(** [std::stoul] and [std::stoull], 64 bits wide: the value and the rest *)
Fixpoint skip_digits (s : string) : string :=
  match s with
  | EmptyString => EmptyString
  | String c rest => match ConfigParse.digit c with Some _ => skip_digits rest | None => s end
  end.

Definition stoul (s : string) : option (Z * string) :=
  let s := skip_spaces s in
  let '(negative, s) := match s with
                        | String "-" s => (true, s)
                        | String "+" s => (false, s)
                        | _ => (false, s)
                        end in
  match s with
  | EmptyString => None
  | String c _ =>
      match ConfigParse.digit c with
      | None => None
      | Some _ =>
          let v := leading_digits 0 s in
          if v <? 2 ^ 64 then Some (if negative : bool then u64 (- v) else v, skip_digits s) else None
      end
  end.

(** The elements of a [std::set]: in order, once each *)
Fixpoint set_insert (x : string) (l : list string) : list string :=
  match l with
  | [] => [x]
  | y :: l' =>
      match String.compare x y with
      | Eq => l
      | Lt => x :: l
      | Gt => y :: set_insert x l'
      end
  end.
Definition set_of (l : list string) : list string := fold_left (fun acc x => set_insert x acc) l [].

(** ** Files of the kernel *)

Definition interface_file (name field : string) : string :=
  "/sys/class/net/" +:+ name +:+ "/" +:+ field.

Definition link_ifindex (name : string) : Prog (option Z) :=
  let! content := sys_call (ReadFile (interface_file name "ifindex")) in Ret (stream_u32 content).

Definition link_peer_ifindex (name : string) : Prog (option Z) :=
  let! content := sys_call (ReadFile (interface_file name "iflink")) in
  Ret match stream_u32 content with Some v => if v =? 0 then None else Some v | None => None end.

Definition link_alias (name : string) : Prog string :=
  let! content := sys_call (ReadFile (interface_file name "ifalias")) in Ret (first_line content).

(** [if (link_ifindex(name))] *)
Definition link_exists (name : string) : Prog bool :=
  let! index := link_ifindex name in Ret (bool_decide (is_Some index)).

(** [link_ifindex(name) == index] for two optional indices *)
Definition link_is (name : string) (index : option Z) : Prog bool :=
  let! observed := link_ifindex name in Ret (bool_decide (observed = index)).

(** ** The infrastructure in the ledger *)

Definition with_infrastructure (s : OwnershipState) (stat : string)
    (xb : list string) (b : list OwnedResourceIdentity)
    (xe : list ExpectedEndpoint) (e : list OwnedResourceIdentity)
    (xn : list string) (n : list OwnedResourceIdentity)
    (xc : list ExpectedCapture) (c : list OwnedCapture)
    (xf : list ExpectedFault) (f : list OwnedFault) : OwnershipState :=
  {| actions := actions s; credential_directory := credential_directory s;
     credential_identity := credential_identity s; graph_id := graph_id s;
     config_hash := config_hash s; owner_token := owner_token s; status := stat;
     applications := applications s; console_sockets := console_sockets s;
     console_name := console_name s; console_inode := console_inode s;
     console_device := console_device s; handoff_name := handoff_name s;
     handoff_inode := handoff_inode s; handoff_device := handoff_device s;
     expected_bridges := xb; bridges := b; expected_endpoints := xe; endpoints := e;
     expected_namespaces := xn; namespaces := n; expected_captures := xc; captures := c;
     expected_faults := xf; faults := f; processes := processes s |}.

Definition set_expected_endpoints (xe : list ExpectedEndpoint) (s : OwnershipState) : OwnershipState :=
  with_infrastructure s (status s) (expected_bridges s) (bridges s) xe (endpoints s)
    (expected_namespaces s) (namespaces s) (expected_captures s) (captures s) (expected_faults s) (faults s).
Definition push_bridge (b : OwnedResourceIdentity) (s : OwnershipState) : OwnershipState :=
  with_infrastructure s (status s) (expected_bridges s) (bridges s ++ [b]) (expected_endpoints s)
    (endpoints s) (expected_namespaces s) (namespaces s) (expected_captures s) (captures s)
    (expected_faults s) (faults s).
Definition push_endpoint (e : OwnedResourceIdentity) (s : OwnershipState) : OwnershipState :=
  with_infrastructure s (status s) (expected_bridges s) (bridges s) (expected_endpoints s)
    (endpoints s ++ [e]) (expected_namespaces s) (namespaces s) (expected_captures s) (captures s)
    (expected_faults s) (faults s).
Definition set_namespaces (n : list OwnedResourceIdentity) (s : OwnershipState) : OwnershipState :=
  with_infrastructure s (status s) (expected_bridges s) (bridges s) (expected_endpoints s)
    (endpoints s) (expected_namespaces s) n (expected_captures s) (captures s)
    (expected_faults s) (faults s).
Definition push_capture (c : OwnedCapture) (s : OwnershipState) : OwnershipState :=
  with_infrastructure s (status s) (expected_bridges s) (bridges s) (expected_endpoints s)
    (endpoints s) (expected_namespaces s) (namespaces s) (expected_captures s) (captures s ++ [c])
    (expected_faults s) (faults s).
Definition push_fault (f : OwnedFault) (s : OwnershipState) : OwnershipState :=
  with_infrastructure s (status s) (expected_bridges s) (bridges s) (expected_endpoints s)
    (endpoints s) (expected_namespaces s) (namespaces s) (expected_captures s) (captures s)
    (expected_faults s) (faults s ++ [f]).
Definition set_stage (stat : string) (s : OwnershipState) : OwnershipState :=
  with_infrastructure s stat (expected_bridges s) (bridges s) (expected_endpoints s)
    (endpoints s) (expected_namespaces s) (namespaces s) (expected_captures s) (captures s)
    (expected_faults s) (faults s).

Definition endpoint_alias (state : OwnershipState) (attachment side : string) : string :=
  "graphx:" +:+ owner_token state +:+ ":" +:+ attachment +:+ ":" +:+ side.
End Host.
