(* ===== verification/Ovs.v ===== *)
(** * Bridges and name spaces (src/src/infra/ovs_resources.cpp,
    src/src/infra/namespace_resources.cpp)

    Records of Open vSwitch are found by their identifiers and by the owner,
    the graph and the configuration written into them; a name space by its
    inode and the alias of its loopback interface. *)

From Stdlib Require Import ZArith Lia Strings.Byte Strings.Ascii Strings.String.
From stdpp Require Import base option gmap strings list.
From S2P Require Import Prelude ConfigValue ResolvedNetwork Text OwnershipState Effects Process Host.

Module Ovs.
Import Text ResolvedNetwork OwnershipState Effects Process Host.
Local Open Scope Z_scope.
#[local] Open Scope prog_scope.

(** ** Queries *)

Definition unquoted (value : string) : string :=
  if (2 <=? String.length value)%nat
     && bool_decide (String.get 0 value = Some ConfigValue.quote)
     && bool_decide (String.get (String.length value - 1) value = Some ConfigValue.quote)
  then substr 1 (String.length value - 2) value else value.

Definition ovs_get (table record column : string) : Prog string :=
  let! result := run ["ovs-vsctl"; "get"; table; record; column] in
  Ret (if result.1 =? 0 then unquoted result.2 else "").

Definition bridge_get (bridge column : string) : Prog string := ovs_get "Bridge" bridge column.

Definition lines (value : string) : list string :=
  List.filter (fun line => negb (is_empty line)) (getlines value).

(** [config_value_json] of a text *)
Definition json_text (value : string) : string := ConfigValue.render_string value.

Definition ovs_find_uuid (table column value owner : string) : Prog string :=
  let! result := run ["ovs-vsctl"; "--data=bare"; "--no-heading"; "--columns=_uuid"; "find"; table;
                      column +:+ "=" +:+ json_text value; "external_ids:graphx_owner=" +:+ owner] in
  Ret (if result.1 =? 0 then match lines result.2 with [uuid] => uuid | _ => "" end else "").

Definition bridge_exists (name : string) : Prog bool := succeeds ["ovs-vsctl"; "br-exists"; name].

(** The identifiers of the mirrors that fulfil the conditions, if OVS answers *)
Definition query_mirrors (conditions : list string) : Prog (option (list string)) :=
  let! result := run (["ovs-vsctl"; "--data=bare"; "--no-heading"; "--columns=_uuid"; "find"; "Mirror"]
                      ++ conditions) in
  Ret (if result.1 =? 0 then Some (lines result.2) else None).

Definition mirror_absent_or_owned (endpoint : OwnedResourceIdentity) (state : OwnershipState)
    : Prog bool :=
  let uuid := r_route_identity endpoint in
  if is_empty uuid then Ret true
  else
    let! record := run ["ovs-vsctl"; "--if-exists"; "get"; "Mirror"; uuid; "_uuid"] in
    if negb (record.1 =? 0) then Ret false
    else
      let recorded := lines record.2 in
      let! named := query_mirrors ["name=" +:+ json_text (r_name endpoint)] in
      match named with
      | None => Ret false
      | Some named =>
          let! owned := query_mirrors
            ["external_ids:graphx_owner=" +:+ owner_token state;
             "external_ids:graphx_attachment=" +:+ json_text (r_attachment_id endpoint)] in
          match owned with
          | None => Ret false
          | Some owned =>
              if is_nil named && is_nil recorded && is_nil owned then Ret true
              else if bool_decide (named = [uuid] /\ recorded = [uuid] /\ owned = [uuid]) then
                and_also (gives (ovs_get "Mirror" uuid "external_ids:graphx_graph") (graph_id state))
                  (gives (ovs_get "Mirror" uuid "external_ids:graphx_config_hash") (config_hash state))
              else Ret false
          end
      end.

(** ** Bridges *)

Definition owner_fields (state : OwnershipState) : list string :=
  ["external_ids:graphx_owner=" +:+ owner_token state;
   "external_ids:graphx_config_hash=" +:+ config_hash state;
   "external_ids:graphx_graph=" +:+ graph_id state].

Definition planned_create (id graph token hash : string) : string :=
  "ovs-vsctl -- add-br " +:+ id +:+ " -- set Bridge " +:+ id +:+ " datapath_type=system"
  +:+ " external_ids:graphx_owner=" +:+ token +:+ " external_ids:graphx_config_hash=" +:+ hash
  +:+ " external_ids:graphx_graph=" +:+ graph.

(** The recorded internal port, or the one found *)
Definition internal_port (bridge : OwnedResourceIdentity) : Prog string :=
  if is_empty (r_secondary_id bridge) then ovs_get "Port" (r_name bridge) "_uuid"
  else Ret (r_secondary_id bridge).

Definition bridge_owned (bridge : OwnedResourceIdentity) (state : OwnershipState) : Prog bool :=
  let! port := internal_port bridge in
  if is_empty port then Ret false
  else
    and_also (bridge_exists (r_name bridge))
    (and_also (let! uuid := bridge_get (r_name bridge) "_uuid" in
               let! port := ovs_get "Port" (r_name bridge) "_uuid" in
               Ret (stable_identity_matches bridge (bridge_identity (r_name bridge) uuid port)))
    (and_also (gives (bridge_get (r_name bridge) "external_ids:graphx_owner") (owner_token state))
    (and_also (gives (bridge_get (r_name bridge) "external_ids:graphx_config_hash") (config_hash state))
              (gives (bridge_get (r_name bridge) "external_ids:graphx_graph") (graph_id state))))).

(** The words of hexadecimal digits and hyphens *)
Fixpoint uuid_words (token : string) (s : string) : list string :=
  match s with
  | EmptyString => if is_empty token then [] else [token]
  | String c s =>
      if is_xdigit c || bool_decide (c = "-"%char) then uuid_words (token +:+ String c "") s
      else if is_empty token then uuid_words "" s else token :: uuid_words "" s
  end.
Definition ovs_uuid_set (value : string) : gset string := list_to_set (uuid_words "" value).

Definition find_expected (state : OwnershipState) (id : string) : option ExpectedEndpoint :=
  List.find (fun e => String.eqb (e_id e) id) (expected_endpoints state).

(** The ports of the recorded endpoints of the bridge; [None] for an endpoint
    that was not expected *)
Fixpoint expected_ports (bridge : string) (state : OwnershipState) (l : list OwnedResourceIdentity)
    (ports : gset string) : Prog (option (gset string)) :=
  match l with
  | [] => Ret (Some ports)
  | endpoint :: l =>
      match find_expected state (r_attachment_id endpoint) with
      | None => Ret None
      | Some definition =>
          if String.eqb (e_network_switch definition) bridge then
            let! uuid := ovs_get "Port" (r_stable_id endpoint) "_uuid" in
            expected_ports bridge state l
              (if String.eqb uuid (r_stable_id endpoint) then {[r_stable_id endpoint]} ∪ ports else ports)
          else expected_ports bridge state l ports
      end
  end.

Definition bridge_complete_set_owned (bridge : OwnedResourceIdentity) (state : OwnershipState)
    : Prog bool :=
  let! owned := bridge_owned bridge state in
  if negb owned then Ret false
  else
    let! port := internal_port bridge in
    let! expected := expected_ports (r_name bridge) state (endpoints state) {[port]} in
    match expected with
    | None => Ret false
    | Some expected =>
        let! ports := ovs_get "Bridge" (r_stable_id bridge) "ports" in
        Ret (bool_decide (ovs_uuid_set ports = expected))
    end.

(** One transaction: it waits until the record is the owned one with its
    internal port only, and removes that record. *)
Definition destroy_bridge (bridge : OwnedResourceIdentity) (state : OwnershipState) (port : string)
    : list string :=
  ["ovs-vsctl"; "--timeout=2"; "--"; "wait-until"; "Bridge"; r_stable_id bridge]
  ++ owner_fields state
  ++ ["ports=[" +:+ port +:+ "]"; "--"; "remove"; "Open_vSwitch"; "."; "bridges"; r_stable_id bridge;
      "--"; "destroy"; "Bridge"; r_stable_id bridge].

Definition delete_owned_bridge (bridge : OwnedResourceIdentity) (state : OwnershipState) : Prog bool :=
  let! port := internal_port bridge in
  if is_empty port then Ret false
  else
    and_also (gives (ovs_get "Port" (r_name bridge) "_uuid") port)
    (and_also (gives (ovs_get "Bridge" (r_stable_id bridge) "ports") ("[" +:+ port +:+ "]"))
              (succeeds (destroy_bridge bridge state port))).

(** ** VLANs *)

Fixpoint comma_join (values : list Z) : string :=
  match values with
  | [] => ""
  | [v] => to_string v
  | v :: values => to_string v +:+ "," +:+ comma_join values
  end.

Definition configure_endpoint_vlan (endpoint : ExpectedEndpoint) : Prog unit :=
  (match access_tag (e_vlan endpoint) with
   | Some tag => perform ["ovs-vsctl"; "set"; "Port"; e_host_interface endpoint; "tag=" +:+ to_string tag]
                   ("cannot configure OVS access VLAN for " +:+ e_id endpoint)
   | None => Ret tt
   end);;;
  if is_nil (trunks (e_vlan endpoint)) then Ret tt
  else perform ["ovs-vsctl"; "set"; "Port"; e_host_interface endpoint;
                "trunks=" +:+ comma_join (trunks (e_vlan endpoint))]
         ("cannot configure OVS trunk VLANs for " +:+ e_id endpoint).

Definition endpoint_vlan_matches (expected : ExpectedEndpoint) (endpoint : OwnedResourceIdentity)
    : Prog bool :=
  and_also
    (match access_tag (e_vlan expected) with
     | Some tag => gives (ovs_get "Port" (r_stable_id endpoint) "tag") (to_string tag)
     | None => Ret true
     end)
    (if is_nil (trunks (e_vlan expected)) then Ret true
     else
       let! observed := ovs_get "Port" (r_stable_id endpoint) "trunks" in
       Ret (bool_decide (ovs_uuid_set observed = list_to_set (map to_string (trunks (e_vlan expected)))))).

(** ** Flows of the profiles *)

Definition address_host (value : string) : string :=
  match find "/" value with Some n => stake n value | None => value end.

Definition is_ipvlan (network : NetworkDefinition) : bool :=
  match profile network with
  | Some ipvlan_l2 | Some ipvlan_l3 | Some ipvlan_l3s => true
  | _ => false
  end.

Definition on_network (network : string) (a : AttachmentDefinition) : bool :=
  String.eqb (ResolvedNetwork.network a) network && negb (is_empty (attachment_address a))
  && match kind a with container_veth | namespace_veth => true | _ => false end.

(** The port number of an interface, if it has one *)
Definition resolve_ofport (interface text : string) : Prog string :=
  let! result := run ["ovs-vsctl"; "get"; "Interface"; interface; "ofport"] in
  if negb (result.1 =? 0) || is_empty result.2 || String.eqb result.2 "-1" then throw text
  else Ret result.2.

Definition add_flow (switch cookie rule text : string) : Prog unit :=
  perform ["ovs-ofctl"; "add-flow"; switch; "cookie=" +:+ cookie +:+ rule] text.

Definition attachment_flows (cookie : string) (a : AttachmentDefinition) : Prog unit :=
  let! ofport := resolve_ofport (peer a)
    ("cannot resolve OVS port for profile attachment " +:+ attachment_id a) in
  let address := address_host (attachment_address a) in
  let install match_ :=
    add_flow (network_switch a) cookie (",priority=200," +:+ match_ +:+ ",actions=output:" +:+ ofport)
      ("cannot install semantic-profile flow for " +:+ attachment_id a) in
  install ("ip,nw_dst=" +:+ address);;; install ("arp,arp_tpa=" +:+ address).

Definition switch_flows (cookie network : string) (attachments : list AttachmentDefinition)
    (switch : string) : Prog unit :=
  (match List.find (fun a => String.eqb (ResolvedNetwork.network a) network
                             && String.eqb (network_switch a) switch
                             && match kind a with namespace_veth => true | _ => false end) attachments with
   | Some router =>
       let! ofport := resolve_ofport (peer router) "cannot install IPvlan router fallback flow" in
       add_flow switch cookie
         (",priority=150,ip,dl_dst=00:00:00:00:00:00/01:00:00:00:00:00,actions=output:" +:+ ofport)
         "cannot install IPvlan router fallback flow"
   | None => Ret tt
   end);;;
  add_flow switch cookie ",priority=100,dl_dst=ff:ff:ff:ff:ff:ff,actions=drop"
    "cannot install IPvlan broadcast/multicast isolation";;;
  add_flow switch cookie ",priority=90,dl_dst=01:00:00:00:00:00/01:00:00:00:00:00,actions=drop"
    "cannot install IPvlan broadcast/multicast isolation".

(** The switches of a network once each; the order of an [unordered_set] is
    unspecified and is here that of the attachments. *)
Definition install_profile_flows (config : HostConfig) (state : OwnershipState) : Prog unit :=
  let cookie := "0x" +:+ stake 16 (owner_token state) in
  let attachments := attachments (infrastructure config) in
  for_each_in (fun network _ =>
    if negb (is_ipvlan network) then Ret tt
    else
      let members := List.filter (on_network (network_id network)) attachments in
      for_each_in (fun a _ => attachment_flows cookie a) members tt;;;
      for_each_in (fun switch _ => switch_flows cookie (network_id network) attachments switch)
        (remove_dups (map network_switch members)) tt)
    (networks (infrastructure config)) tt.

(** ** Name spaces *)

Definition namespace_inode (name : string) : Prog (option Z) :=
  let! result := run ["ip"; "netns"; "exec"; name; "stat"; "-Lc"; "%i"; "/proc/self/ns/net"] in
  Ret (if result.1 =? 0 then
         match stoul result.2 with
         | Some (inode, "") => if inode =? 0 then None else Some inode
         | _ => None
         end
       else None).

Definition namespace_alias (state : OwnershipState) (name : string) : string :=
  "graphx:" +:+ owner_token state +:+ ":netns:" +:+ name.

Definition namespace_owned (item : OwnedResourceIdentity) (state : OwnershipState) : Prog bool :=
  let! inode := namespace_inode (r_name item) in
  match inode, r_namespace_inode item with
  | Some inode, Some recorded =>
      if inode =? recorded then
        shows ["ip"; "netns"; "exec"; r_name item; "ip"; "-d"; "link"; "show"; "dev"; "lo"]
          (has (namespace_alias state (r_name item)))
      else Ret false
  | _, _ => Ret false
  end.

Definition namespace_exists (name : string) : Prog bool :=
  let! inode := namespace_inode name in Ret (bool_decide (is_Some inode)).

Definition create_namespace (router : RouterDefinition) (state : OwnershipState)
    : Prog OwnedResourceIdentity :=
  let name := namespace_name router in
  refuse (namespace_exists name) ("refusing unowned Linux namespace collision: " +:+ name);;;
  demand (all_of
    [succeeds ["ip"; "netns"; "add"; name];
     succeeds ["ip"; "netns"; "exec"; name; "ip"; "link"; "set"; "dev"; "lo"; "alias";
               namespace_alias state name];
     succeeds ["ip"; "netns"; "exec"; name; "ip"; "link"; "set"; "dev"; "lo"; "up"]])
    ("cannot create owned Linux namespace " +:+ name);;;
  let! inode := namespace_inode name in
  match inode with
  | Some inode => Ret (namespace_identity name inode "")
  | None => throw "cannot capture Linux namespace identity"
  end.

Definition delete_owned_namespace (item : OwnedResourceIdentity) (state : OwnershipState) : Prog bool :=
  let! exists_ := namespace_exists (r_name item) in
  if negb exists_ then Ret true
  else and_also (namespace_owned item state) (succeeds ["ip"; "netns"; "delete"; r_name item]).
End Ovs.
