(* ===== verification/Endpoint.v ===== *)
(** * Endpoints (src/src/infra/endpoint_resources.cpp)

    The interfaces of containers, name spaces, QEMU guests and mirrors: how
    the container of a node is found, what makes an endpoint owned and healthy,
    how it is created behind its expected record, and how it is deleted behind
    its identity. *)

From Stdlib Require Import ZArith Lia Strings.Byte Strings.Ascii Strings.String.
From stdpp Require Import base option gmap strings list.
From S2P Require Import Prelude ConfigValue Text ResolvedNetwork Yaml OwnershipState Effects Process Host Ovs.

Module Endpoint.
Import Text ResolvedNetwork OwnershipState Effects Process Host Ovs.
Local Open Scope Z_scope.
#[local] Open Scope prog_scope.

(** ** Offloads of jumbo frames *)

Definition is_jumbo (endpoint : ExpectedEndpoint) : bool :=
  (1500 <? e_mtu endpoint) || e_mirror_container endpoint.

Definition configure_jumbo_offloads (endpoint : ExpectedEndpoint) : Prog unit :=
  if negb (is_jumbo endpoint) then Ret tt
  else
    for_each_in (fun interface _ =>
      perform ["ethtool"; "-K"; interface; "tso"; "off"; "gso"; "off"; "gro"; "off"; "tx"; "off"]
        ("jumbo frame offload prerequisite: " +:+ e_id endpoint))
      [e_host_interface endpoint; e_target_interface endpoint] tt.

(** The bit of a feature *)
Definition offload_bit (key : string) : Z :=
  if String.eqb key "tcp-segmentation-offload:" then 1
  else if String.eqb key "generic-segmentation-offload:" then 2
  else if String.eqb key "generic-receive-offload:" then 4
  else if String.eqb key "tx-checksumming:" then 8 else 0.

(** Two words of a line *)
Definition field_of (line : string) : string * string :=
  match split_words line with
  | key :: value :: _ => (key, value)
  | [key] => (key, "")
  | [] => ("", "")
  end.

Fixpoint offloads_disabled (found : Z) (l : list string) : bool :=
  match l with
  | [] => found =? 15
  | line :: l =>
      let '(key, value) := field_of line in
      let bit := offload_bit key in
      if bit =? 0 then offloads_disabled found l
      else if negb (Z.land found bit =? 0) || negb (String.eqb value "off") then false
      else offloads_disabled (Z.lor found bit) l
  end.
Definition jumbo_offloads_disabled (features : string) : bool := offloads_disabled 0 (getlines features).

Definition jumbo_offloads_healthy (endpoint : ExpectedEndpoint) (peer_prefix : list string) : Prog bool :=
  if negb (is_jumbo endpoint) then Ret true
  else
    and_also (shows ["ethtool"; "-k"; e_host_interface endpoint] jumbo_offloads_disabled)
             (shows (peer_prefix ++ ["ethtool"; "-k"; e_target_interface endpoint]) jumbo_offloads_disabled).

(** ** Containers *)

(** The lines between newlines, without a last empty one *)
Definition container_lines (value : string) : list string := getlines value.

(** The services of the containers in the ledger *)
Definition bind_service (prefix : string) (resource : OwnedResourceIdentity)
    (services : list DeploymentService) : result (list DeploymentService) :=
  if negb (String.eqb (r_kind resource) "container") then Ok services
  else if negb (String.prefix prefix (r_name resource))
          || (String.length (r_name resource) =? String.length prefix)%nat
          || is_empty (r_secondary_id resource)
  then Throw (RuntimeError "invalid owned container service identity")
  else
    let name := sdrop (String.length prefix) (r_name resource) in
    if existsb (fun service => String.eqb (service_node service) name) services
    then Throw (RuntimeError "duplicate owned container service identity")
    else Ok (services ++ [{| service_node := name; service_image := r_secondary_id resource;
                             service_command := "" |}]).

Definition bind_owned_container_services (config : HostConfig) (state : OwnershipState)
    : result HostConfig :=
  if negb (String.eqb (config_id config) (graph_id state))
  then Throw (RuntimeError "container service ledger belongs to another graph")
  else
    let* services := fold_result (bind_service ("graphx-" +:+ config_id config +:+ "-"))
                       (processes state) [] in
    Ok {| config_version := config_version config; config_id := config_id config; infrastructure := infrastructure config;
          configured_faults := configured_faults config; project := "graphx-" +:+ config_id config;
          services := services; resolved_graph := resolved_graph config |}.

Record ResolvedContainer := { k_id : string; k_pid : Z; k_namespace_inode : Z }.

Definition inspect_format : string :=
  "{{.Id}}" +:+ newline +:+ "{{.State.Running}}" +:+ newline +:+ "{{.State.Pid}}" +:+ newline
  +:+ "{{.Config.Image}}" +:+ newline
  +:+ "{{index .Config.Labels " +:+ quoted "com.docker.compose.project" +:+ "}}" +:+ newline
  +:+ "{{index .Config.Labels " +:+ quoted "com.docker.compose.service" +:+ "}}".

(** [std::stoul] of a whole text *)
Definition stoul_all (text : string) (wrong : string) : Prog Z :=
  match stoul text with
  | None => Fail (InvalidArgument "stoul")
  | Some (v, rest) =>
      if negb (is_empty rest) || (v =? 0) || (2 ^ 32 <=? v) then throw wrong else Ret v
  end.

Definition resolve_container (config : HostConfig) (owner : string) : Prog ResolvedContainer :=
  match List.find (fun s => String.eqb (service_node s) owner) (services config) with
  | None => throw ("no deployment service for container attachment owner " +:+ owner)
  | Some service =>
      let! found := run ["docker"; "ps"; "--filter"; "label=com.docker.compose.project=" +:+ project config;
                         "--filter"; "label=com.docker.compose.service=" +:+ owner; "--filter";
                         "status=running"; "--format"; "{{.ID}}"] in
      if negb (found.1 =? 0)
      then throw ("cannot resolve Docker deployment identity for " +:+ owner)
      else
        match container_lines found.2 with
        | [held] =>
            let! inspected := run ["docker"; "inspect"; "--format"; inspect_format; held] in
            if negb (inspected.1 =? 0)
            then throw ("cannot inspect Docker deployment identity for " +:+ owner)
            else
              match container_lines inspected.2 with
              | [id; running; pid; image; project_; service_] =>
                  if negb (String.eqb running "true") || negb (String.eqb image (service_image service))
                     || negb (String.eqb project_ (project config)) || negb (String.eqb service_ owner)
                  then throw ("Docker deployment identity does not match declared service " +:+ owner)
                  else if negb (String.length id =? 64)%nat || negb (all_in is_xdigit id)
                  then throw "Docker returned an invalid full container identity"
                  else
                    let! parsed := stoul_all pid "Docker returned an invalid container PID" in
                    let! details := sys_call (StatPath ("/proc/" +:+ pid +:+ "/ns/net")) in
                    match details with
                    | Some m => Ret {| k_id := id; k_pid := parsed; k_namespace_inode := st_ino m |}
                    | None => throw ("cannot inspect container network namespace for " +:+ owner)
                    end
              | _ => throw ("Docker deployment identity does not match declared service " +:+ owner)
              end
        | _ => throw ("expected exactly one running container for Compose service " +:+ owner)
        end
  end.

Definition owner_format : string :=
  "{{index .Config.Labels " +:+ quoted "org.graphx.owner" +:+ "}}/{{index .Config.Labels "
  +:+ quoted "org.graphx.graph" +:+ "}}".

(** The container must be the recorded one, carry the owner token, and run in
    the local engine. *)
Definition resolve_owned_container (config : HostConfig) (owner : string) (state : OwnershipState)
    : Prog ResolvedContainer :=
  let! held := resolve_container config owner in
  match List.find (fun p => String.eqb (r_kind p) "container"
                            && String.eqb (r_name p) ("graphx-" +:+ graph_id state +:+ "-" +:+ owner))
          (processes state) with
  | None => throw "E_DOCKER_IDENTITY: endpoint container is not graph-owned"
  | Some record =>
      if negb (String.eqb (r_stable_id record) (k_id held))
         || negb (String.eqb (r_process_identity record) (owner_token state))
      then throw "E_DOCKER_IDENTITY: endpoint container is not graph-owned"
      else
        demand (shows ["docker"; "inspect"; "--format"; owner_format; k_id held]
                  (String.eqb (owner_token state +:+ "/" +:+ graph_id state)))
          "E_DOCKER_IDENTITY: endpoint container owner changed";;;
        let! cgroup := sys_call (ReadFile ("/proc/" +:+ to_string (k_pid held) +:+ "/cgroup")) in
        if has (k_id held) cgroup then Ret held
        else throw "E_DOCKER_IDENTITY: container is not in the local engine cgroup"
  end.

(** A command in the name space of a container *)
Definition in_container (held : ResolvedContainer) (arguments : list string) : list string :=
  ["nsenter"; "-t"; to_string (k_pid held); "-n"; "--"] ++ arguments.

(** ** Identity *)

Definition expected_endpoint (state : OwnershipState) (id : string) : result ExpectedEndpoint :=
  match find_expected state id with
  | Some e => Ok e
  | None => Throw (RuntimeError ("missing expected endpoint record " +:+ id))
  end.

Definition ovs_endpoint_owned (endpoint : OwnedResourceIdentity) (state : OwnershipState) : Prog bool :=
  let port := r_stable_id endpoint in
  let interface := r_secondary_id endpoint in
  all_of
    [gives (ovs_get "Port" port "_uuid") port;
     gives (ovs_get "Interface" interface "_uuid") interface;
     gives (ovs_get "Port" port "external_ids:graphx_owner") (owner_token state);
     gives (ovs_get "Port" port "external_ids:graphx_attachment") (r_attachment_id endpoint);
     gives (ovs_get "Port" port "external_ids:graphx_config_hash") (config_hash state);
     gives (ovs_get "Port" port "external_ids:graphx_graph") (graph_id state);
     gives (ovs_get "Interface" interface "external_ids:graphx_owner") (owner_token state);
     gives (ovs_get "Interface" interface "external_ids:graphx_attachment") (r_attachment_id endpoint);
     gives (ovs_get "Interface" interface "external_ids:graphx_config_hash") (config_hash state);
     gives (ovs_get "Interface" interface "external_ids:graphx_graph") (graph_id state)].

Definition host_endpoint_owned (endpoint : OwnedResourceIdentity) (state : OwnershipState) : Prog bool :=
  let! observed := link_ifindex (r_name endpoint) in
  match observed, r_ifindex endpoint with
  | Some observed, Some recorded =>
      if observed =? recorded then
        gives (link_alias (r_name endpoint)) (endpoint_alias state (r_attachment_id endpoint) "host")
      else Ret false
  | _, _ => Ret false
  end.

Definition tap_owner_identity (uid gid : Z) : string := to_string uid +:+ ":" +:+ to_string gid.

Definition tap_owner_matches (expected : ExpectedEndpoint) : Prog bool :=
  shows ["ip"; "tuntap"; "show"; "dev"; e_host_interface expected]
    (fun details => has " tap " details && has (" user " +:+ to_string (e_tap_uid expected)) details
                    && has (" group " +:+ to_string (e_tap_gid expected)) details).

Definition endpoint_names_absent_or_recorded (endpoint : OwnedResourceIdentity) : Prog bool :=
  let! port := ovs_get "Port" (r_name endpoint) "_uuid" in
  let! interface := ovs_get "Interface" (r_name endpoint) "_uuid" in
  Ret ((is_empty port || String.eqb port (r_stable_id endpoint))
       && (is_empty interface || String.eqb interface (r_secondary_id endpoint))).

(** The words of [ip -o link]: the index, and the alias behind its word *)
Fixpoint alias_word (l : list string) : option string :=
  match l with
  | [] => None
  | word :: l => if String.eqb word "alias" then head l else alias_word l
  end.

Definition mirror_peer_link_matches (link : string) (index : Z) (alias : string) : bool :=
  match split_words link with
  | token :: rest =>
      String.eqb token (to_string index +:+ ":") && bool_decide (alias_word rest = Some alias)
  | [] => false
  end.

Definition mirror_peer_owned (expected : ExpectedEndpoint) (endpoint : OwnedResourceIdentity)
    (state : OwnershipState) (config : HostConfig) : Prog bool :=
  let! held := resolve_owned_container config (e_owner expected) state in
  if negb (String.eqb (k_id held) (r_container_id endpoint))
     || negb (bool_decide (Some (k_namespace_inode held) = r_namespace_inode endpoint))
  then Ret false
  else
    let! link := run (in_container held ["ip"; "-d"; "-o"; "link"; "show"; "dev";
                                              e_target_interface expected]) in
    Ret ((link.1 =? 0)
         && match r_peer_ifindex endpoint with
            | Some index => mirror_peer_link_matches link.2 index
                              (endpoint_alias state (e_id expected) "peer")
            | None => false
            end).

(** ** Deletion *)

(** Transactions that wait for the owned record before they remove it *)
Definition attachment_fields (endpoint : OwnedResourceIdentity) (state : OwnershipState) : list string :=
  ["external_ids:graphx_owner=" +:+ owner_token state;
   "external_ids:graphx_attachment=" +:+ json_text (r_attachment_id endpoint)].

Definition destroy_mirror (endpoint : OwnedResourceIdentity) (state : OwnershipState) (bridge : string)
    : list string :=
  let uuid := r_route_identity endpoint in
  ["ovs-vsctl"; "--timeout=2"; "--"; "wait-until"; "Mirror"; uuid] ++ attachment_fields endpoint state
  ++ ["external_ids:graphx_graph=" +:+ graph_id state;
      "external_ids:graphx_config_hash=" +:+ config_hash state;
      "--"; "remove"; "Bridge"; bridge; "mirrors"; uuid; "--"; "destroy"; "Mirror"; uuid].

Definition destroy_port (endpoint : OwnedResourceIdentity) (state : OwnershipState) (bridge : string)
    : list string :=
  let uuid := r_stable_id endpoint in
  ["ovs-vsctl"; "--timeout=2"; "--"; "wait-until"; "Port"; uuid] ++ attachment_fields endpoint state
  ++ ["external_ids:graphx_config_hash=" +:+ config_hash state;
      "external_ids:graphx_graph=" +:+ graph_id state;
      "--"; "remove"; "Bridge"; bridge; "ports"; uuid; "--"; "destroy"; "Interface";
      r_secondary_id endpoint; "--"; "destroy"; "Port"; uuid].

(** The host side of a mirror in a container: its peer still waits beside it, or
    is the owned one in the container. *)
Definition mirror_side_owned (expected : ExpectedEndpoint) (endpoint : OwnedResourceIdentity)
    (state : OwnershipState) (config : option HostConfig) : Prog bool :=
  let! pending :=
    and_also (link_is (e_target_interface expected) (r_peer_ifindex endpoint))
      (gives (link_alias (e_target_interface expected))
         (endpoint_alias state (r_attachment_id endpoint) "peer")) in
  if pending : bool then Ret true
  else match config with
       | Some config => mirror_peer_owned expected endpoint state config
       | None => Ret false
       end.

Definition delete_link (expected : ExpectedEndpoint) (endpoint : OwnedResourceIdentity)
    (state : OwnershipState) : Prog bool :=
  let! exists_ := link_exists (r_name endpoint) in
  if negb exists_ then Ret true
  else
    and_also (host_endpoint_owned endpoint state)
      (match e_kind expected with
       | qemu_tap =>
           and_also (tap_owner_matches expected)
             (if String.eqb (r_tap_owner endpoint)
                   (tap_owner_identity (e_tap_uid expected) (e_tap_gid expected))
              then succeeds ["ip"; "tuntap"; "delete"; "dev"; r_name endpoint; "mode"; "tap"]
              else Ret false)
       | _ => succeeds ["ip"; "link"; "delete"; "dev"; r_name endpoint]
       end).

Definition delete_owned_endpoint (endpoint : OwnedResourceIdentity) (state : OwnershipState)
    (config : option HostConfig) : Prog bool :=
  let! expected := of_result (expected_endpoint state (r_attachment_id endpoint)) in
  and_also
    (if e_mirror_container expected then
       let! exists_ := link_exists (r_name endpoint) in
       if exists_ : bool then
         and_also (host_endpoint_owned endpoint state) (mirror_side_owned expected endpoint state config)
       else Ret true
     else Ret true)
  (and_also (endpoint_names_absent_or_recorded endpoint)
  (and_also (mirror_absent_or_owned endpoint state)
  (match List.find (fun b => String.eqb (r_name b) (e_network_switch expected)) (bridges state) with
   | None => Ret false
   | Some bridge =>
       and_also
         (if is_empty (r_route_identity endpoint) then Ret true
          else
            let! uuid := ovs_get "Mirror" (r_route_identity endpoint) "_uuid" in
            if String.eqb uuid (r_route_identity endpoint)
            then succeeds (destroy_mirror endpoint state (r_stable_id bridge)) else Ret true)
       (and_also
         (let! uuid := ovs_get "Port" (r_stable_id endpoint) "_uuid" in
          if String.eqb uuid (r_stable_id endpoint)
          then and_also (ovs_endpoint_owned endpoint state)
                 (succeeds (destroy_port endpoint state (r_stable_id bridge)))
          else Ret true)
         (delete_link expected endpoint state))
   end))).

(** ** Health *)

Definition has_mtu (mtu : Z) (link : string) : bool := has ("mtu " +:+ to_string mtu +:+ " ") link.

Definition host_mtu (expected : ExpectedEndpoint) (endpoint : OwnedResourceIdentity) : Prog bool :=
  and_also (shows ["ip"; "-o"; "link"; "show"; "dev"; e_host_interface expected]
              (has_mtu (e_mtu expected)))
           (gives (ovs_get "Interface" (r_secondary_id endpoint) "mtu") (to_string (e_mtu expected))).

Definition tap_endpoint_healthy (expected : ExpectedEndpoint) (endpoint : OwnedResourceIdentity)
    (state : OwnershipState) : Prog bool :=
  all_of
    [host_endpoint_owned endpoint state; ovs_endpoint_owned endpoint state;
     endpoint_vlan_matches expected endpoint; tap_owner_matches expected;
     Ret (String.eqb (r_tap_owner endpoint) (tap_owner_identity (e_tap_uid expected) (e_tap_gid expected)));
     shows ["ip"; "-d"; "-o"; "link"; "show"; "dev"; e_host_interface expected]
       (fun link => has_mtu (e_mtu expected) link && has "UP" link)].

(** Address and aliases of the interface in its name space *)
Definition addresses_shown (prefix : list string) (expected : ExpectedEndpoint) : Prog bool :=
  shows (prefix ++ ["ip"; "-o"; "-4"; "address"; "show"; "dev"; e_target_interface expected])
    (fun address => has (e_address expected) address
                    && forallb (fun alias => has alias address) (e_aliases expected)).

Definition route_shown (prefix : list string) (expected : ExpectedEndpoint) (route : RouteDefinition)
    : Prog bool :=
  if negb (install_on_create route) then Ret true
  else
    shows (prefix ++ ["ip"; "-4"; "route"; "show"; destination route])
      (fun observed => has (destination route) observed
         && has ("dev " +:+ e_target_interface expected) observed
         && (is_empty (via route) || has ("via " +:+ via route) observed)).

(** [std::stoul(link.substr(0, colon)) == index], which may throw *)
Definition link_index (link : string) (index : option Z) : Prog bool :=
  match find ":" link, index with
  | Some colon, Some index =>
      match stoul (stake colon link) with
      | Some (v, _) => Ret (v =? index)
      | None => Fail (InvalidArgument "stoul")
      end
  | _, _ => Ret false
  end.

Definition container_endpoint_healthy (expected : ExpectedEndpoint) (endpoint : OwnedResourceIdentity)
    (state : OwnershipState) (config : HostConfig) : Prog bool :=
  let! held := resolve_owned_container config (e_owner expected) state in
  if negb (String.eqb (k_id held) (r_container_id endpoint))
     || negb (bool_decide (Some (k_namespace_inode held) = r_namespace_inode endpoint))
  then Ret false
  else
    let! link := run (in_container held ["ip"; "-d"; "-o"; "link"; "show"; "dev";
                                         e_target_interface expected]) in
    if negb (link.1 =? 0) then Ret false
    else
      and_also (link_index link.2 (r_peer_ifindex endpoint))
      (and_also (Ret (has_mtu (e_mtu expected) link.2
                      && has (endpoint_alias state (r_attachment_id endpoint) "peer") link.2
                      && (is_empty (e_mac expected) || has (e_mac expected) link.2)))
      (and_also (addresses_shown (in_container held []) expected)
      (and_also (every (route_shown (in_container held []) expected) (e_routes expected))
      (and_also (jumbo_offloads_healthy expected (in_container held []))
      (and_also (host_endpoint_owned endpoint state)
      (and_also (ovs_endpoint_owned endpoint state) (host_mtu expected endpoint))))))).

Definition namespace_endpoint_healthy (expected : ExpectedEndpoint) (endpoint : OwnedResourceIdentity)
    (state : OwnershipState) : Prog bool :=
  let! inode := namespace_inode (e_namespace_name expected) in
  if negb (bool_decide (is_Some inode /\ inode = r_namespace_inode endpoint)) then Ret false
  else
    let inside := ["ip"; "netns"; "exec"; e_namespace_name expected] in
    let! link := run (inside ++ ["ip"; "-d"; "-o"; "link"; "show"; "dev"; e_target_interface expected]) in
    if negb (link.1 =? 0) || negb (has (endpoint_alias state (r_attachment_id endpoint) "peer") link.2)
    then Ret false
    else
      and_also (addresses_shown inside expected)
      (and_also (jumbo_offloads_healthy expected inside)
      (and_also (Ret (has_mtu (e_mtu expected) link.2))
      (and_also (host_endpoint_owned endpoint state)
      (and_also (ovs_endpoint_owned endpoint state) (host_mtu expected endpoint))))).

Section Filter.
(** yaml-cpp: the documents of a text, and the conversions of its scalars *)
Context (load_all : string -> option (list Yaml.node)) (c : Yaml.Conversions).

Definition is_text (n : Yaml.node) (key value : string) : result bool :=
  let* v := Yaml.get n key in
  let* text := Yaml.convert v (Yaml.as_string c) in Ok (String.eqb text value).
Definition is_number (n : Yaml.node) (key : string) (value : Z) : result bool :=
  let* v := Yaml.get n key in
  let* number := Yaml.convert v (Yaml.as_int c) in Ok (number =? value).

Fixpoint all_ok (l : list (result bool)) : result bool :=
  match l with
  | [] => Ok true
  | r :: l => let* b := r in if b : bool then all_ok l else Ok false
  end.

Definition is_header (header : Yaml.node) : result bool :=
  if negb (Yaml.is_map header) || negb (Yaml.node_size header =? 4) then Ok false
  else
    let* options := Yaml.get header "options" in
    if Yaml.defined options then Ok false
    else all_ok [is_text header "kind" "matchall"; is_text header "protocol" "all";
                 is_number header "pref" 1; is_number header "chain" 0].

(** The only rule drops everything. *)
Definition is_drop (filter : Yaml.node) : result bool :=
  let* options := Yaml.get filter "options" in
  let* actions := Yaml.get options "actions" in
  all_ok
    [is_text filter "kind" "matchall"; is_text filter "protocol" "all"; is_number filter "pref" 1;
     (let* chain := Yaml.get filter "chain" in Ok (Yaml.convert_or chain (Yaml.as_int c) 0 =? 0));
     Ok (Yaml.is_sequence actions && (Yaml.node_size actions =? 1));
     (match Yaml.elements_of actions with
      | action :: _ =>
          all_ok [is_text action "kind" "gact";
                  (let* control := Yaml.get action "control_action" in is_text control "type" "drop")]
      | [] => Ok false
      end)].

Definition passive_mirror_filter_matches (json : string) : bool :=
  match load_all json with
  | Some [Yaml.Sequence filters] =>
      let outcome :=
        match filters with
        | [filter] => is_drop filter
        | [header; filter] => let* ok := is_header header in if ok : bool then is_drop filter else Ok false
        | _ => Ok false
        end in
      match outcome with Ok b => b | Throw _ => false end
  | _ => false
  end.

Definition mirror_endpoint_healthy (expected : ExpectedEndpoint) (endpoint : OwnedResourceIdentity)
    (state : OwnershipState) (config : option HostConfig) : Prog bool :=
  let! peer :=
    (if e_mirror_container expected then
       match config with
       | None => Ret None
       | Some config =>
           let! owned := mirror_peer_owned expected endpoint state config in
           if negb owned then Ret None
           else
             let! held := resolve_owned_container config (e_owner expected) state in
             let! offloads := jumbo_offloads_healthy expected (in_container held []) in
             if negb offloads then Ret None
             else
               let! link := run (in_container held ["ip"; "-o"; "link"; "show"; "dev";
                                                    e_target_interface expected]) in
               if negb (link.1 =? 0) then Ret None
               else
                 let! passive := shows ["tc"; "-j"; "filter"; "show"; "dev"; e_host_interface expected;
                                        "ingress"] passive_mirror_filter_matches in
                 Ret (if passive then Some link.2 else None)
       end
     else
       let! same := and_also (link_is (e_target_interface expected) (r_peer_ifindex endpoint))
         (gives (link_alias (e_target_interface expected)) (endpoint_alias state (e_id expected) "peer")) in
       if negb same then Ret None
       else
         let! link := run ["ip"; "-o"; "link"; "show"; "dev"; e_target_interface expected] in
         if negb (link.1 =? 0) then Ret None
         else
           let! offloads := jumbo_offloads_healthy expected [] in
           Ret (if offloads then Some link.2 else None)) in
  match peer with
  | None => Ret false
  | Some peer_link =>
      let uuid := r_route_identity endpoint in
      all_of
        [Ret (has_mtu (e_mtu expected) peer_link); host_endpoint_owned endpoint state;
         ovs_endpoint_owned endpoint state; host_mtu expected endpoint; Ret (negb (is_empty uuid));
         gives (ovs_get "Mirror" uuid "external_ids:graphx_owner") (owner_token state);
         gives (ovs_get "Mirror" uuid "external_ids:graphx_attachment") (e_id expected);
         gives (ovs_get "Mirror" uuid "select_all") "true";
         gives (ovs_get "Mirror" uuid "output_port") (r_stable_id endpoint)]
  end.
End Filter.
End Endpoint.
