(* ===== verification/EndpointCreate.v ===== *)
(** * Creating endpoints (src/src/infra/endpoint_resources.cpp)

    Every interface is marked with the owner before it is put into a bridge,
    and every record of Open vSwitch carries the owner from its creation on. *)

From Stdlib Require Import ZArith Lia Strings.Byte Strings.Ascii Strings.String.
From stdpp Require Import base option gmap strings list.
From S2P Require Import Prelude ConfigValue ResolvedNetwork Text OwnershipState Effects Process Host Ovs Endpoint.

Module EndpointCreate.
Import Text ResolvedNetwork OwnershipState Effects Process Host Ovs Endpoint.
Local Open Scope Z_scope.
#[local] Open Scope prog_scope.

Definition ovs_port (name : string) : Prog string := ovs_get "Port" name "_uuid".
Definition ovs_interface (name : string) : Prog string := ovs_get "Interface" name "_uuid".
Definition nonempty (p : Prog string) : Prog bool := let! x := p in Ret (negb (is_empty x)).

Definition check_endpoint_collision (endpoint : ExpectedEndpoint) (pid : Z) : Prog unit :=
  refuse (link_exists (e_host_interface endpoint))
    ("refusing unowned host interface collision: " +:+ e_host_interface endpoint);;;
  refuse (or_else (nonempty (ovs_port (e_host_interface endpoint)))
                  (nonempty (ovs_interface (e_host_interface endpoint))))
    ("refusing unowned OVS endpoint collision: " +:+ e_host_interface endpoint);;;
  refuse (succeeds ["nsenter"; "-t"; to_string pid; "-n"; "--"; "ip"; "link"; "show"; "dev";
                    e_target_interface endpoint])
    ("refusing container interface collision: " +:+ e_target_interface endpoint).

(** ** Commands *)

Definition add_veth (endpoint : ExpectedEndpoint) : list string :=
  ["ip"; "link"; "add"; e_host_interface endpoint; "type"; "veth"; "peer"; "name";
   e_target_interface endpoint].

Definition set_link (interface : string) (l : list string) : list string :=
  ["ip"; "link"; "set"; "dev"; interface] ++ l.

(** The fields of every record of an endpoint *)
Definition record_fields (endpoint : ExpectedEndpoint) (state : OwnershipState) : list string :=
  ["external_ids:graphx_owner=" +:+ owner_token state;
   "external_ids:graphx_attachment=" +:+ e_id endpoint;
   "external_ids:graphx_graph=" +:+ graph_id state;
   "external_ids:graphx_config_hash=" +:+ config_hash state].

Definition add_port (endpoint : ExpectedEndpoint) (state : OwnershipState) : list string :=
  ["ovs-vsctl"; "--"; "--id=@i"; "create"; "Interface"; "name=" +:+ e_host_interface endpoint;
   "mtu_request=" +:+ to_string (e_mtu endpoint)] ++ record_fields endpoint state
  ++ ["--"; "--id=@p"; "create"; "Port"; "name=" +:+ e_host_interface endpoint; "interfaces=@i"]
  ++ record_fields endpoint state
  ++ ["--"; "add"; "Bridge"; e_network_switch endpoint; "ports"; "@p"].

Definition add_mirror (endpoint : ExpectedEndpoint) (state : OwnershipState) (port_uuid : string)
    : list string :=
  ["ovs-vsctl"; "--"; "--id=@m"; "create"; "Mirror"; "name=" +:+ e_host_interface endpoint;
   "select_all=true"; "output-port=" +:+ port_uuid] ++ record_fields endpoint state
  ++ ["--"; "add"; "Bridge"; e_network_switch endpoint; "mirrors"; "@m"].

(** ** Steps in common *)

Definition mark_alias (endpoint : ExpectedEndpoint) (state : OwnershipState) (interface side : string)
    : Prog bool :=
  succeeds (set_link interface ["alias"; endpoint_alias state (e_id endpoint) side]).
Definition set_mtu (endpoint : ExpectedEndpoint) (interface : string) : Prog bool :=
  succeeds (set_link interface ["mtu"; to_string (e_mtu endpoint)]).

Definition mark_veth (endpoint : ExpectedEndpoint) (state : OwnershipState) : Prog bool :=
  all_of [mark_alias endpoint state (e_host_interface endpoint) "host";
          mark_alias endpoint state (e_target_interface endpoint) "peer";
          set_mtu endpoint (e_host_interface endpoint);
          set_mtu endpoint (e_target_interface endpoint)].

(** The indices of both sides, with the offloads configured in between *)
Definition veth_indices (endpoint : ExpectedEndpoint) (text : string) : Prog (Z * Z) :=
  let! ifindex := link_ifindex (e_host_interface endpoint) in
  configure_jumbo_offloads endpoint;;;
  let! peer_ifindex := link_ifindex (e_target_interface endpoint) in
  match ifindex, peer_ifindex with
  | Some ifindex, Some peer_ifindex => Ret (ifindex, peer_ifindex)
  | _, _ => throw text
  end.

Definition port_records (endpoint : ExpectedEndpoint) : Prog (string * string) :=
  let! port_uuid := ovs_port (e_host_interface endpoint) in
  let! interface_uuid := ovs_interface (e_host_interface endpoint) in
  Ret (port_uuid, interface_uuid).

Definition captured_records (endpoint : ExpectedEndpoint) (text : string) : Prog (string * string) :=
  let! records := port_records endpoint in
  if is_empty records.1 || is_empty records.2 then throw text else Ret records.

(** Commands inside the name space of the target *)
Definition configure_target (prefix : list string) (endpoint : ExpectedEndpoint) (text : string)
    : Prog unit :=
  let ns command := perform (prefix ++ command) text in
  let target := e_target_interface endpoint in
  ns (set_link target ["mtu"; to_string (e_mtu endpoint)]);;;
  (if is_empty (e_mac endpoint) then Ret tt else ns (set_link target ["address"; e_mac endpoint]));;;
  ns ["ip"; "address"; "replace"; e_address endpoint; "dev"; target];;;
  for_each_in (fun alias _ => ns ["ip"; "address"; "replace"; alias; "dev"; target])
    (e_aliases endpoint) tt;;;
  ns (set_link target ["up"]);;;
  for_each_in (fun route _ =>
    if negb (install_on_create route) then Ret tt
    else ns (["ip"; "route"; "replace"; destination route]
             ++ (if is_empty (via route) then [] else ["via"; via route]) ++ ["dev"; target]))
    (e_routes endpoint) tt.

Definition enable_host (endpoint : ExpectedEndpoint) (text : string) : Prog unit :=
  perform (set_link (e_host_interface endpoint) ["up"]) text.

(** ** The four kinds *)

Definition create_endpoint (endpoint : ExpectedEndpoint) (pid : Z) (state : OwnershipState)
    : Prog OwnedResourceIdentity :=
  let id := e_id endpoint in
  perform (add_veth endpoint) ("cannot create veth for attachment " +:+ id);;;
  demand (mark_veth endpoint state) ("cannot mark veth ownership for attachment " +:+ id);;;
  let! (ifindex, peer_ifindex) :=
    veth_indices endpoint ("cannot capture veth ifindices for attachment " +:+ id) in
  perform (add_port endpoint state) ("cannot attach owned veth to OVS for attachment " +:+ id);;;
  let! records := captured_records endpoint
    ("cannot capture OVS endpoint identity for attachment " +:+ id) in
  perform (set_link (e_target_interface endpoint) ["netns"; to_string pid])
    ("cannot move veth into container namespace for attachment " +:+ id);;;
  configure_target ["nsenter"; "-t"; to_string pid; "-n"; "--"] endpoint
    ("cannot configure container endpoint " +:+ id);;;
  enable_host endpoint ("cannot enable host veth for attachment " +:+ id);;;
  Ret (endpoint_identity "container_veth" id (e_host_interface endpoint) (e_target_interface endpoint)
         records.1 records.2 ifindex peer_ifindex (e_namespace_inode endpoint)
         (e_container_id endpoint) "" "").

Definition create_namespace_endpoint (endpoint : ExpectedEndpoint) (state : OwnershipState)
    : Prog OwnedResourceIdentity :=
  let id := e_id endpoint in
  perform (add_veth endpoint) ("cannot create namespace veth for attachment " +:+ id);;;
  demand (mark_veth endpoint state) ("cannot mark namespace veth " +:+ id);;;
  let! (ifindex, peer_ifindex) := veth_indices endpoint "cannot capture namespace veth identity" in
  perform (add_port endpoint state) ("cannot attach namespace veth to OVS " +:+ id);;;
  let! records := captured_records endpoint "cannot capture namespace OVS identity" in
  configure_endpoint_vlan endpoint;;;
  perform (set_link (e_target_interface endpoint) ["netns"; e_namespace_name endpoint])
    ("cannot move veth into namespace " +:+ e_namespace_name endpoint);;;
  configure_target ["ip"; "netns"; "exec"; e_namespace_name endpoint] endpoint
    ("cannot configure namespace endpoint " +:+ id);;;
  enable_host endpoint ("cannot enable namespace host veth " +:+ id);;;
  Ret (endpoint_identity "namespace_veth" id (e_host_interface endpoint) (e_target_interface endpoint)
         records.1 records.2 ifindex peer_ifindex (e_namespace_inode endpoint) "" "" "").

Definition add_tap (endpoint : ExpectedEndpoint) : list string :=
  ["ip"; "tuntap"; "add"; "dev"; e_host_interface endpoint; "mode"; "tap"; "user";
   to_string (e_tap_uid endpoint); "group"; to_string (e_tap_gid endpoint)].

Definition create_tap_endpoint (endpoint : ExpectedEndpoint) (state : OwnershipState)
    : Prog OwnedResourceIdentity :=
  let id := e_id endpoint in
  perform (add_tap endpoint) ("cannot create TAP for attachment " +:+ id);;;
  demand (and_also (mark_alias endpoint state (e_host_interface endpoint) "host")
            (set_mtu endpoint (e_host_interface endpoint)))
    ("cannot mark TAP ownership for attachment " +:+ id);;;
  let! ifindex := link_ifindex (e_host_interface endpoint) in
  match ifindex with
  | None => throw ("cannot capture TAP ifindex for attachment " +:+ id)
  | Some ifindex =>
      perform (add_port endpoint state) ("cannot attach owned TAP to OVS for attachment " +:+ id);;;
      let! records := captured_records endpoint
        ("cannot capture TAP OVS identity for attachment " +:+ id) in
      configure_endpoint_vlan endpoint;;;
      enable_host endpoint ("cannot enable TAP for attachment " +:+ id);;;
      Ret (endpoint_identity "qemu_tap" id (e_host_interface endpoint) (e_host_interface endpoint)
             records.1 records.2 ifindex ifindex (e_namespace_inode endpoint) ""
             (tap_owner_identity (e_tap_uid endpoint) (e_tap_gid endpoint)) "")
  end.

(** [config_internal::resource_name] over the digests of the cryptography
    library *)
Section Diagnostic.
Context (sha256 : string -> string).

(** The mirror on the host beside the mirror of a container *)
Definition diagnostic_mirror_endpoint (recorder : ExpectedEndpoint) (graph capture : string)
    (host_namespace : Z) : result ExpectedEndpoint :=
  if negb (bool_decide (e_kind recorder = mirror_kind)) || negb (e_mirror_container recorder)
     || (host_namespace =? 0) || is_empty capture
  then Throw (InvalidArgument "diagnostic mirror requires a container mirror and host namespace")
  else
    let id := "diagnostic:" +:+ capture in
    Ok {| e_mirror_container := false; e_kind := mirror_kind; e_id := id; e_owner := id;
          e_host_interface := ConfigValue.resource_name sha256 graph "interface" id;
          e_target_interface := ConfigValue.resource_name sha256 graph "peer" id;
          e_network_switch := e_network_switch recorder; e_address := ""; e_mac := "";
          e_mtu := e_mtu recorder; e_routes := []; e_aliases := []; e_management_policy := "";
          e_container_id := ""; e_namespace_inode := host_namespace; e_namespace_name := "";
          e_tap_uid := 0; e_tap_gid := 0; e_vlan := {| access_tag := None; trunks := [] |} |}.
End Diagnostic.

(** What arrives from a container behind a mirror is dropped. *)
Definition drop_filter (endpoint : ExpectedEndpoint) : list string :=
  ["tc"; "filter"; "add"; "dev"; e_host_interface endpoint; "ingress"; "pref"; "1"; "handle"; "1";
   "matchall"; "action"; "drop"].

Definition create_mirror_endpoint (endpoint : ExpectedEndpoint) (state : OwnershipState) (pid : Z)
    : Prog OwnedResourceIdentity :=
  let id := e_id endpoint in
  let host := e_host_interface endpoint in
  let target := e_target_interface endpoint in
  perform (add_veth endpoint) ("cannot create mirror veth " +:+ id);;;
  demand (and_also (mark_alias endpoint state host "host") (mark_alias endpoint state target "peer"))
    ("cannot mark mirror veth " +:+ id);;;
  demand (and_also (set_mtu endpoint host) (set_mtu endpoint target)) "mirror MTU prerequisite";;;
  let! (ifindex, _) := veth_indices endpoint "cannot capture mirror veth identity" in
  perform (add_port endpoint state) ("cannot attach mirror veth " +:+ id);;;
  let! records := port_records endpoint in
  perform (add_mirror endpoint state records.1) ("cannot create OVS mirror " +:+ id);;;
  let! mirror_uuid := ovs_get "Mirror" host "_uuid" in
  if is_empty mirror_uuid then throw "cannot capture OVS mirror identity"
  else
    (if e_mirror_container endpoint then
       demand (and_also (Ret (negb (pid =? 0)))
         (all_of [succeeds ["tc"; "qdisc"; "add"; "dev"; host; "clsact"];
                  succeeds (drop_filter endpoint);
                  succeeds (set_link target ["netns"; to_string pid]);
                  succeeds (["nsenter"; "-t"; to_string pid; "-n"; "--"] ++ set_link target ["up"])]))
         "cannot create passive container mirror"
     else perform (set_link target ["up"]) "cannot enable mirror peer");;;
    enable_host endpoint "cannot enable mirror host";;;
    let! peer_ifindex := link_peer_ifindex host in
    match peer_ifindex with
    | Some peer_ifindex =>
        Ret (endpoint_identity "mirror_veth" id host target records.1 records.2 ifindex peer_ifindex
               (e_namespace_inode endpoint) (e_container_id endpoint) "" mirror_uuid)
    | None => throw "cannot verify moved mirror peer index"
    end.
End EndpointCreate.
