(* ===== verification/Capture.v ===== *)
(** * Captures (src/src/infra/capture_resources.cpp)

    A capture is a dumpcap process that writes into a private directory of the
    session.  Its directory is known by device and inode, its process by start
    time and command line.  When it stops, its files are made read-only; what
    is kept beyond its time is removed. *)

From Stdlib Require Import ZArith Lia Strings.Byte Strings.Ascii Strings.String.
From stdpp Require Import base option gmap strings list.
From S2P Require Import Prelude Text ResolvedNetwork OwnershipState Effects Process Host.

Module Capture.
Import Text ResolvedNetwork OwnershipState Effects Process Host.
Local Open Scope Z_scope.
#[local] Open Scope prog_scope.

(** ** Processes of captures and faults *)

Definition process_start_time (pid : Z) : Prog string :=
  let! o := inspect_process pid in Ret (start_time o).
Definition process_command_of (pid : Z) : Prog string :=
  let! o := inspect_process pid in Ret (process_command o).
Definition process_name_of (pid : Z) : Prog string :=
  let! o := inspect_process pid in Ret (process_name o).

Definition process_owned (pid : Z) (start marker : string) : Prog bool :=
  and_also (Ret (negb (pid =? 0) && negb (is_empty start)))
  (and_also (gives (process_start_time pid) start)
            (let! command := process_command_of pid in Ret (has marker command))).

Definition timer_owned (pid : Z) (start : string) : Prog bool :=
  let! name := process_name_of pid in
  and_also (Ret (negb (pid =? 0) && negb (is_empty start)))
  (and_also (gives (process_start_time pid) start)
            (Ret (String.eqb name "graphx-fault"))).

(** What stops: a capture by its marker, or the timer of a fault *)
Inductive owned_kind := capture_with (marker : string) | fault_timer.

Definition still_owned (pid : Z) (start : string) (kind : owned_kind) : Prog bool :=
  match kind with
  | capture_with marker => process_owned pid start marker
  | fault_timer => timer_owned pid start
  end.

Definition process_gone (pid : Z) : Prog bool := gives (process_start_time pid) "".

Fixpoint await_gone (attempts : nat) (pid : Z) : Prog bool :=
  match attempts with
  | O => Ret false
  | S attempts => or_else (process_gone pid) (sys_call (Sleep 20);;; await_gone attempts pid)
  end.

Definition stop_owned_process (pid : Z) (start : string) (kind : owned_kind) : Prog bool :=
  let! owned := still_owned pid start kind in
  if negb owned then process_gone pid
  else
    sys_call (Signal pid SIGTERM);;;
    or_else (await_gone 50 pid)
      (let! owned := still_owned pid start kind in
       (if owned : bool then sys_call (Signal pid SIGKILL) else Ret tt);;;
       or_else (await_gone 50 pid) (process_gone pid)).

(** ** Identity of directories and files *)

Definition is_directory (m : metadata) : bool :=
  match st_kind m with file_directory => true | _ => false end.
Definition is_regular (m : metadata) : bool :=
  match st_kind m with file_regular => true | _ => false end.
Definition permissions (m : metadata) : Z := Z.land (st_mode m) 511.

Definition capture_directory_metadata_matches (capture : OwnedCapture) (m : metadata)
    (required_mode : Z) : bool :=
  is_directory m && (u64 (st_dev m) =? c_directory_device capture)
  && (u64 (st_ino m) =? c_directory_inode capture) && (u32 (st_uid m) =? c_directory_uid capture)
  && (u32 (st_gid m) =? c_directory_gid capture) && (permissions m =? required_mode)
  && (c_directory_uid capture =? 0) && (c_directory_gid capture =? 0)
  && (c_directory_mode capture =? 448).

(** 0700 while the capture runs, 0550 once it is sealed *)
Definition capture_directory_known (capture : OwnedCapture) (m : metadata) : bool :=
  capture_directory_metadata_matches capture m 448 || capture_directory_metadata_matches capture m 360.

(** [open] and [fstat] of the session directory, if both succeed *)
Definition open_session (capture : OwnedCapture) : Prog (option (Z * metadata)) :=
  let! opened := sys_call (OpenDirectoryFd (c_session_directory capture)) in
  match opened with
  | None => Ret None
  | Some fd =>
      let! details := sys_call (Fstat fd) in
      Ret (option_map (pair fd) details)
  end.

Definition directory_identity_matches (capture : OwnedCapture) : Prog bool :=
  let! opened := open_session capture in
  Ret match opened with Some (_, m) => capture_directory_known capture m | None => false end.

Definition capture_file_metadata_is_safe (capture : OwnedCapture) (m : metadata) : bool :=
  is_regular m && (st_nlink m =? 1) && (u32 (st_uid m) =? c_directory_uid capture)
  && (u32 (st_gid m) =? c_directory_gid capture) && (Z.land (st_mode m) 18 =? 0).

Record CaptureFileIdentity := { cf_name : string; cf_device : Z; cf_inode : Z; cf_mode : Z }.

Definition capture_file_name_is_approved (name : string) : bool :=
  String.eqb name "dumpcap.stderr" || ends_with name ".pcapng".

(** A regular file of the superuser with one link, and none of the bits of
    [writable] *)
Definition private_file (m : metadata) (writable : Z) : bool :=
  is_regular m && (st_nlink m =? 1) && (st_uid m =? 0) && (st_gid m =? 0)
  && (Z.land (st_mode m) writable =? 0).
Definition retained_capture_file_metadata_is_safe (m : metadata) : bool := private_file m 146.

Definition file_identity (name : string) (m : metadata) : CaptureFileIdentity :=
  {| cf_name := name; cf_device := u64 (st_dev m); cf_inode := u64 (st_ino m); cf_mode := permissions m |}.
Definition same_file (file : CaptureFileIdentity) (m : metadata) : bool :=
  (u64 (st_dev m) =? cf_device file) && (u64 (st_ino m) =? cf_inode file).

(** The entries of a directory but for itself and its parent *)
Definition proper (names : list string) : list string :=
  List.filter (fun n => negb (String.eqb n "." || String.eqb n "..")) names.

Fixpoint inspect_files (directory : Z) (require_read_only : bool) (names : list string)
    (files : list CaptureFileIdentity) : Prog (option (list CaptureFileIdentity)) :=
  match names with
  | [] => Ret (Some files)
  | name :: names =>
      if negb (capture_file_name_is_approved name) then Ret None
      else
        let! details := sys_call (FstatAt directory name) in
        match details with
        | Some m =>
            if private_file m 18 && (negb require_read_only || (Z.land (st_mode m) 146 =? 0))
            then inspect_files directory require_read_only names (files ++ [file_identity name m])
            else Ret None
        | None => Ret None
        end
  end.

(** The names are read at once here; the files are inspected in their order. *)
Definition inspect_capture_session_files (directory : Z) (require_read_only : bool)
    : Prog (option (list CaptureFileIdentity)) :=
  let! entries := sys_call (Entries directory) in
  match entries with
  | None => Ret None
  | Some names =>
      let! files := inspect_files directory require_read_only (proper names) [] in
      Ret match files with
          | Some files =>
              if existsb (fun f => ends_with (cf_name f) ".pcapng") files then Some files else None
          | None => None
          end
  end.

(** ** Sealing *)

Definition seal_file (directory : Z) (expected : CaptureFileIdentity) : Prog bool :=
  let! opened := sys_call (OpenAt directory (cf_name expected)) in
  match opened with
  | None => Ret false
  | Some fd =>
      let! before := sys_call (Fstat fd) in
      match before with
      | Some m =>
          if same_file expected m && private_file m 18 then
            let! changed := sys_call (Fchmod fd (Z.land (cf_mode expected) (Z.lnot 146))) in
            if changed : bool then
              let! after := sys_call (Fstat fd) in
              Ret match after with Some m => retained_capture_file_metadata_is_safe m | None => false end
            else Ret false
          else Ret false
      | None => Ret false
      end
  end.

Definition still_listed (sealed : list CaptureFileIdentity) (expected : CaptureFileIdentity) : bool :=
  existsb (fun f => String.eqb (cf_name f) (cf_name expected) && (cf_device f =? cf_device expected)
                    && (cf_inode f =? cf_inode expected)) sealed.

Definition seal_capture_session_files (directory : Z) : Prog bool :=
  let! files := inspect_capture_session_files directory false in
  match files with
  | None => Ret false
  | Some files =>
      let! sealed := every (seal_file directory) files in
      if negb sealed then Ret false
      else
        let! sealed := inspect_capture_session_files directory true in
        Ret match sealed with
            | Some sealed => (length sealed =? length files)%nat && forallb (still_listed sealed) files
            | None => false
            end
  end.

(** ** Counting *)

(** The block type of a section header *)
Definition pcapng_magic : string := String "010" (String "013" (String "013" (String "010" ""))).

Fixpoint count_files (capture : OwnedCapture) (directory maximum_size : Z) (names : list string)
    (count : Z) : Prog Z :=
  match names with
  | [] => Ret count
  | name :: names =>
      if negb (ends_with name ".pcapng") then count_files capture directory maximum_size names count
      else
        let! details := sys_call (FstatAt directory name) in
        match details with
        | Some m =>
            if negb (capture_file_metadata_is_safe capture m) || (st_size m <? 12)
               || (u64 (maximum_size + 266240) <? st_size m)
            then Ret 0
            else
              let! opened := sys_call (OpenAt directory name) in
              match opened with
              | Some fd =>
                  let! bytes := sys_call (Pread fd 0 4) in
                  if bool_decide (bytes = Some pcapng_magic)
                  then count_files capture directory maximum_size names (count + 1)
                  else Ret 0
              | None => Ret 0
              end
        | None => Ret 0
        end
  end.

Definition capture_file_count (capture : OwnedCapture) (maximum_size : Z) : Prog Z :=
  let! opened := open_session capture in
  match opened with
  | Some (fd, m) =>
      if capture_directory_metadata_matches capture m 448 then
        let! entries := sys_call (Entries fd) in
        match entries with
        | Some names => count_files capture fd maximum_size names 0
        | None => Ret 0
        end
      else Ret 0
  | None => Ret 0
  end.

(** ** Directories *)

Definition ensure_component (current : string) : Prog unit :=
  let! details := sys_call (Lstat current) in
  let! m :=
    match details with
    | lstat_found m => Ret m
    | lstat_error => throw ("cannot create capture directory " +:+ current)
    | lstat_missing =>
        let! made := sys_call (Mkdir current 488) in
        if negb made then throw ("cannot create capture directory " +:+ current)
        else
          let! details := sys_call (Lstat current) in
          match details with
          | lstat_found m => Ret m
          | _ => throw ("cannot inspect capture directory " +:+ current)
          end
    end in
  if is_directory m then Ret tt
  else throw ("capture directory path must not contain symlinks: " +:+ current).

Definition ensure_real_directory_tree (directory : string) : Prog unit :=
  match directory with
  | String "/" rest =>
      for_each_in (fun current _ => ensure_component current) (extend_each "" (path_components rest)) tt
  | _ => throw "capture root must be absolute"
  end.

(** ** Expiry *)

Definition capture_session_name (name id : string) : bool :=
  let prefix := id +:+ "-" in
  starts_with name prefix && (String.length name =? String.length prefix + 32)%nat
  && all_in is_xdigit (sdrop (String.length prefix) name).

(** A sealed directory of the superuser *)
Definition sealed_directory (m : metadata) : bool :=
  is_directory m && (st_uid m =? 0) && (st_gid m =? 0) && (permissions m =? 360).

Definition expired (m : metadata) (now retention : Z) : bool :=
  negb (now <? st_mtime m) && (retention <? now - st_mtime m).

Definition file_unchanged (directory : Z) (file : CaptureFileIdentity) : Prog bool :=
  let! details := sys_call (FstatAt directory (cf_name file)) in
  Ret match details with
      | Some m => same_file file m && retained_capture_file_metadata_is_safe m
      | None => false
      end.

Definition remove_session (path : string) (directory : Z) (m : metadata)
    (files : list CaptureFileIdentity) : Prog unit :=
  for_each_in (fun file _ =>
    demand (sys_call (UnlinkAt directory (cf_name file))) "cannot expire retained capture file")
    files tt;;;
  let! published := sys_call (Lstat path) in
  match published with
  | lstat_found p =>
      if (u64 (st_dev p) =? u64 (st_dev m)) && (u64 (st_ino p) =? u64 (st_ino m)) && sealed_directory p
      then demand (sys_call (Rmdir path)) "cannot expire retained capture session"
      else throw "retained capture directory changed during expiry"
  | _ => throw "retained capture directory changed during expiry"
  end.

Definition prune_session (now retention : Z) (path : string) : Prog unit :=
  let! opened := sys_call (OpenDirectoryFd path) in
  match opened with
  | None => Ret tt
  | Some directory =>
      let! details := sys_call (Fstat directory) in
      match details with
      | None => Ret tt
      | Some m =>
          if negb (sealed_directory m) || negb (expired m now retention) then Ret tt
          else
            let! files := inspect_capture_session_files directory true in
            match files with
            | None => Ret tt
            | Some files =>
                let! unchanged := every (file_unchanged directory) files in
                if unchanged : bool then remove_session path directory m files else Ret tt
            end
      end
  end.

Definition prune_expired_capture_sessions (definition : NetworkCaptureDefinition) : Prog unit :=
  let! now := sys_call Time in
  let! names := checked (sys_call (Listing (directory definition))) in
  for_each_in (fun name _ =>
    if capture_session_name name (capture_id definition)
    then prune_session now (retention_seconds definition) (slash (directory definition) name)
    else Ret tt) names tt.

(** ** Creating *)

Definition storage_boundary : string := "/var/lib/graphx/captures".

Definition dumpcap : string := "/usr/bin/dumpcap".

Definition capture_command (expected : ExpectedCapture) (session : string) : list string :=
  let d := xc_definition expected in
  [dumpcap; "-q"; "-i"; xc_interface expected; "-s"; to_string (snaplen d);
   "-b"; "filesize:" +:+ to_string (u64 (max_file_bytes d + 1023) / 1024);
   "-b"; "duration:" +:+ to_string (rotation_seconds d);
   "-b"; "files:" +:+ to_string (max_files d); "-w"; slash session "ethernet.pcapng"].

Definition capture_options (expected : ExpectedCapture) (session : string) : NativeProcessOptions :=
  let d := xc_definition expected in
  {| o_id := "capture-" +:+ capture_id d; o_argv := capture_command expected session;
     o_environment := {["PATH" := "/usr/sbin:/usr/bin:/sbin:/bin"]}; o_cwd := session;
     o_log := slash session "dumpcap.stderr"; o_executable := dumpcap; o_network_namespace := "";
     o_namespace_inode := 0; o_guest_identity := false; o_console_directory := "";
     o_log_bytes := 2097152; o_file_bytes_limit := u64 (max_file_bytes d + snaplen d + 4096) |}.

(** The checks and directories before the process: the session directory *)
Definition prepare_session (definition : NetworkCaptureDefinition) (state : OwnershipState)
    : Prog (string * metadata) :=
  if negb (String.length (handoff_name state) =? 40)%nat
  then throw "capture requires owned handoff generation"
  else
    ensure_real_directory_tree (directory definition);;;
    let! boundary := sys_call (Lstat storage_boundary) in
    if negb (match boundary with
             | lstat_found m => is_directory m && (st_uid m =? 0) && (st_gid m =? 0)
                                && (Z.land (st_mode m) 18 =? 0)
             | _ => false
             end)
    then throw "capture storage boundary must be a root-owned, non-writable real directory"
    else
      prune_expired_capture_sessions definition;;;
      let! root := sys_call (Lstat (directory definition)) in
      if negb (match root with lstat_found m => is_directory m | _ => false end)
      then throw "capture root must be a real directory"
      else
        let session := slash (directory definition)
          (capture_id definition +:+ "-" +:+ sdrop 8 (handoff_name state)) in
        demand (sys_call (Mkdir session 448)) "cannot create capture session";;;
        let! details := sys_call (Lstat session) in
        match details with
        | lstat_found m =>
            if is_directory m && (st_uid m =? 0) && (st_gid m =? 0) && (permissions m =? 448)
            then Ret (session, m)
            else throw "cannot record capture directory identity"
        | _ => throw "cannot record capture directory identity"
        end.

Definition new_capture (expected : ExpectedCapture) (session : string) (ifindex : Z) (m : metadata)
    : OwnedCapture :=
  let d := xc_definition expected in
  {| c_id := capture_id d; c_attachment_id := attachment d; c_interface := xc_interface expected;
     c_session_directory := session; c_ifindex := ifindex; c_directory_device := u64 (st_dev m);
     c_directory_inode := u64 (st_ino m); c_directory_uid := u32 (st_uid m);
     c_directory_gid := u32 (st_gid m); c_directory_mode := permissions m; c_pid := 0;
     c_process_start_time := ""; c_snapshot_inode := 0; c_snapshot_pending_inode := 0 |}.

Definition with_process (pid : Z) (start : string) (c : OwnedCapture) : OwnedCapture :=
  {| c_id := c_id c; c_attachment_id := c_attachment_id c; c_interface := c_interface c;
     c_session_directory := c_session_directory c; c_ifindex := c_ifindex c;
     c_directory_device := c_directory_device c; c_directory_inode := c_directory_inode c;
     c_directory_uid := c_directory_uid c; c_directory_gid := c_directory_gid c;
     c_directory_mode := c_directory_mode c; c_pid := pid; c_process_start_time := start;
     c_snapshot_inode := c_snapshot_inode c; c_snapshot_pending_inode := c_snapshot_pending_inode c |}.

Fixpoint await_section (attempts : nat) (capture : OwnedCapture) (maximum : Z) : Prog unit :=
  match attempts with
  | O => Ret tt
  | S attempts =>
      let! count := capture_file_count capture maximum in
      if negb (count =? 0) then Ret tt else sys_call (Sleep 20);;; await_section attempts capture maximum
  end.

Definition capture_published (capture : OwnedCapture) (maximum : Z) : Prog unit :=
  if (c_ifindex capture =? 0) || is_empty (c_process_start_time capture)
  then throw "cannot record capture process identity"
  else
    await_section 100 capture maximum;;;
    let! count := capture_file_count capture maximum in
    if count =? 0 then throw "capture process did not publish a PCAPNG section" else Ret tt.

(** The process is stopped; its directory stays in the ledger. *)
Definition capture_failed (capture : OwnedCapture) (session : string) (original : exn) : Prog unit :=
  (if c_pid capture =? 0 then Ret true
   else stop_owned_process (c_pid capture) (c_process_start_time capture) (capture_with session));;;
  let! diagnostic := sys_call (ReadFile (slash session "dumpcap.stderr")) in
  let text := stake (Z.to_nat 4096) diagnostic in
  if is_empty text then Fail original else throw ("dumpcap startup failed: " +:+ text).

Section Create.
Context {S : Type} (register_identity : OwnedCapture -> stateful (C := sys) (R := answer) S unit).
#[local] Open Scope stateful_scope.

(** The callback of the process: the capture, with its process, is registered. *)
Definition register_process (process : OwnedResourceIdentity)
    : stateful (C := sys) (R := answer) (OwnedCapture * S) unit :=
  match stoul (r_stable_id process) with
  | None => raises (InvalidArgument "stoul")
  | Some (pid, _) =>
      modify (fun s => (with_process (u32 pid) (r_secondary_id process) s.1, s.2));;;
      do! s := current in inner (register_identity s.1)
  end.

Definition create_capture (expected : ExpectedCapture) (state : OwnershipState)
    : stateful (C := sys) (R := answer) S unit :=
  do! (session, m) := lift (prepare_session (xc_definition expected) state) in
  do! ifindex := lift (link_ifindex (xc_interface expected)) in
  with_local (new_capture expected session (default 0 ifindex) m)
    (catch_state
       (start_native_process (capture_options expected session) register_process;;;
        do! s := current in
        lift (capture_published s.1 (max_file_bytes (xc_definition expected))))
       (fun original =>
          do! s := current in
          lift (capture_failed s.1 session original))).
End Create.

(** ** Health and stopping *)

Definition capture_healthy (expected : ExpectedCapture) (capture : OwnedCapture) : Prog bool :=
  let! count := capture_file_count capture (max_file_bytes (xc_definition expected)) in
  let! active := process_owned (c_pid capture) (c_process_start_time capture)
                   (c_session_directory capture) in
  and_also (directory_identity_matches capture)
  (and_also (link_is (c_interface capture) (Some (c_ifindex capture)))
            (Ret ((0 <? count) && (count <=? max_files (xc_definition expected)) && active))).

Definition known_again (capture : OwnedCapture) (fd : Z) : Prog bool :=
  let! details := sys_call (Fstat fd) in
  Ret match details with Some m => capture_directory_known capture m | None => false end.

Definition stop_capture (capture : OwnedCapture) : Prog bool :=
  let! opened := open_session capture in
  match opened with
  | None => Ret false
  | Some (fd, m) =>
      if negb (capture_directory_known capture m) then Ret false
      else
        let! stopped := stop_owned_process (c_pid capture) (c_process_start_time capture)
                          (capture_with (c_session_directory capture)) in
        if negb stopped then Ret false
        else
          and_also (known_again capture fd)
          (and_also (seal_capture_session_files fd)
          (and_also (sys_call (Fchmod fd 360))
            (let! published := sys_call (Lstat (c_session_directory capture)) in
             Ret match published with
                 | lstat_found m => capture_directory_metadata_matches capture m 360
                 | _ => false
                 end)))
  end.

(** ** Snapshots *)

Definition char_code (c : ascii) : Z := Z.of_N (N_of_ascii c).

(** Four bytes, least significant first *)
Definition little_u32 (bytes : string) : option Z :=
  match bytes with
  | String a (String b (String c (String d EmptyString))) =>
      Some (Z.lor (Z.lor (char_code a) (Z.shiftl (char_code b) 8))
              (Z.lor (Z.shiftl (char_code c) 16) (Z.shiftl (char_code d) 24)))
  | _ => None
  end.

Definition read_u32 (fd offset : Z) : Prog (option Z) :=
  let! bytes := sys_call (Pread fd offset 4) in
  Ret match bytes with Some bytes => little_u32 bytes | None => None end.

(** The file starts with a section and ends with a whole block. *)
Definition complete_pcapng_snapshot (fd size : Z) : Prog bool :=
  if (size <? 28) || (9223372036854775807 <? size) then Ret false
  else
    let! start := sys_call (Pread fd 0 4) in
    if negb (bool_decide (start = Some pcapng_magic)) then Ret false
    else
      let! trailing := read_u32 fd (size - 4) in
      match trailing with
      | None => Ret false
      | Some length =>
          if (length <? 12) || (size <? length) || negb (length mod 4 =? 0) then Ret false
          else
            let! leading := read_u32 fd (size - length + 4) in
            Ret (bool_decide (leading = Some length))
      end.
End Capture.
