(* ===== verification/Fault.v ===== *)
(** * Faults (src/src/infra/fault_resources.cpp)

    A fault is a netem queueing discipline on an interface, with a timer: a
    child that waits behind a gate until it is known, sleeps, and removes the
    discipline if interface and discipline are still those it was started for. *)

From Stdlib Require Import ZArith Lia Strings.Byte Strings.Ascii Strings.String Floats.SpecFloat.
From stdpp Require Import base option gmap strings list.
From S2P Require Import Prelude Text ResolvedNetwork OwnershipState Effects Process Host Capture.

Module Fault.
Import Text ResolvedNetwork OwnershipState Effects Process Host Capture.
Local Open Scope Z_scope.
#[local] Open Scope prog_scope.

(** ** Clocks and queueing disciplines *)

Definition boot_identity : Prog string :=
  let! content := sys_call (ReadFile "/proc/sys/kernel/random/boot_id") in
  let value := first_line content in
  Ret (if (String.length value =? 36)%nat
          && all_in (fun c => is_xdigit c || bool_decide (c = "-"%char)) value
       then value else "").

Definition monotonic_nanoseconds : Prog Z :=
  let! value := sys_call Monotonic in
  match value with
  | Some value => Ret (u64 value)
  | None => throw "cannot read monotonic clock"
  end.

Definition qdisc_state (interface : string) : Prog string :=
  let! shown := run ["tc"; "qdisc"; "show"; "dev"; interface] in
  Ret (if shown.1 =? 0 then shown.2 else "").

Definition delete_qdisc (interface : string) : list string :=
  ["tc"; "qdisc"; "del"; "dev"; interface; "root"].

(** ** The timer *)

(** What the child of a timer does; the calls on the host are those of any
    process. *)
Inductive timer_call :=
  | TimerGate                            (** the byte, if one came *)
  | DetachIo | Nanosleep (seconds : Z)   (** to the end, whatever interrupts it *)
  | OnHost (c : sys)
  | Execlp (argv : list string).         (** returns when it failed: the error *)

Definition timer_answer (c : timer_call) : Type :=
  match c with
  | TimerGate => option ascii
  | DetachIo | Nanosleep _ => unit
  | OnHost c => answer c
  | Execlp _ => Z
  end.

Abbreviation Timer := (prog timer_call timer_answer).
Definition timer_do (c : timer_call) : Timer (timer_answer c) := call c.

Fixpoint on_host {A} (p : Prog A) : Timer A :=
  match p with
  | Ret a => Ret a
  | Fail e => Fail e
  | Do c k => Do (C := timer_call) (R := timer_answer) (OnHost c) (fun x => on_host (k x))
  end.

Definition ENOENT : Z := 2.

(** The exit status.  An exception leaves the function in the child. *)
Definition fault_timer_child (duration : Z) (interface : string) (expected_ifindex : Z)
    (expected_qdisc : string) : Timer Z :=
  let! release := timer_do TimerGate in
  if negb (bool_decide (release = Some "1"%char)) then Ret 1
  else
    timer_do DetachIo;;;
    timer_do (Nanosleep duration);;;
    let! content := on_host (sys_call (ReadFile (interface_file interface "ifindex"))) in
    if negb (default 0 (stream_u32 content) =? expected_ifindex) then Ret 0
    else
      let! shown := on_host (run ["tc"; "qdisc"; "show"; "dev"; interface]) in
      if negb (shown.1 =? 0) || negb (String.eqb shown.2 expected_qdisc) then Ret 0
      else
        let! error := timer_do (Execlp (delete_qdisc interface)) in
        Ret (if error =? ENOENT then 127 else 126).

(** The start time, when the timer is known or the attempts are over *)
Fixpoint await_timer (attempts : nat) (pid : Z) (start : string) : Prog string :=
  match attempts with
  | O => Ret start
  | S attempts =>
      let! start := process_start_time pid in
      let! owned := timer_owned pid start in
      if owned : bool then Ret start else sys_call (Sleep 10);;; await_timer attempts pid start
  end.

Section Create.
Context {S : Type}.
Abbreviation Run := (stateful (C := sys) (R := answer) S).
#[local] Open Scope stateful_scope.

Definition spawn_fault_timer (duration : Z) (interface : string) (expected_ifindex : Z)
    (expected_qdisc : string) (registered : Z -> string -> Run unit) : Run Z :=
  do! gate := lift (sys_call Pipe) in
  if negb gate then raises (RuntimeError "pipe")
  else
    do! child := lift (sys_call (SpawnTimer duration interface expected_ifindex expected_qdisc)) in
    match child with
    | None => raises (RuntimeError "fork")
    | Some child =>
        let pid := fork_pid child in
        do! start := lift (await_timer 100 pid "") in
        do! owned := lift (timer_owned pid start) in
        if negb owned then raises (RuntimeError "cannot record fault timer identity")
        else
          registered pid start;;;
          do! released := lift (sys_call (ReleaseTimer pid)) in
          if negb released then raises (RuntimeError "cannot release owned fault timer")
          else returns pid
    end.
End Create.

(** ** Faults *)

Definition positive (x : spec_float) : bool :=
  match x with S754_finite false _ _ | S754_infinity false => true | _ => false end.

Definition netem_command (show_double : spec_float -> string) (expected : ExpectedFault)
    : list string :=
  let d := xf_definition expected in
  ["tc"; "qdisc"; "add"; "dev"; xf_interface expected; "root"; "netem"]
  ++ (if delay_ms d =? 0 then []
      else ["delay"; to_string (delay_ms d) +:+ "ms"]
           ++ (if jitter_ms d =? 0 then [] else [to_string (jitter_ms d) +:+ "ms"]))
  ++ (if positive (loss_percent d) then ["loss"; show_double (loss_percent d) +:+ "%"] else [])
  ++ (if rate_kbit d =? 0 then [] else ["rate"; to_string (rate_kbit d) +:+ "kbit"]).

Definition new_fault (expected : ExpectedFault) (ifindex : Z) (qdisc : string) : OwnedFault :=
  {| f_id := fault_id (xf_definition expected); f_attachment_id := fault_attachment (xf_definition expected);
     f_interface := xf_interface expected; f_ifindex := ifindex; f_qdisc_identity := qdisc;
     f_timer_pid := 0; f_timer_start_time := ""; f_boot_id := ""; f_applied_monotonic_ns := 0;
     f_expires_monotonic_ns := 0 |}.

Definition with_times (boot : string) (applied expires : Z) (f : OwnedFault) : OwnedFault :=
  {| f_id := f_id f; f_attachment_id := f_attachment_id f; f_interface := f_interface f;
     f_ifindex := f_ifindex f; f_qdisc_identity := f_qdisc_identity f; f_timer_pid := f_timer_pid f;
     f_timer_start_time := f_timer_start_time f; f_boot_id := boot; f_applied_monotonic_ns := applied;
     f_expires_monotonic_ns := expires |}.

Definition with_timer (pid : Z) (start : string) (f : OwnedFault) : OwnedFault :=
  {| f_id := f_id f; f_attachment_id := f_attachment_id f; f_interface := f_interface f;
     f_ifindex := f_ifindex f; f_qdisc_identity := f_qdisc_identity f; f_timer_pid := pid;
     f_timer_start_time := start; f_boot_id := f_boot_id f;
     f_applied_monotonic_ns := f_applied_monotonic_ns f;
     f_expires_monotonic_ns := f_expires_monotonic_ns f |}.

(** The discipline is taken away again if it is still there. *)
Definition withdraw_fault (fault : OwnedFault) : Prog unit :=
  (if f_timer_pid fault =? 0 then Ret tt
   else
     let! start := process_start_time (f_timer_pid fault) in
     let! owned := timer_owned (f_timer_pid fault) start in
     if owned : bool then stop_owned_process (f_timer_pid fault) start fault_timer;;; Ret tt
     else Ret tt);;;
  let! same := and_also (link_is (f_interface fault) (Some (f_ifindex fault)))
                 (gives (qdisc_state (f_interface fault)) (f_qdisc_identity fault)) in
  if same : bool then run (delete_qdisc (f_interface fault));;; Ret tt else Ret tt.

(** The checks and the discipline: interface index and discipline *)
Definition apply_netem (show_double : spec_float -> string) (expected : ExpectedFault)
    : Prog (Z * string) :=
  let interface := xf_interface expected in
  let! ifindex := link_ifindex interface in
  match ifindex with
  | None => throw "fault target interface is missing"
  | Some ifindex =>
      let! before := qdisc_state interface in
      if has "netem" before then throw ("refusing pre-existing netem qdisc on " +:+ interface)
      else
        perform (netem_command show_double expected) "cannot apply declarative netem fault";;;
        let! qdisc := qdisc_state interface in
        if negb (has "netem" qdisc) then throw "cannot record declarative netem identity"
        else Ret (ifindex, qdisc)
  end.

Section CreateFault.
Context {S : Type} (show_double : spec_float -> string)
        (register_identity : OwnedFault -> stateful (C := sys) (R := answer) S unit).
Abbreviation RunFault := (stateful (C := sys) (R := answer) (OwnedFault * S)).
#[local] Open Scope stateful_scope.

(** The callback of the timer *)
Definition register_timer (pid : Z) (start : string) : RunFault unit :=
  modify (fun s => (with_timer (u32 pid) start s.1, s.2));;;
  do! s := current in inner (register_identity s.1).

Definition start_timer (expected : ExpectedFault) (ifindex : Z) (qdisc : string) : RunFault unit :=
  let duration := duration_seconds (xf_definition expected) in
  do! boot := lift boot_identity in
  do! applied := lift monotonic_nanoseconds in
  let expires := u64 (applied + u64 (duration * 1000000000)) in
  modify (fun s => (with_times boot applied expires s.1, s.2));;;
  if is_empty boot || (expires <=? applied)
  then raises (RuntimeError "cannot record fault expiry identity")
  else
    do! pid := spawn_fault_timer duration (xf_interface expected) ifindex qdisc register_timer in
    modify (fun s => (with_timer (u32 pid) (f_timer_start_time s.1) s.1, s.2)).

Definition create_fault (expected : ExpectedFault) : stateful (C := sys) (R := answer) S OwnedFault :=
  do! (ifindex, qdisc) := lift (apply_netem show_double expected) in
  with_local (new_fault expected ifindex qdisc)
    (catch_state
       (start_timer expected ifindex qdisc)
       (fun e =>
          do! s := current in
          lift (withdraw_fault s.1);;;
          raises e);;;
     do! s := current in returns s.1).
End CreateFault.

Definition fault_deadline_elapsed (fault : OwnedFault) : Prog bool :=
  and_also (gives boot_identity (f_boot_id fault))
    (let! now := monotonic_nanoseconds in Ret (f_expires_monotonic_ns fault <=? now)).

Definition fault_healthy (fault : OwnedFault) : Prog bool :=
  and_also (link_is (f_interface fault) (Some (f_ifindex fault)))
    (let! qdisc := qdisc_state (f_interface fault) in
     let! active := timer_owned (f_timer_pid fault) (f_timer_start_time fault) in
     if active : bool then Ret (String.eqb qdisc (f_qdisc_identity fault))
     else and_also (fault_deadline_elapsed fault) (Ret (negb (has "netem" qdisc)))).

Definition clear_fault (fault : OwnedFault) : Prog bool :=
  and_also (link_is (f_interface fault) (Some (f_ifindex fault)))
    (let! active := timer_owned (f_timer_pid fault) (f_timer_start_time fault) in
     let! qdisc := qdisc_state (f_interface fault) in
     if (active : bool) && negb (String.eqb qdisc (f_qdisc_identity fault)) then Ret false
     else
       let! refused :=
         (if active then Ret false
          else or_else (negate (fault_deadline_elapsed fault)) (Ret (has "netem" qdisc))) in
       if refused : bool then Ret false
       else
         let! stopped :=
           (if active then stop_owned_process (f_timer_pid fault) (f_timer_start_time fault) fault_timer
            else Ret true) in
         if negb stopped then Ret false
         else or_else (Ret (negb (has "netem" qdisc))) (succeeds (delete_qdisc (f_interface fault)))).
End Fault.
