(* ===== verification/Management.v ===== *)
(** * Management networks (src/src/infra/management_policy.cpp)

    A container reaches the platform, and nothing else, over its management
    network.  The rules are installed into a table that must not exist yet; the
    digest of the table as listed is the identity of the policy. *)

From Stdlib Require Import ZArith Lia Strings.Byte Strings.Ascii Strings.String.
From stdpp Require Import base option gmap strings list.
From S2P Require Import Prelude Text ResolvedNetwork OwnershipState Effects Process Host Endpoint.
From S2P Require Import ConfigValue ConfigParse.

Module Management.
Import Text ResolvedNetwork OwnershipState Effects Process Host Endpoint.
Local Open Scope Z_scope.
#[local] Open Scope prog_scope.

Abbreviation Value := ConfigValue.Value.
Abbreviation VStr := ConfigValue.VStr.

(** ** Texts and values *)

(** Handles and counters change while rules stay the same. *)
Fixpoint remove_handles (v : Value) : Value :=
  match v with
  | ConfigValue.VObj l =>
      ConfigValue.VObj
        ((fix go (l : list (string * Value)) : list (string * Value) :=
            match l with
            | [] => []
            | (key, child) :: l =>
                if String.eqb key "handle" then go l
                else (key, if String.eqb key "counter" then ConfigValue.VObj [] else remove_handles child)
                     :: go l
            end) l)
  | ConfigValue.VArr l => ConfigValue.VArr (map remove_handles l)
  | v => v
  end.

(** [^([0-9]{1,3}\.){3}[0-9]{1,3}$] *)
Definition is_digit (c : ascii) : bool := bool_decide (is_Some (ConfigParse.digit c)).

Fixpoint split_dots (s : string) : list string :=
  match s with
  | EmptyString => [""]
  | String "." rest => "" :: split_dots rest
  | String c rest =>
      match split_dots rest with [] => [String c ""] | x :: l => String c x :: l end
  end.

Definition ipv4_text (s : string) : bool :=
  let l := split_dots s in
  (length l =? 4)%nat
  && forallb (fun x => negb (is_empty x) && (String.length x <=? 3)%nat && all_in is_digit x) l.

Definition ipv4 (v : Value) : result string :=
  let* address := ConfigValue.text v in
  if ipv4_text address then Ok address
  else Throw (RuntimeError "E_MANAGEMENT_ACL: invalid Docker IPv4 address").

(** [^[a-zA-Z0-9_-]{1,15}$] *)
Definition interface_text (s : string) : bool :=
  negb (is_empty s) && (String.length s <=? 15)%nat
  && all_in (fun c => is_digit c || bool_decide (c = "_"%char) || bool_decide (c = "-"%char)
       || char_in "a" "z" c || char_in "A" "Z" c) s.

(** The interface with an address, from the answer of [ip -j address] *)
Definition address_interface (node_ip : string) (link address : Value) (found : string)
    : result string :=
  let* local := ConfigValue.at_ address "local" in
  if ConfigValue.value_eqb local (VStr node_ip) then
    if negb (is_empty found) then Throw (RuntimeError "E_MANAGEMENT_ACL: ambiguous interface")
    else ConfigValue.text_at link "ifname"
  else Ok found.

Definition link_interface (node_ip : string) (link : Value) (found : string) : result string :=
  let* addresses := ConfigValue.array_at link "addr_info" in
  fold_result (address_interface node_ip link) addresses found.

Definition management_interface (node_ip : string) (links : Value) : result string :=
  let* links := ConfigValue.array links in
  let* found := fold_result (link_interface node_ip) links "" in
  if interface_text found then Ok found
  else Throw (RuntimeError "E_MANAGEMENT_ACL: management interface not found").

Definition is_management_table (item : Value) : result bool :=
  if ConfigValue.contains item "table" then
    let* table := ConfigValue.at_ item "table" in
    let* family := ConfigValue.eq_at table "family" (VStr "inet") in
    if family : bool then ConfigValue.eq_at table "name" (VStr "graphx_management") else Ok false
  else Ok false.

(** [for (item : tables) if (...) throw] *)
Fixpoint no_table (l : list Value) : result unit :=
  match l with
  | [] => Ok tt
  | item :: l =>
      let* found := is_management_table item in
      if found : bool then Throw (RuntimeError "E_MANAGEMENT_ACL: refusing table collision") else no_table l
  end.

Definition rules (token interface platform_ip tcp udp : string) : string :=
  let named := quoted interface in
  "table inet graphx_management {" +:+ newline +:+ " comment " +:+ quoted ("graphx:" +:+ token) +:+ ";"
  +:+ newline +:+ " chain input { type filter hook input priority -10; policy accept;" +:+ newline
  +:+ " iifname " +:+ named +:+ " ip saddr " +:+ platform_ip
  +:+ " ct state established,related accept" +:+ newline +:+ " iifname " +:+ named +:+ " drop" +:+ newline
  +:+ " }" +:+ newline
  +:+ " chain output { type filter hook output priority -10; policy accept;" +:+ newline
  +:+ " oifname " +:+ named +:+ " ip daddr " +:+ platform_ip +:+ " tcp dport " +:+ tcp +:+ " accept"
  +:+ newline
  +:+ " oifname " +:+ named +:+ " ip daddr " +:+ platform_ip +:+ " udp dport " +:+ udp +:+ " accept"
  +:+ newline +:+ " oifname " +:+ named +:+ " drop" +:+ newline +:+ " }" +:+ newline
  +:+ " chain forward { type filter hook forward priority -10; policy drop; }" +:+ newline
  +:+ "}" +:+ newline.

(** ** Commands *)

Definition command (arguments : list string) (input : string) : Prog string :=
  let! result := checked (sys_call (Cmd arguments input)) in
  if negb (c_status result =? 0) || negb (c_exec_error result =? 0) || c_output_truncated result
  then throw "E_MANAGEMENT_ACL: command failed"
  else Ret (c_output result).

Definition policy_table : list string := ["nft"; "-j"; "list"; "table"; "inet"; "graphx_management"].
Definition forbid_forwarding : list string := ["sysctl"; "-q"; "-w"; "net.ipv4.ip_forward=0"].

Definition container_owners (state : OwnershipState) : list string :=
  set_of (map e_owner (List.filter (fun e => bool_decide (e_kind e = container_veth))
                         (expected_endpoints state))).

(** [endpoint.management_policy = hash] *)
Definition set_policy (hash : string) (e : ExpectedEndpoint) : ExpectedEndpoint :=
  {| e_mirror_container := e_mirror_container e; e_kind := e_kind e; e_id := e_id e; e_owner := e_owner e;
     e_host_interface := e_host_interface e; e_target_interface := e_target_interface e;
     e_network_switch := e_network_switch e; e_address := e_address e; e_mac := e_mac e;
     e_mtu := e_mtu e; e_routes := e_routes e; e_aliases := e_aliases e; e_management_policy := hash;
     e_container_id := e_container_id e; e_namespace_inode := e_namespace_inode e;
     e_namespace_name := e_namespace_name e; e_tap_uid := e_tap_uid e; e_tap_gid := e_tap_gid e;
     e_vlan := e_vlan e |}.

Definition record_policy (owner hash : string) (s : OwnershipState) : OwnershipState :=
  set_expected_endpoints
    (map (fun e => if bool_decide (e_kind e = container_veth) && String.eqb (e_owner e) owner
                   then set_policy hash e else e) (expected_endpoints s)) s.

Section Policy.
(** The parser of configuration documents over yaml-cpp, the printing of real
    numbers and the digests of the cryptography library *)
Context (parse_document : string -> result Value) (to_chars : SpecFloat.spec_float -> string)
        (sha256 : string -> string).

Definition parsed (p : Prog string) : Prog Value :=
  let! text := p in of_result (parse_document text).

(** [std::erase_if(value["nftables"].array(), ...)], then the handles *)
Definition policy_document (value : Value) : result Value :=
  match value with
  | ConfigValue.VObj l =>
      let* rules := match ConfigValue.find_key "nftables" l with
                    | Some v => ConfigValue.array v
                    | None => Throw BadVariantAccess
                    end in
      Ok (remove_handles (ConfigValue.VObj (ConfigValue.set_key "nftables"
            (ConfigValue.VArr (List.filter (fun item => negb (ConfigValue.contains item "metainfo")) rules))
            l)))
  | _ => Throw BadVariantAccess
  end.

Definition nft_policy_identity (arguments : list string) : Prog string :=
  let! value := parsed (command arguments "") in
  let! json := of_result (let* v := policy_document value in
                          ConfigValue.config_value_json to_chars v true) in
  Ret (sha256 json).

Definition inspect (id : string) : Prog Value :=
  let! value := parsed (command ["docker"; "inspect"; id] "") in
  of_result (let* l := ConfigValue.array value in
             match l with v :: _ => Ok v | [] => Throw (OutOfRange "vector::_M_range_check") end).

Definition is_running (id : string) : Prog bool :=
  let! object := inspect id in
  of_result (let* state := ConfigValue.at_ object "State" in ConfigValue.boolean_at state "Running").

Definition policy_hash (held : ResolvedContainer) : Prog string :=
  nft_policy_identity (in_container held policy_table).

Definition membership (object : Value) (network : string) : result Value :=
  let* settings := ConfigValue.at_ object "NetworkSettings" in
  let* networks := ConfigValue.at_ settings "Networks" in
  ConfigValue.at_ networks network.

Definition platform_port (config : HostConfig) (part : string) : result Z :=
  let* platform := ConfigValue.at_ (resolved_graph config) "platform" in
  let* section := ConfigValue.at_ platform part in
  ConfigValue.integer_at section "port".

(** Both are in the recorded network: the addresses of the node and the platform *)
Definition management_addresses (state : OwnershipState) (network : string) (object platform : Value)
    : result (string * string) :=
  let* node := membership object network in
  let* console := membership platform network in
  let mismatch := Throw (RuntimeError "E_MANAGEMENT_ACL: management network identity mismatch") in
  match List.find (fun p => String.eqb (r_kind p) "network" && String.eqb (r_name p) network)
          (processes state) with
  | None => mismatch
  | Some record =>
      let* held := ConfigValue.eq_at node "NetworkID" (VStr (r_stable_id record)) in
      if negb held then mismatch
      else
        let* held := ConfigValue.eq_at console "NetworkID" (VStr (r_stable_id record)) in
        if negb held then mismatch
        else
          let* node_ip := (let* v := ConfigValue.at_ node "IPAddress" in ipv4 v) in
          let* platform_ip := (let* v := ConfigValue.at_ console "IPAddress" in ipv4 v) in
          Ok (node_ip, platform_ip)
  end.

(** The rules of one container: the identity of the installed policy *)
Definition install_owner (config : HostConfig) (state : OwnershipState) (platform_object : Value)
    (owner : string) : Prog string :=
  let! held := resolve_owned_container config owner state in
  let! object := inspect (k_id held) in
  let network := "graphx-" +:+ graph_id state +:+ "-mg-" +:+ owner in
  let! (node_ip, platform_ip) := of_result (management_addresses state network object platform_object) in
  let! links := parsed (command (in_container held ["ip"; "-j"; "-4"; "address"; "show"]) "") in
  let! interface := of_result (management_interface node_ip links) in
  let! tcp := of_result (platform_port config "console") in
  let! udp := of_result (platform_port config "telemetry") in
  command (in_container held forbid_forwarding) "";;;
  let! tables := parsed (command (in_container held ["nft"; "-j"; "list"; "tables"]) "") in
  of_result (let* l := ConfigValue.array_at tables "nftables" in no_table l);;;
  command (in_container held ["nft"; "-f"; "-"])
    (rules (owner_token state) interface platform_ip (to_string tcp) (to_string udp));;;
  policy_hash held.

Section Install.
#[local] Open Scope stateful_scope.

Definition install_management_policy (config : HostConfig)
    : stateful (C := sys) (R := answer) OwnershipState unit :=
  do! state := current in
  let owners := container_owners state in
  if is_nil owners then returns tt
  else
    do! platform := lift (resolve_owned_container config "platform" state) in
    do! platform_object := lift (inspect (k_id platform)) in
    lift (command (in_container platform forbid_forwarding) "");;;
    for_each_state (fun owner =>
      do! state := current in
      do! hash := lift (install_owner config state platform_object owner) in
      modify (record_policy owner hash)) owners.
End Install.

(** The policy of one endpoint's owner is the recorded one; a container that
    may be absent is passed over when it is. *)
Definition policy_matches (config : HostConfig) (state : OwnershipState) (allow_absent : bool)
    (unavailable : list string) (e : ExpectedEndpoint) : Prog bool :=
  if is_empty (e_management_policy e) then Ret allow_absent
  else
    let! skipped :=
      and_also (Ret (one_of (e_owner e) unavailable))
      (and_also (negate (is_running (e_container_id e))) (negate (link_exists (e_host_interface e)))) in
    if skipped : bool then Ret true
    else
      let! absent :=
        and_also (Ret allow_absent)
          (or_else (negate (link_exists (e_host_interface e))) (negate (is_running (e_container_id e)))) in
      if absent : bool then Ret true
      else
        let! held := resolve_owned_container config (e_owner e) state in
        and_also (Ret (k_namespace_inode held =? e_namespace_inode e))
                 (gives (policy_hash held) (e_management_policy e)).

(** Once for each owner *)
Fixpoint policies_match (config : HostConfig) (state : OwnershipState) (allow_absent : bool)
    (unavailable seen : list string) (l : list ExpectedEndpoint) : Prog bool :=
  match l with
  | [] => Ret true
  | e :: l =>
      if negb (bool_decide (e_kind e = container_veth)) || one_of (e_owner e) seen
      then policies_match config state allow_absent unavailable seen l
      else and_also (policy_matches config state allow_absent unavailable e)
             (policies_match config state allow_absent unavailable (e_owner e :: seen) l)
  end.

Definition management_policy_matches (config : HostConfig) (state : OwnershipState)
    (allow_absent : bool) (unavailable : list string) : Prog bool :=
  policies_match config state allow_absent unavailable [] (expected_endpoints state).
End Policy.
End Management.
