(* ===== verification/LifecyclePlan.v ===== *)
(** * The plan of an infrastructure (src/src/infra/lifecycle_coordinator.cpp)

    A dry run of the OVS lifecycle prints what would be created, in the order of
    the configuration. *)

From Stdlib Require Import ZArith Lia Strings.Byte Strings.Ascii Strings.String Floats.SpecFloat.
From stdpp Require Import base option gmap strings list.
From S2P Require Import Prelude ConfigValue Text ResolvedNetwork OwnershipState Effects Process Host Ovs.

Module LifecyclePlan.
Import Text ResolvedNetwork OwnershipState Effects Process Host Ovs.
Local Open Scope Z_scope.
#[local] Open Scope prog_scope.

(** [output << path]: between quotes, with quotes and backslashes escaped *)
Fixpoint escaped (s : string) : string :=
  match s with
  | EmptyString => ""
  | String c s =>
      if Ascii.eqb c ConfigValue.quote || Ascii.eqb c "\"%char then String "\" (String c (escaped s))
      else String c (escaped s)
  end.
Definition shown_path (path : string) : string := quoted (escaped path).

Definition profile_text (p : NetworkProfile) : string :=
  match p with
  | ethernet => "ethernet"
  | macvlan => "macvlan"
  | ipvlan_l2 => "ipvlan-l2"
  | ipvlan_l3 => "ipvlan-l3"
  | ipvlan_l3s => "ipvlan-l3s"
  end.

Definition is_linux_namespace (r : RouterDefinition) : bool :=
  match router_kind r with linux_namespace => true | container => false end.

Definition linux_routers (config : HostConfig) : list RouterDefinition :=
  List.filter is_linux_namespace (routers (infrastructure config)).

Section Plan.
Context (show_double : spec_float -> string).

Definition attachment_plan (config : HostConfig) (a : AttachmentDefinition) : string :=
  let id := attachment_id a in
  match kind a with
  | container_veth =>
      "docker[project=" +:+ project config +:+ ",service=" +:+ owner a +:+ "] -> ip link add "
      +:+ peer a +:+ " type veth peer name " +:+ interface a +:+ " -> ovs-vsctl add-port "
      +:+ network_switch a +:+ " " +:+ peer a +:+ " -> netns[verified-container] address="
      +:+ attachment_address a +:+ " mtu=" +:+ to_string (mtu a) +:+ newline
  | namespace_veth =>
      "netns[" +:+ owner a +:+ "] -> ip link add " +:+ peer a +:+ " type veth peer name "
      +:+ interface a +:+ " -> ovs-vsctl add-port " +:+ network_switch a +:+ " " +:+ peer a
      +:+ " address=" +:+ attachment_address a +:+ newline
  | qemu_tap =>
      "ip tuntap add dev " +:+ interface a +:+ " mode tap user " +:+ to_string (tap_uid a)
      +:+ " group " +:+ to_string (tap_gid a) +:+ " -> ovs-vsctl add-port " +:+ network_switch a
      +:+ " " +:+ interface a +:+ " mtu=" +:+ to_string (mtu a) +:+ newline
  | mirror_kind =>
      "mirror " +:+ id +:+ " -> ovs-vsctl add-port " +:+ network_switch a +:+ " " +:+ interface a
      +:+ " -> OVS SPAN" +:+ newline
  | external =>
      "external-boundary " +:+ id +:+ " owner=" +:+ owner a +:+ " unchanged" +:+ newline
  end.

Definition alias_plan (a : AttachmentDefinition) (alias : string) : string :=
  "netns[" +:+ owner a +:+ "] ip address replace " +:+ alias +:+ " dev " +:+ interface a +:+ newline.

Definition route_plan (a : AttachmentDefinition) (r : RouteDefinition) : string :=
  if negb (install_on_create r) then ""
  else
    "netns[" +:+ owner a +:+ "] ip route replace " +:+ destination r
    +:+ (if is_empty (via r) then "" else " via " +:+ via r) +:+ " dev " +:+ interface a +:+ newline.

Definition texts {A} (f : A -> string) (l : list A) : string :=
  fold_right (fun x acc => f x +:+ acc) "" l.

Definition whole_attachment_plan (config : HostConfig) (a : AttachmentDefinition) : string :=
  attachment_plan config a +:+ texts (alias_plan a) (aliases a) +:+ texts (route_plan a) (routes a).

(** A node in a container *)
Definition acl_plan (resolved node : ConfigValue.Value) : result string :=
  let* execution := ConfigValue.at_ node "execution" in
  let* contained := ConfigValue.eq_at execution "kind" (ConfigValue.VStr "container") in
  if negb contained then Ok ""
  else
    let* id := ConfigValue.text_at node "node_id" in
    let* platform := ConfigValue.at_ resolved "platform" in
    let* console := ConfigValue.at_ platform "console" in
    let* tcp := ConfigValue.integer_at console "port" in
    let* telemetry := ConfigValue.at_ platform "telemetry" in
    let* udp := ConfigValue.integer_at telemetry "port" in
    Ok ("management-acl node=" +:+ id +:+ " allow=platform/tcp:" +:+ to_string tcp
        +:+ ",platform/udp:" +:+ to_string udp
        +:+ " return=established,related deny=other-management-and-forwarding "
        +:+ "before=application-bind" +:+ newline).

Definition capture_plan (c : NetworkCaptureDefinition) : string :=
  "dumpcap attachment=" +:+ attachment c +:+ " format=ethernet-pcapng" +:+ " directory=" +:+ directory c
  +:+ " snaplen=" +:+ to_string (snaplen c) +:+ " max-file-bytes=" +:+ to_string (max_file_bytes c)
  +:+ " max-files=" +:+ to_string (max_files c) +:+ " rotate-seconds=" +:+ to_string (rotation_seconds c)
  +:+ " retention-seconds=" +:+ to_string (retention_seconds c)
  +:+ " delivery=independent-host-mirror-for-container-attachment" +:+ newline.

Definition fault_plan (f : NetworkFaultDefinition) : string :=
  "tc qdisc replace attachment=" +:+ fault_attachment f +:+ " root netem" +:+ " delay-ms="
  +:+ to_string (delay_ms f) +:+ " jitter-ms=" +:+ to_string (jitter_ms f) +:+ " loss-percent="
  +:+ show_double (loss_percent f) +:+ " rate-kbit=" +:+ to_string (rate_kbit f)
  +:+ " duration-seconds=" +:+ to_string (duration_seconds f) +:+ " auto-clear=identity-checked"
  +:+ newline.

(** The switches of a network once each; their order is that of an
    [unordered_set], here that of the attachments. *)
Definition profile_plan (config : HostConfig) (network : NetworkDefinition) : string :=
  match profile network with
  | Some p =>
      if negb (is_ipvlan network) then ""
      else
        let members := List.filter (on_network (network_id network)) (attachments (infrastructure config)) in
        texts (fun a =>
          "ovs-ofctl add-flow " +:+ network_switch a +:+ " profile=" +:+ profile_text p +:+ " ip-dst="
          +:+ address_host (attachment_address a) +:+ " arp-target="
          +:+ address_host (attachment_address a) +:+ " output=<resolved-ofport:" +:+ peer a +:+ ">"
          +:+ newline) members
        +:+ texts (fun switch =>
          "ovs-ofctl add-flow " +:+ switch +:+ " ipvlan-broadcast-multicast=drop-except-targeted-arp"
          +:+ newline) (remove_dups (map network_switch members))
  | None => ""
  end.

Definition router_route_plan (r : RouterDefinition) (route : RouteDefinition) : string :=
  "router-route " +:+ router_id r +:+ " " +:+ destination route
  +:+ (if is_empty (via route) then "" else " via " +:+ via route)
  +:+ (if is_empty (device route) then "" else " dev " +:+ device route)
  +:+ " install=" +:+ (if install_on_create route then "create" else "manual") +:+ newline.

Definition router_plan (r : RouterDefinition) : string :=
  let name := namespace_name r in
  (if forwarding r then "ip netns exec " +:+ name +:+ " sysctl -q -w net.ipv4.ip_forward=1" +:+ newline
   else "")
  +:+ texts (router_route_plan r) (router_routes r)
  +:+ (if is_nil (policies r) then ""
       else "nft add table/chain netns=" +:+ name +:+ " family=inet table=graphx chain=forward policy=drop"
            +:+ newline +:+ "nft add rule netns=" +:+ name
            +:+ " policy=established-return ct-state=established,related action=accept" +:+ newline)
  +:+ texts (fun p =>
        "nft add rule netns=" +:+ name +:+ " policy=" +:+ policy_id p +:+ " source=" +:+ policy_source p
        +:+ " destination=" +:+ policy_destination p +:+ " action=" +:+ action p +:+ newline) (policies r).

(** What is printed, a line or more at once; of a line in which an access
    throws nothing is printed here. *)
Definition print (text : string) : Prog unit := sys_call (Print text).

Definition acl_plans (config : HostConfig) : Prog unit :=
  let resolved := resolved_graph config in
  if ConfigValue.is_null resolved then Ret tt
  else
    let! nodes := of_result (ConfigValue.array_at resolved "nodes") in
    for_each_in (fun node _ =>
      let! text := of_result (acl_plan resolved node) in print text) nodes tt.

Definition create_plan (config : HostConfig) (hash state_path : string) : Prog unit :=
  let infra := infrastructure config in
  print ("# ownership-state " +:+ shown_path state_path +:+ newline);;;
  for_each_in (fun s _ => print (planned_create (switch_id s) (config_id config)
    "<generated-owner-token>" hash +:+ newline)) (switches infra) tt;;;
  for_each_in (fun r _ => print ("ip netns add " +:+ namespace_name r +:+ " # owner=" +:+ router_id r
    +:+ newline)) (linux_routers config) tt;;;
  for_each_in (fun a _ => print (whole_attachment_plan config a)) (attachments infra) tt;;;
  acl_plans config;;;
  for_each_in (fun c _ => print (capture_plan c)) (ResolvedNetwork.captures infra) tt;;;
  for_each_in (fun f _ => print (fault_plan f)) (configured_faults config) tt;;;
  for_each_in (fun n _ => print (profile_plan config n)) (networks infra) tt;;;
  for_each_in (fun r _ => print (router_plan r)) (linux_routers config) tt.
End Plan.
End LifecyclePlan.
