(* ===== verification/LifecycleStatus.v ===== *)
(** * Recovering and observing an infrastructure
    (src/src/infra/lifecycle_coordinator.cpp)

    What a crash left between a change of the host and the save of the ledger is
    found again by its expected record; a status compares every record with the
    host. *)

From Stdlib Require Import ZArith Lia Strings.Byte Strings.Ascii Strings.String Floats.SpecFloat.
From stdpp Require Import base option gmap strings list.
From S2P Require Import Prelude ConfigValue Text ResolvedNetwork Yaml OwnershipState Effects Process.
From S2P Require Import Host Ovs Endpoint EndpointCreate Capture Fault Management LifecyclePlan.

Module LifecycleStatus.
Import Text ResolvedNetwork OwnershipState Effects Process.
Import Host Ovs Endpoint EndpointCreate Capture Fault Management LifecyclePlan.
Local Open Scope Z_scope.
#[local] Open Scope prog_scope.

Abbreviation Run := (stateful (C := sys) (R := answer) OwnershipState).

Definition save : Run unit :=
  (do! s := current in lift (checked (sys_call (Save s))))%stateful.
Definition raise {A} (text : string) : Run A := raises (RuntimeError text).

(** ** The ledger file *)

Definition inspect_existing_state_root (root : string) : Prog bool :=
  let! status := sys_call (Lstat root) in
  match status with
  | lstat_missing => Ret false
  | lstat_error => throw "cannot inspect ownership state root: "
  | lstat_found m =>
      match st_kind m with
      | file_link => throw "ownership state root must not be a symlink"
      | file_directory =>
          let! again := sys_call (Lstat root) in
          match again with
          | lstat_found m =>
              if permissions m =? 448 then Ret true
              else throw "existing ownership state root permissions must be 0700"
          | _ => throw "cannot inspect ownership state root"
          end
      | _ => throw "ownership state root is not a directory"
      end
  end.

Definition path_entry_exists (path : string) : Prog bool :=
  let! status := sys_call (Lstat path) in
  match status with
  | lstat_found _ => Ret true
  | lstat_missing => Ret false
  | lstat_error => throw ("cannot inspect ownership path " +:+ path)
  end.

(** ** Recovery *)

Definition recorded (name : string) (l : list OwnedResourceIdentity) : bool :=
  existsb (fun item => String.eqb (r_name item) name) l.

Definition with_inode (inode : Z) (e : ExpectedEndpoint) : ExpectedEndpoint :=
  {| e_mirror_container := e_mirror_container e; e_kind := e_kind e; e_id := e_id e; e_owner := e_owner e;
     e_host_interface := e_host_interface e; e_target_interface := e_target_interface e;
     e_network_switch := e_network_switch e; e_address := e_address e; e_mac := e_mac e;
     e_mtu := e_mtu e; e_routes := e_routes e; e_aliases := e_aliases e;
     e_management_policy := e_management_policy e; e_container_id := e_container_id e;
     e_namespace_inode := inode; e_namespace_name := e_namespace_name e; e_tap_uid := e_tap_uid e;
     e_tap_gid := e_tap_gid e; e_vlan := e_vlan e |}.

(** [for (auto& endpoint : state.expected_endpoints) if (...) endpoint.namespace_inode = inode;] *)
Definition place_endpoints (test : ExpectedEndpoint -> bool) (inode : Z) (s : OwnershipState)
    : OwnershipState :=
  set_expected_endpoints
    (map (fun e => if test e then with_inode inode e else e) (expected_endpoints s)) s.

Definition push_namespace (n : OwnedResourceIdentity) (s : OwnershipState) : OwnershipState :=
  set_namespaces (namespaces s ++ [n]) s.

Definition recover_namespace (name : string) : Run unit := (
  do! state := current in
  if recorded name (namespaces state) then returns tt
  else
    do! inode := lift (namespace_inode name) in
    match inode with
    | None => returns tt
    | Some inode =>
        let recovered := namespace_identity name inode "" in
        do! owned := lift (namespace_owned recovered state) in
        if negb owned
        then raise "E_NAMESPACE_IDENTITY: interrupted namespace lacks ownership proof; state retained"
        else
          modify (push_namespace recovered);;;
          modify (place_endpoints (fun e => String.eqb (e_namespace_name e) name) inode);;;
          save
    end)%stateful.

Definition recover_namespaces : Run unit := (
  do! state := current in for_each_state recover_namespace (expected_namespaces state))%stateful.

Definition clear_infrastructure (s : OwnershipState) : OwnershipState :=
  with_infrastructure s (status s) [] [] [] [] [] [] [] [] [] [].

Definition bridge_marked (name : string) (state : OwnershipState) : Prog bool :=
  and_also (gives (bridge_get name "external_ids:graphx_owner") (owner_token state))
  (and_also (gives (bridge_get name "external_ids:graphx_config_hash") (config_hash state))
            (gives (bridge_get name "external_ids:graphx_graph") (graph_id state))).

Definition discover_bridge (name : string) : Prog OwnedResourceIdentity :=
  let! uuid := bridge_get name "_uuid" in
  let! port := ovs_get "Port" name "_uuid" in
  Ret (bridge_identity name uuid port).

Definition endpoint_kind (k : AttachmentKind) : string :=
  match k with
  | container_veth => "container_veth"
  | namespace_veth => "namespace_veth"
  | qemu_tap => "qemu_tap"
  | external | mirror_kind => "mirror_veth"
  end.

Definition is_mirror (e : ExpectedEndpoint) : bool := bool_decide (e_kind e = mirror_kind).
Definition is_tap (e : ExpectedEndpoint) : bool := bool_decide (e_kind e = qemu_tap).

(** The peer of a mirror on the host *)
Definition host_mirror (e : ExpectedEndpoint) : bool := is_mirror e && negb (e_mirror_container e).

Definition endpoint_recorded (state : OwnershipState) (e : ExpectedEndpoint) : bool :=
  existsb (fun item => String.eqb (r_attachment_id item) (e_id e)) (endpoints state).

(** The records of Open vSwitch of an endpoint that is found again *)
Definition discovered_endpoint (state : OwnershipState) (e : ExpectedEndpoint) (ifindex peer : Z)
    (port_uuid : string) : Prog OwnedResourceIdentity :=
  let! interface_uuid := ovs_interface (e_host_interface e) in
  let! mirror_uuid :=
    (if is_mirror e
     then ovs_find_uuid "Mirror" "external_ids:graphx_attachment" (e_id e) (owner_token state)
     else Ret "") in
  Ret (endpoint_identity (endpoint_kind (e_kind e)) (e_id e) (e_host_interface e) (e_target_interface e)
         port_uuid interface_uuid ifindex peer (e_namespace_inode e) (e_container_id e)
         (if is_tap e then tap_owner_identity (e_tap_uid e) (e_tap_gid e) else "") mirror_uuid).

(** Index and port of an endpoint that may have been created *)
Definition endpoint_traces (e : ExpectedEndpoint) : Prog (option (option Z * string)) :=
  let! ifindex := link_ifindex (e_host_interface e) in
  let! port_uuid := ovs_port (e_host_interface e) in
  Ret (if negb (bool_decide (is_Some ifindex)) && is_empty port_uuid then None
       else Some (ifindex, port_uuid)).

(** ** Status *)

Record OvsExecutionContext := {
  lock_held : bool; cancellable : bool; validate_only : bool; unavailable_containers : list string }.

Section Status.
Context (load_all : string -> option (list Yaml.node)) (c : Yaml.Conversions)
        (parse_document : string -> result Value) (to_chars : spec_float -> string)
        (sha256 : string -> string).

Definition table_command (name : string) : list string :=
  ["ip"; "netns"; "exec"; name; "nft"; "-j"; "list"; "table"; "inet"; "graphx"].

Definition rules_unchanged (item : OwnedResourceIdentity) : Prog bool :=
  or_else (Ret (is_empty (r_rule_identity item)))
    (gives (nft_policy_identity parse_document to_chars sha256 (table_command (r_name item)))
       (r_rule_identity item)).

Definition endpoint_healthy (config : HostConfig) (state : OwnershipState) (e : ExpectedEndpoint)
    (item : OwnedResourceIdentity) : Prog bool :=
  match e_kind e with
  | container_veth => container_endpoint_healthy e item state config
  | namespace_veth => namespace_endpoint_healthy e item state
  | qemu_tap => tap_endpoint_healthy e item state
  | external | mirror_kind => mirror_endpoint_healthy load_all c e item state (Some config)
  end.

(** The interfaces of a stopped container are gone; its records must be ours. *)
Definition endpoint_status (config : HostConfig) (state : OwnershipState) (unavailable : list string)
    (e : ExpectedEndpoint) (item : OwnedResourceIdentity) : Prog bool :=
  if one_of (e_owner e) unavailable
     && (bool_decide (e_kind e = container_veth) || e_mirror_container e)
  then
    and_also (negate (link_exists (r_name item)))
    (and_also (negate (link_exists (e_target_interface e)))
    (and_also (endpoint_names_absent_or_recorded item) (ovs_endpoint_owned item state)))
  else endpoint_healthy config state e item.

Definition status_line (text : string) (good : bool) (yes no : string) : Prog unit :=
  print (text +:+ " state=" +:+ (if good then yes else no) +:+ newline).

Definition bridge_line (state : OwnershipState) (item : OwnedResourceIdentity) (healthy : bool)
    : Prog bool :=
  let! owned := bridge_owned item state in
  status_line ("ovs_bridge " +:+ r_name item +:+ " uuid=" +:+ r_stable_id item) owned
    "owned" "missing-or-replaced";;;
  Ret (healthy && owned).

(** Reading an absent inode through [operator*] is undefined behaviour; a
    loaded ledger has one. *)
Definition inode_text (item : OwnedResourceIdentity) : string :=
  " netns-inode=" +:+ to_string (default 0 (r_namespace_inode item)).

Definition endpoint_line (config : HostConfig) (state : OwnershipState) (unavailable : list string)
    (item : OwnedResourceIdentity) (healthy : bool) : Prog bool :=
  let! e := of_result (expected_endpoint state (r_attachment_id item)) in
  let! owned :=
    catch (endpoint_status config state unavailable e item)
      (fun error =>
         sys_call (Log ("graphx: endpoint identity check failed for " +:+ r_attachment_id item +:+ ": "
                        +:+ what error +:+ newline));;;
         Ret false) in
  status_line
    (kind_to_string (e_kind e) +:+ " " +:+ r_attachment_id item +:+ " host=" +:+ r_name item
     +:+ (if is_empty (r_container_id item) then "" else " container=" +:+ r_container_id item)
     +:+ (if is_empty (r_tap_owner item) then "" else " tap-owner=" +:+ r_tap_owner item)
     +:+ inode_text item) owned "owned" "missing-replaced-or-restarted";;;
  Ret (healthy && owned).

Definition namespace_line (state : OwnershipState) (item : OwnedResourceIdentity) (healthy : bool)
    : Prog bool :=
  let! owned := and_also (namespace_owned item state) (rules_unchanged item) in
  status_line ("linux_namespace " +:+ r_name item +:+ inode_text item) owned
    "owned" "missing-or-replaced";;;
  Ret (healthy && owned).

Definition find_capture (id : string) (l : list ExpectedCapture) : option ExpectedCapture :=
  List.find (fun x => String.eqb (capture_id (xc_definition x)) id) l.

Definition capture_line (state : OwnershipState) (item : OwnedCapture) (healthy : bool) : Prog bool :=
  let! owned :=
    match find_capture (c_id item) (expected_captures state) with
    | Some x => capture_healthy x item
    | None => Ret false
    end in
  status_line
    ("network_capture " +:+ c_id item +:+ " attachment=" +:+ c_attachment_id item +:+ " interface="
     +:+ c_interface item +:+ " pid=" +:+ to_string (c_pid item) +:+ " directory="
     +:+ c_session_directory item) owned "capturing" "missing-replaced-or-completed";;;
  Ret (healthy && owned).

Definition fault_line (item : OwnedFault) (healthy : bool) : Prog bool :=
  let! owned := fault_healthy item in
  let! active := timer_owned (f_timer_pid item) (f_timer_start_time item) in
  status_line
    ("netem_fault " +:+ f_id item +:+ " attachment=" +:+ f_attachment_id item +:+ " interface="
     +:+ f_interface item) owned (if active : bool then "active" else "expired") "missing-or-replaced";;;
  Ret (healthy && owned).

Definition drift_warning : string :=
  "graphx: current configuration differs from the ownership ledger; resource identity "
  +:+ "still controls cleanup" +:+ newline.

(** The exit status: 0 when everything is as recorded, else 2 *)
Definition status_action (config : HostConfig) (hash state_root state_path : string)
    (unavailable : list string) : Prog Z :=
  let! present := and_also (inspect_existing_state_root state_root) (path_entry_exists state_path) in
  if negb present then
    print ("No OVS ownership state for graph " +:+ config_id config +:+ newline);;; Ret 2
  else
    let! state := checked (sys_call (Load state_path)) in
    if negb (String.eqb (graph_id state) (config_id config)) then throw "ownership state graph mismatch"
    else
      let config_matches := String.eqb (config_hash state) hash in
      (if config_matches then Ret tt else sys_call (Log drift_warning));;;
      print ("graph=" +:+ graph_id state +:+ " status=" +:+ status state +:+ " config-sha256="
             +:+ config_hash state +:+ " current-config="
             +:+ (if config_matches then "matched" else "drifted") +:+ newline);;;
      let! healthy := for_each_in (bridge_line state) (bridges state)
                        (String.eqb (status state) "ready" && config_matches) in
      let! healthy := for_each_in (endpoint_line config state unavailable) (endpoints state) healthy in
      let! healthy := for_each_in (namespace_line state) (namespaces state) healthy in
      let! healthy := for_each_in (capture_line state) (captures state) healthy in
      let! healthy := for_each_in fault_line (faults state) healthy in
      let! healthy := and_also (Ret healthy)
        (management_policy_matches parse_document to_chars sha256 config state false unavailable) in
      Ret (if healthy then 0 else 2).
End Status.
End LifecycleStatus.
