(* ===== verification/LifecycleCreate.v ===== *)
(** * Creating an infrastructure (src/src/infra/lifecycle_coordinator.cpp)

    The ledger with everything that will be created is saved first; then the
    resources are created one by one, each saved as soon as it is known.  When
    anything fails, what was created is found again and removed behind its
    identity, and the ledger keeps what could not be removed. *)

From Stdlib Require Import ZArith Lia Strings.Byte Strings.Ascii Strings.String Floats.SpecFloat.
From stdpp Require Import base option gmap strings list.
From S2P Require Import Prelude ConfigValue Text ResolvedNetwork Yaml OwnershipState Effects Process.
From S2P Require Import Host Ovs Endpoint EndpointCreate Capture Fault Management LifecyclePlan.
From S2P Require Import LifecycleStatus.

Module LifecycleCreate.
Import Text ResolvedNetwork OwnershipState Effects Process.
Import Host Ovs Endpoint EndpointCreate Capture Fault Management LifecyclePlan LifecycleStatus.
Local Open Scope Z_scope.
#[local] Open Scope prog_scope.

(** ** Test hooks *)

Definition injected (name : string) (mutation : Z) : Prog bool :=
  let! value := sys_call (Getenv name) in
  Ret (bool_decide (value = Some (to_string mutation))).

Definition exit {A} (status : Z) : Prog A :=
  let! x := sys_call (Exit status) in match (x : Empty_set) with end.

Definition inject_test_interruption (mutation : Z) : Prog unit :=
  let! crash := injected "GRAPHX_TEST_CRASH_AFTER_MUTATION" mutation in
  if crash : bool then exit 99
  else
    refuse (injected "GRAPHX_TEST_FAIL_AFTER_MUTATION" mutation)
      ("injected interruption after mutation " +:+ to_string mutation).

(** [context->cancelled && context->cancelled()] *)
Definition checkpoint (context : OvsExecutionContext) : Prog unit :=
  refuse (and_also (Ret (cancellable context)) (sys_call Interrupted))
    "E_INTERRUPTED: OVS preparation interrupted before application release".

(** ** The expected records *)

(** [routers]: the first router of an identifier.  The order of an
    [unordered_map] is unspecified; it is that of the configuration here. *)
Fixpoint first_routers (seen : list string) (l : list RouterDefinition) : list RouterDefinition :=
  match l with
  | [] => []
  | r :: l =>
      if one_of (router_id r) seen then first_routers seen l
      else r :: first_routers (router_id r :: seen) l
  end.
Definition namespace_routers (config : HostConfig) : list RouterDefinition :=
  first_routers [] (linux_routers config).

Definition find_router (config : HostConfig) (id : string) : option RouterDefinition :=
  List.find (fun r => String.eqb (router_id r) id) (namespace_routers config).

Abbreviation Containers := (gmap string ResolvedContainer).

(** [containers.try_emplace(owner)] *)
Definition container_of (config : HostConfig) (state : OwnershipState) (owner : string)
    (held : Containers) : Prog (ResolvedContainer * Containers) :=
  match held !! owner with
  | Some k => Ret (k, held)
  | None =>
      let! k := resolve_owned_container config owner state in
      Ret (k, <[owner := k]> held)
  end.

Definition is_realized (a : AttachmentDefinition) : bool :=
  match kind a with external => false | _ => true end.

(** The record of an attachment with the parts that depend on its kind *)
Definition expected_of (a : AttachmentDefinition) (host target container_id_ namespace : string)
    (inode : Z) : ExpectedEndpoint :=
  {| e_mirror_container := mirror_container a; e_kind := kind a; e_id := attachment_id a;
     e_owner := owner a; e_host_interface := host; e_target_interface := target;
     e_network_switch := network_switch a; e_address := attachment_address a; e_mac := mac a;
     e_mtu := mtu a; e_routes := routes a; e_aliases := aliases a; e_management_policy := "";
     e_container_id := container_id_; e_namespace_inode := inode; e_namespace_name := namespace;
     e_tap_uid := tap_uid a; e_tap_gid := tap_gid a;
     e_vlan := {| access_tag := None; trunks := [] |} |}.

Definition with_vlan (v : VlanMetadata) (e : ExpectedEndpoint) : ExpectedEndpoint :=
  {| e_mirror_container := e_mirror_container e; e_kind := e_kind e; e_id := e_id e; e_owner := e_owner e;
     e_host_interface := e_host_interface e; e_target_interface := e_target_interface e;
     e_network_switch := e_network_switch e; e_address := e_address e; e_mac := e_mac e;
     e_mtu := e_mtu e; e_routes := e_routes e; e_aliases := e_aliases e;
     e_management_policy := e_management_policy e; e_container_id := e_container_id e;
     e_namespace_inode := e_namespace_inode e; e_namespace_name := e_namespace_name e;
     e_tap_uid := e_tap_uid e; e_tap_gid := e_tap_gid e; e_vlan := v |}.

Definition port_known (name : string) : Prog bool := nonempty (ovs_port name).

Definition expect_container (config : HostConfig) (state : OwnershipState) (a : AttachmentDefinition)
    (held : Containers) : Prog (ExpectedEndpoint * Containers) :=
  let! (k, held) := container_of config state (owner a) held in
  let e := expected_of a (peer a) (interface a) (k_id k) "" (k_namespace_inode k) in
  check_endpoint_collision e (k_pid k);;;
  Ret (e, held).

(** The inode 1 is replaced when the name space exists. *)
Definition expect_namespace (config : HostConfig) (a : AttachmentDefinition) : Prog ExpectedEndpoint :=
  match find_router config (owner a) with
  | None => throw ("missing Linux namespace router for " +:+ attachment_id a)
  | Some r =>
      refuse (or_else (link_exists (peer a)) (port_known (peer a)))
        ("refusing namespace endpoint collision: " +:+ attachment_id a);;;
      Ret (expected_of a (peer a) (interface a) "" (namespace_name r) 1)
  end.

Definition expect_tap (host_namespace : Z) (a : AttachmentDefinition) : Prog ExpectedEndpoint :=
  refuse (or_else (link_exists (interface a))
           (or_else (port_known (interface a)) (nonempty (ovs_interface (interface a)))))
    ("refusing QEMU TAP collision: " +:+ attachment_id a);;;
  Ret (expected_of a (interface a) (interface a) "" "" host_namespace).

Definition find_switch (config : HostConfig) (id : string) : result SwitchDefinition :=
  lookup_id switch_id "switch" id (switches (infrastructure config)).

Definition expect_mirror (config : HostConfig) (state : OwnershipState) (host_namespace : Z)
    (a : AttachmentDefinition) (held : Containers) : Prog (ExpectedEndpoint * Containers) :=
  let id := attachment_id a in
  let! switch := of_result (find_switch config (network_switch a)) in
  match List.find (fun p => String.eqb (port_interface p) (interface a)) (ports switch) with
  | None => throw ("mirror attachment requires a switch port peer: " +:+ id)
  | Some port =>
      if is_empty (port_peer port)
      then throw ("mirror attachment requires a switch port peer: " +:+ id)
      else
        let! (e, held) :=
          (if mirror_container a then
             let! (k, held) := container_of config state (owner a) held in
             let e := expected_of a (interface a) (port_peer port) (k_id k) "" (k_namespace_inode k) in
             check_endpoint_collision e (k_pid k);;;
             Ret (e, held)
           else Ret (expected_of a (interface a) (port_peer port) "" "" host_namespace, held)) in
        refuse (or_else (link_exists (e_host_interface e))
                 (or_else (link_exists (e_target_interface e)) (port_known (e_host_interface e))))
          ("refusing mirror endpoint collision: " +:+ id);;;
        Ret (e, held)
  end.

Definition expect_attachment (config : HostConfig) (state : OwnershipState) (host_namespace : Z)
    (a : AttachmentDefinition) (held : Containers) : Prog (ExpectedEndpoint * Containers) :=
  if negb (bool_decide (kind a = mirror_kind)) && is_empty (attachment_address a)
  then throw ("network realization requires a declared address for attachment " +:+ attachment_id a)
  else
    let! (e, held) :=
      match kind a with
      | container_veth => expect_container config state a held
      | namespace_veth => let! e := expect_namespace config a in Ret (e, held)
      | qemu_tap => let! e := expect_tap host_namespace a in Ret (e, held)
      | mirror_kind | external => expect_mirror config state host_namespace a held
      end in
    let! switch := of_result (find_switch config (e_network_switch e)) in
    Ret (match List.find (fun p => String.eqb (port_interface p) (e_host_interface e)
                                   || String.eqb (port_peer p) (e_host_interface e)) (ports switch) with
         | Some port => with_vlan (vlan port) e
         | None => e
         end, held).

(** *** Changes of the ledger in memory *)

Definition push_expected_bridge (id : string) (s : OwnershipState) : OwnershipState :=
  with_infrastructure s (status s) (expected_bridges s ++ [id]) (bridges s) (expected_endpoints s)
    (endpoints s) (expected_namespaces s) (namespaces s) (expected_captures s) (captures s)
    (expected_faults s) (faults s).
Definition push_expected_namespace (id : string) (s : OwnershipState) : OwnershipState :=
  with_infrastructure s (status s) (expected_bridges s) (bridges s) (expected_endpoints s)
    (endpoints s) (expected_namespaces s ++ [id]) (namespaces s) (expected_captures s) (captures s)
    (expected_faults s) (faults s).
Definition push_expected_endpoint (e : ExpectedEndpoint) (s : OwnershipState) : OwnershipState :=
  set_expected_endpoints (expected_endpoints s ++ [e]) s.
Definition push_expected_capture (x : ExpectedCapture) (s : OwnershipState) : OwnershipState :=
  with_infrastructure s (status s) (expected_bridges s) (bridges s) (expected_endpoints s)
    (endpoints s) (expected_namespaces s) (namespaces s) (expected_captures s ++ [x]) (captures s)
    (expected_faults s) (faults s).
Definition push_expected_fault (x : ExpectedFault) (s : OwnershipState) : OwnershipState :=
  with_infrastructure s (status s) (expected_bridges s) (bridges s) (expected_endpoints s)
    (endpoints s) (expected_namespaces s) (namespaces s) (expected_captures s) (captures s)
    (expected_faults s ++ [x]) (faults s).

(** The records before the first resource: the containers that were resolved *)
Section Expect.
Context (sha256 : string -> string).
#[local] Open Scope stateful_scope.

Definition expect_capture (config : HostConfig) (host_namespace : Z) (c : NetworkCaptureDefinition)
    : Run unit :=
  do! state := current in
  match find_expected state (attachment c) with
  | None => raise ("network capture references unrealized mirror " +:+ attachment c)
  | Some e =>
      if negb (is_mirror e)
      then raise ("network capture references unrealized mirror " +:+ attachment c)
      else if e_mirror_container e then
        do! d := lift (of_result (diagnostic_mirror_endpoint sha256 e (config_id config) (capture_id c)
                                    host_namespace)) in
        lift (refuse (or_else (link_exists (e_host_interface d))
                       (or_else (link_exists (e_target_interface d)) (port_known (e_host_interface d))))
                ("refusing diagnostic mirror collision: " +:+ capture_id c));;;
        modify (push_expected_capture
          {| xc_definition := {| capture_id := capture_id c; attachment := e_id d;
                                 directory := directory c; snaplen := snaplen c;
                                 max_file_bytes := max_file_bytes c; max_files := max_files c;
                                 rotation_seconds := rotation_seconds c;
                                 retention_seconds := retention_seconds c |};
             xc_interface := e_target_interface d |});;;
        modify (push_expected_endpoint d)
      else
        modify (push_expected_capture {| xc_definition := c; xc_interface := e_target_interface e |})
  end.

Definition expect_fault (f : NetworkFaultDefinition) : Run unit :=
  do! state := current in
  match find_expected state (fault_attachment f) with
  | None => raise ("network fault references unrealized data attachment " +:+ fault_attachment f)
  | Some e =>
      if is_mirror e
      then raise ("network fault references unrealized data attachment " +:+ fault_attachment f)
      else modify (push_expected_fault {| xf_definition := f; xf_interface := e_host_interface e |})
  end.

Definition expect_router (r : RouterDefinition) : Run unit :=
  lift (refuse (namespace_exists (namespace_name r))
          ("refusing unowned Linux namespace collision: " +:+ namespace_name r));;;
  modify (push_expected_namespace (namespace_name r)).

Definition expect_endpoint (config : HostConfig) (host_namespace : Z) (a : AttachmentDefinition)
    (held : Containers) : Run Containers :=
  if negb (is_realized a) then returns held
  else
    do! state := current in
    do! (e, held) := lift (expect_attachment config state host_namespace a held) in
    modify (push_expected_endpoint e);;;
    returns held.

Definition infrastructure_absent (s : OwnershipState) : bool :=
  is_nil (expected_bridges s) && is_nil (expected_endpoints s) && is_nil (expected_namespaces s)
  && is_nil (bridges s) && is_nil (endpoints s) && is_nil (namespaces s).

Definition expect_infrastructure (config : HostConfig) : Run Containers :=
  let infra := infrastructure config in
  do! state := current in
  if negb (infrastructure_absent state)
  then raise "E_EXECUTION_ACTIVE: infrastructure requires identity-checked cleanup"
  else
    for_each_state (fun s =>
      lift (refuse (bridge_exists (switch_id s))
              ("refusing unowned OVS bridge collision: " +:+ switch_id s))) (switches infra);;;
    modify (set_stage "creating");;;
    for_each_state (fun s => modify (push_expected_bridge (switch_id s))) (switches infra);;;
    for_each_state expect_router (linux_routers config);;;
    do! details := lift (sys_call (StatPath "/proc/self/ns/net")) in
    match details with
    | None => raise "cannot inspect host network namespace"
    | Some m =>
        do! held := fold_state (expect_endpoint config (st_ino m)) (attachments infra) ∅ in
        for_each_state (expect_capture config (st_ino m)) (ResolvedNetwork.captures infra);;;
        for_each_state expect_fault (configured_faults config);;;
        returns held
    end.
End Expect.

(** ** The resources *)

(** Elements with the number of their mutation *)
Fixpoint numbered {A} (n : Z) (l : list A) : list (Z * A) :=
  match l with [] => [] | x :: l => (n + 1, x) :: numbered (n + 1) l end.
Definition count {A} (l : list A) : Z := Z.of_nat (length l).

Definition add_bridge (id : string) (state : OwnershipState) : list string :=
  ["ovs-vsctl"; "--"; "add-br"; id; "--"; "set"; "Bridge"; id; "datapath_type=system"]
  ++ owner_fields state.

Definition route_command (name : string) (route : RouteDefinition) : list string :=
  ["ip"; "netns"; "exec"; name; "ip"; "route"; "replace"; destination route]
  ++ (if is_empty (via route) then [] else ["via"; via route])
  ++ (if is_empty (device route) then [] else ["dev"; device route]).

Definition nft (name : string) (l : list string) : list string :=
  ["ip"; "netns"; "exec"; name; "nft"; "add"] ++ l.

Definition install_routes (r : RouterDefinition) : Prog unit :=
  (if forwarding r
   then perform ["ip"; "netns"; "exec"; namespace_name r; "sysctl"; "-q"; "-w"; "net.ipv4.ip_forward=1"]
          ("cannot enable forwarding for router " +:+ router_id r)
   else Ret tt);;;
  for_each_in (fun route _ =>
    if negb (install_on_create route) then Ret tt
    else perform (route_command (namespace_name r) route) "cannot install router route")
    (router_routes r) tt.

Definition install_policies (r : RouterDefinition) : Prog unit :=
  let name := namespace_name r in
  demand (all_of
    [succeeds (nft name ["table"; "inet"; "graphx"]);
     succeeds (nft name ["chain"; "inet"; "graphx"; "forward";
                         "{ type filter hook forward priority 0; policy drop; }"]);
     succeeds (nft name ["rule"; "inet"; "graphx"; "forward"; "ct"; "state"; "established,related";
                         "counter"; "accept"])])
    "cannot create router policy table";;;
  for_each_in (fun p _ =>
    perform (nft name ["rule"; "inet"; "graphx"; "forward"; "ip"; "saddr"; policy_source p; "ip"; "daddr";
                       policy_destination p; "counter"; action p])
      ("cannot install router policy " +:+ policy_id p)) (policies r) tt.

Definition with_rules (identity : string) (n : OwnedResourceIdentity) : OwnedResourceIdentity :=
  {| r_kind := r_kind n; r_name := r_name n; r_stable_id := r_stable_id n;
     r_secondary_id := r_secondary_id n; r_attachment_id := r_attachment_id n;
     r_target_interface := r_target_interface n; r_ifindex := r_ifindex n;
     r_peer_ifindex := r_peer_ifindex n; r_namespace_inode := r_namespace_inode n;
     r_container_id := r_container_id n; r_tap_owner := r_tap_owner n;
     r_route_identity := r_route_identity n; r_rule_identity := identity;
     r_qdisc_identity := r_qdisc_identity n; r_capture_identity := r_capture_identity n;
     r_process_identity := r_process_identity n; r_runtime_directory := r_runtime_directory n;
     r_runtime_identity := r_runtime_identity n |}.

(** The first name space of that name *)
Fixpoint record_rules (name identity : string) (l : list OwnedResourceIdentity)
    : list OwnedResourceIdentity :=
  match l with
  | [] => []
  | n :: l =>
      if String.eqb (r_name n) name then with_rules identity n :: l
      else n :: record_rules name identity l
  end.

Section Create.
Context (load_all : string -> option (list Yaml.node)) (c : Yaml.Conversions)
        (parse_document : string -> result Value) (to_chars : spec_float -> string)
        (sha256 : string -> string) (show_double : spec_float -> string).
#[local] Open Scope stateful_scope.

Definition create_bridge (context : OvsExecutionContext) (item : Z * SwitchDefinition) : Run unit :=
  let '(mutation, switch) := item in
  let id := switch_id switch in
  lift (checkpoint context);;;
  do! state := current in
  lift (print ("+ " +:+ planned_create id (graph_id state) (owner_token state) (config_hash state)
               +:+ newline));;;
  lift (perform (add_bridge id state) ("cannot atomically create owned OVS bridge " +:+ id));;;
  do! uuid := lift (bridge_get id "_uuid") in
  if is_empty uuid then raise "cannot capture owned OVS bridge identity"
  else
    lift (inject_test_interruption mutation);;;
    do! port := lift (ovs_get "Port" id "_uuid") in
    if is_empty port then raise "cannot capture owned OVS internal port identity"
    else
      modify (push_bridge (bridge_identity id uuid port));;;
      save.

Definition create_router (context : OvsExecutionContext) (item : Z * RouterDefinition) : Run unit :=
  let '(mutation, router) := item in
  lift (checkpoint context);;;
  lift (print ("+ linux_namespace " +:+ namespace_name router +:+ newline));;;
  do! state := current in
  do! created := lift (create_namespace router state) in
  modify (push_namespace created);;;
  modify (place_endpoints (fun e => String.eqb (e_owner e) (router_id router)
                                    && bool_decide (e_kind e = namespace_veth))
            (default 0 (r_namespace_inode created)));;;
  save;;;
  lift (inject_test_interruption mutation).

(** [containers.at(owner)] *)
Definition container_pid (held : Containers) (owner : string) : result Z :=
  match held !! owner with
  | Some k => Ok (k_pid k)
  | None => Throw (OutOfRange "_Map_base::at")
  end.

Definition create_kind (held : Containers) (e : ExpectedEndpoint) (state : OwnershipState)
    : Prog OwnedResourceIdentity :=
  (match e_kind e with
  | container_veth =>
      let! pid := of_result (container_pid held (e_owner e)) in create_endpoint e pid state
  | namespace_veth => create_namespace_endpoint e state
  | qemu_tap => create_tap_endpoint e state
  | external | mirror_kind =>
      let! pid := of_result (if e_mirror_container e then container_pid held (e_owner e) else Ok 0) in
      create_mirror_endpoint e state pid
  end)%prog.

Definition create_expected (context : OvsExecutionContext) (held : Containers)
    (item : Z * ExpectedEndpoint) : Run unit :=
  let '(mutation, e) := item in
  lift (checkpoint context);;;
  lift (print ("+ " +:+ kind_to_string (e_kind e) +:+ " " +:+ e_id e +:+ " host="
               +:+ e_host_interface e +:+ " switch=" +:+ e_network_switch e +:+ newline));;;
  do! state := current in
  do! created := lift (create_kind held e state) in
  modify (push_endpoint created);;;
  lift (inject_test_interruption mutation);;;
  save.

Definition configure_router (router : RouterDefinition) : Run unit :=
  lift (install_routes router);;;
  if is_nil (policies router) then returns tt
  else
    lift (install_policies router);;;
    do! identity := lift (nft_policy_identity parse_document to_chars sha256
                            (table_command (namespace_name router))) in
    modify (fun s => set_namespaces (record_rules (namespace_name router) identity (namespaces s)) s);;;
    save.

Definition start_capture (context : OvsExecutionContext) (item : Z * ExpectedCapture) : Run unit :=
  let '(mutation, x) := item in
  lift (checkpoint context);;;
  lift (print ("+ network_capture " +:+ capture_id (xc_definition x) +:+ " interface="
               +:+ xc_interface x +:+ newline));;;
  do! state := current in
  create_capture (fun owned => modify (push_capture owned);;; save) x state;;;
  lift (inject_test_interruption mutation).

(** The fault is recorded when its timer runs. *)
Definition start_fault (item : Z * ExpectedFault) : Run unit :=
  let '(mutation, x) := item in
  lift (print ("+ netem_fault " +:+ fault_id (xf_definition x) +:+ " interface=" +:+ xf_interface x
               +:+ " duration=" +:+ to_string (duration_seconds (xf_definition x)) +:+ "s" +:+ newline));;;
  do! fault := create_fault show_double (fun _ => returns tt) x in
  modify (push_fault fault);;;
  save;;;
  lift (inject_test_interruption mutation).

Fixpoint await_healthy (attempts : nat) (context : OvsExecutionContext) (config : HostConfig)
    (state : OwnershipState) (e : ExpectedEndpoint) (item : OwnedResourceIdentity) : Prog bool :=
  (match attempts with
   | O => Ret false
   | S attempts =>
       checkpoint context;;;
       let! healthy :=
         match e_kind e with
         | external => Ret false
         | _ => endpoint_healthy load_all c config state e item
         end in
       if healthy : bool then Ret true
       else sys_call (Sleep 100);;; await_healthy attempts context config state e item
   end)%prog.

Definition require_jumbo (context : OvsExecutionContext) (config : HostConfig) (state : OwnershipState)
    (item : OwnedResourceIdentity) : Prog unit :=
  (let! e := of_result (expected_endpoint state (r_attachment_id item)) in
   if negb (is_jumbo e) then Ret tt
   else demand (await_healthy 20 context config state e item)
          ("jumbo path readiness failed: " +:+ e_id e))%prog.

(** What is done under the [try] *)
Definition realize (config : HostConfig) (context : OvsExecutionContext) (held : Containers)
    (state_path : string) : Run Z :=
  let bridges_ := switches (infrastructure config) in
  let routers_ := namespace_routers config in
  for_each_state (create_bridge context) (numbered 0 bridges_);;;
  for_each_state (create_router context) (numbered (count bridges_) routers_);;;
  do! state := current in
  let done := count bridges_ + count routers_ in
  for_each_state (create_expected context held) (numbered done (expected_endpoints state));;;
  lift (checkpoint context);;;
  do! state := current in
  lift (install_profile_flows config state);;;
  install_management_policy parse_document to_chars sha256 config;;;
  save;;;
  for_each_state configure_router routers_;;;
  do! state := current in
  let done := done + count (expected_endpoints state) in
  for_each_state (start_capture context) (numbered done (expected_captures state));;;
  let done := done + count (expected_captures state) in
  for_each_state start_fault (numbered done (expected_faults state));;;
  do! state := current in
  for_each_state (fun item => lift (require_jumbo context config state item)) (endpoints state);;;
  modify (set_stage "ready");;;
  save;;;
  lift (print ("GraphX OVS laboratory state ready: " +:+ shown_path state_path +:+ newline));;;
  returns 0.

(** ** Rollback *)

Definition log (text : string) : Prog unit := sys_call (Log text).

Definition rollback_warning (what name : string) : string :=
  "graphx: retained ownership state after rollback could not safely " +:+ what +:+ " " +:+ name
  +:+ newline.

(** [if (!operation) errors << ...]: whether it succeeded *)
Definition or_warn (p : Prog bool) (text : string) : Prog bool :=
  (let! ok := p in if ok : bool then Ret true else log text;;; Ret false)%prog.

Definition rediscover_endpoint (e : ExpectedEndpoint) : Run unit :=
  do! state := current in
  if endpoint_recorded state e then returns tt
  else
    do! traces := lift (endpoint_traces e) in
    match traces with
    | None => returns tt
    | Some (ifindex, port_uuid) =>
        do! peer := lift (if host_mirror e then link_ifindex (e_target_interface e)
                          else if e_mirror_container e then link_peer_ifindex (e_host_interface e)
                          else Ret ifindex) in
        do! found := lift (discovered_endpoint state e (default 0 ifindex) (default 0 peer) port_uuid) in
        modify (push_endpoint found)
    end.

Definition rediscover_bridge (name : string) : Run unit :=
  do! state := current in
  if recorded name (bridges state) then returns tt
  else
    do! exists_ := lift (bridge_exists name) in
    if negb exists_ then returns tt
    else
      do! found := lift (discover_bridge name) in
      do! marked := lift (bridge_marked name state) in
      if marked : bool then modify (push_bridge found) else returns tt.

Definition remove_each {A} (remove : A -> Prog bool) (name : A -> string) (l : list A) (complete : bool)
    : Prog bool :=
  for_each_in (fun x complete =>
    let! ok := or_warn (remove x) (rollback_warning "remove" (name x)) in
    Ret (complete && ok))%prog l complete.

Definition remove_bridge (state : OwnershipState) (b : OwnedResourceIdentity) : Prog bool :=
  (let! exists_ := bridge_exists (r_name b) in
   if negb exists_ then Ret true
   else and_also (bridge_owned b state) (delete_owned_bridge b state))%prog.

Definition faults_cleared (state : OwnershipState) : Prog bool :=
  every (fun f =>
    and_also (fault_healthy f)
      (let! qdisc := qdisc_state (f_interface f) in Ret (negb (has "netem" qdisc))))%prog (faults state).

Definition captures_stopped (state : OwnershipState) : Prog bool :=
  every (fun x => negate (process_owned (c_pid x) (c_process_start_time x) (c_session_directory x)))
    (captures state).

Definition rollback (config : HostConfig) : Run unit :=
  recover_namespaces;;;
  lift (log ("graphx: create interrupted; recovering owned OVS/container mutations" +:+ newline));;;
  do! state := current in
  for_each_state (fun f => lift (or_warn (clear_fault f) (rollback_warning "clear fault" (f_id f)));;;
                           returns tt) (rev (faults state));;;
  for_each_state (fun x => lift (or_warn (stop_capture x) (rollback_warning "stop capture" (c_id x)));;;
                           returns tt) (rev (captures state));;;
  for_each_state rediscover_endpoint (expected_endpoints state);;;
  for_each_state rediscover_bridge (expected_bridges state);;;
  do! state := current in
  do! complete := lift (and_also (faults_cleared state) (captures_stopped state)) in
  do! complete := lift (remove_each (fun e => delete_owned_endpoint e state (Some config))
                          r_attachment_id (rev (endpoints state)) complete) in
  do! complete := lift (remove_each (fun n => delete_owned_namespace n state) r_name
                          (rev (namespaces state)) complete) in
  do! complete := lift (remove_each (remove_bridge state) r_name (rev (bridges state)) complete) in
  (if complete : bool then modify clear_infrastructure else returns tt);;;
  save.

Definition create_action (config : HostConfig) (context : OvsExecutionContext) (state_path : string)
    : Run Z :=
  do! held := expect_infrastructure sha256 config in
  save;;;
  catch_state (realize config context held state_path)
    (fun e => rollback config;;; raises e).
End Create.
End LifecycleCreate.
