(* ===== verification/Lifecycle.v ===== *)
(** * The life cycle of an infrastructure (src/src/infra/lifecycle_coordinator.cpp)

    Taking an infrastructure down: what a crash left is found again, every
    record is compared with the host, and only then the first resource is
    removed, each behind its identity once more.  [execute_ovs_lifecycle] is the
    entry point of all actions; [export_capture] copies a finished part of a
    capture. *)

From Stdlib Require Import ZArith Lia Strings.Byte Strings.Ascii Strings.String Floats.SpecFloat.
From stdpp Require Import base option gmap strings list.
From S2P Require Import Prelude ConfigValue Text ResolvedNetwork Yaml OwnershipState Effects Process.
From S2P Require Import Host Ovs Endpoint EndpointCreate Capture Fault Management LifecyclePlan.
From S2P Require Import LifecycleStatus LifecycleCreate.

Module Lifecycle.
Import Text ResolvedNetwork OwnershipState Effects Process.
Import Host Ovs Endpoint EndpointCreate Capture Fault Management LifecyclePlan.
Import LifecycleStatus LifecycleCreate.
Local Open Scope Z_scope.
#[local] Open Scope prog_scope.

(** ** Checks before the first removal *)

Definition link_present (name : string) : Prog bool := link_exists name.

Definition bridge_unchanged (state : OwnershipState) (item : OwnedResourceIdentity) : Prog unit :=
  refuse (and_also (bridge_exists (r_name item)) (negate (bridge_complete_set_owned item state)))
    ("refusing OVS bridge with replaced identity or unexpected ports: " +:+ r_name item).

(** The other side of a mirror on the host, marked as ours *)
Definition peer_marked (state : OwnershipState) (e : ExpectedEndpoint) (item : OwnedResourceIdentity)
    : Prog bool :=
  and_also (link_is (e_target_interface e) (r_peer_ifindex item))
    (gives (link_alias (e_target_interface e)) (endpoint_alias state (r_attachment_id item) "peer")).

Definition endpoint_unchanged (config : HostConfig) (state : OwnershipState)
    (item : OwnedResourceIdentity) : Prog unit :=
  let id := r_attachment_id item in
  refuse (and_also (link_present (r_name item)) (negate (host_endpoint_owned item state)))
    ("refusing to delete replaced host endpoint: " +:+ id);;;
  refuse (and_also (nonempty (ovs_port (r_stable_id item))) (negate (ovs_endpoint_owned item state)))
    ("refusing to delete replaced OVS endpoint: " +:+ id);;;
  demand (endpoint_names_absent_or_recorded item)
    ("refusing same-name OVS endpoint replacement: " +:+ id);;;
  demand (mirror_absent_or_owned item state) ("refusing replaced OVS mirror: " +:+ id);;;
  let! e := of_result (expected_endpoint state id) in
  refuse (and_also (Ret (is_tap e))
    (or_else (negate (tap_owner_matches e))
    (or_else (Ret (negb (String.eqb (r_tap_owner item) (tap_owner_identity (e_tap_uid e) (e_tap_gid e)))))
             (negate (endpoint_vlan_matches e item)))))
    ("refusing replaced QEMU TAP ownership or VLAN: " +:+ id);;;
  refuse (and_also (Ret (e_mirror_container e))
    (and_also (link_present (r_name item))
    (and_also (negate (peer_marked state e item)) (negate (mirror_peer_owned e item state config)))))
    ("refusing replaced container mirror peer: " +:+ id);;;
  refuse (and_also (Ret (host_mirror e))
    (and_also (or_else (link_present (r_name item)) (link_present (e_target_interface e)))
              (negate (peer_marked state e item))))
    ("refusing replaced mirror peer: " +:+ id).

Definition capture_unchanged (item : OwnedCapture) : Prog unit :=
  demand (directory_identity_matches item) ("refusing replaced capture directory: " +:+ c_id item);;;
  let! start := process_start_time (c_pid item) in
  refuse (and_also (Ret (negb (is_empty start)))
    (negate (process_owned (c_pid item) (c_process_start_time item) (c_session_directory item))))
    ("refusing replaced capture process: " +:+ c_id item).

Definition fault_unchanged (item : OwnedFault) : Prog unit :=
  demand (fault_healthy item) ("refusing replaced fault target, timer, or qdisc: " +:+ f_id item).

Section Destroy.
Context (load_all : string -> option (list Yaml.node)) (c : Yaml.Conversions)
        (parse_document : string -> result Value) (to_chars : spec_float -> string)
        (sha256 : string -> string) (show_double : spec_float -> string).

Definition namespace_unchanged (state : OwnershipState) (item : OwnedResourceIdentity) : Prog unit :=
  refuse (and_also (namespace_exists (r_name item))
    (or_else (negate (namespace_owned item state))
             (negate (rules_unchanged parse_document to_chars sha256 item))))
    ("refusing to delete replaced Linux namespace: " +:+ r_name item).

(** Every record, before anything is removed *)
Definition everything_unchanged (config : HostConfig) (state : OwnershipState) : Prog unit :=
  for_each_in (fun b _ => bridge_unchanged state b) (bridges state) tt;;;
  for_each_in (fun e _ => endpoint_unchanged config state e) (endpoints state) tt;;;
  for_each_in (fun n _ => namespace_unchanged state n) (namespaces state) tt;;;
  for_each_in (fun x _ => capture_unchanged x) (captures state) tt;;;
  for_each_in (fun f _ => fault_unchanged f) (faults state) tt;;;
  demand (management_policy_matches parse_document to_chars sha256 config state true [])
    "E_MANAGEMENT_ACL: policy identity changed; nothing removed".

(** ** Removal *)

Definition destroy_fault (f : OwnedFault) : Prog unit :=
  print ("- netem_fault " +:+ f_id f +:+ newline);;;
  demand (clear_fault f) ("identity changed while clearing network fault " +:+ f_id f).

Definition destroy_capture (x : OwnedCapture) : Prog unit :=
  print ("- network_capture " +:+ c_id x +:+ " retained=" +:+ c_session_directory x +:+ newline);;;
  demand (stop_capture x) ("identity changed while stopping network capture " +:+ c_id x).

Definition destroy_endpoint (config : HostConfig) (state : OwnershipState) (e : OwnedResourceIdentity)
    : Prog unit :=
  print ("- " +:+ r_kind e +:+ " " +:+ r_attachment_id e +:+ newline);;;
  demand (delete_owned_endpoint e state (Some config))
    ("identity changed while deleting owned container endpoint " +:+ r_attachment_id e).

Definition destroy_namespace (state : OwnershipState) (n : OwnedResourceIdentity) : Prog unit :=
  print ("- linux_namespace " +:+ r_name n +:+ newline);;;
  demand (delete_owned_namespace n state)
    ("identity changed while deleting Linux namespace " +:+ r_name n).

Definition destroy_owned_bridge (state : OwnershipState) (b : OwnedResourceIdentity) : Prog unit :=
  let! exists_ := bridge_exists (r_name b) in
  if negb exists_ then Ret tt
  else
    demand (bridge_owned b state) ("refusing to delete replaced OVS bridge: " +:+ r_name b);;;
    print ("- ovs-vsctl del-br " +:+ r_name b +:+ newline);;;
    demand (delete_owned_bridge b state)
      ("identity changed while deleting owned OVS bridge " +:+ r_name b).

Definition remove_everything (config : HostConfig) (state : OwnershipState) : Prog unit :=
  for_each_in (fun f _ => destroy_fault f) (rev (faults state)) tt;;;
  for_each_in (fun x _ => destroy_capture x) (rev (captures state)) tt;;;
  for_each_in (fun e _ => destroy_endpoint config state e) (rev (endpoints state)) tt;;;
  for_each_in (fun n _ => destroy_namespace state n) (rev (namespaces state)) tt;;;
  for_each_in (fun b _ => destroy_owned_bridge state b) (rev (bridges state)) tt.

#[local] Open Scope stateful_scope.

(** ** Finding what a crash left *)

Definition recover_bridge (name : string) : Run unit :=
  do! state := current in
  if recorded name (bridges state) then returns tt
  else
    do! exists_ := lift (bridge_exists name) in
    if negb exists_ then returns tt
    else
      do! marked := lift (bridge_marked name state) in
      if negb marked then raise ("refusing unowned or replaced OVS bridge: " +:+ name)
      else
        do! found := lift (discover_bridge name) in
        modify (push_bridge found).

(** The alias of the interface and the owner of its port *)
Definition endpoint_marked (state : OwnershipState) (e : ExpectedEndpoint) (port_uuid : string)
    : Prog bool :=
  and_also (gives (link_alias (e_host_interface e)) (endpoint_alias state (e_id e) "host"))
  (and_also (Ret (negb (is_empty port_uuid)))
  (and_also (gives (ovs_get "Port" port_uuid "external_ids:graphx_owner") (owner_token state))
            (gives (ovs_get "Port" port_uuid "external_ids:graphx_attachment") (e_id e)))).

(** The peer of an endpoint that is found again *)
Definition recovered_peer (state : OwnershipState) (e : ExpectedEndpoint) (ifindex : Z) : Prog Z :=
  (if host_mirror e then
     let! peer := link_ifindex (e_target_interface e) in
     let refusal := throw ("refusing unowned or replaced mirror peer: " +:+ e_id e) in
     match peer with
     | None => refusal
     | Some peer =>
         let! alias := link_alias (e_target_interface e) in
         if String.eqb alias (endpoint_alias state (e_id e) "peer") then Ret peer else refusal
     end
   else if e_mirror_container e then
     let! peer := link_peer_ifindex (e_host_interface e) in Ret (default 0 peer)
   else Ret ifindex)%prog.

Definition recover_endpoint (e : ExpectedEndpoint) : Run unit :=
  do! state := current in
  if endpoint_recorded state e then returns tt
  else
    do! traces := lift (endpoint_traces e) in
    match traces with
    | None => returns tt
    | Some (None, _) => raise ("refusing unowned or replaced container endpoint: " +:+ e_id e)
    | Some (Some ifindex, port_uuid) =>
        lift (demand (endpoint_marked state e port_uuid)
                ("refusing unowned or replaced container endpoint: " +:+ e_id e));;;
        do! peer := lift (recovered_peer state e ifindex) in
        lift (if is_tap e
              then demand (tap_owner_matches e) ("refusing unowned or replaced QEMU TAP: " +:+ e_id e)
              else Ret tt);;;
        do! found := lift (discovered_endpoint state e ifindex peer port_uuid) in
        modify (push_endpoint found)
    end.

(** [destroy] and [recover]: the exit status *)
Definition destroy_action (config : HostConfig) (hash state_path : string) (recovering : bool)
    (context : OvsExecutionContext) : Run Z :=
  do! present := lift (path_entry_exists state_path) in
  if negb present then raise ("no ownership state for graph " +:+ config_id config)
  else
    do! state := current in
    if negb (String.eqb (graph_id state) (config_id config)) then raise "ownership state graph mismatch"
    else
      lift (if String.eqb (config_hash state) hash then Ret tt else log drift_warning);;;
      if recovering && String.eqb (status state) "ready"
      then raise "ownership state is ready; use infra destroy, not recover"
      else
        recover_namespaces;;;
        for_each_state recover_bridge (expected_bridges state);;;
        do! state := current in
        for_each_state recover_endpoint (expected_endpoints state);;;
        do! state := current in
        lift (everything_unchanged config state);;;
        if validate_only context then returns 0
        else
          modify (set_stage "destroying");;;
          save;;;
          do! state := current in
          lift (remove_everything config state);;;
          modify clear_infrastructure;;;
          save;;;
          lift (print ("GraphX OVS laboratory state removed" +:+ newline));;;
          returns 0.

(** ** All actions *)

Inductive OvsLifecycleAction := create | destroy | status_ | recover.

Definition state_file (state_root : string) (config : HostConfig) : string :=
  slash (slash state_root (config_id config)) "ownership.yml".

(** The context holds the lock of the ledger, and the ledger is that of this
    configuration. *)
Definition execute_ovs_lifecycle (config : HostConfig) (config_path : string)
    (action : OvsLifecycleAction) (dry_run : bool) (state_root : string)
    (context : option OvsExecutionContext) : Run Z :=
  if negb (config_version config =? 3)
  then raises (InvalidArgument "OVS lifecycle requires authored version 3")
  else
    do! hash := lift (checked (sys_call (Hash config_path))) in
    let state_path := state_file state_root config in
    if dry_run then
      lift (match action with
            | create => create_plan show_double config hash state_path
            | _ => print ("# " +:+ (match action with status_ => "inspect" | _ => "identity-check-delete" end)
                          +:+ " ownership-state " +:+ shown_path state_path +:+ newline)
            end);;;
      returns 0
    else
      match context with
      | None => raises (LogicError "E_PHASE_UNAVAILABLE: use the compiled graph runner for OVS execution")
      | Some context =>
          do! state := current in
          if negb (lock_held context) || negb (String.eqb (graph_id state) (config_id config))
             || negb (String.eqb (config_hash state) hash)
          then raise "E_EXECUTION_IDENTITY: OVS context does not match compilation"
          else
            match action with
            | status_ =>
                lift (status_action load_all c parse_document to_chars sha256 config hash state_root
                        state_path (unavailable_containers context))
            | create =>
                create_action load_all c parse_document to_chars sha256 show_double config context state_path
            | destroy => destroy_action config hash state_path false context
            | recover => destroy_action config hash state_path true context
            end
      end.

(** [default_ownership_state_root] *)
Definition default_ownership_state_root : Prog string :=
  (let! configured := sys_call (Getenv "GRAPHX_STATE_DIR") in
   Ret (default "/var/lib/graphx/runs" configured))%prog.

(** ** Export *)

#[local] Close Scope stateful_scope.

(** The newest safe file, the last of equal ones *)
Fixpoint newest_file (capture : OwnedCapture) (fd : Z) (names : list string) (selected : string)
    (newest : Z) : Prog string :=
  match names with
  | [] => Ret selected
  | name :: names =>
      if negb (ends_with name ".pcapng") then newest_file capture fd names selected newest
      else
        let! details := sys_call (FstatAt fd name) in
        match details with
        | Some m =>
            if capture_file_metadata_is_safe capture m
               && (is_empty selected || (newest <=? st_mtime m))
            then newest_file capture fd names name (st_mtime m)
            else newest_file capture fd names selected newest
        | None => newest_file capture fd names selected newest
        end
  end.

(** Both loops go on after an interruption; [rounds] bounds the calls of the
    model. *)
Fixpoint write_chunk (rounds : nat) (fd : Z) (destination bytes : string) : Prog unit :=
  if is_empty bytes then Ret tt
  else
    match rounds with
    | O => spinning
    | S rounds =>
        let! moved := sys_call (WriteNext fd bytes) in
        let failure := sys_call (Unlink destination);;; throw "cannot write complete capture export" in
        match moved with
        | transfer_interrupted => write_chunk rounds fd destination bytes
        | transfer_failed => failure
        | bytes_moved n =>
            if n <=? 0 then failure else write_chunk rounds fd destination (sdrop (Z.to_nat n) bytes)
        end
    end.

Fixpoint copy_chunks (rounds : nat) (source target remaining : Z) (destination : string) : Prog unit :=
  if remaining <=? 0 then Ret tt
  else
    match rounds with
    | O => spinning
    | S rounds' =>
        let! moved := sys_call (ReadNext source (Z.min remaining 65536)) in
        let failure :=
          sys_call (Unlink destination);;;
          throw "capture changed while exporting the bounded snapshot" in
        match moved with
        | transfer_interrupted => copy_chunks rounds' source target remaining destination
        | transfer_failed => failure
        | bytes_moved bytes =>
            if is_empty bytes then failure
            else
              write_chunk rounds target destination bytes;;;
              copy_chunks rounds' source target (remaining - Z.of_nat (String.length bytes)) destination
        end
    end.

(** The file of a healthy capture that is copied, and its size *)
Definition select_export (capture : OwnedCapture) (expected : ExpectedCapture) : Prog (Z * Z) :=
  let d := xc_definition expected in
  let! opened := open_session capture in
  match opened with
  | Some (fd, m) =>
      if negb (capture_directory_metadata_matches capture m 448)
      then throw "network capture directory security identity changed"
      else
        let! entries := sys_call (Entries fd) in
        match entries with
        | None => throw "cannot enumerate network capture directory"
        | Some names =>
            let! selected := newest_file capture fd names "" 0 in
            if is_empty selected then throw "network capture has no exportable PCAPNG file"
            else
              let unsafe := throw "network capture file is unsafe, oversized, or incomplete" in
              let! source := sys_call (OpenAt fd selected) in
              match source with
              | None => unsafe
              | Some source =>
                  let! details := sys_call (Fstat source) in
                  match details with
                  | None => unsafe
                  | Some m =>
                      if negb (is_regular m) || negb (capture_file_metadata_is_safe capture m)
                         || (st_size m <? 0)
                         || (u64 (max_file_bytes d + snaplen d + 4096) <? st_size m)
                      then unsafe
                      else
                        let! complete := complete_pcapng_snapshot source (st_size m) in
                        if complete : bool then Ret (source, st_size m) else unsafe
                  end
              end
        end
  | None => throw "network capture directory security identity changed"
  end.

(** [rounds] is for the copy.  The ledger is the caller's, who holds its lock,
    or it is loaded under a shared lock. *)
Definition export_capture (rounds : nat) (config : HostConfig) (config_path id state_root destination : string)
    (locked_state : option OwnershipState) : Prog Z :=
  if negb (config_version config =? 3)
  then Fail (InvalidArgument "network capture export requires authored version 3")
  else
    demand (inspect_existing_state_root state_root) "network capture ownership state is unavailable";;;
    let! state :=
      match locked_state with
      | Some s => Ret s
      | None =>
          checked (sys_call (LockExisting (slash (slash state_root (config_id config)) ".lock")));;;
          checked (sys_call (Load (state_file state_root config)))
      end in
    let! matching :=
      (if String.eqb (graph_id state) (config_id config) then
         let! hash := checked (sys_call (Hash config_path)) in
         Ret (String.eqb (config_hash state) hash && String.eqb (status state) "ready")
       else Ret false) in
    if negb matching then throw "network capture export requires matching ready ownership state"
    else
      let unhealthy := throw "network capture is missing, replaced, or unhealthy" in
      match List.find (fun x => String.eqb (c_id x) id) (captures state),
            find_capture id (expected_captures state) with
      | Some capture, Some expected =>
          let! healthy := capture_healthy expected capture in
          if negb healthy then unhealthy
          else
            let! (source, bytes) := select_export capture expected in
            let! target := sys_call (CreateFile destination) in
            match target with
            | None => throw "cannot create capture export"
            | Some target =>
                copy_chunks rounds source target bytes destination;;;
                let! synced := sys_call (Fsync target) in
                if negb synced
                then sys_call (Unlink destination);;; throw "cannot sync capture export"
                else
                  print ("Exported Ethernet PCAPNG capture " +:+ id +:+ " to " +:+ shown_path destination
                         +:+ " bytes=" +:+ to_string bytes +:+ newline);;;
                  Ret 0
            end
      | _, _ => unhealthy
      end.
End Destroy.
End Lifecycle.
