(* ===== verification/HostProofs.v ===== *)
(** * What the commands of the host do

    Commands and calls by their effect: those that only look, those that make
    or remove a resource by name, and the others.  The operations that only
    look, and those that make nothing but their own resource. *)

From Stdlib Require Import ZArith Lia Strings.Byte Strings.Ascii Strings.String.
From stdpp Require Import base option gmap strings list.
From S2P Require Import Prelude Text ResolvedNetwork OwnershipState Effects Process ProcessProofs.
From S2P Require Import Host Ovs Endpoint EndpointCreate Capture Fault Management.

Module HostProofs.
Import Text ResolvedNetwork OwnershipState Effects Process ProcessProofs.
Import Host Ovs Endpoint EndpointCreate Capture Fault Management.
Local Open Scope Z_scope.
#[local] Open Scope prog_scope.

(** ** Effects *)

Inductive resource := interface_named (name : string) | namespace_named (name : string)
  | bridge_named (name : string).

Inductive effect := looks | makes (r : resource) | removes | changes | books.

Fixpoint begins (p l : list string) : bool :=
  match p, l with
  | [], _ => true
  | x :: p, y :: l => String.eqb x y && begins p l
  | _, [] => false
  end.

(** The command that runs inside a name space *)
Definition inside (argv : list string) : list string :=
  if begins ["ip"; "netns"; "exec"] argv then drop 4 argv
  else if begins ["nsenter"; "-t"] argv then drop 5 argv
  else argv.

Definition queries : list (list string) :=
  [["ip"; "-o"; "link"; "show"]; ["ip"; "-d"; "link"; "show"]; ["ip"; "-d"; "-o"; "link"; "show"];
   ["ip"; "link"; "show"]; ["ip"; "-o"; "-4"; "address"; "show"]; ["ip"; "-j"; "-4"; "address"; "show"];
   ["ip"; "-4"; "route"; "show"]; ["ip"; "tuntap"; "show"]; ["stat"]; ["ethtool"; "-k"];
   ["tc"; "qdisc"; "show"]; ["tc"; "-j"; "filter"; "show"]; ["nft"; "-j"; "list"];
   ["docker"; "ps"]; ["docker"; "inspect"]; ["ovs-vsctl"; "get"]; ["ovs-vsctl"; "br-exists"];
   ["ovs-vsctl"; "--if-exists"; "get"];
   ["ovs-vsctl"; "--data=bare"; "--no-heading"; "--columns=_uuid"; "find"]].

Definition observing (argv : list string) : bool :=
  existsb (fun p => begins p (inside argv)) queries.

Definition removals : list (list string) :=
  [["ip"; "link"; "delete"]; ["ip"; "tuntap"; "delete"]; ["ip"; "netns"; "delete"];
   ["ovs-vsctl"; "--timeout=2"]; ["tc"; "qdisc"; "del"]].

Definition effect_of (argv : list string) : effect :=
  if observing argv then looks
  else if begins ["ip"; "link"; "add"] argv then makes (interface_named (nth 3 argv ""))
  else if begins ["ip"; "tuntap"; "add"; "dev"] argv then makes (interface_named (nth 4 argv ""))
  else if begins ["ip"; "netns"; "add"] argv then makes (namespace_named (nth 3 argv ""))
  else if begins ["ovs-vsctl"; "--"; "add-br"] argv then makes (bridge_named (nth 3 argv ""))
  else if existsb (fun p => begins p argv) removals then removes
  else changes.

Definition class (c : sys) : effect :=
  match c with
  | Cmd argv _ => effect_of argv
  | Lstat _ | Hash _ | ReadStat _ | ReadExe _ | ReadFile _ | StatPath _ | OpenDirectoryFd _ | Fstat _
  | Entries _ | FstatAt _ _ | OpenAt _ _ | Pread _ _ _ | Listing _ | Time | Monotonic | Now | Interrupted
  | Exists _ | Getenv _ | Sleep _ | Print _ | Log _ => looks
  | Save _ | Load _ => books
  | RunFor _ _ _ => removes              (** the containers of the graph *)
  | _ => changes
  end.

Abbreviation looking := (calls_only (fun c => class c = looks)).

(** Nothing is removed, and only this resource is made. *)
Definition only_makes (r : resource) (c : sys) : Prop :=
  class c = looks \/ class c = changes \/ class c = makes r.
Abbreviation making r := (calls_only (only_makes r)).

(** Nothing is made or removed. *)
Definition configures (c : sys) : Prop := class c = looks \/ class c = changes.
Abbreviation configuring := (calls_only configures).

Lemma calls_mono {A} (P Q : sys -> Prop) (p : Prog A) :
  (forall c, P c -> Q c) -> calls_only P p -> calls_only Q p.
Proof.
  intros H. induction p as [a|e|c k IH]; cbn; [done..|]. intros [Hc Hk]. split; [by apply H|].
  intros x. by apply IH.
Qed.

(** ** Operations of a class *)

Section class.
Context (P : sys -> Prop).
Abbreviation only := (calls_only P).

Lemma calls_run argv : P (Cmd argv "") -> only (run argv).
Proof.
  intros H. unfold run, checked. apply calls_and_then; [apply calls_and_then|].
  - by apply calls_call.
  - intros r. apply calls_of_result.
  - intros r. by destruct (c_output_truncated r).
Qed.

Lemma calls_succeeds argv : P (Cmd argv "") -> only (succeeds argv).
Proof. intros H. apply calls_and_then; [by apply calls_run|done]. Qed.
Lemma calls_shows argv test : P (Cmd argv "") -> only (shows argv test).
Proof. intros H. apply calls_and_then; [by apply calls_run|done]. Qed.
Lemma calls_and_also p q : only p -> only q -> only (and_also p q).
Proof. intros Hp Hq. apply calls_and_then; [done|]. by intros []. Qed.
Lemma calls_or_else p q : only p -> only q -> only (or_else p q).
Proof. intros Hp Hq. apply calls_and_then; [done|]. by intros []. Qed.
Lemma calls_negate p : only p -> only (negate p).
Proof. intros Hp. by apply calls_and_then. Qed.
Lemma calls_gives p v : only p -> only (gives p v).
Proof. intros Hp. by apply calls_and_then. Qed.
Lemma calls_nonempty p : only p -> only (nonempty p).
Proof. intros Hp. by apply calls_and_then. Qed.
Lemma calls_all_of l : Forall only l -> only (all_of l).
Proof. induction 1; [done|]. by apply calls_and_also. Qed.
Lemma calls_demand p text : only p -> only (demand p text).
Proof. intros Hp. apply calls_and_then; [done|]. by intros []. Qed.
Lemma calls_refuse p text : only p -> only (refuse p text).
Proof. intros Hp. apply calls_and_then; [done|]. by intros []. Qed.
Lemma calls_perform argv text : P (Cmd argv "") -> only (perform argv text).
Proof. intros H. by apply calls_demand, calls_succeeds. Qed.
Lemma calls_every {A} (check : A -> Prog bool) l : (forall x, only (check x)) -> only (every check l).
Proof. intros H. induction l as [|x l IH]; [done|]. by apply calls_and_also. Qed.
Lemma calls_command argv input : P (Cmd argv input) -> only (command argv input).
Proof.
  intros H. unfold command, checked. apply calls_and_then; [apply calls_and_then|].
  - by apply calls_call.
  - intros r. apply calls_of_result.
  - intros r. by destruct (_ || _).
Qed.
Lemma calls_parsed parse_document p : only p -> only (parsed parse_document p).
Proof. intros Hp. apply calls_and_then; [done|]. intros text. apply calls_of_result. Qed.
End class.

(** What only looks may be done by the other classes. *)
Lemma looking_configures {A} (p : Prog A) : looking p -> configuring p.
Proof. apply calls_mono. by left. Qed.
Lemma configuring_makes {A} r (p : Prog A) : configuring p -> making r p.
Proof. apply calls_mono. unfold only_makes, configures. tauto. Qed.

(** A command whose first words decide its class *)
Ltac class_known :=
  solve [reflexivity | left; reflexivity | right; reflexivity | right; left; reflexivity
        | right; right; reflexivity].

Ltac class_step :=
  match goal with
  | |- calls_only _ (and_then _ _) => apply calls_and_then; [|intro]
  | |- calls_only _ (run _) => apply calls_run; class_known
  | |- calls_only _ (succeeds _) => apply calls_succeeds; class_known
  | |- calls_only _ (shows _ _) => apply calls_shows; class_known
  | |- calls_only _ (perform _ _) => apply calls_perform; class_known
  | |- calls_only _ (parsed _ _) => apply calls_parsed
  | |- calls_only _ (command _ _) => apply calls_command; class_known
  | |- calls_only _ (and_also _ _) => apply calls_and_also
  | |- calls_only _ (or_else _ _) => apply calls_or_else
  | |- calls_only _ (negate _) => apply calls_negate
  | |- calls_only _ (gives _ _) => apply calls_gives
  | |- calls_only _ (nonempty _) => apply calls_nonempty
  | |- calls_only _ (all_of _) => apply calls_all_of; repeat (apply Forall_cons; split); [..|apply Forall_nil; exact I]
  | |- calls_only _ (demand _ _) => apply calls_demand
  | |- calls_only _ (refuse _ _) => apply calls_refuse
  | |- calls_only _ (every _ _) => apply calls_every; intros
  | |- calls_only _ (catch _ _) => apply calls_catch; [|intro]
  | |- calls_only _ (attempt _) => apply calls_attempt
  | |- calls_only _ (for_each_in _ _ _) => apply calls_for_each; intros
  | |- calls_only _ (call _) => apply calls_call; class_known
  | |- calls_only _ (sys_call _) => apply calls_call; class_known
  | |- calls_only _ (checked _) => apply calls_and_then; [|intro]
  | |- calls_only _ (of_result _) => apply calls_of_result
  | |- calls_only _ (throw _) => exact I
  | |- calls_only _ (Ret _) => exact I
  | |- calls_only _ (Fail _) => exact I
  | |- calls_only _ _ => solve [auto with host nocore]
  | |- making _ _ => solve [apply configuring_makes; auto with host nocore
                           | apply configuring_makes, looking_configures; auto with host nocore]
  | |- configuring _ => solve [apply looking_configures; auto with host nocore]
  | |- calls_only _ (match ?x with _ => _ end) => destruct x
  | |- calls_only _ (let '(_, _) := ?x in _) => destruct x
  end.
Ltac class_prog := cbv zeta; repeat (class_step; cbv beta zeta).

Create HintDb host.

(** ** What only looks *)

Lemma looking_ifindex name : looking (link_ifindex name).
Proof. unfold link_ifindex. class_prog. Qed.
Lemma looking_peer_ifindex name : looking (link_peer_ifindex name).
Proof. unfold link_peer_ifindex. class_prog. Qed.
Lemma looking_alias name : looking (link_alias name).
Proof. unfold link_alias. class_prog. Qed.
#[export] Hint Resolve looking_ifindex looking_peer_ifindex looking_alias : host.

Lemma looking_exists name : looking (link_exists name).
Proof. unfold link_exists. class_prog. Qed.
Lemma looking_link_is name index : looking (link_is name index).
Proof. unfold link_is. class_prog. Qed.
#[export] Hint Resolve looking_exists looking_link_is : host.

Lemma looking_ovs_get table record column : looking (ovs_get table record column).
Proof. unfold ovs_get. class_prog. Qed.
#[export] Hint Resolve looking_ovs_get : host.

Lemma looking_bridge_get name column : looking (bridge_get name column).
Proof. apply looking_ovs_get. Qed.
Lemma looking_port name : looking (ovs_port name).
Proof. apply looking_ovs_get. Qed.
Lemma looking_interface name : looking (ovs_interface name).
Proof. apply looking_ovs_get. Qed.
Lemma looking_find table column value token : looking (ovs_find_uuid table column value token).
Proof. unfold ovs_find_uuid. class_prog. Qed.
Lemma looking_bridge_exists name : looking (bridge_exists name).
Proof. unfold bridge_exists. class_prog. Qed.
Lemma looking_mirrors l : looking (query_mirrors l).
Proof. unfold query_mirrors. class_prog. Qed.
#[export] Hint Resolve looking_bridge_get looking_port looking_interface looking_find
  looking_bridge_exists looking_mirrors : host.

Lemma looking_mirror e s : looking (mirror_absent_or_owned e s).
Proof. unfold mirror_absent_or_owned. class_prog. Qed.
Lemma looking_internal b : looking (internal_port b).
Proof. unfold internal_port. class_prog. Qed.
#[export] Hint Resolve looking_mirror looking_internal : host.

Lemma looking_bridge_owned b s : looking (bridge_owned b s).
Proof. unfold bridge_owned. class_prog. Qed.
Lemma looking_expected_ports b s l : forall ports, looking (expected_ports b s l ports).
Proof.
  induction l as [|e l IH]; intros ports; cbn [expected_ports]; [done|].
  destruct (find_expected s _); [|done]. destruct (String.eqb _ b); [|done].
  apply calls_and_then; [auto with host|]. intros u. apply IH.
Qed.
#[export] Hint Resolve looking_bridge_owned looking_expected_ports : host.

Lemma looking_complete b s : looking (bridge_complete_set_owned b s).
Proof. unfold bridge_complete_set_owned. class_prog. Qed.
Lemma looking_vlan e r : looking (endpoint_vlan_matches e r).
Proof. unfold endpoint_vlan_matches. class_prog. Qed.
Lemma looking_inode name : looking (namespace_inode name).
Proof. unfold namespace_inode. class_prog. Qed.
#[export] Hint Resolve looking_complete looking_vlan looking_inode : host.

Lemma looking_namespace_owned n s : looking (namespace_owned n s).
Proof. unfold namespace_owned. class_prog. Qed.
Lemma looking_namespace_exists name : looking (namespace_exists name).
Proof. unfold namespace_exists. class_prog. Qed.
#[export] Hint Resolve looking_namespace_owned looking_namespace_exists : host.

Lemma looking_stoul text wrong : looking (stoul_all text wrong).
Proof. unfold stoul_all. destruct (stoul text) as [[v rest]|]; [|done]. by destruct (_ || _). Qed.
#[export] Hint Resolve looking_stoul : host.

Lemma looking_resolve config owner : looking (resolve_container config owner).
Proof. unfold resolve_container. class_prog. Qed.
#[export] Hint Resolve looking_resolve : host.

Lemma looking_resolve_owned config owner s : looking (resolve_owned_container config owner s).
Proof. unfold resolve_owned_container. class_prog. Qed.
#[export] Hint Resolve looking_resolve_owned : host.

Lemma looking_ovs_owned e s : looking (ovs_endpoint_owned e s).
Proof. unfold ovs_endpoint_owned. class_prog. Qed.
Lemma looking_host_owned e s : looking (host_endpoint_owned e s).
Proof. unfold host_endpoint_owned. class_prog. Qed.
Lemma looking_tap_owner e : looking (tap_owner_matches e).
Proof. unfold tap_owner_matches. class_prog. Qed.
Lemma looking_names e : looking (endpoint_names_absent_or_recorded e).
Proof. unfold endpoint_names_absent_or_recorded. class_prog. Qed.
Lemma looking_mirror_peer e r s config : looking (mirror_peer_owned e r s config).
Proof. unfold mirror_peer_owned, in_container. class_prog. Qed.
#[export] Hint Resolve looking_ovs_owned looking_host_owned looking_tap_owner looking_names
  looking_mirror_peer : host.

Lemma looking_mirror_side e r s config : looking (mirror_side_owned e r s config).
Proof. unfold mirror_side_owned. class_prog. Qed.
Lemma looking_host_mtu e r : looking (host_mtu e r).
Proof. unfold host_mtu. class_prog. Qed.
#[export] Hint Resolve looking_mirror_side looking_host_mtu : host.

(** *** Commands inside a name space *)

Definition enters (prefix : list string) : Prop :=
  forall argv, inside argv = argv -> inside (prefix ++ argv) = argv.

Lemma enters_nothing : enters [].
Proof. by intros argv. Qed.
Lemma enters_container held : enters (in_container held []).
Proof. by intros argv _. Qed.
Lemma enters_namespace name : enters ["ip"; "netns"; "exec"; name].
Proof. by intros argv _. Qed.
#[export] Hint Resolve enters_nothing enters_container enters_namespace : host.

Lemma entered_looks prefix argv input :
  enters prefix -> inside argv = argv -> observing argv = true ->
  class (Cmd (prefix ++ argv) input) = looks.
Proof.
  intros Hp Ha Ho. cbn [class]. unfold effect_of. replace (observing _) with true; [done|].
  unfold observing in *. rewrite Hp by done. by rewrite Ha in Ho.
Qed.

Section prefix.
Context (prefix : list string) (Hp : enters prefix).

Lemma looking_addresses e : looking (addresses_shown prefix e).
Proof. unfold addresses_shown. apply calls_shows. by apply entered_looks. Qed.
Lemma looking_route e r : looking (route_shown prefix e r).
Proof.
  unfold route_shown. destruct (negb _); [done|]. apply calls_shows. by apply entered_looks.
Qed.
Lemma looking_offloads e : looking (jumbo_offloads_healthy e prefix).
Proof.
  unfold jumbo_offloads_healthy. destruct (negb _); [done|].
  apply calls_and_also; [class_prog|]. apply calls_shows. by apply entered_looks.
Qed.
End prefix.
#[export] Hint Resolve looking_addresses looking_route looking_offloads : host.

Lemma looking_link_index link index : looking (link_index link index).
Proof. unfold link_index. class_prog. Qed.
#[export] Hint Resolve looking_link_index : host.

Lemma looking_container_healthy e r s config : looking (container_endpoint_healthy e r s config).
Proof.
  unfold container_endpoint_healthy.
  apply calls_and_then; [auto with host|]. intros held.
  assert (looking (every (route_shown (in_container held []) e) (e_routes e))).
  { apply calls_every. intros. auto with host. }
  destruct (_ || _); [done|]. unfold in_container at 1. class_prog.
Qed.
Lemma looking_namespace_healthy e r s : looking (namespace_endpoint_healthy e r s).
Proof. unfold namespace_endpoint_healthy. class_prog. Qed.
Lemma looking_tap_healthy e r s : looking (tap_endpoint_healthy e r s).
Proof. unfold tap_endpoint_healthy. class_prog. Qed.
Lemma looking_mirror_healthy load_all c e r s config :
  looking (mirror_endpoint_healthy load_all c e r s config).
Proof. unfold mirror_endpoint_healthy. unfold in_container at 2. class_prog. Qed.
#[export] Hint Resolve looking_container_healthy looking_namespace_healthy looking_tap_healthy
  looking_mirror_healthy : host.

(** *** Captures, faults and policies *)

Lemma looking_inspect pid : looking (inspect_process pid).
Proof. unfold inspect_process. class_prog. Qed.
#[export] Hint Resolve looking_inspect : host.

Lemma looking_start pid : looking (process_start_time pid).
Proof. unfold process_start_time. class_prog. Qed.
Lemma looking_command_of pid : looking (process_command_of pid).
Proof. unfold process_command_of. class_prog. Qed.
Lemma looking_name_of pid : looking (process_name_of pid).
Proof. unfold process_name_of. class_prog. Qed.
#[export] Hint Resolve looking_start looking_command_of looking_name_of : host.

Lemma looking_process_owned pid start marker : looking (process_owned pid start marker).
Proof. unfold process_owned. class_prog. Qed.
Lemma looking_timer_owned pid start : looking (timer_owned pid start).
Proof. unfold timer_owned. class_prog. Qed.
Lemma looking_gone pid : looking (process_gone pid).
Proof. unfold process_gone. class_prog. Qed.
#[export] Hint Resolve looking_process_owned looking_timer_owned looking_gone : host.

Lemma looking_still pid start kind : looking (still_owned pid start kind).
Proof. destruct kind; [apply looking_process_owned|apply looking_timer_owned]. Qed.
Lemma looking_await_gone n pid : looking (await_gone n pid).
Proof. induction n as [|n IH]; cbn [await_gone]; class_prog. Qed.
#[export] Hint Resolve looking_still looking_await_gone : host.

Lemma looking_session x : looking (open_session x).
Proof. unfold open_session. class_prog. Qed.
#[export] Hint Resolve looking_session : host.

Lemma looking_directory x : looking (directory_identity_matches x).
Proof. unfold directory_identity_matches. class_prog. Qed.
Lemma looking_inspect_files d ro names : forall files, looking (inspect_files d ro names files).
Proof.
  induction names as [|n names IH]; intros files; cbn [inspect_files]; [done|]. class_prog.
Qed.
#[export] Hint Resolve looking_directory looking_inspect_files : host.

Lemma looking_session_files d ro : looking (inspect_capture_session_files d ro).
Proof. unfold inspect_capture_session_files. class_prog. Qed.
Lemma looking_count x d maximum names : forall n, looking (count_files x d maximum names n).
Proof.
  induction names as [|name names IH]; intros n; cbn [count_files]; [done|].
  class_prog.
Qed.
#[export] Hint Resolve looking_session_files looking_count : host.

Lemma looking_file_count x maximum : looking (capture_file_count x maximum).
Proof. unfold capture_file_count. class_prog. Qed.
#[export] Hint Resolve looking_file_count : host.

Lemma looking_capture_healthy e x : looking (capture_healthy e x).
Proof. unfold capture_healthy. class_prog. Qed.
Lemma looking_await_section n x maximum : looking (await_section n x maximum).
Proof. induction n as [|n IH]; cbn [await_section]; class_prog. Qed.
#[export] Hint Resolve looking_capture_healthy looking_await_section : host.

Lemma looking_published x maximum : looking (capture_published x maximum).
Proof. unfold capture_published. class_prog. Qed.
Lemma looking_known_again x fd : looking (known_again x fd).
Proof. unfold known_again. class_prog. Qed.
#[export] Hint Resolve looking_published looking_known_again : host.

Lemma looking_boot : looking boot_identity.
Proof. unfold boot_identity. class_prog. Qed.
Lemma looking_monotonic : looking monotonic_nanoseconds.
Proof. unfold monotonic_nanoseconds. class_prog. Qed.
Lemma looking_qdisc interface : looking (qdisc_state interface).
Proof. unfold qdisc_state. class_prog. Qed.
#[export] Hint Resolve looking_boot looking_monotonic looking_qdisc : host.

Lemma looking_elapsed f : looking (fault_deadline_elapsed f).
Proof. unfold fault_deadline_elapsed. class_prog. Qed.
#[export] Hint Resolve looking_elapsed : host.
Lemma looking_fault_healthy f : looking (fault_healthy f).
Proof. unfold fault_healthy. class_prog. Qed.
Lemma looking_await_timer n pid : forall start, looking (await_timer n pid start).
Proof. induction n as [|n IH]; intros start; cbn [await_timer]; class_prog. Qed.
#[export] Hint Resolve looking_fault_healthy looking_await_timer : host.

Section policy.
Context (parse_document : string -> result Value) (to_chars : SpecFloat.spec_float -> string)
        (sha256 : string -> string).

Lemma looking_nft argv :
  class (Cmd argv "") = looks -> looking (nft_policy_identity parse_document to_chars sha256 argv).
Proof.
  intros H. unfold nft_policy_identity. apply calls_and_then.
  - by apply calls_parsed, calls_command.
  - intros v. class_prog.
Qed.

Lemma looking_inspect_container id : looking (Management.inspect parse_document id).
Proof.
  unfold Management.inspect. apply calls_and_then; [|intros v; apply calls_of_result].
  class_prog.
Qed.
Hint Resolve looking_inspect_container : host.

Lemma looking_running id : looking (is_running parse_document id).
Proof. unfold is_running. class_prog. Qed.
Hint Resolve looking_running : host.

Lemma looking_policy_hash held : looking (policy_hash parse_document to_chars sha256 held).
Proof. apply looking_nft. reflexivity. Qed.
Hint Resolve looking_policy_hash : host.

Lemma looking_policies config s absent unavailable l : forall seen,
  looking (policies_match parse_document to_chars sha256 config s absent unavailable seen l).
Proof.
  induction l as [|e l IH]; intros seen; cbn [policies_match]; [done|].
  destruct (_ || _); [apply IH|]. apply calls_and_also; [|apply IH].
  unfold policy_matches. class_prog.
Qed.

Lemma looking_policy config s absent unavailable :
  looking (management_policy_matches parse_document to_chars sha256 config s absent unavailable).
Proof. apply looking_policies. Qed.
End policy.
#[export] Hint Resolve looking_nft looking_policy looking_inspect_container looking_policy_hash : host.
End HostProofs.

(** * The life cycle: what its steps do

    The steps of Lifecycle.v by the class of their calls ([HostProofs]). *)

From Stdlib Require Import ZArith Lia Strings.Byte Strings.Ascii Strings.String Floats.SpecFloat.
From stdpp Require Import base option gmap strings list.
From S2P Require Import Prelude ConfigValue Text ResolvedNetwork Yaml OwnershipState Effects Process.
From S2P Require Import Host Ovs Endpoint EndpointCreate Capture Fault Management LifecyclePlan.
From S2P Require Import LifecycleStatus LifecycleCreate Lifecycle.

Module LifecycleProofs.
Import Text ResolvedNetwork OwnershipState Effects Process.
Import Host Ovs Endpoint EndpointCreate Capture Fault Management LifecyclePlan.
Import LifecycleStatus LifecycleCreate Lifecycle HostProofs.
Local Open Scope Z_scope.
#[local] Open Scope prog_scope.

(** ** Looking *)

Lemma looking_print text : looking (print text).
Proof. unfold print. class_prog. Qed.
Lemma looking_log text : looking (log text).
Proof. unfold log. class_prog. Qed.
Lemma looking_root root : looking (inspect_existing_state_root root).
Proof. unfold inspect_existing_state_root. class_prog. Qed.
Lemma looking_entry path : looking (path_entry_exists path).
Proof. unfold path_entry_exists. class_prog. Qed.
Lemma looking_checkpoint context : looking (checkpoint context).
Proof. unfold checkpoint. class_prog. Qed.
#[export] Hint Resolve looking_print looking_log looking_root looking_entry looking_checkpoint : host.

Lemma looking_discover_bridge name : looking (discover_bridge name).
Proof. unfold discover_bridge. class_prog. Qed.
Lemma looking_bridge_marked name s : looking (bridge_marked name s).
Proof. unfold bridge_marked. class_prog. Qed.
Lemma looking_traces e : looking (endpoint_traces e).
Proof. unfold endpoint_traces. class_prog. Qed.
Lemma looking_discovered s e i p uuid : looking (discovered_endpoint s e i p uuid).
Proof. unfold discovered_endpoint. class_prog. Qed.
Lemma looking_endpoint_marked s e uuid : looking (endpoint_marked s e uuid).
Proof. unfold endpoint_marked. class_prog. Qed.
Lemma looking_recovered_peer s e i : looking (recovered_peer s e i).
Proof. unfold recovered_peer. class_prog. Qed.
#[export] Hint Resolve looking_discover_bridge looking_bridge_marked looking_traces looking_discovered
  looking_endpoint_marked looking_recovered_peer : host.

Lemma looking_peer_marked s e r : looking (peer_marked s e r).
Proof. unfold peer_marked. class_prog. Qed.
Lemma looking_present name : looking (link_present name).
Proof. apply looking_exists. Qed.
#[export] Hint Resolve looking_peer_marked looking_present : host.

Section lifecycle.
Context (load_all : string -> option (list Yaml.node)) (c : Yaml.Conversions)
        (parse_document : string -> result Value) (to_chars : spec_float -> string)
        (sha256 : string -> string) (show_double : spec_float -> string).

Lemma looking_rules item : looking (rules_unchanged parse_document to_chars sha256 item).
Proof.
  unfold rules_unchanged. apply calls_or_else; [done|]. apply calls_gives, looking_nft. reflexivity.
Qed.
Hint Resolve looking_rules : host.

Lemma looking_unchanged config s : looking (everything_unchanged parse_document to_chars sha256 config s).
Proof.
  unfold everything_unchanged, bridge_unchanged, endpoint_unchanged, namespace_unchanged,
    capture_unchanged, fault_unchanged.
  class_prog.
Qed.

Lemma looking_endpoint_healthy config s e r : looking (endpoint_healthy load_all c config s e r).
Proof. unfold endpoint_healthy. class_prog. Qed.
Hint Resolve looking_endpoint_healthy : host.

Lemma looking_endpoint_status config s l e r : looking (endpoint_status load_all c config s l e r).
Proof. unfold endpoint_status. class_prog. Qed.
Hint Resolve looking_endpoint_status : host.

Lemma looking_await_healthy n context config s e r :
  looking (await_healthy load_all c n context config s e r).
Proof. induction n as [|n IH]; cbn [await_healthy]; class_prog. Qed.
Hint Resolve looking_await_healthy : host.

Lemma looking_jumbo context config s r : looking (require_jumbo load_all c context config s r).
Proof. unfold require_jumbo. class_prog. Qed.

Lemma looking_plan config hash path : looking (create_plan show_double config hash path).
Proof. unfold create_plan, acl_plans. class_prog. Qed.
End lifecycle.
#[export] Hint Resolve looking_rules looking_unchanged looking_endpoint_healthy looking_endpoint_status
  looking_jumbo looking_plan : host.

Lemma looking_faults_cleared s : looking (faults_cleared s).
Proof. unfold faults_cleared. class_prog. Qed.
Lemma looking_captures_stopped s : looking (captures_stopped s).
Proof. unfold captures_stopped. class_prog. Qed.
#[export] Hint Resolve looking_faults_cleared looking_captures_stopped : host.

(** *** The records before the first resource *)

Lemma looking_collision e pid : looking (check_endpoint_collision e pid).
Proof. unfold check_endpoint_collision. class_prog. Qed.
Lemma looking_container_of config s owner held : looking (container_of config s owner held).
Proof. unfold container_of. class_prog. Qed.
Lemma looking_port_known name : looking (port_known name).
Proof. unfold port_known. class_prog. Qed.
#[export] Hint Resolve looking_collision looking_container_of looking_port_known : host.

Lemma looking_expect config s inode a held : looking (expect_attachment config s inode a held).
Proof.
  unfold expect_attachment, expect_container, expect_namespace, expect_tap, expect_mirror. class_prog.
Qed.
#[export] Hint Resolve looking_expect : host.

(** ** Configuring *)

Lemma configuring_jumbo e : configuring (configure_jumbo_offloads e).
Proof. unfold configure_jumbo_offloads. class_prog. Qed.
Lemma configuring_vlan e : configuring (configure_endpoint_vlan e).
Proof. unfold configure_endpoint_vlan. class_prog. Qed.
#[export] Hint Resolve configuring_jumbo configuring_vlan : host.

Lemma configuring_flows config s : configuring (install_profile_flows config s).
Proof.
  unfold install_profile_flows, attachment_flows, switch_flows, add_flow, resolve_ofport. class_prog.
Qed.
Lemma configuring_indices e text : configuring (veth_indices e text).
Proof. unfold veth_indices. class_prog. Qed.
Lemma configuring_mark e s : configuring (mark_veth e s).
Proof. unfold mark_veth, mark_alias, set_mtu. class_prog. Qed.
Lemma looking_records e : looking (port_records e).
Proof. unfold port_records. class_prog. Qed.
#[export] Hint Resolve configuring_flows configuring_indices configuring_mark looking_records : host.

Lemma looking_captured e text : looking (captured_records e text).
Proof. unfold captured_records. class_prog. Qed.
Lemma configuring_enable e text : configuring (enable_host e text).
Proof. unfold enable_host. class_prog. Qed.
Lemma configuring_container pid e text :
  configuring (configure_target ["nsenter"; "-t"; pid; "-n"; "--"] e text).
Proof. unfold configure_target. class_prog. Qed.
Lemma configuring_namespace name e text :
  configuring (configure_target ["ip"; "netns"; "exec"; name] e text).
Proof. unfold configure_target. class_prog. Qed.
#[export] Hint Resolve looking_captured configuring_enable configuring_container configuring_namespace
  : host.

Lemma configuring_routes r : configuring (install_routes r).
Proof. unfold install_routes, route_command. class_prog. Qed.
Lemma configuring_policies r : configuring (install_policies r).
Proof. unfold install_policies, nft. class_prog. Qed.
#[export] Hint Resolve configuring_routes configuring_policies : host.

Section management.
Context (parse_document : string -> result Value) (to_chars : spec_float -> string)
        (sha256 : string -> string).

Lemma configuring_owner config s platform owner :
  configuring (install_owner parse_document to_chars sha256 config s platform owner).
Proof.
  unfold install_owner. class_prog.
Qed.
End management.
#[export] Hint Resolve configuring_owner : host.

(** ** Making *)

Lemma making_container e pid s : making (interface_named (e_host_interface e)) (create_endpoint e pid s).
Proof. unfold create_endpoint. class_prog. Qed.
Lemma making_namespace_endpoint e s :
  making (interface_named (e_host_interface e)) (create_namespace_endpoint e s).
Proof. unfold create_namespace_endpoint. class_prog. Qed.
Lemma making_tap e s : making (interface_named (e_host_interface e)) (create_tap_endpoint e s).
Proof. unfold create_tap_endpoint, mark_alias, set_mtu. class_prog. Qed.
Lemma making_mirror e s pid :
  making (interface_named (e_host_interface e)) (create_mirror_endpoint e s pid).
Proof. unfold create_mirror_endpoint, mark_alias, set_mtu. class_prog. Qed.
#[export] Hint Resolve making_container making_namespace_endpoint making_tap making_mirror : host.

Lemma making_kind held e s : making (interface_named (e_host_interface e)) (create_kind held e s).
Proof. unfold create_kind. class_prog. Qed.
Lemma making_namespace r s : making (namespace_named (namespace_name r)) (create_namespace r s).
Proof. unfold create_namespace. class_prog. Qed.
End LifecycleProofs.
