(* ===== verification/RemovalProofs.v ===== *)
(** * Removing behind an identity

    What a run has shown when it removes an interface, a name space or a record
    of Open vSwitch: the mark of the owner, read right before, or a condition of
    the transaction itself. *)

From Stdlib Require Import ZArith Lia Strings.Byte Strings.Ascii Strings.String Floats.SpecFloat.
From stdpp Require Import base option gmap strings list.
From S2P Require Import Prelude ConfigValue Text ResolvedNetwork Yaml OwnershipState Effects Process.
From S2P Require Import ProcessProofs.
From S2P Require Import Host Ovs Endpoint EndpointCreate Capture Fault Management LifecyclePlan.
From S2P Require Import LifecycleStatus LifecycleCreate Lifecycle HostProofs.

Module RemovalProofs.
Import Text ResolvedNetwork OwnershipState Effects Process ProcessProofs.
Import Host Ovs Endpoint EndpointCreate Capture Fault Management LifecyclePlan.
Import LifecycleStatus LifecycleCreate Lifecycle HostProofs LifecycleProofs.
Local Open Scope Z_scope.
#[local] Open Scope prog_scope.

Abbreviation event c x := (Effects.Event (C := sys) (R := answer) c x).

(** ** Evidence *)

(** The index and the alias of an interface were the last that was read, and
    the alias has the owner's token. *)
Definition link_marked (token name : string) (h : list Event) : Prop :=
  exists id alias index rest,
    h = event (ReadFile (interface_file name "ifalias")) alias
        :: event (ReadFile (interface_file name "ifindex")) index :: rest /\
    first_line alias = "graphx:" +:+ token +:+ ":" +:+ id +:+ ":host" /\ is_Some (stream_u32 index).

(** The name space has an inode, and its loopback interface has the owner's
    token: the last two commands. *)
Definition namespace_marked (token name : string) (h : list Event) : Prop :=
  exists link inode z rest,
    h = event (Cmd ["ip"; "netns"; "exec"; name; "ip"; "-d"; "link"; "show"; "dev"; "lo"] "") (Ok link)
        :: event (Cmd ["ip"; "netns"; "exec"; name; "stat"; "-Lc"; "%i"; "/proc/self/ns/net"] "") (Ok inode)
        :: rest /\
    c_status link = 0 /\ has ("graphx:" +:+ token +:+ ":netns:" +:+ name) (c_output link) = true /\
    c_status inode = 0 /\ stoul (c_output inode) = Some (z, "").

(** The device was shown as a tap device behind the mark of its interface. *)
Definition tap_marked (token name : string) (h : list Event) : Prop :=
  exists device out rest,
    h = event (Cmd ["ip"; "tuntap"; "show"; "dev"; device] "") (Ok out) :: rest /\
    c_status out = 0 /\ has " tap " (c_output out) = true /\ link_marked token name rest.

(** The transaction waits until the record has the owner's token, and what it
    destroys at its end is that record. *)
Definition waits_for_owner (token : string) (argv : list string) : Prop :=
  exists table uuid conditions rest,
    argv = ["ovs-vsctl"; "--timeout=2"; "--"; "wait-until"; table; uuid] ++ conditions ++ "--" :: rest /\
    "external_ids:graphx_owner=" +:+ token ∈ conditions /\
    exists before, rest = before ++ ["destroy"; table; uuid].

Definition evidence (token : string) (argv : list string) (h : list Event) : Prop :=
  (exists name, argv = ["ip"; "link"; "delete"; "dev"; name] /\ link_marked token name h)
  \/ (exists name, argv = ["ip"; "tuntap"; "delete"; "dev"; name; "mode"; "tap"] /\ tap_marked token name h)
  \/ (exists name, argv = ["ip"; "netns"; "delete"; name] /\ namespace_marked token name h)
  \/ waits_for_owner token argv
  \/ (exists interface, argv = delete_qdisc interface).

Definition guarded (token : string) (h : list Event) (c : sys) : Prop :=
  match c with
  | Cmd argv _ => effect_of argv = removes -> evidence token argv h
  | _ => True
  end.

Definition not_removing (c : sys) : Prop := match class c with removes => False | _ => True end.

Lemma guarded_not_removing token h c : not_removing c -> guarded token h c.
Proof.
  destruct c; try done. cbn. unfold not_removing. cbn. intros H He. by rewrite He in H.
Qed.

(** ** Looking *)

Lemma wp_looking {A} (allowed : list Event -> sys -> Prop) (p : Prog A) h Q :
  (forall h c, class c = looks -> allowed h c) ->
  looking p -> wp any p h Q -> wp allowed p h Q.
Proof.
  intros Hw Hp HQ.
  assert (wp (fun _ c => class c = looks) p h (fun _ _ => True)) as Hl.
  { apply (wp_calls (fun c => class c = looks) _ (fun _ => True)); [done| |done]. by intros. }
  pose proof (wp_and _ _ _ _ _ _ Hl HQ) as H.
  eapply wp_weaken; [|eapply wp_mono; [|exact H]]; cbn.
  - intros h' c [Hc _]. by apply Hw.
  - by intros h' r [_ Hr].
Qed.

Lemma guarded_looks token h c : class c = looks -> guarded token h c.
Proof. intros H. apply guarded_not_removing. unfold not_removing. by rewrite H. Qed.

Lemma wp_and_also allowed (p q : Prog bool) h (Q : list Event -> result bool -> Prop) :
  wp allowed p h (fun h r => match r with
                             | Ok true => wp allowed q h Q
                             | Ok false => Q h (Ok false)
                             | Throw e => Q h (Throw e)
                             end) ->
  wp allowed (and_also p q) h Q.
Proof. intros H. apply wp_and_then. eapply wp_mono; [|exact H]. by intros h' [[]|e]. Qed.


(** ** The checks before a removal *)

Lemma run_spec argv h :
  wp any (run argv) h (fun h' r =>
    match r with
    | Ok r => exists x, h' = event (Cmd argv "") (Ok x) :: h /\ r = (c_status x, c_output x)
    | Throw _ => True
    end).
Proof.
  split; [done|]. intros [x|e]; [|done]. cbn. destruct (c_output_truncated x); [done|]. by exists x.
Qed.

Lemma shows_spec argv test h :
  wp any (shows argv test) h (fun h' r =>
    r = Ok true -> exists x, h' = event (Cmd argv "") (Ok x) :: h /\ c_status x = 0 /\
                             test (c_output x) = true).
Proof.
  apply wp_and_then. eapply wp_mono; [|apply run_spec].
  intros h' [r|e]; [|done]. intros (x & -> & ->) [= H]. reflect_bools. by exists x.
Qed.

Lemma host_owned_spec e s h :
  wp any (host_endpoint_owned e s) h (fun h' r =>
    r = Ok true -> link_marked (owner_token s) (r_name e) h').
Proof.
  split; [done|]. intros index. cbn.
  destruct (stream_u32 index) as [z|] eqn:Hz; [|done]. destruct (r_ifindex e); [|done].
  destruct (z =? _); [|done]. split; [done|]. intros alias. cbn. intros [= Ha]. reflect_bools.
  exists (r_attachment_id e), alias, index, h. split; [done|]. rewrite Hz. by split.
Qed.

Lemma namespace_owned_spec n s h :
  wp any (namespace_owned n s) h (fun h' r =>
    r = Ok true -> namespace_marked (owner_token s) (r_name n) h').
Proof.
  unfold namespace_owned, namespace_inode. apply wp_and_then, wp_and_then.
  eapply wp_mono; [|apply run_spec]. intros h1 [r|e]; [|done]. intros (inode & -> & ->). cbn [and_then wp fst snd].
  destruct (Z.eqb_spec (c_status inode) 0) as [H0|]; [|done].
  destruct (stoul (c_output inode)) as [[z [|]]|] eqn:Hz; [|done..].
  destruct (z =? 0); [done|]. destruct (r_namespace_inode n); [|done]. destruct (z =? _); [|done].
  eapply wp_mono; [|apply shows_spec]. intros h2 r Hr ->.
  destruct (Hr eq_refl) as (link & -> & Hs & Ha). by exists link, inode, z, h.
Qed.

Lemma tap_owner_spec e h token name :
  link_marked token name h ->
  wp any (tap_owner_matches e) h (fun h' r => r = Ok true -> tap_marked token name h').
Proof.
  intros Hm. eapply wp_mono; [|apply shows_spec]. intros h' r Hr ->.
  destruct (Hr eq_refl) as (out & -> & H0 & Ht). reflect_bools.
  by exists (e_host_interface e), out, h.
Qed.

(** ** The removals *)

Section token.
Context (token : string).
Abbreviation safe p h := (wp (guarded token) p h (fun _ _ => True)).

Lemma safe_calls {A} (p : Prog A) h : calls_only not_removing p -> safe p h.
Proof.
  intros Hp. apply (wp_calls not_removing _ (fun _ => True)); [done| |done].
  intros h' c _ Hc. split; [by apply guarded_not_removing|done].
Qed.

Lemma safe_looking {A} (p : Prog A) h : looking p -> safe p h.
Proof.
  intros Hp. apply safe_calls. eapply calls_mono; [|exact Hp]. intros c Hc. unfold not_removing.
  by rewrite Hc.
Qed.

Lemma safe_and_then {A B} (p : Prog A) (f : A -> Prog B) h :
  safe p h -> (forall a h, safe (f a) h) -> safe (and_then p f) h.
Proof.
  intros Hp Hf. apply wp_and_then. eapply wp_mono; [|exact Hp]. intros h' [a|e]; [|done].
  intros _. apply Hf.
Qed.

Lemma safe_and_also (p q : Prog bool) h : safe p h -> (forall h, safe q h) -> safe (and_also p q) h.
Proof. intros Hp Hq. apply safe_and_then; [done|]. by intros [] h'. Qed.

(** A check that shows the evidence of the next step *)
Lemma safe_checked (p q : Prog bool) h (E : list Event -> Prop) :
  looking p -> wp any p h (fun h r => r = Ok true -> E h) -> (forall h, E h -> safe q h) ->
  safe (and_also p q) h.
Proof.
  intros Hl Hp Hq. apply wp_and_also. apply wp_looking; [apply guarded_looks|done|].
  eapply wp_mono; [|exact Hp]. intros h' [[]|e] HE; [|done..]. by apply Hq, HE.
Qed.

Lemma safe_succeeds argv h : evidence token argv h -> safe (succeeds argv) h.
Proof.
  intros HE. split; [by intros _|]. intros [x|e]; [|done]. cbn. by destruct (c_output_truncated x).
Qed.

Context (s : OwnershipState) (Hs : owner_token s = token).

Lemma safe_namespace n h : safe (delete_owned_namespace n s) h.
Proof.
  unfold delete_owned_namespace. apply safe_and_then; [apply safe_looking; auto with host|].
  intros [] h1; [|done]. cbn [negb]. eapply safe_checked; [auto with host|apply namespace_owned_spec|].
  intros h2 Hm. rewrite Hs in Hm. apply safe_succeeds. right; right; left. by exists (r_name n).
Qed.

Lemma safe_bridge b h : safe (delete_owned_bridge b s) h.
Proof.
  unfold delete_owned_bridge. apply safe_and_then; [apply safe_looking; auto with host|].
  intros port h1. destruct (is_empty port); [done|].
  apply safe_and_also; [apply safe_looking, calls_gives; auto with host|]. intros h2.
  apply safe_and_also; [apply safe_looking, calls_gives; auto with host|]. intros h3.
  apply safe_succeeds. do 3 right. left. rewrite <-Hs.
  eexists "Bridge", _, (owner_fields s ++ ["ports=[" +:+ port +:+ "]"]), _.
  split; [unfold destroy_bridge; by rewrite <-(app_assoc (owner_fields s))|].
  split; [set_solver|]. eexists ["remove"; "Open_vSwitch"; "."; "bridges"; _; "--"]. done.
Qed.

Lemma safe_link e r h : safe (delete_link e r s) h.
Proof.
  unfold delete_link. apply safe_and_then; [apply safe_looking; auto with host|].
  intros [] h1; [|done]. cbn [negb]. eapply safe_checked; [auto with host|apply host_owned_spec|].
  intros h2 Hm. rewrite Hs in Hm.
  destruct (e_kind e); try (apply safe_succeeds; left; by exists (r_name r)).
  eapply safe_checked; [auto with host|by eapply tap_owner_spec|]. intros h3 Ht.
  destruct (String.eqb _ _); [|done]. apply safe_succeeds. right; left. by exists (r_name r).
Qed.

Lemma destroy_mirror_waits e bridge : waits_for_owner token (destroy_mirror e s bridge).
Proof.
  rewrite <-Hs. eexists "Mirror", _, (attachment_fields e s
    ++ ["external_ids:graphx_graph=" +:+ graph_id s; "external_ids:graphx_config_hash=" +:+ config_hash s]), _.
  split; [unfold destroy_mirror; by rewrite <-(app_assoc (attachment_fields e s))|].
  split; [unfold attachment_fields; set_solver|]. eexists ["remove"; "Bridge"; _; "mirrors"; _; "--"]. done.
Qed.

Lemma destroy_port_waits e bridge : waits_for_owner token (destroy_port e s bridge).
Proof.
  rewrite <-Hs. eexists "Port", _, (attachment_fields e s
    ++ ["external_ids:graphx_config_hash=" +:+ config_hash s; "external_ids:graphx_graph=" +:+ graph_id s]), _.
  split; [unfold destroy_port; by rewrite <-(app_assoc (attachment_fields e s))|].
  split; [unfold attachment_fields; set_solver|].
  eexists ["remove"; "Bridge"; _; "ports"; _; "--"; "destroy"; "Interface"; _; "--"]. done.
Qed.

Lemma safe_endpoint r config h : safe (delete_owned_endpoint r s config) h.
Proof.
  unfold delete_owned_endpoint. apply safe_and_then; [apply safe_looking, calls_of_result|].
  intros e h0. apply safe_and_also; [apply safe_looking; class_prog|]. intros h1.
  apply safe_and_also; [apply safe_looking; auto with host|]. intros h2.
  apply safe_and_also; [apply safe_looking; auto with host|]. intros h3.
  destruct (List.find _ (bridges s)) as [b|]; [|done].
  apply safe_and_also.
  { destruct (is_empty _); [done|]. apply safe_and_then; [apply safe_looking; auto with host|].
    intros uuid h4. destruct (String.eqb _ _); [|done].
    apply safe_succeeds. do 3 right. left. apply destroy_mirror_waits. }
  intros h4. apply safe_and_also; [|intros h5; apply safe_link].
  apply safe_and_then; [apply safe_looking; auto with host|]. intros uuid h5.
  destruct (String.eqb _ _); [|done].
  apply safe_and_also; [apply safe_looking; auto with host|]. intros h6.
  apply safe_succeeds. do 3 right. left. apply destroy_port_waits.
Qed.
End token.
End RemovalProofs.
