(* ===== verification/LifecycleSteps.v ===== *)
(** * The life cycle: what its steps keep

    A condition on the calls so far and on the ledger is kept by the creation
    of an infrastructure, by its rollback and by its removal, when the calls of
    each class and the changes of the ledger keep it. *)

From Stdlib Require Import ZArith Lia Strings.Byte Strings.Ascii Strings.String Floats.SpecFloat.
From stdpp Require Import base option gmap strings list.
From S2P Require Import Prelude ConfigValue Text ResolvedNetwork Yaml OwnershipState Effects Process.
From S2P Require Import ProcessProofs.
From S2P Require Import Host Ovs Endpoint EndpointCreate Capture Fault Management LifecyclePlan.
From S2P Require Import LifecycleStatus LifecycleCreate Lifecycle HostProofs.

Module LifecycleSteps.
Import Text ResolvedNetwork OwnershipState Effects Process ProcessProofs.
Import Host Ovs Endpoint EndpointCreate Capture Fault Management LifecyclePlan.
Import LifecycleStatus LifecycleCreate Lifecycle HostProofs LifecycleProofs.
Local Open Scope Z_scope.
#[local] Open Scope prog_scope.

Abbreviation event c x := (Effects.Event (C := sys) (R := answer) c x).

(** ** Routine calls *)

(** Calls that make no resource and remove nothing but a queueing discipline *)
Definition routine (c : sys) : Prop :=
  configures c \/ exists interface, c = Cmd (delete_qdisc interface) "".
Abbreviation routinely := (calls_only routine).

Lemma configuring_routine {A} (p : Prog A) : configuring p -> routinely p.
Proof. apply calls_mono. by left. Qed.
Lemma looking_routine {A} (p : Prog A) : looking p -> routinely p.
Proof. intros H. by apply configuring_routine, looking_configures. Qed.

Lemma routine_delete interface : routinely (succeeds (delete_qdisc interface)).
Proof. apply calls_succeeds. right. by exists interface. Qed.
Lemma routine_run interface : routinely (run (delete_qdisc interface)).
Proof. apply calls_run. right. by exists interface. Qed.
#[local] Hint Resolve routine_delete routine_run : host.

Ltac routine_known := left; class_known.
Ltac routine_step :=
  match goal with
  | |- routinely _ => solve [auto with host nocore]
  | |- routinely _ => solve [apply looking_routine; auto with host nocore]
  | |- routinely _ => solve [apply configuring_routine; auto with host nocore]
  | |- routinely (sys_call _) => apply calls_call; routine_known
  | |- routinely (command _ _) => apply calls_command; routine_known
  | |- calls_only _ _ => class_step
  end.
Ltac routine_prog := cbv zeta; repeat (routine_step; cbv beta zeta).

Lemma routine_stop pid start kind : routinely (stop_owned_process pid start kind).
Proof. unfold stop_owned_process. routine_prog. Qed.
#[local] Hint Resolve routine_stop : host.

Lemma routine_clear f : routinely (clear_fault f).
Proof. unfold clear_fault. routine_prog. Qed.
Lemma routine_withdraw f : routinely (withdraw_fault f).
Proof. unfold withdraw_fault. routine_prog. Qed.
Lemma routine_netem show_double x : routinely (apply_netem show_double x).
Proof. unfold apply_netem. routine_prog. apply calls_perform. left; class_known. Qed.
#[local] Hint Resolve routine_clear routine_withdraw routine_netem : host.

Lemma routine_seal fd : routinely (seal_capture_session_files fd).
Proof. unfold seal_capture_session_files, seal_file. routine_prog. Qed.
#[local] Hint Resolve routine_seal : host.
Lemma routine_stop_capture x : routinely (stop_capture x).
Proof. unfold stop_capture. routine_prog. Qed.
Lemma routine_failed x session e : routinely (capture_failed x session e).
Proof. unfold capture_failed. routine_prog. Qed.
#[local] Hint Resolve routine_stop_capture routine_failed : host.

Lemma routine_prune d : routinely (prune_expired_capture_sessions d).
Proof.
  unfold prune_expired_capture_sessions, prune_session, remove_session, file_unchanged. routine_prog.
Qed.
Lemma routine_tree d : routinely (ensure_real_directory_tree d).
Proof. unfold ensure_real_directory_tree, ensure_component. routine_prog. Qed.
#[local] Hint Resolve routine_prune routine_tree : host.
Lemma routine_session d s : routinely (prepare_session d s).
Proof. unfold prepare_session. routine_prog. Qed.
#[local] Hint Resolve routine_session : host.

Lemma routine_path path absent : routinely (safe_execution_path path absent).
Proof. unfold safe_execution_path, safe_component. routine_prog. Qed.
#[local] Hint Resolve routine_path : host.
Lemma routine_prepare o : routinely (prepare_process o).
Proof. unfold prepare_process. routine_prog. Qed.
Lemma routine_release pid : routinely (release_process pid).
Proof. unfold release_process. routine_prog. Qed.
#[local] Hint Resolve routine_prepare routine_release : host.

Lemma routine_exit {A} n : routinely (exit (A := A) n).
Proof. split; [left; by right|]. intros []. Qed.
#[local] Hint Resolve routine_exit : host.
Lemma routine_inject n : routinely (inject_test_interruption n).
Proof. unfold inject_test_interruption, injected. routine_prog. Qed.
#[local] Hint Resolve routine_inject : host.

(** ** Operations with a ledger *)

Ltac kept_step :=
  match goal with
  | |- kept _ _ (bind_state current _) => apply kept_current; intros ? ? ?
  | |- kept _ _ (bind_state _ _) => apply kept_bind; [|intro]
  | |- kept _ _ (catch_state _ _) => apply kept_catch; [|intro]
  | |- kept _ _ (returns _) => apply kept_returns
  | |- kept _ _ (raises _) => apply kept_raises
  | |- kept _ _ (raise _) => apply kept_raises
  | |- kept _ _ (for_each_state _ _) => apply kept_for_each; intros ? ?
  | |- kept _ _ (match ?x with _ => _ end) => destruct x
  | |- kept _ _ (let '(_, _) := ?x in _) => destruct x
  end.
Ltac kept_prog := cbv zeta; repeat (kept_step; cbv beta zeta).

(** *** Processes, captures and faults with any state *)

Section routine.
Context {S : Type} (allowed : list Event -> sys -> Prop) (K : list Event -> S -> Prop).
Context (HP : forall s h c, K h s -> routine c -> allowed h c /\ forall x, K (event c x :: h) s).

Lemma kept_routine {A} (p : Prog A) : routinely p -> kept allowed K (lift p).
Proof. apply kept_lift_calls. intros s h c. apply HP. Qed.

Lemma kept_looking {A} (p : Prog A) : looking p -> kept allowed K (lift p).
Proof. intros H. by apply kept_routine, looking_routine. Qed.

Lemma kept_start options (register : OwnedResourceIdentity -> stateful S unit) :
  (forall r, kept allowed K (register r)) -> kept allowed K (start_native_process options register).
Proof.
  intros Hr. unfold start_native_process. kept_prog; try apply Hr; apply kept_routine; routine_prog.
Qed.

Lemma kept_timer duration interface index qdisc (register : Z -> string -> stateful S unit) :
  (forall pid start, kept allowed K (register pid start)) ->
  kept allowed K (spawn_fault_timer duration interface index qdisc register).
Proof.
  intros Hr. unfold spawn_fault_timer. kept_prog; try apply Hr; apply kept_routine; routine_prog.
Qed.
End routine.

Section create.
Context {S : Type} (allowed : list Event -> sys -> Prop) (K : list Event -> S -> Prop).
Context (HP : forall s h c, K h s -> routine c -> allowed h c /\ forall x, K (event c x :: h) s).
Abbreviation below := (fun h s => K h s.2).

Lemma kept_create_capture (register : OwnedCapture -> stateful S unit) x state :
  (forall owned, kept allowed K (register owned)) -> kept allowed K (create_capture register x state).
Proof.
  intros Hr. unfold create_capture. kept_prog.
  - apply kept_routine; [done|]. auto with host.
  - apply kept_looking; [done|]. auto with host.
  - apply kept_with_local. kept_prog.
    + apply kept_start; [intros; by apply HP|]. intros r. unfold register_process. kept_prog.
      * apply kept_modify. done.
      * by apply kept_inner.
    + apply kept_looking; [intros; by apply HP|]. auto with host.
    + apply kept_routine; [intros; by apply HP|]. auto with host.
Qed.

Lemma kept_create_fault show_double (register : OwnedFault -> stateful S unit) x :
  (forall owned, kept allowed K (register owned)) ->
  kept allowed K (create_fault show_double register x).
Proof.
  intros Hr. unfold create_fault. kept_prog.
  - apply kept_routine; [done|]. auto with host.
  - apply kept_with_local. unfold start_timer. kept_prog; try (by apply kept_modify).
    + apply kept_looking; [intros; by apply HP|]. auto with host.
    + apply kept_looking; [intros; by apply HP|]. auto with host.
    + apply kept_timer; [intros; by apply HP|]. intros pid start. unfold register_timer. kept_prog.
      * by apply kept_modify.
      * by apply kept_inner.
    + apply kept_routine; [intros; by apply HP|]. auto with host.
Qed.
End create.

(** ** The resources a ledger expects *)

Definition expected_resources (s : OwnershipState) : list resource :=
  map bridge_named (expected_bridges s)
  ++ map (fun e => interface_named (e_host_interface e)) (expected_endpoints s)
  ++ map namespace_named (expected_namespaces s).

(** Another ledger of the same owner with the same processes *)
Definition same_owner (s s' : OwnershipState) : Prop :=
  owner_token s' = owner_token s /\ processes s' = processes s.

(** One that also expects the same *)
Definition same_plan (s s' : OwnershipState) : Prop :=
  same_owner s s' /\ expected_resources s' = expected_resources s.

Lemma same_endpoints l s :
  map e_host_interface l = map e_host_interface (expected_endpoints s) ->
  same_plan s (set_expected_endpoints l s).
Proof.
  intros H. split; [done|]. unfold expected_resources. cbn. f_equal. f_equal.
  rewrite <-!(map_map e_host_interface interface_named). by rewrite H.
Qed.

Lemma same_place test inode s : same_plan s (place_endpoints test inode s).
Proof.
  apply same_endpoints. rewrite map_map. apply map_ext. intros e. by destruct (test e).
Qed.

Lemma same_policy owner hash s : same_plan s (record_policy owner hash s).
Proof.
  apply same_endpoints. rewrite map_map. apply map_ext. intros e. by destruct (_ && _).
Qed.

(** ** Creating *)

Section realize.
Context (load_all : string -> option (list Yaml.node)) (c : Yaml.Conversions)
        (parse_document : string -> result Value) (to_chars : spec_float -> string)
        (sha256 : string -> string) (show_double : spec_float -> string).
Context (allowed : list Event -> sys -> Prop) (K : list Event -> OwnershipState -> Prop)
        (planned : resource -> Prop).
Context (HP : forall s h c, K h s -> routine c -> allowed h c /\ forall x, K (event c x :: h) s)
        (HM : forall s h c r, K h s -> planned r -> class c = makes r ->
                              allowed h c /\ forall x, K (event c x :: h) s)
        (HS : kept allowed K save)
        (HL : forall h s s', K h s -> same_plan s s' -> K h s')
        (HE : forall h s e, K h s -> e ∈ expected_endpoints s -> planned (interface_named (e_host_interface e))).

Lemma kept_making {A} r (p : Prog A) : planned r -> making r p -> kept allowed K (lift p).
Proof.
  intros Hr. apply kept_lift_calls. intros s h c' HK [Hc|[Hc|Hc]].
  - apply HP; [done|]. left. by left.
  - apply HP; [done|]. left. by right.
  - by eapply HM.
Qed.

Lemma kept_change f : (forall s, same_plan s (f s)) -> kept allowed K (modify f).
Proof. intros Hf. apply kept_modify. intros h s HK. by eapply HL. Qed.

Ltac routinely_kept := solve [apply kept_routine; [done|]; routine_prog].

Lemma kept_bridge context item :
  planned (bridge_named (switch_id item.2)) -> kept allowed K (create_bridge context item).
Proof.
  destruct item as [mutation switch]. cbn [snd]. intros Hp. unfold create_bridge. kept_prog; try done.
  all: try (apply kept_change; by intros).
  all: try routinely_kept.
  apply (kept_making _ _ Hp). unfold add_bridge. apply calls_perform. right; right. reflexivity.
Qed.

Lemma kept_router context item :
  planned (namespace_named (namespace_name item.2)) -> kept allowed K (create_router context item).
Proof.
  destruct item as [mutation router]. cbn [snd]. intros Hp. unfold create_router. kept_prog; try done.
  all: try (apply kept_change; intros; first [apply same_place|done]).
  all: try routinely_kept.
  apply (kept_making _ _ Hp), making_namespace.
Qed.

Lemma kept_expected context held item :
  planned (interface_named (e_host_interface item.2)) -> kept allowed K (create_expected context held item).
Proof.
  destruct item as [mutation e]. cbn [snd]. intros Hp. unfold create_expected. kept_prog; try done.
  all: try (apply kept_change; by intros).
  all: try routinely_kept.
  apply (kept_making _ _ Hp), making_kind.
Qed.

Lemma kept_configure router :
  kept allowed K (configure_router parse_document to_chars sha256 router).
Proof.
  unfold configure_router. kept_prog; try done.
  all: try (apply kept_change; by intros).
  all: apply kept_routine; [done|].
  all: try routine_prog.
  apply looking_routine, looking_nft. reflexivity.
Qed.

Lemma kept_start_capture context item : kept allowed K (start_capture context item).
Proof.
  destruct item as [mutation x]. unfold start_capture. kept_prog.
  - routinely_kept.
  - routinely_kept.
  - apply kept_create_capture; [done|]. intros owned. kept_prog; [|done]. by apply kept_change.
  - routinely_kept.
Qed.

Lemma kept_start_fault item : kept allowed K (start_fault show_double item).
Proof.
  destruct item as [mutation x]. unfold start_fault. kept_prog; try done.
  - routinely_kept.
  - apply kept_create_fault; [done|]. intros owned. apply kept_returns.
  - by apply kept_change.
  - routinely_kept.
Qed.

Lemma kept_management config :
  kept allowed K (install_management_policy parse_document to_chars sha256 config).
Proof.
  unfold install_management_policy. kept_prog.
  all: try (apply kept_change; intros; apply same_policy).
  all: routinely_kept.
Qed.

Lemma numbered_elem {A} (l : list A) : forall n x, x ∈ numbered n l -> x.2 ∈ l.
Proof.
  induction l as [|y l IH]; intros n x; cbn; [by rewrite elem_of_nil|].
  rewrite !elem_of_cons. intros [->|H]; [by left|]. right. by eapply IH.
Qed.

Lemma first_routers_elem l : forall seen r, r ∈ first_routers seen l -> r ∈ l.
Proof.
  induction l as [|y l IH]; intros seen r; cbn [first_routers]; [done|].
  destruct (one_of _ seen); rewrite ?elem_of_cons; [intros H; right; by eapply IH|].
  intros [->|H]; [by left|]. right. by eapply IH.
Qed.

Lemma kept_realize config context held state_path :
  (forall w, w ∈ switches (infrastructure config) -> planned (bridge_named (switch_id w))) ->
  (forall r, r ∈ linux_routers config -> planned (namespace_named (namespace_name r))) ->
  kept allowed K
    (realize load_all c parse_document to_chars sha256 show_double config context held state_path).
Proof.
  intros Hw Hr. unfold realize. kept_prog; try done.
  - apply kept_bridge. apply Hw. by eapply numbered_elem.
  - apply kept_router. apply Hr. eapply first_routers_elem, numbered_elem. done.
  - apply kept_expected. eapply HE; [done|]. by eapply numbered_elem.
  - routinely_kept.
  - routinely_kept.
  - apply kept_management.
  - apply kept_configure.
  - apply kept_start_capture.
  - apply kept_start_fault.
  - routinely_kept.
  - by apply kept_change.
  - routinely_kept.
Qed.
End realize.

(** ** Finding again, and removing *)

Section remove.
Context (load_all : string -> option (list Yaml.node)) (c : Yaml.Conversions)
        (parse_document : string -> result Value) (to_chars : spec_float -> string)
        (sha256 : string -> string).
Context (allowed : list Event -> sys -> Prop) (K : list Event -> OwnershipState -> Prop).
Abbreviation harmless p := (forall s h, K h s -> wp allowed p h (fun h _ => K h s)).
Context (HP : forall s h c, K h s -> routine c -> allowed h c /\ forall x, K (event c x :: h) s)
        (HS : kept allowed K save)
        (HL : forall h s s', K h s -> same_owner s s' -> K h s')
        (HE : forall h s e config, K h s -> harmless (delete_owned_endpoint e s config))
        (HN : forall h s n, K h s -> harmless (delete_owned_namespace n s))
        (HB : forall h s b, K h s -> harmless (delete_owned_bridge b s)).

Lemma harmless_kept {A} (p : Prog A) : harmless p -> kept allowed K (lift p).
Proof. apply kept_lift. Qed.

Lemma harmless_then {A B} (p : Prog A) (f : A -> Prog B) :
  harmless p -> (forall a, harmless (f a)) -> harmless (and_then p f).
Proof.
  intros Hp Hf s h HK. apply wp_and_then. eapply wp_mono; [|by apply Hp]. intros h' [a|e] HK'; [by apply Hf|done].
Qed.

Lemma harmless_ret {A} (a : A) : harmless (Ret a).
Proof. by intros s h. Qed.

Lemma harmless_each {A B} (body : A -> B -> Prog B) l :
  (forall x b, harmless (body x b)) -> forall b, harmless (for_each_in body l b).
Proof.
  intros Hb. induction l as [|x l IH]; intros b; [apply harmless_ret|]. apply harmless_then; [apply Hb|exact IH].
Qed.

Lemma routine_harmless {A} (p : Prog A) : routinely p -> harmless p.
Proof.
  intros Hp s h. apply (wp_calls routine allowed (fun h => K h s)); [done|]. intros h' c'. apply HP.
Qed.

Ltac harmlessly := solve [apply routine_harmless; routine_prog].
Ltac kept_harmlessly := solve [apply harmless_kept; harmlessly].

Lemma kept_owner f : (forall s, same_owner s (f s)) -> kept allowed K (modify f).
Proof. intros Hf. apply kept_modify. intros h s Hs. by eapply HL. Qed.

Lemma kept_recover_namespaces : kept allowed K recover_namespaces.
Proof.
  unfold recover_namespaces, recover_namespace. kept_prog; try kept_harmlessly; try (by apply kept_owner).
  apply HS.
Qed.

Lemma kept_rediscover_endpoint e : kept allowed K (rediscover_endpoint e).
Proof.
  unfold rediscover_endpoint. kept_prog; try kept_harmlessly; by apply kept_owner.
Qed.
Lemma kept_rediscover_bridge name : kept allowed K (rediscover_bridge name).
Proof.
  unfold rediscover_bridge. kept_prog; try kept_harmlessly; by apply kept_owner.
Qed.

Lemma harmless_warn p text : harmless p -> harmless (or_warn p text).
Proof. intros Hp. apply harmless_then; [done|]. intros []; [apply harmless_ret|]. harmlessly. Qed.

Lemma harmless_remove {A} (remove : A -> Prog bool) name l b :
  (forall x, harmless (remove x)) -> harmless (remove_each remove name l b).
Proof.
  intros Hr. refine (harmless_each _ _ _ _). intros x b'. apply harmless_then; [exact (harmless_warn _ _ (Hr x))|intros a; apply harmless_ret].
Qed.

Lemma harmless_remove_bridge h s b : K h s -> harmless (remove_bridge s b).
Proof.
  intros Hs. apply harmless_then; [harmlessly|]. intros []; [|apply harmless_ret]. cbn [negb].
  apply harmless_then; [harmlessly|]. intros []; [|apply harmless_ret]. by eapply HB.
Qed.

Lemma kept_rollback config : kept allowed K (rollback config).
Proof.
  unfold rollback. kept_prog; try kept_harmlessly; try (by apply kept_owner).
  - apply kept_recover_namespaces.
  - apply harmless_kept, harmless_warn. harmlessly.
  - apply harmless_kept, harmless_warn. harmlessly.
  - apply kept_rediscover_endpoint.
  - apply kept_rediscover_bridge.
  - apply harmless_kept, harmless_remove. intros e. by eapply HE.
  - apply harmless_kept, harmless_remove. intros n. by eapply HN.
  - apply harmless_kept, harmless_remove. intros b. by eapply harmless_remove_bridge.
  - apply HS.
Qed.

(** *** Destroying *)

Lemma kept_recover_bridge name : kept allowed K (recover_bridge name).
Proof.
  unfold recover_bridge. kept_prog; try kept_harmlessly; by apply kept_owner.
Qed.
Lemma kept_recover_endpoint e : kept allowed K (recover_endpoint e).
Proof.
  unfold recover_endpoint. kept_prog; try kept_harmlessly; by apply kept_owner.
Qed.

Lemma harmless_demand p text : harmless p -> harmless (demand p text).
Proof. intros Hp. apply harmless_then; [done|]. intros []; [apply harmless_ret|by intros s h]. Qed.

Lemma harmless_removal config h s : K h s -> harmless (remove_everything config s).
Proof.
  intros Hs. unfold remove_everything. repeat (apply harmless_then; [|intros []]).
  all: apply harmless_each; intros x [].
  - unfold destroy_fault. harmlessly.
  - unfold destroy_capture. harmlessly.
  - apply harmless_then; [harmlessly|]. intros []. apply harmless_demand. by eapply HE.
  - apply harmless_then; [harmlessly|]. intros []. apply harmless_demand. by eapply HN.
  - apply harmless_then; [harmlessly|]. intros []; [|apply harmless_ret]. cbn [negb].
    repeat (apply harmless_then; [harmlessly|intros []]). apply harmless_demand. by eapply HB.
Qed.

Lemma kept_destroy config hash state_path recovering context :
  kept allowed K
    (destroy_action parse_document to_chars sha256 config hash state_path recovering context).
Proof.
  unfold destroy_action. kept_prog; try kept_harmlessly; try (by apply kept_owner).
  - apply kept_recover_namespaces.
  - apply kept_recover_bridge.
  - apply kept_recover_endpoint.
  - apply HS.
  - apply harmless_kept. by eapply harmless_removal.
  - apply HS.
Qed.
End remove.
End LifecycleSteps.

(** * Creating behind the ledger

    What an infrastructure is to have is in the ledger before the first
    resource is made, and stays there while resources are made. *)

From Stdlib Require Import ZArith Lia Strings.Byte Strings.Ascii Strings.String Floats.SpecFloat.
From stdpp Require Import base option gmap strings list.
From S2P Require Import Prelude ConfigValue Text ResolvedNetwork Yaml OwnershipState Effects Process.
From S2P Require Import ProcessProofs.
From S2P Require Import Host Ovs Endpoint EndpointCreate Capture Fault Management LifecyclePlan.
From S2P Require Import LifecycleStatus LifecycleCreate Lifecycle HostProofs.
From S2P Require Import RemovalProofs.

Module CreationProofs.
Import Text ResolvedNetwork OwnershipState Effects Process ProcessProofs.
Import Host Ovs Endpoint EndpointCreate Capture Fault Management LifecyclePlan.
Import LifecycleStatus LifecycleCreate Lifecycle HostProofs LifecycleProofs LifecycleSteps RemovalProofs.
Local Open Scope Z_scope.

(** ** The records grow before the first resource *)

Definition grows (s s' : OwnershipState) : Prop :=
  owner_token s' = owner_token s /\
  forall r, r ∈ expected_resources s -> r ∈ expected_resources s'.

Lemma grows_refl s : grows s s.
Proof. by split. Qed.
Lemma grows_trans s1 s2 s3 : grows s1 s2 -> grows s2 s3 -> grows s1 s3.
Proof. intros [? H] [? H']. split; [congruence|auto]. Qed.
Lemma same_grows s s' : same_plan s s' -> grows s s'.
Proof. intros [[Ht _] H]. split; [done|]. by rewrite H. Qed.

Lemma elem_expected r s :
  r ∈ expected_resources s <->
  r ∈ map bridge_named (expected_bridges s)
  \/ r ∈ map (fun e => interface_named (e_host_interface e)) (expected_endpoints s)
  \/ r ∈ map namespace_named (expected_namespaces s).
Proof. unfold expected_resources. by rewrite !elem_of_app. Qed.

Lemma push_bridge_spec id s :
  grows s (push_expected_bridge id s) /\
  bridge_named id ∈ expected_resources (push_expected_bridge id s).
Proof.
  split; [split; [done|]; intros r|]; rewrite !elem_expected; cbn; rewrite map_app, elem_of_app; cbn.
  - tauto.
  - rewrite list_elem_of_singleton. tauto.
Qed.

Lemma push_namespace_spec id s :
  grows s (push_expected_namespace id s) /\
  namespace_named id ∈ expected_resources (push_expected_namespace id s).
Proof.
  split; [split; [done|]; intros r|]; rewrite !elem_expected; cbn; rewrite map_app, elem_of_app; cbn.
  - tauto.
  - rewrite list_elem_of_singleton. tauto.
Qed.

Lemma push_endpoint_grows e s : grows s (push_expected_endpoint e s).
Proof.
  split; [done|]. intros r. rewrite !elem_expected. cbn. rewrite map_app, elem_of_app. tauto.
Qed.

(** ** The phase that only looks *)

Definition look_only (_ : list Event) (c : sys) : Prop := class c = looks.

Lemma kept_look {S A} (K : list Event -> S -> Prop) (p : Prog A) :
  (forall s h c x, K h s -> K (event c x :: h) s) -> looking p -> kept look_only K (lift p).
Proof.
  intros HK. apply kept_lift_calls. intros s h c Hs Hc. split; [done|]. intros x. by apply HK.
Qed.

(** A loop over items whose names are expected behind it *)
Lemma expect_loop {A} (body : A -> Run unit) (name : A -> resource) l :
  (forall x s h, swp look_only (body x) s h
     (fun _ s' r => grows s s' /\ (r = Ok tt -> name x ∈ expected_resources s'))) ->
  forall s h, swp look_only (for_each_state body l) s h
    (fun _ s' r => grows s s' /\ (r = Ok tt -> forall x, x ∈ l -> name x ∈ expected_resources s')).
Proof.
  intros Hb. induction l as [|x l IH]; intros s h; cbn [for_each_state].
  { apply swp_returns. split; [apply grows_refl|]. intros _ x Hx. by apply elem_of_nil in Hx. }
  apply swp_bind. eapply swp_mono; [|apply Hb]. intros h1 s1 [[]|e] [Hg Hx]; [|by split].
  eapply swp_mono; [|apply IH]. intros h2 s2 r [Hg2 Hl]. split; [by eapply grows_trans|].
  intros Hr y. rewrite elem_of_cons. intros [->|Hy]; [by apply Hg2, Hx|by apply Hl].
Qed.

Section expect.
Context (sha256 : string -> string) (config : HostConfig).

Abbreviation from s := (fun (_ : list Event) s' => grows s s').

Lemma kept_push s f :
  (forall s, grows s (f s)) -> kept look_only (from s) (modify f).
Proof. intros Hf. apply kept_modify. intros h s' Hs. by eapply grows_trans. Qed.

Ltac looking_kept := solve [apply kept_look; [by intros|]; class_prog].

Lemma expect_endpoint_grows s inode a held :
  kept look_only (from s) (expect_endpoint config inode a held).
Proof.
  unfold expect_endpoint. kept_prog; [looking_kept|]. apply kept_push, push_endpoint_grows.
Qed.

Lemma expect_capture_grows s inode x : kept look_only (from s) (expect_capture sha256 config inode x).
Proof.
  unfold expect_capture. kept_prog; try looking_kept.
  - apply kept_push. intros s1. by apply same_grows.
  - apply kept_push, push_endpoint_grows.
  - apply kept_push. intros s1. by apply same_grows.
Qed.

Lemma expect_fault_grows s f : kept look_only (from s) (expect_fault f).
Proof. unfold expect_fault. kept_prog. apply kept_push. intros s1. by apply same_grows. Qed.

(** The names of all bridges and name spaces are in the ledger. *)
Definition all_expected (s : OwnershipState) : Prop :=
  (forall w, w ∈ switches (infrastructure config) -> bridge_named (switch_id w) ∈ expected_resources s) /\
  (forall r, r ∈ linux_routers config -> namespace_named (namespace_name r) ∈ expected_resources s).

Lemma all_expected_grows s s' : grows s s' -> all_expected s -> all_expected s'.
Proof. intros [_ Hg] [Hw Hr]. split; intros; by apply Hg; auto. Qed.

Lemma expect_spec s h :
  swp look_only (expect_infrastructure sha256 config) s h (fun _ s' r =>
    owner_token s' = owner_token s /\ ((exists held, r = Ok held) -> all_expected s')).
Proof.
  unfold expect_infrastructure. state_steps.
  destruct (negb _); [state_steps; split; [done|]; by intros []|].
  state_steps.
  eapply swp_mono; [|apply (kept_for_each look_only (from s)); [|apply grows_refl];
                     intros w Hw; looking_kept].
  intros h1 s1 [[]|e] Hg1; [|split; [apply Hg1|by intros []]]. state_steps.
  eapply swp_mono; [|apply (expect_loop _ (fun w => bridge_named (switch_id w)))].
  2: { intros w s2 h2. state_steps. destruct (push_bridge_spec (switch_id w) s2). by split. }
  assert (grows s (set_stage "creating" s1)) as Hg1'.
  { eapply grows_trans; [exact Hg1|]. by apply same_grows. }
  intros h2 s2 [[]|e] [Hg2 Hw]; [|split; [|by intros []]; by eapply grows_trans].
  specialize (Hw eq_refl). assert (grows s s2) as Hs2 by by eapply grows_trans. clear Hg1 Hg1' Hg2.
  state_steps.
  eapply swp_mono; [|apply (expect_loop _ (fun r => namespace_named (namespace_name r)))].
  2: { intros r s3 h3. unfold expect_router. state_steps.
       eapply swp_mono; [|apply (kept_look (from s3)); [by intros|class_prog|apply grows_refl]].
       intros h4 s4 [[]|e] Hg; [|by split]. state_steps.
       destruct (push_namespace_spec (namespace_name r) s4). split; [by eapply grows_trans|done]. }
  intros h3 s3 [[]|e] [Hg3 Hr]; [|split; [|by intros []]; by eapply grows_trans].
  specialize (Hr eq_refl).
  assert (owner_token s3 = owner_token s) as Ht by by eapply grows_trans.
  assert (all_expected s3) as Ha by (split; [intros; by apply Hg3; auto|done]).
  eapply swp_mono.
  2: { apply (kept_bind look_only (from s3) (lift (sys_call (StatPath "/proc/self/ns/net"))));
         [looking_kept| |apply grows_refl].
       intros [m|]; [|apply kept_raises]. kept_prog.
       - apply kept_fold. intros a held _. apply expect_endpoint_grows.
       - apply expect_capture_grows.
       - apply expect_fault_grows. }
  intros h4 s4 r Hg. split; [rewrite <-Ht; apply Hg|]. intros _. eapply all_expected_grows; [exact Hg|exact Ha].
Qed.
End expect.
End CreationProofs.
