(* ===== verification/LifecycleTheorems.v ===== *)
(** * The life cycle of an infrastructure: theorems

    Whatever the host answers and wherever a run ends: resources are made only
    when every ledger that may be on disk expects them; they are removed only
    behind the mark of their owner; and nothing is changed by a removal before
    every record was compared with the host. *)

From Stdlib Require Import ZArith Lia Strings.Byte Strings.Ascii Strings.String Floats.SpecFloat.
From stdpp Require Import base option gmap strings list.
From S2P Require Import Prelude ConfigValue Text ResolvedNetwork Yaml OwnershipState Effects Process.
From S2P Require Import ProcessProofs.
From S2P Require Import Host Ovs Endpoint EndpointCreate Capture Fault Management LifecyclePlan.
From S2P Require Import LifecycleStatus LifecycleCreate Lifecycle HostProofs.
From S2P Require Import LifecycleSteps RemovalProofs.

Module LifecycleTheorems.
Import Text ResolvedNetwork OwnershipState Effects Process ProcessProofs.
Import Host Ovs Endpoint EndpointCreate Capture Fault Management LifecyclePlan.
Import LifecycleStatus LifecycleCreate Lifecycle HostProofs LifecycleProofs.
Import LifecycleSteps RemovalProofs CreationProofs.
Local Open Scope Z_scope.

(** ** Classes *)

Definition not_making (c : sys) : Prop := match class c with makes _ => False | _ => True end.

Lemma routine_not_making c : routine c -> not_making c.
Proof. unfold not_making. intros [[->| ->]|[i ->]]; done. Qed.
Lemma routine_guarded token h c : routine c -> guarded token h c.
Proof.
  intros [[H|H]|[i ->]].
  - by apply guarded_looks.
  - apply guarded_not_removing. unfold not_removing. by rewrite H.
  - cbn. intros _. do 4 right. by exists i.
Qed.

(** A status reads the ledger and looks. *)
Definition reads (c : sys) : Prop := class c = looks \/ class c = books.

Lemma looking_reads {A} (p : Prog A) : looking p -> calls_only reads p.
Proof. apply calls_mono. by left. Qed.

Ltac reads_prog :=
  cbv zeta; repeat (match goal with
  | |- calls_only reads _ => solve [apply looking_reads; auto with host nocore]
  | |- calls_only reads (sys_call (Load _)) => apply calls_call; by right
  | |- calls_only _ _ => class_step
  end; cbv beta zeta).

Section lifecycle.
Context (load_all : string -> option (list Yaml.node)) (conv : Yaml.Conversions)
        (parse_document : string -> result Value) (to_chars : spec_float -> string)
        (sha256 : string -> string) (show_double : spec_float -> string).

Lemma status_reads config hash root path unavailable :
  calls_only reads
    (status_action load_all conv parse_document to_chars sha256 config hash root path unavailable).
Proof.
  unfold status_action, bridge_line, endpoint_line, namespace_line, capture_line, fault_line, status_line.
  reads_prog.
Qed.

(** ** Any action under a condition *)

Abbreviation execute := (execute_ovs_lifecycle load_all conv parse_document to_chars sha256 show_double).

Lemma execute_spec allowed config path action dry root context s :
  (forall h c, reads c -> allowed h c) ->
  (forall context h, swp allowed (create_action load_all conv parse_document to_chars sha256 show_double
                            config context (state_file root config)) s h (fun _ _ _ => True)) ->
  (forall hash recovering context h, swp allowed (destroy_action parse_document to_chars sha256 config hash
                            (state_file root config) recovering context) s h (fun _ _ _ => True)) ->
  swp allowed (execute config path action dry root context) s [] (fun _ _ _ => True).
Proof.
  intros Hl Hc Hd. unfold execute_ovs_lifecycle.
  assert (forall A (p : Prog A) h, calls_only reads p ->
            swp allowed (lift p) s h (fun _ s' _ => s' = s)) as Hk.
  { intros A p h Hp. apply (kept_lift_calls allowed (fun _ s' => s' = s) reads p); [|done|done].
    intros s' h' c' -> Hc'. split; [by apply Hl|done]. }
  destruct (negb _); [done|]. apply swp_bind. eapply swp_mono; [|apply Hk, looking_reads; class_prog].
  intros h1 s1 [hash|e] ->; [|done]. cbv zeta.
  destruct dry.
  { apply swp_bind. eapply swp_mono; [|apply Hk, looking_reads; class_prog]. by intros h2 s2 [[]|e] _. }
  destruct context as [context|]; [|done]. state_steps.
  destruct (_ || _); [done|].
  destruct action.
  - apply Hc.
  - apply Hd.
  - eapply swp_mono; [|apply Hk, status_reads]. done.
  - apply Hd.
Qed.

(** ** Removing what an owner has *)

Section owned.
Context (allowed : list Event -> sys -> Prop) (token : string).
Abbreviation owned := (fun (_ : list Event) s => owner_token s = token).
Abbreviation passes p := (forall h, wp allowed p h (fun _ _ => True)).
Context (HP : forall h c, routine c -> allowed h c)
        (HS : forall h s, owner_token s = token -> allowed h (Save s))
        (HE : forall s e config, owner_token s = token -> passes (delete_owned_endpoint e s config))
        (HN : forall s n, owner_token s = token -> passes (delete_owned_namespace n s))
        (HB : forall s b, owner_token s = token -> passes (delete_owned_bridge b s)).

Lemma owned_save : kept allowed owned save.
Proof.
  intros s h Hs. unfold save. state_steps. apply swp_lift, wp_and_then. split; [by apply HS|].
  by intros [[]|e].
Qed.

Lemma owned_passes {A} (p : Prog A) : passes p -> forall s h, owned h s -> wp allowed p h (fun h _ => owned h s).
Proof. intros Hp s h Hs. eapply wp_mono; [|apply Hp]. by intros. Qed.

Ltac owned_conditions :=
  first [ intros s h c Hs Hc; by split; [apply HP|] | exact owned_save | intros h s s' Hs [Ht _]; congruence
        | intros h s x cfg Hs; exact (owned_passes _ (HE s x cfg Hs)) | intros h s x Hs; exact (owned_passes _ (HN s x Hs))
        | intros h s x Hs; exact (owned_passes _ (HB s x Hs)) ].

Lemma owned_rollback config : kept allowed owned (rollback config).
Proof. apply kept_rollback; owned_conditions. Qed.

Lemma owned_destroy config hash path recovering context :
  kept allowed owned (destroy_action parse_document to_chars sha256 config hash path recovering context).
Proof. apply kept_destroy; owned_conditions. Qed.
End owned.

(** ** Creating behind the ledger *)

(** Every ledger that may be on disk expects the resource and names its owner. *)
Definition recorded_first (token : string) (h : list Event) (c : sys) : Prop :=
  match class c with
  | makes r => disk h <> [] /\ forall d, d ∈ disk h -> owner_token d = token /\ r ∈ expected_resources d
  | _ => True
  end.

Lemma recorded_not_making token h c : not_making c -> recorded_first token h c.
Proof. unfold not_making, recorded_first. by destruct (class c). Qed.

Definition on_record (token : string) (plan : list resource) (h : list Event) (s : OwnershipState) : Prop :=
  owner_token s = token /\ expected_resources s = plan /\ disk h <> [] /\
  forall d, d ∈ disk h -> owner_token d = token /\ expected_resources d = plan.

Lemma disk_books c x h : class c <> books -> disk (event c x :: h) = disk h.
Proof. destruct c; done. Qed.

Lemma on_record_save token plan : kept (recorded_first token) (on_record token plan) save.
Proof.
  intros s h (Ht & Hp & Hd & Hall). unfold save. state_steps. apply swp_lift, wp_and_then.
  split; [done|]. intros [[]|e]; cbn; split_and!; try done.
  - intros d ->%list_elem_of_singleton. done.
  - intros d [->|Hin]%elem_of_cons; [done|by apply Hall].
Qed.

Lemma realize_recorded token plan config context held path :
  (forall w, w ∈ switches (infrastructure config) -> bridge_named (switch_id w) ∈ plan) ->
  (forall r, r ∈ linux_routers config -> namespace_named (namespace_name r) ∈ plan) ->
  kept (recorded_first token) (on_record token plan)
    (realize load_all conv parse_document to_chars sha256 show_double config context held path).
Proof.
  intros Hw Hr. apply kept_realize with (planned := fun r => r ∈ plan); [..|done|done].
  - intros s h c' Hs Hc. split; [by apply recorded_not_making, routine_not_making|].
    intros x. unfold on_record. rewrite disk_books; [done|].
    destruct Hc as [[->| ->]|[i ->]]; done.
  - intros s h c' r (Ht & Hp & Hd & Hall) Hin Hc. split.
    + unfold recorded_first. rewrite Hc. split; [done|]. intros d Hd'.
      destruct (Hall d Hd') as [-> ->]. done.
    + intros x. unfold on_record. rewrite disk_books by by rewrite Hc. done.
  - apply on_record_save.
  - intros h s s' (Ht & Hp & Hd & Hall) [[Ht' _] Hp']. split_and!; try done; congruence.
  - intros h s e (Ht & Hp & _) He. rewrite <-Hp. apply elem_expected. right; left.
    by apply (list_elem_of_fmap_2' (fun e => interface_named (e_host_interface e))) with (x := e).
Qed.
End lifecycle.

(** *** Removals make nothing *)

Abbreviation making_nothing := (calls_only not_making).

Lemma looking_not_making {A} (p : Prog A) : looking p -> making_nothing p.
Proof. apply calls_mono. intros c Hc. unfold not_making. by rewrite Hc. Qed.

Ltac nothing_step :=
  match goal with
  | |- making_nothing (succeeds _) => apply calls_succeeds; exact I
  | |- making_nothing _ => solve [apply looking_not_making; auto with host nocore]
  | |- calls_only _ _ => class_step
  end.
Ltac nothing_prog := cbv zeta; repeat (nothing_step; cbv beta zeta).

Lemma not_making_link e r s : making_nothing (delete_link e r s).
Proof. unfold delete_link. nothing_prog. Qed.
#[local] Hint Resolve not_making_link : host.

Lemma not_making_endpoint e s config : making_nothing (delete_owned_endpoint e s config).
Proof. unfold delete_owned_endpoint. nothing_prog. Qed.
Lemma not_making_removed_namespace n s : making_nothing (delete_owned_namespace n s).
Proof. unfold delete_owned_namespace. nothing_prog. Qed.
Lemma not_making_removed_bridge b s : making_nothing (delete_owned_bridge b s).
Proof. unfold delete_owned_bridge. nothing_prog. Qed.

Lemma nothing_recorded {A} token (p : Prog A) h :
  making_nothing p -> wp (recorded_first token) p h (fun _ _ => True).
Proof.
  intros Hp. apply (wp_calls not_making _ (fun _ => True)); [done| |done].
  intros h' c _ Hc. split; [by apply recorded_not_making|done].
Qed.

Section theorems.
Context (load_all : string -> option (list Yaml.node)) (conv : Yaml.Conversions)
        (parse_document : string -> result Value) (to_chars : spec_float -> string)
        (sha256 : string -> string) (show_double : spec_float -> string).
Abbreviation execute := (execute_ovs_lifecycle load_all conv parse_document to_chars sha256 show_double).

(** C1: At any point of any run of any action, also where it then dies: when a
    bridge, a name space, or an interface is made, the last by [ip link add] or
    [ip tuntap add] under its name in the host, a ledger was saved, and every
    ledger that may be on disk has the name among the expected records and has
    the owner's token, so that recovery finds it.  (The other ends of pairs,
    ports, mirrors, tables, queueing disciplines, captures and timers are not
    part of the statement.) *)
Theorem creation_recorded config path action dry root context s l1 argv input x l2 r :
  reaches (execute config path action dry root context s)
    (l1 ++ event (Cmd argv input) x :: l2) ->
  effect_of argv = makes r ->
  disk (rev l1) <> [] /\
  forall d, d ∈ disk (rev l1) -> owner_token d = owner_token s /\ r ∈ expected_resources d.
Proof.
  intros Hr He.
  assert (swp (recorded_first (owner_token s)) (execute config path action dry root context) s []
            (fun _ _ _ => True)) as Hs.
  { apply execute_spec.
    - intros h c Hc. apply recorded_not_making. unfold not_making. by destruct Hc as [-> | ->].
    - intros ctx h. unfold create_action. state_steps.
      eapply swp_mono; [|eapply (wp_weaken look_only); [|apply expect_spec]].
      2: { intros h' c Hc. apply recorded_not_making. unfold not_making. by rewrite Hc. }
      intros h1 s1 [held|e] [Ht Ha]; [|done]. destruct (Ha ltac:(by exists held)) as [Hw Hn].
      unfold save at 1. state_steps. apply swp_lift, wp_and_then. split; [done|].
      intros [[]|e]; [|done]. cbn [of_result wp]. state_steps.
      eapply swp_mono; [|apply (realize_recorded load_all conv parse_document to_chars sha256 show_double
                                  (owner_token s) (expected_resources s1)); [done..|]].
      2: { split_and!; try done. cbn. intros d ->%list_elem_of_singleton. done. }
      intros h2 s2 [n|e] HK; [done|]. state_steps.
      eapply swp_mono; [|apply (owned_rollback (recorded_first (owner_token s)) (owner_token s2)); try done].
      + intros h3 s3 [[]|e'] _; done.
      + intros h3 c Hc. by apply recorded_not_making, routine_not_making.
      + intros s3 e' cfg _ h3. apply nothing_recorded, not_making_endpoint.
      + intros s3 n _ h3. apply nothing_recorded, not_making_removed_namespace.
      + intros s3 b _ h3. apply nothing_recorded, not_making_removed_bridge.
    - intros hash recovering ctx h.
      eapply swp_mono; [|apply (owned_destroy parse_document to_chars sha256 (recorded_first (owner_token s)) (owner_token s)); try done].
      + done.
      + intros h3 c Hc. by apply recorded_not_making, routine_not_making.
      + intros s3 e' cfg _ h3. apply nothing_recorded, not_making_endpoint.
      + intros s3 n _ h3. apply nothing_recorded, not_making_removed_namespace.
      + intros s3 b _ h3. apply nothing_recorded, not_making_removed_bridge. }
  pose proof (wp_reaches _ _ _ _ _ _ _ _ (swp_wp _ _ _ _ (fun _ _ => True)
    (swp_mono _ _ _ _ _ _ (fun _ _ _ _ => I) Hs)) Hr) as H.
  unfold recorded_first in H. cbn [class] in H. rewrite He, app_nil_r in H. exact H.
Qed.

(** C2: At any point of any run of any action, creation and its rollback
    included: an interface or a name space is removed only when the last thing
    read was its mark with the token of the ledger's owner; a record of Open
    vSwitch only by a transaction that waits for that token in the same record. *)
Theorem removal_identified config path action dry root context s l1 argv input x l2 :
  reaches (execute config path action dry root context s)
    (l1 ++ event (Cmd argv input) x :: l2) ->
  effect_of argv = removes ->
  evidence (owner_token s) argv (rev l1).
Proof.
  intros Hr He.
  assert (swp (guarded (owner_token s)) (execute config path action dry root context) s []
            (fun _ _ _ => True)) as Hs.
  { set (token := owner_token s).
    assert (forall h c, class c = books -> guarded token h c) as Hb.
    { intros h c Hc. apply guarded_not_removing. unfold not_removing. by rewrite Hc. }
    apply execute_spec.
    - intros h c [Hc|Hc]; [by apply guarded_looks|by apply Hb].
    - intros ctx h. unfold create_action. state_steps.
      eapply swp_mono; [|eapply (wp_weaken look_only); [|apply expect_spec]].
      2: { intros h' c Hc. by apply guarded_looks. }
      intros h1 s1 [held|e] [Ht _]; [|done].
      assert (kept (guarded token) (fun _ s => owner_token s = token) save) as Hsave.
      { apply owned_save. intros. by apply Hb. }
      state_steps. eapply swp_mono; [|by apply Hsave]. intros h2 s2 [[]|e] Ht2; [|done]. state_steps.
      eapply swp_mono; [|apply (kept_realize load_all conv parse_document to_chars sha256 show_double
        (guarded token) (fun _ s => owner_token s = token) (fun _ => True)); try done].
      2: { intros s' h' c Hs' Hc. split; [by apply routine_guarded|done]. }
      2: { intros s' h' c r Hs' _ Hc. split; [|done]. apply guarded_not_removing. unfold not_removing.
           by rewrite Hc. }
      2: { intros h' s' s'' Hs' [[Hs'' _] _]. congruence. }
      intros h3 s3 [n|e] Ht3; [done|]. state_steps.
      eapply swp_mono; [|apply (owned_rollback (guarded token) token); try done].
      + intros h4 s4 [[]|e'] _; done.
      + intros. by apply routine_guarded.
      + intros. by apply safe_endpoint.
      + intros. by apply safe_namespace.
      + intros. by apply safe_bridge.
    - intros hash recovering ctx h.
      eapply swp_mono; [|apply (owned_destroy parse_document to_chars sha256 (guarded token) token); try done].
      + done.
      + intros. by apply routine_guarded.
      + intros. by apply safe_endpoint.
      + intros. by apply safe_namespace.
      + intros. by apply safe_bridge. }
  pose proof (wp_reaches _ _ _ _ _ _ _ _ (swp_wp _ _ _ _ (fun _ _ => True)
    (swp_mono _ _ _ _ _ _ (fun _ _ _ _ => I) Hs)) Hr) as H.
  rewrite app_nil_r in H. by apply H.
Qed.
End theorems.
End LifecycleTheorems.
