(* ===== verification/DestroyProofs.v ===== *)
(** * Removing an infrastructure: the inspection

    A removal changes nothing before every record was compared with the host
    and the intent was saved.  A record whose resource has disappeared may stop
    it for good: of a tap device, and of the target of a fault. *)

From Stdlib Require Import ZArith Lia Strings.Byte Strings.Ascii Strings.String Floats.SpecFloat.
From stdpp Require Import base option gmap strings list.
From S2P Require Import Prelude ConfigValue Text ResolvedNetwork Yaml OwnershipState Effects Process.
From S2P Require Import ProcessProofs.
From S2P Require Import Host Ovs Endpoint EndpointCreate Capture Fault Management LifecyclePlan.
From S2P Require Import LifecycleStatus LifecycleCreate Lifecycle HostProofs.
From S2P Require Import LifecycleSteps RemovalProofs LifecycleTheorems.

Module DestroyProofs.
Import Text ResolvedNetwork OwnershipState Effects Process ProcessProofs.
Import Host Ovs Endpoint EndpointCreate Capture Fault Management LifecyclePlan.
Import LifecycleStatus LifecycleCreate Lifecycle HostProofs LifecycleProofs.
Import LifecycleSteps RemovalProofs LifecycleTheorems.
Local Open Scope Z_scope.

(** A program that ended has made a run of its own. *)
Lemma wp_self {A} (p : Prog A) h : wp any p h (fun h' r => exists l, h' = rev l ++ h /\ runs p l r).
Proof.
  revert h; induction p as [a|e|c k IH]; intros h; cbn [wp].
  - exists []. split; [done|constructor].
  - exists []. split; [done|constructor].
  - split; [done|]. intros x. eapply wp_mono; [|apply IH]. intros h' r (l & -> & Hl).
    exists (event c x :: l). split; [cbn; by rewrite <-app_assoc|]. by constructor.
Qed.

Section destroy.
Context (parse_document : string -> result Value) (to_chars : spec_float -> string)
        (sha256 : string -> string) (config : HostConfig).

Abbreviation inspection := (everything_unchanged parse_document to_chars sha256 config).
Abbreviation destroying := (destroy_action parse_document to_chars sha256 config).

Section phases.
(** What the recovery keeps of a ledger *)
Context (I : OwnershipState -> Prop)
        (HN : forall s n, I s -> I (push_namespace n s))
        (HP : forall s test inode, I s -> I (place_endpoints test inode s))
        (HB : forall s b, I s -> I (push_bridge b s)) (HE : forall s e, I s -> I (push_endpoint e s)).

(** The inspection of a ledger succeeded, and that ledger was saved with the
    intent to remove everything in it. *)
Definition inspected (h : list Event) : Prop :=
  exists s l before after,
    h = after ++ event (Save (set_stage "destroying" s)) (Ok tt) :: rev l ++ before /\
    runs (inspection s) l (Ok tt) /\ I s.

Definition after_inspection (validate : bool) (h : list Event) (c : sys) : Prop :=
  reads c \/ (validate = false /\ inspected h).

Lemma inspected_cons e h : inspected h -> inspected (e :: h).
Proof. intros (s & l & b & a & -> & Hr). by exists s, l, b, (e :: a). Qed.

Section allowed.
Context (validate : bool).
Abbreviation allowed := (after_inspection validate).

Lemma kept_reading {A} (p : Prog A) :
  looking p -> kept allowed (fun _ => I) (lift p).
Proof.
  apply kept_lift_calls. intros s h c Hs Hc. split; [by left; left|done].
Qed.

Lemma kept_saving : kept allowed (fun _ => I) save.
Proof.
  intros s h Hs. unfold save. state_steps. apply swp_lift, wp_and_then. split; [by left; right|].
  by intros [[]|e].
Qed.

Ltac reading := solve [apply kept_reading; class_prog].

Lemma recovery_namespaces : kept allowed (fun _ => I) recover_namespaces.
Proof.
  unfold recover_namespaces, recover_namespace. kept_prog; try reading.
  - apply kept_modify. intros. by apply HN.
  - apply kept_modify. intros. by apply HP.
  - apply kept_saving.
Qed.
Lemma recovery_bridge name : kept allowed (fun _ => I) (recover_bridge name).
Proof. unfold recover_bridge. kept_prog; try reading. apply kept_modify. intros. by apply HB. Qed.
Lemma recovery_endpoint e : kept allowed (fun _ => I) (recover_endpoint e).
Proof. unfold recover_endpoint. kept_prog; try reading. apply kept_modify. intros. by apply HE. Qed.
End allowed.

(** The inspection with its run and with what it looks at *)
Lemma inspection_spec allowed s h (Q : list Event -> result unit -> Prop) :
  (forall h c, reads c -> allowed h c) ->
  (forall l r, runs (inspection s) l r -> Q (rev l ++ h) r) ->
  wp allowed (inspection s) h Q.
Proof.
  intros Ha HQ. apply wp_looking; [intros; apply Ha; by left|auto with host|].
  eapply wp_mono; [|apply wp_self]. intros h' r (l & -> & Hl). by apply HQ.
Qed.

Lemma destroy_spec hash path recovering context s
    (Q : list Event -> OwnershipState -> result Z -> Prop) :
  I s ->
  (forall h s e, Q h s (Throw e)) ->
  (forall h s l n s', I s -> runs (inspection s) l (Ok tt) -> forall after, Q (after ++ rev l ++ h) s' (Ok n)) ->
  swp (after_inspection (validate_only context)) (destroying hash path recovering context) s [] Q.
Proof.
  intros Hs Ht HQ. unfold destroy_action.
  set (allowed := after_inspection (validate_only context)).
  assert (forall A (p : Prog A) s h, looking p -> I s ->
            swp allowed (lift p) s h (fun _ s' _ => s' = s /\ I s')) as Hk.
  { intros A p s0 h Hp Hi. apply (kept_lift_calls allowed (fun _ s' => s' = s0 /\ I s') (fun c => class c = looks) p); [|done|done].
    intros s1 h1 c [-> Hi'] Hc. split; [by left; left|done]. }
  apply swp_bind. eapply swp_mono; [|apply Hk; [auto with host|done]].
  intros h1 s1 [present|e] [-> _]; [|apply Ht]. destruct present; [|apply Ht]. cbn [negb]. state_steps.
  destruct (negb _); [apply Ht|]. apply swp_bind. eapply swp_mono; [|apply Hk; [class_prog|done]].
  intros h2 s2 [[]|e] [-> _]; [|apply Ht]. destruct (_ && _); [apply Ht|].
  apply swp_bind. eapply swp_mono; [|by apply recovery_namespaces].
  intros h3 s3 [[]|e] H3; [|apply Ht].
  apply swp_bind. eapply swp_mono; [|apply (kept_for_each allowed (fun _ => I)); [|exact H3]].
  2: { intros name _. by apply recovery_bridge. }
  intros h4 s4 [[]|e] H4; [|apply Ht]. state_steps.
  eapply swp_mono; [|apply (kept_for_each allowed (fun _ => I)); [|exact H4]].
  2: { intros e _. by apply recovery_endpoint. }
  intros h5 s5 [[]|e] H5; [|apply Ht]. state_steps.
  apply swp_lift, inspection_spec; [by left|]. intros l [[]|e] Hl; [|apply Ht].
  destruct (validate_only context) eqn:Hv; [state_steps; exact (HQ h5 s5 l 0 s5 H5 Hl [])|].
  state_steps. unfold save. state_steps. apply swp_lift, wp_and_then. split; [by left; right|].
  intros [[]|e]; [|apply Ht]. cbn [of_result wp]. cbv beta iota.
  set (h6 := event _ _ :: _).
  assert (inspected h6) as H6 by by exists s5, l, h5, [].
  set (K := fun h (_ : OwnershipState) => exists after, h = after ++ rev l ++ h5 /\ inspected h).
  assert (K h6 s5) as HK by by exists [event (Save (set_stage "destroying" s5)) (Ok tt)].
  assert (forall s h c, K h s -> True -> allowed h c /\ forall x, K (event c x :: h) s) as Hany.
  { intros s' h c (after & -> & Hi) _. split; [by right|]. intros x.
    exists (event c x :: after). split; [done|by apply inspected_cons]. }
  assert (forall A (p : Prog A), calls_only (fun _ => True) p) as Htrue.
  { intros A p. induction p as [| |c k IH]; [done..|]. by split. }
  assert (forall A (p : Prog A), kept allowed K (lift p)) as Hl'.
  { intros A p. apply (kept_lift_calls allowed K (fun _ => True)); [apply Hany|apply Htrue]. }
  match goal with |- swp _ ?p _ _ _ => assert (kept allowed K p) as Hp end.
  { kept_prog; try apply Hl'; by apply kept_modify. }
  eapply swp_mono; [|by apply Hp].
  intros h7 s7 [n|e] (after & -> & _); [|apply Ht]. by apply (HQ h5 s5 l n s7).
Qed.
End phases.

(** C3: At any point of any run of a removal: a call that changes the host is
    made only when, in this run, every record of the ledger was compared with
    the host and found unchanged, and that ledger was then saved with the
    status of a removal; a run that only validates changes nothing. *)
Theorem destroy_inspected hash path recovering context s l1 c x l2 :
  reaches (destroying hash path recovering context s) (l1 ++ event c x :: l2) ->
  class c <> looks -> class c <> books ->
  validate_only context = false /\
  exists ledger before l after,
    l1 = before ++ l ++ event (Save (set_stage "destroying" ledger)) (Ok tt) :: after /\
    runs (inspection ledger) l (Ok tt).
Proof.
  intros Hr Hl Hb.
  pose proof (destroy_spec (fun _ => True) ltac:(done) ltac:(done) ltac:(done) ltac:(done)
    hash path recovering context s (fun _ _ _ => True) Logic.I ltac:(done) ltac:(done)) as Hs.
  pose proof (wp_reaches _ _ _ _ _ _ _ _ (swp_wp _ _ _ _ (fun _ _ => True)
    (swp_mono _ _ _ _ _ _ (fun _ _ _ _ => Logic.I) Hs)) Hr) as H.
  destruct H as [[H|H]|[Hv (st & l & b & a & H & Hrun & _)]]; [done..|].
  split; [done|]. exists st, (rev b), l, (rev a). split; [|done].
  rewrite app_nil_r in H. rewrite <-(rev_involutive l1), H, rev_app_distr. cbn.
  by rewrite rev_app_distr, rev_involutive, <-!app_assoc.
Qed.

(** ** What is missing *)

(** No answer shows a tap device of that name; no read gives that index. *)
Definition tap_missing (device : string) (h : list Event) : Prop :=
  forall x, event (Cmd ["ip"; "tuntap"; "show"; "dev"; device] "") (Ok x) ∈ h ->
    c_status x <> 0 \/ has " tap " (c_output x) = false.
Definition link_missing (interface : string) (index : Z) (h : list Event) : Prop :=
  forall content, event (ReadFile (interface_file interface "ifindex")) content ∈ h ->
    stream_u32 content <> Some index.

Lemma wp_any {A} (p : Prog A) h : wp any p h (fun _ _ => True).
Proof. eapply wp_mono; [|apply wp_self]. done. Qed.

(** What comes first does not matter, if what follows throws. *)
Lemma wp_throws {A B} (p : Prog A) (f : A -> Prog B) h (M : list Event -> Prop) :
  (forall a h, wp any (f a) h (fun h' r => M h' -> exists e, r = Throw e)) ->
  wp any (and_then p f) h (fun h' r => M h' -> exists e, r = Throw e).
Proof.
  intros Hf. apply wp_and_then. eapply wp_mono; [|apply wp_any]. intros h' [a|e] _; [apply Hf|by eauto].
Qed.

(** The step itself throws *)
Lemma wp_throws_here {A B} (p : Prog A) (f : A -> Prog B) h (M : list Event -> Prop) :
  (forall h h', M (h' ++ h) -> M h) ->
  wp any p h (fun h' r => M h' -> exists e, r = Throw e) ->
  wp any (and_then p f) h (fun h' r => M h' -> exists e, r = Throw e).
Proof.
  intros HM Hp. apply wp_and_then. eapply wp_mono; [|exact Hp]. intros h' [a|e] H; [|intros _; by exists e].
  eapply wp_mono; [|apply wp_self]. intros h'' r (l & -> & _) Hm. by destruct (H (HM _ _ Hm)) as [? [=]].
Qed.

Lemma each_throws {A} (body : A -> unit -> Prog unit) x l h (M : list Event -> Prop) :
  (forall h h', M (h' ++ h) -> M h) ->
  x ∈ l -> (forall h, wp any (body x tt) h (fun h' r => M h' -> exists e, r = Throw e)) ->
  wp any (for_each_in body l tt) h (fun h' r => M h' -> exists e, r = Throw e).
Proof.
  intros HM Hx Hb. revert h; induction l as [|y l IH]; intros h; [by apply elem_of_nil in Hx|].
  apply elem_of_cons in Hx as [->|Hx]; cbn [for_each_in].
  - by apply wp_throws_here.
  - apply wp_throws. intros [] h'. by apply IH.
Qed.

Lemma tap_missing_app device h h' : tap_missing device (h' ++ h) -> tap_missing device h.
Proof. intros H x Hx. apply H. apply elem_of_app. by right. Qed.
Lemma link_missing_app interface index h h' :
  link_missing interface index (h' ++ h) -> link_missing interface index h.
Proof. intros H x Hx. apply H. apply elem_of_app. by right. Qed.

Lemma tap_owner_missing e h :
  wp any (tap_owner_matches e) h (fun h' r => tap_missing (e_host_interface e) h' -> r <> Ok true).
Proof.
  eapply wp_mono; [|apply shows_spec]. intros h' r Hr Hm Ht.
  destruct (Hr Ht) as (x & -> & H0 & Hx). reflect_bools.
  destruct (Hm x ltac:(by left)) as [?|?]; [done|]. congruence.
Qed.

Lemma endpoint_refused s item e h :
  find_expected s (r_attachment_id item) = Some e -> is_tap e = true ->
  wp any (endpoint_unchanged config s item) h
    (fun h' r => tap_missing (e_host_interface e) h' -> exists x, r = Throw x).
Proof.
  intros He Ht. unfold endpoint_unchanged. cbv zeta. do 4 (apply wp_throws; intros [] ?).
  unfold expected_endpoint. rewrite He. cbn [of_result and_then].
  apply wp_throws_here; [apply tap_missing_app|]. unfold refuse. rewrite Ht. cbn [and_also and_then].
  unfold or_else, negate. apply wp_and_then, wp_and_then, wp_and_then.
  eapply wp_mono; [|apply tap_owner_missing]. intros h5 [[]|x] Hx; cbn; [|by eauto..].
  eapply wp_mono; [|apply wp_self]. intros h6 [[]|x] (l & -> & _); cbn; [by eauto| |by eauto].
  intros Hm. exfalso. by apply (Hx (tap_missing_app _ _ _ Hm)).
Qed.

Lemma fault_refused f h :
  wp any (fault_unchanged f) h
    (fun h' r => link_missing (f_interface f) (f_ifindex f) h' -> exists x, r = Throw x).
Proof.
  unfold fault_unchanged, demand, fault_healthy, and_also, link_is, link_ifindex.
  split; [done|]. intros content. cbn [and_then].
  destruct (bool_decide_reflect (stream_u32 content = Some (f_ifindex f))) as [H|H].
  - eapply wp_mono; [|apply wp_self]. intros h' r (l & -> & _) Hm. exfalso.
    eapply (Hm content); [|done]. apply elem_of_app. right. by left.
  - cbn. by eauto.
Qed.

(** A record whose resource has disappeared *)
Inductive gone_record (s : OwnershipState) : (list Event -> Prop) -> Prop :=
| gone_tap item e :
    item ∈ endpoints s -> find_expected s (r_attachment_id item) = Some e -> is_tap e = true ->
    gone_record s (tap_missing (e_host_interface e))
| gone_fault f : f ∈ faults s -> gone_record s (link_missing (f_interface f) (f_ifindex f)).

Lemma gone_app s M h h' : gone_record s M -> M (h' ++ h) -> M h.
Proof. intros []; [apply tap_missing_app|apply link_missing_app]. Qed.

Lemma inspection_refused s M h :
  gone_record s M -> wp any (inspection s) h (fun h' r => M h' -> exists x, r = Throw x).
Proof.
  intros HM. pose proof (fun h h' => gone_app s M h h' HM) as Happ. unfold everything_unchanged.
  destruct HM as [item e Hin He Ht|f Hf].
  - apply wp_throws. intros [] h1. apply wp_throws_here; [done|].
    apply each_throws with (x := item); [done|done|]. intros h2. by apply endpoint_refused.
  - do 4 (apply wp_throws; intros [] ?). apply wp_throws_here; [done|].
    apply each_throws with (x := f); [done|done|]. intros h5. apply fault_refused.
Qed.

Lemma find_map_e id (g : ExpectedEndpoint -> ExpectedEndpoint) l :
  (forall e, e_id (g e) = e_id e) ->
  List.find (fun e => String.eqb (e_id e) id) (map g l)
    = option_map g (List.find (fun e => String.eqb (e_id e) id) l).
Proof.
  intros Hg. induction l as [|e l IH]; [done|]. cbn. rewrite Hg. by destruct (String.eqb _ _).
Qed.

Lemma gone_record_kept M :
  (forall s n, gone_record s M -> gone_record (push_namespace n s) M) /\
  (forall s test inode, gone_record s M -> gone_record (place_endpoints test inode s) M) /\
  (forall s b, gone_record s M -> gone_record (push_bridge b s) M) /\
  (forall s e, gone_record s M -> gone_record (push_endpoint e s) M).
Proof.
  split_and!.
  - intros s n [item e Hi He Ht|f Hf]; [by eapply gone_tap|by apply gone_fault].
  - intros s test inode [item e Hi He Ht|f Hf]; [|by apply gone_fault].
    set (g := fun e => if test e then with_inode inode e else e).
    assert (e_host_interface (g e) = e_host_interface e /\ is_tap (g e) = is_tap e) as [Hh Hk].
    { unfold g. by destruct (test e). }
    rewrite <-Hh. apply gone_tap with (item := item); [done| |by rewrite Hk].
    unfold find_expected, place_endpoints. cbn.
    rewrite (find_map_e _ g); [|intros e'; unfold g; by destruct (test e')].
    unfold find_expected in He. by rewrite He.
  - intros s b [item e Hi He Ht|f Hf]; [by eapply gone_tap|by apply gone_fault].
  - intros s r [item e Hi He Ht|f Hf]; [|by apply gone_fault].
    apply gone_tap with (item := item); [|done|done]. cbn. apply elem_of_app. by left.
Qed.

(** C25: A removal of a ledger that records a tap device, or a fault on an
    interface, which no longer exists (after a restart of the host, or when an
    earlier removal died behind the deletion) always fails, and changes
    nothing but the ledger; so it fails again. *)
Theorem missing_resource_refused hash path recovering context s l r M :
  gone_record s M ->
  runs (destroying hash path recovering context s) l r -> M (rev l) ->
  (exists s' e, r = Ok (s', Throw e)) /\ Forall (fun e => reads (e_call e)) l.
Proof.
  intros Hg Hr Hm. destruct (gone_record_kept M) as (HN & HP & HB & HE).
  assert (forall s l n h after, gone_record s M -> runs (inspection s) l (Ok n) -> ~ M (after ++ rev l ++ h)) as Hno.
  { intros s' l' [] h after Hg' Hl Hm'.
    destruct (wp_runs _ _ _ _ _ _ (inspection_refused s' M h Hg') Hl) as [x Hx]; [|done].
    by eapply gone_app. }
  pose proof (destroy_spec (fun s => gone_record s M) HN HP HB HE hash path recovering context s
    (fun h _ r => M h -> exists e, r = Throw e) Hg) as Hs.
  specialize (Hs ltac:(intros; by eexists)).
  specialize (Hs (fun h s l n s' Hi Hl after Hm => False_ind _ (Hno s l tt h after Hi Hl Hm))).
  split.
  - pose proof (wp_runs _ _ _ _ _ _ (swp_wp _ _ _ _ (fun h r =>
      M h -> exists s' e, r = Ok (s', Throw e)) (swp_mono _ _ _ _ _ _
      (fun h s' r H Hm => match H Hm with ex_intro _ e He => ex_intro _ s' (ex_intro _ e (f_equal (fun r => Ok (s', r)) He)) end) Hs)) Hr) as H.
    apply H. by rewrite app_nil_r.
  - apply Forall_forall. intros [c x] Hin. apply list_elem_of_split in Hin as (l1 & l2 & ->).
    pose proof (wp_reaches _ _ _ _ l1 c x l2 (swp_wp _ _ _ _ (fun _ _ => True)
      (swp_mono _ _ _ _ _ _ (fun _ _ _ _ => Logic.I) Hs)) (runs_reaches _ _ _ Hr)) as H.
    destruct H as [H|[_ (st & l' & b & a & H & Hrun & Hi)]]; [done|]. exfalso.
    eapply (Hno st l' tt b []); [done|done|]. cbn.
    rewrite app_nil_r in H. rewrite rev_app_distr in Hm. cbn in Hm. rewrite H in Hm.
    rewrite <-app_assoc in Hm. eapply gone_app in Hm; [|done]. 
    change (?e :: ?t) with ([e] ++ t) in Hm.
    do 3 (eapply gone_app in Hm; [|done]).
    done.
Qed.
End destroy.
End DestroyProofs.

(** * The life cycle of an infrastructure: examples

    A bridge that is created, a name space that is removed, and a tap device
    that has disappeared. *)

From Stdlib Require Import ZArith Lia Strings.Byte Strings.Ascii Strings.String Floats.SpecFloat.
From stdpp Require Import base option gmap strings list.
From S2P Require Import Prelude ConfigValue Text ResolvedNetwork Yaml OwnershipState Effects Process.
From S2P Require Import ProcessProofs Native NativeTheorems.
From S2P Require Import Host Ovs Endpoint EndpointCreate Capture Fault Management LifecyclePlan.
From S2P Require Import LifecycleStatus LifecycleCreate Lifecycle HostProofs.
From S2P Require Import LifecycleSteps RemovalProofs LifecycleTheorems.

Module LifecycleSamples.
Import Text ResolvedNetwork OwnershipState Effects Process ProcessProofs NativeTheorems.
Import Host Ovs Endpoint EndpointCreate Capture Fault Management LifecyclePlan.
Import LifecycleStatus LifecycleCreate Lifecycle HostProofs LifecycleProofs.
Import LifecycleSteps RemovalProofs LifecycleTheorems DestroyProofs.
Local Open Scope Z_scope.

Definition plain_conversions : Yaml.Conversions :=
  {| Yaml.as_string := fun n => match n with Yaml.Scalar s => Some s | _ => None end;
     Yaml.as_int := fun _ => None; Yaml.as_unsigned := fun _ _ => None; Yaml.as_bool := fun _ => None;
     Yaml.as_double := fun _ => None; Yaml.show_int := to_string; Yaml.show_bool := fun _ => "";
     Yaml.show_double := fun _ => "" |}.

Definition lab_switch : SwitchDefinition :=
  {| switch_id := "gxb0"; switch_kind := openvswitch; datapath := "system"; ports := []; mirror := None |}.

Definition lab_config : HostConfig :=
  {| config_version := 3; config_id := "g";
     infrastructure :=
       {| networks := []; switches := [lab_switch]; routers := []; attachments := []; edge_paths := [];
          ResolvedNetwork.captures := [] |};
     configured_faults := []; project := "graphx-g"; services := [];
     resolved_graph := ConfigValue.VNull |}.

(** The ledger of a graph before its infrastructure *)
Definition new_ledger : OwnershipState := sample_ledger [].

Definition lab_namespace : OwnedResourceIdentity := namespace_identity "gxn0" 7 "".
Definition lab_tap : ExpectedEndpoint :=
  {| e_mirror_container := false; e_kind := qemu_tap; e_id := "t0"; e_owner := "vm";
     e_host_interface := "gxt0"; e_target_interface := "gxt0"; e_network_switch := "gxb0";
     e_address := "10.0.0.2/24"; e_mac := ""; e_mtu := 1500; e_routes := []; e_aliases := [];
     e_management_policy := ""; e_container_id := ""; e_namespace_inode := 1; e_namespace_name := "";
     e_tap_uid := 65532; e_tap_gid := 65532; e_vlan := {| access_tag := None; trunks := [] |} |}.
Definition lab_endpoint : OwnedResourceIdentity :=
  endpoint_identity "qemu_tap" "t0" "gxt0" "gxt0" "port" "interface" 5 5 1 "" "65532:65532" "".

Definition namespace_ledger : OwnershipState :=
  with_infrastructure new_ledger "ready" [] [] [] [] ["gxn0"] [lab_namespace] [] [] [] [].
Definition tap_ledger : OwnershipState :=
  with_infrastructure new_ledger "destroying" [] [] [lab_tap] [lab_endpoint] [] [] [] [] [] [].

Definition context : OvsExecutionContext :=
  {| lock_held := true; cancellable := true; validate_only := false; unavailable_containers := [] |}.

(** Commands on a host with the name space and without anything else *)
Definition answered (status : Z) (output : string) : result CommandResult :=
  Ok {| c_status := status; c_exec_error := 0; c_output := output; c_output_truncated := false |}.

Definition lab_command (argv : list string) : result CommandResult :=
  if begins ["ip"; "netns"; "exec"; "gxn0"; "stat"] argv then answered 0 "7"
  else if begins ["ip"; "netns"; "exec"; "gxn0"; "ip"] argv then answered 0 "alias graphx:token:netns:gxn0"
  else if observing argv then answered 1 ""
  else answered 0 "".

Definition lab_host (h : list Event) (c : sys) : option (answer c) :=
  match c as c return option (answer c) with
  | Cmd argv _ => Some (lab_command argv)
  | Hash _ => Some (Ok "hash")
  | Lstat _ => Some (lstat_found (sample_directory file_directory 0))
  | StatPath _ => Some (Some (sample_directory file_other 0))
  | ReadFile _ => Some ""
  | Save _ => Some (Ok tt)
  | Print _ | Log _ => Some tt
  | Interrupted => Some false
  | _ => None
  end.

Definition lab_parse (_ : string) : result Value := Ok ConfigValue.VNull.

Definition lab_program (action : OvsLifecycleAction) (s : OwnershipState)
    : Prog (OwnershipState * result Z) :=
  execute_ovs_lifecycle (fun _ => None) plain_conversions lab_parse (fun _ => "") (fun s => s) (fun _ => "")
    lab_config "/plan/graph.json" action false "/state" (Some context) s.

Definition lab_run (action : OvsLifecycleAction) (s : OwnershipState) : list Event :=
  (simulate lab_host (lab_program action s) []).1.

Definition commands (effects : effect -> bool) (c : sys) : bool :=
  match c with Cmd argv _ => effects (effect_of argv) | _ => false end.
Definition is_making (e : effect) : bool := match e with makes _ => true | _ => false end.
Definition is_removing (e : effect) : bool := match e with removes => true | _ => false end.

(** The run with its first event of such a call *)
Lemma lab_split action s P ev :
  lab_run action s !! index_of P (lab_run action s) = Some ev ->
  reaches (lab_program action s)
    (take (index_of P (lab_run action s)) (lab_run action s)
     ++ ev :: drop (S (index_of P (lab_run action s))) (lab_run action s)).
Proof. intros H. rewrite take_drop_middle by done. apply simulate_reaches. Qed.

Definition before (action : OvsLifecycleAction) (s : OwnershipState) (P : sys -> bool) : list Event :=
  take (index_of P (lab_run action s)) (lab_run action s).

Lemma creation_recorded_witness :
  disk (rev (before create new_ledger (commands is_making))) <> [] /\
  forall d, d ∈ disk (rev (before create new_ledger (commands is_making))) ->
    owner_token d = "token" /\ bridge_named "gxb0" ∈ expected_resources d.
Proof.
  eapply (creation_recorded (fun _ => None) plain_conversions lab_parse (fun _ => "") (fun s => s)
    (fun _ => "") lab_config "/plan/graph.json" create false "/state" (Some context) new_ledger
    _ (add_bridge "gxb0" new_ledger)).
  - apply (lab_split create new_ledger (commands is_making)
      (event (Cmd (add_bridge "gxb0" new_ledger) "") (answered 0 ""))). vm_compute. reflexivity.
  - vm_compute. reflexivity.
Defined.

Lemma removal_identified_witness :
  evidence "token" ["ip"; "netns"; "delete"; "gxn0"]
    (rev (before destroy namespace_ledger (commands is_removing))).
Proof.
  eapply (removal_identified (fun _ => None) plain_conversions lab_parse (fun _ => "") (fun s => s)
    (fun _ => "") lab_config "/plan/graph.json" destroy false "/state" (Some context) namespace_ledger).
  - apply (lab_split destroy namespace_ledger (commands is_removing)
      (event (Cmd ["ip"; "netns"; "delete"; "gxn0"] "") (answered 0 ""))). vm_compute. reflexivity.
  - vm_compute. reflexivity.
Defined.

Definition lab_destroy (s : OwnershipState) : Prog (OwnershipState * result Z) :=
  destroy_action lab_parse (fun _ => "") (fun s => s) lab_config "hash" "/state/g/ownership.yml" false context s.
Definition lab_events (s : OwnershipState) : list Event := (simulate lab_host (lab_destroy s) []).1.

Lemma destroy_inspected_witness :
  exists ledger before l after,
    take (index_of (commands is_removing) (lab_events namespace_ledger)) (lab_events namespace_ledger)
      = before ++ l ++ event (Save (set_stage "destroying" ledger)) (Ok tt) :: after /\
    runs (everything_unchanged lab_parse (fun _ => "") (fun s => s) lab_config ledger) l (Ok tt).
Proof.
  eapply (destroy_inspected lab_parse (fun _ => "") (fun s => s) lab_config "hash" "/state/g/ownership.yml"
    false context namespace_ledger _ (Cmd ["ip"; "netns"; "delete"; "gxn0"] "") (answered 0 "")).
  - rewrite take_drop_middle by (vm_compute; reflexivity). apply simulate_reaches.
  - vm_compute. discriminate.
  - vm_compute. discriminate.
Defined.

Lemma missing_resource_refused_witness :
  runs (lab_destroy tap_ledger) (lab_events tap_ledger)
    (Ok (tap_ledger, Throw (RuntimeError "refusing replaced QEMU TAP ownership or VLAN: t0"))) /\
  (exists s' e, (Ok (tap_ledger, Throw (RuntimeError "refusing replaced QEMU TAP ownership or VLAN: t0"))
                 : result (OwnershipState * result Z)) = Ok (s', Throw e)) /\
  Forall (fun e => reads (e_call e)) (lab_events tap_ledger).
Proof.
  assert (runs (lab_destroy tap_ledger) (lab_events tap_ledger)
    (Ok (tap_ledger, Throw (RuntimeError "refusing replaced QEMU TAP ownership or VLAN: t0")))) as Hr.
  { apply simulate_runs. vm_compute. reflexivity. }
  split; [exact Hr|].
  apply (missing_resource_refused lab_parse (fun _ => "") (fun s => s) lab_config "hash"
    "/state/g/ownership.yml" false context tap_ledger _ _ (tap_missing "gxt0")).
  - apply (gone_tap tap_ledger lab_endpoint lab_tap); [by left|reflexivity|reflexivity].
  - exact Hr.
  - intros x Hx. left.
    assert (forallb (fun e => match e with
      Effects.Event c x => match c as c return answer c -> bool with
        | Cmd argv _ => fun x => match x with Ok r => negb (begins ["ip"; "tuntap"] argv) || negb (c_status r =? 0)
                                            | Throw _ => true end
        | _ => fun _ => true end x end) (rev (lab_events tap_ledger)) = true) as Ha by (vm_compute; reflexivity).
    apply forallb_forall with (x := event (Cmd ["ip"; "tuntap"; "show"; "dev"; "gxt0"] "") (Ok x)) in Ha;
      [|by apply list_elem_of_In].
    cbn in Ha. destruct (Z.eqb_spec (c_status x) 0); [discriminate|done].
Defined.
End LifecycleSamples.
