(* ===== verification/FaultProofs.v ===== *)
(** * Faults: what removes a discipline, and what stops

    The discipline of a fault is removed only when interface and discipline are
    still those recorded.  A timer or capture that this process has started and
    not waited for is never seen as stopped. *)

From Stdlib Require Import ZArith Lia Strings.Byte Strings.Ascii Strings.String Floats.SpecFloat.
From stdpp Require Import base option gmap strings list.
From S2P Require Import Prelude Text ResolvedNetwork OwnershipState Effects Process ProcessProofs.
From S2P Require Import Host Capture Fault HostProofs LifecycleSteps RemovalProofs.
From S2P Require Import DestroyProofs.

Module FaultProofs.
Import Text ResolvedNetwork OwnershipState Effects Process ProcessProofs.
Import Host Capture Fault HostProofs LifecycleSteps RemovalProofs DestroyProofs.
Local Open Scope Z_scope.
#[local] Open Scope prog_scope.

(** ** Removing a discipline *)

(** The index and the discipline of the interface were read as recorded. *)
Definition fault_seen (f : OwnedFault) (h : list Event) : Prop :=
  (exists content, event (ReadFile (interface_file (f_interface f) "ifindex")) content ∈ h /\
                   stream_u32 content = Some (f_ifindex f)) /\
  (exists out, event (Cmd ["tc"; "qdisc"; "show"; "dev"; f_interface f] "") (Ok out) ∈ h /\
               c_status out = 0 /\ c_output out = f_qdisc_identity f).

Definition seen_first (f : OwnedFault) (h : list Event) (c : sys) : Prop :=
  class c = removes -> c = Cmd (delete_qdisc (f_interface f)) "" /\ fault_seen f h.

Lemma seen_looks f h c : class c = looks -> seen_first f h c.
Proof. unfold seen_first. by intros ->. Qed.

Lemma link_is_spec name index h :
  wp any (link_is name (Some index)) h (fun h' r => r = Ok true ->
    exists content, h' = event (ReadFile (interface_file name "ifindex")) content :: h /\
                    stream_u32 content = Some index).
Proof.
  split; [done|]. intros content. cbn [and_then wp]. intros [= H%bool_decide_eq_true]. by exists content.
Qed.

(** A discipline that was shown, or no discipline *)
Lemma qdisc_spec interface h :
  wp any (qdisc_state interface) h (fun h' r => forall qdisc, r = Ok qdisc -> qdisc <> "" ->
    exists out, h' = event (Cmd ["tc"; "qdisc"; "show"; "dev"; interface] "") (Ok out) :: h /\
                c_status out = 0 /\ c_output out = qdisc).
Proof.
  apply wp_and_then. eapply wp_mono; [|apply run_spec]. intros h1 [r|e]; [|done].
  intros (x & -> & ->) qdisc. cbn. destruct (Z.eqb_spec (c_status x) 0); intros [= <-]; [|done].
  by exists x.
Qed.

(** What looks only extends the history. *)
Lemma looking_extends {A} (p : Prog A) h (Q : list Event -> result A -> Prop) :
  wp any p h Q -> wp any p h (fun h' r => Q h' r /\ exists l, h' = l ++ h).
Proof.
  intros Hp. assert (wp any p h (fun h' _ => exists l, h' = l ++ h)) as He.
  { eapply wp_mono; [|apply wp_self]. intros h' r (l & -> & _). by exists (rev l). }
  pose proof (wp_and _ _ _ _ _ _ Hp He) as H. by eapply wp_weaken; [|exact H].
Qed.

Section fault.
Context (f : OwnedFault).
Abbreviation safe p h := (wp (seen_first f) p h (fun _ _ => True)).

Definition index_seen (h : list Event) : Prop :=
  exists content, event (ReadFile (interface_file (f_interface f) "ifindex")) content ∈ h /\
                  stream_u32 content = Some (f_ifindex f).

Lemma fault_look {A B} (p : Prog A) (k : A -> Prog B) h (Q : list Event -> result A -> Prop) :
  looking p -> wp any p h Q ->
  (forall l a, Q (l ++ h) (Ok a) -> safe (k a) (l ++ h)) -> safe (and_then p k) h.
Proof.
  intros Hl Hp Hk. apply wp_and_then. apply wp_looking; [apply seen_looks|done|].
  eapply wp_mono; [|by apply looking_extends]. intros h' [a|e] [HQ [l ->]]; [by apply Hk|done].
Qed.

Lemma safe_delete h : fault_seen f h -> safe (succeeds (delete_qdisc (f_interface f))) h.
Proof.
  intros Hs. split; [by intros _|]. intros [x|e]; [|done]. cbn. by destruct (c_output_truncated x).
Qed.

Lemma seen_app l h : fault_seen f h -> fault_seen f (l ++ h).
Proof.
  intros [(x & Hx & ?) (y & Hy & ?)]. split; [exists x|exists y]; rewrite elem_of_app; auto.
Qed.
Lemma index_seen_app l h : index_seen h -> index_seen (l ++ h).
Proof. intros (x & Hx & ?). exists x. rewrite elem_of_app. auto. Qed.

Abbreviation keeping := (calls_only (fun c => class c <> removes)).

Lemma looking_keeping {A} (p : Prog A) : looking p -> keeping p.
Proof. apply calls_mono. by intros c ->. Qed.

Lemma keeping_stop pid start kind : keeping (stop_owned_process pid start kind).
Proof.
  unfold stop_owned_process.
  repeat match goal with
  | |- keeping (sys_call _) => apply calls_call; discriminate
  | |- keeping (Ret _) => exact I
  | |- keeping _ => solve [apply looking_keeping; auto with host nocore]
  | |- keeping (and_then _ _) => apply calls_and_then; [|intro]
  | |- keeping (or_else _ _) => apply calls_or_else
  | |- keeping (if ?x then _ else _) => destruct x
  end.
Qed.

(** What removes nothing extends the history. *)
Lemma fault_skip {A B} (p : Prog A) (k : A -> Prog B) h :
  keeping p -> (forall l a, safe (k a) (l ++ h)) -> safe (and_then p k) h.
Proof.
  intros Hp Hk.
  assert (wp (fun _ c => class c <> removes) p h (fun _ _ => True)) as Hl.
  { apply (wp_calls (fun c => class c <> removes) _ (fun _ => True)); [done|by intros|done]. }
  pose proof (wp_and _ _ _ _ _ _ Hl (wp_self p h)) as H. apply wp_and_then.
  eapply wp_weaken; [|eapply wp_mono; [|exact H]]; cbn.
  - intros h' c [Hc _] Hr. by destruct (Hc Hr).
  - intros h' [a|e] (_ & l & -> & _); [apply Hk|done].
Qed.

Lemma or_else_spec p b h :
  wp any (or_else p (Ret b)) h (fun _ r => r = Ok false -> b = false).
Proof.
  apply wp_and_then. eapply wp_mono; [|apply wp_any]. intros h' [[]|e] _; cbn; [done| |done].
  by intros [= ->].
Qed.

Lemma fault_seen_spec h :
  f_qdisc_identity f <> "" ->
  wp any (and_also (link_is (f_interface f) (Some (f_ifindex f)))
            (gives (qdisc_state (f_interface f)) (f_qdisc_identity f))) h
    (fun h' r => r = Ok true -> fault_seen f h').
Proof.
  intros Hne. apply wp_and_also. eapply wp_mono; [|apply link_is_spec].
  intros h1 [[]|e] Hi; [|done..]. destruct (Hi eq_refl) as (content & -> & Hc).
  apply wp_and_then. eapply wp_mono; [|apply qdisc_spec]. intros h2 [qdisc|e] Hq; [|done].
  cbn. intros [= H]. reflect_bools. subst qdisc. destruct (Hq _ eq_refl Hne) as (out & -> & ? & ?). split.
  - exists content. split; [by right; left|done].
  - exists out. split; [by left|done].
Qed.

(** A fault is cleared, or withdrawn after a failed start, by removing the
    discipline of its interface only when interface index and discipline were
    read as they are recorded. *)
Theorem discipline_identified p l1 argv input x l2 :
  p = clear_fault f \/ p = (withdraw_fault f;;; Ret true) ->
  f_qdisc_identity f <> "" ->
  reaches p (l1 ++ event (Cmd argv input) x :: l2) -> effect_of argv = removes ->
  argv = delete_qdisc (f_interface f) /\ fault_seen f (rev l1).
Proof.
  intros Hp Hne Hr He.
  assert (safe p []) as Hs.
  { destruct Hp as [->| ->].
    - unfold clear_fault, and_also at 1. eapply fault_look; [auto with host|apply link_is_spec|].
      intros l [] Hi; [|done].
      assert (index_seen (l ++ [])) as Hidx.
      { destruct (Hi eq_refl) as (content & -> & Hc). exists content. split; [by left|done]. }
      clear Hi. revert Hidx. generalize (l ++ []). clear l. intros h Hidx.
      eapply fault_look; [auto with host|apply wp_any|]. intros l1' active _.
      eapply fault_look; [auto with host|apply qdisc_spec|]. intros l2' qdisc Hq.
      destruct active; cbn [andb].
      + destruct (String.eqb_spec qdisc (f_qdisc_identity f)) as [->|]; [|done]. cbn [negb].
        destruct (Hq _ eq_refl Hne) as (out & Hout & H0 & Ho).
        assert (fault_seen f (l2' ++ l1' ++ h)) as Hseen.
        { split; [by do 2 apply index_seen_app|]. exists out. rewrite Hout. split; [by left|done]. }
        apply fault_skip; [done|]. intros l3 []; [done|].
        apply fault_skip; [apply keeping_stop|]. intros l4 []; [|done]. cbn [negb].
        apply fault_skip; [done|]. intros l5 []; [done|]. by apply safe_delete; do 3 apply seen_app.
      + eapply fault_look; [class_prog|apply or_else_spec|]. intros l3 [] Hn; [done|].
        specialize (Hn eq_refl). rewrite Hn.
        apply fault_skip; [done|]. by intros l4 [].
    - apply wp_and_then. eapply wp_mono with (Q := fun _ _ => True); [by intros h' []|].
      unfold withdraw_fault. apply fault_skip; [|intros l0 []].
      { destruct (_ =? 0); [done|].
        apply calls_and_then; [apply looking_keeping; auto with host|]. intros start.
        apply calls_and_then; [apply looking_keeping; auto with host|]. intros [].
        - apply calls_and_then; [apply keeping_stop|done].
        - done. }
      eapply fault_look; [class_prog|by apply fault_seen_spec|]. intros l3 [] Hseen; [|done].
      split; [intros _; split; [done|by apply Hseen]|]. intros [y|e]; [|done]. cbn.
      by destruct (c_output_truncated y). }
  pose proof (wp_reaches _ _ _ _ _ _ _ _ Hs Hr) as H. rewrite app_nil_r in H.
  destruct (H He) as [[= ->] Hf]. by split.
Qed.
End fault.

(** ** Children that were not waited for *)

(** The process is listed at every observation: running with its executable,
    or as a process that has exited and was not waited for. *)
Definition listed (pid : Z) (h : list Event) : Prop :=
  forall after value exe before,
    h = after ++ event (ReadStat pid) value :: event (ReadExe pid) exe :: before ->
    (parse_stat value).2 <> "" /\ (exe <> "" \/ (parse_stat value).1 = true).

Lemma listed_app pid l h : listed pid (l ++ h) -> listed pid h.
Proof. intros H after v exe before ->. apply (H (l ++ after) v exe before). by rewrite <-app_assoc. Qed.

Lemma not_gone pid h : wp any (process_gone pid) h (fun h' r => listed pid h' -> r = Ok false).
Proof.
  unfold process_gone, gives, process_start_time, inspect_process.
  do 2 (split; [done|]; intros ?). split; [done|]. intros exe. split; [done|]. intros value. cbn.
  destruct (parse_stat value) as [ex st] eqn:Hp. cbn. intros Hl.
  destruct (Hl [] value exe _ eq_refl) as [Hst Hx]. rewrite Hp in Hst, Hx. cbn in Hst, Hx.
  destruct (String.eqb_spec exe ""), ex; cbn; try (by destruct (String.eqb_spec st "")).
  by destruct Hx.
Qed.

Lemma wp_listed {A B} (p : Prog A) (k : A -> Prog B) pid h Q :
  (forall l a, wp any (k a) (l ++ h) (fun h' r => listed pid h' -> Q r)) ->
  (forall e, Q (Throw e)) ->
  wp any (and_then p k) h (fun h' r => listed pid h' -> Q r).
Proof.
  intros Hk He. apply wp_and_then. eapply wp_mono; [|apply wp_self].
  intros h' [a|e] (l & -> & _); [apply Hk|intros _; apply He].
Qed.

Lemma still_waiting n pid h : wp any (await_gone n pid) h (fun h' r => listed pid h' -> r = Ok false).
Proof.
  revert h; induction n as [|n IH]; intros h; cbn [await_gone]; [done|].
  apply wp_and_then. eapply wp_mono; [|apply looking_extends, not_gone].
  intros h1 [[]|e] [H1 [l ->]].
  - intros Hl. by specialize (H1 Hl).
  - split; [done|]. intros []. apply IH.
  - intros Hl. by specialize (H1 Hl).
Qed.

Lemma or_else_waiting (p q : Prog bool) pid h :
  wp any p h (fun h' r => listed pid h' -> r = Ok false) ->
  (forall h, wp any q h (fun h' r => listed pid h' -> r <> Ok true)) ->
  wp any (or_else p q) h (fun h' r => listed pid h' -> r <> Ok true).
Proof.
  intros Hp Hq. apply wp_and_then. eapply wp_mono; [|exact Hp].
  intros h1 [[]|e] H; [|apply Hq|done]. intros Hl. by specialize (H Hl).
Qed.

(** C40: A capture or a timer that this process has started, signalled and not
    waited for is never reported as stopped, however long it is waited for: an
    exited child stays listed, and only its absence counts. *)
Theorem unreaped_not_stopped pid start kind l r :
  runs (stop_owned_process pid start kind) l r -> listed pid (rev l) -> r <> Ok true.
Proof.
  intros Hr. assert (wp any (stop_owned_process pid start kind) []
    (fun h' r => listed pid h' -> r <> Ok true)) as Hw.
  { unfold stop_owned_process. apply wp_listed; [|done]. intros l1 owned.
    assert (forall h, wp any (process_gone pid) h (fun h' r => listed pid h' -> r <> Ok true)) as Hg.
    { intros h. eapply wp_mono; [|apply not_gone]. intros h' r' H Hl. by rewrite (H Hl). }
    destruct owned; cbn [negb]; [|apply Hg].
    split; [done|]. intros []. cbn [and_then]. apply or_else_waiting; [apply still_waiting|].
    intros h1. apply wp_and_then. eapply wp_mono; [|apply wp_any]. intros h2 [owned|e] _; [|done].
    apply wp_and_then. eapply wp_mono; [|apply wp_any]. intros h3 [[]|e] _; [|done].
    apply or_else_waiting; [apply still_waiting|apply Hg]. }
  pose proof (wp_runs _ _ _ _ _ _ Hw Hr) as H. by rewrite app_nil_r in H.
Qed.

(** A capture of this process, running until it is signalled *)
Definition child_host (h : list Event) (c : sys) : option (answer c) :=
  let signalled := existsb (fun e => match e_call e with Signal _ _ => true | _ => false end) h in
  match c as c return option (answer c) with
  | ReadFile _ => Some (if signalled then "" else "/usr/bin/dumpcap -w /captures/s/ethernet.pcapng")
  | ReadExe _ => Some (if signalled then "" else "/usr/bin/dumpcap")
  | ReadStat _ => Some ((if signalled then "9 (dumpcap) Z" else "9 (dumpcap) S")
                        +:+ " 1 9 9 0 -1 0 0 0 0 0 0 0 0 0 20 0 1 0 4711 0")
  | Signal _ _ => Some tt
  | Sleep _ => Some tt
  | _ => None
  end.

Definition child_stop : list Event :=
  (simulate child_host (stop_owned_process 9 "4711" (capture_with "/captures/s")) []).1.

(** Every observation of a history, as a boolean *)
Fixpoint all_listed (pid : Z) (h : list Event) : bool :=
  match h with
  | Effects.Event (ReadStat p) value :: before =>
      (if p =? pid then
         match before with
         | Effects.Event (ReadExe _) exe :: _ =>
             negb (String.eqb (parse_stat value).2 "") && (negb (String.eqb exe "") || (parse_stat value).1)
         | _ => true
         end
       else true) && all_listed pid before
  | _ :: before => all_listed pid before
  | [] => true
  end.

Lemma all_listed_app pid l h : all_listed pid (l ++ h) = true -> all_listed pid h = true.
Proof.
  induction l as [|[c x] l IH]; [done|]. cbn [app all_listed].
  destruct c; try exact IH. intros H. apply andb_prop in H as [_ H]. by apply IH.
Qed.

Lemma all_listed_spec pid h : all_listed pid h = true -> listed pid h.
Proof.
  intros H after value exe before ->. apply all_listed_app in H.
  cbn [all_listed] in H. rewrite Z.eqb_refl in H. apply andb_prop in H as [H _].
  apply andb_prop in H as [H1 H2]. split.
  - intros E. by rewrite E in H1.
  - apply orb_prop in H2 as [H2|H2]; [left; intros ->; cbn in H2; discriminate|by right].
Qed.

Lemma unreaped_not_stopped_witness :
  runs (stop_owned_process 9 "4711" (capture_with "/captures/s")) child_stop (Ok false) /\
  (Ok false : result bool) <> Ok true.
Proof.
  assert (runs (stop_owned_process 9 "4711" (capture_with "/captures/s")) child_stop (Ok false)) as Hr
    by (apply simulate_runs; vm_compute; reflexivity).
  split; [exact Hr|].
  apply (unreaped_not_stopped 9 "4711" (capture_with "/captures/s") child_stop _ Hr).
  apply all_listed_spec. vm_compute. reflexivity.
Defined.
End FaultProofs.
