(* ===== verification/Compile.v ===== *)
(** * The compilation of a graph (src/src/compile.cpp)

    [compile_graph] turns a resolved graph into the files of a deployment:
    Compose services, native processes, guests, credentials and stages.  It is
    pure.  The documents that the build embeds, the parser of documents, the
    digests and the rendering of numbers are parameters. *)

From Stdlib Require Import ZArith Lia Strings.Byte Strings.Ascii Strings.String Floats.SpecFloat.
From stdpp Require Import base option gmap strings list.
From S2P Require Import Prelude ConfigValue ConfigSchema ConfigNetwork ConfigGraph ConfigLoad Scenario Text Process.

Module Compile.
Import ConfigValue ConfigNetwork.
Local Open Scope Z_scope.

(** ** Texts *)

Definition obj (l : Object) : Value := VObj (object_of l).
Definition strings (l : list string) : Value := VArr (map VStr l).

Definition is_lower (c : ascii) : bool :=
  let n := Z.of_N (N_of_ascii c) in (97 <=? n) && (n <=? 122).
Definition is_upper (c : ascii) : bool :=
  let n := Z.of_N (N_of_ascii c) in (65 <=? n) && (n <=? 90).
Definition is_one_of (set : string) (c : ascii) : bool := ConfigLoad.has_char c set.
Definition is_alnum (c : ascii) : bool := is_lower c || is_upper c || is_digit c.
Definition is_hex (c : ascii) : bool :=
  let n := Z.of_N (N_of_ascii c) in is_digit c || ((97 <=? n) && (n <=? 102)).

(** [^[a-z][a-z0-9_-]{0,63}$] *)
Definition identity_text (s : string) : bool :=
  match s with
  | String c rest =>
      is_lower c && ConfigGraph.all_in (fun c => is_lower c || is_digit c || is_one_of "_-" c) rest
      && (String.length rest <=? 63)%nat
  | EmptyString => false
  end.

(** [^[a-zA-Z0-9][a-zA-Z0-9._/:-]*@sha256:[a-f0-9]{64}$]: the digest is the
    part behind the only [@]. *)
Definition pin_digest : nat := 64.
Definition pinned_text (s : string) : bool :=
  match Text.find "@sha256:" s with
  | Some n =>
      let name := Text.stake n s in
      let digest := Text.sdrop (n + 8) s in
      match name with
      | String c rest => is_alnum c && ConfigGraph.all_in (fun c => is_alnum c || is_one_of "._/:-" c) rest
      | EmptyString => false
      end && (String.length digest =? pin_digest)%nat && ConfigGraph.all_in is_hex digest
  | None => false
  end.

(** [^graphx-[a-z0-9-]+$] *)
Definition executable_text (s : string) : bool :=
  String.prefix "graphx-" s && (7 <? String.length s)%nat
  && ConfigGraph.all_in (fun c => is_lower c || is_digit c || is_one_of "-" c) (Text.sdrop 7 s).

Definition identity (id : string) : result unit :=
  reject_if (negb (identity_text id)) "E_COMPILE_ID" id "unsafe artifact identity".

Definition image_pin (image : Value) : result unit :=
  reject_if (match image with VStr s => negb (pinned_text s) | _ => true end)
    "E_COMPILE_PIN" "catalog.image" "digest-pinned image required".

(** ** The catalog *)

Definition catalog_definition (catalog : Value) (prefix id : string) : result Value :=
  let* l := object catalog in
  let* found := find_result (fun kv : string * Value =>
    if Text.starts_with kv.1 prefix then eq_at kv.2 "id" (VStr id) else Ok false) l in
  match found with
  | Some kv => Ok kv.2
  | None => reject "E_COMPILE_CATALOG" id "missing pinned catalog definition"
  end.

Definition node_argv (node type : Value) (container : bool) : result (list string) :=
  let* id := text_at node "node_id" in
  let* exe := text_at type "executable" in
  let* known := (if negb (executable_text exe) then Ok false else eq_at type "template" (VStr "node-v1")) in
  if negb known then reject "E_COMPILE_TEMPLATE" "type" "unsupported executable or template"
  else
    Ok [if container then exe else "${GX_RELEASE}/bin/" +:+ exe; "--node"; id; "--config";
        if container then "/run/graphx/node.json" else "${GX_OUTPUT}/nodes/" +:+ id +:+ ".json";
        "--release-file";
        if container then "/run/graphx/barriers/release" else "${GX_STATE}/barriers/release";
        "--release-token"; "${GX_OWNER}"].

(** ** Credentials *)

(** The elements in the order of their texts.  Comparing takes the text of
    every element as soon as there are two. *)
Fixpoint insert_text (s : string) (l : list string) : list string :=
  match l with
  | [] => [s]
  | t :: l' => match String.compare s t with Gt => t :: insert_text s l' | _ => s :: l end
  end.
Definition sort_texts (l : list string) : list string := foldr insert_text [] l.

Definition sort_values (l : Array) : result Array :=
  match l with
  | [] | [_] => Ok l
  | _ => let* texts := map_result text l in Ok (map VStr (sort_texts texts))
  end.

(** [std::ranges::unique] and the erasure behind it *)
Fixpoint unique_values (l : Array) : Array :=
  match l with
  | v :: (w :: _) as l' => if value_eqb v w then unique_values l' else v :: unique_values l'
  | _ => l
  end.

Definition holds (l : Array) (v : Value) : bool := existsb (fun w => value_eqb w v) l.

(** [allow] *)
Definition allow (ref node : string) (consumers : Object) : result Object :=
  let* l := match find_key ref consumers with Some v => array v | None => Ok [] end in
  Ok (set_key ref (VArr (l ++ [VStr node])) consumers).

(** The roles of one peer of a port *)
Definition add_role (peer : Value) (roles : Array) : result Array :=
  let* listens := eq_at peer "role" (VStr "listen") in
  let role := VStr (if (listens : bool) then "serverAuth" else "clientAuth") in
  Ok (if holds roles role then roles else roles ++ [role]).

Definition credential_entry (entries : Object) (ref : string) : result Value := object_at entries ref.

(** The TLS roles that a laboratory credential needs *)
Definition tls_roles (node : Value) (port ref : string) (entries : Object) : result Object :=
  let* entry := credential_entry entries ref in
  let* generated := eq_at entry "provider" (VStr "lab-generated") in
  if negb generated then Ok entries
  else
    let* l := object entry in
    let roles := match find_key "tls_roles" l with None | Some VNull => VArr [] | Some v => v end in
    let* bindings := at_ node "bindings" in
    let* peers := array_at bindings port in
    let* roles := match peers with
                  | [] => array roles
                  | peer :: _ => let* _ := at_ peer "role" in array roles
                  end in
    let* roles := fold_result add_role peers roles in
    let* roles := sort_values roles in
    Ok (set_key ref (VObj (set_key "tls_roles" (VArr roles) l)) entries).

Record Credentials := { entries_ : Object; consumers_ : Object }.

Definition generated_entry (id : string) (members : list string) : Value :=
  obj [("provider", VStr "runtime-generated"); ("identity", VStr id); ("members", strings members)].

(** The references of one node: of its ports, and of its telemetry *)
Definition port_credential (node : Value) (id : string) (kv : string * Value) (s : Credentials)
    : result Credentials :=
  let* ref := text kv.2 in
  let* consumers := allow ref id (consumers_ s) in
  let* entries := tls_roles node kv.1 ref (entries_ s) in
  Ok {| entries_ := entries; consumers_ := consumers |}.

Definition node_credentials (node : Value) (s : Credentials) : result Credentials :=
  let* id := text_at node "node_id" in
  let* ports := object_field node "credentials" in
  let* s := fold_result (port_credential node id) ports s in
  let* telemetry := at_ node "telemetry" in
  let* ref := at_ telemetry "credential" in
  if is_null ref then Ok s
  else
    let* ref := text ref in
    let* _ := reject_if (contains (VObj (entries_ s)) ref) "E_CREDENTIAL" ref
                "runtime credential collides with authored credential" in
    let* consumers := allow ref id (consumers_ s) in
    Ok {| entries_ := set_key ref (generated_entry id ["hmac"]) (entries_ s); consumers_ := consumers |}.

Definition unsafe_member (name : string) : bool :=
  String.eqb name "" || String.eqb name "." || String.eqb name ".."
  || negb (ConfigGraph.all_in (fun c => negb (is_one_of "/\${}" c || is_one_of (String "010" (String "013" "")) c))
             name).

Definition member_file (id : string) (part : Value) (files : Object) : result Object :=
  let* name := text part in
  let* _ := reject_if (unsafe_member name) "E_CREDENTIAL" id "credential member must be a literal filename" in
  Ok (set_key name (VStr ("${GX_CREDENTIALS}/" +:+ id +:+ "/" +:+ name)) files).

(** One entry with the files of its members.  The platform only receives
    generated secrets here. *)
Definition finish_entry (kv : string * Value) (s : Credentials) : result Credentials :=
  let (id, declaration) := kv in
  let* _ := identity id in
  let* members := array_at declaration "members" in
  let* files := fold_result (member_file id) members [] in
  let* declaration := assign declaration "files" (VObj files) in
  let consumers := match find_key id (consumers_ s) with
                   | Some _ => consumers_ s
                   | None => set_key id (VArr []) (consumers_ s)
                   end in
  let* shared := (if String.eqb id "observer" then Ok true
                  else eq_at declaration "provider" (VStr "runtime-generated")) in
  let* consumers := (if (shared : bool) then allow id "platform" consumers else Ok consumers) in
  Ok {| entries_ := set_key id declaration (entries_ s); consumers_ := consumers |}.

Definition extension_credential (entries : Object) (extension : Value) (consumers : Object)
    : result Object :=
  let* consumers := (if value_eqb extension (VStr "prometheus") then allow "observer" "prometheus" consumers
                     else Ok consumers) in
  if value_eqb extension (VStr "grafana") then
    let* _ := reject_if (negb (contains (VObj entries) "grafana-admin")) "E_CREDENTIAL" "grafana-admin"
                "Grafana requires an external password reference" in
    allow "grafana-admin" "grafana" consumers
  else Ok consumers.

Definition platform_credentials (platform : Value) (s : Credentials) : result Object :=
  let* extensions := array_at platform "extensions" in
  let* consumers := fold_result (extension_credential (entries_ s)) extensions (consumers_ s) in
  let* control := at_ platform "control" in
  let* grants := array_at control "grants" in
  let* consumers := fold_result (fun grant consumers =>
    let* ref := text_at grant "credential" in allow ref "platform" consumers) grants consumers in
  let* otlp := at_ platform "otlp" in
  let* enabled := boolean_at otlp "enabled" in
  if (enabled : bool) then let* ref := text_at otlp "credentials" in allow ref "platform" consumers
  else Ok consumers.

Definition settle_consumers (kv : string * Value) : result (string * Value) :=
  let* l := array kv.2 in
  let* l := sort_values l in
  Ok (kv.1, VArr (unique_values l)).

Definition bundle_contract : Value :=
  obj [("staging_mode", VStr "0700"); ("directory_mode", VStr "0500"); ("file_mode", VStr "0400");
       ("publication", VStr "atomic member replacement inside stable credential directory");
       ("rotation", VStr "current and previous members with bounded monotonic grace")].

Definition credential_plan (graph : ConfigLoad.GraphConfig) : result Value :=
  let* authored := object (member_object (ConfigLoad.authored graph) "credentials") in
  let entries := fold_left (fun acc kv => set_key kv.1 kv.2 acc) authored [] in
  let* _ := reject_if (contains (VObj entries) "observer") "E_CREDENTIAL" "observer"
              "observer is a reserved runtime credential" in
  let entries := set_key "observer" (generated_entry "reader" ["token"]) entries in
  let* consumers := allow "observer" "reader" [] in
  let* nodes := array_at (ConfigLoad.resolved graph) "nodes" in
  let* s := fold_result node_credentials nodes {| entries_ := entries; consumers_ := consumers |} in
  let* s := fold_result finish_entry (entries_ s) s in
  let* platform := at_ (ConfigLoad.resolved graph) "platform" in
  let* consumers := platform_credentials platform s in
  let* consumers := map_result settle_consumers consumers in
  Ok (obj [("version", VInt 1); ("deny_inline_values", VBool true); ("entries", VObj (entries_ s));
           ("allowed_consumers", VObj consumers); ("bundle_contract", bundle_contract)]).

Definition credential_refs (plan : Value) (consumer : string) : result (list string) :=
  let* allowed := object_field plan "allowed_consumers" in
  let* kept := map_result (fun kv : string * Value =>
    let* l := array kv.2 in Ok (kv.1, holds l (VStr consumer))) allowed in
  Ok (map fst (List.filter snd kept)).

(** ** Parts of the deployment *)

(** [v[k] = x] for several fields *)
Definition with_fields (l : list (string * Value)) (v : Value) : result Value :=
  fold_result (fun kv v => assign v kv.1 kv.2) l v.

Definition service_base (image : Value) : result Value :=
  let* _ := image_pin image in
  Ok (obj [("image", image); ("restart", VStr "no"); ("read_only", VBool true);
           ("user", VStr "65532:65532"); ("cap_drop", strings ["ALL"]);
           ("security_opt", strings ["no-new-privileges:true"]);
           ("tmpfs", strings ["/tmp:rw,nosuid,nodev,size=16m"]); ("pids_limit", VInt 64);
           ("mem_limit", VInt 134217728);
           ("logging", obj [("driver", VStr "json-file");
                            ("options", obj [("max-file", VStr "2"); ("max-size", VStr "1m")])])]).

Definition node_environment (node : Value) (container : bool) : result Value :=
  let root := if container then "/run/secrets" else "${GX_CREDENTIALS}" in
  let result := obj [("GRAPHX_CREDENTIALS", VStr root)] in
  let* telemetry := at_ node "telemetry" in
  let* credential := at_ telemetry "credential" in
  if is_null credential then Ok result
  else
    let* ref := text credential in
    assign result "GRAPHX_TELEMETRY_SHARED_SECRET_FILE" (VStr (root +:+ "/" +:+ ref +:+ "/hmac")).

Definition process (id : string) (argv : list string) (refs : list string) (readiness : Value) : Value :=
  obj [("id", VStr id); ("kind", VStr "native"); ("argv", strings argv); ("cwd", VStr "${GX_OUTPUT}");
       ("environment", obj []); ("credentials", strings refs); ("readiness", readiness);
       ("log", VStr ("${GX_STATE}/logs/" +:+ id +:+ ".log"));
       ("limits", obj [("log_bytes", VInt 2097152); ("memory_bytes", VInt 134217728)])].

(** *** Guests *)

(** The one tap device of the guest *)
Definition guest_tap (id : string) (network : Value) : result (option Value) :=
  let* attachments := array_at network "attachments" in
  fold_result (fun attachment tap =>
    let* mine := and_result (eq_at attachment "owner" (VStr id)) (eq_at attachment "kind" (VStr "qemu_tap")) in
    if negb mine then Ok tap
    else match tap with
         | Some _ => reject "E_COMPILE_GUEST" id "one TAP per guest is supported"
         | None => Ok (Some attachment)
         end) attachments None.

Definition differs (v : Value) (key : string) (w : Value) : result bool :=
  let* same := eq_at v key w in Ok (negb same).

(** Some(tap) when the guest is one that can be run *)
Definition guest_supported (node recipe : Value) (tap : option Value) : result bool :=
  match tap with
  | None => Ok false
  | Some tap =>
      let* refused :=
        or_result (differs tap "tap_uid" (VInt 65532))
          (or_result (differs tap "tap_gid" (VInt 65532))
            (or_result (differs recipe "architecture" (VStr "x86_64"))
              (let* execution := at_ node "execution" in differs execution "accelerator" (VStr "tcg")))) in
      Ok (negb refused)
  end.

Definition channel_socket (id channel : string) : string :=
  "${GX_STATE}/" +:+ id +:+ "/" +:+ channel +:+ ".sock".
Definition guest_channels : list string := ["config"; "credentials"; "ready"].

Definition guest_argv (id recipe_id interface mac : string) : list string :=
  ["qemu-system-x86_64"; "-nodefaults"; "-no-user-config"; "-machine"; "q35,accel=tcg"; "-m"; "256";
   "-smp"; "1"; "-kernel"; "${GX_RELEASE}/guests/" +:+ recipe_id +:+ "/bzImage"; "-initrd";
   "${GX_RELEASE}/guests/" +:+ recipe_id +:+ "/rootfs.cpio.gz"; "-append"; "console=ttyS0 panic=1";
   "-no-reboot"; "-display"; "none"; "-monitor"; "none"; "-qmp";
   "unix:${GX_STATE}/" +:+ id +:+ "/qmp.sock,server=on,wait=off"; "-netdev";
   "tap,id=net0,ifname=" +:+ interface +:+ ",script=no,downscript=no"; "-device";
   "virtio-net-pci,netdev=net0,mac=" +:+ mac; "-device"; "virtio-serial-pci"]
  ++ mjoin (map (fun channel =>
       ["-chardev"; "socket,id=" +:+ channel +:+ ",path=" +:+ channel_socket id channel
                    +:+ ",server=on,wait=off"; "-device";
        "virtserialport,chardev=" +:+ channel +:+ ",name=org.graphx." +:+ channel]) guest_channels)
  ++ ["-chardev"; "ringbuf,id=serial,size=1048576"; "-serial"; "chardev:serial"; "-chardev";
      "socket,id=interactive,path=${GX_STATE}/console/" +:+ id +:+ ".sock,server=on,wait=off"; "-serial";
      "chardev:interactive"].

Definition channel_value (id channel : string) : string * Value :=
  (channel, obj [("guest_name", VStr ("org.graphx." +:+ channel));
                 ("host_socket", VStr (channel_socket id channel))]).

Definition qemu_guest (node recipe network : Value) : result Value :=
  let* id := text_at node "node_id" in
  let* recipe_id := text_at recipe "id" in
  let* tap := guest_tap id network in
  let* supported := guest_supported node recipe tap in
  match tap with
  | Some tap =>
      if negb supported then reject "E_COMPILE_GUEST" id "x86_64 TCG and one resolved TAP required"
      else
        let* interface := text_at tap "interface" in
        let* mac := text_at tap "mac" in
        let* credentials := at_ node "credentials" in
        let* readiness := at_ recipe "readiness" in
        let* outputs := at_ recipe "outputs" in
        Ok (obj [("node", VStr id); ("recipe", VStr recipe_id);
                 ("argv", strings (guest_argv id recipe_id interface mac));
                 ("architecture", VStr "x86_64"); ("accelerator", VStr "tcg"); ("uid", VInt 65532);
                 ("gid", VInt 65532); ("node_config", VStr ("nodes/" +:+ id +:+ ".json"));
                 ("config_delivery", VStr "framed node JSON before application start");
                 ("credentials", credentials);
                 ("channels", VObj (fold_left (fun acc kv => set_key kv.1 kv.2 acc)
                                      (map (channel_value id) guest_channels) []));
                 ("readiness", readiness); ("artifact_verification", outputs); ("network", tap);
                 ("serial_max_bytes", VInt 1048576)])
  | None => reject "E_COMPILE_GUEST" id "x86_64 TCG and one resolved TAP required"
  end.

(** ** Files *)

(** A [std::map] of texts; [emplace] keeps what is there. *)
Abbreviation Files := (list (string * string)).

Fixpoint find_file (path : string) (files : Files) : option string :=
  match files with
  | [] => None
  | (p, bytes) :: files => if String.eqb path p then Some bytes else find_file path files
  end.

Fixpoint emplace (path bytes : string) (files : Files) : Files :=
  match files with
  | [] => [(path, bytes)]
  | (p, b) :: rest =>
      match String.compare path p with
      | Eq => files
      | Lt => (path, bytes) :: files
      | Gt => (p, b) :: emplace path bytes rest
      end
  end.

Definition insert_files (l files : Files) : Files :=
  fold_left (fun files f => emplace f.1 f.2 files) l files.

(** The texts that the build embeds (cmake/platform_assets.hpp.in,
    cmake/config_schemas.hpp.in, include/graphx/version.hpp.in) *)
Record Assets := {
  prometheus_alerts : string; grafana_dashboard : string; normalized_schema : string;
  library_version : string }.

Definition kCompilerContract : string := "graphx-compiler-1".

(** The contract of the two templates, a literal in the source *)
Definition expected_templates : Value :=
  obj [("version", VInt 1);
       ("node-v1", obj [("allowed_slots", strings ["executable"; "node.id"; "node.file"]);
                        ("arbitrary_compose", VBool false);
                        ("argv", strings ["executable"; "--node"; "node.id"; "--config"; "node.file"]);
                        ("security", obj [("cap_drop", strings ["ALL"]); ("read_only", VBool true);
                                          ("restart", VStr "no");
                                          ("security_opt", strings ["no-new-privileges:true"]);
                                          ("user", VStr "65532:65532")])]);
       ("platform-v1", obj [("allowed_slots", strings ["platform.file"]);
                            ("arbitrary_compose", VBool false);
                            ("argv", strings ["graphx-platform"; "--config"; "platform.file"])])].

Section Compile.
Context (assets : Assets) (fuel : nat).
Context (parse_document : string -> result Value) (sha256 : string -> string)
        (regex_search : string -> string -> bool) (to_chars : spec_float -> string)
        (stod : string -> result spec_float).

Definition put (path : string) (v : Value) (files : Files) : result Files :=
  let* bytes := config_value_json to_chars v true in Ok (emplace path bytes files).

Definition put_all (l : list (string * Value)) (files : Files) : result Files :=
  fold_result (fun kv files => put kv.1 kv.2 files) l files.

(** ** The files of the platform *)

Definition console_port (platform : Value) : result Z :=
  let* console := at_ platform "console" in integer_at console "port".

Definition prometheus_files (platform : Value) (files : Files) : result Files :=
  let* alerts := parse_document (prometheus_alerts assets) in
  let* files := put "prometheus-alerts.json" alerts files in
  let* port := console_port platform in
  let target := obj [("targets", VArr [VStr ("platform:" +:+ to_string port)])] in
  let scrape := obj [("job_name", VStr "graphx");
                     ("authorization", obj [("credentials_file", VStr "/run/secrets/observer/token")]);
                     ("static_configs", VArr [target])] in
  put "prometheus.json"
    (obj [("rule_files", strings ["/etc/prometheus/alerts.json"]);
          ("global", obj [("scrape_interval", VStr "5s")]); ("scrape_configs", VArr [scrape])]) files.

Definition grafana_files (files : Files) : result Files :=
  let* dashboard := parse_document (grafana_dashboard assets) in
  let* files := put "grafana-dashboard.json" dashboard files in
  put_all
    [("grafana-dashboards.json",
      obj [("apiVersion", VInt 1);
           ("providers", VArr [obj [("name", VStr "GraphX"); ("folder", VStr "GraphX");
                                    ("type", VStr "file"); ("disableDeletion", VBool true);
                                    ("editable", VBool false);
                                    ("options", obj [("path", VStr "/etc/graphx-dashboards")])]])]);
     ("grafana-datasources.json",
      obj [("apiVersion", VInt 1);
           ("datasources", VArr [obj [("name", VStr "GraphX"); ("type", VStr "prometheus");
                                      ("access", VStr "proxy"); ("url", VStr "http://prometheus:9090");
                                      ("isDefault", VBool true)]])])] files.

Definition project_platform_artifacts (platform : Value) (extensions : Array) : result Files :=
  let* files := put "platform.json" platform [] in
  fold_result (fun extension files =>
    if value_eqb extension (VStr "prometheus") then prometheus_files platform files
    else grafana_files files) extensions files.

(** ** Nodes *)

(** What the loop over the nodes collects *)
Record Plan := {
  files : Files; services : Object; networks : Object; platform_networks : Object;
  processes : Array; guests : Array; external : Array }.

Definition with_files (f : Files) (p : Plan) : Plan :=
  {| files := f; services := services p; networks := networks p; platform_networks := platform_networks p;
     processes := processes p; guests := guests p; external := external p |}.
Definition add_process (v : Value) (p : Plan) : Plan :=
  {| files := files p; services := services p; networks := networks p;
     platform_networks := platform_networks p; processes := processes p ++ [v]; guests := guests p;
     external := external p |}.
Definition add_guest (v : Value) (p : Plan) : Plan :=
  {| files := files p; services := services p; networks := networks p;
     platform_networks := platform_networks p; processes := processes p; guests := guests p ++ [v];
     external := external p |}.
Definition add_external (v : Value) (p : Plan) : Plan :=
  {| files := files p; services := services p; networks := networks p;
     platform_networks := platform_networks p; processes := processes p; guests := guests p;
     external := external p ++ [v] |}.

Definition internal_bridge : Value := obj [("driver", VStr "bridge"); ("internal", VBool true)].

Definition secret_mount (ref : string) : string :=
  "${GX_CREDENTIALS}/" +:+ ref +:+ ":/run/secrets/" +:+ ref +:+ ":ro".

(** The captures of the application itself *)
Definition own_captures (node : Value) : result bool :=
  let* capture := at_ node "capture" in
  let* enabled := boolean_at capture "enabled" in
  if (enabled : bool) then eq_at capture "provider" (VStr "application") else Ok false.

Definition node_volumes (node : Value) (id : string) (refs : list string) : result Value :=
  let mounts := ["./nodes/" +:+ id +:+ ".json:/run/graphx/node.json:ro";
                 "${GX_STATE}/barriers:/run/graphx/barriers:ro"] ++ map secret_mount refs in
  let* captures := own_captures node in
  Ok (strings (mounts ++ (if (captures : bool)
                          then ["${GX_STATE}/captures/" +:+ id +:+ ":/captures"] else []))).

(** The networks of the service of a node: management, and the portable one *)
Definition attached_networks (portable : Value) (id : string) : result Object :=
  let attached := set_key ("mg-" +:+ id) (obj []) [] in
  if is_null portable then Ok attached
  else
    let* addresses := at_ portable "addresses" in
    let* address := at_ addresses id in
    Ok (set_key "data" (obj [("ipv4_address", address)]) attached).

Definition container_service (graph_id : string) (portable node type : Value) (id : string)
    (refs : list string) : result Value :=
  let* image := at_ type "image" in
  let* service := service_base image in
  let* service := (if contains node "recorder" then assign service "cap_add" (strings ["NET_RAW"])
                   else Ok service) in
  let* argv := node_argv node type true in
  let* service := with_fields [("entrypoint", strings (take 1 argv)); ("command", strings (drop 1 argv))]
                    service in
  let* resources := at_ type "resources" in
  let* memory := at_ resources "memory_bytes" in
  let* pids := at_ resources "pids" in
  let* environment := node_environment node true in
  let* volumes := node_volumes node id refs in
  let* attached := attached_networks portable id in
  with_fields
    [("mem_limit", memory); ("pids_limit", pids);
     ("labels", obj [("org.graphx.graph", VStr graph_id); ("org.graphx.node", VStr id);
                     ("org.graphx.owner", VStr "${GX_OWNER}")]);
     ("environment", environment); ("volumes", volumes); ("networks", VObj attached)] service.

Definition add_service (id : string) (service : Value) (p : Plan) : Plan :=
  {| files := files p; services := set_key id service (services p);
     networks := set_key ("mg-" +:+ id) internal_bridge (networks p);
     platform_networks := set_key ("mg-" +:+ id) (obj [("aliases", strings ["platform"])])
                            (platform_networks p);
     processes := processes p; guests := guests p; external := external p |}.

(** [v["limits"]["memory_bytes"] = memory] *)
Definition limit_memory (memory : Value) (v : Value) : result Value :=
  Scenario.assign_path ["limits"; "memory_bytes"] memory v.

Definition node_process (graph_id : string) (node type : Value) (id kind : string) (refs : list string)
    : result Value :=
  let* argv := node_argv node type false in
  let* readiness := at_ node "readiness" in
  let p := process id argv refs readiness in
  let* p := assign p "kind" (VStr kind) in
  let* name := (if String.eqb kind "namespace" then
                  let* execution := at_ node "execution" in
                  let* name := string_or execution "namespace" id in
                  Ok (VStr (resource_name sha256 graph_id "namespace" name))
                else Ok VNull) in
  let* p := assign p "namespace" name in
  let* resources := at_ type "resources" in
  let* memory := at_ resources "memory_bytes" in
  let* p := limit_memory memory p in
  let* environment := node_environment node false in
  assign p "environment" environment.

(** The components of a relative source path stay below their root. *)
Definition check_source (ref path : string) : result unit :=
  let* _ := reject_if (String.eqb path "" || ConfigLoad.is_absolute path) "E_COMPILE_SOURCE" ref
              "relative source path required" in
  for_each (fun part =>
    reject_if (String.eqb part "." || String.eqb part ".."
               || ConfigLoad.has_char "\" part)
      "E_COMPILE_SOURCE" ref "source path escapes its declared root") (Process.split_slash path).

Definition guest_plan (catalog network node : Value) (p : Plan) : result Plan :=
  let* execution := at_ node "execution" in
  let* ref := text_at execution "guest" in
  let* _ := identity ref in
  let* recipe := catalog_definition catalog "guests/" ref in
  let* builder := at_ recipe "builder_image" in
  let* _ := image_pin builder in
  let* sources := at_ catalog "sources.json" in
  let* entries := at_ sources "entries" in
  let* source_ref := text_at recipe "source_ref" in
  let* _ := reject_if (negb (contains entries source_ref)) "E_COMPILE_SOURCE" ref
              "guest source reference is not pinned in the catalog" in
  let* source := at_ entries source_ref in
  let* path := text_at source "relative_path" in
  let* _ := check_source ref path in
  let* files := put ("guest-build/" +:+ ref +:+ ".json") recipe (files p) in
  let* guest := qemu_guest node recipe network in
  Ok (add_guest guest (with_files files p)).

Definition compile_node (graph_id : string) (catalog network portable credentials node : Value)
    (p : Plan) : result Plan :=
  let* id := text_at node "node_id" in
  let* _ := identity id in
  let* type_id := text_at node "type" in
  let* type := catalog_definition catalog "types/" type_id in
  let* image := at_ type "image" in
  let* _ := image_pin image in
  let* revision := at_ type "revision" in
  let* same := (let* expected := at_ node "type_revision" in Ok (value_eqb revision expected)) in
  let* _ := reject_if (negb same) "E_COMPILE_TYPE" id "type revision mismatch" in
  let* files := put ("nodes/" +:+ id +:+ ".json") node (files p) in
  let p := with_files files p in
  let* execution := at_ node "execution" in
  let* kind := text_at execution "kind" in
  let* refs := credential_refs credentials id in
  if String.eqb kind "container" then
    let* service := container_service graph_id portable node type id refs in
    Ok (add_service id service p)
  else if String.eqb kind "native" || String.eqb kind "namespace" then
    let* v := node_process graph_id node type id kind refs in
    Ok (add_process v p)
  else if String.eqb kind "qemu" then guest_plan catalog network node p
  else if String.eqb kind "external" then
    let* readiness := at_ node "readiness" in
    Ok (add_external (obj [("node", VStr id); ("lifecycle", VStr "untouched"); ("readiness", readiness)]) p)
  else reject "E_COMPILE_EXECUTION" id "unsupported execution kind".

(** ** The platform and its extensions *)

Definition native_platform (platform : Value) (refs : list string) : result Value :=
  let* port := console_port platform in
  limit_memory (VInt 268435456)
    (process "platform" ["${GX_RELEASE}/bin/graphx-platform"; "--config"; "${GX_OUTPUT}/platform.json"]
       refs
       (obj [("kind", VStr "http");
             ("url", VStr ("http://127.0.0.1:" +:+ to_string port +:+ "/api/ready"));
             ("timeout_ms", VInt 30000)])).

Definition platform_volumes (refs : list string) : Value :=
  strings (["./resolved.json:/run/graphx/resolved.json:ro"; "./platform.json:/run/graphx/platform.json:ro";
            "./credentials.json:/run/graphx/credentials.json:ro";
            "${GX_STATE}/console:/run/graphx/console:ro";
            "${GX_STATE}/history:/var/lib/graphx/history"; "${GX_STATE}/handoff:/captures:ro"]
           ++ map secret_mount refs).

(** The networks of the platform, and those with the console bridge *)
Definition platform_attachments (p : Plan) : Object :=
  match platform_networks p with
  | [] => [("mg-platform", obj [])]
  | l => l
  end.

Definition console_networks (p : Plan) : Object :=
  set_key "mg-console" (obj []) (platform_attachments p).

Definition platform_bridges (p : Plan) : Object :=
  let networks := match platform_networks p with
                  | [] => set_key "mg-platform" internal_bridge (networks p)
                  | _ => networks p
                  end in
  set_key "mg-console" (obj [("driver", VStr "bridge")]) networks.

Definition platform_service (platform : Value) (refs : list string) (p : Plan) : result Value :=
  let* image := at_ platform "image" in
  let* service := service_base image in
  let* history := at_ platform "history" in
  let* bytes := integer_at history "max_database_bytes" in
  let* console := at_ platform "console" in
  let* bind := text_at console "bind" in
  let* port := integer_at console "port" in
  with_fields
    [("mem_limit", VInt (Z.max 536870912 (Z.quot bytes 2 + 268435456)));
     ("entrypoint", strings ["graphx-platform"]);
     ("command", strings ["--config"; "/run/graphx/platform.json"]);
     ("environment", obj [("GX_CREDENTIALS", VStr "/run/secrets"); ("GX_STATE", VStr "/var/lib/graphx");
                          ("GX_CONSOLE", VStr "/run/graphx/console"); ("GX_OWNER", VStr "${GX_OWNER}")]);
     ("volumes", platform_volumes refs); ("networks", VObj (console_networks p));
     ("ports", VArr [VStr (bind +:+ ":" +:+ to_string port +:+ ":" +:+ to_string port)])] service.

Definition prometheus_image : string :=
  "prom/prometheus:v3.13.0@sha256:c6b27ea434f8389bfe233fbc7be381cf50587c286e871bc842008f5a1b1908a7".
Definition grafana_image : string :=
  "grafana/grafana:13.2.0@sha256:3fd54ae1214669f8355f065ec9f6445d5279a3d77095ab048ca045685272429b".

Definition extension_fields (id : string) : list (string * Value) :=
  if String.eqb id "prometheus" then
    [("command", strings ["--config.file=/etc/prometheus/graphx.json"; "--storage.tsdb.path=/prometheus/data";
                          "--storage.tsdb.retention.time=24h"; "--storage.tsdb.retention.size=128MB"]);
     ("volumes", strings ["./prometheus.json:/etc/prometheus/graphx.json:ro";
                          "./prometheus-alerts.json:/etc/prometheus/alerts.json:ro";
                          secret_mount "observer"]);
     ("tmpfs", strings ["/prometheus:rw,nosuid,nodev,noexec,size=256m,uid=65532,gid=65532,mode=0700"]);
     ("ports", strings ["127.0.0.1:9090:9090"])]
  else
    [("pids_limit", VInt 256);
     ("environment", obj [("GOMAXPROCS", VStr "2");
                          ("GF_SECURITY_ADMIN_PASSWORD__FILE", VStr "/run/secrets/grafana-admin/password");
                          ("GF_USERS_ALLOW_SIGN_UP", VStr "false");
                          ("GF_AUTH_ANONYMOUS_ENABLED", VStr "false")]);
     ("volumes", strings ["./grafana-datasources.json:/etc/grafana/provisioning/datasources/graphx.yaml:ro";
                          "./grafana-dashboards.json:/etc/grafana/provisioning/dashboards/graphx.yaml:ro";
                          "./grafana-dashboard.json:/etc/graphx-dashboards/graphx.json:ro";
                          secret_mount "grafana-admin"]);
     ("tmpfs", strings ["/tmp:rw,nosuid,nodev,size=16m";
                        "/var/lib/grafana:rw,nosuid,nodev,size=128m,uid=65532,gid=65532,mode=0700"]);
     ("ports", strings ["127.0.0.1:3000:3000"])].

Definition extension_service (console : Object) (extension : Value) (services : Object) : result Object :=
  let* id := text extension in
  let* extra := service_base (VStr (if String.eqb id "prometheus" then prometheus_image else grafana_image)) in
  let* extra := with_fields ([("networks", VObj console); ("mem_limit", VInt 536870912);
                              ("pids_limit", VInt 128)] ++ extension_fields id) extra in
  Ok (set_key id extra services).

Definition compose_platform (platform : Value) (refs : list string) (p : Plan) : result Plan :=
  let* service := platform_service platform refs p in
  let* extensions := array_at platform "extensions" in
  let* services := fold_result (extension_service (console_networks p)) extensions
                     (set_key "platform" service (services p)) in
  Ok {| files := files p; services := services; networks := platform_bridges p;
        platform_networks := platform_attachments p; processes := processes p; guests := guests p;
        external := external p |}.

(** ** The other documents *)

Definition ovs_plan (network : Value) : result Value :=
  let* captures := array_at network "captures" in
  Ok (obj [("version", VInt 1); ("api", VStr "execute_ovs_lifecycle"); ("config", VStr "resolved.json");
           ("resource_intent", network); ("capture_process_count", VInt (Z.of_nat (length captures)));
           ("privileged_authorization_required", VBool true);
           ("cleanup", VStr "identity-checked destroy; external devices untouched")]).

Definition capture_handoff (capture : Value) : result Value :=
  let* id := at_ capture "id" in
  let* name := text_at capture "id" in
  let* bytes := at_ capture "max_file_bytes" in
  Ok (obj [("id", id); ("destination", VStr ("${GX_STATE}/handoff/" +:+ name +:+ ".pcapng"));
           ("interval_seconds", VInt 5); ("max_bytes", bytes)]).

Definition ovs_files (network : Value) (files : Files) : result Files :=
  let* plan := ovs_plan network in
  let* files := put "ovs-plan.json" plan files in
  let* captures := array_at network "captures" in
  let* captures := map_result capture_handoff captures in
  match captures with
  | [] => Ok files
  | _ => put "capture-handoff.json"
           (obj [("version", VInt 1); ("api", VStr "export_owned_network_capture");
                 ("captures", VArr captures);
                 ("permissions",
                  VStr "sealed read-only snapshots to platform group; live rings remain privileged")]) files
  end.

Definition is_kind (kind : string) (node : Value) : result bool :=
  let* execution := at_ node "execution" in eq_at execution "kind" (VStr kind).

Definition when (b : bool) (v : Value) : Array := if b then [v] else [].

Definition stages (resolved : Value) (native ovs has_guests : bool) (nodes : Array) : result Value :=
  let* has_namespaces := any_result (is_kind "namespace") nodes in
  let* lifecycle := at_ resolved "lifecycle" in
  let* readiness := at_ lifecycle "readiness_ms" in
  let* startup := at_ lifecycle "startup" in
  Ok (VArr
    ([obj [("operation", VStr "preflight");
           ("checks", strings ["manifest hashes"; "verified release identities"; "target capabilities";
                               "roots and listener availability"; "credential references"])];
      obj [("operation", VStr "stage-credentials"); ("plan", VStr "credentials.json")];
      obj [("operation", VStr "start-platform");
           ("owner", VStr (if native then "native-plan.json" else "compose.yaml"))];
      obj [("operation", VStr "await-platform"); ("timeout_ms", VInt 30000)]]
     ++ when has_namespaces
          (obj [("operation", VStr "prepare-owned-namespaces");
                ("owner", VStr "existing namespace resource lifecycle"); ("plan", VStr "native-plan.json")])
     ++ [obj [("operation", VStr "start-applications-held")]]
     ++ when ovs (obj [("operation", VStr "realize-ovs"); ("plan", VStr "ovs-plan.json")])
     ++ when has_guests (obj [("operation", VStr "start-guests-held"); ("plan", VStr "qemu-plan.json")])
     ++ [obj [("operation", VStr "await-local-listeners"); ("timeout_ms", readiness); ("startup", startup);
              ("protocol", VStr "ready node=ID on owned process stdout")];
         obj [("operation", VStr "release-connectors"); ("file", VStr "${GX_STATE}/barriers/release");
              ("contents", VStr "${GX_OWNER}"); ("publication", VStr "atomic rename")];
         obj [("operation", VStr "return"); ("continuous_supervision", VBool false)]])).

Definition execution_plan (resolved stages : Value) (native available : bool) (external : Array)
    : result Value :=
  let* lifecycle := at_ resolved "lifecycle" in
  Ok (obj [("version", VInt 1); ("config", VStr "resolved.json");
           ("mode", VStr (if native then "native" else "compose")); ("executable", VBool available);
           ("stages", stages); ("lifecycle", lifecycle); ("external", VArr external);
           ("scenario_actions", VStr "never implicit");
           ("on_failure",
            VStr ("classified application unavailability follows lifecycle policy; other failures "
                  +:+ "reverse newly owned resources and retain evidence"));
           ("stop_order", strings ["applications and guests"; "capture handoff"; "OVS resources"; "platform";
                                   "ephemeral credentials"])]).

Definition substitutions : Value :=
  let value key := (key, obj [("type", VStr (if String.eqb key "GX_OWNER" then "identity-token"
                                             else "absolute-directory"));
                              ("phase", VStr "execution")]) in
  obj [("syntax", VStr "${GX_NAME}"); ("secrets_in_values", VBool false);
       ("values", VObj (fold_left (fun acc kv => set_key kv.1 kv.2 acc)
                          (map value ["GX_OUTPUT"; "GX_STATE"; "GX_CREDENTIALS"; "GX_RELEASE"; "GX_OWNER"]) []))].

Definition catalog_pins (graph : ConfigLoad.GraphConfig) (catalog : Value) : result Value :=
  let* digest := at_ (ConfigLoad.resolved graph) "catalog_digest" in
  let* lock := at_ (ConfigLoad.catalog graph) "lock" in
  Ok (obj [("catalog_digest", digest); ("lock", lock); ("artifacts_verified", VBool false);
           ("verification_gate", VStr "P4 images and native release; P8 guest artifacts");
           ("documents", catalog)]).

Definition file_hash (f : string * string) : Value :=
  obj [("path", VStr f.1); ("sha256", VStr (sha256 f.2))].

Definition manifest (graph : ConfigLoad.GraphConfig) (available : bool) (files : Files) : result Value :=
  let resolved := ConfigLoad.resolved graph in
  let* target := at_ resolved "target" in
  let* catalog_digest := at_ resolved "catalog_digest" in
  let* input_digest := at_ resolved "input_digest" in
  Ok (obj [("version", VInt 1); ("compiler", VStr kCompilerContract);
           ("compiler_version", VStr (library_version assets));
           ("serializer", VStr "graphx-json-1-yaml12-subset"); ("graph_id", VStr (ConfigLoad.id graph));
           ("target", target); ("catalog_digest", catalog_digest); ("input_digest", input_digest);
           ("files", VArr (map file_hash files)); ("execution_available", VBool available);
           ("artifact_identities_verified", VBool false);
           ("replacement",
            VStr "refused; use fresh output until owned-consumer inactivity can be verified")]).

(** ** [compile_graph] *)

Record CompiledGraph := { graph_id : string; compiled_files : Files }.

Definition check_input (graph : ConfigLoad.GraphConfig) : result unit :=
  let* schema := parse_document (normalized_schema assets) in
  let* _ := ConfigSchema.validate_shape regex_search to_chars fuel schema (ConfigLoad.resolved graph) schema "$" in
  let* known := (if negb (ConfigLoad.version graph =? 3) then Ok false
                 else
                   let* id := text_at (ConfigLoad.resolved graph) "graph_id" in
                   Ok (String.eqb (ConfigLoad.id graph) id && contains (ConfigLoad.catalog graph) "files")) in
  let* _ := reject_if (negb known) "E_COMPILE_INPUT" "$"
              "a resolved v3 graph with verified catalog is required" in
  identity (ConfigLoad.id graph).

Definition check_catalog (catalog : Value) : result unit :=
  let* _ := for_each (fun file =>
    reject_if (negb (contains catalog file)) "E_COMPILE_CATALOG" file
      "required pinned catalog document missing") ["templates.json"; "sources.json"; "targets.json"] in
  let* templates := at_ catalog "templates.json" in
  reject_if (negb (value_eqb templates expected_templates)) "E_COMPILE_TEMPLATE" "templates"
    "unsupported fixed template contract".

Definition check_platform (platform : Value) : result unit :=
  let* image := at_ platform "image" in
  let* _ := image_pin image in
  let* other := differs platform "template" (VStr "platform-v1") in
  reject_if other "E_COMPILE_TEMPLATE" "platform" "unsupported platform template".

(** [std::ranges::all_of] *)
Definition all_result {A} (p : A -> result bool) (l : list A) : result bool :=
  let* other := any_result (fun x => let* b := p x in Ok (negb b)) l in Ok (negb other).

(** Whether a node runs where the runner can start it *)
Definition runnable (native ovs : bool) (node : Value) : result bool :=
  let* execution := at_ node "execution" in
  let* kind := at_ execution "kind" in
  let kind_is k := value_eqb kind (VStr k) in
  Ok (if native then kind_is "native"
      else kind_is "container" || kind_is "external" || (ovs && (kind_is "namespace" || kind_is "qemu"))).

Definition available (native ovs : bool) (network : Value) (nodes : Array) : result bool :=
  if native && ovs then Ok false
  else
    let* attachments := array_at network "attachments" in
    let* foreign := any_result (fun a => eq_at a "kind" (VStr "external")) attachments in
    if (foreign : bool) then Ok false else all_result (runnable native ovs) nodes.

Definition check_capabilities (catalog resolved : Value) (native ovs : bool) : result unit :=
  let* targets := at_ catalog "targets.json" in
  let* target := text_at resolved "target" in
  let* _ := reject_if (negb (contains targets target)) "E_COMPILE_TARGET" "target"
              "missing pinned target capabilities" in
  let* capability := at_ targets target in
  let lacks key := let* b := boolean_at capability key in Ok (negb b) in
  let* refused := or_result (if native then Ok false else lacks "docker")
                    (or_result (if native then lacks "platform_native" else Ok false)
                       (if ovs then lacks "ovs" else Ok false)) in
  reject_if refused "E_COMPILE_TARGET" "target"
    "pinned target capabilities do not support the resolved plan".

(** The processes in the order of their names *)
Fixpoint insert_process (kv : string * Value) (l : list (string * Value)) : list (string * Value) :=
  match l with
  | [] => [kv]
  | x :: l' => match String.compare kv.1 x.1 with Gt => x :: insert_process kv l' | _ => kv :: l end
  end.
Definition sort_processes (l : Array) : result Array :=
  match l with
  | [] | [_] => Ok l
  | _ => let* named := map_result (fun p => let* id := text_at p "id" in Ok (id, p)) l in
         Ok (map snd (foldr insert_process [] named))
  end.

Definition portable_bridge (portable : Value) : result Object :=
  if is_null portable then Ok []
  else
    let* subnet := at_ portable "subnet" in
    Ok [("data", obj [("driver", VStr "bridge"); ("internal", VBool true);
                      ("ipam", obj [("config", VArr [obj [("subnet", subnet)]])])])].

(** Credentials, platform and nodes, before the documents are written *)
Definition deployment (graph : ConfigLoad.GraphConfig) (catalog : Value) (native : bool)
    (credentials : Value) (files : Files) : result Plan :=
  let resolved := ConfigLoad.resolved graph in
  let* nodes := array_at resolved "nodes" in
  let* platform := at_ resolved "platform" in
  let* network := at_ resolved "network" in
  let* portable := at_ resolved "portable_network" in
  let* networks := portable_bridge portable in
  let* refs := credential_refs credentials "platform" in
  let* own := (if native then let* p := native_platform platform refs in Ok [p] else Ok []) in
  let* p := fold_result (compile_node (ConfigLoad.id graph) catalog network portable credentials) nodes
              {| files := files; services := []; networks := networks; platform_networks := [];
                 processes := own; guests := []; external := [] |} in
  if native then Ok p else compose_platform platform refs p.

Definition compose_document (graph : ConfigLoad.GraphConfig) (p : Plan) : Value :=
  obj [("name", VStr (ConfigLoad.id graph)); ("services", VObj (services p)); ("networks", VObj (networks p))].

Definition native_document (processes : Array) : Value :=
  obj [("version", VInt 1); ("owner_api", VStr "owned-process-adapter"); ("processes", VArr processes);
       ("start", VStr "platform-ready then bind-all then release-connectors");
       ("state", VStr "existing ownership store")].

(** The files of the three kinds of execution *)
Definition deployment_files (graph : ConfigLoad.GraphConfig) (p : Plan) (files : Files) : result Files :=
  let* files := (match services p with
                 | [] => Ok files
                 | _ => put "compose.yaml" (compose_document graph p) files
                 end) in
  let* files := (match processes p with
                 | [] => Ok files
                 | l => let* l := sort_processes l in put "native-plan.json" (native_document l) files
                 end) in
  match guests p with
  | [] => Ok files
  | l => put "qemu-plan.json"
           (obj [("version", VInt 1); ("adapter", VStr "qemu-process-adapter"); ("guests", VArr l)]) files
  end.

Definition laboratory_files (graph : ConfigLoad.GraphConfig) (files : Files) : result Files :=
  let* files := (if contains (ConfigLoad.authored graph) "scenario" then
                   let* plan := Scenario.scenario_plan to_chars stod (ConfigLoad.authored graph)
                                  (ConfigLoad.resolved graph) in
                   put "scenario-plan.json" plan files
                 else Ok files) in
  if String.eqb (ConfigLoad.laboratory_action graph) "" then Ok files
  else put "laboratory-selection.json"
         (obj [("version", VInt 1); ("action", VStr (ConfigLoad.laboratory_action graph));
               ("physical_device", VBool false); ("trust", VStr "isolated laboratory credentials")]) files.

Definition is_compose (graph : ConfigLoad.GraphConfig) : result (bool * bool) :=
  let resolved := ConfigLoad.resolved graph in
  let* platform := at_ resolved "platform" in
  let* telemetry := at_ platform "telemetry" in
  let* native := eq_at telemetry "host" (VStr "127.0.0.1") in
  let* network := at_ resolved "network" in
  let* switches := array_at network "switches" in
  Ok (native, match switches with [] => false | _ => true end).

Definition compile_graph (graph : ConfigLoad.GraphConfig) : result CompiledGraph :=
  let resolved := ConfigLoad.resolved graph in
  let* _ := check_input graph in
  let* catalog := at_ (ConfigLoad.catalog graph) "files" in
  let* _ := check_catalog catalog in
  let* nodes := array_at resolved "nodes" in
  let* platform := at_ resolved "platform" in
  let* _ := check_platform platform in
  let* (native, ovs) := is_compose graph in
  let* network := at_ resolved "network" in
  let* available := available native ovs network nodes in
  let* _ := check_capabilities catalog resolved native ovs in
  let* files_ := put "resolved.json" resolved [] in
  let* credentials := credential_plan graph in
  let* files_ := put "credentials.json" credentials files_ in
  let* p := deployment graph catalog native credentials files_ in
  let* extensions := (if native then Ok [] else array_at platform "extensions") in
  let* platform_files := project_platform_artifacts platform extensions in
  let files_ := insert_files platform_files (files p) in
  let* files_ := deployment_files graph p files_ in
  let* files_ := (if ovs then ovs_files network files_ else Ok files_) in
  let* files_ := laboratory_files graph files_ in
  let has_guests := match guests p with [] => false | _ => true end in
  let* stages := stages resolved native ovs has_guests nodes in
  let* plan := execution_plan resolved stages native available (external p) in
  let* files_ := put "execution-plan.json" plan files_ in
  let* files_ := put "substitutions.json" substitutions files_ in
  let* pins := catalog_pins graph catalog in
  let* files_ := put "catalog-pins.json" pins files_ in
  let* manifest := manifest graph available files_ in
  let* files_ := put "compile-manifest.json" manifest files_ in
  Ok {| graph_id := ConfigLoad.id graph; compiled_files := files_ |}.
End Compile.
End Compile.

(** * A graph for the examples of a compilation

    One container node, a platform in Compose and a catalog that pins them. *)

From Stdlib Require Import ZArith Strings.Byte Strings.Ascii Strings.String Floats.SpecFloat.
From stdpp Require Import base option strings list.
From S2P Require Import Prelude ConfigValue ConfigSchema ConfigNetwork ConfigGraph ResolvedNetwork ConfigLoad.
From S2P Require Import Scenario Text Process.

Module CompileSamples.
Import ConfigValue ConfigNetwork Compile.
Local Open Scope Z_scope.

Definition digest64 : string := "0123456789abcdef0123456789abcdef0123456789abcdef0123456789abcdef".
Definition pinned : Value := VStr ("registry/graphx@sha256:" +:+ digest64).

(** A container node with one credential for a port *)
Definition sample_node (id : string) : Value :=
  obj [("node_id", VStr id); ("type", VStr "source"); ("type_revision", VInt 1);
       ("execution", obj [("kind", VStr "container")]);
       ("credentials", obj [("out", VStr "link")]);
       ("bindings", obj [("out", VArr [obj [("role", VStr "listen")]])]);
       ("telemetry", obj [("credential", VStr "telemetry-1")]);
       ("capture", obj [("enabled", VBool false)]); ("readiness", obj [])].

Definition sample_platform : Value :=
  obj [("image", pinned); ("template", VStr "platform-v1"); ("telemetry", obj [("host", VStr "platform")]);
       ("extensions", strings ["prometheus"]); ("control", obj [("grants", VArr [])]);
       ("otlp", obj [("enabled", VBool false)]); ("history", obj [("max_database_bytes", VInt 1048576)]);
       ("console", obj [("bind", VStr "127.0.0.1"); ("port", VInt 8080)])].

Definition sample_resolved (id : string) : Value :=
  obj [("graph_id", VStr "demo"); ("nodes", VArr [sample_node id]); ("platform", sample_platform);
       ("network", obj [("switches", VArr []); ("attachments", VArr []); ("captures", VArr [])]);
       ("portable_network",
        obj [("subnet", VStr "10.1.0.0/24"); ("addresses", obj [(id, VStr "10.1.0.2")])]);
       ("target", VStr "lima"); ("lifecycle", obj [("readiness_ms", VInt 1000); ("startup", VStr "strict")]);
       ("catalog_digest", VStr "d1"); ("input_digest", VStr "d2")].

Definition sample_catalog : Value :=
  obj [("lock", obj []);
       ("files",
        obj [("templates.json", expected_templates); ("sources.json", obj [("entries", obj [])]);
             ("targets.json", obj [("lima", obj [("docker", VBool true)])]);
             ("types/source.json",
              obj [("id", VStr "source"); ("executable", VStr "graphx-source");
                   ("template", VStr "node-v1"); ("image", pinned); ("revision", VInt 1);
                   ("resources", obj [("memory_bytes", VInt 67108864); ("pids", VInt 32)])])])].

Definition sample_authored : Value :=
  obj [("credentials",
        obj [("link", obj [("provider", VStr "lab-generated"); ("members", strings ["key"])])])].

Definition sample_graph (id : string) : ConfigLoad.GraphConfig :=
  {| ConfigLoad.version := 3; ConfigLoad.id := "demo"; ConfigLoad.nodes := []; ConfigLoad.edges := [];
     ConfigLoad.network_infrastructure := 
       {| ResolvedNetwork.networks := []; ResolvedNetwork.switches := []; ResolvedNetwork.routers := [];
          ResolvedNetwork.attachments := []; ResolvedNetwork.edge_paths := [];
          ResolvedNetwork.captures := [] |};
     ConfigLoad.laboratory_action := ""; ConfigLoad.authored := sample_authored;
     ConfigLoad.resolved := sample_resolved id; ConfigLoad.catalog := sample_catalog;
     ConfigLoad.node_types := [] |}.

Definition sample_assets : Assets :=
  {| prometheus_alerts := "alerts"; grafana_dashboard := "dashboard"; normalized_schema := "schema";
     library_version := "1.0.0" |}.
Definition sample_parse (s : string) : result Value := Ok (obj []).
Definition sample_chars (x : spec_float) : string := "0".
Definition sample_stod (s : string) : result spec_float := Throw (InvalidArgument "stod").

Definition compile_sample (id : string) : result CompiledGraph :=
  compile_graph sample_assets 100 sample_parse (fun s => s) (fun _ _ => true) sample_chars sample_stod
    (sample_graph id).
Definition sample_result (id : string) : CompiledGraph :=
  match compile_sample id with Ok r => r | Throw _ => {| graph_id := ""; compiled_files := [] |} end.
Definition sample_compose (id : string) : string :=
  default "" (find_file "compose.yaml" (compiled_files (sample_result id))).
Definition sample_credentials (id : string) : Value :=
  match credential_plan (sample_graph id) with Ok v => v | Throw _ => VNull end.
End CompileSamples.
