(* ===== verification/CompileProofs.v ===== *)
(** * The compilation of a graph: confinement and credentials

    Every service of a Compose document keeps the fixed security fields, the
    services of nodes reach internal networks only, a node gets exactly the
    credentials it declares, and the manifest lists every file.  Two names that
    are not reserved break this: [console] and [reader]. *)

From Stdlib Require Import ZArith Lia Strings.Byte Strings.Ascii Strings.String Floats.SpecFloat.
From stdpp Require Import base option gmap strings list.
From S2P Require Import Prelude ConfigValue ConfigValueProofs ConfigSchema ConfigNetwork ConfigGraph ConfigLoad.
From S2P Require Import Scenario Text Process Compile.

Module CompileProofs.
Import ConfigValue ConfigValueProofs ConfigNetwork Compile CompileSamples.
Local Open Scope Z_scope.

(** ** Files *)

Lemma find_emplace_other q path bytes files : q <> path ->
  find_file q (emplace path bytes files) = find_file q files.
Proof.
  intros Hne. induction files as [|[p b] files IH]; cbn [emplace find_file].
  - by destruct (String.eqb_spec q path).
  - destruct (String.compare path p) eqn:E; cbn [find_file]; [done| |by rewrite IH].
    by destruct (String.eqb_spec q path).
Qed.

Lemma find_emplace path bytes files : find_file path files = None ->
  find_file path (emplace path bytes files) = Some bytes.
Proof.
  induction files as [|[p b] files IH]; cbn [emplace find_file]; [by rewrite String.eqb_refl|].
  destruct (String.eqb_spec path p) as [->|Hne]; [done|]. intros H.
  destruct (String.compare path p) eqn:E; cbn [find_file].
  - by apply String.compare_eq_iff in E.
  - by rewrite String.eqb_refl.
  - destruct (String.eqb_spec path p); [done|auto].
Qed.

(** The files are kept in the order of their names. *)
Definition tagged (f : string * string) : string * Value := (f.1, VStr f.2).
Definition files_ordered (l : Files) : Prop := ordered (map tagged l).

Lemma emplace_key path bytes l : find_file path l = None ->
  map tagged (emplace path bytes l) = set_key path (VStr bytes) (map tagged l).
Proof.
  induction l as [|[p b] l IH]; cbn [emplace find_file]; [done|]. cbn [map tagged fst snd set_key].
  destruct (String.eqb_spec path p) as [->|Hne]; [done|]. intros Hl.
  destruct (String.compare path p) eqn:E; cbn [map tagged fst snd].
  - by apply String.compare_eq_iff in E.
  - done.
  - by rewrite IH.
Qed.

Lemma emplace_kept path bytes b l : files_ordered l -> find_file path l = Some b -> emplace path bytes l = l.
Proof.
  unfold files_ordered. induction l as [|[p c] l IH]; cbn [emplace find_file map tagged fst snd]; [done|].
  intros Ho Hf. inversion Ho as [|? ? ? Hp Hl]; subst.
  destruct (String.eqb_spec path p) as [->|Hne].
  - destruct (String.compare p p) eqn:E; [done| |].
    + by apply key_lt_irrefl in E.
    + apply compare_gt_lt in E. by apply key_lt_irrefl in E.
  - assert (key_lt p path) as Hlt.
    { clear -Hf Hp. induction l as [|[q d] l IH]; cbn [find_file] in Hf; [done|].
      inversion Hp as [|? ? Hq Hl]; subst. destruct (String.eqb_spec path q) as [->|]; [done|auto]. }
    destruct (String.compare path p) eqn:E; [done| |by rewrite IH].
    exfalso. eapply key_lt_irrefl, compare_trans_lt; [exact E|exact Hlt].
Qed.

Lemma emplace_ordered path bytes l : files_ordered l -> files_ordered (emplace path bytes l).
Proof.
  intros Ho. destruct (find_file path l) as [b|] eqn:E; [by erewrite emplace_kept|].
  unfold files_ordered. rewrite emplace_key by done. by apply set_key_ordered.
Qed.

Lemma insert_files_ordered l files : files_ordered files -> files_ordered (insert_files l files).
Proof.
  unfold insert_files. revert files; induction l as [|f l IH]; intros files Ho; [done|].
  cbn [fold_left]. by apply IH, emplace_ordered.
Qed.

Lemma find_file_elem path bytes l : files_ordered l -> find_file path l = Some bytes <-> (path, bytes) ∈ l.
Proof.
  unfold files_ordered. induction l as [|[p b] l IH]; cbn [find_file map tagged fst snd].
  - intros _. split; [done|by intros ?%elem_of_nil].
  - intros Ho. inversion Ho as [|? ? ? Hp Hl]; subst. rewrite elem_of_cons.
    destruct (String.eqb_spec path p) as [->|Hne]; [|rewrite IH by done; naive_solver].
    split; [intros [= <-]; by left|]. intros [[= <-]|Hin]; [done|].
    rewrite Forall_forall in Hp. specialize (Hp (tagged (p, bytes))).
    exfalso. apply (key_lt_irrefl p), Hp. by apply list_elem_of_fmap_2.
Qed.

Section Files.
Context (assets : Assets) (parse_document : string -> result Value) (sha256 : string -> string)
        (to_chars : spec_float -> string).

Lemma put_other path v files files' q : put to_chars path v files = Ok files' -> q <> path ->
  find_file q files' = find_file q files.
Proof. unfold put. intros H Hne. invert_ok. by apply find_emplace_other. Qed.

Lemma put_new path v files files' : put to_chars path v files = Ok files' -> find_file path files = None ->
  exists bytes, config_value_json to_chars v true = Ok bytes /\ find_file path files' = Some bytes.
Proof. unfold put. intros H Hf. invert_ok. eexists. split; [done|]. by apply find_emplace. Qed.
End Files.

(** ** Services *)

(** The fields that a service may have *)
Definition service_fields : list string :=
  ["image"; "restart"; "read_only"; "user"; "cap_drop"; "security_opt"; "tmpfs"; "pids_limit"; "mem_limit";
   "logging"; "cap_add"; "entrypoint"; "command"; "labels"; "environment"; "volumes"; "networks"; "ports"].

(** The values that no node and no extension changes *)
Definition fixed_fields : list (string * Value) :=
  [("restart", VStr "no"); ("read_only", VBool true); ("user", VStr "65532:65532");
   ("cap_drop", strings ["ALL"]); ("security_opt", strings ["no-new-privileges:true"])].

Definition confined_fields (l : Object) : Prop :=
  (forall k v, find_key k l = Some v -> k ∈ service_fields) /\
  Forall (fun kv => find_key kv.1 l = Some kv.2) fixed_fields /\
  (exists image, find_key "image" l = Some (VStr image) /\ pinned_text image = true) /\
  (find_key "cap_add" l = None \/ find_key "cap_add" l = Some (strings ["NET_RAW"])).

Definition confined (v : Value) : Prop := exists l, v = VObj l /\ confined_fields l.

(** A field that may be set without a loss of confinement *)
Definition harmless (k : string) : bool :=
  existsb (String.eqb k) service_fields
  && negb (existsb (String.eqb k) ("image" :: "cap_add" :: map fst fixed_fields)).

Lemma existsb_eqb k l : existsb (String.eqb k) l = true <-> k ∈ l.
Proof.
  rewrite existsb_exists. setoid_rewrite String.eqb_eq. setoid_rewrite <-list_elem_of_In.
  split; [by intros (x & ? & ->)|eauto].
Qed.

Lemma assign_obj l k x : assign (VObj l) k x = Ok (VObj (set_key k x l)).
Proof. done. Qed.
Lemma confined_set k x l : harmless k = true -> confined_fields l -> confined_fields (set_key k x l).
Proof.
  intros Hk (H1 & H2 & H3 & H4). unfold harmless in Hk. reflect_bools.
  assert (forall q, q ∈ "image" :: "cap_add" :: map fst fixed_fields -> q <> k) as Hne.
  { intros q Hq ->. apply existsb_eqb in Hq. congruence. }
  assert (forall q, q ∈ "image" :: "cap_add" :: map fst fixed_fields ->
            find_key q (set_key k x l) = find_key q l) as Hf.
  { intros q Hq. rewrite find_set_key. destruct (String.eqb_spec q k) as [->|]; [by apply Hne in Hq|done]. }
  split; [|split; [|split]].
  - intros q v. rewrite find_set_key. destruct (String.eqb_spec q k) as [->|]; [|apply H1].
    intros _. by apply existsb_eqb.
  - rewrite Forall_forall in H2 |- *. intros kv Hkv. rewrite Hf; [by apply H2|].
    right; right. by apply list_elem_of_fmap_2.
  - rewrite Hf by left. done.
  - rewrite Hf by (right; left). done.
Qed.

Lemma confined_raw l : confined_fields l -> confined_fields (set_key "cap_add" (strings ["NET_RAW"]) l).
Proof.
  intros (H1 & H2 & H3 & H4). split; [|split; [|split]].
  - intros q v. rewrite find_set_key. destruct (String.eqb_spec q "cap_add") as [->|]; [|apply H1].
    intros _. by apply existsb_eqb.
  - rewrite Forall_forall in H2 |- *. intros kv Hkv. rewrite find_set_key.
    destruct (String.eqb_spec kv.1 "cap_add") as [E|]; [|by apply H2].
    assert (existsb (String.eqb "cap_add") (map fst fixed_fields) = false) as Hn by reflexivity.
    rewrite (proj2 (existsb_eqb _ _)) in Hn; [done|]. rewrite <-E. by apply list_elem_of_fmap_2.
  - by rewrite find_set_key.
  - right. by rewrite find_set_key.
Qed.

Lemma with_fields_confined fields : forallb (fun kv => harmless kv.1) fields = true -> forall v v',
  confined v -> with_fields fields v = Ok v' -> confined v'.
Proof.
  intros Hf v v' (l & -> & Hl). revert l Hl. unfold with_fields.
  induction fields as [|[k x] fields IH]; intros l Hl; cbn [fold_result].
  - intros [= <-]. by exists l.
  - cbn [forallb fst] in Hf. apply andb_prop in Hf as [Hk Hf]. cbn [fst snd]. rewrite assign_obj.
    cbn [bind]. apply IH; [done|]. by apply confined_set.
Qed.

(** The last value of a field that was set *)
Lemma with_fields_find fields v v' k : with_fields fields v = Ok v' ->
  forall l, v = VObj l -> exists l', v' = VObj l' /\
    find_key k l' = fold_left (fun acc kv => if String.eqb k kv.1 then Some kv.2 else acc) fields (find_key k l).
Proof.
  intros H l ->. revert l H. unfold with_fields. induction fields as [|[q x] fields IH]; intros l; cbn.
  - intros [= <-]. by exists l.
  - intros H. destruct (IH _ H) as (l' & -> & Hl'). exists l'. split; [done|].
    rewrite Hl', find_set_key. done.
Qed.

Lemma base_confined image v : service_base image = Ok v -> confined v.
Proof.
  unfold service_base, image_pin, reject_if. destruct image as [| | | |s| |]; try done.
  destruct (pinned_text s) eqn:E; [|done]. intros [= <-]. eexists. split; [reflexivity|].
  split; [|split; [|split]].
  - intros k x. rewrite find_object_of. intros Hk%find_key_In. apply existsb_eqb.
    assert (forallb (fun kv : string * Value => existsb (String.eqb kv.1) service_fields)
      [("image", VStr s); ("restart", VStr "no"); ("read_only", VBool true);
           ("user", VStr "65532:65532"); ("cap_drop", strings ["ALL"]);
           ("security_opt", strings ["no-new-privileges:true"]);
           ("tmpfs", strings ["/tmp:rw,nosuid,nodev,size=16m"]); ("pids_limit", VInt 64);
           ("mem_limit", VInt 134217728);
           ("logging", obj [("driver", VStr "json-file");
                            ("options", obj [("max-file", VStr "2"); ("max-size", VStr "1m")])])] = true)
      as Ha by reflexivity.
    rewrite forallb_forall in Ha. by apply (Ha (k, x)), list_elem_of_In.
  - repeat constructor; reflexivity.
  - exists s. split; [reflexivity|done].
  - by left.
Qed.
(** A service without published ports, on internal networks only *)
Definition is_internal (b : Value) : Prop := eq_at b "internal" (VBool true) = Ok true.

Definition isolated (networks : Object) (v : Value) : Prop :=
  exists l attached, v = VObj l /\ find_key "ports" l = None /\
    find_key "networks" l = Some (VObj attached) /\
    forall n x, find_key n attached = Some x -> exists b, find_key n networks = Some b /\ is_internal b.

(** *** The services of nodes *)

Definition node_networks (portable : Value) (id : string) (attached : Object) : Prop :=
  is_Some (find_key ("mg-" +:+ id) attached) /\
  forall n x, find_key n attached = Some x -> n = "mg-" +:+ id \/ (n = "data" /\ is_null portable = false).

Lemma attached_spec portable id attached :
  attached_networks portable id = Ok attached -> node_networks portable id attached.
Proof.
  unfold attached_networks, node_networks. intros H.
  assert (find_key ("mg-" +:+ id) (set_key ("mg-" +:+ id) (obj []) []) = Some (obj [])) as Hm
    by (by rewrite find_set_key, String.eqb_refl).
  destruct (is_null portable) eqn:E; invert_ok.
  - split; [by eexists|]. intros n x. cbn [set_key find_key].
    destruct (String.eqb_spec n ("mg-" +:+ id)); [by left|done].
  - split; [by rewrite find_set_key, Hm; eexists|]. intros n x.
    rewrite find_set_key. destruct (String.eqb_spec n "data"); [by right|].
    cbn [set_key find_key]. destruct (String.eqb_spec n ("mg-" +:+ id)); [by left|done].
Qed.

Lemma base_object image v : service_base image = Ok v ->
  exists l, v = VObj l /\ find_key "ports" l = None.
Proof. unfold service_base. intros H. invert_ok. eexists. split; reflexivity. Qed.

Lemma container_service_spec gid portable node type id refs v :
  container_service gid portable node type id refs = Ok v ->
  confined v /\
  exists l attached, v = VObj l /\ find_key "ports" l = None /\
    find_key "networks" l = Some (VObj attached) /\ node_networks portable id attached.
Proof.
  unfold container_service. intros H. invert_ok.
  match goal with H : service_base _ = Ok ?b |- _ => rename H into Hb; rename b into base end.
  match goal with H : attached_networks _ _ = Ok _ |- _ => rename H into Ha end.
  pose proof (base_confined _ _ Hb) as Hc. destruct (base_object _ _ Hb) as (l & -> & Hports).
  match goal with H : (if contains node _ then _ else _) = Ok ?b |- _ =>
    assert (confined b /\ exists l, b = VObj l /\ find_key "ports" l = None) as [Hc1 (l1 & -> & Hp1)];
    [rename H into Hraw|] end.
  { destruct (contains node "recorder"); [rewrite assign_obj in Hraw|]; apply Ok_inj in Hraw; subst; [|by eauto].
    destruct Hc as (l0 & [= <-] & Hc). split; [eexists; split; [done|by apply confined_raw]|].
    eexists. split; [done|]. by rewrite find_set_key. }
  match goal with H : with_fields [("entrypoint", _); _] _ = Ok ?b |- _ => rename H into Hw; rename b into v1 end.
  assert (confined v1) as Hc2 by (eapply with_fields_confined; [|exact Hc1|exact Hw]; reflexivity).
  destruct (with_fields_find _ _ _ "ports" Hw _ eq_refl) as (l2 & -> & Hp2). cbn in Hp2. rewrite Hp1 in Hp2.
  split; [eapply with_fields_confined; [|exact Hc2|exact H]; reflexivity|].
  destruct (with_fields_find _ _ _ "ports" H _ eq_refl) as (l3 & -> & Hp3). cbn in Hp3. rewrite Hp2 in Hp3.
  destruct (with_fields_find _ _ _ "networks" H _ eq_refl) as (l4 & [= <-] & Hn).
  exists l3. eexists. split; [done|]. split; [done|]. split; [exact Hn|]. by eapply attached_spec.
Qed.

(** *** The plan *)

(** The networks hold an internal bridge for every service, and the portable
    network is internal. *)
Definition plan_invariant (portable : Value) (p : Plan) : Prop :=
  (is_null portable = false -> exists b, find_key "data" (networks p) = Some b /\ is_internal b) /\
  forall id v, find_key id (services p) = Some v ->
    confined v /\ find_key ("mg-" +:+ id) (networks p) = Some internal_bridge /\
    exists l attached, v = VObj l /\ find_key "ports" l = None /\
      find_key "networks" l = Some (VObj attached) /\ node_networks portable id attached.

Section Plan.
Context (assets : Assets) (fuel : nat).
Context (parse_document : string -> result Value) (sha256 : string -> string)
        (regex_search : string -> string -> bool) (to_chars : spec_float -> string)
        (stod : string -> result spec_float).

Lemma mg_inj a b : "mg-" +:+ a = "mg-" +:+ b -> a = b.
Proof. by intros [= H]. Qed.

Lemma compile_node_invariant gid catalog network portable credentials node p p' :
  plan_invariant portable p ->
  compile_node sha256 to_chars gid catalog network portable credentials node p = Ok p' ->
  plan_invariant portable p'.
Proof.
  unfold compile_node. intros [Hd Hs] H. invert_ok.
  match type of H with (if String.eqb ?k "container" then _ else _) = _ => destruct (String.eqb_spec k "container") end.
  - invert_ok. match goal with H : container_service _ _ _ _ ?i _ = Ok _ |- _ =>
      apply container_service_spec in H as [Hc Hv]; set (id := i) in * end. split; cbn.
    + intros Hp. destruct (Hd Hp) as (b & Hb & Hi). exists b. split; [|done].
      rewrite find_set_key. by destruct (String.eqb_spec "data" ("mg-" +:+ id)).
    + intros q v. rewrite !find_set_key. destruct (String.eqb_spec q id) as [->|Hne].
      * intros [= <-]. split; [done|]. split; [by rewrite String.eqb_refl|done].
      * intros Hq. destruct (Hs _ _ Hq) as (Hq1 & Hq2 & Hq3). split; [done|]. split; [|done].
        destruct (String.eqb_spec ("mg-" +:+ q) ("mg-" +:+ id)) as [E|]; [by apply mg_inj in E|done].
  - destruct (_ || _); [invert_ok; by split|].
    destruct (String.eqb _ "qemu"); [unfold guest_plan in H; invert_ok; by split|].
    destruct (String.eqb _ "external"); [invert_ok; by split|]. done.
Qed.

Lemma platform_service_confined platform refs p v : platform_service platform refs p = Ok v -> confined v.
Proof.
  unfold platform_service. intros H. invert_ok.
  eapply with_fields_confined; [|eapply base_confined; eassumption|exact H]. reflexivity.
Qed.

Lemma extension_harmless id : forallb (fun kv : string * Value => harmless kv.1)
  ([("networks", VNull); ("mem_limit", VNull); ("pids_limit", VNull)] ++ extension_fields id) = true.
Proof. unfold extension_fields. by destruct (String.eqb id "prometheus"). Qed.

Definition extended (extensions : Array) (before services : Object) : Prop :=
  forall id v, find_key id services = Some v ->
    confined v /\ (VStr id ∈ extensions \/ find_key id before = Some v).

Lemma extensions_extended console extensions before services :
  (forall id v, find_key id before = Some v -> confined v) ->
  fold_result (extension_service console) extensions before = Ok services ->
  extended extensions before services.
Proof.
  intros Hb. apply fold_result_invariant.
  - intros e s s' He Hs H. unfold extension_service in H. invert_ok. destruct e; try done. invert_ok.
    match goal with H : text _ = Ok _ |- _ => injection H as <- end.
    match goal with H : with_fields _ _ = Ok ?x |- _ => assert (confined x) as Hc end.
    { eapply with_fields_confined; [|eapply base_confined; eassumption|eassumption]. apply extension_harmless. }
    intros id v. rewrite find_set_key. destruct (String.eqb_spec id s0) as [->|].
    + intros [= <-]. split; [done|by left].
    + apply Hs.
  - intros id v Hv. split; [by eapply Hb|by right].
Qed.

(** What a Compose document guarantees of one service *)
Definition service_safe (extensions : Array) (networks : Object) (id : string) (v : Value) : Prop :=
  confined v /\ (id = "platform" \/ VStr id ∈ extensions \/ id = "console" \/ isolated networks v).

Lemma node_isolated portable networks id v :
  (is_null portable = false -> exists b, find_key "data" networks = Some b /\ is_internal b) ->
  find_key ("mg-" +:+ id) networks = Some internal_bridge ->
  (exists l attached, v = VObj l /\ find_key "ports" l = None /\
     find_key "networks" l = Some (VObj attached) /\ node_networks portable id attached) ->
  isolated networks v.
Proof.
  intros Hd Hm (l & attached & -> & Hp & Hn & Ha). exists l, attached. do 3 (split; [done|]).
  intros n x Hx. destruct (proj2 Ha _ _ Hx) as [->|[-> Hport]]; [|by apply Hd].
  exists internal_bridge. split; [done|reflexivity].
Qed.

Lemma bridges_kept p n b : n <> "mg-console" -> n <> "mg-platform" ->
  find_key n (networks p) = Some b -> find_key n (platform_bridges p) = Some b.
Proof.
  intros H1 H2 H. unfold platform_bridges. rewrite find_set_key.
  destruct (String.eqb_spec n "mg-console"); [done|].
  destruct (platform_networks p); [|done]. rewrite find_set_key.
  by destruct (String.eqb_spec n "mg-platform").
Qed.

Lemma compose_platform_safe portable platform extensions refs p p' :
  plan_invariant portable p -> array_at platform "extensions" = Ok extensions ->
  compose_platform platform refs p = Ok p' ->
  forall id v, find_key id (services p') = Some v -> service_safe extensions (networks p') id v.
Proof.
  intros [Hd Hs] He H. unfold compose_platform in H. invert_ok. rewrite He in *. invert_ok.
  match goal with H : platform_service _ _ _ = Ok _ |- _ => apply platform_service_confined in H as Hplat end.
  match goal with H : fold_result _ _ _ = Ok _ |- _ => apply extensions_extended in H as Hext end.
  2: { intros id v. rewrite find_set_key. destruct (String.eqb id "platform"); [by intros [= <-]|].
       intros Hv. by apply Hs in Hv as [? _]. }
  cbn. intros id v Hv. destruct (Hext _ _ Hv) as [Hc Hor]. split; [done|].
  destruct Hor as [|Hor]; [by right; left|]. rewrite find_set_key in Hor.
  destruct (String.eqb_spec id "platform"); [by left|]. right; right.
  destruct (String.eqb_spec id "console"); [by left|right]. destruct (Hs _ _ Hor) as (_ & Hm & Hl).
  eapply node_isolated; [| |exact Hl].
  - intros Hp. destruct (Hd Hp) as (b & Hb & Hi). exists b. split; [|done]. by apply bridges_kept.
  - apply bridges_kept; [by intros ?%(mg_inj _ "console")|by intros ?%(mg_inj _ "platform")|done].
Qed.

Lemma portable_invariant portable networks : portable_bridge portable = Ok networks ->
  is_null portable = false -> exists b, find_key "data" networks = Some b /\ is_internal b.
Proof. unfold portable_bridge. intros H Hn. rewrite Hn in H. invert_ok. eexists. split; [reflexivity|]. reflexivity. Qed.

(** The extensions of a graph, as the services of Compose *)
Definition extension_list (graph : ConfigLoad.GraphConfig) : Array :=
  match (let* platform := at_ (ConfigLoad.resolved graph) "platform" in array_at platform "extensions") with
  | Ok l => l
  | Throw _ => []
  end.

Lemma deployment_safe graph catalog native credentials files p :
  deployment sha256 to_chars graph catalog native credentials files = Ok p ->
  forall id v, find_key id (services p) = Some v -> service_safe (extension_list graph) (networks p) id v.
Proof.
  unfold deployment. intros H. invert_ok.
  match goal with H : fold_result (compile_node _ _ _ _ _ ?port _) _ _ = Ok ?q |- _ =>
    assert (plan_invariant port q) as Hp; [|clear H; set (portable := port) in *] end.
  { eapply fold_result_invariant; [|
      |eassumption].
    - intros node q q1 _ Hq Hs. by eapply compile_node_invariant.
    - split; cbn; [by apply portable_invariant|done]. }
  destruct native; invert_ok.
  - destruct Hp as [Hd Hs]. intros id v Hv. destruct (Hs _ _ Hv) as (Hc & Hm & Hl).
    split; [done|]. right; right; right. by eapply node_isolated.
  - unfold compose_platform in H. invert_ok.
    match goal with H1 : at_ (ConfigLoad.resolved graph) "platform" = Ok ?x, H2 : array_at ?x "extensions" = Ok ?l |- _ =>
      assert (extension_list graph = l) as -> by (unfold extension_list; rewrite H1; cbn; by rewrite H2);
      eapply (compose_platform_safe portable x l); [exact Hp|exact H2|] end.
    unfold compose_platform. repeat match goal with H : _ = Ok _ |- _ => rewrite H; cbn [bind]; clear H end. done.
Qed.

(** *** Which files are written *)

(** Neither the file of a node nor a recipe of a guest *)
Definition fixed_name (q : string) : Prop :=
  forall s, q <> "nodes/" +:+ s /\ q <> "guest-build/" +:+ s.

Lemma compile_node_files gid catalog network portable credentials node p p' q :
  fixed_name q -> compile_node sha256 to_chars gid catalog network portable credentials node p = Ok p' ->
  find_file q (files p') = find_file q (files p).
Proof.
  unfold compile_node. intros Hq H. invert_ok.
  assert (forall l id, put to_chars ("nodes/" +:+ id +:+ ".json") node (files p) = Ok l ->
            find_file q l = find_file q (files p)) as Hn.
  { intros l id Hp. eapply put_other; [exact Hp|]. apply Hq. }
  match type of H with (if ?b then _ else _) = _ => destruct b end; invert_ok; [by eapply Hn|].
  destruct (_ || _); invert_ok; [by eapply Hn|].
  destruct (String.eqb _ "qemu").
  - unfold guest_plan in H. invert_ok. cbn.
    etrans; [eapply put_other; [eassumption|apply Hq]|]. by eapply Hn.
  - destruct (String.eqb _ "external"); invert_ok; [by eapply Hn|done].
Qed.

Lemma deployment_files_kept graph catalog native credentials files p q :
  fixed_name q -> deployment sha256 to_chars graph catalog native credentials files = Ok p ->
  find_file q (Compile.files p) = find_file q files.
Proof.
  unfold deployment. intros Hq H. invert_ok.
  match goal with H : fold_result (compile_node _ _ _ _ _ _ _) _ _ = Ok ?x |- _ =>
    assert (find_file q (Compile.files x) = find_file q files) as Hx; [|clear H] end.
  { eapply (fold_result_invariant (fun x => find_file q (Compile.files x) = find_file q files));
      [| |eassumption]; [|reflexivity].
    intros node s s' _ Hs Hc. rewrite <-Hs. by eapply compile_node_files. }
  destruct native; [by invert_ok|]. unfold compose_platform in H. by invert_ok.
Qed.

Lemma insert_files_other q l files : Forall (fun f => f.1 <> q) l ->
  find_file q (insert_files l files) = find_file q files.
Proof.
  unfold insert_files. revert files; induction l as [|[p b] l IH]; intros files H; [done|].
  inversion H as [|? ? Hp Hl]; subst. cbn [fold_left fst snd]. rewrite IH by done.
  by apply find_emplace_other.
Qed.

Lemma emplace_Forall (P : string * string -> Prop) path bytes l :
  P (path, bytes) -> Forall P l -> Forall P (emplace path bytes l).
Proof.
  intros Hp Hl. induction Hl as [|[q b] l Hq Hl IH]; cbn [emplace]; [by repeat constructor|].
  destruct (String.compare path q); repeat constructor; auto.
Qed.

(** The names of the files of the platform and its extensions *)
Definition platform_names : list string :=
  ["platform.json"; "prometheus-alerts.json"; "prometheus.json"; "grafana-dashboard.json";
   "grafana-dashboards.json"; "grafana-datasources.json"].

Lemma put_named path v l l' : put to_chars path v l = Ok l' -> existsb (String.eqb path) platform_names = true ->
  Forall (fun f => f.1 ∈ platform_names) l -> Forall (fun f => f.1 ∈ platform_names) l'.
Proof. unfold put. intros H Hp Hl. invert_ok. apply emplace_Forall; [|done]. by apply existsb_eqb. Qed.

Lemma platform_files_named platform extensions l :
  project_platform_artifacts assets parse_document to_chars platform extensions = Ok l ->
  Forall (fun f => f.1 ∈ platform_names) l.
Proof.
  unfold project_platform_artifacts. intros H. invert_ok.
  match goal with H : put _ _ _ [] = Ok _ |- _ => pose proof (put_named _ _ _ _ H eq_refl) as Hfirst end.
  eapply (fold_result_invariant (fun files => Forall (fun f => f.1 ∈ platform_names) files)); [| |eassumption].
  - intros e s s' _ Hs Hb. cbn beta in Hb. destruct (value_eqb e (VStr "prometheus")).
    + unfold prometheus_files in Hb. invert_ok.
      eapply put_named; [eassumption|reflexivity|].
      eapply put_named; [eassumption|reflexivity|done].
    + unfold grafana_files, put_all in Hb. cbn [fold_result fst snd] in Hb. invert_ok.
      eapply put_named; [eassumption|reflexivity|].
      eapply put_named; [eassumption|reflexivity|].
      eapply put_named; [eassumption|reflexivity|done].
  - apply Hfirst. constructor.
Qed.

Lemma platform_files_other q platform extensions l files :
  project_platform_artifacts assets parse_document to_chars platform extensions = Ok l ->
  q ∉ platform_names -> find_file q (insert_files l files) = find_file q files.
Proof.
  intros H Hq. apply insert_files_other. eapply Forall_impl; [by eapply platform_files_named|].
  intros [p b] Hp E. cbn in *. by subst.
Qed.

(** Files that one run of puts writes do not change another file. *)
Ltac kept_files :=
  repeat first
    [ match goal with H : put to_chars ?p ?v ?l = Ok ?l' |- find_file ?q ?l' = _ =>
        rewrite (put_other to_chars p v l l' q H) by done; clear H end
    | reflexivity ].

Lemma ovs_files_kept network l l' q :
  ovs_files to_chars network l = Ok l' -> q <> "ovs-plan.json" -> q <> "capture-handoff.json" ->
  find_file q l' = find_file q l.
Proof.
  unfold ovs_files. intros H H1 H2. invert_ok.
  match type of H with match ?c with _ => _ end = _ => destruct c end; invert_ok; kept_files.
Qed.

Lemma laboratory_files_kept graph l l' q :
  laboratory_files to_chars stod graph l = Ok l' ->
  q <> "scenario-plan.json" -> q <> "laboratory-selection.json" -> find_file q l' = find_file q l.
Proof.
  unfold laboratory_files. intros H H1 H2. invert_ok.
  assert (find_file q a = find_file q l) as <-.
  { destruct (contains _ "scenario"); invert_ok; kept_files. }
  destruct (String.eqb _ ""); invert_ok; kept_files.
Qed.

(** The files behind the deployment *)
Lemma later_files_kept graph ovs network l1 l2 l3 q :
  q ∉ ["ovs-plan.json"; "capture-handoff.json"; "scenario-plan.json"; "laboratory-selection.json"] ->
  (if ovs : bool then ovs_files to_chars network l1 else Ok l1) = Ok l2 ->
  laboratory_files to_chars stod graph l2 = Ok l3 -> find_file q l3 = find_file q l1.
Proof.
  intros Hq H1 H2. repeat (apply not_elem_of_cons in Hq as [? Hq]).
  rewrite (laboratory_files_kept _ _ _ _ H2) by done.
  destruct ovs; [by eapply ovs_files_kept|by invert_ok].
Qed.

Lemma fixed_compose : fixed_name "compose.yaml".
Proof. intros s. split; discriminate. Qed.
Lemma fixed_manifest : fixed_name "compile-manifest.json".
Proof. intros s. split; discriminate. Qed.

(** The Compose document that is written is that of the plan. *)
Lemma compose_written graph p l l' bytes :
  deployment_files to_chars graph p l = Ok l' -> find_file "compose.yaml" l = None ->
  find_file "compose.yaml" l' = Some bytes ->
  config_value_json to_chars (compose_document graph p) true = Ok bytes.
Proof.
  unfold deployment_files. intros H Hl Hl'. invert_ok.
  assert (find_file "compose.yaml" l' = find_file "compose.yaml" a) as E.
  { assert (find_file "compose.yaml" a0 = find_file "compose.yaml" a) as <-.
    { destruct (processes p); invert_ok; kept_files. }
    destruct (guests p); invert_ok; kept_files. }
  rewrite E in Hl'. destruct (services p); invert_ok; [congruence|].
  match goal with H : put to_chars "compose.yaml" _ _ = Ok _ |- _ =>
    destruct (put_new to_chars _ _ _ _ H Hl) as (bytes' & Hr & Hf) end.
  congruence.
Qed.

Lemma compiled_plan graph r bytes :
  compile_graph assets fuel parse_document sha256 regex_search to_chars stod graph = Ok r ->
  find_file "compose.yaml" (compiled_files r) = Some bytes ->
  exists native ovs catalog credentials files p,
    is_compose graph = Ok (native, ovs) /\
    deployment sha256 to_chars graph catalog native credentials files = Ok p /\
    config_value_json to_chars (compose_document graph p) true = Ok bytes.
Proof.
  unfold compile_graph. intros H Hb. invert_ok. cbn in Hb.
  repeat match type of Hb with find_file _ ?l = _ =>
    match goal with H : put to_chars ?p _ _ = Ok l |- _ =>
      rewrite (put_other _ _ _ _ _ _ H) in Hb by done; clear H end end.
  match goal with H1 : (if ?o : bool then ovs_files _ ?n ?x else Ok ?x) = Ok ?y, H2 : laboratory_files _ _ _ ?y = Ok ?z |- _ =>
    rewrite (later_files_kept _ _ _ _ _ _ "compose.yaml" ltac:(by rewrite <-existsb_eqb) H1 H2) in Hb end.
  do 6 eexists. split; [eassumption|]. split; [eassumption|].
  eapply compose_written; [eassumption| |exact Hb].
  erewrite platform_files_other by (try eassumption; by rewrite <-existsb_eqb).
  erewrite deployment_files_kept by (try eassumption; apply fixed_compose).
  kept_files.
Qed.

(** C5: Every service of a compiled Compose document runs without privileges: it
    keeps the fixed user, a read-only root, dropped capabilities and a pinned
    image, and has no field outside a fixed set.  Services other than the
    platform and its extensions publish no port and are attached to internal
    networks only, unless the node is called [console]. *)
Theorem services_confined graph r bytes :
  compile_graph assets fuel parse_document sha256 regex_search to_chars stod graph = Ok r ->
  find_file "compose.yaml" (compiled_files r) = Some bytes ->
  exists services networks,
    config_value_json to_chars
      (obj [("name", VStr (ConfigLoad.id graph)); ("services", VObj services); ("networks", VObj networks)])
      true = Ok bytes /\
    forall id v, find_key id services = Some v -> service_safe (extension_list graph) networks id v.
Proof.
  intros H Hb. destruct (compiled_plan _ _ _ H Hb) as (native & ovs & catalog & credentials & fs & p & _ & Hd & Hj).
  exists (services p), (networks p). split; [done|]. by eapply deployment_safe.
Qed.

(** The service of a node *)
Definition attached_to (n : string) (v : Value) : Prop :=
  exists l attached, v = VObj l /\ find_key "networks" l = Some (VObj attached) /\ is_Some (find_key n attached).

Lemma compose_platform_console portable platform extensions refs p p' v :
  plan_invariant portable p -> array_at platform "extensions" = Ok extensions ->
  compose_platform platform refs p = Ok p' -> VStr "console" ∉ extensions ->
  find_key "console" (services p') = Some v ->
  attached_to "mg-console" v /\ find_key "mg-console" (networks p') = Some (obj [("driver", VStr "bridge")]).
Proof.
  intros [_ Hs] He H Hn Hv. unfold compose_platform in H. invert_ok. rewrite He in *. invert_ok. cbn in *.
  match goal with H : fold_result _ _ _ = Ok _ |- _ => apply extensions_extended in H as Hext end.
  2: { intros id w. rewrite find_set_key. destruct (String.eqb id "platform").
       - intros [= <-]. by eapply platform_service_confined.
       - intros Hw. by apply Hs in Hw as [? _]. }
  split.
  - destruct (Hext _ _ Hv) as [_ [?|Hor]]; [done|]. rewrite find_set_key in Hor. cbn in Hor.
    destruct (Hs _ _ Hor) as (_ & _ & l & attached & -> & _ & Ha & Hm & _). by exists l, attached.
  - unfold platform_bridges. by rewrite find_set_key.
Qed.

(** *** A node called [console] *)

Definition runs_container (node : Value) (id : string) : Prop :=
  text_at node "node_id" = Ok id /\
  (let* execution := at_ node "execution" in text_at execution "kind") = Ok "container".

Lemma compile_node_services gid catalog network portable credentials node p p' id :
  compile_node sha256 to_chars gid catalog network portable credentials node p = Ok p' ->
  is_Some (find_key id (services p)) \/ runs_container node id -> is_Some (find_key id (services p')).
Proof.
  unfold compile_node, runs_container. intros H Hor. invert_ok.
  match goal with H1 : at_ node "execution" = Ok ?e, H2 : text_at ?e "kind" = Ok ?k |- _ =>
    rewrite H1 in Hor; cbn [bind] in Hor; rewrite H2 in Hor end.
  match type of H with (if String.eqb ?k "container" then _ else _) = _ => destruct (String.eqb_spec k "container") end.
  - invert_ok. cbn. rewrite find_set_key. destruct (String.eqb_spec id a) as [|Hne]; [done|].
    destruct Hor as [?|[E _]]; [done|]. congruence.
  - destruct Hor as [Hs|[_ E]]; [|congruence].
    destruct (_ || _); [by invert_ok|].
    destruct (String.eqb _ "qemu"); [unfold guest_plan in H; by invert_ok|].
    destruct (String.eqb _ "external"); [by invert_ok|done].
Qed.

Lemma nodes_services gid catalog network portable credentials nodes p p' :
  fold_result (compile_node sha256 to_chars gid catalog network portable credentials) nodes p = Ok p' ->
  forall node id, node ∈ nodes -> runs_container node id -> is_Some (find_key id (services p')).
Proof.
  apply (fold_result_prefix (fun pre p' => forall node id, node ∈ pre -> runs_container node id ->
    is_Some (find_key id (services p')))).
  - intros node id H. by apply elem_of_nil in H.
  - intros pre node p1 p2 _ Hp Hn node' id Hin Hr. apply elem_of_app in Hin as [Hin|Hin%list_elem_of_singleton].
    + eapply compile_node_services; [exact Hn|]. left. by eapply Hp.
    + subst. eapply compile_node_services; [exact Hn|]. by right.
Qed.

Lemma compose_platform_keeps platform refs p p' id :
  compose_platform platform refs p = Ok p' -> is_Some (find_key id (services p)) ->
  is_Some (find_key id (services p')).
Proof.
  unfold compose_platform. intros H Hs. invert_ok. cbn.
  eapply (fold_result_invariant (fun l => is_Some (find_key id l))); [| |eassumption].
  - intros e l l' _ Hl He. unfold extension_service in He. invert_ok. rewrite find_set_key.
    by destruct (String.eqb id _).
  - rewrite find_set_key. by destruct (String.eqb id "platform").
Qed.

Lemma deployment_console graph catalog credentials files p nodes node :
  deployment sha256 to_chars graph catalog false credentials files = Ok p ->
  array_at (ConfigLoad.resolved graph) "nodes" = Ok nodes -> node ∈ nodes -> runs_container node "console" ->
  VStr "console" ∉ extension_list graph ->
  exists v, find_key "console" (services p) = Some v /\ attached_to "mg-console" v /\
    find_key "mg-console" (networks p) = Some (obj [("driver", VStr "bridge")]).
Proof.
  unfold deployment. intros H Hn Hin Hr He. rewrite Hn in H. invert_ok.
  match goal with H : fold_result (compile_node _ _ _ _ _ ?port _) _ _ = Ok ?q |- _ =>
    pose proof (nodes_services _ _ _ _ _ _ _ _ H _ _ Hin Hr) as Hsome;
    assert (plan_invariant port q) as Hp; [|clear H; set (portable := port) in *] end.
  { eapply fold_result_invariant; [| |eassumption].
    - intros x q q1 _ Hq Hs. by eapply compile_node_invariant.
    - split; cbn; [by apply portable_invariant|done]. }
  destruct (compose_platform_keeps _ _ _ _ _ H Hsome) as [v Hv]. exists v. split; [done|].
  pose proof H as Hc. unfold compose_platform in H. invert_ok.
  match goal with H1 : at_ (ConfigLoad.resolved graph) "platform" = Ok ?x, H2 : array_at ?x "extensions" = Ok ?l |- _ =>
    assert (extension_list graph = l) as E by (unfold extension_list; rewrite H1; cbn; by rewrite H2);
    rewrite E in He; by eapply (compose_platform_console portable x l) end.
Qed.

(** A container node may be called [console].  Its management network, which is
    internal for every other node, is then replaced by the bridge that carries
    the published console, and the service of the node is attached to it. *)
Theorem console_exposed graph r bytes nodes node ovs :
  compile_graph assets fuel parse_document sha256 regex_search to_chars stod graph = Ok r ->
  find_file "compose.yaml" (compiled_files r) = Some bytes -> is_compose graph = Ok (false, ovs) ->
  array_at (ConfigLoad.resolved graph) "nodes" = Ok nodes -> node ∈ nodes -> runs_container node "console" ->
  VStr "console" ∉ extension_list graph ->
  exists services networks v,
    config_value_json to_chars
      (obj [("name", VStr (ConfigLoad.id graph)); ("services", VObj services); ("networks", VObj networks)])
      true = Ok bytes /\
    find_key "console" services = Some v /\ attached_to "mg-console" v /\
    find_key "mg-console" networks = Some (obj [("driver", VStr "bridge")]).
Proof.
  intros H Hb Hm Hn Hin Hr He.
  destruct (compiled_plan _ _ _ H Hb) as (native & ovs' & catalog & credentials & fs & p & Hm' & Hd & Hj).
  rewrite Hm in Hm'. injection Hm' as <- <-.
  destruct (deployment_console _ _ _ _ _ _ _ Hd Hn Hin Hr He) as (v & Hv).
  by exists (services p), (networks p), v.
Qed.

Lemma documents_kept graph p l l' q :
  deployment_files to_chars graph p l = Ok l' ->
  q ∉ ["compose.yaml"; "native-plan.json"; "qemu-plan.json"] -> find_file q l' = find_file q l.
Proof.
  unfold deployment_files. intros H Hq. repeat (apply not_elem_of_cons in Hq as [? Hq]). invert_ok.
  assert (find_file q a = find_file q l) as <- by (destruct (services p); invert_ok; kept_files).
  assert (find_file q a0 = find_file q a) as <- by (destruct (processes p); invert_ok; kept_files).
  destruct (guests p); invert_ok; kept_files.
Qed.

(** *** What holds of every set of files that is written *)

(** The names of files *)
Definition fixed_names : list string :=
  platform_names ++
  ["resolved.json"; "credentials.json"; "compose.yaml"; "native-plan.json"; "qemu-plan.json"; "ovs-plan.json";
   "capture-handoff.json"; "scenario-plan.json"; "laboratory-selection.json"; "execution-plan.json";
   "substitutions.json"; "catalog-pins.json"; "compile-manifest.json"].

Definition good_name (path : string) : Prop :=
  path ∈ fixed_names \/
  exists id, identity_text id = true /\ (path = "nodes/" +:+ id +:+ ".json" \/ path = "guest-build/" +:+ id +:+ ".json").

Lemma identity_ok id : identity id = Ok tt -> identity_text id = true.
Proof. unfold identity, reject_if. by destruct (identity_text id). Qed.

Lemma fixed_good path : existsb (String.eqb path) fixed_names = true -> good_name path.
Proof. intros H. left. by apply existsb_eqb. Qed.

Section Written.
Context (P : Files -> Prop) (HP : forall path bytes l, good_name path -> P l -> P (emplace path bytes l)).

Lemma put_holds path v l l' : put to_chars path v l = Ok l' -> good_name path -> P l -> P l'.
Proof. unfold put. intros H Hg Hl. invert_ok. by apply HP. Qed.

Ltac written_files :=
  repeat first
    [ assumption
    | match goal with H : put to_chars _ _ ?l = Ok ?l' |- P ?l' =>
        apply (put_holds _ _ _ _ H); [first [by apply fixed_good | right; eexists; split; [|first [left; reflexivity|right; reflexivity]]; assumption]|]; clear H end ].

Lemma compile_node_written gid catalog network portable credentials node p p' :
  compile_node sha256 to_chars gid catalog network portable credentials node p = Ok p' ->
  P (files p) -> P (files p').
Proof.
  unfold compile_node. intros H Ho. invert_ok.
  repeat match goal with H : identity _ = Ok ?u |- _ => destruct u; apply identity_ok in H end.
  match type of H with (if ?b then _ else _) = _ => destruct b end; invert_ok; cbn; [written_files|].
  destruct (_ || _); invert_ok; cbn; [written_files|].
  destruct (String.eqb _ "qemu").
  - unfold guest_plan in H. invert_ok. cbn in *.
    repeat match goal with H : identity _ = Ok ?u |- _ => destruct u; apply identity_ok in H end. written_files.
  - destruct (String.eqb _ "external"); invert_ok; cbn; [written_files|done].
Qed.

Lemma deployment_written graph catalog native credentials files p :
  deployment sha256 to_chars graph catalog native credentials files = Ok p -> P files -> P (Compile.files p).
Proof.
  unfold deployment. intros H Ho. invert_ok.
  match goal with H : fold_result (compile_node _ _ _ _ _ _ _) _ _ = Ok ?x |- _ =>
    assert (P (Compile.files x)) as Hx; [|clear H] end.
  { eapply (fold_result_invariant (fun x => P (Compile.files x))); [| |eassumption]; [|done].
    intros node s s' _ Hs Hc. by eapply compile_node_written. }
  destruct native; [by invert_ok|]. unfold compose_platform in H. by invert_ok.
Qed.

Lemma deployment_files_written graph p l l' : deployment_files to_chars graph p l = Ok l' -> P l -> P l'.
Proof.
  unfold deployment_files. intros H Ho. invert_ok.
  assert (P a) as Ha by (destruct (services p); invert_ok; written_files).
  assert (P a0) by (destruct (processes p); invert_ok; written_files).
  destruct (guests p); invert_ok; written_files.
Qed.

Lemma later_files_written graph ovs network l1 l2 l3 :
  (if ovs : bool then ovs_files to_chars network l1 else Ok l1) = Ok l2 ->
  laboratory_files to_chars stod graph l2 = Ok l3 -> P l1 -> P l3.
Proof.
  intros H1 H2 Ho. assert (P l2) as Ho2.
  { destruct ovs; [|by invert_ok]. unfold ovs_files in H1. invert_ok.
    match type of H1 with match ?c with _ => _ end = _ => destruct c end; invert_ok; written_files. }
  unfold laboratory_files in H2. invert_ok.
  assert (P a) by (destruct (contains _ "scenario"); invert_ok; written_files).
  destruct (String.eqb _ ""); invert_ok; written_files.
Qed.

Lemma insert_files_written l files : Forall (fun f => f.1 ∈ platform_names) l -> P files -> P (insert_files l files).
Proof.
  unfold insert_files. revert files; induction l as [|f l IH]; intros files Hl Ho; [done|].
  inversion Hl; subst. cbn [fold_left]. apply IH; [done|]. apply HP; [|done].
  left. apply elem_of_app. by left.
Qed.

(** The files before the manifest, and the manifest that is added to them *)
Lemma compiled_files_written graph r :
  compile_graph assets fuel parse_document sha256 regex_search to_chars stod graph = Ok r -> P [] ->
  exists native ovs network nodes flag listed v,
    is_compose graph = Ok (native, ovs) /\ at_ (ConfigLoad.resolved graph) "network" = Ok network /\
    array_at (ConfigLoad.resolved graph) "nodes" = Ok nodes /\ available native ovs network nodes = Ok flag /\
    P listed /\ find_file "compile-manifest.json" listed = None /\
    manifest assets sha256 graph flag listed = Ok v /\
    put to_chars "compile-manifest.json" v listed = Ok (compiled_files r) /\ graph_id r = ConfigLoad.id graph.
Proof.
  unfold compile_graph. intros H Hnil. invert_ok. cbn [graph_id compiled_files].
  do 7 eexists. do 4 (split; [eassumption|]). split; [|split; [|split; [eassumption|split; [eassumption|done]]]].
  - written_files. eapply later_files_written; [eassumption|eassumption|].
    eapply deployment_files_written; [eassumption|]. apply insert_files_written; [by eapply platform_files_named|].
    eapply deployment_written; [eassumption|]. written_files.
  - kept_files.
    erewrite (later_files_kept _ _ _ _ _ _ "compile-manifest.json") by (try eassumption; by rewrite <-existsb_eqb).
    erewrite documents_kept by (try eassumption; by rewrite <-existsb_eqb).
    erewrite platform_files_other by (try eassumption; by rewrite <-existsb_eqb).
    erewrite deployment_files_kept by (try eassumption; apply fixed_manifest).
    by kept_files.

Qed.
End Written.

(** *** The manifest *)

Lemma manifest_files graph available l v :
  manifest assets sha256 graph available l = Ok v ->
  at_ v "graph_id" = Ok (VStr (ConfigLoad.id graph)) /\ at_ v "files" = Ok (VArr (map (file_hash sha256) l)).
Proof. unfold manifest. intros H. invert_ok. split; reflexivity. Qed.

(** What a manifest says of a set of files: it names each of them but itself,
    once and in order, with the digest of its bytes. *)
Definition manifest_of (id : string) (l : Files) (v : Value) : Prop :=
  exists listed, at_ v "graph_id" = Ok (VStr id) /\
    at_ v "files" = Ok (VArr (map (file_hash sha256) listed)) /\ files_ordered listed /\
    forall path bytes, (path, bytes) ∈ listed <->
      path <> "compile-manifest.json" /\ find_file path l = Some bytes.

(** C23: The manifest of a compilation names every other file exactly once with the
    digest of its bytes. *)
Theorem manifest_complete graph r :
  compile_graph assets fuel parse_document sha256 regex_search to_chars stod graph = Ok r ->
  graph_id r = ConfigLoad.id graph /\
  exists v bytes, find_file "compile-manifest.json" (compiled_files r) = Some bytes /\
    config_value_json to_chars v true = Ok bytes /\
    manifest_of (graph_id r) (compiled_files r) v.
Proof.
  intros H. destruct (compiled_files_written files_ordered) with (2 := H)
    as (native & ovs & network & nodes & flag & listed & v & _ & _ & _ & _ & Ho & Hn & Hm & Hp & Hid).
  { intros. by apply emplace_ordered. }
  { constructor. }
  split; [done|]. destruct (put_new _ _ _ _ _ Hp Hn) as (bytes & Hj & Hf). exists v, bytes.
  apply manifest_files in Hm as [Hg Hl]. rewrite Hid. do 2 (split; [done|]). exists listed. do 3 (split; [done|]).
  intros path bs. rewrite <-find_file_elem by done.
  destruct (String.eqb_spec path "compile-manifest.json") as [->|Hne]; [naive_solver|].
  erewrite <-put_other; [|exact Hp|done]. naive_solver.
Qed.
End Plan.

(** ** Examples *)

Lemma services_confined_witness :
  exists services networks,
    config_value_json sample_chars
      (obj [("name", VStr "demo"); ("services", VObj services); ("networks", VObj networks)])
      true = Ok (sample_compose "worker") /\
    forall id v, find_key id services = Some v ->
      service_safe (extension_list (sample_graph "worker")) networks id v.
Proof.
  apply (services_confined sample_assets 100 sample_parse (fun s => s) (fun _ _ => true) sample_chars
           sample_stod (sample_graph "worker") (sample_result "worker")); vm_compute; reflexivity.
Defined.

Lemma console_exposed_witness :
  exists services networks v,
    config_value_json sample_chars
      (obj [("name", VStr "demo"); ("services", VObj services); ("networks", VObj networks)])
      true = Ok (sample_compose "console") /\
    find_key "console" services = Some v /\ attached_to "mg-console" v /\
    find_key "mg-console" networks = Some (obj [("driver", VStr "bridge")]).
Proof.
  apply (console_exposed sample_assets 100 sample_parse (fun s => s) (fun _ _ => true) sample_chars
           sample_stod (sample_graph "console") (sample_result "console") (sample_compose "console")
           [sample_node "console"] (sample_node "console") false);
    [vm_compute; reflexivity..|by left|split; vm_compute; reflexivity|].
  vm_compute. intros H. inversion H as [|? ? ? H']; subst. inversion H'.
Defined.

Lemma manifest_complete_witness :
  graph_id (sample_result "worker") = "demo" /\
  exists v bytes, find_file "compile-manifest.json" (compiled_files (sample_result "worker")) = Some bytes /\
    config_value_json sample_chars v true = Ok bytes /\
    manifest_of (fun s => s) (graph_id (sample_result "worker")) (compiled_files (sample_result "worker")) v.
Proof.
  apply (manifest_complete sample_assets 100 sample_parse (fun s => s) (fun _ _ => true) sample_chars
           sample_stod (sample_graph "worker")); vm_compute; reflexivity.
Defined.
End CompileProofs.

(** * The credentials of a compilation

    Which consumer may read which credential: a node gets exactly the
    credentials of its own declaration. *)

Module CompileCredentials.
Import ConfigValue ConfigValueProofs ConfigNetwork Compile CompileSamples.
Local Open Scope Z_scope.

(** ** Lists of names *)

Lemma insert_text_elem x s l : x ∈ insert_text s l <-> x = s \/ x ∈ l.
Proof.
  induction l as [|t l IH]; cbn [insert_text]; [set_solver|].
  destruct (String.compare s t); rewrite ?elem_of_cons, ?IH; tauto.
Qed.

Lemma sort_texts_elem x l : x ∈ sort_texts l <-> x ∈ l.
Proof. induction l as [|s l IH]; cbn; [done|]. rewrite insert_text_elem, IH. set_solver. Qed.

Lemma texts_of ts l : map_result text l = Ok ts -> l = map VStr ts.
Proof.
  intros H%map_result_ok. induction H as [|v s l ts Hv _ IH]; [done|].
  destruct v; try done. injection Hv as <-. cbn. by rewrite IH.
Qed.

Lemma map_text_strings ts : map_result text (map VStr ts) = Ok ts.
Proof. induction ts as [|s ts IH]; [done|]. cbn [map map_result text bind]. by rewrite IH. Qed.

Lemma sort_strings ts l : sort_values (map VStr ts) = Ok l ->
  exists us, l = map VStr us /\ forall x, x ∈ us <-> x ∈ ts.
Proof.
  assert (forall ts, exists us, map VStr (sort_texts ts) = map VStr us /\ forall x, x ∈ us <-> x ∈ ts) as Hs.
  { intros us. exists (sort_texts us). split; [done|]. intros x. apply sort_texts_elem. }
  destruct ts as [|s [|t ts]].
  - intros [= <-]. by exists [].
  - intros [= <-]. by exists [s].
  - cbn [map sort_values]. intros H. change (VStr s :: VStr t :: map VStr ts) with (map VStr (s :: t :: ts)) in H.
    rewrite map_text_strings in H. apply Ok_inj in H as <-. apply Hs.
Qed.

Lemma unique_strings ts : exists us, unique_values (map VStr ts) = map VStr us /\ forall x, x ∈ us <-> x ∈ ts.
Proof.
  induction ts as [|s [|t ts] IH]; [by exists []|by exists [s]|].
  destruct IH as (us & Hu & Hx). cbn [map unique_values value_eqb] in *. rewrite Hu.
  destruct (String.eqb_spec s t) as [->|].
  - exists us. split; [done|]. intros x. rewrite Hx. set_solver.
  - exists (s :: us). split; [done|]. intros x. specialize (Hx x). set_solver.
Qed.

Lemma holds_strings ts id : holds (map VStr ts) (VStr id) = true <-> id ∈ ts.
Proof.
  induction ts as [|t ts IH]; cbn [map holds existsb value_eqb]; [by split; [|intros ?%elem_of_nil]|].
  fold (holds (map VStr ts) (VStr id)). rewrite orb_true_iff, IH, String.eqb_eq, elem_of_cons. naive_solver.
Qed.

(** ** Consumers *)

Definition consumers_ok (c : Object) : Prop :=
  ordered c /\ forall k v, find_key k c = Some v -> exists ts, v = strings ts.

Definition allowed (c : Object) (ref id : string) : Prop :=
  exists ts, find_key ref c = Some (strings ts) /\ id ∈ ts.

Lemma strings_inj ts us : strings ts = strings us -> ts = us.
Proof.
  intros [= H]. revert us H. induction ts as [|s ts IH]; intros [|u us]; try done.
  cbn. intros [= <- H]. f_equal. by apply IH.
Qed.

Lemma allow_spec ref node c c' : consumers_ok c -> allow ref node c = Ok c' ->
  consumers_ok c' /\ forall r i, allowed c' r i <-> allowed c r i \/ (r = ref /\ i = node).
Proof.
  intros [Ho Hc] H. unfold allow in H. invert_ok.
  assert (exists ts, a = map VStr ts /\
    (find_key ref c = Some (strings ts) \/ (find_key ref c = None /\ ts = []))) as (ts & -> & Hts).
  { destruct (find_key ref c) as [v|] eqn:E.
    - destruct (Hc _ _ E) as [ts ->]. match goal with H : array _ = Ok _ |- _ => injection H as <- end.
      exists ts. split; [done|by left].
    - match goal with H : Ok [] = Ok _ |- _ => injection H as <- | _ => invert_ok end. exists []. eauto. }
  assert (VArr (map VStr ts ++ [VStr node]) = strings (ts ++ [node])) as -> by (unfold strings; by rewrite map_app).
  split; [split|].
  - by apply set_key_ordered.
  - intros k v. rewrite find_set_key. destruct (String.eqb_spec k ref); [intros [= <-]; eauto|apply Hc].
  - intros r i. unfold allowed. rewrite find_set_key. destruct (String.eqb_spec r ref) as [->|Hne].
    + split.
      * intros (us & [= E] & Hi). assert (us = ts ++ [node]) as -> by (apply strings_inj; unfold strings; by rewrite <-E).
        apply elem_of_app in Hi as [Hi|Hi%list_elem_of_singleton]; [|by right].
        destruct Hts as [Hts|[_ ->]]; [left; eauto|by apply elem_of_nil in Hi].
      * intros [(us & Hu & Hi)|[_ ->]]; eexists; (split; [done|]); [|set_solver].
        destruct Hts as [Hts|[Hts _]]; rewrite Hts in Hu; [|done].
        apply (inj Some), strings_inj in Hu as ->. set_solver.
    + naive_solver.
Qed.

(** What one node declares: a credential for a port, or for its telemetry *)
Definition declares (node : Value) (ref id : string) : Prop :=
  text_at node "node_id" = Ok id /\
  ((exists ports port, object_field node "credentials" = Ok ports /\ (port, VStr ref) ∈ ports) \/
   (let* telemetry := at_ node "telemetry" in at_ telemetry "credential") = Ok (VStr ref)).

Lemma ports_spec node id ports s s' :
  consumers_ok (consumers_ s) -> fold_result (port_credential node id) ports s = Ok s' ->
  consumers_ok (consumers_ s') /\ forall r i, allowed (consumers_ s') r i <->
    allowed (consumers_ s) r i \/ (i = id /\ exists port, (port, VStr r) ∈ ports).
Proof.
  intros Hok. apply (fold_result_prefix (fun pre s' => consumers_ok (consumers_ s') /\
    forall r i, allowed (consumers_ s') r i <->
      allowed (consumers_ s) r i \/ (i = id /\ exists port, (port, VStr r) ∈ pre))).
  - split; [done|]. intros r i. split; [by left|]. intros [?|(_ & port & Hp)]; [done|by apply elem_of_nil in Hp].
  - intros pre [port v] s1 s2 _ [Hok1 Hs1] H. unfold port_credential in H. cbn [fst snd] in H. invert_ok. cbn.
    destruct v as [| | | |ref| |]; try done.
    match goal with H : text _ = Ok _ |- _ => injection H as <- end.
    match goal with H : allow _ _ _ = Ok _ |- _ => destruct (allow_spec _ _ _ _ Hok1 H) as [Hok2 Hs2] end.
    split; [done|]. intros r i. rewrite Hs2, Hs1. setoid_rewrite elem_of_app. setoid_rewrite list_elem_of_singleton.
    split.
    + intros [[?|(-> & q & ?)]|[-> ->]]; [by left|right; eauto|right; eauto].
    + intros [?|(-> & q & [?|[= -> ->]])]; [by do 2 left|left; right; eauto|by right].
Qed.

Lemma node_spec node s s' :
  consumers_ok (consumers_ s) -> node_credentials node s = Ok s' ->
  consumers_ok (consumers_ s') /\ forall r i, allowed (consumers_ s') r i <->
    allowed (consumers_ s) r i \/ declares node r i.
Proof.
  intros Hok H. unfold node_credentials in H. invert_ok.
  match goal with H : fold_result _ _ _ = Ok _ |- _ => destruct (ports_spec _ _ _ _ _ Hok H) as [Hok1 Hs1] end.
  match goal with H : text_at node "node_id" = Ok ?x |- _ => rename H into Hid; set (id := x) in * end.
  match goal with H : object_field node "credentials" = Ok ?x |- _ => rename H into Hp; set (ports := x) in * end.
  match goal with H1 : at_ node "telemetry" = Ok ?t, H2 : at_ ?t "credential" = Ok ?x |- _ =>
    assert ((let* telemetry := at_ node "telemetry" in at_ telemetry "credential") = Ok x) as Ht
      by (by rewrite H1); clear H1 H2; set (credential := x) in * end.
  assert (forall r i, declares node r i <-> i = id /\ ((exists port, (port, VStr r) ∈ ports) \/ credential = VStr r)) as Hdecl.
  { intros r i. unfold declares. rewrite Hid, Hp, Ht. split.
    - intros ([= <-] & [(ps & port & [= <-] & ?)|[= E]]); split; [done|left; eauto|done|by right].
    - intros (-> & [[port ?]|E]); split; [done|left; eauto|done|right; by rewrite E]. }
  destruct (is_null credential) eqn:Hn; invert_ok.
  - split; [done|]. intros r i. rewrite Hs1, Hdecl.
    destruct credential; try done. naive_solver.
  - destruct credential as [| | | |ref| |]; try done.
    match goal with H : text _ = Ok _ |- _ => injection H as <- end.
    match goal with H : allow _ _ _ = Ok _ |- _ => destruct (allow_spec _ _ _ _ Hok1 H) as [Hok2 Hs2] end.
    split; [done|]. intros r i. cbn. rewrite Hs2, Hs1, Hdecl. naive_solver.
Qed.

(** Steps that only speak of consumers which are not nodes *)
Definition foreign (others : list string) (c c' : Object) : Prop :=
  consumers_ok c -> consumers_ok c' /\ forall r i, i ∉ others -> allowed c' r i <-> allowed c r i.

Lemma foreign_refl others c : foreign others c c.
Proof. by split. Qed.

Lemma foreign_trans others a b c : foreign others a b -> foreign others b c -> foreign others a c.
Proof.
  intros H1 H2 Ha. destruct (H1 Ha) as [Hb H1']. destruct (H2 Hb) as [Hc H2'].
  split; [done|]. intros r i Hi. by rewrite H2', H1'.
Qed.

Lemma foreign_allow others ref node c c' : node ∈ others -> allow ref node c = Ok c' -> foreign others c c'.
Proof.
  intros Hn H Hok. destruct (allow_spec _ _ _ _ Hok H) as [Hok' Hs]. split; [done|].
  intros r i Hi. rewrite Hs. naive_solver.
Qed.

Lemma foreign_fold {A} others (body : A -> Object -> result Object) l c c' :
  (forall a c c', body a c = Ok c' -> foreign others c c') ->
  fold_result body l c = Ok c' -> foreign others c c'.
Proof.
  intros Hb. apply fold_result_invariant; [|apply foreign_refl].
  intros a s s' _ Hs H. eapply foreign_trans; [exact Hs|by eapply Hb].
Qed.

Lemma foreign_empty others k c : find_key k c = None -> foreign others c (set_key k (VArr []) c).
Proof.
  intros Hk [Ho Hc]. split; [split|].
  - by apply set_key_ordered.
  - intros q v. rewrite find_set_key. destruct (String.eqb_spec q k); [|apply Hc].
    intros [= <-]. by exists [].
  - intros r i _. unfold allowed. rewrite find_set_key. destruct (String.eqb_spec r k) as [->|]; [|done].
    split; intros (ts & Hts & Hi).
    + destruct ts; [by apply elem_of_nil in Hi|discriminate].
    + congruence.
Qed.

Definition services_only : list string := ["platform"; "prometheus"; "grafana"].

Lemma entry_foreign kv s s' : finish_entry kv s = Ok s' ->
  foreign services_only (consumers_ s) (consumers_ s').
Proof.
  unfold finish_entry. destruct kv as [id declaration]. intros H. invert_ok. cbn.
  eapply foreign_trans with (b := match find_key id (consumers_ s) with
    | Some _ => consumers_ s | None => set_key id (VArr []) (consumers_ s) end).
  - destruct (find_key id (consumers_ s)) eqn:E; [apply foreign_refl|by apply foreign_empty].
  - match goal with H : (if ?b : bool then allow _ _ _ else _) = Ok _ |- _ => destruct b end.
    + eapply foreign_allow; [|eassumption]. by left.
    + invert_ok. apply foreign_refl.
Qed.

Lemma platform_foreign platform s c : platform_credentials platform s = Ok c ->
  foreign services_only (consumers_ s) c.
Proof.
  unfold platform_credentials. intros H. invert_ok.
  eapply foreign_trans; [|eapply foreign_trans].
  - eapply (foreign_fold services_only (extension_credential (entries_ s))); [|eassumption].
    intros e x x' Hx. unfold extension_credential in Hx. invert_ok. eapply foreign_trans.
    + match goal with H : (if ?b then allow _ _ _ else _) = Ok _ |- _ => destruct b; rename H into Hif end;
        [eapply foreign_allow; [|exact Hif]; right; by left|invert_ok; apply foreign_refl].
    + destruct (value_eqb e (VStr "grafana")); invert_ok; [|apply foreign_refl].
      eapply foreign_allow; [|eassumption]. by right; right; left.
  - eapply foreign_fold; [|eassumption]. intros g x x' Hx. cbn in Hx. invert_ok.
    eapply foreign_allow; [|eassumption]. by left.
  - match goal with H : (if ?b : bool then _ else _) = Ok _ |- _ => destruct b end; invert_ok; [|apply foreign_refl].
    eapply foreign_allow; [|eassumption]. by left.
Qed.

(** What one consumer finds in the settled lists *)
Definition find_consumer (id : string) (kv : string * Value) : result (string * bool) :=
  let* l := array kv.2 in Ok (kv.1, holds l (VStr id)).

Lemma settled_list id c : Forall (fun kv => exists ts, kv.2 = strings ts) c -> forall c' refs,
  map_result settle_consumers c = Ok c' -> map_result (find_consumer id) c' = Ok refs ->
  forall r, r ∈ map fst (List.filter snd refs) <-> exists ts, (r, strings ts) ∈ c /\ id ∈ ts.
Proof.
  induction 1 as [|[k v] c [ts Hts] _ IH]; intros c' refs H H2 r.
  - apply Ok_inj in H as <-. apply Ok_inj in H2 as <-. cbn. setoid_rewrite elem_of_nil. naive_solver.
  - cbn [snd] in Hts. subst v. cbn [map_result] in H. unfold settle_consumers at 1 in H. cbn [snd array bind fst strings] in H.
    invert_ok. match goal with H : sort_values _ = Ok _ |- _ => destruct (sort_strings _ _ H) as (us & -> & Hus) end.
    destruct (unique_strings us) as (ws & Hws & Hx). cbn [map_result] in H2. unfold find_consumer at 1 in H2.
    rewrite Hws in H2. cbn [snd fst array bind] in H2. invert_ok.
    match goal with H1 : map_result settle_consumers c = Ok ?x, H2 : map_result _ ?x = Ok ?y |- _ =>
      specialize (IH x y H1 H2 r) end.
    assert (id ∈ ws <-> id ∈ ts) as Hid by (by rewrite Hx, Hus).
    setoid_rewrite elem_of_cons. cbn [List.filter snd].
    destruct (holds (map VStr ws) (VStr id)) eqn:E.
    + apply holds_strings in E. cbn [map fst]. rewrite elem_of_cons, IH. split.
      * intros [->|(us' & ? & ?)]; [exists ts; split; [by left|by apply Hid]|eauto].
      * intros (us' & [[= -> _]|?] & ?); [by left|right; eauto].
    + rewrite IH. split.
      * intros (us' & ? & ?). eauto.
      * intros (us' & [[= -> E1]|?] & Hi); [|eauto]. exfalso.
        assert (us' = ts) as -> by (apply strings_inj; unfold strings; by rewrite E1).
        apply Hid, holds_strings in Hi. congruence.
Qed.

Lemma settled c c' id refs r : consumers_ok c -> map_result settle_consumers c = Ok c' ->
  map_result (find_consumer id) c' = Ok refs -> r ∈ map fst (List.filter snd refs) <-> allowed c r id.
Proof.
  intros [Ho Hc] Hs Hr. rewrite (settled_list id c) by (try eassumption;
    apply Forall_forall; intros [k v] Hkv; eapply Hc, ordered_find; eassumption).
  unfold allowed. split; intros (ts & Ht & Hi); exists ts; (split; [|done]).
  - by apply ordered_find.
  - by apply find_key_In.
Qed.

(** ** The plan *)

Lemma no_consumers : consumers_ok [].
Proof. split; [constructor|done]. Qed.

Lemma nodes_spec nodes s s' : consumers_ok (consumers_ s) -> fold_result node_credentials nodes s = Ok s' ->
  consumers_ok (consumers_ s') /\ forall r i, allowed (consumers_ s') r i <->
    allowed (consumers_ s) r i \/ exists node, node ∈ nodes /\ declares node r i.
Proof.
  intros Hok. apply (fold_result_prefix (fun pre s' => consumers_ok (consumers_ s') /\
    forall r i, allowed (consumers_ s') r i <->
      allowed (consumers_ s) r i \/ exists node, node ∈ pre /\ declares node r i)).
  - split; [done|]. intros r i. setoid_rewrite elem_of_nil. naive_solver.
  - intros pre node s1 s2 _ [Hok1 Hs1] H. destruct (node_spec _ _ _ Hok1 H) as [Hok2 Hs2].
    split; [done|]. intros r i. rewrite Hs2, Hs1. setoid_rewrite elem_of_app.
    setoid_rewrite list_elem_of_singleton. naive_solver.
Qed.

Lemma entries_foreign l s s' : fold_result finish_entry l s = Ok s' ->
  foreign services_only (consumers_ s) (consumers_ s').
Proof.
  apply (fold_result_invariant (fun s' => foreign services_only (consumers_ s) (consumers_ s')));
    [|apply foreign_refl].
  intros a s1 s2 _ Hs H. eapply foreign_trans; [exact Hs|by eapply entry_foreign].
Qed.

Lemma plan_allowed graph plan nodes : credential_plan graph = Ok plan ->
  array_at (ConfigLoad.resolved graph) "nodes" = Ok nodes ->
  exists c c', consumers_ok c /\ map_result settle_consumers c = Ok c' /\
    object_field plan "allowed_consumers" = Ok c' /\
    forall r i, i ∉ services_only ->
      allowed c r i <-> (r = "observer" /\ i = "reader") \/ exists node, node ∈ nodes /\ declares node r i.
Proof.
  unfold credential_plan. intros H Hn. rewrite Hn in H. invert_ok.
  match goal with H : fold_result node_credentials _ {| entries_ := _; consumers_ := ?x |} = Ok _ |- _ =>
    assert (consumers_ok x /\ forall r i, allowed x r i <-> (r = "observer" /\ i = "reader")) as [Hok1 Hs1] end.
  { match goal with H : allow _ _ [] = Ok _ |- _ => destruct (allow_spec _ _ _ _ no_consumers H) as [Ha Hb] end.
    split; [done|]. intros r i. rewrite Hb. unfold allowed. cbn. naive_solver. }
  match goal with H : fold_result node_credentials ?n ?s = Ok ?t |- _ =>
    destruct (nodes_spec n s t Hok1 H) as [Hok2 Hs2]; clear H end.
  match goal with H : fold_result finish_entry _ _ = Ok _ |- _ =>
    destruct (entries_foreign _ _ _ H Hok2) as [Hok3 Hs3]; clear H end.
  match goal with H : platform_credentials _ _ = Ok _ |- _ =>
    destruct (platform_foreign _ _ _ H Hok3) as [Hok4 Hs4]; clear H end.
  eexists _, _. split; [exact Hok4|]. split; [eassumption|]. split; [reflexivity|].
  intros r i Hi. rewrite Hs4, Hs3, Hs2 by done. cbn [consumers_]. by rewrite Hs1.
Qed.

(** C6: A node with another name than [reader], [platform], [prometheus] and
    [grafana] gets the credentials that it declares for its ports or its
    telemetry and no others, whatever the rest of the graph declares.  (A node
    called [reader] also gets the token of the observer; the other names are
    those of consumers that are not nodes.) *)
Theorem node_credentials_exact graph plan nodes id refs :
  credential_plan graph = Ok plan -> array_at (ConfigLoad.resolved graph) "nodes" = Ok nodes ->
  credential_refs plan id = Ok refs -> id ∉ "reader" :: services_only ->
  forall ref, ref ∈ refs <-> exists node, node ∈ nodes /\ declares node ref id.
Proof.
  intros Hp Hn Hr [Hne Hid]%not_elem_of_cons ref.
  destruct (plan_allowed _ _ _ Hp Hn) as (c & c' & Hok & Hs & Hf & Ha).
  unfold credential_refs in Hr. rewrite Hf in Hr. cbn [bind] in Hr. invert_ok.
  etrans; [by eapply settled|]. rewrite Ha by done. naive_solver.
Qed.

(** The node called [reader] is given the token of the observer, which no node
    may declare. *)
Theorem reader_gets_observer graph plan nodes refs :
  credential_plan graph = Ok plan -> array_at (ConfigLoad.resolved graph) "nodes" = Ok nodes ->
  credential_refs plan "reader" = Ok refs -> "observer" ∈ refs.
Proof.
  intros Hp Hn Hr. destruct (plan_allowed _ _ _ Hp Hn) as (c & c' & Hok & Hs & Hf & Ha).
  unfold credential_refs in Hr. rewrite Hf in Hr. cbn [bind] in Hr. invert_ok.
  eapply settled; [exact Hok|exact Hs|eassumption|]. apply Ha; [|by left].
  unfold services_only. clear. set_solver.
Qed.

(** ** Examples *)

Lemma node_credentials_exact_witness :
  "link" ∈ ["link"; "telemetry-1"] <->
    exists node, node ∈ [sample_node "worker"] /\ declares node "link" "worker".
Proof.
  apply (node_credentials_exact (sample_graph "worker") (sample_credentials "worker") [sample_node "worker"]
           "worker"); [vm_compute; reflexivity..|].
  intros H. repeat (apply elem_of_cons in H as [?|H]; [done|]). by apply elem_of_nil in H.
Defined.

Lemma reader_gets_observer_witness : "observer" ∈ ["link"; "observer"; "telemetry-1"].
Proof.
  apply (reader_gets_observer (sample_graph "reader") (sample_credentials "reader") [sample_node "reader"]);
    vm_compute; reflexivity.
Defined.
End CompileCredentials.
