(* ===== verification/CompileOutput.v ===== *)
(** * Writing a compilation to disk (src/src/compile_output.cpp)

    The files are written into an exclusive staging directory, which is then
    renamed to its destination.  The reader of the manifest and the digests are
    parameters; a file system call may be answered in any way. *)

From Stdlib Require Import ZArith Lia Strings.Byte Strings.Ascii Strings.String Floats.SpecFloat.
From stdpp Require Import base option gmap strings list.
From S2P Require Import Prelude ConfigValue ConfigNetwork ConfigLoad Text Effects Process Compile.

Module CompileOutput.
Import ConfigValue ConfigNetwork Text Effects Process Compile.
Local Open Scope Z_scope.
#[local] Open Scope prog_scope.

(** ** Calls *)

(** What [symlink_status] and [fstatat] find *)
Inductive node_status := node_absent | node_directory | node_other | node_error.

Inductive output_call :=
  | CurrentPath                            (** [std::filesystem::absolute] *)
  | SymlinkStatus (path : string)
  | OpenRoot                               (** the directory [/] *)
  | OpenDirectoryAt (fd : Z) (name : string)   (** a directory that is no link *)
  | StatAt (fd : Z) (name : string)        (** without following a link *)
  | RandomBytes                            (** 16 of them *)
  | MkdirAt (fd : Z) (path : string)
  | CreateAt (fd : Z) (path : string)      (** an exclusive new file *)
  | WriteFile (fd : Z) (bytes : string)
  | SyncFile (fd : Z)
  | RenameExclusive (fd : Z) (from to : string)
  | SameDirectory (stage parent : Z) (name : string)
                                           (** whether the name still is the staging directory *)
  | UnlinkFileAt (fd : Z) (path : string) | RemoveDirectoryAt (fd : Z) (path : string)
  | NoProgress.                            (** interrupted more often than the model follows *)

Definition output_answer (c : output_call) : Type :=
  match c with
  | CurrentPath => result string
  | SymlinkStatus _ | StatAt _ _ => node_status
  | OpenRoot | OpenDirectoryAt _ _ | CreateAt _ _ => option Z
  | RandomBytes => option (list byte)
  | MkdirAt _ _ | SyncFile _ | RenameExclusive _ _ _ | SameDirectory _ _ _ => bool
  | WriteFile _ _ => transfer nat
  | UnlinkFileAt _ _ | RemoveDirectoryAt _ _ => unit
  | NoProgress => Empty_set
  end.

Abbreviation Out := (prog output_call output_answer).
Definition output_do (c : output_call) : Out (output_answer c) := call c.
Definition refuse {A} (code path message : string) : Out A := of_result (reject code path message).
Definition refuse_if (b : bool) (code path message : string) : Out unit :=
  of_result (reject_if b code path message).

(** ** Paths *)

(** A normal absolute path: its names, and whether it ends in a separator *)
Record AbsolutePath := { names : list string; ends_open : bool }.

(** [lexically_normal] of an absolute path *)
Definition normal (path : string) : AbsolutePath :=
  let parts := split_slash path in
  {| names := fold_left (fun acc part =>
       if String.eqb part "" || String.eqb part "." then acc
       else if String.eqb part ".." then removelast acc else acc ++ [part]) parts [];
     ends_open := match last parts with
                  | Some part => String.eqb part "" || String.eqb part "." || String.eqb part ".."
                  | None => true
                  end |}.

Definition nul : ascii := "000".

Definition absolute_path (path : string) : Out AbsolutePath :=
  refuse_if (ConfigLoad.has_char nul path) "E_OUTPUT_PATH" "$" "NUL path is forbidden";;;
  refuse_if (String.eqb path "") "E_OUTPUT_PATH" "$"
    "explicit input, catalog, source and credential roots required";;;
  refuse_if (existsb (String.eqb "..") (split_slash path)) "E_OUTPUT_PATH" "$" "parent traversal is forbidden";;;
  if ConfigLoad.is_absolute path then Ret (normal path)
  else
    let! current := output_do CurrentPath in
    let! current := of_result current in
    Ret (normal (current +:+ "/" +:+ path)).

(** The components behind the root *)
Definition components (p : AbsolutePath) : list string :=
  match names p with
  | [] => []
  | l => l ++ (if ends_open p then [""] else [])
  end.
Definition filename (p : AbsolutePath) : string := if ends_open p then "" else default "" (last (names p)).
Definition parent_names (p : AbsolutePath) : list string := removelast (components p).

Definition open_component (part : string) (fd : Z) : Out Z :=
  let! next := output_do (OpenDirectoryAt fd part) in
  match next with
  | Some next => Ret next
  | None => refuse "E_OUTPUT_PATH" "$" "parent must exist and contain no symlinks"
  end.

Definition open_directory (parts : list string) : Out Z :=
  let! root := output_do OpenRoot in
  match root with
  | Some root => for_each_in open_component parts root
  | None => refuse "E_OUTPUT_PATH" "$" "cannot open filesystem root"
  end.

(** The paths up to each component; nothing follows one that does not exist. *)
Fixpoint check_components (paths : list string) : Out unit :=
  match paths with
  | [] => Ret tt
  | path :: paths =>
      let! status := output_do (SymlinkStatus path) in
      match status with
      | node_absent => Ret tt
      | node_directory => check_components paths
      | node_other => refuse "E_OUTPUT_PATH" "$" "protected roots must contain only directory components"
      | node_error => Fail (RuntimeError "symlink_status")
      end
  end.

Definition check_root (p : AbsolutePath) : Out unit := check_components (extend_each "" (components p)).

(** [path.lexically_relative(root)] does not leave the root. *)
Fixpoint remainders (path root : list string) : list string * list string :=
  match path, root with
  | x :: path', y :: root' => if String.eqb x y then remainders path' root' else (path, root)
  | _, _ => (path, root)
  end.
Definition lexically_relative (path root : list string) : list string :=
  let '(path, root) := remainders path root in
  let up := length (filter (fun x => x <> "") root) in
  match up, path with
  | O, [] | O, "" :: _ => ["."]
  | _, _ => repeat ".." up ++ path
  end.
Definition within (path root : AbsolutePath) : bool :=
  match lexically_relative (components path) (components root) with
  | [] => false
  | first :: _ => negb (String.eqb first "..")
  end.

Definition relative_file (path : string) : result unit :=
  let* _ := reject_if (String.eqb path "" || ConfigLoad.is_absolute path) "E_OUTPUT_PATH" path
              "artifact path must be relative" in
  for_each (fun part =>
    reject_if (String.eqb part "" || String.eqb part "." || String.eqb part ".." || ConfigLoad.has_char "\" part)
      "E_OUTPUT_PATH" path "unsafe artifact path") (path_components path).

(** ** The package *)

Section Package.
Context (parse_document : string -> result Value) (sha256 : string -> string).

Definition check_entry (files : Files) (entry : Value) (listed : list string) : result (list string) :=
  let* name := text_at entry "path" in
  let* known := (if existsb (String.eqb name) listed then Ok false
                 else match find_file name files with
                      | None => Ok false
                      | Some bytes => let* digest := text_at entry "sha256" in
                                      Ok (String.eqb (sha256 bytes) digest)
                      end) in
  let* _ := reject_if (negb known) "E_OUTPUT_MANIFEST" "$" "manifest file hash mismatch" in
  Ok (name :: listed).

Definition check_file (f : string * string) (bytes : Z) : result Z :=
  let* _ := relative_file f.1 in
  let* _ := reject_if (ConfigLoad.has_char nul f.1) "E_OUTPUT_PATH" "$" "NUL artifact path" in
  Ok (bytes + Z.of_nat (String.length f.2)).

Definition check_package (compiled : CompiledGraph) : result unit :=
  let files := compiled_files compiled in
  let* _ := reject_if (match find_file "compile-manifest.json" files with
                       | None => true
                       | Some _ => (4096 <? length files)%nat
                       end) "E_OUTPUT_MANIFEST" "$" "bounded compilation manifest required" in
  let* manifest := parse_document (default "" (find_file "compile-manifest.json" files)) in
  let* other := (let* same := eq_at manifest "graph_id" (VStr (graph_id compiled)) in
                 if negb same then Ok true
                 else let* entries := array_at manifest "files" in
                      Ok (negb (length entries + 1 =? length files)%nat)) in
  let* _ := reject_if other "E_OUTPUT_MANIFEST" "$" "manifest identity or file count mismatch" in
  let* entries := array_at manifest "files" in
  let* _ := fold_result (check_entry files) entries [] in
  let* bytes := fold_result check_file files 0 in
  reject_if (32 * ConfigLoad.kMaxConfigBytes <? bytes) "E_BOUND" "$" "compiled package exceeds 32 MiB".

(** ** Staging *)

(** What [~Staging] removes *)
Record Staging := { staged_files : list string; directories : list string; published : bool }.

Section Stage.
Context (rounds : nat) (parent stage : Z) (name : string).
Abbreviation Run := (stateful (C := output_call) (R := output_answer) Staging).

(** A [std::set] of directories *)
Fixpoint insert_name (x : string) (l : list string) : list string :=
  match l with
  | [] => [x]
  | y :: rest => match String.compare x y with Eq => l | Lt => x :: l | Gt => y :: insert_name x rest end
  end.

Definition with_directory (d : string) (s : Staging) : Staging :=
  {| staged_files := staged_files s; directories := insert_name d (directories s); published := published s |}.
Definition with_file (f : string) (s : Staging) : Staging :=
  {| staged_files := staged_files s ++ [f]; directories := directories s; published := published s |}.
Definition with_published (s : Staging) : Staging :=
  {| staged_files := staged_files s; directories := directories s; published := true |}.

Definition sync (fd : Z) : Out unit :=
  let! done := output_do (SyncFile fd) in
  refuse_if (negb done) "E_OUTPUT_IO" "$" "cannot sync compiled output".

Fixpoint write_all (rounds : nat) (path : string) (fd : Z) (rest : string) : Out unit :=
  match rest, rounds with
  | EmptyString, _ => Ret tt
  | _, O => let! x := output_do NoProgress in match (x : Empty_set) with end
  | _, S rounds =>
      let! written := output_do (WriteFile fd rest) in
      match written with
      | transfer_interrupted => write_all rounds path fd rest
      | transfer_failed | bytes_moved O => refuse "E_OUTPUT_IO" path "cannot write artifact"
      | bytes_moved n => write_all rounds path fd (sdrop n rest)
      end
  end.

(** The directories above a file, the outermost one first *)
Fixpoint above (prefix : string) (parts : list string) : list string :=
  match parts with
  | [] | [_] => []
  | x :: l => (prefix +:+ x) :: above (prefix +:+ x +:+ "/") l
  end.

#[local] Open Scope stateful_scope.

Definition make_directory (path directory : string) : Run unit :=
  do! s := current in
  if existsb (String.eqb directory) (directories s) then returns tt
  else
    modify (with_directory directory);;;
    do! made := lift (output_do (MkdirAt stage directory)) in
    if negb made then lift (refuse "E_OUTPUT_IO" path "cannot create artifact directory") else returns tt.

Definition write_file (files : Files) (path : string) : Run unit :=
  for_each_state (make_directory path) (above "" (path_components path));;;
  do! fd := lift (output_do (CreateAt stage path)) in
  match fd with
  | None => lift (refuse "E_OUTPUT_PATH" "$" "cannot open a non-symlink directory or file")
  | Some fd =>
      modify (with_file path);;;
      lift (write_all rounds path fd (default "" (find_file path files)));;;
      lift (sync fd)
  end.

Definition sync_directory (directory : string) : Run unit :=
  do! fd := lift (output_do (OpenDirectoryAt stage directory)) in
  match fd with
  | None => lift (refuse "E_OUTPUT_PATH" "$" "cannot open a non-symlink directory or file")
  | Some fd => lift (sync fd)
  end.

Definition write_order (files : Files) : list string :=
  List.filter (fun path => negb (String.eqb path "compile-manifest.json")) (map fst files)
  ++ ["compile-manifest.json"].

Definition publish (files : Files) (destination : string) : Run unit :=
  for_each_state (write_file files) (write_order files);;;
  do! s := current in
  for_each_state sync_directory (directories s);;;
  lift (sync stage);;;
  do! renamed := lift (output_do (RenameExclusive parent name destination)) in
  if negb renamed then
    lift (refuse "E_OUTPUT_OWNERSHIP" "$" "exclusive publication failed; existing output was not replaced")
  else
    modify with_published;;;
    lift (sync parent).

(** [~Staging] *)
Definition remove_staging (s : Staging) : Out unit :=
  (if published s then Ret tt
   else
     let! same := output_do (SameDirectory stage parent name) in
     if negb same then Ret tt
     else
       for_each_in (fun file _ => output_do (UnlinkFileAt stage file)) (staged_files s) tt;;;
       for_each_in (fun d _ => output_do (RemoveDirectoryAt stage d)) (rev (directories s)) tt;;;
       output_do (RemoveDirectoryAt parent name))%prog.

(** The body and, however it ended, the destructor *)
Definition staged (files : Files) (destination : string) : Out unit :=
  (let! r := publish files destination {| staged_files := []; directories := []; published := false |} in
   remove_staging r.1;;;
   of_result r.2)%prog.
End Stage.

(** ** [write_compilation] *)

Record CompileRoots := { input : string; catalog_root : string; source : string; credentials : string }.

Definition check_outside (destination : AbsolutePath) (raw : string) : Out unit :=
  let! root := absolute_path raw in
  check_root root;;;
  refuse_if (within destination root) "E_OUTPUT_ROOT" "$" "output overlaps an input or credential root".

Definition staging_name (random : list byte) : string := ".graphx-compile-" +:+ hex_text random.

Definition write_compilation (rounds : nat) (compiled : CompiledGraph) (output : string)
    (roots : CompileRoots) : Out unit :=
  let! destination := absolute_path output in
  for_each_in (fun raw _ => check_outside destination raw)
    [input roots; catalog_root roots; source roots; credentials roots] tt;;;
  refuse_if (String.eqb (filename destination) "") "E_OUTPUT_PATH" "$" "output must name a fresh directory";;;
  let! parent := open_directory (parent_names destination) in
  let! existing := output_do (StatAt parent (filename destination)) in
  refuse_if (match existing with node_absent => false | _ => true end) "E_OUTPUT_OWNERSHIP" "$"
    "output already exists; replacement requires unavailable runtime inactivity evidence";;;
  of_result (check_package compiled);;;
  let! random := output_do RandomBytes in
  match random with
  | None => refuse "E_OUTPUT_IO" "$" "cannot allocate staging identity"
  | Some random =>
      let name := staging_name random in
      let! made := output_do (MkdirAt parent name) in
      refuse_if (negb made) "E_OUTPUT_IO" "$" "cannot create exclusive staging directory";;;
      let! stage := output_do (OpenDirectoryAt parent name) in
      match stage with
      | None => refuse "E_OUTPUT_PATH" "$" "cannot open a non-symlink directory or file"
      | Some stage => staged rounds parent stage name (compiled_files compiled) (filename destination)
      end
  end.
End Package.
End CompileOutput.
