(* ===== verification/CompileOutputProofs.v ===== *)
(** * Writing a compilation: publication

    The rename to the destination happens behind the writing and syncing of
    every file and directory, and nothing is removed once it has happened. *)

From Stdlib Require Import ZArith Lia Strings.Byte Strings.Ascii Strings.String Floats.SpecFloat.
From stdpp Require Import base option gmap strings list.
From S2P Require Import Prelude ConfigValue ConfigValueProofs ConfigRender ConfigNetwork ConfigGraph ConfigLoad.
From S2P Require Import Text Effects Process Compile CompileProofs CompileOutput.

Module CompileOutputProofs.
Import ConfigValue ConfigRender ConfigNetwork Text Effects Process Compile CompileOutput.
Local Open Scope Z_scope.

Abbreviation Happened := (event output_answer).
Abbreviation happened c x := (@Effects.Event output_call output_answer c x).

(** ** Histories, the last event first *)

(** The bytes that a run of writes has left in a file *)
Inductive written (fd : Z) : list Happened -> string -> Prop :=
  | written_nothing : written fd [] ""
  | written_more l s rest n :
      written fd l s -> written fd (happened (WriteFile fd rest) (bytes_moved (S n)) :: l) (s +:+ stake (S n) rest)
  | written_again l s rest :
      written fd l s -> written fd (happened (WriteFile fd rest) transfer_interrupted :: l) s.

(** A file of the staging directory was created, filled and synced. *)
Definition file_written (stage : Z) (path bytes : string) (h : list Happened) : Prop :=
  exists after fd l before, written fd l bytes /\
    h = after ++ happened (SyncFile fd) true :: l ++ happened (CreateAt stage path) (Some fd) :: before.

Definition directory_synced (stage : Z) (d : string) (h : list Happened) : Prop :=
  exists after fd before,
    h = after ++ happened (SyncFile fd) true :: happened (OpenDirectoryAt stage d) (Some fd) :: before.

(** What is known of the staging directory when it is renamed; [h] begins with
    its opening. *)
Definition stage_complete (files : Files) (stage : Z) (h : list Happened) : Prop :=
  (forall path bytes, find_file path files = Some bytes -> file_written stage path bytes h) /\
  (forall d made, happened (MkdirAt stage d) made ∈ h -> directory_synced stage d h) /\
  exists before, h = happened (SyncFile stage) true :: before.

Lemma file_written_app stage path bytes h h' : file_written stage path bytes h -> file_written stage path bytes (h' ++ h).
Proof.
  intros (after & fd & l & before & Hl & ->). exists (h' ++ after), fd, l, before.
  split; [done|]. by rewrite <-app_assoc.
Qed.

Lemma directory_synced_app stage d h h' : directory_synced stage d h -> directory_synced stage d (h' ++ h).
Proof. intros (after & fd & before & ->). exists (h' ++ after), fd, before. by rewrite <-app_assoc. Qed.

(** ** Staging *)

Section Stage.
Context (rounds : nat) (parent stage : Z) (name : string) (files : Files) (destination : string).
Context (h0 : list Happened).
Abbreviation State := Staging.

(** Only the publication is restricted. *)
Definition publishing (h : list Happened) (c : output_call) : Prop :=
  match c with
  | RenameExclusive p from to => p = parent /\ from = name /\ to = destination /\
      exists h2, h = h2 ++ h0 /\ stage_complete files stage h2
  | _ => True
  end.

Lemma write_all_spec n path fd rest l s h1 :
  written fd l s ->
  wp publishing (write_all n path fd rest) (l ++ h1)
    (fun h r => match r with
     | Ok _ => exists l', h = l' ++ h1 /\ written fd l' (s +:+ rest)
     | Throw _ => True
     end).
Proof.
  revert rest l s; induction n as [|n IH]; intros [|c rest] l s Hl; cbn [write_all].
  - exists l. by rewrite sapp_nil.
  - split; [done|]. intros [].
  - exists l. by rewrite sapp_nil.
  - split; [done|]. intros [[|k]| |]; [done| |apply (IH _ (_ :: l)); by constructor|done].
    cbn [and_then]. assert (s +:+ String c rest = (s +:+ stake (S k) (String c rest)) +:+ sdrop (S k) (String c rest)) as ->.
    { by rewrite <-sapp_assoc, stake_drop. }
    apply (IH _ (_ :: l)). by constructor.
Qed.

Lemma swp_sync {S} fd (s : S) h (Q : list Happened -> S -> result unit -> Prop) :
  Q (happened (SyncFile fd) true :: h) s (Ok tt) ->
  (forall h e, Q h s (Throw e)) -> swp publishing (lift (sync fd)) s h Q.
Proof.
  intros H1 H2. apply swp_lift. split; [done|]. intros []; [exact H1|apply H2].
Qed.

(** The rounds of the model are only exhausted by interruptions: each of them
    takes one round, and every other round writes a byte. *)
Definition interruptions (l : list Happened) : nat :=
  length (List.filter (fun e => match e_call e as c return output_answer c -> bool with
    | WriteFile _ _ => fun x => match x with transfer_interrupted => true | _ => false end
    | _ => fun _ => false
    end (e_answer e)) l).

Lemma interruptions_app l l' : interruptions (l ++ l') = (interruptions l + interruptions l')%nat.
Proof. unfold interruptions. by rewrite List.filter_app, length_app. Qed.

Lemma write_all_progress n : forall size path fd rest l h1,
  (String.length rest <= size)%nat ->
  wp (fun h c => c = NoProgress -> exists l', h = l' ++ l ++ h1 /\ (n < size + interruptions l')%nat)
    (write_all n path fd rest) (l ++ h1) (fun _ _ => True).
Proof.
  induction n as [|n IH]; intros size path fd [|c rest] l h1 Hsize; cbn [write_all]; [done| |done|].
  - split; [|intros []]. intros _. exists []. cbn in *. split; [done|lia].
  - split; [done|]. cbn [String.length] in Hsize.
    intros [[|k]| |]; cbn [and_then]; [done| | |done].
    + destruct size as [|size]; [lia|].
      eapply wp_weaken; [|apply (IH size path fd _ (_ :: l) h1); cbn [sdrop]; rewrite sdrop_length; lia].
      intros h d Hd ->. destruct (Hd eq_refl) as (l' & -> & Hl).
      exists (l' ++ [happened (WriteFile fd (String c rest)) (bytes_moved (S k))]). rewrite <-!app_assoc. split; [done|].
      rewrite interruptions_app. unfold interruptions at 2. cbn. lia.
    + eapply wp_weaken; [|apply (IH size path fd _ (_ :: l) h1); exact Hsize].
      intros h d Hd ->. destruct (Hd eq_refl) as (l' & -> & Hl).
      exists (l' ++ [happened (WriteFile fd (String c rest)) transfer_interrupted]). rewrite <-!app_assoc. split; [done|].
      rewrite interruptions_app. unfold interruptions at 2. cbn. lia.
Qed.

(** ** Loops, by what they have done *)

Lemma swp_each {S A} (body : A -> stateful (C := output_call) (R := output_answer) S unit)
    (I : list A -> list Happened -> S -> Prop) l : forall pre h s,
  I pre h s ->
  (forall pre x h s, I pre h s ->
     swp publishing (body x) s h (fun h s r => match r with Ok _ => I (pre ++ [x]) h s | Throw _ => True end)) ->
  swp publishing (for_each_state body l) s h
    (fun h s r => match r with Ok _ => I (pre ++ l) h s | Throw _ => True end).
Proof.
  induction l as [|x l IH]; intros pre h s Hs Hb; cbn [for_each_state]; [by rewrite app_nil_r|].
  apply swp_bind. eapply swp_mono; [|by apply Hb]. intros h' s' [[]|e]; [|done].
  intros Hs'. assert (pre ++ x :: l = (pre ++ [x]) ++ l) as -> by (by rewrite <-app_assoc). by apply IH.
Qed.

(** The directories that were made are known. *)
Definition known (h : list Happened) (s : Staging) : Prop :=
  forall d made, happened (MkdirAt stage d) made ∈ h -> d ∈ directories s.

Lemma insert_name_elem x y l : x ∈ insert_name y l <-> x = y \/ x ∈ l.
Proof.
  induction l as [|z l IH]; cbn [insert_name]; [set_solver|].
  destruct (String.compare y z) eqn:E; [|set_solver|].
  - apply String.compare_eq_iff in E as ->. set_solver.
  - rewrite !elem_of_cons, IH. tauto.
Qed.

Definition filled (pre : list string) (h : list Happened) (s : Staging) : Prop :=
  exists h2, h = h2 ++ h0 /\ known h2 s /\
    forall path, path ∈ pre -> file_written stage path (default "" (find_file path files)) h2.

Lemma make_directory_spec pre path d h s : filled pre h s ->
  swp publishing (make_directory stage path d) s h
    (fun h s r => match r with Ok _ => filled pre h s | Throw _ => True end).
Proof.
  intros (h2 & -> & Hk & Hf). unfold make_directory. state_steps.
  destruct (existsb (String.eqb d) (directories s)); state_steps; [by exists h2|].
  apply swp_call; [done|]. intros x. destruct x; [|done]. exists (happened (MkdirAt stage d) true :: h2).
  split; [done|]. split.
  - intros d' made [[= <-]|Hin]%elem_of_cons; apply insert_name_elem; [by left|right; by eapply Hk].
  - intros q Hq. by apply (file_written_app _ _ _ _ [_]), Hf.
Qed.

Lemma known_app l h s s' : known h s -> directories s' = directories s ->
  (forall d made, happened (MkdirAt stage d) made ∉ l) -> known (l ++ h) s'.
Proof.
  intros Hk Hd Hl d made [Hin|Hin]%elem_of_app; [by apply Hl in Hin|]. rewrite Hd. by eapply Hk.
Qed.

Lemma written_no_mkdir fd l bytes d made : written fd l bytes -> happened (MkdirAt stage d) made ∉ l.
Proof.
  induction 1; [by intros ?%elem_of_nil|..]; intros [H'|?]%elem_of_cons; done.
Qed.

Lemma write_file_spec pre path h s : filled pre h s ->
  swp publishing (write_file rounds stage files path) s h
    (fun h s r => match r with Ok _ => filled (pre ++ [path]) h s | Throw _ => True end).
Proof.
  intros Hf. unfold write_file. state_steps.
  eapply swp_mono; [|apply (swp_for_each publishing _ (filled pre) (fun _ _ _ => True)); [exact Hf|]].
  2: { intros d s' h' _ Hf'. by apply make_directory_spec. }
  intros h' s' [[]|e]; [|done]. intros (h2 & -> & Hk & Hw). state_steps. apply swp_call; [done|].
  intros [fd|]; [|done]. state_steps. apply swp_lift.
  eapply wp_mono; [|apply (write_all_spec _ _ fd _ []), written_nothing].
  intros h3 [[]|e]; [|done]. intros (l & -> & Hl). rewrite sapp_empty in Hl. apply swp_lift. split; [done|].
  intros x. destruct x; [|done]. cbn.
  exists ((happened (SyncFile fd) true :: l) ++ happened (CreateAt stage path) (Some fd) :: h2).
  split; [by rewrite <-!app_assoc|]. split.
  - apply known_app with (s := s'); [|done|].
    + intros d made [H|Hin]%elem_of_cons; [done|by eapply Hk].
    + intros d made [H|Hin]%elem_of_cons; [done|]. by eapply written_no_mkdir.
  - intros q [Hq|Hq%list_elem_of_singleton]%elem_of_app.
    + rewrite cons_middle, app_assoc. by apply file_written_app, Hw.
    + subst. by exists [], fd, l, h2.
Qed.

Definition synced (s : Staging) (pre : list string) (h : list Happened) (s' : Staging) : Prop :=
  s' = s /\ exists h2, h = h2 ++ h0 /\ known h2 s /\
    (forall path, path ∈ write_order files -> file_written stage path (default "" (find_file path files)) h2) /\
    forall d, d ∈ pre -> directory_synced stage d h2.

Lemma sync_directory_spec s0 pre d h s : synced s0 pre h s ->
  swp publishing (sync_directory stage d) s h
    (fun h s r => match r with Ok _ => synced s0 (pre ++ [d]) h s | Throw _ => True end).
Proof.
  intros (-> & h2 & -> & Hk & Hw & Hd). unfold sync_directory. state_steps.
  apply swp_call; [done|]. intros [fd|]; [|done]. apply swp_lift. split; [done|].
  intros x. destruct x; [|done]. split; [done|].
  exists ([happened (SyncFile fd) true; happened (OpenDirectoryAt stage d) (Some fd)] ++ h2).
  split; [done|]. split; [|split].
  - apply known_app with (s := s0); [done..|]. intros d' made H. by repeat (apply elem_of_cons in H as [H|H]; [done|]); apply elem_of_nil in H.
  - intros q Hq. by apply file_written_app, Hw.
  - intros q [Hq|Hq%list_elem_of_singleton]%elem_of_app; [by apply directory_synced_app, Hd|].
    subst. by exists [], fd, h2.
Qed.

Lemma find_file_name path bytes l : find_file path l = Some bytes -> path ∈ map fst l.
Proof.
  induction l as [|[p b] l IH]; cbn [find_file map fst]; [done|].
  destruct (String.eqb_spec path p) as [->|]; [by left|right; auto].
Qed.

Lemma write_order_elem path bytes : find_file path files = Some bytes -> path ∈ write_order files.
Proof.
  intros Hf%find_file_name. unfold write_order. apply elem_of_app.
  destruct (String.eqb_spec path "compile-manifest.json") as [->|Hne]; [right; by left|left].
  apply list_elem_of_In, filter_In. split; [by apply list_elem_of_In|].
  by destruct (String.eqb_spec path "compile-manifest.json").
Qed.

(** Whatever is answered, the publication is preceded by a complete staging
    directory, and a return by a publication. *)
Lemma publish_spec s :
  directories s = [] ->
  swp publishing (publish rounds parent stage name files destination) s h0
    (fun h s r => match r with
     | Ok _ => happened (RenameExclusive parent name destination) true ∈ h
     | Throw _ => True end).
Proof.
  intros Hs. unfold publish. state_steps.
  eapply swp_mono; [|apply (swp_each _ filled _ []); [|intros; by apply write_file_spec]].
  2: { exists []. split; [done|]. split; [by intros ? ? ?%elem_of_nil|by intros ? ?%elem_of_nil]. }
  intros h s1 [[]|e]; [|done]. cbn [app]. intros (h2 & -> & Hk & Hw). state_steps.
  eapply swp_mono; [|apply (swp_each _ (synced s1) _ []); [|intros; by apply sync_directory_spec]].
  2: { split; [done|]. exists h2. do 3 (split; [done|]). by intros ? ?%elem_of_nil. }
  intros h s2 [[]|e]; [|done]. cbn [app]. intros (-> & h3 & -> & Hk3 & Hw3 & Hd3).
  state_steps. apply swp_sync; [|done]. state_steps. apply swp_call.
  - do 3 (split; [done|]). exists (happened (SyncFile stage) true :: h3). split; [done|]. split; [|split].
    + intros path bytes Hf. apply (file_written_app _ _ _ _ [_]).
      pose proof (Hw3 path (write_order_elem _ _ Hf)) as H. by rewrite Hf in H.
    + intros d made [H|Hin]%elem_of_cons; [done|]. apply (directory_synced_app _ _ _ [_]), Hd3. by eapply Hk3.
    + by exists h3.
  - intros x. destruct x; [|done]. state_steps. apply swp_sync; [|done]. right. by left.
Qed.

(** *** Nothing is removed behind a publication *)

Definition renamed (e : Happened) : bool :=
  match e_call e as c return output_answer c -> bool with
  | RenameExclusive _ _ _ => fun x => x
  | _ => fun _ => false
  end (e_answer e).
Definition unpublished (h : list Happened) : Prop := Forall (fun e => renamed e = false) h.

Definition removing (h : list Happened) (c : output_call) : Prop :=
  match c with
  | UnlinkFileAt _ _ | RemoveDirectoryAt _ _ => unpublished h
  | _ => True
  end.

Definition tidy (c : output_call) : Prop :=
  match c with RenameExclusive _ _ _ | UnlinkFileAt _ _ | RemoveDirectoryAt _ _ => False | _ => True end.

Lemma tidy_keeps h c : unpublished h -> tidy c -> removing h c /\ forall x, unpublished (happened c x :: h).
Proof.
  intros Hu Hc. split; [by destruct c|]. intros x. constructor; [by destruct c|done].
Qed.

Definition mark_kept (h : list Happened) (s : Staging) : Prop := published s = false -> unpublished h.

Lemma tidy_kept {A} (p : Out A) : calls_only tidy p -> kept (S := Staging) removing mark_kept (lift p).
Proof.
  intros Hp s h HK. apply swp_lift. destruct (published s) eqn:E.
  - eapply wp_mono; [|apply (wp_calls tidy removing (fun _ => True)); [exact Hp|by intros ? []|done]].
    intros h' r _. unfold mark_kept. by rewrite E.
  - eapply wp_mono; [|apply (wp_calls tidy removing unpublished); [exact Hp| |by apply HK]].
    + by intros h' r Hu _.
    + intros h' c Hu Hc. by apply tidy_keeps.
Qed.

Lemma sync_tidy fd : calls_only tidy (sync fd).
Proof. split; [done|]. by intros []. Qed.

Lemma write_all_tidy n path fd rest : calls_only tidy (write_all n path fd rest).
Proof.
  revert rest; induction n as [|n IH]; intros [|c rest]; cbn [write_all]; [done| |done|].
  - by split; [|intros []].
  - split; [done|]. intros [[|k]| |]; cbn [and_then]; [done|apply IH|apply IH|done].
Qed.

Lemma call_tidy c : tidy c -> calls_only tidy (output_do c).
Proof. by split. Qed.

Lemma refuse_tidy {A} code path message : calls_only tidy (refuse (A := A) code path message).
Proof. done. Qed.

Ltac keep :=
  lazymatch goal with
  | |- kept _ _ (bind_state current _) => apply kept_current; intros ? ? ?
  | |- kept _ _ (bind_state _ _) => apply kept_bind; [|intros ?]
  | |- kept _ _ (for_each_state _ _) => apply kept_for_each; intros ? ?
  | |- kept _ _ (returns _) => apply kept_returns
  | |- kept _ _ (modify _) => apply kept_modify; intros ? ?; done
  | |- kept _ _ (lift (output_do _)) => by apply tidy_kept, call_tidy
  | |- kept _ _ (lift (sync _)) => apply tidy_kept, sync_tidy
  | |- kept _ _ (lift (refuse _ _ _)) => apply tidy_kept, refuse_tidy
  | |- kept _ _ (lift (write_all _ _ _ _)) => apply tidy_kept, write_all_tidy
  | |- kept _ _ (match ?x with _ => _ end) => destruct x
  end.

Lemma write_file_kept path : kept removing mark_kept (write_file rounds stage files path).
Proof. unfold write_file, make_directory. repeat keep. Qed.

Lemma sync_directory_kept d : kept removing mark_kept (sync_directory stage d).
Proof. unfold sync_directory. repeat keep. Qed.

Lemma publish_kept : kept removing mark_kept (publish rounds parent stage name files destination).
Proof.
  unfold publish. apply kept_bind; [apply kept_for_each; intros; apply write_file_kept|]. intros _.
  keep. apply kept_bind; [apply kept_for_each; intros; apply sync_directory_kept|]. intros _.
  keep; [keep|]. intros s' h' HK. state_steps. apply swp_call; [done|]. intros x. destruct x; cbn [negb].
  - state_steps. apply swp_lift. split; [done|]. by intros [].
  - intros E. constructor; [done|by apply HK].
Qed.

Lemma staged_removing h :
  unpublished h -> wp removing (staged rounds parent stage name files destination) h (fun _ _ => True).
Proof.
  intros Hu. unfold staged. apply wp_and_then.
  eapply wp_mono; [|apply publish_kept; by intros ?].
  intros h' [[s r]|e]; [|done]. intros HK. cbn [fst snd]. apply wp_and_then.
  eapply (wp_mono _ _ _ (fun _ _ => True)).
  { intros h2 [[]|e] _; [by apply wp_of_result|done]. }
  unfold remove_staging. destruct (published s) eqn:E; [done|]. specialize (HK E). clear E Hu.
  split; [done|]. intros x. cbn [and_then]. destruct x; cbn [negb]; [|done].
  eapply (wp_mono _ _ _ (fun h _ => unpublished h)); [done|].
  apply (wp_calls (fun c => match c with RenameExclusive _ _ _ => False | _ => True end)).
  - repeat first [apply calls_and_then; [|intros ?] | apply calls_for_each; intros ? ? | by split].
  - intros h2 c Hu Hc. split; [by destruct c|]. intros x. constructor; [by destruct c|done].
  - by constructor.
Qed.

Definition withdrawing (c : output_call) : Prop :=
  match c with RenameExclusive _ _ _ => False | _ => True end.

Lemma remove_staging_calls s : calls_only withdrawing (remove_staging parent stage name s).
Proof.
  unfold remove_staging. destruct (published s); [done|]. apply calls_and_then; [by split|].
  intros []; cbn [negb]; [|done].
  repeat first [apply calls_and_then; [|intros ?] | apply calls_for_each; intros ? ? | by split].
Qed.

Lemma withdrawing_publishing h c : withdrawing c -> publishing h c.
Proof. by destruct c. Qed.

Lemma staged_publishing :
  wp publishing (staged rounds parent stage name files destination) h0
    (fun h r => match r with Ok _ => List.Exists (fun e => renamed e = true) h | Throw _ => True end).
Proof.
  unfold staged. apply wp_and_then. eapply wp_mono; [|by apply publish_spec].
  intros h' [[s [[]|e]]|e]; [..|done]; cbn [fst snd]; intros Hin; apply wp_and_then.
  - eapply wp_mono; [|apply (wp_calls withdrawing publishing (fun h => List.Exists (fun e => renamed e = true) h));
      [apply remove_staging_calls|intros h c Hh Hc; split; [by apply withdrawing_publishing|intros x; by right]|]].
    + by intros h2 [[]|e] Hh.
    + apply Exists_exists. by eexists.
  - eapply wp_mono; [|apply (wp_calls withdrawing publishing (fun _ => True));
      [apply remove_staging_calls|intros h c _ Hc; split; [by apply withdrawing_publishing|done]|done]].
    by intros h2 [[]|e2] _.
Qed.
End Stage.

(** ** The whole program *)

Section Whole.
Context (parse_document : string -> result Value) (sha256 : string -> string).
Context (rounds : nat) (compiled : CompiledGraph) (output : string) (roots : CompileRoots).
Abbreviation program := (write_compilation parse_document sha256 rounds compiled output roots).

(** What has happened when a directory is renamed: the package was consistent,
    the destination was absent, the directory was made and opened, and all files
    in it are complete. *)
Definition complete_before (h : list Happened) (p : Z) (from to : string) : Prop :=
  check_package parse_document sha256 compiled = Ok tt /\
  exists h2 stage h1,
    h = h2 ++ happened (OpenDirectoryAt p from) (Some stage) :: happened (MkdirAt p from) true :: h1 /\
    happened (StatAt p to) node_absent ∈ h1 /\ stage_complete (compiled_files compiled) stage h2.

Definition obeys (h : list Happened) (c : output_call) : Prop :=
  match c with
  | RenameExclusive p from to => complete_before h p from to
  | UnlinkFileAt _ _ | RemoveDirectoryAt _ _ => unpublished h
  | _ => True
  end.

Lemma tidy_obeys h c : unpublished h -> tidy c -> obeys h c /\ forall x, unpublished (happened c x :: h).
Proof. intros Hu Hc. split; [by destruct c|]. by apply tidy_keeps. Qed.

Lemma tidy_first {A B} (p : Out A) (f : A -> Out B) h Q :
  calls_only tidy p -> unpublished h -> (forall h e, Q h (Throw e)) ->
  (forall h a, unpublished h -> wp obeys (f a) h Q) -> wp obeys (and_then p f) h Q.
Proof.
  intros Hp Hu Ht Hf. apply wp_and_then.
  eapply wp_mono; [|apply (wp_calls tidy obeys unpublished); [exact Hp|apply tidy_obeys|done]].
  intros h' [a|e] Hu'; [by apply Hf|done].
Qed.

Lemma absolute_path_tidy path : calls_only tidy (absolute_path path).
Proof.
  unfold absolute_path. repeat (apply calls_and_then; [apply calls_of_result|intros []]).
  destruct (ConfigLoad.is_absolute path); [done|]. apply calls_and_then; [by split|].
  intros r. apply calls_and_then; [apply calls_of_result|done].
Qed.

Lemma check_components_tidy paths : calls_only tidy (check_components paths).
Proof. induction paths as [|path paths IH]; [done|]. split; [done|]. by intros []. Qed.

Lemma check_outside_tidy destination raw : calls_only tidy (check_outside destination raw).
Proof.
  unfold check_outside. apply calls_and_then; [apply absolute_path_tidy|]. intros root.
  apply calls_and_then; [apply check_components_tidy|]. intros []. apply calls_of_result.
Qed.

Lemma open_directory_tidy parts : calls_only tidy (open_directory parts).
Proof.
  split; [done|]. intros [root|]; [|done]. cbn [and_then]. apply calls_for_each.
  intros part fd. split; [done|]. by intros [].
Qed.

Lemma writing_obeys :
  wp obeys program [] (fun h r => match r with Ok _ => List.Exists (fun e => renamed e = true) h | Throw _ => True end).
Proof.
  unfold write_compilation. apply tidy_first; [apply absolute_path_tidy|constructor|done|].
  intros h1 destination H1. apply tidy_first; [apply calls_for_each; intros; apply check_outside_tidy|done..|].
  intros h2 [] H2. apply tidy_first; [apply calls_of_result|done..|].
  intros h3 [] H3. apply tidy_first; [apply open_directory_tidy|done..|]. intros h4 parent H4.
  split; [done|]. intros existing. cbn [and_then].
  destruct existing; try done. unfold refuse_if at 1, reject_if. cbn [of_result and_then].
  destruct (check_package parse_document sha256 compiled) as [[]|e] eqn:Hp; [|done]. cbn [of_result and_then].
  split; [done|]. intros [random|]; [|done]. cbn [and_then]. split; [done|].
  intros []; [|done]. cbn [negb and_then]. unfold refuse_if, reject_if. cbn [of_result and_then].
  split; [done|]. intros [stage|]; [|done]. cbn [and_then].
  set (h0 := _ :: _ :: _ :: _ :: h4).
  assert (unpublished h0) as Hu by (repeat constructor; done).
  eapply wp_weaken; [|eapply wp_mono; [|eapply wp_and; [by apply staged_publishing|by apply staged_removing]]].
  - intros h c [Hpub Hrem]. destruct c; try done.
    destruct Hpub as (-> & -> & -> & l & -> & Hc). split; [done|].
    exists l, stage. eexists. split; [done|]. split; [|done]. right. by left.
  - by intros h r [? _].
Qed.

Definition removes (c : output_call) : bool :=
  match c with UnlinkFileAt _ _ | RemoveDirectoryAt _ _ => true | _ => false end.

(** C21: Whatever the file system answers, the destination appears only when the
    package is consistent and every file and directory of it was written and
    synced in a fresh directory; nothing is removed after that.  A return means
    that the destination appeared. *)
Theorem publication_atomic l :
  reaches program l ->
  (forall l1 l2 p from to x, l = l1 ++ happened (RenameExclusive p from to) x :: l2 ->
     complete_before (rev l1) p from to) /\
  (forall l1 l2 c x, l = l1 ++ happened c x :: l2 -> removes c = true -> unpublished (rev l1)) /\
  (runs program l (Ok tt) -> List.Exists (fun e => renamed e = true) l).
Proof.
  intros Hr. assert (forall l1 l2 c x, l = l1 ++ happened c x :: l2 -> obeys (rev l1) c) as Hobeys.
  { intros l1 l2 c x ->. pose proof (wp_reaches _ _ _ _ _ _ _ _ writing_obeys Hr) as H. by rewrite app_nil_r in H. }
  split; [|split].
  - intros l1 l2 p from to x Hl. exact (Hobeys _ _ _ _ Hl).
  - intros l1 l2 c x Hl Hc. specialize (Hobeys _ _ _ _ Hl). by destruct c.
  - intros Hrun. pose proof (wp_runs _ _ _ _ _ _ writing_obeys Hrun) as H. rewrite app_nil_r in H.
    apply Exists_exists in H as (e & Hin & He). apply Exists_exists. exists e. split; [|done].
    apply list_elem_of_In, in_rev. by apply list_elem_of_In.
Qed.
End Whole.

(** ** Example *)

Definition sample_package : CompiledGraph :=
  {| graph_id := "g"; compiled_files := [("compile-manifest.json", "m"); ("nodes/a.json", "xyz")] |}.
Definition package_parse (s : string) : result Value :=
  Ok (obj [("graph_id", VStr "g");
           ("files", VArr [obj [("path", VStr "nodes/a.json"); ("sha256", VStr "xyz")]])]).

(** Each write moves one byte; the destination is absent. *)
Definition sample_env (h : list Happened) (c : output_call) : option (output_answer c) :=
  match c return option (output_answer c) with
  | CurrentPath => Some (Ok "/work")
  | SymlinkStatus _ => Some node_directory
  | StatAt _ _ => Some node_absent
  | OpenRoot => Some (Some 3)
  | OpenDirectoryAt _ _ | CreateAt _ _ => Some (Some (4 + Z.of_nat (length h)))
  | RandomBytes => Some (Some [])
  | MkdirAt _ _ | SyncFile _ | RenameExclusive _ _ _ | SameDirectory _ _ _ => Some true
  | WriteFile _ _ => Some (bytes_moved 1%nat)
  | UnlinkFileAt _ _ | RemoveDirectoryAt _ _ => Some tt
  | NoProgress => None
  end.

Definition sample_program : Out unit :=
  write_compilation package_parse (fun s => s) 100 sample_package "out"
    {| input := "/in"; catalog_root := "/catalog"; source := "/source"; credentials := "/credentials" |}.

Lemma publication_atomic_witness :
  List.Exists (fun e => renamed e = true) (simulate sample_env sample_program []).1.
Proof.
  eapply publication_atomic; [apply simulate_reaches|apply simulate_runs; vm_compute; reflexivity].
Defined.
End CompileOutputProofs.

(** * A compilation is accepted by its writer

    What [compile_graph] returns passes every check that [write_compilation]
    makes before it writes, within the bounds of a package. *)

Module CompileAccepted.
Import ConfigValue ConfigValueProofs ConfigRender ConfigNetwork Text Effects Process Compile CompileSamples CompileProofs CompileOutput.
Local Open Scope Z_scope.

(** ** Names of files *)

Lemma all_in_has p c s : ConfigGraph.all_in p s = true -> p c = false -> ConfigLoad.has_char c s = false.
Proof.
  intros Hs Hc. induction s as [|d s IH]; [done|]. cbn in *. apply andb_prop in Hs as [Hd Hs].
  rewrite IH by done. destruct (Ascii.eqb_spec c d) as [->|]; [congruence|].
  destruct (Ascii.eqb_spec d c) as [->|]; [congruence|]. done.
Qed.

Definition identity_char (c : ascii) : bool := is_lower c || is_digit c || is_one_of "_-" c.

Lemma identity_has id c : identity_text id = true -> identity_char c = false -> ConfigLoad.has_char c id = false.
Proof.
  destruct id as [|d id]; [done|]. cbn [identity_text]. intros H Hc. reflect_bools.
  assert (ConfigGraph.all_in identity_char (String d id) = true) as Ha.
  { cbn [ConfigGraph.all_in]. apply andb_true_intro. split; [|done]. unfold identity_char. by rewrite H. }
  by eapply all_in_has.
Qed.

Lemma has_char_app c a b : ConfigLoad.has_char c (a +:+ b) = ConfigLoad.has_char c a || ConfigLoad.has_char c b.
Proof. induction a as [|d a IH]; [done|]. rewrite sapp_cons. cbn [ConfigLoad.has_char]. by rewrite IH, orb_assoc. Qed.

Lemma split_plain s : ConfigLoad.has_char "/" s = false -> split_slash s = [s].
Proof.
  induction s as [|c s IH]; [done|]. cbn [ConfigLoad.has_char]. intros H.
  apply orb_false_elim in H as [Hc Hs]. specialize (IH Hs).
  destruct (Ascii.eqb_spec c "/") as [->|Hne]; [done|].
  destruct c as [[] [] [] [] [] [] [] []]; cbn [split_slash]; rewrite ?IH; try done; by destruct Hne.
Qed.

Definition safe_name (path : string) : Prop :=
  relative_file path = Ok tt /\ ConfigLoad.has_char nul path = false.

Lemma node_name_safe prefix id : In prefix ["nodes"; "guest-build"] -> identity_text id = true ->
  safe_name (prefix +:+ "/" +:+ id +:+ ".json").
Proof.
  intros Hp Hid.
  assert (forall c, identity_char c = false -> ConfigLoad.has_char c ".json" = false ->
            ConfigLoad.has_char c (id +:+ ".json") = false) as Hc.
  { intros c H1 H2. by rewrite has_char_app, H2, (identity_has _ _ Hid H1). }
  assert (split_slash (id +:+ ".json") = [id +:+ ".json"]) as Hs by (apply split_plain, Hc; reflexivity).
  assert (ConfigLoad.has_char nul (id +:+ ".json") = false) as Hn by (by apply Hc).
  assert (ConfigLoad.has_char "\" (id +:+ ".json") = false) as Hb by (by apply Hc).
  assert (exists c rest, id +:+ ".json" = String c rest /\ Ascii.eqb c "." = false) as (c & rest & E & Hdot).
  { destruct id as [|c id]; [done|]. exists c, (id +:+ ".json"). split; [done|].
    cbn [identity_text] in Hid. reflect_bools. by destruct (Ascii.eqb_spec c ".") as [->|]. }
  rewrite E in *.
  assert (forall p, p = "nodes" \/ p = "guest-build" -> split_slash (p +:+ "/" +:+ String c rest) = p :: split_slash (String c rest)) as Hsplit.
  { by intros p [->| ->]. }
  assert (String.eqb (String c rest) "." = false /\ String.eqb (String c rest) ".." = false) as [Hd1 Hd2].
  { cbn [String.eqb]. by rewrite Hdot. }
  assert (path_components (prefix +:+ "/" +:+ String c rest) = [prefix; String c rest]) as Hpc.
  { unfold path_components. destruct Hp as [<-|[<-|[]]]; rewrite Hsplit, Hs by auto; reflexivity. }
  split.
  - unfold relative_file. rewrite Hpc. destruct Hp as [<-|[<-|[]]]; cbn [for_each]; unfold reject_if at 1; cbn [bind];
      rewrite ?Hb, ?Hd1, ?Hd2; reflexivity.
  - destruct Hp as [<-|[<-|[]]]; rewrite !has_char_app, Hn; reflexivity.
Qed.

Lemma good_name_safe path : good_name path -> safe_name path.
Proof.
  intros [Hin|(id & Hid & [->| ->])].
  - assert (forallb (fun p => match relative_file p with Ok _ => negb (ConfigLoad.has_char nul p) | Throw _ => false end)
      fixed_names = true) as H by reflexivity.
    rewrite forallb_forall in H. apply list_elem_of_In, H in Hin. unfold safe_name.
    destruct (relative_file path) as [[]|]; [|done]. by destruct (ConfigLoad.has_char nul path).
  - apply (node_name_safe "nodes"); [by left|done].
  - apply (node_name_safe "guest-build"); [by right; left|done].
Qed.

(** ** The package *)

Fixpoint package_size (files : Files) : Z :=
  match files with [] => 0 | f :: files => Z.of_nat (String.length f.2) + package_size files end.

Lemma check_files_size files n : Forall (fun f => safe_name f.1) files ->
  fold_result check_file files n = Ok (n + package_size files).
Proof.
  intros Hf. revert n; induction Hf as [|[path bytes] files [H1 H2] _ IH]; intros n; cbn [fold_result package_size fst snd].
  - f_equal. lia.
  - unfold check_file at 1. cbn [fst snd] in *. rewrite H1, H2. unfold reject_if. cbn [bind]. rewrite IH. f_equal. lia.
Qed.

Lemma length_emplace path bytes l : find_file path l = None -> length (emplace path bytes l) = S (length l).
Proof.
  induction l as [|[p b] l IH]; cbn [emplace find_file]; [done|].
  destruct (String.eqb_spec path p) as [->|Hne]; [done|]. intros H.
  destruct (String.compare path p) eqn:E; cbn [length]; [by apply String.compare_eq_iff in E|done|by rewrite IH].
Qed.

Definition others (path : string) (files : Files) : Files :=
  List.filter (fun f => negb (String.eqb path f.1)) files.

Lemma others_emplace path bytes l : find_file path l = None -> others path (emplace path bytes l) = l.
Proof.
  unfold others. intros H. assert (List.filter (fun f => negb (String.eqb path f.1)) l = l) as Hl.
  { induction l as [|[p b] l IH]; [done|]. cbn [find_file List.filter fst] in *.
    destruct (String.eqb path p); [done|]. cbn [negb]. by rewrite IH. }
  induction l as [|[p b] l IH]; cbn [emplace find_file] in *.
  - cbn. by rewrite String.eqb_refl.
  - destruct (String.eqb_spec path p) as [->|Hne]; [done|]. cbn [List.filter fst] in Hl.
    destruct (String.eqb_spec path p) as [->|_]; [done|]. cbn [negb] in Hl. injection Hl as Hl.
    destruct (String.compare path p) eqn:E; [by apply String.compare_eq_iff in E| |]; cbn [List.filter fst].
    + rewrite String.eqb_refl. cbn [negb]. destruct (String.eqb_spec path p) as [->|_]; [done|]. cbn [negb]. by rewrite Hl.
    + destruct (String.eqb_spec path p) as [->|_]; [done|]. cbn [negb]. by rewrite IH.
Qed.

Section Accepted.
Context (assets : Assets) (fuel : nat).
Context (parse_document : string -> result Value) (sha256 : string -> string)
        (regex_search : string -> string -> bool) (to_chars : spec_float -> string)
        (stod : string -> result spec_float).

Lemma check_entries files l acc :
  files_ordered l -> (forall f, f ∈ l -> find_file f.1 files = Some f.2 /\ f.1 ∉ acc) ->
  exists names, fold_result (check_entry sha256 files) (map (file_hash sha256) l) acc = Ok names.
Proof.
  unfold files_ordered. revert acc; induction l as [|[p b] l IH]; intros acc Ho Hl; [by eexists|].
  cbn [map tagged fst snd] in Ho. inversion Ho as [|? ? ? Hp Ho']; subst.
  destruct (Hl (p, b)) as [Hf Hn]; [by left|]. cbn [fst snd] in *.
  assert (check_entry sha256 files (file_hash sha256 (p, b)) acc = Ok (p :: acc)) as He.
  { unfold check_entry. change (text_at (file_hash sha256 (p, b)) "path") with (Ok (A := string) p). cbn [bind].
    destruct (existsb (String.eqb p) acc) eqn:E; [by apply existsb_eqb in E|]. rewrite Hf.
    change (text_at (file_hash sha256 (p, b)) "sha256") with (Ok (A := string) (sha256 b)). cbn [bind].
    by rewrite String.eqb_refl. }
  cbn [map fold_result]. rewrite He. cbn [bind]. apply IH; [done|].
  intros [q c] Hin. destruct (Hl (q, c)) as [Hq Hq']; [by right|]. split; [done|]. cbn [fst] in *.
  rewrite elem_of_cons. intros [->|?]; [|done].
  rewrite Forall_forall in Hp. apply (key_lt_irrefl p), (Hp (tagged (p, c))). by apply list_elem_of_fmap_2.
Qed.

(** The manifest of a compilation, from its files *)
Definition manifest_value (graph : ConfigLoad.GraphConfig) (r : CompiledGraph) : result Value :=
  let* native_ovs := is_compose graph in
  let* network := at_ (ConfigLoad.resolved graph) "network" in
  let* nodes := array_at (ConfigLoad.resolved graph) "nodes" in
  let* flag := available native_ovs.1 native_ovs.2 network nodes in
  manifest assets sha256 graph flag (others "compile-manifest.json" (compiled_files r)).

(** C24: A compilation passes the checks of its writer, if the parser reads the
    manifest back and the package keeps the bounds on number and size. *)
Theorem compilation_accepted graph r v bytes :
  compile_graph assets fuel parse_document sha256 regex_search to_chars stod graph = Ok r ->
  manifest_value graph r = Ok v -> config_value_json to_chars v true = Ok bytes ->
  parse_document bytes = Ok v ->
  (length (compiled_files r) <= 4096)%nat -> package_size (compiled_files r) <= 32 * ConfigLoad.kMaxConfigBytes ->
  find_file "compile-manifest.json" (compiled_files r) = Some bytes /\
  check_package parse_document sha256 r = Ok tt.
Proof.
  intros H Hv Hj Hparse Hcount Hsize.
  destruct (compiled_files_written assets fuel parse_document sha256 regex_search to_chars stod
              (fun l => files_ordered l /\ Forall (fun f => safe_name f.1) l)) with (2 := H)
    as (native & ovs & network & nodes & flag & listed & v' & H1 & H2 & H3 & H4 & [Ho Hs] & Hn & Hm & Hp & Hid).
  { intros path b l Hg [Hl1 Hl2]. split; [by apply emplace_ordered|].
    apply emplace_Forall; [by apply good_name_safe|done]. }
  { by split; constructor. }
  pose proof Hp as Hput. unfold put in Hput. invert_ok. rename a into bytes'.
  match goal with H : Ok (emplace _ _ _) = Ok _ |- _ => injection H as Hfiles | _ => idtac end.
  assert (compiled_files r = emplace "compile-manifest.json" bytes' listed) as Hr by congruence.
  assert (v' = v) as ->.
  { unfold manifest_value in Hv. rewrite H1, H2, H3 in Hv. cbn [bind fst snd] in Hv. rewrite H4 in Hv. cbn [bind] in Hv.
    rewrite Hr, others_emplace in Hv by done. congruence. }
  assert (bytes' = bytes) as -> by congruence.
  assert (find_file "compile-manifest.json" (compiled_files r) = Some bytes) as Hf by (by rewrite Hr, find_emplace).
  split; [done|]. apply manifest_files in Hm as [Hgraph Hlist].
  unfold check_package. rewrite Hf. change (default "" (Some bytes)) with bytes.
  replace (4096 <? length (compiled_files r))%nat with false by (symmetry; apply Nat.ltb_ge; lia).
  unfold reject_if at 1. cbn [bind]. rewrite Hparse. cbn [bind].
  unfold eq_at. rewrite Hgraph. cbn [bind value_eqb]. rewrite Hid, String.eqb_refl. cbn [negb].
  unfold array_at. rewrite Hlist. cbn [bind array]. rewrite length_map.
  assert (length listed + 1 = length (compiled_files r))%nat as Hlen by (rewrite Hr, length_emplace by done; lia).
  rewrite Hlen, Nat.eqb_refl. cbn [negb bind]. unfold reject_if at 1. cbn [bind].
  destruct (check_entries (compiled_files r) listed []) as [names ->]; [done| |].
  { intros [q c] Hin. cbn [fst snd]. split; [|by apply not_elem_of_nil]. rewrite Hr.
    apply find_file_elem in Hin; [|done]. rewrite find_emplace_other; [done|]. intros ->. congruence. }
  cbn [bind]. rewrite check_files_size; cbn [bind].
  - unfold reject_if. replace (_ <? _) with false by (symmetry; apply Z.ltb_ge; lia). done.
  - rewrite Hr. apply emplace_Forall; [|done]. by apply good_name_safe, fixed_good.
Qed.
End Accepted.

(** ** Example *)

Definition sample_manifest : Value :=
  match manifest_value sample_assets (fun s => s) (sample_graph "worker") (sample_result "worker") with
  | Ok v => v
  | Throw _ => VNull
  end.

(** Reads the embedded documents as empty, and the manifest *)
Definition manifest_parse (s : string) : result Value :=
  if existsb (String.eqb s) ["alerts"; "dashboard"; "schema"] then Ok (obj []) else Ok sample_manifest.

Lemma compilation_accepted_witness :
  find_file "compile-manifest.json" (compiled_files (sample_result "worker"))
    = find_file "compile-manifest.json" (compiled_files (sample_result "worker")) /\
  check_package manifest_parse (fun s => s) (sample_result "worker") = Ok tt.
Proof.
  split; [done|].
  eapply (compilation_accepted sample_assets 100 manifest_parse (fun s => s) (fun _ _ => true) sample_chars
            sample_stod (sample_graph "worker") (sample_result "worker") sample_manifest);
    [vm_compute; reflexivity..| |]; apply leb_complete || apply Z.leb_le; vm_compute; reflexivity.
Defined.
End CompileAccepted.
