(* ===== verification/Guest.v ===== *)
(** * QEMU guests (src/src/infra/qemu_resources.cpp)

    The artifacts of guests are checked against their recipes, the directory of
    a guest against its identity, and a session talks to QEMU and to the agent
    in the guest through sockets whose peer is identified first.  Loops that
    wait have a number of rounds; the parser of documents, the digests, the
    decoder of base64 and the embedded schema are parameters. *)

From Stdlib Require Import ZArith Lia Strings.Byte Strings.Ascii Strings.String Floats.SpecFloat.
From stdpp Require Import base option gmap strings list.
From S2P Require Import Prelude ConfigValue ConfigSchema ConfigNetwork ConfigGraph Text OwnershipState Effects Process Native.
From S2P Require Import Host Compile.

Module Guest.
Import OwnershipState Text Effects Process Native ConfigValue ConfigNetwork Compile.
Local Open Scope Z_scope.
#[local] Open Scope prog_scope.

Definition frame_limit : Z := 1024 * 1024.

(** [require] *)
Definition require (value : bool) (message : string) : Prog unit :=
  if value then Ret tt else throw message.

(** A condition over values, whose evaluation may throw *)
Definition require_of (value : result bool) (message : string) : Prog unit :=
  let! b := of_result value in require b message.

Definition same_at (v : Value) (key : string) (w : Value) (other : string) : result bool :=
  let* a := at_ v key in let* b := at_ w other in Ok (value_eqb a b).

Section Guests.
Context (fuel rounds : nat).
Context (guest_schema : string) (parse_document : string -> result Value) (sha256 : string -> string)
        (regex_search : string -> string -> bool) (to_chars : spec_float -> string)
        (decode_block : string -> option string).

Definition read (path : string) : Prog Value :=
  safe_execution_path path false;;;
  let! bytes := checked (sys_call (ReadDocument path frame_limit)) in
  of_result (parse_document bytes).

(** ** Artifacts *)

Definition artifact_names : list string := ["bzImage"; "rootfs.cpio.gz"; "licenses.json"; "artifact-manifest.json"].
Definition guest_files : list string :=
  ["usr/bin/graphx"; "usr/bin/graphx-packet-guest"; "usr/lib/graphx/agent.py"; "usr/lib/graphx/application";
   "etc/init.d/S80graphx"; "usr/lib/graphx/sdr/radio.py"; "usr/lib/graphx/sdr/sdr_simulator.py"].
Definition provenance : list string :=
  ["id"; "application"; "architecture"; "recipe_revision"; "source_digest"; "source_date_epoch";
   "builder_image"; "build_argv"].

Definition known_in (name : string) (l : list string) : bool := existsb (String.eqb name) l.

(** [^[a-f0-9]{64}$] *)
Definition digest_text (s : string) : bool := (String.length s =? 64)%nat && ConfigGraph.all_in is_hex s.

Definition check_recipe (recipe node : Value) : Prog unit :=
  require_of (eq_at recipe "exists_today" (VBool true))
    "E_GUEST_UNAVAILABLE: guest recipe has no verified release artifacts";;;
  require_of
    (and_result (eq_at recipe "architecture" (VStr "x86_64"))
      (and_result (let* execution := at_ node "execution" in same_at execution "architecture" recipe "architecture")
        (and_result (let* execution := at_ node "execution" in eq_at execution "accelerator" (VStr "tcg"))
                    (same_at recipe "application" node "type"))))
    "E_GUEST_IDENTITY: guest architecture or application mismatch".

(** One file of a recipe: its name is added to those seen *)
Definition check_artifact (root : string) (file : Value) (expected : list string) : Prog (list string) :=
  let! name := of_result (text_at file "path") in
  require (known_in name artifact_names) "E_GUEST_IDENTITY: unsupported guest artifact";;;
  require (negb (known_in name expected)) "E_GUEST_IDENTITY: duplicate artifact";;;
  let path := slash root name in
  let! status := sys_call (Lstat path) in
  (match status with
   | lstat_missing => throw "E_GUEST_UNAVAILABLE: guest artifact is missing"
   | lstat_error => throw "symlink_status"
   | lstat_found _ => Ret tt
   end);;;
  safe_execution_path path false;;;
  let! size := checked (sys_call (FileSize path)) in
  require ((0 <? size) && (size <=? 512 * 1024 * 1024)) "E_GUEST_IDENTITY: artifact size exceeds bounds";;;
  let! digest := checked (sys_call (Hash path)) in
  let! pinned := of_result (text_at file "sha256") in
  require (String.eqb digest pinned) "E_GUEST_IDENTITY: artifact checksum mismatch";;;
  Ret (name :: expected).

Definition check_guest_files (manifest recipe : Value) : Prog unit :=
  let! files := (if contains manifest "guest_files" then
                   let! files := of_result (at_ manifest "guest_files") in
                   match files with
                   | VObj l => Ret l
                   | _ => throw "E_GUEST_IDENTITY: verified guest filesystem inventory required"
                   end
                 else throw "E_GUEST_IDENTITY: verified guest filesystem inventory required") in
  require (length files =? length guest_files)%nat "E_GUEST_IDENTITY: invalid guest filesystem inventory";;;
  for_each_in (fun name _ =>
    require_of (match find_key name files with
                | Some pin => let* text := text pin in Ok (digest_text text)
                | None => Ok false
                end) "E_GUEST_IDENTITY: invalid guest filesystem pin") (Host.set_of guest_files) tt;;;
  let! application := of_result (text_at recipe "application") in
  require_of (let* pin := object_at files "usr/lib/graphx/application" in
              Ok (value_eqb pin (VStr (sha256 (application +:+ Process.newline)))))
    "E_GUEST_IDENTITY: application filesystem identity mismatch";;;
  for_each_in (fun key _ =>
    require_of (same_at manifest key recipe key) "E_GUEST_IDENTITY: build provenance mismatch") provenance tt.

Definition check_directory (root : string) : Prog unit :=
  let! details := sys_call (StatPath root) in
  require (match details with
           | Some m => match st_kind m with file_directory => true | _ => false end
           | None => false
           end) "E_GUEST_UNAVAILABLE: guest artifacts are missing".

(** The plan of one guest node, whose artifacts are those of the recipe *)
Definition verify_guest (options : ExecutionOptions) (network node : Value) : Prog Value :=
  let! id := of_result (let* execution := at_ node "execution" in text_at execution "guest") in
  require (identity_text id) "E_GUEST_IDENTITY: invalid guest ID";;;
  let! recipe := read (slash (slash (x_output options) "guest-build") (id +:+ ".json")) in
  let! schema := of_result (parse_document guest_schema) in
  of_result (ConfigSchema.validate_shape regex_search to_chars fuel schema recipe schema "$");;;
  check_recipe recipe node;;;
  let! plan := of_result (qemu_guest node recipe network) in
  let root := slash (slash (x_release options) "guests") id in
  check_directory root;;;
  let! outputs := of_result (array_at recipe "outputs") in
  let! expected := for_each_in (check_artifact root) outputs [] in
  require (forallb (fun name => known_in name expected) artifact_names)
    "E_GUEST_IDENTITY: incomplete artifact inventory";;;
  let! listed := checked (sys_call (Listing root)) in
  for_each_in (fun name _ => require (known_in name expected) "E_GUEST_IDENTITY: unexpected artifact file") listed tt;;;
  let! manifest := read (slash root "artifact-manifest.json") in
  check_guest_files manifest recipe;;;
  Ret plan.

Definition verify_guest_artifacts (options : ExecutionOptions) (resolved : Value) : Prog Array :=
  let! nodes := of_result (array_at resolved "nodes") in
  let! guests := for_each_in (fun node guests =>
    let! qemu := of_result (is_kind "qemu" node) in
    if negb qemu then Ret guests
    else
      let! network := of_result (at_ resolved "network") in
      let! plan := verify_guest options network node in
      Ret (guests ++ [plan])) nodes [] in
  (match guests with
   | [] => Ret tt
   | _ =>
       let! planned := read (slash (x_output options) "qemu-plan.json") in
       require (value_eqb planned (obj [("version", VInt 1); ("adapter", VStr "qemu-process-adapter");
                                        ("guests", VArr guests)]))
         "E_GUEST_IDENTITY: guest plan differs from authoritative projection"
   end);;;
  Ret guests.

(** ** The directory of a guest *)

Definition permissions (m : metadata) : Z := Z.land (st_mode m) 511.
Definition inode_of (m : metadata) : string := to_string (st_dev m) +:+ ":" +:+ to_string (st_ino m).
Definition is_kind_of (k : file_kind) (m : metadata) : bool :=
  match st_kind m, k with
  | file_directory, file_directory | file_regular, file_regular | file_socket, file_socket => true
  | _, _ => false
  end.

Definition runtime_files : list string := ["bzImage"; "rootfs.cpio.gz"; "qemu.log"].
Definition runtime_sockets : list string := ["qmp.sock"; "config.sock"; "credentials.sock"; "ready.sock"].

Definition entry_known (name : string) (m : metadata) : bool :=
  (known_in name runtime_files && is_kind_of file_regular m && (st_nlink m =? 1) && (st_uid m =? 0))
  || (known_in name runtime_sockets && is_kind_of file_socket m && (st_uid m =? 65532)).

Definition directory_owned (resource : OwnedResourceIdentity) (m : metadata) : bool :=
  is_kind_of file_directory m && String.eqb (inode_of m) (r_runtime_identity resource)
  && ((st_uid m =? 65532) || (st_uid m =? 0)) && (permissions m =? 448).

Definition found (details : lstat_answer) (test : metadata -> bool) : bool :=
  match details with lstat_found m => test m | _ => false end.

Definition verify_guest_directory (resource : OwnedResourceIdentity) : Prog unit :=
  let path := r_runtime_directory resource in
  if String.eqb path "" then Ret tt
  else
    safe_execution_path path false;;;
    let! details := sys_call (Lstat path) in
    require (found details (directory_owned resource))
      "E_GUEST_IDENTITY: runtime directory replaced; nothing removed";;;
    let! names := checked (sys_call (Listing path)) in
    for_each_in (fun name _ =>
      let! entry := sys_call (Lstat (slash path name)) in
      require (found entry (entry_known name))
        "E_GUEST_IDENTITY: unexpected runtime file; nothing removed") names tt.

Definition cleanup_guest_directory (resource : OwnedResourceIdentity) : Prog unit :=
  let path := r_runtime_directory resource in
  if String.eqb path "" then Ret tt
  else
    verify_guest_directory resource;;;
    let! names := checked (sys_call (Listing path)) in
    for_each_in (fun name _ =>
      if String.eqb name "qemu.log" then
        let! sealed := sys_call (Chmod (slash path name) 256) in
        require sealed "E_GUEST_IDENTITY: cannot seal log"
      else checked (sys_call (Remove (slash path name)))) names tt;;;
    let! sealed := sys_call (Chown path 0 0) in
    require sealed "E_GUEST_IDENTITY: cannot seal evidence directory".

Definition require_guest_account : Prog unit :=
  let! user := sys_call Account in
  require (match user with Some (name, gid) => String.eqb name "graphx-qemu" && (gid =? 65532) | None => false end)
    "E_GUEST_ACCOUNT: dedicated graphx-qemu UID/GID 65532 required";;;
  let! group := sys_call Group in
  require (match group with Some name => String.eqb name "graphx-qemu" | None => false end)
    "E_GUEST_ACCOUNT: dedicated guest group required".

(** ** Sessions *)

Record Session := {
  directory : Z; session_process : OwnedResourceIdentity; interruptible : bool;
  deadline : Z; process_checked : Z }.

Definition with_deadline (d : Z) (s : Session) : Session :=
  {| directory := directory s; session_process := session_process s; interruptible := interruptible s;
     deadline := d; process_checked := process_checked s |}.
Definition with_checked (now : Z) (s : Session) : Session :=
  {| directory := directory s; session_process := session_process s; interruptible := interruptible s;
     deadline := deadline s; process_checked := now |}.

Abbreviation Run := (stateful (C := sys) (R := answer) Session).
#[local] Open Scope stateful_scope.

Definition needs (value : bool) (message : string) : Run unit := lift (require value message).

(** Interruption, deadline and, every 100 milliseconds, the process *)
Definition check : Run unit :=
  do! s := current in
  do! cancelled := lift (if interruptible s then sys_call Interrupted else Ret false) in
  needs (negb cancelled) "E_INTERRUPTED: guest startup interrupted";;;
  do! now := lift (sys_call Now) in
  needs (now <? deadline s) "E_GUEST_TIMEOUT: bounded guest handshake expired";;;
  do! now := lift (sys_call Now) in
  if 100 <=? now - process_checked s then
    do! status := lift (native_process_status (session_process s) false) in
    needs (fst (A := bool) status) "E_GUEST_EXIT: guest process exited";;;
    modify (with_checked now)
  else returns tt.

Fixpoint wait_in (rounds : nat) (fd : Z) (output : bool) : Run unit :=
  match rounds with
  | O => lift spinning
  | S rounds =>
      check;;;
      do! polled := lift (sys_call (PollStream fd output)) in
      match polled with
      | stream_interrupted | stream_quiet => wait_in rounds fd output
      | stream_broken => raises (RuntimeError "E_GUEST_CHANNEL: poll failed")
      | stream_ready wanted => needs wanted "E_GUEST_CHANNEL: disconnected channel"
      end
  end.
Definition wait (fd : Z) (output : bool) : Run unit := wait_in rounds fd output.

(** The checks of a socket file, before the connection *)
Definition socket_sealed (path : string) (m : metadata) : Run unit :=
  needs (is_kind_of file_socket m && (st_uid m =? 65532)
         && ((permissions m =? 448) || (permissions m =? 384)))
    "E_GUEST_CHANNEL_IDENTITY: socket owner or mode mismatch";;;
  do! sealed := lift (sys_call (Chmod path 384)) in
  needs sealed "E_GUEST_CHANNEL_IDENTITY: cannot seal socket".

Definition open_stream (path : string) : Run Z :=
  do! fd := lift (sys_call OpenStream) in
  match fd with
  | None => raises (RuntimeError "E_GUEST_CHANNEL: socket failed")
  | Some fd =>
      do! closing := lift (sys_call (StreamFlag fd false)) in
      needs closing "E_GUEST_CHANNEL: descriptor setup failed";;;
      needs (String.length path <? 108)%nat "E_GUEST_CHANNEL: socket path exceeds bound";;;
      do! nonblocking := lift (sys_call (StreamFlag fd true)) in
      needs nonblocking "E_GUEST_CHANNEL: nonblocking setup failed";;;
      returns fd
  end.

(** The checks of the peer and, again, of the socket file *)
Definition peer_identified (path : string) (before : metadata) (fd : Z) : Run unit :=
  do! s := current in
  do! peer := lift (sys_call (StreamPeer fd)) in
  needs (match peer with
         | Some (uid, pid) => (uid =? 65532) && String.eqb (to_string pid) (r_stable_id (session_process s))
         | None => false
         end) "E_GUEST_CHANNEL_IDENTITY: wrong QEMU peer";;;
  do! after := lift (sys_call (Lstat path)) in
  needs (found after (fun m => (st_ino before =? st_ino m) && (st_dev before =? st_dev m)))
    "E_GUEST_CHANNEL_IDENTITY: socket replaced".

Fixpoint connect_in (rounds : nat) (path : string) : Run Z :=
  match rounds with
  | O => lift spinning
  | S rounds =>
      check;;;
      do! before := lift (sys_call (Lstat path)) in
      match before with
      | lstat_missing => lift (sys_call (Sleep 20));;; connect_in rounds path
      | lstat_error => raises (RuntimeError "E_GUEST_CHANNEL_IDENTITY: socket owner or mode mismatch")
      | lstat_found before =>
          socket_sealed path before;;;
          do! fd := open_stream path in
          do! connected := lift (sys_call (ConnectStream fd path)) in
          match connected with
          | connect_done => peer_identified path before fd;;; returns fd
          | connect_later => lift (sys_call (CloseStream fd));;; lift (sys_call (Sleep 20));;; connect_in rounds path
          | connect_failed => raises (RuntimeError "E_GUEST_CHANNEL: connection failed")
          | connect_pending =>
              wait fd true;;;
              do! clear := lift (sys_call (StreamError fd)) in
              needs clear "E_GUEST_CHANNEL: connection failed";;;
              peer_identified path before fd;;;
              returns fd
          end
      end
  end.

Definition connect (name : string) : Run Z :=
  do! s := current in
  connect_in rounds ("/proc/self/fd/" +:+ to_string (directory s) +:+ "/" +:+ name +:+ ".sock").

(** ** Transfers *)

Fixpoint transfer_out (rounds : nat) (fd : Z) (bytes : string) : Run unit :=
  match bytes, rounds with
  | EmptyString, _ => returns tt
  | _, O => lift spinning
  | _, S rounds =>
      wait fd true;;;
      do! count := lift (sys_call (SendStream fd bytes)) in
      match count with
      | transfer_interrupted => transfer_out rounds fd bytes
      | transfer_failed => raises (RuntimeError "E_GUEST_CHANNEL: truncated frame")
      | bytes_moved n =>
          needs (0 <? n) "E_GUEST_CHANNEL: truncated frame";;;
          transfer_out rounds fd (sdrop (Z.to_nat n) bytes)
      end
  end.

Fixpoint transfer_in (rounds : nat) (fd : Z) (size : nat) (bytes : string) : Run string :=
  match size, rounds with
  | O, _ => returns bytes
  | _, O => lift spinning
  | _, S rounds =>
      wait fd false;;;
      do! moved := lift (sys_call (ReceiveStream fd (Z.of_nat size))) in
      match moved with
      | transfer_interrupted => transfer_in rounds fd size bytes
      | transfer_failed => raises (RuntimeError "E_GUEST_CHANNEL: truncated frame")
      | bytes_moved part =>
          needs (negb (String.eqb part "")) "E_GUEST_CHANNEL: truncated frame";;;
          transfer_in rounds fd (size - String.length part) (bytes +:+ stake size part)
      end
  end.

(** The byte that a number is written as *)
Definition low_byte (n : Z) : ascii := ascii_of_N (Z.to_N (Z.land n 255)).

Definition frame_prefix (size : Z) : string :=
  String (low_byte (Z.shiftr size 24)) (String (low_byte (Z.shiftr size 16))
    (String (low_byte (Z.shiftr size 8)) (String (low_byte size) ""))).

Definition prefix_size (prefix : string) : Z :=
  fold_left (fun size c => Z.lor (Z.shiftl size 8) (Z.of_N (N_of_ascii c))) (list_ascii_of_string prefix) 0.

Definition send (fd : Z) (value : Value) : Run unit :=
  do! bytes := lift (of_result (config_value_json to_chars value true)) in
  needs (Z.of_nat (String.length bytes) <=? frame_limit) "E_GUEST_CHANNEL: oversized frame";;;
  transfer_out rounds fd (frame_prefix (Z.of_nat (String.length bytes)));;;
  transfer_out rounds fd bytes.

Definition receive (fd : Z) : Run Value :=
  do! prefix := transfer_in rounds fd 4 "" in
  let size := prefix_size prefix in
  needs ((0 <? size) && (size <=? 4096)) "E_GUEST_CHANNEL: invalid readiness frame size";;;
  do! bytes := transfer_in rounds fd (Z.to_nat size) "" in
  lift (of_result (parse_document bytes)).

(** ** QMP *)

Definition qmp_limit : nat := Z.to_nat 65536.

Fixpoint qmp_line (limit : nat) (fd : Z) (line : string) : Run string :=
  match limit with
  | O => raises (RuntimeError "E_GUEST_CHANNEL: oversized QMP response")
  | S limit =>
      do! byte := transfer_in rounds fd 1 "" in
      if String.eqb byte Process.newline then returns line else qmp_line limit fd (line +:+ byte)
  end.

Definition qmp_receive (fd : Z) : Run Value :=
  do! line := qmp_line qmp_limit fd "" in lift (of_result (parse_document line)).

Fixpoint qmp_answer (attempts : nat) (fd : Z) (command : string) : Run Value :=
  match attempts with
  | O => raises (RuntimeError "E_GUEST_CHANNEL: excessive QMP events")
  | S attempts =>
      do! response := qmp_receive fd in
      if contains response "event" then qmp_answer attempts fd command
      else
        do! accepted := lift (of_result (if contains response "return" then eq_at response "id" (VStr command)
                                         else Ok false)) in
        needs accepted "E_GUEST_CHANNEL: QMP command rejected";;;
        lift (of_result (at_ response "return"))
  end.

Definition carriage_return : string := String "013" Process.newline.

Definition qmp_command (fd : Z) (command : string) (arguments : Value) : Run Value :=
  do! bytes := lift (of_result (config_value_json to_chars
    (obj [("execute", VStr command); ("id", VStr command); ("arguments", arguments)]) true)) in
  transfer_out rounds fd (bytes +:+ carriage_return);;;
  qmp_answer 32 fd command.

Definition qmp_greeted (fd : Z) : Run unit :=
  do! greeting := qmp_receive fd in
  needs (contains greeting "QMP") "E_GUEST_CHANNEL: invalid QMP greeting";;;
  do! _ := qmp_command fd "qmp_capabilities" (obj []) in
  returns tt.

Definition query_running (fd : Z) (running : bool) (message : string) : Run unit :=
  do! status := qmp_command fd "query-status" (obj []) in
  do! same := lift (of_result (eq_at status "running" (VBool running))) in
  needs same message.

(** ** Inspection *)

Definition pause_and_resume (fd : Z) : Run unit :=
  do! _ := qmp_command fd "stop" (obj []) in
  catch_state
    (query_running fd false "E_GUEST_STATE: guest did not pause";;;
     do! _ := qmp_command fd "cont" (obj []) in
     query_running fd true "E_GUEST_STATE: guest did not resume")
    (fun e =>
       catch_state (do! _ := qmp_command fd "cont" (obj []) in returns tt) (fun _ => returns tt);;;
       raises e).

Definition ring_arguments (console_bytes : bool) : Value :=
  VObj (set_key "device" (VStr "serial") (set_key "size" (VInt 8192)
    (if console_bytes then [("format", VStr "base64")] else []))).

(** The bytes behind their base64 text *)
Definition decoded (part : string) : Run string :=
  match decode_block part with
  | None => raises (RuntimeError "E_GUEST_CHANNEL: invalid console encoding")
  | Some bytes =>
      needs ((String.length part mod 4 =? 0)%nat) "E_GUEST_CHANNEL: invalid console encoding";;;
      let padding := (if ends_with part "==" then 2 else if ends_with part "=" then 1 else 0)%nat in
      needs (padding <=? String.length bytes)%nat "E_GUEST_CHANNEL: invalid console padding";;;
      returns (stake (String.length bytes - padding) bytes)
  end.

Fixpoint serial_text (chunks : nat) (fd : Z) (console_bytes : bool) (serial : string) : Run string :=
  match chunks with
  | O => returns serial
  | S chunks =>
      do! part := qmp_command fd "ringbuf-read" (ring_arguments console_bytes) in
      do! part := lift (of_result (text part)) in
      if String.eqb part "" then returns serial
      else
        do! bytes := (if console_bytes then decoded part else returns part) in
        serial_text chunks fd console_bytes (serial +:+ bytes)
  end.

Definition retained_limit : nat := Z.to_nat 65536.

(** The last bytes of the serial console, kept in the console directory *)
Definition retain (process : OwnedResourceIdentity) (serial : string) : Prog unit := (
  let root := parent_path (r_runtime_directory process) in
  let! state := checked (sys_call (Load (slash root "ownership.yml"))) in
  let console := slash root (console_name state) in
  let! details := (if String.eqb (console_name state) "" then Ret lstat_missing else sys_call (Lstat console)) in
  require (found details (fun m => (u64 (st_ino m) =? console_inode state) && (u64 (st_dev m) =? console_device state)))
    "E_CONSOLE_IDENTITY: boot log directory changed";;;
  let cache := slash console (r_name process +:+ ".boot") in
  let! present := sys_call (Exists cache) in
  let! retained := (if present : bool then
                      safe_execution_path cache false;;;
                      checked (sys_call (ReadDocument cache 65536))
                    else Ret "") in
  let retained := retained +:+ serial in
  publish_execution_file cache (sdrop (String.length retained - retained_limit) retained))%prog.

Definition inspect_session (process : OwnedResourceIdentity) (pause_resume console_bytes : bool) : Run string :=
  do! fd := connect "qmp" in
  qmp_greeted fd;;;
  query_running fd true "E_GUEST_STATE: guest is not running";;;
  (if pause_resume then pause_and_resume fd else returns tt);;;
  do! serial := serial_text 128 fd console_bytes "" in
  lift (retain process serial);;;
  returns serial.

(** A session of its own; its state ends with it. *)
Definition in_session {A} (s : Session) (p : Run A) : Prog A := (let! r := p s in of_result r.2)%prog.

Definition inspect_guest (process : OwnedResourceIdentity) (pause_resume console_bytes : bool) : Prog string := (
  verify_guest_directory process;;;
  let! now := sys_call Now in
  let! directory := sys_call (OpenDirectoryFd (r_runtime_directory process)) in
  match directory with
  | None => throw "E_GUEST_IDENTITY: directory unavailable"
  | Some directory =>
      in_session
        {| directory := directory; session_process := process; interruptible := false;
           deadline := now + 5000; process_checked := 0 |}
        (inspect_session process pause_resume console_bytes)
  end)%prog.

(** ** Starting a guest *)

Definition boot_files : list string := ["bzImage"; "rootfs.cpio.gz"].

(** A boot file is copied, and the copy checked. *)
Definition copy_boot_file (options : ExecutionOptions) (guest : Value) (recipe directory name : string) : Prog unit := (
  let target := slash directory name in
  let! _ := checked (sys_call (CopyFile (slash (slash (slash (x_release options) "guests") recipe) name) target)) in
  let! outputs := of_result (array_at guest "artifact_verification") in
  let! pin := of_result (find_result (fun file => eq_at file "path" (VStr name)) outputs) in
  (match pin with
   | None => throw "E_GUEST_IDENTITY: boot copy checksum mismatch"
   | Some pin =>
       let! digest := checked (sys_call (Hash target)) in
       let! pinned := of_result (text_at pin "sha256") in
       require (String.eqb digest pinned) "E_GUEST_IDENTITY: boot copy checksum mismatch"
   end);;;
  let! sealed := sys_call (Chmod target 292) in
  require sealed "E_GUEST_IDENTITY: cannot seal boot copy")%prog.

(** [argument.replace] until the key is gone; every replacement is shorter than
    its key. *)
Fixpoint replace_all (n : nat) (key value argument : string) : string :=
  match n with
  | O => argument
  | S n =>
      match Text.find key argument with
      | None => argument
      | Some pos =>
          replace_all n key value
            (stake pos argument +:+ value +:+ sdrop (pos + String.length key) argument)
      end
  end.
Definition replaced (key value argument : string) : string :=
  replace_all (String.length argument) key value argument.

Definition guest_argument (recipe id : string) (planned : Value) : result string :=
  let* argument := text planned in
  let argument := replaced "${GX_STATE}/console" "/proc/self/fd/198" argument in
  let argument := replaced ("${GX_RELEASE}/guests/" +:+ recipe +:+ "/") "./" argument in
  let argument := replaced ("${GX_STATE}/" +:+ id +:+ "/") "./" argument in
  match Text.find "${" argument with
  | Some _ => Throw (RuntimeError "E_GUEST_PLAN: unresolved guest argv")
  | None => Ok argument
  end.

Definition guest_options (id executable directory console : string) (argv : list string) : NativeProcessOptions :=
  {| o_id := id; o_argv := argv; o_environment := ∅; o_cwd := directory; o_log := slash directory "qemu.log";
     o_executable := executable; o_network_namespace := ""; o_namespace_inode := 0; o_guest_identity := true;
     o_console_directory := console; o_log_bytes := 2097152; o_file_bytes_limit := 2 * 1024 * 1024 |}.

Definition in_directory (path identity : string) (r : OwnedResourceIdentity) : OwnedResourceIdentity :=
  OwnershipState.process_identity (r_kind r) (r_name r) (r_stable_id r) (r_secondary_id r)
    (r_process_identity r) path identity.

(** Everything before the process: its options, the descriptor of the directory
    and its identity *)
Definition prepare_guest (options : ExecutionOptions) (guest node : Value) (directory : string)
    : Prog (NativeProcessOptions * Z * string) := (
  require_guest_account;;;
  let! created := sys_call (CreateDirectory directory) in
  require created "E_GUEST_IDENTITY: directory collision";;;
  let! private := sys_call (Chmod directory 448) in
  let! owned := (if private : bool then sys_call (Chown directory 65532 65532) else Ret false) in
  require owned "E_GUEST_IDENTITY: cannot assign guest directory";;;
  let! fd := sys_call (OpenDirectoryFd directory) in
  match fd with
  | None => throw "E_GUEST_IDENTITY: cannot open guest directory"
  | Some fd =>
      let! recipe := of_result (text_at guest "recipe") in
      for_each_in (fun name _ => copy_boot_file options guest recipe directory name) boot_files tt;;;
      let! id := of_result (text_at node "node_id") in
      let! executable := checked (sys_call (Canonical "/usr/bin/qemu-system-x86_64")) in
      let root := parent_path directory in
      let! state := checked (sys_call (Load (slash root "ownership.yml"))) in
      let console := slash root (console_name state) in
      safe_execution_path console false;;;
      let! details := sys_call (Lstat console) in
      require (found details (fun m => (u64 (st_ino m) =? console_inode state) && (u64 (st_dev m) =? console_device state)))
        "E_CONSOLE_IDENTITY: console directory replaced";;;
      let! planned := of_result (array_at guest "argv") in
      let! argv := of_result (map_result (guest_argument recipe id) (drop 1 planned)) in
      let! m := sys_call (Fstat fd) in
      match m with
      | None => throw "E_GUEST_IDENTITY: directory identity unavailable"
      | Some m => Ret (guest_options id executable directory console (executable :: argv), fd, inode_of m)
      end
  end)%prog.

(** The devices that the guest has opened *)
Definition opened_labels (channels : Value) : result (list string) :=
  let* l := array channels in
  fold_result (fun channel opened =>
    let* is_open := eq_at channel "frontend-open" (VBool true) in
    if (is_open : bool) then let* label := text_at channel "label" in Ok (label :: opened) else Ok opened) l [].

Fixpoint await_channels (rounds : nat) (qmp : Z) : Run unit :=
  match rounds with
  | O => lift spinning
  | S rounds =>
      do! channels := qmp_command qmp "query-chardev" (obj []) in
      do! opened := lift (of_result (opened_labels channels)) in
      if forallb (fun label => known_in label opened) guest_channels then returns tt
      else check;;; lift (sys_call (Sleep 20));;; await_channels rounds qmp
  end.

(** A session with a running guest: the channel of readiness, and who it is *)
Record Guest := { session : Session; ready : Z; identity_fields : Object }.

Definition merge_fields (l : list (string * Value)) (fields : Object) : Object :=
  fold_left (fun acc kv => set_key kv.1 kv.2 acc) l fields.

(** From the connections to the readiness of the guest *)
Definition provision (options : ExecutionOptions) (guest node credentials : Value) (id token : string) (qmp : Z)
    : Run (Z * Object) :=
  do! config_fd := connect "config" in
  do! credentials_fd := connect "credentials" in
  do! ready := connect "ready" in
  await_channels rounds qmp;;;
  do! bytes := lift (checked (sys_call (ReadDocument (slash (slash (x_output options) "nodes") (id +:+ ".json")) frame_limit))) in
  do! read := lift (of_result (parse_document bytes)) in
  needs (value_eqb read node) "E_GUEST_IDENTITY: node configuration changed after verification";;;
  let identity := object_of [("node", VStr id); ("config_sha256", VStr (sha256 bytes)); ("token", VStr token)] in
  do! network := lift (of_result (at_ guest "network")) in
  send config_fd (VObj (merge_fields [("config", VStr bytes); ("network", network); ("version", VInt 1)] identity));;;
  send credentials_fd (VObj (merge_fields [("credentials", credentials)] identity));;;
  do! answered := receive ready in
  needs (value_eqb answered (VObj (set_key "state" (VStr "listeners-bound") identity)))
    "E_GUEST_CHANNEL_IDENTITY: readiness identity mismatch";;;
  returns (ready, identity).

(** The end of the serial console, for a message: what came before a failure *)
Definition serial_part (qmp : Z) : Run string :=
  catch_state
    (do! part := qmp_command qmp "ringbuf-read" (ring_arguments false) in lift (of_result (text part)))
    (fun _ => returns "").

Fixpoint last_serial (chunks : nat) (qmp : Z) (serial : string) : Run string :=
  match chunks with
  | O => returns serial
  | S chunks =>
      do! part := serial_part qmp in
      if String.eqb part "" then returns serial
      else
        let serial := serial +:+ part in
        last_serial chunks qmp (sdrop (String.length serial - 8192) serial)
  end.

Definition failure_text (qmp : Z) (e : exn) : Run (Z * Object) :=
  do! now := lift (sys_call Now) in
  modify (with_deadline (now + 2000));;;
  do! serial := last_serial 128 qmp "" in
  raises (RuntimeError (what e +:+ (if String.eqb serial "" then ""
                                    else Process.newline +:+ "Guest serial (bounded):" +:+ Process.newline +:+ serial))).

Definition handshake (options : ExecutionOptions) (guest node credentials : Value) (id token : string) : Run (Z * Object) :=
  do! qmp := connect "qmp" in
  qmp_greeted qmp;;;
  do! _ := qmp_command qmp "query-status" (obj []) in
  catch_state (provision options guest node credentials id token qmp) (failure_text qmp).

(** [GuestSession]: the registration changes the ledger of the caller. *)
Definition start_guest {S} (options : ExecutionOptions) (guest node credentials : Value)
    (directory token : string) (limit : Z) (register_identity : OwnedResourceIdentity -> stateful S unit)
    : stateful S Guest :=
  do! prepared := lift (prepare_guest options guest node directory) in
  let '(start, fd, inode) := prepared in
  do! process := start_native_process start (fun p => register_identity (in_directory directory inode p)) in
  do! now := lift (sys_call Now) in
  do! timeout := lift (of_result (let* readiness := at_ guest "readiness" in integer_at readiness "timeout_ms")) in
  do! r := lift (handshake options guest node credentials (o_id start) token
      {| directory := fd; session_process := process; interruptible := true;
         deadline := Z.min limit (now + timeout); process_checked := 0 |}) in
  do! answered := lift (of_result r.2) in
  returns {| session := r.1; ready := answered.1; identity_fields := answered.2 |}.

Definition release (g : Guest) : Prog unit := (
  let! now := sys_call Now in
  let frame state := VObj (set_key "state" (VStr state) (identity_fields g)) in
  in_session (with_deadline (now + 10000) (session g))
    (send (ready g) (frame "release");;;
     do! answered := receive (ready g) in
     needs (value_eqb answered (frame "released")) "E_GUEST_CHANNEL_IDENTITY: release acknowledgment mismatch")%stateful)%prog.
End Guests.
End Guest.
