(* ===== verification/GuestProofs.v ===== *)
(** * QEMU guests: who a session talks to

    A guest is started from boot files whose copies have the pinned digests,
    and a session sends only to a socket whose file did not change and whose
    peer is the process of the guest.  The directory of a guest is only cleaned
    behind its identification. *)

From Stdlib Require Import ZArith Lia Strings.Byte Strings.Ascii Strings.String Floats.SpecFloat.
From stdpp Require Import base option gmap strings list.
From S2P Require Import Prelude ConfigValue ConfigNetwork Text OwnershipState Effects Process ProcessProofs Native NativeTheorems.
From S2P Require Import HostProofs Compile Guest.

Module GuestProofs.
Import OwnershipState Text Effects Process ProcessProofs Native NativeTheorems ConfigValue ConfigNetwork Compile Guest.
Local Open Scope Z_scope.

Abbreviation ev c x := (@Effects.Event sys answer c x).

(** ** Calls that neither send nor fork *)

Definition private (c : sys) : bool :=
  match c with SendStream _ _ | Fork _ => false | _ => true end.
Abbreviation private_calls := (calls_only (fun c => private c = true)).

Create HintDb private discriminated.

(** The programs that a session uses *)
Ltac private_step :=
  match goal with
  | |- calls_only _ _ => solve [auto with private nocore]
  | |- calls_only _ (spinning) => split; [done|intros []]
  | |- calls_only _ (match ?x with _ => _ end) => destruct x
  | |- _ => quiet_step
  end.
Ltac private_prog := repeat private_step.

Lemma private_path path absent : private_calls (safe_execution_path path absent).
Proof. unfold safe_execution_path. private_prog. unfold safe_component. private_prog. Qed.
#[export] Hint Resolve private_path : private.

Lemma private_inspect pid : private_calls (inspect_process pid).
Proof. unfold inspect_process. private_prog. Qed.
Lemma private_process_id r : private_calls (process_id r).
Proof. unfold process_id. private_prog. Qed.
#[export] Hint Resolve private_inspect private_process_id : private.

Lemma private_observe n pid o : private_calls (observe_again n pid o).
Proof. revert o; induction n as [|n IH]; intros o; cbn [observe_again]; private_prog. Qed.
#[export] Hint Resolve private_observe : private.

Lemma private_status r w : private_calls (native_process_status r w).
Proof. unfold native_process_status. private_prog. Qed.
Lemma private_prepare o : private_calls (prepare_process o).
Proof. unfold prepare_process. private_prog. Qed.
Lemma private_release pid : private_calls (release_process pid).
Proof. unfold release_process. private_prog. Qed.
Lemma private_publish path bytes : private_calls (publish_execution_file path bytes).
Proof. unfold publish_execution_file. private_prog. Qed.
Lemma private_require b message : private_calls (require b message).
Proof. unfold require. private_prog. Qed.
#[export] Hint Resolve private_status private_prepare private_release private_publish private_require : private.
Lemma private_require_of b message : private_calls (require_of b message).
Proof. unfold require_of. private_prog. Qed.
#[export] Hint Resolve private_require_of : private.
Lemma private_directory r : private_calls (verify_guest_directory r).
Proof. unfold verify_guest_directory. private_prog. Qed.
Lemma private_retain r serial : private_calls (retain r serial).
Proof. unfold retain. private_prog. Qed.
Lemma private_account : private_calls require_guest_account.
Proof. unfold require_guest_account. private_prog. Qed.
#[export] Hint Resolve private_directory private_retain private_account : private.

(** ** Identified connections *)

Definition socket_file (m : metadata) : Prop := st_kind m = file_socket /\ st_uid m = 65532.

(** The last two calls: the peer of the connection is the process, and the file
    of the socket is the one that was there before the connection. *)
Definition identified (stable : string) (fd : Z) (h : list Event) : Prop :=
  exists after path m m' pid before,
    h = after ++ ev (Lstat path) (lstat_found m') :: ev (StreamPeer fd) (Some (65532, pid)) :: before /\
    to_string pid = stable /\ st_ino m = st_ino m' /\ st_dev m = st_dev m' /\ socket_file m /\
    ev (Lstat path) (lstat_found m) ∈ before /\ exists x, ev (ConnectStream fd path) x ∈ before.

Lemma identified_cons stable fd h e : identified stable fd h -> identified stable fd (e :: h).
Proof. intros (after & path & m & m' & pid & before & -> & H). by exists (e :: after), path, m, m', pid, before. Qed.

Definition sends_identified (stable : string) (h : list Event) (c : sys) : Prop :=
  match c with
  | SendStream fd _ => identified stable fd h
  | Fork _ => False
  | _ => True
  end.

Section Session.
Context (rounds : nat) (parse_document : string -> result Value) (sha256 : string -> string)
        (to_chars : spec_float -> string) (decode_block : string -> option string).
Context (stable : string).

(** The session is that of the process, these events have happened and these
    connections are identified. *)
Definition sure (evs : list Event) (fds : list Z) (h : list Event) (s : Session) : Prop :=
  r_stable_id (session_process s) = stable /\ Forall (fun fd => identified stable fd h) fds /\ Forall (fun e => e ∈ h) evs.

Abbreviation holds evs fds := (kept (sends_identified stable) (sure evs fds)).

Lemma sure_cons evs fds h s e : sure evs fds h s -> sure evs fds (e :: h) s.
Proof. intros (Hs & Hf & He). split; [done|]. split.
  - eapply Forall_impl; [exact Hf|]. intros fd. apply identified_cons.
  - eapply Forall_impl; [exact He|]. intros e'. by right. Qed.

Lemma holds_lift evs fds {A} (p : Prog A) : private_calls p -> holds evs fds (lift p).
Proof.
  apply kept_lift_calls. intros s h c Hs Hc. split; [by destruct c|]. intros x. by apply sure_cons.
Qed.

Lemma holds_needs evs fds b message : holds evs fds (needs b message).
Proof. apply holds_lift, private_require. Qed.

Lemma holds_send evs fds fd bytes : fd ∈ fds -> holds evs fds (lift (sys_call (SendStream fd bytes))).
Proof.
  intros Hfd s h Hs. apply swp_call; [|intros x; by apply sure_cons].
  destruct Hs as (_ & Hf & _). rewrite Forall_forall in Hf. by apply Hf.
Qed.

Create HintDb session discriminated.

Ltac session_step :=
  match goal with
  | |- kept _ _ _ => solve [auto with session nocore]
  | |- kept _ _ (bind_state current _) => apply kept_current; intros ? ? ?
  | |- kept _ _ (bind_state _ _) => apply kept_bind; [|intros ?]
  | |- kept _ _ (catch_state _ _) => apply kept_catch; [|intros ?]
  | |- kept _ _ (returns _) => apply kept_returns
  | |- kept _ _ (raises _) => apply kept_raises
  | |- kept _ _ (modify _) => apply kept_modify; intros ? ? []; done
  | |- kept _ _ (lift (sys_call (SendStream _ _))) => by apply holds_send
  | |- kept _ _ (needs _ _) => apply holds_needs
  | |- kept _ _ (lift _) => apply holds_lift; private_prog
  | |- kept _ _ (match ?x with _ => _ end) => destruct x
  end.
Ltac session_prog := cbv zeta; repeat session_step.

Lemma holds_check evs fds : holds evs fds check.
Proof. unfold check. session_prog. Qed.
Hint Resolve holds_check : session.

Lemma holds_wait evs fds fd output : holds evs fds (wait rounds fd output).
Proof.
  unfold wait. generalize rounds. intros n. induction n as [|n IH]; cbn [wait_in]; session_prog.
Qed.
Hint Resolve holds_wait : session.

Lemma holds_out evs fds n fd bytes : fd ∈ fds -> holds evs fds (transfer_out rounds n fd bytes).
Proof.
  intros Hfd. revert bytes; induction n as [|n IH]; intros [|c bytes]; cbn [transfer_out]; session_prog.
Qed.
Lemma holds_in evs fds n fd size bytes : holds evs fds (transfer_in rounds n fd size bytes).
Proof.
  revert size bytes; induction n as [|n IH]; intros [|size] bytes; cbn [transfer_in]; session_prog.
Qed.
Hint Resolve holds_out holds_in : session.

Lemma holds_frame evs fds fd v : fd ∈ fds -> holds evs fds (send rounds to_chars fd v).
Proof. intros Hfd. unfold send. session_prog. Qed.
Lemma holds_receive evs fds fd : holds evs fds (receive rounds parse_document fd).
Proof. unfold receive. session_prog. Qed.
Hint Resolve holds_frame holds_receive : session.

Lemma holds_line evs fds n fd line : holds evs fds (qmp_line rounds n fd line).
Proof. revert line; induction n as [|n IH]; intros line; cbn [qmp_line]; session_prog. Qed.
Hint Resolve holds_line : session.

Lemma holds_answer evs fds n fd command : holds evs fds (qmp_answer rounds parse_document n fd command).
Proof. induction n as [|n IH]; cbn [qmp_answer]; [session_prog|]. unfold qmp_receive. session_prog. Qed.
Hint Resolve holds_answer : session.

Lemma holds_command evs fds fd command arguments : fd ∈ fds ->
  holds evs fds (qmp_command rounds parse_document to_chars fd command arguments).
Proof. intros Hfd. unfold qmp_command. session_prog. Qed.
Hint Resolve holds_command : session.

Lemma holds_greeted evs fds fd : fd ∈ fds -> holds evs fds (qmp_greeted rounds parse_document to_chars fd).
Proof. intros Hfd. unfold qmp_greeted, qmp_receive. session_prog. Qed.
Lemma holds_query evs fds fd b message : fd ∈ fds ->
  holds evs fds (query_running rounds parse_document to_chars fd b message).
Proof. intros Hfd. unfold query_running. session_prog. Qed.
Hint Resolve holds_greeted holds_query : session.

(** ** Connecting *)

Lemma sure_event evs fds h s e : sure evs fds h s -> sure (e :: evs) fds (e :: h) s.
Proof.
  intros H. destruct (sure_cons _ _ _ _ e H) as (Hs & Hf & He). split; [done|]. split; [done|].
  constructor; [by left|done].
Qed.

Lemma sure_fewer e evs fds h s : sure (e :: evs) fds h s -> sure evs fds h s.
Proof. intros (Hs & Hf & He). split; [done|]. split; [done|]. by inversion He. Qed.

Lemma swp_needs b message s h (Q : list Event -> Session -> result unit -> Prop) :
  (b = true -> Q h s (Ok tt)) -> Q h s (Throw (RuntimeError message)) ->
  swp (sends_identified stable) (needs b message) s h Q.
Proof. intros H1 H2. apply swp_lift. unfold require. by destruct b; [apply H1|]. Qed.

(** A connection that was made is identified; else nothing was lost. *)
Definition connected (evs : list Event) (fds : list Z) (h : list Event) (s : Session) (r : result Z) : Prop :=
  match r with Ok fd => sure evs (fd :: fds) h s | Throw _ => sure evs fds h s end.

Lemma swp_holds {A} evs fds (p : stateful Session A) s h (Q : list Event -> Session -> result A -> Prop) :
  holds evs fds p -> sure evs fds h s -> (forall h s r, sure evs fds h s -> Q h s r) ->
  swp (sends_identified stable) p s h Q.
Proof. intros Hp Hs HQ. eapply swp_mono; [|by apply Hp]. intros h' s' r. apply HQ. Qed.

Lemma peer_gains evs fds path m fd x h s :
  sure (ev (ConnectStream fd path) x :: ev (Lstat path) (lstat_found m) :: evs) fds h s -> socket_file m ->
  swp (sends_identified stable) (bind_state (peer_identified path m fd) (fun _ => returns fd)) s h (connected evs fds).
Proof.
  intros Hs Hm. unfold peer_identified. state_steps.
  assert (forall h, sure (ev (ConnectStream fd path) x :: ev (Lstat path) (lstat_found m) :: evs) fds h s -> sure evs fds h s) as Hw
    by (intros h' H; by do 2 apply sure_fewer in H).
  apply swp_call; [done|]. intros peer. cbv beta iota. state_steps.
  apply swp_needs; [|by apply sure_cons, Hw]. intros Hpeer. state_steps. apply swp_call; [done|]. intros after. state_steps.
  apply swp_needs; [|by do 2 apply sure_cons; apply Hw]. intros Hafter. state_steps.
  destruct peer as [[uid pid]|]; [|done]. destruct after as [m'| |]; try done. cbn [found] in Hafter. reflect_bools.
  assert (sure evs fds (ev (Lstat path) (lstat_found m') :: ev (StreamPeer fd) (Some (uid, pid)) :: h) s) as (Hp & Hf & He).
  { do 2 apply sure_cons. by apply Hw. }
  split; [done|]. split; [|done]. constructor; [|done]. destruct Hs as (Hst & _ & Hev).
  inversion Hev as [|? ? He1 Hev']; subst. inversion Hev' as [|? ? He2 _]; subst.
  exists [], path, m, m', pid, h. split; [done|]. split; [congruence|]. do 2 (split; [done|]). split; [done|]. split; [exact He2|]. exists x. exact He1.
Qed.

Lemma connect_gains n evs fds path s h : sure evs fds h s ->
  swp (sends_identified stable) (connect_in rounds n path) s h (connected evs fds).
Proof.
  revert s h; induction n as [|n IH]; intros s h Hs; cbn [connect_in].
  { apply swp_lift. split; [done|intros []]. }
  apply swp_bind. eapply swp_holds; [apply holds_check|exact Hs|]. clear s h Hs. intros h s [[]|e] Hs; [|done].
  state_steps. apply swp_call; [done|]. intros before. cbv beta iota.
  destruct before as [m| |]; [|state_steps; apply swp_call; [done|]; intros []; apply IH; by do 2 apply sure_cons|
    by apply sure_cons].
  apply (sure_event _ _ _ _ (ev (Lstat path) (lstat_found m))) in Hs.
  assert (forall h s e, sure (ev (Lstat path) (lstat_found m) :: evs) fds h s -> connected evs fds h s (Throw e)) as Hw
    by (intros; by eapply sure_fewer).
  unfold socket_sealed. state_steps. apply swp_needs; [|by apply Hw]. intros Hm. reflect_bools.
  assert (socket_file m) as Hsock.
  { unfold socket_file, is_kind_of in *. by destruct (st_kind m). }
  state_steps. apply swp_call; [done|]. intros sealed. apply (sure_cons _ _ _ _ (ev (Chmod path 384) sealed)) in Hs.
  state_steps. apply swp_needs; [|by apply Hw]. intros _. state_steps.
  eapply swp_holds; [|exact Hs|]; [unfold open_stream; session_prog|]. clear s h Hs. intros h s [fd|e] Hs; [|by apply Hw].
  state_steps. apply swp_call; [done|]. intros x. apply (sure_event _ _ _ _ (ev (ConnectStream fd path) x)) in Hs.
  cbv beta iota. destruct x.
  - by eapply peer_gains.
  - do 2 apply sure_fewer in Hs. state_steps. apply swp_call; [done|]. intros []. state_steps.
    apply swp_call; [done|]. intros []. apply IH. by do 2 apply sure_cons.
  - state_steps. eapply swp_holds; [apply holds_wait|exact Hs|]. clear s h Hs. intros h s [[]|e] Hs; [|by do 2 apply sure_fewer in Hs].
    state_steps. apply swp_call; [done|]. intros clear. apply (sure_cons _ _ _ _ (ev (StreamError fd) clear)) in Hs.
    state_steps. apply swp_needs; [|by do 2 apply sure_fewer in Hs]. intros _.
    eapply swp_mono; [|by eapply peer_gains]. done.
  - by do 2 apply sure_fewer in Hs.
Qed.

(** The rest of a session behind a connection *)
Lemma holds_connect {A} evs fds name (f : Z -> stateful Session A) :
  (forall fd, holds evs (fd :: fds) (f fd)) -> holds evs fds (bind_state (connect rounds name) f).
Proof.
  intros Hf s h Hs. unfold connect. state_steps. eapply swp_mono; [|by apply connect_gains].
  intros h' s' [fd|e] Hc; [|done]. eapply swp_mono; [|by apply Hf].
  intros h2 s2 r (H1 & H2 & H3). split; [done|]. split; [by inversion H2|done].
Qed.

(** ** The parts of a session *)

Lemma holds_pause evs fds fd : fd ∈ fds -> holds evs fds (pause_and_resume rounds parse_document to_chars fd).
Proof. intros Hfd. unfold pause_and_resume. session_prog. Qed.

Lemma holds_decoded evs fds part : holds evs fds (decoded decode_block part).
Proof. unfold decoded. session_prog. Qed.
Hint Resolve holds_pause holds_decoded : session.

Lemma holds_serial evs fds n fd b serial : fd ∈ fds ->
  holds evs fds (serial_text rounds parse_document to_chars decode_block n fd b serial).
Proof. intros Hfd. revert serial; induction n as [|n IH]; intros serial; cbn [serial_text]; session_prog. Qed.
Hint Resolve holds_serial : session.

Lemma holds_inspect evs fds process pause bytes :
  holds evs fds (inspect_session rounds parse_document to_chars decode_block process pause bytes).
Proof.
  unfold inspect_session. apply holds_connect. intros fd.
  assert (fd ∈ fd :: fds) by (by left). session_prog.
Qed.

Lemma holds_part evs fds qmp : qmp ∈ fds -> holds evs fds (serial_part rounds parse_document to_chars qmp).
Proof. intros Hq. unfold serial_part. session_prog. Qed.
Hint Resolve holds_part : session.

Lemma holds_last evs fds n qmp serial : qmp ∈ fds ->
  holds evs fds (last_serial rounds parse_document to_chars n qmp serial).
Proof. intros Hq. revert serial; induction n as [|n IH]; intros serial; cbn [last_serial]; session_prog. Qed.
Hint Resolve holds_last : session.

Lemma failure_raises evs qmp e s h : sure evs [qmp] h s ->
  swp (sends_identified stable) (failure_text rounds parse_document to_chars qmp e) s h
    (fun h s r => sure evs [qmp] h s /\ exists e', r = Throw e').
Proof.
  intros Hs. unfold failure_text. state_steps. apply swp_call; [done|]. intros now. state_steps.
  apply (sure_cons _ _ _ _ (ev Now now)) in Hs. assert (qmp ∈ [qmp]) as Hq by (by left).
  eapply (swp_holds evs [qmp]); [session_prog|exact Hs|]. clear s h Hs. intros h s [serial|e'] Hs; eauto.
  state_steps. eauto.
Qed.

Lemma holds_channels evs fds n qmp : qmp ∈ fds -> holds evs fds (await_channels rounds parse_document to_chars n qmp).
Proof. intros Hq. induction n as [|n IH]; cbn [await_channels]; session_prog. Qed.
Hint Resolve holds_channels : session.

(** A handshake returns an identified channel. *)
Definition shaken (evs : list Event) (h : list Event) (s : Session) (r : result (Z * Object)) : Prop :=
  sure evs [] h s /\ match r with Ok (ready, _) => identified stable ready h | Throw _ => True end.

Lemma sure_known evs fds fds' h s : fds' ⊆ fds -> sure evs fds h s -> sure evs fds' h s.
Proof.
  intros Hsub (Hs & Hf & He). split; [done|]. split; [|done].
  rewrite Forall_forall in Hf |- *. intros fd Hfd. by apply Hf, Hsub.
Qed.

Lemma sure_shaken evs fds h s e : sure evs fds h s -> shaken evs h s (Throw e).
Proof. intros Hs. split; [|done]. eapply sure_known; [|exact Hs]. apply list_subseteq_nil. Qed.

Lemma swp_connect {A} evs fds name (f : Z -> stateful Session A) s h (Q : list Event -> Session -> result A -> Prop) :
  sure evs fds h s ->
  (forall fd h s, sure evs (fd :: fds) h s -> swp (sends_identified stable) (f fd) s h Q) ->
  (forall h s e, sure evs fds h s -> Q h s (Throw e)) ->
  swp (sends_identified stable) (bind_state (connect rounds name) f) s h Q.
Proof.
  intros Hs Hf He. unfold connect. state_steps. eapply swp_mono; [|by apply connect_gains].
  intros h' s' [fd|e] Hc; [by apply Hf|by apply He].
Qed.

Lemma provision_shaken evs options guest node credentials id token qmp s h : sure evs [qmp] h s ->
  swp (sends_identified stable)
    (provision rounds parse_document sha256 to_chars options guest node credentials id token qmp) s h
    (fun h s r => sure evs [qmp] h s /\ match r with Ok (ready, _) => identified stable ready h | Throw _ => True end).
Proof.
  intros Hs. unfold provision.
  assert (forall fds h s, [qmp] ⊆ fds -> sure evs fds h s -> sure evs [qmp] h s /\ True) as Hw.
  { intros fds h' s' Hsub H. split; [|done]. eapply sure_known; eassumption. }
  eapply swp_connect; [exact Hs| |intros; eapply Hw; [|eassumption]; set_solver]. clear s h Hs. intros config h s Hs.
  eapply swp_connect; [exact Hs| |intros; eapply Hw; [|eassumption]; set_solver]. clear s h Hs. intros secret h s Hs.
  eapply swp_connect; [exact Hs| |intros; eapply Hw; [|eassumption]; set_solver]. clear s h Hs. intros ready h s Hs.
  set (fds := [ready; secret; config; qmp]) in *.
  assert ([qmp] ⊆ fds) as Hsub by (unfold fds; set_solver).
  assert (qmp ∈ fds) as Hq by (unfold fds; set_solver).
  assert (secret ∈ fds) as Hsecret by (unfold fds; set_solver).
  assert (config ∈ fds) as Hconfig by (unfold fds; set_solver).
  cbv zeta. repeat (state_steps; eapply (swp_holds evs fds);
    [solve [session_prog]|exact Hs|]; clear s h Hs; intros h s [?|e] Hs; [|by eapply Hw]).
  split; [by eapply sure_known|]. destruct Hs as (_ & Hf & _). by inversion Hf.
Qed.

Lemma handshake_shaken evs options guest node credentials id token s h : sure evs [] h s ->
  swp (sends_identified stable)
    (handshake rounds parse_document sha256 to_chars options guest node credentials id token) s h (shaken evs).
Proof.
  intros Hs. unfold handshake.
  eapply swp_connect; [exact Hs| |intros; by eapply sure_shaken]. clear s h Hs. intros qmp h s Hs.
  assert (qmp ∈ [qmp]) as Hq by (by left).
  do 2 (state_steps; eapply (swp_holds evs [qmp]);
    [solve [session_prog]|exact Hs|]; clear s h Hs; intros h s [?|e] Hs; [|by eapply sure_shaken]).
  state_steps. eapply swp_mono; [|by apply provision_shaken]. clear s h Hs. intros h s [[ready fields]|e] [Hs Hr].
  - split; [|done]. eapply sure_known; [|exact Hs]. apply list_subseteq_nil.
  - eapply swp_mono; [|by apply failure_raises]. clear s h Hs Hr. intros h s r [Hs [e' ->]].
    by eapply sure_shaken.
Qed.

Lemma release_sends g h :
  r_stable_id (session_process (session g)) = stable -> identified stable (ready g) h ->
  wp (sends_identified stable) (release rounds parse_document to_chars g) h (fun _ _ => True).
Proof.
  intros Hs Hr. unfold release. split; [done|]. intros now. cbn [and_then]. unfold in_session. apply wp_and_then.
  assert (ready g ∈ [ready g]) as Hin by (by left).
  match goal with |- wp _ (?p ?s) ?h _ => assert (holds [] [ready g] p) as Hp by session_prog;
    assert (sure [] [ready g] h s) as Hsure end.
  { split; [done|]. split; [|done]. constructor; [by apply identified_cons|done]. }
  eapply wp_mono; [|apply (Hp _ _ Hsure)]. intros h' [[s' r]|e]; [|done]. intros _. by destruct r.
Qed.
End Session.

(** ** A whole guest *)

Lemma wp_goes {A} (p : Prog A) h0 : forall h, goes h0 h ->
  wp (fun h _ => goes h0 h) p h (fun h _ => goes h0 h).
Proof.
  induction p as [a|e|c k IH]; intros h Hh; [done..|]. split; [done|]. intros x. apply IH. by apply goes_cons.
Qed.

Lemma elem_goes (e : Event) h h' : goes h h' -> e ∈ h -> e ∈ h'.
Proof. intros [l ->] H. apply elem_of_app. by right. Qed.

Section Start.
Context (rounds : nat) (parse_document : string -> result Value) (sha256 : string -> string)
        (to_chars : spec_float -> string).
Context {S : Type} (options : ExecutionOptions) (guest node credentials : Value) (directory token : string)
        (limit : Z) (register_identity : OwnedResourceIdentity -> stateful (C := sys) (R := answer) S unit).
Context (Hregister : forall p s, private_calls (register_identity p s))
        (Hcaught : forall p s h, wp any (register_identity p s) h (fun _ r => exists x, r = Ok x)).

(** The digest that the recipe pins for a file *)
Definition pinned_digest (name : string) : result string :=
  let* outputs := array_at guest "artifact_verification" in
  let* pin := find_result (fun file => eq_at file "path" (VStr name)) outputs in
  match pin with Some pin => text_at pin "sha256" | None => Throw (RuntimeError "no pin") end.

(** The copy of a boot file was hashed, has its pinned digest and was sealed. *)
Definition copy_verified (h : list Event) (name : string) : Prop :=
  exists digest, pinned_digest name = Ok digest /\
    ev (Hash (slash directory name)) (Ok digest) ∈ h /\
    ev (Chmod (slash directory name) 292) true ∈ h.

Definition guest_rules (h : list Event) (c : sys) : Prop :=
  match c with
  | Fork o => o_guest_identity o = true /\ Forall (copy_verified h) boot_files
  | SendStream fd _ => exists o child, ev (Fork o) (Some child) ∈ h /\ identified (to_string (fork_pid child)) fd h
  | _ => True
  end.

Lemma copy_verified_goes name h h' : goes h h' -> copy_verified h name -> copy_verified h' name.
Proof. intros Hg (d & Hd & H1 & H2). exists d. split; [done|]. split; by eapply elem_goes. Qed.

Lemma private_goes {A} (p : Prog A) h : private_calls p -> wp guest_rules p h (fun h' _ => goes h h').
Proof.
  intros Hp. apply (wp_calls (fun c => private c = true) guest_rules (goes h)); [done| |apply goes_refl].
  intros h' c Hh Hc. split; [by destruct c|]. intros x. by apply goes_cons.
Qed.

Lemma wp_private {A} (p : Prog A) h (Q : list Event -> result A -> Prop) :
  private_calls p -> (forall h' r, goes h h' -> Q h' r) -> wp guest_rules p h Q.
Proof. intros Hp HQ. eapply wp_mono; [|by apply private_goes]. intros h' r. apply HQ. Qed.

Lemma copy_spec recipe name h :
  wp guest_rules (copy_boot_file options guest recipe directory name) h
    (fun h' r => goes h h' /\ match r with Ok _ => copy_verified h' name | Throw _ => True end).
Proof.
  unfold copy_boot_file. apply wp_and_then, wp_private; [private_prog|]. intros h1 [copied|e] H1; [|done].
  apply wp_and_then, wp_of_result.
  destruct (array_at guest "artifact_verification") as [outputs|] eqn:Ho; [|done].
  apply wp_and_then, wp_of_result.
  destruct (find_result _ outputs) as [[pin|]|] eqn:Hpin; [|done..].
  apply wp_and_then. split; [done|]. intros [digest|e]; cbn [of_result and_then]; [|by split; [apply goes_cons|]].
  apply wp_and_then, wp_of_result. destruct (text_at pin "sha256") as [pinned|] eqn:Hp; [|by split; [apply goes_cons|]].
  unfold require. destruct (String.eqb_spec digest pinned) as [->|]; [|by split; [apply goes_cons|]].
  cbn [wp]. split; [done|]. intros sealed. cbn [and_then]. destruct sealed; (split; [by do 2 apply goes_cons|done || idtac]).
  exists pinned. split; [|split; [right; by left|by left]].
  unfold pinned_digest. rewrite Ho. cbn [bind]. rewrite Hpin. done.
Qed.

Lemma keep_on (P : list Event -> Prop) h h1 :
  (forall h', goes h h' -> P h') -> goes h h1 -> forall h', goes h1 h' -> P h'.
Proof. intros HP Hg h' Hg'. apply HP. by eapply goes_trans. Qed.

Lemma prepare_spec h :
  wp guest_rules (prepare_guest options guest node directory) h (fun h' r =>
    match r with
    | Ok (start, _, _) => o_guest_identity start = true /\ Forall (copy_verified h') boot_files
    | Throw _ => True
    end).
Proof.
  unfold prepare_guest.
  do 7 (apply wp_and_then, wp_private; [private_prog|]; intros ? [?|?] _; [|done]).
  match goal with |- context [match ?fd with Some _ => _ | None => _ end] => destruct fd as [fd|]; [|done] end.
  apply wp_and_then, wp_private; [private_prog|]. intros h1 [recipe|] _; [|done].
  apply wp_and_then. unfold boot_files. cbn [for_each_in].
  apply wp_and_then. eapply wp_mono; [|apply copy_spec]. intros h2 [[]|] [_ Hv1]; [|done].
  apply wp_and_then. eapply wp_mono; [|apply copy_spec]. intros h3 [[]|] [Hg Hv2]; [|done].
  assert (Forall (copy_verified h3) boot_files) as Hv.
  { constructor; [by eapply copy_verified_goes|]. by constructor. }
  cbn [wp]. clear Hv1 Hv2 Hg h2.
  assert (forall h', goes h3 h' -> Forall (copy_verified h') boot_files) as Hkeep.
  { intros hh Hg. eapply Forall_impl; [exact Hv|]. intros name. by apply copy_verified_goes. }
  do 9 (apply wp_and_then, wp_private; [private_prog|]; intros ? [?|?] ?; [|done];
    match goal with Hg : goes ?h ?h1, Hk : forall h', goes ?h h' -> _ |- _ =>
      pose proof (keep_on _ _ _ Hk Hg); clear Hk Hg end).
  match goal with |- context [match ?m with Some _ => _ | None => _ end] => destruct m; [|done] end.
  split; [done|]. match goal with H : forall h', goes _ h' -> _ |- _ => apply H, goes_refl end.
Qed.

(** The process behind a fork, and later sends to it *)
Definition started (h : list Event) (p : OwnedResourceIdentity) : Prop :=
  exists o child, ev (Fork o) (Some child) ∈ h /\ r_stable_id p = to_string (fork_pid child).

Lemma started_goes h h' p : goes h h' -> started h p -> started h' p.
Proof. intros Hg (o & child & H & Hp). exists o, child. split; [|done]. by eapply elem_goes. Qed.

Lemma swp_private {T A} (p : Prog A) (s : T) h (Q : list Event -> T -> result A -> Prop) :
  private_calls p -> (forall h' r, goes h h' -> Q h' s r) -> swp guest_rules (lift p) s h Q.
Proof. intros Hp HQ. by apply swp_lift, wp_private. Qed.

Lemma start_spec o s h : o_guest_identity o = true -> Forall (copy_verified h) boot_files -> forall inode,
  swp guest_rules (start_native_process o (fun p => register_identity (in_directory directory inode p))) s h
    (fun h' s' r => match r with Ok p => started h' p | Throw _ => True end).
Proof.
  intros Ho Hv inode. unfold start_native_process. state_steps.
  apply swp_private; [apply private_prepare|]. intros h1 [digest|e] Hg; [|done]. state_steps.
  apply swp_call.
  { split; [done|]. eapply Forall_impl; [exact Hv|]. intros name. by apply copy_verified_goes. }
  intros [child|]; [|done]. state_steps. apply swp_private; [apply private_inspect|].
  intros h2 [observed|e] Hg2; [|done]. state_steps.
  set (resource := native_resource o (fork_pid child) (start_time observed) digest).
  assert (started h2 resource) as Hs.
  { exists o, child. split; [|done]. eapply elem_goes; [exact Hg2|by left]. }
  destruct (String.eqb (r_secondary_id resource) ""); state_steps.
  { apply swp_call; [done|]. intros []. state_steps. apply swp_call; [done|]. intros []. by state_steps. }
  eapply (swp_mono _ _ _ _ (fun h' _ _ => goes h2 h')).
  2: { eapply wp_mono; [|eapply wp_weaken; [|apply (wp_and _ _ _ _ _ _ (private_goes _ h2 (Hregister _ _)) (Hcaught _ _ h2))]].
       - intros h' r [Hgo [[s' x] ->]]. exact Hgo.
       - by intros h' c [? _]. }
  intros h3 s3 [[]|e] Hg3; state_steps.
  - apply swp_private; [apply private_release|]. intros h4 [[]|e] Hg4; state_steps.
    + eapply started_goes; [|exact Hs]. by eapply goes_trans.
    + apply swp_call; [done|]. intros []. state_steps. apply swp_call; [done|]. intros []. by state_steps.
  - apply swp_call; [done|]. intros []. state_steps. apply swp_call; [done|]. intros []. by state_steps.
Qed.

Lemma rules_weaken {A} stable o child (p : Prog A) h (Q : list Event -> result A -> Prop) :
  ev (Fork o) (Some child) ∈ h -> stable = to_string (fork_pid child) ->
  wp (sends_identified stable) p h Q -> wp guest_rules p h (fun h' r => goes h h' /\ Q h' r).
Proof.
  intros Hf -> Hp. eapply wp_mono; [|eapply wp_weaken; [|apply (wp_and _ _ _ _ _ _ (wp_goes p h h (goes_refl h)) Hp)]].
  - done.
  - intros h' c [Hg Hc]. destruct c; try done. exists o, child. split; [by eapply elem_goes|done].
Qed.

(** Starting a guest and releasing it *)
Definition guest_program : stateful S unit :=
  bind_state (start_guest rounds parse_document sha256 to_chars options guest node credentials directory token
                limit register_identity)
    (fun g => lift (release rounds parse_document to_chars g)).

Lemma guest_obeys s : swp guest_rules guest_program s [] (fun _ _ _ => True).
Proof.
  unfold guest_program, start_guest. state_steps.
  apply swp_lift. eapply wp_mono; [|apply prepare_spec]. intros h [[[start fd] inode]|e]; [|done]. intros [Ho Hv].
  state_steps. eapply swp_mono; [|by apply start_spec]. clear h Hv. intros h s' [process|e]; [|done]. intros Hs.
  state_steps. apply swp_private; [private_prog|]. intros h1 [now|e] Hg1; [|done].
  state_steps. apply swp_private; [private_prog|]. intros h2 [timeout|e] Hg2; [|done].
  assert (started h2 process) as (o & child & Hf & Hp) by (eapply started_goes; [|exact Hs]; by eapply goes_trans).
  state_steps. apply swp_lift.
  eapply wp_mono; [|eapply (rules_weaken (to_string (fork_pid child))); [exact Hf|done|];
    apply (handshake_shaken rounds parse_document sha256 to_chars (fun _ => None) (to_string (fork_pid child)) []); by repeat split].
  intros h3 [[session r]|e] [Hg3 Hr]; [|done]. destruct Hr as [(Hst & _) Hr].
  state_steps. apply swp_lift, wp_of_result. cbn [snd fst]. destruct r as [[ready fields]|e]; [|done].
  state_steps. apply swp_lift.
  eapply wp_mono; [|eapply (rules_weaken (to_string (fork_pid child))); [by eapply elem_goes|done|];
    by apply release_sends]. done.
Qed.

(** C10: What a session sends goes to the guest that was started: the process was
    forked behind the verification of its boot files, and the connection was
    identified as one to a socket of that process. *)
Theorem guest_channels_identified s l1 l2 fd bytes x :
  reaches (guest_program s) (l1 ++ ev (SendStream fd bytes) x :: l2) ->
  exists before o child after, l1 = before ++ ev (Fork o) (Some child) :: after /\
    o_guest_identity o = true /\ Forall (copy_verified (rev before)) boot_files /\
    identified (to_string (fork_pid child)) fd (rev l1).
Proof.
  intros Hr. pose proof (swp_wp _ _ _ _ (fun _ _ => True) (guest_obeys s)) as Hwp.
  pose proof (wp_reaches _ _ _ _ _ _ _ _ Hwp Hr) as H. rewrite app_nil_r in H.
  destruct H as (o & child & Hin & Hi).
  apply list_elem_of_In, in_rev, list_elem_of_In, list_elem_of_split in Hin as (before & after & ->).
  exists before, o, child, after. split; [done|].
  rewrite <-app_assoc in Hr. cbn [app] in Hr.
  pose proof (wp_reaches _ _ _ _ _ _ _ _ Hwp Hr) as H. rewrite app_nil_r in H. by destruct H.
Qed.
End Start.

(** ** Cleaning up *)

(** The directory was the one of the guest, and every entry it was listed with
    was a file or socket of the guest. *)
Definition directory_identified (r : OwnedResourceIdentity) (h : list Event) : Prop :=
  exists m names, directory_owned r m = true /\
    ev (Lstat (r_runtime_directory r)) (lstat_found m) ∈ h /\
    ev (Listing (r_runtime_directory r)) (Ok names) ∈ h /\
    Forall (fun name => exists m', entry_known name m' = true /\
      ev (Lstat (slash (r_runtime_directory r) name)) (lstat_found m') ∈ h) names.

Lemma directory_identified_goes r h h' : goes h h' -> directory_identified r h -> directory_identified r h'.
Proof.
  intros Hg (m & names & Hm & H1 & H2 & H3). exists m, names. split; [done|].
  do 2 (split; [by eapply elem_goes|]). eapply Forall_impl; [exact H3|].
  intros name (m' & Hm' & H). exists m'. split; [done|]. by eapply elem_goes.
Qed.

Definition cleans (r : OwnedResourceIdentity) (h : list Event) (c : sys) : Prop :=
  match c with Remove _ | Chown _ _ _ => directory_identified r h | _ => True end.

Lemma calls_any {A} (p : Prog A) : calls_only (fun _ => True) p.
Proof. induction p as [a|e|c k IH]; [done..|]. by split. Qed.

Lemma found_true details test : found details test = true -> exists m, details = lstat_found m /\ test m = true.
Proof. destruct details as [m| |]; [|done..]. eauto. Qed.

Lemma entries_identified r path names : forall h (P : list Event -> Prop),
  (forall h e, P h -> P (e :: h)) -> P h ->
  wp (cleans r) (for_each_in (fun name _ =>
      and_then (sys_call (Lstat (slash path name))) (fun entry =>
      require (found entry (entry_known name))
        "E_GUEST_IDENTITY: unexpected runtime file; nothing removed")) names tt) h
    (fun h' x => match x with
     | Ok _ => P h' /\ Forall (fun name => exists m', entry_known name m' = true /\
         ev (Lstat (slash path name)) (lstat_found m') ∈ h') names
     | Throw _ => True end).
Proof.
  induction names as [|name names IH]; intros h P HP Hh; cbn [for_each_in]; [by split; [|constructor]|].
  split; [done|]. intros entry. cbn [and_then].
  destruct (found entry (entry_known name)) eqn:E; [|done]. cbn [require and_then].
  apply found_true in E as (m & -> & Hm).
  eapply wp_mono; [|apply (IH _ (fun h' => P h' /\ ev (Lstat (slash path name)) (lstat_found m) ∈ h'))].
  - intros h' [[]|e]; [|done]. intros [[H1 H2] H3]. split; [done|]. constructor; [by exists m|done].
  - intros h' e [H1 H2]. split; [by apply HP|by right].
  - split; [by apply HP|by left].
Qed.

(** Nothing in the directory of a guest is removed, and the directory is not
    given away, before it was identified together with all its entries. *)
Theorem cleanup_identified r l1 l2 c x :
  reaches (cleanup_guest_directory r) (l1 ++ ev c x :: l2) ->
  (exists path, c = Remove path) \/ (exists path uid gid, c = Chown path uid gid) ->
  directory_identified r (rev l1).
Proof.
  intros Hr Hc.
  assert (wp (cleans r) (cleanup_guest_directory r) [] (fun _ _ => True)) as Hwp.
  { unfold cleanup_guest_directory, verify_guest_directory. clear l1 l2 c x Hr Hc.
    destruct (String.eqb (r_runtime_directory r) ""); [done|].
    apply wp_and_then. eapply (wp_mono _ _ _ (fun h x => match x with Ok _ => directory_identified r h | Throw _ => True end)).
    - intros h [[]|e]; [|done]. intros Hd.
      eapply (wp_mono _ _ _ (fun h _ => directory_identified r h)); [done|].
      apply (wp_calls (fun _ => True)); [|intros h' c Hh _; split; [by destruct c|intros x]|done].
      + apply calls_any.
      + eapply directory_identified_goes; [apply goes_cons, goes_refl|done].
    - apply wp_and_then. eapply (wp_mono _ _ _ (fun _ _ => True)).
      2: { apply (wp_calls (fun c => lstat_call c = true)); [|intros h c _ Hc; by destruct c|done].
           unfold safe_execution_path. quiet_prog. unfold safe_component. quiet_prog. }
      intros h [[]|e] _; [|done]. split; [done|]. intros details. cbn [and_then].
      destruct (found details (directory_owned r)) eqn:E; [|done]. cbn [require and_then].
      apply found_true in E as (m & -> & Hm).
      split; [done|]. intros [names|e]; [|done]. cbn [of_result and_then].
      eapply wp_mono; [|apply (entries_identified r _ names _ (fun h' =>
        ev (Lstat (r_runtime_directory r)) (lstat_found m) ∈ h' /\ ev (Listing (r_runtime_directory r)) (Ok names) ∈ h'))].
      + intros h' [[]|e]; [|done]. intros [[H1 H2] H3]. by exists m, names.
      + intros h' e [H1 H2]. split; by right.
      + split; [right; by left|by left]. }
  pose proof (wp_reaches _ _ _ _ _ _ _ _ Hwp Hr) as H. rewrite app_nil_r in H.
  destruct Hc as [[path ->]|(path & uid & gid & ->)]; exact H.
Qed.

(** ** Examples *)

Definition node_metadata (kind : file_kind) (uid mode : Z) : metadata :=
  {| st_kind := kind; st_nlink := 1; st_mode := mode; st_uid := uid; st_gid := uid; st_size := 1; st_dev := 8;
     st_ino := 9; st_mtime := 0 |}.

(** What is at a path: sockets and files by their names, else directories *)
Definition sample_node_at (path : string) : lstat_answer :=
  if ends_with path ".sock" then lstat_found (node_metadata file_socket 65532 448)
  else if ends_with path "bzImage" then lstat_found (node_metadata file_regular 0 292)
  else lstat_found (node_metadata file_directory 65532 448).

Definition guest_ledger : OwnershipState :=
  rebuild empty_state [] "" "" "hash" "g" "token" "creating" ∅ ∅ "console" 9 8 [].

(** A system on which everything succeeds; QEMU answers with empty lines. *)
Definition guest_system (h : list Event) (c : sys) : option (answer c) :=
  match c as c return option (answer c) with
  | Lstat path => Some (sample_node_at path)
  | Account => Some (Some ("graphx-qemu", 65532))
  | Group => Some (Some "graphx-qemu")
  | OpenDirectoryFd _ => Some (Some 7)
  | CopyFile _ _ => Some (Ok true)
  | Hash _ => Some (Ok "digest")
  | Canonical path => Some (Ok path)
  | Load _ => Some (Ok guest_ledger)
  | Fstat _ => Some (Some (node_metadata file_directory 65532 448))
  | Fork o => Some (Some {| fork_pid := 42; fork_range := eq_refl |})
  | ReadFile _ => Some ""
  | ReadExe _ => Some "/usr/bin/qemu-system-x86_64"
  | ReadStat _ => Some sample_stat
  | Waitpid _ => Some None
  | Now => Some 5
  | PollExec _ => Some poll_ready
  | Interrupted => Some false
  | OpenStream => Some (Some 9)
  | ConnectStream _ _ => Some connect_done
  | StreamPeer _ => Some (Some (65532, 42))
  | PollStream _ _ => Some (stream_ready true)
  | ReceiveStream _ _ => Some (bytes_moved Process.newline)
  | SendStream _ bytes => Some (bytes_moved (Z.of_nat (String.length bytes)))
  | Listing _ => Some (Ok ["bzImage"])
  | OpenExclusive _ | Pipe | SetCloexec | ReleaseGate _ | CreateDirectory _ | Chmod _ _ | Chown _ _ _
  | StreamFlag _ _ => Some true
  | Save _ | Remove _ => Some (Ok tt)
  | Sleep _ => Some tt
  | _ => None
  end.

Definition guest_parse (s : string) : result Value := Ok (obj [("QMP", VNull)]).

Definition sample_guest : Value :=
  obj [("recipe", VStr "packet"); ("argv", strings ["qemu-system-x86_64"; "-m"; "256"]);
       ("artifact_verification",
        VArr [obj [("path", VStr "bzImage"); ("sha256", VStr "digest")];
              obj [("path", VStr "rootfs.cpio.gz"); ("sha256", VStr "digest")]]);
       ("readiness", obj [("timeout_ms", VInt 1000)]); ("network", obj [])].

Definition sample_guest_program : Prog (OwnershipState * result unit) :=
  guest_program 3 guest_parse (fun s => s) (fun _ => "0") (sample_options "up") sample_guest
    (obj [("node_id", VStr "radio")]) (obj []) "/state/g/radio" "token" 100000 register guest_ledger.

Definition sends (c : sys) : bool := match c with SendStream _ _ => true | _ => false end.
Definition guest_run : list Event := (simulate guest_system sample_guest_program []).1.
Definition first_send : nat := index_of sends guest_run.
Definition capabilities_text : string :=
  match drop first_send guest_run with
  | Effects.Event (SendStream _ bytes) _ :: _ => bytes
  | _ => ""
  end.

Lemma register_private p s : private_calls (register p s).
Proof. split; [done|]. by intros [[]|]. Qed.
Lemma register_caught p s h : wp any (register p s) h (fun _ r => exists x, r = Ok x).
Proof. split; [done|]. intros [[]|]; by eexists. Qed.

Lemma guest_channels_identified_witness :
  exists before o child after, take first_send guest_run = before ++ ev (Fork o) (Some child) :: after /\
    o_guest_identity o = true /\ Forall (copy_verified sample_guest "/state/g/radio" (rev before)) boot_files /\
    identified (to_string (fork_pid child)) 9 (rev (take first_send guest_run)).
Proof.
  apply (guest_channels_identified 3 guest_parse (fun s => s) (fun _ => "0") (sample_options "up") sample_guest
    (obj [("node_id", VStr "radio")]) (obj []) "/state/g/radio" "token" 100000 register register_private
    register_caught guest_ledger (take first_send guest_run) (drop (S first_send) guest_run) 9 capabilities_text
    (bytes_moved (Z.of_nat (String.length capabilities_text)))).
  match goal with |- reaches _ ?l => replace l with guest_run by (vm_compute; reflexivity) end.
  apply simulate_reaches.
Defined.

Definition sample_runtime : OwnedResourceIdentity :=
  OwnershipState.process_identity "native" "radio" "42" "77" "" "/state/g/radio" "8:9".
Definition cleanup_run : list Event := (simulate guest_system (cleanup_guest_directory sample_runtime) []).1.
Definition removal (c : sys) : bool := match c with Remove _ => true | _ => false end.

Lemma cleanup_identified_witness :
  directory_identified sample_runtime (rev (take (index_of removal cleanup_run) cleanup_run)).
Proof.
  apply (cleanup_identified sample_runtime _ (drop (S (index_of removal cleanup_run)) cleanup_run)
    (Remove "/state/g/radio/bzImage") (Ok tt)); [|left; by eexists].
  match goal with |- reaches _ ?l => replace l with cleanup_run by (vm_compute; reflexivity) end.
  apply simulate_reaches.
Defined.
End GuestProofs.
