(* ===== verification/ScenarioRun.v ===== *)
(** * Running scenario actions (src/src/infra/scenario_execution.cpp, [route_command] of src/src/infra.cpp)

    An action of the scenario plan is carried out on a graph that runs: routes
    of routers, faults, traffic with its expectations and rotations of
    credentials.  The ledger is the state of the program; the record of the
    action in it is pending from before the first change to behind the last. *)

From Stdlib Require Import ZArith Lia Strings.Byte Strings.Ascii Strings.String Floats.SpecFloat.
From stdpp Require Import base option gmap strings list.
From S2P Require Import Prelude ConfigValue ConfigSchema ConfigNetwork Scenario Text ResolvedNetwork Yaml.
From S2P Require Import OwnershipState Effects Process Native Host Ovs Endpoint Fault LifecycleStatus Lifecycle.
From S2P Require Import Compile Guest.

Module ScenarioRun.
Import Compile ResolvedNetwork OwnershipState Text Effects Process Native ConfigValue ConfigNetwork.
Import Host Endpoint Fault.
Local Open Scope Z_scope.
#[local] Open Scope prog_scope.

Definition require (value : bool) (message : string) : Prog unit :=
  if value then Ret tt else throw ("E_SCENARIO: " +:+ message).
Definition require_of (value : result bool) (message : string) : Prog unit :=
  let! b := of_result value in require b message.

Definition checkpoint : Prog unit :=
  let! interrupted := sys_call Interrupted in
  require (negb interrupted) "interrupted; action recovery state retained".

(** [call]: the output of a command that succeeded *)
Definition call_with (arguments : list string) (input : string) : Prog string :=
  let! result := checked (sys_call (Cmd arguments input)) in
  require ((c_status result =? 0) && (c_exec_error result =? 0) && negb (c_output_truncated result))
    ("bounded command failed: " +:+ default "" (head arguments));;;
  Ret (c_output result).
Definition call (arguments : list string) : Prog string := call_with arguments "".

(** ** The ledger *)

Definition set_actions (l : list OwnedScenarioAction) (s : OwnershipState) : OwnershipState :=
  rebuild s l (credential_directory s) (credential_identity s) (config_hash s) (graph_id s) (owner_token s)
    (status s) (applications s) (console_sockets s) (console_name s) (console_inode s) (console_device s)
    (processes s).

Definition with_faults (xf : list ExpectedFault) (f : list OwnedFault) (s : OwnershipState) : OwnershipState :=
  with_infrastructure s (status s) (expected_bridges s) (bridges s) (expected_endpoints s) (endpoints s)
    (expected_namespaces s) (namespaces s) (expected_captures s) (captures s) xf f.

Definition action_record (id : string) (l : list OwnedScenarioAction) : option OwnedScenarioAction :=
  List.find (fun a => String.eqb (a_id a) id) l.

(** The first record of an identifier, changed *)
Fixpoint change_record (id : string) (f : OwnedScenarioAction -> OwnedScenarioAction)
    (l : list OwnedScenarioAction) : list OwnedScenarioAction :=
  match l with
  | [] => []
  | a :: l => if String.eqb (a_id a) id then f a :: l else a :: change_record id f l
  end.

Definition with_status (stat : string) (a : OwnedScenarioAction) : OwnedScenarioAction :=
  {| a_id := a_id a; a_kind := a_kind a; a_status := stat; a_identity := a_identity a |}.
Definition with_identity (identity : string) (a : OwnedScenarioAction) : OwnedScenarioAction :=
  {| a_id := a_id a; a_kind := a_kind a; a_status := a_status a; a_identity := identity |}.
Definition settled (stat : string) (a : OwnedScenarioAction) : OwnedScenarioAction :=
  with_identity "" (with_status stat a).

Definition on_record (id : string) (f : OwnedScenarioAction -> OwnedScenarioAction) (s : OwnershipState)
    : OwnershipState := set_actions (change_record id f (actions s)) s.
Definition push_action (id kind stat : string) (s : OwnershipState) : OwnershipState :=
  set_actions (actions s ++ [{| a_id := id; a_kind := kind; a_status := stat; a_identity := "" |}]) s.

Definition named_process (state : OwnershipState) (name : string) : result OwnedResourceIdentity :=
  match List.find (fun p => String.eqb (r_name p) name) (processes state) with
  | Some p => Ok p
  | None => Throw (RuntimeError ("E_SCENARIO: process not owned: " +:+ name))
  end.

Definition connection (resolved id : Value) : result Value :=
  let* l := array_at resolved "connections" in
  let* item := find_result (fun v => eq_at v "id" id) l in
  match item with
  | Some v => Ok v
  | None => Throw (RuntimeError "E_SCENARIO: unknown connection")
  end.

(** ** Routes ([route_command]) *)

Definition route_command (infrastructure : NetworkInfrastructureConfig) (router route : string) (clear : bool)
    : result (list string) :=
  let* router := find_router infrastructure router in
  match router_kind router with
  | linux_namespace =>
      match List.find (fun r => String.eqb (destination r) route) (router_routes router) with
      | None => Throw (InvalidArgument "unknown declared route")
      | Some found =>
          Ok (["ip"; "netns"; "exec"; namespace_name router; "ip"; "route";
               if clear then "delete" else "replace"; destination found]
              ++ (if clear then []
                  else (if is_empty (via found) then [] else ["via"; via found])
                       ++ (if is_empty (device found) then [] else ["dev"; device found])))
      end
  | _ => Throw (InvalidArgument "manual route realization requires a Linux namespace router")
  end.

Definition show_route (router : RouterDefinition) (route : string) : list string :=
  ["ip"; "netns"; "exec"; namespace_name router; "ip"; "-j"; "route"; "show"; "exact"; route].

(** ** Identities *)

Definition docker_owned (process : OwnedResourceIdentity) (state : OwnershipState)
    (parse_document : string -> result Value) : Prog unit :=
  let is_container := String.eqb (r_kind process) "container" in
  let! shown := call ["docker"; r_kind process; "inspect"; r_stable_id process] in
  let! objects := of_result (parse_document shown) in
  let! l := of_result (array objects) in
  match l with
  | [object] =>
      let! labels := of_result (if is_container then let* config := at_ object "Config" in at_ config "Labels"
                                else at_ object "Labels") in
      require_of (and_result (eq_at labels "org.graphx.owner" (VStr (owner_token state)))
                             (eq_at labels "org.graphx.graph" (VStr (graph_id state)))) "Docker owner changed";;;
      (if is_container then
         require_of (and_result (eq_at object "Id" (VStr (r_stable_id process)))
                       (and_result (eq_at object "Image" (VStr (r_secondary_id process)))
                          (let* observed := at_ object "State" in eq_at observed "Running" (VBool true))))
           "container identity changed or stopped"
       else Ret tt)
  | _ => throw "E_SCENARIO: ambiguous Docker identity"
  end.

Definition directory_identity (path : string) : Prog string :=
  safe_execution_path path false;;;
  let! details := sys_call (Lstat path) in
  match details with
  | lstat_found m =>
      match st_kind m with
      | file_directory => Ret (Guest.inode_of m)
      | _ => throw "E_SCENARIO: directory unavailable"
      end
  | _ => throw "E_SCENARIO: directory unavailable"
  end.

(** ** Traffic *)

Definition occurs (part whole : string) : bool :=
  match Text.find part whole with Some _ => true | None => false end.

(** The suffix of a file name behind its last full stop, which is not its first character *)
Definition extension (name : string) : string :=
  match rfind "." name with
  | None | Some O => ""
  | Some n => if String.eqb name ".." then "" else sdrop n name
  end.

Definition diagnostic_script : string :=
  "import "
  +:+ "socket,sys;s=socket.socket(socket.AF_INET,socket.SOCK_DGRAM);s.setsockopt(socket.SOL_"
  +:+ "SOCKET,25,sys.argv[1].encode()+b'\0');s.bind((sys.argv[2],0));t=sys.argv[5].encode();s."
  +:+ "sendto(b'GXR1\0'+bytes([len(t)])+t,(sys.argv[3],int(sys.argv[4])))".

Definition isolation_script : string :=
  "import "
  +:+ "socket,sys;s=socket.socket(socket.AF_INET,socket.SOCK_DGRAM);s.setsockopt(socket."
  +:+ "SOL_SOCKET,25,sys.argv[1].encode()+b'\0');s.bind((sys.argv[2],0));s.sendto(b'X'*"
  +:+ "127,(sys.argv[3],int(sys.argv[4])))".

(** [address.substr(0, address.find('/'))] *)
Definition before_slash (address : string) : string :=
  match Text.find "/" address with Some n => stake n address | None => address end.

Section Run.
Context (rounds fuel : nat) (load_all : string -> option (list Yaml.node)) (conversions : Yaml.Conversions)
        (parse_document : string -> result Value) (to_chars : spec_float -> string)
        (sha256 : string -> string) (show_double : spec_float -> string) (stod : string -> result spec_float)
        (regex_search : string -> string -> bool) (decode_block : string -> option string)
        (authored_schema : string).

Definition read (path : string) : Prog Value :=
  safe_execution_path path false;;;
  let! bytes := checked (sys_call (ReadDocument path (4 * 1024 * 1024))) in
  of_result (parse_document bytes).

Definition inspect_guest (process : OwnedResourceIdentity) (pause : bool) : Prog string :=
  Guest.inspect_guest rounds parse_document to_chars decode_block process pause false.

Definition guest_traffic_seen (serial : string) : bool :=
  occurs " tcp bytes=" serial && occurs " udp bytes=" serial.

(** The serial console until it shows traffic, or the deadline *)
Fixpoint await_serial (rounds : nat) (process : OwnedResourceIdentity) (deadline : Z) (serial : string) : Prog string :=
  match rounds with
  | O => spinning
  | S rounds =>
      let! now := sys_call Now in
      if negb (now <? deadline) then Ret serial
      else
        checkpoint;;;
        let! part := inspect_guest process false in
        let serial := serial +:+ part in
        require (String.length serial <=? 2 * 1024 * 1024)%nat "guest evidence bound exceeded";;;
        if guest_traffic_seen serial then Ret serial
        else sys_call (Sleep 100);;; await_serial rounds process deadline serial
  end.

Definition retained_serial (root : string) (process : OwnedResourceIdentity) (state : OwnershipState) : Prog string :=
  if String.eqb (console_name state) "" then Ret ""
  else
    let retained := slash (slash root (console_name state)) (r_name process +:+ ".boot") in
    let! present := sys_call (Exists retained) in
    if present : bool then
      safe_execution_path retained false;;;
      checked (sys_call (ReadDocument retained 65536))
    else Ret "".

(** The other end of a connection has logged its traffic. *)
Definition peer_traffic (resolved : Value) (root : string) (process : OwnedResourceIdentity) (state : OwnershipState)
    (id : Value) : Prog unit :=
  let! edge := of_result (connection resolved id) in
  let! node := of_result (let* to := at_ edge "to" in text_at to "node") in
  if String.eqb node (r_name process) then Ret tt
  else
    let! peer := of_result (named_process state node) in
    let! alive := native_process_status peer false in
    require alive.1 "peer process stopped";;;
    let! log := checked (sys_call (ReadDocument (slash (slash root "logs") (node +:+ ".log")) (2 * 1024 * 1024))) in
    require_of (let* transport := text_at edge "transport" in
                Ok (occurs (" " +:+ transport +:+ " bytes=") log)) "peer traffic missing".

(** A file of a capture session with packets *)
Definition packet_file (directory name : string) (found : bool) : Prog bool :=
  let path := slash directory name in
  let! details := sys_call (StatPath path) in
  let regular := match details with Some m => Guest.is_kind_of file_regular m | None => false end in
  if regular && String.eqb (extension name) ".pcapng" then
    let! size := checked (sys_call (FileSize path)) in
    Ret ((64 <? size) || found)
  else Ret found.

Definition captured_packets (state : OwnershipState) : Prog unit :=
  require (negb (bool_decide (captures state = []))) "capture missing";;;
  let! found := for_each_in (fun capture found =>
    let! names := checked (sys_call (Listing (c_session_directory capture))) in
    for_each_in (packet_file (c_session_directory capture)) names found) (captures state) false in
  require found "capture has no packet evidence".

Definition tag_of (e : ExpectedEndpoint) : list string := ["ovs-vsctl"; "get"; "Port"; e_host_interface e; "tag"].

(** A datagram from another VLAN does not reach the guest. *)
Definition vlan_isolated (resolved : Value) (process : OwnedResourceIdentity) (state : OwnershipState) : Prog unit :=
  match List.find (fun e => String.eqb (e_owner e) (r_name process) && bool_decide (e_kind e = qemu_tap))
          (expected_endpoints state) with
  | Some data =>
      require (bool_decide (is_Some (access_tag (e_vlan data)))) "guest VLAN unavailable";;;
      match List.find (fun e => bool_decide (e_kind e = namespace_veth)
                                && String.eqb (e_network_switch e) (e_network_switch data)
                                && bool_decide (is_Some (access_tag (e_vlan e)))
                                && negb (bool_decide (access_tag (e_vlan e) = access_tag (e_vlan data))))
              (expected_endpoints state) with
      | None => throw "E_SCENARIO: isolated VLAN endpoint unavailable"
      | Some isolated =>
          let! theirs := call (tag_of isolated) in
          let! ours := call (tag_of data) in
          require (negb (String.eqb theirs ours)) "VLANs are not isolated";;;
          let! connections := of_result (array_at resolved "connections") in
          let! incoming := of_result (find_result (fun v =>
            and_result (let* to := at_ v "to" in eq_at to "node" (VStr (r_name process)))
                       (eq_at v "transport" (VStr "udp"))) connections) in
          match incoming with
          | None => throw "E_SCENARIO: guest UDP input missing"
          | Some incoming =>
              let! _ := inspect_guest process false in
              let! address := of_result (text_at incoming "destination_address") in
              let! port := of_result (let* settings := at_ incoming "settings" in integer_at settings "port") in
              let! _ := call ["ip"; "netns"; "exec"; e_namespace_name isolated; "python3"; "-c"; isolation_script;
                              e_target_interface isolated; before_slash (e_address isolated); address;
                              to_string port] in
              sys_call (Sleep 1000);;;
              checkpoint;;;
              let! serial := inspect_guest process false in
              require (negb (occurs " udp bytes=127" serial)) "isolated VLAN reached guest"
          end
      end
  | None => throw "E_SCENARIO: guest VLAN unavailable"
  end.

Definition guest_expectation (resolved : Value) (process : OwnedResourceIdentity) (state : OwnershipState)
    (expectation : Value) : Prog unit :=
  if value_eqb expectation (VStr "qmp-pause-resume") then let! _ := inspect_guest process true in Ret tt
  else if value_eqb expectation (VStr "capture-nonempty") then captured_packets state
  else if value_eqb expectation (VStr "vlan-43-isolated") then vlan_isolated resolved process state
  else require (value_eqb expectation (VStr "bidirectional-tcp-udp")) "unsupported guest expectation".

Definition guest_traffic (resolved action : Value) (root : string) (state : OwnershipState) : Prog unit :=
  match List.find (fun p => negb (is_empty (r_runtime_directory p))) (processes state) with
  | None => throw "E_SCENARIO: guest process missing"
  | Some process =>
      let! serial := retained_serial root process state in
      let! now := sys_call Now in
      let! serial := await_serial rounds process (now + 10000) serial in
      require (guest_traffic_seen serial) "guest traffic missing";;;
      let! connections := of_result (array_at action "connections") in
      for_each_in (fun id _ => peer_traffic resolved root process state id) connections tt;;;
      let! expect := of_result (array_at action "expect") in
      for_each_in (fun expectation _ => guest_expectation resolved process state expectation) expect tt;;;
      sys_call (Print ("verified guest traffic, VLAN, capture and QMP expectations" +:+ Process.newline))
  end.

(** Whether the receiver logs the token before the deadline *)
Fixpoint await_token (rounds : nat) (path token : string) (deadline : Z) : Prog bool :=
  match rounds with
  | O => spinning
  | S rounds =>
      let! now := sys_call Now in
      if negb (now <? deadline) then Ret false
      else
        checkpoint;;;
        safe_execution_path path false;;;
        let! log := checked (sys_call (ReadDocument path (2 * 1024 * 1024))) in
        if occurs ("token=" +:+ token) log then Ret true
        else sys_call (Sleep 50);;; await_token rounds path token deadline
  end.

(** Whether the expectation is that the datagram arrives *)
Definition expects_pass (expect : string) (state : OwnershipState) : Prog bool :=
  if String.prefix "pass-only-after-" expect then
    Ret (match action_record (sdrop 16 expect) (actions state) with
         | Some applied => String.eqb (a_status applied) "complete"
         | None => false
         end)
  else
    require (String.eqb expect "pass" || String.eqb expect "drop") "unsupported flow expectation";;;
    Ret (String.eqb expect "pass").

(** A datagram with a fresh token over one connection *)
Definition probe_connection (resolved : Value) (root : string) (state : OwnershipState) (id expect : Value)
    : Prog unit :=
  let! edge := of_result (connection resolved id) in
  require_of (and_result (eq_at edge "transport" (VStr "udp")) (eq_at edge "schema" (VStr "RawDiagnosticDatagram")))
    "traffic needs a declared diagnostic UDP contract";;;
  let! endpoint := of_result (let* attachments := at_ edge "attachments" in
                              let* from := text_at attachments "from" in expected_endpoint state from) in
  require (bool_decide (e_kind endpoint = namespace_veth)) "diagnostic sender must be an owned namespace";;;
  let! target := of_result (let* to := at_ edge "to" in text_at to "node") in
  let! receiver := of_result (named_process state target) in
  let! alive := native_process_status receiver false in
  require alive.1 "diagnostic receiver stopped";;;
  let! token := sys_call RandomToken in
  let! source := of_result (text_at edge "source_address") in
  let! address := of_result (text_at edge "destination_address") in
  let! port := of_result (let* settings := at_ edge "settings" in integer_at settings "port") in
  let! _ := call ["ip"; "netns"; "exec"; e_namespace_name endpoint; "python3"; "-c"; diagnostic_script;
                  e_target_interface endpoint; source; address; to_string port; token] in
  let! now := sys_call Now in
  let! received := await_token rounds (slash (slash root "logs") (target +:+ ".log")) token (now + 2000) in
  let! expect := of_result (text expect) in
  let! pass := expects_pass expect state in
  let! name := of_result (text_at edge "id") in
  require (Bool.eqb received pass) ("traffic expectation failed: " +:+ name);;;
  sys_call (Print (name +:+ "=" +:+ (if received : bool then "pass" else "drop") +:+ Process.newline)).

Definition traffic (opts : ExecutionOptions) (resolved action : Value) (state : OwnershipState) : Prog unit :=
  let root := slash (x_state_root opts) (graph_id state) in
  let! expect := of_result (array_at action "expect") in
  if existsb (value_eqb (VStr "bidirectional-tcp-udp")) expect then guest_traffic resolved action root state
  else
    let! connections := of_result (array_at action "connections") in
    require (length connections =? length expect)%nat "per-connection expectations required";;;
    for_each_in (fun (item : Value * Value) _ => probe_connection resolved root state item.1 item.2)
      (combine connections expect) tt.

(** ** Actions *)

Abbreviation Run := (stateful (C := sys) (R := answer) OwnershipState).
#[local] Open Scope stateful_scope.

Definition needs (value : bool) (message : string) : Run unit := lift (require value message).
Definition save : Run unit := do! state := current in lift (checked (sys_call (Save state))).

Definition lifecycle_context : LifecycleStatus.OvsExecutionContext :=
  {| LifecycleStatus.lock_held := true; LifecycleStatus.cancellable := true; LifecycleStatus.validate_only := true;
     LifecycleStatus.unavailable_containers := [] |}.

(** The network of the ledger is still there as it was made. *)
Definition check_network (opts : ExecutionOptions) (config : HostConfig) : Run unit :=
  do! status := Lifecycle.execute_ovs_lifecycle load_all conversions parse_document to_chars sha256 show_double config
                  (slash (x_output opts) "compile-manifest.json") Lifecycle.destroy false (x_state_root opts)
                  (Some lifecycle_context) in
  needs (status =? 0) "network ownership check failed".

Fixpoint erase_fault (id : string) (l : list OwnedFault) : list OwnedFault :=
  match l with
  | [] => []
  | f :: l => if String.eqb (f_id f) id then l else f :: erase_fault id l
  end.

Definition is_complete (record : option OwnedScenarioAction) : bool :=
  match record with Some a => String.eqb (a_status a) "complete" | None => false end.

Definition clear_scenario_fault (id : string) : Run unit :=
  do! state := current in
  match List.find (fun f => String.eqb (f_id f) id) (faults state) with
  | Some fault =>
      needs (is_complete (action_record id (actions state))) "fault not owned";;;
      do! cleared := lift (clear_fault fault) in
      needs cleared "fault identity changed";;;
      modify (fun s => with_faults (List.filter (fun x => negb (String.eqb (fault_id (xf_definition x)) id)) (expected_faults s))
                         (erase_fault id (faults s)) s);;;
      modify (on_record id (settled "cleared"));;;
      save;;;
      lift (sys_call (Print ("fault cleared" +:+ Process.newline)))
  | None => raises (RuntimeError "E_SCENARIO: fault not owned")
  end.

(** The action that applied a route *)
Definition applying_action (plan action : Value) : result (option Value) :=
  let* l := array_at plan "actions" in
  find_result (fun v =>
    and_result (eq_at v "action" (VStr "route-apply"))
      (and_result (Guest.same_at v "router" action "router")
                  (Guest.same_at v "destination" action "destination"))) l.

Definition same_identity (identity : string) (record : option OwnedScenarioAction) : bool :=
  match record with Some a => String.eqb (a_identity a) identity | None => false end.

Definition clear_route (config : HostConfig) (plan action : Value) (id kind shown : string) : Run unit :=
  do! apply := lift (of_result (applying_action plan action)) in
  match apply with
  | None => raises (RuntimeError "E_SCENARIO: route has no apply owner")
  | Some apply =>
      do! owner := lift (of_result (text_at apply "id")) in
      do! state := current in
      let record := action_record owner (actions state) in
      needs (is_complete record && same_identity shown record) "route identity changed or not owned";;;
      modify (on_record owner (with_status "pending"));;;
      save;;;
      do! command := lift (of_result (let* router := text_at action "router" in
                                      let* route := text_at action "destination" in
                                      route_command (infrastructure config) router route true)) in
      do! _ := lift (call command) in
      modify (on_record owner (settled "cleared"));;;
      (if String.eqb kind "route-clear" then
         do! state := current in
         match action_record id (actions state) with
         | None => modify (push_action id kind "complete")
         | Some _ => modify (on_record id (settled "complete"))
         end
       else returns tt);;;
      save;;;
      lift (sys_call (Print ("route cleared" +:+ Process.newline)))
  end.

(** The router of a route action, in the name space of the ledger, and what its
    table says of the route *)
Definition observe_route (config : HostConfig) (action : Value) : Run string :=
  do! router := lift (of_result (let* router := text_at action "router" in find_router (infrastructure config) router)) in
  do! state := current in
  match List.find (fun n => String.eqb (r_name n) (namespace_name router)) (namespaces state) with
  | None => raises (RuntimeError "E_SCENARIO: router namespace identity changed")
  | Some ns =>
      do! owned := lift (Ovs.namespace_owned ns state) in
      needs owned "router namespace identity changed";;;
      do! route := lift (of_result (text_at action "destination")) in
      lift (call (show_route router route))
  end.

(** The record of the action becomes pending. *)
Definition begin_action (id kind : string) : Run unit :=
  do! state := current in
  (match action_record id (actions state) with
   | None => modify (push_action id kind "pending")
   | Some record =>
       needs (String.eqb (a_status record) "cleared" || String.eqb kind "traffic") "action already completed";;;
       modify (on_record id (settled "pending"))
   end);;;
  save.

Definition added (arguments : list string) : list string :=
  map (fun a => if String.eqb a "replace" then "add" else a) arguments.

Definition apply_route (config : HostConfig) (action : Value) (id : string) : Run unit :=
  do! command := lift (of_result (let* router := text_at action "router" in
                                  let* route := text_at action "destination" in
                                  route_command (infrastructure config) router route false)) in
  do! _ := lift (call (added command)) in
  do! router := lift (of_result (let* router := text_at action "router" in find_router (infrastructure config) router)) in
  do! route := lift (of_result (text_at action "destination")) in
  do! shown := lift (call (show_route router route)) in
  modify (on_record id (with_identity shown)).

Definition planned_fault (action : Value) (id : string) (state : OwnershipState) : result ExpectedFault :=
  let* attachment := text_at action "attachment" in
  let* endpoint := expected_endpoint state attachment in
  let* duration := integer_at action "duration_seconds" in
  let* delay := integer_or action "delay_ms" 0 in
  let* jitter := integer_or action "jitter_ms" 0 in
  let* loss := (if contains action "loss_percent" then
                  let* loss := at_ action "loss_percent" in
                  let* text := config_value_json to_chars loss false in stod text
                else Ok (S754_zero false)) in
  Ok {| xf_definition := {| fault_id := id; fault_attachment := attachment; duration_seconds := u32 duration;
                            delay_ms := u32 delay; jitter_ms := u32 jitter; loss_percent := loss; rate_kbit := 0 |};
        xf_interface := e_host_interface endpoint |}.

Definition push_expected_fault (x : ExpectedFault) (s : OwnershipState) : OwnershipState :=
  with_faults (expected_faults s ++ [x]) (faults s) s.
Definition push_owned_fault (f : OwnedFault) (s : OwnershipState) : OwnershipState :=
  with_faults (expected_faults s) (faults s ++ [f]) s.

Definition register_fault (id : string) (owned : OwnedFault) : Run unit :=
  modify (push_owned_fault owned);;;
  modify (on_record id (with_identity (f_qdisc_identity owned)));;;
  save.

Definition inject_fault (action : Value) (id : string) : Run unit :=
  do! state := current in
  do! expected := lift (of_result (planned_fault action id state)) in
  needs (negb (existsb (fun f => String.eqb (f_attachment_id f) (fault_attachment (xf_definition expected))) (faults state)))
    "attachment already has an owned fault";;;
  modify (push_expected_fault expected);;;
  save;;;
  do! _ := create_fault show_double (register_fault id) expected in
  returns tt.

(** ** Rotation of credentials *)

Definition rotation_script : string :=
  "import {pathToFileURL} from 'node:url';import {readFileSync} from 'node:fs';const "
  +:+ "[module,manifest,root,ref,next,grace]=process.argv.slice(1);const "
  +:+ "{rotateCredential,readJson}=await "
  +:+ "import(pathToFileURL(module));rotateCredential(manifest==='-'?"
  +:+ "JSON.parse(readFileSync(0,'utf8')):readJson(manifest),root,ref,next,Number("
  +:+ "grace));console.log('credential generation published');".

(** The reference, its successor and the overlap, as arguments *)
Definition rotation_arguments (action : Value) : result (list string) :=
  let* ref := text_at action "credential" in
  let* next := text_at action "next" in
  let* grace := integer_at action "grace_seconds" in
  Ok [ref; next; to_string grace].

Definition native_platform (resolved : Value) : result bool :=
  let* platform := at_ resolved "platform" in
  let* telemetry := at_ platform "telemetry" in
  eq_at telemetry "host" (VStr "127.0.0.1").

Definition rotate_native (opts : ExecutionOptions) (action : Value) : Run unit :=
  do! state := current in
  needs (negb (is_empty (x_release opts)) && negb (is_empty (credential_directory state)))
    "verified release and owned credential directory required";;;
  do! identity := lift (directory_identity (credential_directory state)) in
  needs (String.eqb identity (credential_identity state)) "credential root replaced";;;
  do! platform := lift (of_result (named_process state "platform")) in
  do! alive := lift (native_process_status platform false) in
  needs (fst (A := bool) alive) "platform stopped";;;
  lift (checked (sys_call (LockCreate (slash (credential_directory state) ".lock"))));;;
  do! arguments := lift (of_result (rotation_arguments action)) in
  do! _ := lift (call ([slash (x_release opts) "libexec/graphx-platform/node"; "--input-type=module"; "-e"; rotation_script;
                        slash (x_release opts) "libexec/graphx-platform/apps/telemetry/credentials.mjs";
                        slash (x_output opts) "credentials.json"; credential_directory state] ++ arguments)) in
  returns tt.

Fixpoint trim_end (fuel : nat) (s : string) : string :=
  match fuel with
  | O => s
  | S fuel =>
      if ends_with s Process.newline || ends_with s (String "013" "")
      then trim_end fuel (stake (String.length s - 1) s) else s
  end.
(** [while (!s.empty() && (s.back() == '\n' || s.back() == '\r')) s.pop_back()] *)
Definition trimmed (s : string) : string := trim_end (String.length s) s.

Definition tooling_container (name image token : string) : OwnedResourceIdentity :=
  OwnershipState.process_identity "container" name "pending" image token "" "".

(** The container that was added last is known by this identifier. *)
Definition identify_last (id : string) (s : OwnershipState) : OwnershipState :=
  match last (processes s) with
  | Some p => set_processes (removelast (processes s)
                ++ [OwnershipState.process_identity (r_kind p) (r_name p) id (r_secondary_id p) (r_process_identity p)
                      (r_runtime_directory p) (r_runtime_identity p)]) s
  | None => s
  end.

Definition create_tooling (state : OwnershipState) (name volume image : string) (arguments : list string) : list string :=
  ["docker"; "create"; "--interactive"; "--name"; name; "--label"; "org.graphx.owner=" +:+ owner_token state;
   "--label"; "org.graphx.graph=" +:+ graph_id state; "--network"; "none"; "--user"; "65532:65532";
   "--cap-drop"; "ALL"; "--security-opt"; "no-new-privileges"; "--read-only"; "--log-driver"; "none";
   "--pids-limit"; "64"; "--memory"; "256m"; "--mount"; "type=volume,src=" +:+ volume +:+ ",dst=/var/lib/graphx";
   "--entrypoint"; "node"; image; "--input-type=module"; "-e"; rotation_script; "/app/credentials.mjs"; "-";
   "/var/lib/graphx/credentials"] ++ arguments.

Definition first_object (shown : string) : result Value :=
  let* objects := parse_document shown in
  let* l := array objects in
  match l with object :: _ => Ok object | [] => Throw (LogicError "front of an empty array") end.

Definition rotate_container (opts : ExecutionOptions) (action : Value) : Run unit :=
  do! state := current in
  do! platform := lift (of_result (named_process state ("graphx-" +:+ graph_id state +:+ "-platform"))) in
  lift (docker_owned platform state parse_document);;;
  do! volume := lift (of_result (named_process state ("graphx-" +:+ graph_id state +:+ "-credentials"))) in
  lift (docker_owned volume state parse_document);;;
  do! token := lift (sys_call RandomToken) in
  let name := "graphx-" +:+ graph_id state +:+ "-scenario-" +:+ token in
  modify (push_process (tooling_container name (r_secondary_id platform) (owner_token state)));;;
  save;;;
  do! arguments := lift (of_result (rotation_arguments action)) in
  do! created := lift (call (create_tooling state name (r_name volume) (r_secondary_id platform) arguments)) in
  let created := trimmed created in
  modify (identify_last created);;;
  save;;;
  do! manifest := lift (read (slash (x_output opts) "credentials.json")) in
  do! input := lift (of_result (config_value_json to_chars manifest true)) in
  do! _ := lift (call_with ["docker"; "start"; "--attach"; "--interactive"; created] input) in
  do! shown := lift (call ["docker"; "container"; "inspect"; created]) in
  do! succeeded := lift (of_result (let* observed := first_object shown in
                                    let* state := at_ observed "State" in eq_at state "ExitCode" (VInt 0))) in
  needs succeeded "credential tooling failed; recovery state retained";;;
  do! _ := lift (call ["docker"; "rm"; created]) in
  modify pop_process.

Definition rotate_credential (opts : ExecutionOptions) (resolved action : Value) (id : string) : Run unit :=
  do! native := lift (of_result (native_platform resolved)) in
  (if (native : bool) then rotate_native opts action else rotate_container opts action);;;
  do! text := lift (of_result (config_value_json to_chars action true)) in
  modify (on_record id (with_identity (sha256 text))).

(** ** [execute_scenario] *)

Definition is_route (kind : string) : bool := String.prefix "route-" kind.

(** What an action does between its two records *)
Definition perform_action (opts : ExecutionOptions) (config : HostConfig) (resolved action : Value) (id kind : string)
    : Run unit :=
  if String.eqb kind "route-apply" then apply_route config action id
  else if String.eqb kind "fault" then inject_fault action id
  else if String.eqb kind "traffic" then
    do! state := current in lift (traffic opts resolved action state)
  else if String.eqb kind "credential-rotate" then rotate_credential opts resolved action id
  else returns tt.

Definition run_action (opts : ExecutionOptions) (config : HostConfig) (resolved action : Value) (id kind : string)
    : Run unit :=
  begin_action id kind;;;
  lift checkpoint;;;
  perform_action opts config resolved action id kind;;;
  lift checkpoint;;;
  modify (on_record id (with_status "complete"));;;
  save;;;
  lift (sys_call (Print ("scenario action complete: " +:+ id +:+ Process.newline))).

(** A route action: whether it was a removal, and is done *)
Definition route_action (config : HostConfig) (plan action : Value) (id kind : string) (clearing : bool) : Run bool :=
  do! shown := observe_route config action in
  if String.eqb kind "route-clear" || clearing then
    clear_route config plan action id kind shown;;; returns true
  else
    do! present := lift (of_result (let* routes := parse_document shown in array routes)) in
    needs (bool_decide (present = [])) "refusing pre-existing route";;;
    returns false.

(** The operation on the ledger of a graph that is ready *)
Definition on_ledger (opts : ExecutionOptions) (config : HostConfig) (plan resolved action : Value) (kind : string)
    : Run Z :=
  let id := x_scenario_action opts in
  let clearing := String.eqb (x_action opts) "scenario-clear" in
  do! state := current in
  let record := action_record id (actions state) in
  if String.eqb (x_action opts) "scenario-status" then
    lift (sys_call (Print (match record with Some a => a_status a | None => "not-run" end +:+ Process.newline)));;;
    returns 0
  else
    needs (negb clearing || String.eqb kind "fault" || is_route kind) "clear is only valid for faults and manual routes";;;
    needs (match record with Some a => negb (String.eqb (a_status a) "pending") | None => true end)
      "incomplete action; inspect recovery state before retry";;;
    (if String.eqb kind "credential-rotate" then returns tt else check_network opts config);;;
    lift checkpoint;;;
    if String.eqb kind "fault" && clearing then clear_scenario_fault id;;; returns 0
    else
      do! cleared := (if is_route kind then route_action config plan action id kind clearing else returns false) in
      if (cleared : bool) then returns 0 else run_action opts config resolved action id kind;;; returns 0.

(** The configuration of the compiled graph, as far as it is used here *)
Definition scenario_config (resolved : Value) : result HostConfig :=
  let* id := text_at resolved "graph_id" in
  let* network := at_ resolved "network" in
  let* network := resolved_network network in
  Ok {| config_version := 3; config_id := id; infrastructure := network; configured_faults := [];
        project := "graphx-" +:+ id; services := []; resolved_graph := resolved |}.

Definition operations : list string := ["scenario-plan"; "scenario-run"; "scenario-status"; "scenario-clear"].

(** The plan read back is the plan of the graph; the selected action of it *)
Definition checked_plan (opts : ExecutionOptions) (resolved : Value) : Prog (HostConfig * Value * option Value) := (
  let! plan := read (slash (x_output opts) "scenario-plan.json") in
  let! config := of_result (scenario_config resolved) in
  let! planned := of_result (at_ plan "actions") in
  let! credentials := read (slash (x_output opts) "credentials.json") in
  let! entries := of_result (at_ credentials "entries") in
  let authored := obj [("scenario", obj [("actions", planned)]); ("credentials", entries)] in
  let! schema := of_result (parse_document authored_schema) in
  let! actions := of_result (array_at plan "actions") in
  for_each_in (fun action _ =>
    let! shape := of_result (let* defs := at_ schema "$defs" in at_ defs "action") in
    of_result (ConfigSchema.validate_shape regex_search to_chars fuel schema action shape "scenario")) actions tt;;;
  let! expected := of_result (Scenario.scenario_plan to_chars stod authored resolved) in
  require (value_eqb expected plan) "scenario plan contract mismatch";;;
  let! action := of_result (find_result (fun v => eq_at v "id" (VStr (x_scenario_action opts))) actions) in
  Ret (config, plan, action))%prog.

Definition print_plan (opts : ExecutionOptions) (plan : Value) (action : option Value) : Prog Z := (
  let! shown := (if is_empty (x_scenario_action opts) then Ret plan
                 else match action with Some a => Ret a | None => throw "E_SCENARIO: unknown action" end) in
  let! text := of_result (config_value_json to_chars shown true) in
  sys_call (Print text);;;
  Ret 0)%prog.

Definition in_ledger {A} (s : OwnershipState) (p : Run A) : Prog A := (let! r := p s in of_result r.2)%prog.

(** A selected action: its conditions, the lock and the ledger *)
Definition selected_action (opts : ExecutionOptions) (config : HostConfig) (plan resolved action : Value) (kind : string)
    : Prog Z := (
  require (negb (String.eqb kind "external-simulator"))
    "external-simulator requires explicit compile --laboratory selection";;;
  (if String.eqb kind "credential-rotate" then Ret tt
   else
     let! root := (if x_allow_privileged opts then let! user := sys_call Geteuid in Ret (user =? 0) else Ret false) in
     require root "explicit --allow-privileged and local Linux root required");;;
  let root := slash (x_state_root opts) (config_id config) in
  let file := slash root "ownership.yml" in
  safe_execution_path file false;;;
  checked (sys_call (LockExclusive (slash root ".lock")));;;
  let! state := checked (sys_call (Load file)) in
  let! current_hash := (if String.eqb (graph_id state) (config_id config)
                        then let! h := checked (sys_call (Hash (slash (x_output opts) "compile-manifest.json"))) in Ret (Some h)
                        else Ret None) in
  require (match current_hash with
           | Some h => String.eqb (config_hash state) h && String.eqb (status state) "ready"
           | None => false
           end) "matching ready graph required";;;
  let! config := of_result (bind_owned_container_services config state) in
  in_ledger state (on_ledger opts config plan resolved action kind))%prog.

Definition execute_scenario (opts : ExecutionOptions) (resolved : Value) : Prog Z := (
  require (existsb (String.eqb (x_action opts)) operations) "unknown scenario operation";;;
  let! checked_ := checked_plan opts resolved in
  let '(config, plan, action) := checked_ in
  if String.eqb (x_action opts) "scenario-plan" then print_plan opts plan action
  else
    match action with
    | None => throw "E_SCENARIO: --action must select a declared action"
    | Some action =>
        let! kind := of_result (text_at action "action") in
        selected_action opts config plan resolved action kind
    end)%prog.
End Run.
End ScenarioRun.
