(* ===== verification/ScenarioProofs.v ===== *)
(** * Scenario actions: what is done behind which record

    An action acts on the host only while every ledger that a save may have
    left on disk says that it is pending; an action that is pending there is
    not done again. *)

From Stdlib Require Import ZArith Lia Strings.Byte Strings.Ascii Strings.String Floats.SpecFloat.
From stdpp Require Import base option gmap strings list.
From S2P Require Import Prelude ConfigValue ConfigNetwork ConfigNodes Text ResolvedNetwork Yaml OwnershipState Effects Process ProcessProofs Native NativeTheorems.
From S2P Require Import Host Ovs Endpoint Capture Fault LifecycleStatus LifecycleCreate Lifecycle HostProofs LifecycleSteps.
From S2P Require Import Compile Guest GuestProofs ScenarioRun.

Module ScenarioProofs.
Import ConfigValue ConfigNetwork Compile ResolvedNetwork OwnershipState Text Effects Process ProcessProofs Native.
Import Host Fault HostProofs LifecycleProofs LifecycleSteps NativeTheorems ScenarioRun.
Local Open Scope Z_scope.

Abbreviation ev c x := (@Effects.Event sys answer c x).

(** ** Calls *)

Definition saves (c : sys) : bool := match c with Save _ => true | _ => false end.

(** Reading, locking and asking; the routes of a router *)
Definition asks (c : sys) : bool :=
  match c with
  | Cmd argv _ => observing argv || begins ["ip"; "-j"; "route"; "show"] (inside argv)
  | ReadDocument _ _ | Load _ | LockExclusive _ | Geteuid => true
  | _ => match class c with looks => true | _ => false end
  end.

(** Everything else acts on the host. *)
Definition acting (c : sys) : bool := negb (asks c) && negb (saves c).

(** ** Ledgers *)

Definition marks (id : string) (s : OwnershipState) : Prop :=
  exists a, action_record id (actions s) = Some a /\ a_status a = "pending".

(** There was a save, and every ledger that the saves may have left on disk
    marks the action as pending: a save that throws may have published. *)
Fixpoint pending_saved (id : string) (h : list Event) : Prop :=
  match h with
  | [] => False
  | Effects.Event c x :: h =>
      match c as c return answer c -> Prop with
      | Save s => fun x => match x with Ok _ => marks id s | Throw _ => marks id s /\ pending_saved id h end
      | _ => fun _ => pending_saved id h
      end x
  end.

Lemma pending_cons id h c x : saves c = false -> pending_saved id h -> pending_saved id (ev c x :: h).
Proof. by destruct c. Qed.
Lemma pending_save id h s x : marks id s -> pending_saved id h -> pending_saved id (ev (Save s) x :: h).
Proof. destruct x; cbn; tauto. Qed.

Lemma record_changed id f l : (forall a, a_id (f a) = a_id a) ->
  action_record id (change_record id f l) = f <$> action_record id l.
Proof.
  intros Hf. induction l as [|a l IH]; [done|]. cbn [change_record action_record List.find].
  destruct (String.eqb (a_id a) id) eqn:E; cbn [List.find]; [by rewrite Hf, E|by rewrite E].
Qed.

Lemma record_pushed id kind stat l : action_record id l = None ->
  action_record id (l ++ [{| a_id := id; a_kind := kind; a_status := stat; a_identity := "" |}]) =
    Some {| a_id := id; a_kind := kind; a_status := stat; a_identity := "" |}.
Proof.
  unfold action_record. induction l as [|a l IH]; cbn [app List.find]; [cbn; by rewrite String.eqb_refl|].
  destruct (String.eqb (a_id a) id); [done|]. by intros H; apply IH.
Qed.

Lemma marks_identity id identity s : marks id s -> marks id (on_record id (with_identity identity) s).
Proof.
  intros (a & Ha & Hs). exists (with_identity identity a). split; [|done].
  cbn [actions on_record set_actions rebuild]. by rewrite record_changed, Ha.
Qed.

(** ** Programs that do not save *)

Definition unsaved (c : sys) : Prop := saves c = false.
Abbreviation unsaved_calls := (calls_only unsaved).
Abbreviation unsaved_state := (state_calls unsaved).

Create HintDb unsaved discriminated.

Lemma in_session_calls P {A} s (p : stateful (C := sys) (R := answer) Guest.Session A) : state_calls P p -> calls_only P (Guest.in_session s p).
Proof. intros Hp. apply calls_and_then; [apply Hp|]. intros r. apply calls_of_result. Qed.

Ltac unsaved_step :=
  match goal with
  | |- state_calls _ _ => solve [auto with unsaved nocore]
  | |- state_calls _ (bind_state _ _) => apply state_calls_bind; [|intro]
  | |- state_calls _ (catch_state _ _) => apply state_calls_catch; [|intro]
  | |- state_calls _ (returns _) => apply state_calls_returns
  | |- state_calls _ (raises _) => apply state_calls_raises
  | |- state_calls _ current => apply state_calls_current
  | |- state_calls _ (modify _) => apply state_calls_modify
  | |- state_calls _ (lift _) => apply state_calls_lift
  | |- state_calls _ (Guest.needs _ _) => apply state_calls_lift
  | |- state_calls _ (match ?x with _ => _ end) => destruct x
  | |- calls_only _ _ => solve [auto with unsaved nocore]
  | |- calls_only _ spinning => split; [reflexivity|intros []]
  | |- calls_only _ (Guest.in_session _ _) => apply in_session_calls
  | |- calls_only _ (match ?x with _ => _ end) => destruct x
  | |- _ => quiet_step
  end.
Ltac unsaved_prog := cbv zeta; repeat (unsaved_step; cbv beta zeta).

Lemma unsaved_private {A} (p : Prog A) : calls_only (fun c => quiet c = true) p -> unsaved_calls p.
Proof. apply calls_mono. intros c. by destruct c. Qed.
Lemma unsaved_looking {A} (p : Prog A) : looking p -> unsaved_calls p.
Proof. apply calls_mono. intros c. by destruct c. Qed.

Lemma unsaved_path path absent : unsaved_calls (safe_execution_path path absent).
Proof. apply unsaved_private, quiet_path. Qed.
Lemma unsaved_status r w : unsaved_calls (native_process_status r w).
Proof. apply unsaved_private, quiet_status. Qed.
Lemma unsaved_publish path bytes : unsaved_calls (publish_execution_file path bytes).
Proof. unfold publish_execution_file. unsaved_prog; try apply unsaved_path. Qed.
Lemma unsaved_guest_require b message : unsaved_calls (Guest.require b message).
Proof. unfold Guest.require. unsaved_prog. Qed.
Lemma unsaved_require b message : unsaved_calls (require b message).
Proof. unfold require. unsaved_prog. Qed.
#[export] Hint Resolve unsaved_path unsaved_status unsaved_publish unsaved_guest_require unsaved_require : unsaved.

Lemma unsaved_require_of b message : unsaved_calls (require_of b message).
Proof. unfold require_of. unsaved_prog. Qed.
Lemma unsaved_checkpoint : unsaved_calls checkpoint.
Proof. unfold checkpoint. unsaved_prog. Qed.
Lemma unsaved_call argv input : unsaved_calls (call_with argv input).
Proof. unfold call_with. unsaved_prog. Qed.
#[export] Hint Resolve unsaved_require_of unsaved_checkpoint unsaved_call : unsaved.
Lemma unsaved_called argv : unsaved_calls (call argv).
Proof. apply unsaved_call. Qed.
Lemma unsaved_directory r : unsaved_calls (Guest.verify_guest_directory r).
Proof. unfold Guest.verify_guest_directory. unsaved_prog. Qed.
#[export] Hint Resolve unsaved_called unsaved_directory : unsaved.

(** *** Sessions with guests *)

Section Session.
Context (rounds : nat) (parse_document : string -> result Value) (to_chars : spec_float -> string)
        (decode_block : string -> option string).

Lemma unsaved_check : unsaved_state Guest.check.
Proof. unfold Guest.check. unsaved_prog. Qed.
Hint Resolve unsaved_check : unsaved.

Lemma unsaved_wait fd output : unsaved_state (Guest.wait rounds fd output).
Proof. unfold Guest.wait. induction rounds as [|n IH]; cbn [Guest.wait_in]; unsaved_prog. Qed.
Hint Resolve unsaved_wait : unsaved.

Lemma unsaved_connect name : unsaved_state (Guest.connect rounds name).
Proof.
  unfold Guest.connect. apply state_calls_bind; [done|]. intros s.
  generalize ("/proc/self/fd/" +:+ to_string (Guest.directory s) +:+ "/" +:+ name +:+ ".sock"). intros path. clear name s.
  generalize rounds at 2. intros n.
  induction n as [|n IH]; cbn [Guest.connect_in]; unfold Guest.socket_sealed, Guest.open_stream, Guest.peer_identified; unsaved_prog.
Qed.

Lemma unsaved_out n fd bytes : unsaved_state (Guest.transfer_out rounds n fd bytes).
Proof. revert bytes; induction n as [|n IH]; intros [|c bytes]; cbn [Guest.transfer_out]; unsaved_prog. Qed.
Lemma unsaved_in n fd size bytes : unsaved_state (Guest.transfer_in rounds n fd size bytes).
Proof. revert size bytes; induction n as [|n IH]; intros [|size] bytes; cbn [Guest.transfer_in]; unsaved_prog. Qed.
Hint Resolve unsaved_connect unsaved_out unsaved_in : unsaved.

Lemma unsaved_line n fd line : unsaved_state (Guest.qmp_line rounds n fd line).
Proof. revert line; induction n as [|n IH]; intros line; cbn [Guest.qmp_line]; unsaved_prog. Qed.
Hint Resolve unsaved_line : unsaved.
Lemma unsaved_answer n fd command : unsaved_state (Guest.qmp_answer rounds parse_document n fd command).
Proof. induction n as [|n IH]; cbn [Guest.qmp_answer]; unfold Guest.qmp_receive; unsaved_prog. Qed.
Hint Resolve unsaved_answer : unsaved.
Lemma unsaved_command fd command arguments :
  unsaved_state (Guest.qmp_command rounds parse_document to_chars fd command arguments).
Proof. unfold Guest.qmp_command. unsaved_prog. Qed.
Hint Resolve unsaved_command : unsaved.
Lemma unsaved_serial n fd b serial :
  unsaved_state (Guest.serial_text rounds parse_document to_chars decode_block n fd b serial).
Proof. revert serial; induction n as [|n IH]; intros serial; cbn [Guest.serial_text]; unfold Guest.decoded; unsaved_prog. Qed.
Lemma unsaved_retain process serial : unsaved_calls (Guest.retain process serial).
Proof. unfold Guest.retain. unsaved_prog. Qed.
Hint Resolve unsaved_serial unsaved_retain : unsaved.

Lemma unsaved_inspect process pause :
  unsaved_calls (inspect_guest rounds parse_document to_chars decode_block process pause).
Proof.
  unfold inspect_guest, Guest.inspect_guest, Guest.inspect_session, Guest.qmp_greeted, Guest.pause_and_resume,
    Guest.query_running, Guest.qmp_receive. unsaved_prog.
Qed.
Hint Resolve unsaved_inspect : unsaved.

(** *** Traffic and rotations *)

Lemma unsaved_await_serial n process deadline serial :
  unsaved_calls (await_serial rounds parse_document to_chars decode_block n process deadline serial).
Proof. revert serial; induction n as [|n IH]; intros serial; cbn [await_serial]; unsaved_prog. Qed.
Lemma unsaved_await_token n path token deadline : unsaved_calls (await_token n path token deadline).
Proof. induction n as [|n IH]; cbn [await_token]; unsaved_prog. Qed.
Hint Resolve unsaved_await_serial unsaved_await_token : unsaved.

Lemma unsaved_traffic opts resolved action s :
  unsaved_calls (traffic rounds parse_document to_chars decode_block opts resolved action s).
Proof.
  unfold traffic, guest_traffic, retained_serial, peer_traffic, guest_expectation, captured_packets, packet_file,
    vlan_isolated, probe_connection, expects_pass. unsaved_prog.
Qed.
End Session.

Lemma unsaved_docker process s parse_document : unsaved_calls (docker_owned process s parse_document).
Proof. unfold docker_owned. unsaved_prog. Qed.
Lemma unsaved_identity path : unsaved_calls (directory_identity path).
Proof. unfold directory_identity. unsaved_prog. Qed.
Lemma unsaved_read parse_document path : unsaved_calls (read parse_document path).
Proof. unfold read. unsaved_prog. Qed.
#[export] Hint Resolve unsaved_traffic unsaved_docker unsaved_identity unsaved_read : unsaved.

(** ** Between the two records of an action *)

(** The calls of the removal of a fault *)
Definition clears_fault (c : sys) : Prop :=
  match c with
  | Cmd argv _ => exists interface, argv = delete_qdisc interface
  | Signal _ _ | Waitpid _ | Reap _ | Probe _ => True
  | _ => False
  end.

(** The removal of a route by the plan: the action of the plan that applied
    this route of this router is pending in every ledger that may be on disk. *)
Definition removes_applied (network : NetworkInfrastructureConfig) (plan : Value) (h : list Event) (c : sys) : Prop :=
  exists actions apply owner router route r,
    array_at plan "actions" = Ok actions /\ apply ∈ actions /\
    eq_at apply "action" (VStr "route-apply") = Ok true /\ ConfigValue.text_at apply "id" = Ok owner /\
    ConfigValue.text_at apply "router" = Ok router /\ ConfigValue.text_at apply "destination" = Ok route /\
    find_router network router = Ok r /\
    c = Cmd ["ip"; "netns"; "exec"; namespace_name r; "ip"; "route"; "delete"; route] "" /\
    pending_saved owner h.

(** What may be done on the host: under the pending record of the action; the
    removal of a route under that of the action that applied it; and the removal
    of a fault *)
Definition recorded_with (opts : ExecutionOptions) (network : NetworkInfrastructureConfig) (plan : Value)
    (h : list Event) (c : sys) : Prop :=
  acting c = true ->
  pending_saved (x_scenario_action opts) h
  \/ removes_applied network plan h c
  \/ (x_action opts = "scenario-clear" /\ clears_fault c).

Section Scenario.
Context (rounds fuel : nat) (load_all : string -> option (list Yaml.node)) (conversions : Yaml.Conversions)
        (parse_document : string -> result Value) (to_chars : spec_float -> string)
        (sha256 : string -> string) (show_double : spec_float -> string) (stod : string -> result spec_float)
        (regex_search : string -> string -> bool) (decode_block : string -> option string)
        (authored_schema : string) (opts : ExecutionOptions).
Abbreviation id := (x_scenario_action opts).

(** ** Calls that only ask *)

Definition passive (c : sys) : Prop := acting c = false.
Abbreviation passive_calls := (calls_only passive).

Lemma passive_looking {A} (p : Prog A) : looking p -> passive_calls p.
Proof.
  apply calls_mono. intros c Hc. unfold passive, acting. replace (asks c) with true; [done|].
  destruct c; cbn [class asks] in *; try done. unfold effect_of in Hc. by destruct (observing argv); repeat case_match.
Qed.
Create HintDb passive discriminated.
#[local] Hint Extern 5 (passive_calls _) => apply passive_looking; solve [auto with host nocore] : passive.

Ltac passive_step :=
  match goal with
  | |- calls_only _ _ => solve [auto with passive nocore]
  | |- calls_only _ _ => solve [apply passive_looking; class_prog]
  | |- calls_only _ (match ?x with _ => _ end) => destruct x
  | |- _ => quiet_step
  end.
Ltac passive_prog := cbv zeta; repeat (passive_step; cbv beta zeta).

Lemma passive_require b message : passive_calls (require b message).
Proof. unfold require. passive_prog. Qed.
#[local] Hint Resolve passive_require : passive.
Lemma passive_require_of b message : passive_calls (require_of b message).
Proof. unfold require_of. passive_prog. Qed.
Lemma passive_checkpoint : passive_calls checkpoint.
Proof. unfold checkpoint. passive_prog. Qed.
Lemma passive_path path absent : passive_calls (safe_execution_path path absent).
Proof. unfold safe_execution_path, safe_component. passive_prog. Qed.
#[local] Hint Resolve passive_require_of passive_checkpoint passive_path : passive.
Lemma passive_read path : passive_calls (read parse_document path).
Proof. unfold read. passive_prog. Qed.
#[local] Hint Resolve passive_read : passive.

Lemma passive_show router route : passive_calls (call (show_route router route)).
Proof. unfold call, call_with, show_route. passive_prog. Qed.
#[local] Hint Resolve passive_show : passive.

Lemma passive_plan resolved : passive_calls
  (checked_plan fuel parse_document to_chars stod regex_search authored_schema opts resolved).
Proof. unfold checked_plan. passive_prog. Qed.
Lemma passive_print plan action : passive_calls (print_plan to_chars opts plan action).
Proof. unfold print_plan. passive_prog. Qed.
#[local] Hint Resolve passive_plan passive_print : passive.

Section Plan.
Context (network : NetworkInfrastructureConfig) (plan : Value).
Abbreviation allowed := (recorded_with opts network plan).

Definition underway (h : list Event) (s : OwnershipState) : Prop := pending_saved id h /\ marks id s.
Abbreviation proceeds := (kept allowed underway).

Lemma underway_allowed h c : pending_saved id h -> allowed h c.
Proof. intros Hh _. by left. Qed.

Lemma proceeds_lift {A} (p : Prog A) : unsaved_calls p -> proceeds (lift p).
Proof.
  apply kept_lift_calls. intros s h c [Hh Hs] Hc. split; [by apply underway_allowed|]. intros x.
  split; [by apply pending_cons|done].
Qed.

Lemma proceeds_save : proceeds save.
Proof.
  intros s h [Hh Hs]. unfold save. state_steps. apply swp_lift, wp_and_then. split; [by apply underway_allowed|].
  intros x. apply wp_of_result. by split; [apply pending_save|].
Qed.

Lemma proceeds_modify f : (forall s, actions (f s) = actions s) -> proceeds (modify f).
Proof. intros Hf. apply kept_modify. intros h s [Hh Hs]. split; [done|]. unfold marks. by rewrite Hf. Qed.
Lemma proceeds_identity identity : proceeds (modify (on_record id (with_identity identity))).
Proof. apply kept_modify. intros h s [Hh Hs]. by split; [|apply marks_identity]. Qed.

Ltac proceed_step :=
  match goal with
  | |- kept _ _ save => apply proceeds_save
  | |- kept _ _ (bind_state current _) => apply kept_current; intros ? ? ?
  | |- kept _ _ (bind_state _ _) => apply kept_bind; [|intros ?]
  | |- kept _ _ (returns _) => apply kept_returns
  | |- kept _ _ (raises _) => apply kept_raises
  | |- kept _ _ (modify (on_record _ (with_identity _))) => apply proceeds_identity
  | |- kept _ _ (modify _) => apply proceeds_modify; reflexivity
  | |- kept _ _ (needs _ _) => apply proceeds_lift; unsaved_prog
  | |- kept _ _ (lift _) => apply proceeds_lift; unsaved_prog
  | |- kept _ _ (match ?x with _ => _ end) => destruct x
  end.
Ltac proceed := cbv zeta; repeat (proceed_step; cbv beta zeta).

Lemma proceeds_apply config action : proceeds (apply_route config action id).
Proof. unfold apply_route. proceed. Qed.

Lemma proceeds_inject action : proceeds (inject_fault to_chars show_double stod action id).
Proof.
  unfold inject_fault. proceed. apply kept_create_fault.
  - intros s' h' c [Hh Hs] Hc. split; [by apply underway_allowed|]. intros x. split; [|done].
    apply pending_cons; [|done]. destruct Hc as [[Hc|Hc]|[i Hc]]; [by destruct c..|by subst c].
  - intros owned. unfold register_fault. proceed.
Qed.

Lemma proceeds_identify created : proceeds (modify (identify_last created)).
Proof. apply proceeds_modify. intros s. unfold identify_last. by destruct (last (processes s)). Qed.

Lemma proceeds_rotate resolved action : proceeds (rotate_credential parse_document to_chars sha256 opts resolved action id).
Proof.
  unfold rotate_credential, rotate_native, rotate_container. proceed; apply proceeds_identify.
Qed.

Lemma proceeds_perform config resolved action kind :
  proceeds (perform_action rounds parse_document to_chars sha256 show_double stod decode_block opts config resolved action id kind).
Proof.
  unfold perform_action. repeat case_match; [apply proceeds_apply|apply proceeds_inject|proceed|apply proceeds_rotate|proceed].
Qed.

(** ** Around the records *)

Abbreviation passes := (kept allowed (fun _ (_ : OwnershipState) => True)).

Lemma allowed_passive h c : acting c = false -> allowed h c.
Proof. intros Hc Ha. congruence. Qed.

Lemma passes_lift {A} (p : Prog A) : passive_calls p -> passes (lift p).
Proof. apply kept_lift_calls. intros s h c _ Hc. split; [by apply allowed_passive|done]. Qed.

Ltac pass_step :=
  match goal with
  | |- kept _ _ _ => solve [auto with passes nocore]
  | |- kept _ _ (bind_state current _) => apply kept_current; intros ? ? ?
  | |- kept _ _ (bind_state _ _) => apply kept_bind; [|intros ?]
  | |- kept _ _ (returns _) => apply kept_returns
  | |- kept _ _ (raises _) => apply kept_raises
  | |- kept _ _ (LifecycleStatus.raise _) => apply kept_raises
  | |- kept _ _ (modify _) => by apply kept_modify
  | |- kept _ _ (for_each_state _ _) => apply kept_for_each; intros
  | |- kept _ _ (needs _ _) => apply passes_lift; passive_prog
  | |- kept _ _ (lift _) => apply passes_lift; passive_prog
  | |- kept _ _ (match ?x with _ => _ end) => destruct x
  end.
Ltac pass := cbv zeta; repeat (pass_step; cbv beta zeta).

Create HintDb passes discriminated.

Lemma passes_save : passes save.
Proof. unfold save. pass. Qed.
Lemma passes_lifecycle_save : passes LifecycleStatus.save.
Proof. unfold LifecycleStatus.save. pass. Qed.
#[local] Hint Resolve passes_save passes_lifecycle_save : passes.

Lemma passes_recover_namespaces : passes LifecycleStatus.recover_namespaces.
Proof. unfold LifecycleStatus.recover_namespaces, LifecycleStatus.recover_namespace. pass. Qed.
Lemma passes_recover_bridge name : passes (Lifecycle.recover_bridge name).
Proof. unfold Lifecycle.recover_bridge. pass. Qed.
Lemma passes_recover_endpoint e : passes (Lifecycle.recover_endpoint e).
Proof. unfold Lifecycle.recover_endpoint. pass. Qed.
#[local] Hint Resolve passes_recover_namespaces passes_recover_bridge passes_recover_endpoint : passes.

Lemma passes_network config : passes
  (check_network load_all conversions parse_document to_chars sha256 show_double opts config).
Proof.
  unfold check_network, Lifecycle.execute_ovs_lifecycle, Lifecycle.destroy_action.
  cbn [LifecycleStatus.validate_only lifecycle_context]. pass.
Qed.
#[local] Hint Resolve passes_network : passes.

(** *** The records themselves *)

Lemma swp_save s h (Q : list Event -> OwnershipState -> result unit -> Prop) :
  Q (ev (Save s) (Ok tt) :: h) s (Ok tt) -> (forall e, Q (ev (Save s) (Throw e) :: h) s (Throw e)) ->
  swp allowed save s h Q.
Proof.
  intros H1 H2. unfold save. state_steps. apply swp_lift, wp_and_then. split; [by apply allowed_passive|].
  intros [[]|e]; apply wp_of_result; auto.
Qed.

Lemma swp_passes {A} (p : stateful (C := sys) (R := answer) OwnershipState A) s h Q :
  passes p -> (forall h s r, Q h s r) -> swp allowed p s h Q.
Proof. intros Hp HQ. eapply swp_mono; [|by apply Hp]. intros; apply HQ. Qed.

Lemma begin_pends kind s h :
  swp allowed (begin_action id kind) s h
    (fun h s r => match r with Ok _ => underway h s | Throw _ => True end).
Proof.
  unfold begin_action. state_steps.
  eapply (swp_mono _ _ _ _ (fun _ s r => match r with Ok _ => marks id s | Throw _ => True end)).
  - intros h' s' [[]|e]; [|done]. intros Hm. apply swp_save; [|done]. by split; [|done].
  - destruct (action_record id (actions s)) as [a|] eqn:E.
    + apply swp_bind. eapply (swp_mono _ _ _ _ (fun _ s' r => s' = s)).
      * intros h' s' [[]|e]; [|done]. intros ->. state_steps. exists (settled "pending" a). split; [|done].
        cbn [actions on_record set_actions rebuild]. rewrite record_changed, E; [|done]. done.
      * apply swp_lift. unfold require. by destruct (_ || _).
    + state_steps. exists {| a_id := id; a_kind := kind; a_status := "pending"; a_identity := "" |}. split; [|done].
      cbn [actions push_action set_actions rebuild]. by rewrite record_pushed.
Qed.

Lemma swp_proceeds {A} (p : stateful (C := sys) (R := answer) OwnershipState A) s h Q :
  proceeds p -> underway h s -> (forall h s r, underway h s -> Q h s r) -> swp allowed p s h Q.
Proof. intros Hp Hs HQ. eapply swp_mono; [|by apply Hp]. intros h' s' r. apply HQ. Qed.

Lemma passes_run config resolved action kind : passes
  (run_action rounds parse_document to_chars sha256 show_double stod decode_block opts config resolved action id kind).
Proof.
  intros s h _. unfold run_action. apply swp_bind. eapply swp_mono; [|apply begin_pends].
  intros h1 s1 [[]|e]; [|done]. intros H1.
  apply swp_bind. eapply swp_proceeds; [apply proceeds_lift; unsaved_prog|exact H1|]. clear H1. intros h2 s2 [[]|e] H2; [|done].
  apply swp_bind. eapply swp_proceeds; [apply proceeds_perform|exact H2|]. clear H2. intros h3 s3 [[]|e] H3; [|done].
  apply (kept_bind allowed (fun _ _ => True)); [|intros ?; pass|done]. pass.
Qed.

(** *** Routes and faults *)

Lemma deletes_command router route command :
  route_command network router route true = Ok command ->
  exists r, find_router network router = Ok r /\
    command = ["ip"; "netns"; "exec"; namespace_name r; "ip"; "route"; "delete"; route].
Proof.
  unfold route_command. destruct (find_router network router) as [r|e]; [|done]. cbn [bind].
  destruct (router_kind r); [|done]. destruct (List.find _ _) as [x|] eqn:Hx; [|done]. intros [= <-].
  apply List.find_some in Hx as [_ ->%String.eqb_eq]. by exists r.
Qed.

Lemma same_text v key w s : Guest.same_at v key w key = Ok true -> ConfigValue.text_at w key = Ok s -> ConfigValue.text_at v key = Ok s.
Proof.
  unfold Guest.same_at, ConfigValue.text_at. intros H Hw. apply bind_ok in H as (a & -> & H). apply bind_ok in H as (b & Hb & [= H]).
  rewrite Hb in Hw. cbn [bind] in *. destruct b; try done. injection Hw as <-. destruct a; try done.
  cbn in H. apply String.eqb_eq in H. by subst.
Qed.

(** The action that applied the route of an action is one of the plan. *)
Lemma applying_spec action apply router route :
  applying_action plan action = Ok (Some apply) -> ConfigValue.text_at action "router" = Ok router ->
  ConfigValue.text_at action "destination" = Ok route ->
  exists actions, array_at plan "actions" = Ok actions /\ apply ∈ actions /\
    eq_at apply "action" (VStr "route-apply") = Ok true /\ ConfigValue.text_at apply "router" = Ok router /\
    ConfigValue.text_at apply "destination" = Ok route.
Proof.
  unfold applying_action. intros H Hr Hd. apply bind_ok in H as (actions & Ha & [Hin Hp]%ConfigNodesProofs.find_result_elem).
  apply ConfigNodesProofs.and_result_true in Hp as [Hk [H1 H2]%ConfigNodesProofs.and_result_true]. exists actions.
  split_and!; try done; by eapply same_text.
Qed.

Lemma wp_call argv h (Q : list Event -> result string -> Prop) :
  allowed h (Cmd argv "") -> (forall h r, Q h r) -> wp allowed (call argv) h Q.
Proof.
  intros Ha HQ. unfold call, call_with, checked. do 2 apply wp_and_then. split; [done|]. intros [r|e]; [|apply HQ].
  cbn [of_result wp]. apply wp_and_then. unfold require. case_match; apply HQ.
Qed.

Lemma passes_clear_route config action kind shown :
  infrastructure config = network -> passes (clear_route config plan action id kind shown).
Proof.
  intros Hnet. unfold clear_route. intros s h _. apply swp_bind, swp_lift, wp_of_result.
  destruct (applying_action plan action) as [[apply|]|e] eqn:Happly; [|done..].
  apply swp_bind, swp_lift, wp_of_result. destruct (ConfigValue.text_at apply "id") as [owner|e] eqn:Howner; [|done].
  state_steps. apply swp_lift. unfold require. destruct (is_complete _ && _) eqn:E; [|done]. cbn [wp]. state_steps.
  apply swp_save; [|done]. set (h1 := ev _ _ :: h).
  assert (pending_saved owner h1) as H1.
  { apply andb_prop in E as [Hc _]. destruct (action_record owner (actions s)) as [a|] eqn:Ha; [|done].
    exists (with_status "pending" a). split; [|done]. cbn [actions on_record set_actions rebuild].
    by rewrite record_changed, Ha. }
  clearbody h1. apply swp_bind. apply swp_lift, wp_of_result. destruct (bind _ _) as [command|e] eqn:Hcommand; [|done].
  apply swp_bind, swp_lift, wp_call.
  - intros _. right. left. rewrite Hnet in Hcommand. apply bind_ok in Hcommand as (router & Hrouter & Hcommand).
    apply bind_ok in Hcommand as (route & Hroute & (r & Hr & ->)%deletes_command).
    destruct (applying_spec _ _ _ _ Happly Hrouter Hroute) as (l & Hl & Hin & Hk & H2 & H3).
    by exists l, apply, owner, router, route, r.
  - intros h2 [x|e]; [|done]. apply swp_passes; [pass|done].
Qed.

Lemma passes_observe config action : passes (observe_route config action).
Proof. unfold observe_route. pass. Qed.
#[local] Hint Resolve passes_clear_route passes_observe passes_run : passes.

Lemma passes_route config action kind clearing : infrastructure config = network ->
  passes (route_action parse_document config plan action id kind clearing).
Proof. intros Hnet. unfold route_action. pass. Qed.
#[local] Hint Resolve passes_route : passes.

Lemma clearing_looking {A} (p : Prog A) : looking p -> calls_only (fun c => passive c \/ clears_fault c) p.
Proof. intros Hp. eapply calls_mono; [|by apply passive_looking]. by left. Qed.

Lemma clearing_fault f : calls_only (fun c => passive c \/ clears_fault c) (clear_fault f).
Proof.
  assert (forall pid start kind, calls_only (fun c => passive c \/ clears_fault c) (Capture.stop_owned_process pid start kind)) as Hstop.
  { intros pid start kind. unfold Capture.stop_owned_process.
    repeat first [apply clearing_looking; solve [auto with host nocore] | apply calls_call; right; exact I | class_step]. }
  unfold clear_fault.
  repeat first [apply Hstop | apply clearing_looking; solve [auto with host nocore] | class_step].
  apply calls_succeeds. right. eexists. reflexivity.
Qed.

Lemma passes_clear_fault : x_action opts = "scenario-clear" -> passes (clear_scenario_fault id).
Proof.
  intros Hclear. unfold clear_scenario_fault. repeat first [progress cbv beta zeta | match goal with
    | |- kept _ _ (lift (clear_fault _)) =>
        apply (kept_lift_calls _ _ (fun c => passive c \/ clears_fault c)); [|apply clearing_fault];
        intros s' h' c _ [Hc|Hc]; (split; [|done]); [by apply allowed_passive|intros _; by right; right]
    end | pass_step].
Qed.

Lemma passes_ledger config resolved action kind : infrastructure config = network -> passes
  (on_ledger rounds load_all conversions parse_document to_chars sha256 show_double stod decode_block opts config plan
     resolved action kind).
Proof.
  intros Hnet. unfold on_ledger. cbv zeta. destruct (String.eqb (x_action opts) "scenario-clear") eqn:E.
  - apply String.eqb_eq in E. pose proof (passes_clear_fault E) as Hclear. repeat (apply Hclear || pass_step).
  - rewrite andb_false_r. pass.
Qed.

Lemma wp_passive {A} (p : Prog A) h : passive_calls p -> wp allowed p h (fun _ _ => True).
Proof.
  intros Hp. apply (wp_calls passive allowed (fun _ => True)); [done| |done].
  intros h' c _ Hc. split; [by apply allowed_passive|done].
Qed.

Lemma wp_passive_then {A B} (p : Prog A) (f : A -> Prog B) h :
  passive_calls p -> (forall a h, wp allowed (f a) h (fun _ _ => True)) -> wp allowed (and_then p f) h (fun _ _ => True).
Proof.
  intros Hp Hf. apply wp_and_then. eapply wp_mono; [|by apply wp_passive]. intros h' [a|e] _; [apply Hf|done].
Qed.

Lemma bound_network config s config' :
  Endpoint.bind_owned_container_services config s = Ok config' -> infrastructure config' = infrastructure config.
Proof.
  unfold Endpoint.bind_owned_container_services. destruct (negb _); [done|].
  destruct (fold_result _ _ _); [|done]. by intros [= <-].
Qed.

(** What follows the plan of the graph *)
Lemma rest_recorded config resolved action h : infrastructure config = network ->
  wp allowed (if String.eqb (x_action opts) "scenario-plan" then print_plan to_chars opts plan action
              else match action with
                   | None => throw "E_SCENARIO: --action must select a declared action"
                   | Some action =>
                       let! kind := of_result (ConfigValue.text_at action "action") in
                       selected_action rounds load_all conversions parse_document to_chars sha256 show_double stod decode_block
                         opts config plan resolved action kind
                   end)%prog h (fun _ _ => True).
Proof.
  intros Hnet. unfold selected_action.
  repeat first
    [ match goal with |- wp _ (and_then (of_result (Endpoint.bind_owned_container_services config ?s)) _) _ _ =>
        apply wp_and_then, wp_of_result; destruct (Endpoint.bind_owned_container_services config s) as [bound|] eqn:Hbound end
    | apply wp_passive_then; [solve [passive_prog]|intros]
    | match goal with |- wp _ (match ?x with _ => _ end) _ _ => destruct x end
    | apply wp_passive; solve [passive_prog] ]; [|done].
  apply bound_network in Hbound. apply wp_and_then. eapply wp_mono; [|apply passes_ledger; [congruence|done]].
  intros h' [[s r]|e]; [|done]. intros _. by apply wp_of_result.
Qed.
End Plan.

(** *** The whole run *)

Abbreviation scenario := (execute_scenario rounds fuel load_all conversions parse_document to_chars sha256 show_double
  stod regex_search decode_block authored_schema opts).

(** The file of the plan was read, and says this. *)
Definition planned (plan : Value) (h : list Event) : Prop :=
  exists bytes, ev (ReadDocument (slash (x_output opts) "scenario-plan.json") 4194304) (Ok bytes) ∈ h /\
    parse_document bytes = Ok plan.

(** What may be done, for the plan and the network of the graph *)
Definition recorded (resolved : Value) (h : list Event) (c : sys) : Prop :=
  acting c = true ->
  pending_saved id h
  \/ (exists config plan, scenario_config resolved = Ok config /\ planned plan h /\
        removes_applied (infrastructure config) plan h c)
  \/ (x_action opts = "scenario-clear" /\ clears_fault c).

Lemma recorded_passive resolved h c : passive c -> recorded resolved h c.
Proof. intros Hc Ha. congruence. Qed.

Lemma planned_goes plan h h' : goes h h' -> planned plan h -> planned plan h'.
Proof. intros Hg (bytes & He & Hp). exists bytes. split; [by eapply GuestProofs.elem_goes|done]. Qed.

(** A program that only asks, with what its calls show *)
Lemma wp_asking {A} resolved (p : Prog A) h Q : passive_calls p -> wp any p h Q ->
  wp (recorded resolved) p h (fun h' r => goes h h' /\ Q h' r).
Proof.
  intros Hp HQ. eapply wp_weaken; [|apply wp_and; [apply (wp_calls passive (recorded resolved) (goes h)); [done| |apply goes_refl]|exact HQ]].
  - by intros h' c [H _].
  - intros h' c Hg Hc. split; [by apply recorded_passive|]. intros x. by apply goes_cons.
Qed.

Lemma read_spec path h : wp any (read parse_document path) h (fun h' r =>
  forall v, r = Ok v -> exists bytes, ev (ReadDocument path 4194304) (Ok bytes) ∈ h' /\ parse_document bytes = Ok v).
Proof.
  unfold read. apply wp_and_then. eapply wp_mono; [|apply ProcessProofs.path_lstats].
  intros h1 [[]|e] _; [|done]. unfold checked. do 2 apply wp_and_then. split; [done|]. intros [bytes|e]; [|done].
  cbn [of_result wp]. apply wp_of_result. intros v Hv. exists bytes. split; [by left|done].
Qed.

Lemma any_grows {A} (p : Prog A) h : wp any p h (fun h' _ => goes h h').
Proof. eapply wp_weaken; [|apply (GuestProofs.wp_goes p h), goes_refl]. done. Qed.

(** The plan is the one that was read, the network that of the graph. *)
Lemma plan_spec resolved h : wp any
  (checked_plan fuel parse_document to_chars stod regex_search authored_schema opts resolved) h (fun h' r =>
  match r with Ok (config, plan, _) => planned plan h' /\ scenario_config resolved = Ok config | Throw _ => True end).
Proof.
  unfold checked_plan. apply wp_and_then. eapply wp_mono; [|apply read_spec].
  intros h1 [plan|e] Hread; [|done]. specialize (Hread plan eq_refl). fold (planned plan h1) in Hread.
  apply wp_and_then, wp_of_result. destruct (scenario_config resolved) as [config|e] eqn:Hconfig; [|done].
  repeat (apply wp_and_then; eapply wp_mono; [|apply any_grows];
    let h' := fresh "h" in let Hg := fresh in intros h' [?|?] Hg; [eapply planned_goes in Hread; [|exact Hg]|done]).
  done.
Qed.

Lemma scenario_recorded resolved h : wp (recorded resolved) (scenario resolved) h (fun _ _ => True).
Proof.
  unfold execute_scenario. apply wp_and_then. eapply wp_mono; [|apply wp_asking; [passive_prog|apply any_grows]].
  intros h1 [[]|e] _; [|done]. apply wp_and_then.
  eapply wp_mono; [|apply wp_asking; [apply passive_plan|apply plan_spec]].
  intros h2 [[[config plan] action]|e] [_ Hplan]; [|done]. destruct Hplan as [Hplan Hconfig].
  eapply wp_weaken; [|eapply wp_mono; [|apply wp_and; [apply (GuestProofs.wp_goes _ h2), goes_refl|by apply (rest_recorded (infrastructure config) plan config)]]].
  - intros h' c [Hg Hc] Ha. destruct (Hc Ha) as [H|[H|H]]; [by left| |by right; right].
    right. left. exists config, plan. split; [done|]. split; [by eapply planned_goes|done].
  - done.
Qed.

(** C13: A scenario action acts on the host only while every ledger that may be
    on disk says that the action is pending.  Two removals are the exception:
    that of a route, which needs that such ledgers say so of the action of the
    plan that was read which applied this route of this router, and that of a
    fault, by [scenario-clear] alone. *)
Theorem effects_recorded resolved l1 c x l2 :
  reaches (scenario resolved) (l1 ++ ev c x :: l2) -> acting c = true ->
  pending_saved id (rev l1)
  \/ (exists config plan, scenario_config resolved = Ok config /\ planned plan (rev l1) /\
        removes_applied (infrastructure config) plan (rev l1) c)
  \/ (x_action opts = "scenario-clear" /\ clears_fault c).
Proof.
  intros Hr. pose proof (wp_reaches _ _ _ _ _ _ _ _ (scenario_recorded resolved []) Hr) as H.
  rewrite app_nil_r in H. exact H.
Qed.

(** ** Actions that are pending *)

(** The ledger that a run began with *)
Fixpoint first_load (h : list Event) : option OwnershipState :=
  match h with
  | [] => None
  | e :: h => match first_load h with Some s => Some s | None => loaded e end
  end.

Definition changing : Prop := x_action opts = "scenario-run" \/ x_action opts = "scenario-clear".
Definition idle (c : sys) : bool := asks c && negb (saves c).
Definition refused (h : list Event) (c : sys) : Prop :=
  match first_load h with Some s => marks id s -> changing -> idle c = true | None => idle c = true end.
Definition refusal {A} (h : list Event) (r : result A) : Prop :=
  forall s, first_load h = Some s -> marks id s -> changing -> exists e, r = Throw e.

Definition prepares (c : sys) : bool := idle c && match c with Load _ => false | _ => true end.
Abbreviation preparing := (calls_only (fun c => prepares c = true)).

Lemma first_load_cons h c x : prepares c = true -> first_load h = None -> first_load (ev c x :: h) = None.
Proof. intros Hc Hh. cbn [first_load]. rewrite Hh. by destruct c. Qed.

Lemma first_load_app h h' s : first_load h = Some s -> first_load (h' ++ h) = Some s.
Proof. intros Hs. induction h' as [|e h' IH]; [done|]. cbn [app first_load]. by rewrite IH. Qed.

Lemma wp_preparing {A} (p : Prog A) h :
  preparing p -> first_load h = None -> wp refused p h (fun h _ => first_load h = None).
Proof.
  intros Hp Hh. apply (wp_calls (fun c => prepares c = true) refused (fun h => first_load h = None)); [done| |done].
  intros h' c Hh' Hc. split; [|intros x; by apply first_load_cons].
  unfold refused. rewrite Hh'. by apply andb_prop in Hc as [Hc _].
Qed.

Lemma wp_before {A B} (p : Prog A) (f : A -> Prog B) h :
  preparing p -> first_load h = None ->
  (forall a h, first_load h = None -> wp refused (f a) h refusal) -> wp refused (and_then p f) h refusal.
Proof.
  intros Hp Hh Hf. apply wp_and_then. eapply wp_mono; [|by apply wp_preparing].
  intros h' [a|e] Hh'; [by apply Hf|]. intros s Hs. congruence.
Qed.

Lemma wp_anything {A} (p : Prog A) h s : first_load h = Some s -> ~ (marks id s /\ changing) -> wp refused p h refusal.
Proof.
  intros Hs Hno. revert h Hs; induction p as [a|e|c k IH]; intros h Hs; cbn [wp].
  - intros s' Hs' Hm Hc. rewrite Hs in Hs'. injection Hs' as <-. by destruct Hno.
  - intros s' _ _ _. by exists e.
  - split; [unfold refused; rewrite Hs; intros Hm Hc; by destruct Hno|]. intros x. apply IH. cbn [first_load]. by rewrite Hs.
Qed.

Lemma marks_dec s : marks id s \/ ~ marks id s.
Proof.
  unfold marks. destruct (action_record id (actions s)) as [a|]; [|right; by intros (? & ? & ?)].
  destruct (decide (a_status a = "pending")) as [Ha|Ha]; [left; by exists a|right; by intros (? & [= <-] & ?)].
Qed.

Lemma changing_dec : changing \/ ~ changing.
Proof.
  unfold changing. destruct (decide (x_action opts = "scenario-run")); [tauto|].
  destruct (decide (x_action opts = "scenario-clear")); tauto.
Qed.

(** With a ledger that marks the action, nothing is called. *)
Lemma ledger_refused s config plan resolved action kind : marks id s -> changing ->
  exists e, in_ledger s (on_ledger rounds load_all conversions parse_document to_chars sha256 show_double stod decode_block
    opts config plan resolved action kind) = Fail e.
Proof.
  intros (a & Ha & Hs) Hc. unfold in_ledger, on_ledger.
  assert (String.eqb (x_action opts) "scenario-status" = false) as E by (by destruct Hc as [->| ->]).
  unfold bind_state, current. cbn [and_then fst snd]. rewrite E, Ha, Hs. cbn [String.eqb Ascii.eqb Bool.eqb negb].
  unfold needs, require, lift. destruct (negb _ || _ || _); cbn; by eexists.
Qed.

Ltac preparing_prog :=
  unfold checked_plan, print_plan, read, require, safe_execution_path, safe_component; repeat quiet_step.

Lemma refusal_here h e : refusal (A := Z) h (Throw e).
Proof. intros s Hs Hm Hc. by exists e. Qed.

Lemma loaded_refused plan resolved action kind config s h :
  first_load h = Some s ->
  wp refused (and_then (if String.eqb (graph_id s) (config_id config)
                        then and_then (checked (sys_call (Hash (slash (x_output opts) "compile-manifest.json")))) (fun h => Ret (Some h))
                        else Ret None) (fun current_hash =>
    and_then (require (match current_hash with
                       | Some h => String.eqb (config_hash s) h && String.eqb (status s) "ready"
                       | None => false
                       end) "matching ready graph required") (fun _ =>
    and_then (of_result (Endpoint.bind_owned_container_services config s)) (fun config =>
    in_ledger s (on_ledger rounds load_all conversions parse_document to_chars sha256 show_double stod decode_block
      opts config plan resolved action kind))))) h refusal.
Proof.
  intros Hs. destruct (marks_dec s) as [Hm|Hm]; [|apply (wp_anything _ _ s); [done|tauto]].
  destruct changing_dec as [Hc|Hc]; [|apply (wp_anything _ _ s); [done|tauto]].
  apply wp_and_then. eapply (wp_mono _ _ _ (fun _ _ => True)).
  - intros h' [current_hash|e] _; [|apply refusal_here]. apply wp_and_then. unfold require.
    destruct (match current_hash with Some _ => _ | None => _ end); cbn [wp]; [|apply refusal_here].
    destruct (Endpoint.bind_owned_container_services config s) as [config'|e]; cbn [of_result and_then wp]; [|apply refusal_here].
    edestruct (ledger_refused s config' plan resolved action kind Hm Hc) as [e ->]. apply refusal_here.
  - destruct (String.eqb _ _); [|done]. split; [unfold refused; by rewrite Hs|]. by intros [x|e].
Qed.

Lemma scenario_refused resolved : wp refused (scenario resolved) [] refusal.
Proof.
  assert (first_load [] = None) as H by done. revert H. generalize (@nil Event). intros h H.
  unfold execute_scenario.
  repeat first
    [ apply wp_before; [solve [preparing_prog]|done|clear dependent h; intros ? h H]
    | match goal with |- wp _ (match ?x with _ => _ end) _ _ => destruct x end
    | eapply wp_mono; [|apply wp_preparing; [solve [preparing_prog]|exact H]]; intros h' r Hr s Hs; congruence ].
  unfold checked at 1. apply wp_and_then, wp_and_then. split; [unfold refused; by rewrite H|]. intros [s|e]; cbn [of_result wp].
  - apply loaded_refused. cbn [first_load]. by rewrite H.
  - apply refusal_here.
Qed.

(** C22: When the ledger that a run begins with marks the action as pending, the
    run only asks: it saves nothing and does nothing on the host, and it ends
    with an exception. *)
Theorem pending_refused resolved l r s :
  runs (scenario resolved) l r -> first_load (rev l) = Some s -> marks id s -> changing ->
  (exists e, r = Throw e) /\ Forall (fun e => idle (e_call e) = true) l.
Proof.
  intros Hr Hs Hm Hc. split.
  - pose proof (wp_runs _ _ _ _ _ _ (scenario_refused resolved) Hr) as H. rewrite app_nil_r in H. by apply (H s).
  - apply Forall_forall. intros [c x] Hin. apply list_elem_of_split in Hin as (l1 & l2 & ->).
    pose proof (wp_reaches _ _ _ _ _ _ _ _ (scenario_refused resolved) (runs_reaches _ _ _ Hr)) as H.
    rewrite app_nil_r in H. unfold refused in H. cbn [e_call].
    destruct (first_load (rev l1)) as [s'|] eqn:E; [|done]. apply H; [|done].
    rewrite rev_app_distr in Hs. cbn [rev] in Hs. rewrite <-app_assoc in Hs.
    rewrite (first_load_app _ _ s' (first_load_app _ [_] _ E)) in Hs. by injection Hs as <-.
Qed.
End Scenario.

(** ** Examples: the rotation of a credential *)

Definition rotation : Value :=
  obj [("id", VStr "r1"); ("action", VStr "credential-rotate"); ("credential", VStr "old"); ("next", VStr "new");
       ("grace_seconds", VInt 30)].
Definition credential : Value :=
  obj [("provider", VStr "lab-generated"); ("identity", VStr "radio"); ("members", VArr [VStr "hmac"])].
Definition rotation_plan : Value :=
  obj [("version", VInt 1); ("implicit_start", VBool false); ("baseline_config", VStr "resolved.json");
       ("actions", VArr [rotation])].

(** Every document has its path as its text. *)
Definition rotation_document (path : string) : result Value :=
  if ends_with path "scenario-plan.json" then Ok rotation_plan
  else if ends_with path "credentials.json" then Ok (obj [("entries", obj [("new", credential); ("old", credential)])])
  else Ok (obj [("$defs", obj [("action", obj [])])]).

Definition rotation_graph : Value :=
  obj [("graph_id", VStr "g"); ("nodes", VArr []); ("connections", VArr []);
       ("platform", obj [("telemetry", obj [("host", VStr "127.0.0.1")])]);
       ("network", obj [("networks", VArr []); ("switches", VArr []); ("routers", VArr []); ("attachments", VArr []);
                        ("captures", VArr []); ("edge_paths", obj [])])].

Definition rotation_options : ExecutionOptions :=
  {| x_action := "scenario-run"; x_scenario_action := "r1"; x_allow_privileged := false; x_owner_token := "";
     x_output := "/out"; x_state_root := "/state"; x_release := "/release"; x_credentials := "";
     x_images := ""; x_external_credentials := "" |}.

Definition rotation_ledger (records : list OwnedScenarioAction) : OwnershipState :=
  rebuild empty_state records "/state/g/credentials" "8:9" "hash" "g" "token" "ready" ∅ ∅ "" 0 0
    [OwnershipState.process_identity "native" "platform" "42" "77" ("/release/node" +:+ Process.newline +:+ "digest") "" ""].

Definition rotation_host (records : list OwnedScenarioAction) (h : list Event) (c : sys) : option (answer c) :=
  match c as c return option (answer c) with
  | Cmd _ _ => Some (Ok {| c_status := 0; c_exec_error := 0; c_output := ""; c_output_truncated := false |})
  | ReadDocument path _ => Some (Ok path)
  | Load _ => Some (Ok (rotation_ledger records))
  | Hash path => Some (Ok (if ends_with path "/node" then "digest" else "hash"))
  | Lstat path => Some (lstat_found (sample_directory (if ends_with path "credentials" then file_directory else file_regular) 1))
  | ReadFile _ => Some ""
  | ReadExe _ => Some "/release/node"
  | ReadStat _ => Some sample_stat
  | Waitpid _ => Some None
  | LockExclusive _ | LockCreate _ | Save _ => Some (Ok tt)
  | Interrupted => Some false
  | Print _ => Some tt
  | _ => None
  end.

Definition rotation_program : Prog Z :=
  execute_scenario 3 9 (fun _ => None) {| Yaml.as_string := fun _ => None; Yaml.as_int := fun _ => None;
      Yaml.as_unsigned := fun _ _ => None; Yaml.as_bool := fun _ => None; Yaml.as_double := fun _ => None;
      Yaml.show_int := to_string; Yaml.show_bool := fun _ => ""; Yaml.show_double := fun _ => "" |}
    rotation_document (fun _ => "0") (fun s => s) (fun _ => "0") (fun _ => Ok (S754_zero false)) (fun _ _ => true)
    (fun s => Some s) "" rotation_options rotation_graph.

Definition rotation_run (records : list OwnedScenarioAction) : list Event * option (result Z) :=
  simulate (rotation_host records) rotation_program [].

(** The run up to the lock of the credentials *)
Definition locks (c : sys) : bool := match c with LockCreate _ => true | _ => false end.
Definition rotation_start : list Event :=
  take (index_of locks (rotation_run []).1) (rotation_run []).1.

Lemma effects_recorded_witness :
  pending_saved "r1" (rev rotation_start)
  \/ (exists config plan, scenario_config rotation_graph = Ok config /\
        planned rotation_document rotation_options plan (rev rotation_start) /\
        removes_applied (infrastructure config) plan (rev rotation_start) (LockCreate "/state/g/credentials/.lock"))
  \/ ("scenario-run" = "scenario-clear" /\ clears_fault (LockCreate "/state/g/credentials/.lock")).
Proof.
  assert (reaches rotation_program (rotation_start ++ ev (LockCreate "/state/g/credentials/.lock") (Ok tt)
            :: drop (S (length rotation_start)) (rotation_run []).1)) as H.
  { match goal with |- reaches _ ?l => replace l with (rotation_run []).1 by (vm_compute; reflexivity) end.
    apply (simulate_reaches (rotation_host [])). }
  eapply (effects_recorded _ _ _ _ _ _ _ _ _ _ _ _ rotation_options rotation_graph rotation_start); [exact H|reflexivity].
Defined.

Definition pending_record : OwnedScenarioAction :=
  {| a_id := "r1"; a_kind := "credential-rotate"; a_status := "pending"; a_identity := "" |}.

Lemma pending_refused_witness :
  (exists e, default (Ok 0) (rotation_run [pending_record]).2 = Throw e)
  /\ Forall (fun e => idle (e_call e) = true) (rotation_run [pending_record]).1.
Proof.
  assert (runs rotation_program (rotation_run [pending_record]).1 (default (Ok 0) (rotation_run [pending_record]).2)) as H
    by (apply (simulate_runs (rotation_host [pending_record])); vm_compute; reflexivity).
  eapply (pending_refused _ _ _ _ _ _ _ _ _ _ _ _ rotation_options rotation_graph _ _ (rotation_ledger [pending_record])).
  - exact H.
  - vm_compute. reflexivity.
  - exists pending_record. split; reflexivity.
  - left. reflexivity.
Defined.
End ScenarioProofs.
