(* ===== verification/Command.v ===== *)
(** * Running commands (src/src/infra/command_runner.cpp, src/src/infra.cpp)

    [run_command] forks a child with pipes for its input and its output, moves
    bytes until both are closed, and waits for it.  Parent and child are
    programs over the system calls they make; an answer is whatever the kernel
    may say, an interruption included.  Descriptors are closed by their owners,
    which is no call of the model.  Behind them: the plans of commands with their
    rollback, over commands as calls. *)

From Stdlib Require Import ZArith Lia Strings.Byte Strings.Ascii Strings.String.
From stdpp Require Import base option strings list.
From S2P Require Import Prelude ConfigRender Text Effects Process Native.

Module Command.
Import Text Effects.
Local Open Scope Z_scope.

(** ** Calls of the parent *)

Inductive moved (A : Type) := moves (a : A) | move_interrupted | move_broken | move_failed.
Arguments moves {A} a.
Arguments move_interrupted {A}.
Arguments move_broken {A}.
Arguments move_failed {A}.

Inductive waiting := child_running | child_ended (status : Z) | wait_interrupted | wait_failed.
Inductive polled := poll_interrupted | poll_failed | poll_ready (input output : bool).

Inductive command_call :=
  | MakePipe | SetCloseOnExec
  | ForkChild                            (** the pid of the child *)
  | Sigpending                           (** whether SIGPIPE is pending *)
  | BlockSigpipe | RestoreSignals        (** [pthread_sigmask]: its status *)
  | Sigwait
  | Cancelled                            (** [cancellation_requested], where there is one *)
  | Clock                                (** milliseconds *)
  | PollPipes (input output : bool)      (** for 50 milliseconds; the descriptors that are open *)
  | WriteInput (bytes : string)          (** [write] to the pipe; broken is [EPIPE] *)
  | ReadOutput (size : Z)
  | WaitChild (pid : Z)                  (** [waitpid] with [WNOHANG] *)
  | KillChild (pid : Z)
  | ReapChild (pid : Z)                  (** [waitpid] *)
  | SleepMs (milliseconds : Z)
  | ReadExecError (size : Z)
  | Rounds.                              (** a loop went through all rounds of the model *)

Definition command_answer (c : command_call) : Type :=
  match c with
  | MakePipe | SetCloseOnExec | Cancelled => bool
  | ForkChild => option Z
  | Sigpending => option bool
  | BlockSigpipe | RestoreSignals | Clock => Z
  | Sigwait | KillChild _ | SleepMs _ => unit
  | PollPipes _ _ => polled
  | WriteInput _ => moved Z
  | ReadOutput _ | ReadExecError _ => moved string
  | WaitChild _ | ReapChild _ => waiting
  | Rounds => Empty_set
  end.

Abbreviation CommandProg := (prog command_call command_answer).
Notation "'let!' x ':=' p 'in' k" := (and_then p (fun x => k))
  (at level 200, x pattern, p at level 100, k at level 200) : command_scope.
Notation "p ;;; k" := (and_then p (fun _ => k))
  (at level 100, k at level 200, right associativity) : command_scope.
Delimit Scope command_scope with command.
#[local] Open Scope command_scope.

Definition do_call (c : command_call) : CommandProg (command_answer c) := call c.
Definition fails {A} (operation : string) : CommandProg A := Fail (RuntimeError operation).
Definition out_of_rounds {A} : CommandProg A :=
  let! x := do_call Rounds in match (x : Empty_set) with end.

(** ** Options and result *)

Record CommandOptions := {
  arguments : list string; standard_input : string; capture_output : bool; output_limit : Z;
  trim_trailing_newlines : bool; timeout_ms : Z; cancellable : bool; merge_standard_error : bool }.

Record CommandResult := {
  status : Z; termination_signal : Z; exec_error : Z; output : string; output_truncated : bool }.

Definition default_output_limit : Z := 64 * 1024.
Definition plain_options (argv : list string) : CommandOptions :=
  {| arguments := argv; standard_input := ""; capture_output := false; output_limit := default_output_limit;
     trim_trailing_newlines := true; timeout_ms := 0; cancellable := false; merge_standard_error := false |}.

(** ** The transfer *)

(** The pipes that are open, the input that is left, and the output so far *)
Record Transfer := { input_open : bool; output_open : bool; unsent : string; kept : string; truncated : bool }.

Definition close_input (t : Transfer) : Transfer :=
  {| input_open := false; output_open := output_open t; unsent := unsent t; kept := kept t; truncated := truncated t |}.
Definition close_output (t : Transfer) : Transfer :=
  {| input_open := input_open t; output_open := false; unsent := unsent t; kept := kept t; truncated := truncated t |}.
Definition sent (n : Z) (t : Transfer) : Transfer :=
  {| input_open := input_open t; output_open := output_open t; unsent := sdrop (Z.to_nat n) (unsent t); kept := kept t;
     truncated := truncated t |}.

(** What was read is kept up to the limit. *)
Definition keep (limit : Z) (bytes : string) (t : Transfer) : Transfer :=
  let available := if Z.of_nat (String.length (kept t)) <? limit then limit - Z.of_nat (String.length (kept t)) else 0 in
  let count := Z.min available (Z.of_nat (String.length bytes)) in
  {| input_open := input_open t; output_open := output_open t; unsent := unsent t;
     kept := kept t +:+ stake (Z.to_nat count) bytes;
     truncated := truncated t || negb (count =? Z.of_nat (String.length bytes)) |}.

Definition check_cancelled (cancellable : bool) : CommandProg unit :=
  let! cancelled := (if cancellable then do_call Cancelled else Ret false) in
  if cancelled : bool then fails "E_INTERRUPTED: command interrupted" else Ret tt.

(** No deadline is the end of time. *)
Definition check_deadline (deadline : option Z) : CommandProg unit :=
  let! now := do_call Clock in
  if match deadline with Some d => d <=? now | None => false end
  then fails "E_COMMAND_TIMEOUT: command exceeded deadline" else Ret tt.

Fixpoint poll_pipes (rounds : nat) (t : Transfer) : CommandProg (bool * bool) :=
  match rounds with
  | O => out_of_rounds
  | S rounds =>
      let! ready := do_call (PollPipes (input_open t) (output_open t)) in
      match ready with
      | poll_interrupted => poll_pipes rounds t
      | poll_failed => fails "poll"
      | poll_ready input output => Ret (input, output)
      end
  end.

Definition write_input (t : Transfer) : CommandProg Transfer :=
  let! count := do_call (WriteInput (unsent t)) in
  match count with
  | moves n =>
      let t := if 0 <? n then sent n t else t in
      Ret (if (n <=? 0) || String.eqb (unsent t) "" then close_input t else t)
  | move_interrupted | move_broken => Ret (close_input t)
  | move_failed => fails "write child input"
  end.

Definition read_output (limit : Z) (t : Transfer) : CommandProg Transfer :=
  let! bytes := do_call (ReadOutput 4096) in
  match bytes with
  | moves bytes => Ret (if String.eqb bytes "" then close_output t else keep limit bytes t)
  | move_interrupted => Ret t
  | _ => fails "read child output"
  end.

Fixpoint transfer_io (rounds : nat) (limit : Z) (deadline : option Z) (cancellable : bool) (t : Transfer)
    : CommandProg Transfer :=
  if negb (input_open t || output_open t) then Ret t
  else
    match rounds with
    | O => out_of_rounds
    | S rounds' =>
        check_cancelled cancellable;;;
        check_deadline deadline;;;
        let! ready := poll_pipes rounds t in
        let! t := (if input_open t && fst ready then write_input t else Ret t) in
        let! t := (if output_open t && snd ready then read_output limit t else Ret t) in
        transfer_io rounds' limit deadline cancellable t
    end.

(** ** Signals of a broken pipe *)

(** [SigpipeBlock] around a program *)
Definition blocking_sigpipe {A} (enabled : bool) (p : CommandProg A) : CommandProg A :=
  if negb enabled then p
  else
    let! pending := do_call Sigpending in
    match pending with
    | None => fails "sigpending"
    | Some was_pending =>
        let! blocked := do_call BlockSigpipe in
        if negb (blocked =? 0) then fails "pthread_sigmask"
        else
          let! outcome := attempt p in
          (if was_pending : bool then Ret tt
           else
             let! pending := do_call Sigpending in
             match pending with Some true => do_call Sigwait | _ => Ret tt end);;;
          let! _ := do_call RestoreSignals in
          of_result outcome
    end.

(** ** Waiting *)

(** [wait_for] with [WNOHANG]: the status, or -1 *)
Fixpoint wait_for (rounds : nat) (pid : Z) : CommandProg Z :=
  match rounds with
  | O => out_of_rounds
  | S rounds =>
      let! waited := do_call (WaitChild pid) in
      match waited with
      | child_ended status => Ret status
      | child_running => Ret (-1)
      | wait_interrupted => wait_for rounds pid
      | wait_failed => fails "waitpid"
      end
  end.

Fixpoint await_child (rounds : nat) (pid : Z) (deadline : option Z) (cancellable : bool) : CommandProg Z :=
  match rounds with
  | O => out_of_rounds
  | S rounds' =>
      let! status := wait_for rounds pid in
      if negb (status =? -1) then Ret status
      else
        check_cancelled cancellable;;;
        check_deadline deadline;;;
        do_call (SleepMs 10);;;
        await_child rounds' pid deadline cancellable
  end.

(** The destructor of [ChildGuard]: the child is killed, and waited for *)
Fixpoint reap (rounds : nat) (pid : Z) : CommandProg unit :=
  match rounds with
  | O => out_of_rounds
  | S rounds =>
      let! waited := do_call (ReapChild pid) in
      match waited with wait_interrupted => reap rounds pid | _ => Ret tt end
  end.

Definition guarding {A} (rounds : nat) (pid : Z) (p : CommandProg A) : CommandProg A :=
  catch p (fun e => do_call (KillChild pid);;; reap rounds pid;;; Fail e).

(** ** What the child reports *)

Definition signed_int (n : Z) : Z := if n <? 2 ^ 31 then n else n - 2 ^ 32.

(** The bytes of an [int] that arrived: its value, or 0 if the pipe ended before *)
Fixpoint read_exec_error (rounds : nat) (read : string) : CommandProg Z :=
  if (4 <=? String.length read)%nat then
    Ret (signed_int (fold_right (fun c n => Z.of_N (N_of_ascii c) + 256 * n) 0 (list_ascii_of_string read)))
  else
    match rounds with
    | O => out_of_rounds
    | S rounds =>
        let! bytes := do_call (ReadExecError (4 - Z.of_nat (String.length read))) in
        match bytes with
        | moves EmptyString => Ret 0
        | moves bytes => read_exec_error rounds (read +:+ stake (4 - String.length read) bytes)
        | move_interrupted => read_exec_error rounds read
        | _ => fails "read exec status"
        end
    end.

Definition WTERMSIG (status : Z) : Z := Z.land status 127.

Definition is_line_end (c : ascii) : bool := bool_decide (c = "010"%char) || bool_decide (c = "013"%char).

(** Without the line ends at its end *)
Fixpoint trim_lines (s : string) : string :=
  match s with
  | EmptyString => EmptyString
  | String c s =>
      match trim_lines s with
      | EmptyString => if is_line_end c then EmptyString else String c EmptyString
      | s => String c s
      end
  end.

Definition result_of (options : CommandOptions) (t : Transfer) (wait_status error : Z) : CommandResult :=
  let signal := if Native.WIFEXITED wait_status then 0
                else if Native.WIFSIGNALED wait_status then WTERMSIG wait_status else 0 in
  {| status := if Native.WIFEXITED wait_status then Native.WEXITSTATUS wait_status
               else if Native.WIFSIGNALED wait_status then 128 + signal else 1;
     termination_signal := signal; exec_error := error;
     output := if trim_trailing_newlines options then trim_lines (kept t) else kept t;
     output_truncated := truncated t |}.

(** ** [run_command] *)

Definition demand_call (c : CommandProg bool) (operation : string) : CommandProg unit :=
  let! done := c in if done : bool then Ret tt else fails operation.

(** The parent behind the fork *)
Definition attend_child (rounds : nat) (options : CommandOptions) (pid : Z) : CommandProg (Transfer * Z) :=
  let! now := (if timeout_ms options =? 0 then Ret 0 else do_call Clock) in
  let deadline := if timeout_ms options =? 0 then None else Some (now + timeout_ms options) in
  let feeding := negb (String.eqb (standard_input options) "") in
  let! t := blocking_sigpipe feeding
              (transfer_io rounds (output_limit options) deadline (cancellable options)
                 {| input_open := feeding; output_open := capture_output options; unsent := standard_input options;
                    kept := ""; truncated := false |}) in
  let! wait_status := await_child rounds pid deadline (cancellable options) in
  Ret (t, wait_status).

Definition run_command (rounds : nat) (options : CommandOptions) : CommandProg CommandResult :=
  match arguments options with
  | [] => Fail (InvalidArgument "command argv must not be empty")
  | _ =>
      (if String.eqb (standard_input options) "" then Ret tt else demand_call (do_call MakePipe) "pipe");;;
      (if capture_output options then demand_call (do_call MakePipe) "pipe" else Ret tt);;;
      demand_call (do_call MakePipe) "pipe";;;
      demand_call (do_call SetCloseOnExec) "fcntl FD_CLOEXEC";;;
      let! child := do_call ForkChild in
      match child with
      | None => fails "fork"
      | Some pid =>
          let! attended := guarding rounds pid (attend_child rounds options pid) in
          let '(t, wait_status) := attended in
          let! error := read_exec_error rounds "" in
          Ret (result_of options t wait_status error)
      end
  end.

(** ** The child *)

Inductive child_call :=
  | DupInput | DupOutput | DupError      (** [dup2] onto 0, 1 and 2: an error, or none *)
  | Execvp (argv : list string)          (** its error, when it returns *)
  | ReportError (error : Z)
  | ExitChild (status : Z)
  | Setsid | OpenNull                    (** whether a descriptor was opened *)
  | OpenDiagnostic (path : string)
  | DupNull (descriptor : Z) | DupDiagnostic
  | CloseOthers.                         (** all descriptors from 3 but the one of the report *)

Definition child_answer (c : child_call) : Type :=
  match c with
  | DupInput | DupOutput | DupError | OpenNull | OpenDiagnostic _ | DupNull _ | DupDiagnostic => option Z
  | Execvp _ => Z
  | ReportError _ | Setsid | CloseOthers => unit
  | ExitChild _ => Empty_set
  end.

Abbreviation ChildProg := (prog child_call child_answer).
Definition child_do (c : child_call) : ChildProg (child_answer c) := call c.
Definition exit_child {A} (status : Z) : ChildProg A :=
  let! x := child_do (ExitChild status) in match (x : Empty_set) with end.

Definition report_and_exit {A} (error status : Z) : ChildProg A := child_do (ReportError error);;; exit_child status.

(** A call that must not fail *)
Definition or_report (p : ChildProg (option Z)) : ChildProg unit :=
  let! error := p in match error with Some e => report_and_exit e 126 | None => Ret tt end.

Definition ENOENT : Z := 2.

Definition exec_or_report (argv : list string) : ChildProg unit :=
  let! error := child_do (Execvp argv) in
  report_and_exit error (if error =? ENOENT then 127 else 126).

Definition run_child (options : CommandOptions) : ChildProg unit :=
  (if String.eqb (standard_input options) "" then Ret tt else or_report (child_do DupInput));;;
  (if capture_output options then or_report (child_do DupOutput) else Ret tt);;;
  let! unmerged := (if merge_standard_error options then child_do DupError else Ret None) in
  match unmerged with
  | Some _ => exit_child 126
  | None => exec_or_report (arguments options)
  end.

(** ** [spawn_background] *)

Definition EIO : Z := 5.
Definition or_eio (e : Z) : Z := if e =? 0 then EIO else e.

Definition detach_child_io (diagnostic_path : string) : ChildProg unit :=
  child_do Setsid;;;
  let! failed := (let! e := child_do OpenNull in
                  match e with Some e => Ret (Some e) | None =>
                    let! e := child_do (DupNull 0) in
                    match e with Some e => Ret (Some e) | None => child_do (DupNull 1) end end) in
  match failed with
  | Some e => report_and_exit (or_eio e) 126
  | None =>
      (if String.eqb diagnostic_path "" then or_report (child_do (DupNull 2))
       else
         let! failed := (let! e := child_do (OpenDiagnostic diagnostic_path) in
                         match e with Some e => Ret (Some e) | None => child_do DupDiagnostic end) in
         match failed with Some e => report_and_exit (or_eio e) 126 | None => Ret tt end);;;
      child_do CloseOthers
  end.

Definition run_background_child (argv : list string) (diagnostic_path : string) : ChildProg unit :=
  detach_child_io diagnostic_path;;; exec_or_report argv.

(** The pid of the child and the error of its [exec] *)
Definition spawn_background (rounds : nat) (argv : list string) : CommandProg (Z * Z) :=
  match argv with
  | [] => Fail (InvalidArgument "command argv must not be empty")
  | _ =>
      demand_call (do_call MakePipe) "pipe";;;
      demand_call (do_call SetCloseOnExec) "fcntl FD_CLOEXEC";;;
      let! child := do_call ForkChild in
      match child with
      | None => fails "fork"
      | Some pid => let! error := read_exec_error rounds "" in Ret (u32 pid, error)
      end
  end.

(** ** [format_arguments] *)

Definition needs_quotes (argument : string) : bool :=
  existsb (fun c => bool_decide (c ∈ [" "%char; "009"%char; "'"%char; "034"%char])) (list_ascii_of_string argument).

Fixpoint quoted (argument : string) : string :=
  match argument with
  | EmptyString => EmptyString
  | String c argument => (if bool_decide (c = "'"%char) then "'\''" else String c EmptyString) +:+ quoted argument
  end.

Definition format_argument (argument : string) : string :=
  if needs_quotes argument then "'" +:+ quoted argument +:+ "'" else argument.

Definition format_arguments (arguments : list string) : string :=
  fold_left (fun result argument =>
    (if String.eqb result "" then result else result +:+ " ") +:+ format_argument argument) arguments "".
End Command.

(** * Commands: nothing is lost, and no child is left

    A child that was forked has ended or was killed and waited for, whatever
    the calls answered.  The output is what was read, up to the limit; the input
    was written in order, and completely unless a write was cut short. *)

Module CommandProofs.
Import Text ConfigRender Effects Command.
Local Open Scope Z_scope.
#[local] Open Scope command_scope.

Abbreviation Event := (event command_answer).
Abbreviation ev c x := (@Effects.Event command_call command_answer c x).

(** ** The bytes of a history, its last event first *)

Definition got (e : Event) : string :=
  match e with
  | Effects.Event c x =>
      match c as c return command_answer c -> string with
      | ReadOutput _ => fun x => match x with moves bytes => bytes | _ => "" end
      | _ => fun _ => ""
      end x
  end.
Fixpoint received (h : list Event) : string :=
  match h with [] => "" | e :: h => received h +:+ got e end.

Definition gave (e : Event) : string :=
  match e with
  | Effects.Event c x =>
      match c as c return command_answer c -> string with
      | WriteInput bytes => fun x => match x with moves n => if 0 <? n then stake (Z.to_nat n) bytes else "" | _ => "" end
      | _ => fun _ => ""
      end x
  end.
Fixpoint written (h : list Event) : string :=
  match h with [] => "" | e :: h => written h +:+ gave e end.

(** A write that moved nothing *)
Definition cut (e : Event) : bool :=
  match e with
  | Effects.Event c x =>
      match c as c return command_answer c -> bool with
      | WriteInput _ => fun x => match x with moves n => n <=? 0 | _ => true end
      | _ => fun _ => false
      end x
  end.

Definition moves_bytes (c : command_call) : bool :=
  match c with WriteInput _ | ReadOutput _ => true | _ => false end.

Definition any (_ : list Event) (_ : command_call) : Prop := True.

(** ** Programs that move no bytes, and programs that do not fork *)

Definition forks (c : command_call) : bool := match c with ForkChild => true | _ => false end.

Abbreviation still := (calls_only (fun c => moves_bytes c = false)).
Abbreviation single := (calls_only (fun c => forks c = false)).

Ltac still_step :=
  match goal with
  | |- calls_only _ (and_then _ _) => apply calls_and_then; [|intro]
  | |- calls_only _ (catch _ _) => apply calls_catch; [|intro]
  | |- calls_only _ (attempt _) => apply calls_attempt
  | |- calls_only _ (of_result _) => apply calls_of_result
  | |- calls_only _ (do_call _) => apply calls_call; solve [reflexivity | auto]
  | |- calls_only _ out_of_rounds => split; [solve [reflexivity | auto]|intros []]
  | |- calls_only _ (fails _) => exact I
  | |- calls_only _ (Ret _) => exact I
  | |- calls_only _ (Fail _) => exact I
  | |- calls_only _ (check_cancelled _) => unfold check_cancelled
  | |- calls_only _ (check_deadline _) => unfold check_deadline
  | |- calls_only _ (demand_call _ _) => unfold demand_call
  | |- calls_only _ _ => solve [auto]
  | |- calls_only _ (match ?x with _ => _ end) => destruct x
  end.
Ltac still_prog := repeat still_step.

Section waits.
Context (P : command_call -> Prop) (HP : forall c, moves_bytes c = false -> forks c = false -> P c).

Lemma only_poll n t : calls_only P (poll_pipes n t).
Proof. induction n as [|n IH]; cbn [poll_pipes]; still_prog. Qed.
Lemma only_wait n pid : calls_only P (wait_for n pid).
Proof. induction n as [|n IH]; cbn [wait_for]; still_prog. Qed.
Lemma only_await n pid deadline cancellable : calls_only P (await_child n pid deadline cancellable).
Proof.
  pose proof only_wait as Hw. induction n as [|n IH]; cbn [await_child]; still_prog.
Qed.
Lemma only_error n : forall read, calls_only P (read_exec_error n read).
Proof. induction n as [|n IH]; intros read; cbn [read_exec_error]; still_prog. Qed.
Lemma only_reap n pid : calls_only P (reap n pid).
Proof. induction n as [|n IH]; cbn [reap]; still_prog. Qed.
End waits.

Lemma single_transfer n limit deadline cancellable t : single (transfer_io n limit deadline cancellable t).
Proof.
  assert (forall n t, single (poll_pipes n t)) as Hp by (intros; by apply only_poll).
  revert t; induction n as [|n IH]; intros t; cbn [transfer_io]; unfold write_input, read_output; still_prog.
Qed.
Lemma single_attend n options pid : single (attend_child n options pid).
Proof.
  unfold attend_child, blocking_sigpipe. pose proof single_transfer as Ht.
  assert (forall n pid d c, single (await_child n pid d c)) as Ha by (intros; by apply only_await). still_prog.
Qed.

(** ** The transfer *)

Lemma stake_app_short n (a b : string) : (n <= String.length a)%nat -> stake n (a +:+ b) = stake n a.
Proof.
  revert n; induction a as [|c a IH]; intros [|n] Hn; cbn [String.length] in Hn; cbn [stake]; [by destruct b|lia|done|].
  rewrite sapp_cons. cbn [stake]. rewrite IH; [done|lia].
Qed.
Lemma stake_app_long n (a b : string) : (String.length a <= n)%nat -> stake n (a +:+ b) = a +:+ stake (n - String.length a) b.
Proof.
  revert n; induction a as [|c a IH]; intros n Hn; cbn [String.length] in Hn.
  - rewrite !sapp_empty. f_equal. cbn. lia.
  - destruct n as [|n]; [lia|]. rewrite !sapp_cons. cbn [stake String.length]. rewrite IH by lia. by replace (S n - S (String.length a))%nat with (n - String.length a)%nat by lia.
Qed.
Lemma stake_least n m s : stake (Nat.min n m) s = stake n (stake m s).
Proof.
  revert n m; induction s as [|c s IH]; intros [|n] [|m]; cbn [Nat.min stake]; try done. by rewrite IH.
Qed.

Section transfer.
Context (limit : Z) (Hlimit : 0 <= limit) (input : string).

(** What is kept and what is left, against what was read and written *)
Definition accounted (h : list Event) (t : Transfer) : Prop :=
  kept t = stake (Z.to_nat limit) (received h) /\
  truncated t = (limit <? Z.of_nat (String.length (received h))) /\
  written h +:+ unsent t = input /\
  (input_open t = false -> unsent t = "" \/ List.Exists (fun e => cut e = true) h).

Lemma accounted_still h c x t : moves_bytes c = false -> accounted h t -> accounted (ev c x :: h) t.
Proof.
  intros Hc (H1 & H2 & H3 & H4). unfold accounted. cbn [received written].
  assert (got (ev c x) = "") as -> by by destruct c. assert (gave (ev c x) = "") as -> by by destruct c.
  rewrite !sapp_nil. split_and!; [done..|]. intros Ht. destruct (H4 Ht) as [H|H]; [by left|right; by constructor 2].
Qed.

Lemma wp_still {A} (p : CommandProg A) h t (Q : list Event -> result A -> Prop) :
  still p -> accounted h t -> (forall h r, accounted h t -> Q h r) -> wp any p h Q.
Proof.
  intros Hp Ht HQ. eapply wp_mono; [|apply (wp_calls _ any (fun h => accounted h t) p h Hp); [|done]].
  - intros h' r. apply HQ.
  - intros h' c Hh Hc. split; [done|]. intros x. by apply accounted_still.
Qed.

Definition carries (h : list Event) (r : result Transfer) : Prop :=
  match r with Ok t => accounted h t | Throw _ => True end.

Lemma accounted_keep h t size bytes : accounted h t -> accounted (ev (ReadOutput size) (moves bytes) :: h) (keep limit bytes t).
Proof.
  intros (H1 & H2 & H3 & H4). unfold accounted. cbn [received written got gave keep kept truncated unsent input_open].
  rewrite sapp_nil. rewrite H1, H2. set (a := received h) in *. split_and!; [| |done|].
  - destruct (Z.ltb_spec (Z.of_nat (String.length (stake (Z.to_nat limit) a))) limit) as [Hl|Hl].
    + assert (String.length a < Z.to_nat limit)%nat as Ha.
      { destruct (decide (Z.to_nat limit <= String.length a)%nat) as [Hn|Hn]; [|lia]. rewrite stake_length in Hl; lia. }
      rewrite (stake_all (Z.to_nat limit) a) in * by lia. rewrite stake_app_long by lia. f_equal.
      replace (Z.to_nat (Z.min _ _)) with (Nat.min (Z.to_nat limit - String.length a) (String.length bytes)) by lia.
      rewrite stake_least. by rewrite (stake_all (String.length bytes)).
    + assert (Z.to_nat limit <= String.length a)%nat as Ha.
      { destruct (decide (String.length a < Z.to_nat limit)%nat) as [Hn|Hn]; [rewrite stake_all in Hl; lia|lia]. }
      rewrite stake_app_short by done. replace (Z.to_nat (Z.min _ _)) with 0%nat by lia. cbn [stake]. apply sapp_nil.
  - rewrite sapp_length. destruct (Z.ltb_spec limit (Z.of_nat (String.length a))) as [Hl|Hl]; cbn [orb].
    + symmetry. apply Z.ltb_lt. lia.
    + rewrite (stake_all (Z.to_nat limit) a) by lia.
      apply eq_true_iff_eq. rewrite negb_true_iff, Z.eqb_neq, Z.ltb_lt.
      destruct (Z.ltb_spec (Z.of_nat (String.length a)) limit) as [Hb|Hb]; lia.
  - intros Ht. destruct (H4 Ht) as [H|H]; [by left|right; by constructor 2].
Qed.

Lemma write_carries h t : accounted h t -> wp any (write_input t) h carries.
Proof.
  intros (H1 & H2 & H3 & H4). split; [done|].
  intros [n| | |]; cbn [and_then wp carries]; try done; unfold accounted; cbn [received written got gave].
  2-3: rewrite !sapp_nil; split_and!; cbn [close_input kept truncated unsent]; [done..|]; intros _; right; by constructor 1.
  rewrite sapp_nil. destruct (Z.ltb_spec 0 n) as [Hn|Hn].
  - replace (n <=? 0) with false by lia. cbn [orb].
    assert (written h +:+ stake (Z.to_nat n) (unsent t) +:+ sdrop (Z.to_nat n) (unsent t) = input) as Hw by by rewrite stake_drop.
    destruct (String.eqb _ "") eqn:E; cbn [close_input sent kept truncated unsent input_open]; split_and!; try done.
    + by rewrite <-sapp_assoc.
    + intros _. left. by apply String.eqb_eq.
    + by rewrite <-sapp_assoc.
    + intros Ho. destruct (H4 Ho) as [Hu|Hc]; [|right; by constructor 2]. cbn [unsent sent] in E. rewrite Hu in E. by destruct (Z.to_nat n).
  - replace (n <=? 0) with true by lia. cbn [orb close_input kept truncated unsent]. rewrite sapp_nil. split_and!; [done..|].
    intros _. right. constructor 1. cbn [cut]. lia.
Qed.

Lemma accounted_same h c x t : got (ev c x) = "" -> gave (ev c x) = "" -> accounted h t -> accounted (ev c x :: h) t.
Proof.
  intros Hr Hw (H1 & H2 & H3 & H4). unfold accounted. cbn [received written]. rewrite Hr, Hw, !sapp_nil.
  split_and!; [done..|]. intros Ht. destruct (H4 Ht) as [H|H]; [by left|right; by constructor 2].
Qed.

Lemma read_carries h t : accounted h t -> wp any (read_output limit t) h carries.
Proof.
  intros Ht. split; [done|]. intros [bytes| | |]; cbn [and_then wp carries]; try done.
  - destruct (String.eqb bytes "") eqn:E; [|by apply accounted_keep].
    apply String.eqb_eq in E as ->. by apply accounted_same.
  - by apply accounted_same.
Qed.

Lemma transfer_carries n deadline cancellable : forall h t, accounted h t ->
  wp any (transfer_io n limit deadline cancellable t) h
    (fun h r => match r with Ok t => accounted h t /\ input_open t = false | Throw _ => True end).
Proof.
  induction n as [|n IH]; intros h t Ht; cbn [transfer_io].
  - destruct (negb _) eqn:E; [|by split]. split; [done|]. by destruct (input_open t).
  - destruct (negb _) eqn:E; [split; [done|]; by destruct (input_open t)|].
    apply wp_and_then. eapply wp_still; [still_prog|exact Ht|]. clear h Ht. intros h [[]|e] Ht; [|done].
    apply wp_and_then. eapply wp_still; [still_prog|exact Ht|]. clear h Ht. intros h [[]|e] Ht; [|done].
    apply wp_and_then. eapply wp_still; [by apply only_poll|exact Ht|]. clear h Ht. intros h [ready|e] Ht; [|done].
    apply wp_and_then. eapply (wp_mono _ _ _ carries).
    { clear h Ht. intros h [t'|e] Ht; [|done]. cbn [carries] in Ht.
      apply wp_and_then. eapply (wp_mono _ _ _ carries).
      - intros h' [t2|e] H2; [by apply IH|done].
      - by destruct (_ && _); [apply read_carries|]. }
    by destruct (_ && _); [apply write_carries|].
Qed.

(** Input closed, and everything accounted for *)
Definition settled (h : list Event) (r : result Transfer) : Prop :=
  match r with Ok t => accounted h t /\ input_open t = false | Throw _ => True end.

Lemma blocking_settled enabled p h t0 : accounted h t0 -> (forall h, accounted h t0 -> wp any p h settled) ->
  wp any (blocking_sigpipe enabled p) h settled.
Proof.
  intros Ht Hp. unfold blocking_sigpipe. destruct enabled; cbn [negb]; [|by apply Hp].
  apply wp_and_then. eapply wp_still; [still_prog|exact Ht|]. clear h Ht. intros h [[was|]|e] Ht; try done.
  apply wp_and_then. eapply wp_still; [still_prog|exact Ht|]. clear h Ht. intros h [status|e] Ht; [|done].
  destruct (negb _); [done|]. apply wp_and_then, wp_attempt. eapply wp_mono; [|by apply Hp].
  clear h Ht. intros h r Hr.
  apply wp_and_then. eapply (wp_mono _ _ _ (fun h _ => settled h r)).
  - clear h Hr. intros h [[]|e] Hr; [|done]. split; [done|]. intros x. cbn [and_then]. apply wp_of_result.
    destruct r as [t|e]; [|done]. destruct Hr as [Hr Hc]. by split; [apply accounted_still|].
  - apply (wp_calls (fun c => moves_bytes c = false) any (fun h => settled h r)); [still_prog| |done].
    intros h' c Hh Hc. split; [done|]. intros x. destruct r as [t|e]; [|done]. destruct Hh as [Hh Ho].
    by split; [apply accounted_still|].
Qed.
End transfer.

Section run.
Context (rounds : nat) (options : CommandOptions).
Abbreviation limit := (output_limit options).
Abbreviation input := (standard_input options).

Definition start : Transfer :=
  {| input_open := negb (String.eqb input ""); output_open := capture_output options; unsent := input;
     kept := ""; truncated := false |}.

Lemma start_accounted (h : list Event) : 0 <= limit -> received h = "" -> written h = "" -> accounted limit input h start.
Proof.
  intros Hl Hr Hw. unfold accounted. rewrite Hr, Hw. cbn [start kept truncated unsent input_open String.length].
  split_and!; [by destruct (Z.to_nat limit)|symmetry; apply Z.ltb_ge; lia|done|].
  intros Ho. left. apply negb_false_iff in Ho. by apply String.eqb_eq.
Qed.

(** The result of a run, and what the run moved *)
Definition faithful (h : list Event) (r : result CommandResult) : Prop :=
  match r with
  | Ok r => output r = (if trim_trailing_newlines options then trim_lines else id) (stake (Z.to_nat limit) (received h)) /\
            output_truncated r = (limit <? Z.of_nat (String.length (received h))) /\
            (exists rest, written h +:+ rest = input) /\
            (written h = input \/ List.Exists (fun e => cut e = true) h)
  | Throw _ => True
  end.

Lemma result_faithful h t wait_status error : accounted limit input h t -> input_open t = false ->
  faithful h (Ok (result_of options t wait_status error)).
Proof.
  intros (H1 & H2 & H3 & H4) Ho. cbn [faithful result_of output output_truncated]. rewrite H1. split_and!.
  - by destruct (trim_trailing_newlines options).
  - done.
  - by exists (unsent t).
  - destruct (H4 Ho) as [Hu|Hc]; [left|by right]. by rewrite Hu, sapp_nil in H3.
Qed.

Lemma attend_settled pid h : 0 <= limit -> received h = "" -> written h = "" ->
  wp any (attend_child rounds options pid) h
    (fun h r => match r with Ok (t, _) => accounted limit input h t /\ input_open t = false | Throw _ => True end).
Proof.
  intros Hl Hr Hw. unfold attend_child. pose proof (start_accounted h Hl Hr Hw) as Ht.
  apply wp_and_then. eapply wp_still; [still_prog|exact Ht|]. clear h Hr Hw Ht. intros h [now|e] Ht; [|done].
  apply wp_and_then. eapply (wp_mono _ _ _ (settled limit input)); [|eapply blocking_settled; [exact Ht|]].
  - clear h Ht. intros h [t|e] Ht; [|done]. destruct Ht as [Ht Ho].
    apply wp_and_then. eapply wp_still; [by apply only_await|exact Ht|].
    clear h Ht. by intros h [w|e] Ht.
  - clear h Ht. intros h Ht. by apply transfer_carries.
Qed.

(** C29: When a command returns, its output is what was read from it, up to the
    limit, and is marked as truncated exactly when more was read; what was
    written is a beginning of the input, and all of it unless a write moved
    nothing. *)
Theorem output_faithful l r :
  0 <= limit -> runs (run_command rounds options) l (Ok r) -> faithful (rev l) (Ok r).
Proof.
  intros Hl Hr. assert (wp any (run_command rounds options) [] faithful) as Hwp.
  2: { pose proof (wp_runs _ _ _ _ _ _ Hwp Hr) as H. rewrite app_nil_r in H. exact H. }
  clear l r Hr. unfold run_command. destruct (arguments options); [done|].
  assert (received [] = "" /\ written [] = "") as Hh by done. revert Hh. generalize (@nil Event). intros h Hh.
  assert (forall A (p : CommandProg A) h (Q : list Event -> result A -> Prop), still p -> received h = "" /\ written h = "" ->
    (forall h r, received h = "" /\ written h = "" -> Q h r) -> wp any p h Q) as Hstill.
  { clear. intros A p h Q Hp Hh HQ. eapply wp_mono; [intros h'; exact (HQ h')|].
    apply (wp_calls _ any (fun h => received h = "" /\ written h = "") p h Hp); [|done].
    intros h' c [Hr Hw] Hc. split; [done|]. intros x. cbn [received written]. rewrite Hr, Hw. by destruct c. }
  do 4 (apply wp_and_then; apply Hstill; [still_prog|done|]; clear h Hh; intros h [[]|e] Hh; [|done]).
  apply wp_and_then. apply Hstill; [still_prog|done|]. clear h Hh. intros h [[pid|]|e] [Hr Hw]; try done.
  apply wp_and_then. unfold guarding. apply wp_catch.
  eapply wp_mono; [|by apply attend_settled]. clear h Hr Hw. intros h [[t w]|e].
  - intros [Ht Ho]. apply wp_and_then. eapply wp_still; [by apply only_error|exact Ht|]. clear h Ht.
    intros h [error|e] Ht; [|done]. by apply result_faithful.
  - intros _. eapply (wp_mono _ _ _ (fun _ r => exists e, r = Throw e)); [by intros h' r [e' ->]|].
    split; [done|]. intros []. cbn [and_then]. apply wp_and_then. eapply (wp_mono _ _ _ (fun _ _ => True)).
    + intros h' [[]|e'] _; by eexists.
    + apply (wp_calls (fun c => moves_bytes c = false)); [by apply only_reap|done|done].
Qed.

(** ** No child is left *)

Definition ended (pid : Z) (h : list Event) : Prop := exists status, ev (WaitChild pid) (child_ended status) ∈ h.
Definition killed (pid : Z) (h : list Event) : Prop :=
  ev (KillChild pid) tt ∈ h /\ exists x, ev (ReapChild pid) x ∈ h /\ x <> wait_interrupted.
Definition gone (pid : Z) (h : list Event) : Prop := ended pid h \/ killed pid h.

Lemma gone_cons pid h e : gone pid h -> gone pid (e :: h).
Proof.
  intros [[s H]|[H [x [Hx Hn]]]]; [left; exists s; by right|right]. split; [by right|]. exists x. by split; [right|].
Qed.

(** A program behind which the child is gone *)
Lemma wp_gone {A} pid (p : CommandProg A) h : gone pid h -> wp any p h (fun h _ => gone pid h).
Proof.
  revert h; induction p as [a|e|c k IH]; intros h Hg; [done..|]. split; [done|]. intros x. by apply IH, gone_cons.
Qed.

Lemma reap_gone n pid : forall h, ev (KillChild pid) tt ∈ h -> wp any (reap n pid) h (fun h _ => gone pid h).
Proof.
  induction n as [|n IH]; intros h Hk; cbn [reap]; [by split|]. split; [done|].
  intros x. assert (ev (KillChild pid) tt ∈ ev (ReapChild pid) x :: h) as Hk' by by right.
  cbn [and_then]. destruct x as [|status| |]; [..|by apply IH|]; (right; split; [done|]; eexists; split; [by left|done]).
Qed.

Lemma wait_ended n pid h : wp any (wait_for n pid) h
  (fun h r => match r with Ok status => status <> -1 -> ended pid h | Throw _ => True end).
Proof.
  revert h; induction n as [|n IH]; intros h; cbn [wait_for]; [by split|]. split; [done|].
  intros [|status| |]; cbn [and_then]; [by intros []| |apply IH|done]. intros _. exists status. by left.
Qed.

Lemma await_ended n pid deadline cancellable : forall h, wp any (await_child n pid deadline cancellable) h
  (fun h r => match r with Ok _ => ended pid h | Throw _ => True end).
Proof.
  induction n as [|n IH]; intros h; cbn [await_child]; [by split|].
  apply wp_and_then. eapply wp_mono; [|apply wait_ended]. clear h. intros h [status|e]; [|done]. intros Hs.
  destruct (Z.eqb_spec status (-1)) as [->|Hne]; cbn [negb]; [|by apply Hs].
  assert (forall A (p : CommandProg A) h, wp any p h (fun _ _ => True)) as Hany.
  { clear. intros A p. induction p as [a|e|c k IH]; intros h; [done..|]. split; [done|]. intros x. apply IH. }
  apply wp_and_then. eapply wp_mono; [|apply Hany]. clear h Hs. intros h [[]|e] _; [|done].
  apply wp_and_then. eapply wp_mono; [|apply Hany]. clear h. intros h [[]|e] _; [|done].
  split; [done|]. intros []. apply IH.
Qed.

Definition unforked (h : list Event) : Prop := forall pid, ev ForkChild (Some pid) ∉ h.
Definition forked_gone {A} (h : list Event) (_ : result A) : Prop :=
  forall pid, ev ForkChild (Some pid) ∈ h -> gone pid h.

(** The answer to a fork *)
Definition fork_answer (e : Event) : option Z :=
  match e with
  | Effects.Event c x =>
      match c as c return command_answer c -> option Z with ForkChild => fun x => x | _ => fun _ => None end x
  end.
Lemma fork_answered p x : ev ForkChild (Some p) = ev ForkChild x -> x = Some p.
Proof. intros H. by apply (f_equal fork_answer) in H. Qed.

Lemma unforked_cons h c x : forks c = false -> unforked h -> unforked (ev c x :: h).
Proof. intros Hc Hh pid [H|H]%elem_of_cons; [apply (f_equal e_call) in H; cbn in H; by subst c|by apply (Hh pid)]. Qed.

Lemma wp_unforked {A B} (p : CommandProg A) (f : A -> CommandProg B) h :
  single p -> unforked h -> (forall a h, unforked h -> wp any (f a) h forked_gone) -> wp any (and_then p f) h forked_gone.
Proof.
  intros Hp Hh Hf. apply wp_and_then. eapply (wp_mono _ _ _ (fun h _ => unforked h)).
  - clear h Hh. intros h [a|e] Hh; [by apply Hf|]. intros pid H. by destruct (Hh pid).
  - apply (wp_calls (fun c => forks c = false) any unforked p h Hp); [|done].
    intros h' c Hh' Hc. split; [done|]. intros x. by apply unforked_cons.
Qed.

(** The child of the only fork *)
Definition only_fork (pid : Z) (h : list Event) : Prop := forall p, ev ForkChild (Some p) ∈ h -> p = pid.

Lemma wp_single {A} pid (p : CommandProg A) h (Q : list Event -> result A -> Prop) :
  single p -> only_fork pid h -> wp any p h Q -> wp any p h (fun h r => only_fork pid h /\ Q h r).
Proof.
  intros Hp Hh HQ. eapply wp_weaken; [|apply (wp_and any any p h (fun h _ => only_fork pid h) Q); [|exact HQ]]; [done|].
  apply (wp_calls (fun c => forks c = false) any (only_fork pid) p h Hp); [|done].
  intros h' c Hh' Hc. split; [done|]. intros x q [H|H]%elem_of_cons; [apply (f_equal e_call) in H; cbn in H; by subst c|by apply Hh'].
Qed.

Lemma attend_ended pid h : wp any (attend_child rounds options pid) h
  (fun h r => match r with Ok _ => ended pid h | Throw _ => True end).
Proof.
  assert (forall A (p : CommandProg A) h, wp any p h (fun _ _ => True)) as Hany.
  { clear. intros A p. induction p as [a|e|c k IH]; intros h; [done..|]. split; [done|]. intros x. apply IH. }
  unfold attend_child. do 2 (apply wp_and_then; eapply wp_mono; [|apply Hany]; clear h; intros h [?|e] _; [|done]).
  apply wp_and_then. eapply wp_mono; [|apply await_ended]. by intros h' [w|e].
Qed.

(** C28: Behind every end of [run_command], a return as well as an exception,
    the child that was forked has ended and was waited for, or it was killed and
    waited for. *)
Theorem no_child_left l r pid :
  runs (run_command rounds options) l r -> ev ForkChild (Some pid) ∈ l -> gone pid (rev l).
Proof.
  intros Hr Hf. assert (wp any (run_command rounds options) [] forked_gone) as Hwp.
  2: { pose proof (wp_runs _ _ _ _ _ _ Hwp Hr) as H. rewrite app_nil_r in H. apply H. by apply list_elem_of_In, in_rev; rewrite rev_involutive; apply list_elem_of_In. }
  clear l r pid Hr Hf. unfold run_command. destruct (arguments options); [by intros pid H%elem_of_nil|].
  assert (unforked []) as Hh by by intros pid H%elem_of_nil. revert Hh. generalize (@nil Event). intros h Hh.
  do 4 (apply wp_unforked; [still_prog|done|]; clear h Hh; intros _ h Hh).
  split; [done|]. intros [pid|]; cbn [and_then].
  2: { intros pid [H|H]%elem_of_cons; [by apply fork_answered in H|by destruct (Hh pid)]. }
  set (h1 := ev ForkChild (Some pid) :: h). assert (only_fork pid h1) as H1.
  { intros p [H|H]%elem_of_cons; [apply fork_answered in H; congruence|by destruct (Hh p)]. }
  clearbody h1. apply wp_and_then. unfold guarding. apply wp_catch.
  eapply wp_mono; [|apply (wp_single pid); [apply single_attend|exact H1|apply attend_ended]].
  clear h Hh h1 H1. intros h [[t w]|e] [Hf He].
  - apply wp_and_then. eapply (wp_mono _ _ _ (fun h _ => only_fork pid h /\ gone pid h)).
    + clear h Hf He. intros h [error|e] [Hf Hg]; intros p Hp; by rewrite (Hf p Hp).
    + apply wp_single; [by apply only_error|done|]. apply wp_gone. by left.
  - eapply (wp_mono _ _ _ (fun h r => only_fork pid h /\ gone pid h)).
    { clear h Hf He. intros h [[t w]|e'] [Hf Hg]; [|intros p Hp; by rewrite (Hf p Hp)].
      apply wp_and_then. eapply (wp_mono _ _ _ (fun h _ => only_fork pid h /\ gone pid h)).
      - clear h Hf Hg. intros h [error|e'] [Hf Hg]; intros p Hp; by rewrite (Hf p Hp).
      - apply wp_single; [by apply only_error|done|]. by apply wp_gone. }
    apply wp_single; [|done|].
    + split; [done|]. intros x. still_prog. by apply only_reap.
    + split; [done|]. intros []. cbn [and_then]. apply wp_and_then. eapply wp_mono; [|apply reap_gone; by left].
      by intros h' [[]|e'].
Qed.
End run.

(** ** A write that a signal interrupts *)

Definition feeding (argv : list string) (input : string) : CommandOptions :=
  {| arguments := argv; standard_input := input; capture_output := false; output_limit := default_output_limit;
     trim_trailing_newlines := true; timeout_ms := 0; cancellable := false; merge_standard_error := false |}.

(** The first write is interrupted; everything else succeeds. *)
Definition interrupting (_ : list Event) (c : command_call) : option (command_answer c) :=
  match c as c return option (command_answer c) with
  | MakePipe | SetCloseOnExec => Some true
  | ForkChild => Some (Some 42)
  | Sigpending => Some (Some false)
  | BlockSigpipe | RestoreSignals | Clock => Some 0
  | PollPipes _ _ => Some (poll_ready true true)
  | WriteInput _ => Some move_interrupted
  | WaitChild _ => Some (child_ended 0)
  | ReadExecError _ => Some (moves "")
  | _ => None
  end.

(** A write to the child that a signal interrupts closes its input: the
    command may succeed with nothing of its input written. *)
Theorem interrupted_write_truncates program argv c input :
  exists l r, runs (run_command 2 (feeding (program :: argv) (String c input))) l (Ok r) /\
    status r = 0 /\ exec_error r = 0 /\ written (rev l) = "".
Proof.
  eexists _, _. split; [|split; [|split]].
  - apply (simulate_runs interrupting _ []). reflexivity.
  - reflexivity.
  - reflexivity.
  - reflexivity.
Qed.

(** ** Examples *)

(** A child that prints one line *)
Definition printing (h : list Event) (c : command_call) : option (command_answer c) :=
  match c as c return option (command_answer c) with
  | MakePipe | SetCloseOnExec => Some true
  | ForkChild => Some (Some 42)
  | Clock => Some 0
  | PollPipes _ _ => Some (poll_ready true true)
  | ReadOutput _ => Some (moves (if String.eqb (received h) "" then "line" +:+ String "010" "" else ""))
  | WaitChild _ => Some (child_ended 0)
  | ReadExecError _ => Some (moves "")
  | _ => None
  end.

Definition printer : CommandOptions :=
  {| arguments := ["echo"; "line"]; standard_input := ""; capture_output := true; output_limit := default_output_limit;
     trim_trailing_newlines := true; timeout_ms := 0; cancellable := false; merge_standard_error := false |}.
Definition printed : list Event * option (result CommandResult) := simulate printing (run_command 5 printer) [].
Definition printed_result : CommandResult :=
  {| status := 0; termination_signal := 0; exec_error := 0; output := "line"; output_truncated := false |}.

Lemma output_faithful_witness : 0 <= output_limit printer /\ faithful printer (rev printed.1) (Ok printed_result).
Proof.
  split; [done|]. apply (output_faithful 5); [done|].
  apply (simulate_runs printing (run_command 5 printer) []). vm_compute. reflexivity.
Defined.

Lemma no_child_left_witness : gone 42 (rev printed.1).
Proof.
  apply (no_child_left 5 printer printed.1 (Ok printed_result)).
  - apply (simulate_runs printing (run_command 5 printer) []). vm_compute. reflexivity.
  - apply (list_elem_of_lookup_2 _ 3). vm_compute. reflexivity.
Defined.
End CommandProofs.

(** * Plans of commands (src/src/infra.cpp)

    Commands run in order; the first that fails undoes the others, the last one
    first.  What a rollback would undo is identified again before it. *)

Module CommandPlan.
Import Text Effects OwnershipState Process.
Local Open Scope Z_scope.
#[local] Open Scope prog_scope.

Record InfraCommand := {
  i_arguments : list string; i_standard_input : string; ignore_failure : bool;
  rollback_arguments : list string; rollback_identity_arguments : list string }.

Definition format_command (c : InfraCommand) : string := Command.format_arguments (i_arguments c).

Section Plan.
Context (strerror : Z -> string).

Definition report (text : string) : Prog unit := sys_call (Log ("graphx: " +:+ text +:+ newline)).

(** [run_command] with the status of an exception of the system *)
Definition run_reported (argv : list string) (input : string) : Prog (option CommandResult) :=
  match argv with
  | [] => Fail (InvalidArgument "command argv must not be empty")
  | _ =>
      let! answered := sys_call (Cmd argv input) in
      match answered with
      | Ok r => Ret (Some r)
      | Throw e => report (what e);;; Ret None
      end
  end.

Definition report_exec (r : CommandResult) : Prog unit :=
  if c_exec_error r =? 0 then Ret tt else report ("exec: " +:+ strerror (c_exec_error r)).

Definition execute_command (argv : list string) (input : string) : Prog Z :=
  let! r := run_reported argv input in
  match r with
  | None => Ret 1
  | Some r => report_exec r;;; Ret (c_status r)
  end.

(** Status and output; no output is assigned on an exception *)
Definition capture_command (argv : list string) : Prog (Z * string) :=
  let! r := run_reported argv "" in
  match r with
  | None => Ret (1, "")
  | Some r =>
      if c_output_truncated r then report ("command output exceeded " +:+ to_string Command.default_output_limit +:+ " bytes");;; Ret (1, c_output r)
      else report_exec r;;; Ret (c_status r, c_output r)
  end.

Definition roll_back (c : InfraCommand) : Prog unit :=
  sys_call (Print ("- " +:+ Command.format_arguments (rollback_arguments c) +:+ newline));;;
  let! status := execute_command (rollback_arguments c) "" in
  if status =? 0 then Ret tt
  else report ("rollback command failed with status " +:+ to_string status +:+ ": "
               +:+ Command.format_arguments (rollback_arguments c)).

(** A completed command is undone if what it made is still that. *)
Definition roll_back_completed (item : InfraCommand * string) : Prog unit :=
  let '(c, identity) := item in
  match rollback_identity_arguments c with
  | [] => roll_back c
  | argv =>
      let! observed := capture_command argv in
      if negb (observed.1 =? 0) || negb (String.eqb observed.2 identity)
      then sys_call (Print ("! rollback skipped; resource identity changed: " +:+ format_command c +:+ newline))
      else roll_back c
  end.

(** The last command is undone first. *)
Definition rollback_completed (completed : list (InfraCommand * string)) : Prog unit :=
  for_each_in (fun item _ => roll_back_completed item) (rev completed) tt.

Fixpoint run_plan (commands : list InfraCommand) (dry_run : bool) (completed : list (InfraCommand * string)) : Prog Z :=
  match commands with
  | [] => Ret 0
  | c :: commands =>
      sys_call (Print ("+ " +:+ format_command c +:+ newline));;;
      if dry_run then run_plan commands dry_run completed
      else
        let! status := execute_command (i_arguments c) (i_standard_input c) in
        if negb (status =? 0) && negb (ignore_failure c) then
          report ("command failed with status " +:+ to_string status +:+ ": " +:+ format_command c);;;
          rollback_completed completed;;;
          Ret status
        else if (status =? 0) && negb (bool_decide (rollback_arguments c = [])) then
          match rollback_identity_arguments c with
          | [] => run_plan commands dry_run (completed ++ [(c, "")])
          | argv =>
              let! identity := capture_command argv in
              if identity.1 =? 0 then run_plan commands dry_run (completed ++ [(c, identity.2)])
              else
                report ("failed to identify created resource: " +:+ format_command c);;;
                roll_back c;;;
                rollback_completed completed;;;
                Ret identity.1
          end
        else run_plan commands dry_run completed
  end.

Definition execute_infrastructure_plan (commands : list InfraCommand) (dry_run : bool) : Prog Z :=
  run_plan commands dry_run [].

(** A dry run only prints. *)
Lemma dry_run_prints commands : calls_only (fun c => exists text, c = Print text) (execute_infrastructure_plan commands true).
Proof.
  unfold execute_infrastructure_plan. induction commands as [|c commands IH]; [done|]. cbn [run_plan].
  apply calls_and_then; [split; [by eexists|done]|]. by intros [].
Qed.
End Plan.
End CommandPlan.
