(* ===== verification/Compose.v ===== *)
(** * Running a graph as containers (src/src/infra/compose_execution.cpp)

    [graphx run up | status | down] for a graph whose nodes are containers,
    guests or processes in name spaces.  Containers, networks and volumes are in
    the ledger from before they exist; each is known by its labels and its
    identifier, and is looked up again before it is stopped or removed.

    The program is the one of a Linux build without qualification hooks.  The
    answers of Docker and of the kernel are unrestricted; [Interrupted] is the
    flag that the handlers of signals set. *)

From Stdlib Require Import ZArith Lia Strings.Byte Strings.Ascii Strings.String Floats.SpecFloat.
From stdpp Require Import base option gmap strings list.
From S2P Require Import Prelude ConfigValue ConfigNetwork ConfigGraph Text ResolvedNetwork Yaml OwnershipState Effects Process Native.
From S2P Require Import Host Ovs Endpoint LifecycleStatus Lifecycle Compile CompileOutput Guest ScenarioRun Command.

Module Compose.
Import Compile ResolvedNetwork OwnershipState Text Effects Process Native ConfigValue ConfigNetwork.
Import Host Ovs LifecycleStatus Lifecycle.
Local Open Scope Z_scope.

(** ** Texts and documents *)

(** The occurrences of a key from left to right; the text that is put in is not
    searched again. *)
Fixpoint replace_from (fuel : nat) (key value rest : string) : string :=
  match fuel with
  | O => rest
  | S fuel =>
      match find key rest with
      | None => rest
      | Some pos =>
          stake pos rest +:+ value +:+ replace_from fuel key value (sdrop (pos + String.length key) rest)
      end
  end.
Definition replace_key (text : string) (kv : string * string) : string :=
  replace_from (S (String.length text)) ("${" +:+ kv.1 +:+ "}") kv.2 text.

(** [values] in the order of the keys *)
Definition replace (text : string) (values : list (string * string)) : result string :=
  let text := fold_left replace_key values text in
  match find "${" text with
  | Some _ => Throw (RuntimeError "E_SUBSTITUTION: unresolved Compose field")
  | None => Ok text
  end.

Fixpoint project (value : Value) (values : list (string * string)) : result Value :=
  match value with
  | VStr s => let* s := replace s values in Ok (VStr s)
  | VObj l =>
      let* l :=
        (fix go (l : Object) : result Object :=
           match l with
           | [] => Ok []
           | (key, entry) :: l =>
               let* entry := project entry values in
               let* l := go l in
               Ok ((key, entry) :: l)
           end) l in
      Ok (VObj l)
  | VArr l =>
      let* l :=
        (fix go (l : Array) : result Array :=
           match l with
           | [] => Ok []
           | entry :: l =>
               let* entry := project entry values in
               let* l := go l in
               Ok (entry :: l)
           end) l in
      Ok (VArr l)
  | v => Ok v
  end.

Fixpoint hex_bytes (bytes : string) : string :=
  match bytes with
  | EmptyString => ""
  | String c bytes =>
      String (hex (nat_of_ascii c / 16)) (String (hex (nat_of_ascii c mod 16)) (hex_bytes bytes))
  end.

(** [v[first][second] = item] in an object *)
Definition assign_in (l : Object) (first second : string) (item : Value) : result Object :=
  let* inner := assign (default VNull (find_key first l)) second item in
  Ok (set_key first inner l).

Definition refuse_when (b : result bool) (message : string) : result unit :=
  let* b := b in if (b : bool) then Throw (RuntimeError message) else Ok tt.

(** ** Services *)

Definition service_fields : list string :=
  ["image"; "restart"; "read_only"; "user"; "cap_drop"; "cap_add"; "security_opt"; "tmpfs"; "pids_limit";
   "mem_limit"; "logging"; "entrypoint"; "command"; "environment"; "volumes"; "networks"; "labels"; "ports"].

Definition execution_is (kind : string) (node : Value) : result bool :=
  let* execution := at_ node "execution" in eq_at execution "kind" (VStr kind).

Definition is_recorder (node : Value) : result bool :=
  and_result (eq_at node "type" (VStr "vita.recorder"))
    (and_result (execution_is "container" node) (Ok (contains node "recorder"))).

Definition differs (v : Value) (key : string) (w : Value) : result bool :=
  let* same := eq_at v key w in Ok (negb same).

Definition validate_compose_service_fields (name : string) (service resolved : Value) : result unit :=
  let* fields := object service in
  let* _ := for_each (fun kv : string * Value =>
    if existsb (String.eqb kv.1) service_fields then Ok tt
    else Throw (RuntimeError "E_COMPOSE_SECURITY: unsupported service field")) fields in
  let* nodes := array_at resolved "nodes" in
  let* node := find_by "node_id" (VStr name) nodes in
  let* recorder := match node with Some node => is_recorder node | None => Ok false end in
  refuse_when
    (if (recorder : bool)
     then or_result (Ok (negb (contains service "cap_add"))) (differs service "cap_add" (strings ["NET_RAW"]))
     else Ok (contains service "cap_add"))
    "E_COMPOSE_SECURITY: invalid recorder capability policy".

(** [platform], [prometheus] and [grafana] are no applications. *)
Definition is_application (name : string) : bool :=
  negb (existsb (String.eqb name) ["platform"; "prometheus"; "grafana"]).

Definition integer_outside (v : Value) (key : string) (low high : Z) : result bool :=
  or_result (let* n := integer_at v key in Ok (n <? low)) (let* n := integer_at v key in Ok (high <? n)).

Definition check_boundary (service : Value) : result unit :=
  refuse_when
    (or_result (differs service "cap_drop" (strings ["ALL"]))
    (or_result (differs service "security_opt" (strings ["no-new-privileges:true"]))
    (or_result (integer_outside service "pids_limit" 1 1024)
               (integer_outside service "mem_limit" 1048576 4294967296))))
    "E_COMPOSE_SECURITY: invalid resource boundary".

Definition application_command (name : string) : list string :=
  ["--node"; name; "--config"; "/run/graphx/node.json"; "--release-file"; "/run/graphx/barriers/release";
   "--release-token"; "${GX_OWNER}"].

Definition check_application (types : result Value) (name : string) (service resolved : Value) : result unit :=
  let* nodes := array_at resolved "nodes" in
  let* node := find_by "node_id" (VStr name) nodes in
  match node with
  | None => Throw (RuntimeError "E_COMPOSE_SECURITY: unknown application")
  | Some node =>
      let* types := types in
      let* types := array types in
      let* type := find_result (fun item => let* id := at_ item "id" in eq_at node "type" id) types in
      let* _ := refuse_when
        (match type with
         | None => Ok true
         | Some type =>
             or_result (let* executable := at_ type "executable" in
                        differs service "entrypoint" (VArr [executable]))
                       (differs service "command" (strings (application_command name)))
         end) "E_COMPOSE_SECURITY: application argv does not match fixed template" in
      refuse_when (let* networks := at_ service "networks" in Ok (contains networks "mg-console"))
        "E_COMPOSE_SECURITY: applications cannot join the console network"
  end.

Definition check_service (types : result Value) (images : gmap string string) (resolved : Value)
    (item : string * Value) : result unit :=
  let '(name, service) := item in
  let* _ := validate_compose_service_fields name service resolved in
  let* _ := check_boundary service in
  let* _ := (if is_application name then check_application types name service resolved else Ok tt) in
  let* pin := text_at service "image" in
  let* _ := refuse_when (Ok (negb (bool_decide (is_Some (images !! pin)))
                             && match find "@sha256:" pin with Some _ => false | None => true end))
    "E_RELEASE_IDENTITY: unpinned service" in
  refuse_when
    (or_result (Ok (contains service "privileged" || contains service "build"))
    (or_result (let* only := boolean_at service "read_only" in Ok (negb only))
    (or_result (differs service "user" (VStr "65532:65532")) (differs service "restart" (VStr "no")))))
    "E_COMPOSE_SECURITY: unsupported service policy".

Definition check_network (item : string * Value) : result unit :=
  let network := item.2 in
  let* fields := object network in
  let* _ := for_each (fun kv : string * Value =>
    if existsb (String.eqb kv.1) ["driver"; "internal"; "ipam"] then Ok tt
    else Throw (RuntimeError "E_COMPOSE_SECURITY: unsupported network field")) fields in
  refuse_when (differs network "driver" (VStr "bridge"))
    "E_COMPOSE_SECURITY: portable networks must use bridge".

(** The whole compiled Compose file, before anything is made *)
Definition check_source (types : result Value) (images : gmap string string) (resolved source : Value) : result unit :=
  let* networks := object_field source "networks" in
  let* _ := for_each check_network networks in
  let* services := object_field source "services" in
  for_each (check_service types images resolved) services.

(** ** Docker *)

#[local] Open Scope prog_scope.

(** [call]: the output of a command that succeeded, or nothing when it need not *)
Definition call_for (arguments : list string) (input : string) (required : bool) (timeout : Z) : Prog string :=
  let! result := checked (sys_call (RunFor arguments input timeout)) in
  if negb (c_status result =? 0) || negb (c_exec_error result =? 0) || c_output_truncated result then
    (if required then throw ("E_DOCKER_COMMAND: " +:+ Command.format_arguments arguments) else Ret "")
  else Ret (c_output result).
Definition docker (arguments : list string) : Prog string := call_for ("docker" :: arguments) "" true 30000.
Definition docker_maybe (arguments : list string) : Prog string := call_for ("docker" :: arguments) "" false 30000.
Definition docker_do (arguments : list string) : Prog unit := docker arguments;;; Ret tt.

Section Documents.
Context (parse_document : string -> result Value).

(** The object of an identifier or a name; no value when there is none *)
Definition inspect (kind id : string) : Prog Value :=
  let! result := docker_maybe [kind; "inspect"; id] in
  if String.eqb result "" then Ret VNull
  else
    let! objects := of_result (parse_document result) in
    let! l := of_result (array objects) in
    match l with
    | [object] => Ret object
    | _ => throw "E_DOCKER_IDENTITY: ambiguous identity"
    end.

Definition container_runs (object : Value) : result bool :=
  let* observed := at_ object "State" in boolean_at observed "Running".
Definition exit_code (object : Value) : result Z :=
  let* observed := at_ object "State" in integer_at observed "ExitCode".
Definition container_running (id : string) : Prog bool :=
  let! object := inspect "container" id in of_result (container_runs object).

Definition is_kind_of (kind : string) (r : OwnedResourceIdentity) : bool := String.eqb (r_kind r) kind.

Definition labels (r : OwnedResourceIdentity) (object : Value) : result Value :=
  if is_kind_of "container" r then let* config := at_ object "Config" in at_ config "Labels"
  else at_ object "Labels".

Definition labelled (owner graph : string) (tags : Value) : result bool :=
  if contains tags "org.graphx.owner" && contains tags "org.graphx.graph"
  then and_result (eq_at tags "org.graphx.owner" (VStr owner)) (eq_at tags "org.graphx.graph" (VStr graph))
  else Ok false.

Definition with_ids (stable secondary : string) (r : OwnedResourceIdentity) : OwnedResourceIdentity :=
  {| r_kind := r_kind r; r_name := r_name r; r_stable_id := stable; r_secondary_id := secondary;
     r_attachment_id := r_attachment_id r; r_target_interface := r_target_interface r;
     r_ifindex := r_ifindex r; r_peer_ifindex := r_peer_ifindex r; r_namespace_inode := r_namespace_inode r;
     r_container_id := r_container_id r; r_tap_owner := r_tap_owner r; r_route_identity := r_route_identity r;
     r_rule_identity := r_rule_identity r; r_qdisc_identity := r_qdisc_identity r;
     r_capture_identity := r_capture_identity r; r_process_identity := r_process_identity r;
     r_runtime_directory := r_runtime_directory r; r_runtime_identity := r_runtime_identity r |}.

Definition is_pending (r : OwnedResourceIdentity) : bool := String.eqb (r_stable_id r) "pending".
Definition lookup_name (r : OwnedResourceIdentity) : string := if is_pending r then r_name r else r_stable_id r.

Abbreviation Resource := (stateful (C := sys) (R := answer) OwnedResourceIdentity).
#[local] Open Scope stateful_scope.

(** What a value says, in a program with a state *)
Definition said {S A} (r : result A) : stateful (C := sys) (R := answer) S A := lift (of_result r).
Definition rejected {S} (b : result bool) (message : string) : stateful (C := sys) (R := answer) S unit :=
  said (refuse_when b message).

Definition observe_container (object : Value) : Resource unit :=
  do! r := current in
  rejected (differs object "Name" (VStr ("/" +:+ r_name r))) "E_DOCKER_IDENTITY: container name changed";;;
  rejected (differs object "Image" (VStr (r_secondary_id r))) "E_DOCKER_IDENTITY: container image mismatch";;;
  do! id := said (text_at object "Id") in
  modify (with_ids id (r_secondary_id r)).

Definition observe_network (object : Value) : Resource unit :=
  do! r := current in
  do! id := said (text_at object "Id") in
  modify (with_ids id (r_secondary_id r)).

Definition observe_volume (object : Value) : Resource unit :=
  do! r := current in
  rejected (if String.eqb (r_secondary_id r) "pending" then Ok false
            else differs object "CreatedAt" (VStr (r_secondary_id r)))
    "E_DOCKER_IDENTITY: volume incarnation changed";;;
  do! name := said (text_at object "Name") in
  modify (with_ids name (r_secondary_id r));;;
  do! created := said (text_at object "CreatedAt") in
  modify (with_ids name created).

(** Whether the resource is there; its identifiers are those of the object,
    whose labels are those of the ledger. *)
Definition observe (graph : string) : Resource bool :=
  do! r := current in
  do! object := lift (inspect (r_kind r) (lookup_name r)) in
  if is_null object then returns false
  else
    do! tags := said (labels r object) in
    do! same := said (labelled (r_process_identity r) graph tags) in
    if negb same then raises (RuntimeError "E_DOCKER_IDENTITY: owner label mismatch; nothing removed")
    else
      (if is_kind_of "container" r then observe_container object
       else if is_kind_of "network" r then observe_network object
       else observe_volume object);;;
      returns true.

(** A copy of a resource is observed. *)
Definition observe_copy (graph : string) (r : OwnedResourceIdentity) : Prog (OwnedResourceIdentity * bool) := (
  let! observed := observe graph r in
  let! present := of_result observed.2 in
  Ret (observed.1, present))%prog.

(** A process of the ledger, in place *)
Definition at_process {A} (i : nat) (p : Resource A) : Run A :=
  do! s := current in
  match processes s !! i with
  | None => raises (OutOfRange "vector")
  | Some r =>
      do! observed := lift (p r) in
      modify (fun s => set_processes (<[i := observed.1]> (processes s)) s);;;
      said observed.2
  end.

Definition erase_process (i : nat) (s : OwnershipState) : OwnershipState := set_processes (delete i (processes s)) s.

(** [for (auto& resource : state.processes)], and from the last to the first *)
Definition each_process (body : nat -> OwnedResourceIdentity -> Run unit) (order : list nat -> list nat) : Run unit :=
  do! s := current in
  for_each_state (fun i =>
    do! s := current in
    match processes s !! i with Some r => body i r | None => returns tt end)
    (order (seq 0 (length (processes s)))).

(** ** Files *)

Definition write (path bytes : string) : Prog unit := (
  safe_execution_path path true;;;
  let! good := sys_call (WriteFile path bytes) in
  if negb good then throw "E_DOCKER_OUTPUT: cannot write runtime projection"
  else let! _ := sys_call (Chmod path 384) in Ret tt)%prog.

(** ** The run of one graph *)

Section Graph.
Context (rounds : nat) (load_all : string -> option (list Yaml.node)) (conversions : Yaml.Conversions)
        (to_chars : spec_float -> string) (sha256 : string -> string) (show_double : spec_float -> string).
Context (opts : ExecutionOptions) (resolved : Value) (graph : string) (ovs : bool).

Definition root : string := slash (x_state_root opts) graph.
Definition state_file : string := slash root "ownership.yml".
Definition owned_name (name : string) : string := "graphx-" +:+ graph +:+ "-" +:+ name.
Definition state_volume : string := owned_name "history".
Definition credential_volume : string := owned_name "credentials".
Definition manifest : string := slash (x_output opts) "compile-manifest.json".

(** [resource.name.substr(("graphx-" + graph + "-").size())] *)
Definition service_name (r : OwnedResourceIdentity) : result string :=
  let n := String.length (owned_name "") in
  if (n <=? String.length (r_name r))%nat then Ok (sdrop n (r_name r))
  else Throw (OutOfRange "basic_string::substr").

(** Applications that do not run while the graph may be available without them *)
Definition unavailable_services (s : OwnershipState) : Prog (list string) :=
  for_each_in (fun r found =>
    if negb (is_kind_of "container" r) then Ret found
    else
      let! name := of_result (service_name r) in
      if negb (bool_decide (is_Some (applications s !! name))) then Ret found
      else
        let! observed := observe_copy graph r in
        if negb (observed.2) then throw "E_DOCKER_IDENTITY: missing application container"
        else
          let! alive := container_running (r_stable_id observed.1) in
          Ret (if alive then found else found ++ [name])) (processes s) []%prog.

Definition network_action (action : OvsLifecycleAction) (validate : bool) : Run Z :=
  do! network := said (let* network := at_ resolved "network" in resolved_network network) in
  do! s := current in
  do! config := said (Endpoint.bind_owned_container_services
    {| config_version := 3; config_id := graph; infrastructure := network; configured_faults := [];
       Host.project := "graphx-" +:+ graph; services := []; resolved_graph := resolved |} s) in
  do! available := said (available_startup resolved) in
  do! missing := (if available && match action with status_ => true | _ => false end
                  then lift (unavailable_services s) else returns []) in
  execute_ovs_lifecycle load_all conversions parse_document to_chars sha256 show_double config manifest action
    false (x_state_root opts)
    (Some {| lock_held := true; cancellable := true; validate_only := validate; unavailable_containers := missing |}).

Definition has_infrastructure (s : OwnershipState) : bool :=
  negb (is_nil (expected_bridges s)) || negb (is_nil (expected_endpoints s)).

Definition network_if_any (validate : bool) : Run unit :=
  do! s := current in
  if ovs && has_infrastructure s then do! _ := network_action destroy validate in returns tt else returns tt.

(** *** Stopping *)

Definition observe_process (i : nat) (r : OwnedResourceIdentity) : Run unit :=
  if is_kind_of "native" r then
    do! _ := lift (native_process_status r false) in
    lift (Guest.verify_guest_directory r)
  else do! _ := at_process i (observe graph) in returns tt.

Definition barrier (name : string) : string := slash root ("barriers/" +:+ name).

Definition remove_barrier (path message : string) : Run unit :=
  do! present := sys_run (Exists path) in
  if negb present then returns tt
  else
    lift (safe_execution_path path false);;;
    do! bytes := lift (checked (sys_call (ReadDocument path 128))) in
    do! s := current in
    if negb (String.eqb bytes (owner_token s)) then fail message
    else lift (checked (sys_call (Remove path))).

(** The container of a node *)
Definition runs_node (r : OwnedResourceIdentity) : result bool :=
  let* nodes := array_at resolved "nodes" in
  any_result (fun node =>
    and_result (execution_is "container" node)
      (let* id := text_at node "node_id" in Ok (String.eqb (r_name r) (owned_name id)))) nodes.

(** The identifier behind an observation in place *)
Definition stable_id (i : nat) : Run string :=
  do! s := current in returns match processes s !! i with Some r => r_stable_id r | None => "" end.

Definition stop_node (i : nat) (r : OwnedResourceIdentity) : Run unit :=
  do! node := (if is_kind_of "container" r then said (runs_node r) else returns false) in
  do! present := (if node : bool then at_process i (observe graph) else returns false) in
  if negb present then returns tt
  else
    do! id := stable_id i in
    do! alive := lift (container_running id) in
    if alive : bool then lift (docker_do ["stop"; "--time"; "5"; id]) else returns tt.

Definition stop_native (i : nat) (r : OwnedResourceIdentity) : Run unit :=
  if is_kind_of "native" r then
    lift (stop_native_process r);;;
    lift (Guest.cleanup_guest_directory r);;;
    modify (erase_process i);;;
    save
  else returns tt.

(** A volume that holds history stays. *)
Definition is_retained (r : OwnedResourceIdentity) : bool :=
  is_kind_of "volume" r && negb (String.eqb (r_name r) credential_volume) && negb (is_pending r).

Definition remove_container (r : OwnedResourceIdentity) (id : string) : Prog unit := (
  let! object := inspect (r_kind r) id in
  let! alive := of_result (container_runs object) in
  (if alive : bool then docker_do ["stop"; "--time"; "5"; id] else Ret tt);;;
  let! log := docker_maybe ["logs"; "--tail"; "4096"; id] in
  write (slash (slash root "logs") (r_name r +:+ ".log")) log;;;
  docker_do ["container"; "rm"; id])%prog.

Definition remove_resource (i : nat) (r : OwnedResourceIdentity) : Run unit :=
  if is_retained r then returns tt
  else
    do! present := at_process i (observe graph) in
    (if present : bool then
       do! id := stable_id i in
       lift (if is_kind_of "container" r then remove_container r id else docker_do [r_kind r; "rm"; id])
     else returns tt);;;
    modify (erase_process i);;;
    save.

Definition stop : Run unit :=
  each_process observe_process (fun l => l);;;
  save;;;
  network_if_any true;;;
  remove_barrier (barrier "release") "E_BARRIER_IDENTITY: refusing cleanup";;;
  remove_barrier (barrier "network-ready") "E_BARRIER_IDENTITY: refusing network barrier cleanup";;;
  (if ovs then each_process stop_node (fun l => l) else returns tt);;;
  each_process stop_native (@rev nat);;;
  network_if_any false;;;
  modify (set_status "destroying");;;
  save;;;
  each_process remove_resource (@rev nat).

(** *** Status *)

(** The line of one process: whether the platform and which applications live *)
Definition report_container (s : OwnershipState) (r : OwnedResourceIdentity) (present : bool)
    (live : gmap string bool * bool) : Prog (gmap string bool * bool) := (
  let! name := of_result (service_name r) in
  let! alive := (if present then container_running (r_stable_id r) else Ret false) in
  let platform_live := if String.eqb name "platform" then alive else live.2 in
  match applications s !! name with
  | None => Ret (live.1, platform_live)
  | Some admission =>
      let ready := alive && String.eqb admission "ready" in
      sys_call (Print ("application=" +:+ name +:+ " admission=" +:+ admission +:+ " status="
                       +:+ yes_no ready "ready" "unavailable" +:+ Process.newline));;;
      Ret (<[name := ready]> live.1, platform_live)
  end)%prog.

Definition report_resource (s : OwnershipState) (r : OwnedResourceIdentity) (live : gmap string bool * bool)
    : Prog (gmap string bool * bool) := (
  (if is_kind_of "native" r then Guest.verify_guest_directory r else Ret tt);;;
  let! observed := (if is_kind_of "native" r
                    then let! status := native_process_status r false in Ret (r, status.1)
                    else observe_copy graph r) in
  sys_call (Print (r_kind r +:+ " " +:+ r_name r +:+ " " +:+ yes_no observed.2 "present" "absent" +:+ Process.newline));;;
  let! available := (if is_kind_of "container" r then of_result (available_startup resolved) else Ret false) in
  if available : bool then report_container s observed.1 observed.2 live else Ret live)%prog.

Definition report_status : Run Z :=
  do! s := current in
  let inactive := retained_only s in
  do! ready := (if negb ovs || inactive then returns true
                else do! status := network_action status_ false in returns (status =? 0)) in
  do! s := current in
  do! live := lift (for_each_in (report_resource s) (processes s) (∅, false)) in
  (if inactive then sys_run (Print ("inactive graph=" +:+ graph +:+ "; history retained" +:+ Process.newline))
   else
     do! available := said (available_startup resolved) in
     if available : bool then
       do! status := (if live.2 && ready then said (application_status resolved live.1) else returns "unavailable") in
       sys_run (Print ("graph=" +:+ graph +:+ " status=" +:+ status
                       +:+ " evidence=process-liveness throughput=unverified" +:+ Process.newline))
     else returns tt);;;
  returns (if ready : bool then 0 else 2).

Definition down : Run Z :=
  stop;;;
  sys_run (Print ("stopped graph=" +:+ graph +:+ "; history retained" +:+ Process.newline));;;
  returns 0.
End Graph.
End Documents.
End Compose.
