(* ===== verification/ComposeUp.v ===== *)
(** * Starting a graph as containers (src/src/infra/compose_execution.cpp)

    [graphx run up]: images and the compiled Compose file are checked, volumes,
    credentials, networks and services are made behind their records, and the
    release barrier follows the readiness of everything.  A startup that fails
    takes down what it made.  [execute_compose] is the entry point. *)

From Stdlib Require Import ZArith Lia Strings.Byte Strings.Ascii Strings.String Floats.SpecFloat.
From stdpp Require Import base option gmap strings list.
From S2P Require Import Prelude ConfigValue ConfigNetwork ConfigGraph ConfigLoad Text ResolvedNetwork Yaml OwnershipState Effects Process Native.
From S2P Require Import Host Ovs Endpoint LifecycleStatus Lifecycle Compile CompileOutput Guest ScenarioRun Command Compose.

Module ComposeUp.
Import Compile ResolvedNetwork OwnershipState Text Effects Process Native ConfigValue ConfigNetwork.
Import Host Ovs LifecycleStatus Lifecycle Compose.
Local Open Scope Z_scope.
#[local] Open Scope prog_scope.

Section Up.
Context (rounds fuel : nat) (load_all : string -> option (list Yaml.node)) (conversions : Yaml.Conversions)
        (parse_document : string -> result Value) (to_chars : spec_float -> string) (sha256 : string -> string)
        (show_double : spec_float -> string) (regex_search : string -> string -> bool)
        (guest_schema runtime_types : string).

Definition read (path : string) : Prog Value := document parse_document path.

Section Graph.
Context (opts : ExecutionOptions) (resolved : Value) (graph : string) (ovs : bool).
Abbreviation root := (root opts graph).
Abbreviation owned_name := (owned_name graph).
Abbreviation credential_volume := (credential_volume graph).
Abbreviation state_volume := (state_volume graph).
Abbreviation save := Native.save.

Definition output_path (name : string) : string := slash (x_output opts) name.

(** ** Before anything is made *)

Definition directory_mode : Z := 493. (** 0755 *)
Definition document_mode : Z := 292. (** 0444 *)

(** An image of the release is the one that was compiled: its pin and identifier *)
Definition verify_image (evidence : Value) (item : string * Value) (images : gmap string string)
    : Prog (gmap string string) :=
  let '(role, record) := item in
  let! inspection := of_result (at_ record "inspection") in
  let! digest := of_result (text_at inspection "digest") in
  let pin := "graphx-" +:+ role +:+ "@" +:+ digest in
  let! id := of_result (text_at inspection "config_digest") in
  of_result (refuse_when
    (or_result (let* image := at_ evidence role in differs image "image" (VStr pin))
               (let* image := at_ evidence role in differs image "config_digest" (VStr id)))
    "E_RELEASE_IDENTITY: compiled image provenance mismatch");;;
  let archive := slash (x_images opts) (role +:+ ".oci.tar") in
  safe_execution_path archive false;;;
  let! hash := checked (sys_call (Hash archive)) in
  of_result (refuse_when (let* pinned := text_at record "archive_sha256" in Ok (negb (String.eqb hash pinned)))
    "E_RELEASE_IDENTITY: OCI archive hash mismatch");;;
  Ret (<[pin := id]> images).

(** The images of the release, and the identifier of each pin *)
Definition verify_images : Prog (Object * gmap string string) :=
  let! images := read (slash (x_images opts) "images.json") in
  let! pins := read (output_path "catalog-pins.json") in
  let! documents := of_result (at_ pins "documents") in
  if negb (contains documents "release-images.json")
  then throw "E_RELEASE_IDENTITY: compile with the verified image release catalog"
  else
    let! evidence := of_result (let* released := at_ documents "release-images.json" in at_ released "images") in
    let! images := of_result (object_field images "images") in
    let! ids := for_each_in (verify_image evidence) images ∅ in
    Ret (images, ids).

(** An entry of the compilation is copied for the containers to read. *)
Definition copy_entry (target relative : string) : Prog unit :=
  let entry := slash (x_output opts) relative in
  let destination := slash target relative in
  safe_execution_path entry false;;;
  let! details := sys_call (StatPath entry) in
  match details with
  | Some details =>
      match st_kind details with
      | file_directory =>
          let! _ := checked (sys_call (MakeDirectory destination)) in
          checked (sys_call (Permissions destination directory_mode))
      | file_regular =>
          let! _ := checked (sys_call (CopyFile entry destination)) in
          checked (sys_call (Permissions destination document_mode))
      | _ => throw "E_DOCKER_OUTPUT: unexpected compilation entry"
      end
  | None => throw "E_DOCKER_OUTPUT: unexpected compilation entry"
  end.

(** The directory of the copies *)
Definition copy_configuration : Prog string :=
  let! token := sys_call RandomToken in
  let target := slash root ("configuration-" +:+ token) in
  let! created := checked (sys_call (MakeDirectory target)) in
  if negb created then throw "E_DOCKER_OUTPUT: runtime configuration collision"
  else
    let! entries := checked (sys_call (Tree (x_output opts))) in
    for_each_in (fun entry _ => copy_entry target entry) entries tt;;;
    checked (sys_call (Permissions target directory_mode));;;
    Ret target.

Definition found_directory (details : lstat_answer) (euid : Z) : bool :=
  match details with
  | lstat_found m =>
      match st_kind m with file_directory => (st_uid m =? euid) && (Guest.permissions m =? directory_mode) | _ => false end
  | _ => false
  end.

Definition prepare_barriers : Prog unit :=
  let barriers := slash root "barriers" in
  let! present := sys_call (Exists barriers) in
  if negb present then
    checked (sys_call (EnsureRoot barriers));;;
    let! moded := sys_call (Chmod barriers directory_mode) in
    if moded : bool then Ret tt else throw "E_BARRIER_IDENTITY: cannot prepare barrier directory"
  else
    safe_execution_path barriers false;;;
    let! details := sys_call (Lstat barriers) in
    let! euid := sys_call Geteuid in
    if found_directory details euid then Ret tt
    else throw "E_BARRIER_IDENTITY: unexpected barrier directory identity".

(** ** Making *)

Definition checkpoint : Prog unit :=
  let! interrupted := sys_call Interrupted in
  if interrupted : bool then throw "E_INTERRUPTED: Compose startup interrupted before release" else Ret tt.

Definition first_object (shown : string) : Prog Value := of_result (ScenarioRun.first_object parse_document shown).

(** An image is loaded if Docker does not know it; it is known under the
    identifier of its configuration or its digest. *)
Definition load_image (item : string * Value) (images : gmap string string) : Prog (gmap string string) :=
  let '(role, record) := item in
  checkpoint;;;
  let! inspection := of_result (at_ record "inspection") in
  let! id := of_result (text_at inspection "config_digest") in
  let! shown := docker_maybe ["image"; "inspect"; id] in
  (if String.eqb shown ""
   then let! _ := call_for ["docker"; "image"; "load"; "--input"; slash (x_images opts) (role +:+ ".oci.tar")] "" true 120000 in
        Ret tt
   else Ret tt);;;
  let! shown := docker_maybe ["image"; "inspect"; id] in
  let! id := (if String.eqb shown "" then of_result (text_at inspection "digest") else Ret id) in
  let! shown := docker ["image"; "inspect"; id] in
  let! actual := first_object shown in
  of_result (refuse_when (differs actual "Id" (VStr id)) "E_RELEASE_IDENTITY: loaded image mismatch");;;
  let! digest := of_result (text_at inspection "digest") in
  Ret (<["graphx-" +:+ role +:+ "@" +:+ digest := id]> images).

#[local] Open Scope stateful_scope.

Definition pending_resource (kind name expected token : string) : OwnedResourceIdentity :=
  OwnershipState.process_identity kind name "pending" expected token "" "".

(** [own]: a resource that does not exist is recorded; where it is in the ledger *)
Definition own (kind name expected : string) : Run nat :=
  do! object := lift (inspect parse_document kind name) in
  if negb (is_null object) then fail ("E_DOCKER_COLLISION: existing resource " +:+ name)
  else
    do! s := current in
    modify (push_process (pending_resource kind name expected (owner_token s)));;;
    save;;;
    do! s := current in
    returns (length (processes s) - 1)%nat.

Definition set_handoff (name : string) (inode device : Z) (s : OwnershipState) : OwnershipState :=
  {| actions := actions s; credential_directory := credential_directory s; credential_identity := credential_identity s;
     graph_id := graph_id s; config_hash := config_hash s; owner_token := owner_token s; status := status s;
     applications := applications s; console_sockets := console_sockets s; console_name := console_name s;
     console_inode := console_inode s; console_device := console_device s; handoff_name := name;
     handoff_inode := inode; handoff_device := device;
     expected_bridges := expected_bridges s; bridges := bridges s;
     expected_endpoints := expected_endpoints s; endpoints := endpoints s;
     expected_namespaces := expected_namespaces s; namespaces := namespaces s;
     expected_captures := expected_captures s; captures := captures s;
     expected_faults := expected_faults s; faults := faults s; processes := processes s |}.

Definition prepare_handoff : Run unit :=
  do! token := sys_run RandomToken in
  let name := "handoff-" +:+ token in
  let path := slash root name in
  modify (set_handoff name 0 0);;;
  save;;;
  do! present := sys_run (Exists path) in
  if present : bool then fail "E_CAPTURE_HANDOFF: directory collision"
  else
    lift (checked (sys_call (EnsureRoot path)));;;
    do! moded := sys_run (Chmod path directory_mode) in
    do! details := (if moded : bool then sys_run (Lstat path) else returns lstat_error) in
    match details with
    | lstat_found m =>
        modify (set_handoff name (u64 (st_ino m)) (u64 (st_dev m)));;;
        save
    | _ => fail "E_CAPTURE_HANDOFF: cannot prepare directory"
    end.

Definition handoff_if_captured : Run unit :=
  do! captures := (if ovs then said (let* network := at_ resolved "network" in array_at network "captures")
                   else returns []) in
  if is_nil captures then returns tt else prepare_handoff.

(** A node whose frames the application captures itself *)
Definition captures_itself (node : Value) : result bool :=
  let* capture := at_ node "capture" in
  and_result (boolean_at capture "enabled") (eq_at capture "provider" (VStr "application")).

Definition capture_volume (id : string) : string := owned_name ("capture-" +:+ id).

Definition volume_names : result (list string) :=
  let* nodes := array_at resolved "nodes" in
  fold_result (fun node names =>
    let* own := captures_itself node in
    if (own : bool) then let* id := text_at node "node_id" in Ok (names ++ [capture_volume id]) else Ok names)
    nodes [state_volume; credential_volume].

Definition owner_labels (token : string) : list string :=
  ["--label"; "org.graphx.owner=" +:+ token; "--label"; "org.graphx.graph=" +:+ graph].

(** A volume of an earlier run is the one it was, or a new one is made. *)
Definition prepare_volume (name : string) : Run unit :=
  do! s := current in
  match list_find (fun r => is_kind_of "volume" r && String.eqb (r_name r) name) (processes s) with
  | Some (i, _) =>
      do! present := at_process i (observe parse_document graph) in
      if present : bool then returns tt else fail "E_DOCKER_IDENTITY: retained history volume disappeared"
  | None =>
      do! i := own "volume" name "pending" in
      lift (docker_do (["volume"; "create"] ++ owner_labels (owner_token s) ++ [name]));;;
      do! _ := at_process i (observe parse_document graph) in
      save
  end.

(** ** Credentials *)

Definition external_member (ref : string) (member : Value) (external : Object) : Prog Object := (
  let! name := of_result (text member) in
  let path := slash (slash (x_external_credentials opts) ref) name in
  safe_execution_path path false;;;
  let! details := sys_call (Lstat path) in
  if negb (Guest.found details (fun m => Z.land (st_mode m) 63 =? 0))
  then throw "E_CREDENTIAL: external file is not private"
  else
    let! bytes := checked (sys_call (ReadDocument path 65536)) in
    of_result (assign_in external ref name (VStr (hex_bytes bytes))))%prog.

Definition external_entry (item : string * Value) (external : Object) : Prog Object := (
  let '(ref, entry) := item in
  let! provided := of_result (eq_at entry "provider" (VStr "external")) in
  if negb provided then Ret external
  else
    let! members := of_result (array_at entry "members") in
    for_each_in (external_member ref) members external)%prog.

Definition external_credentials : Prog Object := (
  let! credentials := read (output_path "credentials.json") in
  let! entries := of_result (object_field credentials "entries") in
  for_each_in external_entry entries [])%prog.

(** The module that the staging container runs *)
Definition stage_script : string :=
  let line s := s +:+ Process.newline in
  Process.newline
  +:+ line "import {mkdirSync,writeFileSync,readFileSync,rmSync} from 'node:fs';"
  +:+ line "import {stageCredentials,readJson} from '/app/credentials.mjs';"
  +:+ line "const request=JSON.parse(readFileSync(0,'utf8'));"
  +:+ line "const files=request.external;"
  +:+ line "mkdirSync('/var/lib/graphx/external',{mode:0o700});"
  +:+ line "for(const [ref,members] of Object.entries(files)) {"
  +:+ line " mkdirSync('/var/lib/graphx/external/'+ref,{mode:0o700});"
  +:+ line " for(const [name,value] of Object.entries(members)) writeFileSync('/var/lib/graphx/external/'+ref+'/'+name,Buffer.from(value,'hex'),{mode:0o400});"
  +:+ line "}"
  +:+ line "stageCredentials(readJson('/run/graphx/credentials.json'),'/var/lib/graphx/credentials',{externalRoot:'/var/lib/graphx/external'});"
  +:+ line "rmSync('/var/lib/graphx/external',{recursive:true});"
  +:+ line "const guests={};"
  +:+ line "for(const [node,refs] of Object.entries(request.guests)) {"
  +:+ line " guests[node]={};"
  +:+ line " for(const [name,ref] of Object.entries(refs)) {"
  +:+ line "  guests[node][ref]={};"
  +:+ line "  for(const member of [...readJson('/run/graphx/credentials.json').entries[ref].members,'generation.json']) {"
  +:+ line "   const bytes=readFileSync('/var/lib/graphx/credentials/'+ref+'/'+member);"
  +:+ line "   if(bytes.length>65536) throw Error('guest credential exceeds bounds');"
  +:+ line "   guests[node][ref][member]=bytes.toString('hex');"
  +:+ line "  }"
  +:+ line " }"
  +:+ line "}"
  +:+ line "process.stdout.write(JSON.stringify(guests));".

Definition create_staging (token name config image : string) : list string :=
  ["create"; "--name"; name; "--log-driver"; "none"; "--interactive"] ++ owner_labels token
  ++ ["--read-only"; "--user"; "65532:65532"; "--cap-drop"; "ALL"; "--security-opt"; "no-new-privileges:true";
      "--network"; "none"; "--pids-limit"; "64"; "--memory"; "512m"; "--tmpfs"; "/tmp:rw,nosuid,nodev,size=16m";
      "--mount"; "type=bind,src=" +:+ config +:+ ",dst=/run/graphx,readonly";
      "--mount"; "type=volume,src=" +:+ credential_volume +:+ ",dst=/var/lib/graphx";
      image; "node"; "--input-type=module"; "-e"; stage_script].

Definition guest_references : result Object :=
  let* nodes := array_at resolved "nodes" in
  fold_result (fun node refs =>
    let* qemu := execution_is "qemu" node in
    if (qemu : bool) then
      let* id := text_at node "node_id" in
      let* credentials := at_ node "credentials" in
      Ok (set_key id credentials refs)
    else Ok refs) nodes [].

(** The image of the platform, under the pin of the release *)
Definition telemetry_image (released : Object) (images : gmap string string) : result string :=
  let* record := object_at released "telemetry" in
  let* inspection := at_ record "inspection" in
  let* digest := text_at inspection "digest" in
  match images !! ("graphx-telemetry@" +:+ digest) with
  | Some id => Ok id
  | None => Throw (OutOfRange "map::at")
  end.

(** Credentials are staged in a container of their own: those of the guests *)
Definition stage_credentials (config image : string) : Run Value :=
  let name := owned_name "stage" in
  do! i := own "container" name image in
  do! given := lift external_credentials in
  do! s := current in
  lift (docker_do (create_staging (owner_token s) name config image));;;
  do! _ := at_process i (observe parse_document graph) in
  save;;;
  do! refs := said guest_references in
  do! request := said (config_value_json to_chars (obj [("external", VObj given); ("guests", VObj refs)]) true) in
  do! id := stable_id i in
  do! answered := lift (call_for ["docker"; "start"; "--attach"; "--interactive"; id] request true 60000) in
  do! guests := said (parse_document answered) in
  do! staged := lift (inspect parse_document "container" id) in
  rejected (let* observed := at_ staged "State" in differs observed "ExitCode" (VInt 0)) "E_CREDENTIAL: staging failed";;;
  lift (docker_do ["rm"; id]);;;
  modify (erase_process i);;;
  save;;;
  returns guests.

(** ** The Compose file that is started *)

(** What is mounted for one service *)
Record Mounting := {
  m_service : string; m_config : string; m_token : string; m_console : string; m_handoff : string }.

Definition substitutions (config token : string) : list (string * string) :=
  [("GX_CREDENTIALS", "/unused-credential-path"); ("GX_OUTPUT", config); ("GX_OWNER", token);
   ("GX_RELEASE", x_release opts); ("GX_STATE", root)].

(** [source:target] and whatever follows; without a colon both are the whole text *)
Definition split_mount (text : string) : string * string :=
  match find ":" text with
  | None => (text, text)
  | Some separator =>
      let rest := sdrop (separator + 1) text in
      (stake separator text, match find ":" rest with Some n => stake n rest | None => rest end)
  end.

Definition join_path (p : CompileOutput.AbsolutePath) : string :=
  match CompileOutput.names p with
  | [] => "/"
  | l => foldr (fun name rest => "/" +:+ name +:+ rest) (if CompileOutput.ends_open p then "/" else "") l
  end.

(** [lexically_normal] of an absolute path; no path of the graph is relative. *)
Definition lexically_normal (path : string) : option string :=
  if ConfigLoad.is_absolute path then Some (join_path (CompileOutput.normal path)) else None.

Definition same_path (a b : string) : bool := bool_decide (path_components (sdrop 1 a) = path_components (sdrop 1 b)).

Definition bind_mount (source target : string) : Value :=
  obj [("type", VStr "bind"); ("source", VStr source); ("target", VStr target); ("read_only", VBool true)].

(** A path of the compilation, or the directory of the barriers *)
Definition confined_source (m : Mounting) (source : string) : Prog string := (
  let! path := (if Text.starts_with source "./" then Ret (slash (m_config m) (sdrop 2 source))
                else of_result (replace source (substitutions (m_config m) (m_token m)))) in
  let refusal := throw "E_COMPOSE_SECURITY: bind is outside the compilation and barrier roots" in
  match lexically_normal path with
  | None => refusal
  | Some path =>
      if negb (same_path path (slash root "barriers")) && negb (Text.starts_with path (m_config m +:+ "/")) then refusal
      else
        safe_execution_path path false;;;
        Ret path
  end)%prog.

Definition credentials_prefix : string := "${GX_CREDENTIALS}/".

Definition mount (m : Mounting) (mount : Value) (mounts : Array) : Prog Array := (
  let! text := of_result (text mount) in
  let '(source, target) := split_mount text in
  let platform := String.eqb (m_service m) "platform" in
  if Text.starts_with source credentials_prefix then
    let ref := sdrop (String.length credentials_prefix) source in
    Ret (mounts ++ [obj [("type", VStr "volume"); ("source", VStr credential_volume); ("target", VStr target);
                         ("read_only", VBool true); ("volume", obj [("subpath", VStr ("credentials/" +:+ ref))])]])
  else if String.eqb target "/run/graphx/console" && platform then
    Ret (mounts ++ [bind_mount (slash root (m_console m)) target])
  else if String.eqb target "/captures" && platform then
    Ret (if ovs && negb (is_empty (m_handoff m)) then mounts ++ [bind_mount (slash root (m_handoff m)) "/captures"]
         else mounts)
  else if String.eqb target "/captures" then
    Ret (mounts ++ [obj [("type", VStr "volume"); ("source", VStr (capture_volume (m_service m)));
                         ("target", VStr "/captures")]])
  else if String.eqb target "/var/lib/graphx/history" then
    Ret (mounts ++ [obj [("type", VStr "volume"); ("source", VStr state_volume); ("target", VStr "/var/lib/graphx")]])
  else
    let! path := confined_source m source in
    Ret (mounts ++ [bind_mount path target]))%prog.

(** The platform reads what the applications captured. *)
Definition captured_mount (node : Value) (mounts : Array) : result Array :=
  let* own := captures_itself node in
  if (own : bool) then
    let* id := text_at node "node_id" in
    Ok (mounts ++ [obj [("type", VStr "volume"); ("source", VStr (capture_volume id));
                        ("target", VStr ("/captures/" +:+ id)); ("read_only", VBool true)]])
  else Ok mounts.

Definition service_mounts (m : Mounting) (service : Value) : Prog Array := (
  let! declared := of_result (array_at service "volumes") in
  let! mounts := for_each_in (mount m) declared [] in
  if String.eqb (m_service m) "platform" then
    let! nodes := of_result (array_at resolved "nodes") in
    of_result (fold_result captured_mount nodes mounts)
  else Ret mounts)%prog.

(** An image without a release is pulled by its pin. *)
Definition service_image (images : gmap string string) (pin : string) : Prog Value := (
  match images !! pin with
  | Some id => Ret (VStr id)
  | None =>
      let! shown := docker_maybe ["image"; "inspect"; pin] in
      (if String.eqb shown "" then let! _ := call_for ["docker"; "pull"; pin] "" true 120000 in Ret tt else Ret tt);;;
      let! shown := docker ["image"; "inspect"; pin] in
      let! object := first_object shown in
      of_result (at_ object "Id")
  end)%prog.

Definition mark (service : Value) (token : string) : result Value :=
  let* fields := object service in
  let* fields := assign_in fields "labels" "org.graphx.owner" (VStr token) in
  let* fields := assign_in fields "labels" "org.graphx.graph" (VStr graph) in
  Ok (VObj fields).

(** The shell waits for the network and becomes the application. *)
Definition wait_script : string :=
  "trap 'exit 130' INT TERM; i=0; while [ " +:+ quoted "$$i" +:+ " -lt 600 ]; do "
  +:+ "if [ -f /run/graphx/barriers/network-ready ] && "
  +:+ "[ " +:+ quoted "$$(cat /run/graphx/barriers/network-ready)" +:+ " = " +:+ quoted "$$1" +:+ " ]; then "
  +:+ "shift; exec " +:+ quoted "$$@" +:+ "; fi; "
  +:+ "i=$$((i+1)); sleep 0.1; done; exit 124".

Definition behind_network (service : Value) (token : string) : result Value :=
  let* entrypoint := array_at service "entrypoint" in
  let* command := array_at service "command" in
  let* service := assign service "entrypoint" (strings ["/bin/sh"]) in
  assign service "command"
    (VArr ([VStr "-c"; VStr wait_script; VStr "graphx-network-prepare"; VStr token] ++ entrypoint ++ command)).

(** One service: what it becomes, and the applications so far *)
Definition realize_service (config : string) (images : gmap string string) (item : string * Value)
    (acc : Object * list string) : Run (Object * list string) :=
  let '(name, service) := item in
  do! pin := said (text_at service "image") in
  do! image := lift (service_image images pin) in
  do! service := said (assign service "image" image) in
  let actual := owned_name name in
  do! service := said (assign service "container_name" (VStr actual)) in
  do! s := current in
  do! service := said (mark service (owner_token s)) in
  do! mounts := lift (service_mounts {| m_service := name; m_config := config; m_token := owner_token s;
                                        m_console := console_name s; m_handoff := handoff_name s |} service) in
  do! service := said (assign service "volumes" (VArr mounts)) in
  do! image := said (text_at service "image") in
  do! _ := own "container" actual image in
  do! service := (if ovs && is_application name && negb (contains service "cap_add")
                  then said (behind_network service (owner_token s)) else returns service) in
  returns (acc.1 ++ [(name, service)], if is_application name then acc.2 ++ [name] else acc.2).

Definition realize_network (item : string * Value) (l : Object) : Run Object :=
  let '(name, network) := item in
  let actual := owned_name name in
  do! s := current in
  do! network := said (assign network "name" (VStr actual)) in
  do! network := said (assign network "labels"
    (obj [("org.graphx.owner", VStr (owner_token s)); ("org.graphx.graph", VStr graph)])) in
  do! _ := own "network" actual (owner_token s) in
  returns (l ++ [(name, network)]).

(** The first of equal names is kept. *)
Definition external_volumes (names : list string) : Object :=
  fold_left (fun l name => set_key name (obj [("external", VBool true); ("name", VStr name)]) l)
    (credential_volume :: names) [].

(** The file with its services and networks on record, and the applications *)
Definition realize_compose (config : string) (images : gmap string string) (volumes : list string) (source : Value)
    : Run (Value * list string) :=
  do! compose := said (assign source "volumes" (VObj (external_volumes volumes))) in
  do! networks := said (object_field compose "networks") in
  do! networks := fold_state realize_network networks [] in
  do! compose := said (assign compose "networks" (VObj networks)) in
  do! services := said (object_field compose "services") in
  do! realized := fold_state (realize_service config images) services ([], []) in
  do! compose := said (assign compose "services" (VObj realized.1)) in
  do! s := current in
  do! compose := said (project compose (substitutions config (owner_token s))) in
  do! bytes := said (config_value_json to_chars compose true) in
  lift (write (slash root "compose.json") bytes);;;
  returns (compose, realized.2).

(** ** Starting *)

Definition compose_do (arguments : list string) : Prog unit := (
  let! _ := call_for (["docker"; "compose"; "--project-directory"; x_output opts; "-p"; "graphx-" +:+ graph; "-f";
                       slash root "compose.json"] ++ arguments) "" true 60000 in
  Ret tt)%prog.

Definition console_port : result Z :=
  let* platform := at_ resolved "platform" in
  let* console := at_ platform "console" in
  integer_at console "port".

(** A script in the platform's container has answered. *)
Definition node_says_ready (id script : string) : Prog bool := (
  let! answered := call_for ["docker"; "exec"; id; "node"; "--input-type=module"; "-e"; script] "" false 3000 in
  Ret (String.eqb answered "ready"))%prog.

Definition platform_script (port : Z) : string :=
  "const r=await fetch('http://127.0.0.1:" +:+ to_string port
  +:+ "/api/ready',{signal:AbortSignal.timeout(500)}); if(r.ok) console.log('ready')".

Definition extension_script (prometheus : bool) : string :=
  "const r=await fetch('"
  +:+ (if prometheus then "http://prometheus:9090/api/v1/targets" else "http://grafana:3000/api/health")
  +:+ "',{signal:AbortSignal.timeout(500)}); const j=await r.json(); if(r.ok&&("
  +:+ (if prometheus then "j.data.activeTargets.some(t=>t.health==='up')" else "j.database==='ok'")
  +:+ ")) console.log('ready')".

Fixpoint await_platform (rounds : nat) (id : string) (deadline : Z) : Prog unit := (
  match rounds with
  | O => spinning
  | S rounds =>
      checkpoint;;;
      let! now := sys_call Now in
      if deadline <=? now then throw "E_READINESS_TIMEOUT: platform"
      else
        let! alive := container_running parse_document id in
        if negb alive then throw "E_READINESS_EXIT: platform"
        else
          let! port := of_result console_port in
          let! ready := node_says_ready id (platform_script port) in
          if ready : bool then Ret tt else sys_call (Sleep 100);;; await_platform rounds id deadline
  end)%prog.

Fixpoint await_extension (rounds : nat) (name id script : string) (deadline : Z) : Prog unit := (
  match rounds with
  | O => spinning
  | S rounds =>
      checkpoint;;;
      let! now := sys_call Now in
      if deadline <=? now then throw ("E_READINESS_TIMEOUT: " +:+ name)
      else
        let! ready := node_says_ready id script in
        if ready : bool then Ret tt else sys_call (Sleep 100);;; await_extension rounds name id script deadline
  end)%prog.

Definition start_extension (id : string) (extension : Value) : Prog unit := (
  let! name := of_result (text extension) in
  compose_do ["start"; name];;;
  let! now := sys_call Now in
  await_extension rounds name id (extension_script (value_eqb extension (VStr "prometheus"))) (now + 45000))%prog.

(** The first resource of a name; there is one, or the behaviour is undefined. *)
Definition named (name : string) (s : OwnershipState) : result OwnedResourceIdentity :=
  match List.find (fun r => String.eqb (r_name r) name) (processes s) with
  | Some r => Ok r
  | None => Throw (LogicError "end of a range")
  end.

(** Created, and the platform with its extensions up *)
Definition start_platform : Run unit :=
  lift checkpoint;;;
  lift (compose_do ["create"; "--no-build"; "--pull"; "never"]);;;
  each_process (fun i _ => do! _ := at_process i (observe parse_document graph) in returns tt) (fun l => l);;;
  save;;;
  lift (compose_do ["start"; "platform"]);;;
  do! s := current in
  do! platform := said (named (owned_name "platform") s) in
  do! now := sys_run Now in
  lift (await_platform rounds (r_stable_id platform) (now + 30000));;;
  do! extensions := said (let* platform := at_ resolved "platform" in array_at platform "extensions") in
  lift (for_each_in (fun extension _ => start_extension (r_stable_id platform) extension) extensions tt).

(** *** The network, and diagnostics in its name spaces *)

Definition diagnostic_options (name program ns_name : string) (inode : Z) (token : string) : NativeProcessOptions :=
  let o := with_program name program (x_output opts) (slash (slash root "logs") (name +:+ ".log"))
    [program; "--node"; name; "--config"; slash (slash (x_output opts) "nodes") (name +:+ ".json");
     "--release-file"; barrier opts graph "release"; "--release-token"; token] ∅ in
  {| o_id := o_id o; o_argv := o_argv o; o_environment := o_environment o; o_cwd := o_cwd o; o_log := o_log o;
     o_executable := o_executable o; o_network_namespace := "/run/netns/" +:+ ns_name; o_namespace_inode := inode;
     o_guest_identity := o_guest_identity o; o_console_directory := o_console_directory o;
     o_log_bytes := o_log_bytes o; o_file_bytes_limit := o_file_bytes_limit o |}.

Definition start_diagnostic (node : Value) : Run unit :=
  do! inside := said (execution_is "namespace" node) in
  if negb inside then returns tt
  else
    do! name := said (text_at node "node_id") in
    do! space := said (let* execution := at_ node "execution" in string_or execution "namespace" name) in
    let ns_name := resource_name sha256 graph "namespace" space in
    do! s := current in
    let refusal := fail "E_NAMESPACE_IDENTITY: diagnostic namespace not owned" in
    match List.find (fun r => String.eqb (r_name r) ns_name) (namespaces s) with
    | None => refusal
    | Some r =>
        do! ours := lift (namespace_owned r s) in
        if negb ours then refusal
        else
          let options := diagnostic_options name (slash (x_release opts) "bin/graphx-diagnostic") ns_name
                           (default 0 (r_namespace_inode r)) (owner_token s) in
          lift (keep_previous_log (o_log options));;;
          do! _ := start_native_process options register in
          returns tt
    end.

Definition network_do (action : OvsLifecycleAction) : Run Z :=
  network_action parse_document load_all conversions to_chars sha256 show_double opts resolved graph action false.

Definition start_network : Run unit :=
  if negb ovs then returns tt
  else
    lift checkpoint;;;
    do! _ := network_do create in
    lift checkpoint;;;
    do! s := current in
    lift (publish_execution_file (barrier opts graph "network-ready") (owner_token s));;;
    do! nodes := said (array_at resolved "nodes") in
    for_each_state start_diagnostic nodes.

(** *** Guests *)

Definition set_socket (name identity : string) (s : OwnershipState) : OwnershipState :=
  rebuild s (actions s) (credential_directory s) (credential_identity s) (config_hash s) (graph_id s) (owner_token s)
    (status s) (applications s) (<[name := identity]> (console_sockets s)) (console_name s) (console_inode s)
    (console_device s) (processes s).

Definition start_guest (credentials : Value) (deadline : Z) (guest : Value) (sessions : list Guest.Guest)
    : Run (list Guest.Guest) :=
  do! name := said (text_at guest "node") in
  do! nodes := said (array_at resolved "nodes") in
  do! found := said (find_by "node_id" (VStr name) nodes) in
  do! node := said (match found with Some node => Ok node | None => Throw (LogicError "end of a range") end) in
  do! secrets := said (at_ credentials name) in
  do! token := sys_run RandomToken in
  do! s := current in
  do! session := Guest.start_guest rounds parse_document sha256 to_chars opts guest node secrets
                   (slash root ("guest-" +:+ name +:+ "-" +:+ token)) (owner_token s) deadline register in
  do! s := current in
  do! details := sys_run (Lstat (slash (slash root (console_name s)) (name +:+ ".sock"))) in
  match details with
  | lstat_found m =>
      if Guest.is_kind_of file_socket m && (st_uid m =? 65532) then
        modify (set_socket name (Guest.inode_of m));;;
        save;;;
        returns (sessions ++ [session])
      else fail "E_CONSOLE_IDENTITY: guest serial socket unavailable"
  | _ => fail "E_CONSOLE_IDENTITY: guest serial socket unavailable"
  end.

Definition start_guests (verified : Array) (credentials : Value) : Run (list Guest.Guest) :=
  do! now := sys_run Now in
  fold_state (start_guest credentials (now + 120000)) verified [].

(** *** Readiness *)

Definition application_exited (available : bool) (name : string) (object : Value) : Run unit :=
  rejected (if negb available then Ok true
            else let* code := exit_code object in Ok (negb (unavailable_exit code true)))
    ("E_READINESS_EXIT: " +:+ name);;;
  modify (set_application name "exited").

(** One look at an application: whether it is still pending *)
Definition look_at_application (deadline : Z) (name : string) (pending : bool) : Run bool :=
  do! s := current in
  if bool_decide (is_Some (applications s !! name)) then returns pending
  else
    do! r := said (named (owned_name name) s) in
    lift checkpoint;;;
    do! observed := lift (observe_copy parse_document graph r) in
    (if negb observed.2 then fail "E_DOCKER_IDENTITY: missing application container" else returns tt);;;
    let id := r_stable_id observed.1 in
    do! object := lift (inspect parse_document "container" id) in
    do! alive := said (container_runs object) in
    if negb alive then
      do! available := said (available_startup resolved) in
      application_exited available name object;;; returns pending
    else
      do! now := sys_run Now in
      if deadline <=? now then
        do! available := said (available_startup resolved) in
        if negb available then fail ("E_READINESS_TIMEOUT: " +:+ name)
        else modify (set_application name "timeout");;; returns pending
      else
        do! log := lift (docker ["logs"; "--tail"; "4096"; id]) in
        do! now := sys_run Now in
        if (now <? deadline) && application_ready log name
        then modify (set_application name "ready");;; returns pending
        else returns true.

Fixpoint admission (rounds : nat) (deadline : Z) (names : list string) : Run unit :=
  match rounds with
  | O => lift spinning
  | S rounds =>
      do! pending := fold_state (look_at_application deadline) names false in
      save;;;
      if pending : bool then do! _ := sys_run (Sleep 50) in admission rounds deadline names
      else returns tt
  end.

(** An application that was not ready in time is stopped. *)
Definition stop_late (s : OwnershipState) (r : OwnedResourceIdentity) : Prog unit := (
  if negb (is_kind_of "container" r) then Ret tt
  else
    let! name := of_result (service_name graph r) in
    if negb (bool_decide (applications s !! name = Some "timeout")) then Ret tt
    else
      let! observed := observe_copy parse_document graph r in
      if negb observed.2 then throw "E_DOCKER_IDENTITY: missing timed-out container"
      else docker_do ["stop"; "--time"; "2"; r_stable_id observed.1])%prog.

Definition is_guest (name : string) : result bool :=
  let* nodes := array_at resolved "nodes" in
  any_result (fun node => and_result (eq_at node "node_id" (VStr name)) (execution_is "qemu" node)) nodes.

Fixpoint await_diagnostic (rounds : nat) (r : OwnedResourceIdentity) (deadline : Z) : Prog unit := (
  match rounds with
  | O => spinning
  | S rounds =>
      checkpoint;;;
      let! now := sys_call Now in
      let! alive := (if deadline <=? now then Ret false
                     else let! status := native_process_status r false in Ret status.1) in
      if negb alive then throw "E_READINESS_TIMEOUT: namespace diagnostic"
      else
        let! log := read_process_log (slash (slash root "logs") (r_name r +:+ ".log")) 2097152 in
        match find ("ready node=" +:+ r_name r) log with
        | Some _ => Ret tt
        | None => sys_call (Sleep 50);;; await_diagnostic rounds r deadline
        end
  end)%prog.

Definition diagnostic_ready (deadline : Z) (r : OwnedResourceIdentity) : Prog unit := (
  if negb (is_kind_of "native" r) then Ret tt
  else
    let! guest := of_result (is_guest (r_name r)) in
    if guest : bool then Ret tt else await_diagnostic rounds r deadline)%prog.

(** The last look at a container before the release *)
Definition confirm (i : nat) (r : OwnedResourceIdentity) : Run unit :=
  if negb (is_kind_of "container" r) then returns tt
  else
    do! present := at_process i (observe parse_document graph) in
    if negb present then fail "E_DOCKER_IDENTITY: missing container before release"
    else
      do! id := stable_id i in
      do! object := lift (inspect parse_document "container" id) in
      do! alive := said (container_runs object) in
      if alive : bool then returns tt
      else
        do! name := said (service_name graph r) in
        do! available := said (available_startup resolved) in
        do! s := current in
        let refusal := "E_READINESS_EXIT: process exited before release" in
        match applications s !! name with
        | None => fail refusal
        | Some admission =>
            rejected (if negb available then Ok true
                      else let* code := exit_code object in Ok (negb (unavailable_exit code true))) refusal;;;
            if String.eqb admission "ready" then modify (set_application name "exited") else returns tt
        end.

Definition await_applications (names : list string) : Run Z :=
  modify (fun s => set_run (status s) ∅ (processes s) s);;;
  do! now := sys_run Now in
  do! budget := said (application_readiness_ms resolved) in
  let deadline := now + budget in
  admission rounds deadline names;;;
  do! s := current in
  lift (for_each_in (fun r _ => stop_late s r) (processes s) tt);;;
  lift (for_each_in (fun r _ => diagnostic_ready deadline r) (processes s) tt);;;
  returns deadline.

(** *** Release *)

Definition handoff_options (program : string) (s : OwnershipState) : NativeProcessOptions :=
  with_program "mg-capture-handoff" program (x_output opts) (slash (slash root "logs") (handoff_name s +:+ ".log"))
    [program; "run"; "handoff"; "--output"; x_output opts; "--state-root"; x_state_root opts; "--owner"; owner_token s]
    {["PATH" := "/usr/sbin:/usr/bin:/sbin:/bin"]}.

Definition start_handoff : Run unit :=
  do! s := current in
  if negb ovs || is_nil (captures s) then returns tt
  else
    do! program := sys_run (ReadLink "/proc/self/exe") in
    do! _ := start_native_process (handoff_options program s) register in
    returns tt.

Definition release_graph (guests : list Guest.Guest) : Run unit :=
  lift checkpoint;;;
  each_process confirm (fun l => l);;;
  save;;;
  do! ready := (if ovs then do! status := network_do status_ in returns (status =? 0) else returns true) in
  (if ready : bool then returns tt else fail "E_NETWORK_READINESS: owned data plane is not ready");;;
  lift (for_each_in (fun guest _ => Guest.release rounds parse_document to_chars guest) guests tt);;;
  do! s := current in
  lift (publish_execution_file (barrier opts graph "release") (owner_token s));;;
  modify (set_status "ready");;;
  save.

(** Everything that is undone when it fails *)
Definition startup (released : Object) (images : gmap string string) (config : string) (source : Value)
    (verified : Array) (has_guests : bool) : Run unit :=
  do! images := lift (for_each_in load_image released images) in
  handoff_if_captured;;;
  do! volumes := said volume_names in
  for_each_state prepare_volume volumes;;;
  do! image := said (telemetry_image released images) in
  do! credentials := stage_credentials config image in
  do! realized := realize_compose config images volumes source in
  start_platform;;;
  (if is_nil realized.2 then returns tt else lift (compose_do ("start" :: realized.2)));;;
  start_network;;;
  do! guests := (if has_guests then start_guests verified credentials else returns []) in
  do! _ := await_applications realized.2 in
  release_graph guests;;;
  start_handoff;;;
  start_node_console opts;;;
  sys_run (Handlers false);;;
  do! s := current in
  let live := (fun admission => String.eqb admission "ready") <$> applications s in
  do! available := said (available_startup resolved) in
  do! shown := (if available : bool then said (application_status resolved live) else returns "ready") in
  sys_run (Print (shown +:+ " graph=" +:+ graph +:+ " owner=" +:+ owner_token s +:+ Process.newline)).

Definition stop_graph : Run unit :=
  stop parse_document load_all conversions to_chars sha256 show_double opts resolved graph ovs.

(** A startup that fails stops what it made, and throws again. *)
Definition guarded_startup (p : Run unit) : Run unit :=
  catch_state p (fun e =>
    sys_run ClearInterrupted;;;
    catch_state stop_graph (fun failure =>
      sys_run (Log (what failure +:+ "; recovery state retained" +:+ Process.newline)));;;
    sys_run (Handlers false);;;
    raises e).

(** Only history may be left from an earlier run. *)
Definition leftover (r : OwnedResourceIdentity) : bool :=
  negb (is_kind_of "volume" r) || String.eqb (r_name r) credential_volume.

Definition up (verified : Array) (has_guests : bool) : Run Z :=
  do! s := current in
  (if existsb leftover (processes s) then fail "E_EXECUTION_ACTIVE: use run down before another startup" else returns tt);;;
  do! released := lift verify_images in
  do! config := lift copy_configuration in
  do! source := lift (read (output_path "compose.yaml")) in
  said (check_source (parse_document runtime_types) released.2 resolved source);;;
  lift (checked (sys_call (EnsureRoot (slash root "logs"))));;;
  prepare_node_console root;;;
  lift prepare_barriers;;;
  modify (fun s => ScenarioRun.set_actions [] (set_status "creating" s));;;
  save;;;
  sys_run ClearInterrupted;;;
  sys_run (Handlers true);;;
  guarded_startup (startup released.1 released.2 config source verified has_guests);;;
  returns 0.
End Graph.

(** ** All actions *)

#[local] Close Scope stateful_scope.

Definition is_action (opts : ExecutionOptions) (action : string) : bool := String.eqb (x_action opts) action.

(** Infrastructure is for the local administrator of a Linux host. *)
Definition authorize_infrastructure (opts : ExecutionOptions) (resolved : Value) : Prog unit :=
  if negb (x_allow_privileged opts)
  then throw "E_PRIVILEGED_AUTHORIZATION: OVS requires explicit --allow-privileged on Linux"
  else
    let! euid := sys_call Geteuid in
    if negb (euid =? 0) then throw "E_PRIVILEGED_REQUIRED: OVS requires the authorized Linux root runner"
    else
      of_result (refuse_when (and_result (differs resolved "target" (VStr "native-linux"))
                                         (differs resolved "target" (VStr "lima")))
        "E_TARGET: OVS target must be native-linux or lima");;;
      let! attachments := of_result (let* network := at_ resolved "network" in array_at network "attachments") in
      of_result (for_each (fun attachment =>
        refuse_when (eq_at attachment "kind" (VStr "external"))
          "E_PHASE_UNAVAILABLE: physical-device uplink ownership contract is not defined") attachments).

Definition node_startable (node : Value) : result unit :=
  let not kind := let* execution := at_ node "execution" in differs execution "kind" (VStr kind) in
  refuse_when (and_result (not "container") (and_result (not "external") (and_result (not "namespace") (not "qemu"))))
    "E_PHASE_UNAVAILABLE: graph requires native, namespace or guest execution".

(** The paths and the ports of a startup *)
Definition check_startup (opts : ExecutionOptions) (resolved : Value) (root : string) : Prog unit :=
  let! nodes := of_result (array_at resolved "nodes") in
  of_result (for_each node_startable nodes);;;
  safe_execution_path root true;;;
  safe_execution_path (x_images opts) false;;;
  let! port := of_result (console_port resolved) in
  require_available_tcp_port (u16 port);;;
  let! extensions := of_result (let* platform := at_ resolved "platform" in array_at platform "extensions") in
  for_each_in (fun extension _ =>
    require_available_tcp_port (if value_eqb extension (VStr "prometheus") then 9090 else 3000)) extensions tt.

(** Infrastructure needs the containers of this host. *)
Definition check_docker_socket : Prog unit :=
  let! configured := sys_call (Getenv "DOCKER_HOST") in
  let! endpoint := (if is_empty (default "" configured)
                    then docker ["context"; "inspect"; "--format"; "{{.Endpoints.docker.Host}}"]
                    else Ret (default "" configured)) in
  if negb (Text.starts_with endpoint "unix:///") then throw "E_TARGET: OVS requires a local Unix Docker socket"
  else
    let! details := sys_call (StatPath (sdrop 7 endpoint)) in
    if match details with Some m => Guest.is_kind_of file_socket m && (st_uid m =? 0) | None => false end then Ret tt
    else throw "E_TARGET: OVS requires a root-owned local Docker socket".

Definition lock_busy : string := "another infrastructure operation owns the graph lock".

(** The lock of the graph; a short operation of another runner is waited for. *)
Fixpoint lock_graph (rounds : nat) (path : string) (waits : bool) (deadline : Z) : Prog unit :=
  match rounds with
  | O => spinning
  | S rounds =>
      let! locked := sys_call (LockCreate path) in
      match locked with
      | Ok _ => Ret tt
      | Throw e =>
          if negb waits then Fail e
          else
            let! now := sys_call Now in
            if (deadline <=? now) || negb (String.eqb (what e) lock_busy) then Fail e
            else sys_call (Sleep 50);;; lock_graph rounds path waits deadline
      end
  end.

(** The ledger on disk if it is of this compilation, or a new one *)
Definition open_ledger (file graph hash : string) : Prog OwnershipState :=
  let! present := sys_call (Exists file) in
  if present : bool then
    let! s := checked (sys_call (Load file)) in
    if negb (String.eqb (graph_id s) graph) || negb (String.eqb (config_hash s) hash)
    then throw "E_EXECUTION_IDENTITY: state belongs to another compilation"
    else Ret s
  else
    let! token := sys_call RandomToken in
    Ret (rebuild empty_state [] "" "" hash graph token "creating" ∅ ∅ "" 0 0 []).

(** The operation on the ledger of the graph *)
Definition run_action (opts : ExecutionOptions) (resolved : Value) (graph : string) (ovs has_guests : bool)
    (verified : Array) : Run Z :=
  if is_action opts "status"
  then report_status parse_document load_all conversions to_chars sha256 show_double opts resolved graph ovs
  else if is_action opts "down"
  then down parse_document load_all conversions to_chars sha256 show_double opts resolved graph ovs
  else up opts resolved graph ovs verified has_guests.

Definition execute_compose (opts : ExecutionOptions) (resolved : Value) : Prog Z :=
  let! graph := of_result (text_at resolved "graph_id") in
  let root := root opts graph in
  let starting := is_action opts "up" in
  let! hash := checked (sys_call (Hash (manifest opts))) in
  let! nodes := of_result (array_at resolved "nodes") in
  let! has_guests := of_result (any_result (execution_is "qemu") nodes) in
  let! verified :=
    (if starting && has_guests then
       let! verified := Guest.verify_guest_artifacts fuel guest_schema parse_document sha256 regex_search to_chars opts resolved in
       Guest.require_guest_account;;;
       Ret verified
     else Ret []) in
  let! switches := of_result (let* network := at_ resolved "network" in array_at network "switches") in
  let ovs := negb (is_nil switches) in
  (if ovs then authorize_infrastructure opts resolved else Ret tt);;;
  (if starting then check_startup opts resolved root else Ret tt);;;
  let! present := (if starting then Ret true else sys_call (Exists (state_file opts graph))) in
  if negb present then
    sys_call (Print ("inactive graph=" +:+ graph +:+ Process.newline));;;
    Ret 0
  else
    (if ovs then check_docker_socket else Ret tt);;;
    docker_do ["info"; "--format"; "{{.OSType}}/{{.Architecture}}"];;;
    (if starting then
       checked (sys_call (EnsureRoot (x_state_root opts)));;;
       checked (sys_call (EnsureRoot root))
     else Ret tt);;;
    safe_execution_path root false;;;
    let! now := sys_call Now in
    lock_graph rounds (slash root ".lock") (ovs && negb starting) (now + 10000);;;
    let! s := open_ledger (state_file opts graph) graph hash in
    ScenarioRun.in_ledger s (run_action opts resolved graph ovs has_guests verified).
End Up.
End ComposeUp.
