(* ===== verification/ComposeProofs.v ===== *)
(** * Containers that are stopped or removed are the graph's

    What the runner of a Compose graph stops or removes was looked up before
    under a resource of the ledger, and had the labels of the owner and of the
    graph. *)

From Stdlib Require Import ZArith Lia Strings.Byte Strings.Ascii Strings.String Floats.SpecFloat.
From stdpp Require Import base option gmap strings list.
From S2P Require Import Prelude ConfigValue ConfigNetwork ConfigNodes ConfigRender Text ResolvedNetwork Yaml OwnershipState Effects Process ProcessProofs Native NativeTheorems.
From S2P Require Import Host Ovs Endpoint Management LifecycleStatus LifecycleCreate Lifecycle HostProofs LifecycleSteps LifecycleTheorems.
From S2P Require Import Compile Guest GuestProofs ScenarioRun ScenarioProofs Compose ComposeUp.

Module ComposeProofs.
Import ConfigValue ConfigNetwork Compile ResolvedNetwork OwnershipState Text Effects Process ProcessProofs Native.
Import Host Ovs Endpoint LifecycleStatus Lifecycle HostProofs LifecycleProofs LifecycleSteps NativeTheorems Compose ComposeUp.
Local Open Scope Z_scope.

Abbreviation ev c x := (@Effects.Event sys answer c x).

(** ** Commands that stop or remove *)

Definition target (argv : list string) : option string :=
  match argv with
  | [_; verb; flag; _; id] => if String.eqb verb "stop" && String.eqb flag "--time" then Some id else None
  | [_; _; verb; id] => if String.eqb verb "rm" then Some id else None
  | _ => None
  end.

(** Everything else *)
Definition harmless (c : sys) : Prop := match c with RunFor argv _ _ => target argv = None | _ => True end.
Abbreviation harmless_calls := (calls_only harmless).
Abbreviation harmless_state := (state_calls harmless).

Create HintDb harmless discriminated.

Ltac harmless_known := solve [exact I | reflexivity].
Ltac harmless_step :=
  match goal with
  | |- state_calls _ _ => solve [auto with harmless nocore]
  | |- state_calls _ (bind_state _ _) => apply state_calls_bind; [|intro]
  | |- state_calls _ (catch_state _ _) => apply state_calls_catch; [|intro]
  | |- state_calls _ (returns _) => apply state_calls_returns
  | |- state_calls _ (raises _) => apply state_calls_raises
  | |- state_calls _ current => apply state_calls_current
  | |- state_calls _ (modify _) => apply state_calls_modify
  | |- state_calls _ (lift _) => apply state_calls_lift
  | |- state_calls _ (Guest.needs _ _) => apply state_calls_lift
  | |- state_calls _ (match ?x with _ => _ end) => destruct x
  | |- calls_only _ _ => solve [auto with harmless nocore]
  | |- calls_only _ spinning => split; [exact I|intros []]
  | |- calls_only _ (and_then _ _) => apply calls_and_then; [|intro]
  | |- calls_only _ (catch _ _) => apply calls_catch; [|intro]
  | |- calls_only _ (attempt _) => apply calls_attempt
  | |- calls_only _ (for_each_in _ _ _) => apply calls_for_each; intros
  | |- calls_only _ (call _) => apply calls_call; harmless_known
  | |- calls_only _ (sys_call _) => apply calls_call; harmless_known
  | |- calls_only _ (checked _) => apply calls_and_then; [|intro]
  | |- calls_only _ (of_result _) => apply calls_of_result
  | |- calls_only _ (throw _) => exact I
  | |- calls_only _ (Ret _) => exact I
  | |- calls_only _ (Fail _) => exact I
  | |- calls_only _ (match ?x with _ => _ end) => destruct x
  | |- calls_only _ (let '(_, _) := ?x in _) => destruct x
  | |- calls_only _ (Guest.in_session _ _) => apply ScenarioProofs.in_session_calls
  end.
Ltac harmless_prog := cbv zeta; repeat (harmless_step; cbv beta zeta).

Lemma harmless_quiet {A} (p : Prog A) : quiet_calls p -> harmless_calls p.
Proof. apply calls_mono. intros c. by destruct c. Qed.
Lemma harmless_looking {A} (p : Prog A) : looking p -> harmless_calls p.
Proof. apply calls_mono. intros c. by destruct c. Qed.

(** *** Processes *)

Lemma harmless_path path absent : harmless_calls (safe_execution_path path absent).
Proof. apply harmless_quiet, quiet_path. Qed.
Lemma harmless_status r w : harmless_calls (native_process_status r w).
Proof. apply harmless_quiet, quiet_status. Qed.
Lemma harmless_inspect_process pid : harmless_calls (inspect_process pid).
Proof. apply harmless_quiet, quiet_inspect. Qed.
Lemma harmless_prepare o : harmless_calls (prepare_process o).
Proof. apply harmless_quiet, quiet_prepare. Qed.
Lemma harmless_release pid : harmless_calls (release_process pid).
Proof. unfold release_process. harmless_prog. Qed.
#[export] Hint Resolve harmless_path harmless_status harmless_inspect_process harmless_prepare harmless_release : harmless.
Lemma harmless_publish path bytes : harmless_calls (publish_execution_file path bytes).
Proof. unfold publish_execution_file. harmless_prog. Qed.
Lemma harmless_await n r : harmless_calls (await_exit n r).
Proof. apply harmless_quiet, quiet_await. Qed.
Lemma harmless_process_id r : harmless_calls (process_id r).
Proof. apply harmless_quiet, quiet_process_id. Qed.
Lemma harmless_log path n : harmless_calls (read_process_log path n).
Proof. apply harmless_quiet, quiet_log. Qed.
#[export] Hint Resolve harmless_publish harmless_await harmless_process_id harmless_log : harmless.
Lemma harmless_stop_process r : harmless_calls (stop_native_process r).
Proof. unfold stop_native_process. harmless_prog. Qed.
Lemma harmless_port n : harmless_calls (require_available_tcp_port n).
Proof. unfold require_available_tcp_port. harmless_prog. Qed.
Lemma harmless_previous log : harmless_calls (keep_previous_log log).
Proof. unfold keep_previous_log. harmless_prog. Qed.
Lemma harmless_document parse path : harmless_calls (document parse path).
Proof. unfold document. harmless_prog. Qed.
#[export] Hint Resolve harmless_stop_process harmless_port harmless_previous harmless_document : harmless.

(** *** Guests *)

Lemma harmless_require b message : harmless_calls (Guest.require b message).
Proof. unfold Guest.require. harmless_prog. Qed.
#[export] Hint Resolve harmless_require : harmless.
Lemma harmless_require_of b message : harmless_calls (Guest.require_of b message).
Proof. unfold Guest.require_of. harmless_prog. Qed.
Lemma harmless_directory r : harmless_calls (Guest.verify_guest_directory r).
Proof. unfold Guest.verify_guest_directory. harmless_prog. Qed.
Lemma harmless_account : harmless_calls Guest.require_guest_account.
Proof. unfold Guest.require_guest_account. harmless_prog. Qed.
#[export] Hint Resolve harmless_require_of harmless_directory harmless_account : harmless.
Lemma harmless_cleanup r : harmless_calls (Guest.cleanup_guest_directory r).
Proof. unfold Guest.cleanup_guest_directory. harmless_prog. Qed.
#[export] Hint Resolve harmless_cleanup : harmless.

Section Session.
Context (rounds : nat) (parse_document : string -> result Value) (to_chars : spec_float -> string)
        (sha256 : string -> string).

Lemma harmless_check : harmless_state Guest.check.
Proof. unfold Guest.check. harmless_prog. Qed.
Hint Resolve harmless_check : harmless.

Lemma harmless_wait fd output : harmless_state (Guest.wait rounds fd output).
Proof. unfold Guest.wait. induction rounds as [|n IH]; cbn [Guest.wait_in]; harmless_prog. Qed.
Hint Resolve harmless_wait : harmless.

Lemma harmless_connect name : harmless_state (Guest.connect rounds name).
Proof.
  unfold Guest.connect. apply state_calls_bind; [done|]. intros s.
  generalize ("/proc/self/fd/" +:+ to_string (Guest.directory s) +:+ "/" +:+ name +:+ ".sock"). intros path. clear name s.
  generalize rounds at 2. intros n.
  induction n as [|n IH]; cbn [Guest.connect_in]; unfold Guest.socket_sealed, Guest.open_stream, Guest.peer_identified; harmless_prog.
Qed.

Lemma harmless_out n fd bytes : harmless_state (Guest.transfer_out rounds n fd bytes).
Proof. revert bytes; induction n as [|n IH]; intros [|c bytes]; cbn [Guest.transfer_out]; harmless_prog. Qed.
Lemma harmless_in n fd size bytes : harmless_state (Guest.transfer_in rounds n fd size bytes).
Proof. revert size bytes; induction n as [|n IH]; intros [|size] bytes; cbn [Guest.transfer_in]; harmless_prog. Qed.
Hint Resolve harmless_connect harmless_out harmless_in : harmless.

Lemma harmless_line n fd line : harmless_state (Guest.qmp_line rounds n fd line).
Proof. revert line; induction n as [|n IH]; intros line; cbn [Guest.qmp_line]; harmless_prog. Qed.
Hint Resolve harmless_line : harmless.
Lemma harmless_answer n fd command : harmless_state (Guest.qmp_answer rounds parse_document n fd command).
Proof. induction n as [|n IH]; cbn [Guest.qmp_answer]; unfold Guest.qmp_receive; harmless_prog. Qed.
Hint Resolve harmless_answer : harmless.
Lemma harmless_command fd command arguments :
  harmless_state (Guest.qmp_command rounds parse_document to_chars fd command arguments).
Proof. unfold Guest.qmp_command. harmless_prog. Qed.
Hint Resolve harmless_command : harmless.
Lemma harmless_channels n qmp : harmless_state (Guest.await_channels rounds parse_document to_chars n qmp).
Proof. induction n as [|n IH]; cbn [Guest.await_channels]; harmless_prog. Qed.
Lemma harmless_last n qmp serial : harmless_state (Guest.last_serial rounds parse_document to_chars n qmp serial).
Proof. revert serial; induction n as [|n IH]; intros serial; cbn [Guest.last_serial]; unfold Guest.serial_part; harmless_prog. Qed.
Lemma harmless_send fd v : harmless_state (Guest.send rounds to_chars fd v).
Proof. unfold Guest.send. harmless_prog. Qed.
Lemma harmless_receive fd : harmless_state (Guest.receive rounds parse_document fd).
Proof. unfold Guest.receive. harmless_prog. Qed.
Hint Resolve harmless_channels harmless_last harmless_send harmless_receive : harmless.

Lemma harmless_handshake options guest node credentials id token :
  harmless_state (Guest.handshake rounds parse_document sha256 to_chars options guest node credentials id token).
Proof. unfold Guest.handshake, Guest.qmp_greeted, Guest.qmp_receive, Guest.provision, Guest.failure_text. harmless_prog. Qed.
Lemma harmless_prepare_guest options guest node directory : harmless_calls (Guest.prepare_guest options guest node directory).
Proof. unfold Guest.prepare_guest, Guest.copy_boot_file. harmless_prog. Qed.
Hint Resolve harmless_handshake harmless_prepare_guest : harmless.

Lemma harmless_guest_release g : harmless_calls (Guest.release rounds parse_document to_chars g).
Proof. unfold Guest.release. harmless_prog. Qed.
End Session.
#[export] Hint Resolve harmless_handshake harmless_prepare_guest harmless_guest_release : harmless.

Lemma harmless_artifacts fuel schema parse_document sha256 regex_search to_chars options resolved :
  harmless_calls (Guest.verify_guest_artifacts fuel schema parse_document sha256 regex_search to_chars options resolved).
Proof.
  unfold Guest.verify_guest_artifacts, Guest.verify_guest, Guest.read, Guest.check_recipe, Guest.check_directory,
    Guest.check_artifact, Guest.check_guest_files. harmless_prog.
Qed.
#[export] Hint Resolve harmless_artifacts : harmless.

(** *** Docker *)

Lemma harmless_call_for argv input b n : target argv = None -> harmless_calls (call_for argv input b n).
Proof. intros Ht. unfold call_for. apply calls_and_then; [apply calls_and_then; [by apply calls_call|]|]; intros a; harmless_prog. Qed.
#[export] Hint Extern 1 (calls_only _ (call_for _ _ _ _)) => apply harmless_call_for; reflexivity : harmless.
Lemma harmless_docker argv : target ("docker" :: argv) = None -> harmless_calls (docker argv).
Proof. apply harmless_call_for. Qed.
Lemma harmless_maybe argv : target ("docker" :: argv) = None -> harmless_calls (docker_maybe argv).
Proof. apply harmless_call_for. Qed.
#[export] Hint Extern 1 (calls_only _ (docker _)) => apply harmless_docker; reflexivity : harmless.
#[export] Hint Extern 1 (calls_only _ (docker_maybe _)) => apply harmless_maybe; reflexivity : harmless.
Lemma harmless_do argv : target ("docker" :: argv) = None -> harmless_calls (docker_do argv).
Proof. intros Ht. unfold docker_do. apply calls_and_then; [by apply harmless_docker|done]. Qed.
#[export] Hint Extern 1 (calls_only _ (docker_do _)) => apply harmless_do; reflexivity : harmless.

Section Docker.
Context (parse_document : string -> result Value).

Lemma harmless_inspect kind id : harmless_calls (inspect parse_document kind id).
Proof. unfold inspect. harmless_prog. Qed.
Hint Resolve harmless_inspect : harmless.
Lemma harmless_running id : harmless_calls (container_running parse_document id).
Proof. unfold container_running. harmless_prog. Qed.

Lemma harmless_observe graph : harmless_state (observe parse_document graph).
Proof. unfold observe, observe_container, observe_network, observe_volume, rejected, said. harmless_prog. Qed.
Hint Resolve harmless_observe : harmless.
Lemma harmless_copy graph r : harmless_calls (observe_copy parse_document graph r).
Proof. unfold observe_copy. apply calls_and_then; [apply harmless_observe|]. intros a. harmless_prog. Qed.
End Docker.
#[export] Hint Resolve harmless_inspect harmless_running harmless_observe harmless_copy : harmless.

Lemma harmless_write path bytes : harmless_calls (write path bytes).
Proof. unfold write. harmless_prog. Qed.
#[export] Hint Resolve harmless_write : harmless.

(** A history only grows. *)
Lemma grows {A} rules (p : Prog A) h (Q : list Event -> result A -> Prop) :
  wp rules p h Q -> wp rules p h (fun h' r => goes h h' /\ Q h' r).
Proof.
  intros Hp. eapply wp_weaken; [|apply wp_and; [apply (GuestProofs.wp_goes p h), goes_refl|exact Hp]]. by intros h' c [_ H].
Qed.

(** ** What is known of a resource *)

(** A ledger that was loaded or that was to be saved *)
Definition ledger_of (e : Event) : option OwnershipState :=
  match e with
  | Effects.Event c x =>
      match c as c return answer c -> option OwnershipState with
      | Save s => fun _ => Some s
      | Load _ => fun x => match x with Ok s => Some s | Throw _ => None end
      | _ => fun _ => None
      end x
  end.

(** The kind, the name, the owner, and the image of a container or the
    incarnation of a volume, which may be found out later *)
Definition same_resource (r r' : OwnedResourceIdentity) : Prop :=
  r_kind r' = r_kind r /\ r_name r' = r_name r /\ r_process_identity r' = r_process_identity r /\
  (r_secondary_id r' = r_secondary_id r \/ (is_kind_of "container" r = false /\ r_secondary_id r = "pending")).

Lemma same_refl r : same_resource r r.
Proof. split_and!; [done..|by left]. Qed.

(** A ledger had the resource. *)
Definition recorded (h : list Event) (r : OwnedResourceIdentity) : Prop :=
  exists e s r', e ∈ h /\ ledger_of e = Some s /\ r' ∈ processes s /\ same_resource r' r.

Section Identity.
Context (parse_document : string -> result Value) (graph : string).

(** Docker has shown one object for a name or an identifier. *)
Definition shows (kind key : string) (object : Value) (e : Event) : Prop :=
  exists r, e = ev (RunFor ["docker"; kind; "inspect"; key] "" 30000) (Ok r) /\ c_status r = 0 /\ c_exec_error r = 0 /\
    parse_document (c_output r) = Ok (VArr [object]).

(** The identifier of an object *)
Definition identifier (r : OwnedResourceIdentity) (object : Value) : result string :=
  ConfigValue.text_at object (if is_kind_of "container" r || is_kind_of "network" r then "Id" else "Name").

(** An inspection showed the object of this identifier with the labels of the
    owner and of the graph, for a resource of a ledger; a container had the name
    and the image of the resource, a volume its time of creation if the ledger
    had one. *)
Definition identified (h : list Event) (id : string) : Prop :=
  exists r key object tags e,
    recorded h r /\ e ∈ h /\ shows (r_kind r) key object e /\
    labels r object = Ok tags /\ eq_at tags "org.graphx.owner" (VStr (r_process_identity r)) = Ok true /\
    eq_at tags "org.graphx.graph" (VStr graph) = Ok true /\ identifier r object = Ok id /\
    (is_kind_of "container" r = true ->
     eq_at object "Name" (VStr ("/" +:+ r_name r)) = Ok true /\ eq_at object "Image" (VStr (r_secondary_id r)) = Ok true) /\
    (is_kind_of "container" r = false -> is_kind_of "network" r = false -> r_secondary_id r <> "pending" ->
     eq_at object "CreatedAt" (VStr (r_secondary_id r)) = Ok true).

(** What is stopped or removed was identified. *)
Definition allowed (h : list Event) (c : sys) : Prop :=
  match c with
  | RunFor argv _ _ => match target argv with Some id => identified h id | None => True end
  | _ => True
  end.

(** Every process of the ledger was recorded. *)
Definition accounted (h : list Event) (s : OwnershipState) : Prop := forall r, r ∈ processes s -> recorded h r.

Lemma recorded_goes h h' r : goes h h' -> recorded h r -> recorded h' r.
Proof. intros Hg (e & s & r' & He & H). exists e, s, r'. split; [by eapply GuestProofs.elem_goes|done]. Qed.
Lemma identified_goes h h' id : goes h h' -> identified h id -> identified h' id.
Proof.
  intros Hg (r & key & object & tags & e & Hr & He & H). exists r, key, object, tags, e.
  split; [by eapply recorded_goes|]. split; [by eapply GuestProofs.elem_goes|done].
Qed.
Lemma accounted_goes h h' s : goes h h' -> accounted h s -> accounted h' s.
Proof. intros Hg Ha r Hr. eapply recorded_goes; [exact Hg|by apply Ha]. Qed.
Lemma recorded_same h r r' : same_resource r r' -> recorded h r -> recorded h r'.
Proof.
  intros (Hk & Hn & Ho & Hi) (e & s & r0 & He & Hs & Hin & Hk0 & Hn0 & Ho0 & Hi0). exists e, s, r0. unfold same_resource.
  split_and!; [done..|congruence|congruence|congruence|]. unfold is_kind_of in *. rewrite Hk0 in Hi.
  destruct Hi0 as [Hi0|Hi0]; [|by right]. rewrite Hi0 in Hi. exact Hi.
Qed.

Lemma harmless_allowed h c : harmless c -> allowed h c.
Proof. destruct c; cbn; try done. by intros ->. Qed.

Lemma accounted_harmless s h c : accounted h s -> harmless c -> allowed h c /\ forall x, accounted (ev c x :: h) s.
Proof. intros Ha Hc. split; [by apply harmless_allowed|]. intros x. eapply accounted_goes; [by eexists [_]|done]. Qed.

Lemma wp_grows {A} (p : Prog A) h (Q : list Event -> result A -> Prop) :
  wp allowed p h Q -> wp allowed p h (fun h' r => goes h h' /\ Q h' r).
Proof. apply grows. Qed.
Lemma swp_grows {S A} (p : stateful (C := sys) (R := answer) S A) s h (Q : list Event -> S -> result A -> Prop) :
  swp allowed p s h Q -> swp allowed p s h (fun h' s' r => goes h h' /\ Q h' s' r).
Proof.
  intros Hp. eapply wp_mono; [|apply wp_grows, Hp]. by intros h' [[s' r]|e] [Hg H].
Qed.

Lemma swp_harmless {S A} (p : Prog A) (s : S) h : harmless_calls p -> swp allowed (lift p) s h (fun h' s' _ => goes h h' /\ s' = s).
Proof.
  intros Hp. apply swp_grows, swp_lift. apply (wp_calls harmless allowed (fun _ => s = s)); [done| |done].
  intros h' c _ Hc. by split; [apply harmless_allowed|].
Qed.

Lemma swp_said {S A} (r : result A) (s : S) h Q : Q h s r -> swp allowed (said r) s h Q.
Proof. intros H. by apply swp_lift, wp_of_result. Qed.
Lemma swp_rejected {S} b message (s : S) h (Q : list Event -> S -> result unit -> Prop) :
  (b = Ok false -> Q h s (Ok tt)) -> (forall e, Q h s (Throw e)) -> swp allowed (rejected b message) s h Q.
Proof. intros Ht Hf. apply swp_said. destruct b as [[]|e]; cbn; auto. Qed.

(** ** Observation *)

Lemma docker_shows kind key h : wp allowed (inspect parse_document kind key) h (fun h' r =>
  forall o, r = Ok o -> is_null o = false -> exists e, e ∈ h' /\ shows kind key o e).
Proof.
  unfold inspect, docker_maybe, call_for. apply wp_and_then, wp_and_then, wp_and_then. split; [done|].
  intros [r|e]; [|done]. cbn [of_result wp].
  destruct (c_status r =? 0) eqn:Es, (c_exec_error r =? 0) eqn:Ee; cbn [negb orb wp]; try by intros o [= <-].
  destruct (c_output_truncated r); [by intros o [= <-]|].
  cbn [wp]. destruct (String.eqb (c_output r) ""); [by intros o [= <-]|].
  apply wp_and_then, wp_of_result. destruct (parse_document (c_output r)) as [objects|e] eqn:Ep; [|done].
  apply wp_and_then, wp_of_result. destruct (array objects) as [l|e] eqn:El; [|done].
  destruct l as [|object [|? ?]]; [done| |done]. intros o [= <-] _.
  eexists. split; [by left|]. exists r. apply Z.eqb_eq in Es, Ee. split_and!; try done.
  rewrite Ep. destruct objects; try done. injection El as ->. done.
Qed.

Lemma differs_false v key w : differs v key w = Ok false -> eq_at v key w = Ok true.
Proof. unfold differs. destruct (eq_at v key w) as [[]|]; done. Qed.

Lemma labelled_true owner tags : labelled owner graph tags = Ok true ->
  eq_at tags "org.graphx.owner" (VStr owner) = Ok true /\ eq_at tags "org.graphx.graph" (VStr graph) = Ok true.
Proof.
  unfold labelled. destruct (_ && _); [|done]. unfold and_result.
  destruct (eq_at tags "org.graphx.owner" _) as [[]|]; cbn [bind]; done.
Qed.

Lemma observe_identifies r h : recorded h r -> swp allowed (observe parse_document graph) r h (fun h' r' res =>
  same_resource r r' /\ (res = Ok true -> identified h' (r_stable_id r'))).
Proof.
  intros Hr. pose proof (same_refl r) as Hsame.
  unfold observe. state_steps. apply swp_lift. eapply wp_mono; [|apply wp_grows, docker_shows].
  intros h1 [object|e] [Hg Hshow]; [|done]. destruct (is_null object) eqn:Hn; [by state_steps|].
  destruct (Hshow object eq_refl Hn) as (e & He & Hs). clear Hshow.
  apply swp_bind, swp_said. destruct (labels r object) as [tags|?] eqn:Ht; [|done].
  apply swp_bind, swp_said. destruct (labelled (r_process_identity r) graph tags) as [[]|?] eqn:Hl; cbn [negb]; [|done|done].
  apply labelled_true in Hl as [Ho Hl].
  assert (forall id, identifier r object = Ok id ->
    (is_kind_of "container" r = true ->
     eq_at object "Name" (VStr ("/" +:+ r_name r)) = Ok true /\ eq_at object "Image" (VStr (r_secondary_id r)) = Ok true) ->
    (is_kind_of "container" r = false -> is_kind_of "network" r = false -> r_secondary_id r <> "pending" ->
     eq_at object "CreatedAt" (VStr (r_secondary_id r)) = Ok true) ->
    identified h1 id) as Hid.
  { intros id Hi Hc Hv. exists r, (lookup_name r), object, tags, e. split_and!; try done. by eapply recorded_goes. }
  assert (forall id, same_resource r (with_ids id (r_secondary_id r) r)) as Hids by (intros id; split_and!; [done..|by left]).
  unfold identifier in Hid.
  destruct (is_kind_of "container" r) eqn:Kc; [|destruct (is_kind_of "network" r) eqn:Kn]; cbn [orb] in Hid.
  - unfold observe_container. state_steps. apply swp_rejected; [|done]. intros Hname%differs_false. state_steps.
    apply swp_rejected; [|done]. intros Himage%differs_false. state_steps. apply swp_said.
    destruct (ConfigValue.text_at object "Id") as [id|?]; [|done]. state_steps. split; [apply Hids|]. intros _. by apply Hid.
  - unfold observe_network. state_steps. apply swp_said. destruct (ConfigValue.text_at object "Id") as [id|?]; [|done]. state_steps.
    split; [apply Hids|]. intros _. by apply Hid.
  - unfold observe_volume. state_steps.
    apply (swp_mono _ _ _ _ (fun h' r' x => h' = h1 /\ r' = r /\ (x = Ok tt -> r_secondary_id r <> "pending" ->
      eq_at object "CreatedAt" (VStr (r_secondary_id r)) = Ok true))).
    2: { apply swp_rejected; [|done]. intros Hb. split_and!; [done..|]. intros _ Hne.
         destruct (String.eqb_spec (r_secondary_id r) "pending") as [|_]; [done|]. by apply differs_false. }
    intros h2 r2 [[]|?] (-> & -> & Hv); [|done]. specialize (Hv eq_refl). state_steps. apply swp_said.
    destruct (ConfigValue.text_at object "Name") as [id|?]; [|done]. state_steps. apply swp_said.
    destruct (ConfigValue.text_at object "CreatedAt") as [created|?] eqn:Hcreated; state_steps; [|by split; [apply Hids|]].
    split; [|intros _; by apply Hid]. do 3 (split; [done|]). cbn [r_secondary_id with_ids].
    destruct (decide (r_secondary_id r = "pending")) as [Hp|Hp]; [by right|]. left.
    specialize (Hv Hp). eapply ConfigNodes.ConfigNodesProofs.eq_at_text in Hv; [|done]. congruence.
Qed.

(** ** Programs with the ledger *)

Abbreviation accounts := (kept allowed accounted).

Lemma accounts_lift {A} (p : Prog A) : harmless_calls p -> accounts (lift p).
Proof. apply kept_lift_calls. apply accounted_harmless. Qed.
Lemma accounts_modify f : (forall s, processes (f s) = processes s) -> accounts (modify f).
Proof. intros Hf. apply kept_modify. intros h s Ha r Hr. rewrite Hf in Hr. by apply Ha. Qed.
Lemma accounts_fewer f : (forall s r, r ∈ processes (f s) -> r ∈ processes s) -> accounts (modify f).
Proof. intros Hf. apply kept_modify. intros h s Ha r Hr. by apply Ha, Hf. Qed.

(** Whatever is saved is recorded. *)
Lemma save_accounts s h : swp allowed save s h (fun h' s' _ => accounted h' s').
Proof.
  unfold save. state_steps. apply swp_lift, wp_and_then. split; [done|]. intros x. apply wp_of_result.
  intros r Hr. exists (ev (Save s) x), s, r. split; [by left|]. do 2 (split; [done|]). apply same_refl.
Qed.
Lemma accounts_save : accounts save.
Proof. intros s h _. apply save_accounts. Qed.
Lemma accounts_saves f : accounts (bind_state (modify f) (fun _ => save)).
Proof. intros s h _. state_steps. apply save_accounts. Qed.
Lemma accounts_saved {A} f (k : unit -> stateful OwnershipState A) :
  (forall u, accounts (k u)) -> accounts (bind_state (modify f) (fun _ => bind_state save k)).
Proof.
  intros Hk s h _. state_steps. eapply swp_mono; [|apply save_accounts].
  intros h' s' [u|e] Ha; [by apply Hk|done].
Qed.

Lemma accounts_said {A} (r : result A) : accounts (said r).
Proof. apply accounts_lift, calls_of_result. Qed.
Lemma accounts_rejected b message : accounts (rejected b message).
Proof. apply accounts_said. Qed.
Lemma accounts_register p : accounts (register p).
Proof. apply accounts_saves. Qed.

Lemma accounts_each body order : (forall i r, accounts (body i r)) -> accounts (each_process body order).
Proof.
  intros Hb. unfold each_process. apply kept_current. intros s h _. apply kept_for_each. intros i _.
  apply kept_current. intros s' h' _. destruct (processes s' !! i); [apply Hb|apply kept_returns].
Qed.

Lemma erased_elem i s r : r ∈ processes (erase_process i s) -> r ∈ processes s.
Proof. cbn. intros [j Hj]%list_elem_of_lookup. rewrite list_lookup_delete in Hj. by case_match; eapply list_elem_of_lookup_2. Qed.

Lemma inserted_elem (i : nat) (x r : OwnedResourceIdentity) (l : list OwnedResourceIdentity) : r ∈ <[i := x]> l -> r = x \/ r ∈ l.
Proof.
  intros [j Hj]%list_elem_of_lookup. apply list_lookup_insert_Some in Hj as [(_ & <- & _)|[_ Hj]]; [by left|].
  right. by eapply list_elem_of_lookup_2.
Qed.

(** An observation in place *)
Definition found_at (i : nat) (h : list Event) (s : OwnershipState) : Prop :=
  exists p, processes s !! i = Some p /\ identified h (r_stable_id p).

Lemma observed_spec i s h : accounted h s ->
  swp allowed (at_process i (observe parse_document graph)) s h (fun h' s' r =>
    accounted h' s' /\ (r = Ok true -> found_at i h' s')).
Proof.
  intros Ha. unfold at_process. state_steps. destruct (processes s !! i) as [r|] eqn:Hi; [|by state_steps].
  state_steps. apply swp_lift.
  eapply (wp_mono _ _ _ (fun h' x => match x with Ok (r', res) => goes h h' /\ same_resource r r' /\
      (res = Ok true -> identified h' (r_stable_id r')) | Throw _ => False end)).
  2: { apply (swp_grows (observe parse_document graph) r h (fun h' r' res => same_resource r r' /\
         (res = Ok true -> identified h' (r_stable_id r')))).
       apply observe_identifies, Ha. by eapply list_elem_of_lookup_2. }
  intros h' [[r' res]|e]; [|done]. intros (Hg & Hs & Hid). state_steps. apply swp_said. split.
  - cbn. intros x [->|Hx]%inserted_elem; [|by eapply accounted_goes].
    eapply recorded_same; [exact Hs|]. eapply recorded_goes; [exact Hg|]. apply Ha. by eapply list_elem_of_lookup_2.
  - cbn [snd]. intros ->. exists r'. split; [|by apply Hid]. cbn. apply list_lookup_insert_eq. by eapply lookup_lt_Some.
Qed.

Lemma accounts_observed i : accounts (at_process i (observe parse_document graph)).
Proof. intros s h Ha. eapply swp_mono; [|by apply observed_spec]. by intros h' s' r [H _]. Qed.

(** A program that stops or removes one thing that was identified *)
Definition aims (id : string) (c : sys) : Prop :=
  match c with RunFor argv _ _ => target argv = None \/ target argv = Some id | _ => True end.

Lemma wp_aimed {A} id (p : Prog A) s h : calls_only (aims id) p -> accounted h s -> identified h id ->
  wp allowed p h (fun h' _ => accounted h' s).
Proof.
  intros Hp Ha Hid.
  eapply wp_mono; [|apply (wp_calls (aims id) allowed (fun h => accounted h s /\ identified h id)); [done| |done]].
  { by intros h' r [H _]. }
  intros h' c [Ha' Hid'] Hc. split.
  - destruct c; cbn in *; try done. by destruct Hc as [-> | ->].
  - intros x. assert (goes h' (ev c x :: h')) as Hg by by eexists [_].
    split; [by eapply accounted_goes|by eapply identified_goes].
Qed.

Lemma aimed_spec {A} id (p : Prog A) s h : calls_only (aims id) p -> accounted h s -> identified h id ->
  swp allowed (lift p) s h (fun h' s' _ => accounted h' s').
Proof. intros Hp Ha Hid. by apply swp_lift, (wp_aimed id). Qed.

Lemma harmless_aims {A} id (p : Prog A) : harmless_calls p -> calls_only (aims id) p.
Proof. apply calls_mono. intros c. destruct c; cbn; tauto. Qed.
Lemma aims_do id argv : target ("docker" :: argv) = Some id -> calls_only (aims id) (docker_do argv).
Proof.
  intros Ht. unfold docker_do, docker, call_for.
  repeat (apply calls_and_then; [|intros a]); try apply calls_of_result; try done; [by split; [right|]|].
  by destruct (_ || _).
Qed.

(** What is aimed at is found by an observation before it. *)
Lemma found_spec i s h (k : string -> stateful (C := sys) (R := answer) OwnershipState unit) :
  accounted h s -> found_at i h s ->
  (forall id, identified h id -> swp allowed (k id) s h (fun h' s' _ => accounted h' s')) ->
  swp allowed (bind_state (stable_id i) k) s h (fun h' s' _ => accounted h' s').
Proof.
  intros Ha (p & Hp & Hid) Hk. unfold stable_id. state_steps. rewrite Hp. by apply Hk.
Qed.

Create HintDb accounts discriminated.

Ltac account_step :=
  match goal with
  | |- kept _ _ _ => solve [auto with accounts nocore]
  | |- kept _ _ (bind_state (modify _) (fun _ => save)) => apply accounts_saves
  | |- kept _ _ (bind_state (modify _) (fun _ => bind_state save _)) => apply accounts_saved; intros ?
  | |- kept _ _ (bind_state (modify _) (fun _ => Native.save)) => apply accounts_saves
  | |- kept _ _ (bind_state (modify _) (fun _ => bind_state Native.save _)) => apply accounts_saved; intros ?
  | |- kept _ _ save => apply accounts_save
  | |- kept _ _ Native.save => apply accounts_save
  | |- kept _ _ (register _) => apply accounts_register
  | |- kept _ _ (at_process _ _) => apply accounts_observed
  | |- kept _ _ (bind_state current _) => apply kept_current; intros ? ? ?
  | |- kept _ _ (bind_state _ _) => apply kept_bind; [|intro]
  | |- kept _ _ (catch_state _ _) => apply kept_catch; [|intro]
  | |- kept _ _ (returns _) => apply kept_returns
  | |- kept _ _ (raises _) => apply kept_raises
  | |- kept _ _ (raise _) => apply kept_raises
  | |- kept _ _ (fail _) => apply kept_raises
  | |- kept _ _ (for_each_state _ _) => apply kept_for_each; intros ? ?
  | |- kept _ _ (fold_state _ _ _) => apply kept_fold; intros ? ? ?
  | |- kept _ _ (said _) => apply accounts_said
  | |- kept _ _ (pure _) => apply accounts_said
  | |- kept _ _ (rejected _ _) => apply accounts_rejected
  | |- kept _ _ (modify _) => apply accounts_modify; reflexivity
  | |- kept _ _ (sys_run _) => apply accounts_lift; harmless_prog
  | |- kept _ _ (lift _) => apply accounts_lift; harmless_prog
  | |- kept _ _ (each_process _ _) => apply accounts_each; intros ? ?
  | |- kept _ _ (match ?x with _ => _ end) => destruct x
  | |- kept _ _ (let '(_, _) := ?x in _) => destruct x
  end.
Ltac account := cbv zeta; repeat (account_step; cbv beta zeta).

(** *** The infrastructure *)

Lemma harmless_routine c : routine c -> harmless c.
Proof. intros [[H|H]|[i ->]]; [by destruct c..|done]. Qed.

Lemma accounted_routine s h c : accounted h s -> routine c -> allowed h c /\ forall x, accounted (ev c x :: h) s.
Proof. intros Ha Hc. by apply accounted_harmless, harmless_routine. Qed.

Lemma harmless_removing {A} (p : Prog A) : calls_only (fun c => match c with RunFor _ _ _ => False | _ => True end) p -> harmless_calls p.
Proof. apply calls_mono. by intros []. Qed.

Ltac removing_step :=
  match goal with
  | |- calls_only _ (succeeds _) => apply calls_succeeds; exact I
  | |- calls_only _ (run _) => apply calls_run; exact I
  | |- calls_only _ _ => solve [apply harmless_looking; auto with host nocore]
  | |- calls_only _ _ => solve [auto with harmless nocore]
  | |- calls_only _ _ => class_step
  end.
Ltac removing := cbv zeta; repeat (removing_step; cbv beta zeta).

Lemma harmless_link e r s : harmless_calls (delete_link e r s).
Proof. unfold delete_link. removing. Qed.
Hint Resolve harmless_link : harmless.
Lemma harmless_endpoint e s config : harmless_calls (delete_owned_endpoint e s config).
Proof. unfold delete_owned_endpoint. removing. Qed.
Lemma harmless_namespace n s : harmless_calls (delete_owned_namespace n s).
Proof. unfold delete_owned_namespace. removing. Qed.
Lemma harmless_bridge b s : harmless_calls (delete_owned_bridge b s).
Proof. unfold delete_owned_bridge. removing. Qed.

Lemma wp_harmless {A} (p : Prog A) : harmless_calls p -> forall s h, accounted h s -> wp allowed p h (fun h _ => accounted h s).
Proof.
  intros Hp s h. apply (wp_calls harmless allowed (fun h => accounted h s)); [done|]. intros h' c Ha. by apply accounted_harmless.
Qed.

Lemma accounted_owner h s s' : accounted h s -> same_owner s s' -> accounted h s'.
Proof. intros Ha [_ Hp] r. rewrite Hp. apply Ha. Qed.

Ltac account_conditions :=
  first [ exact accounted_routine | exact accounts_save | exact accounted_owner
        | by intros h s s' Ha [Ho _]; eapply accounted_owner
        | intros h s x cfg Hs; exact (wp_harmless _ (harmless_endpoint x s cfg))
        | intros h s x Hs; exact (wp_harmless _ (harmless_namespace x s))
        | intros h s x Hs; exact (wp_harmless _ (harmless_bridge x s)) ].

Section Network.
Context (load_all : string -> option (list Yaml.node)) (conversions : Yaml.Conversions)
        (to_chars : spec_float -> string) (sha256 : string -> string) (show_double : spec_float -> string)
        (opts : ExecutionOptions).

Lemma accounts_expect config : accounts (LifecycleCreate.expect_infrastructure sha256 config).
Proof.
  unfold LifecycleCreate.expect_infrastructure, LifecycleCreate.expect_router, LifecycleCreate.expect_endpoint,
    LifecycleCreate.expect_capture, LifecycleCreate.expect_fault.
  account; try (apply harmless_looking; class_prog).
Qed.

Lemma accounts_create config context path :
  accounts (LifecycleCreate.create_action load_all conversions parse_document to_chars sha256 show_double config context path).
Proof.
  unfold LifecycleCreate.create_action. apply kept_bind; [apply accounts_expect|intros held].
  apply kept_bind; [apply accounts_save|intros _]. apply kept_catch.
  - apply kept_realize with (planned := fun _ => True); try done; try account_conditions.
    intros s h c r Ha _ Hc. apply accounted_harmless; [done|]. by destruct c.
  - intros e. apply kept_bind; [|intros _; apply kept_raises]. apply kept_rollback; account_conditions.
Qed.

Lemma accounts_destroy config hash path recovering context :
  accounts (destroy_action parse_document to_chars sha256 config hash path recovering context).
Proof. apply kept_destroy; account_conditions. Qed.

Lemma harmless_status_action config hash root path unavailable : harmless_calls
  (status_action load_all conversions parse_document to_chars sha256 config hash root path unavailable).
Proof.
  eapply calls_mono; [|apply LifecycleTheorems.status_reads]. intros c [Hc|Hc]; by destruct c.
Qed.

Lemma accounts_execute config path action context :
  accounts (execute_ovs_lifecycle load_all conversions parse_document to_chars sha256 show_double config path action
    false (x_state_root opts) context).
Proof.
  unfold execute_ovs_lifecycle. account.
  - apply accounts_create.
  - apply accounts_destroy.
  - apply harmless_status_action.
  - apply accounts_destroy.
Qed.

Lemma harmless_unavailable s : harmless_calls (unavailable_services parse_document graph s).
Proof. unfold unavailable_services. harmless_prog. Qed.
Hint Resolve harmless_unavailable : harmless.

Lemma accounts_network resolved action validate : accounts
  (network_action parse_document load_all conversions to_chars sha256 show_double opts resolved graph action validate).
Proof. unfold network_action. account. apply accounts_execute. Qed.

(** *** Stopping *)

Context (resolved : Value) (ovs : bool).

Lemma accounts_network_any validate : accounts
  (network_if_any parse_document load_all conversions to_chars sha256 show_double opts resolved graph ovs validate).
Proof. unfold network_if_any. account. apply accounts_network. Qed.

Lemma accounts_barrier path message : accounts (remove_barrier path message).
Proof. unfold remove_barrier. account. Qed.

Lemma observed_or (b : bool) i s h : accounted h s ->
  swp allowed (if b then at_process i (observe parse_document graph) else returns false) s h (fun h' s' r =>
    accounted h' s' /\ (r = Ok true -> found_at i h' s')).
Proof. intros Ha. destruct b; [by apply observed_spec|by state_steps]. Qed.

Lemma accounts_stop_node i r : accounts (stop_node parse_document resolved graph i r).
Proof.
  unfold stop_node. apply kept_bind; [account|]. intros node s h Ha. apply swp_bind.
  eapply swp_mono; [|by apply observed_or]. intros h1 s1 [[]|e] [Ha1 Hf]; cbn [negb]; [|by state_steps|done].
  apply found_spec; [done|by apply Hf|]. intros id Hid. apply swp_bind.
  eapply swp_mono; [|apply swp_harmless, harmless_running]. intros h2 s2 [alive|e] [Hg ->]; [|by eapply accounted_goes].
  assert (accounted h2 s1) as Ha2 by by eapply accounted_goes.
  destruct alive; [|by state_steps]. apply (aimed_spec id); [by apply aims_do|done|by eapply identified_goes].
Qed.

Lemma aims_container r id : calls_only (aims id) (remove_container parse_document opts graph r id).
Proof.
  unfold remove_container. apply calls_and_then; [apply harmless_aims; harmless_prog|intros object].
  apply calls_and_then; [apply calls_of_result|intros alive].
  apply calls_and_then; [destruct alive; [by apply aims_do|done]|intros _].
  apply calls_and_then; [apply harmless_aims; harmless_prog|intros log].
  apply calls_and_then; [apply harmless_aims; harmless_prog|intros _]. by apply aims_do.
Qed.

Lemma accounts_remove i r : accounts (remove_resource parse_document opts graph i r).
Proof.
  unfold remove_resource. destruct (is_retained graph r); [apply kept_returns|]. intros s h Ha. apply swp_bind.
  eapply swp_mono; [|by apply observed_spec]. intros h1 s1 [present|e] [Ha1 Hf]; [|done].
  apply swp_bind.
  eapply (swp_mono _ _ _ _ (fun h' s' _ => accounted h' s')).
  - intros h2 s2 [[]|e] Ha2; [|done]. by apply (accounts_saves (erase_process i)).
  - destruct present; [|by state_steps]. apply found_spec; [done|by apply Hf|]. intros id Hid.
    apply (aimed_spec id); [|done|done]. destruct (is_kind_of "container" r); [apply aims_container|by apply aims_do].
Qed.

Abbreviation stop_all := (stop parse_document load_all conversions to_chars sha256 show_double opts resolved graph ovs).

Lemma accounts_stop : accounts stop_all.
Proof.
  unfold stop, observe_process, stop_native. account; first
    [ apply accounts_network_any | apply accounts_barrier | apply accounts_stop_node | apply accounts_remove ].
Qed.

Lemma accounts_down : accounts (down parse_document load_all conversions to_chars sha256 show_double opts resolved graph ovs).
Proof. unfold down. account. apply accounts_stop. Qed.

Lemma harmless_report s r live : harmless_calls (report_resource parse_document resolved graph s r live).
Proof. unfold report_resource, report_container. harmless_prog. Qed.
Hint Resolve harmless_report : harmless.

Lemma accounts_status : accounts
  (report_status parse_document load_all conversions to_chars sha256 show_double opts resolved graph ovs).
Proof. unfold report_status. account. apply accounts_network. Qed.

(** *** Starting *)

Context (rounds fuel : nat) (regex_search : string -> string -> bool) (guest_schema runtime_types : string).

Lemma harmless_images : harmless_calls (verify_images parse_document opts).
Proof. unfold verify_images, verify_image, read. harmless_prog. Qed.
Lemma harmless_copies : harmless_calls (copy_configuration opts graph).
Proof. unfold copy_configuration, copy_entry. harmless_prog. Qed.
Lemma harmless_barriers : harmless_calls (prepare_barriers opts graph).
Proof. unfold prepare_barriers. harmless_prog. Qed.
Lemma harmless_checkpoint : harmless_calls ComposeUp.checkpoint.
Proof. unfold ComposeUp.checkpoint. harmless_prog. Qed.
Lemma harmless_load item images : harmless_calls (load_image parse_document opts item images).
Proof. unfold load_image, ComposeUp.checkpoint, first_object. harmless_prog. Qed.
Hint Resolve harmless_images harmless_copies harmless_barriers harmless_checkpoint harmless_load : harmless.

Lemma accounts_own kind name expected : accounts (own parse_document kind name expected).
Proof.
  unfold own. apply kept_bind; [account|intros object]. destruct (negb _); [account|]. apply kept_current. intros s h _.
  apply accounts_saved. intros _. account.
Qed.
Hint Resolve accounts_own : accounts.

Lemma accounts_handoff : accounts (handoff_if_captured opts resolved graph ovs).
Proof. unfold handoff_if_captured, prepare_handoff. account. Qed.
Lemma accounts_volume name : accounts (prepare_volume parse_document graph name).
Proof. unfold prepare_volume. account. Qed.
Lemma accounts_stage config image : accounts (ComposeUp.stage_credentials parse_document to_chars opts resolved graph config image).
Proof.
  unfold ComposeUp.stage_credentials, stable_id, external_credentials, external_entry, external_member, read. account.
Qed.
Hint Resolve accounts_handoff accounts_volume accounts_stage : accounts.

Lemma harmless_mounts m service : harmless_calls (service_mounts opts resolved graph ovs m service).
Proof. unfold service_mounts, mount, confined_source. harmless_prog. Qed.
Lemma harmless_image images pin : harmless_calls (service_image parse_document images pin).
Proof. unfold service_image, first_object. harmless_prog. Qed.
Hint Resolve harmless_mounts harmless_image : harmless.
Lemma accounts_realize config images volumes source :
  accounts (realize_compose parse_document to_chars opts resolved graph ovs config images volumes source).
Proof. unfold realize_compose, realize_network, realize_service. account. Qed.

Lemma harmless_compose argv : harmless_calls (compose_do opts graph argv).
Proof. unfold compose_do. harmless_prog. Qed.
Hint Resolve accounts_realize : accounts.
Hint Resolve harmless_compose : harmless.
Lemma harmless_says id script : harmless_calls (node_says_ready id script).
Proof. unfold node_says_ready. harmless_prog. Qed.
Hint Resolve harmless_says : harmless.
Lemma harmless_platform n id deadline : harmless_calls (await_platform parse_document resolved n id deadline).
Proof. induction n as [|n IH]; cbn [await_platform]; harmless_prog. Qed.
Lemma harmless_extension n name id script deadline : harmless_calls (await_extension n name id script deadline).
Proof. induction n as [|n IH]; cbn [await_extension]; harmless_prog. Qed.
Hint Resolve harmless_platform harmless_extension : harmless.
Lemma accounts_platform : accounts (start_platform rounds parse_document opts resolved graph).
Proof. unfold start_platform, start_extension. account. Qed.

Lemma accounts_start options : accounts (start_native_process options register).
Proof. apply kept_start; [exact accounted_routine|exact accounts_register]. Qed.
Hint Resolve accounts_platform accounts_start : accounts.

Lemma harmless_owned r s : harmless_calls (namespace_owned r s).
Proof. apply harmless_looking. auto with host. Qed.
Hint Resolve harmless_owned : harmless.
Lemma accounts_start_network : accounts
  (start_network load_all conversions parse_document to_chars sha256 show_double opts resolved graph ovs).
Proof. unfold start_network, network_do, start_diagnostic. account; apply accounts_network. Qed.

Lemma accounts_guest options guest node credentials directory token limit :
  accounts (Guest.start_guest rounds parse_document sha256 to_chars options guest node credentials directory token limit register).
Proof.
  unfold Guest.start_guest. account; [apply kept_start; [exact accounted_routine|intros; apply accounts_register]|].
  apply harmless_handshake.
Qed.
Hint Resolve accounts_start_network accounts_guest : accounts.
Lemma accounts_guests verified credentials : accounts
  (start_guests rounds parse_document to_chars sha256 opts resolved graph verified credentials).
Proof. unfold start_guests, ComposeUp.start_guest. account. Qed.
Hint Resolve accounts_guests : accounts.

Lemma accounts_admission n deadline names : accounts (ComposeUp.admission parse_document resolved graph n deadline names).
Proof.
  induction n as [|n IH]; cbn [ComposeUp.admission]; unfold look_at_application, application_exited; account.
Qed.
Hint Resolve accounts_admission : accounts.

(** An application that is late is stopped by the identifier of its copy. *)
Lemma wp_stop_late s r h : r ∈ processes s -> accounted h s ->
  wp allowed (stop_late parse_document graph s r) h (fun h' _ => accounted h' s).
Proof.
  intros Hr Ha. unfold stop_late. destruct (is_kind_of "container" r); cbn [negb]; [|done].
  apply wp_and_then, wp_of_result. destruct (service_name graph r) as [name|e]; [|done].
  destruct (bool_decide _); cbn [negb]; [|done]. unfold observe_copy. apply wp_and_then, wp_and_then.
  eapply wp_mono; [|apply swp_grows, observe_identifies, Ha, Hr]. intros h1 [[r1 res]|e] Hx; [|done].
  destruct Hx as (Hg & _ & Hid). assert (accounted h1 s) as Ha1 by by eapply accounted_goes.
  apply wp_and_then, wp_of_result. destruct res as [[]|e]; cbn [fst snd negb]; [|done..].
  apply (wp_aimed (r_stable_id r1)); [by apply aims_do|done|by apply Hid].
Qed.

Lemma accounts_late s0 : kept allowed (fun h s => accounted h s /\ s = s0)
  (lift (for_each_in (fun r _ => stop_late parse_document graph s0 r) (processes s0) tt)).
Proof.
  intros s h [Ha ->]. apply swp_lift.
  eapply wp_mono; [|apply (wp_for_each _ _ (fun h _ => accounted h s0) (fun h _ => accounted h s0)); [done|]].
  - by intros h' [u|e] H.
  - intros r h' u Hr Ha'. eapply wp_mono; [|by apply wp_stop_late]. by intros h2 [[]|e].
Qed.

Lemma harmless_diagnostic n r deadline : harmless_calls (await_diagnostic opts graph n r deadline).
Proof. induction n as [|n IH]; cbn [await_diagnostic]; harmless_prog. Qed.
Hint Resolve harmless_diagnostic : harmless.

Lemma accounts_stop_late {A} (k : OwnershipState -> Run A) : (forall s, accounts (k s)) ->
  accounts (bind_state current (fun s =>
    bind_state (lift (for_each_in (fun r _ => stop_late parse_document graph s r) (processes s) tt)) (fun _ => k s))).
Proof.
  intros Hk s h Ha. state_steps. eapply swp_mono; [|by apply (accounts_late s)].
  intros h' s' [u|e] [Ha' _]; [by apply Hk|done].
Qed.

Lemma accounts_applications names : accounts (await_applications rounds parse_document opts resolved graph names).
Proof.
  unfold await_applications. do 4 (apply kept_bind; [account|intros ?]; cbv beta zeta).
  refine (accounts_stop_late (fun s => _) _). intros s. unfold diagnostic_ready. account.
Qed.
Hint Resolve accounts_applications : accounts.

Lemma accounts_release guests : accounts
  (release_graph rounds load_all conversions parse_document to_chars sha256 show_double opts resolved graph ovs guests).
Proof. unfold release_graph, network_do, confirm, stable_id. account; apply accounts_network. Qed.

Lemma accounts_start_handoff : accounts (start_handoff opts graph ovs).
Proof. unfold start_handoff. account. Qed.
Hint Resolve accounts_release accounts_start_handoff : accounts.

Lemma accounts_console root : accounts (prepare_node_console root).
Proof. unfold prepare_node_console, remove_console, directory_identity, check_retained, remove_entry, create_console. account. Qed.
Lemma accounts_relay : accounts (start_node_console opts).
Proof. unfold start_node_console, stage_relay, inherit. account. Qed.
Hint Resolve accounts_console accounts_relay : accounts.

Lemma accounts_up verified has_guests : accounts
  (up rounds load_all conversions parse_document to_chars sha256 show_double runtime_types opts resolved graph ovs
     verified has_guests).
Proof. unfold up, guarded_startup, startup, stop_graph. account. apply accounts_stop. Qed.

Lemma accounts_run verified has_guests : accounts
  (run_action rounds load_all conversions parse_document to_chars sha256 show_double runtime_types opts resolved graph ovs
     has_guests verified).
Proof. unfold run_action. account; [apply accounts_status|apply accounts_down|apply accounts_up]. Qed.

End Network.

(** *** All actions *)

Section Execution.
Context (rounds fuel : nat) (load_all : string -> option (list Yaml.node)) (conversions : Yaml.Conversions)
        (to_chars : spec_float -> string) (sha256 : string -> string) (show_double : spec_float -> string)
        (regex_search : string -> string -> bool) (guest_schema runtime_types : string)
        (opts : ExecutionOptions) (resolved : Value).

Lemma harmless_authorize : harmless_calls (ComposeUp.authorize_infrastructure opts resolved).
Proof. unfold authorize_infrastructure. harmless_prog. Qed.
Lemma harmless_startup root : harmless_calls (check_startup opts resolved root).
Proof. unfold check_startup. harmless_prog. Qed.
Lemma harmless_socket : harmless_calls check_docker_socket.
Proof. unfold check_docker_socket. harmless_prog. Qed.
Lemma harmless_lock n path waits deadline : harmless_calls (lock_graph n path waits deadline).
Proof. induction n as [|n IH]; cbn [lock_graph]; harmless_prog. Qed.
Hint Resolve harmless_authorize harmless_startup harmless_socket harmless_lock : harmless.

Lemma wp_harmless_first {A B} (p : Prog A) (k : A -> Prog B) h Q : harmless_calls p ->
  (forall h' a, wp allowed (k a) h' Q) -> (forall h' e, Q h' (Throw e)) -> wp allowed (and_then p k) h Q.
Proof.
  intros Hp Hk He. apply wp_and_then. eapply wp_mono; [|apply (wp_calls harmless allowed (fun _ => True)); [done| |done]].
  - intros h' [a|e] _; [apply Hk|apply He].
  - intros h' c _ Hc. by split; [apply harmless_allowed|].
Qed.

(** The ledger of the run is the one that was loaded, or an empty one. *)
Lemma open_spec file name hash h : wp allowed (open_ledger file name hash) h (fun h' r =>
  match r with Ok s => accounted h' s | Throw _ => True end).
Proof.
  unfold open_ledger. apply wp_and_then. split; [done|]. intros [].
  - apply wp_and_then, wp_and_then. split; [done|]. intros [s|e]; [|done]. cbn [of_result wp].
    destruct (_ || _); [done|]. intros r Hr. exists (ev (Load file) (Ok s)), s, r. split; [by left|]. do 2 (split; [done|]). apply same_refl.
  - apply wp_and_then. split; [done|]. intros token r Hr. by inversion Hr.
Qed.

Definition compose_program : Prog Z :=
  execute_compose rounds fuel load_all conversions parse_document to_chars sha256 show_double regex_search guest_schema
    runtime_types opts resolved.

Lemma compose_allowed : ConfigValue.text_at resolved "graph_id" = Ok graph -> wp allowed compose_program [] (fun _ _ => True).
Proof.
  intros Hgraph. unfold compose_program, execute_compose. rewrite Hgraph. cbn [of_result and_then].
  repeat first
    [ apply wp_harmless_first; [solve [harmless_prog]|intros ? ?|done]
    | match goal with |- wp _ (match ?x with _ => _ end) _ _ => destruct x end ].
  - done.
  - apply wp_and_then. eapply wp_mono; [|apply open_spec]. intros h1 [s|e] Ha; [|done]. unfold ScenarioRun.in_ledger.
    apply wp_and_then. eapply wp_mono; [|by apply accounts_run].
    intros h2 [[s' r]|e] _; [by apply wp_of_result|done].
Qed.
End Execution.
End Identity.

(** C11: Whatever [docker stop --time _ ID] or [docker KIND rm ID] names during any
    run of a Compose graph had been shown by [docker inspect] before, for a
    resource of the ledger that was loaded or saved: the object of this
    identifier had the labels of the resource's owner and of the graph, and a
    container had the name and the image of the resource too.  This is so for
    any answers of Docker and of the system, at any point of a run and after any
    failure.  (The container that stages credentials is removed by [docker rm ID].) *)
Theorem runner_stops_own rounds fuel load_all conversions parse_document to_chars sha256 show_double regex_search
    guest_schema runtime_types opts resolved graph l1 argv input timeout x l2 id :
  reaches (execute_compose rounds fuel load_all conversions parse_document to_chars sha256 show_double regex_search
    guest_schema runtime_types opts resolved) (l1 ++ ev (RunFor argv input timeout) x :: l2) ->
  ConfigValue.text_at resolved "graph_id" = Ok graph -> target argv = Some id ->
  identified parse_document graph (rev l1) id.
Proof.
  intros Hr Hg Ht. eapply wp_reaches in Hr; [|by apply (compose_allowed parse_document graph)].
  rewrite app_nil_r in Hr. cbn in Hr. by rewrite Ht in Hr.
Qed.

(** ** Example: one container is taken down *)

Definition radio : Value :=
  obj [("Id", VStr "c0ffee"); ("Name", VStr "/graphx-g-radio"); ("Image", VStr "sha256:1"); ("CreatedAt", VStr "now");
       ("State", obj [("Running", VBool true)]);
       ("Config", obj [("Labels", obj [("org.graphx.owner", VStr "token"); ("org.graphx.graph", VStr "g")])])].
Definition radio_documents (text : string) : result Value := Ok (VArr [radio]).
Definition radio_graph : Value :=
  obj [("graph_id", VStr "g"); ("nodes", VArr []); ("network", obj [("switches", VArr [])])].
Definition radio_options : ExecutionOptions :=
  {| x_action := "down"; x_scenario_action := ""; x_allow_privileged := false; x_owner_token := "";
     x_output := "/out"; x_state_root := "/state"; x_release := "/release"; x_credentials := "";
     x_images := ""; x_external_credentials := "" |}.
Definition radio_ledger : OwnershipState :=
  rebuild empty_state [] "" "" "hash" "g" "token" "ready" ∅ ∅ "" 0 0
    [OwnershipState.process_identity "container" "graphx-g-radio" "pending" "sha256:1" "token" "" ""].

Definition shown : CommandResult :=
  {| c_status := 0; c_exec_error := 0; c_output := "radio"; c_output_truncated := false |}.
Definition radio_host (h : list Event) (c : sys) : option (answer c) :=
  match c as c return option (answer c) with
  | RunFor _ _ _ => Some (Ok shown)
  | Load _ => Some (Ok radio_ledger)
  | Hash _ => Some (Ok "hash")
  | Exists path => Some (ends_with path "ownership.yml")
  | Lstat _ => Some (lstat_found (sample_directory file_directory 1))
  | LockCreate _ | Save _ => Some (Ok tt)
  | Now => Some 0
  | WriteFile _ _ | Chmod _ _ => Some true
  | Print _ => Some tt
  | _ => None
  end.
Definition radio_program : Prog Z :=
  execute_compose 3 9 (fun _ => None) {| Yaml.as_string := fun _ => None; Yaml.as_int := fun _ => None;
      Yaml.as_unsigned := fun _ _ => None; Yaml.as_bool := fun _ => None; Yaml.as_double := fun _ => None;
      Yaml.show_int := to_string; Yaml.show_bool := fun _ => ""; Yaml.show_double := fun _ => "" |}
    radio_documents (fun _ => "0") (fun s => s) (fun _ => "0") (fun _ _ => true) "" "" radio_options radio_graph.
Definition radio_run : list Event * option (result Z) := simulate radio_host radio_program [].

(** The run up to the removal of the container *)
Definition removes_radio (c : sys) : bool :=
  match c with RunFor argv _ _ => bool_decide (argv = ["docker"; "container"; "rm"; "c0ffee"]) | _ => false end.
Definition radio_before : list Event := take (index_of removes_radio radio_run.1) radio_run.1.

Lemma runner_stops_own_witness : identified radio_documents "g" (rev radio_before) "c0ffee" /\ radio_run.2 = Some (Ok 0).
Proof.
  assert (reaches radio_program (radio_before ++ ev (RunFor ["docker"; "container"; "rm"; "c0ffee"] "" 30000) (Ok shown)
            :: drop (S (length radio_before)) radio_run.1)) as H.
  { match goal with |- reaches _ ?l => replace l with radio_run.1 by (vm_compute; reflexivity) end.
    apply (simulate_reaches radio_host). }
  split; [|vm_compute; reflexivity]. unfold radio_program in H.
  eapply (runner_stops_own _ _ _ _ _ _ _ _ _ _ _ radio_options radio_graph "g"); [exact H|reflexivity..].
Defined.

(** ** What a service can read of the host *)

(** The path was a directory, or a file with one name. *)
Definition looked (h : list Event) (path : string) : Prop :=
  exists m, ev (Lstat path) (lstat_found m) ∈ h /\
    (st_kind m = file_directory \/ st_kind m = file_regular /\ st_nlink m = 1).

(** A canonical path, and everything above it, was looked at. *)
Definition inspected (h : list Event) (path : string) : Prop :=
  exists l, canonical_components path = Some l /\ Forall (looked h) ("/" :: extend_each "" l).

Lemma looked_goes h h' path : goes h h' -> looked h path -> looked h' path.
Proof. intros Hg (m & He & Hm). exists m. split; [by eapply GuestProofs.elem_goes|done]. Qed.
Lemma inspected_goes h h' path : goes h h' -> inspected h path -> inspected h' path.
Proof.
  intros Hg (l & Hl & Hf). exists l. split; [done|]. eapply Forall_impl; [exact Hf|]. intros x. by apply looked_goes.
Qed.

Lemma wp_component path h : wp any (safe_component false path) h (fun h' r => r = Ok tt -> looked h' path).
Proof.
  unfold safe_component. split; [done|]. intros [m| |]; [|done..].
  cbn [and_then].
  destruct (st_kind m) eqn:Hk; [|destruct (Z.eqb_spec (st_nlink m) 1); [|done]|done..]; intros _; exists m;
    (split; [by left|]); [by left|by right].
Qed.

Lemma wp_components l h : wp any (for_each_in (fun path _ => safe_component false path) l tt) h (fun h' r =>
  r = Ok tt -> Forall (looked h') l).
Proof.
  revert h; induction l as [|path l IH]; intros h; [by constructor|]. apply wp_and_then.
  eapply wp_mono; [|apply wp_component]. intros h1 [[]|e] Hl; [|done].
  eapply wp_mono; [|apply grows, IH]. intros h2 r [Hg Hr] E. constructor; [|by apply Hr]. eapply looked_goes; [exact Hg|by apply Hl].
Qed.

Lemma wp_path path h : wp any (safe_execution_path path false) h (fun h' r => r = Ok tt -> inspected h' path).
Proof.
  unfold safe_execution_path, inspected. destruct (canonical_components path) as [l|]; [|done].
  eapply wp_mono; [|apply wp_components]. intros h' r Hr E. exists l. split; [done|by apply Hr].
Qed.

Section Mounts.
Context (opts : ExecutionOptions) (resolved : Value) (graph : string) (ovs : bool).
Abbreviation root := (Compose.root opts graph).

Definition inside (config source : string) : Prop :=
  (exists rest, source = config +:+ "/" +:+ rest) \/ same_path source (slash root "barriers") = true.

(** A volume of the graph, or a directory of the host to read: one of the run,
    or one below the copied compilation that was looked at *)
Inductive mounted (h : list Event) (m : Mounting) (v : Value) : Prop :=
| mounted_volume name :
    ConfigValue.text_at v "type" = Ok "volume" -> ConfigValue.text_at v "source" = Ok (owned_name graph name) ->
    mounted h m v
| mounted_bind source :
    ConfigValue.text_at v "type" = Ok "bind" -> boolean_at v "read_only" = Ok true ->
    ConfigValue.text_at v "source" = Ok source ->
    m_service m = "platform" /\ source ∈ [slash root (m_console m); slash root (m_handoff m)]
      \/ inside (m_config m) source /\ inspected h source ->
    mounted h m v.

Lemma mounted_goes h h' m v : goes h h' -> mounted h m v -> mounted h' m v.
Proof.
  intros Hg [name Ht Hn|source Ht Hr Hs [H|[Hi Hh]]]; [by eapply mounted_volume|eapply mounted_bind; eauto..].
  right. split; [done|by eapply inspected_goes].
Qed.

Lemma wp_source m source h : wp any (confined_source opts graph m source) h (fun h' r =>
  match r with Ok path => inside (m_config m) path /\ inspected h' path | Throw _ => True end).
Proof.
  unfold confined_source. apply wp_and_then.
  assert (forall A (p : Prog A) h Q, (forall h r, Q h r) -> wp any p h Q) as Htrue.
  { intros A p h' Q HQ. revert h'; induction p as [a|e|c k IH]; intros h'; cbn; [done..|]. split; [done|]. intros x. apply IH. }
  apply Htrue. intros h1 [path|e]; [|done]. destruct (lexically_normal path) as [p|]; [|done].
  destruct (same_path p (slash root "barriers")) eqn:Hb; cbn [negb andb].
  2: destruct (Text.starts_with p (m_config m +:+ "/")) eqn:Hs; cbn [negb]; [|done].
  all: apply wp_and_then; eapply wp_mono; [|apply wp_path]; intros h2 [[]|e] Hp; [|done]; (split; [|by apply Hp]).
  - by right.
  - left. apply prefix_app in Hs as [rest ->]. exists rest. symmetry. apply ConfigRender.sapp_assoc.
Qed.

Lemma wp_mount m v mounts h : Forall (mounted h m) mounts ->
  wp any (mount opts graph ovs m v mounts) h (fun h' r => goes h h' /\
    match r with Ok l => Forall (mounted h' m) l | Throw _ => True end).
Proof.
  intros Hm. apply grows. unfold mount. apply wp_and_then, wp_of_result. destruct (text v) as [text|e]; [|done].
  destruct (split_mount text) as [source target].
  assert (forall w, mounted h m w -> Forall (mounted h m) (mounts ++ [w])) as Hadd.
  { intros w Hw. apply Forall_app. by split; [|constructor]. }
  destruct (Text.starts_with source credentials_prefix); [by apply Hadd, (mounted_volume _ _ _ "credentials")|].
  destruct (String.eqb target "/run/graphx/console" && String.eqb (m_service m) "platform") eqn:E1.
  { apply Hadd, (mounted_bind _ _ _ (slash root (m_console m))); try done. left. reflect_bools. split; [done|by left]. }
  destruct (String.eqb target "/captures" && String.eqb (m_service m) "platform") eqn:E2.
  { destruct (ovs && negb (is_empty (m_handoff m))); [|done].
    apply Hadd, (mounted_bind _ _ _ (slash root (m_handoff m))); try done. left. reflect_bools. split; [done|by right; left]. }
  destruct (String.eqb target "/captures"); [by apply Hadd, (mounted_volume _ _ _ ("capture-" +:+ m_service m))|].
  destruct (String.eqb target "/var/lib/graphx/history"); [by apply Hadd, (mounted_volume _ _ _ "history")|].
  apply wp_and_then. eapply wp_mono; [|apply grows, wp_source]. intros h1 [path|e] [Hg Hp]; [|done].
  cbn [wp]. apply Forall_app. split; [|constructor; [|done]].
  - eapply Forall_impl; [exact Hm|]. intros w. by apply mounted_goes.
  - apply (mounted_bind _ _ _ path); try done. by right.
Qed.

Lemma captured_mounted node mounts l h m : captured_mount graph node mounts = Ok l ->
  Forall (mounted h m) mounts -> Forall (mounted h m) l.
Proof.
  unfold captured_mount. destruct (captures_itself node) as [[]|e]; cbn [bind]; [|by intros [= <-]|done].
  destruct (ConfigValue.text_at node "node_id") as [id|e]; [|done]. intros [= <-] Hm.
  apply Forall_app. split; [done|]. constructor; [|done].
  by apply (mounted_volume _ _ _ ("capture-" +:+ id)).
Qed.

Lemma wp_mounts m service h : wp any (service_mounts opts resolved graph ovs m service) h (fun h' r =>
  match r with Ok l => Forall (mounted h' m) l | Throw _ => True end).
Proof.
  unfold service_mounts. apply wp_and_then, wp_of_result. destruct (array_at service "volumes") as [declared|e]; [|done].
  apply wp_and_then. eapply wp_mono; [|apply (wp_for_each _ _ (fun h l => Forall (mounted h m) l) (fun _ _ => True)); [by constructor|]].
  - intros h1 [mounts|e] Hm; [|done]. destruct (String.eqb _ _); [|done].
    apply wp_and_then, wp_of_result. destruct (array_at resolved "nodes") as [nodes|e]; [|done]. apply wp_of_result.
    destruct (fold_result _ nodes mounts) as [l|e] eqn:E; [|done]. revert E. apply fold_result_invariant; [|done].
    intros node acc acc' _ Ha H. by eapply captured_mounted.
  - intros v h1 mounts _ Hm. eapply wp_mono; [|by apply wp_mount]. by intros h2 [l|e] [_ H].
Qed.
End Mounts.

(** C12: Whatever a service of a Compose graph mounts is a volume of the graph or
    a directory or file of the host that it can only read: for the platform the
    console or the captures of this run, and else a path inside the copy of the
    compilation, or the barriers of the run, that is canonical (it has no [..])
    and whose every component was seen to be a directory or a file with one
    name, never a link. *)
Theorem mounts_confined opts resolved graph ovs m service l mounts :
  runs (service_mounts opts resolved graph ovs m service) l (Ok mounts) ->
  Forall (mounted opts graph (rev l) m) mounts.
Proof. intros Hr. pose proof (wp_runs _ _ _ _ _ _ (wp_mounts opts resolved graph ovs m service []) Hr) as H. by rewrite app_nil_r in H. Qed.

Definition radio_service : Value :=
  obj [("volumes", strings ["./nodes/radio.json:/run/graphx/node.json:ro"; "${GX_CREDENTIALS}/radio:/run/credentials:ro";
                            "${GX_STATE}/barriers:/run/graphx/barriers:ro"])].
Definition radio_mounting : Mounting :=
  {| m_service := "radio"; m_config := "/state/g/configuration-1"; m_token := "token"; m_console := "console-1";
     m_handoff := "" |}.
Definition mounts_program : Prog Array := service_mounts radio_options radio_graph "g" false radio_mounting radio_service.
Definition mounts_run : list Event * option (result Array) := simulate radio_host mounts_program [].
Definition radio_mounts : Array :=
  [bind_mount "/state/g/configuration-1/nodes/radio.json" "/run/graphx/node.json";
   obj [("type", VStr "volume"); ("source", VStr "graphx-g-credentials"); ("target", VStr "/run/credentials");
        ("read_only", VBool true); ("volume", obj [("subpath", VStr "credentials/radio")])];
   bind_mount "/state/g/barriers" "/run/graphx/barriers"].

Lemma mounts_confined_witness : Forall (mounted radio_options "g" (rev mounts_run.1) radio_mounting) radio_mounts.
Proof.
  assert (runs mounts_program mounts_run.1 (Ok radio_mounts)) as H by (apply (simulate_runs radio_host); vm_compute; reflexivity).
  unfold mounts_program in H. eapply (mounts_confined radio_options radio_graph "g" false radio_mounting radio_service).
  exact H.
Defined.
End ComposeProofs.
