(* ===== verification/NodeSettings.v ===== *)
(** * The settings of a node (src/src/node_settings.cpp)

    An application is started with the file of its node.  [node_arguments] reads
    its command line, [load_node_settings] checks the file against the contract
    of its release type and makes the transports of its ports, and the two
    [await] functions wait for the markers of the runner.

    The build's schema and types, the patterns of [std::regex], [inet_pton] and
    the number formats are parameters.  The environment of the process is a
    function, for nothing changes it. *)

From Stdlib Require Import ZArith Lia Strings.Byte Strings.Ascii Strings.String Floats.SpecFloat.
From stdpp Require Import base option gmap strings list.
From S2P Require Import Prelude ConfigValue ConfigValueProofs ConfigSchema ConfigNetwork ConfigGraph ConfigNodes ResolvedTransport ConfigLoad.
From S2P Require Import Text Effects Process Compile.

Module NodeSettings.
Import ConfigValue ConfigSchema ConfigNetwork ConfigGraph ResolvedTransport Text Effects Process.
Local Open Scope Z_scope.

(** ** Data *)

Inductive ConnectionMode := listen | connect.
#[export] Instance ConnectionMode_eq_dec : EqDecision ConnectionMode.
Proof. solve_decision. Defined.

(** [edge]: its identifier, its transport and whether GraphX carries it *)
Record PortBinding := {
  b_connection : string; b_transport : TransportSettings; b_data_plane : string; b_role : ConnectionMode;
  b_schema : string; b_encoding : string; b_source_address : string; b_destination_address : string }.

(** [bindings]: the ports in the order of their names *)
Record NodeSettings := { resolved : Value; bindings : list (string * list PortBinding) }.

Definition node_id (s : NodeSettings) : result string := text_at (resolved s) "node_id".

(** [NodeSettings::port] *)
Definition port (s : NodeSettings) (name : string) : result PortBinding :=
  match List.find (fun b => String.eqb b.1 name) (bindings s) with
  | Some (_, [binding]) => Ok binding
  | _ => reject "E_BINDING" name "exactly one peer is required"
  end.

Record NodeArguments := { a_node : string; a_config : string; a_release_file : string; a_release_token : string }.

(** ** The command line *)

Definition known_option (execution : bool) (key : string) : bool :=
  existsb (String.eqb key) (["--node"; "--config"] ++ (if execution then ["--release-file"; "--release-token"] else [])).

Fixpoint read_options (execution : bool) (argv : list string) (options : gmap string string)
    : result (gmap string string) :=
  match argv with
  | [] => Ok options
  | key :: rest =>
      let refusal := reject "E_ARGUMENT" key "unknown, duplicate or missing option value" in
      if negb (known_option execution key) then refusal
      else
        match rest with
        | [] => refusal
        | value :: rest =>
            if bool_decide (is_Some (options !! key)) then refusal
            else read_options execution rest (<[key := value]> options)
        end
  end.

(** [argv] without the program.  The redirection of the output of the process
    is not part of the model. *)
Definition node_arguments (execution : bool) (argv : list string) : result NodeArguments :=
  let* options := read_options execution argv ∅ in
  match options !! "--node", options !! "--config" with
  | Some node, Some config =>
      if execution then
        match options !! "--release-file", options !! "--release-token" with
        | Some file, Some token =>
            if (size token <? 32) || (128 <? size token)
            then reject "E_ARGUMENT" "startup" "--release-file and a 32–128 byte --release-token are required"
            else Ok {| a_node := node; a_config := config; a_release_file := file; a_release_token := token |}
        | _, _ => reject "E_ARGUMENT" "startup" "--release-file and a 32–128 byte --release-token are required"
        end
      else Ok {| a_node := node; a_config := config; a_release_file := ""; a_release_token := "" |}
  | _, _ => reject "E_ARGUMENT" "$" "--node ID --config FILE are required"
  end.

(** ** The file *)

Section Load.
Context (fuel : nat) (parse_document : string -> result Value) (regex_search : string -> string -> bool)
        (to_chars : spec_float -> string) (inet_pton : string -> option Z) (getenv : string -> option string)
        (normalized_schema runtime_types : string).

Definition reject_when (b : result bool) (code path message : string) : result unit :=
  let* b := b in reject_if b code path message.
Definition other (v : Value) (key : string) (w : Value) : result bool :=
  let* same := eq_at v key w in Ok (negb same).
Definition at_other (v w : Value) (key : string) : result bool :=
  let* x := at_ v key in other w key x.

(** The first character that is not white space *)
Fixpoint first_character (s : string) : option ascii :=
  match s with
  | EmptyString => None
  | String c rest =>
      if existsb (Ascii.eqb c) [" "%char; "013"%char; "010"%char; "009"%char] then first_character rest else Some c
  end.

Definition is_address (s : string) : bool := match inet_pton s with Some _ => true | None => false end.

Definition shared (peer : Value) : result bool := eq_at peer "transport" (VStr "shared_memory").

(** The role, the schema, the encoding and the transport of a peer are those of
    its port. *)
Definition check_contract (name role : string) (definition peer : Value) : result unit :=
  reject_when
    (or_result (other peer "role" (VStr role))
    (or_result (at_other definition peer "schema")
    (or_result (at_other definition peer "encoding")
               (let* transports := array_at definition "transports" in
                let* transport := at_ peer "transport" in
                Ok (negb (existsb (fun t => value_eqb t transport) transports))))))
    "E_BINDING" name "role, schema, encoding or transport violates the type contract".

Definition check_connection (name : string) (peer : Value) (connections : gset string) : result (gset string) :=
  let* id := text_at peer "connection" in
  if negb (Compile.identity_text id)
  then reject "E_BINDING" name "connection identity is invalid or duplicated"
  else insert_new id connections "E_BINDING" name "connection identity is invalid or duplicated".

Definition check_source_address (name : string) (peer : Value) : result unit :=
  let* local := shared peer in
  if local : bool then Ok tt
  else
    let* source := text_at peer "source_address" in
    reject_if (negb (is_address source)) "E_BINDING" name "resolved source must be a numeric IPv4 address".

Definition check_framing (name : string) (peer settings : Value) : result unit :=
  if negb (contains settings "framing") then Ok tt
  else
    let* graphx := eq_at peer "encoding" (VStr "graphx") in
    reject_when (other settings "framing" (VStr (if (graphx : bool) then "u32be" else "none")))
      "E_BINDING" name "framing does not match encoding".

Definition check_endpoint (name : string) (peer settings : Value) : result unit :=
  let* local := shared peer in
  if local : bool then Ok tt
  else
    let* destination := text_at peer "destination_address" in
    let* tcp := eq_at peer "transport" (VStr "tcp") in
    reject_when
      (or_result (Ok (negb (is_address destination)))
      (or_result (let* target := text_at settings (if (tcp : bool) then "host" else "destination") in
                  Ok (negb (is_hostname target)))
                 (let* bind := text_at settings "bind" in Ok (negb (is_hostname bind)))))
      "E_BINDING" name "invalid resolved address or transport endpoint".

Definition security_profile (peer : Value) : result string :=
  let* security := at_ peer "security" in text_at security "profile".

Definition check_peer_security (value : Value) (name : string) (peer : Value) : result unit :=
  let* security := security_profile peer in
  let mtls := String.eqb security "mtls" in
  let* _ := reject_if (negb (String.eqb security "none") && negb mtls) "E_BINDING" name "unknown security profile" in
  let* _ := reject_when (and_result (eq_at peer "schema" (VStr "RawSdrControl")) (Ok (negb mtls)))
              "E_BINDING" name "SDR control requires mutual TLS" in
  reject_when
    (and_result (Ok mtls)
      (or_result (other peer "transport" (VStr "tcp"))
      (or_result (let* security := at_ peer "security" in Ok (negb (contains security "server_name")))
                 (let* credentials := at_ value "credentials" in Ok (negb (contains credentials name))))))
    "E_BINDING" name "mTLS requires TCP, server name and port credential reference".

(** The product of the two numbers is one of 64 bits. *)
Definition check_segment (name : string) (peer settings : Value) : result unit :=
  reject_when
    (and_result (shared peer)
      (let* capacity := integer_at settings "capacity" in
       let* bytes := integer_at settings "max_message_bytes" in
       Ok (268435456 <? capacity * bytes)))
    "E_BOUND" name "shared memory exceeds 256 MiB".

(** [GRAPHX_CREDENTIALS], or the text that stands for it *)
Definition credential_file (value : Value) (name file : string) : result string :=
  let* credentials := at_ value "credentials" in
  let* ref := text_at credentials name in
  Ok (slash (slash (default "${GX_CREDENTIALS}" (getenv "GRAPHX_CREDENTIALS")) ref) file).

Definition secured (value : Value) (name : string) (peer : Value) (tls : TlsConfig) : result TlsConfig :=
  if negb (enabled tls) then Ok tls
  else
    let* generation := credential_file value name "generation.json" in
    let* ca := credential_file value name "ca.pem" in
    let* certificate := credential_file value name "cert.pem" in
    let* key := credential_file value name "key.pem" in
    let* security := at_ peer "security" in
    let* server := text_at security "server_name" in
    Ok {| enabled := true; verify_peer := verify_peer tls;
          require_client_certificate := require_client_certificate tls; ca_file := ca;
          certificate_file := certificate; private_key_file := key; server_name := server;
          generation_file := generation |}.

Definition local_tcp (value : Value) (name : string) (peer : Value) (c : TcpTransportConfig)
    : result TcpTransportConfig :=
  let* source := text_at peer "source_address" in
  let* tls := secured value name peer (tls c) in
  Ok {| host := host c; tcp_bind := tcp_bind c; tcp_port := tcp_port c; tcp_framing := tcp_framing c;
        tcp_connect_timeout_ms := tcp_connect_timeout_ms c; tcp_send_timeout_ms := tcp_send_timeout_ms c;
        retry := retry c; reconnect := reconnect c; tls := tls; source_address := source |}.

(** A sender binds the address of its own interface. *)
Definition local_udp (role : ConnectionMode) (peer : Value) (c : UdpTransportConfig) : result UdpTransportConfig :=
  match role with
  | listen => Ok c
  | connect =>
      let* source := text_at peer "source_address" in
      Ok {| mode := mode c; destination := destination c; udp_bind := source; udp_port := udp_port c;
            interface := interface c; ttl := ttl c; loopback := loopback c; reuse_address := reuse_address c;
            receive_buffer_bytes := receive_buffer_bytes c; send_buffer_bytes := send_buffer_bytes c;
            max_datagram_bytes := max_datagram_bytes c; udp_framing := udp_framing c |}
  end.

Definition local_transport (value : Value) (name : string) (role : ConnectionMode) (peer : Value)
    (t : TransportSettings) : result TransportSettings :=
  match t with
  | Tcp c => let* c := local_tcp value name peer c in Ok (Tcp c)
  | Udp c => let* c := local_udp role peer c in Ok (Udp c)
  | External (TcpProtocol c) => let* c := local_tcp value name peer c in Ok (External (TcpProtocol c))
  | External (UdpProtocol c) => let* c := local_udp role peer c in Ok (External (UdpProtocol c))
  | t => Ok t
  end.

Definition peer_binding (value : Value) (name : string) (role : ConnectionMode) (peer : Value) : result PortBinding :=
  let* id := text_at peer "connection" in
  let* transport := resolved_transport peer in
  let* transport := local_transport value name role peer transport in
  let* graphx := eq_at peer "encoding" (VStr "graphx") in
  let* schema := text_at peer "schema" in
  let* encoding := text_at peer "encoding" in
  let* source := text_at peer "source_address" in
  let* destination := text_at peer "destination_address" in
  Ok {| b_connection := id; b_transport := transport; b_data_plane := if (graphx : bool) then "graphx" else "external";
        b_role := role; b_schema := schema; b_encoding := encoding; b_source_address := source;
        b_destination_address := destination |}.

(** One peer of a port: the connections so far and the bindings of the port *)
Definition load_peer (value : Value) (name : string) (definition peer : Value)
    (acc : gset string * list PortBinding) : result (gset string * list PortBinding) :=
  let* listener := boolean_at definition "listener" in
  let* _ := check_contract name (if (listener : bool) then "listen" else "connect") definition peer in
  let* connections := check_connection name peer acc.1 in
  let* settings := at_ peer "settings" in
  let* _ := check_source_address name peer in
  let* _ := check_framing name peer settings in
  let* _ := check_endpoint name peer settings in
  let* _ := check_peer_security value name peer in
  let* _ := check_segment name peer settings in
  let* binding := peer_binding value name (if (listener : bool) then listen else connect) peer in
  Ok (connections, acc.2 ++ [binding]).

Definition load_port (value : Value) (item : string * Value)
    (acc : gset string * list (string * list PortBinding)) : result (gset string * list (string * list PortBinding)) :=
  let '(name, definition) := item in
  let* bound := at_ value "bindings" in
  let* _ := reject_if (negb (contains bound name)) "E_BINDING" name "missing port" in
  let* peers := array_at bound name in
  let count := Z.of_nat (length peers) in
  let* _ := reject_when
    (or_result (let* low := integer_at definition "min_connections" in Ok (count <? u64 low))
               (let* high := integer_at definition "max_connections" in Ok (u64 high <? count)))
    "E_PORT_CARDINALITY" name "peer count violates the type contract" in
  let* loaded := fold_result (load_peer value name definition) peers (acc.1, []) in
  Ok (loaded.1, acc.2 ++ [(name, loaded.2)]).

Definition check_parameter (parameters : Object) (item : string * Value) : result unit :=
  let '(name, definition) := item in
  let* _ := reject_if (negb (bool_decide (is_Some (find_key name parameters)))) "E_PARAMETER" name
              "missing resolved parameter" in
  let* parameter := object_at parameters name in
  validate_shape regex_search to_chars fuel definition parameter definition ("parameters." +:+ name).

Definition outside (v : Value) (key : string) (low high : Z) : result bool :=
  or_result (let* n := integer_at v key in Ok (n <? low)) (let* n := integer_at v key in Ok (high <? n)).

Definition check_telemetry (value : Value) : result unit :=
  let* telemetry := at_ value "telemetry" in
  reject_when (or_result (let* host := text_at telemetry "host" in Ok (String.eqb host "")) (outside telemetry "port" 1 65535))
    "E_BINDING" "telemetry" "bounded telemetry endpoint required".

Definition check_readiness (value : Value) : result unit :=
  let* readiness := at_ value "readiness" in
  let* _ := reject_when (outside readiness "timeout_ms" 1 600000) "E_READINESS" "readiness"
              "bounded readiness deadline required" in
  let* startup := at_ value "startup" in
  reject_when
    (or_result (other startup "bind_before_connect" (VBool true))
    (or_result (other startup "release_barrier" (VBool true))
    (or_result (outside startup "max_wait_ms" 1 600000) (other readiness "kind" (VStr "local-bound")))))
    "E_READINESS" "startup" "bounded local-bound release is required".

(** The release type of the node *)
Definition release_type (value : Value) (expected : string) : result Value :=
  let* types := parse_document runtime_types in
  let* l := array types in
  let* type := find_result (fun item => let* id := at_ item "id" in eq_at value "type" id) l in
  let refusal := reject "E_NODE_TYPE" "type" "unsupported application type or revision" in
  match type with
  | None => refusal
  | Some type =>
      let* wrong := or_result (let* revision := at_ value "type_revision" in other type "revision" revision)
                      (and_result (Ok (negb (String.eqb expected ""))) (other value "type" (VStr expected))) in
      if wrong : bool then refusal else Ok type
  end.

Definition check_identity (node : string) (value : Value) : result unit :=
  let* _ := reject_when (or_result (other value "contract_version" (VInt 2)) (other value "graph_version" (VInt 3)))
              "E_VERSION" "contract_version" "node contract 2 and graph version 3 are required" in
  reject_when
    (or_result (other value "node_id" (VStr node))
    (or_result (Ok (negb (Compile.identity_text node)))
               (let* graph := text_at value "graph_id" in Ok (negb (Compile.identity_text graph)))))
    "E_NODE_ID" "node_id" "node identity does not match the requested instance".

Definition check_parameters (value type : Value) : result Object :=
  let* parameters := object_field value "parameters" in
  let* definitions := object_field type "parameters" in
  let* _ := reject_if (negb (length parameters =? length definitions)%nat) "E_PARAMETER" "parameters"
              "resolved parameters must match the type" in
  let* _ := for_each (check_parameter parameters) definitions in
  let* processor := eq_at value "type" (VStr "vita.processor") in
  let* _ := (if (processor : bool) then validate_vita_processing parameters "parameters" else Ok tt) in
  Ok parameters.

Definition load_ports (value type : Value) : result (list (string * list PortBinding)) :=
  let* ports := object_field type "ports" in
  let* bound := object_field value "bindings" in
  let* _ := reject_if (negb (length ports =? length bound)%nat) "E_BINDING" "bindings"
              "ports must match the application type" in
  let* loaded := fold_result (load_port value) ports (∅, []) in
  Ok loaded.2.

(** What the text of a node's file says *)
Definition node_settings (source node expected : string) : result NodeSettings :=
  let* _ := reject_if (negb (bool_decide (first_character source = Some "{"%char))) "E_NODE_SCHEMA" "$"
              "a normalized JSON node object is required" in
  let* value := parse_document source in
  let* schema := parse_document normalized_schema in
  let* properties := at_ schema "properties" in
  let* nodes := at_ properties "nodes" in
  let* items := at_ nodes "items" in
  let* _ := validate_shape regex_search to_chars fuel items value items "$" in
  let* _ := check_identity node value in
  let* type := release_type value expected in
  let* recorder := eq_at value "type" (VStr "vita.recorder") in
  let* _ := reject_if (negb (Bool.eqb recorder (contains value "recorder"))) "E_BINDING" "recorder"
              "passive attachment metadata must match recorder type" in
  let* parameters := check_parameters value type in
  let* ports := load_ports value type in
  let* name := text_at value "type" in
  let* bound := object_field value "bindings" in
  let* _ := validate_vita_bindings name bound parameters in
  let* _ := check_telemetry value in
  let* _ := check_readiness value in
  Ok {| resolved := value; bindings := ports |}.

#[local] Open Scope prog_scope.

Definition load_node_settings (file node expected : string) : Prog NodeSettings :=
  if String.eqb node "" then of_result (reject "E_NODE_ID" "node_id" "--node is required")
  else
    let! source := checked (sys_call (ReadDocument file ConfigLoad.kMaxConfigBytes)) in
    of_result (node_settings source node expected).
End Load.

(** ** Waiting for the runner *)

#[local] Open Scope prog_scope.

(** A marker appears with the token of this invocation, in time; nothing when
    the process is told to stop. *)
Fixpoint await_marker (rounds : nat) (marker token code identity expiry : string) (deadline : Z) : Prog bool :=
  match rounds with
  | O => spinning
  | S rounds =>
      let! stopping := sys_call Interrupted in
      if stopping : bool then Ret false
      else
        let! status := sys_call (Lstat marker) in
        match status with
        | lstat_error => throw "filesystem error: status"
        | lstat_found _ =>
            let! bytes := checked (sys_call (ReadDocument marker 128)) in
            if String.eqb bytes token then Ret true else of_result (reject code "startup" identity)
        | lstat_missing =>
            let! now := sys_call Now in
            if deadline <=? now then of_result (reject "E_READINESS_TIMEOUT" "startup" expiry)
            else sys_call (Sleep 20);;; await_marker rounds marker token code identity expiry deadline
        end
  end.

Definition await_node_network (rounds : nat) (arguments : NodeArguments) : Prog bool :=
  let! now := sys_call Now in
  await_marker rounds (slash (parent_path (a_release_file arguments)) "network-ready") (a_release_token arguments)
    "E_NETWORK_IDENTITY" "network token does not match this invocation" "network preparation deadline expired"
    (now + 60000).

Definition await_node_release (rounds : nat) (settings : NodeSettings) (arguments : NodeArguments) : Prog bool :=
  let! id := of_result (node_id settings) in
  sys_call (Print ("ready node=" +:+ id +:+ Process.newline));;;
  let! now := sys_call Now in
  let! wait := of_result (let* startup := at_ (resolved settings) "startup" in integer_at startup "max_wait_ms") in
  await_marker rounds (a_release_file arguments) (a_release_token arguments)
    "E_RELEASE_IDENTITY" "release token does not match this invocation" "release deadline expired" (now + wait).
End NodeSettings.

(** * What a loaded node can rely on *)

Module NodeSettingsProofs.
Import ConfigValue ConfigSchema ConfigNetwork ConfigGraph ResolvedTransport Text Effects Process NodeSettings.
Local Open Scope Z_scope.

Lemma reject_when_ok b code path message : reject_when b code path message = Ok tt -> b = Ok false.
Proof. unfold reject_when. destruct b as [[]|]; done. Qed.
Lemma or_false a b : or_result a b = Ok false -> a = Ok false /\ b = Ok false.
Proof. unfold or_result. destruct a as [[]|]; done. Qed.
Lemma other_false v key w : other v key w = Ok false -> eq_at v key w = Ok true.
Proof. unfold other. destruct (eq_at v key w) as [[]|]; done. Qed.
Lemma other_text v key s : other v key (VStr s) = Ok false -> text_at v key = Ok s.
Proof. intros H%other_false. by eapply ConfigNodes.ConfigNodesProofs.eq_at_text. Qed.

(** Two values are equal, and one is a text. *)
Lemma at_other_text v w key s : at_other v w key = Ok false -> text_at w key = Ok s -> text_at v key = Ok s.
Proof.
  unfold at_other, text_at. intros H Hw. apply bind_ok in H as (x & Hx & H%other_false). rewrite Hx. cbn [bind].
  unfold eq_at in H. apply bind_ok in Hw as (y & Hy & Hw). rewrite Hy in H. cbn [bind] in H.
  destruct y; try discriminate Hw. injection Hw as ->. destruct x; try done.
  cbn in H. injection H as H. by apply String.eqb_eq in H as ->.
Qed.

Section Ports.
Context (inet_pton : string -> option Z) (getenv : string -> option string).

Definition credentials_root : string := default "${GX_CREDENTIALS}" (getenv "GRAPHX_CREDENTIALS").

(** Mutual TLS with the key of the port's credential *)
Definition mutual_tls (value : Value) (name : string) (t : TransportSettings) : Prop :=
  exists c credentials ref,
    (t = Tcp c \/ t = External (TcpProtocol c)) /\ enabled (tls c) = true /\
    require_client_certificate (tls c) = true /\
    at_ value "credentials" = Ok credentials /\ text_at credentials name = Ok ref /\
    private_key_file (tls c) = slash (slash credentials_root ref) "key.pem" /\
    ca_file (tls c) = slash (slash credentials_root ref) "ca.pem".

(** A binding that fits the port of its type *)
Definition fits (value definition : Value) (name : string) (b : PortBinding) : Prop :=
  boolean_at definition "listener" = Ok (bool_decide (b_role b = listen)) /\
  text_at definition "schema" = Ok (b_schema b) /\ text_at definition "encoding" = Ok (b_encoding b) /\
  Compile.identity_text (b_connection b) = true /\
  (b_schema b = "RawSdrControl" -> mutual_tls value name (b_transport b)).

Lemma eq_at_bool v key s t : text_at v key = Ok t -> eq_at v key (VStr s) = Ok (String.eqb t s).
Proof.
  unfold text_at, eq_at. intros H. apply bind_ok in H as (x & -> & H). destruct x; try discriminate H. by injection H as ->.
Qed.

Lemma secured_tls value name peer t t' :
  security_profile peer = Ok "mtls" -> text_at peer "transport" = Ok "tcp" ->
  resolved_transport peer = Ok t -> forall role, local_transport getenv value name role peer t = Ok t' ->
  mutual_tls value name t'.
Proof.
  unfold security_profile. intros Hp Ht Hr role Hl. apply bind_ok in Hp as (security & Hs & Hp).
  unfold resolved_transport in Hr. apply bind_ok in Hr as (external & _ & Hr). apply bind_ok in Hr as (settings & _ & Hr).
  rewrite Ht in Hr. cbn [bind] in Hr. rewrite String.eqb_refl in Hr. apply bind_ok in Hr as (c & Hc & Hr).
  assert (enabled (tls c) = true /\ require_client_certificate (tls c) = true) as [He Hq].
  { unfold resolve_tcp in Hc. invert_ok. cbn [tls].
    match goal with H : resolve_tls peer = Ok _ |- _ => unfold resolve_tls in H; rewrite Hs in H; cbn [bind] in H;
      rewrite (eq_at_bool _ _ _ _ Hp) in H; cbn in H; by injection H as <- end. }
  assert (forall c', local_tcp getenv value name peer c = Ok c' -> forall t', t' = Tcp c' \/ t' = External (TcpProtocol c') ->
    mutual_tls value name t') as Hmutual.
  { intros c' Hc' u Hu. unfold local_tcp in Hc'. apply bind_ok in Hc' as (source & _ & Hc'). apply bind_ok in Hc' as (tls' & Hsec & Hc').
    injection Hc' as <-. unfold secured in Hsec. rewrite He in Hsec. cbn [negb] in Hsec. unfold credential_file in Hsec.
    destruct (at_ value "credentials") as [credentials|] eqn:Ec; [|done]. cbn [bind] in Hsec.
    destruct (text_at credentials name) as [ref|] eqn:Er; [|done]. cbn [bind] in Hsec. invert_ok.
    eexists _, credentials, ref. split; [exact Hu|]. by cbn. }
  destruct external; injection Hr as <-; cbn [local_transport] in Hl; apply bind_ok in Hl as (c' & Hc' & [= <-]);
    (eapply Hmutual; [exact Hc'|]); [by right|by left].
Qed.

Lemma load_peer_fits value name definition peer acc acc' :
  load_peer inet_pton getenv value name definition peer acc = Ok acc' ->
  exists b, acc'.2 = acc.2 ++ [b] /\ fits value definition name b /\
    b_connection b ∉ acc.1 /\ acc'.1 = {[b_connection b]} ∪ acc.1.
Proof.
  unfold load_peer. intros H. apply bind_ok in H as (listener & Hl & H). apply bind_ok in H as ([] & Hc & H).
  apply bind_ok in H as (connections & Hn & H). apply bind_ok in H as (settings & _ & H).
  apply bind_ok in H as ([] & _ & H). apply bind_ok in H as ([] & _ & H). apply bind_ok in H as ([] & _ & H).
  apply bind_ok in H as ([] & Hs & H). apply bind_ok in H as ([] & _ & H). apply bind_ok in H as (b & Hb & [= <-]).
  exists b. cbn [fst snd]. split; [done|].
  apply reject_when_ok in Hc. apply or_false in Hc as [_ Hc]. apply or_false in Hc as [Hschema Hc].
  apply or_false in Hc as [Hencoding _].
  unfold peer_binding in Hb. apply bind_ok in Hb as (id & Hid & Hb). apply bind_ok in Hb as (t & Ht & Hb).
  apply bind_ok in Hb as (t' & Ht' & Hb). apply bind_ok in Hb as (graphx & _ & Hb).
  apply bind_ok in Hb as (schema & Hsc & Hb). apply bind_ok in Hb as (encoding & Hen & Hb).
  apply bind_ok in Hb as (source & _ & Hb). apply bind_ok in Hb as (destination & _ & [= <-]). cbn.
  unfold check_connection in Hn. rewrite Hid in Hn. cbn [bind] in Hn.
  destruct (Compile.identity_text id) eqn:Ei; cbn [negb] in Hn; [|done]. unfold insert_new in Hn.
  destruct (decide (id ∈ acc.1)) as [|Hnew]; [done|]. injection Hn as <-. split; [|done].
  unfold fits. cbn. split_and!; try done.
  - rewrite Hl. by destruct listener.
  - by eapply at_other_text.
  - by eapply at_other_text.
  - intros ->. unfold check_peer_security in Hs. apply bind_ok in Hs as (profile & Hp & Hs).
    apply bind_ok in Hs as ([] & _ & Hs). apply bind_ok in Hs as ([] & Hsdr%reject_when_ok & Hs%reject_when_ok).
    rewrite (eq_at_bool _ _ _ _ Hsc) in Hsdr. cbn in Hsdr. injection Hsdr as Hsdr%negb_false_iff.
    rewrite Hsdr in Hs. cbn [bind and_result] in Hs. apply or_false in Hs as [Htcp _]. apply String.eqb_eq in Hsdr as ->.
    eapply secured_tls; [exact Hp|by apply other_text|exact Ht|exact Ht'].
Qed.

Definition names_of (bs : list PortBinding) : list string := map b_connection bs.
(** The connections of all ports *)
Definition connections_of (ports : list (string * list PortBinding)) : list string :=
  concat (map (fun p => names_of p.2) ports).

Lemma connections_snoc ports name bs : connections_of (ports ++ [(name, bs)]) = connections_of ports ++ names_of bs.
Proof. unfold connections_of. rewrite map_app, concat_app. cbn. by rewrite app_nil_r. Qed.
Lemma names_snoc bs b : names_of (bs ++ [b]) = names_of bs ++ [b_connection b].
Proof. unfold names_of. by rewrite map_app. Qed.

(** The bindings of a port are those of the file, as many as the type allows *)
Definition port_fits (value : Value) (d : string * Value) (p : string * list PortBinding) : Prop :=
  p.1 = d.1 /\ Forall (fits value d.2 d.1) p.2 /\
  (exists bound peers, at_ value "bindings" = Ok bound /\ array_at bound d.1 = Ok peers /\ length p.2 = length peers) /\
  (exists low high, integer_at d.2 "min_connections" = Ok low /\ integer_at d.2 "max_connections" = Ok high /\
     u64 low <= Z.of_nat (length p.2) <= u64 high).

Lemma load_peers_fit value name definition peers known out :
  fold_result (load_peer inet_pton getenv value name definition) peers (known, []) = Ok out ->
  length out.2 = length peers /\ Forall (fits value definition name) out.2 /\
  NoDup (names_of out.2) /\ (forall id, id ∈ names_of out.2 -> id ∉ known) /\
  out.1 = list_to_set (names_of out.2) ∪ known.
Proof.
  apply (fold_result_prefix (fun pre (out : gset string * list PortBinding) =>
    length out.2 = length pre /\ Forall (fits value definition name) out.2 /\
    NoDup (names_of out.2) /\ (forall id, id ∈ names_of out.2 -> id ∉ known) /\
    out.1 = list_to_set (names_of out.2) ∪ known)).
  - cbn. split_and!; [done|constructor|constructor|intros id Hid; by inversion Hid|set_solver].
  - intros pre peer acc acc' _ (Hlen & Hf & Hd & Hk & Hset) H.
    apply load_peer_fits in H as (b & -> & Hb & Hnew & ->). rewrite Hset in *. rewrite !names_snoc. split_and!.
    + rewrite !length_app. cbn. lia.
    + apply Forall_app. split; [done|]. by apply Forall_singleton.
    + apply NoDup_app. split; [done|]. split; [|by apply NoDup_singleton]. set_solver.
    + set_solver.
    + rewrite list_to_set_app_L. set_solver.
Qed.

Lemma load_port_fits value item acc acc' :
  load_port inet_pton getenv value item acc = Ok acc' ->
  exists p, acc'.2 = acc.2 ++ [p] /\ port_fits value item p /\ NoDup (names_of p.2) /\
    (forall id, id ∈ names_of p.2 -> id ∉ acc.1) /\ acc'.1 = list_to_set (names_of p.2) ∪ acc.1.
Proof.
  destruct item as [name definition]. unfold load_port. intros H. apply bind_ok in H as (bound & Hb & H).
  apply bind_ok in H as ([] & _ & H). apply bind_ok in H as (peers & Hp & H).
  apply bind_ok in H as ([] & Hc%reject_when_ok & H). apply bind_ok in H as (loaded & Hl & [= <-]). cbn [fst snd].
  apply load_peers_fit in Hl as (Hlen & Hf & Hd & Hk & Hset).
  exists (name, loaded.2). cbn [fst snd]. split; [done|]. split; [|done]. unfold port_fits. cbn [fst snd].
  apply or_false in Hc as [Hlow Hhigh]. apply bind_ok in Hlow as (low & Hlow & [= Hlow']). apply bind_ok in Hhigh as (high & Hhigh & [= Hhigh']).
  split_and!; try done; [by eexists _, _|]. exists low, high. rewrite Hlen. apply Z.ltb_ge in Hlow', Hhigh'. done.
Qed.

Lemma load_ports_fit value ports out :
  fold_result (load_port inet_pton getenv value) ports (∅, []) = Ok out ->
  Forall2 (port_fits value) ports out.2 /\ NoDup (connections_of out.2).
Proof.
  intros H. enough (Forall2 (port_fits value) ports out.2 /\ NoDup (connections_of out.2) /\ out.1 = list_to_set (connections_of out.2))
    as (H1 & H2 & _) by done. revert H.
  apply (fold_result_prefix (fun pre (out : gset string * list (string * list PortBinding)) =>
    Forall2 (port_fits value) pre out.2 /\ NoDup (connections_of out.2) /\ out.1 = list_to_set (connections_of out.2))).
  - split_and!; [constructor|constructor|done].
  - intros pre item acc acc' _ (Hf & Hd & Hset) H. apply load_port_fits in H as ([name bs] & -> & Hp & Hn & Hk & ->).
    rewrite connections_snoc. cbn [snd] in *. split_and!.
    + apply Forall2_app; [done|]. by constructor.
    + apply NoDup_app. split; [done|]. split; [|done]. intros id Hid Hbs. apply (Hk id Hbs). rewrite Hset. by apply elem_of_list_to_set.
    + rewrite list_to_set_app_L, Hset. set_solver.
Qed.
End Ports.

Section Types.
Context (parse_document : string -> result Value) (runtime_types : string).

(** A release type with the name that the node has *)
Definition released (value type : Value) : Prop :=
  exists types l id, parse_document runtime_types = Ok types /\ array types = Ok l /\ type ∈ l /\
    at_ type "id" = Ok id /\ eq_at value "type" id = Ok true.

Lemma release_type_of value expected type : release_type parse_document runtime_types value expected = Ok type ->
  released value type /\ (expected <> "" -> text_at value "type" = Ok expected).
Proof.
  unfold release_type. intros H. apply bind_ok in H as (types & Ht & H). apply bind_ok in H as (l & Hl & H).
  apply bind_ok in H as ([found|] & Hf & H); [|done]. apply ConfigNodes.ConfigNodesProofs.find_result_elem in Hf as [Hin Hid].
  apply bind_ok in Hid as (id & Hid & Heq). apply bind_ok in H as ([] & Hw & H); [done|]. injection H as ->.
  apply or_false in Hw as [_ Hw]. split; [by exists types, l, id|]. intros Hne.
  destruct (String.eqb_spec expected "") as [->|_]; [done|]. by apply other_text.
Qed.
End Types.

(** C17: A file that is loaded as the settings of a node has the identity that was
    asked for and the type that the application expects; it has exactly the
    ports of that release type, each with the bindings of the file within the
    bounds of the type, in the role, the schema and the encoding of the port.  No
    connection occurs twice, in one port or in two.  A port that controls a
    radio has mutual TLS, with the key and the authority of its own credential. *)
Theorem loaded_node_fits fuel parse_document regex_search to_chars inet_pton getenv normalized_schema runtime_types
    source node expected s :
  node_settings fuel parse_document regex_search to_chars inet_pton getenv normalized_schema runtime_types
    source node expected = Ok s ->
  exists type ports,
    text_at (resolved s) "node_id" = Ok node /\ (expected <> "" -> text_at (resolved s) "type" = Ok expected) /\
    released parse_document runtime_types (resolved s) type /\
    object_field type "ports" = Ok ports /\
    Forall2 (port_fits getenv (resolved s)) ports (bindings s) /\ NoDup (connections_of (bindings s)).
Proof.
  unfold node_settings. intros H. apply bind_ok in H as ([] & _ & H). apply bind_ok in H as (value & _ & H).
  do 5 (apply bind_ok in H as (? & _ & H)). apply bind_ok in H as ([] & Hid & H). apply bind_ok in H as (type & Htype & H).
  do 3 (apply bind_ok in H as (? & _ & H)). apply bind_ok in H as (ports & Hports & H).
  do 5 (apply bind_ok in H as (? & _ & H)). injection H as <-. cbn [resolved bindings].
  unfold load_ports in Hports. apply bind_ok in Hports as (l & Hl & Hports). apply bind_ok in Hports as (bound & _ & Hports).
  apply bind_ok in Hports as ([] & _ & Hports). apply bind_ok in Hports as (loaded & Hports & [= <-]).
  apply load_ports_fit in Hports as [Hf Hd]. exists type, l. split_and!; try done.
  - unfold check_identity in Hid. apply bind_ok in Hid as ([] & _ & Hid%reject_when_ok).
    apply or_false in Hid as [Hid _]. by apply other_text.
  - apply release_type_of in Htype as [_ Hne]. exact Hne.
  - by apply release_type_of in Htype as [Htype _].
Qed.

(** ** Example: a radio with its controller *)

Abbreviation obj := Compile.obj.

Definition radio_peer : Value :=
  obj [("connection", VStr "control1"); ("role", VStr "listen"); ("schema", VStr "RawSdrControl"); ("encoding", VStr "raw");
       ("transport", VStr "tcp"); ("source_address", VStr "10.0.0.2"); ("destination_address", VStr "10.0.0.2");
       ("security", obj [("profile", VStr "mtls"); ("server_name", VStr "radio")]);
       ("settings", obj [("host", VStr "radio"); ("bind", VStr "10.0.0.2"); ("port", VInt 5000); ("framing", VStr "none");
                         ("connect_timeout_ms", VInt 1000); ("send_timeout_ms", VInt 1000); ("reconnect", VBool true);
                         ("retry", obj [("max_attempts", VInt 3); ("initial_backoff_ms", VInt 10); ("max_backoff_ms", VInt 100)])])].
Definition radio_node : Value :=
  obj [("contract_version", VInt 2); ("graph_version", VInt 3); ("node_id", VStr "radio"); ("graph_id", VStr "g");
       ("type", VStr "vita.radio"); ("type_revision", VInt 1); ("parameters", VObj []);
       ("credentials", obj [("control", VStr "radio-tls")]); ("bindings", obj [("control", VArr [radio_peer])]);
       ("telemetry", obj [("host", VStr "127.0.0.1"); ("port", VInt 7000)]);
       ("readiness", obj [("timeout_ms", VInt 1000); ("kind", VStr "local-bound")]);
       ("startup", obj [("bind_before_connect", VBool true); ("release_barrier", VBool true); ("max_wait_ms", VInt 1000)])].
Definition radio_port : Value :=
  obj [("listener", VBool true); ("schema", VStr "RawSdrControl"); ("encoding", VStr "raw"); ("transports", Compile.strings ["tcp"]);
       ("min_connections", VInt 1); ("max_connections", VInt 1)].
Definition radio_type : Value :=
  obj [("id", VStr "vita.radio"); ("revision", VInt 1); ("parameters", VObj []); ("ports", obj [("control", radio_port)])].

(** Texts that stand for documents *)
Definition radio_document (text : string) : result Value :=
  if String.eqb text "types" then Ok (VArr [radio_type])
  else if String.eqb text "schema" then Ok (obj [("properties", obj [("nodes", obj [("items", VObj [])])])])
  else Ok radio_node.
Definition radio_settings : result NodeSettings :=
  node_settings 9 radio_document (fun _ _ => true) (fun _ => "") (fun _ => Some 1) (fun _ => Some "/run/credentials") "schema" "types"
    "{}" "radio" "vita.radio".
Definition radio_loaded : NodeSettings := match radio_settings with Ok s => s | Throw _ => {| resolved := VNull; bindings := [] |} end.

Lemma loaded_node_fits_witness : exists type ports,
  text_at (resolved radio_loaded) "node_id" = Ok "radio" /\
  ("vita.radio" <> "" -> text_at (resolved radio_loaded) "type" = Ok "vita.radio") /\
  released radio_document "types" (resolved radio_loaded) type /\ object_field type "ports" = Ok ports /\
  Forall2 (port_fits (fun _ => Some "/run/credentials") (resolved radio_loaded)) ports (bindings radio_loaded) /\
  NoDup (connections_of (bindings radio_loaded)).
Proof.
  assert (radio_settings = Ok radio_loaded) as H by (vm_compute; reflexivity). unfold radio_settings in H.
  eapply loaded_node_fits. exact H.
Defined.
Example radio_connection : connections_of (bindings radio_loaded) = ["control1"].
Proof. vm_compute. reflexivity. Qed.
End NodeSettingsProofs.
