(* ===== verification/Recorder.v ===== *)
(** * The passive recorder (src/src/vita/recorder.cpp)

    A recorder counts the frames of one interface and must never send one.  It
    opens its packet socket, drops its capabilities, waits for the network, binds
    the socket and then installs a filter of system calls that lets no thread
    transmit through it.

    [BPF] is the language in which the filter is written, with the instructions
    that it uses; a [Platform] has the numbers of the system calls.  The recorder itself is a
    program over system calls.  Descriptors are closed by their owners, which is
    not a call of the model, and so is the thread that bounds the output. *)

From Stdlib Require Import ZArith Lia Strings.Byte Strings.Ascii Strings.String Floats.SpecFloat.
From stdpp Require Import base option gmap strings list.
From S2P Require Import Prelude ConfigValue Text OwnershipState Effects Process NodeSettings Compile.

(** ** The filter *)

Module BPF.
Local Open Scope Z_scope.

(** The instructions that the filter has: a 32-bit word of the description of
    the call, comparisons with jumps forward, and the end *)
Inductive instruction :=
| Load (offset : Z)
| JumpEqual (value : Z) (yes no : nat)
| JumpSet (value : Z) (yes no : nat)
| Return (value : Z).

(** [seccomp_data]; the arguments of a call have 64 bits. *)
Record data := { d_nr : Z; d_arch : Z; d_instruction_pointer : Z; d_args : list Z }.

Definition half (high : bool) (x : Z) : Z := if high then u32 (Z.shiftr x 32) else u32 x.

(** The word at an offset; memory is little-endian. *)
Definition word (d : data) (offset : Z) : Z :=
  if offset =? 0 then d_nr d
  else if offset =? 4 then d_arch d
  else if offset <? 16 then half (offset =? 12) (d_instruction_pointer d)
  else half (Z.rem offset 8 =? 4) (nth (Z.to_nat (Z.quot (offset - 16) 8)) (d_args d) 0).

(** The answer of a program: [skip] instructions are jumped over. *)
Fixpoint exec (program : list instruction) (skip : nat) (d : data) (a : Z) : option Z :=
  match program with
  | [] => None
  | i :: program =>
      match skip with
      | S skip => exec program skip d a
      | O =>
          match i with
          | Load offset => exec program 0 d (word d offset)
          | JumpEqual value yes no => exec program (if a =? value then yes else no) d a
          | JumpSet value yes no => exec program (if Z.land a value =? 0 then no else yes) d a
          | Return value => Some value
          end
      end
  end.
End BPF.

Module RecorderFilter.
Import BPF.
Local Open Scope Z_scope.

(** The calls that the filter names *)
Inductive sysno :=
| nr_write | nr_writev | nr_sendto | nr_fcntl | nr_recvmsg | nr_openat
| nr_read | nr_pread64 | nr_close | nr_lseek | nr_fstat | nr_newfstatat | nr_statx | nr_mmap | nr_mprotect | nr_munmap
| nr_brk | nr_madvise | nr_clock_gettime | nr_clock_nanosleep | nr_nanosleep | nr_futex | nr_rt_sigaction
| nr_rt_sigprocmask | nr_rt_sigreturn | nr_sigaltstack | nr_exit | nr_exit_group | nr_getpid | nr_gettid | nr_getrandom
| nr_recvfrom | nr_getsockopt | nr_ppoll | nr_sched_yield
| nr_rseq | nr_set_robust_list | nr_pipe2 | nr_readlinkat | nr_pipe | nr_readlink | nr_poll | nr_restart_syscall.
#[export] Instance sysno_eq_dec : EqDecision sysno.
Proof. solve_decision. Defined.

(** The numbers of an architecture, and the calls that only some have *)
Record Platform := {
  architecture : Z; number : sysno -> Z;
  has_rseq : bool; has_pipe : bool; has_readlink : bool; has_poll : bool; has_restart : bool }.

Definition SECCOMP_RET_KILL_PROCESS : Z := 2147483648.
Definition SECCOMP_RET_ERRNO : Z := 327680.
Definition SECCOMP_RET_ALLOW : Z := 2147418112.
Definition EPERM : Z := 1.
Definition F_GETFL : Z := 3.
Definition F_SETFL : Z := 4.
(** [O_WRONLY | O_RDWR | O_CREAT | O_TRUNC] *)
Definition writing_flags : Z := Z.lor 1 (Z.lor 2 (Z.lor 64 512)).

Definition refuse : instruction := Return (Z.lor SECCOMP_RET_ERRNO EPERM).
Definition permit : instruction := Return SECCOMP_RET_ALLOW.
(** [offsetof(seccomp_data, ...)] *)
Definition offset_nr : Z := 0.
Definition offset_arch : Z := 4.
Definition offset_args (i : Z) : Z := 16 + 8 * i.

Section Filter.
Context (p : Platform) (descriptor : Z).

Definition transmit (n : sysno) : list instruction :=
  [JumpEqual (number p n) 0 4; Load (offset_args 0); JumpEqual descriptor 0 1; refuse; permit].

Definition flags_only : list instruction :=
  [JumpEqual (number p nr_fcntl) 0 5; Load (offset_args 1); JumpEqual F_GETFL 2 0; JumpEqual F_SETFL 1 0; refuse; permit].

Definition receive_own : list instruction :=
  [JumpEqual (number p nr_recvmsg) 0 4; Load (offset_args 0); JumpEqual descriptor 1 0; refuse; permit].

Definition open_readable : list instruction :=
  [JumpEqual (number p nr_openat) 0 4; Load (offset_args 2); JumpSet writing_flags 0 1; refuse; permit].

Definition allow (n : sysno) : list instruction := [JumpEqual (number p n) 0 1; permit].

Definition transmitting : list sysno := [nr_write; nr_writev; nr_sendto].
Definition harmless_calls : list sysno :=
  [nr_read; nr_pread64; nr_close; nr_lseek; nr_fstat; nr_newfstatat; nr_statx; nr_mmap; nr_mprotect; nr_munmap; nr_brk;
   nr_madvise; nr_clock_gettime; nr_clock_nanosleep; nr_nanosleep; nr_futex; nr_rt_sigaction; nr_rt_sigprocmask;
   nr_rt_sigreturn; nr_sigaltstack; nr_exit; nr_exit_group; nr_getpid; nr_gettid; nr_getrandom; nr_recvfrom;
   nr_getsockopt; nr_ppoll; nr_sched_yield].
Definition optional (present : bool) (n : sysno) : list sysno := if present then [n] else [].
Definition allowed_calls : list sysno :=
  harmless_calls ++ optional (has_rseq p) nr_rseq ++ [nr_set_robust_list; nr_pipe2; nr_readlinkat]
  ++ optional (has_pipe p) nr_pipe ++ optional (has_readlink p) nr_readlink ++ optional (has_poll p) nr_poll
  ++ optional (has_restart p) nr_restart_syscall.

(** [code] *)
Definition filter : list instruction :=
  [Load offset_arch; JumpEqual (architecture p) 1 0; Return SECCOMP_RET_KILL_PROCESS; Load offset_nr]
  ++ concat (map transmit transmitting) ++ flags_only ++ receive_own ++ open_readable
  ++ concat (map allow allowed_calls) ++ [refuse].
End Filter.

(** ** What the filter decides *)

Inductive verdict := kill_process | refused | permitted.
Definition answer_of (v : verdict) : Z :=
  match v with
  | kill_process => SECCOMP_RET_KILL_PROCESS
  | refused => Z.lor SECCOMP_RET_ERRNO EPERM
  | permitted => SECCOMP_RET_ALLOW
  end.

(** An argument of a type of 32 bits *)
Definition argument (d : data) (i : nat) : Z := u32 (nth i (d_args d) 0).
Definition permit_if (b : bool) : verdict := if b then permitted else refused.

(** Whether the headers of the platform have the call *)
Definition defined (p : Platform) (n : sysno) : bool :=
  match n with
  | nr_rseq => has_rseq p
  | nr_pipe => has_pipe p
  | nr_readlink => has_readlink p
  | nr_poll => has_poll p
  | nr_restart_syscall => has_restart p
  | _ => true
  end.

(** The policy, call by call *)
Definition rule (descriptor : Z) (n : sysno) (d : data) : verdict :=
  match n with
  | nr_write | nr_writev | nr_sendto => permit_if (negb (argument d 0 =? descriptor))
  | nr_fcntl => permit_if ((argument d 1 =? F_GETFL) || (argument d 1 =? F_SETFL))
  | nr_recvmsg => permit_if (argument d 0 =? descriptor)
  | nr_openat => permit_if (Z.land (argument d 2) writing_flags =? 0)
  | _ => permitted
  end.

(** Different calls have different numbers. *)
Definition distinct (p : Platform) : Prop :=
  forall m n, defined p m = true -> defined p n = true -> number p m = number p n -> m = n.

Section Decision.
Context (p : Platform) (descriptor : Z) (d : data).

Abbreviation run program := (exec program 0 d).

Lemma run_transmit l rest : run (concat (map (transmit p descriptor) l) ++ rest) (d_nr d) =
  if existsb (fun n => d_nr d =? number p n) l then Some (answer_of (permit_if (negb (argument d 0 =? descriptor))))
  else run rest (d_nr d).
Proof.
  induction l as [|n l IH]; [done|]. cbn [map concat existsb]. rewrite <-app_assoc. cbn [transmit app exec].
  destruct (d_nr d =? number p n); [|exact IH]. change (word d (offset_args 0)) with (argument d 0).
  by destruct (argument d 0 =? descriptor).
Qed.
Lemma run_flags rest : run (flags_only p ++ rest) (d_nr d) =
  if d_nr d =? number p nr_fcntl then Some (answer_of (rule descriptor nr_fcntl d)) else run rest (d_nr d).
Proof.
  cbn [flags_only app exec]. destruct (d_nr d =? number p nr_fcntl); [|done].
  change (word d (offset_args 1)) with (argument d 1). unfold rule.
  destruct (argument d 1 =? F_GETFL); [done|]. by destruct (argument d 1 =? F_SETFL).
Qed.
Lemma run_receive rest : run (receive_own p descriptor ++ rest) (d_nr d) =
  if d_nr d =? number p nr_recvmsg then Some (answer_of (rule descriptor nr_recvmsg d)) else run rest (d_nr d).
Proof.
  cbn [receive_own app exec]. destruct (d_nr d =? number p nr_recvmsg); [|done].
  change (word d (offset_args 0)) with (argument d 0). unfold rule. by destruct (argument d 0 =? descriptor).
Qed.
Lemma run_open rest : run (open_readable p ++ rest) (d_nr d) =
  if d_nr d =? number p nr_openat then Some (answer_of (rule descriptor nr_openat d)) else run rest (d_nr d).
Proof.
  cbn [open_readable app exec]. destruct (d_nr d =? number p nr_openat); [|done].
  change (word d (offset_args 2)) with (argument d 2). unfold rule. by destruct (Z.land (argument d 2) writing_flags =? 0).
Qed.
Lemma run_allowed l rest : run (concat (map (allow p) l) ++ rest) (d_nr d) =
  if existsb (fun n => d_nr d =? number p n) l then Some (answer_of permitted) else run rest (d_nr d).
Proof.
  induction l as [|n l IH]; [done|]. cbn [map concat existsb]. rewrite <-app_assoc. cbn [allow app exec].
  destruct (d_nr d =? number p n); [done|]. exact IH.
Qed.

Lemma filter_run : d_arch d = architecture p ->
  exec (filter p descriptor) 0 d 0 = Some (answer_of
    (if existsb (fun n => d_nr d =? number p n) transmitting then permit_if (negb (argument d 0 =? descriptor))
     else if d_nr d =? number p nr_fcntl then rule descriptor nr_fcntl d
     else if d_nr d =? number p nr_recvmsg then rule descriptor nr_recvmsg d
     else if d_nr d =? number p nr_openat then rule descriptor nr_openat d
     else permit_if (existsb (fun n => d_nr d =? number p n) (allowed_calls p)))).
Proof.
  intros Ha. unfold filter. cbn [app exec]. change (word d offset_arch) with (d_arch d). rewrite Ha, Z.eqb_refl.
  cbn [exec]. change (word d offset_nr) with (d_nr d).
  rewrite run_transmit, run_flags, run_receive, run_open, run_allowed.
  destruct (existsb _ transmitting); [done|]. repeat (destruct (d_nr d =? _); [done|]). by destruct (existsb _ _).
Qed.

(** A call of a name: the comparisons are those of names. *)
Lemma number_eqb n m : distinct p -> defined p n = true -> defined p m = true -> d_nr d = number p n ->
  (d_nr d =? number p m) = bool_decide (n = m).
Proof.
  intros Hd Hn Hm ->. case_bool_decide as Heq; [by subst; apply Z.eqb_refl|]. apply Z.eqb_neq. intros E. by apply Heq, Hd.
Qed.

Lemma allowed_defined m : m ∈ allowed_calls p -> defined p m = true.
Proof.
  intros Hm. unfold allowed_calls, optional in Hm. rewrite !elem_of_app in Hm.
  assert (forall l : list sysno, forallb (fun n => defined p n) l = true -> m ∈ l -> defined p m = true) as Hall.
  { intros l Hl Hin. rewrite forallb_forall in Hl. by apply Hl, list_elem_of_In. }
  destruct_or! Hm; (eapply Hall; [|exact Hm]); try reflexivity; case_match eqn:E; cbn; by rewrite ?E.
Qed.

Lemma existsb_numbers n l : distinct p -> defined p n = true -> (forall m, m ∈ l -> defined p m = true) -> d_nr d = number p n ->
  existsb (fun m => d_nr d =? number p m) l = existsb (fun m => bool_decide (n = m)) l.
Proof.
  intros Hd Hn Hl Hnr. induction l as [|m l IH]; [done|]. cbn [existsb].
  rewrite (number_eqb n m) by (done || apply Hl; by left). rewrite IH; [done|]. intros m' Hm'. apply Hl. by right.
Qed.

Lemma rest_allowed n : defined p n = true ->
  existsb (fun m => bool_decide (n = m)) (nr_fcntl :: nr_recvmsg :: nr_openat :: transmitting)
  || existsb (fun m => bool_decide (n = m)) (allowed_calls p) = true.
Proof.
  intros Hd. unfold allowed_calls, optional. cbn [existsb]. rewrite !existsb_app.
  destruct n; try reflexivity; cbn in Hd; destruct (has_rseq p), (has_pipe p), (has_readlink p), (has_poll p), (has_restart p);
    solve [reflexivity | discriminate].
Qed.
End Decision.

(** C15: The filter of the recorder decides every system call as its policy says,
    on any platform where different calls have different numbers: of the calls it
    names, writing and sending are refused for the packet socket alone, so
    nothing is transmitted through it; its descriptor cannot be duplicated,
    received from only with the calls that receive, and files open only for
    reading; every call it does not name is refused, and a call of another
    architecture ends the process.  The program fits the kernel's bound. *)
Theorem filter_decides p descriptor d : distinct p ->
  (d_arch d <> architecture p -> exec (filter p descriptor) 0 d 0 = Some (answer_of kill_process)) /\
  (forall n, d_arch d = architecture p -> defined p n = true -> d_nr d = number p n ->
     exec (filter p descriptor) 0 d 0 = Some (answer_of (rule descriptor n d))) /\
  (d_arch d = architecture p -> (forall n, defined p n = true -> d_nr d <> number p n) ->
     exec (filter p descriptor) 0 d 0 = Some (answer_of refused)) /\
  (length (filter p descriptor) <= 4096)%nat.
Proof.
  intros Hdist. split_and!.
  - intros Ha. unfold filter. cbn [app exec]. change (word d offset_arch) with (d_arch d).
    by apply Z.eqb_neq in Ha as ->.
  - intros n Ha Hn Hnr. rewrite filter_run by done. do 2 f_equal.
    rewrite (existsb_numbers p d n transmitting), (existsb_numbers p d n (allowed_calls p));
      try done; [|by apply allowed_defined|intros m Hm; unfold transmitting in Hm; rewrite !elem_of_cons, elem_of_nil in Hm; by destruct_or! Hm; subst].
    rewrite !(number_eqb p d n) by done. pose proof (rest_allowed p n Hn) as Hrest. revert Hrest.
    generalize (existsb (fun m => bool_decide (n = m)) (allowed_calls p)) as allowed. intros allowed. destruct n; try done; intros Hrest; vm_compute in Hrest; by subst allowed.
  - intros Ha Hn. rewrite filter_run by done.
    assert (forall m, defined p m = true -> (d_nr d =? number p m) = false) as Hne by (intros m Hm; by apply Z.eqb_neq, Hn).
    cbn [existsb transmitting]. rewrite !Hne by done. cbn [orb].
    replace (existsb _ (allowed_calls p)) with false; [done|]. symmetry. apply not_true_iff_false. intros H.
    apply existsb_exists in H as (m & Hm & Heq). rewrite Hne in Heq; [done|]. by apply allowed_defined, list_elem_of_In.
  - destruct p as [? ? [] [] [] [] []]; cbn; lia.
Qed.

(** *** Example: a send through the packet socket *)

Definition x86_64 : Platform :=
  {| architecture := 3221225534;
     number := fun n =>
       match n with
       | nr_read => 0 | nr_write => 1 | nr_close => 3 | nr_fstat => 5 | nr_poll => 7 | nr_lseek => 8 | nr_mmap => 9
       | nr_mprotect => 10 | nr_munmap => 11 | nr_brk => 12 | nr_rt_sigaction => 13 | nr_rt_sigprocmask => 14
       | nr_rt_sigreturn => 15 | nr_pread64 => 17 | nr_writev => 20 | nr_pipe => 22 | nr_sched_yield => 24
       | nr_madvise => 28 | nr_nanosleep => 35 | nr_getpid => 39 | nr_sendto => 44 | nr_recvfrom => 45 | nr_recvmsg => 47
       | nr_getsockopt => 55 | nr_exit => 60 | nr_fcntl => 72 | nr_readlink => 89 | nr_sigaltstack => 131
       | nr_gettid => 186 | nr_futex => 202 | nr_restart_syscall => 219 | nr_clock_gettime => 228
       | nr_clock_nanosleep => 230 | nr_exit_group => 231 | nr_openat => 257 | nr_newfstatat => 262
       | nr_readlinkat => 267 | nr_ppoll => 271 | nr_set_robust_list => 273 | nr_pipe2 => 293 | nr_getrandom => 318
       | nr_statx => 332 | nr_rseq => 334
       end;
     has_rseq := true; has_pipe := true; has_readlink := true; has_poll := true; has_restart := true |}.

Lemma x86_64_distinct : distinct x86_64.
Proof. intros m n _ _ H. destruct m, n; first [reflexivity | discriminate H]. Qed.

Definition send_through (fd : Z) : data :=
  {| d_nr := 44; d_arch := 3221225534; d_instruction_pointer := 0; d_args := [fd; 0; 64; 0; 0; 0] |}.

Lemma filter_decides_witness :
  exec (filter x86_64 3) 0 (send_through 3) 0 = Some (answer_of (rule 3 nr_sendto (send_through 3))) /\
  rule 3 nr_sendto (send_through 3) = refused /\ rule 3 nr_sendto (send_through 5) = permitted.
Proof.
  destruct (filter_decides x86_64 3 (send_through 3) x86_64_distinct) as (_ & H & _).
  split; [|split; reflexivity]. apply (H nr_sendto); reflexivity.
Defined.
End RecorderFilter.

(** ** The program *)

Module Recorder.
Import ConfigValue Text Effects Process RecorderFilter NodeSettings.
Local Open Scope Z_scope.

Abbreviation is_empty := OwnershipState.is_empty.

(** [RecorderCounters]: numbers of 64 bits *)
Record RecorderCounters := {
  packets : Z; bytes : Z; truncated : Z; invalid : Z; kernel_drops : Z; errors : Z; log_drops : Z }.
Definition no_counters : RecorderCounters :=
  {| packets := 0; bytes := 0; truncated := 0; invalid := 0; kernel_drops := 0; errors := 0; log_drops := 0 |}.

Definition receive (reported capacity : Z) (c : RecorderCounters) : RecorderCounters :=
  {| packets := u64 (packets c + 1); bytes := u64 (bytes c + reported);
     truncated := if capacity <? reported then u64 (truncated c + 1) else truncated c;
     invalid := if reported <? 14 then u64 (invalid c + 1) else invalid c;
     kernel_drops := kernel_drops c; errors := errors c; log_drops := log_drops c |}.
Definition add_error (c : RecorderCounters) : RecorderCounters :=
  {| packets := packets c; bytes := bytes c; truncated := truncated c; invalid := invalid c;
     kernel_drops := kernel_drops c; errors := u64 (errors c + 1); log_drops := log_drops c |}.
Definition add_kernel_drops (n : Z) (c : RecorderCounters) : RecorderCounters :=
  {| packets := packets c; bytes := bytes c; truncated := truncated c; invalid := invalid c;
     kernel_drops := u64 (kernel_drops c + n); errors := errors c; log_drops := log_drops c |}.
Definition add_log_drop (c : RecorderCounters) : RecorderCounters :=
  {| packets := packets c; bytes := bytes c; truncated := truncated c; invalid := invalid c;
     kernel_drops := kernel_drops c; errors := errors c; log_drops := u64 (log_drops c + 1) |}.

(** [recvmsg]: nothing is there, another error, or a frame with its whole
    length, whether a VLAN tag was taken out and whether the metadata was cut *)
Inductive receive_answer := nothing | failed | frame (count : Z) (vlan cut : bool).

Inductive recorder_call :=
| Shared (c : sys)                            (** what other programs do as well *)
| Capset (net_raw : bool)                     (** these capabilities and no others; success *)
| PacketSocket                                (** a raw socket that is bound to nothing *)
| NonBlocking (fd : Z)
| InterfaceIndex (name : string)              (** 0 when there is none *)
| InterfaceMtu (fd : Z) (name : string)
| VlanMetadata (fd : Z)
| SetReceiveBuffer (fd bytes : Z)
| BindInterface (fd index : Z)
| ReceiveBuffer (fd : Z)
| OpenTelemetry (node host : string) (port : Z) (secret : string)  (** the sink of UDP telemetry *)
| Heartbeat (node : string)
| InstallFilter (program : list BPF.instruction)  (** no new privileges, and the filter for all threads *)
| Receive (fd capacity : Z)
| Statistics (fd : Z)                         (** the frames that the kernel dropped since the last time *)
| WriteLog (bytes : string)                   (** to standard output: the count, negative for an error *)
| SleepAWhile.                                (** a millisecond *)

Definition recorder_answer (c : recorder_call) : Type :=
  match c with
  | Shared c => answer c
  | Capset _ | NonBlocking _ | VlanMetadata _ | SetReceiveBuffer _ _ | BindInterface _ _ | InstallFilter _ => bool
  | PacketSocket | InterfaceIndex _ | WriteLog _ => Z
  | InterfaceMtu _ _ | ReceiveBuffer _ | Statistics _ => option Z
  | OpenTelemetry _ _ _ _ => result unit
  | Receive _ _ => receive_answer
  | Heartbeat _ | SleepAWhile => unit
  end.

Abbreviation Rec := (prog recorder_call recorder_answer).
Definition rec_call (c : recorder_call) : Rec (recorder_answer c) := call c.

(** A program of other calls *)
Fixpoint shared {A} (p : Process.Prog A) : Rec A :=
  match p with
  | Ret a => Ret a
  | Fail e => Fail e
  | Do c k => Do (Shared c) (fun x => shared (k x))
  end.

#[local] Open Scope prog_scope.
Definition fails {A} (message : string) : Rec A := Fail (RuntimeError message).
Definition must (done : Rec bool) (message : string) : Rec unit :=
  let! good := done in if good : bool then Ret tt else fails message.

(** *** Secrets (secret_env of src/src/application_observer.hpp) *)

Definition file_name (path : string) : string := match rfind "/" path with Some n => sdrop (n + 1) path | None => path end.

(** The last character, if it is this one *)
Definition without_last (c : ascii) (s : string) : string :=
  if ends_with s (String c "") then stake (String.length s - 1) s else s.

Section Secret.
Context (parse_document : string -> result Value) (sha256 : string -> string).

Definition secret_file (path : string) : Process.Prog string :=
  let read path maximum := checked (sys_call (ReadDocument path maximum)) in
  let! value := read path 4096 in
  let! credentials := sys_call (Getenv "GRAPHX_CREDENTIALS") in
  match credentials with
  | None => Ret value
  | Some _ =>
      let metadata := slash (parent_path path) "generation.json" in
      let! before := read metadata 8192 in
      let! generation := of_result (parse_document before) in
      let! value := read path 4096 in
      let! pinned := of_result (let* members := at_ generation "members" in text_at members (file_name path)) in
      if negb (String.eqb pinned (sha256 value)) then throw "credential generation is incomplete"
      else
        let! after := read metadata 8192 in
        if negb (String.eqb before after) then throw "credential generation is incomplete" else Ret value
  end.

Definition secret_env (name : string) : Process.Prog string :=
  let variable name := let! value := sys_call (Getenv name) in Ret (default "" value) in
  let! inline_value := variable name in
  let! file_value := variable (name +:+ "_FILE") in
  if negb (is_empty inline_value) && negb (is_empty file_value)
  then throw (name +:+ " and " +:+ name +:+ "_FILE are mutually exclusive")
  else
    let! value :=
      (if is_empty file_value then Ret inline_value
       else let! value := secret_file file_value in
            Ret (without_last "013" (without_last "010" value))) in
    if 4096 <? size value then throw (name +:+ " exceeds 4096 bytes")
    else if negb (is_empty value) && (size value <? 32) then throw (name +:+ " must contain at least 32 bytes")
    else Ret value.
End Secret.

(** *** Receiving *)

Record Counting := { counters : RecorderCounters; next : Z; pending : string }.

Definition with_counters (f : RecorderCounters -> RecorderCounters) (s : Counting) : Counting :=
  {| counters := f (counters s); next := next s; pending := pending s |}.

(** At most [turns] frames *)
Fixpoint receive_frames (turns : nat) (fd capacity : Z) (c : RecorderCounters) : Rec RecorderCounters :=
  match turns with
  | O => Ret c
  | S turns =>
      let! answered := rec_call (Receive fd capacity) in
      match answered with
      | nothing => Ret c
      | failed => Ret (add_error c)
      | frame count vlan cut =>
          let c := if cut then add_error c else c in
          receive_frames turns fd capacity (receive (count + (if vlan then 4 else 0)) capacity c)
      end
  end.

(** The line that standard output gets; [pending] is what is left of one. *)
Definition report_line (c : RecorderCounters) (buffer : Z) : string :=
  "recorder packets=" +:+ to_string (packets c) +:+ " bytes=" +:+ to_string (bytes c)
  +:+ " truncated=" +:+ to_string (truncated c) +:+ " invalid=" +:+ to_string (invalid c)
  +:+ " kernel_drops=" +:+ to_string (kernel_drops c) +:+ " errors=" +:+ to_string (errors c)
  +:+ " log_drops=" +:+ to_string (log_drops c) +:+ " socket_buffer_bytes=" +:+ to_string buffer
  +:+ " persistence=none" +:+ Process.newline.

Definition report (fd buffer : Z) (id : string) (traced : bool) (s : Counting) : Rec Counting :=
  let! dropped := rec_call (Statistics fd) in
  let c := match dropped with Some n => add_kernel_drops n (counters s) | None => add_error (counters s) end in
  let '(c, line) := if is_empty (pending s) then (c, report_line c buffer) else (add_log_drop c, pending s) in
  (if traced then rec_call (Heartbeat id) else Ret tt);;;
  let! now := rec_call (Shared Now) in
  Ret {| counters := c; next := now + 1000; pending := line |}.

Definition write_pending (s : Counting) : Rec Counting :=
  if is_empty (pending s) then Ret s
  else
    let! n := rec_call (WriteLog (pending s)) in
    Ret (if 0 <? n then {| counters := counters s; next := next s; pending := sdrop (Z.to_nat n) (pending s) |} else s).

Fixpoint record (rounds : nat) (fd capacity buffer : Z) (id : string) (traced : bool) (s : Counting) : Rec unit :=
  match rounds with
  | O => shared spinning
  | S rounds =>
      let! stopped := rec_call (Shared Interrupted) in
      if stopped : bool then Ret tt
      else
        let! c := receive_frames 64 fd capacity (counters s) in
        let s := with_counters (fun _ => c) s in
        let! now := rec_call (Shared Now) in
        let! s := (if next s <=? now then report fd buffer id traced s else Ret s) in
        let! s := write_pending s in
        rec_call SleepAWhile;;;
        record rounds fd capacity buffer id traced s
  end.

(** *** Starting *)

Section Run.
Context (rounds fuel : nat) (parse_document : string -> result Value) (sha256 : string -> string)
        (regex_search : string -> string -> bool) (to_chars : spec_float -> string) (inet_pton : string -> option Z)
        (getenv : string -> option string) (normalized_schema runtime_types : string) (platform : Platform).

Definition restrict_recorder_descriptor (descriptor : Z) : Rec unit :=
  if descriptor <? 0 then Fail (InvalidArgument "invalid recorder descriptor")
  else must (rec_call (InstallFilter (filter platform descriptor))) "recorder seccomp prerequisite".

(** The socket, opened with the capability and left without it *)
Definition open_socket : Rec Z :=
  must (rec_call (Capset true)) "recorder requires initial NET_RAW capability";;;
  let! fd := rec_call PacketSocket in
  if fd <? 0 then fails "recorder requires initial NET_RAW capability"
  else
    must (rec_call (Capset false)) "cannot drop recorder capabilities";;;
    Ret fd.

Definition recorder_settings (node : NodeSettings) : result Value := at_ (resolved node) "recorder".

Definition is_attached (node : NodeSettings) : result bool :=
  if negb (contains (resolved node) "recorder") then Ok false
  else let* execution := at_ (resolved node) "execution" in let* kind := text_at execution "kind" in
       Ok (String.eqb kind "container").

(** The socket listens to its interface; its buffer *)
Definition bind_socket (node : NodeSettings) (fd : Z) : Rec Z :=
  let! recorder := of_result (recorder_settings node) in
  let! interface := of_result (text_at recorder "interface") in
  let! index := rec_call (InterfaceIndex interface) in
  if index =? 0 then fails "recorder interface missing"
  else if 16 <=? size interface then fails "recorder interface name"
  else
    let! mtu := rec_call (InterfaceMtu fd interface) in
    let! expected := (match mtu with Some _ => of_result (integer_at recorder "mtu") | None => Ret 0 end) in
    if negb (bool_decide (mtu = Some expected)) then fails "recorder interface MTU mismatch"
    else
      must (rec_call (VlanMetadata fd)) "recorder VLAN metadata prerequisite";;;
      must (let! sized := rec_call (SetReceiveBuffer fd 1048576) in
            if sized : bool then rec_call (BindInterface fd index) else Ret false) "recorder receive binding";;;
      let! buffer := rec_call (ReceiveBuffer fd) in
      match buffer with
      | Some buffer =>
          if (buffer <=? 0) || (2 * 1048576 <? buffer) then fails "recorder receive storage bound" else Ret buffer
      | None => fails "recorder receive storage bound"
      end.

(** Whether the recorder reports to the telemetry service *)
Definition open_telemetry (node : NodeSettings) : Rec bool :=
  let! telemetry := of_result (at_ (resolved node) "telemetry") in
  let! credential := of_result (at_ telemetry "credential") in
  if is_null credential then Ret false
  else
    let! secret := shared (secret_env parse_document sha256 "GRAPHX_TELEMETRY_SHARED_SECRET") in
    if is_empty secret then fails "recorder telemetry credentials"
    else
      let! id := of_result (node_id node) in
      let! host := of_result (text_at telemetry "host") in
      let! port := of_result (integer_at telemetry "port") in
      let! opened := rec_call (OpenTelemetry id host (u16 port) secret) in
      let! _ := of_result opened in
      Ret true.

Definition record_node (arguments : NodeArguments) (fd : Z) : Rec Z :=
  let! node := shared (load_node_settings fuel parse_document regex_search to_chars inet_pton getenv normalized_schema
                         runtime_types (a_config arguments) (a_node arguments) "vita.recorder") in
  let! attached := of_result (is_attached node) in
  if negb attached then fails "recorder requires normalized passive container attachment"
  else
    let! prepared := shared (await_node_network rounds arguments) in
    if negb prepared then Ret 0
    else
      let! buffer := bind_socket node fd in
      let! traced := open_telemetry node in
      must (rec_call (NonBlocking 1)) "recorder output binding";;;
      restrict_recorder_descriptor fd;;;
      let! started := shared (await_node_release rounds node arguments) in
      if negb started then Ret 0
      else
        let! recorder := of_result (recorder_settings node) in
        let! mtu := of_result (integer_at recorder "mtu") in
        let! now := rec_call (Shared Now) in
        let! id := of_result (node_id node) in
        record rounds fd (mtu + 22) buffer id traced {| counters := no_counters; next := now; pending := "" |};;;
        Ret 0.

Definition run_recorder (argv : list string) : Rec Z :=
  catch
    (let! fd := open_socket in
     must (rec_call (NonBlocking 1)) "recorder log binding";;;
     must (rec_call (NonBlocking 2)) "recorder log binding";;;
     let! _ := rec_call (Shared (Handlers true)) in
     let! arguments := of_result (node_arguments true argv) in
     record_node arguments fd)
    (fun e =>
       let! _ := rec_call (Shared (Log ("graphx-vita-recorder: " +:+ what e +:+ Process.newline))) in
       Ret 1).
End Run.
End Recorder.

(** ** Nothing is received before nothing can be sent *)

Module RecorderProofs.
Import ConfigValue Text Effects Process RecorderFilter NodeSettings Recorder.
Local Open Scope Z_scope.

Abbreviation ev c x := (@Effects.Event recorder_call recorder_answer c x).
Abbreviation Event := (@Effects.event recorder_call recorder_answer).

Section Run.
Context (rounds fuel : nat) (parse_document : string -> result Value) (sha256 : string -> string)
        (regex_search : string -> string -> bool) (to_chars : spec_float -> string) (inet_pton : string -> option Z)
        (getenv : string -> option string) (normalized_schema runtime_types : string) (platform : Platform)
        (argv : list string).

(** The process has no capability left. *)
Definition dropped (h : list Event) : Prop := ev (Capset false) true ∈ h.
(** The filter for this socket is installed. *)
Definition filtered (fd : Z) (h : list Event) : Prop := ev (InstallFilter (filter platform fd)) true ∈ h.
(** The runner has released this invocation. *)
Definition released (h : list Event) : Prop :=
  exists a, node_arguments true argv = Ok a /\
    ev (Shared (ReadDocument (a_release_file a) 128)) (Ok (a_release_token a)) ∈ h.

Definition guarded (h : list Event) (c : recorder_call) : Prop :=
  match c with
  | Capset true => h = []
  | Capset false | PacketSocket | Shared (Log _) => True
  | Receive fd _ => dropped h /\ filtered fd h /\ released h
  | _ => dropped h
  end.

(** A call of a recorder that has its socket *)
Definition plain (c : recorder_call) : Prop :=
  match c with Capset _ | PacketSocket | Receive _ _ => False | _ => True end.

Lemma guarded_plain h c : dropped h -> plain c -> guarded h c.
Proof. destruct c as [[]| | | | | | | | | | | | | | | |]; done. Qed.

Lemma dropped_more h h' : h ⊆ h' -> dropped h -> dropped h'.
Proof. intros Hs. apply Hs. Qed.

Lemma wp_plain {A} (p : Rec A) h : calls_only plain p -> dropped h -> wp guarded p h (fun h' _ => h ⊆ h').
Proof.
  intros Hp Hd. apply (wp_calls plain guarded (fun h' => h ⊆ h')); [done| |done].
  intros h' c Hs Hc. split; [apply guarded_plain; [by eapply dropped_more|done]|]. intros x y Hy. right. by apply Hs.
Qed.

(** Whatever follows a plain program still has what it found. *)
Lemma wp_plain_then {A B} (p : Rec A) (k : A -> Rec B) h Q : calls_only plain p -> dropped h ->
  (forall h' a, h ⊆ h' -> wp guarded (k a) h' Q) -> (forall h' e, Q h' (Throw e)) -> wp guarded (and_then p k) h Q.
Proof.
  intros Hp Hd Hk He. apply wp_and_then. eapply wp_mono; [|by apply wp_plain]. intros h' [a|e] Hs; [by apply Hk|apply He].
Qed.

Lemma plain_shared {A} (p : Process.Prog A) : calls_only plain (shared p).
Proof. induction p as [a|e|c k IH]; cbn; [done..|]. by split. Qed.

Lemma wp_do {A} c (k : recorder_answer c -> Rec A) h Q : plain c -> dropped h ->
  (forall x, dropped (ev c x :: h) -> wp guarded (k x) (ev c x :: h) Q) -> wp guarded (Do c k) h Q.
Proof. intros Hc Hd Hk. split; [by apply guarded_plain|]. intros x. apply Hk. by right. Qed.

(** A marker that is accepted was read with the token. *)
Lemma wp_marker n marker token code identity expiry deadline : forall h, dropped h ->
  wp guarded (shared (await_marker n marker token code identity expiry deadline)) h
    (fun h' r => h ⊆ h' /\ (r = Ok true -> ev (Shared (ReadDocument marker 128)) (Ok token) ∈ h')).
Proof.
  induction n as [|n IH]; intros h Hd; [by apply wp_do; [..|intros []]|].
  cbn [await_marker sys_call call and_then shared]. apply wp_do; [done..|]. intros [] Hd1; [split; [set_solver|done]|].
  cbn [and_then shared]. apply wp_do; [done..|]. intros status Hd2.
  destruct status; cbn [and_then shared].
  - apply wp_do; [done..|]. intros [bytes|e] Hd3; cbn [of_result and_then shared]; [|split; [set_solver|done]].
    destruct (String.eqb_spec bytes token) as [->|]; split; set_solver.
  - apply wp_do; [done..|]. intros now Hd3. cbn [and_then shared]. destruct (deadline <=? now); [split; [set_solver|done]|].
    apply wp_do; [done..|]. intros u Hd4. cbn [and_then shared]. eapply wp_mono; [|by apply IH].
    intros h' r [Hs Hr]. split; [set_solver|done].
  - split; [set_solver|done].
Qed.

Lemma wp_release node a h : dropped h ->
  wp guarded (shared (await_node_release rounds node a)) h
    (fun h' r => h ⊆ h' /\ (r = Ok true -> ev (Shared (ReadDocument (a_release_file a) 128)) (Ok (a_release_token a)) ∈ h')).
Proof.
  intros Hd. unfold await_node_release. destruct (node_id node) as [id|e]; [|by split].
  cbn [of_result and_then shared sys_call call]. apply wp_do; [done..|]. intros u Hd1. cbn [and_then shared].
  apply wp_do; [done..|]. intros now Hd2. cbn [and_then shared].
  destruct (let* startup := at_ (resolved node) "startup" in integer_at startup "max_wait_ms") as [wait|e]; cbn [of_result and_then shared];
    [|split; set_solver].
  eapply wp_mono; [|by apply wp_marker]. intros h' r [Hs Hr]. split; [set_solver|done].
Qed.

(** *** The calls of the loop, and of what comes before the filter *)

Definition looping (fd : Z) (c : recorder_call) : Prop := match c with Receive f _ => f = fd | _ => plain c end.

Lemma looping_shared {A} fd (p : Process.Prog A) : calls_only (looping fd) (shared p).
Proof. induction p as [a|e|c k IH]; cbn; [done..|]. by split. Qed.

Ltac recorder_calls :=
  repeat match goal with
  | |- calls_only _ (and_then _ _) => apply calls_and_then; [|intros]
  | |- calls_only _ (shared _) => first [apply plain_shared | apply looping_shared]
  | |- calls_only _ (rec_call _) => by apply calls_call
  | |- calls_only _ (must _ _) => apply calls_and_then; [|intros]
  | |- calls_only _ (of_result _) => apply calls_of_result
  | |- calls_only _ (Ret _) => done
  | |- calls_only _ (fails _) => done
  | |- calls_only _ (match ?x with _ => _ end) => destruct x
  end.

Lemma looping_receive fd capacity turns c : calls_only (looping fd) (receive_frames turns fd capacity c).
Proof. revert c; induction turns as [|turns IH]; intros c; cbn [receive_frames]; recorder_calls; apply IH. Qed.

Lemma looping_record fd capacity buffer id traced n s : calls_only (looping fd) (record n fd capacity buffer id traced s).
Proof.
  revert s; induction n as [|n IH]; intros s; cbn [record]; unfold report, write_pending; recorder_calls;
    first [apply looping_receive | apply IH].
Qed.

Lemma plain_bind node fd : calls_only plain (bind_socket node fd).
Proof. unfold bind_socket. recorder_calls. Qed.
Lemma plain_telemetry node : calls_only plain (open_telemetry parse_document sha256 node).
Proof. unfold open_telemetry. recorder_calls. Qed.

Lemma wp_record fd capacity buffer id traced n s h : dropped h -> filtered fd h -> released h ->
  wp guarded (record n fd capacity buffer id traced s) h (fun _ _ => True).
Proof.
  intros Hd Hf Hr. eapply wp_mono; [|apply (wp_calls (looping fd) guarded (fun h' => h ⊆ h'))]; [done|apply looping_record| |done].
  intros h' c Hs Hc. split; [|intros x; set_solver].
  destruct c; try (apply guarded_plain; [by eapply dropped_more|done]). cbn in Hc. subst. split_and!; [by apply Hs..|].
  destruct Hr as (a & Ha & Hr). exists a. split; [done|by apply Hs].
Qed.

(** *** The whole program *)

Lemma wp_node a fd h : node_arguments true argv = Ok a -> dropped h ->
  wp guarded (record_node rounds fuel parse_document sha256 regex_search to_chars inet_pton getenv normalized_schema
    runtime_types platform a fd) h (fun _ _ => True).
Proof.
  intros Ha Hd. unfold record_node.
  apply wp_plain_then; [apply plain_shared|done| |done]. intros h1 node H1.
  apply wp_and_then, wp_of_result. destruct (is_attached node) as [[]|]; [|done..]. cbn [negb].
  apply wp_plain_then; [apply plain_shared|by eapply dropped_more| |done]. intros h2 prepared H2.
  destruct prepared; [|done]. cbn [negb].
  assert (dropped h2) as Hd2 by (eapply dropped_more; [|exact Hd]; set_solver).
  apply wp_plain_then; [apply plain_bind|done| |done]. intros h3 buffer H3.
  apply wp_plain_then; [apply plain_telemetry|by eapply dropped_more| |done]. intros h4 traced H4.
  apply wp_plain_then; [unfold must; recorder_calls|eapply dropped_more; [|exact Hd2]; set_solver| |done]. intros h5 u H5.
  assert (dropped h5) as Hd5 by (eapply dropped_more; [|exact Hd2]; set_solver).
  unfold restrict_recorder_descriptor. destruct (fd <? 0); [done|]. cbn [must rec_call call and_then].
  apply wp_do; [done..|]. intros [] Hd6; [|done]. cbn [and_then].
  apply wp_and_then. eapply wp_mono; [|by apply wp_release]. intros h7 [started|e] [H7 Hr]; [|done].
  destruct started; [|done]. cbn [negb].
  assert (dropped h7) as Hd7 by (by eapply dropped_more).
  assert (filtered fd h7) as Hf7 by (apply H7; by left).
  assert (released h7) as Hr7 by (exists a; split; [done|by apply Hr]).
  apply wp_and_then, wp_of_result. destruct (recorder_settings node) as [recorder|]; [|done].
  apply wp_and_then, wp_of_result. destruct (integer_at recorder "mtu") as [mtu|]; [|done].
  cbn [rec_call call and_then]. apply wp_do; [done..|]. intros now Hd8. cbn [and_then].
  apply wp_and_then, wp_of_result. destruct (node_id node) as [id|]; [|done].
  apply wp_and_then. eapply wp_mono; [|apply wp_record]; [by intros ? [] ?|done|by right|].
  destruct Hr7 as (b & Hb & Hr7). exists b. split; [done|by right].
Qed.

Lemma wp_open : wp guarded open_socket [] (fun h r => match r with Ok _ => dropped h | Throw _ => True end).
Proof.
  unfold open_socket, must, rec_call. cbn [call and_then]. split; [done|]. intros []; [|done].
  split; [done|]. intros fd. cbn [and_then]. destruct (fd <? 0); [done|]. split; [done|]. intros []; [by left|done].
Qed.

Lemma wp_started fd h : dropped h ->
  wp guarded (must (rec_call (NonBlocking 1)) "recorder log binding";;; must (rec_call (NonBlocking 2)) "recorder log binding";;;
    let! _ := rec_call (Shared (Handlers true)) in let! arguments := of_result (node_arguments true argv) in
    record_node rounds fuel parse_document sha256 regex_search to_chars inet_pton getenv normalized_schema runtime_types platform
      arguments fd)%prog h (fun _ _ => True).
Proof.
  intros Hd. unfold must. apply wp_plain_then; [recorder_calls|done| |done]. intros h1 u H1.
  apply wp_plain_then; [recorder_calls|by eapply dropped_more| |done]. intros h2 u' H2.
  apply wp_plain_then; [recorder_calls|eapply dropped_more; [|exact Hd]; set_solver| |done]. intros h3 v H3.
  apply wp_and_then, wp_of_result. destruct (node_arguments true argv) as [a|] eqn:Ha; [|done].
  apply wp_node; [done|]. eapply dropped_more; [|exact Hd]. set_solver.
Qed.

Lemma run_guarded :
  wp guarded (run_recorder rounds fuel parse_document sha256 regex_search to_chars inet_pton getenv normalized_schema
    runtime_types platform argv) [] (fun _ _ => True).
Proof.
  unfold run_recorder. apply wp_catch, wp_and_then. eapply wp_mono; [|apply wp_open].
  intros h [fd|e] Hd; [|done]. eapply wp_mono; [|by apply wp_started]. by intros h' [a|e] _.
Qed.

(** C14: A recorder receives frames from its packet socket only after it has dropped
    every capability, after the filter for that very descriptor was accepted for
    all its threads, and after it read the token of its invocation in the release
    file; and it does nothing else with a capability than open the socket,
    which is bound to no interface before the capability is gone. *)
Theorem recorder_confined before c x after :
  reaches (run_recorder rounds fuel parse_document sha256 regex_search to_chars inet_pton getenv normalized_schema
    runtime_types platform argv) (before ++ ev c x :: after) ->
  guarded (rev before) c.
Proof. intros H. rewrite <-(app_nil_r (rev before)). by eapply wp_reaches, H; apply run_guarded. Qed.
End Run.

(** ** Example: a recorder that counts a frame *)

Definition recorder_value : Value :=
  Compile.obj [("contract_version", VInt 2); ("graph_version", VInt 3); ("node_id", VStr "rec"); ("graph_id", VStr "g");
    ("type", VStr "vita.recorder"); ("type_revision", VInt 1); ("parameters", VObj []); ("credentials", VObj []);
    ("bindings", VObj []); ("recorder", Compile.obj [("interface", VStr "gx0"); ("mtu", VInt 1500)]);
    ("execution", Compile.obj [("kind", VStr "container")]);
    ("telemetry", Compile.obj [("host", VStr "127.0.0.1"); ("port", VInt 7000); ("credential", VNull)]);
    ("readiness", Compile.obj [("timeout_ms", VInt 1000); ("kind", VStr "local-bound")]);
    ("startup", Compile.obj [("bind_before_connect", VBool true); ("release_barrier", VBool true); ("max_wait_ms", VInt 1000)])].
Definition recorder_document (text : string) : result Value :=
  if String.eqb text "types"
  then Ok (VArr [Compile.obj [("id", VStr "vita.recorder"); ("revision", VInt 1); ("parameters", VObj []); ("ports", VObj [])]])
  else if String.eqb text "schema" then Ok (Compile.obj [("properties", Compile.obj [("nodes", Compile.obj [("items", VObj [])])])])
  else Ok recorder_value.

(** One frame arrives; then the process is told to stop. *)
Definition frames (h : list Event) : nat :=
  length (List.filter (fun e : Event => match e with Effects.Event (Receive _ _) _ => true | _ => false end) h).
Definition token : string := "0123456789abcdef0123456789abcdef".
Definition recorder_host (h : list Event) (c : recorder_call) : option (recorder_answer c) :=
  match c as c return option (recorder_answer c) with
  | Shared c =>
      match c as c return option (answer c) with
      | ReadDocument path _ => Some (Ok (if String.eqb path "/run/config.json" then "{}" else token))
      | Lstat _ => Some (lstat_found {| st_kind := file_regular; st_nlink := 1; st_mode := 384; st_uid := 0; st_gid := 0; st_size := 40; st_dev := 8; st_ino := 9; st_mtime := 0 |})
      | Now => Some 0
      | Interrupted => Some (1 <? Z.of_nat (frames h))
      | Print _ | Handlers _ => Some tt
      | _ => None
      end
  | Capset _ | NonBlocking _ | VlanMetadata _ | SetReceiveBuffer _ _ | BindInterface _ _ | InstallFilter _ => Some true
  | PacketSocket => Some 3
  | InterfaceIndex _ => Some 7
  | InterfaceMtu _ _ => Some (Some 1500)
  | ReceiveBuffer _ => Some (Some 2097152)
  | Statistics _ => Some (Some 0)
  | WriteLog s => Some (size s)
  | Receive _ _ => Some (match frames h with O => frame 60 true false | _ => nothing end)
  | OpenTelemetry _ _ _ _ => Some (Ok tt)
  | Heartbeat _ | SleepAWhile => Some tt
  end.
Definition recorder_program : Rec Z :=
  run_recorder 3 9 recorder_document (fun s => s) (fun _ _ => true) (fun _ => "") (fun _ => Some 1) (fun _ => None) "schema" "types"
    x86_64 ["--config"; "/run/config.json"; "--node"; "rec"; "--release-file"; "/run/release"; "--release-token"; token].
Definition recorder_run : list Event * option (result Z) := simulate recorder_host recorder_program [].
(** The calls before the frame *)
Fixpoint before_receive (l : list Event) : list Event :=
  match l with
  | [] => []
  | e :: l => match e with Effects.Event (Receive _ _) _ => [] | _ => e :: before_receive l end
  end.
Definition recorder_before : list Event := before_receive recorder_run.1.

Lemma recorder_confined_witness :
  guarded x86_64 ["--config"; "/run/config.json"; "--node"; "rec"; "--release-file"; "/run/release"; "--release-token"; token]
    (rev recorder_before) (Receive 3 1522) /\ recorder_run.2 = Some (Ok 0).
Proof.
  assert (reaches recorder_program (recorder_before ++ ev (Receive 3 1522) (frame 60 true false)
            :: drop (S (length recorder_before)) recorder_run.1)) as H.
  { match goal with |- reaches _ ?l => replace l with recorder_run.1 by (vm_compute; reflexivity) end.
    apply (simulate_reaches recorder_host). }
  split; [|vm_compute; reflexivity]. unfold recorder_program in H. eapply recorder_confined. exact H.
Defined.
End RecorderProofs.
